(* ===== verification/_CoqProject ===== *)
-Q . S2P
Prelude.v
PbStream.v
PbCommon.v
PbCodec.v
PbSpec.v
PbMemory.v
PbEncode.v
PbWire.v
PbAdvance.v
PbHeap.v
PbDecode.v
PbFuel.v
PbSep.v
PbTypes.v
PbRelease.v
PbItem.v
PbField.v
PbMessage.v
PbLoop.v
PbSafe.v
PbGuarantee.v
PbValue.v
PbRoundtrip.v
Alloc.v
Qsort.v
Mem.v
Cbs.v
CbsSpec.v
Cbb.v
CbbSpec.v
CbbProps.v
Unicode.v
Ber.v
ConstTime.v
Base64.v
Bio.v
BioPair.v
BioLive.v
Buf.v
BioMem.v
BioMemSpec.v
BioAsn1.v
Poly1305.v
Poly1305Spec.v
ChaCha.v
ChaChaSpec.v
Aead.v
AeadSpec.v
Lhash.v
LhashSpec.v
Stack.v
StackSpec.v
