(* ===== verification/Prelude.v ===== *)
(** * The C core of an admin panel's Firestore connection

    The program is a Flutter application that administers a Firestore database.
    What it computes in C is under src/ios/Pods: documents and queries are
    protocol-buffer messages that nanopb turns into bytes, gRPC carries the
    bytes, and BoringSSL protects the connection.  This development models the
    parts of that path where bytes are parsed, built and moved, function by
    function, and proves them correct.

    ** Conventions

    A C function that returns a status runs in the monad [M S] of this file: [S]
    is the object it mutates (a stream, a reader, a writer, a store of BIOs), the
    outcome is [Ok], [Fail] for the error return, or [Stuck] for what C leaves
    undefined: an access outside an object, a failed assertion, a use of freed
    memory.  Reads of a window are checked where the code indexes into it, so a
    missing check shows as [Stuck].  The state is threaded through failures as well, since callers see
    it.  A [uint8_t] is a byte; every wider integer is a [Z] and the conversions
    of the code are written out ([u8], [u32], [u64], [sext]).  A loop that is not
    structural takes fuel and is [Stuck] without it, so a theorem that a run is
    [Ok], or never [Stuck], says that the fuel is enough.

    ** The parts

    nanopb (src/ios/Pods/nanopb):
    - PbStream.v: [pb_istream_t] and [pb_ostream_t], [pb_read], [pb_write];
      buffer, callback and sizing streams (pb_decode.c, pb_encode.c).
    - PbCommon.v: field descriptors (pb.h) and the iterator (pb_common.c).
    - PbCodec.v: varints, zigzag, fixed-width values, tags, skipping, substreams
      and the scalar encoders and decoders (pb_encode.c, pb_decode.c).
    - PbSpec.v: round trips, memory safety and error behaviour of the above.
    - PbMemory.v: the bytes of the structures of messages, by address.
      PbEncode.v: the message encoder ([pb_encode] in pb_encode.c) over them.
      Descriptors are looked up by address, so message types may be recursive.
      PbWire.v: the wire format of a message, and that the encoder writes it.
    - PbHeap.v: the heap, with malloc and local variables as the class [Machine].
      PbDecode.v: the message decoder and [pb_release] (the upper half of
      pb_decode.c) over it.  PbFuel.v: more fuel never changes what it does.
      PbAdvance.v: its stream operations only move forward.
    - The safety of the decoder.  PbSep.v: assertions on heaps as a logic of
      Iris's proof mode, and the weakest preconditions [wp] of the decoder's
      steps.  PbTypes.v: the types of messages and what a structure of a type owns,
      at one of four levels (fresh, clear, filled, broken).  PbRelease.v: default
      values and release.  PbItem.v: the decoders of values, and the class
      [Submessages] that states what the functions on messages promise to those
      on fields.  PbField.v: fields.  PbMessage.v: unions, and any field of a message.
      PbLoop.v: [pb_decode_noinit] of one message.  PbSafe.v: the instance of
      [Submessages], by recursion on the nesting.  PbGuarantee.v: the theorems, in
      terms of memory before and after, and what they need.
    - The values of messages.  PbValue.v: what a structure means, with its numbers,
      byte strings, texts and submessages, the plain message types, and that the
      encoder writes the value.  PbRoundtrip.v: that the decoder yields it again,
      from one item over one record and one member to a whole message.

    BoringSSL, byte strings (src/ios/Pods/BoringSSL-GRPC/src/crypto/bytestring):
    - Cbs.v and CbsSpec.v: the reader (cbs.c) against a declarative grammar of
      DER and BER elements.
    - Alloc.v: the allocator's contract as the class [Allocator], with
      OPENSSL_malloc, OPENSSL_realloc and OPENSSL_free, against which every client
      is proved; its instances are a reliable and a bounded one.  The class
      [Accounting] adds which blocks are owed to the allocator; its instance
      [ledger] counts the blocks in use, refuses the requests a list says, and
      stops at a free of a block that is not in use.
      Mem.v: the allocator itself (mem.c), with its prefix and its cleansing, over
      the blocks of the C library; it is another instance.  Also the string
      functions of mem.c, and the functions of cbs.c that copy into the heap.
    - Cbb.v: the writer (cbb.c, asn1_compat.c).  CbbSpec.v: its abstract state, a
      stack of the contents of the open children, and the refinement of every
      operation, in a block that grows or in a caller's buffer with the room it
      has.  CbbProps.v: round trips with the reader, SET OF, errors.
    - Qsort.v: what the C library's qsort promises, as a property of a parameter,
      with a function that keeps it; the SET OF of Cbb.v and Stack.v sort with it.
    - Unicode.v: the code-point readers and writers (unicode.c).
    - Ber.v: the conversion of BER to DER (ber.c), a client of both sides.

    BoringSSL, the rest (src/ios/Pods/BoringSSL-GRPC/src/crypto):
    - ConstTime.v: constant-time comparisons and selections (internal.h).
    - Base64.v: block and streaming base64 (base64/base64.c), which uses them.
    - Bio.v: the generic layer of BIOs over a method table, and their reference
      counts (bio/bio.c, refcount_lock.c).  BioPair.v: BIO pairs (bio/pair.c), an
      instance of the table, in a store where the two ends point to each other.
      BioLive.v: what is written into one end arrives at the other.
    - Buf.v: growing buffers (buf/buf.c), and BioMem.v: memory BIOs over them
      (bio/bio_mem.c), another instance of the table.  BioMemSpec.v: queues, and
      that a memory BIO is one.  BioAsn1.v: reading an ASN.1 element from a BIO
      ([BIO_read_asn1] of bio.c), for any BIO that keeps the class [Source], which
      memory BIOs do.
    - Stack.v: growing arrays of pointers (stack/stack.c).  StackSpec.v: that
      they are lists with a flag for their order.
    - Lhash.v: chained hash tables over a store of items (lhash/lhash.c), with
      the addresses that new items get as the class [Addresses].
      LhashSpec.v: that they are finite maps.
    - ChaCha.v: ChaCha20, HChaCha20 and SipHash in portable C (chacha/chacha.c,
      siphash/siphash.c).  ChaChaSpec.v: their reference definitions on matrices
      and words, and that the code computes them.
    - Poly1305.v: the Poly1305 authenticator in portable C (poly1305/poly1305.c).
      Poly1305Spec.v: the polynomial modulo 2^130 - 5 that it evaluates.
    - Aead.v: authenticated encryption, the generic layer over a method table
      (fipsmodule/cipher/aead.c) and its instances ChaCha20-Poly1305 and
      XChaCha20-Poly1305 (cipher_extra/e_chacha20poly1305.c), on addresses in one
      memory.  AeadSpec.v: the class [Implements], which states what an instance
      promises the generic layer, and the theorems about sealing and opening.

    A state corresponds to the C object field by field, with these exceptions: a
    window on foreign memory ([CBS], [pb_istream_t] over a buffer) is the list of
    the bytes it still covers; a [CBB *] is the depth of the writer in its chain;
    a BIO's [ptr] is the structure it owns, or the address of its buffer.

    ** What the theorems show

    - The message encoder writes exactly what the wire format says of the fields
      in memory, in the size it announces.
    - Round trips: whole messages of nanopb, whatever their nesting: what is encoded
      decodes to the same value in any structure, and nothing else changes; varints,
      tags, scalar fields and substreams below them; ASN.1
      elements and integers, length-prefixed blocks, code points and base64.
    - Exactness: the DER parser accepts the canonical encodings and no others,
      BER extends it; UTF-8 and base64 accept what their specifications list.
      [BIO_read_asn1] takes from a BIO, however it cuts its bytes, the element that
      the DER parser finds in front of them, and leaves the rest.
    - Cryptography: ChaCha20, Poly1305 and SipHash on machine words compute
      their definitions on numbers, however the input is cut into updates; the
      values for which the last carry of Poly1305 is lost are told exactly.
      Sealing is what RFC 8439 says, for as many bytes as the RFC defines a key
      stream; what is sealed opens again, opening accepts one tag, and errors leave
      zeros; in place or not, by addresses.
    - Refinement: the writer with its placeholders and reallocations implements a
      stack of byte strings, and fails only for want of room or memory or for a
      length that does not fit; a stack of pointers implements a list, its binary
      search the scan from the start; a hash table implements a map, through every
      resizing and every iteration that deletes; both fail only where the
      allocator refuses the very request that is made; a SET OF is sorted as octet
      strings; a BIO pair implements two bounded queues, for every
      interleaving of calls, and a memory BIO one that grows; streaming base64 implements one-shot base64; the allocator
      implements a map from addresses to objects, and what it gives back to the C
      library is zeros.
    - The message decoder, for every type of message and every input: it ends, and
      its result does not depend on the fuel; it keeps to the structure and to its
      own blocks; it leaves a message that is what its type says, which [pb_release]
      frees, or nothing; and so for any sequence of its uses.
    - Liveness: when the two ends of a BIO pair take turns, everything one side has
      to send arrives at the other, in order, within a bound on the rounds.
    - Safety: readers, writers and decoders never leave their buffers, whatever
      the input; assertions hold; freeing one BIO of a pair leaves no pointer to
      it behind; a deep copy of a stack that fails frees what it made.
    - Memory: stacks and hash tables give back what they took from the allocator,
      whichever requests are refused, and free nothing else; so does a BIO pair in
      an execution on the ledger, and freeing both ends frees its six blocks.
    - Errors: failed writers stay failed, limits are refused; where the code
      accepts what it means to refuse, or computes something else than it means
      to, a theorem says exactly when and what happens: the lost carry of Poly1305,
      nested BER that is not found, varints that are too long.

    ** Bounds and fuel

    Fuel is the length of the input for parsers and encoders, the nesting limit
    plus one for the recursive BER scan, the nesting depth of a message for
    its encoder; for the decoder of messages the bytes left in the stream plus one,
    since every level of the input and every field takes a byte, and for the
    nesting of its structures that many times the greatest rank of a type; the logarithm of its length for the search of a stack, which
    its length bounds, the number of items plus one for a chain of a hash table, two turns for the copying loops of a
    BIO pair (the ring wraps at most once), the number of BIOs plus one for a
    walk along a chain, and for [BIO_read_asn1] more than the bytes of the input.

    ** Not modelled

    In the message decoder, structures with members whose count overlaps them (a
    fixed number of submessages, or fewer than four bytes) are outside the types,
    as PbGuarantee.v explains, and so are messages with extensions, whose code is
    translated all the same; blocks are smaller than 4 GB, since [pb_size_t] counts
    items in 32 bits.  That a decoded message has the value of its input is proved
    of messages whose members are optional or repeated and in the structure itself;
    for members behind pointers, unions, required and callback fields it is proved
    of single fields.  The stack does not overflow.

    The assembly and NEON variants of the symmetric primitives, AES; big numbers,
    elliptic curves, X.509 and the FIPS module.  The C++ code (TLS, gRPC, Firebase, Abseil,
    leveldb), the Objective-C code and the Dart application are in other
    languages.  The C library's allocator, its threads and sockets, and user
    callbacks are parameters with stated contracts. *)
From Stdlib Require Import ZArith Lia Bool.
From Stdlib Require Strings.Byte.
From coqutil Require Import Byte Word.LittleEndianList.
From stdpp Require Import base list numbers gmap.

Declare Scope c_scope.
Delimit Scope c_scope with c.
Local Open Scope Z_scope.

(** ** Bytes and machine words *)

(** A [uint8_t] is a [byte]; [u8] reads it as an integer and [b8] is the
    conversion of an integer to [uint8_t] (reduction modulo 256). *)
Notation u8 := byte.unsigned.
Notation b8 := byte.of_Z.

(** [wrap w z] is the value of [z] converted to a [w]-bit unsigned type. *)
Definition wrap (w z : Z) : Z := z mod 2 ^ w.
(** [sext w z] is the value of the [w]-bit pattern [z] as a signed integer. *)
Definition sext (w z : Z) : Z :=
  let u := wrap w z in if u <? 2 ^ (w - 1) then u else u - 2 ^ w.

Notation u16 := (wrap 16).
Notation u32 := (wrap 32).
Notation u64 := (wrap 64).
Notation SIZE_MAX := (2 ^ 64 - 1).
Notation INT_MAX := (2 ^ 31 - 1).

Definition in_word (w z : Z) : Prop := 0 <= z < 2 ^ w.

#[export] Instance byte_eq_dec : EqDecision byte := Strings.Byte.byte_eq_dec.

(** The number of elements of a buffer as a [size_t]. *)
Definition zlen {A} (l : list A) : Z := Z.of_nat (length l).
Definition ztake {A} (n : Z) (l : list A) : list A := take (Z.to_nat n) l.
Definition zdrop {A} (n : Z) (l : list A) : list A := drop (Z.to_nat n) l.
(** [l[i]]; reads out of the buffer give [x00] and every use is guarded. *)
Definition znth (l : list byte) (i : Z) : byte := nth (Z.to_nat i) l Byte.x00.
(** [memcpy(l + off, bs, length bs)] inside the buffer [l]. *)
Definition splice {A} (l : list A) (off : Z) (bs : list A) : list A :=
  ztake off l ++ bs ++ zdrop (off + zlen bs) l.

Definition zeros (n : Z) : list byte := repeat Byte.x00 (Z.to_nat n).

(** ** Byte order *)

Definition be_value (l : list byte) : Z := le_combine (rev l).
Definition be_split (n : nat) (z : Z) : list byte := rev (le_split n z).

(** ** Tactics *)

(** Case analysis on the tests of executable definitions, turning the boolean
    comparisons of [Z] into propositions. *)
Ltac zbool :=
  rewrite ?andb_true_iff, ?andb_false_iff, ?orb_true_iff, ?orb_false_iff,
    ?negb_true_iff, ?negb_false_iff, ?Z.eqb_eq, ?Z.eqb_neq, ?Z.ltb_lt,
    ?Z.ltb_ge, ?Z.leb_le, ?Z.leb_gt in *.

Ltac zif :=
  match goal with
  | |- context [ (if ?b then _ else _) ] => destruct b eqn:?
  end.
Ltac zif_in H :=
  match type of H with
  | context [ (if ?b then _ else _) ] => destruct b eqn:?
  end.

(** Unfold the length and slicing abbreviations and push [length] through. *)
Ltac zlen_simpl :=
  unfold zlen, ztake, zdrop, zeros in *;
  repeat (rewrite ?length_app, ?length_take, ?length_drop, ?length_rev,
    ?length_le_split, ?length_map, ?repeat_length in *; cbn [length] in *).
Ltac zlia := zlen_simpl; zbool; lia.

(** The range of every byte of the goal, for [lia]. *)
Ltac byte_bounds :=
  repeat match goal with
  | |- context [u8 ?b] =>
      lazymatch goal with
      | _ : 0 <= u8 b < 2 ^ 8 |- _ => fail
      | _ => pose proof (byte.unsigned_range b)
      end
  | H : context [u8 ?b] |- _ =>
      lazymatch goal with
      | _ : 0 <= u8 b < 2 ^ 8 |- _ => fail
      | _ => pose proof (byte.unsigned_range b)
      end
  end; change (2 ^ 8) with 256 in *.

(** ** Lemmas on words *)

Create HintDb words discriminated.
Create Rewrite HintDb words.

Lemma wrap_small w z : in_word w z -> wrap w z = z.
Proof. intros H; apply Z.mod_small; exact H. Qed.

Lemma wrap_range w z : 0 <= w -> in_word w (wrap w z).
Proof. intros H; apply Z.mod_pos_bound; apply Z.pow_pos_nonneg; lia. Qed.

Lemma wrap_wrap w z : 0 <= w -> wrap w (wrap w z) = wrap w z.
Proof. intros H; apply wrap_small, wrap_range, H. Qed.

Lemma sext_small w z : 0 < w -> - 2 ^ (w - 1) <= z < 2 ^ (w - 1) -> sext w z = z.
Proof.
  intros Hw Hz. unfold sext, wrap.
  assert (E : 2 ^ w = 2 * 2 ^ (w - 1)) by (rewrite <- Z.pow_succ_r by lia; f_equal; lia).
  destruct (Z_lt_dec z 0).
  - replace (z mod 2 ^ w) with (z + 2 ^ w).
    + destruct (Z.ltb_spec (z + 2 ^ w) (2 ^ (w - 1))); lia.
    + apply Z.mod_unique with (q := -1); lia.
  - rewrite Z.mod_small by lia. destruct (Z.ltb_spec z (2 ^ (w - 1))); lia.
Qed.

Lemma sext_range w z : 0 < w -> - 2 ^ (w - 1) <= sext w z < 2 ^ (w - 1).
Proof.
  intros Hw. unfold sext, wrap.
  assert (E : 2 ^ w = 2 * 2 ^ (w - 1)) by (rewrite <- Z.pow_succ_r by lia; f_equal; lia).
  pose proof (Z.mod_pos_bound z (2 ^ w) (Z.pow_pos_nonneg 2 w ltac:(lia) ltac:(lia))).
  destruct (Z.ltb_spec (z mod 2 ^ w) (2 ^ (w - 1))); lia.
Qed.

(** Narrowing forgets what widening added. *)
Lemma wrap_narrow w w' z : 0 <= w <= w' -> wrap w (wrap w' z) = wrap w z.
Proof.
  intros H. unfold wrap. rewrite <- Znumtheory.Zmod_div_mod; try reflexivity;
    try (apply Z.pow_pos_nonneg; lia).
  exists (2 ^ (w' - w)). rewrite <- Z.pow_add_r by lia. f_equal; lia.
Qed.

Lemma sext_wrap w w' z : 0 <= w <= w' -> sext w (wrap w' z) = sext w z.
Proof. intros H. unfold sext. rewrite wrap_narrow by exact H. reflexivity. Qed.

Lemma wrap_sext w z : 0 <= w -> wrap w (sext w z) = wrap w z.
Proof.
  intros Hw. unfold sext. destruct (_ <? _); [apply wrap_wrap, Hw|].
  unfold wrap. rewrite <- (Z.mod_mod z (2 ^ w)) at 2 by (apply Z.pow_nonzero; lia).
  replace (z mod 2 ^ w - 2 ^ w) with (z mod 2 ^ w + (-1) * 2 ^ w) by lia.
  apply Z.mod_add, Z.pow_nonzero; lia.
Qed.

Lemma u8_b8 z : u8 (b8 z) = z mod 256.
Proof. apply byte.unsigned_of_Z. Qed.

Lemma b8_u8 b : b8 (u8 b) = b.
Proof. apply byte.of_Z_unsigned. Qed.

Lemma u8_b8_small z : 0 <= z < 256 -> u8 (b8 z) = z.
Proof. intros H; rewrite u8_b8; apply Z.mod_small, H. Qed.

Lemma u8_range b : 0 <= u8 b < 256.
Proof. apply byte.unsigned_range. Qed.

Lemma u8_inj a b : u8 a = u8 b -> a = b.
Proof. apply byte.unsigned_inj. Qed.

Lemma b8_eq a b : a mod 256 = b mod 256 -> b8 a = b8 b.
Proof. intros H; apply u8_inj; rewrite !u8_b8; exact H. Qed.

#[export] Hint Resolve wrap_small wrap_range u8_range : words.
#[export] Hint Rewrite u8_b8 b8_u8 : words.

(** An or of a number with low zeros and a small one is a sum. *)
Lemma lor_shiftl_add a b k :
  0 <= k -> 0 <= b < 2 ^ k -> Z.lor (Z.shiftl a k) b = a * 2 ^ k + b.
Proof.
  intros Hk Hb. rewrite <- Z.shiftl_mul_pow2 by lia.
  symmetry.
  rewrite Z.add_nocarry_lxor, Z.lxor_lor; try reflexivity;
    apply Z.bits_inj'; intros i Hi; rewrite Z.land_spec, Z.bits_0;
    (destruct (Z_lt_dec i k);
     [ rewrite Z.shiftl_spec_low by lia; reflexivity
     | rewrite <- (Z.mod_small b (2 ^ k)) by lia;
       rewrite Z.mod_pow2_bits_high by lia; apply andb_false_r ]).
Qed.

Lemma land_ones_mod a k : 0 <= k -> Z.land a (2 ^ k - 1) = a mod 2 ^ k.
Proof. intros Hk. rewrite <- Z.land_ones by lia. rewrite Z.ones_equiv. f_equal; lia. Qed.

Lemma shiftr_div a k : 0 <= k -> Z.shiftr a k = a / 2 ^ k.
Proof. apply Z.shiftr_div_pow2. Qed.

(** ** Lemmas on buffers *)

Lemma zlen_nonneg {A} (l : list A) : 0 <= zlen l.
Proof. unfold zlen; lia. Qed.

Lemma zlen_app {A} (l k : list A) : zlen (l ++ k) = zlen l + zlen k.
Proof. unfold zlen; rewrite length_app; lia. Qed.

Lemma zlen_cons {A} (x : A) l : zlen (x :: l) = 1 + zlen l.
Proof. unfold zlen; cbn [length]; lia. Qed.

Lemma zlen_nil {A} : zlen (@nil A) = 0.
Proof. reflexivity. Qed.

Lemma ztake_app {A} (l k : list A) n : n = zlen l -> ztake n (l ++ k) = l.
Proof. intros ->; unfold ztake, zlen. rewrite Nat2Z.id. apply take_app_length. Qed.

Lemma zdrop_app {A} (l k : list A) n : n = zlen l -> zdrop n (l ++ k) = k.
Proof. intros ->; unfold zdrop, zlen. rewrite Nat2Z.id. apply drop_app_length. Qed.

Lemma ztake_all {A} (l : list A) n : n = zlen l -> ztake n l = l.
Proof. intros ->; unfold ztake, zlen. rewrite Nat2Z.id. apply firstn_all. Qed.

Lemma zlen_ztake {A} (l : list A) n : 0 <= n <= zlen l -> zlen (ztake n l) = n.
Proof. intros H; unfold zlen, ztake in *. rewrite length_take. lia. Qed.

Lemma zlen_zdrop {A} (l : list A) n : 0 <= n <= zlen l -> zlen (zdrop n l) = zlen l - n.
Proof. intros H; unfold zlen, zdrop in *. rewrite length_drop. lia. Qed.

Lemma ztake_zdrop {A} (l : list A) n : ztake n l ++ zdrop n l = l.
Proof. apply take_drop. Qed.

Lemma zlen_zeros n : 0 <= n -> zlen (zeros n) = n.
Proof. intros H; unfold zlen, zeros; rewrite repeat_length; lia. Qed.

Lemma zlen_splice {A} (l : list A) off bs :
  0 <= off -> off + zlen bs <= zlen l -> zlen (splice l off bs) = zlen l.
Proof.
  intros H1 H2; unfold splice. pose proof (zlen_nonneg bs).
  rewrite !zlen_app, zlen_ztake, zlen_zdrop by lia. lia.
Qed.

Lemma splice_app {A} (x y z d : list A) off :
  off = zlen x -> zlen d = zlen y -> splice (x ++ y ++ z) off d = x ++ d ++ z.
Proof.
  intros -> H. unfold splice. rewrite ztake_app by reflexivity. do 2 f_equal.
  rewrite app_assoc. apply zdrop_app. rewrite zlen_app. lia.
Qed.

#[export] Hint Rewrite @zlen_app @zlen_cons @zlen_nil : words.

(** ** Parts of objects *)

(** The [n] bytes at [off]. *)
Definition slice (bs : list byte) (off n : Z) : list byte := ztake n (zdrop off bs).

Lemma zlen_slice bs off n : 0 <= off -> 0 <= n -> off + n <= zlen bs -> zlen (slice bs off n) = n.
Proof. intros. unfold slice. rewrite zlen_ztake; [reflexivity | rewrite zlen_zdrop by lia; lia]. Qed.

Lemma slice_all bs : slice bs 0 (zlen bs) = bs.
Proof. unfold slice, ztake, zdrop, zlen. rewrite Nat2Z.id. cbn. rewrite drop_0. apply firstn_all. Qed.

Lemma splice_slice bs off n : 0 <= off -> 0 <= n -> off + n <= zlen bs -> splice bs off (slice bs off n) = bs.
Proof.
  intros Ho Hn Hl. unfold splice. rewrite zlen_slice by assumption. unfold slice, ztake, zdrop.
  rewrite Z2Nat.inj_add, <- drop_drop by lia. rewrite take_drop. apply take_drop.
Qed.

Lemma slice_slice bs o1 n1 o2 n2 : 0 <= o1 -> 0 <= o2 -> 0 <= n2 -> o2 + n2 <= n1 ->
  slice (slice bs o1 n1) o2 n2 = slice bs (o1 + o2) n2.
Proof.
  intros H1 H2 H3 H4. unfold slice, ztake, zdrop.
  rewrite skipn_firstn_comm, take_take, drop_drop. f_equal; [lia|]. f_equal. lia.
Qed.

Lemma slice_whole bs n : zlen bs = n -> slice bs 0 n = bs.
Proof. intros <-. apply slice_all. Qed.

Lemma slice_zdrop bs o1 o2 n : 0 <= o1 -> 0 <= o2 -> slice (zdrop o1 bs) o2 n = slice bs (o1 + o2) n.
Proof. intros H1 H2. unfold slice, ztake, zdrop. rewrite drop_drop. do 2 f_equal. lia. Qed.

Lemma slice_lookup bs o n i : 0 <= o -> slice bs o n !! i = if decide (Z.of_nat i < n) then bs !! (Z.to_nat o + i)%nat else None.
Proof.
  intros Ho. unfold slice, ztake, zdrop. destruct (decide _).
  - rewrite lookup_take_lt by lia. apply lookup_drop.
  - apply lookup_take_ge. lia.
Qed.

Lemma splice_lookup (bs : list byte) o new i : 0 <= o -> o + zlen new <= zlen bs ->
  splice bs o new !! i = if decide (o <= Z.of_nat i < o + zlen new) then new !! (i - Z.to_nat o)%nat else bs !! i.
Proof.
  intros Ho Hl. unfold splice. assert (Hz : length (ztake o bs) = Z.to_nat o) by (unfold ztake, zlen in *; rewrite length_take; lia).
  pose proof (zlen_nonneg new). unfold zlen in *. destruct (decide _).
  - rewrite lookup_app_r, lookup_app_l by lia. rewrite Hz. reflexivity.
  - destruct (decide (Z.of_nat i < o)).
    + rewrite lookup_app_l by lia. unfold ztake. apply lookup_take_lt. lia.
    + rewrite !lookup_app_r by lia. unfold zdrop. rewrite lookup_drop, Hz. f_equal. lia.
Qed.

(** A slice that a splice does not touch, and the one it replaces. *)
Lemma slice_splice_other bs o new o' n : 0 <= o -> o + zlen new <= zlen bs -> 0 <= o' -> 0 <= n ->
  o' + n <= o \/ o + zlen new <= o' -> slice (splice bs o new) o' n = slice bs o' n.
Proof.
  intros H1 H2 H3 H4 H5. apply list_eq. intros i. rewrite !slice_lookup by lia. destruct (decide _); [|reflexivity].
  rewrite splice_lookup by assumption. destruct (decide _); [lia | reflexivity].
Qed.

Lemma slice_splice_same bs o new : 0 <= o -> o + zlen new <= zlen bs -> slice (splice bs o new) o (zlen new) = new.
Proof.
  intros H1 H2. apply list_eq. intros i. rewrite slice_lookup by lia. destruct (decide _) as [Hd|Hd].
  - rewrite splice_lookup by assumption. destruct (decide _); [f_equal; lia | lia].
  - symmetry. apply lookup_ge_None_2. unfold zlen in Hd. lia.
Qed.

Lemma slice_zdrop_all bs o n : 0 <= o -> 0 <= n -> o + n = zlen bs -> slice bs o n = zdrop o bs.
Proof. intros H1 H2 H3. unfold slice, ztake. apply take_ge. unfold zdrop, zlen in *. rewrite length_drop. lia. Qed.

Lemma zdrop_lookup (bs : list byte) n i : 0 <= n -> zdrop n bs !! i = bs !! (Z.to_nat n + i)%nat.
Proof. intros _. apply lookup_drop. Qed.

(** A splice in front of what is dropped, and behind it. *)
Lemma zdrop_splice (bs : list byte) o new n : 0 <= o -> o + zlen new <= n -> n <= zlen bs -> zdrop n (splice bs o new) = zdrop n bs.
Proof.
  intros H1 H2 H3. pose proof (zlen_nonneg new). apply list_eq. intros i. rewrite !zdrop_lookup by lia.
  rewrite splice_lookup by lia. destruct (decide _); [lia | reflexivity].
Qed.

Lemma zdrop_splice_in (bs : list byte) o new n : 0 <= n -> 0 <= o -> n + o + zlen new <= zlen bs ->
  zdrop n (splice bs (n + o) new) = splice (zdrop n bs) o new.
Proof.
  intros H1 H2 H3. pose proof (zlen_nonneg new). apply list_eq. intros i. rewrite zdrop_lookup, !splice_lookup, zdrop_lookup by (rewrite ?zlen_zdrop by lia; lia).
  destruct (decide _), (decide _); try lia; [f_equal; lia | reflexivity].
Qed.

Lemma splice_whole (bs new : list byte) : zlen new = zlen bs -> splice bs 0 new = new.
Proof.
  intros H. unfold splice. rewrite Z.add_0_l, H. unfold ztake, zdrop, zlen. rewrite Nat2Z.id, drop_all, app_nil_r. reflexivity.
Qed.

(** A splice within a slice. *)
Lemma slice_splice_in bs o n o' new : 0 <= o -> 0 <= o' -> o' + zlen new <= n -> o + n <= zlen bs ->
  slice (splice bs (o + o') new) o n = splice (slice bs o n) o' new.
Proof.
  intros H1 H2 H3 H4. pose proof (zlen_nonneg new). apply list_eq. intros i. rewrite slice_lookup by lia.
  rewrite (splice_lookup (slice bs o n)) by (rewrite ?zlen_slice by lia; lia). rewrite slice_lookup by lia.
  rewrite splice_lookup by lia.
  destruct (decide (Z.of_nat i < n)); destruct (decide (o' <= Z.of_nat i < o' + zlen new)); try lia;
    try (destruct (decide _); try lia); try reflexivity; f_equal; lia.
Qed.

Lemma slice_zeros n o k : 0 <= o -> 0 <= k -> o + k <= n -> slice (zeros n) o k = zeros k.
Proof.
  intros H1 H2 H3. unfold slice, zeros, ztake, zdrop.
  replace (Z.to_nat n) with (Z.to_nat o + (Z.to_nat k + Z.to_nat (n - o - k)))%nat by lia. rewrite !repeat_app.
  rewrite drop_app_length' by (symmetry; apply repeat_length). apply take_app_length'. symmetry. apply repeat_length.
Qed.

Lemma nil_of_zlen {A} (l : list A) : zlen l = 0 -> l = [].
Proof. intros H. apply nil_length_inv. unfold zlen in H. lia. Qed.

Lemma splice_nil (m : list byte) p : 0 <= p <= zlen m -> splice m p [] = m.
Proof. intros H. unfold splice. rewrite zlen_nil, Z.add_0_r. cbn [app]. apply ztake_zdrop. Qed.

Lemma splice_splice (m : list byte) p a b : 0 <= p -> p + zlen a + zlen b <= zlen m ->
  splice (splice m p a) (p + zlen a) b = splice m p (a ++ b).
Proof.
  intros H1 H2. pose proof (zlen_nonneg a). pose proof (zlen_nonneg b). apply list_eq. intros i.
  rewrite !splice_lookup by (rewrite ?zlen_splice, ?zlen_app by lia; lia). rewrite zlen_app.
  repeat destruct (decide _); try lia; try reflexivity; unfold zlen in *.
  - rewrite lookup_app_r by lia. f_equal. lia.
  - rewrite lookup_app_l by lia. f_equal; lia.
Qed.

(** ** Lemmas on byte order *)

Lemma length_be_split n z : length (be_split n z) = n.
Proof. unfold be_split; rewrite length_rev; apply length_le_split. Qed.

Lemma be_value_be_split n z : be_value (be_split n z) = z mod 2 ^ (8 * Z.of_nat n).
Proof.
  unfold be_value, be_split. rewrite rev_involutive, le_combine_split.
  do 2 f_equal; lia.
Qed.

Lemma be_split_be_value l : be_split (length l) (be_value l) = l.
Proof.
  unfold be_value, be_split. rewrite <- length_rev, split_le_combine. apply rev_involutive.
Qed.

Lemma be_value_range l : 0 <= be_value l < 2 ^ (8 * zlen l).
Proof.
  unfold be_value, zlen. rewrite <- length_rev. apply le_combine_bound.
Qed.

Lemma be_value_cons b l : be_value (b :: l) = u8 b * 2 ^ (8 * zlen l) + be_value l.
Proof.
  unfold be_value. cbn [rev]. rewrite le_combine_app.
  rewrite le_combine_1, length_rev, Z.lor_comm.
  pose proof (le_combine_bound (rev l)) as Hb. rewrite length_rev in Hb.
  rewrite (Z.mul_comm _ 8), lor_shiftl_add by lia. reflexivity.
Qed.

Lemma be_value_snoc l b : be_value (l ++ [b]) = be_value l * 256 + u8 b.
Proof.
  unfold be_value. rewrite rev_app_distr. cbn [rev app].
  change (le_combine (b :: rev l)) with (Z.lor (u8 b) (Z.shiftl (le_combine (rev l)) 8)).
  rewrite Z.lor_comm. pose proof (u8_range b). rewrite lor_shiftl_add by lia. reflexivity.
Qed.

Lemma be_value_nil : be_value [] = 0.
Proof. reflexivity. Qed.

Lemma be_value_1 b : be_value [b] = u8 b.
Proof. exact (be_value_snoc [] b). Qed.

(** ** The state and error monad of the C functions *)

(** A C function that returns a status: [Ok a] is success with its outputs,
    [Fail] is the error return (0, false, -1 or NULL), and [Stuck] stands for
    undefined behaviour (an access outside a buffer) and for exhausted fuel. *)
Inductive outcome (A : Type) : Type :=
  | Ok (a : A)
  | Fail
  | Stuck.
Arguments Ok {A} a.
Arguments Fail {A}.
Arguments Stuck {A}.

(** The object the function mutates is threaded through, on the error return
    too, because callers observe it. *)
Definition M (S A : Type) : Type := S -> outcome A * S.

Section monad.
Context {S : Type}.
Definition ret {A} (a : A) : M S A := fun s => (Ok a, s).
Definition fail {A} : M S A := fun s => (Fail, s).
Definition stuck {A} : M S A := fun s => (Stuck, s).
Definition bind {A B} (m : M S A) (k : A -> M S B) : M S B := fun s =>
  match m s with
  | (Ok a, s1) => k a s1
  | (Fail, s1) => (Fail, s1)
  | (Stuck, s1) => (Stuck, s1)
  end.
Definition get : M S S := fun s => (Ok s, s).
Definition put (s : S) : M S unit := fun _ => (Ok tt, s).
(** [if (!b) return 0;] *)
Definition guard (b : bool) : M S unit := if b then ret tt else fail.
(** A value that was read; reading what is not there is undefined. *)
Definition known {A} (v : option A) : M S A := match v with Some a => ret a | None => stuck end.
(** Run [m] on a local object, leaving the outer one alone. *)
Definition local {S' A} (m : M S' A) (s' : S') : M S (A * S') := fun s =>
  match m s' with
  | (Ok a, s1) => (Ok (a, s1), s)
  | (Fail, _) => (Fail, s)
  | (Stuck, _) => (Stuck, s)
  end.
End monad.

Notation "x <- m ;; k" := (bind m (fun x => k))
  (at level 100, m at next level, right associativity) : c_scope.
Notation "' p <- m ;; k" := (bind m (fun x => match x with p => k end))
  (at level 100, p pattern, m at next level, right associativity) : c_scope.
Notation "m ;; k" := (bind m (fun _ => k))
  (at level 100, right associativity) : c_scope.

(** [m] never reaches undefined behaviour from a state satisfying [P], and
    every state it leaves satisfies [P] again: the shape of the memory-safety
    theorems, closed under the constructs of the monad. *)
Definition safe {S A} (P : S -> Prop) (m : M S A) : Prop :=
  forall s, P s -> fst (m s) <> Stuck /\ P (snd (m s)).

Create HintDb safe discriminated.

Section safe.
Context {S : Type} (P : S -> Prop).

Lemma safe_ret {A} (a : A) : safe P (ret a).
Proof. intros s Hs; split; [discriminate | exact Hs]. Qed.

Lemma safe_fail {A} : safe P (@fail S A).
Proof. intros s Hs; split; [discriminate | exact Hs]. Qed.

Lemma safe_get : safe P get.
Proof. intros s Hs; split; [discriminate | exact Hs]. Qed.

Lemma safe_guard b : safe P (guard b).
Proof. destruct b; [apply safe_ret | apply safe_fail]. Qed.

Lemma safe_bind {A B} (m : M S A) (k : A -> M S B) :
  safe P m -> (forall a, safe P (k a)) -> safe P (bind m k).
Proof.
  intros Hm Hk s Hs. unfold bind. destruct (Hm s Hs) as [H1 H2].
  destruct (m s) as [[a| |] s1]; cbn in *; [apply Hk, H2 | | contradiction].
  split; [discriminate | exact H2].
Qed.

Lemma safe_if {A} (b : bool) (m1 m2 : M S A) :
  safe P m1 -> safe P m2 -> safe P (if b then m1 else m2).
Proof. destruct b; auto. Qed.
End safe.

#[export] Hint Resolve safe_ret safe_fail safe_get safe_guard safe_bind safe_if : safe.

(** Split the visible tests of a monadic program. *)
Ltac safe_ifs :=
  repeat match goal with |- safe _ (if _ then _ else _) => apply safe_if end.

Section monad_laws.
Context {S A B C : Type}.

Lemma bind_ret (a : A) (k : A -> M S B) s : bind (ret a) k s = k a s.
Proof. reflexivity. Qed.

Lemma bind_put s' (k : unit -> M S A) s : bind (put s') k s = k tt s'.
Proof. reflexivity. Qed.
Lemma bind_get (k : S -> M S B) s : bind get k s = k s s.
Proof. reflexivity. Qed.

Lemma bind_assoc (m : M S A) (f : A -> M S B) (g : B -> M S C) s :
  bind (bind m f) g s = bind m (fun a => bind (f a) g) s.
Proof. unfold bind. destruct (m s) as [[a| |] s1]; reflexivity. Qed.

Lemma bind_Ok (m : M S A) (k : A -> M S B) s a s1 :
  m s = (Ok a, s1) -> bind m k s = k a s1.
Proof. intros H; unfold bind; rewrite H; reflexivity. Qed.

Lemma bind_Fail (m : M S A) (k : A -> M S B) s s1 :
  m s = (Fail, s1) -> bind m k s = (Fail, s1).
Proof. intros H; unfold bind; rewrite H; reflexivity. Qed.

Lemma bind_inv (m : M S A) (k : A -> M S B) s b s' :
  bind m k s = (Ok b, s') -> exists a s1, m s = (Ok a, s1) /\ k a s1 = (Ok b, s').
Proof.
  unfold bind. destruct (m s) as [[a| |] s1]; intros H; [eauto | discriminate..].
Qed.

Lemma guard_inv b (s : S) u s' : guard b s = (Ok u, s') -> b = true /\ s' = s.
Proof. destruct b; cbn; intros [= <-]; auto. Qed.
End monad_laws.

(** Split a successful run into the successful runs of its steps. *)
Ltac inv_run H :=
  repeat match type of H with
  | bind _ _ _ = (Ok _, _) =>
      let a := fresh "a" in let s := fresh "s" in
      let H1 := fresh "Hrun" in
      apply bind_inv in H as (a & s & H1 & H)
  end.

Lemma lor_in_word w a b : 0 < w -> in_word w a -> in_word w b -> in_word w (Z.lor a b).
Proof.
  intros Hw [Ha1 Ha2] [Hb1 Hb2]. split; [apply Z.lor_nonneg; auto|].
  destruct (Z.eq_dec (Z.lor a b) 0) as [->|Hne]; [apply Z.pow_pos_nonneg; lia|].
  assert (Hlog : forall x, 0 <= x < 2 ^ w -> Z.log2 x < w).
  { intros x Hx. destruct (Z.eq_dec x 0) as [->|]; [exact Hw | apply Z.log2_lt_pow2; lia]. }
  apply Z.log2_lt_pow2; [pose proof (proj2 (Z.lor_nonneg a b) (conj Ha1 Hb1)); lia|].
  rewrite Z.log2_lor by assumption. apply Z.max_lub_lt; apply Hlog; split; assumption.
Qed.

(** ** Little-endian objects *)

Lemma b8_land_255 v : b8 (Z.land v 0xFF) = b8 v.
Proof.
  apply b8_eq. change 0xFF with (2 ^ 8 - 1). rewrite land_ones_mod by lia.
  apply Z.mod_mod; lia.
Qed.

Lemma le_split_eq n a b : wrap (8 * Z.of_nat n) a = wrap (8 * Z.of_nat n) b -> le_split n a = le_split n b.
Proof.
  intros H. rewrite (le_split_mod a), (le_split_mod b).
  unfold wrap in H. rewrite (Z.mul_comm (Z.of_nat n)). rewrite H. reflexivity.
Qed.

Lemma le_combine_range bs : in_word (8 * zlen bs) (le_combine bs).
Proof. apply le_combine_bound. Qed.

Lemma le_combine_00 n : le_combine (repeat Byte.x00 n) = 0.
Proof.
  induction n as [|n IH]; [reflexivity|].
  change (le_combine (repeat Byte.x00 (S n))) with (Z.lor (u8 Byte.x00) (Z.shiftl (le_combine (repeat Byte.x00 n)) 8)).
  rewrite IH. reflexivity.
Qed.

(** *** The greatest of a set *)

Lemma set_fold_max (live : gset Z) : 0 <= set_fold Z.max 0 live /\ forall x, x ∈ live -> x <= set_fold Z.max 0 live.
Proof.
  apply (set_fold_ind_L (fun r X => 0 <= r /\ forall x, x ∈ X -> x <= r) Z.max 0).
  { split; [lia|]. intros x Hx. exfalso. exact (not_elem_of_empty x Hx). }
  intros x X r _ [H1 H2]. split; [lia|]. intros y Hy. apply elem_of_union in Hy as [Hy|Hy].
  - apply elem_of_singleton in Hy as ->. lia.
  - specialize (H2 y Hy). lia.
Qed.
