(* ===== verification/PbStream.v ===== *)
(** The nanopb streams: [pb_istream_t] of ios/Pods/nanopb/pb_decode.c and
    [pb_ostream_t] of ios/Pods/nanopb/pb_encode.c, with the reading and writing
    operations every codec of nanopb goes through.  A stream is either over a
    memory buffer ([buf_read], [buf_write]), over a user callback, or (output
    only) a sizing stream, whose callback is NULL. *)
From Stdlib Require Import ZArith Lia Bool String.
From coqutil Require Import Byte Word.LittleEndianList.
From stdpp Require Import base list numbers.
From S2P Require Import Prelude.
Local Open Scope Z_scope.
Local Open Scope c_scope.

(** ** User callbacks *)

(** What pb_decode.h asks of the [callback] of a custom input stream: it is
    given its [state], the stream's [bytes_left] and the number of bytes to
    read; on success it has filled the buffer, and it may lower [bytes_left]
    only when it reports a failure (that is how it signals end of file). *)
Class InputCallback (CB : Type) := {
  cb_read : CB -> Z -> Z -> option (list byte) * CB * Z;
  cb_read_ok : forall s left n bs s' left',
    cb_read s left n = (Some bs, s', left') -> zlen bs = n /\ left' = left;
  cb_read_fail : forall s left n s' left',
    0 <= left -> cb_read s left n = (None, s', left') -> 0 <= left' <= left;
}.

(** The [callback] of a custom output stream. *)
Class OutputCallback (CB : Type) := {
  cb_write : CB -> list byte -> bool * CB;
}.

(** ** Input streams *)

Section istream.
Context {CB : Type} {ICB : InputCallback CB}.

(** [callback] and [state] together: for [buf_read] the state is a pointer
    into a buffer, of which [mem] are the bytes that remain. *)
Inductive pb_source :=
  | buf_source (mem : list byte)
  | user_source (s : CB).

Record pb_istream := mk_istream {
  i_source : pb_source;
  i_bytes_left : Z;
  i_errmsg : option string;
}.

(** [PB_RETURN_ERROR]: the first message is kept. *)
Definition i_return_error {A} (msg : string) : M pb_istream A := fun st =>
  (Fail, mk_istream (i_source st) (i_bytes_left st)
           (match i_errmsg st with Some m => Some m | None => Some msg end)).

Definition pb_istream_from_buffer (buf : list byte) (bufsize : Z) : pb_istream :=
  mk_istream (buf_source buf) bufsize None.

(** Advance the [state] pointer by [count] and copy the bytes passed over;
    reading past the end of the underlying memory is undefined. *)
Definition buf_read (mem : list byte) (count : Z) : option (list byte * list byte) :=
  if zlen mem <? count then None else Some (ztake count mem, zdrop count mem).

(** [stream->callback(stream, buf, count)] *)
Definition i_callback (count : Z) : M pb_istream (list byte) := fun st =>
  match i_source st with
  | buf_source mem =>
      match buf_read mem count with
      | None => (Stuck, st)
      | Some (bs, mem') => (Ok bs, mk_istream (buf_source mem') (i_bytes_left st) (i_errmsg st))
      end
  | user_source s =>
      match cb_read s (i_bytes_left st) count with
      | (Some bs, s', left') => (Ok bs, mk_istream (user_source s') left' (i_errmsg st))
      | (None, s', left') =>
          i_return_error "io error" (mk_istream (user_source s') left' (i_errmsg st))
      end
  end.

Definition i_consume (count : Z) : M pb_istream unit := fun st =>
  (Ok tt, mk_istream (i_source st) (u64 (i_bytes_left st - count)) (i_errmsg st)).

(** [pb_read] from the [bytes_left] test on. *)
Definition pb_read_some (count : Z) : M pb_istream (list byte) :=
  st <- get ;;
  if i_bytes_left st <? count then i_return_error "end-of-stream" else
  bs <- i_callback count ;;
  i_consume count ;;
  ret bs.

(** The loop of [pb_read] that skips bytes of a custom stream through a
    16-byte temporary. *)
Fixpoint pb_read_skip (fuel : nat) (count : Z) : M pb_istream unit :=
  match fuel with
  | O => stuck
  | S fuel =>
      if 16 <? count then pb_read_some 16 ;; pb_read_skip fuel (count - 16)
      else if count =? 0 then ret tt
      else pb_read_some count ;; ret tt
  end.

Definition is_user_source (st : pb_istream) : bool :=
  match i_source st with user_source _ => true | buf_source _ => false end.

(** [pb_read]; [want] is [buf != NULL]. *)
Definition pb_read (want : bool) (count : Z) : M pb_istream (list byte) :=
  if count =? 0 then ret [] else
  st <- get ;;
  if negb want && is_user_source st
  then pb_read_skip (S (Z.to_nat (count / 16))) count ;; ret []
  else pb_read_some count.

Definition pb_readbyte : M pb_istream byte :=
  st <- get ;;
  if i_bytes_left st =? 0 then i_return_error "end-of-stream" else
  bs <- i_callback 1 ;;
  i_consume 1 ;;
  ret (znth bs 0).

(** *** Invariant *)

(** A buffer stream never promises more bytes than its memory holds. *)
Definition istream_ok (st : pb_istream) : Prop :=
  in_word 64 (i_bytes_left st) /\
  match i_source st with
  | buf_source mem => i_bytes_left st <= zlen mem
  | user_source _ => True
  end.

Lemma istream_from_buffer_ok buf :
  zlen buf < 2 ^ 64 -> istream_ok (pb_istream_from_buffer buf (zlen buf)).
Proof. intros H; pose proof (zlen_nonneg buf). repeat split; cbn; lia. Qed.

Lemma safe_return_error {A} msg : safe istream_ok (@i_return_error A msg).
Proof. intros st Hst; split; [discriminate | exact Hst]. Qed.

(** One guarded callback: the shape [pb_read_some] and [pb_readbyte] share. *)
Lemma callback_consume_safe count st :
  0 <= count <= i_bytes_left st -> istream_ok st ->
  let r := (bs <- i_callback count ;; i_consume count ;; ret bs) st in
  fst r <> Stuck /\ istream_ok (snd r).
Proof.
  intros Hc [Hw Hm]. unfold in_word in *.
  unfold bind, i_callback, i_consume, istream_ok, in_word, buf_read.
  destruct (i_source st) as [mem|s] eqn:Es; cbn.
  - destruct (Z.ltb_spec (zlen mem) count); [lia|]. cbn.
    rewrite wrap_small by (unfold in_word; lia). rewrite zlen_zdrop by lia.
    repeat split; try discriminate; lia.
  - destruct (cb_read s _ count) as [[[bs|] s'] left'] eqn:Ecb; cbn.
    + apply cb_read_ok in Ecb as [_ ->]. rewrite wrap_small by (unfold in_word; lia).
      repeat split; try discriminate; lia.
    + apply cb_read_fail in Ecb; [|lia]. repeat split; try discriminate; lia.
Qed.

Lemma pb_read_some_safe count : 0 <= count -> safe istream_ok (pb_read_some count).
Proof.
  intros Hc st Hst. unfold pb_read_some. rewrite bind_get.
  destruct (Z.ltb_spec (i_bytes_left st) count).
  - apply safe_return_error, Hst.
  - apply callback_consume_safe; [lia | exact Hst].
Qed.

Lemma pb_readbyte_safe : safe istream_ok pb_readbyte.
Proof.
  intros st Hst. unfold pb_readbyte. rewrite bind_get.
  destruct (Z.eqb_spec (i_bytes_left st) 0).
  - apply safe_return_error, Hst.
  - destruct Hst as [Hw Hm].
    pose proof (callback_consume_safe 1 st ltac:(unfold in_word in *; lia) (conj Hw Hm)) as H.
    unfold bind in *.
    destruct (i_callback 1 st) as [[bs| |] st1]; cbn in *;
      destruct H as [H1 H2]; (split; [first [discriminate | contradiction] | exact H2]).
Qed.

Lemma pb_read_skip_safe fuel count :
  0 <= count -> count / 16 < Z.of_nat fuel -> safe istream_ok (pb_read_skip fuel count).
Proof.
  revert count; induction fuel as [|fuel IH]; intros count Hc Hf;
    [pose proof (Z.div_pos count 16); lia|].
  cbn [pb_read_skip]. destruct (Z.ltb_spec 16 count).
  - apply safe_bind; [apply pb_read_some_safe; lia | intros _]. apply IH; [lia|].
    replace count with (count - 16 + 1 * 16) in Hf by lia.
    rewrite Z.div_add in Hf by lia. lia.
  - destruct (count =? 0); auto using pb_read_some_safe with safe.
Qed.

Lemma pb_read_safe want count : 0 <= count -> safe istream_ok (pb_read want count).
Proof.
  intros Hc. unfold pb_read. apply safe_if; [apply safe_ret|].
  apply safe_bind; [apply safe_get | intros st]. apply safe_if.
  - apply safe_bind; [|intros; apply safe_ret]. apply pb_read_skip_safe; [lia|].
    rewrite Nat2Z.inj_succ, Z2Nat.id; [lia | apply Z.div_pos; lia].
  - apply pb_read_some_safe, Hc.
Qed.

(** *** Functional behaviour on a buffer *)

(** [d] accepts exactly the bytes [bs], whatever follows them, and returns
    [a]: the interface the decoders promise to their callers. *)
Class Parses {A} (d : M pb_istream A) (bs : list byte) (a : A) : Prop :=
  parses : forall rest left err, zlen bs <= left < 2 ^ 64 ->
    d (mk_istream (buf_source (bs ++ rest)) left err)
    = (Ok a, mk_istream (buf_source rest) (left - zlen bs) err).

Lemma parses_ret {A} (a : A) : Parses (ret a) [] a.
Proof. intros rest left err H; cbn. rewrite zlen_nil, Z.sub_0_r. reflexivity. Qed.

Lemma parses_bind {A B} (d : M pb_istream A) (k : A -> M pb_istream B) bs1 bs2 a b :
  Parses d bs1 a -> Parses (k a) bs2 b -> Parses (bind d k) (bs1 ++ bs2) b.
Proof.
  intros H1 H2 rest left err H. rewrite zlen_app in *.
  pose proof (zlen_nonneg bs1); pose proof (zlen_nonneg bs2).
  erewrite bind_Ok; [|rewrite <- app_assoc; apply H1; lia].
  rewrite H2 by lia. do 2 f_equal. lia.
Qed.

Lemma pb_read_some_parses bs count : count = zlen bs -> Parses (pb_read_some count) bs bs.
Proof.
  intros -> rest left err H. unfold pb_read_some, bind, get. cbn [i_bytes_left].
  pose proof (zlen_nonneg rest). pose proof (zlen_nonneg bs).
  destruct (Z.ltb_spec left (zlen bs)); [lia|].
  unfold i_callback, buf_read, i_consume; cbn [i_source i_bytes_left i_errmsg].
  rewrite zlen_app. destruct (Z.ltb_spec (zlen bs + zlen rest) (zlen bs)); [lia|].
  cbn. rewrite ztake_app, zdrop_app by reflexivity.
  rewrite wrap_small by (unfold in_word; lia). reflexivity.
Qed.

Lemma pb_readbyte_parses b : Parses pb_readbyte [b] b.
Proof.
  intros rest left err H. pose proof (zlen_nonneg rest).
  unfold pb_readbyte, bind, get. cbn [i_bytes_left]. rewrite zlen_cons, zlen_nil in *.
  destruct (Z.eqb_spec left 0); [lia|].
  unfold i_callback, buf_read, i_consume; cbn [i_source i_bytes_left i_errmsg app].
  rewrite zlen_cons. destruct (Z.ltb_spec (1 + zlen rest) 1); [lia|].
  cbn. rewrite wrap_small by (unfold in_word; lia). reflexivity.
Qed.

Lemma pb_read_parses bs count : count = zlen bs -> Parses (pb_read true count) bs bs.
Proof.
  intros ->. unfold pb_read. destruct (Z.eqb_spec (zlen bs) 0) as [E|].
  - destruct bs; [apply parses_ret | rewrite zlen_cons in E; pose proof (zlen_nonneg bs); lia].
  - intros rest left err H. erewrite bind_Ok by reflexivity. cbn.
    apply pb_read_some_parses; [reflexivity | exact H].
Qed.

(** [pb_read(stream, NULL, count)] on a buffer moves past the bytes. *)
Lemma pb_read_null_parses bs count : count = zlen bs -> Parses (pb_read false count) bs bs.
Proof.
  intros ->. unfold pb_read. destruct (Z.eqb_spec (zlen bs) 0) as [E|].
  - destruct bs; [apply parses_ret | rewrite zlen_cons in E; pose proof (zlen_nonneg bs); lia].
  - intros rest left err H. erewrite bind_Ok by reflexivity. cbn.
    apply pb_read_some_parses; [reflexivity | exact H].
Qed.
End istream.

Arguments pb_source : clear implicits.
Arguments pb_istream : clear implicits.
#[export] Hint Resolve safe_return_error pb_readbyte_safe : safe.
#[export] Hint Extern 2 (safe istream_ok (pb_read _ _)) => apply pb_read_safe; lia : safe.
#[export] Existing Instance parses_ret.
#[export] Existing Instance pb_readbyte_parses.

(** ** Output streams *)

Section ostream.
Context {CB : Type} {OCB : OutputCallback CB}.

(** [callback] and [state] together.  For [buf_write] the state points into
    a buffer: [out] is what was written before the pointer and [room] the
    number of bytes of the buffer after it. *)
Inductive pb_sink :=
  | sizing_sink
  | buf_sink (out : list byte) (room : Z)
  | user_sink (s : CB).

Record pb_ostream := mk_ostream {
  o_sink : pb_sink;
  o_max_size : Z;
  o_bytes_written : Z;
  o_errmsg : option string;
}.

Definition o_set_error (msg : string) (st : pb_ostream) : pb_ostream :=
  mk_ostream (o_sink st) (o_max_size st) (o_bytes_written st)
    (match o_errmsg st with Some m => Some m | None => Some msg end).
Definition o_return_error {A} (msg : string) : M pb_ostream A := fun st =>
  (Fail, o_set_error msg st).

Definition PB_OSTREAM_SIZING : pb_ostream := mk_ostream sizing_sink 0 0 None.

Definition pb_ostream_from_buffer (buf : list byte) (bufsize : Z) : pb_ostream :=
  mk_ostream (buf_sink [] (zlen buf)) bufsize 0 None.

(** Store [bs] at the pointer and advance it; storing past the end of the
    buffer is undefined. *)
Definition buf_write (out : list byte) (room : Z) (bs : list byte) : option (list byte * Z) :=
  if room <? zlen bs then None else Some (out ++ bs, room - zlen bs).

Definition is_sizing (st : pb_ostream) : bool :=
  match o_sink st with sizing_sink => true | _ => false end.

Definition o_count (count : Z) : M pb_ostream unit := fun st =>
  (Ok tt, mk_ostream (o_sink st) (o_max_size st) (u64 (o_bytes_written st + count)) (o_errmsg st)).

(** [stream->callback(stream, buf, count)] *)
Definition o_callback (bs : list byte) : M pb_ostream unit := fun st =>
  match o_sink st with
  | sizing_sink => (Stuck, st)
  | buf_sink out room =>
      match buf_write out room bs with
      | None => (Stuck, st)
      | Some (out', room') =>
          (Ok tt, mk_ostream (buf_sink out' room') (o_max_size st) (o_bytes_written st) (o_errmsg st))
      end
  | user_sink s =>
      let '(ok, s') := cb_write s bs in
      let st' := mk_ostream (user_sink s') (o_max_size st) (o_bytes_written st) (o_errmsg st) in
      if ok then (Ok tt, st') else o_return_error "io error" st'
  end.

(** [pb_write(stream, buf, count)]; [buf] holds the bytes that may be read
    at the pointer ([nil] for NULL). *)
Definition pb_write (buf : list byte) (count : Z) : M pb_ostream unit :=
  st <- get ;;
  (if (0 <? count) && negb (is_sizing st) then
     if (u64 (o_bytes_written st + count) <? o_bytes_written st)
        || (o_max_size st <? u64 (o_bytes_written st + count))
     then o_return_error "stream full"
     else if zlen buf <? count then stuck
     else o_callback (ztake count buf)
   else ret tt) ;;
  o_count count.

(** *** Invariant: the buffer has room for every byte [max_size] allows. *)
Definition ostream_ok (st : pb_ostream) : Prop :=
  in_word 64 (o_bytes_written st) /\ in_word 64 (o_max_size st) /\
  match o_sink st with
  | sizing_sink => True
  | buf_sink out room =>
      0 <= room /\ o_max_size st - o_bytes_written st <= room
  | user_sink _ => True
  end.

Lemma ostream_from_buffer_ok buf :
  zlen buf < 2 ^ 64 -> ostream_ok (pb_ostream_from_buffer buf (zlen buf)).
Proof.
  intros H. pose proof (zlen_nonneg buf).
  unfold ostream_ok, in_word; cbn. lia.
Qed.

Lemma ostream_sizing_ok : ostream_ok PB_OSTREAM_SIZING.
Proof. unfold ostream_ok, in_word; cbn; lia. Qed.

Lemma safe_o_return_error {A} msg : safe ostream_ok (@o_return_error A msg).
Proof. intros st Hst; split; [discriminate | exact Hst]. Qed.

Lemma u64_no_wrap a b :
  0 <= a -> 0 <= b < 2 ^ 64 -> a < 2 ^ 64 -> (u64 (a + b) <? a) = false -> u64 (a + b) = a + b.
Proof.
  intros Ha Hb Ha' H. zbool. unfold wrap in *.
  destruct (Z_lt_dec (a + b) (2 ^ 64)); [apply Z.mod_small; lia|].
  replace (a + b) with (a + b - 2 ^ 64 + 1 * 2 ^ 64) in H by lia.
  rewrite Z.mod_add, Z.mod_small in H by lia. lia.
Qed.

Lemma pb_write_unfold buf count st :
  pb_write buf count st =
    if (0 <? count) && negb (is_sizing st) then
      if (u64 (o_bytes_written st + count) <? o_bytes_written st)
         || (o_max_size st <? u64 (o_bytes_written st + count))
      then o_return_error "stream full" st
      else if zlen buf <? count then (Stuck, st)
      else (o_callback (ztake count buf) ;; o_count count) st
    else o_count count st.
Proof.
  unfold pb_write. rewrite bind_get. unfold bind.
  repeat (destruct (_ : bool); try reflexivity).
Qed.

Lemma pb_write_safe buf count :
  0 <= count < 2 ^ 64 -> count <= zlen buf -> safe ostream_ok (pb_write buf count).
Proof.
  intros Hc Hb st Hst. rewrite pb_write_unfold.
  destruct Hst as (Hw & Hm & Hs).
  destruct (_ && _) eqn:E1.
  - destruct (_ || _) eqn:E2; [split; [discriminate|repeat split; assumption || apply Hw || apply Hm]|].
    apply orb_false_iff in E2 as [E2 E3]. unfold in_word in *.
    pose proof (u64_no_wrap (o_bytes_written st) count ltac:(lia) Hc ltac:(lia) E2) as E4.
    rewrite E4 in E3. zbool. destruct (Z.ltb_spec (zlen buf) count); [lia|].
    unfold bind, o_callback, buf_write, o_count, ostream_ok, in_word, is_sizing in *.
    destruct (o_sink st) as [|out room|s] eqn:Es; [cbn in E1; lia | |].
    + rewrite zlen_ztake by lia. destruct (Z.ltb_spec room count); [lia|]. cbn.
      rewrite E4. repeat split; try discriminate; lia.
    + destruct (cb_write s _) as [[|] s']; cbn; rewrite ?E4; repeat split; try discriminate; lia.
  - unfold o_count, ostream_ok, is_sizing in *; cbn.
    destruct (wrap_range 64 (o_bytes_written st + count) ltac:(lia)).
    split; [discriminate|]. split; [split; assumption|]. split; [exact Hm|].
    destruct (o_sink st) as [|out room|s]; try exact I. cbn in E1.
    rewrite andb_true_r in E1. zbool. replace count with 0 by lia.
    rewrite Z.add_0_r, wrap_small by exact Hw. exact Hs.
Qed.

(** *** Functional behaviour *)

(** No error was reported yet and [n] more bytes fit: below [max_size] for a
    buffer, and without overflow of the count for a sizing stream. *)
Definition fits (n : Z) (st : pb_ostream) : Prop :=
  (0 <= o_bytes_written st /\ o_errmsg st = None) /\
  match o_sink st with
  | sizing_sink => o_bytes_written st + n < 2 ^ 64
  | buf_sink _ room => o_bytes_written st + n <= o_max_size st < 2 ^ 64 /\ n <= room
  | user_sink _ => False
  end.

(** The stream after [bs] was written to it. *)
Definition emit (bs : list byte) (st : pb_ostream) : pb_ostream :=
  mk_ostream
    (match o_sink st with
     | buf_sink out room => buf_sink (out ++ bs) (room - zlen bs)
     | s => s
     end)
    (o_max_size st) (o_bytes_written st + zlen bs) (o_errmsg st).

(** [e] writes exactly the bytes [bs] to any stream they fit in, and counts
    exactly their number on a sizing stream: the interface the encoders
    promise to their callers. *)
Class Emits (e : M pb_ostream unit) (bs : list byte) : Prop :=
  emits : forall st, fits (zlen bs) st -> e st = (Ok tt, emit bs st).

Lemma emit_emit bs1 bs2 st : emit bs2 (emit bs1 st) = emit (bs1 ++ bs2) st.
Proof.
  unfold emit; cbn. rewrite zlen_app. f_equal; [|lia].
  destruct (o_sink st); try reflexivity. rewrite <- app_assoc. f_equal. lia.
Qed.

Lemma emit_nil st : emit [] st = st.
Proof.
  destruct st as [[] ? ? ?]; unfold emit; cbn; rewrite zlen_nil, ?app_nil_r, Z.add_0_r, ?Z.sub_0_r;
    reflexivity.
Qed.

Lemma fits_app bs1 bs2 st :
  fits (zlen (bs1 ++ bs2)) st -> fits (zlen bs1) st /\ fits (zlen bs2) (emit bs1 st).
Proof.
  rewrite zlen_app. pose proof (zlen_nonneg bs1). pose proof (zlen_nonneg bs2).
  unfold fits, emit; cbn. destruct (o_sink st); intros [[? ?] ?]; intuition lia.
Qed.

Lemma emits_ret : Emits (ret tt) [].
Proof. intros st _. rewrite emit_nil. reflexivity. Qed.

Lemma emits_bind e1 e2 bs1 bs2 :
  Emits e1 bs1 -> Emits e2 bs2 -> Emits (e1 ;; e2) (bs1 ++ bs2).
Proof.
  intros H1 H2 st H. apply fits_app in H as [Ha Hb].
  erewrite bind_Ok by (apply H1, Ha). rewrite H2, emit_emit by exact Hb. reflexivity.
Qed.

Lemma pb_write_emits buf count :
  0 <= count <= zlen buf -> Emits (pb_write buf count) (ztake count buf).
Proof.
  intros Hc st [Hw H]. rewrite pb_write_unfold.
  rewrite zlen_ztake in H by lia. unfold emit. rewrite zlen_ztake by lia.
  unfold bind, o_callback, o_count, is_sizing, buf_write.
  destruct (o_sink st) as [|out room|s] eqn:Es; [..|contradiction]; cbn [negb].
  - rewrite andb_false_r, wrap_small by (unfold in_word; lia). rewrite ?Es; reflexivity.
  - rewrite andb_true_r, !(wrap_small 64) by (unfold in_word; lia).
    destruct (Z.ltb_spec 0 count).
    + destruct (Z.ltb_spec (o_bytes_written st + count) (o_bytes_written st)); [lia|].
      destruct (Z.ltb_spec (o_max_size st) (o_bytes_written st + count)); [lia|]. cbn [orb].
      destruct (Z.ltb_spec (zlen buf) count); [lia|].
      rewrite zlen_ztake by lia. destruct (Z.ltb_spec room count); [lia|]. cbn.
      rewrite wrap_small by (unfold in_word; lia). reflexivity.
    + replace count with 0 by lia. cbn. rewrite Z.add_0_r, app_nil_r, Z.sub_0_r.
      reflexivity.
Qed.

Lemma pb_write_all_emits bs : Emits (pb_write bs (zlen bs)) bs.
Proof.
  pose proof (pb_write_emits bs (zlen bs)) as H.
  replace (ztake (zlen bs) bs) with bs in H.
  - apply H. pose proof (zlen_nonneg bs); lia.
  - unfold ztake, zlen. rewrite Nat2Z.id, firstn_all. reflexivity.
Qed.
End ostream.

Arguments pb_sink : clear implicits.
Arguments pb_ostream : clear implicits.
#[export] Hint Resolve safe_o_return_error : safe.
#[export] Existing Instance emits_ret.
#[export] Existing Instance emits_bind.
#[export] Existing Instance pb_write_all_emits.
