(* ===== verification/PbCommon.v ===== *)
(** nanopb's field descriptors (ios/Pods/nanopb/pb.h) and the field iterator
    of ios/Pods/nanopb/pb_common.c, in the configuration the pod is built with
    (PB_FIELD_32BIT, PB_ENABLE_MALLOC, PB_NO_PACKED_STRUCTS, 64-bit pointers). *)
From Stdlib Require Import ZArith Lia Bool.
From coqutil Require Import Byte.
From stdpp Require Import base list numbers.
From S2P Require Import Prelude.
Local Open Scope Z_scope.
Local Open Scope c_scope.

(** ** Type bytes *)

Definition PB_LTYPE_BOOL := 0x00.
Definition PB_LTYPE_VARINT := 0x01.
Definition PB_LTYPE_UVARINT := 0x02.
Definition PB_LTYPE_SVARINT := 0x03.
Definition PB_LTYPE_FIXED32 := 0x04.
Definition PB_LTYPE_FIXED64 := 0x05.
Definition PB_LTYPE_LAST_PACKABLE := 0x05.
Definition PB_LTYPE_BYTES := 0x06.
Definition PB_LTYPE_STRING := 0x07.
Definition PB_LTYPE_SUBMESSAGE := 0x08.
Definition PB_LTYPE_EXTENSION := 0x09.
Definition PB_LTYPE_FIXED_LENGTH_BYTES := 0x0A.

Definition PB_HTYPE_REQUIRED := 0x00.
Definition PB_HTYPE_OPTIONAL := 0x10.
Definition PB_HTYPE_REPEATED := 0x20.
Definition PB_HTYPE_ONEOF := 0x30.

Definition PB_ATYPE_STATIC := 0x00.
Definition PB_ATYPE_POINTER := 0x80.
Definition PB_ATYPE_CALLBACK := 0x40.

Definition PB_ATYPE (x : Z) := Z.land x 0xC0.
Definition PB_HTYPE (x : Z) := Z.land x 0x30.
Definition PB_LTYPE (x : Z) := Z.land x 0x0F.

(** [pb_size_t] is [uint32_t]. *)
Definition PB_SIZE_MAX := 2 ^ 32 - 1.
Definition sizeof_ptr := 8.

(** [pb_field_t].  [ptr] is NULL, 0, or the address of the descriptors of the
    submessage or of the default value of the field. *)
Record pb_field := mk_field {
  tag : Z;
  type : Z;
  data_offset : Z;
  size_offset : Z;
  data_size : Z;
  array_size : Z;
  ptr : Z;
}.

Definition PB_LAST_FIELD : pb_field := mk_field 0 0 0 0 0 0 0.

(** Wire types *)
Definition PB_WT_VARINT := 0.
Definition PB_WT_64BIT := 1.
Definition PB_WT_STRING := 2.
Definition PB_WT_32BIT := 5.

(** ** The iterator *)

(** [pos] is an index into [start]; pointers into the message are addresses,
    NULL is 0. *)
Record pb_field_iter := mk_iter {
  start : list pb_field;
  pos : nat;
  required_field_index : Z;
  dest_struct : Z;
  pData : Z;
  pSize : Z;
}.

(** [iter->pos]; reading past the descriptor array is undefined. *)
Definition iter_pos : M pb_field_iter pb_field := fun it =>
  match start it !! pos it with
  | Some f => (Ok f, it)
  | None => (Stuck, it)
  end.

Definition pb_field_iter_begin (fields : list pb_field) (dest : Z) : M pb_field_iter bool :=
  put (mk_iter fields 0 0 dest 0 0) ;;
  f <- iter_pos ;;
  (if dest =? 0 then put (mk_iter fields 0 0 dest 0 0)
   else put (mk_iter fields 0 0 dest (dest + data_offset f) (dest + data_offset f + size_offset f))) ;;
  ret (negb (tag f =? 0)).

Definition pb_field_iter_next : M pb_field_iter bool :=
  prev_field <- iter_pos ;;
  if tag prev_field =? 0 then ret false else
  it <- get ;;
  put (mk_iter (start it) (S (pos it)) (required_field_index it) (dest_struct it) (pData it) (pSize it)) ;;
  f <- iter_pos ;;
  if tag f =? 0 then
    pb_field_iter_begin (start it) (dest_struct it) ;;
    ret false
  else if (PB_HTYPE (type prev_field) =? PB_HTYPE_ONEOF)
       && (PB_HTYPE (type f) =? PB_HTYPE_ONEOF)
       && (data_offset f =? PB_SIZE_MAX)
  then ret true
  else
    let prev_size :=
      if (PB_ATYPE (type prev_field) =? PB_ATYPE_STATIC)
         && (PB_HTYPE (type prev_field) =? PB_HTYPE_REPEATED)
      then data_size prev_field * array_size prev_field
      else if PB_ATYPE (type prev_field) =? PB_ATYPE_POINTER then sizeof_ptr
      else data_size prev_field in
    let index :=
      if PB_HTYPE (type prev_field) =? PB_HTYPE_REQUIRED
      then u32 (required_field_index it + 1) else required_field_index it in
    let data := pData it + prev_size + data_offset f in
    put (mk_iter (start it) (S (pos it)) index (dest_struct it) data (data + size_offset f)) ;;
    ret true.

(** The [do ... while (iter->pos != start)] loop of [pb_field_iter_find];
    one turn around the descriptors is enough fuel. *)
Fixpoint pb_field_iter_find_loop (fuel : nat) (from : nat) (tg : Z) : M pb_field_iter bool :=
  match fuel with
  | O => stuck
  | S fuel =>
      f <- iter_pos ;;
      if (tag f =? tg) && negb (PB_LTYPE (type f) =? PB_LTYPE_EXTENSION) then ret true else
      pb_field_iter_next ;;
      it <- get ;;
      if Nat.eqb (pos it) from then ret false else pb_field_iter_find_loop fuel from tg
  end.

Definition pb_field_iter_find (tg : Z) : M pb_field_iter bool :=
  it <- get ;;
  pb_field_iter_find_loop (length (start it)) (pos it) tg.

(** ** Well-formed descriptor arrays and message layouts *)

(** A descriptor array is a body of fields with non-zero tags, closed by
    [PB_LAST_FIELD]. *)
Definition is_descriptor (fields body : list pb_field) : Prop :=
  fields = body ++ [PB_LAST_FIELD] /\ Forall (fun f => tag f <> 0) body.

Definition is_repeated (f : pb_field) : bool := PB_HTYPE (type f) =? PB_HTYPE_REPEATED.

(** Bytes the member takes in the message structure. *)
Definition member_size (f : pb_field) : Z :=
  if (PB_ATYPE (type f) =? PB_ATYPE_STATIC) && (PB_HTYPE (type f) =? PB_HTYPE_REPEATED)
  then data_size f * array_size f
  else if PB_ATYPE (type f) =? PB_ATYPE_POINTER then sizeof_ptr
  else data_size f.

Definition same_union (prev f : pb_field) : bool :=
  (PB_HTYPE (type prev) =? PB_HTYPE_ONEOF) && (PB_HTYPE (type f) =? PB_HTYPE_ONEOF)
  && (data_offset f =? PB_SIZE_MAX).

(** What the generator macros PB_DATAOFFSET_FIRST, PB_DATAOFFSET_OTHER and
    PB_DATAOFFSET_UNION put in the descriptors of members at the structure
    offsets [offs]. *)
Fixpoint laid_out_from (prev : pb_field) (prev_off : Z) (body : list pb_field) (offs : list Z) : Prop :=
  match body, offs with
  | [], [] => True
  | f :: body, o :: offs =>
      (if same_union prev f then o = prev_off /\ size_offset f = size_offset prev
       else data_offset f = o - prev_off - member_size prev)
      /\ laid_out_from f o body offs
  | _, _ => False
  end.

Definition laid_out (body : list pb_field) (offs : list Z) : Prop :=
  match body, offs with
  | [], [] => True
  | f :: body, o :: offs => data_offset f = o /\ laid_out_from f o body offs
  | _, _ => False
  end.

(** ** Behaviour *)

(** The iterator stands at field [i] of a message at address [dest]. *)
Definition iter_at (fields : list pb_field) (offs : list Z) (dest : Z) (i : nat) (it : pb_field_iter) : Prop :=
  start it = fields /\ pos it = i /\ dest_struct it = dest /\
  exists f o, fields !! i = Some f /\ offs !! i = Some o /\
    pData it = dest + o /\ pSize it = dest + o + size_offset f.

Section iterator.
Context (body : list pb_field) (offs : list Z) (dest : Z).
Context (Hbody : Forall (fun f => tag f <> 0) body).
Context (Hlay : laid_out body offs) (Hdest : dest <> 0).
Notation fields := (body ++ [PB_LAST_FIELD]).

Lemma laid_out_from_step prev po b os i f g o :
  laid_out_from prev po b os ->
  (prev :: b) !! i = Some f -> (prev :: b) !! S i = Some g -> (po :: os) !! i = Some o ->
  exists o', (po :: os) !! S i = Some o' /\
    if same_union f g then o' = o /\ size_offset g = size_offset f
    else data_offset g = o' - o - member_size f.
Proof.
  revert prev po os i. induction b as [|f' b IH]; intros prev po [|o1 os] i Hl Hf Hg Ho;
    try (destruct i; cbn in *; discriminate || contradiction).
  destruct Hl as [Hh Hl]. destruct i as [|i].
  - cbn in *. injection Hf as <-; injection Hg as <-; injection Ho as <-.
    exists o1. split; [reflexivity | exact Hh].
  - apply (IH f' o1 os i Hl); assumption.
Qed.

Lemma laid_out_step i f g o :
  body !! i = Some f -> body !! S i = Some g -> offs !! i = Some o ->
  exists o', offs !! S i = Some o' /\
    if same_union f g then o' = o /\ size_offset g = size_offset f
    else data_offset g = o' - o - member_size f.
Proof.
  destruct body as [|f0 b], offs as [|o0 os]; try discriminate || contradiction.
  destruct Hlay as [_ Hl]. apply laid_out_from_step, Hl.
Qed.

Lemma fields_body i f : body !! i = Some f -> fields !! i = Some f.
Proof. apply lookup_app_l_Some. Qed.

Lemma body_tag i f : body !! i = Some f -> (tag f =? 0) = false.
Proof. intros H. apply Z.eqb_neq. eapply Forall_lookup_1 in Hbody; [exact Hbody | exact H]. Qed.

Lemma iter_at_body i it : iter_at fields offs dest i it -> length offs = length body ->
  exists f o, body !! i = Some f /\ offs !! i = Some o /\
    pData it = dest + o /\ pSize it = dest + o + size_offset f.
Proof.
  intros (_ & _ & _ & f & o & Hf & Ho & Hd & Hs) Hlen. exists f, o.
  apply lookup_lt_Some in Ho as Hi. rewrite Hlen in Hi.
  rewrite lookup_app_l in Hf by exact Hi. auto.
Qed.

Lemma begin_at_first it f : body !! 0%nat = Some f ->
  exists it', pb_field_iter_begin fields dest it = (Ok true, it') /\
    iter_at fields offs dest 0 it' /\ required_field_index it' = 0.
Proof.
  intros Hf. pose proof (fields_body 0 f Hf) as Hf'. pose proof (body_tag 0 f Hf) as Ht.
  unfold pb_field_iter_begin, iter_pos, bind, put. cbn [start pos]. rewrite Hf'.
  rewrite (proj2 (Z.eqb_neq dest 0) Hdest). cbn. rewrite Ht. eexists; split; [reflexivity|].
  destruct body as [|f0 b], offs as [|o0 os]; try discriminate || contradiction.
  destruct Hlay as [Ho _]. injection Hf as ->. repeat split; cbn.
  exists f, o0. rewrite Ho. repeat split; reflexivity.
Qed.

(** One step inside the message moves to the next member's offset. *)
Lemma next_advances i it f g :
  iter_at fields offs dest i it -> body !! i = Some f -> body !! S i = Some g ->
  exists it', pb_field_iter_next it = (Ok true, it') /\
    iter_at fields offs dest (S i) it' /\
    required_field_index it' =
      if PB_HTYPE (type f) =? PB_HTYPE_REQUIRED
      then u32 (required_field_index it + 1) else required_field_index it.
Proof.
  intros (Es & Ep & Ed & f' & o & Hf' & Ho & HD & HS) Hf Hg.
  rewrite (fields_body i f Hf) in Hf'. injection Hf' as <-.
  destruct (laid_out_step i f g o Hf Hg Ho) as (o' & Ho' & Hstep).
  pose proof (body_tag i f Hf) as Htf. pose proof (body_tag (S i) g Hg) as Htg.
  pose proof (fields_body (S i) g Hg) as Hg'.
  destruct it as [st ps rq ds pd pz]. cbn in Es, Ep, Ed, HD, HS. subst.
  unfold pb_field_iter_next, bind, iter_pos, get, put, ret. cbn [start pos].
  rewrite (fields_body i f Hf), Htf. cbn [start pos]. rewrite Hg', Htg.
  change (_ && _ && _) with (same_union f g). destruct (same_union f g) eqn:Eu.
  - destruct Hstep as [-> Hz]. eexists; split; [reflexivity|]. cbn.
    apply andb_true_iff in Eu as [Eu _]. apply andb_true_iff in Eu as [Eu _].
    apply Z.eqb_eq in Eu. rewrite Eu. split; [|reflexivity].
    repeat split. exists g, o. rewrite Hz. auto.
  - eexists; split; [reflexivity|]. cbn. fold (member_size f). split; [|reflexivity].
    repeat split. exists g, o'. cbn. rewrite Hstep. repeat split; auto; lia.
Qed.

(** The step after the last member rewinds the iterator and says so. *)
Lemma next_wraps i it f :
  iter_at fields offs dest i it -> body !! i = Some f -> S i = length body ->
  exists it', pb_field_iter_next it = (Ok false, it') /\
    iter_at fields offs dest 0 it' /\ required_field_index it' = 0.
Proof.
  intros (Es & Ep & Ed & _) Hf Hlast.
  pose proof (body_tag i f Hf) as Htf.
  destruct (lookup_lt_is_Some_2 body 0) as [f0 Hf0]; [lia|].
  assert (Hend : fields !! S i = Some PB_LAST_FIELD)
    by (rewrite Hlast, lookup_app_r, Nat.sub_diag by lia; reflexivity).
  destruct it as [st ps rq ds pd pz]. cbn in Es, Ep, Ed. subst.
  unfold pb_field_iter_next. unfold bind at 1. unfold iter_pos at 1. cbn [start pos].
  rewrite (fields_body i f Hf), Htf, bind_get. unfold bind at 1, put. cbn [start pos].
  unfold bind at 1, iter_pos. cbn [start pos]. rewrite Hend. cbn [tag PB_LAST_FIELD Z.eqb].
  destruct (begin_at_first (mk_iter fields (S i) rq dest pd pz) f0 Hf0) as (it' & Hb & H).
  cbn [required_field_index dest_struct pData pSize].
  erewrite bind_Ok by exact Hb. exists it'. split; [reflexivity | exact H].
Qed.

(** Either kind of step, as movement modulo the number of members. *)
Lemma next_cyclic i it f :
  iter_at fields offs dest i it -> body !! i = Some f ->
  exists b it', pb_field_iter_next it = (Ok b, it') /\
    iter_at fields offs dest (S i mod length body) it'.
Proof.
  intros Hit Hf. pose proof (lookup_lt_Some _ _ _ Hf) as Hi.
  destruct (decide (S i = length body)) as [E|E].
  - destruct (next_wraps i it f Hit Hf E) as (it' & H1 & H2 & _).
    exists false, it'. rewrite E, Nat.Div0.mod_same. auto.
  - destruct (lookup_lt_is_Some_2 body (S i)) as [g Hg]; [lia|].
    destruct (next_advances i it f g Hit Hf Hg) as (it' & H1 & H2 & _).
    exists true, it'. rewrite Nat.mod_small by lia. auto.
Qed.

Definition wanted (tg : Z) (f : pb_field) : bool :=
  (tag f =? tg) && negb (PB_LTYPE (type f) =? PB_LTYPE_EXTENSION).

Lemma mod_succ_mod a n : (S (a mod n) mod n = S a mod n)%nat.
Proof.
  rewrite <- (Nat.add_1_r (a mod n)), <- (Nat.add_1_r a), Nat.Div0.add_mod_idemp_l. reflexivity.
Qed.

Lemma find_loop_correct tg i fuel k it :
  (i < length body)%nat -> (k < length body)%nat -> (length body - k <= fuel)%nat ->
  iter_at fields offs dest ((i + k) mod length body) it ->
  (forall j g, (j < k)%nat -> body !! ((i + j) mod length body)%nat = Some g -> wanted tg g = false) ->
  exists b it', pb_field_iter_find_loop fuel i tg it = (Ok b, it') /\
    if b
    then exists k' g, (k' < length body)%nat /\
      iter_at fields offs dest ((i + k') mod length body) it' /\
      body !! ((i + k') mod length body)%nat = Some g /\ wanted tg g = true /\
      (forall j h, (j < k')%nat -> body !! ((i + j) mod length body)%nat = Some h -> wanted tg h = false)
    else iter_at fields offs dest i it' /\ Forall (fun g => wanted tg g = false) body.
Proof.
  intros Hi. revert k it. induction fuel as [|fuel IH]; intros k it Hk Hfuel Hit Hno; [lia|].
  set (n := length body) in *. cbn [pb_field_iter_find_loop].
  destruct (lookup_lt_is_Some_2 body ((i + k) mod n)) as [f Hf]; [apply Nat.mod_upper_bound; lia|].
  assert (Epos : iter_pos it = (Ok f, it)).
  { destruct Hit as (Es & Ep & _). unfold iter_pos. rewrite Es, Ep, (fields_body _ f Hf). reflexivity. }
  rewrite (bind_Ok _ _ _ _ _ Epos). fold (wanted tg f).
  destruct (wanted tg f) eqn:Ew.
  { exists true, it. split; [reflexivity|]. exists k, f. auto. }
  destruct (next_cyclic _ it f Hit Hf) as (b & it' & Hn & Hit').
  rewrite (bind_Ok _ _ _ _ _ Hn), bind_get. fold n in Hit'. rewrite mod_succ_mod in Hit'.
  pose proof Hit' as [_ [Ep' _]]. rewrite Ep'.
  assert (Hno' : forall j g, (j < S k)%nat -> body !! ((i + j) mod n)%nat = Some g -> wanted tg g = false).
  { intros j g Hj Hg. destruct (decide (j = k)) as [->|]; [congruence|]. apply (Hno j); [lia | exact Hg]. }
  rewrite <- Nat.add_succ_r in Hit', Ep' |- *.
  destruct (Nat.eqb_spec ((i + S k) mod n) i) as [Ei|Ei].
  - exists false, it'. split; [reflexivity|]. split.
    { rewrite Ei in Hit'. exact Hit'. }
    assert (S k = n).
    { destruct (decide (S k = n)) as [|Hne]; [assumption|exfalso].
      destruct (decide (i + S k < n)%nat).
      - rewrite Nat.mod_small in Ei; lia.
      - replace (i + S k)%nat with (i + S k - n + 1 * n)%nat in Ei by lia.
        rewrite Nat.Div0.mod_add, Nat.mod_small in Ei; lia. }
    apply Forall_lookup_2. intros j g Hg. pose proof (lookup_lt_Some _ _ _ Hg) as Hj. fold n in Hj.
    apply (Hno' ((j + n - i) mod n)%nat).
    { rewrite H. apply Nat.mod_upper_bound; lia. }
    rewrite Nat.Div0.add_mod_idemp_r. replace (i + (j + n - i))%nat with (j + 1 * n)%nat by lia.
    rewrite Nat.Div0.mod_add, Nat.mod_small by lia. exact Hg.
  - assert (S k <> n).
    { intros E. rewrite E in Ei. replace (i + n)%nat with (i + 1 * n)%nat in Ei by lia.
      rewrite Nat.Div0.mod_add, Nat.mod_small in Ei; lia. }
    apply (IH (S k) it'); [lia | lia | exact Hit' | exact Hno'].
Qed.
End iterator.

(** ** The loop over a message *)

(** [do { body(iter.pos, iter.pData) } while (pb_field_iter_next(&iter))], the
    loop of [pb_encode], [pb_release] and [pb_message_set_to_defaults], here
    with a body that records what it is given. *)
Fixpoint visit_fields (fuel : nat) : M pb_field_iter (list (pb_field * Z * Z)) :=
  match fuel with
  | O => stuck
  | S fuel =>
      f <- iter_pos ;;
      it <- get ;;
      more <- pb_field_iter_next ;;
      if (more : bool) then rest <- visit_fields fuel ;; ret ((f, pData it, required_field_index it) :: rest)
      else ret [(f, pData it, required_field_index it)]
  end.

Definition is_required (f : pb_field) : bool := PB_HTYPE (type f) =? PB_HTYPE_REQUIRED.

Fixpoint required_before (n : Z) (body : list pb_field) : list Z :=
  match body with
  | [] => []
  | f :: body => n :: required_before (if is_required f then u32 (n + 1) else n) body
  end.

Lemma visit_from body offs dest i it fuel :
  Forall (fun f => tag f <> 0) body -> laid_out body offs -> dest <> 0 ->
  iter_at (body ++ [PB_LAST_FIELD]) offs dest i it -> (i < length body)%nat ->
  (length body - i <= fuel)%nat ->
  exists it', visit_fields fuel it =
    (Ok (zip (zip (drop i body) (map (Z.add dest) (drop i offs)))
             (required_before (required_field_index it) (drop i body))), it')
    /\ iter_at (body ++ [PB_LAST_FIELD]) offs dest 0 it' /\ required_field_index it' = 0.
Proof.
  intros Hb Hl Hd. revert i it; induction fuel as [|fuel IH]; intros i it Hit Hi Hf; [lia|].
  destruct (lookup_lt_is_Some_2 body i Hi) as [f Ef].
  pose proof Hit as (Es & Ep & _ & f' & o & Ef' & Eo & HD & _).
  rewrite (fields_body body i f Ef) in Ef'. injection Ef' as <-.
  cbn [visit_fields].
  rewrite (bind_Ok iter_pos _ it f it)
    by (unfold iter_pos; rewrite Es, Ep, (fields_body body i f Ef); reflexivity).
  rewrite bind_get, (drop_S body f i Ef), (drop_S offs o i Eo).
  destruct (decide (S i = length body)) as [E|E].
  - destruct (next_wraps body offs dest Hb Hl Hd i it f Hit Ef E) as (it' & Hn & H).
    rewrite (bind_Ok _ _ _ _ _ Hn). exists it'. rewrite E, drop_all. cbn.
    rewrite HD. split; [reflexivity | exact H].
  - destruct (lookup_lt_is_Some_2 body (S i)) as [g Hg]; [lia|].
    destruct (next_advances body offs dest Hb Hl i it f g Hit Ef Hg) as (it1 & Hn & Hit1 & Hreq).
    rewrite (bind_Ok _ _ _ _ _ Hn).
    destruct (IH (S i) it1 Hit1 ltac:(lia) ltac:(lia)) as (it' & Hv & H).
    rewrite (bind_Ok _ _ _ _ _ Hv). exists it'. cbn.
    unfold is_required. rewrite HD, Hreq. split; [reflexivity | exact H].
Qed.

(** the loop every nanopb traversal uses visits each member of a message
    exactly once, in descriptor order, with the iterator's data pointer at the
    structure offset the generator macros were given and the running count of
    required fields, and then stops with the iterator rewound to the first
    member. *)
Theorem visit_fields_correct body offs dest it :
  Forall (fun f => tag f <> 0) body -> laid_out body offs -> dest <> 0 -> body <> [] ->
  exists it0, pb_field_iter_begin (body ++ [PB_LAST_FIELD]) dest it = (Ok true, it0) /\
    exists it', visit_fields (length body) it0 =
      (Ok (zip (zip body (map (Z.add dest) offs)) (required_before 0 body)), it')
      /\ iter_at (body ++ [PB_LAST_FIELD]) offs dest 0 it' /\ required_field_index it' = 0.
Proof.
  intros Hb Hl Hd Hne. destruct (lookup_lt_is_Some_2 body 0) as [f Hf]; [destruct body; cbn; [congruence|lia]|].
  destruct (begin_at_first body offs dest Hb Hl Hd it f Hf) as (it0 & H1 & H2 & H3).
  exists it0. split; [exact H1|]. pose proof (lookup_lt_Some _ _ _ Hf).
  destruct (visit_from body offs dest 0 it0 (length body) Hb Hl Hd H2 ltac:(lia) ltac:(lia)) as (it' & H4 & H5).
  rewrite H3 in H4. exists it'. split; [exact H4 | exact H5].
Qed.

(** C18: [pb_field_iter_find] always returns.  Started at any member it finds
    the first member with the wanted tag in cyclic order that is not an
    extension placeholder, and stays there; it returns false only when no
    member has that tag, and then the iterator is back where it started. *)
Theorem pb_field_iter_find_correct body offs dest tg i it :
  Forall (fun f => tag f <> 0) body -> laid_out body offs -> dest <> 0 ->
  (i < length body)%nat -> iter_at (body ++ [PB_LAST_FIELD]) offs dest i it ->
  exists b it', pb_field_iter_find tg it = (Ok b, it') /\
    if b
    then exists k g, (k < length body)%nat /\
      iter_at (body ++ [PB_LAST_FIELD]) offs dest ((i + k) mod length body) it' /\
      body !! ((i + k) mod length body)%nat = Some g /\ wanted tg g = true /\
      (forall j h, (j < k)%nat -> body !! ((i + j) mod length body)%nat = Some h -> wanted tg h = false)
    else iter_at (body ++ [PB_LAST_FIELD]) offs dest i it' /\ Forall (fun g => wanted tg g = false) body.
Proof.
  intros Hb Hl Hd Hi Hit. pose proof Hit as (Es & Ep & _).
  unfold pb_field_iter_find. rewrite bind_get, Es, Ep.
  apply (find_loop_correct body offs dest Hb Hl Hd tg i _ 0 it Hi); [lia | | | intros; lia].
  - rewrite length_app; cbn; lia.
  - rewrite Nat.add_0_r, Nat.mod_small by exact Hi. exact Hit.
Qed.

(** *** A concrete message: an int32, a oneof of two members, a static array
    and a required bool. *)
Definition example_fields : list pb_field := [
  mk_field 1 (PB_ATYPE_STATIC + PB_HTYPE_OPTIONAL + PB_LTYPE_VARINT) 4 (-4) 4 0 0;
  mk_field 2 (PB_ATYPE_STATIC + PB_HTYPE_ONEOF + PB_LTYPE_UVARINT) 8 (-8) 8 0 0;
  mk_field 3 (PB_ATYPE_STATIC + PB_HTYPE_ONEOF + PB_LTYPE_BOOL) PB_SIZE_MAX (-8) 1 0 0;
  mk_field 4 (PB_ATYPE_STATIC + PB_HTYPE_REPEATED + PB_LTYPE_FIXED32) 11 (-4) 4 3 0;
  mk_field 5 (PB_ATYPE_STATIC + PB_HTYPE_REQUIRED + PB_LTYPE_BOOL) 0 0 1 0 0 ].
Definition example_offsets : list Z := [4; 16; 16; 28; 40].

Lemma example_tags : Forall (fun f => tag f <> 0) example_fields.
Proof. repeat constructor; cbn; lia. Qed.
Lemma example_laid_out : laid_out example_fields example_offsets.
Proof. vm_compute. repeat split; reflexivity. Qed.

Lemma visit_fields_correct_witness :
  example_fields <> [] /\
  exists it0, pb_field_iter_begin (example_fields ++ [PB_LAST_FIELD]) 1000 (mk_iter [] 0 0 0 0 0) = (Ok true, it0) /\
    exists it', visit_fields (length example_fields) it0 =
      (Ok (zip (zip example_fields (map (Z.add 1000) example_offsets)) (required_before 0 example_fields)), it')
      /\ iter_at (example_fields ++ [PB_LAST_FIELD]) example_offsets 1000 0 it' /\ required_field_index it' = 0.
Proof.
  split; [discriminate|].
  apply (visit_fields_correct example_fields example_offsets 1000);
    [apply example_tags | apply example_laid_out | lia | discriminate].
Defined.

Definition example_iter : pb_field_iter :=
  mk_iter (example_fields ++ [PB_LAST_FIELD]) 3 0 1000 1028 1024.

Lemma example_iter_at : iter_at (example_fields ++ [PB_LAST_FIELD]) example_offsets 1000 3 example_iter.
Proof. repeat split. do 2 eexists. repeat split; reflexivity. Qed.

Lemma pb_field_iter_find_correct_witness :
  fst (pb_field_iter_find 2 example_iter) = Ok true /\
  exists b it', pb_field_iter_find 2 example_iter = (Ok b, it') /\
    if b
    then exists k g, (k < length example_fields)%nat /\
      iter_at (example_fields ++ [PB_LAST_FIELD]) example_offsets 1000 ((3 + k) mod length example_fields) it' /\
      example_fields !! ((3 + k) mod length example_fields)%nat = Some g /\ wanted 2 g = true /\
      (forall j h, (j < k)%nat -> example_fields !! ((3 + j) mod length example_fields)%nat = Some h -> wanted 2 h = false)
    else iter_at (example_fields ++ [PB_LAST_FIELD]) example_offsets 1000 3 it' /\
      Forall (fun g => wanted 2 g = false) example_fields.
Proof.
  split; [reflexivity|].
  apply (pb_field_iter_find_correct example_fields example_offsets 1000 2 3);
    [apply example_tags | apply example_laid_out | lia | cbn; lia | apply example_iter_at].
Defined.
