(* ===== verification/PbCodec.v ===== *)
(** The nanopb wire primitives: varints, zigzag integers, fixed-width
    integers, tags, length-delimited substreams and field skipping
    (ios/Pods/nanopb/pb_encode.c and pb_decode.c), and the encoders and
    decoders of the scalar field types that sit on them. *)
From Stdlib Require Import ZArith Lia Bool String.
From coqutil Require Import Byte Word.LittleEndianList.
From stdpp Require Import base list numbers.
From S2P Require Import Prelude PbStream PbCommon.
Local Open Scope Z_scope.
Local Open Scope c_scope.

(** ** Encoding *)

Section encode.
Context {CB : Type} {OCB : OutputCallback CB}.
Notation E := (M (pb_ostream CB) unit).

(** The [while (value)] loop of [pb_encode_varint] filling [buffer[10]];
    [room] is what is left of the buffer. *)
Fixpoint varint_fill (room : nat) (value : Z) : option (list byte) :=
  if value =? 0 then Some [] else
  match room with
  | O => None
  | S room =>
      match varint_fill room (Z.shiftr value 7) with
      | None => None
      | Some bs => Some (b8 (Z.lor (Z.land value 0x7F) 0x80) :: bs)
      end
  end.

(** [buffer[i-1] &= 0x7F] *)
Fixpoint clear_top_bit (bs : list byte) : list byte :=
  match bs with
  | [] => []
  | [b] => [b8 (Z.land (u8 b) 0x7F)]
  | b :: bs => b :: clear_top_bit bs
  end.

Definition pb_encode_varint (value : Z) : E :=
  if value <=? 0x7F then pb_write [b8 value] 1 else
  match varint_fill 10 value with
  | None => stuck
  | Some bs => let bs := clear_top_bit bs in pb_write bs (zlen bs)
  end.

(** [value] is an [int64_t]. *)
Definition zigzag (value : Z) : Z :=
  if value <? 0 then u64 (Z.lnot (u64 (Z.shiftl (u64 value) 1)))
  else u64 (Z.shiftl (u64 value) 1).

Definition pb_encode_svarint (value : Z) : E := pb_encode_varint (zigzag value).

Definition pb_encode_fixed32 (val : Z) : E :=
  pb_write [b8 (Z.land val 0xFF); b8 (Z.land (Z.shiftr val 8) 0xFF);
            b8 (Z.land (Z.shiftr val 16) 0xFF); b8 (Z.land (Z.shiftr val 24) 0xFF)] 4.

Definition pb_encode_fixed64 (val : Z) : E :=
  pb_write [b8 (Z.land val 0xFF); b8 (Z.land (Z.shiftr val 8) 0xFF);
            b8 (Z.land (Z.shiftr val 16) 0xFF); b8 (Z.land (Z.shiftr val 24) 0xFF);
            b8 (Z.land (Z.shiftr val 32) 0xFF); b8 (Z.land (Z.shiftr val 40) 0xFF);
            b8 (Z.land (Z.shiftr val 48) 0xFF); b8 (Z.land (Z.shiftr val 56) 0xFF)] 8.

Definition pb_encode_tag (wiretype field_number : Z) : E :=
  pb_encode_varint (Z.lor (u64 (Z.shiftl field_number 3)) wiretype).

Definition wire_type_of_ltype (l : Z) : option Z :=
  if (l =? PB_LTYPE_BOOL) || (l =? PB_LTYPE_VARINT) || (l =? PB_LTYPE_UVARINT)
     || (l =? PB_LTYPE_SVARINT) then Some PB_WT_VARINT
  else if l =? PB_LTYPE_FIXED32 then Some PB_WT_32BIT
  else if l =? PB_LTYPE_FIXED64 then Some PB_WT_64BIT
  else if (l =? PB_LTYPE_BYTES) || (l =? PB_LTYPE_STRING) || (l =? PB_LTYPE_SUBMESSAGE)
     || (l =? PB_LTYPE_FIXED_LENGTH_BYTES) then Some PB_WT_STRING
  else None.

Definition pb_encode_tag_for_field (field : pb_field) : E :=
  match wire_type_of_ltype (PB_LTYPE (type field)) with
  | None => o_return_error "invalid field type"
  | Some wiretype => pb_encode_tag wiretype (tag field)
  end.

Definition pb_encode_string (buffer : list byte) (size : Z) : E :=
  pb_encode_varint size ;; pb_write buffer size.

(** [pb_encode_submessage]; [pb_encode_body] is [pb_encode] on the fields of
    the submessage, which is run twice: on a sizing stream, then for real. *)
Definition pb_encode_submessage (pb_encode_body : E) : E :=
  stream <- get ;;
  match pb_encode_body PB_OSTREAM_SIZING with
  | (Stuck, _) => stuck
  | (Fail, sub) =>
      put (mk_ostream (o_sink stream) (o_max_size stream) (o_bytes_written stream) (o_errmsg sub)) ;;
      fail
  | (Ok _, sub) =>
      let size := o_bytes_written sub in
      pb_encode_varint size ;;
      stream <- get ;;
      if is_sizing stream then pb_write [] size else
      if o_max_size stream <? u64 (o_bytes_written stream + size) then o_return_error "stream full" else
      let '(status, sub) := pb_encode_body (mk_ostream (o_sink stream) size 0 None) in
      put (mk_ostream (o_sink sub) (o_max_size stream)
             (u64 (o_bytes_written stream + o_bytes_written sub)) (o_errmsg sub)) ;;
      match status with
      | Stuck => stuck
      | _ =>
          if negb (o_bytes_written sub =? size) then o_return_error "submsg size changed" else
          match status with Ok _ => ret tt | _ => fail end
      end
  end.

(** *** Scalar field encoders; [src] is the memory at the field. *)

(** Read an [n]-byte little-endian object. *)
Definition load (n : nat) (src : list byte) : option Z :=
  if (length src <? n)%nat then None else Some (le_combine (take n src)).

Definition with_load (n : nat) (src : list byte) (k : Z -> E) : E :=
  match load n src with None => stuck | Some v => k v end.

(** [safe_read_bool] *)
Definition safe_read_bool (p : list byte) : option bool :=
  option_map (fun v => negb (v =? 0)) (load 1 p).

Definition pb_enc_bool (field : pb_field) (src : list byte) : E :=
  match safe_read_bool src with
  | None => stuck
  | Some b => pb_encode_varint (if b then 1 else 0)
  end.

Definition pb_enc_varint (field : pb_field) (src : list byte) : E :=
  let enc n := with_load n src (fun v => pb_encode_varint (u64 (sext (8 * Z.of_nat n) v))) in
  if data_size field =? 1 then enc 1%nat
  else if data_size field =? 2 then enc 2%nat
  else if data_size field =? 4 then enc 4%nat
  else if data_size field =? 8 then enc 8%nat
  else o_return_error "invalid data_size".

Definition pb_enc_uvarint (field : pb_field) (src : list byte) : E :=
  let enc n := with_load n src pb_encode_varint in
  if data_size field =? 1 then enc 1%nat
  else if data_size field =? 2 then enc 2%nat
  else if data_size field =? 4 then enc 4%nat
  else if data_size field =? 8 then enc 8%nat
  else o_return_error "invalid data_size".

Definition pb_enc_svarint (field : pb_field) (src : list byte) : E :=
  let enc n := with_load n src (fun v => pb_encode_svarint (sext (8 * Z.of_nat n) v)) in
  if data_size field =? 1 then enc 1%nat
  else if data_size field =? 2 then enc 2%nat
  else if data_size field =? 4 then enc 4%nat
  else if data_size field =? 8 then enc 8%nat
  else o_return_error "invalid data_size".

Definition pb_enc_fixed32 (field : pb_field) (src : list byte) : E :=
  with_load 4 src pb_encode_fixed32.
Definition pb_enc_fixed64 (field : pb_field) (src : list byte) : E :=
  with_load 8 src pb_encode_fixed64.
Definition pb_enc_fixed_length_bytes (field : pb_field) (src : list byte) : E :=
  pb_encode_string src (data_size field).
End encode.

(** ** Decoding *)

Section decode.
Context {CB : Type} {ICB : InputCallback CB}.
Notation D := (M (pb_istream CB)).

(** The multibyte loop of [pb_decode_varint32_eof]; [bitpos] is a
    [uint_fast8_t], eight bits wide on the targets of the pod.  Every turn
    consumes a byte, so [bytes_left] turns are enough. *)
Fixpoint varint32_loop (fuel : nat) (bitpos result : Z) : D Z :=
  match fuel with
  | O => stuck
  | S fuel =>
      b <- pb_readbyte ;;
      let byte := u8 b in
      result <-
        (if 32 <=? bitpos then
           let sign_extension := if bitpos <? 63 then 0xFF else 0x01 in
           if negb (Z.land byte 0x7F =? 0)
              && ((Z.shiftr result 31 =? 0) || negb (byte =? sign_extension))
           then i_return_error "varint overflow" else ret result
         else ret (Z.lor result (u32 (Z.shiftl (Z.land byte 0x7F) bitpos)))) ;;
      let bitpos := (bitpos + 7) mod 256 in
      if negb (Z.land byte 0x80 =? 0) then varint32_loop fuel bitpos result
      else if (bitpos =? 35) && negb (Z.land byte 0x70 =? 0)
      then i_return_error "varint overflow" else ret result
  end.

(** The result and whether [*eof] was set. *)
Definition pb_decode_varint32_eof (st : pb_istream CB) : outcome Z * pb_istream CB * bool :=
  match pb_readbyte st with
  | (Ok b, st1) =>
      if Z.land (u8 b) 0x80 =? 0 then (Ok (u8 b), st1, false)
      else (varint32_loop (S (Z.to_nat (i_bytes_left st1))) 7 (Z.land (u8 b) 0x7F) st1, false)
  | (Fail, st1) => (Fail, st1, i_bytes_left st1 =? 0)
  | (Stuck, st1) => (Stuck, st1, false)
  end.

Definition pb_decode_varint32 : D Z := fun st => fst (pb_decode_varint32_eof st).

(** The loop of [pb_decode_varint]; [bitpos] goes 0, 7, ..., 63, 70. *)
Fixpoint varint_loop (fuel : nat) (bitpos result : Z) : D Z :=
  match fuel with
  | O => stuck
  | S fuel =>
      if 64 <=? bitpos then i_return_error "varint overflow" else
      b <- pb_readbyte ;;
      let byte := u8 b in
      let result := Z.lor result (u64 (Z.shiftl (Z.land byte 0x7F) bitpos)) in
      let bitpos := (bitpos + 7) mod 256 in
      if negb (Z.land byte 0x80 =? 0) then varint_loop fuel bitpos result else ret result
  end.

Definition pb_decode_varint : D Z := varint_loop 11 0 0.

Fixpoint skip_varint_loop (fuel : nat) : D unit :=
  match fuel with
  | O => stuck
  | S fuel =>
      bs <- pb_read true 1 ;;
      if negb (Z.land (u8 (znth bs 0)) 0x80 =? 0) then skip_varint_loop fuel else ret tt
  end.

Definition pb_skip_varint : D unit :=
  st <- get ;; skip_varint_loop (S (Z.to_nat (i_bytes_left st))).

Definition pb_skip_string : D unit :=
  length <- pb_decode_varint32 ;;
  pb_read false length ;; ret tt.

(** [( *wire_type, *tag)] and whether [*eof] was set. *)
Definition pb_decode_tag (st : pb_istream CB) : outcome (Z * Z) * pb_istream CB * bool :=
  match pb_decode_varint32_eof st with
  | (Ok temp, st1, eof) =>
      if temp =? 0 then (Fail, st1, true)
      else (Ok (Z.land temp 7, Z.shiftr temp 3), st1, eof)
  | (Fail, st1, eof) => (Fail, st1, eof)
  | (Stuck, st1, eof) => (Stuck, st1, eof)
  end.

Definition pb_skip_field (wire_type : Z) : D unit :=
  if wire_type =? PB_WT_VARINT then pb_skip_varint
  else if wire_type =? PB_WT_64BIT then pb_read false 8 ;; ret tt
  else if wire_type =? PB_WT_STRING then pb_skip_string
  else if wire_type =? PB_WT_32BIT then pb_read false 4 ;; ret tt
  else i_return_error "invalid wire_type".

Fixpoint raw_varint_loop (fuel : nat) (size max_size : Z) : D (list byte) :=
  match fuel with
  | O => stuck
  | S fuel =>
      let size := size + 1 in
      if max_size <? size then fail else
      bs <- pb_read true 1 ;;
      if negb (Z.land (u8 (znth bs 0)) 0x80 =? 0)
      then rest <- raw_varint_loop fuel size max_size ;; ret (bs ++ rest)
      else ret bs
  end.

(** The bytes left in [buf]; [*size] is their number. *)
Definition read_raw_value (wire_type max_size : Z) : D (list byte) :=
  if wire_type =? PB_WT_VARINT then raw_varint_loop (S (Z.to_nat max_size)) 0 max_size
  else if wire_type =? PB_WT_64BIT then pb_read true 8
  else if wire_type =? PB_WT_32BIT then pb_read true 4
  else i_return_error "invalid wire_type".

Definition pb_make_string_substream : D (pb_istream CB) :=
  size <- pb_decode_varint32 ;;
  stream <- get ;;
  if i_bytes_left stream <? size then i_return_error "parent stream too short" else
  put (mk_istream (i_source stream) (i_bytes_left stream - size) (i_errmsg stream)) ;;
  ret (mk_istream (i_source stream) size (i_errmsg stream)).

Definition pb_close_string_substream (substream : pb_istream CB) : D unit :=
  '(_, substream) <-
    local (if i_bytes_left substream =? 0 then ret []
           else pb_read false (i_bytes_left substream)) substream ;;
  stream <- get ;;
  put (mk_istream (i_source substream) (i_bytes_left stream) (i_errmsg substream)).

Definition pb_decode_svarint : D Z :=
  value <- pb_decode_varint ;;
  ret (if negb (Z.land value 1 =? 0)
       then sext 64 (u64 (Z.lnot (Z.shiftr value 1)))
       else sext 64 (Z.shiftr value 1)).

(** [((uint32_t)bytes[0] << 0) | ((uint32_t)bytes[1] << 8) | ...] *)
Definition or_bytes (bytes : list byte) (n : nat) : Z :=
  foldl (fun acc i => Z.lor acc (Z.shiftl (u8 (znth bytes (Z.of_nat i))) (8 * Z.of_nat i)))
    0 (seq 0 n).

Definition pb_decode_fixed32 : D Z :=
  bytes <- pb_read true 4 ;; ret (or_bytes bytes 4).
Definition pb_decode_fixed64 : D Z :=
  bytes <- pb_read true 8 ;; ret (or_bytes bytes 8).

(** *** Scalar field decoders; the state adds the memory at [dest]. *)
Notation DF := (M (list byte * pb_istream CB)).

Definition on_stream {A} (d : D A) : DF A := fun '(dest, st) =>
  match d st with
  | (Ok a, st1) => (Ok a, (dest, st1))
  | (Fail, st1) => (Fail, (dest, st1))
  | (Stuck, st1) => (Stuck, (dest, st1))
  end.

(** Store bytes at [dest]. *)
Definition store (bs : list byte) : DF unit := fun '(dest, st) =>
  if (length dest <? length bs)%nat then (Stuck, (dest, st))
  else (Ok tt, (bs ++ drop (length bs) dest, st)).

Definition pb_dec_bool (field : pb_field) : DF unit :=
  value <- on_stream pb_decode_varint32 ;;
  store [b8 (if value =? 0 then 0 else 1)].

Definition pb_dec_varint (field : pb_field) : DF unit :=
  value <- on_stream pb_decode_varint ;;
  let svalue := if data_size field =? 8 then sext 64 value else sext 32 value in
  let put n := store (le_split n svalue) ;; ret (sext (8 * Z.of_nat n) svalue) in
  clamped <-
    (if data_size field =? 8 then put 8%nat
     else if data_size field =? 4 then put 4%nat
     else if data_size field =? 2 then put 2%nat
     else if data_size field =? 1 then put 1%nat
     else on_stream (i_return_error "invalid data_size")) ;;
  if clamped =? svalue then ret tt else on_stream (i_return_error "integer too large").

Definition pb_dec_uvarint (field : pb_field) : DF unit :=
  value <- on_stream pb_decode_varint ;;
  let put n := store (le_split n value) ;; ret (wrap (8 * Z.of_nat n) value) in
  clamped <-
    (if data_size field =? 8 then put 8%nat
     else if data_size field =? 4 then put 4%nat
     else if data_size field =? 2 then put 2%nat
     else if data_size field =? 1 then put 1%nat
     else on_stream (i_return_error "invalid data_size")) ;;
  if clamped =? value then ret tt else on_stream (i_return_error "integer too large").

Definition pb_dec_svarint (field : pb_field) : DF unit :=
  value <- on_stream pb_decode_svarint ;;
  let put n := store (le_split n value) ;; ret (sext (8 * Z.of_nat n) value) in
  clamped <-
    (if data_size field =? 8 then put 8%nat
     else if data_size field =? 4 then put 4%nat
     else if data_size field =? 2 then put 2%nat
     else if data_size field =? 1 then put 1%nat
     else on_stream (i_return_error "invalid data_size")) ;;
  if clamped =? value then ret tt else on_stream (i_return_error "integer too large").

Definition pb_dec_fixed32 (field : pb_field) : DF unit :=
  v <- on_stream pb_decode_fixed32 ;; store (le_split 4 v).
Definition pb_dec_fixed64 (field : pb_field) : DF unit :=
  v <- on_stream pb_decode_fixed64 ;; store (le_split 8 v).

Definition pb_dec_fixed_length_bytes (field : pb_field) : DF unit :=
  size <- on_stream pb_decode_varint32 ;;
  if PB_SIZE_MAX <? size then on_stream (i_return_error "bytes overflow")
  else if size =? 0 then store (zeros (data_size field))
  else if negb (size =? data_size field)
  then on_stream (i_return_error "incorrect fixed length bytes size")
  else bs <- on_stream (pb_read true (data_size field)) ;; store bs.
End decode.

(** ** The base-128 format *)

(** The canonical varint of [v] in at most [n] bytes. *)
Fixpoint leb128 (n : nat) (v : Z) : list byte :=
  match n with
  | O => []
  | S n => if v <? 128 then [b8 v] else b8 (v mod 128 + 128) :: leb128 n (v / 128)
  end.
Notation varint := (leb128 10).

Definition fits_leb (n : nat) (v : Z) : Prop := 0 <= v < 2 ^ (7 * Z.of_nat n).

Create HintDb pb discriminated.

Section leb.
Lemma land_127 v : Z.land v 0x7F = v mod 128.
Proof. apply (land_ones_mod v 7); lia. Qed.

Lemma lor_128 x : 0 <= x < 128 -> Z.lor x 0x80 = x + 128.
Proof.
  intros H. rewrite Z.lor_comm. change 0x80 with (Z.shiftl 1 7).
  rewrite lor_shiftl_add by lia. change (Z.shiftl 1 7) with 128. lia.
Qed.

(** The continuation bit of a byte is its comparison with 128. *)
Lemma land_128 b : negb (Z.land (u8 b) 0x80 =? 0) = (128 <=? u8 b).
Proof. destruct b; reflexivity. Qed.

Lemma leb128_nonempty n v : leb128 (S n) v <> [].
Proof. cbn. destruct (v <? 128); discriminate. Qed.

Lemma zlen_leb128 n v : (0 < n)%nat -> 1 <= zlen (leb128 n v) <= Z.of_nat n.
Proof.
  revert v; induction n as [|n IH]; intros v Hn; [lia|]. cbn [leb128].
  destruct (v <? 128); rewrite zlen_cons, ?zlen_nil; [lia|].
  destruct n; [cbn; rewrite zlen_nil; lia|]. specialize (IH (v / 128) ltac:(lia)). lia.
Qed.

Lemma fits_leb_div n v : fits_leb (S n) v -> fits_leb n (v / 128).
Proof.
  unfold fits_leb. rewrite Nat2Z.inj_succ. intros H.
  replace (7 * Z.succ (Z.of_nat n)) with (7 * Z.of_nat n + 7) in H by lia.
  rewrite Z.pow_add_r in H by lia. change (2 ^ 7) with 128 in H.
  split; [apply Z.div_pos; lia | apply Z.div_lt_upper_bound; lia].
Qed.

Lemma leb128_more n v : 128 <= v -> leb128 (S n) v = b8 (v mod 128 + 128) :: leb128 n (v / 128).
Proof. intros H. cbn. destruct (Z.ltb_spec v 128); [lia | reflexivity]. Qed.

(** The bound on the length is slack: the value decides it. *)
Lemma leb128_shrink n v fuel :
  fits_leb n v -> (0 < n)%nat -> (length (leb128 n v) <= fuel)%nat ->
  exists k, (0 < k)%nat /\ (k <= fuel)%nat /\ fits_leb k v /\ leb128 n v = leb128 k v.
Proof.
  revert v fuel; induction n as [|n IH]; intros v fuel Hf Hn Hl; [lia|]. cbn [leb128] in Hl |- *.
  destruct (Z.ltb_spec v 128).
  - exists 1%nat. cbn in Hl |- *. unfold fits_leb in *. change (2 ^ (7 * Z.of_nat 1)) with 128.
    destruct (Z.ltb_spec v 128); [|lia]. repeat split; lia.
  - destruct n as [|n]; [unfold fits_leb in Hf; change (2 ^ (7 * Z.of_nat 1)) with 128 in Hf; lia|].
    cbn [length] in Hl. destruct fuel as [|fuel]; [lia|].
    destruct (IH (v / 128) fuel (fits_leb_div _ _ Hf) ltac:(lia) ltac:(lia)) as (k & H1 & H2 & H3 & H4).
    exists (S k). rewrite (leb128_more k), H4 by lia.
    split; [lia|]. split; [lia|]. split; [|reflexivity].
    unfold fits_leb in *. rewrite Nat2Z.inj_succ.
    replace (7 * Z.succ (Z.of_nat k)) with (7 + 7 * Z.of_nat k) by lia.
    rewrite Z.pow_add_r by lia. change (2 ^ 7) with 128.
    pose proof (Z.div_mod v 128). pose proof (Z.mod_pos_bound v 128). nia.
Qed.

Lemma varint_fill_leb n v : fits_leb n v -> 0 < v ->
  exists b bs, varint_fill n v = Some (b :: bs) /\ clear_top_bit (b :: bs) = leb128 n v.
Proof.
  revert v; induction n as [|n IH]; intros v Hf Hv; [unfold fits_leb in Hf; cbn in Hf; lia|].
  cbn [varint_fill leb128]. destruct (Z.eqb_spec v 0); [lia|].
  pose proof (Z.mod_pos_bound v 128 ltac:(lia)).
  rewrite shiftr_div by lia. change (2 ^ 7) with 128.
  rewrite land_127, lor_128 by lia.
  destruct (Z.ltb_spec v 128).
  - rewrite Z.div_small by lia. replace (varint_fill n 0) with (Some (@nil byte)) by (destruct n; reflexivity).
    do 2 eexists; split; [reflexivity|]. cbn [clear_top_bit]. f_equal.
    rewrite u8_b8_small, land_127 by lia. f_equal.
    rewrite (Z.mod_small v) by lia.
    replace (v + 128) with (v + 1 * 128) by lia. rewrite Z.mod_add, Z.mod_small; lia.
  - destruct (IH (v / 128)) as (b & bs & -> & Hc).
    { apply fits_leb_div, Hf. }
    { apply Z.div_str_pos; lia. }
    do 2 eexists; split; [reflexivity|]. cbn [clear_top_bit] in *. rewrite Hc. reflexivity.
Qed.
End leb.

Section emits.
Context {CB : Type} {OCB : OutputCallback CB}.

#[export] Instance pb_encode_varint_emits v :
  in_word 64 v -> Emits (CB := CB) (pb_encode_varint v) (varint v).
Proof.
  intros Hv. unfold pb_encode_varint.
  destruct (Z.leb_spec v 0x7F).
  - replace (varint v) with [b8 v]; [apply pb_write_all_emits|].
    cbn [leb128]. destruct (Z.ltb_spec v 128); [reflexivity|lia].
  - destruct (varint_fill_leb 10 v) as (b & bs & -> & <-); [|lia|apply pb_write_all_emits].
    unfold fits_leb, in_word in *. lia.
Qed.
End emits.

Section parses.
Context {CB : Type} {ICB : InputCallback CB}.
Notation P := (Parses (CB := CB)).

(** Peel the first byte off a loop. *)
Lemma parses_byte {A} (k : byte -> M (pb_istream CB) A) b bs a :
  P (k b) bs a -> P (bind pb_readbyte k) (b :: bs) a.
Proof. intros H. apply (parses_bind pb_readbyte k [b] bs b a), H. apply pb_readbyte_parses. Qed.

Lemma parses_read1 {A} (k : list byte -> M (pb_istream CB) A) b bs a :
  P (k [b]) bs a -> P (bind (pb_read true 1) k) (b :: bs) a.
Proof.
  intros H. apply (parses_bind (pb_read true 1) k [b] bs [b] a), H.
  apply pb_read_parses; reflexivity.
Qed.

Lemma parses_map {A B} (d : M (pb_istream CB) A) (k : A -> M (pb_istream CB) B) bs a b :
  P d bs a -> P (k a) [] b -> P (bind d k) bs b.
Proof. intros H1 H2. rewrite <- (app_nil_r bs). eapply parses_bind; eassumption. Qed.

(** The two kinds of bytes of a varint. *)
Lemma last_byte v : 0 <= v < 128 ->
  negb (Z.land (u8 (b8 v)) 0x80 =? 0) = false /\ Z.land (u8 (b8 v)) 0x7F = v.
Proof.
  intros H. rewrite land_128, u8_b8_small, land_127, Z.mod_small by lia.
  split; [apply Z.leb_gt; lia | reflexivity].
Qed.

Lemma more_byte v : 
  negb (Z.land (u8 (b8 (v mod 128 + 128))) 0x80 =? 0) = true
  /\ Z.land (u8 (b8 (v mod 128 + 128))) 0x7F = v mod 128.
Proof.
  pose proof (Z.mod_pos_bound v 128 ltac:(lia)).
  rewrite land_128, u8_b8_small, land_127 by lia. split; [apply Z.leb_le; lia|].
  replace (v mod 128 + 128) with (v mod 128 + 1 * 128) by lia.
  rewrite Z.mod_add, Z.mod_mod; lia.
Qed.

Lemma acc_step w r v k :
  0 <= k -> 0 <= r < 2 ^ k -> 0 <= v < 2 ^ (w - k) -> k <= w ->
  Z.lor r (wrap w (Z.shiftl v k)) = r + v * 2 ^ k.
Proof.
  intros Hk Hr Hv Hw. rewrite wrap_small.
  - rewrite Z.lor_comm, lor_shiftl_add by lia. lia.
  - unfold in_word. rewrite Z.shiftl_mul_pow2 by lia.
    replace w with ((w - k) + k) by lia. rewrite Z.pow_add_r by lia.
    pose proof (Z.pow_pos_nonneg 2 k). nia.
Qed.

Lemma acc_bound r x k : 0 <= k -> 0 <= r < 2 ^ k -> 0 <= x < 128 -> 0 <= r + x * 2 ^ k < 2 ^ (k + 7).
Proof. intros Hk Hr Hx. rewrite Z.pow_add_r by lia. change (2 ^ 7) with 128. nia. Qed.

Lemma acc_split r v k : 0 <= k ->
  (r + (v mod 128) * 2 ^ k) + (v / 128) * 2 ^ (k + 7) = r + v * 2 ^ k.
Proof.
  intros Hk. rewrite Z.pow_add_r by lia. change (2 ^ 7) with 128.
  rewrite (Z.div_mod v 128) at 3 by lia. ring.
Qed.

Lemma div_128_bound v k w : 0 <= v < 2 ^ (w - k) -> 128 <= v ->
  k + 7 < w /\ 0 <= v / 128 < 2 ^ (w - (k + 7)).
Proof.
  intros Hv Hb. assert (7 < w - k).
  { destruct (Z_lt_dec 7 (w - k)); [assumption|exfalso].
    assert (2 ^ (w - k) <= 2 ^ 7) by (apply Z.pow_le_mono_r; lia). lia. }
  split; [lia|]. split; [apply Z.div_pos; lia|]. apply Z.div_lt_upper_bound; [lia|].
  change 128 with (2 ^ 7). rewrite <- Z.pow_add_r by lia. replace (7 + (w - (k + 7))) with (w - k) by lia. lia.
Qed.

Lemma varint_loop_parses n fuel v r (k : Z) :
  fits_leb n v -> (n <= fuel)%nat -> 0 <= k <= 63 -> 0 <= r < 2 ^ k -> 0 <= v < 2 ^ (64 - k) ->
  (0 < n)%nat -> P (varint_loop fuel k r) (leb128 n v) (r + v * 2 ^ k).
Proof.
  revert fuel v r k. induction n as [|n IH]; intros fuel v r k Hf Hn Hk Hr Hv Hpos; [lia|].
  destruct fuel as [|fuel]; [lia|]. cbn [leb128 varint_loop].
  destruct (Z.leb_spec 64 k); [lia|].
  destruct (Z.ltb_spec v 128).
  - apply parses_byte. destruct (last_byte v ltac:(lia)) as [-> ->].
    rewrite acc_step by lia. apply parses_ret.
  - destruct (div_128_bound v k 64 Hv ltac:(lia)) as [Hk' Hv'].
    pose proof (Z.mod_pos_bound v 128 ltac:(lia)) as Hm.
    assert (0 <= v mod 128 < 2 ^ (64 - k)).
    { split; [lia|]. apply Z.le_lt_trans with v; [apply Z.mod_le; lia|lia]. }
    apply parses_byte. destruct (more_byte v) as [-> ->].
    rewrite acc_step, Z.mod_small by lia. rewrite <- (acc_split r v k) by lia.
    destruct n as [|n]; [unfold fits_leb in Hf; change (2 ^ (7 * Z.of_nat 1)) with 128 in Hf; lia|].
    apply IH; try lia; [apply fits_leb_div, Hf | apply acc_bound; lia].
Qed.

#[export] Instance pb_decode_varint_parses v : in_word 64 v -> P pb_decode_varint (varint v) v.
Proof.
  intros Hv. unfold pb_decode_varint. replace v with (0 + v * 2 ^ 0) at 2 by lia.
  unfold in_word in Hv.
  apply varint_loop_parses; unfold fits_leb; cbn; lia.
Qed.
End parses.

Section parses32.
Context {CB : Type} {ICB : InputCallback CB}.
Notation P := (Parses (CB := CB)).

Lemma pb_decode_varint32_first b bs res :
  (if Z.land (u8 b) 0x80 =? 0 then bs = [] /\ res = u8 b
   else forall fuel, (length bs <= fuel)%nat -> P (varint32_loop fuel 7 (Z.land (u8 b) 0x7F)) bs res) ->
  P pb_decode_varint32 (b :: bs) res.
Proof.
  intros H rest left err Hl. rewrite zlen_cons in *. pose proof (zlen_nonneg bs).
  unfold pb_decode_varint32, pb_decode_varint32_eof.
  change ((b :: bs) ++ rest) with ([b] ++ (bs ++ rest)).
  rewrite pb_readbyte_parses by (rewrite zlen_cons, zlen_nil; lia).
  change (zlen [b]) with 1. destruct (_ =? 0); cbn [fst i_bytes_left].
  - destruct H as [-> ->]. rewrite zlen_nil. reflexivity.
  - rewrite H; [do 2 f_equal; lia | unfold zlen in *; lia | lia].
Qed.

Lemma varint32_more fuel k r v bs res :
  0 <= k <= 28 -> 0 <= r < 2 ^ k ->
  P (varint32_loop fuel (k + 7) (r + (v mod 2 ^ (Z.min 7 (32 - k))) * 2 ^ k)) bs res ->
  P (varint32_loop (S fuel) k r) (b8 (v mod 128 + 128) :: bs) res.
Proof.
  intros Hk Hr H. cbn [varint32_loop]. apply parses_byte.
  destruct (more_byte v) as [-> ->]. destruct (Z.leb_spec 32 k); [lia|].
  rewrite (Z.mod_small (k + 7)) by lia. cbv beta.
  intros rest left err Hl. rewrite bind_ret.
  replace (Z.lor r _) with (r + (v mod 2 ^ (Z.min 7 (32 - k))) * 2 ^ k); [apply H, Hl|].
  destruct (Z_le_dec k 25).
  - rewrite Z.min_l by lia. change (2 ^ 7) with 128. symmetry. apply acc_step; try lia.
    pose proof (Z.mod_pos_bound v 128 ltac:(lia)).
    assert (2 ^ 7 <= 2 ^ (32 - k)) by (apply Z.pow_le_mono_r; lia). lia.
  - rewrite Z.min_r by lia. remember (32 - k) as j eqn:Ej.
    pose proof (Z.mod_pos_bound v (2 ^ j) (Z.pow_pos_nonneg 2 j ltac:(lia) ltac:(lia))).
    replace (u32 (Z.shiftl (v mod 128) k)) with (u32 (Z.shiftl (v mod 2 ^ j) k)).
    { symmetry; apply acc_step; rewrite <- ?Ej; lia. }
    unfold wrap. rewrite !Z.shiftl_mul_pow2 by lia.
    replace 32 with (j + k) by lia. rewrite Z.pow_add_r by lia.
    rewrite !Z.mul_mod_distr_r by (apply Z.pow_nonzero; lia). f_equal.
    rewrite Z.mod_mod by (apply Z.pow_nonzero; lia).
    replace 128 with (2 ^ j * 2 ^ (7 - j)) by (rewrite <- Z.pow_add_r by lia; replace (j + (7 - j)) with 7 by lia; reflexivity).
    rewrite Z.rem_mul_r by (try apply Z.pow_pos_nonneg; try apply Z.pow_nonzero; lia).
    rewrite Z.mul_comm, Z.mod_add, Z.mod_mod by (apply Z.pow_nonzero; lia). reflexivity.
Qed.

Lemma land_70_small z : 0 <= z < 16 -> Z.land z 0x70 = 0.
Proof.
  intros Hz. rewrite <- (Z2Nat.id z) by lia.
  assert (Z.to_nat z < 16)%nat as Hn by lia. revert Hn. generalize (Z.to_nat z). intros n Hn.
  do 16 (destruct n as [|n]; [reflexivity|]). lia.
Qed.

Lemma varint32_last fuel k r v :
  7 <= k <= 28 -> 0 <= r < 2 ^ k -> 0 <= v < 128 -> v < 2 ^ (32 - k) ->
  P (varint32_loop (S fuel) k r) [b8 v] (r + v * 2 ^ k).
Proof.
  intros Hk Hr Hv Hb. cbn [varint32_loop]. apply parses_byte.
  destruct (last_byte v Hv) as [-> ->]. destruct (Z.leb_spec 32 k); [lia|].
  rewrite (Z.mod_small (k + 7)) by lia. cbv beta. rewrite acc_step by lia.
  intros rest left err Hl. rewrite bind_ret.
  assert ((k + 7 =? 35) && negb (Z.land (u8 (b8 v)) 0x70 =? 0) = false) as ->;
    [|apply parses_ret, Hl].
  destruct (Z.eqb_spec (k + 7) 35) as [E|]; [|reflexivity]. cbn [andb].
  replace k with 28 in Hb by lia. change (2 ^ (32 - 28)) with 16 in Hb.
  rewrite u8_b8_small by lia.
  rewrite land_70_small by lia. reflexivity.
Qed.

Lemma varint32_loop_parses n fuel v r j k :
  fits_leb n v -> (n <= fuel)%nat -> (0 < n)%nat -> k = 7 * j -> 1 <= j <= 4 -> 0 <= r < 2 ^ k ->
  0 <= v < 2 ^ (32 - k) -> P (varint32_loop fuel k r) (leb128 n v) (r + v * 2 ^ k).
Proof.
  revert fuel v r j k. induction n as [|n IH]; intros fuel v r j k Hf Hn Hpos -> Hj Hr Hv; [lia|].
  destruct fuel as [|fuel]; [lia|]. cbn [leb128].
  destruct (Z.ltb_spec v 128); [apply varint32_last; lia|].
  destruct (div_128_bound v (7 * j) 32 Hv ltac:(lia)) as [Hk' Hv'].
  destruct n as [|n]; [unfold fits_leb in Hf; change (2 ^ (7 * Z.of_nat 1)) with 128 in Hf; lia|].
  apply varint32_more; [lia..|]. rewrite Z.min_l by lia. change (2 ^ 7) with 128.
  rewrite <- (acc_split r v (7 * j)) by lia. pose proof (Z.mod_pos_bound v 128 ltac:(lia)).
  apply IH with (j := j + 1); try lia; [apply fits_leb_div, Hf | apply acc_bound; lia].
Qed.

(** Values of 32 bits. *)
Lemma varint32_unsigned v : in_word 32 v -> P pb_decode_varint32 (varint v) v.
Proof.
  intros Hv. unfold in_word in Hv. cbn [leb128].
  destruct (Z.ltb_spec v 128).
  - apply pb_decode_varint32_first. pose proof (last_byte v ltac:(lia)) as [H1 _].
    apply negb_false_iff in H1. rewrite H1, u8_b8_small by lia. auto.
  - apply pb_decode_varint32_first. destruct (more_byte v) as [H1 ->].
    apply negb_true_iff in H1. rewrite H1. intros fuel Hfuel.
    assert (E : v mod 128 + v / 128 * 2 ^ 7 = v)
      by (pose proof (Z.div_mod v 128); change (2 ^ 7) with 128; lia).
    enough (Hp : P (varint32_loop fuel 7 (v mod 128)) (leb128 9 (v / 128)) (v mod 128 + v / 128 * 2 ^ 7))
      by (rewrite E in Hp; exact Hp).
    assert (length (leb128 9 (v / 128)) <= 9)%nat
      by (pose proof (zlen_leb128 9 (v / 128)); unfold zlen in *; lia).
    pose proof (Z.mod_pos_bound v 128 ltac:(lia)).
    assert (0 <= v / 128 < 2 ^ 25)
      by (split; [apply Z.div_pos; lia | apply Z.div_lt_upper_bound; lia]).
    assert (Hn : exists n, (0 < n)%nat /\ (n <= fuel)%nat /\ fits_leb n (v / 128)
                /\ leb128 9 (v / 128) = leb128 n (v / 128)).
    { apply leb128_shrink; [unfold fits_leb; cbn; lia | lia | exact Hfuel]. }
    destruct Hn as (n & Hn1 & Hn2 & Hn3 & ->).
    apply varint32_loop_parses with (j := 1); try lia; assumption.
Qed.

(** The sign-extension bytes a negative 32-bit value has as an [int64_t]. *)
Lemma varint32_sign_byte fuel k r bs res :
  32 <= k < 63 -> (Z.shiftr r 31 =? 0) = false ->
  P (varint32_loop fuel (k + 7) r) bs res -> P (varint32_loop (S fuel) k r) (Byte.xff :: bs) res.
Proof.
  intros Hk Hr H. cbn [varint32_loop]. apply parses_byte.
  change (u8 Byte.xff) with 255. cbv beta zeta. rewrite Hr, (Z.mod_small (k + 7)) by lia.
  destruct (Z.leb_spec 32 k); [|lia]. destruct (Z.ltb_spec k 63); [exact H|lia].
Qed.

Lemma varint32_sign_last fuel r :
  (Z.shiftr r 31 =? 0) = false -> P (varint32_loop (S fuel) 63 r) [Byte.x01] r.
Proof.
  intros Hr. cbn [varint32_loop]. apply parses_byte.
  change (u8 Byte.x01) with 1. cbv beta zeta. rewrite Hr. exact (parses_ret r).
Qed.

Lemma varint32_sign_bytes fuel r :
  (5 <= fuel)%nat -> (Z.shiftr r 31 =? 0) = false ->
  P (varint32_loop fuel 35 r) [Byte.xff; Byte.xff; Byte.xff; Byte.xff; Byte.x01] r.
Proof.
  intros Hf Hr. do 5 (destruct fuel as [|fuel]; [lia|]).
  do 4 (apply varint32_sign_byte; [lia | exact Hr |]).
  apply varint32_sign_last, Hr.
Qed.

Lemma negative_leb x : - 2 ^ 31 <= x < 0 ->
  exists m0 m1 m2 m3 a4,
    varint (u64 x) = b8 (m0 mod 128 + 128) :: b8 (m1 mod 128 + 128) :: b8 (m2 mod 128 + 128)
      :: b8 (m3 mod 128 + 128) :: b8 (a4 mod 128 + 128)
      :: [Byte.xff; Byte.xff; Byte.xff; Byte.xff; Byte.x01] /\
    u32 x = m0 mod 128 + (m1 mod 128) * 2 ^ 7 + (m2 mod 128) * 2 ^ 14 + (m3 mod 128) * 2 ^ 21
            + (a4 mod 2 ^ 4) * 2 ^ 28.
Proof.
  intros Hx. assert (E0 : u64 x = 2 ^ 64 + x).
  { unfold wrap. replace x with (2 ^ 64 + x + (-1) * 2 ^ 64) at 1 by lia.
    rewrite Z.mod_add, Z.mod_small by lia. lia. }
  set (v := u64 x) in *.
  set (a1 := v / 128). set (a2 := a1 / 128). set (a3 := a2 / 128). set (a4 := a3 / 128).
  pose proof (Z.div_mod v 128 ltac:(lia)) as D0. pose proof (Z.mod_pos_bound v 128 ltac:(lia)) as B0.
  pose proof (Z.div_mod a1 128 ltac:(lia)) as D1. pose proof (Z.mod_pos_bound a1 128 ltac:(lia)) as B1.
  pose proof (Z.div_mod a2 128 ltac:(lia)) as D2. pose proof (Z.mod_pos_bound a2 128 ltac:(lia)) as B2.
  pose proof (Z.div_mod a3 128 ltac:(lia)) as D3. pose proof (Z.mod_pos_bound a3 128 ltac:(lia)) as B3.
  pose proof (Z.div_mod a4 128 ltac:(lia)) as D4. pose proof (Z.mod_pos_bound a4 128 ltac:(lia)) as B4.
  pose proof (Z.div_mod a4 (2 ^ 4) ltac:(lia)) as D5. pose proof (Z.mod_pos_bound a4 (2 ^ 4) ltac:(lia)) as B5.
  fold a1 in D0. fold a2 in D1. fold a3 in D2. fold a4 in D3.
  exists v, a1, a2, a3, a4. split.
  - rewrite (leb128_more 9 v), (leb128_more 8 (v / 128)) by (fold a1; lia). fold a1.
    rewrite (leb128_more 7 (a1 / 128)) by (fold a2; lia). fold a2.
    rewrite (leb128_more 6 (a2 / 128)) by (fold a3; lia). fold a3.
    rewrite (leb128_more 5 (a3 / 128)) by (fold a4; lia). fold a4.
    replace (a4 / 128) with (2 ^ 29 - 1) by lia. reflexivity.
  - unfold wrap. symmetry. apply Z.mod_unique with (q := a4 / 2 ^ 4 - 2 ^ 32); [left|]; lia.
Qed.

Lemma varint32_negative x : - 2 ^ 31 <= x < 0 -> P pb_decode_varint32 (varint (u64 x)) (u32 x).
Proof.
  intros Hx. destruct (negative_leb x Hx) as (m0 & m1 & m2 & m3 & a4 & -> & E).
  apply pb_decode_varint32_first. destruct (more_byte m0) as [H1 ->].
  apply negb_true_iff in H1. rewrite H1. intros fuel Hf. cbn [length] in Hf.
  pose proof (Z.mod_pos_bound m0 128 ltac:(lia)). pose proof (Z.mod_pos_bound m1 128 ltac:(lia)).
  pose proof (Z.mod_pos_bound m2 128 ltac:(lia)). pose proof (Z.mod_pos_bound m3 128 ltac:(lia)).
  pose proof (Z.mod_pos_bound a4 (2 ^ 4) ltac:(lia)).
  assert (Hhi : (Z.shiftr (u32 x) 31 =? 0) = false).
  { assert (E0 : u32 x = 2 ^ 32 + x).
    { unfold wrap. symmetry. apply Z.mod_unique with (q := -1); [left|]; lia. }
    apply Z.eqb_neq. rewrite E0, shiftr_div by lia.
    pose proof (Z.div_str_pos (2 ^ 32 + x) (2 ^ 31)). lia. }
  do 4 (destruct fuel as [|fuel]; [lia|]).
  do 4 (apply varint32_more; [lia | lia |
    try change (7 + 7) with 14; try change (14 + 7) with 21; try change (21 + 7) with 28;
    try change (28 + 7) with 35; try change (2 ^ Z.min 7 (32 - 7)) with 128; try change (2 ^ Z.min 7 (32 - 14)) with 128;
    try change (2 ^ Z.min 7 (32 - 21)) with 128; try change (2 ^ Z.min 7 (32 - 28)) with (2 ^ 4)]).
  rewrite <- E. apply varint32_sign_bytes; [lia | exact Hhi].
Qed.
End parses32.

(** ** Fixed-width integers, tags and length-delimited data *)

Lemma le_split_4 v : le_split 4 v =
  [b8 v; b8 (Z.shiftr v 8); b8 (Z.shiftr v 16); b8 (Z.shiftr v 24)].
Proof. unfold le_split. rewrite !Z.shiftr_shiftr by lia. reflexivity. Qed.

Lemma le_split_8 v : le_split 8 v =
  [b8 v; b8 (Z.shiftr v 8); b8 (Z.shiftr v 16); b8 (Z.shiftr v 24);
   b8 (Z.shiftr v 32); b8 (Z.shiftr v 40); b8 (Z.shiftr v 48); b8 (Z.shiftr v 56)].
Proof. unfold le_split. rewrite !Z.shiftr_shiftr by lia. reflexivity. Qed.

Lemma or_bytes_le bytes n : (n <= length bytes)%nat -> or_bytes bytes n = le_combine (take n bytes).
Proof.
  intros Hn. unfold or_bytes. induction n as [|n IH]; [reflexivity|].
  rewrite seq_S, foldl_app, IH by lia. cbn [foldl Nat.add].
  destruct (lookup_lt_is_Some_2 bytes n) as [b Hb]; [lia|].
  rewrite (take_S_r bytes n b Hb), le_combine_app, le_combine_1, length_take, Nat.min_l by lia.
  unfold znth. rewrite Nat2Z.id, (nth_lookup_Some _ _ _ b Hb). do 2 f_equal. lia.
Qed.

Section codec.
Context {CBO : Type} {OCB : OutputCallback CBO} {CB : Type} {ICB : InputCallback CB}.
Notation P := (Parses (CB := CB)).
Notation Em := (Emits (CB := CBO)).

#[export] Instance pb_encode_fixed32_emits v : Em (pb_encode_fixed32 v) (le_split 4 v).
Proof. unfold pb_encode_fixed32. rewrite !b8_land_255, le_split_4. apply (pb_write_all_emits [_; _; _; _]). Qed.

#[export] Instance pb_encode_fixed64_emits v : Em (pb_encode_fixed64 v) (le_split 8 v).
Proof.
  unfold pb_encode_fixed64. rewrite !b8_land_255, le_split_8.
  apply (pb_write_all_emits [_; _; _; _; _; _; _; _]).
Qed.

Lemma pb_decode_fixed32_parses bs : length bs = 4%nat -> P pb_decode_fixed32 bs (le_combine bs).
Proof.
  intros H. eapply parses_map; [apply pb_read_parses; unfold zlen; lia|]. cbv beta.
  rewrite or_bytes_le, <- H, firstn_all by lia. apply parses_ret.
Qed.

Lemma pb_decode_fixed64_parses bs : length bs = 8%nat -> P pb_decode_fixed64 bs (le_combine bs).
Proof.
  intros H. eapply parses_map; [apply pb_read_parses; unfold zlen; lia|]. cbv beta.
  rewrite or_bytes_le, <- H, firstn_all by lia. apply parses_ret.
Qed.

(** Zigzag: non-negative values take the even codes, negative ones the odd. *)
Definition zigzag_value (v : Z) : Z := if v <? 0 then -2 * v - 1 else 2 * v.

Lemma zigzag_spec v : - 2 ^ 63 <= v < 2 ^ 63 ->
  zigzag v = zigzag_value v /\ in_word 64 (zigzag v).
Proof.
  intros Hv. unfold zigzag, zigzag_value, wrap, in_word. rewrite Z.shiftl_mul_pow2 by lia.
  change (2 ^ 1) with 2. destruct (Z.ltb_spec v 0).
  - replace (v mod 2 ^ 64) with (v + 2 ^ 64) by (apply Z.mod_unique with (q := -1); lia).
    replace (((v + 2 ^ 64) * 2) mod 2 ^ 64) with (2 * v + 2 ^ 64)
      by (apply Z.mod_unique with (q := 1); lia).
    unfold Z.lnot.
    replace (Z.pred (- (2 * v + 2 ^ 64)) mod 2 ^ 64) with (-2 * v - 1)
      by (apply Z.mod_unique with (q := -1); lia). lia.
  - rewrite (Z.mod_small v) by lia. rewrite Z.mod_small by lia. lia.
Qed.

#[export] Instance pb_encode_svarint_emits v :
  - 2 ^ 63 <= v < 2 ^ 63 -> Em (pb_encode_svarint v) (varint (zigzag_value v)).
Proof. intros Hv. destruct (zigzag_spec v Hv) as [<- Hw]. apply pb_encode_varint_emits, Hw. Qed.

#[export] Instance pb_decode_svarint_parses v :
  - 2 ^ 63 <= v < 2 ^ 63 -> P pb_decode_svarint (varint (zigzag_value v)) v.
Proof.
  intros Hv. destruct (zigzag_spec v Hv) as [<- Hw]. destruct (zigzag_spec v Hv) as [E _]. unfold zigzag_value in E.
  eapply parses_map; [apply pb_decode_varint_parses, Hw|]. cbv beta.
  replace (if _ : bool then _ else _) with v; [apply parses_ret|].
  change 1 with (2 ^ 1 - 1) at 1. rewrite land_ones_mod, !shiftr_div by lia. change (2 ^ 1) with 2.
  rewrite E. destruct (Z.ltb_spec v 0).
  - replace ((-2 * v - 1) mod 2) with 1 by (apply Z.mod_unique with (q := - v - 1); lia).
    replace ((-2 * v - 1) / 2) with (- v - 1) by (apply Z.div_unique with (r := 1); lia).
    cbn [Z.eqb negb]. rewrite sext_wrap by lia. unfold Z.lnot. rewrite sext_small by lia. lia.
  - rewrite (Z.mul_comm 2 v), Z.mod_mul, Z.div_mul by lia.
    cbn [Z.eqb negb]. rewrite sext_small by lia. reflexivity.
Qed.
End codec.

Section delimited.
Context {CBO : Type} {OCB : OutputCallback CBO} {CB : Type} {ICB : InputCallback CB}.
Notation P := (Parses (CB := CB)).
Notation Em := (Emits (CB := CBO)).

Definition tag_value (wiretype field_number : Z) : Z := 8 * field_number + wiretype.

#[export] Instance pb_encode_tag_emits wt f :
  in_word 32 f -> 0 <= wt < 8 -> Em (pb_encode_tag wt f) (varint (tag_value wt f)).
Proof.
  intros Hf Hw. unfold in_word in Hf. unfold pb_encode_tag, tag_value.
  rewrite wrap_small by (unfold in_word; rewrite Z.shiftl_mul_pow2 by lia; lia).
  rewrite lor_shiftl_add by lia. replace (f * 2 ^ 3 + wt) with (8 * f + wt) by lia.
  apply pb_encode_varint_emits. unfold in_word. lia.
Qed.

Lemma pb_decode_tag_parses wt f rest left err :
  0 < f < 2 ^ 29 -> 0 <= wt < 8 -> zlen (varint (tag_value wt f)) <= left < 2 ^ 64 ->
  pb_decode_tag (mk_istream (buf_source (varint (tag_value wt f) ++ rest)) left err)
  = (Ok (wt, f), mk_istream (CB := CB) (buf_source rest) (left - zlen (varint (tag_value wt f))) err, false).
Proof.
  intros Hf Hw Hl. unfold tag_value in *.
  pose proof (varint32_unsigned (CB := CB) (8 * f + wt) ltac:(unfold in_word; lia) rest left err Hl) as H.
  unfold pb_decode_varint32 in H. unfold pb_decode_tag.
  assert (Heof : snd (pb_decode_varint32_eof (mk_istream (CB := CB) (buf_source (varint (8 * f + wt) ++ rest)) left err)) = false).
  { unfold pb_decode_varint32_eof. pose proof (zlen_leb128 10 (8 * f + wt) ltac:(lia)).
    destruct (varint (8 * f + wt)) as [|b bs] eqn:Eb; [exfalso; eapply leb128_nonempty, Eb|].
    rewrite zlen_cons in *. pose proof (zlen_nonneg bs).
    change ((b :: bs) ++ rest) with ([b] ++ (bs ++ rest)).
    rewrite pb_readbyte_parses by (rewrite zlen_cons, zlen_nil; lia).
    destruct (_ =? 0); reflexivity. }
  destruct (pb_decode_varint32_eof _) as [[r st1] eof]. cbn in H, Heof. injection H as -> ->. subst eof.
  destruct (Z.eqb_spec (8 * f + wt) 0); [lia|].
  change 7 with (2 ^ 3 - 1). rewrite land_ones_mod, shiftr_div by lia. change (2 ^ 3) with 8.
  replace ((8 * f + wt) mod 8) with wt by (apply Z.mod_unique with (q := f); lia).
  replace ((8 * f + wt) / 8) with f by (apply Z.div_unique with (r := wt); lia).
  reflexivity.
Qed.

(** The length-delimited encoding of [bs]. *)
Definition delimited (bs : list byte) : list byte := varint (zlen bs) ++ bs.

#[export] Instance pb_encode_string_emits bs :
  zlen bs < 2 ^ 64 -> Em (pb_encode_string bs (zlen bs)) (delimited bs).
Proof.
  intros H. pose proof (zlen_nonneg bs).
  apply emits_bind; [apply pb_encode_varint_emits; unfold in_word; lia | apply pb_write_all_emits].
Qed.

Lemma skip_varint_parses n fuel v :
  fits_leb n v -> (0 < n)%nat -> (n <= fuel)%nat -> P (skip_varint_loop fuel) (leb128 n v) tt.
Proof.
  revert fuel v; induction n as [|n IH]; intros fuel v Hf Hn Hfuel; [lia|].
  destruct fuel as [|fuel]; [lia|]. cbn [leb128 skip_varint_loop].
  destruct (Z.ltb_spec v 128); apply parses_read1; change (znth [?b] 0) with b.
  - unfold fits_leb in Hf. cbn [znth nth Z.to_nat]. destruct (last_byte v ltac:(lia)) as [-> _].
    apply parses_ret.
  - cbn [znth nth Z.to_nat]. destruct (more_byte v) as [-> _].
    destruct n as [|n]; [unfold fits_leb in Hf; change (2 ^ (7 * Z.of_nat 1)) with 128 in Hf; lia|].
    apply IH; [apply fits_leb_div, Hf | lia | lia].
Qed.

Lemma pb_skip_varint_parses v : in_word 64 v -> P pb_skip_varint (varint v) tt.
Proof.
  intros Hv rest left err Hl. unfold pb_skip_varint. rewrite bind_get. cbn [i_bytes_left].
  destruct (leb128_shrink 10 v (S (Z.to_nat left))) as (k & H1 & H2 & H3 & E).
  - unfold fits_leb, in_word in *. cbn; lia.
  - lia.
  - unfold zlen in *. lia.
  - rewrite E in *. apply (skip_varint_parses k (S (Z.to_nat left)) v H3 H1 H2); assumption.
Qed.

Lemma pb_skip_string_parses bs : zlen bs < 2 ^ 32 -> P pb_skip_string (delimited bs) tt.
Proof.
  intros H. pose proof (zlen_nonneg bs). eapply parses_bind.
  - apply varint32_unsigned. unfold in_word; lia.
  - cbv beta. eapply parses_map; [apply pb_read_null_parses; reflexivity | apply parses_ret].
Qed.

(** What the encoders emit for a field of each wire type. *)
Inductive field_payload : Z -> list byte -> Prop :=
  | payload_varint v : in_word 64 v -> field_payload PB_WT_VARINT (varint v)
  | payload_64bit bs : zlen bs = 8 -> field_payload PB_WT_64BIT bs
  | payload_string bs : zlen bs < 2 ^ 32 -> field_payload PB_WT_STRING (delimited bs)
  | payload_32bit bs : zlen bs = 4 -> field_payload PB_WT_32BIT bs.

Lemma pb_skip_field_payload wt bs : field_payload wt bs -> P (pb_skip_field wt) bs tt.
Proof.
  intros [v Hv | bs' H | bs' H | bs' H].
  - apply pb_skip_varint_parses, Hv.
  - change (pb_skip_field PB_WT_64BIT) with (pb_read (CB := CB) false 8 ;; ret tt). eapply parses_map; [apply pb_read_null_parses; symmetry; exact H | apply parses_ret].
  - apply pb_skip_string_parses, H.
  - change (pb_skip_field PB_WT_32BIT) with (pb_read (CB := CB) false 4 ;; ret tt). eapply parses_map; [apply pb_read_null_parses; symmetry; exact H | apply parses_ret].
Qed.

(** Reading a length prefix opens a substream of exactly that many bytes. *)
Lemma pb_make_string_substream_parses bs rest left err :
  zlen bs < 2 ^ 32 -> zlen (delimited bs) <= left < 2 ^ 64 ->
  pb_make_string_substream (mk_istream (CB := CB) (buf_source (delimited bs ++ rest)) left err)
  = (Ok (mk_istream (buf_source (bs ++ rest)) (zlen bs) err),
     mk_istream (buf_source (bs ++ rest)) (left - zlen (delimited bs)) err).
Proof.
  intros H Hl. unfold delimited in *. rewrite zlen_app in *.
  pose proof (zlen_nonneg bs). pose proof (zlen_leb128 10 (zlen bs) ltac:(lia)).
  unfold pb_make_string_substream. rewrite <- app_assoc.
  erewrite bind_Ok by (apply varint32_unsigned; [unfold in_word; lia | lia]).
  rewrite bind_get. cbn [i_bytes_left i_source i_errmsg].
  destruct (Z.ltb_spec (left - zlen (varint (zlen bs))) (zlen bs)); [lia|].
  cbn. do 2 f_equal. lia.
Qed.

(** Closing a substream skips what its reader left. *)
Lemma pb_close_string_substream_spec unread rest mem left err err' :
  zlen unread < 2 ^ 64 ->
  pb_close_string_substream (mk_istream (CB := CB) (buf_source (unread ++ rest)) (zlen unread) err')
    (mk_istream (buf_source mem) left err)
  = (Ok tt, mk_istream (buf_source rest) left err').
Proof.
  intros H. unfold pb_close_string_substream, bind, local. cbn [i_bytes_left].
  destruct (Z.eqb_spec (zlen unread) 0) as [E|].
  - destruct unread; [reflexivity | rewrite zlen_cons in E; pose proof (zlen_nonneg unread); lia].
  - rewrite pb_read_null_parses by (reflexivity || lia). reflexivity.
Qed.

(** A submessage is its delimited body, whatever the body encoder is, as
    long as it emits the same bytes each time. *)
#[export] Instance pb_encode_submessage_emits e bs :
  Em e bs -> zlen bs < 2 ^ 64 -> Em (pb_encode_submessage e) (delimited bs).
Proof.
  intros He Hlen st Hfit. pose proof (zlen_nonneg bs). unfold delimited in *.
  unfold pb_encode_submessage. rewrite bind_get.
  rewrite (He PB_OSTREAM_SIZING) by (unfold fits; cbn; intuition lia).
  cbn [o_bytes_written emit PB_OSTREAM_SIZING]. change (0 + zlen bs) with (zlen bs).
  apply fits_app in Hfit as [Hf1 Hf2].
  erewrite bind_Ok by (apply pb_encode_varint_emits; [unfold in_word; lia | exact Hf1]).
  rewrite bind_get. rewrite <- emit_emit.
  set (st1 := emit (varint (zlen bs)) st) in *. clearbody st1. clear Hf1.
  destruct Hf2 as [[Hw Herr] Hroom].
  unfold is_sizing. destruct (o_sink st1) as [|out room|s] eqn:Es; [| |contradiction].
  - rewrite (pb_write_unfold [] (zlen bs) st1). unfold is_sizing. rewrite Es, andb_false_r.
    unfold o_count, emit. rewrite Es, wrap_small by (unfold in_word; lia). reflexivity.
  - rewrite !(wrap_small 64) by (unfold in_word; lia).
    destruct (Z.ltb_spec (o_max_size st1) (o_bytes_written st1 + zlen bs)); [lia|].
    rewrite He by (unfold fits; cbn; intuition lia). unfold bind, put, emit. cbn.
    rewrite Z.eqb_refl, ?Es, ?Herr, wrap_small by (unfold in_word; lia). reflexivity.
Qed.
End delimited.
