(* ===== verification/PbSpec.v ===== *)
(** What the nanopb wire layer promises: round trips of every primitive and
    of the scalar fields, the exact behaviour of skipping and of submessages,
    memory safety of all readers and writers, the rejections, and the two
    places where [pb_decode_varint32] accepts what it means to reject. *)
From Stdlib Require Import ZArith Lia Bool String.
From coqutil Require Import Byte Word.LittleEndianList.
From stdpp Require Import base list numbers.
From S2P Require Import Prelude PbStream PbCommon PbCodec.
Local Open Scope Z_scope.
Local Open Scope c_scope.

(** Streams over memory only, for the concrete runs. *)
#[export] Instance no_input_callback : InputCallback Empty_set := {
  cb_read s := match s with end;
  cb_read_ok s := match s with end;
  cb_read_fail s := match s with end;
}.
#[export] Instance no_output_callback : OutputCallback Empty_set := {
  cb_write s := match s with end;
}.

(** ** Memory safety of the readers *)

Section input_safety.
Context {CB : Type} {ICB : InputCallback CB}.
Notation D := (M (pb_istream CB)).

(** [safe] at one state, for the loops whose fuel depends on it. *)
Definition safe_at {A} (m : D A) (st : pb_istream CB) : Prop :=
  fst (m st) <> Stuck /\ istream_ok (snd (m st)).

(** A successful byte read lowers [bytes_left]: the measure of the loops. *)
Lemma i_callback_left count st bs st1 :
  i_callback count st = (Ok bs, st1) -> i_bytes_left st1 = i_bytes_left st.
Proof.
  unfold i_callback. destruct (i_source st) as [mem|s].
  - destruct (buf_read mem count) as [[? ?]|]; intros [= <- <-]; reflexivity.
  - destruct (cb_read s _ count) as [[[b|] s'] left'] eqn:E; [|discriminate].
    intros [= <- <-]. apply cb_read_ok in E as [_ ->]. reflexivity.
Qed.

Lemma pb_readbyte_left st b st1 :
  istream_ok st -> pb_readbyte st = (Ok b, st1) -> i_bytes_left st1 = i_bytes_left st - 1.
Proof.
  intros [Hw _] H. unfold pb_readbyte in H. rewrite bind_get in H.
  destruct (Z.eqb_spec (i_bytes_left st) 0); [discriminate|].
  apply bind_inv in H as (bs & s1 & H1 & H). apply i_callback_left in H1.
  cbn in H. injection H as <- <-. cbn. unfold in_word in *.
  rewrite H1, wrap_small by (unfold in_word; lia). reflexivity.
Qed.

Lemma pb_read_some_left count st bs st1 :
  istream_ok st -> 0 <= count -> pb_read_some count st = (Ok bs, st1) ->
  i_bytes_left st1 = i_bytes_left st - count.
Proof.
  intros [Hw _] Hc H. unfold pb_read_some in H. rewrite bind_get in H.
  destruct (Z.ltb_spec (i_bytes_left st) count); [discriminate|].
  apply bind_inv in H as (bs' & s1 & H1 & H). apply i_callback_left in H1.
  cbn in H. injection H as <- <-. cbn. unfold in_word in *.
  rewrite H1, wrap_small by (unfold in_word; lia). reflexivity.
Qed.

Lemma safe_at_bind {A B} (m : D A) (k : A -> D B) st :
  safe_at m st ->
  (forall a st1, m st = (Ok a, st1) -> istream_ok st1 -> safe_at (k a) st1) ->
  safe_at (bind m k) st.
Proof.
  unfold safe_at, bind. intros [H1 H2] Hk.
  destruct (m st) as [[a| |] st1]; cbn in *; [apply (Hk a st1 eq_refl H2) | auto | auto].
Qed.

Lemma safe_safe_at {A} (m : D A) st : safe istream_ok m -> istream_ok st -> safe_at m st.
Proof. intros H; apply H. Qed.

Lemma varint32_loop_safe fuel bitpos result st :
  istream_ok st -> i_bytes_left st < Z.of_nat fuel ->
  safe_at (varint32_loop fuel bitpos result) st.
Proof.
  revert bitpos result st; induction fuel as [|fuel IH]; intros bitpos result st Hst Hf.
  { destruct Hst as [[? ?] _]. lia. }
  cbn [varint32_loop]. apply safe_at_bind; [apply pb_readbyte_safe, Hst|].
  intros b st1 Hb Hst1. apply pb_readbyte_left in Hb; [|exact Hst].
  apply safe_at_bind.
  { apply safe_safe_at; [|exact Hst1]. safe_ifs; auto with safe. }
  intros r st2 Hr Hst2. assert (st2 = st1) as ->.
  { revert Hr. destruct (32 <=? bitpos); [destruct (_ && _)|]; intros [= <- <-]; reflexivity. }
  destruct (negb (Z.land (u8 b) 0x80 =? 0)); [apply IH; [exact Hst1 | lia]|].
  apply safe_safe_at; [|exact Hst1]. apply safe_if; auto with safe.
Qed.

Lemma pb_decode_varint32_eof_safe st :
  istream_ok st ->
  let '(r, st1, _) := pb_decode_varint32_eof st in r <> Stuck /\ istream_ok st1.
Proof.
  intros Hst. unfold pb_decode_varint32_eof. pose proof (pb_readbyte_safe st Hst) as [H1 H2].
  destruct (pb_readbyte st) as [[b| |] st1] eqn:E; cbn in H1, H2; [|auto|auto].
  - destruct (Z.land (u8 b) 0x80 =? 0); [split; [discriminate | exact H2]|].
    pose proof (varint32_loop_safe (S (Z.to_nat (i_bytes_left st1))) 7 (Z.land (u8 b) 0x7F) st1 H2) as H.
    unfold safe_at in H. destruct (varint32_loop _ _ _ _). apply H. destruct H2 as [[? ?] _]. lia.
Qed.

Lemma pb_decode_varint32_safe : safe istream_ok (pb_decode_varint32 (CB := CB)).
Proof.
  intros st Hst. unfold pb_decode_varint32. pose proof (pb_decode_varint32_eof_safe st Hst) as H.
  destruct (pb_decode_varint32_eof st) as [[r st1] e]. exact H.
Qed.

Lemma varint_loop_safe fuel j result :
  0 <= j <= 10 -> 10 - j < Z.of_nat fuel -> safe istream_ok (varint_loop (CB := CB) fuel (7 * j) result).
Proof.
  revert j result; induction fuel as [|fuel IH]; intros j result Hj Hf; [lia|].
  cbn [varint_loop]. destruct (Z.leb_spec 64 (7 * j)); [apply safe_return_error|].
  apply safe_bind; [apply pb_readbyte_safe | intros b]. apply safe_if; [|apply safe_ret].
  rewrite Z.mod_small by lia. replace (7 * j + 7) with (7 * (j + 1)) by lia. apply IH; lia.
Qed.

Lemma pb_decode_varint_safe : safe istream_ok (pb_decode_varint (CB := CB)).
Proof. apply (varint_loop_safe 11 0 0); lia. Qed.

Lemma skip_varint_loop_safe fuel st :
  istream_ok st -> i_bytes_left st < Z.of_nat fuel -> safe_at (skip_varint_loop fuel) st.
Proof.
  revert st; induction fuel as [|fuel IH]; intros st Hst Hf.
  { destruct Hst as [[? ?] _]. lia. }
  cbn [skip_varint_loop]. apply safe_at_bind; [apply pb_read_safe; [lia | exact Hst]|].
  intros bs st1 Hb Hst1. assert (i_bytes_left st1 = i_bytes_left st - 1).
  { apply (pb_read_some_left 1 st bs); [exact Hst | lia|]. exact Hb. }
  destruct (negb _); [apply IH; [exact Hst1 | lia] | apply safe_safe_at; [apply safe_ret | exact Hst1]].
Qed.

Lemma pb_decode_varint32_range st v st1 :
  pb_decode_varint32 st = (Ok v, st1) -> in_word 32 v.
Proof.
  assert (L : forall fuel k r st v st1, in_word 32 r ->
            varint32_loop (CB := CB) fuel k r st = (Ok v, st1) -> in_word 32 v).
  { clear. induction fuel as [|fuel IH]; intros k r st v st1 Hr; [discriminate|].
    cbn [varint32_loop]. intros H. apply bind_inv in H as (b & s1 & _ & H).
    apply bind_inv in H as (r' & s2 & Hr' & H).
    assert (in_word 32 r').
    { clear H. revert Hr'. destruct (32 <=? k); [destruct (_ && _)|]; [discriminate | |]; intros [= <- <-]; [exact Hr|].
      apply lor_in_word; [lia | exact Hr | apply wrap_range; lia]. }
    clear Hr'. revert H. destruct (negb (Z.land (u8 b) 0x80 =? 0)).
    - apply IH. assumption.
    - destruct (_ && _); [discriminate|]. intros [= <- <-]; assumption. }
  unfold pb_decode_varint32, pb_decode_varint32_eof.
  destruct (pb_readbyte st) as [[b| |] s1]; [|discriminate..]. pose proof (u8_range b). unfold in_word.
  destruct (_ =? 0).
  - intros [= <- <-]. lia.
  - apply L. change 0x7F with (2 ^ 7 - 1). rewrite land_ones_mod by lia. pose proof (Z.mod_pos_bound (u8 b) (2 ^ 7)). unfold in_word. lia.
Qed.

(** A varint takes at least one byte. *)
Lemma pb_decode_varint32_left st v st1 :
  istream_ok st -> pb_decode_varint32 st = (Ok v, st1) -> i_bytes_left st1 < i_bytes_left st.
Proof.
  assert (L : forall fuel k r st v st1, istream_ok st ->
            varint32_loop (CB := CB) fuel k r st = (Ok v, st1) -> i_bytes_left st1 < i_bytes_left st).
  { clear. induction fuel as [|fuel IH]; intros k r st v st1 Hst; [discriminate|].
    cbn [varint32_loop]. intros H. apply bind_inv in H as (b & s1 & Hb & H).
    pose proof (pb_readbyte_safe st Hst) as [_ Hs1]. rewrite Hb in Hs1.
    apply pb_readbyte_left in Hb; [|exact Hst].
    apply bind_inv in H as (r' & s2 & Hr' & H). assert (s2 = s1) as ->.
    { clear H. revert Hr'. destruct (32 <=? k); [destruct (_ && _)|]; intros [= <- <-]; reflexivity. }
    clear Hr'. revert H. destruct (negb (Z.land (u8 b) 0x80 =? 0)).
    - intros H. apply IH in H; [lia | exact Hs1].
    - destruct (_ && _); [discriminate|]. intros [= <- <-]. lia. }
  intros Hst. unfold pb_decode_varint32, pb_decode_varint32_eof.
  pose proof (pb_readbyte_safe st Hst) as [_ Hs1].
  destruct (pb_readbyte st) as [[b| |] s1] eqn:Hb; [|discriminate..].
  apply pb_readbyte_left in Hb; [|exact Hst].
  destruct (_ =? 0); cbn [fst].
  - intros [= <- <-]. lia.
  - intros H. apply L in H; [lia | exact Hs1].
Qed.

Lemma pb_skip_string_safe : safe istream_ok (pb_skip_string (CB := CB)).
Proof.
  intros st Hst. apply safe_at_bind; [apply pb_decode_varint32_safe, Hst|].
  intros n st1 Hn Hst1. apply pb_decode_varint32_range in Hn.
  apply safe_safe_at; [|exact Hst1].
  apply safe_bind; [apply pb_read_safe, Hn | intros; apply safe_ret].
Qed.

Lemma raw_varint_loop_safe fuel size max_size :
  0 <= size <= max_size -> max_size - size < Z.of_nat fuel ->
  safe istream_ok (raw_varint_loop (CB := CB) fuel size max_size).
Proof.
  revert size; induction fuel as [|fuel IH]; intros size Hs Hf; cbn [raw_varint_loop]; [lia|].
  destruct (Z.ltb_spec max_size (size + 1)); [apply safe_fail|].
  apply safe_bind; [apply pb_read_safe; lia | intros bs]. apply safe_if; [|apply safe_ret].
  apply safe_bind; [apply IH; lia | intros; apply safe_ret].
Qed.

Lemma pb_skip_field_safe wire_type : safe istream_ok (pb_skip_field (CB := CB) wire_type).
Proof.
  unfold pb_skip_field. safe_ifs; auto using pb_skip_string_safe with safe.
  - intros st Hst. unfold pb_skip_varint. rewrite bind_get.
    apply skip_varint_loop_safe; [exact Hst|]. destruct Hst as [[? ?] _]. lia.
Qed.

Lemma read_raw_value_safe wire_type max_size :
  0 <= max_size -> safe istream_ok (read_raw_value (CB := CB) wire_type max_size).
Proof.
  intros H. unfold read_raw_value. safe_ifs; auto with safe.
  apply raw_varint_loop_safe; lia.
Qed.

Lemma pb_decode_svarint_safe : safe istream_ok (pb_decode_svarint (CB := CB)).
Proof. apply safe_bind; [apply pb_decode_varint_safe | intros; apply safe_ret]. Qed.

Lemma pb_decode_fixed_safe :
  safe istream_ok (pb_decode_fixed32 (CB := CB)) /\ safe istream_ok (pb_decode_fixed64 (CB := CB)).
Proof. split; unfold pb_decode_fixed32, pb_decode_fixed64; auto 6 with safe. Qed.

(** A substream stays inside its parent. *)
Lemma pb_make_string_substream_safe st :
  istream_ok st ->
  let '(r, st1) := pb_make_string_substream st in
  r <> Stuck /\ istream_ok st1 /\
  match r with
  | Ok sub => istream_ok sub /\ i_bytes_left sub + i_bytes_left st1 <= i_bytes_left st
              /\ i_source sub = i_source st1
  | _ => True
  end.
Proof.
  intros Hst. unfold pb_make_string_substream, bind.
  pose proof (pb_decode_varint32_safe st Hst) as [H1 H2].
  destruct (pb_decode_varint32 st) as [[size| |] st1] eqn:E; cbn in H1, H2;
    [|repeat split; try discriminate; apply H2 | contradiction].
  pose proof (pb_decode_varint32_range _ _ _ E) as Hs. unfold get.
  assert (Hle : i_bytes_left st1 < i_bytes_left st) by (eapply pb_decode_varint32_left; eassumption).
  destruct (Z.ltb_spec (i_bytes_left st1) size); [repeat split; try discriminate; apply H2|].
  destruct H2 as [Hw Hm]. unfold istream_ok, in_word in *. cbn.
  destruct (i_source st1); repeat split; try discriminate; lia.
Qed.
End input_safety.

(** ** Scalar fields: memory to wire to memory *)

Section fields.
Context {CBO : Type} {OCB : OutputCallback CBO} {CB : Type} {ICB : InputCallback CB}.
Notation P := (Parses (CB := CB)).
Notation Em := (Emits (CB := CBO)).
Notation DF := (M (list byte * pb_istream CB)).

(** [d] accepts exactly [bs] and stores [out] at the start of [dest]. *)
Definition Stores (d : DF unit) (bs out : list byte) : Prop :=
  forall dest rest left err, (length out <= length dest)%nat -> zlen bs <= left < 2 ^ 64 ->
    d (dest, mk_istream (buf_source (bs ++ rest)) left err)
    = (Ok tt, (out ++ drop (length out) dest, mk_istream (buf_source rest) (left - zlen bs) err)).

Lemma stores_on_stream {A} (d : M (pb_istream CB) A) (k : A -> DF unit) bs a out :
  P d bs a ->
  (forall dest st, (length out <= length dest)%nat ->
     k a (dest, st) = (Ok tt, (out ++ drop (length out) dest, st))) ->
  Stores (bind (on_stream d) k) bs out.
Proof.
  intros Hd Hk dest rest left err Hl Hw. unfold bind, on_stream.
  rewrite Hd by exact Hw. apply Hk, Hl.
Qed.

Lemma store_bytes_run bs dest (st : pb_istream CB) :
  (length bs <= length dest)%nat ->
  store bs (dest, st) = (Ok tt, (bs ++ drop (length bs) dest, st)).
Proof. intros H. unfold store. destruct (Nat.ltb_spec (length dest) (length bs)); [lia | reflexivity]. Qed.

(** The in-memory sizes of an integer field. *)
Inductive int_size : nat -> Prop := size1 : int_size 1 | size2 : int_size 2 | size4 : int_size 4 | size8 : int_size 8.

Lemma load_all n src : length src = n -> load n src = Some (le_combine src).
Proof.
  intros <-. unfold load. rewrite Nat.ltb_irrefl, firstn_all. reflexivity.
Qed.

Lemma le_split_sext src : le_split (length src) (sext (8 * zlen src) (le_combine src)) = src.
Proof.
  transitivity (le_split (length src) (le_combine src)); [|apply split_le_combine].
  apply le_split_eq. unfold zlen. rewrite wrap_sext by lia. reflexivity.
Qed.

Lemma le_combine_word n src : int_size n -> length src = n -> in_word 64 (le_combine src).
Proof.
  intros Hn Hl. pose proof (le_combine_bound src) as H. unfold in_word. rewrite Hl in H.
  destruct Hn; cbn in *; lia.
Qed.

(** What is common to the three integer decoders: the value that was read
    is stored and survives the clamping. *)
Ltac run_int_size Hn Hsize :=
  destruct Hn; rewrite Hsize; change (Z.of_nat 1) with 1 in *; change (Z.of_nat 2) with 2 in *;
  change (Z.of_nat 4) with 4 in *; change (Z.of_nat 8) with 8 in *; cbn [Z.eqb Pos.eqb].

Lemma uvarint_field field n src :
  int_size n -> length src = n -> data_size field = Z.of_nat n ->
  Em (pb_enc_uvarint field src) (varint (le_combine src))
  /\ Stores (pb_dec_uvarint field) (varint (le_combine src)) src.
Proof.
  intros Hn Hl Hsize. pose proof (le_combine_word n src Hn Hl) as Hw.
  pose proof (le_combine_bound src) as Hb. rewrite Hl in Hb. split.
  - unfold pb_enc_uvarint, with_load.
    assert (E : load n src = Some (le_combine src)) by (apply load_all, Hl).
    run_int_size Hn Hsize; rewrite E; apply pb_encode_varint_emits, Hw.
  - apply (stores_on_stream pb_decode_varint _ _ (le_combine src)).
    { apply pb_decode_varint_parses, Hw. }
    intros dest st Hd. cbv beta zeta.
    assert (Hs : le_split n (le_combine src) = src) by (rewrite <- Hl; apply split_le_combine).
    run_int_size Hn Hsize; unfold bind; rewrite Hs, store_bytes_run by exact Hd; cbn [ret];
      unfold ret; (rewrite wrap_small; [rewrite Z.eqb_refl; reflexivity | exact Hb]).
Qed.

Lemma varint_field field n src :
  int_size n -> length src = n -> data_size field = Z.of_nat n ->
  let bs := varint (u64 (sext (8 * Z.of_nat n) (le_combine src))) in
  Em (pb_enc_varint field src) bs /\ Stores (pb_dec_varint field) bs src.
Proof.
  intros Hn Hl Hsize bs. set (s := sext (8 * Z.of_nat n) (le_combine src)) in *.
  assert (Hs : le_split n s = src) by (subst s n; apply le_split_sext).
  pose proof (sext_range (8 * Z.of_nat n) (le_combine src) ltac:(destruct Hn; lia)) as Hr. fold s in Hr.
  assert (Hw : in_word 64 (u64 s)) by (apply wrap_range; lia).
  split.
  - unfold pb_enc_varint, with_load.
    assert (E : load n src = Some (le_combine src)) by (apply load_all, Hl).
    run_int_size Hn Hsize; rewrite E; apply (pb_encode_varint_emits _ Hw).
  - apply (stores_on_stream pb_decode_varint _ _ (u64 s)).
    { apply pb_decode_varint_parses, Hw. }
    intros dest st Hd. cbv beta zeta. cbn in Hr.
    run_int_size Hn Hsize; rewrite sext_wrap, (sext_small _ s) by (cbn in *; lia); unfold bind;
      rewrite Hs, store_bytes_run by exact Hd; unfold ret;
      (rewrite sext_small by (cbn in *; lia)); rewrite Z.eqb_refl; reflexivity.
Qed.

Lemma svarint_field field n src :
  int_size n -> length src = n -> data_size field = Z.of_nat n ->
  let bs := varint (zigzag_value (sext (8 * Z.of_nat n) (le_combine src))) in
  Em (pb_enc_svarint field src) bs /\ Stores (pb_dec_svarint field) bs src.
Proof.
  intros Hn Hl Hsize bs. set (s := sext (8 * Z.of_nat n) (le_combine src)) in *.
  assert (Hs : le_split n s = src) by (subst s n; apply le_split_sext).
  pose proof (sext_range (8 * Z.of_nat n) (le_combine src) ltac:(destruct Hn; lia)) as Hr. fold s in Hr.
  assert (Hw : - 2 ^ 63 <= s < 2 ^ 63) by (destruct Hn; cbn in *; lia).
  split.
  - unfold pb_enc_svarint, with_load.
    assert (E : load n src = Some (le_combine src)) by (apply load_all, Hl).
    run_int_size Hn Hsize; rewrite E; apply (pb_encode_svarint_emits _ Hw).
  - apply (stores_on_stream pb_decode_svarint _ _ s).
    { apply pb_decode_svarint_parses, Hw. }
    intros dest st Hd. cbv beta zeta.
    run_int_size Hn Hsize; unfold bind;
      rewrite Hs, store_bytes_run by exact Hd; unfold ret;
      (rewrite sext_small by (cbn in *; lia)); rewrite Z.eqb_refl; reflexivity.
Qed.

(** A bool, the fixed-width numbers and byte strings of a fixed length. *)
Lemma bool_stores field (b : bool) : Stores (pb_dec_bool field) (varint (if b then 1 else 0)) [b8 (if b then 1 else 0)].
Proof.
  apply (stores_on_stream pb_decode_varint32 _ _ (if b then 1 else 0)).
  { apply varint32_unsigned. destruct b; unfold in_word; lia. }
  intros dest st Hd. cbv beta. destruct b; apply store_bytes_run, Hd.
Qed.

Lemma fixed32_stores field src : length src = 4%nat -> Stores (pb_dec_fixed32 field) src src.
Proof.
  intros H4. apply (stores_on_stream pb_decode_fixed32 _ _ (le_combine src)).
  { apply pb_decode_fixed32_parses, H4. }
  intros dest st Hd. cbv beta.
  replace (le_split 4 (le_combine src)) with src; [apply store_bytes_run, Hd|].
  rewrite <- H4. symmetry; apply split_le_combine.
Qed.

Lemma fixed64_stores field src : length src = 8%nat -> Stores (pb_dec_fixed64 field) src src.
Proof.
  intros H8. apply (stores_on_stream pb_decode_fixed64 _ _ (le_combine src)).
  { apply pb_decode_fixed64_parses, H8. }
  intros dest st Hd. cbv beta.
  replace (le_split 8 (le_combine src)) with src; [apply store_bytes_run, Hd|].
  rewrite <- H8. symmetry; apply split_le_combine.
Qed.

Lemma fixed_length_stores field bytes : 0 < zlen bytes < 2 ^ 32 -> data_size field = zlen bytes ->
  Stores (pb_dec_fixed_length_bytes field) (delimited bytes) bytes.
Proof.
  intros Hb Hs dest rest left err Hl Hw. unfold delimited in *. rewrite zlen_app in *.
  pose proof (zlen_leb128 10 (zlen bytes) ltac:(lia)).
  unfold pb_dec_fixed_length_bytes, bind at 1, on_stream at 1. rewrite <- app_assoc.
  rewrite varint32_unsigned by (unfold in_word; lia).
  unfold PB_SIZE_MAX. destruct (Z.ltb_spec (2 ^ 32 - 1) (zlen bytes)); [lia|].
  destruct (Z.eqb_spec (zlen bytes) 0); [lia|].
  rewrite Hs, Z.eqb_refl. cbn [negb]. unfold bind, on_stream.
  rewrite (pb_read_parses bytes) by (reflexivity || lia).
  rewrite store_bytes_run by exact Hl. do 3 f_equal. lia.
Qed.
End fields.

(** ** Memory safety of the writers *)

Section output_safety.
Context {CB : Type} {OCB : OutputCallback CB}.
Notation E := (M (pb_ostream CB) unit).

(** The size of the memory behind the stream: what was written and the room
    left always add up to it. *)
Definition sink_memory (st : pb_ostream CB) : option Z :=
  match o_sink st with
  | buf_sink _ room => Some (room + o_bytes_written st)
  | _ => None
  end.

Definition ostream_inv (c : option Z) (st : pb_ostream CB) : Prop :=
  ostream_ok st /\ sink_memory st = c.

Context (c : option Z).

Lemma o_return_error_inv msg : safe (ostream_inv c) (@o_return_error CB unit msg).
Proof. intros st Hst; split; [discriminate | exact Hst]. Qed.

Lemma sink_memory_write buf count st :
  0 <= count < 2 ^ 64 -> ostream_ok st -> sink_memory (snd (pb_write buf count st)) = sink_memory st.
Proof.
  intros Hc (Hw & Hm & Hr). rewrite pb_write_unfold. unfold in_word, is_sizing, sink_memory in *.
  unfold bind, o_callback, buf_write, o_count.
  destruct (o_sink st) as [|out room|s] eqn:Es; cbn [negb andb] in *.
  - rewrite andb_false_r. cbn. rewrite ?Es. reflexivity.
  - destruct (0 <? count) eqn:E0; cbn [andb].
    + destruct (_ || _) eqn:E1; [cbn; rewrite Es; reflexivity|].
      apply orb_false_iff in E1 as [E1 E2]. apply u64_no_wrap in E1; [|lia..].
      rewrite E1 in *. zbool. destruct (Z.ltb_spec (zlen buf) count); [cbn; rewrite Es; reflexivity|].
      destruct (Z.ltb_spec room (zlen (ztake count buf))); [cbn; rewrite Es; reflexivity|].
      cbn. rewrite E1, zlen_ztake by lia. f_equal. lia.
    + zbool. cbn. rewrite ?Es. replace count with 0 by lia.
      rewrite Z.add_0_r, wrap_small by (unfold in_word; lia). reflexivity.
  - destruct ((0 <? count) && true); [|cbn; rewrite ?Es; reflexivity].
    destruct (_ || _); [cbn; rewrite ?Es; reflexivity|].
    destruct (zlen buf <? count); [cbn; rewrite ?Es; reflexivity|].
    destruct (cb_write s _) as [[|] ?]; reflexivity.
Qed.

Lemma pb_write_inv buf count :
  0 <= count < 2 ^ 64 -> count <= zlen buf -> safe (ostream_inv c) (pb_write buf count).
Proof.
  intros Hc Hb st [Hok Hs]. destruct (pb_write_safe buf count Hc Hb st Hok) as [H1 H2].
  split; [exact H1|]. split; [exact H2|]. rewrite sink_memory_write; assumption.
Qed.

Lemma pb_encode_varint_inv v : in_word 64 v -> safe (ostream_inv c) (pb_encode_varint v).
Proof.
  intros Hv. unfold pb_encode_varint. destruct (Z.leb_spec v 0x7F).
  - apply pb_write_inv; [lia | rewrite zlen_cons, zlen_nil; lia].
  - destruct (varint_fill_leb 10 v) as (b & bs & -> & Hc); [unfold fits_leb, in_word in *; lia | lia |].
    rewrite Hc. pose proof (zlen_leb128 10 v ltac:(lia)). apply pb_write_inv; lia.
Qed.

Lemma pb_encode_svarint_inv v : - 2 ^ 63 <= v < 2 ^ 63 -> safe (ostream_inv c) (pb_encode_svarint v).
Proof. intros Hv. apply pb_encode_varint_inv, zigzag_spec, Hv. Qed.

Lemma pb_encode_tag_inv wt f :
  in_word 32 f -> 0 <= wt < 8 -> safe (ostream_inv c) (pb_encode_tag wt f).
Proof.
  intros Hf Hw. apply pb_encode_varint_inv. unfold in_word in *.
  rewrite wrap_small by (unfold in_word; rewrite Z.shiftl_mul_pow2 by lia; lia).
  rewrite lor_shiftl_add by lia. lia.
Qed.

Lemma pb_encode_string_inv buf size :
  0 <= size < 2 ^ 64 -> size <= zlen buf -> safe (ostream_inv c) (pb_encode_string buf size).
Proof.
  intros H1 H2. apply safe_bind; [apply pb_encode_varint_inv; exact H1 | intros _].
  apply pb_write_inv; assumption.
Qed.

(** The stream of the second, real, run of a submessage encoder. *)
Lemma substream_inv (st : pb_ostream CB) size :
  ostream_ok st -> in_word 64 size -> is_sizing st = false ->
  o_bytes_written st + size <= o_max_size st ->
  ostream_inv (match o_sink st with buf_sink _ room => Some room | _ => None end)
    (mk_ostream (o_sink st) size 0 None).
Proof.
  intros (Hw & Hm & Hr) Hs Hsz Hle. unfold ostream_inv, ostream_ok, sink_memory, in_word in *. cbn.
  destruct (o_sink st); repeat split; lia || (f_equal; lia).
Qed.

(** What the stream is after the counts of the submessage were added. *)
Lemma rejoin_inv (st sub : pb_ostream CB) err :
  ostream_inv c st -> match c with Some c => c < 2 ^ 64 | None => True end ->
  ostream_inv (match o_sink st with buf_sink _ room => Some room | _ => None end) sub ->
  ostream_inv c (mk_ostream (o_sink sub) (o_max_size st)
                   (u64 (o_bytes_written st + o_bytes_written sub)) err).
Proof.
  intros [(Hw & Hm & Hr) Hc] Hc64 [(Hw1 & Hm1 & Hr1) Hc1].
  pose proof (wrap_range 64 (o_bytes_written st + o_bytes_written sub) ltac:(lia)).
  unfold ostream_inv, ostream_ok, sink_memory, in_word in *. cbn.
  destruct (o_sink st) as [|out0 room0|s0]; destruct (o_sink sub) as [|out1 room1|s1];
    try discriminate; subst c; try (repeat split; assumption || lia).
  injection Hc1 as Hc1. rewrite wrap_small by (unfold in_word; lia).
  repeat split; try lia. f_equal; lia.
Qed.

(** A submessage is safe when its body is, for every memory the body may be
    given, and when its size does not overflow a [size_t] next to the
    stream's. *)
Lemma pb_encode_submessage_inv (body : E) :
  (forall c', safe (ostream_inv c') body) ->
  match c with Some c => c < 2 ^ 64 | None => True end ->
  (forall st, ostream_inv c st -> is_sizing st = false ->
     o_bytes_written st + o_bytes_written (snd (body PB_OSTREAM_SIZING)) < 2 ^ 64) ->
  safe (ostream_inv c) (pb_encode_submessage body).
Proof.
  intros Hbody Hc Hsize st Hst. unfold pb_encode_submessage. rewrite bind_get.
  destruct (Hbody None PB_OSTREAM_SIZING) as [Hns [[Hwsub _] _]].
  { split; [apply ostream_sizing_ok | reflexivity]. }
  destruct (body PB_OSTREAM_SIZING) as [[[]| |] sub] eqn:E; cbn [fst snd] in *; [| |contradiction].
  2: { split; [discriminate | exact Hst]. }
  set (size := o_bytes_written sub) in *.
  pose proof (pb_encode_varint_inv size Hwsub st Hst) as [Hs1 Hst1].
  unfold bind. destruct (pb_encode_varint size st) as [[[]| |] st1]; cbn [fst snd] in *;
    [|split; [discriminate | exact Hst1]|contradiction].
  unfold get. destruct (is_sizing st1) eqn:Esz.
  - rewrite pb_write_unfold, Esz, andb_false_r. destruct Hst1 as [(Hw & Hm & Hr) Hadd].
    unfold is_sizing, o_count, ostream_inv, ostream_ok, sink_memory in *. cbn.
    destruct (o_sink st1); try discriminate.
    repeat split; try discriminate; try assumption; (apply wrap_range; lia) || apply Hm.
  - specialize (Hsize st1 Hst1 Esz). pose proof Hst1 as [(Hw & Hm & Hr) Hadd].
    unfold in_word in Hw, Hwsub.
    rewrite (wrap_small 64 (o_bytes_written st1 + size)) by (unfold in_word; lia).
    destruct (Z.ltb_spec (o_max_size st1) (o_bytes_written st1 + size)).
    { apply o_return_error_inv, Hst1. }
    pose proof (substream_inv st1 size (proj1 Hst1) Hwsub Esz ltac:(lia)) as Hsub0.
    destruct (Hbody _ _ Hsub0) as [Hns1 Hsub1].
    clear E.
    destruct (body (mk_ostream (o_sink st1) size 0 None)) as [status sub1]. cbn [fst snd] in *. unfold put.
    pose proof (rejoin_inv st1 sub1 (o_errmsg sub1) Hst1 Hc Hsub1) as Hfin.
    destruct status; [| |contradiction];
      (destruct (negb _); [apply o_return_error_inv, Hfin | split; [discriminate | exact Hfin]]).
Qed.
End output_safety.

(** ** The properties *)

Section properties.
Context {CBO : Type} {OCB : OutputCallback CBO} {CB : Type} {ICB : InputCallback CB}.

(** C7: for every 64-bit value [pb_encode_varint] writes between one and ten
    bytes, and [pb_decode_varint] reads back exactly that value from exactly
    those bytes, whatever follows them. *)
Theorem varint_roundtrip v :
  in_word 64 v ->
  exists bs, 1 <= zlen bs <= 10 /\ Emits (CB := CBO) (pb_encode_varint v) bs
             /\ Parses (CB := CB) pb_decode_varint bs v.
Proof.
  intros Hv. exists (varint v). pose proof (zlen_leb128 10 v ltac:(lia)).
  split; [lia|]. split; [apply pb_encode_varint_emits, Hv | apply pb_decode_varint_parses, Hv].
Qed.

(** [pb_decode_varint32] reads back, as a [uint32_t], every value an
    encoder of 32-bit fields writes: the unsigned ones, and the negative ones,
    which are written as ten-byte sign-extended varints. *)
Theorem varint32_roundtrip x :
  - 2 ^ 31 <= x < 2 ^ 32 ->
  exists bs, Emits (CB := CBO) (pb_encode_varint (u64 x)) bs
             /\ Parses (CB := CB) pb_decode_varint32 bs (u32 x).
Proof.
  intros Hx. exists (varint (u64 x)).
  split; [apply pb_encode_varint_emits, wrap_range; lia|].
  destruct (Z_lt_dec x 0); [apply varint32_negative; lia|].
  rewrite !wrap_small by (unfold in_word; lia). apply varint32_unsigned. unfold in_word; lia.
Qed.

(** a signed, unsigned or zigzag integer field of 1, 2, 4 or 8 bytes is
    restored in memory, byte for byte, by the decoder of its type from what
    the encoder of its type wrote. *)
Theorem integer_field_roundtrip field src n :
  int_size n -> length src = n -> data_size field = Z.of_nat n ->
  (exists bs, Emits (CB := CBO) (pb_enc_varint field src) bs /\ Stores (CB := CB) (pb_dec_varint field) bs src) /\
  (exists bs, Emits (CB := CBO) (pb_enc_uvarint field src) bs /\ Stores (CB := CB) (pb_dec_uvarint field) bs src) /\
  (exists bs, Emits (CB := CBO) (pb_enc_svarint field src) bs /\ Stores (CB := CB) (pb_dec_svarint field) bs src).
Proof.
  intros Hn Hl Hs.
  split; [eexists; apply (varint_field field n); assumption|].
  split; eexists; [apply (uvarint_field field n) | apply (svarint_field field n)]; assumption.
Qed.

(** boolean, fixed-width and fixed-length byte fields are restored in
    memory by their decoders from what their encoders wrote. *)
Theorem fixed_field_roundtrip field (b : bool) src4 src8 bytes :
  length src4 = 4%nat -> length src8 = 8%nat ->
  0 < zlen bytes < 2 ^ 32 -> data_size field = zlen bytes ->
  (exists bs, Emits (CB := CBO) (pb_enc_bool field [b8 (if b then 1 else 0)]) bs
              /\ Stores (CB := CB) (pb_dec_bool field) bs [b8 (if b then 1 else 0)]) /\
  (Emits (CB := CBO) (pb_enc_fixed32 field src4) src4 /\ Stores (CB := CB) (pb_dec_fixed32 field) src4 src4) /\
  (Emits (CB := CBO) (pb_enc_fixed64 field src8) src8 /\ Stores (CB := CB) (pb_dec_fixed64 field) src8 src8) /\
  (exists bs, Emits (CB := CBO) (pb_enc_fixed_length_bytes field bytes) bs
              /\ Stores (CB := CB) (pb_dec_fixed_length_bytes field) bs bytes).
Proof.
  intros H4 H8 Hb Hs. split; [|split; [|split]].
  - exists (varint (if b then 1 else 0)). split; [|apply bool_stores].
    unfold pb_enc_bool. replace (safe_read_bool _) with (Some b) by (destruct b; reflexivity).
    apply pb_encode_varint_emits. destruct b; unfold in_word; lia.
  - split; [|apply fixed32_stores, H4]. unfold pb_enc_fixed32, with_load. rewrite load_all by exact H4.
    rewrite <- (split_le_combine src4) at 2. rewrite H4. apply pb_encode_fixed32_emits.
  - split; [|apply fixed64_stores, H8]. unfold pb_enc_fixed64, with_load. rewrite load_all by exact H8.
    rewrite <- (split_le_combine src8) at 2. rewrite H8. apply pb_encode_fixed64_emits.
  - exists (delimited bytes). split; [|apply fixed_length_stores; assumption].
    unfold pb_enc_fixed_length_bytes. rewrite Hs. apply pb_encode_string_emits. lia.
Qed.

(** the tag of a field is read back, and [pb_skip_field], given the wire
    type from it, moves exactly past whatever payload the encoders can have
    written for that wire type. *)
Theorem skip_unknown_field f wt payload rest left err :
  0 < f < 2 ^ 29 -> field_payload wt payload ->
  zlen (varint (tag_value wt f)) + zlen payload <= left < 2 ^ 64 ->
  Emits (CB := CBO) (pb_encode_tag wt f) (varint (tag_value wt f)) /\
  exists st1 : pb_istream CB,
    pb_decode_tag (mk_istream (buf_source (varint (tag_value wt f) ++ payload ++ rest)) left err)
    = (Ok (wt, f), st1, false) /\
    pb_skip_field wt st1
    = (Ok tt, mk_istream (buf_source rest) (left - zlen (varint (tag_value wt f)) - zlen payload) err).
Proof.
  intros Hf Hp Hl. pose proof (zlen_nonneg payload). pose proof (zlen_leb128 10 (tag_value wt f) ltac:(lia)).
  assert (0 <= wt < 8) by (destruct Hp; unfold PB_WT_VARINT, PB_WT_64BIT, PB_WT_STRING, PB_WT_32BIT; lia).
  split; [apply pb_encode_tag_emits; unfold in_word; lia|].
  eexists. split; [apply pb_decode_tag_parses; lia|].
  apply pb_skip_field_payload; [exact Hp | lia].
Qed.

(** A submessage is written as its length followed by its body, for
    every body encoder that writes the bytes it counted on the sizing pass;
    on reading, the substream holds exactly that body, and closing it after
    any part of the body was read leaves the parent right behind it. *)
Theorem submessage_roundtrip body bs1 bs2 rest left err :
  Emits (CB := CBO) body (bs1 ++ bs2) -> zlen (bs1 ++ bs2) < 2 ^ 32 ->
  zlen (delimited (bs1 ++ bs2)) <= left < 2 ^ 64 ->
  Emits (CB := CBO) (pb_encode_submessage body) (delimited (bs1 ++ bs2)) /\
  exists sub st1 : pb_istream CB,
    pb_make_string_substream (mk_istream (buf_source (delimited (bs1 ++ bs2) ++ rest)) left err)
    = (Ok sub, st1) /\
    i_source sub = buf_source (bs1 ++ bs2 ++ rest) /\ i_bytes_left sub = zlen (bs1 ++ bs2) /\
    pb_close_string_substream (mk_istream (buf_source (bs2 ++ rest)) (zlen bs2) err) st1
    = (Ok tt, mk_istream (buf_source rest) (left - zlen (delimited (bs1 ++ bs2))) err).
Proof.
  intros He Hs Hl. split; [apply pb_encode_submessage_emits; [exact He | lia]|].
  do 2 eexists. split; [apply pb_make_string_substream_parses; assumption|].
  split; [cbn; rewrite <- app_assoc; reflexivity|]. split; [reflexivity|].
  apply pb_close_string_substream_spec. rewrite zlen_app in Hs. pose proof (zlen_nonneg bs1). lia.
Qed.

(** C15: on any input whatsoever, well formed or not, from a buffer or a user
    callback, no reader of the wire layer reads outside its buffer, loops
    forever, or leaves the stream claiming more bytes than it has. *)
Theorem readers_memory_safe :
  safe istream_ok (pb_decode_varint (CB := CB)) /\ safe istream_ok (pb_decode_varint32 (CB := CB)) /\
  safe istream_ok (pb_decode_svarint (CB := CB)) /\
  safe istream_ok (pb_decode_fixed32 (CB := CB)) /\ safe istream_ok (pb_decode_fixed64 (CB := CB)) /\
  (forall wt, safe istream_ok (pb_skip_field (CB := CB) wt)) /\
  (forall wt max, 0 <= max -> safe istream_ok (read_raw_value (CB := CB) wt max)) /\
  (forall st : pb_istream CB, istream_ok st ->
     let '(r, st1, _) := pb_decode_tag st in r <> Stuck /\ istream_ok st1).
Proof.
  split; [apply pb_decode_varint_safe|]. split; [apply pb_decode_varint32_safe|].
  split; [apply pb_decode_svarint_safe|]. split; [apply pb_decode_fixed_safe|].
  split; [apply pb_decode_fixed_safe|]. split; [apply pb_skip_field_safe|].
  split; [apply read_raw_value_safe|].
  intros st Hst. pose proof (pb_decode_varint32_eof_safe st Hst) as H. unfold pb_decode_tag.
  destruct (pb_decode_varint32_eof st) as [[[v| |] st1] eof];
    [|split; [discriminate | apply H] | destruct H; contradiction].
  destruct (v =? 0); (split; [discriminate | apply H]).
Qed.

(** no writer of the wire layer stores outside its buffer: what it wrote
    and the room it left always add up to the memory of the stream, however
    small [max_size] is, and a submessage keeps this for every safe body. *)
Theorem writers_memory_safe c :
  match c with Some c => c < 2 ^ 64 | None => True end ->
  (forall v, in_word 64 v -> safe (ostream_inv (CB := CBO) c) (pb_encode_varint v)) /\
  (forall v, - 2 ^ 63 <= v < 2 ^ 63 -> safe (ostream_inv (CB := CBO) c) (pb_encode_svarint v)) /\
  (forall buf size, 0 <= size < 2 ^ 64 -> size <= zlen buf ->
     safe (ostream_inv (CB := CBO) c) (pb_encode_string buf size)) /\
  (forall body, (forall c', safe (ostream_inv (CB := CBO) c') body) ->
     (forall st : pb_ostream CBO, ostream_inv c st -> is_sizing st = false ->
        o_bytes_written st + o_bytes_written (snd (body PB_OSTREAM_SIZING)) < 2 ^ 64) ->
     safe (ostream_inv c) (pb_encode_submessage body)).
Proof.
  intros Hc. split; [apply pb_encode_varint_inv|]. split; [apply pb_encode_svarint_inv|].
  split; [apply pb_encode_string_inv|]. intros body Hb Hs. apply pb_encode_submessage_inv; assumption.
Qed.

(** a value too large for the field is refused with an error: nothing is
    silently truncated by the unsigned and signed integer decoders. *)
Theorem integer_too_large field n v dest rest left :
  int_size n -> data_size field = Z.of_nat n -> (n <= length dest)%nat ->
  in_word 64 v -> zlen (varint v) <= left < 2 ^ 64 ->
  let run d := d (dest, mk_istream (CB := CB) (buf_source (varint v ++ rest)) left None) in
  let refused (r : outcome unit * (list byte * pb_istream CB)) :=
    exists mem st, r = (Fail, (mem, st)) /\ i_errmsg st = Some "integer too large"%string in
  (2 ^ (8 * Z.of_nat n) <= v -> refused (run (pb_dec_uvarint field))) /\
  (n <> 8%nat -> 2 ^ (8 * Z.of_nat n - 1) <= v < 2 ^ 31 -> refused (run (pb_dec_varint field))).
Proof.
  intros Hn Hsize Hd Hv Hl run refused. subst run refused. cbv beta.
  assert (Hst : forall x, store (le_split n x) (dest, mk_istream (CB := CB) (buf_source rest) (left - zlen (varint v)) None)
          = (Ok tt, (le_split n x ++ drop n dest, mk_istream (buf_source rest) (left - zlen (varint v)) None))).
  { intros x. rewrite store_bytes_run; rewrite length_le_split; [reflexivity | exact Hd]. }
  unfold in_word in Hv. split; intros Hbig.
  - unfold pb_dec_uvarint, bind at 1, on_stream at 1. rewrite pb_decode_varint_parses by (assumption || exact Hl).
    cbv beta zeta.
    assert (Hne : (wrap (8 * Z.of_nat n) v =? v) = false).
    { apply Z.eqb_neq. pose proof (wrap_range (8 * Z.of_nat n) v ltac:(lia)). unfold in_word in *. lia. }
    destruct Hn; rewrite Hsize; cbn [Z.eqb Pos.eqb Z.of_nat Pos.of_succ_nat Pos.succ] in *;
      try change (Z.of_nat 1) with 1 in *; try change (Z.of_nat 2) with 2 in *;
      try change (Z.of_nat 4) with 4 in *; try change (Z.of_nat 8) with 8 in *;
      cbn [Z.eqb Pos.eqb]; unfold bind; rewrite Hst; unfold ret; rewrite Hne; do 2 eexists; split; reflexivity.
  - intros Hr.
    unfold pb_dec_varint, bind at 1, on_stream at 1. rewrite pb_decode_varint_parses by (assumption || exact Hl).
    cbv beta zeta.
    assert (Hne : forall w, sext w v = v -> w = 8 * Z.of_nat n -> False).
    { intros w Hw ->. pose proof (sext_range (8 * Z.of_nat n) v ltac:(destruct Hn; lia)). lia. }
    assert (H32 : sext 32 v = v) by (apply sext_small; lia).
    assert (Hne' : (sext (8 * Z.of_nat n) v =? v) = false).
    { apply Z.eqb_neq. intros E. eapply Hne; [exact E | reflexivity]. }
    destruct Hn; [| | |congruence]; rewrite Hsize;
      try change (Z.of_nat 1) with 1 in *; try change (Z.of_nat 2) with 2 in *;
      try change (Z.of_nat 4) with 4 in *;
      cbn [Z.eqb Pos.eqb]; rewrite H32; unfold bind; rewrite Hst; unfold ret; rewrite Hne'; do 2 eexists; split; reflexivity.
Qed.
End properties.

(** ** Witnesses *)

Notation rd := (Parses (CB := Empty_set)).
Notation wr := (Emits (CB := Empty_set)).

Lemma varint_roundtrip_witness :
  exists bs, 1 <= zlen bs <= 10 /\ wr (pb_encode_varint (2 ^ 64 - 1)) bs /\ rd pb_decode_varint bs (2 ^ 64 - 1).
Proof. apply (varint_roundtrip (2 ^ 64 - 1)). unfold in_word. lia. Defined.

Lemma varint32_roundtrip_witness :
  exists bs, wr (pb_encode_varint (u64 (-1))) bs /\ rd pb_decode_varint32 bs (u32 (-1)).
Proof. apply (varint32_roundtrip (-1)). lia. Defined.

Definition int32_field : pb_field := {|
  tag := 1; type := PB_LTYPE_VARINT; data_offset := 0; size_offset := 0;
  data_size := 4; array_size := 0; ptr := 0 |}.

Lemma integer_field_roundtrip_witness :
  exists bs, wr (pb_enc_varint int32_field [Byte.xfe; Byte.xff; Byte.xff; Byte.xff]) bs
             /\ Stores (CB := Empty_set) (pb_dec_varint int32_field) bs [Byte.xfe; Byte.xff; Byte.xff; Byte.xff].
Proof.
  refine (proj1 (integer_field_roundtrip int32_field [Byte.xfe; Byte.xff; Byte.xff; Byte.xff] 4 _ _ _));
    [constructor | reflexivity | reflexivity].
Defined.

Lemma fixed_field_roundtrip_witness :
  wr (pb_enc_fixed32 int32_field (le_split 4 7)) (le_split 4 7)
  /\ Stores (CB := Empty_set) (pb_dec_fixed32 int32_field) (le_split 4 7) (le_split 4 7).
Proof.
  refine (proj1 (proj2 (fixed_field_roundtrip int32_field true (le_split 4 7) (le_split 8 7) (le_split 4 7) _ _ _ _)));
    [reflexivity | reflexivity | vm_compute; split; reflexivity | reflexivity].
Defined.

Lemma skip_unknown_field_witness :
  wr (pb_encode_tag PB_WT_VARINT 5) (varint (tag_value PB_WT_VARINT 5)) /\
  exists st1 : pb_istream Empty_set,
    pb_decode_tag (mk_istream (buf_source (varint (tag_value PB_WT_VARINT 5) ++ varint 300 ++ [])) 3 None)
    = (Ok (PB_WT_VARINT, 5), st1, false) /\
    pb_skip_field PB_WT_VARINT st1
    = (Ok tt, mk_istream (buf_source []) (3 - zlen (varint (tag_value PB_WT_VARINT 5)) - zlen (varint 300)) None).
Proof.
  apply (skip_unknown_field 5 PB_WT_VARINT (varint 300) [] 3 None);
    [lia | constructor; unfold in_word; lia | vm_compute; split; [discriminate | reflexivity]].
Defined.

Lemma submessage_roundtrip_witness :
  wr (pb_encode_submessage (pb_encode_fixed32 7)) (delimited ([Byte.x07] ++ [Byte.x00; Byte.x00; Byte.x00])).
Proof.
  refine (proj1 (submessage_roundtrip (CB := Empty_set) (pb_encode_fixed32 7) [Byte.x07]
                   [Byte.x00; Byte.x00; Byte.x00] [] 5 None _ _ _));
    [reflexivity | vm_compute; split; [discriminate | reflexivity]].
Defined.

Lemma writers_memory_safe_witness :
  safe (ostream_inv (CB := Empty_set) (Some 4)) (pb_encode_varint 300).
Proof. refine (proj1 (writers_memory_safe (Some 4) _) 300 _); [lia | unfold in_word; lia]. Defined.

Lemma integer_too_large_witness :
  exists mem st,
    pb_dec_uvarint int32_field (zeros 4, mk_istream (CB := Empty_set) (buf_source (varint (2 ^ 32) ++ [])) 5 None)
    = (Fail, (mem, st)) /\ i_errmsg st = Some "integer too large"%string.
Proof.
  refine (proj1 (integer_too_large int32_field 4 (2 ^ 32) (zeros 4) [] 5 _ _ _ _ _) _);
    [exact size4 | reflexivity | vm_compute; repeat constructor | unfold in_word; lia | vm_compute; split; [discriminate | reflexivity] | lia].
Defined.

(** ** Error behaviour *)

(** an eleventh varint byte is refused: after ten bytes with the
    continuation bit the decoder reports [varint overflow], whatever follows. *)
Theorem varint_overflow_rejected (bs rest : list byte) left :
  length bs = 10%nat -> Forall (fun b => 128 <= u8 b) bs -> 10 <= left < 2 ^ 64 ->
  pb_decode_varint (mk_istream (CB := Empty_set) (buf_source (bs ++ rest)) left None)
  = (Fail, mk_istream (buf_source rest) (left - 10) (Some "varint overflow"%string)).
Proof.
  intros Hl Hb Hw. unfold pb_decode_varint.
  enough (L : forall bs fuel j r left, Forall (fun b => 128 <= u8 b) bs ->
     10 - j = zlen bs -> 0 <= j -> zlen bs < Z.of_nat fuel -> zlen bs <= left < 2 ^ 64 ->
     varint_loop fuel (7 * j) r (mk_istream (CB := Empty_set) (buf_source (bs ++ rest)) left None)
     = (Fail, mk_istream (buf_source rest) (left - zlen bs) (Some "varint overflow"%string))).
  { change 0 with (7 * 0) at 1. rewrite (L bs 11%nat 0 0 left) by (unfold zlen; lia || exact Hb). unfold zlen. rewrite Hl. reflexivity. }
  clear. induction bs as [|b bs IH]; intros fuel j r left Hb Hj Hj0 Hf Hw;
    (destruct fuel as [|fuel]; [unfold zlen in Hf; lia|]); cbn [varint_loop].
  - rewrite zlen_nil in *. destruct (Z.leb_spec 64 (7 * j)); [|lia].
    cbn. rewrite Z.sub_0_r. reflexivity.
  - rewrite zlen_cons in *. pose proof (zlen_nonneg bs). destruct (Z.leb_spec 64 (7 * j)); [lia|].
    inversion_clear Hb as [|? ? Hb0 Hb1].
    erewrite bind_Ok by (apply (pb_readbyte_parses b (bs ++ rest)); rewrite zlen_cons, zlen_nil; lia).
    rewrite land_128. destruct (Z.leb_spec 128 (u8 b)); [|lia].
    rewrite Z.mod_small by lia. replace (7 * j + 7) with (7 * (j + 1)) by lia.
    rewrite IH; [|exact Hb1|lia|lia|lia|rewrite zlen_cons, zlen_nil; lia].
    rewrite zlen_cons, zlen_nil. do 2 f_equal. lia.
Qed.

Lemma varint_overflow_rejected_witness :
  pb_decode_varint (mk_istream (CB := Empty_set) (buf_source (repeat Byte.xff 10 ++ [Byte.x01])) 11 None)
  = (Fail, mk_istream (buf_source [Byte.x01]) (11 - 10) (Some "varint overflow"%string)).
Proof.
  apply (varint_overflow_rejected (repeat Byte.xff 10) [Byte.x01] 11);
    [reflexivity | repeat constructor; vm_compute; discriminate | lia].
Defined.

(** a write that does not fit [max_size] changes nothing but the error
    message, which says that the stream is full. *)
Theorem stream_full_rejected {CB} `{OutputCallback CB} buf count (st : pb_ostream CB) :
  in_word 64 (o_bytes_written st) -> 0 < count < 2 ^ 64 -> is_sizing st = false ->
  o_max_size st < o_bytes_written st + count -> o_errmsg st = None -> in_word 64 (o_max_size st) ->
  pb_write buf count st
  = (Fail, mk_ostream (o_sink st) (o_max_size st) (o_bytes_written st) (Some "stream full"%string)).
Proof.
  intros Hw Hc Hs Hm He Hm64. rewrite pb_write_unfold, Hs. unfold in_word in *.
  destruct (Z.ltb_spec 0 count); [|lia]. cbn [andb negb].
  destruct (_ || _) eqn:E.
  - unfold o_return_error, o_set_error. rewrite He. reflexivity.
  - apply orb_false_iff in E as [E1 E2]. apply u64_no_wrap in E1; [|lia..].
    rewrite E1 in E2. zbool. lia.
Qed.

Lemma stream_full_rejected_witness :
  pb_write [Byte.x01; Byte.x02] 2 (pb_ostream_from_buffer (CB := Empty_set) [Byte.x00] 1)
  = (Fail, mk_ostream (buf_sink [] 1) 1 0 (Some "stream full"%string)).
Proof.
  apply (stream_full_rejected [Byte.x01; Byte.x02] 2 (pb_ostream_from_buffer (CB := Empty_set) [Byte.x00] 1));
    first [reflexivity | unfold in_word; cbn; lia].
Defined.

(** ** Where [pb_decode_varint32] accepts what it means to refuse *)

Definition decode32 (bs : list byte) : outcome Z :=
  fst (pb_decode_varint32 (mk_istream (CB := Empty_set) (buf_source bs) (zlen bs) None)).

(** the overflow check of [pb_decode_varint32_eof] can be passed by: a
    37-byte run of continuation bytes makes the 8-bit [bitpos] wrap, so that a
    late byte is taken as the low bits of the value, and the high bits of a
    fifth byte that is not the last one are dropped without an error. *)
Theorem varint32_overflow_accepted :
  decode32 (repeat Byte.x80 37 ++ [Byte.x01]) = Ok 8 /\
  decode32 [Byte.x80; Byte.x80; Byte.x80; Byte.x80; Byte.x90; Byte.x00] = Ok 0 /\
  decode32 [Byte.x80; Byte.x80; Byte.x80; Byte.x80; Byte.x10] = Fail.
Proof. split; [|split]; vm_compute; reflexivity. Qed.
