(* ===== verification/PbMemory.v ===== *)
(** The memory that nanopb's message structures live in: a byte per address.
    Pointers are eight bytes, [pb_size_t] is four, little-endian. *)
From Stdlib Require Import ZArith Lia Bool.
From coqutil Require Import Byte Word.LittleEndianList.
From stdpp Require Import base list numbers gmap.
From S2P Require Import Prelude PbCommon.
Local Open Scope Z_scope.

Notation mem := (gmap Z byte).

(** The bytes from [a] on, at most [n], up to the first address that is not
    mapped. *)
Fixpoint bytes_at (m : mem) (a : Z) (n : nat) : list byte :=
  match n with
  | O => []
  | S n => match m !! a with Some b => b :: bytes_at m (a + 1) n | None => [] end
  end.

(** An [n]-byte object at [a], if all of it is mapped. *)
Definition load_bytes (m : mem) (a n : Z) : option (list byte) :=
  let bs := bytes_at m a (Z.to_nat n) in if zlen bs =? n then Some bs else None.

Definition load_int (m : mem) (a n : Z) : option Z := option_map le_combine (load_bytes m a n).
Definition load_ptr (m : mem) (a : Z) : option Z := load_int m a sizeof_ptr.
Definition load_pb_size (m : mem) (a : Z) : option Z := load_int m a 4.

Fixpoint store_bytes (m : mem) (a : Z) (bs : list byte) : mem :=
  match bs with [] => m | b :: bs => <[a := b]> (store_bytes m (a + 1) bs) end.

(** ** Loads *)

Lemma bytes_at_length m a n : (length (bytes_at m a n) <= n)%nat.
Proof. revert a. induction n as [|n IH]; intros a; cbn; [lia|]. destruct (m !! a); cbn; [specialize (IH (a + 1)) |]; lia. Qed.

Lemma load_bytes_zlen m a n bs : load_bytes m a n = Some bs -> zlen bs = n /\ bytes_at m a (Z.to_nat n) = bs.
Proof. unfold load_bytes. destruct (Z.eqb_spec (zlen (bytes_at m a (Z.to_nat n))) n); [intros [= <-]; auto | discriminate]. Qed.

Lemma load_bytes_Some m a n : zlen (bytes_at m a (Z.to_nat n)) = n -> load_bytes m a n = Some (bytes_at m a (Z.to_nat n)).
Proof. intros H. unfold load_bytes. rewrite H, Z.eqb_refl. reflexivity. Qed.

(** A prefix of a readable object is readable. *)
Lemma bytes_at_take m a n k : (k <= n)%nat -> take k (bytes_at m a n) = bytes_at m a k.
Proof.
  revert a k. induction n as [|n IH]; intros a [|k] Hk; cbn; try reflexivity; [lia|].
  destruct (m !! a); [|reflexivity]. cbn. f_equal. apply IH. lia.
Qed.

Lemma bytes_at_app m a n k : length (bytes_at m a n) = n ->
  bytes_at m a (n + k) = bytes_at m a n ++ bytes_at m (a + Z.of_nat n) k.
Proof.
  revert a. induction n as [|n IH]; intros a H; cbn in *; [rewrite Z.add_0_r; reflexivity|].
  destruct (m !! a); [|discriminate]. cbn in *. f_equal. rewrite IH by lia. do 2 f_equal; lia.
Qed.

(** ** Stores *)

Lemma zlen_le_split n v : zlen (le_split n v) = Z.of_nat n.
Proof. unfold zlen. rewrite length_le_split. reflexivity. Qed.

Lemma lookup_store m bs : forall a i,
  store_bytes m a bs !! i = if decide (a <= i < a + zlen bs) then bs !! Z.to_nat (i - a) else m !! i.
Proof.
  induction bs as [|b bs IH]; intros a i; cbn [store_bytes].
  - destruct (decide _) as [H|_]; [rewrite zlen_nil in H; lia | reflexivity].
  - rewrite zlen_cons. pose proof (zlen_nonneg bs). destruct (decide (i = a)) as [->|Hne].
    + rewrite lookup_insert_eq. destruct (decide _); [|lia]. rewrite Z.sub_diag. reflexivity.
    + rewrite lookup_insert_ne, IH by congruence. destruct (decide (a + 1 <= i < a + 1 + zlen bs)), (decide (a <= i < a + (1 + zlen bs))); try lia; [|reflexivity].
      replace (Z.to_nat (i - a)) with (S (Z.to_nat (i - (a + 1)))) by lia. reflexivity.
Qed.

Lemma store_is_Some bs a i : is_Some (store_bytes ∅ a bs !! i) <-> a <= i < a + zlen bs.
Proof.
  rewrite lookup_store. destruct (decide _) as [H|H].
  - split; [auto|]. intros _. apply lookup_lt_is_Some. unfold zlen in H. lia.
  - rewrite lookup_empty. split; [intros [? [=]] | contradiction].
Qed.

Lemma store_union m a bs : store_bytes m a bs = store_bytes ∅ a bs ∪ m.
Proof.
  apply map_eq. intros i. rewrite lookup_store. destruct (decide _) as [H|H].
  - symmetry. apply store_is_Some in H as [b Hb]. rewrite (lookup_union_Some_l _ _ _ _ Hb), <- Hb, lookup_store.
    destruct (decide _); [reflexivity|]. exfalso. assert (is_Some (store_bytes ∅ a bs !! i)) as H%store_is_Some by eauto. contradiction.
  - symmetry. apply lookup_union_r. apply eq_None_not_Some. rewrite store_is_Some. exact H.
Qed.

Lemma stored_app a bs1 bs2 :
  store_bytes ∅ a (bs1 ++ bs2) = store_bytes ∅ a bs1 ∪ store_bytes ∅ (a + zlen bs1) bs2 /\
  store_bytes ∅ a bs1 ##ₘ store_bytes (∅ : mem) (a + zlen bs1) bs2.
Proof.
  pose proof (zlen_nonneg bs1). pose proof (zlen_nonneg bs2). split.
  - rewrite <- store_union. apply map_eq. intros i. rewrite !lookup_store, zlen_app.
    destruct (decide (a <= i < a + zlen bs1)) as [Hi|Hi].
    + destruct (decide _); [|lia]. apply lookup_app_l. unfold zlen in Hi. lia.
    + destruct (decide (a + zlen bs1 <= i < a + zlen bs1 + zlen bs2)), (decide (a <= i < a + (zlen bs1 + zlen bs2))); try lia; [|reflexivity].
      rewrite lookup_app_r by (unfold zlen in *; lia). f_equal. unfold zlen. lia.
  - apply map_disjoint_alt. intros i.
    destruct (decide (a <= i < a + zlen bs1)); [right | left]; apply eq_None_not_Some; rewrite store_is_Some; lia.
Qed.

Lemma bytes_at_lookup m bs : forall a,
  (forall i b, bs !! i = Some b -> m !! (a + Z.of_nat i) = Some b) -> bytes_at m a (length bs) = bs.
Proof.
  induction bs as [|b bs IH]; intros a H; cbn [bytes_at length]; [reflexivity|].
  pose proof (H 0%nat b eq_refl) as Hb. rewrite Z.add_0_r in Hb. rewrite Hb. f_equal. apply IH.
  intros i c Hc. replace (a + 1 + Z.of_nat i) with (a + Z.of_nat (S i)) by lia. apply (H (S i)), Hc.
Qed.

(** A part of an object that is there can be loaded. *)
Lemma load_store (m : mem) a bs off n : 0 <= off -> 0 <= n -> off + n <= zlen bs ->
  load_bytes (store_bytes ∅ a bs ∪ m) (a + off) n = Some (slice bs off n).
Proof.
  intros Ho Hn Hl. pose proof (zlen_slice bs off n Ho Hn Hl) as Hz.
  assert (E : bytes_at (store_bytes ∅ a bs ∪ m) (a + off) (Z.to_nat n) = slice bs off n).
  { replace (Z.to_nat n) with (length (slice bs off n)) by (unfold zlen in Hz; lia).
    apply bytes_at_lookup. intros i b Hb. rewrite <- store_union, lookup_store.
    pose proof (lookup_lt_Some _ _ _ Hb) as Hi. unfold zlen in Hz.
    destruct (decide _) as [_|Hd]; [|exfalso; apply Hd; lia].
    unfold slice, ztake, zdrop in Hb. rewrite lookup_take_lt, lookup_drop in Hb by lia. rewrite <- Hb. f_equal. lia. }
  rewrite load_bytes_Some; rewrite E; [reflexivity | exact Hz].
Qed.

(** [bs] with [new] from [off] on. *)
Lemma store_splice a bs off new : 0 <= off -> off + zlen new <= zlen bs ->
  store_bytes (store_bytes ∅ a bs) (a + off) new = store_bytes (∅ : mem) a (splice bs off new).
Proof.
  intros Ho Hl. pose proof (zlen_nonneg new). apply map_eq. intros i. rewrite !lookup_store. unfold splice.
  assert (Hz : zlen (ztake off bs) = off) by (rewrite zlen_ztake; [reflexivity | lia]).
  assert (Hd : zlen (zdrop (off + zlen new) bs) = zlen bs - off - zlen new) by (rewrite zlen_zdrop by lia; lia).
  rewrite !zlen_app, Hz, Hd. unfold zlen in *.
  destruct (decide (a <= i < a + (off + (Z.of_nat (length new) + (Z.of_nat (length bs) - off - Z.of_nat (length new)))))) as [Hi|Hi].
  2:{ destruct (decide (a + off <= i < a + off + Z.of_nat (length new))); [lia|].
      destruct (decide (a <= i < a + Z.of_nat (length bs))); [lia | reflexivity]. }
  destruct (decide (a + off <= i < a + off + Z.of_nat (length new))) as [Hn|Hn].
  - rewrite lookup_app_r by lia. rewrite lookup_app_l by lia. f_equal. lia.
  - destruct (decide (a <= i < a + Z.of_nat (length bs))); [|lia].
    destruct (decide (i < a + off)).
    + rewrite lookup_app_l by lia. unfold ztake. rewrite lookup_take_lt by lia. reflexivity.
    + rewrite lookup_app_r by lia. rewrite lookup_app_r by lia. unfold zdrop. rewrite lookup_drop. f_equal. lia.
Qed.
