(* ===== verification/PbEncode.v ===== *)
(** Encoding whole messages: the upper half of ios/Pods/nanopb/pb_encode.c.
    The message is C memory, which encoding only reads, described by field
    descriptors.  Descriptor arrays refer to each other by address, so recursive
    message types are covered; what nests is the data, and the fuel of
    [pb_encode] is the nesting depth. *)
From Stdlib Require Import ZArith Lia Bool String.
From coqutil Require Import Byte Word.LittleEndianList.
From stdpp Require Import base list numbers gmap.
From S2P Require Import Prelude PbStream PbCommon PbCodec PbMemory.
Local Open Scope Z_scope.
Local Open Scope c_scope.

(** Offsets in [pb_callback_t], [pb_extension_t], [pb_extension_type_t] and
    [pb_bytes_array_t]. *)
Definition callback_funcs : Z := 0.
Definition callback_arg : Z := 8.
Definition extension_type : Z := 0.
Definition extension_dest : Z := 8.
Definition extension_next : Z := 16.
Definition extension_type_encode : Z := 8.
Definition extension_type_arg : Z := 16.
Definition bytes_array_bytes : Z := 4.

Section encode.
Context {CB : Type} {OCB : OutputCallback CB}.
Notation E := (M (pb_ostream CB) unit).

(** The memory, the descriptor arrays by address, and the user's functions by
    address: [callback->funcs.encode(stream, field, &callback->arg)] and
    [extension->type->encode(stream, extension)]. *)
Context (m : mem) (descriptors : Z -> option (list pb_field)).
Context (funcs_encode : Z -> pb_field -> Z -> E) (type_encode : Z -> Z -> E).

(** ** Default values *)

(** The byte-per-byte comparison with zero. *)
Fixpoint zero_bytes (a : Z) (n : nat) : option bool :=
  match n with
  | O => Some true
  | S n =>
      match m !! a with
      | None => None
      | Some b => if u8 b =? 0 then zero_bytes (a + 1) n else Some false
      end
  end.

(** The loop over the fields of a submessage. *)
Fixpoint default_loop (check : pb_field -> Z -> option bool) (fuel : nat) (it : pb_field_iter) : option bool :=
  match fuel with
  | O => None
  | S fuel =>
      match iter_pos it with
      | (Ok f, _) =>
          match check f (pData it) with
          | None => None
          | Some false => Some false
          | Some true =>
              match pb_field_iter_next it with
              | (Ok true, it') => default_loop check fuel it'
              | (Ok false, _) => Some true
              | _ => None
              end
          end
      | _ => None
      end
  end.

Definition no_iter : pb_field_iter := mk_iter [] 0 0 0 0 0.

Fixpoint pb_check_proto3_default_value (fuel : nat) (field : pb_field) (pData : Z) : option bool :=
  match fuel with
  | O => None
  | S fuel =>
      let ty := type field in
      let pSize := pData + size_offset field in
      let rest :=
        if (PB_ATYPE ty =? PB_ATYPE_STATIC) && (PB_LTYPE ty =? PB_LTYPE_BYTES) then
          option_map (Z.eqb 0) (load_pb_size m pData)
        else if (PB_ATYPE ty =? PB_ATYPE_STATIC) && (PB_LTYPE ty =? PB_LTYPE_STRING) then
          option_map (fun b => u8 b =? 0) (m !! pData)
        else if (PB_ATYPE ty =? PB_ATYPE_STATIC) && (PB_LTYPE ty =? PB_LTYPE_FIXED_LENGTH_BYTES) then
          Some (data_size field =? 0)
        else if (PB_ATYPE ty =? PB_ATYPE_STATIC) && (PB_LTYPE ty =? PB_LTYPE_SUBMESSAGE) then
          match descriptors (ptr field) with
          | None => None
          | Some fields =>
              match pb_field_iter_begin fields pData no_iter with
              | (Ok true, it) => default_loop (pb_check_proto3_default_value fuel) (length fields) it
              | (Ok false, _) => Some true
              | _ => None
              end
          end
        else if (PB_ATYPE ty =? PB_ATYPE_POINTER) && (PB_LTYPE_LAST_PACKABLE <? PB_LTYPE ty) then
          option_map (Z.eqb 0) (load_ptr m pData)
        else zero_bytes pData (Z.to_nat (data_size field)) in
      if PB_HTYPE ty =? PB_HTYPE_REQUIRED then Some false
      else if PB_HTYPE ty =? PB_HTYPE_REPEATED then
        if negb (size_offset field =? 0) then option_map (Z.eqb 0) (load_pb_size m pSize)
        else if PB_ATYPE ty =? PB_ATYPE_STATIC then Some false
        else rest
      else if PB_HTYPE ty =? PB_HTYPE_ONEOF then option_map (Z.eqb 0) (load_pb_size m pSize)
      else if (PB_HTYPE ty =? PB_HTYPE_OPTIONAL) && negb (size_offset field =? 0) then
        option_map negb (safe_read_bool (bytes_at m pSize 1))
      else rest
  end.

(** ** Encoders of the field types *)

Notation encoder := (pb_field -> Z -> E).

(** The memory at [src], as much of it as there is. *)
Definition at_src (enc : pb_field -> list byte -> E) : encoder := fun field src =>
  enc field (bytes_at m src (Z.to_nat (data_size field))).

Definition pb_enc_bytes : encoder := fun field src =>
  if src =? 0 then pb_encode_string [] 0 else
  size <- known (load_pb_size m src) ;;
  if (PB_ATYPE (type field) =? PB_ATYPE_STATIC) && (u64 (data_size field - bytes_array_bytes) <? size)
  then o_return_error "bytes size exceeded"
  else pb_encode_string (bytes_at m (src + bytes_array_bytes) (Z.to_nat size)) size.

(** [while (size < max_size && *p != '\0')]; the memory is finite, so its
    size is enough fuel. *)
Fixpoint string_size (fuel : nat) (p max_size size : Z) : option Z :=
  match fuel with
  | O => None
  | S fuel =>
      if size <? max_size then
        match m !! p with
        | None => None
        | Some b => if u8 b =? 0 then Some size else string_size fuel (p + 1) max_size (size + 1)
        end
      else Some size
  end.

Definition pb_enc_string : encoder := fun field src =>
  let max_size := if PB_ATYPE (type field) =? PB_ATYPE_POINTER then SIZE_MAX else data_size field in
  size <- known (if src =? 0 then Some 0 else string_size (S (base.size m)) src max_size 0) ;;
  pb_encode_string (bytes_at m src (Z.to_nat size)) size.

Section message.
(** [pb_encode] and [pb_check_proto3_default_value], with less fuel. *)
Context (pb_encode : list pb_field -> Z -> E) (check_default : pb_field -> Z -> option bool).

Definition pb_enc_submessage : encoder := fun field src =>
  if ptr field =? 0 then o_return_error "invalid field descriptor" else
  fields <- known (descriptors (ptr field)) ;;
  pb_encode_submessage (pb_encode fields src).

Definition null_encoder : encoder := fun _ _ => stuck.

Definition PB_ENCODERS : list encoder := [
  at_src pb_enc_bool; at_src pb_enc_varint; at_src pb_enc_uvarint; at_src pb_enc_svarint;
  at_src pb_enc_fixed32; at_src pb_enc_fixed64;
  pb_enc_bytes; pb_enc_string; pb_enc_submessage;
  null_encoder;
  at_src pb_enc_fixed_length_bytes ].

(** The loops over the items of an array. *)
Fixpoint packed_items (func : encoder) (field : pb_field) (p : Z) (count : nat) : E :=
  match count with
  | O => ret tt
  | S count => func field p ;; packed_items func field (p + data_size field) count
  end.

Fixpoint unpacked_items (func : encoder) (field : pb_field) (p : Z) (count : nat) : E :=
  match count with
  | O => ret tt
  | S count =>
      pb_encode_tag_for_field field ;;
      (if (PB_ATYPE (type field) =? PB_ATYPE_POINTER)
          && ((PB_LTYPE (type field) =? PB_LTYPE_STRING) || (PB_LTYPE (type field) =? PB_LTYPE_BYTES))
       then q <- known (load_ptr m p) ;; func field q
       else func field p) ;;
      unpacked_items func field (p + data_size field) count
  end.

Definition encode_array (field : pb_field) (pData count : Z) (func : encoder) : E :=
  if count =? 0 then ret tt else
  if negb (PB_ATYPE (type field) =? PB_ATYPE_POINTER) && (array_size field <? count)
  then o_return_error "array max size exceeded" else
  if PB_LTYPE (type field) <=? PB_LTYPE_LAST_PACKABLE then
    pb_encode_tag PB_WT_STRING (tag field) ;;
    size <-
      (if PB_LTYPE (type field) =? PB_LTYPE_FIXED32 then ret (u64 (4 * count))
       else if PB_LTYPE (type field) =? PB_LTYPE_FIXED64 then ret (u64 (8 * count))
       else '(_, sizestream) <- local (packed_items func field pData (Z.to_nat count)) PB_OSTREAM_SIZING ;;
            ret (o_bytes_written sizestream)) ;;
    pb_encode_varint size ;;
    stream <- get ;;
    if is_sizing stream then pb_write [] size
    else packed_items func field pData (Z.to_nat count)
  else unpacked_items func field pData (Z.to_nat count).

(** [pSize] points to the local [implicit_has] or into the message. *)
Definition read_has (pSize : bool + Z) : M (pb_ostream CB) bool :=
  match pSize with inl b => ret b | inr a => known (safe_read_bool (bytes_at m a 1)) end.
Definition read_pb_size (pSize : bool + Z) : M (pb_ostream CB) Z :=
  match pSize with inl _ => stuck | inr a => known (load_pb_size m a) end.

(** The switch on the rule of the field; [pData] is where its data is. *)
Definition encode_by_rule (field : pb_field) (pData : Z) (pSize : bool + Z) (func : encoder) : E :=
  if PB_HTYPE (type field) =? PB_HTYPE_REQUIRED then
    if pData =? 0 then o_return_error "missing required field" else
    pb_encode_tag_for_field field ;; func field pData
  else if PB_HTYPE (type field) =? PB_HTYPE_OPTIONAL then
    has <- read_has pSize ;;
    if (has : bool) then pb_encode_tag_for_field field ;; func field pData else ret tt
  else if PB_HTYPE (type field) =? PB_HTYPE_REPEATED then
    count <- (if negb (size_offset field =? 0) then read_pb_size pSize else ret (array_size field)) ;;
    encode_array field pData count func
  else if PB_HTYPE (type field) =? PB_HTYPE_ONEOF then
    which <- read_pb_size pSize ;;
    if which =? tag field then pb_encode_tag_for_field field ;; func field pData else ret tt
  else o_return_error "invalid field type".

Definition encode_basic_field (field : pb_field) (pData : Z) : E :=
  func <- known (PB_ENCODERS !! Z.to_nat (PB_LTYPE (type field))) ;;
  pSize <-
    (if negb (size_offset field =? 0) then ret (inr (pData + size_offset field))
     else if PB_HTYPE (type field) =? PB_HTYPE_OPTIONAL
     then d <- known (check_default field pData) ;; ret (inl (negb d))
     else ret (inl true)) ;;
  if PB_ATYPE (type field) =? PB_ATYPE_POINTER then
    p <- known (load_ptr m pData) ;;
    encode_by_rule field p (match pSize with inl _ => inl (negb (p =? 0)) | inr a => inr a end) func
  else encode_by_rule field pData pSize func.

(** A callback that fails is reported with a message of its own if it left none. *)
Definition or_error (e : E) (msg : string) : E := fun st =>
  match e st with (Fail, st1) => o_return_error msg st1 | r => r end.

Definition encode_callback_field (field : pb_field) (pData : Z) : E :=
  encode <- known (load_ptr m (pData + callback_funcs)) ;;
  if encode =? 0 then ret tt
  else or_error (funcs_encode encode field (pData + callback_arg)) "callback error".

Definition encode_field (field : pb_field) (pData : Z) : E :=
  if (PB_ATYPE (type field) =? PB_ATYPE_STATIC) || (PB_ATYPE (type field) =? PB_ATYPE_POINTER)
  then encode_basic_field field pData
  else if PB_ATYPE (type field) =? PB_ATYPE_CALLBACK then encode_callback_field field pData
  else o_return_error "invalid field type".

Definition default_extension_encoder (extension : Z) : E :=
  ty <- known (load_ptr m (extension + extension_type)) ;;
  arg <- known (load_ptr m (ty + extension_type_arg)) ;;
  fields <- known (descriptors arg) ;;
  field <- known (head fields) ;;
  if PB_ATYPE (type field) =? PB_ATYPE_POINTER
  then encode_field field (extension + extension_dest)
  else dest <- known (load_ptr m (extension + extension_dest)) ;; encode_field field dest.

(** The list of the extensions; one that comes back to itself has no end. *)
Fixpoint extension_loop (fuel : nat) (extension : Z) : E :=
  match fuel with
  | O => stuck
  | S fuel =>
      if extension =? 0 then ret tt else
      ty <- known (load_ptr m (extension + extension_type)) ;;
      encode <- known (load_ptr m (ty + extension_type_encode)) ;;
      (if encode =? 0 then default_extension_encoder extension else type_encode encode extension) ;;
      next <- known (load_ptr m (extension + extension_next)) ;;
      extension_loop fuel next
  end.

Definition encode_extension_field (field : pb_field) (pData : Z) : E :=
  extension <- known (load_ptr m pData) ;; extension_loop (S (base.size m)) extension.

(** The loop of [pb_encode]. *)
Fixpoint encode_fields (fuel : nat) (iter : pb_field_iter) : E :=
  match fuel with
  | O => stuck
  | S fuel =>
      '(f, _) <- local iter_pos iter ;;
      (if PB_LTYPE (type f) =? PB_LTYPE_EXTENSION then encode_extension_field f (pData iter)
       else encode_field f (pData iter)) ;;
      '(more, iter) <- local pb_field_iter_next iter ;;
      if (more : bool) then encode_fields fuel iter else ret tt
  end.
End message.

Fixpoint pb_encode (fuel : nat) (fields : list pb_field) (src_struct : Z) : E :=
  match fuel with
  | O => stuck
  | S fuel =>
      '(nonempty, iter) <- local (pb_field_iter_begin fields src_struct) no_iter ;;
      if negb nonempty then ret tt
      else encode_fields (pb_encode fuel) (pb_check_proto3_default_value (S fuel)) (length fields) iter
  end.

Definition pb_encode_delimited (fuel : nat) (fields : list pb_field) (src_struct : Z) : E :=
  pb_encode_submessage (pb_encode fuel fields src_struct).

Definition pb_encode_nullterminated (fuel : nat) (fields : list pb_field) (src_struct : Z) : E :=
  pb_encode fuel fields src_struct ;; pb_write [Byte.x00] 1.

Definition pb_get_encoded_size (fuel : nat) (fields : list pb_field) (src_struct : Z) : outcome Z :=
  match pb_encode fuel fields src_struct PB_OSTREAM_SIZING with
  | (Ok _, st) => Ok (o_bytes_written st)
  | (Fail, _) => Fail
  | (Stuck, _) => Stuck
  end.
End encode.
