(* ===== verification/PbWire.v ===== *)
(** What [pb_encode] promises: a message in memory has one wire encoding, and
    that is what is written, on every kind of stream and with the length that
    [pb_get_encoded_size] announces. *)
From Stdlib Require Import ZArith Lia Bool String.
From coqutil Require Import Byte Word.LittleEndianList.
From stdpp Require Import base list numbers gmap.
From S2P Require Import Prelude PbStream PbCommon PbCodec PbSpec PbMemory PbEncode.
Local Open Scope Z_scope.
Local Open Scope c_scope.

(** ** The wire format of a message in memory *)

(** The wire types of the protocol: numbers of variable length are 0, of eight
    bytes 1, of four bytes 5, and what has a length in front is 2. *)
Definition protocol_wire_type (ltype : Z) : option Z :=
  if existsb (Z.eqb ltype) [PB_LTYPE_BOOL; PB_LTYPE_VARINT; PB_LTYPE_UVARINT; PB_LTYPE_SVARINT] then Some 0
  else if existsb (Z.eqb ltype) [PB_LTYPE_BYTES; PB_LTYPE_STRING; PB_LTYPE_SUBMESSAGE; PB_LTYPE_FIXED_LENGTH_BYTES] then Some 2
  else if ltype =? PB_LTYPE_FIXED64 then Some 1
  else if ltype =? PB_LTYPE_FIXED32 then Some 5 else None.

(** The encoding of a number whose representation in memory is [src]. *)
Inductive scalar_wire (f : pb_field) : list byte -> list byte -> Prop :=
  | wire_bool b : PB_LTYPE (type f) = PB_LTYPE_BOOL ->
      scalar_wire f [b] (varint (if u8 b =? 0 then 0 else 1))
  | wire_varint n src : PB_LTYPE (type f) = PB_LTYPE_VARINT -> int_size n -> length src = n ->
      scalar_wire f src (varint (u64 (sext (8 * Z.of_nat n) (le_combine src))))
  | wire_uvarint n src : PB_LTYPE (type f) = PB_LTYPE_UVARINT -> int_size n -> length src = n ->
      scalar_wire f src (varint (le_combine src))
  | wire_svarint n src : PB_LTYPE (type f) = PB_LTYPE_SVARINT -> int_size n -> length src = n ->
      scalar_wire f src (varint (zigzag_value (sext (8 * Z.of_nat n) (le_combine src))))
  | wire_fixed32 src : PB_LTYPE (type f) = PB_LTYPE_FIXED32 -> length src = 4%nat -> scalar_wire f src src
  | wire_fixed64 src : PB_LTYPE (type f) = PB_LTYPE_FIXED64 -> length src = 8%nat -> scalar_wire f src src.

(** The NUL-terminated string at [a], or the first [max] bytes if it is longer. *)
Definition c_string (m : mem) (a max : Z) (data : list byte) : Prop :=
  load_bytes m a (zlen data) = Some data /\ Forall (fun b => u8 b <> 0) data /\
  (zlen data = max \/ zlen data < max /\ m !! (a + zlen data) = Some Byte.x00).

Definition string_max (f : pb_field) : Z :=
  if PB_ATYPE (type f) =? PB_ATYPE_POINTER then SIZE_MAX else data_size f.

(** Tag and wire type in front of a field, or of a packed array. *)
Definition key (f : pb_field) (wire_type : Z) : list byte := varint (tag_value wire_type (tag f)).

Section wire.
Context {CB : Type} {OCB : OutputCallback CB}.
Notation E := (M (pb_ostream CB) unit).
Context (m : mem) (descriptors : Z -> option (list pb_field)).
Context (funcs_encode : Z -> pb_field -> Z -> E) (type_encode : Z -> Z -> E).

Definition all_zero (bs : list byte) : bool := forallb (fun b => u8 b =? 0) bs.

(** A has_ member. *)
Definition flag_at (a : Z) (b : bool) : Prop := exists c, m !! a = Some c /\ b = negb (u8 c =? 0).

Section default_wire.
Context (sub_default : pb_field -> Z -> bool -> Prop).

(** Whether a member without a flag or a count has the value of a fresh message:
    no bytes, an empty string, nothing but such members, no pointer, or zeros.
    Of a pointer to a number the code looks at no more bytes than the number has,
    so an address that begins with so many zeros is outside this description. *)
Inductive value_default (f : pb_field) (p : Z) : bool -> Prop :=
  | default_bytes n : PB_ATYPE (type f) = PB_ATYPE_STATIC -> PB_LTYPE (type f) = PB_LTYPE_BYTES ->
      load_pb_size m p = Some n -> value_default f p (n =? 0)
  | default_string c : PB_ATYPE (type f) = PB_ATYPE_STATIC -> PB_LTYPE (type f) = PB_LTYPE_STRING ->
      m !! p = Some c -> value_default f p (u8 c =? 0)
  | default_fixed : PB_ATYPE (type f) = PB_ATYPE_STATIC -> PB_LTYPE (type f) = PB_LTYPE_FIXED_LENGTH_BYTES ->
      value_default f p (data_size f =? 0)
  | default_message fields body offs ds : PB_ATYPE (type f) = PB_ATYPE_STATIC -> PB_LTYPE (type f) = PB_LTYPE_SUBMESSAGE ->
      descriptors (ptr f) = Some fields -> is_descriptor fields body -> laid_out body offs -> p <> 0 ->
      Forall3 (fun f o d => sub_default f (p + o) d) body offs ds -> value_default f p (forallb id ds)
  | default_null q : PB_ATYPE (type f) = PB_ATYPE_POINTER -> load_ptr m p = Some q ->
      (PB_LTYPE (type f) <= PB_LTYPE_LAST_PACKABLE -> 0 <= data_size f <= 8 /\ (q mod 2 ^ (8 * data_size f) = 0 -> q = 0)) ->
      value_default f p (q =? 0)
  | default_zeros bs : PB_ATYPE (type f) = PB_ATYPE_CALLBACK \/
        PB_ATYPE (type f) = PB_ATYPE_STATIC /\
        ~ In (PB_LTYPE (type f)) [PB_LTYPE_BYTES; PB_LTYPE_STRING; PB_LTYPE_FIXED_LENGTH_BYTES; PB_LTYPE_SUBMESSAGE] ->
      load_bytes m p (data_size f) = Some bs -> value_default f p (all_zero bs).

(** Whether a member of any rule has that value. *)
Inductive member_default (f : pb_field) (p : Z) : bool -> Prop :=
  | default_required : PB_HTYPE (type f) = PB_HTYPE_REQUIRED -> member_default f p false
  | default_counted n : PB_HTYPE (type f) = PB_HTYPE_REPEATED -> size_offset f <> 0 ->
      load_pb_size m (p + size_offset f) = Some n -> member_default f p (n =? 0)
  | default_array : PB_HTYPE (type f) = PB_HTYPE_REPEATED -> size_offset f = 0 -> PB_ATYPE (type f) = PB_ATYPE_STATIC ->
      member_default f p false
  | default_items d : PB_HTYPE (type f) = PB_HTYPE_REPEATED -> size_offset f = 0 -> PB_ATYPE (type f) <> PB_ATYPE_STATIC ->
      value_default f p d -> member_default f p d
  | default_oneof which : PB_HTYPE (type f) = PB_HTYPE_ONEOF -> load_pb_size m (p + size_offset f) = Some which ->
      member_default f p (which =? 0)
  | default_flag b : PB_HTYPE (type f) = PB_HTYPE_OPTIONAL -> size_offset f <> 0 -> flag_at (p + size_offset f) b ->
      member_default f p (negb b)
  | default_value d : PB_HTYPE (type f) = PB_HTYPE_OPTIONAL -> size_offset f = 0 -> value_default f p d ->
      member_default f p d.
End default_wire.

(** The same with submessages that nest to a depth below [n]. *)
Fixpoint has_default (n : nat) (f : pb_field) (p : Z) (d : bool) : Prop :=
  match n with O => False | S n => member_default (has_default n) f p d end.

Section message_wire.
(** The encoding of the messages one level down, and which of the fields
    without a has_ member count as absent. *)
Context (sub : list pb_field -> Z -> list byte -> Prop) (is_default : pb_field -> Z -> bool -> Prop).

(** The encoding of one item, without its key. *)
Inductive item_wire (f : pb_field) (src : Z) : list byte -> Prop :=
  | item_scalar bs wire :
      load_bytes m src (data_size f) = Some bs -> scalar_wire f bs wire -> item_wire f src wire
  | item_null : PB_LTYPE (type f) = PB_LTYPE_BYTES \/ PB_LTYPE (type f) = PB_LTYPE_STRING -> src = 0 ->
      item_wire f src (delimited [])
  | item_bytes n data : PB_LTYPE (type f) = PB_LTYPE_BYTES -> src <> 0 ->
      load_pb_size m src = Some n -> load_bytes m (src + 4) n = Some data ->
      (PB_ATYPE (type f) = PB_ATYPE_STATIC -> 4 <= data_size f < 2 ^ 32 /\ n <= data_size f - 4) ->
      item_wire f src (delimited data)
  | item_string data : PB_LTYPE (type f) = PB_LTYPE_STRING -> src <> 0 ->
      c_string m src (string_max f) data -> zlen data < 2 ^ 64 -> item_wire f src (delimited data)
  | item_submessage fields bs : PB_LTYPE (type f) = PB_LTYPE_SUBMESSAGE -> ptr f <> 0 ->
      descriptors (ptr f) = Some fields -> sub fields src bs -> zlen bs < 2 ^ 64 ->
      item_wire f src (delimited bs)
  | item_fixed data : PB_LTYPE (type f) = PB_LTYPE_FIXED_LENGTH_BYTES ->
      load_bytes m src (data_size f) = Some data -> zlen data < 2 ^ 64 -> item_wire f src (delimited data).

(** The items of an array from [p] on: without keys, and with keys. *)
Inductive packed_wire (f : pb_field) : Z -> nat -> list byte -> Prop :=
  | packed_nil p : packed_wire f p 0 []
  | packed_cons p n bs wire : item_wire f p bs -> packed_wire f (p + data_size f) n wire ->
      packed_wire f p (S n) (bs ++ wire).

(** An array of pointers to strings or bytes holds the addresses of its items. *)
Definition indirect (f : pb_field) : bool :=
  (PB_ATYPE (type f) =? PB_ATYPE_POINTER)
  && ((PB_LTYPE (type f) =? PB_LTYPE_STRING) || (PB_LTYPE (type f) =? PB_LTYPE_BYTES)).

Inductive unpacked_wire (f : pb_field) (wt : Z) : Z -> nat -> list byte -> Prop :=
  | unpacked_nil p : unpacked_wire f wt p 0 []
  | unpacked_cons p q n bs wire :
      (if indirect f then load_ptr m p = Some q else q = p) ->
      item_wire f q bs -> unpacked_wire f wt (p + data_size f) n wire ->
      unpacked_wire f wt p (S n) (key f wt ++ bs ++ wire).

(** Where the data of a field is: in the message, or where the message points. *)
Definition data_of (f : pb_field) (pData : Z) : option Z :=
  if PB_ATYPE (type f) =? PB_ATYPE_POINTER then load_ptr m pData else Some pData.

(** Whether an optional field is there. *)
Definition present (f : pb_field) (pData : Z) (b : bool) : Prop :=
  if negb (size_offset f =? 0) then flag_at (pData + size_offset f) b
  else if PB_ATYPE (type f) =? PB_ATYPE_POINTER then exists p, load_ptr m pData = Some p /\ b = negb (p =? 0)
  else exists d, is_default f pData d /\ b = negb d.

Definition count_of (f : pb_field) (pData : Z) : option Z :=
  if negb (size_offset f =? 0) then load_pb_size m (pData + size_offset f) else Some (array_size f).

Definition well_typed (f : pb_field) : Prop :=
  in_word 32 (tag f) /\ (PB_ATYPE (type f) = PB_ATYPE_STATIC \/ PB_ATYPE (type f) = PB_ATYPE_POINTER) /\
  (PB_ATYPE (type f) = PB_ATYPE_POINTER -> PB_LTYPE (type f) <= PB_LTYPE_LAST_PACKABLE -> data_size f <= 8).

Inductive field_wire (f : pb_field) (pData : Z) : list byte -> Prop :=
  | field_single src wt bs : well_typed f -> data_of f pData = Some src ->
      (PB_HTYPE (type f) = PB_HTYPE_REQUIRED /\ src <> 0 \/
       PB_HTYPE (type f) = PB_HTYPE_OPTIONAL /\ present f pData true \/
       PB_HTYPE (type f) = PB_HTYPE_ONEOF /\ size_offset f <> 0 /\ load_pb_size m (pData + size_offset f) = Some (tag f)) ->
      protocol_wire_type (PB_LTYPE (type f)) = Some wt -> item_wire f src bs ->
      field_wire f pData (key f wt ++ bs)
  | field_absent src wt : well_typed f -> data_of f pData = Some src -> protocol_wire_type (PB_LTYPE (type f)) = Some wt ->
      (PB_HTYPE (type f) = PB_HTYPE_OPTIONAL /\ present f pData false \/
       (exists other, PB_HTYPE (type f) = PB_HTYPE_ONEOF /\ size_offset f <> 0 /\
          load_pb_size m (pData + size_offset f) = Some other /\ other <> tag f) \/
       PB_HTYPE (type f) = PB_HTYPE_REPEATED /\ count_of f pData = Some 0) ->
      field_wire f pData []
  | field_packed src n bs : well_typed f -> data_of f pData = Some src -> PB_HTYPE (type f) = PB_HTYPE_REPEATED ->
      PB_LTYPE (type f) <= PB_LTYPE_LAST_PACKABLE -> count_of f pData = Some n -> 0 < n ->
      (PB_ATYPE (type f) = PB_ATYPE_STATIC -> n <= array_size f) ->
      packed_wire f src (Z.to_nat n) bs -> zlen bs < 2 ^ 64 -> 8 * n < 2 ^ 64 ->
      field_wire f pData (key f PB_WT_STRING ++ delimited bs)
  | field_unpacked src n wt bs : well_typed f -> data_of f pData = Some src -> PB_HTYPE (type f) = PB_HTYPE_REPEATED ->
      PB_LTYPE_LAST_PACKABLE < PB_LTYPE (type f) -> count_of f pData = Some n -> 0 < n ->
      (PB_ATYPE (type f) = PB_ATYPE_STATIC -> n <= array_size f) ->
      protocol_wire_type (PB_LTYPE (type f)) = Some wt -> unpacked_wire f wt src (Z.to_nat n) bs ->
      field_wire f pData bs
  | field_no_callback : PB_ATYPE (type f) = PB_ATYPE_CALLBACK -> load_ptr m pData = Some 0 -> field_wire f pData []
  | field_callback e bs : PB_ATYPE (type f) = PB_ATYPE_CALLBACK -> load_ptr m pData = Some e -> e <> 0 ->
      Emits (funcs_encode e f (pData + callback_arg)) bs -> field_wire f pData bs.

(** A list of [k] extensions. *)
Inductive extensions_wire : nat -> Z -> list byte -> Prop :=
  | extensions_nil : extensions_wire 0 0 []
  | extensions_cons k ext ty e next bs wire : ext <> 0 ->
      load_ptr m (ext + extension_type) = Some ty -> load_ptr m (ty + extension_type_encode) = Some e ->
      (if e =? 0 then exists arg f fields dest,
         load_ptr m (ty + extension_type_arg) = Some arg /\ descriptors arg = Some (f :: fields) /\
         load_ptr m (ext + extension_dest) = Some dest /\
         field_wire f (if PB_ATYPE (type f) =? PB_ATYPE_POINTER then ext + extension_dest else dest) bs
       else Emits (type_encode e ext) bs) ->
      load_ptr m (ext + extension_next) = Some next -> extensions_wire k next wire ->
      extensions_wire (S k) ext (bs ++ wire).

Inductive member_wire (f : pb_field) (pData : Z) (bs : list byte) : Prop :=
  | member_field : PB_LTYPE (type f) <> PB_LTYPE_EXTENSION -> field_wire f pData bs -> member_wire f pData bs
  | member_extensions k ext : PB_LTYPE (type f) = PB_LTYPE_EXTENSION -> load_ptr m pData = Some ext ->
      (k <= base.size m)%nat -> extensions_wire k ext bs -> member_wire f pData bs.

(** The members of a message at [dest] one after the other. *)
Inductive members_wire (dest : Z) : list pb_field -> list Z -> list byte -> Prop :=
  | members_nil : members_wire dest [] [] []
  | members_cons f o body offs bs wire : member_wire f (dest + o) bs -> members_wire dest body offs wire ->
      members_wire dest (f :: body) (o :: offs) (bs ++ wire).
End message_wire.

(** The encoding of a message whose submessages nest to a depth below [n]. *)
Fixpoint message_wire (n : nat) (fields : list pb_field) (src_struct : Z) (bs : list byte) : Prop :=
  match n with
  | O => False
  | S n => exists body offs, is_descriptor fields body /\ laid_out body offs /\ src_struct <> 0 /\
      members_wire (message_wire n) (has_default (S n)) src_struct body offs bs
  end.
End wire.

(** ** The encoder writes the wire encoding *)

(** *** Strings fit in memory *)

Lemma bytes_at_dom m a n i : length (bytes_at m a n) = n -> (i < n)%nat -> is_Some (m !! (a + Z.of_nat i)).
Proof.
  revert a i. induction n as [|n IH]; intros a i Hl Hi; [lia|]. cbn in Hl. destruct (m !! a) eqn:E; [|discriminate].
  destruct i as [|i]; [rewrite Z.add_0_r, E; eauto|]. injection Hl as Hl. specialize (IH (a + 1) i Hl ltac:(lia)).
  replace (a + Z.of_nat (S i)) with (a + 1 + Z.of_nat i) by lia. exact IH.
Qed.

Lemma bytes_at_size m a n : length (bytes_at m a n) = n -> (n <= base.size m)%nat.
Proof.
  intros H. pose (s := list_to_set (map (fun i => a + Z.of_nat i) (seq 0 n)) : gset Z).
  assert (Hs : base.size s = n).
  { unfold s. rewrite size_list_to_set, length_map, length_seq; [reflexivity|].
    apply NoDup_fmap_2; [intros i j; lia | apply NoDup_seq]. }
  rewrite <- Hs, <- size_dom. apply subseteq_size. intros x Hx. unfold s in Hx.
  apply elem_of_list_to_set, list_elem_of_In, in_map_iff in Hx as (i & <- & Hi). apply in_seq in Hi.
  apply elem_of_dom, (bytes_at_dom m a n); [exact H | lia].
Qed.

Lemma load_bytes_cons m a b bs n : load_bytes m a n = Some (b :: bs) -> m !! a = Some b /\ load_bytes m (a + 1) (n - 1) = Some bs.
Proof.
  intros H. apply load_bytes_zlen in H as [Hl H]. rewrite zlen_cons in Hl. pose proof (zlen_nonneg bs).
  replace (Z.to_nat n) with (S (Z.to_nat (n - 1))) in H by lia. cbn in H. destruct (m !! a) as [b'|]; [|discriminate].
  injection H as -> H. split; [reflexivity|]. rewrite load_bytes_Some; rewrite H; [reflexivity | lia].
Qed.

Lemma string_size_run m data : forall a max size fuel,
  load_bytes m a (zlen data) = Some data -> Forall (fun b => u8 b <> 0) data ->
  size + zlen data = max \/ size + zlen data < max /\ m !! (a + zlen data) = Some Byte.x00 ->
  (length data < fuel)%nat -> string_size m fuel a max size = Some (size + zlen data).
Proof.
  induction data as [|b data IH]; intros a max size [|fuel] Hl Hnz Hend Hf; cbn [string_size length] in *; try lia.
  - rewrite zlen_nil, !Z.add_0_r in *. destruct Hend as [->|[Hlt Hz]]; [rewrite Z.ltb_irrefl; reflexivity|].
    destruct (Z.ltb_spec size max); [|reflexivity]. rewrite Hz. reflexivity.
  - rewrite zlen_cons in *. pose proof (zlen_nonneg data). apply load_bytes_cons in Hl as [Hb Hl].
    destruct (Z.ltb_spec size max); [|lia]. rewrite Hb. apply Forall_cons in Hnz as [Hb0 Hnz].
    destruct (Z.eqb_spec (u8 b) 0); [contradiction|]. replace (1 + zlen data - 1) with (zlen data) in Hl by lia.
    rewrite (IH (a + 1) max (size + 1) fuel Hl Hnz); [f_equal; lia | | lia].
    destruct Hend as [Hend|[Hend Hz]]; [left; lia | right]. split; [lia|].
    replace (a + 1 + zlen data) with (a + (1 + zlen data)) by lia. exact Hz.
Qed.

(** *** Single items *)

Section emits.
Context {CB : Type} {OCB : OutputCallback CB}.
Notation E := (M (pb_ostream CB) unit).
Notation Em := (Emits (CB := CB)).

Lemma emits_known {A} (v : option A) a (k : A -> E) bs : v = Some a -> Em (k a) bs -> Em (bind (known v) k) bs.
Proof. intros -> H st Hst. exact (H st Hst). Qed.

Lemma emits_ret_bind {A} (a : A) (k : A -> E) bs : Em (k a) bs -> Em (bind (ret a) k) bs.
Proof. intros H st Hst. exact (H st Hst). Qed.

Lemma scalar_emits (m : mem) f src bs wire :
  load_bytes m src (data_size f) = Some bs -> scalar_wire f bs wire ->
  exists enc : pb_field -> list byte -> E,
    [pb_enc_bool; pb_enc_varint; pb_enc_uvarint; pb_enc_svarint; pb_enc_fixed32; pb_enc_fixed64]
      !! Z.to_nat (PB_LTYPE (type f)) = Some enc /\ Em (at_src m enc f src) wire.
Proof.
  intros Hl Hw. apply load_bytes_zlen in Hl as [Hsz Hbs]. unfold at_src.
  assert (Hn : forall n, length bs = n -> data_size f = Z.of_nat n) by (intros n <-; symmetry; exact Hsz).
  destruct Hw as [b Ht | n src' Ht Hi Hlen | n src' Ht Hi Hlen | n src' Ht Hi Hlen | src' Ht Hlen | src' Ht Hlen]; rewrite Ht;
    (eexists; split; [reflexivity|]); cbv beta; rewrite Hbs.
  - unfold pb_enc_bool. cbn [safe_read_bool load length Nat.ltb Nat.leb option_map take]. rewrite le_combine_1.
    replace (if negb (u8 b =? 0) then 1 else 0) with (if u8 b =? 0 then 0 else 1) by (destruct (u8 b =? 0); reflexivity).
    apply pb_encode_varint_emits. destruct (u8 b =? 0); unfold in_word; lia.
  - exact (proj1 (varint_field (CB := Empty_set) f n src' Hi Hlen (Hn n Hlen))).
  - exact (proj1 (uvarint_field (CB := Empty_set) f n src' Hi Hlen (Hn n Hlen))).
  - exact (proj1 (svarint_field (CB := Empty_set) f n src' Hi Hlen (Hn n Hlen))).
  - unfold pb_enc_fixed32, with_load. rewrite load_all by exact Hlen. rewrite <- (split_le_combine src') at 2. rewrite Hlen.
    apply pb_encode_fixed32_emits.
  - unfold pb_enc_fixed64, with_load. rewrite load_all by exact Hlen. rewrite <- (split_le_combine src') at 2. rewrite Hlen.
    apply pb_encode_fixed64_emits.
Qed.

Context (m : mem) (descriptors : Z -> option (list pb_field)).
Context (funcs_encode : Z -> pb_field -> Z -> E) (type_encode : Z -> Z -> E).
Context (sub : list pb_field -> Z -> list byte -> Prop) (is_default : pb_field -> Z -> bool -> Prop) (check_default : pb_field -> Z -> option bool).
Context (encode_sub : list pb_field -> Z -> E).
Context (Hsub : forall fields a bs, sub fields a bs -> Em (encode_sub fields a) bs).

Notation encoders := (PB_ENCODERS m descriptors encode_sub).

Lemma delimited_load a n data : load_bytes m a n = Some data -> zlen data < 2 ^ 64 ->
  Em (pb_encode_string (bytes_at m a (Z.to_nat n)) n) (delimited data).
Proof. intros H Hl. apply load_bytes_zlen in H as [<- ->]. apply pb_encode_string_emits, Hl. Qed.

Lemma item_emits f src bs func :
  item_wire m descriptors sub f src bs -> encoders !! Z.to_nat (PB_LTYPE (type f)) = Some func -> Em (func f src) bs.
Proof.
  intros Hi. destruct Hi as [mem wire Hl Hw | Ht -> | n data Ht Hsrc Hn Hd Hst | data Ht Hsrc Hs Hlen | fields bs Ht Hp Hd Hm Hlen | data Ht Hl Hlen].
  - destruct (scalar_emits m f src mem wire Hl Hw) as (enc & Henc & H). intros Hf.
    assert (func = at_src m enc) as ->; [|exact H].
    destruct (Z.to_nat (PB_LTYPE (type f))) as [|[|[|[|[|[|k]]]]]]; cbn in Henc, Hf; try congruence. discriminate.
  - destruct Ht as [Ht|Ht]; rewrite Ht; intros [= <-]; [exact (pb_encode_string_emits [] ltac:(rewrite zlen_nil; lia))|].
    unfold pb_enc_string. cbn [Z.eqb]. apply (emits_known _ 0 _ _ eq_refl).
    exact (pb_encode_string_emits [] ltac:(rewrite zlen_nil; lia)).
  - rewrite Ht. intros [= <-]. unfold pb_enc_bytes. destruct (Z.eqb_spec src 0); [contradiction|].
    apply (emits_known _ n _ _ Hn). destruct (Z.eqb_spec (PB_ATYPE (type f)) PB_ATYPE_STATIC) as [E|E]; cbn [andb].
    + destruct (Hst E) as [Hds Hle]. unfold bytes_array_bytes. rewrite wrap_small by (unfold in_word; lia).
      destruct (Z.ltb_spec (data_size f - 4) n); [lia|]. apply delimited_load; [exact Hd|]. apply load_bytes_zlen in Hd as [-> _]. lia.
    + apply delimited_load; [exact Hd|]. apply load_bytes_zlen in Hd as [-> _].
      unfold load_pb_size, load_int in Hn. destruct (load_bytes m src 4) as [bs|] eqn:Eb; [|discriminate]. injection Hn as <-.
      apply load_bytes_zlen in Eb as [Hz _]. destruct (le_combine_range bs) as [_ Hb]. rewrite Hz in Hb. lia.
  - rewrite Ht. intros [= <-]. unfold pb_enc_string. destruct (Z.eqb_spec src 0); [contradiction|]. destruct Hs as (Hl & Hnz & Hend).
    apply (emits_known _ (zlen data)).
    + rewrite (string_size_run m data src _ 0 _ Hl Hnz); [reflexivity | exact Hend|].
      pose proof (load_bytes_zlen _ _ _ _ Hl) as [_ Eb]. unfold zlen in Eb. rewrite Nat2Z.id in Eb.
      pose proof (bytes_at_size m src (length data) ltac:(rewrite Eb; reflexivity)). lia.
    + apply delimited_load; assumption.
  - rewrite Ht. intros [= <-]. unfold pb_enc_submessage. destruct (Z.eqb_spec (ptr f) 0); [contradiction|].
    apply (emits_known _ _ _ _ Hd). apply pb_encode_submessage_emits; [apply Hsub, Hm | exact Hlen].
  - rewrite Ht. intros [= <-]. unfold at_src. apply load_bytes_zlen in Hl as [Hz Hb]. cbn beta. rewrite Hb.
    unfold pb_enc_fixed_length_bytes. rewrite <- Hz. apply pb_encode_string_emits, Hlen.
Qed.

(** *** Arrays *)

Lemma protocol_wire_type_code l wt : protocol_wire_type l = Some wt -> wire_type_of_ltype l = Some wt.
Proof.
  unfold protocol_wire_type, wire_type_of_ltype. cbn [existsb]. rewrite !orb_false_r.
  repeat match goal with |- context [?a =? ?b] => destruct (Z.eqb_spec a b) as [->|_]; [intros [= <-]; reflexivity|] end. discriminate.
Qed.

Lemma key_emits f wt : in_word 32 (tag f) -> protocol_wire_type (PB_LTYPE (type f)) = Some wt ->
  Em (pb_encode_tag_for_field f) (key f wt).
Proof.
  intros Ht Hw%protocol_wire_type_code. unfold pb_encode_tag_for_field. rewrite Hw. apply pb_encode_tag_emits; [exact Ht|].
  unfold wire_type_of_ltype in Hw. unfold PB_WT_VARINT, PB_WT_32BIT, PB_WT_64BIT, PB_WT_STRING in Hw.
  repeat (destruct (_ || _) in Hw || destruct (_ =? _) in Hw); try discriminate; injection Hw as <-; lia.
Qed.

Lemma packed_emits f func p n bs :
  packed_wire m descriptors sub f p n bs -> encoders !! Z.to_nat (PB_LTYPE (type f)) = Some func ->
  Em (packed_items func f p n) bs.
Proof. induction 1; intros Hf; cbn [packed_items]; [apply emits_ret | apply emits_bind; [eapply item_emits; eauto | auto]]. Qed.

Lemma unpacked_emits f func wt p n bs :
  unpacked_wire m descriptors sub f wt p n bs -> encoders !! Z.to_nat (PB_LTYPE (type f)) = Some func ->
  in_word 32 (tag f) -> protocol_wire_type (PB_LTYPE (type f)) = Some wt ->
  Em (unpacked_items m func f p n) bs.
Proof.
  intros H Hf Ht Hw. induction H as [p|p q n bs wire Hq Hi Hrest IH]; cbn [unpacked_items]; [apply emits_ret|].
  apply emits_bind; [apply key_emits; assumption|]. apply emits_bind; [|exact IH].
  fold (indirect f). destruct (indirect f); [apply (emits_known _ q _ _ Hq) | subst q]; eapply item_emits; eauto.
Qed.

(** The sizing pass over a packed array. *)
Lemma emits_local {A} (e : E) bs (k : unit * pb_ostream CB -> M (pb_ostream CB) A) st :
  Em e bs -> zlen bs < 2 ^ 64 -> bind (local e PB_OSTREAM_SIZING) k st = k (tt, emit bs PB_OSTREAM_SIZING) st.
Proof. intros He Hl. unfold bind, local. rewrite He; [reflexivity|]. unfold fits. cbn. intuition lia. Qed.

(** A size that was counted first and bytes that are written after it. *)
Lemma emits_counted size (e : E) bs :
  Em e bs -> size = zlen bs -> zlen bs < 2 ^ 64 ->
  Em (pb_encode_varint size ;; stream <- get ;; if is_sizing stream then pb_write [] size else e) (delimited bs).
Proof.
  intros He -> Hl. pose proof (zlen_nonneg bs). apply emits_bind; [apply pb_encode_varint_emits; unfold in_word; lia|].
  intros st Hf. rewrite bind_get. destruct (is_sizing st) eqn:Es; [|apply He, Hf].
  rewrite pb_write_unfold, Es, andb_false_r. unfold o_count, emit, is_sizing in *. destruct Hf as [[Hw _] Hf].
  destruct (o_sink st); try discriminate. rewrite wrap_small by (unfold in_word; lia). reflexivity.
Qed.

Lemma packed_fixed_size f p n bs k :
  packed_wire m descriptors sub f p n bs -> (PB_LTYPE (type f) = PB_LTYPE_FIXED32 /\ k = 4 \/ PB_LTYPE (type f) = PB_LTYPE_FIXED64 /\ k = 8) ->
  zlen bs = k * Z.of_nat n.
Proof.
  intros H Hk. induction H as [p|p n bs wire Hi _ IH]; [rewrite zlen_nil; lia|]. rewrite zlen_app, IH.
  assert (zlen bs = k); [|lia]. destruct Hi as [mem0 w _ Hs| Ht _ | ? ? Ht | ? Ht | ? ? Ht | ? Ht];
    try (exfalso; destruct Hk as [[Hk _]|[Hk _]]; try (destruct Ht as [Ht|Ht]); rewrite Ht in Hk; discriminate).
  destruct Hs as [? Ht | ? ? Ht | ? ? Ht | ? ? Ht | ? Ht Hlen | ? Ht Hlen]; unfold zlen; destruct Hk as [[Hk ->]|[Hk ->]];
    rewrite Ht in Hk; first [discriminate | lia].
Qed.

Lemma packed_array_emits f func p n bs :
  packed_wire m descriptors sub f p (Z.to_nat n) bs -> encoders !! Z.to_nat (PB_LTYPE (type f)) = Some func ->
  in_word 32 (tag f) -> PB_LTYPE (type f) <= PB_LTYPE_LAST_PACKABLE -> 0 < n -> 8 * n < 2 ^ 64 -> zlen bs < 2 ^ 64 ->
  (PB_ATYPE (type f) = PB_ATYPE_POINTER \/ n <= array_size f) ->
  Em (encode_array m f p n func) (key f PB_WT_STRING ++ delimited bs).
Proof.
  intros H Hf Ht Hl Hn Hn8 Hlen Hmax. pose proof (packed_emits f func p _ bs H Hf) as He. unfold encode_array.
  destruct (Z.eqb_spec n 0); [lia|].
  replace (negb (PB_ATYPE (type f) =? PB_ATYPE_POINTER) && (array_size f <? n)) with false
    by (destruct Hmax as [->|]; [reflexivity | destruct (Z.ltb_spec (array_size f) n); [lia | symmetry; apply andb_false_r]]).
  destruct (Z.leb_spec (PB_LTYPE (type f)) PB_LTYPE_LAST_PACKABLE); [|lia].
  apply emits_bind; [apply pb_encode_tag_emits; [exact Ht | unfold PB_WT_STRING; lia]|].
  destruct (Z.eqb_spec (PB_LTYPE (type f)) PB_LTYPE_FIXED32).
  { apply emits_ret_bind, emits_counted; [exact He | | exact Hlen].
    rewrite (packed_fixed_size f p _ bs 4 H), wrap_small by (auto || (unfold in_word; lia)). lia. }
  destruct (Z.eqb_spec (PB_LTYPE (type f)) PB_LTYPE_FIXED64).
  { apply emits_ret_bind, emits_counted; [exact He | | exact Hlen].
    rewrite (packed_fixed_size f p _ bs 8 H), wrap_small by (auto || (unfold in_word; lia)). lia. }
  intros st Hst. unfold bind at 1. rewrite (emits_local _ bs _ _ He Hlen). cbn [ret o_bytes_written emit PB_OSTREAM_SIZING].
  apply (emits_counted (0 + zlen bs) _ bs He eq_refl Hlen st Hst).
Qed.

Lemma unpacked_array_emits f func wt p n bs :
  unpacked_wire m descriptors sub f wt p (Z.to_nat n) bs -> encoders !! Z.to_nat (PB_LTYPE (type f)) = Some func ->
  in_word 32 (tag f) -> protocol_wire_type (PB_LTYPE (type f)) = Some wt ->
  PB_LTYPE_LAST_PACKABLE < PB_LTYPE (type f) -> 0 < n ->
  (PB_ATYPE (type f) = PB_ATYPE_POINTER \/ n <= array_size f) ->
  Em (encode_array m f p n func) bs.
Proof.
  intros H Hf Ht Hw Hl Hn Hmax. unfold encode_array. destruct (Z.eqb_spec n 0); [lia|].
  replace (negb (PB_ATYPE (type f) =? PB_ATYPE_POINTER) && (array_size f <? n)) with false
    by (destruct Hmax as [->|]; [reflexivity | destruct (Z.ltb_spec (array_size f) n); [lia | symmetry; apply andb_false_r]]).
  destruct (Z.leb_spec (PB_LTYPE (type f)) PB_LTYPE_LAST_PACKABLE); [lia|]. eapply unpacked_emits; eassumption.
Qed.

(** *** Fields *)

Context (Hcheck : forall f pData, PB_ATYPE (type f) = PB_ATYPE_POINTER -> PB_HTYPE (type f) = PB_HTYPE_OPTIONAL -> size_offset f = 0 ->
  (PB_LTYPE (type f) <= PB_LTYPE_LAST_PACKABLE -> data_size f <= 8) -> is_Some (load_ptr m pData) -> is_Some (check_default f pData)).
Context (Hdefault : forall f pData d, is_default f pData d -> check_default f pData = Some d).

Notation is_present := (present m is_default).
Notation encode_field := (encode_field m descriptors funcs_encode encode_sub check_default).
Notation basic := (encode_basic_field m descriptors encode_sub check_default).
Notation by_rule := (encode_by_rule m).

Lemma encoders_total f wt : protocol_wire_type (PB_LTYPE (type f)) = Some wt ->
  exists func, encoders !! Z.to_nat (PB_LTYPE (type f)) = Some func.
Proof.
  intros H%protocol_wire_type_code. revert H. unfold wire_type_of_ltype. intros H.
  repeat match type of H with context [?a =? ?b] => destruct (Z.eqb_spec a b) as [->|_] end; cbn in H; try discriminate;
    eexists; reflexivity.
Qed.

Lemma flag_read (mm : mem) a b : flag_at mm a b -> safe_read_bool (bytes_at mm a 1) = Some b.
Proof. intros (c & Hc & ->). cbn [bytes_at]. rewrite Hc. destruct c; reflexivity. Qed.

(** Where the presence of the field is recorded. *)
Definition has_at (f : pb_field) (pData : Z) (pSize : bool + Z) : Prop :=
  if size_offset f =? 0
  then exists b, pSize = inl b /\ (PB_HTYPE (type f) = PB_HTYPE_OPTIONAL -> forall b', is_present f pData b' -> b' = b)
  else pSize = inr (pData + size_offset f).

Lemma basic_emits f pData src func bs :
  well_typed f -> data_of m f pData = Some src -> encoders !! Z.to_nat (PB_LTYPE (type f)) = Some func ->
  (PB_HTYPE (type f) = PB_HTYPE_OPTIONAL -> exists b, is_present f pData b) ->
  (forall pSize, has_at f pData pSize -> Em (by_rule f src pSize func) bs) ->
  Em (basic f pData) bs.
Proof.
  intros (_ & Hat & Hds) Hsrc Hf Hpr H. unfold encode_basic_field. apply (emits_known _ _ _ _ Hf).
  unfold has_at, present, data_of in *.
  destruct (Z.eqb_spec (PB_ATYPE (type f)) PB_ATYPE_POINTER) as [Hp|Hp].
  - destruct (Z.eqb_spec (size_offset f) 0) as [Ho|Ho]; cbn [negb] in *.
    + specialize (Hcheck f pData Hp).
      destruct (Z.eqb_spec (PB_HTYPE (type f)) PB_HTYPE_OPTIONAL) as [Eo|Eo].
      * destruct (Hcheck Eo Ho (Hds Hp) ltac:(rewrite Hsrc; eauto)) as [d Ed].
        rewrite Ed. apply (emits_ret_bind (inl (negb d))), (emits_known _ src _ _ Hsrc), H. eexists. split; [reflexivity|]. intros _ b' (p & Hp' & ->). congruence.
      * apply emits_ret_bind, (emits_known _ src _ _ Hsrc), H. eexists. split; [reflexivity|]. contradiction.
    + apply emits_ret_bind, (emits_known _ src _ _ Hsrc), H. reflexivity.
  - injection Hsrc as <-. destruct (Z.eqb_spec (size_offset f) 0) as [Ho|Ho]; cbn [negb] in *.
    + destruct (Z.eqb_spec (PB_HTYPE (type f)) PB_HTYPE_OPTIONAL) as [Eo|Eo].
      * destruct (Hpr Eo) as (b & d & Hd & ->). rewrite (Hdefault f pData d Hd).
        apply (emits_ret_bind (inl (negb d))), H. eexists. split; [reflexivity|]. intros _ b' (d' & Hd'%Hdefault & ->). rewrite (Hdefault f pData d Hd) in Hd'. congruence.
      * apply emits_ret_bind, H. eexists. split; [reflexivity|]. contradiction.
    + apply emits_ret_bind, H. reflexivity.
Qed.

Lemma read_has_emits f pData pSize b (k : bool -> E) bs :
  has_at f pData pSize -> PB_HTYPE (type f) = PB_HTYPE_OPTIONAL -> is_present f pData b -> Em (k b) bs ->
  Em (bind (read_has m pSize) k) bs.
Proof.
  unfold has_at. intros Hat Ho Hp Hk. destruct (Z.eqb_spec (size_offset f) 0) as [E|E].
  - destruct Hat as (b' & -> & Hb). rewrite (Hb Ho _ Hp) in Hk. apply emits_ret_bind, Hk.
  - subst pSize. apply (emits_known _ b); [|exact Hk]. unfold present in Hp.
    destruct (Z.eqb_spec (size_offset f) 0); [contradiction | apply flag_read, Hp].
Qed.

Lemma read_size_emits f pData pSize n (k : Z -> E) bs :
  has_at f pData pSize -> size_offset f <> 0 -> load_pb_size m (pData + size_offset f) = Some n -> Em (k n) bs ->
  Em (bind (read_pb_size m pSize) k) bs.
Proof.
  unfold has_at. intros Hat Ho Hp Hk. destruct (Z.eqb_spec (size_offset f) 0); [contradiction|]. subst pSize.
  exact (emits_known _ n _ _ Hp Hk).
Qed.

Lemma count_emits f pData pSize n (k : Z -> E) bs :
  has_at f pData pSize -> count_of m f pData = Some n -> Em (k n) bs ->
  Em (count <- (if negb (size_offset f =? 0) then read_pb_size m pSize else ret (array_size f)) ;; k count) bs.
Proof.
  unfold count_of. intros Hat Hn Hk. destruct (Z.eqb_spec (size_offset f) 0) as [E|E]; cbn [negb] in *.
  - injection Hn as <-. apply emits_ret_bind, Hk.
  - exact (read_size_emits f pData pSize n k bs Hat E Hn Hk).
Qed.

Notation field_wire := (field_wire m descriptors funcs_encode sub is_default).

(** The switch reduces to the branch of the rule. *)
Lemma by_rule_cases f p pSize func :
  by_rule f p pSize func =
    (let h := PB_HTYPE (type f) in
     if h =? PB_HTYPE_REQUIRED then if p =? 0 then o_return_error "missing required field" else pb_encode_tag_for_field f ;; func f p
     else if h =? PB_HTYPE_OPTIONAL then
       has <- read_has m pSize ;; if (has : bool) then pb_encode_tag_for_field f ;; func f p else ret tt
     else if h =? PB_HTYPE_REPEATED then
       count <- (if negb (size_offset f =? 0) then read_pb_size m pSize else ret (array_size f)) ;; encode_array m f p count func
     else if h =? PB_HTYPE_ONEOF then
       which <- read_pb_size m pSize ;; if which =? tag f then pb_encode_tag_for_field f ;; func f p else ret tt
     else o_return_error "invalid field type").
Proof. reflexivity. Qed.

Lemma field_emits f pData bs : field_wire f pData bs -> Em (encode_field f pData) bs.
Proof.
  intros H. unfold PbEncode.encode_field.
  assert (Hbasic : well_typed f -> Em (basic f pData) bs ->
    Em (if (PB_ATYPE (type f) =? PB_ATYPE_STATIC) || (PB_ATYPE (type f) =? PB_ATYPE_POINTER) then basic f pData
        else if PB_ATYPE (type f) =? PB_ATYPE_CALLBACK then encode_callback_field m funcs_encode f pData
        else o_return_error "invalid field type") bs).
  { intros (_ & [->| ->] & _) Hb; exact Hb. }
  destruct H as [src wt bs Hwt Hsrc Hrule Hw Hi | src wt Hwt Hsrc Hw Hrule | src n bs Hwt Hsrc Hr Hl Hn Hpos Hmax Hp Hlen Hn8
    | src n wt bs Hwt Hsrc Hr Hl Hn Hpos Hmax Hw Hp | Ha Hnull | e bs Ha He Hne Hem].
  - apply (Hbasic Hwt). destruct (encoders_total f wt Hw) as [func Hf].
    apply (basic_emits f pData src func _ Hwt Hsrc Hf).
    { intros Ho. destruct Hrule as [[Hr _]|[[_ Hp]|[Hr _]]]; [rewrite Hr in Ho; discriminate | eauto | rewrite Hr in Ho; discriminate]. }
    intros pSize Hat. rewrite by_rule_cases. cbv zeta.
    assert (Hgo : Em (pb_encode_tag_for_field f ;; func f src) (key f wt ++ bs)).
    { apply emits_bind; [apply key_emits; [apply Hwt | exact Hw] | exact (item_emits f src bs func Hi Hf)]. }
    destruct Hrule as [[Hr Hsrc0]|[[Hr Hp]|(Hr & Ho & Hwh)]]; rewrite Hr; cbn [Z.eqb].
    + destruct (Z.eqb_spec src 0); [contradiction | exact Hgo].
    + exact (read_has_emits f pData pSize true _ _ Hat Hr Hp Hgo).
    + apply (read_size_emits f pData pSize (tag f) _ _ Hat Ho Hwh). rewrite Z.eqb_refl. exact Hgo.
  - apply (Hbasic Hwt). destruct (encoders_total f wt Hw) as [func Hf].
    apply (basic_emits f pData src func _ Hwt Hsrc Hf).
    { intros Ho. destruct Hrule as [[_ Hp]|[(? & Hr & _)|[Hr _]]]; [eauto | rewrite Hr in Ho; discriminate..]. }
    intros pSize Hat. rewrite by_rule_cases. cbv zeta.
    destruct Hrule as [[Hr Hp]|[(other & Hr & Ho & Hwh & Hne)|[Hr Hn]]]; rewrite Hr; cbn [Z.eqb].
    + exact (read_has_emits f pData pSize false _ _ Hat Hr Hp emits_ret).
    + apply (read_size_emits f pData pSize other _ _ Hat Ho Hwh). destruct (Z.eqb_spec other (tag f)); [contradiction | apply emits_ret].
    + exact (count_emits f pData pSize 0 _ _ Hat Hn emits_ret).
  - apply (Hbasic Hwt). assert (Hf : exists func, encoders !! Z.to_nat (PB_LTYPE (type f)) = Some func).
    { apply lookup_lt_is_Some_2. cbn. unfold PB_LTYPE_LAST_PACKABLE in Hl. lia. }
    destruct Hf as [func Hf]. apply (basic_emits f pData src func _ Hwt Hsrc Hf).
    { intros Ho. rewrite Hr in Ho. discriminate. }
    intros pSize Hat. rewrite by_rule_cases. cbv zeta. rewrite Hr. cbn [Z.eqb].
    apply (count_emits f pData pSize n _ _ Hat Hn).
    apply packed_array_emits; try assumption; [apply Hwt | destruct Hwt as (_ & [Ha|Ha] & _); auto].
  - apply (Hbasic Hwt). destruct (encoders_total f wt Hw) as [func Hf].
    apply (basic_emits f pData src func _ Hwt Hsrc Hf).
    { intros Ho. rewrite Hr in Ho. discriminate. }
    intros pSize Hat. rewrite by_rule_cases. cbv zeta. rewrite Hr. cbn [Z.eqb].
    apply (count_emits f pData pSize n _ _ Hat Hn).
    apply (unpacked_array_emits f func wt); try assumption; [apply Hwt | destruct Hwt as (_ & [Ha|Ha] & _); auto].
  - rewrite Ha. cbn [Z.eqb orb]. unfold encode_callback_field, callback_funcs. rewrite Z.add_0_r.
    apply (emits_known _ 0 _ _ Hnull). apply emits_ret.
  - rewrite Ha. cbn [Z.eqb orb]. unfold encode_callback_field, callback_funcs. rewrite Z.add_0_r.
    apply (emits_known _ e _ _ He). destruct (Z.eqb_spec e 0); [contradiction|].
    intros st Hst. unfold or_error. rewrite (Hem st Hst). reflexivity.
Qed.

(** *** Extensions and whole messages *)

Notation extension_loop := (extension_loop m descriptors funcs_encode type_encode encode_sub check_default).
Notation encode_fields := (encode_fields m descriptors funcs_encode type_encode encode_sub check_default).

Lemma extensions_emits k ext bs :
  extensions_wire m descriptors funcs_encode type_encode sub is_default k ext bs ->
  forall fuel, (k < fuel)%nat -> Em (extension_loop fuel ext) bs.
Proof.
  induction 1 as [|k ext ty e next bs wire Hne Hty He Hone Hnext _ IH]; intros [|fuel] Hf; try lia; cbn [PbEncode.extension_loop].
  - apply emits_ret.
  - destruct (Z.eqb_spec ext 0); [contradiction|]. apply (emits_known _ ty _ _ Hty), (emits_known _ e _ _ He).
    apply emits_bind; [|apply (emits_known _ next _ _ Hnext), IH; lia].
    destruct (e =? 0); [|exact Hone]. destruct Hone as (arg & f & fields & dest & Harg & Hd & Hdest & Hw).
    unfold default_extension_encoder.
    apply (emits_known _ ty _ _ Hty), (emits_known _ arg _ _ Harg), (emits_known _ _ _ _ Hd), (emits_known _ f _ _ eq_refl).
    destruct (_ =? _); [apply field_emits, Hw | apply (emits_known _ dest _ _ Hdest), field_emits, Hw].
Qed.

Notation member_wire := (member_wire m descriptors funcs_encode type_encode sub is_default).

Lemma member_emits f pData bs : member_wire f pData bs ->
  Em (if PB_LTYPE (type f) =? PB_LTYPE_EXTENSION
      then encode_extension_field m descriptors funcs_encode type_encode encode_sub check_default f pData
      else encode_field f pData) bs.
Proof.
  intros [Hne Hf | k ext Ht He Hk Hx].
  - destruct (Z.eqb_spec (PB_LTYPE (type f)) PB_LTYPE_EXTENSION); [contradiction | apply field_emits, Hf].
  - rewrite Ht, Z.eqb_refl. unfold encode_extension_field. apply (emits_known _ ext _ _ He). apply (extensions_emits k ext bs Hx). lia.
Qed.

(** From the member the iterator stands at to the last one. *)
Lemma fields_emits body offs dest bs :
  Forall (fun f => tag f <> 0) body -> laid_out body offs -> dest <> 0 ->
  forall rest roffs i it fuel,
  members_wire m descriptors funcs_encode type_encode sub is_default dest rest roffs bs ->
  rest = drop i body -> roffs = drop i offs -> rest <> [] -> (length rest <= fuel)%nat ->
  iter_at (body ++ [PB_LAST_FIELD]) offs dest i it -> Em (encode_fields fuel it) bs.
Proof.
  intros Hb Hl Hd rest roffs i it fuel Hm. revert i it fuel.
  induction Hm as [|f o rest offs' b bs Hf Hm IH]; intros i it fuel Er Eo Hne Hfuel Hit; [contradiction|].
  destruct fuel as [|fuel]; [cbn in Hfuel; lia|]. cbn [PbEncode.encode_fields].
  assert (Hfi : body !! i = Some f) by (rewrite <- (Nat.add_0_r i), <- lookup_drop, <- Er; reflexivity).
  assert (Hoi : offs !! i = Some o) by (rewrite <- (Nat.add_0_r i), <- lookup_drop, <- Eo; reflexivity).
  pose proof Hit as (Es & Ep & _ & f' & o' & Hf' & Ho' & HD & _). rewrite Hoi in Ho'. injection Ho' as <-.
  rewrite (fields_body body i f Hfi) in Hf'. injection Hf' as <-.
  assert (Epos : iter_pos it = (Ok f, it)) by (unfold iter_pos; rewrite Es, Ep, (fields_body body i f Hfi); reflexivity).
  assert (Hlocal : forall (A : Type) (e : M pb_field_iter A) a it' (k : A * pb_field_iter -> E) bs',
    e it = (Ok a, it') -> Em (k (a, it')) bs' -> Em (bind (local e it) k) bs').
  { intros A e a it' k bs' E H st Hst. unfold bind, local. rewrite E. exact (H st Hst). }
  apply (Hlocal _ _ _ _ _ _ Epos). rewrite HD. apply emits_bind; [apply member_emits, Hf|].
  assert (Er' : rest = drop (S i) body) by (rewrite (drop_S _ f i) in Er by exact Hfi; congruence).
  assert (Eo' : offs' = drop (S i) offs) by (rewrite (drop_S _ o i) in Eo by exact Hoi; congruence).
  destruct rest as [|g rest].
  - assert (S i = length body). { pose proof (f_equal length Er') as E. rewrite length_drop in E. cbn in E. apply lookup_lt_Some in Hfi. lia. }
    destruct (next_wraps body offs dest Hb Hl Hd i it f Hit Hfi H) as (it' & E & _ & _).
    apply (Hlocal _ _ _ _ _ _ E). inversion Hm; subst. apply emits_ret.
  - assert (Hg : body !! S i = Some g) by (rewrite <- (Nat.add_0_r (S i)), <- lookup_drop, <- Er'; reflexivity).
    destruct (next_advances body offs dest Hb Hl i it f g Hit Hfi Hg) as (it' & E & Hit' & _).
    apply (Hlocal _ _ _ _ _ _ E). apply (IH (S i) it' fuel Er' Eo' ltac:(discriminate) ltac:(cbn in *; lia) Hit').
Qed.
End emits.

(** *** Whole messages *)

Lemma zero_bytes_mapped (m : mem) a n : length (bytes_at m a n) = n -> is_Some (zero_bytes m a n).
Proof.
  revert a. induction n as [|n IH]; intros a H; cbn in *; [eauto|]. destruct (m !! a) as [b|]; [|discriminate].
  destruct (u8 b =? 0); [apply IH; cbn in H; lia | eauto].
Qed.

(** *** Default values *)

Section defaults.
Context (m : mem) (descriptors : Z -> option (list pb_field)).
Notation check := (pb_check_proto3_default_value m descriptors).

Lemma zero_bytes_all k : forall p bs, bytes_at m p k = bs -> length bs = k -> zero_bytes m p k = Some (all_zero bs).
Proof.
  induction k as [|k IH]; intros p bs E Hl; cbn [bytes_at zero_bytes] in *; [subst; reflexivity|].
  destruct (m !! p) as [b|]; [|subst; discriminate]. subst bs. unfold all_zero. cbn [forallb]. injection Hl as Hl. destruct (u8 b =? 0); [|reflexivity].
  apply (IH (p + 1)); [reflexivity | exact Hl].
Qed.

Lemma zero_bytes_load p size bs : load_bytes m p size = Some bs -> zero_bytes m p (Z.to_nat size) = Some (all_zero bs).
Proof. intros [Hz E]%load_bytes_zlen. apply zero_bytes_all; [exact E | unfold zlen in Hz; lia]. Qed.

(** A number whose first [k] bytes are zeros. *)
Lemma all_zero_mod bs : all_zero bs = (le_combine bs =? 0).
Proof.
  induction bs as [|b bs IH]; [reflexivity|]. unfold all_zero in *. cbn [forallb]. rewrite IH. change (b :: bs) with ([b] ++ bs).
  rewrite le_combine_app, le_combine_1. change (Z.of_nat (length [b]) * 8) with 8. pose proof (u8_range b). destruct (le_combine_range bs) as [H0 _].
  rewrite Z.lor_comm, lor_shiftl_add by lia.
  destruct (Z.eqb_spec (u8 b) 0), (Z.eqb_spec (le_combine bs) 0); cbn [andb]; symmetry; [apply Z.eqb_eq | apply Z.eqb_neq | apply Z.eqb_neq | apply Z.eqb_neq]; lia.
Qed.

Lemma pointer_zeros p q k : load_ptr m p = Some q -> 0 <= k <= 8 ->
  zero_bytes m p (Z.to_nat k) = Some (q mod 2 ^ (8 * k) =? 0).
Proof.
  intros H Hk. unfold load_ptr, load_int in H. destruct (load_bytes m p sizeof_ptr) as [bs|] eqn:Eb; [|discriminate]. injection H as <-.
  apply load_bytes_zlen in Eb as [Hz Eb]. unfold zlen, sizeof_ptr in *.
  rewrite (zero_bytes_all (Z.to_nat k) p (take (Z.to_nat k) bs)).
  - rewrite all_zero_mod. do 2 f_equal. rewrite <- (take_drop (Z.to_nat k) bs) at 2. rewrite le_combine_app, length_take_le by lia.
    destruct (le_combine_range (take (Z.to_nat k) bs)) as [H0 H1]. unfold zlen in H1. rewrite length_take_le in H1 by lia.
    rewrite Z2Nat.id in * by lia. rewrite (Z.mul_comm k 8), Z.lor_comm, lor_shiftl_add by lia. rewrite Z.add_comm, Z_mod_plus_full, Z.mod_small by lia. reflexivity.
  - rewrite <- Eb. symmetry. apply bytes_at_take. lia.
  - apply length_take_le. lia.
Qed.

Lemma loop_default (sub : pb_field -> Z -> bool -> Prop) check_sub body offs dest :
  (forall f p d, sub f p d -> check_sub f p = Some d) -> Forall (fun f => tag f <> 0) body -> laid_out body offs -> dest <> 0 ->
  forall rest roffs ds i it fuel, Forall3 (fun f o d => sub f (dest + o) d) rest roffs ds ->
  rest = drop i body -> roffs = drop i offs -> rest <> [] -> (length rest <= fuel)%nat ->
  iter_at (body ++ [PB_LAST_FIELD]) offs dest i it -> default_loop check_sub fuel it = Some (forallb id ds).
Proof.
  intros Hsub Hb Hl Hd rest roffs ds i it fuel H. revert i it fuel.
  induction H as [|f o d rest roffs ds Hf Hrest IH]; intros i it fuel Er Eo Hne Hfuel Hit; [contradiction|].
  destruct fuel as [|fuel]; [cbn in Hfuel; lia|]. cbn [default_loop].
  assert (Hfi : body !! i = Some f) by (rewrite <- (Nat.add_0_r i), <- lookup_drop, <- Er; reflexivity).
  assert (Hoi : offs !! i = Some o) by (rewrite <- (Nat.add_0_r i), <- lookup_drop, <- Eo; reflexivity).
  pose proof Hit as (Es & Ep & _ & f' & o' & Hf' & Ho' & HD & _). rewrite Hoi in Ho'. injection Ho' as <-.
  rewrite (fields_body body i f Hfi) in Hf'. injection Hf' as <-.
  assert (Epos : iter_pos it = (Ok f, it)) by (unfold iter_pos; rewrite Es, Ep, (fields_body body i f Hfi); reflexivity).
  rewrite Epos, HD, (Hsub _ _ _ Hf). cbn [forallb]. unfold id at 1. destruct d; [|reflexivity]. cbn [andb].
  assert (Er' : rest = drop (S i) body) by (rewrite (drop_S _ f i) in Er by exact Hfi; congruence).
  assert (Eo' : roffs = drop (S i) offs) by (rewrite (drop_S _ o i) in Eo by exact Hoi; congruence).
  destruct rest as [|g rest].
  - assert (S i = length body). { pose proof (f_equal length Er') as E. rewrite length_drop in E. cbn in E. apply lookup_lt_Some in Hfi. lia. }
    destruct (next_wraps body offs dest Hb Hl Hd i it f Hit Hfi H) as (it' & -> & _ & _).
    inversion Hrest; subst. reflexivity.
  - assert (Hg : body !! S i = Some g) by (rewrite <- (Nat.add_0_r (S i)), <- lookup_drop, <- Er'; reflexivity).
    destruct (next_advances body offs dest Hb Hl i it f g Hit Hfi Hg) as (it' & -> & Hit' & _).
    apply (IH (S i) it' fuel Er' Eo' ltac:(discriminate) ltac:(cbn in *; lia) Hit').
Qed.

(** The code decides what the description says. *)
Lemma default_code n : forall f p d, has_default m descriptors n f p d -> check n f p = Some d.
Proof.
  induction n as [|n IH]; intros f p d H; [contradiction|].
  assert (Hv : forall d, value_default m descriptors (has_default m descriptors n) f p d ->
    (let ty := type f in
     if (PB_ATYPE ty =? PB_ATYPE_STATIC) && (PB_LTYPE ty =? PB_LTYPE_BYTES) then option_map (Z.eqb 0) (load_pb_size m p)
     else if (PB_ATYPE ty =? PB_ATYPE_STATIC) && (PB_LTYPE ty =? PB_LTYPE_STRING) then option_map (fun b => u8 b =? 0) (m !! p)
     else if (PB_ATYPE ty =? PB_ATYPE_STATIC) && (PB_LTYPE ty =? PB_LTYPE_FIXED_LENGTH_BYTES) then Some (data_size f =? 0)
     else if (PB_ATYPE ty =? PB_ATYPE_STATIC) && (PB_LTYPE ty =? PB_LTYPE_SUBMESSAGE) then
       match descriptors (ptr f) with
       | None => None
       | Some fields =>
           match pb_field_iter_begin fields p no_iter with
           | (Ok true, it) => default_loop (check n) (length fields) it
           | (Ok false, _) => Some true
           | _ => None
           end
       end
     else if (PB_ATYPE ty =? PB_ATYPE_POINTER) && (PB_LTYPE_LAST_PACKABLE <? PB_LTYPE ty) then option_map (Z.eqb 0) (load_ptr m p)
     else zero_bytes m p (Z.to_nat (data_size f))) = Some d).
  { clear H d. intros d H. cbv zeta. destruct H as [k Ha Ht Hk|c Ha Ht Hc|Ha Ht|fields body offs ds Ha Ht Hfs [-> Htags] Hlay Hp Hds|q Ha Hq Hsmall|bs Ha Hl].
    - rewrite Ha, Ht, Hk. cbn. rewrite Z.eqb_sym. reflexivity.
    - rewrite Ha, Ht, Hc. reflexivity.
    - rewrite Ha, Ht. reflexivity.
    - rewrite Ha, Ht, Hfs. cbn [Z.eqb Pos.eqb andb PB_ATYPE_STATIC PB_LTYPE_SUBMESSAGE PB_LTYPE_BYTES PB_LTYPE_STRING PB_LTYPE_FIXED_LENGTH_BYTES].
      destruct body as [|g body].
      + inversion Hds; subst. unfold pb_field_iter_begin, iter_pos, bind, put. cbn. destruct (p =? 0); reflexivity.
      + destruct (begin_at_first (g :: body) offs p Htags Hlay Hp no_iter g eq_refl) as (it & Eb & Hit & _). rewrite Eb.
        refine (loop_default (has_default m descriptors n) _ (g :: body) offs p IH Htags Hlay Hp (g :: body) offs ds 0 it _ Hds eq_refl eq_refl _ _ Hit); [discriminate | rewrite length_app; lia].
    - rewrite Ha. change (PB_ATYPE_POINTER =? PB_ATYPE_STATIC) with false. change (PB_ATYPE_POINTER =? PB_ATYPE_POINTER) with true. cbn [andb].
      destruct (Z.ltb_spec PB_LTYPE_LAST_PACKABLE (PB_LTYPE (type f))) as [Hl|Hl]; [rewrite Hq; cbn; rewrite Z.eqb_sym; reflexivity|].
      destruct (Hsmall Hl) as [Hd Hz]. rewrite (pointer_zeros p q _ Hq Hd). f_equal.
      destruct (Z.eqb_spec q 0) as [->|Hne]; [rewrite Zmod_0_l; reflexivity|]. apply Z.eqb_neq. intros E. exact (Hne (Hz E)).
    - rewrite (zero_bytes_load _ _ _ Hl). destruct Ha as [Ha|[Ha Hin]]; rewrite Ha; [reflexivity|].
      change (PB_ATYPE_STATIC =? PB_ATYPE_STATIC) with true. change (PB_ATYPE_STATIC =? PB_ATYPE_POINTER) with false. cbn [andb].
      cbn [In] in Hin. repeat match goal with |- context [PB_LTYPE (type f) =? ?l] => destruct (Z.eqb_spec (PB_LTYPE (type f)) l); [exfalso; apply Hin; auto|] end. reflexivity. }
  cbn [pb_check_proto3_default_value]. cbv zeta in Hv.
  destruct H as [Hh|k Hh Hs Hk|Hh Hs Ha|d Hh Hs Ha H|k Hh Hk|b Hh Hs Hb|d Hh Hs H]; rewrite Hh;
    cbn [Z.eqb Pos.eqb andb PB_HTYPE_REQUIRED PB_HTYPE_REPEATED PB_HTYPE_OPTIONAL PB_HTYPE_ONEOF].
  - reflexivity.
  - rewrite (proj2 (Z.eqb_neq _ _) Hs). cbn [negb]. rewrite Hk. cbn. rewrite Z.eqb_sym. reflexivity.
  - rewrite Hs, Ha. reflexivity.
  - rewrite Hs, (proj2 (Z.eqb_neq _ _) Ha). cbn [Z.eqb negb]. pose proof (Hv d H) as E. rewrite (proj2 (Z.eqb_neq _ _) Ha) in E. exact E.
  - rewrite Hk. cbn. rewrite Z.eqb_sym. reflexivity.
  - rewrite (proj2 (Z.eqb_neq _ _) Hs). cbn [negb]. rewrite (flag_read m _ b Hb). reflexivity.
  - rewrite Hs. cbn [Z.eqb negb]. exact (Hv d H).
Qed.
End defaults.

Section messages.
Context {CB : Type} {OCB : OutputCallback CB}.
Notation E := (M (pb_ostream CB) unit).
Notation Em := (Emits (CB := CB)).
Context (m : mem) (descriptors : Z -> option (list pb_field)).
Context (funcs_encode : Z -> pb_field -> Z -> E) (type_encode : Z -> Z -> E).
Notation wire := (message_wire m descriptors funcs_encode type_encode).
Notation encode := (pb_encode m descriptors funcs_encode type_encode).
Notation default := (pb_check_proto3_default_value m descriptors).

(** For a pointer the comparison with zero reads the pointer, or less. *)
Lemma default_pointer n f pData :
  PB_ATYPE (type f) = PB_ATYPE_POINTER -> PB_HTYPE (type f) = PB_HTYPE_OPTIONAL -> size_offset f = 0 ->
  (PB_LTYPE (type f) <= PB_LTYPE_LAST_PACKABLE -> data_size f <= 8) -> is_Some (load_ptr m pData) ->
  is_Some (default (S n) f pData).
Proof.
  intros Ha Hh Ho Hd [p Hp]. cbn [pb_check_proto3_default_value]. rewrite Ha, Hh, Ho. cbn [Z.eqb negb andb].
  change (PB_HTYPE_OPTIONAL =? PB_HTYPE_REQUIRED) with false. change (PB_HTYPE_OPTIONAL =? PB_HTYPE_REPEATED) with false.
  change (PB_HTYPE_OPTIONAL =? PB_HTYPE_ONEOF) with false. change (PB_ATYPE_POINTER =? PB_ATYPE_STATIC) with false. cbn [andb].
  change (PB_ATYPE_POINTER =? PB_ATYPE_POINTER) with true. cbn [andb]. rewrite andb_false_r.
  destruct (Z.ltb_spec PB_LTYPE_LAST_PACKABLE (PB_LTYPE (type f))) as [Hl|Hl]; [rewrite Hp; eauto|].
  apply zero_bytes_mapped. unfold load_ptr, load_int in Hp. destruct (load_bytes m pData sizeof_ptr) as [bs|] eqn:Eb; [|discriminate].
  apply load_bytes_zlen in Eb as [Hz Eb]. specialize (Hd Hl).
  rewrite <- (bytes_at_take m pData (Z.to_nat sizeof_ptr)) by (unfold sizeof_ptr; lia).
  rewrite Eb, length_take. unfold zlen, sizeof_ptr in Hz. lia.
Qed.

Lemma pb_encode_emits n : forall fields src_struct bs, wire n fields src_struct bs -> Em (encode n fields src_struct) bs.
Proof.
  induction n as [|n IH]; intros fields dest bs; [contradiction|]. cbn [message_wire pb_encode].
  intros (body & offs & [-> Htags] & Hlay & Hd & Hm).
  destruct body as [|f body].
  - inversion Hm; subst. intros st Hst. unfold bind, local, pb_field_iter_begin, put, iter_pos. cbn.
    destruct (dest =? 0); cbn; rewrite emit_nil; reflexivity.
  - destruct (begin_at_first (f :: body) offs dest Htags Hlay Hd no_iter f eq_refl) as (it & Eb & Hit & _).
    intros st Hst. unfold bind at 1, local at 1. rewrite Eb. cbn [negb].
    refine (fields_emits m descriptors funcs_encode type_encode _ _ _ _ IH (default_pointer n) (default_code m descriptors (S n)) (f :: body) offs dest bs Htags Hlay Hd
      (f :: body) offs 0 it _ Hm eq_refl eq_refl _ _ Hit st Hst); [discriminate | cbn; rewrite length_app; lia].
Qed.

(** C2: [pb_encode] writes the wire encoding of a message, whatever its field
    types, allocation and nesting: the sizing pass counts exactly its length,
    a buffer at least that long receives exactly its bytes, and the delimited
    and NUL-terminated forms add the length in front and the zero behind.  A
    member that has no flag and no count is sent unless it has its default value,
    described by type; the encoding of a submessage with a pointer to a number is
    described as long as the address does not begin with as many zero bytes as the
    number has, since the code then takes it for NULL. *)
Theorem pb_encode_wire n fields src_struct bs (buf : list byte) :
  wire n fields src_struct bs -> zlen buf < 2 ^ 64 -> zlen bs <= zlen buf ->
  pb_get_encoded_size m descriptors funcs_encode type_encode n fields src_struct = Ok (zlen bs) /\
  encode n fields src_struct (pb_ostream_from_buffer buf (zlen buf)) =
    (Ok tt, mk_ostream (buf_sink bs (zlen buf - zlen bs)) (zlen buf) (zlen bs) None) /\
  Em (pb_encode_delimited m descriptors funcs_encode type_encode n fields src_struct) (delimited bs) /\
  Em (pb_encode_nullterminated m descriptors funcs_encode type_encode n fields src_struct) (bs ++ [Byte.x00]).
Proof.
  intros Hw Hbuf Hfit. pose proof (pb_encode_emits n fields src_struct bs Hw) as He. pose proof (zlen_nonneg bs). repeat split.
  - unfold pb_get_encoded_size. rewrite He by (unfold fits; cbn; intuition lia). reflexivity.
  - rewrite He by (unfold fits; cbn; intuition lia). reflexivity.
  - apply pb_encode_submessage_emits; [exact He | lia].
  - apply emits_bind; [exact He | apply pb_write_all_emits].
Qed.

(** A message in memory has only one encoding. *)
Lemma message_wire_unique n fields src_struct bs1 bs2 :
  wire n fields src_struct bs1 -> wire n fields src_struct bs2 -> zlen bs1 + zlen bs2 < 2 ^ 64 -> bs1 = bs2.
Proof.
  intros H1%pb_encode_emits H2%pb_encode_emits Hl. pose proof (zlen_nonneg bs1). pose proof (zlen_nonneg bs2).
  pose (st := mk_ostream (CB := CB) (buf_sink [] (zlen bs1 + zlen bs2)) (zlen bs1 + zlen bs2) 0 None).
  assert (E : emit bs1 st = emit bs2 st).
  { specialize (H1 st ltac:(unfold fits; cbn; intuition lia)). specialize (H2 st ltac:(unfold fits; cbn; intuition lia)). congruence. }
  unfold emit in E. cbn in E. congruence.
Qed.
End messages.

(** ** A Firestore value: an array of an integer and a string *)

(** [google_firestore_v1_Value], of which three of the members, and
    [google_firestore_v1_ArrayValue], which refer to each other. *)
Definition Value_fields : list pb_field := [
  mk_field 2 (PB_ATYPE_STATIC + PB_HTYPE_ONEOF + PB_LTYPE_VARINT) 8 (-8) 8 0 0;
  mk_field 9 (PB_ATYPE_STATIC + PB_HTYPE_ONEOF + PB_LTYPE_SUBMESSAGE) PB_SIZE_MAX (-8) 16 0 2000;
  mk_field 17 (PB_ATYPE_POINTER + PB_HTYPE_ONEOF + PB_LTYPE_BYTES) PB_SIZE_MAX (-8) 8 0 0 ].
Definition ArrayValue_fields : list pb_field := [
  mk_field 1 (PB_ATYPE_POINTER + PB_HTYPE_REPEATED + PB_LTYPE_SUBMESSAGE) 8 (-8) 24 0 1000 ].

Definition value_descriptors (a : Z) : option (list pb_field) :=
  if a =? 1000 then Some (Value_fields ++ [PB_LAST_FIELD])
  else if a =? 2000 then Some (ArrayValue_fields ++ [PB_LAST_FIELD]) else None.

(** The value at 100, the two items of its array from 200 on, and the bytes of
    the string at 300. *)
Definition value_memory : mem :=
  store_bytes (store_bytes (store_bytes (store_bytes ∅
    100 (le_split 8 9 ++ le_split 8 2 ++ le_split 8 200))
    200 (le_split 8 2 ++ le_split 8 150 ++ le_split 8 0))
    224 (le_split 8 17 ++ le_split 8 300 ++ le_split 8 0))
    300 (le_split 4 2 ++ [Byte.x68; Byte.x69]).

Definition no_callback : Z -> pb_field -> Z -> M (pb_ostream Empty_set) unit := fun _ _ _ => stuck.
Definition no_extension : Z -> Z -> M (pb_ostream Empty_set) unit := fun _ _ => stuck.
Notation value_wire := (message_wire value_memory value_descriptors no_callback no_extension).

Definition example_int : list byte := varint (tag_value 0 2) ++ varint 150.
Definition example_string : list byte := varint (tag_value 2 17) ++ delimited [Byte.x68; Byte.x69].
Definition example_array : list byte :=
  varint (tag_value 2 1) ++ delimited example_int ++ varint (tag_value 2 1) ++ delimited example_string.
Definition example_value : list byte := varint (tag_value 2 9) ++ delimited example_array.

Lemma value_tags : is_descriptor (Value_fields ++ [PB_LAST_FIELD]) Value_fields.
Proof. split; [reflexivity|]. repeat constructor; discriminate. Qed.
Lemma value_laid_out : laid_out Value_fields [8; 8; 8].
Proof. vm_compute. repeat split. Qed.

Ltac typed := repeat split; first [(left; reflexivity) | (right; reflexivity) | (intros; vm_compute in *; first [lia | congruence])].
(** A member of a oneof: the one that is set, or another one. *)
Ltac oneof_other := apply member_field; [discriminate|];
  eapply field_absent; [typed | reflexivity | reflexivity | right; left; eexists; repeat split; (reflexivity || discriminate)].
Ltac oneof_set := apply member_field; [discriminate|];
  eapply field_single; [typed | reflexivity | right; right; repeat split; (reflexivity || discriminate) | reflexivity |].

Lemma value_int_wire n : value_wire (S n) (Value_fields ++ [PB_LAST_FIELD]) 200 example_int.
Proof.
  exists Value_fields, [8; 8; 8]. split; [apply value_tags|]. split; [apply value_laid_out|]. split; [discriminate|].
  replace example_int with (example_int ++ [] ++ [] ++ []) by (rewrite !app_nil_r; reflexivity).
  repeat apply members_cons; [oneof_set | oneof_other | oneof_other | apply members_nil].
  eapply item_scalar; [reflexivity|].
  apply (wire_varint _ 8); [reflexivity | constructor | reflexivity].
Qed.

Lemma value_string_wire n : value_wire (S n) (Value_fields ++ [PB_LAST_FIELD]) 224 example_string.
Proof.
  exists Value_fields, [8; 8; 8]. split; [apply value_tags|]. split; [apply value_laid_out|]. split; [discriminate|].
  replace example_string with ([] ++ [] ++ example_string ++ []) by (rewrite !app_nil_r; reflexivity).
  repeat apply members_cons; [oneof_other | oneof_other | oneof_set | apply members_nil].
  eapply item_bytes; [reflexivity | discriminate | reflexivity | reflexivity | discriminate].
Qed.

Lemma value_array_wire n : value_wire (S (S n)) (ArrayValue_fields ++ [PB_LAST_FIELD]) 108 example_array.
Proof.
  exists ArrayValue_fields, [8]. split; [split; [reflexivity|]; repeat constructor; discriminate|].
  split; [vm_compute; auto|]. split; [discriminate|].
  replace example_array with (example_array ++ []) by apply app_nil_r.
  apply members_cons; [|apply members_nil]. apply member_field; [discriminate|].
  eapply (field_unpacked _ _ _ _ _ _ _ 200 2 2); [typed | reflexivity.. | discriminate | reflexivity |].
  change (Z.to_nat 2) with 2%nat. unfold example_array.
  replace (delimited example_string) with (delimited example_string ++ []) by apply app_nil_r.
  change (varint (tag_value 2 1)) with (key (mk_field 1 (PB_ATYPE_POINTER + PB_HTYPE_REPEATED + PB_LTYPE_SUBMESSAGE) 8 (-8) 24 0 1000) 2).
  apply (unpacked_cons _ _ _ _ _ 200 200); [reflexivity | | apply (unpacked_cons _ _ _ _ _ 224 224); [reflexivity | | apply unpacked_nil]].
  - eapply item_submessage; [reflexivity | discriminate | reflexivity | apply value_int_wire | reflexivity].
  - eapply item_submessage; [reflexivity | discriminate | reflexivity | apply value_string_wire | reflexivity].
Qed.

Lemma value_value_wire : value_wire 3 (Value_fields ++ [PB_LAST_FIELD]) 100 example_value.
Proof.
  exists Value_fields, [8; 8; 8]. split; [apply value_tags|]. split; [apply value_laid_out|]. split; [discriminate|].
  replace example_value with ([] ++ example_value ++ [] ++ []) by (rewrite !app_nil_r; reflexivity).
  repeat apply members_cons; [oneof_other | oneof_set | oneof_other | apply members_nil].
  eapply item_submessage; [reflexivity | discriminate | reflexivity | apply value_array_wire | reflexivity].
Qed.

Lemma pb_encode_wire_witness :
  pb_get_encoded_size value_memory value_descriptors no_callback no_extension 3 (Value_fields ++ [PB_LAST_FIELD]) 100 = Ok 14 /\
  pb_encode value_memory value_descriptors no_callback no_extension 3 (Value_fields ++ [PB_LAST_FIELD]) 100
    (pb_ostream_from_buffer (zeros 20) 20) =
    (Ok tt, mk_ostream (buf_sink example_value 6) 20 14 None).
Proof.
  destruct (pb_encode_wire value_memory value_descriptors no_callback no_extension 3 _ 100 example_value (zeros 20) value_value_wire)
    as (H1 & H2 & _); [reflexivity | discriminate | split; [exact H1 | exact H2]].
Defined.

(** ** A default that is not one *)

(** A message whose only member is a submessage with a pointer to a bool. *)
Definition Flag_fields : list pb_field := [
  mk_field 1 (PB_ATYPE_POINTER + PB_HTYPE_OPTIONAL + PB_LTYPE_BOOL) 0 0 1 0 0 ].
Definition Holder_fields : list pb_field := [
  mk_field 1 (PB_ATYPE_STATIC + PB_HTYPE_OPTIONAL + PB_LTYPE_SUBMESSAGE) 0 0 8 0 3000 ].
Definition flag_descriptors (a : Z) : option (list pb_field) :=
  if a =? 3000 then Some (Flag_fields ++ [PB_LAST_FIELD]) else None.
(** The pointer at 16, the bool, which is true, at [a]. *)
Definition flag_memory (a : Z) : mem := store_bytes (<[a := Byte.x01]> ∅) 16 (le_split 8 a).

(** the comparison of a pointer to a number with NULL looks at as many bytes
    of the pointer as the number has, so a submessage whose bool is at an address
    with a low byte of zero is taken for empty and not sent, while the same
    bool at the next address is. *)
Theorem pointer_taken_for_null :
  let size a := pb_get_encoded_size (flag_memory a) flag_descriptors no_callback no_extension 3 (Holder_fields ++ [PB_LAST_FIELD]) 16 in
  size 512 = Ok 0 /\ size 513 = Ok 4.
Proof. vm_compute. split; reflexivity. Qed.
