(* ===== verification/PbAdvance.v ===== *)
(** Input streams only move forward: a reader, whatever it returns, leaves the
    stream in order, with no more bytes to read than before and no less of its
    memory unread behind them.  That is what lets a substream be closed. *)
From Stdlib Require Import ZArith Lia Bool.
From coqutil Require Import Byte.
From stdpp Require Import base list numbers.
From S2P Require Import Prelude PbStream PbCodec PbSpec.
Local Open Scope Z_scope.
Local Open Scope c_scope.

Section advance.
Context {CB : Type} {ICB : InputCallback CB}.
Notation D := (M (pb_istream CB)).

(** The stream is in order, and behind what it may read there are at least [K]
    more bytes of memory. *)
Definition in_order (K : Z) (s : pb_istream CB) : Prop :=
  0 <= K /\ istream_ok s /\
  match i_source s with buf_source mem => K + i_bytes_left s <= zlen mem | user_source _ => True end.

Definition advances (K : Z) (s s' : pb_istream CB) : Prop := in_order K s' /\ i_bytes_left s' <= i_bytes_left s.

Lemma in_order_ok K s : in_order K s -> istream_ok s.
Proof. intros H. apply H. Qed.

Lemma advances_refl K s : in_order K s -> advances K s s.
Proof. intros H. split; [exact H | lia]. Qed.

Lemma advances_trans K s1 s2 s3 : advances K s1 s2 -> advances K s2 s3 -> advances K s1 s3.
Proof. intros (_ & H1) (H & H2). split; [exact H | lia]. Qed.

(** [m] keeps to this, stuck or not. *)
Definition keeps {A} (m : D A) : Prop := forall K s, in_order K s -> advances K s (snd (m s)).
Definition shrinks {A} (m : D A) : Prop := forall K s, in_order K s -> fst (m s) <> Stuck /\ advances K s (snd (m s)).

Lemma safe_shrinks {A} (m : D A) : safe istream_ok m -> keeps m -> shrinks m.
Proof. intros H1 H2 K s Hs. split; [apply H1, (in_order_ok K), Hs | apply H2, Hs]. Qed.

Lemma keeps_ret {A} (a : A) : keeps (ret a).
Proof. intros K s Hs. apply advances_refl, Hs. Qed.
Lemma keeps_fail {A} : keeps (@fail (pb_istream CB) A).
Proof. intros K s Hs. apply advances_refl, Hs. Qed.
Lemma keeps_stuck {A} : keeps (@stuck (pb_istream CB) A).
Proof. intros K s Hs. apply advances_refl, Hs. Qed.
Lemma keeps_get : keeps get.
Proof. intros K s Hs. apply advances_refl, Hs. Qed.
Lemma keeps_error {A} msg : keeps (@i_return_error CB A msg).
Proof. intros K s Hs. split; [exact Hs | cbn; lia]. Qed.

Lemma keeps_bind {A B} (m : D A) (k : A -> D B) : keeps m -> (forall a, keeps (k a)) -> keeps (bind m k).
Proof.
  intros Hm Hk K s Hs. pose proof (Hm K s Hs) as H. unfold bind. destruct (m s) as [[a| |] s1]; cbn [snd] in *; [|exact H..].
  apply (advances_trans K _ s1); [exact H | apply Hk, H].
Qed.

Lemma keeps_if {A} (b : bool) (m1 m2 : D A) : keeps m1 -> keeps m2 -> keeps (if b then m1 else m2).
Proof. destruct b; auto. Qed.

(** A guarded callback. *)
Lemma callback_consume_keeps {A} count (k : list byte -> A) K s : 0 <= count <= i_bytes_left s -> in_order K s ->
  advances K s (snd ((bs <- i_callback count ;; i_consume count ;; ret (k bs)) s)).
Proof.
  intros Hc (HK & [Hw Hm] & Hi). unfold in_word in *. unfold bind, i_callback, i_consume, buf_read, advances, in_order, istream_ok, in_word.
  destruct (i_source s) as [mem|u] eqn:Es; cbn.
  - destruct (Z.ltb_spec (zlen mem) count); [lia|]. cbn. rewrite wrap_small by (unfold in_word; lia). rewrite zlen_zdrop by lia. lia.
  - destruct (cb_read u _ count) as [[[bs|] u'] left'] eqn:Ecb; cbn.
    + apply cb_read_ok in Ecb as [_ ->]. rewrite wrap_small by (unfold in_word; lia). lia.
    + apply cb_read_fail in Ecb; [|lia]. lia.
Qed.

Lemma pb_read_some_keeps count : 0 <= count -> keeps (pb_read_some count).
Proof.
  intros Hc K s Hs. unfold pb_read_some. rewrite bind_get.
  destruct (Z.ltb_spec (i_bytes_left s) count); [apply keeps_error, Hs | apply (callback_consume_keeps count (fun bs => bs) K); [lia | exact Hs]].
Qed.

Lemma pb_readbyte_keeps : keeps pb_readbyte.
Proof.
  intros K s Hs. unfold pb_readbyte. rewrite bind_get.
  destruct (Z.eqb_spec (i_bytes_left s) 0); [apply keeps_error, Hs|].
  apply (callback_consume_keeps 1 (fun bs => znth bs 0) K); [|exact Hs]. destruct Hs as (_ & [Hw _] & _). unfold in_word in Hw. lia.
Qed.

Create HintDb keeps discriminated.
#[local] Hint Resolve keeps_ret keeps_fail keeps_stuck keeps_get keeps_error keeps_bind keeps_if pb_readbyte_keeps : keeps.

Lemma pb_read_skip_keeps fuel count : 0 <= count -> keeps (pb_read_skip fuel count).
Proof.
  revert count. induction fuel as [|fuel IH]; intros count Hc; cbn [pb_read_skip]; [apply keeps_stuck|].
  destruct (Z.ltb_spec 16 count).
  - apply keeps_bind; [apply pb_read_some_keeps; lia | intros _; apply IH; lia].
  - apply keeps_if; [apply keeps_ret|]. apply keeps_bind; [apply pb_read_some_keeps; lia | auto with keeps].
Qed.

Lemma pb_read_keeps want count : 0 <= count -> keeps (pb_read want count).
Proof.
  intros Hc. unfold pb_read. apply keeps_if; [apply keeps_ret|]. apply keeps_bind; [apply keeps_get | intros st].
  apply keeps_if; [|apply pb_read_some_keeps, Hc]. apply keeps_bind; [apply pb_read_skip_keeps, Hc | auto with keeps].
Qed.

Lemma pb_read_shrinks want count : 0 <= count -> shrinks (pb_read want count).
Proof. intros Hc. apply safe_shrinks; [apply pb_read_safe, Hc | apply pb_read_keeps, Hc]. Qed.

Lemma varint32_loop_keeps fuel bitpos result : keeps (varint32_loop fuel bitpos result).
Proof.
  revert bitpos result. induction fuel as [|fuel IH]; intros bitpos result; cbn [varint32_loop]; [apply keeps_stuck|].
  apply keeps_bind; [apply pb_readbyte_keeps | intros b]. apply keeps_bind; [repeat apply keeps_if; auto with keeps | intros r].
  repeat apply keeps_if; auto with keeps.
Qed.

Lemma pb_decode_varint32_keeps : keeps pb_decode_varint32.
Proof.
  intros K s Hs. unfold pb_decode_varint32, pb_decode_varint32_eof. pose proof (pb_readbyte_keeps K s Hs) as H.
  destruct (pb_readbyte s) as [[b| |] s1]; cbn [fst snd] in *; [|exact H..].
  destruct (_ =? 0); cbn [fst snd]; [exact H|]. apply (advances_trans K _ s1); [exact H|]. apply varint32_loop_keeps, H.
Qed.

Lemma pb_decode_varint32_shrinks : shrinks pb_decode_varint32.
Proof. apply safe_shrinks; [apply pb_decode_varint32_safe | apply pb_decode_varint32_keeps]. Qed.

Lemma varint_loop_keeps fuel bitpos result : keeps (varint_loop fuel bitpos result).
Proof.
  revert bitpos result. induction fuel as [|fuel IH]; intros bitpos result; cbn [varint_loop]; [apply keeps_stuck|].
  apply keeps_if; [apply keeps_error|]. apply keeps_bind; [apply pb_readbyte_keeps | intros b]. apply keeps_if; auto with keeps.
Qed.

Lemma pb_decode_varint_shrinks : shrinks pb_decode_varint.
Proof. apply safe_shrinks; [apply pb_decode_varint_safe | apply varint_loop_keeps]. Qed.

Lemma skip_varint_loop_keeps fuel : keeps (skip_varint_loop fuel).
Proof.
  induction fuel as [|fuel IH]; cbn [skip_varint_loop]; [apply keeps_stuck|].
  apply keeps_bind; [apply pb_read_keeps; lia | intros bs]. apply keeps_if; auto with keeps.
Qed.

Lemma pb_skip_string_keeps : keeps pb_skip_string.
Proof.
  intros K s Hs. unfold pb_skip_string. pose proof (pb_decode_varint32_keeps K s Hs) as H. unfold bind at 1.
  destruct (pb_decode_varint32 s) as [[n| |] s1] eqn:E; cbn [snd] in H; [|exact H..].
  apply (advances_trans K _ s1); [exact H|]. apply keeps_bind; [|auto with keeps | apply H].
  apply pb_read_keeps, (proj1 (pb_decode_varint32_range _ _ _ E)).
Qed.

Lemma pb_skip_field_shrinks wire_type : shrinks (pb_skip_field wire_type).
Proof.
  apply safe_shrinks; [apply pb_skip_field_safe|]. unfold pb_skip_field. repeat apply keeps_if; auto using pb_skip_string_keeps with keeps.
  - unfold pb_skip_varint. apply keeps_bind; [apply keeps_get | intros; apply skip_varint_loop_keeps].
  - apply keeps_bind; [apply pb_read_keeps; lia | auto with keeps].
  - apply keeps_bind; [apply pb_read_keeps; lia | auto with keeps].
Qed.

Lemma raw_varint_loop_keeps fuel size max_size : keeps (raw_varint_loop fuel size max_size).
Proof.
  revert size. induction fuel as [|fuel IH]; intros size; cbn [raw_varint_loop]; [apply keeps_stuck|].
  apply keeps_if; [apply keeps_fail|]. apply keeps_bind; [apply pb_read_keeps; lia | intros bs]. apply keeps_if; auto with keeps.
Qed.

Lemma read_raw_value_shrinks wire_type max_size : 0 <= max_size -> shrinks (read_raw_value wire_type max_size).
Proof.
  intros H. apply safe_shrinks; [apply read_raw_value_safe, H|]. unfold read_raw_value.
  apply keeps_if; [apply raw_varint_loop_keeps|]. apply keeps_if; [apply pb_read_keeps; lia|].
  apply keeps_if; [apply pb_read_keeps; lia | apply keeps_error].
Qed.

(** *** Tags *)

(** A tag takes at least one byte; only a stream at its end has none. *)
Lemma pb_decode_tag_advances K s : in_order K s ->
  let '(r, s', eof) := pb_decode_tag s in
  r <> Stuck /\ advances K s s' /\ (forall p, r = Ok p -> i_bytes_left s' < i_bytes_left s /\ 0 <= snd p).
Proof.
  intros Hs. pose proof (pb_decode_varint32_shrinks K s Hs) as [H1 H2]. unfold pb_decode_tag.
  pose proof (pb_decode_varint32_range (CB := CB) s) as Hr. pose proof (pb_decode_varint32_left (CB := CB) s) as Hl.
  unfold pb_decode_varint32 in *. destruct (pb_decode_varint32_eof s) as [[[v| |] s'] eof]; cbn [fst snd] in *.
  - destruct (Z.eqb_spec v 0); (split; [discriminate|]); (split; [exact H2|]); [discriminate|].
    intros p [= <-]. split; [exact (Hl v s' (in_order_ok K s Hs) eq_refl)|]. cbn. apply Z.shiftr_nonneg. exact (proj1 (Hr v s' eq_refl)).
  - split; [discriminate|]. split; [exact H2 | discriminate].
  - contradiction.
Qed.

(** *** Substreams *)

(** A substream has as much memory behind it as its parent needs. *)
Lemma pb_make_string_substream_in_order K s : in_order K s ->
  let '(r, s') := pb_make_string_substream s in
  r <> Stuck /\ advances K s s' /\
  (forall sub, r = Ok sub -> in_order (K + i_bytes_left s') sub /\ i_bytes_left sub + i_bytes_left s' < i_bytes_left s).
Proof.
  intros Hs. pose proof (pb_decode_varint32_shrinks K s Hs) as [H1 H2]. unfold pb_make_string_substream, bind.
  pose proof (pb_decode_varint32_range (CB := CB) s) as Hr. pose proof (pb_decode_varint32_left (CB := CB) s) as Hl.
  destruct (pb_decode_varint32 s) as [[size| |] s1]; cbn [fst snd] in *.
  - specialize (Hr size s1 eq_refl). specialize (Hl size s1 (in_order_ok K s Hs) eq_refl). unfold get, in_word in *.
    destruct (Z.ltb_spec (i_bytes_left s1) size).
    { split; [discriminate|]. split; [exact H2 | discriminate]. }
    cbn. destruct H2 as [(HK & [Hw Hm] & Hi) Hle]. split; [discriminate|]. unfold advances, in_order, istream_ok, in_word in *. cbn.
    split; [destruct (i_source s1); repeat split; lia|]. intros sub [= <-]. cbn. destruct (i_source s1); repeat split; lia.
  - split; [discriminate|]. split; [exact H2 | discriminate].
  - contradiction.
Qed.

(** Closing it puts the parent behind it. *)
Lemma pb_close_string_substream_in_order K s sub : in_order K s -> in_order (K + i_bytes_left s) sub ->
  let '(r, s') := pb_close_string_substream sub s in
  r <> Stuck /\ in_order K s' /\ i_bytes_left s' = i_bytes_left s.
Proof.
  intros Hs Hsub. unfold pb_close_string_substream, bind, local, get, put.
  set (m := if i_bytes_left sub =? 0 then ret [] else pb_read false (i_bytes_left sub)).
  assert (H : let '(r, sub') := m sub in
              r <> Stuck /\ (forall bs, r = Ok bs -> advances (K + i_bytes_left s) sub sub')).
  { unfold m. destruct (Z.eqb_spec (i_bytes_left sub) 0).
    - split; [discriminate|]. intros _ _. apply advances_refl, Hsub.
    - pose proof (pb_read_shrinks false (i_bytes_left sub)) as Hr. destruct Hsub as (HK & [Hw Hm] & Hi). unfold in_word in Hw.
      specialize (Hr ltac:(lia) (K + i_bytes_left s) sub (conj HK (conj (conj Hw Hm) Hi))).
      destruct (pb_read false (i_bytes_left sub) sub). cbn [fst snd] in Hr. split; [apply Hr | intros _ _; apply Hr]. }
  destruct (m sub) as [[bs| |] sub'] eqn:E; [..|exfalso; exact (proj1 H eq_refl)].
  - destruct H as [_ H]. specialize (H bs eq_refl). cbn. split; [discriminate|]. split; [|reflexivity].
    destruct Hs as (HK & [Hw Hm] & _), H as [(_ & [[H0 _] _] & H) _]. unfold in_order, istream_ok, in_word in *. cbn.
    destruct (i_source sub'); repeat split; lia.
  - split; [discriminate|]. split; [exact Hs | reflexivity].
Qed.
End advance.
