(* ===== verification/PbHeap.v ===== *)
(** The heap that nanopb's decoder works on: mapped bytes, of which some belong
    to blocks that [realloc] gave out, and the C library's allocator.  The
    decoder's state is this heap and the stream it reads. *)
From Stdlib Require Import ZArith Lia Bool String.
From coqutil Require Import Byte Word.LittleEndianList.
From stdpp Require Import base list numbers gmap.
From S2P Require Import Prelude PbStream PbCommon PbMemory.
Local Open Scope Z_scope.
Local Open Scope c_scope.

(** [h_blocks] has the size of every block that has not been freed, at its
    address. *)
Record heap := mk_heap { h_mem : mem; h_blocks : gmap Z Z }.

(** What is no longer mapped. *)
Fixpoint erase (m : mem) (a : Z) (n : nat) : mem :=
  match n with O => m | S n => delete a (erase m (a + 1) n) end.

Definition unmapped (m : mem) (a n : Z) : Prop := forall i, 0 <= i < n -> m !! (a + i) = None.

Lemma lookup_erase m n : forall a i, erase m a n !! i = if decide (a <= i < a + Z.of_nat n) then None else m !! i.
Proof.
  induction n as [|n IH]; intros a i; cbn [erase].
  - destruct (decide _); [lia | reflexivity].
  - destruct (decide (i = a)) as [->|Hne].
    + rewrite lookup_delete_eq. destruct (decide _); [reflexivity | lia].
    + rewrite lookup_delete_ne, IH by congruence.
      destruct (decide (a + 1 <= i < a + 1 + Z.of_nat n)), (decide (a <= i < a + Z.of_nat (S n))); try lia; reflexivity.
Qed.

Lemma erase_store m a bs : unmapped m a (zlen bs) -> erase (store_bytes ∅ a bs ∪ m) a (length bs) = m.
Proof.
  intros Hu. rewrite <- store_union. apply map_eq. intros i.
  rewrite lookup_erase, lookup_store. unfold zlen in *. destruct (decide _) as [Hi|Hi]; [|reflexivity].
  symmetry. replace i with (a + (i - a)) by lia. apply Hu. lia.
Qed.

(** The C library's [malloc], which gives out fresh addresses with any contents,
    and the compiler's choice of a place for a local variable, apart from the
    heap.  Its address is never stored, so it need not fit in a pointer, and
    there is always room for it: a stack that overflows is not modelled. *)
Class Machine := {
  malloc : heap -> Z -> option (Z * list byte);
  malloc_ok : forall h n a bs, 0 < n -> malloc h n = Some (a, bs) ->
    zlen bs = n /\ 0 < a /\ a + n <= 2 ^ 64 /\ unmapped (h_mem h) a n /\ h_blocks h !! a = None;
  local_variable : heap -> Z -> Z;
  local_variable_ok : forall h n a, 0 < n -> local_variable h n = a -> 0 < a /\ unmapped (h_mem h) a n;
}.

Section heap.
Context {CB : Type} {ICB : InputCallback CB} {MA : Machine}.

Record dstate := mk_dstate { d_stream : pb_istream CB; d_heap : heap }.
Notation D := (M dstate).

(** *** The stream *)

Definition on_istream {A} (d : M (pb_istream CB) A) : D A := fun st =>
  let '(r, s) := d (d_stream st) in (r, mk_dstate s (d_heap st)).

Definition return_error {A} (msg : string) : D A := on_istream (i_return_error msg).

(** [status = f(&substream, ...)]; a failure is a value here. *)
Definition on_substream {A} (c : D A) (sub : pb_istream CB) : D (option A * pb_istream CB) := fun st =>
  match c (mk_dstate sub (d_heap st)) with
  | (Ok a, st1) => (Ok (Some a, d_stream st1), mk_dstate (d_stream st) (d_heap st1))
  | (Fail, st1) => (Ok (None, d_stream st1), mk_dstate (d_stream st) (d_heap st1))
  | (Stuck, st1) => (Stuck, st1)
  end.

(** [status = f(stream, ...)] *)
Definition status_of {A} (c : D A) : D (option A) := fun st =>
  match c st with
  | (Ok a, st1) => (Ok (Some a), st1)
  | (Fail, st1) => (Ok None, st1)
  | (Stuck, st1) => (Stuck, st1)
  end.

(** *** Objects in memory *)

Definition load_at (a n : Z) : D (list byte) := fun st =>
  match load_bytes (h_mem (d_heap st)) a n with Some bs => (Ok bs, st) | None => (Stuck, st) end.

Definition store_at (a : Z) (bs : list byte) : D unit := fun st =>
  let h := d_heap st in
  match load_bytes (h_mem h) a (zlen bs) with
  | Some _ => (Ok tt, mk_dstate (d_stream st) (mk_heap (store_bytes (h_mem h) a bs) (h_blocks h)))
  | None => (Stuck, st)
  end.

Definition get_int (a n : Z) : D Z := bs <- load_at a n ;; ret (le_combine bs).
Definition put_int (a : Z) (n : nat) (v : Z) : D unit := store_at a (le_split n v).
Definition get_ptr (a : Z) : D Z := get_int a sizeof_ptr.
Definition put_ptr (a v : Z) : D unit := put_int a 8 v.
Definition get_size (a : Z) : D Z := get_int a 4.
Definition put_size (a v : Z) : D unit := put_int a 4 v.

(** *** The C library's allocator *)

Definition remove (h : heap) (p size : Z) : heap :=
  mk_heap (erase (h_mem h) p (Z.to_nat size)) (delete p (h_blocks h)).

(** [realloc(ptr, size)]: the new block begins with what the old one held; when
    it fails the old block stays. *)
Definition pb_realloc (p size : Z) : D Z := fun st =>
  let h := d_heap st in
  let give h old :=
    match malloc h size with
    | None => (Ok 0, st)
    | Some (a, bs) =>
        let bs := ztake size old ++ zdrop (zlen old) bs in
        (Ok a, mk_dstate (d_stream st) (mk_heap (store_bytes (h_mem h) a bs) (<[a := size]> (h_blocks h))))
    end in
  if p =? 0 then give h [] else
  match h_blocks h !! p with
  | None => (Stuck, st)
  | Some old =>
      match load_bytes (h_mem h) p old with
      | None => (Stuck, st)
      | Some bs => give (remove h p old) bs
      end
  end.

Definition pb_free (p : Z) : D unit := fun st =>
  if p =? 0 then (Ok tt, st) else
  match h_blocks (d_heap st) !! p with
  | None => (Stuck, st)
  | Some size => (Ok tt, mk_dstate (d_stream st) (remove (d_heap st) p size))
  end.

(** A local variable whose address is taken. *)
Definition with_local {A} (bs : list byte) (c : Z -> D A) : D A := fun st =>
  let h := d_heap st in
  let a := local_variable h (zlen bs) in
  match c a (mk_dstate (d_stream st) (mk_heap (store_bytes (h_mem h) a bs) (h_blocks h))) with
  | (r, st1) =>
      (r, mk_dstate (d_stream st1) (mk_heap (erase (h_mem (d_heap st1)) a (length bs)) (h_blocks (d_heap st1))))
  end.
End heap.
Arguments dstate : clear implicits.
