(* ===== verification/PbDecode.v ===== *)
(** Decoding whole messages: the upper half of ios/Pods/nanopb/pb_decode.c,
    which fills a structure described by field descriptors, allocates what its
    pointers point to, and releases it again.  Descriptors are looked up by
    address, so message types may be recursive; the fuel of [pb_decode] bounds
    the nesting of the input, [rfuel] that of the structures. *)
From Stdlib Require Import ZArith Lia Bool String.
From coqutil Require Import Byte Word.LittleEndianList.
From stdpp Require Import base list numbers gmap.
From S2P Require Import Prelude PbStream PbCommon PbCodec PbMemory PbEncode PbHeap.
Local Open Scope Z_scope.
Local Open Scope c_scope.

(** Offsets in [pb_extension_type_t] and [pb_extension_t]. *)
Definition extension_type_decode : Z := 0.
Definition extension_found : Z := 24.

Definition PB_MAX_REQUIRED_FIELDS : Z := 64.
Definition PB_BYTES_ARRAY_T_ALLOCSIZE (n : Z) : Z := u64 (n + bytes_array_bytes).

Section decode.
Context {CB : Type} {ICB : InputCallback CB} {MA : Machine}.
Notation D := (M (dstate CB)).

(** The descriptor arrays and the default values of fields, by address, and
    the user's functions by address: [callback->funcs.decode(stream, field,
    &callback->arg)] and [extension->type->decode(stream, extension, tag,
    wire_type)]. *)
Context (descriptors : Z -> option (list pb_field)) (constants : mem).
Context (funcs_decode : Z -> pb_field -> Z -> D unit) (type_decode : Z -> Z -> Z -> Z -> D unit).
Context (rfuel : nat).

(** *** Iterators *)

Definition pos_of (it : pb_field_iter) : D pb_field := '(f, _) <- local iter_pos it ;; ret f.

(** [do step(&iter) while (pb_field_iter_next(&iter))] *)
Fixpoint each_field (step : pb_field_iter -> D unit) (fuel : nat) (it : pb_field_iter) : D unit :=
  match fuel with
  | O => stuck
  | S fuel =>
      step it ;;
      '(more, it) <- local pb_field_iter_next it ;;
      if (more : bool) then each_field step fuel it else ret tt
  end.

(** The same from the first field of a message, if it has one. *)
Definition on_fields (step : pb_field_iter -> D unit) (fields : list pb_field) (dest_struct : Z) : D unit :=
  '(ok, it) <- local (pb_field_iter_begin fields dest_struct) no_iter ;;
  if (ok : bool) then each_field step (length fields) it else ret tt.

Definition iter_from_extension (extension : Z) : D pb_field_iter :=
  ty <- get_ptr (extension + extension_type) ;;
  arg <- get_ptr (ty + extension_type_arg) ;;
  fields <- known (descriptors arg) ;;
  dest <- get_ptr (extension + extension_dest) ;;
  '(_, it) <- local (pb_field_iter_begin fields dest) no_iter ;;
  f <- pos_of it ;;
  let data := if PB_ATYPE (type f) =? PB_ATYPE_POINTER then extension + extension_dest else dest in
  ret (mk_iter (start it) (pos it) (required_field_index it) (dest_struct it) data (extension + extension_found)).

(** The list of the extensions; one that comes back to itself has no end. *)
Fixpoint each_extension (step : Z -> D unit) (fuel : nat) (extension : Z) : D unit :=
  match fuel with
  | O => stuck
  | S fuel =>
      if extension =? 0 then ret tt else
      step extension ;;
      next <- get_ptr (extension + extension_next) ;;
      each_extension step fuel next
  end.

Definition extensions_fuel : D nat := st <- get ;; ret (S (base.size (h_mem (d_heap st)))).

(** ** Default values *)

Fixpoint pb_field_set_to_default (fuel : nat) (iter : pb_field_iter) : D unit :=
  match fuel with
  | O => stuck
  | S fuel =>
      f <- pos_of iter ;;
      let ty := type f in
      if PB_LTYPE ty =? PB_LTYPE_EXTENSION then
        ext <- get_ptr (pData iter) ;;
        n <- extensions_fuel ;;
        each_extension (fun ext =>
          put_int (ext + extension_found) 1 0 ;;
          ext_iter <- iter_from_extension ext ;;
          pb_field_set_to_default fuel ext_iter) n ext
      else if PB_ATYPE ty =? PB_ATYPE_STATIC then
        init_data <-
          (if (PB_HTYPE ty =? PB_HTYPE_OPTIONAL) && negb (pSize iter =? pData iter)
           then put_int (pSize iter) 1 0 ;; ret true
           else if (PB_HTYPE ty =? PB_HTYPE_REPEATED) || (PB_HTYPE ty =? PB_HTYPE_ONEOF)
           then put_size (pSize iter) 0 ;; ret false
           else ret true) ;;
        if (init_data : bool) then
          if PB_LTYPE ty =? PB_LTYPE_SUBMESSAGE then
            fields <- known (descriptors (ptr f)) ;;
            on_fields (pb_field_set_to_default fuel) fields (pData iter)
          else if negb (ptr f =? 0) then
            bs <- known (load_bytes constants (ptr f) (data_size f)) ;;
            store_at (pData iter) bs
          else store_at (pData iter) (zeros (data_size f))
        else ret tt
      else if PB_ATYPE ty =? PB_ATYPE_POINTER then
        put_ptr (pData iter) 0 ;;
        if (PB_HTYPE ty =? PB_HTYPE_REPEATED) || (PB_HTYPE ty =? PB_HTYPE_ONEOF)
        then put_size (pSize iter) 0 else ret tt
      else ret tt
  end.

Definition pb_message_set_to_defaults (fields : list pb_field) (dest_struct : Z) : D unit :=
  on_fields (pb_field_set_to_default rfuel) fields dest_struct.

(** ** Releasing *)

(** The loops over the items of an array. *)
Fixpoint release_items (release : Z -> D unit) (size : Z) (count : nat) (pItem : Z) : D unit :=
  match count with
  | O => ret tt
  | S count => release pItem ;; release_items release size count (pItem + size)
  end.

Fixpoint free_items (count : nat) (pItem : Z) : D unit :=
  match count with
  | O => ret tt
  | S count =>
      p <- get_ptr pItem ;;
      pb_free p ;;
      put_ptr pItem 0 ;;
      free_items count (pItem + sizeof_ptr)
  end.

Section release.
(** [pb_release_single_field] one level down. *)
Context (release_field : pb_field_iter -> D unit).

Definition release_message (fields : list pb_field) (dest_struct : Z) : D unit :=
  if dest_struct =? 0 then ret tt else on_fields release_field fields dest_struct.

(** How many submessages the field has. *)
Definition submessage_count (f : pb_field) (iter : pb_field_iter) : D Z :=
  if PB_HTYPE (type f) =? PB_HTYPE_REPEATED then
    count <-
      (if (PB_ATYPE (type f) =? PB_ATYPE_STATIC) && (pSize iter =? pData iter)
       then ret (array_size f) else get_size (pSize iter)) ;;
    ret (if (PB_ATYPE (type f) =? PB_ATYPE_STATIC) && (array_size f <? count) then array_size f else count)
  else ret 1.

(** What the field contains. *)
Definition release_contents (f : pb_field) (iter : pb_field_iter) : D unit :=
  if PB_LTYPE (type f) =? PB_LTYPE_EXTENSION then
    ext <- get_ptr (pData iter) ;;
    n <- extensions_fuel ;;
    each_extension (fun ext => ext_iter <- iter_from_extension ext ;; release_field ext_iter) n ext
  else if (PB_LTYPE (type f) =? PB_LTYPE_SUBMESSAGE) && negb (PB_ATYPE (type f) =? PB_ATYPE_CALLBACK) then
    pItem <- (if PB_ATYPE (type f) =? PB_ATYPE_POINTER then get_ptr (pData iter) else ret (pData iter)) ;;
    count <- submessage_count f iter ;;
    if negb (pItem =? 0) then
      release_items (fun pItem => fields <- known (descriptors (ptr f)) ;; release_message fields pItem)
        (data_size f) (Z.to_nat count) pItem
    else ret tt
  else ret tt.

(** The allocation itself. *)
Definition release_pointer (f : pb_field) (iter : pb_field_iter) : D unit :=
  (if (PB_HTYPE (type f) =? PB_HTYPE_REPEATED)
      && ((PB_LTYPE (type f) =? PB_LTYPE_STRING) || (PB_LTYPE (type f) =? PB_LTYPE_BYTES))
   then
     pItem <- get_ptr (pData iter) ;;
     count <- get_size (pSize iter) ;;
     free_items (Z.to_nat count) pItem
   else ret tt) ;;
  (if PB_HTYPE (type f) =? PB_HTYPE_REPEATED then put_size (pSize iter) 0 else ret tt) ;;
  p <- get_ptr (pData iter) ;;
  pb_free p ;;
  put_ptr (pData iter) 0.
End release.

Fixpoint pb_release_single_field (fuel : nat) (iter : pb_field_iter) : D unit :=
  match fuel with
  | O => stuck
  | S fuel =>
      f <- pos_of iter ;;
      other <-
        (if PB_HTYPE (type f) =? PB_HTYPE_ONEOF
         then which <- get_size (pSize iter) ;; ret (negb (which =? tag f)) else ret false) ;;
      if (other : bool) then ret tt else
      release_contents (pb_release_single_field fuel) f iter ;;
      if PB_ATYPE (type f) =? PB_ATYPE_POINTER then release_pointer f iter else ret tt
  end.

Definition pb_release (fields : list pb_field) (dest_struct : Z) : D unit :=
  release_message (pb_release_single_field rfuel) fields dest_struct.

(** The iterator is moved to the old field and back. *)
Definition pb_release_union_field (iter : pb_field_iter) : D pb_field_iter :=
  old_tag <- get_size (pSize iter) ;;
  f <- pos_of iter ;;
  let new_tag := tag f in
  if old_tag =? 0 then ret iter
  else if old_tag =? new_tag then ret iter else
  '(found, iter) <- local (pb_field_iter_find old_tag) iter ;;
  if negb found then return_error "invalid union tag" else
  pb_release_single_field rfuel iter ;;
  '(found, iter) <- local (pb_field_iter_find new_tag) iter ;;
  if negb found then return_error "iterator error" else
  f <- pos_of iter ;;
  (if PB_ATYPE (type f) =? PB_ATYPE_POINTER then put_ptr (pData iter) 0 else ret tt) ;;
  ret iter.

(** ** Allocation *)

Definition allocate_field (pData data_size array_size : Z) : D unit :=
  ptr <- get_ptr pData ;;
  if (data_size =? 0) || (array_size =? 0) then return_error "invalid size" else
  let check_limit := 2 ^ 32 in
  if ((check_limit <=? data_size) || (check_limit <=? array_size)) && (SIZE_MAX / array_size <? data_size)
  then return_error "size too large" else
  ptr <- pb_realloc ptr (u64 (array_size * data_size)) ;;
  if ptr =? 0 then return_error "realloc failed" else
  put_ptr pData ptr.

(** Clear a newly allocated item. *)
Definition initialize_pointer_field (pItem : Z) (iter : pb_field_iter) : D unit :=
  f <- pos_of iter ;;
  if (PB_LTYPE (type f) =? PB_LTYPE_STRING) || (PB_LTYPE (type f) =? PB_LTYPE_BYTES)
  then put_ptr pItem 0
  else if PB_LTYPE (type f) =? PB_LTYPE_SUBMESSAGE then
    store_at pItem (zeros (data_size f)) ;;
    fields <- known (descriptors (ptr f)) ;;
    pb_message_set_to_defaults fields pItem
  else ret tt.

(** ** Decoders of the field types *)

Notation decoder := (pb_field -> Z -> D unit).

(** The size of the object that the decoder of a number writes. *)
Definition scalar_size (f : pb_field) : Z :=
  let l := PB_LTYPE (type f) in
  if l =? PB_LTYPE_BOOL then 1
  else if l =? PB_LTYPE_FIXED32 then 4
  else if l =? PB_LTYPE_FIXED64 then 8
  else data_size f.

(** A decoder of PbCodec on the object at [dest]. *)
Definition at_dest (dec : pb_field -> M (list byte * pb_istream CB) unit) : decoder := fun field dest =>
  bs <- load_at dest (scalar_size field) ;;
  (fun st =>
     let '(r, (bs', s)) := dec field (bs, d_stream st) in
     match store_at dest bs' (mk_dstate s (d_heap st)) with
     | (Ok _, st1) => (r, st1)
     | other => other
     end).

(** [pb_read(stream, dest, count)]; a callback that fails is taken to have stored
    nothing. *)
Definition read_into (dest count : Z) : D unit :=
  bs <- on_istream (pb_read true count) ;; store_at dest bs.

Definition pb_dec_bytes : decoder := fun field dest =>
  size <- on_istream pb_decode_varint32 ;;
  if PB_SIZE_MAX <? size then return_error "bytes overflow" else
  let alloc_size := PB_BYTES_ARRAY_T_ALLOCSIZE size in
  if alloc_size <? size then return_error "size too large" else
  bdest <-
    (if PB_ATYPE (type field) =? PB_ATYPE_POINTER then
       st <- get ;;
       if i_bytes_left (d_stream st) <? size then return_error "end-of-stream" else
       allocate_field dest alloc_size 1 ;;
       get_ptr dest
     else if data_size field <? alloc_size then return_error "bytes overflow"
     else ret dest) ;;
  put_size bdest size ;;
  read_into (bdest + bytes_array_bytes) size.

Definition pb_dec_string : decoder := fun field dest =>
  size <- on_istream pb_decode_varint32 ;;
  let alloc_size := u32 (size + 1) in
  if alloc_size <? size then return_error "size too large" else
  dest <-
    (if PB_ATYPE (type field) =? PB_ATYPE_POINTER then
       st <- get ;;
       if i_bytes_left (d_stream st) <? size then return_error "end-of-stream" else
       allocate_field dest alloc_size 1 ;;
       get_ptr dest
     else if data_size field <? alloc_size then return_error "string overflow"
     else ret dest) ;;
  status <- status_of (read_into dest size) ;;
  put_int (dest + size) 1 0 ;;
  if status then ret tt else fail.

Section message.
(** [pb_decode_noinit], with less fuel. *)
Context (decode_noinit : list pb_field -> Z -> D unit).

Definition decode_init (fields : list pb_field) (dest_struct : Z) : D unit :=
  pb_message_set_to_defaults fields dest_struct ;;
  status <- status_of (decode_noinit fields dest_struct) ;;
  if status then ret tt else pb_release fields dest_struct ;; fail.

Definition pb_dec_submessage : decoder := fun field dest =>
  substream <- on_istream pb_make_string_substream ;;
  if ptr field =? 0 then return_error "invalid field descriptor" else
  fields <- known (descriptors (ptr field)) ;;
  '(status, substream) <-
    on_substream (if PB_HTYPE (type field) =? PB_HTYPE_REPEATED then decode_init fields dest
                  else decode_noinit fields dest) substream ;;
  on_istream (pb_close_string_substream substream) ;;
  if status then ret tt else fail.

Definition null_decoder : decoder := fun _ _ => stuck.

Definition PB_DECODERS : list decoder := [
  at_dest pb_dec_bool; at_dest pb_dec_varint; at_dest pb_dec_uvarint; at_dest pb_dec_svarint;
  at_dest pb_dec_fixed32; at_dest pb_dec_fixed64;
  pb_dec_bytes; pb_dec_string; pb_dec_submessage;
  null_decoder;
  at_dest pb_dec_fixed_length_bytes ].

(** ** Fields *)

Definition is_packed (wire_type : Z) (f : pb_field) : bool :=
  (wire_type =? PB_WT_STRING) && (PB_LTYPE (type f) <=? PB_LTYPE_LAST_PACKABLE).

(** The loop over a packed array in the structure; every item takes a byte. *)
Fixpoint packed_static (fuel : nat) (func : decoder) (iter : pb_field_iter) (f : pb_field)
    (substream : pb_istream CB) : D (bool * pb_istream CB) :=
  match fuel with
  | O => stuck
  | S fuel =>
      if i_bytes_left substream =? 0 then ret (true, substream) else
      size <- get_size (pSize iter) ;;
      if size <? array_size f then
        '(status, substream) <- on_substream (func f (pData iter + u32 (data_size f * size))) substream ;;
        match status with
        | None => ret (false, substream)
        | Some _ =>
            size <- get_size (pSize iter) ;;
            put_size (pSize iter) (u32 (size + 1)) ;;
            packed_static fuel func iter f substream
        end
      else ret (true, substream)
  end.

Definition decode_static_field (wire_type : Z) (iter : pb_field_iter) : D unit :=
  f <- pos_of iter ;;
  let ty := type f in
  func <- known (PB_DECODERS !! Z.to_nat (PB_LTYPE ty)) ;;
  if PB_HTYPE ty =? PB_HTYPE_REQUIRED then func f (pData iter)
  else if PB_HTYPE ty =? PB_HTYPE_OPTIONAL then
    (if negb (pSize iter =? pData iter) then put_int (pSize iter) 1 1 else ret tt) ;;
    func f (pData iter)
  else if PB_HTYPE ty =? PB_HTYPE_REPEATED then
    if is_packed wire_type f then
      substream <- on_istream pb_make_string_substream ;;
      '(status, substream) <- packed_static (S (Z.to_nat (i_bytes_left substream))) func iter f substream ;;
      if negb (i_bytes_left substream =? 0) then return_error "array overflow" else
      on_istream (pb_close_string_substream substream) ;;
      if (status : bool) then ret tt else fail
    else
      size <- get_size (pSize iter) ;;
      let pItem := pData iter + u32 (data_size f * size) in
      put_size (pSize iter) (u32 (size + 1)) ;;
      if array_size f <=? size then return_error "array overflow" else
      func f pItem
  else if PB_HTYPE ty =? PB_HTYPE_ONEOF then
    which <- get_size (pSize iter) ;;
    (if (PB_LTYPE ty =? PB_LTYPE_SUBMESSAGE) && negb (which =? tag f) then
       store_at (pData iter) (zeros (data_size f)) ;;
       fields <- known (descriptors (ptr f)) ;;
       pb_message_set_to_defaults fields (pData iter)
     else ret tt) ;;
    put_size (pSize iter) (tag f) ;;
    func f (pData iter)
  else return_error "invalid field type".

(** The loop over a packed array that is allocated. *)
Fixpoint packed_pointer (fuel : nat) (func : decoder) (iter : pb_field_iter) (f : pb_field)
    (allocated_size : Z) (substream : pb_istream CB) : D (bool * pb_istream CB) :=
  match fuel with
  | O => stuck
  | S fuel =>
      if i_bytes_left substream =? 0 then ret (true, substream) else
      size <- get_size (pSize iter) ;;
      if size =? PB_SIZE_MAX then
        (fun st => (Ok tt, mk_dstate (mk_istream (i_source (d_stream st)) (i_bytes_left (d_stream st)) (Some "too many array entries"%string)) (d_heap st))) ;;
        ret (false, substream)
      else
        remain <- (if data_size f =? 0 then stuck else ret ((i_bytes_left substream - 1) / data_size f + 1)) ;;
        let grown := if remain <? u64 (PB_SIZE_MAX - allocated_size)
                     then u64 (allocated_size + remain) else u64 (allocated_size + 1) in
        '(room, allocated_size, substream) <-
          (if allocated_size <? size + 1 then
             '(status, substream) <- on_substream (allocate_field (pData iter) (data_size f) grown) substream ;;
             ret (bool_decide (is_Some status), grown, substream)
           else ret (true, allocated_size, substream)) ;;
        if negb room then ret (false, substream) else
        base <- get_ptr (pData iter) ;;
        let pItem := base + u32 (data_size f * size) in
        if pItem =? 0 then ret (false, substream) else
        initialize_pointer_field pItem iter ;;
        '(status, substream) <- on_substream (func f pItem) substream ;;
        match status with
        | None => ret (false, substream)
        | Some _ =>
            size <- get_size (pSize iter) ;;
            put_size (pSize iter) (u32 (size + 1)) ;;
            packed_pointer fuel func iter f allocated_size substream
        end
  end.

Definition decode_pointer_field (wire_type : Z) (iter : pb_field_iter) : D unit :=
  f <- pos_of iter ;;
  let ty := type f in
  func <- known (PB_DECODERS !! Z.to_nat (PB_LTYPE ty)) ;;
  if (PB_HTYPE ty =? PB_HTYPE_REQUIRED) || (PB_HTYPE ty =? PB_HTYPE_OPTIONAL) || (PB_HTYPE ty =? PB_HTYPE_ONEOF) then
    (if PB_LTYPE ty =? PB_LTYPE_SUBMESSAGE then
       p <- get_ptr (pData iter) ;;
       if negb (p =? 0) then pb_release_single_field rfuel iter else ret tt
     else ret tt) ;;
    (if PB_HTYPE ty =? PB_HTYPE_ONEOF then put_size (pSize iter) (tag f) else ret tt) ;;
    if (PB_LTYPE ty =? PB_LTYPE_STRING) || (PB_LTYPE ty =? PB_LTYPE_BYTES) then func f (pData iter)
    else
      allocate_field (pData iter) (data_size f) 1 ;;
      p <- get_ptr (pData iter) ;;
      initialize_pointer_field p iter ;;
      p <- get_ptr (pData iter) ;;
      func f p
  else if PB_HTYPE ty =? PB_HTYPE_REPEATED then
    if is_packed wire_type f then
      allocated_size <- get_size (pSize iter) ;;
      substream <- on_istream pb_make_string_substream ;;
      '(status, substream) <-
        packed_pointer (S (Z.to_nat (i_bytes_left substream))) func iter f allocated_size substream ;;
      on_istream (pb_close_string_substream substream) ;;
      if (status : bool) then ret tt else fail
    else
      size <- get_size (pSize iter) ;;
      if size =? PB_SIZE_MAX then return_error "too many array entries" else
      allocate_field (pData iter) (data_size f) (u32 (size + 1)) ;;
      base <- get_ptr (pData iter) ;;
      let pItem := base + u32 (data_size f * size) in
      put_size (pSize iter) (u32 (size + 1)) ;;
      initialize_pointer_field pItem iter ;;
      func f pItem
  else return_error "invalid field type".

(** [do decode while (substream.bytes_left)]; a callback that succeeds without
    reading is called again. *)
Fixpoint callback_loop (fuel : nat) (decode : D unit) (substream : pb_istream CB) : D (pb_istream CB) :=
  match fuel with
  | O => stuck
  | S fuel =>
      '(status, substream) <- on_substream decode substream ;;
      match status with
      | None => return_error "callback failed"
      | Some _ => if i_bytes_left substream =? 0 then ret substream else callback_loop fuel decode substream
      end
  end.

Definition decode_callback_field (wire_type : Z) (iter : pb_field_iter) : D unit :=
  f <- pos_of iter ;;
  decode <- (if pData iter =? 0 then ret 0 else get_ptr (pData iter + callback_funcs)) ;;
  if decode =? 0 then on_istream (pb_skip_field wire_type) else
  let call := funcs_decode decode f (pData iter + callback_arg) in
  if wire_type =? PB_WT_STRING then
    substream <- on_istream pb_make_string_substream ;;
    substream <- callback_loop (S (Z.to_nat (i_bytes_left substream))) call substream ;;
    on_istream (pb_close_string_substream substream)
  else
    buffer <- on_istream (read_raw_value wire_type 10) ;;
    '(status, _) <- on_substream call (pb_istream_from_buffer buffer (zlen buffer)) ;;
    if status then ret tt else fail.

Definition decode_field (wire_type : Z) (iter : pb_field_iter) : D pb_field_iter :=
  f <- pos_of iter ;;
  iter <- (if PB_HTYPE (type f) =? PB_HTYPE_ONEOF then pb_release_union_field iter else ret iter) ;;
  f <- pos_of iter ;;
  (if PB_ATYPE (type f) =? PB_ATYPE_STATIC then decode_static_field wire_type iter
   else if PB_ATYPE (type f) =? PB_ATYPE_POINTER then decode_pointer_field wire_type iter
   else if PB_ATYPE (type f) =? PB_ATYPE_CALLBACK then decode_callback_field wire_type iter
   else return_error "invalid field type") ;;
  ret iter.

Definition default_extension_decoder (extension tg wire_type : Z) : D unit :=
  ty <- get_ptr (extension + extension_type) ;;
  arg <- get_ptr (ty + extension_type_arg) ;;
  fields <- known (descriptors arg) ;;
  field <- known (head fields) ;;
  if negb (tag field =? tg) then ret tt else
  iter <- iter_from_extension extension ;;
  put_int (extension + extension_found) 1 1 ;;
  decode_field wire_type iter ;; ret tt.

(** The extensions one after the other, until one of them has read something;
    [left] is [stream->bytes_left] at the start. *)
Fixpoint extension_loop (fuel : nat) (left tg wire_type extension : Z) : D unit :=
  match fuel with
  | O => stuck
  | S fuel =>
      st <- get ;;
      if negb (extension =? 0) && (left =? i_bytes_left (d_stream st)) then
        ty <- get_ptr (extension + extension_type) ;;
        decode <- get_ptr (ty + extension_type_decode) ;;
        (if negb (decode =? 0) then type_decode decode extension tg wire_type
         else default_extension_decoder extension tg wire_type) ;;
        next <- get_ptr (extension + extension_next) ;;
        extension_loop fuel left tg wire_type next
      else ret tt
  end.

Definition decode_extension (tg wire_type : Z) (iter : pb_field_iter) : D unit :=
  extension <- get_ptr (pData iter) ;;
  st <- get ;;
  n <- extensions_fuel ;;
  extension_loop n (i_bytes_left (d_stream st)) tg wire_type extension.

(** The [do ... while (iter->pos != start)] loop, from index [from]. *)
Fixpoint find_extension_loop (fuel : nat) (from : nat) : M pb_field_iter bool :=
  match fuel with
  | O => stuck
  | S fuel =>
      f <- iter_pos ;;
      if PB_LTYPE (type f) =? PB_LTYPE_EXTENSION then ret true else
      pb_field_iter_next ;;
      it <- get ;;
      if Nat.eqb (pos it) from then ret false else find_extension_loop fuel from
  end.

Definition find_extension_field : M pb_field_iter bool :=
  it <- get ;; find_extension_loop (length (start it)) (pos it).

(** ** Messages *)

(** The local variables of [pb_decode_noinit], except [fixed_count_size], whose
    address is taken; [fixed_count_field] is an index. *)
Record decode_vars := mk_vars {
  v_iter : pb_field_iter;
  v_extension_range_start : Z;
  v_fixed_count_field : option nat;
  v_fields_seen : list Z;
}.

Definition set_iter (v : decode_vars) (it : pb_field_iter) : decode_vars :=
  mk_vars it (v_extension_range_start v) (v_fixed_count_field v) (v_fields_seen v).

(** The tag, or nothing at the end of the message. *)
Definition next_tag : D (option (Z * Z)) := fun st =>
  match pb_decode_tag (d_stream st) with
  | (Ok p, s, _) => (Ok (Some p), mk_dstate s (d_heap st))
  | (Fail, s, eof) => (if eof then Ok None else Fail, mk_dstate s (d_heap st))
  | (Stuck, s, _) => (Stuck, mk_dstate s (d_heap st))
  end.

(** A field that the message does not have: an extension reads it or it is
    skipped. *)
Definition decode_unknown (tg wire_type : Z) (v : decode_vars) : D decode_vars :=
  '(handled, v) <-
    (if v_extension_range_start v <=? tg then
       '(ok, it) <- local find_extension_field (v_iter v) ;;
       f <- pos_of it ;;
       let first := if negb ok then 2 ^ 32 - 1 else tag f in
       let v := mk_vars it first (v_fixed_count_field v) (v_fields_seen v) in
       if first <=? tg then
         st <- get ;;
         decode_extension tg wire_type it ;;
         st' <- get ;;
         ret (negb (i_bytes_left (d_stream st) =? i_bytes_left (d_stream st')), v)
       else ret (false, v)
     else ret (false, v)) ;;
  (if (handled : bool) then ret tt else on_istream (pb_skip_field wire_type)) ;;
  ret v.

(** A fixed-count array has no counter in the structure: [fixed_count_size]
    takes its place. *)
Definition use_fixed_count (fixed_count_size : Z) (f : pb_field) (v : decode_vars) : D decode_vars :=
  let it := v_iter v in
  if (PB_HTYPE (type f) =? PB_HTYPE_REPEATED) && (pSize it =? pData it) then
    (if negb (bool_decide (v_fixed_count_field v = Some (pos it))) then
       match v_fixed_count_field v with
       | None => ret tt
       | Some i =>
           g <- known (start it !! i) ;;
           n <- get_size fixed_count_size ;;
           if negb (n =? array_size g) then return_error "wrong size for fixed count field" else ret tt
       end ;;
       put_size fixed_count_size 0
     else ret tt) ;;
    ret (mk_vars (mk_iter (start it) (pos it) (required_field_index it) (dest_struct it) (pData it) fixed_count_size)
           (v_extension_range_start v) (Some (pos it)) (v_fields_seen v))
  else ret v.

(** The bit of a required field. *)
Definition mark_seen (f : pb_field) (v : decode_vars) : D decode_vars :=
  let i := required_field_index (v_iter v) in
  if (PB_HTYPE (type f) =? PB_HTYPE_REQUIRED) && (i <? PB_MAX_REQUIRED_FIELDS) then
    let k := Z.to_nat (Z.shiftr i 5) in
    w <- known (v_fields_seen v !! k) ;;
    ret (mk_vars (v_iter v) (v_extension_range_start v) (v_fixed_count_field v)
           (<[k := Z.lor w (u32 (Z.shiftl 1 (Z.land i 31)))]> (v_fields_seen v)))
  else ret v.

(** The loop of [pb_decode_noinit]; every turn takes a byte. *)
Fixpoint decode_fields (fuel : nat) (fixed_count_size : Z) (v : decode_vars) : D decode_vars :=
  match fuel with
  | O => stuck
  | S fuel =>
      st <- get ;;
      if i_bytes_left (d_stream st) =? 0 then ret v else
      next <- next_tag ;;
      match next with
      | None => ret v
      | Some (wire_type, tg) =>
          '(found, it) <- local (pb_field_iter_find tg) (v_iter v) ;;
          let v := set_iter v it in
          v <-
            (if negb found then decode_unknown tg wire_type v
             else
               f <- pos_of it ;;
               v <- use_fixed_count fixed_count_size f v ;;
               v <- mark_seen f v ;;
               it <- decode_field wire_type (v_iter v) ;;
               ret (set_iter v it)) ;;
          decode_fields fuel fixed_count_size v
      end
  end.

(** The number of required fields: the iterator runs on to the last field. *)
Fixpoint count_required (fuel : nat) (it : pb_field_iter) : D Z :=
  match fuel with
  | O => stuck
  | S fuel =>
      f <- pos_of it ;;
      let req_field_count := required_field_index it in
      '(more, it) <- local pb_field_iter_next it ;;
      if (more : bool) then count_required fuel it else
      g <- pos_of it ;;
      ret (if (PB_HTYPE (type f) =? PB_HTYPE_REQUIRED) && negb (tag g =? 0)
           then u32 (req_field_count + 1) else req_field_count)
  end.

(** [fields_seen[i] != allbits] for some [i] below [n] *)
Fixpoint whole_words_seen (seen : list Z) (n : nat) : option bool :=
  match n, seen with
  | O, _ => Some true
  | S n, w :: seen => if w =? 2 ^ 32 - 1 then whole_words_seen seen n else Some false
  | S _, [] => None
  end.

Definition check_required (v : decode_vars) : D unit :=
  n <- count_required (length (start (v_iter v))) (v_iter v) ;;
  let n := if PB_MAX_REQUIRED_FIELDS <? n then PB_MAX_REQUIRED_FIELDS else n in
  if 0 <? n then
    ok <- known (whole_words_seen (v_fields_seen v) (Z.to_nat (Z.shiftr n 5))) ;;
    if negb ok then return_error "missing required field" else
    if negb (Z.land n 31 =? 0) then
      w <- known (v_fields_seen v !! Z.to_nat (Z.shiftr n 5)) ;;
      if negb (w =? Z.shiftr (2 ^ 32 - 1) (32 - Z.land n 31)) then return_error "missing required field" else ret tt
    else ret tt
  else ret tt.

Definition check_fixed_count (fixed_count_size : Z) (v : decode_vars) : D unit :=
  match v_fixed_count_field v with
  | None => ret tt
  | Some i =>
      g <- known (start (v_iter v) !! i) ;;
      n <- get_size fixed_count_size ;;
      if negb (n =? array_size g) then return_error "wrong size for fixed count field" else ret tt
  end.

Definition decode_message (fields : list pb_field) (dest_struct : Z) : D unit :=
  '(_, iter) <- local (pb_field_iter_begin fields dest_struct) no_iter ;;
  with_local (zeros 4) (fun fixed_count_size =>
    st <- get ;;
    v <- decode_fields (S (Z.to_nat (i_bytes_left (d_stream st)))) fixed_count_size (mk_vars iter 0 None [0; 0]) ;;
    check_fixed_count fixed_count_size v ;;
    check_required v).
End message.

Fixpoint pb_decode_noinit (fuel : nat) (fields : list pb_field) (dest_struct : Z) : D unit :=
  match fuel with
  | O => stuck
  | S fuel => decode_message (pb_decode_noinit fuel) fields dest_struct
  end.

Definition pb_decode (fuel : nat) (fields : list pb_field) (dest_struct : Z) : D unit :=
  decode_init (pb_decode_noinit fuel) fields dest_struct.

Definition delimited_with (decode : D unit) : D unit :=
  substream <- on_istream pb_make_string_substream ;;
  '(status, substream) <- on_substream decode substream ;;
  on_istream (pb_close_string_substream substream) ;;
  if status then ret tt else fail.

Definition pb_decode_delimited_noinit (fuel : nat) (fields : list pb_field) (dest_struct : Z) : D unit :=
  delimited_with (pb_decode_noinit fuel fields dest_struct).
Definition pb_decode_delimited (fuel : nat) (fields : list pb_field) (dest_struct : Z) : D unit :=
  delimited_with (pb_decode fuel fields dest_struct).
Definition pb_decode_nullterminated (fuel : nat) (fields : list pb_field) (dest_struct : Z) : D unit :=
  pb_decode fuel fields dest_struct.
End decode.
