(* ===== verification/PbFuel.v ===== *)
(** Fuel of the decoder: more of it never changes a result.  A program
    approximates another when it gets stuck or does the same. *)
From Stdlib Require Import ZArith Lia Bool String.
From coqutil Require Import Byte.
From stdpp Require Import base list numbers gmap.
From S2P Require Import Prelude PbStream PbCommon PbCodec PbMemory PbEncode PbHeap PbDecode.
Local Open Scope Z_scope.
Local Open Scope c_scope.

(** ** Approximation *)

Definition approx {S A} (c c' : M S A) : Prop := forall st, fst (c st) = Stuck \/ c st = c' st.

Section approx.
Context {S : Type}.

Lemma approx_refl {A} (c : M S A) : approx c c.
Proof. intros st. right. reflexivity. Qed.

Lemma approx_stuck {A} (c : M S A) : approx stuck c.
Proof. intros st. left. reflexivity. Qed.

Lemma approx_bind {A B} (m m' : M S A) (k k' : A -> M S B) : approx m m' -> (forall a, approx (k a) (k' a)) -> approx (bind m k) (bind m' k').
Proof.
  intros Hm Hk st. unfold bind. destruct (Hm st) as [H|H].
  - destruct (m st) as [[a| |] st1]; [discriminate..|left; reflexivity].
  - rewrite <- H. destruct (m st) as [[a| |] st1]; [apply Hk | right; reflexivity..].
Qed.

Lemma approx_if {A} (b : bool) (c1 c2 c1' c2' : M S A) : approx c1 c1' -> approx c2 c2' -> approx (if b then c1 else c2) (if b then c1' else c2').
Proof. destruct b; auto. Qed.
End approx.

Section decode.
Context {CB : Type} {ICB : InputCallback CB} {MA : Machine}.
Notation D := (M (dstate CB)).

Lemma approx_substream {A} (c c' : D A) sub : approx c c' -> approx (on_substream c sub) (on_substream c' sub).
Proof.
  intros H st. unfold on_substream. destruct (H (mk_dstate sub (d_heap st))) as [E|E].
  - destruct (c _) as [[a| |] st1]; [discriminate..|left; reflexivity].
  - rewrite <- E. right. reflexivity.
Qed.

Lemma approx_status {A} (c c' : D A) : approx c c' -> approx (status_of c) (status_of c').
Proof.
  intros H st. unfold status_of. destruct (H st) as [E|E].
  - destruct (c st) as [[a| |] st1]; [discriminate..|left; reflexivity].
  - rewrite <- E. right. reflexivity.
Qed.

Lemma approx_local {A} bs (c c' : Z -> D A) : (forall a, approx (c a) (c' a)) -> approx (with_local bs c) (with_local bs c').
Proof.
  intros H st. unfold with_local. match goal with |- context [c ?a ?st] => destruct (H a st) as [E|E]; [left | right] end.
  - match goal with |- context [c ?a ?st] => destruct (c a st) as [r st1] end. exact E.
  - rewrite E. reflexivity.
Qed.
End decode.

(** Programs that differ in their calls only. *)
Ltac approximate := repeat first
  [ match goal with |- approx ?c ?c' => constr_eq c c'; apply approx_refl end
  | solve [auto with nocore]
  | lazymatch goal with
    | |- approx (bind _ _) _ => apply approx_bind; [|intros ?]
    | |- approx (on_substream _ _) _ => apply approx_substream
    | |- approx (status_of _) _ => apply approx_status
    | |- approx (with_local _ _) _ => apply approx_local; intros ?
    | |- approx (match ?x with _ => _ end) _ => destruct x
    end ].

Section loops.
Context {CB : Type} {ICB : InputCallback CB} {MA : Machine}.
Notation D := (M (dstate CB)).

Lemma each_field_approx (step step' : pb_field_iter -> D unit) fuel : (forall it, approx (step it) (step' it)) ->
  forall it, approx (each_field step fuel it) (each_field step' fuel it).
Proof. intros H. induction fuel as [|fuel IH]; intros it; cbn [each_field]; approximate. Qed.

Lemma on_fields_approx (step step' : pb_field_iter -> D unit) fields d : (forall it, approx (step it) (step' it)) ->
  approx (on_fields step fields d) (on_fields step' fields d).
Proof. intros H. unfold on_fields. approximate. apply each_field_approx, H. Qed.

Lemma each_extension_approx (step step' : Z -> D unit) fuel : (forall e, approx (step e) (step' e)) ->
  forall e, approx (each_extension step fuel e) (each_extension step' fuel e).
Proof. intros H. induction fuel as [|fuel IH]; intros e; cbn [each_extension]; approximate. Qed.

Lemma release_items_approx (release release' : Z -> D unit) size count : (forall p, approx (release p) (release' p)) ->
  forall p, approx (release_items release size count p) (release_items release' size count p).
Proof. intros H. induction count as [|count IH]; intros p; cbn [release_items]; approximate. Qed.
End loops.

(** Programs with these loops. *)
Ltac approximates := repeat first
  [ lazymatch goal with
    | |- approx (on_fields _ _ _) _ => apply on_fields_approx; intros ?
    | |- approx (each_extension _ _ _) _ => apply each_extension_approx; intros ?
    | |- approx (release_items _ _ _ _) _ => apply release_items_approx; intros ?
    end
  | progress approximate ].

Section fuel.
Context {CB : Type} {ICB : InputCallback CB} {MA : Machine}.
Notation D := (M (dstate CB)).
Context (descriptors : Z -> option (list pb_field)) (constants : mem).
Context (funcs_decode : Z -> pb_field -> Z -> D unit) (type_decode : Z -> Z -> Z -> Z -> D unit).

Lemma default_approx n : forall n' it, (n <= n')%nat ->
  approx (pb_field_set_to_default (CB := CB) descriptors constants n it) (pb_field_set_to_default descriptors constants n' it).
Proof.
  induction n as [|n IH]; intros n' it Hn; [apply approx_stuck|]. destruct n' as [|n']; [lia|].
  assert (H : forall it, approx (pb_field_set_to_default (CB := CB) descriptors constants n it) (pb_field_set_to_default descriptors constants n' it)) by (intros; apply IH; lia).
  cbn [pb_field_set_to_default]. approximates.
Qed.

Lemma release_approx n : forall n' it, (n <= n')%nat ->
  approx (pb_release_single_field (CB := CB) descriptors n it) (pb_release_single_field descriptors n' it).
Proof.
  induction n as [|n IH]; intros n' it Hn; [apply approx_stuck|]. destruct n' as [|n']; [lia|].
  assert (H : forall it, approx (pb_release_single_field (CB := CB) descriptors n it) (pb_release_single_field descriptors n' it)) by (intros; apply IH; lia).
  cbn [pb_release_single_field]. unfold release_contents, release_message. approximates.
Qed.

Context (r r' : nat) (Hr : (r <= r')%nat).

Lemma defaults_approx fields d : approx (pb_message_set_to_defaults (CB := CB) descriptors constants r fields d) (pb_message_set_to_defaults descriptors constants r' fields d).
Proof. apply on_fields_approx. intros it. apply default_approx, Hr. Qed.

Lemma pb_release_approx fields d : approx (pb_release (CB := CB) descriptors r fields d) (pb_release descriptors r' fields d).
Proof. unfold pb_release, release_message. approximates. apply release_approx, Hr. Qed.

Lemma initialize_approx p it : approx (initialize_pointer_field (CB := CB) descriptors constants r p it) (initialize_pointer_field descriptors constants r' p it).
Proof. pose proof defaults_approx. unfold initialize_pointer_field. approximates. Qed.

Lemma union_approx it : approx (pb_release_union_field (CB := CB) descriptors r it) (pb_release_union_field descriptors r' it).
Proof. pose proof (release_approx r r'). unfold pb_release_union_field. approximates. Qed.

Section noinit.
Context (noinit noinit' : list pb_field -> Z -> D unit) (Hnoinit : forall fields d, approx (noinit fields d) (noinit' fields d)).

Lemma decode_init_approx fields d : approx (decode_init descriptors constants r noinit fields d) (decode_init descriptors constants r' noinit' fields d).
Proof. pose proof defaults_approx. pose proof pb_release_approx. unfold decode_init. approximates. Qed.

Lemma submessage_approx f d : approx (pb_dec_submessage descriptors constants r noinit f d) (pb_dec_submessage descriptors constants r' noinit' f d).
Proof. pose proof decode_init_approx. unfold pb_dec_submessage. approximates. Qed.

(** A field looks its decoder up. *)
Lemma decoder_approx {A} l (k k' : (pb_field -> Z -> D unit) -> D A) :
  (forall func func', (forall f d, approx (func f d) (func' f d)) -> approx (k func) (k' func')) ->
  approx (func <- known (PB_DECODERS descriptors constants r noinit !! l) ;; k func)
         (func <- known (PB_DECODERS descriptors constants r' noinit' !! l) ;; k' func).
Proof.
  intros H. do 11 (destruct l as [|l]; [apply H; intros f d; first [apply submessage_approx | apply approx_refl]|]). apply approx_refl.
Qed.

Lemma packed_static_approx (func func' : pb_field -> Z -> D unit) fuel it f : (forall f d, approx (func f d) (func' f d)) ->
  forall sb, approx (packed_static fuel func it f sb) (packed_static fuel func' it f sb).
Proof. intros H. induction fuel as [|fuel IH]; intros sb; cbn [packed_static]; approximates. Qed.

Lemma packed_pointer_approx (func func' : pb_field -> Z -> D unit) fuel it f : (forall f d, approx (func f d) (func' f d)) ->
  forall n sb, approx (packed_pointer descriptors constants r fuel func it f n sb) (packed_pointer descriptors constants r' fuel func' it f n sb).
Proof. intros H. pose proof initialize_approx. induction fuel as [|fuel IH]; intros n sb; cbn [packed_pointer]; approximates. Qed.

Lemma decode_field_approx wt it : approx (decode_field descriptors constants funcs_decode r noinit wt it) (decode_field descriptors constants funcs_decode r' noinit' wt it).
Proof.
  pose proof union_approx. pose proof (release_approx r r') as Hrel. pose proof initialize_approx. pose proof defaults_approx.
  assert (Hs : forall it, approx (decode_static_field descriptors constants r noinit wt it) (decode_static_field descriptors constants r' noinit' wt it)).
  { intros i. unfold decode_static_field. apply approx_bind; [apply approx_refl|]. intros f. cbv zeta. apply decoder_approx. intros func func' Hf.
    pose proof (packed_static_approx func func'). approximates. }
  assert (Hp : forall it, approx (decode_pointer_field descriptors constants r noinit wt it) (decode_pointer_field descriptors constants r' noinit' wt it)).
  { intros i. unfold decode_pointer_field. apply approx_bind; [apply approx_refl|]. intros f. cbv zeta. apply decoder_approx. intros func func' Hf.
    pose proof (packed_pointer_approx func func'). approximates. }
  unfold decode_field. approximates.
Qed.

Lemma extension_approx left tg wt fuel : forall e, approx (extension_loop descriptors constants funcs_decode type_decode r noinit fuel left tg wt e)
  (extension_loop descriptors constants funcs_decode type_decode r' noinit' fuel left tg wt e).
Proof.
  pose proof decode_field_approx. induction fuel as [|fuel IH]; intros e; cbn [extension_loop]; [apply approx_refl|].
  unfold default_extension_decoder. approximates.
Qed.

Lemma decode_fields_approx fuel c : forall v, approx (decode_fields descriptors constants funcs_decode type_decode r noinit fuel c v)
  (decode_fields descriptors constants funcs_decode type_decode r' noinit' fuel c v).
Proof.
  pose proof decode_field_approx. pose proof extension_approx. induction fuel as [|fuel IH]; intros v; cbn [decode_fields]; [apply approx_refl|].
  unfold decode_unknown, decode_extension. approximates.
Qed.

Lemma decode_message_approx fields d : approx (decode_message descriptors constants funcs_decode type_decode r noinit fields d)
  (decode_message descriptors constants funcs_decode type_decode r' noinit' fields d).
Proof. pose proof decode_fields_approx. unfold decode_message. approximates. Qed.
End noinit.

Lemma noinit_approx k : forall k' fields d, (k <= k')%nat -> approx (pb_decode_noinit descriptors constants funcs_decode type_decode r k fields d)
  (pb_decode_noinit descriptors constants funcs_decode type_decode r' k' fields d).
Proof.
  induction k as [|k IH]; intros k' fields d Hk; [apply approx_stuck|]. destruct k' as [|k']; [lia|]. cbn [pb_decode_noinit].
  apply decode_message_approx. intros fields' d'. apply IH. lia.
Qed.

(** [pb_decode] with more fuel of either kind. *)
Lemma pb_decode_approx k k' fields d : (k <= k')%nat -> approx (pb_decode descriptors constants funcs_decode type_decode r k fields d)
  (pb_decode descriptors constants funcs_decode type_decode r' k' fields d).
Proof. intros Hk. unfold pb_decode. apply decode_init_approx. intros fields' d'. apply noinit_approx, Hk. Qed.
End fuel.
