(* ===== verification/PbSep.v ===== *)
(** A separation logic for the decoder's heap: assertions are predicates on
    heaps, as a logic of the Iris proof mode.  It is linear, so that what an
    assertion describes is all there is and a proof that a block is not
    mentioned any more is a proof that it has been freed. *)
From Stdlib Require Import ZArith Lia Bool String.
From coqutil Require Import Byte Word.LittleEndianList.
From stdpp Require Import base list numbers gmap.
From iris.bi Require Import bi.
From iris.proofmode Require Import proofmode.
From S2P Require Import Prelude PbStream PbCommon PbCodec PbSpec PbMemory PbAdvance PbHeap.
#[local] Unset SsrRewrite.
Local Open Scope Z_scope.
Local Open Scope c_scope.

(** ** Parts of a heap *)

Definition apart (h1 h2 : heap) : Prop := h_mem h1 ##ₘ h_mem h2 /\ h_blocks h1 ##ₘ h_blocks h2.
Definition join (h1 h2 : heap) : heap := mk_heap (h_mem h1 ∪ h_mem h2) (h_blocks h1 ∪ h_blocks h2).
Definition no_heap : heap := mk_heap ∅ ∅.

Lemma apart_sym h1 h2 : apart h1 h2 -> apart h2 h1.
Proof. intros [? ?]. split; apply map_disjoint_sym; assumption. Qed.
Lemma apart_none h : apart no_heap h.
Proof. split; apply map_disjoint_empty_l. Qed.
Lemma join_none h : join no_heap h = h.
Proof. destruct h. unfold join. cbn. rewrite !(left_id_L ∅ (∪)). reflexivity. Qed.
Lemma join_comm h1 h2 : apart h1 h2 -> join h1 h2 = join h2 h1.
Proof. intros [? ?]. unfold join. f_equal; apply map_union_comm; assumption. Qed.
Lemma join_assoc h1 h2 h3 : join h1 (join h2 h3) = join (join h1 h2) h3.
Proof. unfold join. cbn. rewrite !map_union_assoc. reflexivity. Qed.
Lemma apart_join_l h1 h2 h3 : apart (join h1 h2) h3 <-> apart h1 h3 /\ apart h2 h3.
Proof. unfold apart. cbn. rewrite !map_disjoint_union_l. tauto. Qed.
Lemma apart_join_r h1 h2 h3 : apart h3 (join h1 h2) <-> apart h3 h1 /\ apart h3 h2.
Proof. unfold apart. cbn. rewrite !map_disjoint_union_r. tauto. Qed.

(** ** Assertions *)

Record hprop := Assert { holds :> heap -> Prop }.

Record h_entails (P Q : hprop) : Prop := Entails { entails : forall h, P h -> Q h }.
Arguments entails {P Q}.
Definition h_emp : hprop := Assert (fun h => h = no_heap).
Definition h_pure (φ : Prop) : hprop := Assert (fun _ => φ).
Definition h_and (P Q : hprop) : hprop := Assert (fun h => P h /\ Q h).
Definition h_or (P Q : hprop) : hprop := Assert (fun h => P h \/ Q h).
Definition h_impl (P Q : hprop) : hprop := Assert (fun h => P h -> Q h).
Definition h_forall A (Φ : A -> hprop) : hprop := Assert (fun h => forall a, Φ a h).
Definition h_exist A (Φ : A -> hprop) : hprop := Assert (fun h => exists a, Φ a h).
Definition h_sep (P Q : hprop) : hprop :=
  Assert (fun h => exists h1 h2, h = join h1 h2 /\ apart h1 h2 /\ P h1 /\ Q h2).
Definition h_wand (P Q : hprop) : hprop :=
  Assert (fun h => forall h', apart h h' -> P h' -> Q (join h h')).
Definition h_pers (P : hprop) : hprop := h_pure (h_entails h_emp P).

Record h_eq (P Q : hprop) : Prop := Alike { alike : forall h, P h <-> Q h }.
Arguments alike {P Q}.
#[export] Instance h_equiv : Equiv hprop := h_eq.
#[export] Instance h_equivalence : Equivalence (≡@{hprop}).
Proof.
  split.
  - intros P. split. reflexivity.
  - intros P Q [H]. split. intros h. symmetry. apply H.
  - intros P Q R [H1] [H2]. split. intros h. rewrite H1. apply H2.
Qed.
Canonical Structure hpropO := discreteO hprop.

Lemma h_mixin : BiMixin h_entails h_emp h_pure h_and h_or h_impl h_forall h_exist h_sep h_wand.
Proof.
  split.
  - split; [intros P; split; auto | intros P Q R [H1] [H2]; split; auto].
  - intros P Q. split; [intros [H]; split; split; intros h; apply (H h) | intros [[H1] [H2]]; split; intros h; split; auto].
  - intros n φ ψ H. split. intros h. exact H.
  - intros n P P' [H] Q Q' [H']. split. intros h. cbn. specialize (H h). specialize (H' h). tauto.
  - intros n P P' [H] Q Q' [H']. split. intros h. cbn. specialize (H h). specialize (H' h). tauto.
  - intros n P P' [H] Q Q' [H']. split. intros h. cbn. specialize (H h). specialize (H' h). tauto.
  - intros A n Φ Ψ H. split. intros h. cbn. split; intros H1 a; apply (alike (H a) h), H1.
  - intros A n Φ Ψ H. split. intros h. cbn. split; intros [a H1]; exists a; apply (alike (H a) h), H1.
  - intros n P P' [H] Q Q' [H']. split. intros h. cbn.
    split; intros (h1 & h2 & E & Hd & H1 & H2); exists h1, h2; (split; [exact E|]); (split; [exact Hd|]);
      (split; [apply (H h1), H1 | apply (H' h2), H2]).
  - intros n P P' [H] Q Q' [H']. split. intros h. cbn.
    split; intros H1 h' Hd H2; apply (H' (join h h')), H1, (H h'), H2; exact Hd.
  - intros φ P Hφ. split. intros h _. exact Hφ.
  - intros φ P H. split. intros h Hφ. exact (entails (H Hφ) h I).
  - intros P Q. split. intros h [H _]. exact H.
  - intros P Q. split. intros h [_ H]. exact H.
  - intros P Q R [H1] [H2]. split. intros h H. split; auto.
  - intros P Q. split. intros h H. left. exact H.
  - intros P Q. split. intros h H. right. exact H.
  - intros P Q R [H1] [H2]. split. intros h [H|H]; auto.
  - intros P Q R [H]. split. intros h HP HQ. apply H. split; assumption.
  - intros P Q R [H]. split. intros h [HP HQ]. exact (H h HP HQ).
  - intros A P Ψ H. split. intros h HP a. apply (entails (H a)), HP.
  - intros A Ψ a. split. intros h H. apply H.
  - intros A Ψ a. split. intros h H. exists a. exact H.
  - intros A Φ Q H. split. intros h [a Ha]. apply (entails (H a)), Ha.
  - intros P P' Q Q' [H1] [H2]. split. intros h (h1 & h2 & E & Hd & HP & HQ). exists h1, h2. auto.
  - intros P. split. intros h H. exists no_heap, h. rewrite join_none. repeat split; [apply apart_none.. | exact H].
  - intros P. split. intros h (h1 & h2 & -> & _ & -> & H). rewrite join_none. exact H.
  - intros P Q. split. intros h (h1 & h2 & -> & Hd & HP & HQ). exists h2, h1. rewrite join_comm by exact Hd. auto using apart_sym.
  - intros P Q R. split. intros h (h12 & h3 & -> & Hd & (h1 & h2 & -> & Hd' & HP & HQ) & HR).
    apply apart_join_l in Hd as [Hd1 Hd2]. exists h1, (join h2 h3). rewrite join_assoc.
    split; [reflexivity|]. split; [apply apart_join_r; auto|]. split; [exact HP|]. exists h2, h3. auto.
  - intros P Q R [H]. split. intros h HP h' Hd HQ. apply H. exists h, h'. auto.
  - intros P Q R [H]. split. intros h (h1 & h2 & -> & Hd & HP & HQ). exact (H h1 HP h2 Hd HQ).
Qed.

Lemma h_pers_mixin : BiPersistentlyMixin h_entails h_emp h_and h_exist h_sep h_pers.
Proof.
  eapply bi_persistently_mixin_discrete; [| |reflexivity | exact h_mixin].
  - intros n P Q H. exact H.
  - intros A Φ H. destruct (entails H no_heap eq_refl) as [a Ha]. exists a. split. intros h ->. exact Ha.
Qed.

Lemma h_later_mixin :
  BiLaterMixin h_entails h_pure h_or h_impl h_forall h_exist h_sep h_pers (fun P => P).
Proof. eapply bi_later_mixin_id; [reflexivity | exact h_mixin]. Qed.

Canonical Structure hpropI : bi := {|
  bi_ofe_mixin := ofe_mixin_of hprop;
  bi_bi_mixin := h_mixin;
  bi_bi_persistently_mixin := h_pers_mixin;
  bi_bi_later_mixin := h_later_mixin |}.

#[export] Instance h_pure_forall : BiPureForall hpropI.
Proof. intros A φ. split. intros h H a. exact (H a). Qed.

(** A fact about values, with no part of the heap. *)
Notation "⌞ φ ⌟" := (<affine> ⌜φ⌝)%I (at level 1, φ at level 200, format "⌞ φ ⌟") : bi_scope.

(** ** Points-to assertions *)

Definition bytes_heap (a : Z) (bs : list byte) : heap := mk_heap (store_bytes ∅ a bs) ∅.

(** The object at [a] has the bytes [bs]. *)
Definition points_to (a : Z) (bs : list byte) : hprop :=
  Assert (fun h => h = bytes_heap a bs /\ 0 < a).
(** A block of [n] bytes that can be freed. *)
Definition block (p n : Z) : hprop :=
  Assert (fun h => h = mk_heap ∅ {[p := n]} /\ 0 < p /\ p + n <= 2 ^ 64).
Notation "a ↦∗ bs" := (points_to a bs) (at level 20, format "a  ↦∗  bs") : bi_scope.

Lemma affine_pure_holds (φ : Prop) h : (⌞φ⌟ : hprop)%I h <-> φ /\ h = no_heap.
Proof. unfold bi_affinely. split; [intros [H1 H2] | intros [H1 H2]]; split; assumption. Qed.

Lemma points_to_valid a bs : a ↦∗ bs ⊢ a ↦∗ bs ∗ ⌞0 < a⌟.
Proof.
  split. intros h H. exists h, no_heap. pose proof H as (-> & H1).
  rewrite join_comm by (apply apart_sym, apart_none). rewrite join_none.
  split; [reflexivity|]. split; [apply apart_sym, apart_none|]. split; [exact H|].
  apply affine_pure_holds. auto.
Qed.

Lemma block_valid p n : block p n ⊢ block p n ∗ ⌞0 < p /\ p + n <= 2 ^ 64⌟.
Proof.
  split. intros h H. exists h, no_heap. pose proof H as (-> & H1 & H2).
  rewrite join_comm by (apply apart_sym, apart_none). rewrite join_none.
  split; [reflexivity|]. split; [apply apart_sym, apart_none|]. split; [exact H|].
  apply affine_pure_holds. auto.
Qed.

Lemma points_to_app a bs1 bs2 :
  a ↦∗ (bs1 ++ bs2) ⊣⊢ a ↦∗ bs1 ∗ (a + zlen bs1) ↦∗ bs2.
Proof.
  destruct (stored_app a bs1 bs2) as [Hu Hd]. pose proof (zlen_nonneg bs1). pose proof (zlen_nonneg bs2). split. intros h. split.
  - intros (-> & H1). exists (bytes_heap a bs1), (bytes_heap (a + zlen bs1) bs2).
    unfold bytes_heap, join, apart. cbn. rewrite Hu, (left_id_L ∅ (∪)).
    split; [reflexivity|]. split; [split; [exact Hd | apply map_disjoint_empty_l]|]. repeat split; lia.
  - intros (h1 & h2 & -> & _ & (-> & H1) & (-> & H3)). unfold bytes_heap, join. cbn.
    rewrite <- Hu, (left_id_L ∅ (∪)). auto.
Qed.

(** ** Programs *)

Section wp.
Context {CB : Type} {ICB : InputCallback CB} {MA : Machine}.
Notation D := (M (dstate CB)).

(** [wp c Φ K s]: from a stream [s] that is in order and any heap around what the
    assertion describes, [c] does not get stuck, leaves what is around alone, and
    the stream has advanced; [Φ] holds of the result (nothing for a failure),
    the stream and what there is in the place of the assertion. *)
Definition wp {A} (c : D A) (Φ : option A -> pb_istream CB -> hprop) (K : Z) (s : pb_istream CB) : hprop :=
  Assert (fun h => in_order K s -> forall F, apart h F ->
    exists o h' s', c (mk_dstate s (join h F)) = (o, mk_dstate s' (join h' F)) /\ apart h' F /\ advances K s s' /\
      match o with Ok a => Φ (Some a) s' h' | Fail => Φ None s' h' | Stuck => False end).

Context {A B : Type} (K : Z).
Implicit Types (Φ Ψ : option A -> pb_istream CB -> hprop) (s : pb_istream CB) (P Q : hprop).

Lemma wp_ret (a : A) Φ s : Φ (Some a) s ⊢ wp (ret a) Φ K s.
Proof. split. intros h H Hs F HF. exists (Ok a), h, s. auto using advances_refl. Qed.

Lemma wp_fail Φ s : Φ None s ⊢ wp fail Φ K s.
Proof. split. intros h H Hs F HF. exists Fail, h, s. auto using advances_refl. Qed.

(** The stream is in order, and what comes out has advanced. *)
Lemma wp_strengthen (c : D A) Φ s P :
  (in_order K s -> P ⊢ wp c (fun o s' => ⌞advances K s s'⌟ -∗ Φ o s') K s) -> P ⊢ wp c Φ K s.
Proof.
  intros H. split. intros h HP Hs F HF. destruct (entails (H Hs) h HP Hs F HF) as (o & h' & s' & E & HF' & Hs' & Ho).
  exists o, h', s'. do 3 (split; [assumption|]).
  assert (Hw : forall a, (⌞advances K s s'⌟ -∗ Φ a s')%I h' -> Φ a s' h').
  { intros a Hw. specialize (Hw no_heap (apart_sym _ _ (apart_none h'))). rewrite join_comm, join_none in Hw by (apply apart_sym, apart_none).
    apply Hw, affine_pure_holds. auto. }
  destruct o; auto.
Qed.

Lemma wp_mono (c : D A) Φ Ψ s : (forall o s', Φ o s' ⊢ Ψ o s') -> wp c Φ K s ⊢ wp c Ψ K s.
Proof.
  intros H. split. intros h Hc Hs F HF. destruct (Hc Hs F HF) as (o & h' & s' & E & HF' & Hs' & Ho).
  exists o, h', s'. do 3 (split; [assumption|]). destruct o; [apply (entails (H _ _)), Ho | apply (entails (H _ _)), Ho | exact Ho].
Qed.

Lemma wp_frame (c : D A) Φ s P : P ∗ wp c Φ K s ⊢ wp c (fun o s' => P ∗ Φ o s') K s.
Proof.
  split. intros h (h1 & h2 & -> & Hd & HP & Hc) Hs F HF. apply apart_join_l in HF as [HF1 HF2].
  destruct (Hc Hs (join h1 F)) as (o & h' & s' & E & HF' & Hs' & Ho).
  { apply apart_join_r. split; [apply apart_sym, Hd | exact HF2]. }
  apply apart_join_r in HF' as [Hd' HF'].
  assert (E1 : join (join h1 h2) F = join h2 (join h1 F)) by (rewrite (join_comm h1 h2) by exact Hd; symmetry; apply join_assoc).
  assert (E2 : join h' (join h1 F) = join (join h1 h') F) by (rewrite join_assoc; f_equal; apply join_comm; exact Hd').
  exists o, (join h1 h'), s'. rewrite E1, E, E2. split; [reflexivity|]. split; [apply apart_join_l; split; [exact HF1 | exact HF']|].
  split; [assumption|]. destruct o; [| |exact Ho]; exists h1, h'; auto using apart_sym.
Qed.

(** A specification with its postcondition as a continuation. *)
Lemma wp_wand (c : D A) Φ Ψ s : wp c Φ K s ⊢ (∀ o s', Φ o s' -∗ Ψ o s') -∗ wp c Ψ K s.
Proof.
  iIntros "Hc HΦ". iApply (wp_mono _ (fun o s' => (∀ o s', Φ o s' -∗ Ψ o s') ∗ Φ o s')%I).
  { intros o s'. iIntros "[HΦ H]". iApply ("HΦ" with "H"). }
  iApply wp_frame. iFrame.
Qed.

Lemma wp_bind (c : D B) (k : B -> D A) Φ s :
  wp c (fun o s' => match o with Some b => wp (k b) Φ K s' | None => Φ None s' end) K s ⊢ wp (bind c k) Φ K s.
Proof.
  split. intros h Hc Hs F HF. destruct (Hc Hs F HF) as (o & h' & s' & E & HF' & Hs' & Ho).
  destruct o as [b| |]; [| |contradiction].
  - destruct (Ho (proj1 Hs') F HF') as (o & h'' & s'' & E' & HF'' & Hs'' & Ho').
    exists o, h'', s''. rewrite (bind_Ok _ _ _ _ _ E). split; [exact E'|]. split; [exact HF''|].
    split; [exact (advances_trans K _ _ _ Hs' Hs'') | exact Ho'].
  - exists Fail, h', s'. rewrite (bind_Fail _ _ _ _ E). auto.
Qed.

(** Programs that act alike. *)
Lemma wp_ext (c c' : D A) Φ s : (forall h, c (mk_dstate s h) = c' (mk_dstate s h)) -> wp c' Φ K s ⊢ wp c Φ K s.
Proof. intros H. split. intros h Hc Hs F HF. rewrite H. exact (Hc Hs F HF). Qed.

Lemma wp_known (v : option A) a Φ s : v = Some a -> Φ (Some a) s ⊢ wp (known v) Φ K s.
Proof. intros ->. apply wp_ret. Qed.

Lemma wp_local {S'} (m : M S' A) (x : S') a y (Φ : option (A * S') -> pb_istream CB -> hprop) s :
  m x = (Ok a, y) -> Φ (Some (a, y)) s ⊢ wp (local m x) Φ K s.
Proof. intros E. split. intros h H Hs F HF. exists (Ok (a, y)), h, s. unfold local. rewrite E. auto using advances_refl. Qed.
End wp.

(** ** Rules for the primitives *)

Section primitives.
Context {CB : Type} {ICB : InputCallback CB} {MA : Machine} (K : Z).
Notation D := (M (dstate CB)).
Implicit Types (s : pb_istream CB) (P Q : hprop).

(** An operation that turns what [P] describes into what [Q] describes, whatever
    is around. *)
Lemma wp_prim_any {A} (c : D A) P (Q : A -> hprop) s (Φ : option A -> pb_istream CB -> hprop) :
  (forall h F, P h -> apart h F -> exists a h', c (mk_dstate s (join h F)) = (Ok a, mk_dstate s (join h' F)) /\
    apart h' F /\ Q a h') ->
  P ⊢ (∀ a, Q a -∗ Φ (Some a) s) -∗ wp c Φ K s.
Proof.
  intros H. apply bi.wand_intro_r. split. intros h (h1 & h2 & -> & Hd & HP & HQ) Hs F HF. apply apart_join_l in HF as [HF1 HF2].
  destruct (H h1 (join h2 F) HP) as (a & h' & E & HF' & HQ'); [apply apart_join_r; auto|].
  apply apart_join_r in HF' as [Hd' HF']. exists (Ok a), (join h2 h'), s.
  rewrite (join_comm h2 h') by (apply apart_sym; exact Hd'). rewrite <- !join_assoc. split; [exact E|].
  split; [apply apart_join_l; auto|]. split; [exact (advances_refl K s Hs)|].
  rewrite (join_comm h' h2) by exact Hd'. apply HQ; [apply apart_sym, Hd' | exact HQ'].
Qed.

Lemma wp_prim {A} (c : D A) P Q (a : A) s (Φ : option A -> pb_istream CB -> hprop) :
  (forall h F, P h -> apart h F -> exists h', c (mk_dstate s (join h F)) = (Ok a, mk_dstate s (join h' F)) /\
    apart h' F /\ Q h') ->
  P ⊢ (Q -∗ Φ (Some a) s) -∗ wp c Φ K s.
Proof.
  intros H. iIntros "HP HΦ". iApply (wp_prim_any c P (fun a' => ⌞a' = a⌟ ∗ Q)%I with "HP").
  - intros h F HP HF. destruct (H h F HP HF) as (h' & E & HF' & HQ). exists a, h'. do 2 (split; [assumption|]).
    exists no_heap, h'. rewrite join_none. split; [reflexivity|]. split; [apply apart_none|]. split; [|exact HQ].
    apply affine_pure_holds. auto.
  - iIntros (a') "[-> HQ]". iApply ("HΦ" with "HQ").
Qed.

Lemma wp_load_at d bs off n a s (Φ : option (list byte) -> pb_istream CB -> hprop) :
  a = d + off -> 0 <= off -> 0 <= n -> off + n <= zlen bs ->
  d ↦∗ bs ⊢ (d ↦∗ bs -∗ Φ (Some (slice bs off n)) s) -∗ wp (load_at a n) Φ K s.
Proof.
  intros -> Ho Hn Hl. apply wp_prim. intros h F (-> & H1) HF.
  exists (bytes_heap d bs). split; [|split; [exact HF | repeat split; assumption]].
  unfold load_at, join. cbn [d_heap h_mem bytes_heap]. rewrite load_store by assumption. reflexivity.
Qed.

Lemma wp_store_at d bs off new a s (Φ : option unit -> pb_istream CB -> hprop) :
  a = d + off -> 0 <= off -> off + zlen new <= zlen bs ->
  d ↦∗ bs ⊢ (d ↦∗ splice bs off new -∗ Φ (Some tt) s) -∗ wp (store_at a new) Φ K s.
Proof.
  intros -> Ho Hl. pose proof (zlen_nonneg new). apply wp_prim. intros h F (-> & H1) HF.
  exists (bytes_heap d (splice bs off new)). assert (Hz : zlen (splice bs off new) = zlen bs) by (apply zlen_splice; lia).
  unfold store_at, join, apart in *. cbn [d_heap h_mem h_blocks bytes_heap d_stream] in *. rewrite load_store by (assumption || lia).
  split; [|split; [|repeat split; assumption]].
  - rewrite store_union, map_union_assoc, <- store_union, store_splice by assumption. reflexivity.
  - split; [|apply HF]. destruct HF as [HF _]. rewrite map_disjoint_dom in *. intros x Hx. apply HF.
    apply elem_of_dom, store_is_Some. apply elem_of_dom, store_is_Some in Hx. rewrite Hz in Hx. exact Hx.
Qed.

Lemma wp_get_int d bs off n a s (Φ : option Z -> pb_istream CB -> hprop) :
  a = d + off -> 0 <= off -> 0 <= n -> off + n <= zlen bs ->
  d ↦∗ bs ⊢ (d ↦∗ bs -∗ Φ (Some (le_combine (slice bs off n))) s) -∗ wp (get_int a n) Φ K s.
Proof.
  intros Ha Ho Hn Hl. iIntros "H HΦ". unfold get_int. iApply wp_bind. iApply (wp_load_at d bs off n with "H"); try assumption.
  iIntros "H". iApply wp_ret. iApply ("HΦ" with "H").
Qed.

Lemma wp_put_int d bs off n v a s (Φ : option unit -> pb_istream CB -> hprop) :
  a = d + off -> 0 <= off -> off + Z.of_nat n <= zlen bs ->
  d ↦∗ bs ⊢ (d ↦∗ splice bs off (le_split n v) -∗ Φ (Some tt) s) -∗ wp (put_int a n v) Φ K s.
Proof.
  intros Ha Ho Hl. apply wp_store_at; [exact Ha | exact Ho|]. unfold zlen at 1. rewrite length_le_split. exact Hl.
Qed.

(** *** Blocks *)

(** What a pointer to an allocated object owns; NULL has no object. *)
Definition owned (p : Z) (bs : list byte) : hprop :=
  if p =? 0 then ⌞bs = []⌟%I else (block p (zlen bs) ∗ p ↦∗ bs)%I.

Definition owned_heap (p : Z) (bs : list byte) : heap := mk_heap (store_bytes ∅ p bs) {[p := zlen bs]}.

Lemma block_points_to_holds p bs h :
  (block p (zlen bs) ∗ p ↦∗ bs)%I h <-> h = owned_heap p bs /\ 0 < p /\ p + zlen bs <= 2 ^ 64.
Proof.
  unfold owned_heap. split.
  - intros (h1 & h2 & -> & _ & (-> & H1 & H2) & (-> & _)). unfold join. cbn. rewrite (left_id_L ∅ (∪)), (right_id_L ∅ (∪)). auto.
  - intros (-> & H1 & H2). exists (mk_heap ∅ {[p := zlen bs]}), (bytes_heap p bs). unfold join, apart. cbn.
    rewrite (left_id_L ∅ (∪)), (right_id_L ∅ (∪)). split; [reflexivity|].
    split; [split; [apply map_disjoint_empty_l | apply map_disjoint_empty_r]|]. repeat split; assumption.
Qed.

Lemma unmapped_apart (m : mem) a bs : unmapped m a (zlen bs) -> store_bytes ∅ a bs ##ₘ m.
Proof.
  intros H. apply map_disjoint_alt. intros i. destruct (decide (a <= i < a + zlen bs)); [right | left].
  - replace i with (a + (i - a)) by lia. apply H. lia.
  - apply eq_None_not_Some. rewrite store_is_Some. lia.
Qed.

Lemma apart_unmapped (m : mem) a bs : store_bytes ∅ a bs ##ₘ m -> unmapped m a (zlen bs).
Proof.
  intros H i Hi. destruct (proj2 (store_is_Some bs a (a + i)) ltac:(lia)) as [b Hb].
  destruct (m !! (a + i)) eqn:E; [|reflexivity]. exfalso. exact (proj1 (map_disjoint_spec _ _) H _ _ _ Hb E).
Qed.

Lemma remove_owned p bs F : apart (owned_heap p bs) F -> remove (join (owned_heap p bs) F) p (zlen bs) = F.
Proof.
  intros [H1 H2]. destruct F as [m b]. unfold remove, join, owned_heap in *. cbn in *. f_equal.
  - unfold zlen at 1. rewrite Nat2Z.id. apply erase_store, apart_unmapped, H1.
  - rewrite <- insert_union_singleton_l. apply delete_insert_id.
    apply map_disjoint_singleton_l in H2. exact H2.
Qed.

Lemma wp_free p bs s (Φ : option unit -> pb_istream CB -> hprop) :
  owned p bs ⊢ Φ (Some tt) s -∗ wp (pb_free p) Φ K s.
Proof.
  unfold owned. destruct (Z.eqb_spec p 0) as [->|Hp].
  - iIntros "-> HΦ". iApply (wp_ext _ (ret tt)); [reflexivity|]. iApply wp_ret. iExact "HΦ".
  - iIntros "H HΦ". iApply (wp_prim _ _ emp%I tt s with "H"); [|iIntros "_"; iExact "HΦ"].
    intros h F (-> & H1 & H2)%block_points_to_holds HF. exists no_heap. rewrite join_none.
    split; [|split; [apply apart_none | reflexivity]].
    unfold pb_free. cbn [d_heap d_stream]. destruct (Z.eqb_spec p 0); [contradiction|].
    unfold join at 1. cbn [h_blocks owned_heap]. rewrite (lookup_union_Some_l _ _ _ (zlen bs)) by apply lookup_singleton_eq.
    rewrite remove_owned by exact HF. reflexivity.
Qed.

Lemma owned_holds p bs h : p <> 0 -> owned p bs h <-> h = owned_heap p bs /\ 0 < p /\ p + zlen bs <= 2 ^ 64.
Proof. intros Hp. unfold owned. destruct (Z.eqb_spec p 0); [contradiction | apply block_points_to_holds]. Qed.

Lemma owned_null p : p = 0 -> ⊢ owned p [].
Proof. intros ->. unfold owned. cbn. iPureIntro. reflexivity. Qed.
Lemma owned_some p bs : p <> 0 -> owned p bs = (block p (zlen bs) ∗ p ↦∗ bs)%I.
Proof. intros Hp. unfold owned. destruct (Z.eqb_spec p 0); [contradiction | reflexivity]. Qed.

(** A block that [malloc] gives out and that is filled in. *)
Lemma malloc_owned F n a new old : 0 < n -> malloc F n = Some (a, new) ->
  let bs := ztake n old ++ zdrop (zlen old) new in
  mk_heap (store_bytes (h_mem F) a bs) (<[a := n]> (h_blocks F)) = join (owned_heap a bs) F /\
  apart (owned_heap a bs) F /\ owned a bs (owned_heap a bs) /\ zlen bs = n /\ a <> 0.
Proof.
  intros Hn E. cbv zeta. destruct (malloc_ok _ _ _ _ Hn E) as (Hl & Ha & Hb & Hu & Hf). pose proof (zlen_nonneg old).
  assert (Hz : zlen (ztake n old ++ zdrop (zlen old) new) = n).
  { rewrite zlen_app. unfold zlen, ztake, zdrop in *. rewrite length_take, length_drop. lia. }
  set (bs := ztake n old ++ zdrop (zlen old) new) in *. unfold owned_heap, join, apart. cbn. rewrite Hz.
  split; [f_equal; [apply store_union | apply insert_union_singleton_l]|].
  split; [split; [apply unmapped_apart; rewrite Hz; exact Hu | apply map_disjoint_singleton_l_2, Hf]|].
  split; [apply owned_holds; [lia|]; unfold owned_heap; rewrite Hz; auto | lia].
Qed.

Lemma load_whole (m : mem) a bs : load_bytes (store_bytes ∅ a bs ∪ m) a (zlen bs) = Some bs.
Proof.
  pose proof (load_store m a bs 0 (zlen bs)) as H. rewrite Z.add_0_r, slice_all in H.
  apply H; pose proof (zlen_nonneg bs); lia.
Qed.

(** A size that there may be memory for. *)
Definition available (n : Z) : Prop := exists h a new, malloc h n = Some (a, new).

(** What [realloc] leaves: the block has moved, keeping as much as fits, or it
    is where it was. *)
Definition reallocated (p : Z) (bs : list byte) (n q : Z) : hprop :=
  (⌞q = 0⌟ ∗ owned p bs ∨
   ∃ junk, ⌞(q <> 0 /\ available n) /\ zlen (ztake n bs ++ junk) = n⌟ ∗ owned q (ztake n bs ++ junk))%I.

Lemma wp_realloc p bs n s (Φ : option Z -> pb_istream CB -> hprop) : 0 < n ->
  owned p bs ⊢ (∀ q, reallocated p bs n q -∗ Φ (Some q) s) -∗ wp (pb_realloc p n) Φ K s.
Proof.
  intros Hn. apply wp_prim_any. intros h F Hh HF.
  assert (Hgive : forall st, d_stream st = s -> d_heap st = join h F -> exists a h',
    match malloc F n with
    | None => (Ok 0, st)
    | Some (a, new) =>
        let new := ztake n bs ++ zdrop (zlen bs) new in
        (Ok a, mk_dstate s (mk_heap (store_bytes (h_mem F) a new) (<[a := n]> (h_blocks F))))
    end = (Ok a, mk_dstate s (join h' F)) /\ apart h' F /\ reallocated p bs n a h').
  { intros [s' h'] Es Eh. cbn in Es, Eh. subst s' h'. destruct (malloc F n) as [[a new]|] eqn:E.
    - destruct (malloc_owned F n a new bs Hn E) as (E1 & E2 & E3 & E4 & E5). cbv zeta. rewrite E1.
      eexists a, _. split; [reflexivity|]. split; [exact E2|]. right. exists (zdrop (zlen bs) new), no_heap, (owned_heap a (ztake n bs ++ zdrop (zlen bs) new)).
      rewrite join_none. split; [reflexivity|]. split; [apply apart_none|]. split; [|exact E3].
      apply affine_pure_holds. split; [|reflexivity]. split; [split; [exact E5 | exists F, a, new; exact E] | exact E4].
    - exists 0, h. split; [reflexivity|]. split; [exact HF|]. left. exists no_heap, h. rewrite join_none.
      split; [reflexivity|]. split; [apply apart_none|]. split; [apply affine_pure_holds; auto | exact Hh]. }
  unfold pb_realloc. cbn [d_heap d_stream]. destruct (Z.eqb_spec p 0) as [Ep|Hp].
  - pose proof Hh as Hh'. unfold owned in Hh'. rewrite (proj2 (Z.eqb_eq p 0) Ep) in Hh'. apply affine_pure_holds in Hh' as [-> ->].
    rewrite join_none in *. exact (Hgive (mk_dstate s F) eq_refl eq_refl).
  - pose proof (proj1 (owned_holds p bs h Hp) Hh) as (-> & H1 & H2).
    unfold join at 1. cbn [h_blocks owned_heap]. rewrite (lookup_union_Some_l _ _ _ (zlen bs)) by apply lookup_singleton_eq.
    unfold join at 1. cbn [h_mem owned_heap]. rewrite load_whole, remove_owned by exact HF.
    exact (Hgive (mk_dstate s (join (owned_heap p bs) F)) eq_refl eq_refl).
Qed.
(** *** Streams *)

Definition outcome_of {A} (o : option A) : outcome A := match o with Some a => Ok a | None => Fail end.

Lemma wp_istream {A} (m : M (pb_istream CB) A) (R : outcome A -> pb_istream CB -> Prop) s (Φ : option A -> pb_istream CB -> hprop) :
  (in_order K s -> fst (m s) <> Stuck /\ advances K s (snd (m s)) /\ R (fst (m s)) (snd (m s))) ->
  (∀ o s', ⌞R (outcome_of o) s'⌟ -∗ Φ o s') ⊢ wp (on_istream m) Φ K s.
Proof.
  intros Hm. split. intros h H Hs F HF. destruct (Hm Hs) as (H1 & H2 & H3). unfold on_istream. cbn [d_stream d_heap].
  destruct (m s) as [r s'] eqn:E. cbn [fst snd] in *. exists r, h, s'. do 3 (split; [assumption || reflexivity|]).
  assert (Hw : forall o, r = outcome_of o -> Φ o s' h).
  { intros o Ho. specialize (H o s' no_heap (apart_sym _ _ (apart_none h))).
    rewrite (join_comm h), join_none in H by (apply apart_sym, apart_none). apply H, affine_pure_holds. rewrite <- Ho. auto. }
  destruct r as [a| |]; [apply (Hw (Some a)) | apply (Hw None) | exact (H1 eq_refl)]; reflexivity.
Qed.

Lemma wp_on_istream {A} (m : M (pb_istream CB) A) s (Φ : option A -> pb_istream CB -> hprop) :
  (in_order K s -> fst (m s) <> Stuck /\ advances K s (snd (m s))) ->
  (∀ o s', ⌞m s = (outcome_of o, s')⌟ -∗ Φ o s') ⊢ wp (on_istream m) Φ K s.
Proof.
  intros Hm. apply (wp_istream m (fun r s' => m s = (r, s'))). intros Hs. destruct (Hm Hs) as [H1 H2].
  split; [exact H1|]. split; [exact H2 | apply surjective_pairing].
Qed.

Lemma wp_return_error {A} msg s (Φ : option A -> pb_istream CB -> hprop) :
  (∀ s', Φ None s') ⊢ wp (return_error msg) Φ K s.
Proof.
  iIntros "H". iApply wp_on_istream; [|iIntros (o s' E)].
  - intros Hs. split; [discriminate | apply keeps_error, Hs].
  - unfold i_return_error in E. destruct o; [discriminate|]. iApply "H".
Qed.

Lemma wp_get s (Φ : option (dstate CB) -> pb_istream CB -> hprop) :
  (∀ h, Φ (Some (mk_dstate s h)) s) ⊢ wp get Φ K s.
Proof. split. intros h H Hs F HF. exists (Ok (mk_dstate s (join h F))), h, s. auto using advances_refl. Qed.

Lemma wp_on_substream {A} (c : D A) K' sub s (Φ : option (option A * pb_istream CB) -> pb_istream CB -> hprop) :
  in_order K' sub -> wp c (fun o sub' => Φ (Some (o, sub')) s) K' sub ⊢ wp (on_substream c sub) Φ K s.
Proof.
  intros Hsub. split. intros h Hc Hs F HF. destruct (Hc Hsub F HF) as (o & h' & sub' & E & HF' & Hs' & Ho).
  unfold on_substream. cbn [d_heap d_stream]. rewrite E.
  destruct o as [a| |]; [..|contradiction]; eexists _, h', s; (split; [reflexivity|]); auto using advances_refl.
Qed.

Lemma wp_status_of {A} (c : D A) s (Φ : option (option A) -> pb_istream CB -> hprop) :
  wp c (fun o s' => Φ (Some o) s') K s ⊢ wp (status_of c) Φ K s.
Proof.
  split. intros h Hc Hs F HF. destruct (Hc Hs F HF) as (o & h' & s' & E & HF' & Hs' & Ho).
  unfold status_of. rewrite E.
  destruct o as [a| |]; [..|contradiction]; eexists _, h', s'; (split; [reflexivity|]); auto.
Qed.

(** *** Local variables *)

Lemma wp_with_local {A} bs (c : Z -> D A) s (Φ : option A -> pb_istream CB -> hprop) : 0 < zlen bs ->
  (∀ a, a ↦∗ bs -∗ wp (c a) (fun o s' => ∃ bs', ⌞zlen bs' = zlen bs⌟ ∗ a ↦∗ bs' ∗ Φ o s') K s) ⊢ wp (with_local bs c) Φ K s.
Proof.
  intros Hbs. split. intros h H Hs F HF. unfold with_local. cbn [d_heap d_stream].
  set (a := local_variable (join h F) (zlen bs)).
  destruct (local_variable_ok (join h F) (zlen bs) a Hbs eq_refl) as (Ha & Hu).
  assert (Hap : apart (bytes_heap a bs) (join h F)) by (split; [apply unmapped_apart, Hu | apply map_disjoint_empty_l]).
  pose proof Hap as (Hap1 & Hap2)%apart_join_r.
  destruct (H a (bytes_heap a bs) (apart_sym _ _ Hap1) (conj eq_refl Ha) Hs F) as (o & h' & s' & E & HF' & Hs' & Ho).
  { apply apart_join_l. auto. }
  assert (Eh : mk_heap (store_bytes (h_mem (join h F)) a bs) (h_blocks (join h F)) = join (join h (bytes_heap a bs)) F).
  { rewrite (join_comm h (bytes_heap a bs)) by (apply apart_sym; exact Hap1). rewrite <- join_assoc. unfold join at 3, bytes_heap. cbn.
    rewrite (left_id_L ∅ (∪)), <- store_union. reflexivity. }
  rewrite Eh, E. cbn [d_heap d_stream].
  assert (Hpost : forall Ψ : hprop, (∃ bs', ⌞zlen bs' = zlen bs⌟ ∗ a ↦∗ bs' ∗ Ψ)%I h' ->
    exists h'', Ψ h'' /\ apart h'' F /\ mk_heap (erase (h_mem (join h' F)) a (length bs)) (h_blocks (join h' F)) = join h'' F).
  { intros Ψ (bs' & h1 & h2 & -> & Hd1 & (Hz & ->)%affine_pure_holds & h3 & h4 & -> & Hd2 & (-> & _) & HΨ).
    rewrite join_none in *. exists h4. split; [exact HΨ|]. apply apart_join_l in HF' as [HF1 HF2]. split; [exact HF2|].
    assert (length bs = length bs') as -> by (unfold zlen in Hz; lia). rewrite <- join_assoc. unfold join at 1 3, bytes_heap. cbn [h_mem h_blocks].
    rewrite erase_store, (left_id_L ∅ (∪)); [destruct (join h4 F); reflexivity|]. apply apart_unmapped.
    assert (apart (bytes_heap a bs') (join h4 F)) as [H1 _] by (apply apart_join_r; auto). exact H1. }
  destruct o as [v| |]; [..|contradiction].
  - destruct (Hpost _ Ho) as (h'' & HΦ & HF'' & Eq). rewrite Eq. exists (Ok v), h'', s'. auto.
  - destruct (Hpost _ Ho) as (h'' & HΦ & HF'' & Eq). rewrite Eq. exists Fail, h'', s'. auto.
Qed.
End primitives.

(** ** Parts of objects *)

(** A part of an object by itself, to be put back with other contents. *)
Lemma points_to_focus d bs off n : 0 <= off -> 0 <= n -> off + n <= zlen bs ->
  d ↦∗ bs ⊢ (d + off) ↦∗ slice bs off n ∗ (∀ new, ⌞zlen new = n⌟ -∗ (d + off) ↦∗ new -∗ d ↦∗ splice bs off new).
Proof.
  intros Ho Hn Hl. rewrite <- (splice_slice bs off n Ho Hn Hl) at 1. unfold splice.
  assert (Hz : zlen (ztake off bs) = off) by (rewrite zlen_ztake; lia).
  rewrite !points_to_app, Hz, zlen_slice by assumption. iIntros "(H1 & $ & H3)". iIntros (new Hnew) "H2".
  rewrite !points_to_app, Hz, Hnew. iFrame.
Qed.
