(* ===== verification/PbTypes.v ===== *)
(** Message types for the decoder: where the members of a structure are, which
    descriptors describe it, and what a structure owns in the heap.  The
    ownership of a structure is a predicate of its bytes alone, so it survives
    a move of the structure by [realloc]. *)
From Stdlib Require Import ZArith Lia Bool String.
From coqutil Require Import Byte Word.LittleEndianList.
From stdpp Require Import base list numbers gmap.
From iris.bi Require Import bi.
From iris.proofmode Require Import proofmode.
From S2P Require Import Prelude PbStream PbCommon PbCodec PbSpec PbMemory PbAdvance PbHeap PbSep.
#[local] Unset SsrRewrite.
Local Open Scope Z_scope.
Local Open Scope c_scope.

(** ** Kinds of fields *)

Definition is_static (f : pb_field) : bool := PB_ATYPE (type f) =? PB_ATYPE_STATIC.
Definition is_pointer (f : pb_field) : bool := PB_ATYPE (type f) =? PB_ATYPE_POINTER.
Definition is_callback (f : pb_field) : bool := PB_ATYPE (type f) =? PB_ATYPE_CALLBACK.
Definition is_optional (f : pb_field) : bool := PB_HTYPE (type f) =? PB_HTYPE_OPTIONAL.
Definition is_oneof (f : pb_field) : bool := PB_HTYPE (type f) =? PB_HTYPE_ONEOF.
Definition is_message (f : pb_field) : bool := PB_LTYPE (type f) =? PB_LTYPE_SUBMESSAGE.
(** Strings and bytes. *)
Definition is_blob (f : pb_field) : bool :=
  (PB_LTYPE (type f) =? PB_LTYPE_STRING) || (PB_LTYPE (type f) =? PB_LTYPE_BYTES).

(** A field is of one kind. *)
Lemma static_not_callback f : is_static f = true -> is_callback f = false.
Proof. unfold is_static, is_callback. intros H. apply Z.eqb_eq in H. rewrite H. reflexivity. Qed.
Lemma static_not_pointer f : is_static f = true -> is_pointer f = false.
Proof. unfold is_static, is_pointer. intros H. apply Z.eqb_eq in H. rewrite H. reflexivity. Qed.
Lemma pointer_not_static f : is_pointer f = true -> is_static f = false.
Proof. unfold is_static, is_pointer. intros H. apply Z.eqb_eq in H. rewrite H. reflexivity. Qed.
Lemma pointer_not_callback f : is_pointer f = true -> is_callback f = false.
Proof. unfold is_pointer, is_callback. intros H. apply Z.eqb_eq in H. rewrite H. reflexivity. Qed.
Lemma repeated_not_optional f : is_repeated f = true -> is_optional f = false.
Proof. unfold is_repeated, is_optional. intros H. apply Z.eqb_eq in H. rewrite H. reflexivity. Qed.
Lemma oneof_not_repeated f : is_oneof f = true -> is_repeated f = false.
Proof. unfold is_oneof, is_repeated. intros H. apply Z.eqb_eq in H. rewrite H. reflexivity. Qed.
Lemma blob_not_message f : is_blob f = true -> is_message f = false.
Proof. unfold is_blob, is_message. intros H. apply orb_true_iff in H as [H|H]; apply Z.eqb_eq in H; rewrite H; reflexivity. Qed.

(** ** Layouts *)

(** A member of a structure: one field, or all fields of a union.  Its data is
    at [m_off], and in front of it, at [m_off + m_soff], its count, has_ or
    which_ member, if it has one. *)
Record member := mk_member { m_fields : list pb_field; m_off : Z; m_soff : Z; m_len : Z }.
Definition m_first (g : member) : Z := m_off g + m_soff g.
Definition m_size (g : member) : Z := m_len g - m_soff g.
Definition m_end (g : member) : Z := m_off g + m_len g.
Definition is_union (g : member) : bool := existsb is_oneof (m_fields g).

(** A type; the types of its static submessages have a lower rank. *)
Record message_type := mk_type { t_members : list member; t_size : Z; t_rank : nat }.

Definition body_of (t : message_type) : list pb_field := concat (map m_fields (t_members t)).
Definition offsets_of (t : message_type) : list Z :=
  concat (map (fun g => map (fun _ => m_off g) (m_fields g)) (t_members t)).
Definition fields_of (t : message_type) : list pb_field := body_of t ++ [PB_LAST_FIELD].

Section types.
Context (types : Z -> option message_type) (constants : mem).

Definition field_wf (f : pb_field) : Prop :=
  0 < tag f < 2 ^ 32 /\ 0 < data_size f < 2 ^ 32 /\
  (is_static f = true \/ is_pointer f = true \/ is_callback f = true /\ 16 <= data_size f) /\
  PB_LTYPE (type f) <> PB_LTYPE_EXTENSION /\ PB_LTYPE (type f) <= PB_LTYPE_FIXED_LENGTH_BYTES /\
  (PB_LTYPE (type f) = PB_LTYPE_BOOL -> data_size f = 1) /\
  (PB_LTYPE (type f) = PB_LTYPE_FIXED32 -> data_size f = 4) /\
  (PB_LTYPE (type f) = PB_LTYPE_FIXED64 -> data_size f = 8) /\
  (is_message f = true -> is_callback f = false -> exists t, types (ptr f) = Some t /\ t_size t = data_size f) /\
  (is_static f = true -> is_message f = false -> ptr f = 0 \/ is_Some (load_bytes constants (ptr f) (data_size f))) /\
  (is_static f = true -> is_repeated f = true -> 0 < array_size f < 2 ^ 32 - 1 /\ data_size f * array_size f < 2 ^ 32) /\
  (is_pointer f = true -> is_repeated f = true -> is_blob f = true -> data_size f = 8).

(** A count has four bytes; only a static array of numbers may be without one,
    and then setting its default writes four bytes all the same. *)
Definition single_wf (g : member) (f : pb_field) : Prop :=
  m_fields g = [f] /\ is_oneof f = false /\ m_len g = member_size f /\
  (is_repeated f = true ->
     m_soff g <= -4 \/ m_soff g = 0 /\ is_static f = true /\ is_message f = false /\ 4 <= m_len g).

Definition union_wf (g : member) : Prop :=
  m_fields g <> [] /\ m_soff g <= -4 /\
  Forall (fun f => is_oneof f = true /\ is_callback f = false /\
    (is_static f = true -> data_size f <= m_len g) /\ (is_pointer f = true -> 8 <= m_len g)) (m_fields g).

Definition member_wf (g : member) : Prop :=
  m_soff g <= 0 /\ 0 < m_len g /\ Forall (fun f => field_wf f /\ size_offset f = m_soff g) (m_fields g) /\
  ((exists f, single_wf g f) \/ union_wf g).

Definition type_wf (t : message_type) : Prop :=
  t_members t <> [] /\ 0 < t_size t < 2 ^ 32 /\
  Forall (fun g => member_wf g /\ 0 <= m_first g /\ m_end g <= t_size t) (t_members t) /\
  (forall i j gi gj, t_members t !! i = Some gi -> t_members t !! j = Some gj -> i <> j ->
     m_end gi <= m_first gj \/ m_end gj <= m_first gi) /\
  NoDup (map tag (body_of t)) /\ laid_out (body_of t) (offsets_of t) /\
  Forall (fun f => is_static f = true -> is_message f = true ->
    forall t', types (ptr f) = Some t' -> (t_rank t' < t_rank t)%nat) (body_of t).

(** ** Ownership *)

(** [m] items of [size] bytes each; [P i] holds of the [i]-th. *)
Definition array (P : Z -> list byte -> hprop) (m size : Z) (bs : list byte) : hprop :=
  ([∗ list] i ∈ seqZ 0 m, P i (slice bs (i * size) size))%I.

(** A pointer to a string, and the string. *)
Definition blob_item (item : list byte) : hprop := (∃ blob, owned (le_combine item) blob)%I.

(** A structure is fresh when it has just been set to its defaults, clear when it
    has been released, filled by a decoder that succeeded or broken by one that
    failed.  A fresh or clear one owns nothing; only in a fresh or filled one do
    the counts of static arrays of submessages fit, so that another item can be
    counted. *)
Inductive level := Fresh | Clear | Filled | Broken.
Definition owning (l : level) : bool := match l with Filled | Broken => true | Fresh | Clear => false end.
Definition bounded (l : level) : bool := match l with Fresh | Filled => true | Clear | Broken => false end.
(** What is [l] is [l'] as well. *)
Definition below (l l' : level) : bool := implb (owning l) (owning l') && implb (bounded l') (bounded l).

Section level.
(** What submessages own. *)
Context (sub : level -> Z -> list byte -> hprop).

(** The object of a pointer that is not NULL; [cnt] is the count of an array. *)
Definition pointee (l : level) (f : pb_field) (cnt p : Z) : hprop :=
  (∃ bs, ⌞p <> 0⌟ ∗ owned p bs ∗
    (if is_repeated f then
       ⌞0 <= cnt /\ cnt * data_size f <= zlen bs < 2 ^ 32⌟ ∗
       (if is_message f then array (fun _ => sub l (ptr f)) cnt (data_size f) bs
        else if is_blob f then array (fun _ => blob_item) cnt (data_size f) bs
        else emp)
     else if is_message f then ⌞zlen bs = data_size f⌟ ∗ sub l (ptr f) bs
     else emp))%I.

Definition field_owns (l : level) (f : pb_field) (cnt : Z) (data : list byte) : hprop :=
  (if is_static f then
     if is_message f then
       if is_repeated f
       then ⌞bounded l = true -> cnt <= array_size f⌟ ∗
            array (fun i => sub (if i <? cnt then l else Clear) (ptr f)) (array_size f) (data_size f) data
       else sub l (ptr f) (slice data 0 (data_size f))
     else emp
   else if is_pointer f then
     let p := le_combine (slice data 0 8) in
     if p =? 0 then ⌞is_repeated f = true -> cnt = 0⌟ else ⌞owning l = true⌟ ∗ pointee l f cnt p
   else emp)%I.

(** The field of a union that is set. *)
Definition field_set (which : Z) (fs : list pb_field) : option pb_field := List.find (fun f => tag f =? which) fs.

Definition has_pointer (fs : list pb_field) : Prop := exists f, In f fs /\ is_pointer f = true.

(** [hd] is what is in front of the data: the count or which_ member. *)
Definition parts_own (l : level) (g : member) (hd data : list byte) : hprop :=
  (let head := le_combine (slice hd 0 4) in
   if is_union g then
     match field_set head (m_fields g) with
     | Some f => field_owns l f 0 data
     | None => ⌞head = 0 /\ (has_pointer (m_fields g) -> le_combine (slice data 0 8) = 0)⌟
     end
   else match m_fields g with [f] => field_owns l f head data | _ => False end)%I.
End level.

(** [bs] are the bytes of the member from [m_first] on. *)
Definition member_split (P : list byte -> list byte -> hprop) (g : member) (bs : list byte) : hprop :=
  P (ztake (- m_soff g) bs) (zdrop (- m_soff g) bs).
Definition member_owns sub (l : level) (g : member) : list byte -> hprop := member_split (parts_own sub l g) g.

(** [n] is above the depth to which messages nest. *)
Fixpoint owns (n : nat) (l : level) (t : message_type) (bs : list byte) : hprop :=
  match n with
  | O => False%I
  | S n =>
      ([∗ list] g ∈ t_members t,
        member_owns (fun l a bs => ∃ t', ⌞types a = Some t' /\ zlen bs = t_size t'⌟ ∗ owns n l t' bs)
          l g (slice bs (m_first g) (m_size g)))%I
  end.

Definition sub_owns (n : nat) (l : level) (a : Z) (bs : list byte) : hprop :=
  (∃ t, ⌞types a = Some t /\ zlen bs = t_size t⌟ ∗ owns n l t bs)%I.
End types.

(** *** Regions *)

(** [n] bytes at [d] that [P] holds of. *)
Definition region (P : list byte -> hprop) (d n : Z) : hprop := (∃ bs, ⌞zlen bs = n⌟ ∗ d ↦∗ bs ∗ P bs)%I.

(** A structure whose [k]-th member [P k] holds of. *)
Definition struct (P : nat -> member -> list byte -> hprop) (t : message_type) (bs : list byte) : hprop :=
  ([∗ list] k ↦ g ∈ t_members t, P k g (slice bs (m_first g) (m_size g)))%I.

Definition message (types : Z -> option message_type) (n : nat) (l : level) (t : message_type) (d : Z) : hprop :=
  region (owns types n l t) d (t_size t).

(** What a structure owns, member by member. *)
Lemma owns_members types n l t : owns types (S n) l t = struct (fun _ => member_owns (sub_owns types n) l) t.
Proof. reflexivity. Qed.

(** ** Integers in objects *)

(** An integer that was stored. *)
Lemma le_combine_splice bs o n v : 0 <= o -> o + Z.of_nat n <= zlen bs ->
  le_combine (slice (splice bs o (le_split n v)) o (Z.of_nat n)) = wrap (8 * Z.of_nat n) v.
Proof.
  intros H1 H2. assert (Hl : zlen (le_split n v) = Z.of_nat n) by (unfold zlen; rewrite length_le_split; reflexivity).
  rewrite <- Hl at 1. rewrite slice_splice_same by lia. rewrite le_combine_split. unfold wrap. f_equal. f_equal. lia.
Qed.

Lemma le_combine_zeros n : le_combine (zeros n) = 0.
Proof. apply le_combine_00. Qed.

(** ** Members of structures *)

Lemma field_set_In which fs f : field_set which fs = Some f -> In f fs /\ tag f = which.
Proof. intros H. apply find_some in H as [H1 H2]. apply Z.eqb_eq in H2. auto. Qed.

(** *** Arrays *)

Lemma big_sepL_nothing {A} (Φ : nat -> A -> hprop) (l : list A) :
  (forall k x, l !! k = Some x -> Φ k x ⊢ emp) -> ([∗ list] k ↦ x ∈ l, Φ k x) ⊢ emp.
Proof. intros H. rewrite (big_sepL_mono _ (fun _ _ => emp%I)) by exact H. rewrite big_sepL_emp. reflexivity. Qed.

Lemma big_sepL_from_nothing {A} (Φ : nat -> A -> hprop) (l : list A) :
  (forall k x, l !! k = Some x -> emp ⊢ Φ k x) -> emp ⊢ ([∗ list] k ↦ x ∈ l, Φ k x).
Proof.
  intros H. transitivity (([∗ list] _ ∈ l, emp) : hprop)%I; [rewrite big_sepL_emp; reflexivity | apply big_sepL_mono, H].
Qed.

(** A slice of what a block keeps when it grows. *)
Lemma slice_grown n bs junk o k : 0 <= o -> 0 <= k -> o + k <= n -> o + k <= zlen bs -> slice (ztake n bs ++ junk) o k = slice bs o k.
Proof.
  intros H1 H2 H3 H4. assert (Hz : o + k <= zlen (ztake n bs)) by (unfold zlen, ztake in *; rewrite length_take; lia).
  apply list_eq. intros i. rewrite !slice_lookup by lia. destruct (decide _); [|reflexivity].
  rewrite lookup_app_l by (unfold zlen in *; lia). unfold ztake. apply lookup_take_lt. lia.
Qed.

Lemma array_ext P m size bs bs' : (forall i, 0 <= i < m -> slice bs (i * size) size = slice bs' (i * size) size) ->
  array P m size bs ⊢ array P m size bs'.
Proof. intros H. apply big_sepL_mono. intros k i Hi. apply lookup_seqZ in Hi as [-> Hi]. rewrite H by lia. reflexivity. Qed.

(** Room for another item. *)
Lemma array_room P m size bs : 0 <= m -> array P m size bs ⊢ array (fun i => if i <? m then P i else fun _ => emp%I) (m + 1) size bs.
Proof.
  intros Hm. unfold array. rewrite (seqZ_app 0 m 1), big_sepL_app by lia. cbn [seqZ]. iIntros "H". iSplitL "H".
  - iApply (big_sepL_mono with "H"). intros k i Hi. apply lookup_seqZ in Hi as [-> Hi]. destruct (Z.ltb_spec (0 + Z.of_nat k) m); [reflexivity | lia].
  - iApply big_sepL_from_nothing; [|done]. intros k i Hi. apply lookup_seqZ in Hi as [-> Hi].
    destruct (Z.ltb_spec (0 + m + Z.of_nat k) m); [lia | reflexivity].
Qed.

Lemma array_0 P size bs : ⊢ array P 0 size bs.
Proof. unfold array. cbn. done. Qed.

(** A member as two objects. *)
Lemma member_region P g b : m_soff g <= 0 -> 0 < m_len g ->
  region (member_split P g) b (m_size g) ⊣⊢
  ∃ hd data, ⌞zlen hd = - m_soff g /\ zlen data = m_len g⌟ ∗ b ↦∗ hd ∗ (b - m_soff g) ↦∗ data ∗ P hd data.
Proof.
  intros Hs Hl. unfold region, member_split, m_size. apply (anti_symm (⊢)).
  - iIntros "(%bs & %Hbs & Hd & HP)". iExists (ztake (- m_soff g) bs), (zdrop (- m_soff g) bs). iFrame "HP".
    assert (H1 : zlen (ztake (- m_soff g) bs) = - m_soff g) by (apply zlen_ztake; lia).
    iSplitR; [iPureIntro; split; [exact H1 | rewrite zlen_zdrop by lia; lia]|].
    rewrite <- (ztake_zdrop bs (- m_soff g)) at 1. rewrite points_to_app, H1, Z.add_opp_r. iExact "Hd".
  - iIntros "(%hd & %data & [%H1 %H2] & Hhd & Hdata & HP)". iExists (hd ++ data).
    iSplitR; [iPureIntro; rewrite zlen_app; lia|]. iSplitL "Hhd Hdata"; [rewrite points_to_app, H1, Z.add_opp_r; iFrame|].
    rewrite ztake_app, zdrop_app by lia. iExact "HP".
Qed.

(** An item of an array by itself. *)
Lemma array_access P a n m size j : 0 < size -> m * size <= n -> 0 <= j < m ->
  region (array P m size) a n ⊢ region (P j) (a + j * size) size ∗
    (∀ Q, region Q (a + j * size) size -∗ region (array (fun i => if decide (i = j) then Q else P i) m size) a n).
Proof.
  intros Hs Hm Hj. iIntros "(%bs & %Hbs & Hd & HP)".
  iDestruct (points_to_focus a bs (j * size) size with "Hd") as "[Hg Hd]"; [nia..|].
  assert (Hlook : seqZ 0 m !! Z.to_nat j = Some j) by (apply lookup_seqZ; lia).
  iDestruct (big_sepL_lookup_acc_impl (Z.to_nat j) with "HP") as "[HPj HP]"; [exact Hlook|].
  iSplitL "Hg HPj"; [iExists _; iFrame; iPureIntro; apply zlen_slice; nia|].
  iIntros (Q) "(%new & %Hnew & Hg & HQ)". iExists (splice bs (j * size) new).
  iSplitR; [iPureIntro; rewrite zlen_splice by nia; exact Hbs|].
  iSplitL "Hd Hg"; [iApply ("Hd" with "[//] Hg")|].
  iApply ("HP" $! (fun _ i => (if decide (i = j) then Q else P i) (slice (splice bs (j * size) new) (i * size) size))%I with "[] [HQ]").
  - iIntros "!>" (k i Hi Hne) "H". apply lookup_seqZ in Hi as [-> Hi]. destruct (decide (0 + Z.of_nat k = j)); [lia|].
    rewrite slice_splice_other; [iExact "H" | nia..].
  - destruct (decide (j = j)); [|contradiction]. rewrite <- Hnew, slice_splice_same by nia. iExact "HQ".
Qed.

Lemma array_mono P Q m size bs : (forall i, 0 <= i < m -> P i (slice bs (i * size) size) ⊢ Q i (slice bs (i * size) size)) ->
  array P m size bs ⊢ array Q m size bs.
Proof. intros H. apply big_sepL_mono. intros k i Hi. apply lookup_seqZ in Hi as [-> Hi]. apply H. lia. Qed.

Lemma array_one P size bs : array P 1 size bs ⊢ P 0 (slice bs 0 size).
Proof. unfold array. change (seqZ 0 1) with [0]. rewrite big_sepL_singleton. reflexivity. Qed.
Lemma one_array P size bs : P 0 (slice bs 0 size) ⊢ array P 1 size bs.
Proof. unfold array. change (seqZ 0 1) with [0]. rewrite big_sepL_singleton. reflexivity. Qed.

Lemma array_nothing P m size bs : (forall i item, 0 <= i < m -> P i item ⊢ emp) -> array P m size bs ⊢ emp.
Proof.
  intros H. unfold array. rewrite (big_sepL_mono _ (fun _ _ => emp%I)); [rewrite big_sepL_emp; reflexivity|].
  intros k i Hi. apply lookup_seqZ in Hi as [-> Hi]. apply H. lia.
Qed.

Lemma region_mono P Q d n : (forall bs, zlen bs = n -> P bs ⊢ Q bs) -> region P d n ⊢ region Q d n.
Proof. intros H. iIntros "(%bs & %Hbs & Hd & HP)". iExists bs. iFrame. iSplitR; [done|]. iApply (H bs Hbs with "HP"). Qed.

(** A submessage. *)
Lemma sub_region types n l a t d : types a = Some t -> region (sub_owns types n l a) d (t_size t) ⊣⊢ message types n l t d.
Proof.
  intros Ht. unfold region, message, sub_owns. apply bi.exist_proper. intros bs. apply (anti_symm (⊢)).
  - iIntros "(%Hz & Hd & (%t' & [%Ht' _] & H))". assert (t' = t) as -> by congruence. iFrame. done.
  - iIntros "(%Hz & Hd & H)". iFrame. iSplitR; [done|]. done.
Qed.

Lemma sub_region_type types n l a d size : region (sub_owns types n l a) d size ⊢
  ∃ t, ⌞types a = Some t /\ size = t_size t /\ 0 < d⌟ ∗ message types n l t d.
Proof.
  iIntros "(%bs & %Hz & Hd & (%t & [%Ht %Hl] & H))". iDestruct (points_to_valid with "Hd") as "[Hd %Hv]".
  iExists t. iSplitR; [iPureIntro; split; [exact Ht | lia]|]. iExists bs. iFrame. done.
Qed.

(** A part of an object by itself, with what holds of it. *)
Lemma object_focus P b data o n : 0 <= o -> 0 <= n -> o + n <= zlen data ->
  b ↦∗ data ∗ P (slice data o n) ⊢ region P (b + o) n ∗
    (∀ Q, region Q (b + o) n -∗ ∃ new, ⌞zlen new = n⌟ ∗ b ↦∗ splice data o new ∗ Q new).
Proof.
  intros Ho Hn Hl. iIntros "[Hd HP]". iDestruct (points_to_focus b data o n with "Hd") as "[Hg Hd]"; [lia..|].
  iSplitL "Hg HP"; [iExists _; iFrame; iPureIntro; apply zlen_slice; lia|].
  iIntros (Q) "(%new & %Hnew & Hg & HQ)". iExists new. iSplitR; [done|]. iFrame "HQ". iApply ("Hd" with "[//] Hg").
Qed.

Section access.
Context (types : Z -> option message_type) (constants : mem) (t : message_type).
Context (Hwf : type_wf types constants t).

Lemma member_range k g : t_members t !! k = Some g ->
  member_wf types constants g /\ 0 <= m_first g /\ 0 < m_size g /\ m_first g + m_size g <= t_size t /\ m_first g + m_size g = m_end g.
Proof.
  intros Hg. destruct Hwf as (_ & _ & Hm & _). pose proof (Forall_lookup_1 _ _ _ _ Hm Hg) as (H1 & H2 & H3).
  pose proof H1 as (Hs & Hl & _). split; [exact H1 | unfold m_first, m_size, m_end in *; lia].
Qed.

(** A member of a structure by itself, to be put back as another predicate
    holds of it. *)
Lemma struct_access P d k g : t_members t !! k = Some g ->
  region (struct P t) d (t_size t) ⊢ region (P k g) (d + m_first g) (m_size g) ∗
    (∀ Q, region Q (d + m_first g) (m_size g) -∗
      region (struct (fun k' g' => if decide (k' = k) then Q else P k' g') t) d (t_size t)).
Proof.
  intros Hg. destruct (member_range k g Hg) as (_ & H1 & H2 & H3 & H4).
  iIntros "(%bs & %Hbs & Hd & HP)". iDestruct (points_to_focus d bs (m_first g) (m_size g) with "Hd") as "[Hg Hd]"; [lia..|].
  iDestruct (big_sepL_lookup_acc_impl k with "HP") as "[HPk HP]"; [exact Hg|].
  iSplitL "Hg HPk".
  { iExists _. iFrame. iPureIntro. apply zlen_slice; lia. }
  iIntros (Q) "(%new & %Hnew & Hg & HQ)". iExists (splice bs (m_first g) new).
  iSplitR; [iPureIntro; rewrite zlen_splice by lia; exact Hbs|].
  iSplitL "Hd Hg"; [iApply ("Hd" with "[//] Hg")|].
  iApply ("HP" $! (fun k' g' => (if decide (k' = k) then Q else P k' g') (slice (splice bs (m_first g) new) (m_first g') (m_size g')))%I with "[] [HQ]").
  - iIntros "!>" (k' g' Hg' Hne) "H". destruct (decide (k' = k)); [contradiction|].
    destruct (member_range k' g' Hg') as (_ & H1' & H2' & H3' & H4').
    rewrite slice_splice_other; [iExact "H" | lia..|].
    destruct Hwf as (_ & _ & _ & Hdis & _). destruct (Hdis k' k g' g Hg' Hg Hne); lia.
  - destruct (decide (k = k)); [|contradiction]. rewrite <- Hnew, slice_splice_same by lia. iExact "HQ".
Qed.

Lemma struct_mono P Q bs : (forall k g, t_members t !! k = Some g -> forall bs, zlen bs = m_size g -> P k g bs ⊢ Q k g bs) ->
  zlen bs = t_size t -> struct P t bs ⊢ struct Q t bs.
Proof.
  intros H Hbs. apply big_sepL_mono. intros k g Hg. destruct (member_range k g Hg) as (_ & H1 & H2 & H3 & H4).
  apply (H k g Hg). apply zlen_slice; lia.
Qed.
End access.

(** ** Structures that own nothing *)

Section own.
Context (sub : level -> Z -> list byte -> hprop).

Definition owns_nothing_when (P : level -> hprop) : Prop := forall l, owning l = false -> P l ⊢ emp.
Definition monotone (P : level -> hprop) : Prop := forall l l', below l l' = true -> P l ⊢ P l'.

Lemma pointee_mono f cnt p : (forall a bs, monotone (fun l => sub l a bs)) -> monotone (fun l => pointee sub l f cnt p).
Proof.
  intros Hsub l l' Hl. unfold pointee. apply bi.exist_mono. intros bs. do 2 apply bi.sep_mono_r.
  destruct (is_repeated f).
  - apply bi.sep_mono_r. destruct (is_message f); [|reflexivity]. apply array_mono. intros i _. apply Hsub, Hl.
  - destruct (is_message f); [|reflexivity]. apply bi.sep_mono_r, Hsub, Hl.
Qed.

Lemma field_owns_nothing f cnt data : (forall a bs, owns_nothing_when (fun l => sub l a bs)) ->
  owns_nothing_when (fun l => field_owns sub l f cnt data).
Proof.
  intros Hsub l Hl. unfold field_owns. destruct (is_static f).
  - destruct (is_message f); [|reflexivity]. destruct (is_repeated f); [|apply Hsub, Hl].
    iIntros "[_ H]". iApply (array_nothing with "H"). intros i item _. apply Hsub. destruct (i <? cnt); [exact Hl | reflexivity].
  - destruct (is_pointer f); [|reflexivity]. cbv zeta. destruct (_ =? 0); [iIntros "_"; done | iIntros "[%H ?]"; congruence].
Qed.

Lemma member_owns_nothing g bs : (forall a bs, owns_nothing_when (fun l => sub l a bs)) ->
  owns_nothing_when (fun l => member_owns sub l g bs).
Proof.
  intros Hsub l Hl. unfold member_owns, member_split, parts_own. cbv zeta. destruct (is_union g).
  - destruct (field_set _ _); [apply field_owns_nothing; auto | iIntros "_"; done].
  - destruct (m_fields g) as [|f [|]]; [iIntros "[]" | apply field_owns_nothing; auto | iIntros "[]"].
Qed.

Lemma field_owns_mono f cnt data : (forall a bs, monotone (fun l => sub l a bs)) ->
  monotone (fun l => field_owns sub l f cnt data).
Proof.
  intros Hsub l l' Hl. unfold field_owns. destruct (is_static f).
  - destruct (is_message f); [|reflexivity]. destruct (is_repeated f); [|apply Hsub, Hl]. apply bi.sep_mono.
    + iIntros "%H". iPureIntro. intros H'. apply H. revert Hl. unfold below. rewrite H'. destruct (bounded l); [reflexivity|]. rewrite andb_false_r. discriminate.
    + apply array_mono. intros i _. apply Hsub. destruct (i <? cnt); [exact Hl | reflexivity].
  - destruct (is_pointer f); [|reflexivity]. cbv zeta. destruct (_ =? 0); [reflexivity|]. apply bi.sep_mono; [|apply pointee_mono; assumption].
    iIntros "%H". iPureIntro. revert Hl. unfold below. rewrite H. destruct (owning l'); [reflexivity | discriminate].
Qed.

Lemma member_owns_mono g bs : (forall a bs, monotone (fun l => sub l a bs)) -> monotone (fun l => member_owns sub l g bs).
Proof.
  intros Hsub l l' Hl. unfold member_owns, member_split, parts_own. cbv zeta. destruct (is_union g).
  - destruct (field_set _ _); [apply field_owns_mono; assumption | reflexivity].
  - destruct (m_fields g) as [|f [|]]; [reflexivity | apply field_owns_mono; assumption | reflexivity].
Qed.
End own.

Section owns.
Context (types : Z -> option message_type) (constants : mem).
Context (Htypes : forall a t, types a = Some t -> type_wf types constants t).
Notation owns := (owns types).

Lemma owns_nothing n : forall t bs, owns_nothing_when (fun l => owns n l t bs).
Proof.
  induction n as [|n IH]; intros t bs l Hl; cbn [PbTypes.owns]; [iIntros "[]"|].
  apply big_sepL_nothing. intros k g _. apply member_owns_nothing; [|exact Hl]. intros a b l' Hl'.
  iIntros "(%t' & _ & H)". iApply (IH with "H"). exact Hl'.
Qed.

Lemma sub_owns_nothing n a bs : owns_nothing_when (fun l => sub_owns types n l a bs).
Proof. intros l Hl. iIntros "(%t & _ & H)". iApply (owns_nothing with "H"). exact Hl. Qed.

Lemma owns_mono n : forall t bs, monotone (fun l => owns n l t bs).
Proof.
  induction n as [|n IH]; intros t bs l l' Hl; cbn [PbTypes.owns]; [reflexivity|].
  apply big_sepL_mono. intros k g _. apply member_owns_mono; [|exact Hl]. intros a b l1 l2 H.
  iIntros "(%t' & %Ht & H)". iExists t'. iSplitR; [done|]. iApply (IH with "H"). exact H.
Qed.

Lemma sub_owns_mono n a bs : monotone (fun l => sub_owns types n l a bs).
Proof. intros l l' Hl. iIntros "(%t & %Ht & H)". iExists t. iSplitR; [done|]. iApply (owns_mono with "H"). exact Hl. Qed.

(** The data of a field fits where the member has its data. *)
Lemma member_room g f : member_wf types constants g -> In f (m_fields g) ->
  field_wf types constants f /\ size_offset f = m_soff g /\
  (is_static f = true -> (if is_repeated f then data_size f * array_size f else data_size f) <= m_len g) /\
  (is_pointer f = true -> 8 <= m_len g) /\ (is_callback f = true -> 16 <= m_len g).
Proof.
  intros (_ & _ & Hfs & Hkind) Hin. pose proof (proj1 (Forall_forall _ _) Hfs f (proj2 (list_elem_of_In _ _) Hin)) as [Hf Ho].
  split; [exact Hf|]. split; [exact Ho|]. destruct Hkind as [(f' & Ef & _ & Hl & _)|(_ & _ & Hu)].
  - rewrite Ef in Hin. destruct Hin as [->|[]]. rewrite Hl. unfold member_size, is_static, is_pointer, is_callback, is_repeated in *.
    destruct Hf as (_ & _ & Hk & _).
    destruct (Z.eqb_spec (PB_ATYPE (type f)) PB_ATYPE_STATIC) as [E|E]; cbn [andb].
    + rewrite E in *. split; [intros _; destruct (PB_HTYPE (type f) =? PB_HTYPE_REPEATED); cbn; lia|]. split; discriminate.
    + split; [discriminate|]. split; [intros ->; unfold sizeof_ptr; lia|]. intros Hc. destruct Hk as [Hk|[Hk|[_ Hk]]]; [apply Z.eqb_eq in Hk; contradiction | |].
      * apply Z.eqb_eq in Hk, Hc. rewrite Hk in Hc. discriminate.
      * apply Z.eqb_eq in Hc. rewrite Hc. exact Hk.
  - destruct (proj1 (Forall_forall _ _) Hu f (proj2 (list_elem_of_In _ _) Hin)) as (H1 & H2 & H3 & H4).
    split; [|split; [exact H4 | congruence]]. intros Hs. unfold is_repeated, is_oneof in *. apply Z.eqb_eq in H1. rewrite H1. apply H3, Hs.
Qed.

(** The type of a static submessage. *)
Lemma static_submessage t f : type_wf types constants t -> In f (body_of t) -> field_wf types constants f ->
  is_static f = true -> is_message f = true ->
  exists t', types (ptr f) = Some t' /\ t_size t' = data_size f /\ (t_rank t' < t_rank t)%nat.
Proof.
  intros Hwf Hb Hf Hst Hme. destruct Hf as (_ & _ & _ & _ & _ & _ & _ & _ & Hm & _).
  destruct (Hm Hme (static_not_callback f Hst)) as (t' & Ht' & Hsz). exists t'. split; [exact Ht'|]. split; [exact Hsz|].
  destruct Hwf as (_ & _ & _ & _ & _ & _ & Hrank).
  exact (proj1 (Forall_forall _ _) Hrank f (proj2 (list_elem_of_In _ _) Hb) Hst Hme t' Ht').
Qed.

Lemma body_In t k g f : t_members t !! k = Some g -> In f (m_fields g) -> In f (body_of t).
Proof.
  intros Hg Hin. unfold body_of. apply in_concat. exists (m_fields g). split; [|exact Hin].
  apply in_map, list_elem_of_In, (list_elem_of_lookup_2 _ k), Hg.
Qed.

Lemma member_tags t k g : type_wf types constants t -> t_members t !! k = Some g -> NoDup (map tag (m_fields g)).
Proof.
  intros (_ & _ & _ & _ & Hnd & _) Hg. 
  unfold body_of in Hnd. rewrite <- (take_drop_middle _ _ _ Hg), map_app, concat_app, map_app in Hnd. cbn [map concat] in Hnd. rewrite map_app in Hnd.
  apply NoDup_app in Hnd as (_ & _ & Hnd). apply NoDup_app in Hnd as (Hnd & _). exact Hnd.
Qed.

(** Zeros own nothing. *)
Lemma field_owns_zeros sub f cnt data n : (forall o k, 0 <= o -> 0 <= k -> o + k <= n -> slice data o k = zeros k) ->
  field_wf types constants f ->
  (is_static f = true -> (if is_repeated f then data_size f * array_size f else data_size f) <= n) ->
  (is_pointer f = true -> 8 <= n) -> (is_repeated f = true -> cnt = 0) ->
  (forall a bs, monotone (fun l => sub l a bs)) ->
  (is_static f = true -> is_message f = true -> emp ⊢ sub Fresh (ptr f) (zeros (data_size f))) ->
  emp ⊢ field_owns sub Fresh f cnt data.
Proof.
  intros Hz Hf Hs Hp Hc Hmono Hsub. pose proof Hf as (_ & Hd & _). unfold field_owns. destruct (is_static f) eqn:Est.
  - destruct (is_message f) eqn:Eme; [|reflexivity]. specialize (Hs eq_refl). specialize (Hsub eq_refl eq_refl).
    destruct (is_repeated f) eqn:Ere.
    + specialize (Hc eq_refl). subst cnt. iIntros "_". iSplitR.
      { iPureIntro. intros _. destruct Hf as (_ & _ & _ & _ & _ & _ & _ & _ & _ & _ & Ha & _). specialize (Ha Est Ere). lia. }
      iApply big_sepL_from_nothing; [|done]. intros k i Hi.
      apply lookup_seqZ in Hi as [-> Hi]. rewrite Hz by nia. destruct (Z.ltb_spec (0 + Z.of_nat k) 0); [lia|].
      etransitivity; [exact Hsub | apply Hmono; reflexivity].
    + rewrite Hz by lia. exact Hsub.
  - destruct (is_pointer f); [|reflexivity]. specialize (Hp eq_refl). cbv zeta. rewrite Hz by lia. rewrite le_combine_zeros. cbn [Z.eqb].
    iIntros "_". iPureIntro. exact Hc.
Qed.

Lemma member_owns_zeros sub g bs : member_wf types constants g -> zlen bs = m_size g ->
  (forall o k, 0 <= o -> 0 <= k -> o + k <= m_size g -> slice bs o k = zeros k) ->
  (forall a bs, monotone (fun l => sub l a bs)) ->
  (forall f, In f (m_fields g) -> is_static f = true -> is_message f = true -> emp ⊢ sub Fresh (ptr f) (zeros (data_size f))) ->
  emp ⊢ member_owns sub Fresh g bs.
Proof.
  intros Hwf Hbs Hz Hmono Hsub. pose proof Hwf as (Hs & Hl & Hfs & Hkind). unfold m_size in *.
  assert (Hdata : forall o k, 0 <= o -> 0 <= k -> o + k <= m_len g -> slice (zdrop (- m_soff g) bs) o k = zeros k).
  { intros o k H1 H2 H3. rewrite slice_zdrop by lia. apply Hz; lia. }
  assert (Hhd : m_soff g <= -4 -> le_combine (slice (ztake (- m_soff g) bs) 0 4) = 0).
  { intros Hs4. change (ztake (- m_soff g) bs) with (slice bs 0 (- m_soff g)). rewrite slice_slice, Hz by lia. apply le_combine_zeros. }
  unfold member_owns, member_split, parts_own. cbv zeta. destruct Hkind as [(f & Ef & Ho & Hlen & Hrep)|(Hne & Hs4 & Hu)].
  - assert (Eu : is_union g = false) by (unfold is_union; rewrite Ef; cbn; rewrite Ho; reflexivity). rewrite Eu, Ef.
    destruct (member_room g f Hwf) as (Hf & _ & H1 & H2 & _); [rewrite Ef; left; reflexivity|].
    apply (field_owns_zeros sub f _ _ (m_len g)); auto.
    + intros Hr. destruct (Hrep Hr) as [H4|(H0 & _)]; [exact (Hhd H4)|]. rewrite H0. reflexivity.
    + apply Hsub. rewrite Ef. left. reflexivity.
  - rewrite (Hhd Hs4).
    assert (Eu : is_union g = true).
    { unfold is_union. apply existsb_exists. destruct (m_fields g) as [|f fs]; [contradiction|]. exists f. split; [left; reflexivity|].
      apply Forall_cons in Hu. apply Hu. }
    rewrite Eu. destruct (field_set 0 (m_fields g)) as [f|] eqn:Ef.
    + apply field_set_In in Ef as [Hin Ht]. destruct (member_room g f Hwf Hin) as ((? & _) & _). lia.
    + iIntros "_". iPureIntro. split; [reflexivity|]. intros (f & Hin & Hp). destruct (member_room g f Hwf Hin) as (_ & _ & _ & H8 & _).
      rewrite Hdata by (specialize (H8 Hp); lia). apply le_combine_zeros.
Qed.

Lemma owns_zeros n : forall t, type_wf types constants t -> (t_rank t < n)%nat -> emp ⊢ owns n Fresh t (zeros (t_size t)).
Proof.
  induction n as [|n IH]; intros t Hwf Hn; [lia|]. cbn [PbTypes.owns].
  apply big_sepL_from_nothing. intros k g Hg.
  destruct (member_range types constants t Hwf k g Hg) as (Hm & H1 & H2 & H3 & H4).
  rewrite slice_zeros by lia. apply member_owns_zeros; [exact Hm | unfold zlen, zeros; rewrite repeat_length; lia | intros o j ? ? ?; apply slice_zeros; lia | intros a bs; exact (sub_owns_mono n a bs)|].
  intros f Hin Hst Hme. destruct (member_room g f Hm Hin) as (Hf & _).
  destruct (static_submessage t f Hwf (body_In t k g f Hg Hin) Hf Hst Hme) as (t' & Ht' & Hsz & Hr).
  iIntros "_". iExists t'. pose proof (Htypes _ _ Ht') as Hwf'. iSplitR.
  - iPureIntro. split; [exact Ht'|]. rewrite Hsz. unfold zlen, zeros. rewrite repeat_length. destruct Hwf' as (_ & ? & _). lia.
  - rewrite <- Hsz. iApply IH; [exact Hwf' | lia | done].
Qed.
End owns.
