(* ===== verification/PbRelease.v ===== *)
(** Setting messages to their defaults and releasing them: both run over the
    fields of a message, and leave it owning nothing. *)
From Stdlib Require Import ZArith Lia Bool String.
From coqutil Require Import Byte Word.LittleEndianList.
From stdpp Require Import base list numbers gmap.
From iris.bi Require Import bi.
From iris.proofmode Require Import proofmode.
From S2P Require Import Prelude PbStream PbCommon PbCodec PbSpec PbMemory PbEncode PbAdvance PbHeap PbDecode PbSep PbTypes.
#[local] Unset SsrRewrite.
Local Open Scope Z_scope.
Local Open Scope c_scope.

(** ** Where the fields are *)

(** The index of a field in the descriptors, from the members before its own and
    the fields before it there. *)
Definition field_index (done : list member) (pre : list pb_field) : nat :=
  (length (concat (map m_fields done)) + length pre)%nat.

Lemma field_index_lookup t done g rest pre f post :
  t_members t = done ++ g :: rest -> m_fields g = pre ++ f :: post ->
  body_of t !! field_index done pre = Some f /\ offsets_of t !! field_index done pre = Some (m_off g).
Proof.
  intros Ht Hg. unfold body_of, offsets_of, field_index. rewrite Ht, !map_app, !concat_app. cbn [map concat]. rewrite Hg.
  assert (Hl : length (concat (map (fun g => map (fun _ => m_off g) (m_fields g)) done)) = length (concat (map m_fields done))).
  { clear. induction done as [|h done IH]; [reflexivity|]. cbn [map concat]. rewrite !length_app, length_map, IH. reflexivity. }
  split.
  - rewrite lookup_app_r by lia. rewrite lookup_app_l by (rewrite length_app; cbn; lia).
    rewrite lookup_app_r by lia. replace (_ - _ - _)%nat with 0%nat by lia. reflexivity.
  - rewrite lookup_app_r by lia. rewrite lookup_app_l by (rewrite length_map, length_app; cbn; lia).
    rewrite Hl, map_app. rewrite lookup_app_r by (rewrite length_map; lia). rewrite length_map.
    replace (_ - _ - _)%nat with 0%nat by lia. reflexivity.
Qed.

(** The iterator is at field [f] of member [g] of a structure at [d]. *)
Definition at_field (d : Z) (g : member) (f : pb_field) (it : pb_field_iter) : Prop :=
  iter_pos it = (Ok f, it) /\ pData it = d + m_off g /\ pSize it = d + m_first g.

Section loops.
Context {CB : Type} {ICB : InputCallback CB} {MA : Machine}.
Notation D := (M (dstate CB)).
Context (types : Z -> option message_type) (constants : mem) (K : Z).
Context (Htypes : forall a t, types a = Some t -> type_wf types constants t).

Lemma wp_pos_of it f (Φ : option pb_field -> pb_istream CB -> hprop) s :
  iter_pos it = (Ok f, it) -> Φ (Some f) s ⊢ wp (pos_of it) Φ K s.
Proof. iIntros (E) "H". unfold pos_of. iApply wp_bind. iApply (wp_local K _ _ f it); [exact E|]. iApply wp_ret. iExact "H". Qed.

Section message.
Context (t : message_type) (d : Z).
Context (Hwf : type_wf types constants t) (Hd : 0 < d).

Lemma body_tags : Forall (fun f => tag f <> 0) (body_of t).
Proof.
  apply Forall_forall. intros f Hf. apply list_elem_of_In in Hf. unfold body_of in Hf. apply in_concat in Hf as (fs & Hfs & Hf).
  apply in_map_iff in Hfs as (g & <- & Hg). apply list_elem_of_In, list_elem_of_lookup in Hg as [k Hg].
  destruct (member_range types constants t Hwf k g Hg) as (Hm & _). destruct (member_room types constants g f Hm Hf) as ((? & _) & _). lia.
Qed.

Lemma members_laid_out : laid_out (body_of t) (offsets_of t).
Proof. apply Hwf. Qed.

Notation iter_at_index := (iter_at (fields_of t) (offsets_of t) d).

Lemma iter_at_field done g rest pre f post it :
  t_members t = done ++ g :: rest -> m_fields g = pre ++ f :: post ->
  iter_at_index (field_index done pre) it -> at_field d g f it.
Proof.
  intros Ht Hg (Es & Ep & _ & f' & o & Hf' & Ho & HD & HS).
  destruct (field_index_lookup t done g rest pre f post Ht Hg) as [Hb Hoff].
  unfold fields_of in Hf'. rewrite (fields_body (body_of t) _ f Hb) in Hf'. injection Hf' as <-. rewrite Hoff in Ho. injection Ho as <-.
  destruct (member_range types constants t Hwf (length done) g) as (Hm & _); [rewrite Ht, lookup_app_r, Nat.sub_diag by lia; reflexivity|].
  destruct (member_room types constants g f Hm) as (_ & Hso & _); [rewrite Hg; apply in_or_app; right; left; reflexivity|].
  split; [|split; [exact HD | rewrite HS, Hso; unfold m_first; lia]].
  unfold iter_pos. rewrite Es, Ep. unfold fields_of. rewrite (fields_body (body_of t) _ f Hb). reflexivity.
Qed.

(** [R g pre] holds of a member when the fields [pre] of it have been treated. *)
Context (R : member -> list pb_field -> list byte -> hprop) (step : pb_field_iter -> D unit).
Context (Hstep : forall k g pre f post it s (Φ : option unit -> pb_istream CB -> hprop),
  t_members t !! k = Some g -> m_fields g = pre ++ f :: post -> at_field d g f it ->
  region (R g pre) (d + m_first g) (m_size g) ⊢
    (region (R g (pre ++ [f])) (d + m_first g) (m_size g) -∗ Φ (Some tt) s) -∗ wp (step it) Φ K s).

(** The [n]-th member is being treated, up to the fields [pre]. *)
Definition treated (n : nat) (pre : list pb_field) (k : nat) (g : member) : list byte -> hprop :=
  R g (if decide (k < n)%nat then m_fields g else if decide (k = n) then pre else []).

Lemma each_field_from n : forall done g rest pre f post it s (Φ : option unit -> pb_istream CB -> hprop),
  t_members t = done ++ g :: rest -> m_fields g = pre ++ f :: post ->
  iter_at_index (field_index done pre) it -> (length (body_of t) - field_index done pre <= n)%nat ->
  region (struct (treated (length done) pre) t) d (t_size t) ⊢
    (region (struct (fun _ g => R g (m_fields g)) t) d (t_size t) -∗ Φ (Some tt) s) -∗ wp (each_field step n it) Φ K s.
Proof.
  induction n as [|n IH]; intros done g rest pre f post it s Φ Ht Hg Hit Hn.
  { destruct (field_index_lookup t done g rest pre f post Ht Hg) as [Hb _]. apply lookup_lt_Some in Hb. lia. }
  assert (Hk : t_members t !! length done = Some g) by (rewrite Ht, lookup_app_r, Nat.sub_diag by lia; reflexivity).
  destruct (field_index_lookup t done g rest pre f post Ht Hg) as [Hb _].
  iIntros "H HΦ". cbn [each_field]. iApply wp_bind.
  iDestruct (struct_access types constants t Hwf _ d _ g Hk with "H") as "[Hm Hclose]".
  assert (E : treated (length done) pre (length done) g = R g pre).
  { unfold treated. destruct (decide _); [lia|]. destruct (decide _); [reflexivity | contradiction]. }
  rewrite E. iApply (Hstep with "Hm"); [exact Hk | exact Hg | exact (iter_at_field done g rest pre f post it Ht Hg Hit)|].
  iIntros "Hm". iDestruct ("Hclose" with "Hm") as "H". iApply wp_bind.
  (* the predicate after this field is the one before the next *)
  assert (Hpred : forall n' pre', (forall k' g', t_members t !! k' = Some g' ->
      (if decide (k' = length done) then R g (pre ++ [f]) else treated (length done) pre k' g') = treated n' pre' k' g') ->
    region (struct (fun k' g' => if decide (k' = length done) then R g (pre ++ [f]) else treated (length done) pre k' g') t) d (t_size t)
    ⊢ region (struct (treated n' pre') t) d (t_size t)).
  { intros n' pre' Heq. apply region_mono. intros bs Hbs. apply (struct_mono types constants t Hwf); [|exact Hbs].
    intros k' g' Hg' bs' _. rewrite (Heq k' g' Hg'). reflexivity. }
  assert (Htr : forall k' g', t_members t !! k' = Some g' -> k' = length done -> g' = g) by (intros k' g' H ->; congruence).
  destruct post as [|f' post].
  - destruct rest as [|g' rest].
    + (* the last field *)
      assert (Hlast : S (field_index done pre) = length (body_of t)).
      { unfold field_index, body_of. rewrite Ht, map_app, concat_app, !length_app. cbn. rewrite app_nil_r, Hg, length_app. cbn. lia. }
      destruct (next_wraps (body_of t) (offsets_of t) d body_tags members_laid_out ltac:(lia) _ it f Hit Hb Hlast) as (it' & En & _).
      iApply (wp_local K _ _ false it'); [exact En|]. iApply wp_ret. iApply "HΦ".
      iApply (region_mono with "H"). intros bs Hbs. apply (struct_mono types constants t Hwf); [|exact Hbs].
      intros k' g' Hg' bs' _. destruct (decide (k' = length done)) as [->|Hne].
      * rewrite (Htr _ _ Hg' eq_refl), Hg. reflexivity.
      * unfold treated. destruct (decide (k' < length done)%nat); [reflexivity|]. apply lookup_lt_Some in Hg'. rewrite Ht, length_app in Hg'. cbn in Hg'. lia.
    + (* the first field of the next member *)
      destruct (member_range types constants t Hwf (S (length done)) g') as (Hm' & _).
      { rewrite Ht, lookup_app_r by lia. replace (S (length done) - length done)%nat with 1%nat by lia. reflexivity. }
      assert (Hne : exists f' post', m_fields g' = f' :: post').
      { destruct Hm' as (_ & _ & _ & [(f' & Ef & _)|(Hne & _)]); [eauto|]. destruct (m_fields g'); [contradiction | eauto]. }
      destruct Hne as (f' & post' & Hg').
      assert (Ht' : t_members t = (done ++ [g]) ++ g' :: rest) by (rewrite <- app_assoc; exact Ht).
      assert (Ei : field_index (done ++ [g]) [] = S (field_index done pre)).
      { unfold field_index. rewrite map_app, concat_app, length_app. cbn. rewrite app_nil_r, Hg, length_app. cbn. lia. }
      destruct (field_index_lookup t _ g' rest [] f' post' Ht' Hg') as [Hb' _]. rewrite Ei in Hb'.
      destruct (next_advances (body_of t) (offsets_of t) d body_tags members_laid_out _ it f f' Hit Hb Hb') as (it' & En & Hit' & _).
      iApply (wp_local K _ _ true it'); [exact En|]. rewrite <- Ei in Hit'.
      iApply (IH (done ++ [g]) g' rest [] f' post' it' with "[H]"); [exact Ht' | exact Hg' | exact Hit' | lia | | iExact "HΦ"].
      iApply (Hpred with "H"). intros k' h Hh. rewrite length_app. cbn [length]. unfold treated.
      destruct (decide (k' = length done)) as [->|Hne].
      * destruct (decide _); [rewrite (Htr _ _ Hh eq_refl), Hg; reflexivity | lia].
      * destruct (decide (k' < length done)%nat), (decide (k' < length done + 1)%nat); try lia; [reflexivity|]. destruct (decide _); reflexivity.
  - (* the next field of the union *)
    assert (Hg' : m_fields g = (pre ++ [f]) ++ f' :: post) by (rewrite <- app_assoc; exact Hg).
    assert (Ei : field_index done (pre ++ [f]) = S (field_index done pre)) by (unfold field_index; rewrite length_app; cbn; lia).
    destruct (field_index_lookup t _ g rest _ f' post Ht Hg') as [Hb' _]. rewrite Ei in Hb'.
    destruct (next_advances (body_of t) (offsets_of t) d body_tags members_laid_out _ it f f' Hit Hb Hb') as (it' & En & Hit' & _).
    iApply (wp_local K _ _ true it'); [exact En|]. rewrite <- Ei in Hit'.
    iApply (IH done g rest (pre ++ [f]) f' post it' with "[H]"); [exact Ht | exact Hg' | exact Hit' | lia | | iExact "HΦ"].
    iApply (Hpred with "H"). intros k' h Hh. unfold treated. destruct (decide (k' = length done)) as [->|Hne]; [|reflexivity].
    destruct (decide _); [lia|]. rewrite (Htr _ _ Hh eq_refl). reflexivity.
Qed.

(** The loop over all fields treats all members. *)
Lemma on_fields_wp s (Φ : option unit -> pb_istream CB -> hprop) :
  region (struct (fun _ g => R g []) t) d (t_size t) ⊢
    (region (struct (fun _ g => R g (m_fields g)) t) d (t_size t) -∗ Φ (Some tt) s) -∗ wp (on_fields step (fields_of t) d) Φ K s.
Proof.
  assert (Hne : exists g rest, t_members t = g :: rest) by (destruct Hwf as (Hne & _); destruct (t_members t); [contradiction | eauto]).
  destruct Hne as (g & rest & Ht).
  destruct (member_range types constants t Hwf 0 g) as (Hm & _); [rewrite Ht; reflexivity|].
  assert (Hf : exists f post, m_fields g = f :: post).
  { destruct Hm as (_ & _ & _ & [(f & Ef & _)|(Hne & _)]); [eauto|]. destruct (m_fields g); [contradiction | eauto]. }
  destruct Hf as (f & post & Hg).
  destruct (field_index_lookup t [] g rest [] f post Ht Hg) as [Hb _]. change (field_index [] []) with 0%nat in Hb.
  destruct (begin_at_first (body_of t) (offsets_of t) d body_tags members_laid_out ltac:(lia) no_iter f Hb) as (it & En & Hit & _).
  iIntros "H HΦ". unfold on_fields. iApply wp_bind. iApply (wp_local K _ _ true it); [exact En|].
  iApply (each_field_from (length (fields_of t)) [] g rest [] f post it with "[H]"); [exact Ht | exact Hg | exact Hit | unfold fields_of; rewrite length_app; lia | | iExact "HΦ"].
  iApply (region_mono with "H"). intros bs Hbs. apply (struct_mono types constants t Hwf); [|exact Hbs].
  intros k g' Hg' bs' _. unfold treated. cbn [length]. destruct (decide _); [lia|]. destruct (decide _); reflexivity.
Qed.
End message.
End loops.

(** ** Default values *)

Section defaults.
Context {CB : Type} {ICB : InputCallback CB} {MA : Machine}.
Context (types : Z -> option message_type) (constants : mem) (K : Z).
Context (Htypes : forall a t, types a = Some t -> type_wf types constants t).
Context (descriptors : Z -> option (list pb_field)) (Hdesc : forall a t, types a = Some t -> descriptors a = Some (fields_of t)).

(** What setting a submessage of type [a] to its defaults promises. *)
Definition default_spec (n : nat) (sub : level -> Z -> list byte -> hprop) (a size : Z) : Prop :=
  exists fields, descriptors a = Some fields /\ forall d s (Φ : option unit -> pb_istream CB -> hprop), 0 < d ->
    region (sub Clear a) d size ⊢ (region (sub Fresh a) d size -∗ Φ (Some tt) s) -∗
    wp (on_fields (pb_field_set_to_default descriptors constants n) fields d) Φ K s.

(** A union when the fields [pre] have been set to their defaults. *)
Definition union_default (pre : list pb_field) (hd data : list byte) : Prop :=
  le_combine (slice hd 0 4) = 0 /\ (has_pointer pre -> le_combine (slice data 0 8) = 0).

Section field.
Context (sub : level -> Z -> list byte -> hprop) (Hsub : forall a bs, owns_nothing_when (fun l => sub l a bs)).
Context (n : nat).

Definition default_parts (g : member) (pre : list pb_field) (hd data : list byte) : hprop :=
  match pre with
  | [] => parts_own sub Clear g hd data
  | _ => if is_union g then ⌞union_default pre hd data⌟ else parts_own sub Fresh g hd data
  end%I.
Definition defaulted (g : member) (pre : list pb_field) : list byte -> hprop := member_split (default_parts g pre) g.

Lemma parts_nothing g hd data l : owning l = false -> parts_own sub l g hd data ⊢ emp.
Proof.
  intros Hl. unfold parts_own. cbv zeta. destruct (is_union g).
  - destruct (field_set _ _); [apply field_owns_nothing; assumption | iIntros "_"; done].
  - destruct (m_fields g) as [|f [|]]; [iIntros "[]" | apply field_owns_nothing; assumption | iIntros "[]"].
Qed.

Lemma default_parts_union g pre hd data : default_parts g pre hd data ⊢ ⌞is_union g = true -> pre <> [] -> union_default pre hd data⌟.
Proof.
  destruct pre as [|h pre]; cbn [default_parts].
  - rewrite parts_nothing by reflexivity. iIntros "_". iPureIntro. intros _ Hne. contradiction.
  - destruct (is_union g); [iIntros "%H"; iPureIntro; auto | rewrite parts_nothing by reflexivity; iIntros "_"; done].
Qed.

(** The iterator at a field of a member that is at [b]. *)
Definition at_member (b : Z) (g : member) (f : pb_field) (it : pb_field_iter) : Prop :=
  iter_pos it = (Ok f, it) /\ pData it = b - m_soff g /\ pSize it = b.

Lemma set_union_default g pre f post b it s (Φ : option unit -> pb_istream CB -> hprop) :
  member_wf types constants g -> union_wf g -> m_fields g = pre ++ f :: post -> at_member b g f it ->
  region (defaulted g pre) b (m_size g) ⊢ (region (defaulted g (pre ++ [f])) b (m_size g) -∗ Φ (Some tt) s) -∗
  wp (pb_field_set_to_default descriptors constants (S n) it) Φ K s.
Proof.
  intros Hg (Hne & Hs & Hu) Ef (Epos & ED & ES). pose proof Hg as (_ & Hlen & _).
  assert (Hin : In f (m_fields g)) by (rewrite Ef; apply in_or_app; right; left; reflexivity).
  destruct (proj1 (Forall_forall _ _) Hu f (proj2 (list_elem_of_In _ _) Hin)) as (Ho & Hcb & Hst & Hp).
  assert (Hun : is_union g = true) by (unfold is_union; apply existsb_exists; exists f; auto).
  destruct (member_room types constants g f Hg Hin) as ((Htag & Hds & Hkind & Hl9 & _) & _).
  unfold defaulted. rewrite !member_region by lia.
  iIntros "(%hd & %data & [%Hhd %Hdata] & Hhd & Hdata & HP) HΦ".
  iDestruct (default_parts_union g pre with "HP") as "HP". iDestruct "HP" as "%Hpre". specialize (Hpre Hun).
  cbn [pb_field_set_to_default]. iApply wp_bind. iApply wp_pos_of; [exact Epos|]. cbv zeta.
  unfold is_oneof in Ho. apply Z.eqb_eq in Ho.
  destruct (Z.eqb_spec (PB_LTYPE (type f)) PB_LTYPE_EXTENSION); [contradiction|]. rewrite Ho.
  change ((PB_HTYPE_ONEOF =? PB_HTYPE_OPTIONAL)) with false. change ((PB_HTYPE_ONEOF =? PB_HTYPE_REPEATED)) with false.
  change ((PB_HTYPE_ONEOF =? PB_HTYPE_ONEOF)) with true. cbn [andb orb].
  assert (Hgoal : forall hd' data', union_default (pre ++ [f]) hd' data' -> ⊢ default_parts g (pre ++ [f]) hd' data').
  { intros hd' data' H. unfold default_parts. rewrite Hun. destruct (pre ++ [f]) eqn:E; [destruct pre; discriminate|]. iPureIntro. exact H. }
  assert (Hhead : le_combine (slice (splice hd 0 (le_split 4 0)) 0 4) = 0) by (rewrite (le_combine_splice hd 0 4) by lia; reflexivity).
  assert (Hz : zlen (splice hd 0 (le_split 4 0)) = - m_soff g) by (rewrite zlen_splice; rewrite ?zlen_le_split; lia).
  unfold is_static, is_pointer, is_callback in *. destruct (Z.eqb_spec (PB_ATYPE (type f)) PB_ATYPE_STATIC) as [Est|Est].
  - iApply wp_bind. iApply wp_bind. unfold put_size. iApply (wp_put_int K b hd 0 with "Hhd"); [lia | lia | cbn; lia|]. iIntros "Hhd".
    iApply wp_ret. iApply wp_ret. iApply "HΦ". iExists _, data. iFrame "Hhd Hdata". iSplitR; [iPureIntro; auto|].
    iApply Hgoal. split; [exact Hhead|]. intros (h & Hh & Hhp). apply in_app_or in Hh as [Hh|[<-|[]]].
    + apply Hpre; [intros ->; destruct Hh | exists h; auto].
    + unfold is_pointer in Hhp. rewrite Est in Hhp. discriminate.
  - destruct (Z.eqb_spec (PB_ATYPE (type f)) PB_ATYPE_POINTER) as [Ept|Ept].
    2:{ exfalso. destruct Hkind as [H|[H|[H _]]]; congruence. }
    specialize (Hp eq_refl). unfold put_ptr, put_size. iApply wp_bind.
    iApply (wp_put_int K _ data 0 with "Hdata"); [lia | lia | cbn; lia|]. iIntros "Hdata".
    iApply (wp_put_int K b hd 0 with "Hhd"); [lia | lia | cbn; lia|]. iIntros "Hhd".
    iApply "HΦ". iExists _, _. iFrame "Hhd Hdata". iSplitR.
    { iPureIntro. split; [exact Hz|]. rewrite zlen_splice; rewrite ?zlen_le_split; lia. }
    iApply Hgoal. split; [exact Hhead|]. intros _. rewrite (le_combine_splice data 0 8) by lia. reflexivity.
Qed.
(** Only the first four bytes of a member without a count matter to nobody. *)
Lemma parts_single g f l hd data : single_wf g f ->
  parts_own sub l g hd data = field_owns sub l f (le_combine (slice hd 0 4)) data.
Proof. intros (Ef & Ho & _). unfold parts_own, is_union. rewrite Ef. cbn [existsb]. rewrite Ho. reflexivity. Qed.

Lemma single_region g f l b : member_wf types constants g -> single_wf g f ->
  region (member_owns sub l g) b (m_size g) ⊣⊢
  ∃ hd data, ⌞zlen hd = - m_soff g /\ zlen data = m_len g⌟ ∗ b ↦∗ hd ∗ (b - m_soff g) ↦∗ data ∗
    field_owns sub l f (le_combine (slice hd 0 4)) data.
Proof.
  intros (Hs & Hl & _) Hsing. unfold member_owns. rewrite member_region by lia.
  apply bi.exist_proper. intros hd. apply bi.exist_proper. intros data. rewrite (parts_single g f l hd data Hsing). reflexivity.
Qed.

Context (Hmono : forall a bs, monotone (fun l => sub l a bs)).

(** What is done for a static object that is not an array. *)
Definition set_object (f : pb_field) (a : Z) : M (dstate CB) unit :=
  if is_message f then
    fields <- known (descriptors (ptr f)) ;;
    on_fields (pb_field_set_to_default descriptors constants n) fields a
  else if negb (ptr f =? 0) then
    bs <- known (load_bytes constants (ptr f) (data_size f)) ;;
    store_at a bs
  else store_at a (zeros (data_size f)).

Lemma set_object_default f data a cnt s (Φ : option unit -> pb_istream CB -> hprop) :
  field_wf types constants f -> is_static f = true -> is_repeated f = false -> data_size f <= zlen data ->
  (is_message f = true -> default_spec n sub (ptr f) (data_size f)) ->
  a ↦∗ data ⊢ field_owns sub Clear f cnt data -∗
  (∀ data', ⌞zlen data' = zlen data⌟ -∗ a ↦∗ data' -∗ (∀ cnt, field_owns sub Fresh f cnt data') -∗ Φ (Some tt) s) -∗
  wp (set_object f a) Φ K s.
Proof.
  intros (_ & Hds & _ & _ & _ & _ & _ & _ & _ & Hconst & _) Est Ere Hl Hspec. iIntros "Ha HP HΦ".
  iDestruct (points_to_valid with "Ha") as "[Ha %Hv]". unfold set_object, field_owns. rewrite Est, Ere.
  destruct (is_message f) eqn:Em.
  - destruct (Hspec eq_refl) as (fields & Hfields & Hsp). iApply wp_bind. iApply wp_known; [exact Hfields|].
    iDestruct (object_focus (sub Clear (ptr f)) a data 0 (data_size f) with "[$Ha $HP]") as "[Hr Hclose]"; [lia..|]. rewrite Z.add_0_r. iApply (Hsp with "Hr"); [lia|].
    iIntros "Hr". iDestruct ("Hclose" with "Hr") as "(%new & %Hnew & Ha & HP)".
    iApply ("HΦ" with "[] Ha [HP]"); [iPureIntro; apply zlen_splice; lia|]. iIntros (_).
    rewrite <- Hnew. rewrite slice_splice_same by lia. iExact "HP".
  - assert (Hput : forall bs, zlen bs = data_size f -> a ↦∗ data ⊢ emp -∗
      (∀ data', ⌞zlen data' = zlen data⌟ -∗ a ↦∗ data' -∗ (∀ _ : Z, emp) -∗ Φ (Some tt) s) -∗ wp (store_at a bs) Φ K s).
    { intros bs Hbs. iIntros "Ha HP HΦ". iApply (wp_store_at K a data 0 with "Ha"); [lia..|]. iIntros "Ha".
      iApply ("HΦ" with "[] Ha [HP]"); [iPureIntro; apply zlen_splice; lia | iIntros (_); iExact "HP"]. }
    destruct (Z.eqb_spec (ptr f) 0) as [Ep|Ep]; cbn [negb].
    + iApply (Hput with "Ha HP HΦ"). unfold zlen, zeros. rewrite repeat_length. lia.
    + destruct (Hconst Est eq_refl) as [?|[bs Hbs]]; [contradiction|]. iApply wp_bind. iApply wp_known; [exact Hbs|].
      iApply (Hput with "Ha HP HΦ"). exact (proj1 (load_bytes_zlen _ _ _ _ Hbs)).
Qed.

Lemma set_single_default g f b it s (Φ : option unit -> pb_istream CB -> hprop) :
  member_wf types constants g -> single_wf g f -> at_member b g f it ->
  (is_static f = true -> is_message f = true -> default_spec n sub (ptr f) (data_size f)) ->
  region (member_owns sub Clear g) b (m_size g) ⊢ (region (member_owns sub Fresh g) b (m_size g) -∗ Φ (Some tt) s) -∗
  wp (pb_field_set_to_default descriptors constants (S n) it) Φ K s.
Proof.
  intros Hg Hsing (Epos & ED & ES) Hspec. pose proof Hg as (Hs & Hlen & _). pose proof Hsing as (Ef & Ho & Hl & Hrep).
  destruct (member_room types constants g f Hg) as (Hf & _ & Hrs & Hrp & _); [rewrite Ef; left; reflexivity|].
  pose proof Hf as (Htag & Hds & Hkind & Hl9 & _ & _ & _ & _ & Hty & Hconst & Hst & _).
  rewrite !(single_region g f _ b Hg Hsing).
  iIntros "(%hd & %data & [%Hhd %Hdata] & Hhd & Hdata & HP) HΦ".
  cbn [pb_field_set_to_default]. iApply wp_bind. iApply wp_pos_of; [exact Epos|]. cbv zeta.
  fold (is_static f) (is_pointer f) (is_optional f) (is_repeated f) (is_oneof f) (is_message f). rewrite Ho, orb_false_r.
  destruct (Z.eqb_spec (PB_LTYPE (type f)) PB_LTYPE_EXTENSION); [contradiction|].
  destruct (is_static f) eqn:Est.
  2:{ (* a pointer, or a callback that nothing is done for *)
    destruct (is_pointer f) eqn:Ept.
    2:{ iApply wp_ret. iApply "HΦ". iExists hd, data. iFrame "Hhd Hdata". iSplitR; [done|]. unfold field_owns. rewrite Est, Ept. iExact "HP". }
    specialize (Hrp eq_refl). iDestruct (field_owns_nothing sub f _ _ Hsub Clear eq_refl with "HP") as "_".
    assert (Hnull : forall cnt, (is_repeated f = true -> cnt = 0) -> ⊢ field_owns sub Fresh f cnt (splice data 0 (le_split 8 0))).
    { intros cnt Hc. unfold field_owns. rewrite Est, Ept. cbv zeta. rewrite (le_combine_splice data 0 8) by lia. iPureIntro. exact Hc. }
    unfold put_ptr, put_size. iApply wp_bind. iApply (wp_put_int K _ data 0 with "Hdata"); [lia | lia | cbn; lia|]. iIntros "Hdata".
    assert (Hz : zlen (splice data 0 (le_split 8 0)) = m_len g) by (rewrite zlen_splice; rewrite ?zlen_le_split; lia).
    destruct (is_repeated f) eqn:Ere.
    - destruct (Hrep eq_refl) as [Hs4|(_ & ? & _)]; [|congruence].
      iApply (wp_put_int K b hd 0 with "Hhd"); [lia | lia | cbn; lia|]. iIntros "Hhd".
      iApply "HΦ". iExists _, _. iFrame "Hhd Hdata". iSplitR; [iPureIntro; split; [rewrite zlen_splice; rewrite ?zlen_le_split; lia | exact Hz]|].
      iApply Hnull. intros _. rewrite (le_combine_splice hd 0 4) by lia. reflexivity.
    - iApply wp_ret. iApply "HΦ". iExists hd, _. iFrame "Hhd Hdata". iSplitR; [done|]. iApply Hnull. intros; congruence. }
  specialize (Hrs eq_refl).
  destruct (is_repeated f) eqn:Ere.
  { (* an array: only its count is set *)
    rewrite (repeated_not_optional f Ere). cbn [andb]. unfold put_size. iApply wp_bind. iApply wp_bind. destruct (Hrep eq_refl) as [Hs4|(H0 & _ & Hm & H4)].
    - iApply (wp_put_int K b hd 0 with "Hhd"); [lia | lia | cbn; lia|]. iIntros "Hhd". iApply wp_ret. iApply wp_ret.
      iApply "HΦ". iExists _, data. iFrame "Hhd Hdata". iSplitR; [iPureIntro; split; [rewrite zlen_splice; rewrite ?zlen_le_split; lia | exact Hdata]|].
      rewrite (le_combine_splice hd 0 4) by lia. change (wrap (8 * Z.of_nat 4) 0) with 0. unfold field_owns. rewrite Est, Ere. destruct (is_message f); [|iExact "HP"].
      iDestruct "HP" as "[_ HP]". iSplitR; [iPureIntro; intros _; specialize (Hst eq_refl eq_refl); lia|].
      iApply (array_mono with "HP"). intros i Hi.
      destruct (Z.ltb_spec i 0) as [Hlt|_]; [lia|]. destruct (_ <? _); reflexivity.
    - iApply (wp_put_int K (b - m_soff g) data 0 with "Hdata"); [lia | lia | cbn; lia|]. iIntros "Hdata". iApply wp_ret. iApply wp_ret.
      iApply "HΦ". iExists hd, _. iFrame "Hhd Hdata". iSplitR; [iPureIntro; split; [exact Hhd | rewrite zlen_splice; rewrite ?zlen_le_split; lia]|].
      unfold field_owns. rewrite Est, Hm. iExact "HP". }
  (* one object, and the flag in front of it *)
  assert (Hhd' : forall hd', zlen hd' = - m_soff g -> b ↦∗ hd' ∗ (b - m_soff g) ↦∗ data ∗ field_owns sub Clear f (le_combine (slice hd 0 4)) data ⊢
    ((∃ hd data, ⌞zlen hd = - m_soff g /\ zlen data = m_len g⌟ ∗ b ↦∗ hd ∗ (b - m_soff g) ↦∗ data ∗
       field_owns sub Fresh f (le_combine (slice hd 0 4)) data) -∗ Φ (Some tt) s) -∗
    wp (set_object f (b - m_soff g)) Φ K s).
  { intros hd' Hz. iIntros "(Hhd & Hdata & HP) HΦ". iApply (set_object_default f data (b - m_soff g) with "Hdata HP"); [exact Hf | exact Est | exact Ere | lia | exact (Hspec eq_refl)|].
    iIntros (data') "%Hz' Hdata HP". iApply "HΦ". iExists hd', data'. iFrame "Hhd Hdata". iSplitR; [iPureIntro; lia | iExact "HP"]. }
  iApply wp_bind. rewrite ED, ES. destruct (is_optional f && _) eqn:E.
  - unfold put_int. apply andb_true_iff in E as [_ E]. apply negb_true_iff, Z.eqb_neq in E.
    iApply wp_bind. iApply (wp_store_at K b hd 0 with "Hhd"); [lia | lia | rewrite zlen_le_split; lia|]. iIntros "Hhd". iApply wp_ret.
    iApply (Hhd' with "[$Hhd $Hdata $HP] HΦ"). rewrite zlen_splice; rewrite ?zlen_le_split; lia.
  - iApply wp_ret. iApply (Hhd' with "[$Hhd $Hdata $HP] HΦ"). exact Hhd.
Qed.
(** A member when all its fields have been set. *)
Lemma defaulted_all g bs : member_wf types constants g -> zlen bs = m_size g ->
  defaulted g (m_fields g) bs ⊢ member_owns sub Fresh g bs.
Proof.
  intros Hg Hbs. unfold defaulted, member_owns, member_split, default_parts.
  pose proof Hg as (_ & _ & _ & Hkind). destruct (m_fields g) as [|f fs] eqn:Ef.
  { exfalso. destruct Hkind as [(f & Ef' & _)|(Hne & _)]; [rewrite Ef in Ef'; discriminate | contradiction]. }
  destruct (is_union g) eqn:Hun; [|reflexivity]. unfold parts_own. cbv zeta. rewrite Hun. rewrite <- Ef. iIntros "[%H1 %H2]". rewrite H1.
  destruct (field_set 0 (m_fields g)) as [h|] eqn:Eh; [|done].
  exfalso. apply field_set_In in Eh as [Hin Ht]. destruct (member_room types constants g h Hg Hin) as ((? & _) & _). lia.
Qed.
End field.

Lemma at_field_member d g f it : at_field d g f it -> at_member (d + m_first g) g f it.
Proof. unfold m_first. intros (H1 & H2 & H3). split; [exact H1 | unfold m_first in *; lia]. Qed.

Lemma union_of g : member_wf types constants g -> (exists f, single_wf g f /\ is_union g = false) \/ (union_wf g /\ is_union g = true).
Proof.
  intros (_ & _ & _ & [(f & Hs)|Hu]); [left; exists f | right]; (split; [assumption|]).
  - unfold is_union. destruct Hs as (-> & Ho & _). cbn. rewrite Ho. reflexivity.
  - destruct Hu as (Hne & _ & Hu). unfold is_union. apply existsb_exists. destruct (m_fields g) as [|f fs]; [contradiction|].
    exists f. split; [left; reflexivity | exact (proj1 (Forall_inv Hu))].
Qed.

(** Setting a message to its defaults: it owned nothing, and is fresh. *)
Lemma defaults_wp n : forall N t d s (Φ : option unit -> pb_istream CB -> hprop),
  type_wf types constants t -> (t_rank t < n)%nat -> (t_rank t < N)%nat -> 0 < d ->
  message types N Clear t d ⊢ (message types N Fresh t d -∗ Φ (Some tt) s) -∗
  wp (on_fields (pb_field_set_to_default descriptors constants n) (fields_of t) d) Φ K s.
Proof.
  induction n as [|n IH]; intros [|N] t d s Φ Hwf Hn HN Hd; try lia.
  iIntros "H HΦ". iApply (on_fields_wp types constants K t d Hwf Hd (defaulted (sub_owns types N)) with "H [HΦ]").
  - intros k g pre f post it s' Φ' Hg Ef Hit. apply at_field_member in Hit.
    destruct (member_range types constants t Hwf k g Hg) as (Hm & _). destruct (union_of g Hm) as [(f' & Hs & Hun)|[Hu Hun]].
    + pose proof Hs as (Ef' & _). rewrite Ef' in Ef. destruct pre as [|h [|]]; try discriminate. injection Ef as -> _.
      assert (Hin : In f (m_fields g)) by (rewrite Ef'; left; reflexivity).
      iIntros "H HΦ". iApply (set_single_default (sub_owns types N) (sub_owns_nothing types N) n g f with "H [HΦ]"); [exact Hm | exact Hs | exact Hit| |].
      * intros Hst Hme. destruct (member_room types constants g f Hm Hin) as (Hf & _).
        destruct (static_submessage types constants t f Hwf (body_In t k g f Hg Hin) Hf Hst Hme) as (t' & Ht' & Hsz & Hr).
        exists (fields_of t'). split; [exact (Hdesc _ _ Ht')|]. intros d' s'' Φ'' Hd'. rewrite <- Hsz.
        rewrite !(sub_region types N _ _ _ _ Ht'). apply IH; [exact (Htypes _ _ Ht') | lia | lia | exact Hd'].
      * iIntros "H". iApply "HΦ". cbn [app]. unfold defaulted, default_parts. rewrite Hun. iExact "H".
    + iApply (set_union_default (sub_owns types N) (sub_owns_nothing types N) n g pre f post); assumption.
  - iIntros "H". iApply "HΦ". iApply (region_mono with "H"). intros bs Hbs. rewrite owns_members.
    apply (struct_mono types constants t Hwf); [|exact Hbs]. intros k g Hg bs' Hbs'.
    destruct (member_range types constants t Hwf k g Hg) as (Hm & _). apply defaulted_all; assumption.
Qed.
End defaults.

(** ** Releasing *)

Section release.
Context {CB : Type} {ICB : InputCallback CB} {MA : Machine} (K : Z).
Notation D := (M (dstate CB)).

(** A loop over the first items of an array. *)
Lemma release_items_wp (release : Z -> D unit) size (P Q : Z -> list byte -> hprop) m n a : 0 < size -> m * size <= n ->
  (forall i s (Φ : option unit -> pb_istream CB -> hprop), 0 <= i < m ->
    region (P i) (a + i * size) size ⊢ (region (Q i) (a + i * size) size -∗ Φ (Some tt) s) -∗ wp (release (a + i * size)) Φ K s) ->
  forall count k s (Φ : option unit -> pb_istream CB -> hprop), 0 <= k -> k + Z.of_nat count <= m ->
  region (array (fun i => if i <? k then Q i else P i) m size) a n ⊢
    (region (array (fun i => if i <? k + Z.of_nat count then Q i else P i) m size) a n -∗ Φ (Some tt) s) -∗
    wp (release_items release size count (a + k * size)) Φ K s.
Proof.
  intros Hs Hm Hstep. induction count as [|count IH]; intros k s Φ Hk Hc; cbn [release_items].
  - iIntros "H HΦ". iApply wp_ret. iApply "HΦ". rewrite Z.add_0_r. iExact "H".
  - iIntros "H HΦ". iApply wp_bind. iDestruct (array_access _ a n m size k with "H") as "[Hi Hclose]"; [lia..|].
    cbv beta. rewrite (proj2 (Z.ltb_ge k k)) by lia. iApply (Hstep with "Hi"); [lia|].
    iIntros "Hi". iDestruct ("Hclose" with "Hi") as "H". replace (a + k * size + size) with (a + (k + 1) * size) by lia.
    iApply (IH (k + 1) with "[H]"); [lia | lia | |].
    + iApply (region_mono with "H"). intros bs _. apply array_mono. intros i Hi. destruct (decide (i = k)) as [->|Hne].
      * destruct (Z.ltb_spec k (k + 1)); [reflexivity | lia].
      * destruct (Z.ltb_spec i k), (Z.ltb_spec i (k + 1)); try lia; reflexivity.
    + replace (k + 1 + Z.of_nat count) with (k + Z.of_nat (S count)) by lia. iExact "HΦ".
Qed.

Lemma release_all (release : Z -> D unit) size (P Q : Z -> list byte -> hprop) m n a count s (Φ : option unit -> pb_istream CB -> hprop) :
  0 < size -> m * size <= n ->
  (forall i s (Φ : option unit -> pb_istream CB -> hprop), 0 <= i < m ->
    region (P i) (a + i * size) size ⊢ (region (Q i) (a + i * size) size -∗ Φ (Some tt) s) -∗ wp (release (a + i * size)) Φ K s) ->
  Z.of_nat count <= m ->
  region (array P m size) a n ⊢
    (region (array (fun i => if i <? Z.of_nat count then Q i else P i) m size) a n -∗ Φ (Some tt) s) -∗
    wp (release_items release size count a) Φ K s.
Proof.
  intros Hs Hm Hstep Hc. iIntros "H HΦ".
  assert (E : a = a + 0 * size) by lia. rewrite E at 3.
  iApply (release_items_wp release size P Q m n a Hs Hm Hstep count 0 with "[H] HΦ"); [lia | lia|].
  iApply (region_mono with "H"). intros bs _. apply array_mono. intros i Hi. destruct (Z.ltb_spec i 0); [lia | reflexivity].
Qed.

(** Freeing the strings of an array. *)
Definition free_item (pItem : Z) : D unit := p <- get_ptr pItem ;; pb_free p ;; put_ptr pItem 0.

Lemma free_items_steps count : forall a st, free_items count a st = release_items free_item 8 count a (st : dstate CB).
Proof.
  induction count as [|count IH]; intros a st; cbn [free_items release_items]; [reflexivity|].
  unfold free_item. rewrite bind_assoc. unfold bind. destruct (get_ptr a st) as [[p| |] st1]; [|reflexivity..].
  destruct (pb_free p st1) as [[[]| |] st2]; [|reflexivity..]. destruct (put_ptr a 0 st2) as [[[]| |] st3]; [|reflexivity..]. apply IH.
Qed.

Lemma free_items_wp m n a s (Φ : option unit -> pb_istream CB -> hprop) : 0 <= m -> m * 8 <= n ->
  region (array (fun _ => blob_item) m 8) a n ⊢ (region (fun _ => emp%I) a n -∗ Φ (Some tt) s) -∗
  wp (free_items (Z.to_nat m) a) Φ K s.
Proof.
  intros H0 Hm. iIntros "H HΦ". iApply wp_ext; [intros h; apply free_items_steps|].
  iApply (release_all free_item 8 _ (fun _ _ => emp%I) m n a with "H"); [lia | exact Hm | | lia|].
  - intros i s' Φ' Hi. iIntros "(%bs & %Hbs & Hd & %blob & Hb) HΦ". unfold free_item. iApply wp_bind.
    iApply (wp_get_int K _ bs 0 8 with "Hd"); [lia..|]. iIntros "Hd". iApply wp_bind.
    rewrite (slice_whole bs 8 Hbs). iApply (wp_free with "Hb").
    iApply (wp_put_int K _ bs 0 with "Hd"); [lia | lia | cbn; lia|]. iIntros "Hd". iApply "HΦ".
    iExists _. iFrame "Hd". iPureIntro. rewrite zlen_splice; rewrite ?zlen_le_split; lia.
  - iIntros "H". iApply "HΦ". iApply (region_mono with "H"). intros bs _. apply array_nothing.
    intros i item Hi. destruct (Z.ltb_spec i (Z.of_nat (Z.to_nat m))); [reflexivity | lia].
Qed.

(** *** A field *)

Section field.
Context (types : Z -> option message_type) (constants : mem) (descriptors : Z -> option (list pb_field)).
Context (sub : level -> Z -> list byte -> hprop) (Hsub : forall a bs, owns_nothing_when (fun l => sub l a bs)).
Context (release_field : pb_field_iter -> D unit).

Definition release_submessage (a d : Z) : D unit :=
  fields <- known (descriptors a) ;; release_message release_field fields d.

Context (Hrel : forall l a d size s (Φ : option unit -> pb_istream CB -> hprop),
  region (sub l a) d size ⊢ (region (sub Clear a) d size -∗ Φ (Some tt) s) -∗ wp (release_submessage a d) Φ K s).
Context (g : member) (f : pb_field) (b : Z) (it : pb_field_iter).
Context (Hg : member_wf types constants g) (Hin : In f (m_fields g)) (Hit : at_member b g f it).

(** The count is in front of the data, except for arrays without one. *)
Definition counted (hd : list byte) (cnt : Z) : Prop :=
  is_repeated f = true -> cnt = le_combine (slice hd 0 4) /\ (m_soff g <= -4 \/ is_static f = true /\ is_message f = false).

Lemma wp_count hd s (Φ : option Z -> pb_istream CB -> hprop) : zlen hd = - m_soff g -> m_soff g <= -4 ->
  b ↦∗ hd ⊢ (b ↦∗ hd -∗ Φ (Some (le_combine (slice hd 0 4))) s) -∗ wp (get_size (pSize it)) Φ K s.
Proof. intros Hz Hs. apply wp_get_int; destruct Hit as (_ & _ & ES); lia. Qed.

Lemma wp_submessage_count hd s cnt (Φ : option Z -> pb_istream CB -> hprop) : zlen hd = - m_soff g -> counted hd cnt -> is_message f = true ->
  b ↦∗ hd ⊢ (b ↦∗ hd -∗ Φ (Some (if is_repeated f then if is_static f && (array_size f <? cnt) then array_size f else cnt else 1)) s) -∗
  wp (submessage_count f it) Φ K s.
Proof.
  intros Hz Hc Hm. unfold submessage_count. fold (is_repeated f) (is_static f). destruct (is_repeated f) eqn:Er.
  2:{ iIntros "H HΦ". iApply wp_ret. iApply ("HΦ" with "H"). }
  destruct (Hc Er) as [-> [Hs|[_ ?]]]; [|congruence]. iIntros "H HΦ". iApply wp_bind.
  destruct Hit as (_ & ED & ES). destruct (Z.eqb_spec (pSize it) (pData it)); [lia|]. rewrite andb_false_r.
  iApply (wp_count hd s with "H"); [exact Hz | exact Hs|]. iIntros "H". iApply wp_ret. iApply ("HΦ" with "H").
Qed.

(** Releasing the items of an array of submessages. *)
Lemma release_submessages (P : Z -> level) a m n d count s (Φ : option unit -> pb_istream CB -> hprop) size :
  0 < size -> m * size <= n -> Z.of_nat count <= m -> (forall i, Z.of_nat count <= i < m -> P i = Clear) ->
  region (array (fun i => sub (P i) a) m size) d n ⊢
    (region (array (fun _ => sub Clear a) m size) d n -∗ Φ (Some tt) s) -∗
    wp (release_items (release_submessage a) size count d) Φ K s.
Proof.
  intros Hs Hm Hc HP. iIntros "H HΦ". iApply (release_all _ size _ (fun _ => sub Clear a) m n d with "H"); [exact Hs | exact Hm | | exact Hc|].
  - intros i s' Φ' Hi. apply Hrel.
  - iIntros "H". iApply "HΦ". iApply (region_mono with "H"). intros bs _. apply array_mono. intros i Hi.
    destruct (Z.ltb_spec i (Z.of_nat count)); [reflexivity|]. rewrite HP by lia. reflexivity.
Qed.

Lemma contents_static l hd data cnt s (Φ : option unit -> pb_istream CB -> hprop) :
  is_static f = true -> zlen hd = - m_soff g -> zlen data = m_len g -> counted hd cnt -> 0 <= cnt ->
  b ↦∗ hd ⊢ (b - m_soff g) ↦∗ data -∗ field_owns sub l f cnt data -∗
    (∀ data', ⌞zlen data' = m_len g⌟ -∗ b ↦∗ hd -∗ (b - m_soff g) ↦∗ data' -∗ field_owns sub Clear f cnt data' -∗ Φ (Some tt) s) -∗
    wp (release_contents descriptors release_field f it) Φ K s.
Proof.
  intros Est Hhd Hdata Hc Hcnt. destruct (member_room types constants g f Hg Hin) as (Hf & _ & Hrs & _). specialize (Hrs Est).
  pose proof Hf as (_ & Hds & _ & Hl9 & _ & _ & _ & _ & _ & _ & Harr & _).
  iIntros "Hhd Hdata HP HΦ". iDestruct (points_to_valid with "Hdata") as "[Hdata %Hv]". unfold release_contents.
  destruct (Z.eqb_spec (PB_LTYPE (type f)) PB_LTYPE_EXTENSION); [contradiction|].
  fold (is_message f) (is_callback f) (is_pointer f). rewrite (static_not_callback f Est). cbn [negb]. rewrite andb_true_r.
  destruct (is_message f) eqn:Em.
  2:{ iApply wp_ret. iApply ("HΦ" with "[//] Hhd Hdata [HP]"). unfold field_owns. rewrite Est, Em. iExact "HP". }
  rewrite (static_not_pointer f Est).
  iApply wp_bind. iApply wp_ret. iApply wp_bind. iApply (wp_submessage_count hd s cnt with "Hhd"); [exact Hhd | exact Hc | exact Em|]. iIntros "Hhd".
  destruct Hit as (_ & ED & _). rewrite ED. destruct (Z.eqb_spec (b - m_soff g) 0); [lia|]. cbn [negb]. rewrite Est. cbn [andb].
  unfold field_owns. rewrite Est, Em. destruct (is_repeated f) eqn:Er.
  - iDestruct "HP" as "[_ HP]". specialize (Harr Est eq_refl).
    assert (Hcl : forall i, Z.of_nat (Z.to_nat (if array_size f <? cnt then array_size f else cnt)) <= i < array_size f -> (if i <? cnt then l else Clear) = Clear).
    { intros i Hi. destruct (Z.ltb_spec (array_size f) cnt), (Z.ltb_spec i cnt); lia || reflexivity. }
    iApply (release_submessages (fun i => if i <? cnt then l else Clear) (ptr f) (array_size f) (m_len g) with "[Hdata HP]"); [lia | lia | destruct (Z.ltb_spec (array_size f) cnt); lia | exact Hcl | |].
    + iExists data. iFrame. done.
    + iIntros "(%data' & %Hz & Hdata & HP)". iApply ("HΦ" with "[//] Hhd Hdata"). iSplitR; [done|].
      iApply (array_mono with "HP"). intros i _. destruct (i <? cnt); reflexivity.
  - iApply (release_submessages (fun _ => l) (ptr f) 1 (m_len g) with "[Hdata HP]"); [lia | lia | reflexivity | lia | |].
    + iExists data. iSplitR; [done|]. iFrame "Hdata". iApply one_array. iExact "HP".
    + iIntros "(%data' & %Hz & Hdata & HP)". iApply ("HΦ" with "[//] Hhd Hdata"). iApply (array_one with "HP").
Qed.

(** What the pointer of a field holds. *)
Definition held (l : level) (cnt p : Z) : hprop :=
  (if p =? 0 then ⌞is_repeated f = true -> cnt = 0⌟ else pointee sub l f cnt p)%I.

Lemma contents_pointer l hd data cnt s (Φ : option unit -> pb_istream CB -> hprop) :
  is_pointer f = true -> zlen hd = - m_soff g -> zlen data = m_len g -> counted hd cnt ->
  let p := le_combine (slice data 0 8) in
  b ↦∗ hd ⊢ (b - m_soff g) ↦∗ data -∗ held l cnt p -∗
    (b ↦∗ hd -∗ (b - m_soff g) ↦∗ data -∗ held Clear cnt p -∗ Φ (Some tt) s) -∗
    wp (release_contents descriptors release_field f it) Φ K s.
Proof.
  intros Ep Hhd Hdata Hc p. destruct (member_room types constants g f Hg Hin) as (Hf & _ & _ & Hrp & _). specialize (Hrp Ep).
  pose proof Hf as (_ & Hds & _ & Hl9 & _).
  pose proof (pointer_not_static f Ep) as Est.
  pose proof (pointer_not_callback f Ep) as Ecb.
  iIntros "Hhd Hdata HP HΦ". unfold release_contents.
  destruct (Z.eqb_spec (PB_LTYPE (type f)) PB_LTYPE_EXTENSION); [contradiction|].
  fold (is_message f) (is_callback f) (is_pointer f). rewrite Ecb, Ep. cbn [negb]. rewrite andb_true_r.
  destruct (is_message f) eqn:Em.
  2:{ iApply wp_ret. iApply ("HΦ" with "Hhd Hdata [HP]"). unfold held, pointee. rewrite Em. iExact "HP". }
  iApply wp_bind. iApply (wp_get_int K _ data 0 with "Hdata"); [destruct Hit as (_ & ED & _); unfold sizeof_ptr in *; lia..|].
  iIntros "Hdata". iApply wp_bind. iApply (wp_submessage_count hd s cnt with "Hhd"); [exact Hhd | exact Hc | exact Em|]. iIntros "Hhd".
  unfold sizeof_ptr in *. fold p. rewrite Est. cbn [andb]. unfold held. destruct (Z.eqb_spec p 0) as [E|E]; cbn [negb].
  { iApply wp_ret. iApply ("HΦ" with "Hhd Hdata HP"). }
  unfold pointee. rewrite Em. iDestruct "HP" as "(%bs & %Hp & Ho & HP)".
  rewrite (owned_some p bs E). iDestruct "Ho" as "[Hb Hd]".
  destruct (is_repeated f) eqn:Er.
  - iDestruct "HP" as "([%H0 %Hsz] & HP)".
    iApply (release_submessages (fun _ => l) (ptr f) cnt (zlen bs) with "[Hd HP]"); [lia | lia | lia | lia | |].
    + iExists bs. iFrame. done.
    + iIntros "(%bs' & %Hz & Hd & HP)". iApply ("HΦ" with "Hhd Hdata"). iExists bs'. rewrite (owned_some p bs' E), Hz. iFrame. done.
  - iDestruct "HP" as "(%Hsz & HP)".
    iApply (release_submessages (fun _ => l) (ptr f) 1 (zlen bs) with "[Hd HP]"); [lia | lia | reflexivity | lia | |].
    + iExists bs. iSplitR; [done|]. iFrame "Hd". iApply one_array. rewrite slice_whole by exact Hsz. iExact "HP".
    + iIntros "(%bs' & %Hz & Hd & HP)". iApply ("HΦ" with "Hhd Hdata"). iExists bs'. rewrite (owned_some p bs' E), Hz. iFrame "Hb Hd". iSplitR; [done|]. iSplitR; [done|].
      iDestruct (array_one with "HP") as "HP". rewrite slice_whole by lia. iExact "HP".
Qed.

(** The strings of an array are freed first. *)
Lemma release_strings hd data cnt s (Φ : option unit -> pb_istream CB -> hprop) :
  is_pointer f = true -> zlen hd = - m_soff g -> zlen data = m_len g -> counted hd cnt ->
  let p := le_combine (slice data 0 8) in
  b ↦∗ hd ⊢ (b - m_soff g) ↦∗ data -∗ held Clear cnt p -∗
    (∀ bs, b ↦∗ hd -∗ (b - m_soff g) ↦∗ data -∗ owned p bs -∗ Φ (Some tt) s) -∗
    wp (if is_repeated f && is_blob f
        then pItem <- get_ptr (pData it) ;; count <- get_size (pSize it) ;; free_items (Z.to_nat count) pItem
        else ret tt) Φ K s.
Proof.
  intros Ep Hhd Hdata Hc p. destruct (member_room types constants g f Hg Hin) as (Hf & _ & _ & Hrp & _). specialize (Hrp Ep).
  pose proof Hf as (_ & _ & _ & _ & _ & _ & _ & _ & _ & _ & _ & Hblob).
  iIntros "Hhd Hdata HP HΦ". destruct (is_repeated f && is_blob f) eqn:E.
  - apply andb_true_iff in E as [Er Eb]. destruct (Hc Er) as [-> [Hs|[Est _]]].
    2:{ rewrite (pointer_not_static f Ep) in Est. discriminate. }
    pose proof (blob_not_message f Eb) as Em.
    iApply wp_bind. iApply (wp_get_int K _ data 0 with "Hdata"); [destruct Hit as (_ & ED & _); unfold sizeof_ptr in *; lia..|].
    iIntros "Hdata". unfold sizeof_ptr in *. fold p. iApply wp_bind. iApply (wp_count hd s with "Hhd"); [exact Hhd | exact Hs|]. iIntros "Hhd".
    set (cnt := le_combine (slice hd 0 4)). unfold held, pointee. rewrite Er, Em, Eb, (Hblob Ep Er Eb).
    destruct (Z.eqb_spec p 0) as [Ez|Ez].
    + iDestruct "HP" as "%H0". rewrite H0 by reflexivity. iApply wp_ret. iApply ("HΦ" $! [] with "Hhd Hdata"). iApply owned_null. exact Ez.
    + iDestruct "HP" as "(%bs & _ & Ho & [%H0 %Hsz] & HP)". rewrite (owned_some p bs Ez). iDestruct "Ho" as "[Hb Hd]".
      iApply (free_items_wp cnt (zlen bs) with "[Hd HP]"); [lia | lia | iExists bs; iFrame; done|].
      iIntros "(%bs' & %Hz & Hd & _)". iApply ("HΦ" $! bs' with "Hhd Hdata"). rewrite (owned_some p bs' Ez), Hz. iFrame.
  - iApply wp_ret. unfold held, pointee. destruct (Z.eqb_spec p 0) as [Ez|Ez].
    + iDestruct "HP" as "_". iApply ("HΦ" $! [] with "Hhd Hdata"). iApply owned_null. exact Ez.
    + iDestruct "HP" as "(%bs & _ & Ho & HP)". iApply ("HΦ" $! bs with "Hhd Hdata [HP Ho]").
      iAssert emp%I with "[HP]" as "_"; [|iExact "Ho"].
      destruct (is_repeated f); cbn [andb] in E.
      * iDestruct "HP" as "[_ HP]". rewrite E. destruct (is_message f); [|done]. iApply (array_nothing with "HP"). intros i item _. apply Hsub. reflexivity.
      * destruct (is_message f); [|done]. iDestruct "HP" as "[_ HP]". iApply (Hsub with "HP"). reflexivity.
Qed.

Lemma release_pointer_wp hd data cnt s (Φ : option unit -> pb_istream CB -> hprop) :
  is_pointer f = true -> zlen hd = - m_soff g -> zlen data = m_len g -> counted hd cnt ->
  b ↦∗ hd ⊢ (b - m_soff g) ↦∗ data -∗ held Clear cnt (le_combine (slice data 0 8)) -∗
    (∀ hd', ⌞zlen hd' = - m_soff g /\ (if is_repeated f then le_combine (slice hd' 0 4) = 0 else hd' = hd)⌟ -∗
      b ↦∗ hd' -∗ (b - m_soff g) ↦∗ splice data 0 (le_split 8 0) -∗ Φ (Some tt) s) -∗
    wp (release_pointer f it) Φ K s.
Proof.
  intros Ep Hhd Hdata Hc. destruct (member_room types constants g f Hg Hin) as (Hf & _ & _ & Hrp & _). specialize (Hrp Ep).
  iIntros "Hhd Hdata HP HΦ". unfold release_pointer. fold (is_repeated f) (is_blob f).
  iApply wp_bind. iApply (release_strings hd data cnt s with "Hhd Hdata HP"); try assumption. iIntros (bs) "Hhd Hdata Ho".
  destruct Hit as (_ & ED & ES). iApply wp_bind.
  iAssert (∀ hd', ⌞zlen hd' = - m_soff g /\ (if is_repeated f then le_combine (slice hd' 0 4) = 0 else hd' = hd)⌟ -∗ b ↦∗ hd' -∗
    wp (p <- get_ptr (pData it) ;; pb_free p ;; put_ptr (pData it) 0) Φ K s)%I with "[Hdata Ho HΦ]" as "Hrest".
  { iIntros (hd') "Hhd' Hhd". iApply wp_bind.
    iApply (wp_get_int K _ data 0 with "Hdata"); [unfold sizeof_ptr in *; lia..|]. iIntros "Hdata". iApply wp_bind.
    iApply (wp_free with "Ho"). unfold put_ptr. iApply (wp_put_int K _ data 0 with "Hdata"); [lia | lia | cbn; lia|].
    iIntros "Hdata". iApply ("HΦ" with "Hhd' Hhd Hdata"). }
  destruct (is_repeated f) eqn:Er.
  - destruct (Hc Er) as [_ [Hs|[Est _]]]; [|rewrite (pointer_not_static f Ep) in Est; discriminate].
    unfold put_size. iApply (wp_put_int K b hd 0 with "Hhd"); [lia | lia | cbn; lia|]. iIntros "Hhd".
    iApply ("Hrest" with "[] Hhd"). iPureIntro. split; [rewrite zlen_splice; rewrite ?zlen_le_split; lia|].
    rewrite (le_combine_splice hd 0 4) by lia. reflexivity.
  - iApply wp_ret. iApply ("Hrest" with "[] Hhd"). iPureIntro. auto.
Qed.

(** A field that is set. *)
Lemma release_field_wp l hd data cnt s (Φ : option unit -> pb_istream CB -> hprop) :
  zlen hd = - m_soff g -> zlen data = m_len g -> counted hd cnt -> 0 <= cnt ->
  b ↦∗ hd ⊢ (b - m_soff g) ↦∗ data -∗ field_owns sub l f cnt data -∗
    (∀ hd' data', ⌞zlen hd' = - m_soff g /\ zlen data' = m_len g /\ (is_repeated f = false -> hd' = hd)⌟ -∗
      b ↦∗ hd' -∗ (b - m_soff g) ↦∗ data' -∗
      field_owns sub Clear f (if is_repeated f then le_combine (slice hd' 0 4) else cnt) data' -∗ Φ (Some tt) s) -∗
    wp (release_contents descriptors release_field f it ;;
        if is_pointer f then release_pointer f it else ret tt) Φ K s.
Proof.
  intros Hhd Hdata Hc Hcnt. destruct (member_room types constants g f Hg Hin) as (Hf & _ & _ & Hrp & _).
  pose proof Hf as (_ & _ & Hkind & Hl9 & _). iIntros "Hhd Hdata HP HΦ". iApply wp_bind.
  destruct (is_static f) eqn:Est; [|destruct (is_pointer f) eqn:Ep].
  - iApply (contents_static l hd data cnt s with "Hhd Hdata HP"); try assumption. iIntros (data') "%Hz Hhd Hdata HP".
    rewrite (static_not_pointer f Est). iApply wp_ret. iApply ("HΦ" with "[] Hhd Hdata [HP]"); [iPureIntro; auto|].
    destruct (is_repeated f) eqn:Er; [|iExact "HP"]. destruct (Hc Er) as [<- _]. iExact "HP".
  - specialize (Hrp eq_refl). set (p := le_combine (slice data 0 8)).
    iAssert (held l cnt p) with "[HP]" as "HP".
    { unfold field_owns, held. rewrite Est, Ep. fold p. cbv zeta. destruct (p =? 0); [iExact "HP"|]. iDestruct "HP" as "[_ $]". }
    iApply (contents_pointer l hd data cnt s with "Hhd Hdata HP"); try assumption. iIntros "Hhd Hdata HP".
    iApply (release_pointer_wp hd data cnt s with "Hhd Hdata HP"); try assumption. iIntros (hd') "[%Hz %Hh] Hhd Hdata".
    iApply ("HΦ" with "[] Hhd Hdata").
    + iPureIntro. split; [exact Hz|]. split; [rewrite zlen_splice; rewrite ?zlen_le_split; lia|]. intros Er. rewrite Er in Hh. exact Hh.
    + unfold field_owns. rewrite Est, Ep. cbv zeta. rewrite (le_combine_splice data 0 8) by lia. iPureIntro. intros Er. rewrite Er in *. exact Hh.
  - assert (Ecb : is_callback f = true) by (destruct Hkind as [?|[?|[? _]]]; congruence).
    unfold release_contents. destruct (Z.eqb_spec (PB_LTYPE (type f)) PB_LTYPE_EXTENSION); [contradiction|].
    fold (is_message f) (is_callback f). rewrite Ecb. cbn [negb]. rewrite andb_false_r.
    iApply wp_ret. iApply wp_ret. iApply ("HΦ" with "[] Hhd Hdata [HP]"); [iPureIntro; auto|]. unfold field_owns. rewrite Est, Ep. iExact "HP".
Qed.
End field.

(** *** Messages *)

Section message.
Context (types : Z -> option message_type) (constants : mem).
Context (Htypes : forall a t, types a = Some t -> type_wf types constants t).
Context (descriptors : Z -> option (list pb_field)) (Hdesc : forall a t, types a = Some t -> descriptors a = Some (fields_of t)).

Section member.
Context (sub : level -> Z -> list byte -> hprop) (Hsub : forall a bs, owns_nothing_when (fun l => sub l a bs)).
Context (n : nat).
Context (Hrel : forall l a d size s (Φ : option unit -> pb_istream CB -> hprop),
  region (sub l a) d size ⊢ (region (sub Clear a) d size -∗ Φ (Some tt) s) -∗
  wp (release_submessage descriptors (pb_release_single_field descriptors n) a d) Φ K s).

Lemma single_counted g f hd : single_wf g f -> counted g f hd (le_combine (slice hd 0 4)).
Proof. intros (_ & _ & _ & Hrep) Er. split; [reflexivity|]. destruct (Hrep Er) as [?|(_ & ? & ? & _)]; auto. Qed.

Lemma release_single_wp g f b it l s (Φ : option unit -> pb_istream CB -> hprop) :
  member_wf types constants g -> single_wf g f -> at_member b g f it ->
  region (member_owns sub l g) b (m_size g) ⊢ (region (member_owns sub Clear g) b (m_size g) -∗ Φ (Some tt) s) -∗
  wp (pb_release_single_field descriptors (S n) it) Φ K s.
Proof.
  intros Hg Hsing Hit. rewrite !(single_region types constants _ g f _ b Hg Hsing). pose proof Hsing as (Ef & Ho & _).
  iIntros "(%hd & %data & [%Hhd %Hdata] & Hhd & Hdata & HP) HΦ".
  cbn [pb_release_single_field]. iApply wp_bind. iApply wp_pos_of; [apply Hit|]. fold (is_oneof f). rewrite Ho.
  iApply wp_bind. iApply wp_ret.
  iApply (release_field_wp types constants descriptors sub Hsub _ Hrel g f b it Hg with "Hhd Hdata HP");
    [rewrite Ef; left; reflexivity | exact Hit | exact Hhd | exact Hdata | exact (single_counted g f hd Hsing) | apply le_combine_bound|].
  iIntros (hd' data') "(%Hz1 & %Hz2 & %Heq) Hhd Hdata HP". iApply "HΦ". iExists hd', data'. iFrame "Hhd Hdata". iSplitR; [done|].
  destruct (is_repeated f); [iExact "HP" | rewrite (Heq eq_refl); iExact "HP"].
Qed.

(** A union when [pre] have been looked at. *)
Definition released (l : level) (g : member) (pre : list pb_field) (hd data : list byte) : hprop :=
  (parts_own sub l g hd data ∗ ⌞Forall (fun f => tag f <> le_combine (slice hd 0 4)) pre⌟ ∨ parts_own sub Clear g hd data)%I.

Lemma field_set_unique g f which : NoDup (map tag (m_fields g)) -> In f (m_fields g) -> which = tag f ->
  field_set which (m_fields g) = Some f.
Proof.
  intros Hnd Hin ->. unfold field_set. induction (m_fields g) as [|h fs IH]; [destruct Hin|]. cbn in *. apply NoDup_cons in Hnd as [Hh Hnd].
  destruct (Z.eqb_spec (tag h) (tag f)) as [E|E].
  - destruct Hin as [->|Hin]; [reflexivity|]. exfalso. apply Hh. rewrite E. apply list_elem_of_In, in_map, Hin.
  - destruct Hin as [->|Hin]; [contradiction | exact (IH Hnd Hin)].
Qed.

(** The release of one field of a union, whether it is set or not. *)
Lemma release_oneof_wp g pre f b it l s (Φ : option unit -> pb_istream CB -> hprop) :
  member_wf types constants g -> union_wf g -> is_union g = true -> NoDup (map tag (m_fields g)) -> In f (m_fields g) -> at_member b g f it ->
  region (member_split (released l g pre) g) b (m_size g) ⊢
    (region (member_split (released l g (pre ++ [f])) g) b (m_size g) -∗ Φ (Some tt) s) -∗
  wp (pb_release_single_field descriptors (S n) it) Φ K s.
Proof.
  intros Hg (_ & Hs & Hu) Hun Hnd Hin Hit. pose proof Hg as (_ & Hlen & _). rewrite !member_region by lia.
  destruct (proj1 (Forall_forall _ _) Hu f (proj2 (list_elem_of_In _ _) Hin)) as (Ho & _).
  iIntros "(%hd & %data & [%Hhd %Hdata] & Hhd & Hdata & HP) HΦ".
  cbn [pb_release_single_field]. iApply wp_bind. iApply wp_pos_of; [apply Hit|]. fold (is_oneof f) (is_pointer f). rewrite Ho.
  iApply wp_bind. iApply wp_bind. iApply (wp_count g f b it Hit hd s with "Hhd"); [exact Hhd | exact Hs|]. iIntros "Hhd". iApply wp_ret.
  destruct (Z.eqb_spec (le_combine (slice hd 0 4)) (tag f)) as [E|E]; cbn [negb].
  - iAssert (∃ l', field_owns sub l' f 0 data)%I with "[HP]" as "(%l' & HP)".
    { iDestruct "HP" as "[[HP _]|HP]"; unfold parts_own; cbv zeta; rewrite Hun, (field_set_unique g f _ Hnd Hin E); iExists _; iExact "HP". }
    iApply (release_field_wp types constants descriptors sub Hsub _ Hrel g f b it Hg Hin Hit l' hd data 0 with "Hhd Hdata HP");
      [exact Hhd | exact Hdata | intros Er; rewrite (oneof_not_repeated f Ho) in Er; discriminate | lia|].
    rewrite (oneof_not_repeated f Ho). iIntros (hd' data') "(%Hz1 & %Hz2 & %Heq) Hhd Hdata HP". rewrite (Heq eq_refl).
    iApply "HΦ". iExists hd, data'. iFrame "Hhd Hdata". iSplitR; [done|]. iRight.
    unfold parts_own. cbv zeta. rewrite Hun, (field_set_unique g f _ Hnd Hin E). iExact "HP".
  - iApply wp_ret. iApply "HΦ". iExists hd, data. iFrame "Hhd Hdata". iSplitR; [done|].
    iDestruct "HP" as "[[HP %Hpre]|HP]"; [iLeft; iFrame; iPureIntro; apply Forall_app; auto | iRight; iExact "HP"].
Qed.

Lemma released_all l g hd data : is_union g = true -> released l g (m_fields g) hd data ⊢ parts_own sub Clear g hd data.
Proof.
  intros Hun. unfold released. iIntros "[[HP %Hpre]|$]". unfold parts_own. cbv zeta. rewrite Hun.
  destruct (field_set _ _) as [f|] eqn:E; [|iExact "HP"]. apply field_set_In in E as [Hin Ht].
  exfalso. exact (proj1 (Forall_forall _ _) Hpre f (proj2 (list_elem_of_In _ _) Hin) Ht).
Qed.
End member.

(** Releasing a message: whatever its state, it owns nothing afterwards. *)
Lemma release_wp n : forall N l t d s (Φ : option unit -> pb_istream CB -> hprop),
  type_wf types constants t -> (N <= n)%nat ->
  message types N l t d ⊢ (message types N Clear t d -∗ Φ (Some tt) s) -∗
  wp (release_message (pb_release_single_field descriptors n) (fields_of t) d) Φ K s.
Proof.
  induction n as [|n IH]; intros N l t d s Φ Hwf HN.
  { assert (N = 0%nat) as -> by lia. iIntros "(%bs & _ & _ & [])". }
  destruct N as [|N]; [iIntros "(%bs & _ & _ & [])"|].
  iIntros "(%bs & %Hbs & Hd & H) HΦ". iDestruct (points_to_valid with "Hd") as "[Hd %Hd]".
  unfold release_message. destruct (Z.eqb_spec d 0); [lia|].
  set (sub := sub_owns types N).
  assert (Hrel : forall l a d size s (Φ : option unit -> pb_istream CB -> hprop),
    region (sub l a) d size ⊢ (region (sub Clear a) d size -∗ Φ (Some tt) s) -∗
    wp (release_submessage descriptors (pb_release_single_field descriptors n) a d) Φ K s).
  { intros l' a d' size s' Φ'. iIntros "H HΦ". iDestruct (sub_region_type with "H") as "(%t' & %Hp & H)". destruct Hp as (Ht' & -> & Hd').
    unfold release_submessage. iApply wp_bind. iApply wp_known; [exact (Hdesc _ _ Ht')|].
    iApply (IH N l' t' d' with "H"); [exact (Htypes _ _ Ht') | lia|]. iIntros "H". iApply "HΦ". iApply (sub_region types N Clear a t' d' Ht' with "H"). }
  set (R := fun g pre => if is_union g then member_split (released sub l g pre) g
                         else match pre with [] => member_owns sub l g | _ => member_owns sub Clear g end).
  iApply (on_fields_wp types constants K t d Hwf Hd R with "[Hd H] [HΦ]").
  - intros k g pre f post it s' Φ' Hg Ef Hit. apply at_field_member in Hit.
    destruct (member_range types constants t Hwf k g Hg) as (Hm & _). unfold R. destruct (union_of types constants g Hm) as [(f' & Hs & Hun)|[Hu Hun]]; rewrite Hun.
    + pose proof Hs as (Ef' & _). rewrite Ef' in Ef. destruct pre as [|h [|]]; try discriminate. injection Ef as -> _.
      exact (release_single_wp sub (sub_owns_nothing types N) n Hrel g f _ it l s' Φ' Hm Hs Hit).
    + apply (release_oneof_wp sub (sub_owns_nothing types N) n Hrel); try assumption.
      * exact (member_tags types constants t k g Hwf Hg).
      * rewrite Ef. apply in_or_app. right. left. reflexivity.
  - iExists bs. iFrame "Hd". iSplitR; [done|]. rewrite owns_members. iApply (struct_mono types constants t Hwf with "H"); [|exact Hbs].
    intros k g Hg bs' _. unfold R. destruct (is_union g); [|reflexivity]. unfold member_owns, member_split, released.
    iIntros "H". iLeft. iFrame. iPureIntro. constructor.
  - iIntros "H". iApply "HΦ". iApply (region_mono with "H"). intros bs' Hbs'. rewrite owns_members.
    apply (struct_mono types constants t Hwf); [|exact Hbs']. intros k g Hg bs'' _. unfold R. destruct (is_union g) eqn:Hun.
    + apply released_all, Hun.
    + destruct (member_range types constants t Hwf k g Hg) as (Hm & _). destruct (union_of types constants g Hm) as [(f' & (Ef' & _) & _)|[_ ?]]; [|congruence].
      rewrite Ef'. reflexivity.
Qed.
End message.
End release.
