(* ===== verification/PbItem.v ===== *)
(** What the decoders of single values do: the numbers of PbCodec on an object in
    memory, strings and bytes with their allocation, and submessages against
    what they promise ([Submessages]). *)
From Stdlib Require Import ZArith Lia Bool String.
From coqutil Require Import Byte Word.LittleEndianList.
From stdpp Require Import base list numbers gmap.
From iris.bi Require Import bi.
From iris.proofmode Require Import proofmode.
From S2P Require Import Prelude PbStream PbCommon PbCodec PbSpec PbMemory PbEncode PbAdvance PbHeap PbDecode PbSep PbTypes PbRelease.
#[local] Unset SsrRewrite.
Local Open Scope Z_scope.
Local Open Scope c_scope.

(** ** Numbers *)

Section numbers.
Context {CB : Type} {ICB : InputCallback CB}.

(** A success has read something. *)
Definition eats {A} (m : M (pb_istream CB) A) : Prop := forall s a s', istream_ok s -> m s = (Ok a, s') -> i_bytes_left s' < i_bytes_left s.

(** A decoder of PbCodec keeps to its object; with [e], a success has read
    something. *)
Definition writes (e : bool) (n : Z) {A} (m : M (list byte * pb_istream CB) A) : Prop := forall K bs s, zlen bs = n -> in_order K s ->
  let '(r, (bs', s')) := m (bs, s) in
  r <> Stuck /\ zlen bs' = n /\ advances K s s' /\ (forall a, e = true -> r = Ok a -> i_bytes_left s' < i_bytes_left s).

Lemma writes_ret n {A} (a : A) : writes false n (ret a).
Proof. intros K bs s Hl Hs. split; [discriminate|]. split; [exact Hl|]. split; [apply advances_refl, Hs | discriminate]. Qed.

Lemma writes_stream e n {A} (m : M (pb_istream CB) A) : shrinks m -> (e = true -> eats m) -> writes e n (on_stream m).
Proof.
  intros H He K bs s Hl Hs. destruct (H K s Hs) as [H1 H2]. specialize (fun E a s' => He E s a s' (in_order_ok K s Hs)). unfold on_stream.
  destruct (m s) as [[a| |] s']; cbn [fst snd] in *; (split; [congruence|]); (split; [exact Hl|]); (split; [exact H2|]); [|discriminate..].
  intros a' E _. exact (He E a s' eq_refl).
Qed.

Lemma writes_error n {A} msg : writes false n (on_stream (@i_return_error CB A msg)).
Proof. apply writes_stream; [|discriminate]. intros K s Hs. split; [discriminate | apply keeps_error, Hs]. Qed.

Lemma writes_store n out : zlen out <= n -> writes false n (@store CB out).
Proof.
  intros Ho K bs s Hl Hs. unfold store. destruct (Nat.ltb_spec (length bs) (length out)); [unfold zlen in *; lia|].
  split; [discriminate|]. split; [|split; [apply advances_refl, Hs | discriminate]]. unfold zlen in *. rewrite length_app, length_drop. lia.
Qed.

Lemma writes_bind e n {A B} (m : M (list byte * pb_istream CB) A) (k : A -> M (list byte * pb_istream CB) B) :
  writes e n m -> (forall a bs s bs' s', m (bs, s) = (Ok a, (bs', s')) -> writes false n (k a)) -> writes e n (bind m k).
Proof.
  intros Hm Hk K bs s Hl Hs. specialize (Hm K bs s Hl Hs). specialize (fun a => Hk a bs s). unfold bind.
  destruct (m (bs, s)) as [[a| |] [bs1 s1]]; destruct Hm as (H1 & H2 & H3 & He).
  - specialize (Hk a bs1 s1 eq_refl K bs1 s1 H2 (proj1 H3)). destruct (k a (bs1, s1)) as [r [bs2 s2]]. destruct Hk as (H4 & H5 & H6 & _).
    split; [exact H4|]. split; [exact H5|]. split; [exact (advances_trans K _ _ _ H3 H6)|].
    intros b E _. specialize (He a E eq_refl). destruct H6 as [_ H6]. lia.
  - split; [discriminate|]. split; [exact H2|]. split; [exact H3 | discriminate].
  - contradiction.
Qed.

Lemma writes_if e n {A} (b : bool) (m1 m2 : M (list byte * pb_istream CB) A) : (b = true -> writes e n m1) -> (b = false -> writes e n m2) ->
  writes e n (if b then m1 else m2).
Proof. destruct b; auto. Qed.

Lemma writes_weaken n {A} (m : M (list byte * pb_istream CB) A) : writes true n m -> writes false n m.
Proof.
  intros H K bs s Hl Hs. specialize (H K bs s Hl Hs). destruct (m (bs, s)) as [r [bs' s']]. destruct H as (H1 & H2 & H3 & _).
  split; [exact H1|]. split; [exact H2|]. split; [exact H3 | discriminate].
Qed.

Lemma pb_decode_svarint_shrinks : shrinks (pb_decode_svarint (CB := CB)).
Proof.
  apply safe_shrinks; [apply pb_decode_svarint_safe|]. apply keeps_bind; [|intros; apply keeps_ret].
  intros K s Hs. apply pb_decode_varint_shrinks, Hs.
Qed.

Lemma pb_decode_fixed_shrinks : shrinks (pb_decode_fixed32 (CB := CB)) /\ shrinks (pb_decode_fixed64 (CB := CB)).
Proof.
  split; (apply safe_shrinks; [apply pb_decode_fixed_safe|]); (apply keeps_bind; [apply pb_read_keeps; lia | intros; apply keeps_ret]).
Qed.

Lemma varint_loop_eats fuel : forall k r, eats (varint_loop (CB := CB) fuel k r).
Proof.
  induction fuel as [|fuel IH]; intros k r s v s' Hs; cbn [varint_loop]; [discriminate|].
  destruct (64 <=? k); [discriminate|]. intros H. apply bind_inv in H as (b & s1 & Hb & H).
  pose proof (pb_readbyte_safe s Hs) as [_ Hs1]. rewrite Hb in Hs1. apply pb_readbyte_left in Hb; [|exact Hs].
  revert H. destruct (negb _); [|intros [= _ <-]; lia]. intros H. apply IH in H; [lia | exact Hs1].
Qed.

Lemma pb_decode_varint_eats : eats (pb_decode_varint (CB := CB)).
Proof. apply varint_loop_eats. Qed.

Lemma pb_decode_svarint_eats : eats (pb_decode_svarint (CB := CB)).
Proof. intros s a s' Hs H. apply bind_inv in H as (v & s1 & H & [= _ <-]). exact (pb_decode_varint_eats s v s1 Hs H). Qed.

Lemma pb_read_eats n : 0 < n -> eats (pb_read (CB := CB) true n).
Proof.
  intros Hn s a s' Hs. unfold pb_read. destruct (Z.eqb_spec n 0); [lia|]. rewrite bind_get. cbn [negb andb]. intros H.
  apply pb_read_some_left in H; [lia | exact Hs | lia].
Qed.

Lemma pb_decode_fixed_eats : eats (pb_decode_fixed32 (CB := CB)) /\ eats (pb_decode_fixed64 (CB := CB)).
Proof. split; intros s a s' Hs H; apply bind_inv in H as (v & s1 & H & [= _ <-]); (eapply pb_read_eats; [|exact Hs | exact H]); lia. Qed.

(** A read gives as many bytes as it was asked for. *)
Lemma pb_read_zlen count (s s' : pb_istream CB) bs : 0 <= count -> pb_read true count s = (Ok bs, s') -> zlen bs = count.
Proof.
  intros Hc. unfold pb_read. destruct (Z.eqb_spec count 0) as [->|]; [intros [= <- <-]; reflexivity|].
  rewrite bind_get. cbn [negb andb]. unfold pb_read_some. rewrite bind_get. destruct (_ <? _); [discriminate|].
  intros H. apply bind_inv in H as (bs' & s1 & H & H'). cbn in H'. injection H' as <- <-.
  unfold i_callback in H. destruct (i_source s) as [mem|u].
  - unfold buf_read in H. destruct (Z.ltb_spec (zlen mem) count); [discriminate|]. injection H as <- <-. apply zlen_ztake. lia.
  - destruct (cb_read u _ count) as [[[b|] u'] left'] eqn:E; [|discriminate]. injection H as <- <-. apply cb_read_ok in E. apply E.
Qed.

(** The integer decoders store one of four sizes. *)
Lemma put_sizes n (put : nat -> M (list byte * pb_istream CB) Z) size : size = n ->
  (forall k, Z.of_nat k = n -> writes false n (put k)) ->
  writes false n (if size =? 8 then put 8%nat else if size =? 4 then put 4%nat else if size =? 2 then put 2%nat
            else if size =? 1 then put 1%nat else on_stream (i_return_error "invalid data_size")).
Proof.
  intros -> H. do 4 (apply writes_if; [intros Hn; apply H; apply Z.eqb_eq in Hn; lia | intros _]). apply writes_error.
Qed.

(** The decoders of numbers, by field type. *)
Definition number_decoder (l : Z) : option (pb_field -> M (list byte * pb_istream CB) unit) :=
  [Some pb_dec_bool; Some pb_dec_varint; Some pb_dec_uvarint; Some pb_dec_svarint; Some pb_dec_fixed32; Some pb_dec_fixed64;
   None; None; None; None; Some pb_dec_fixed_length_bytes] !! Z.to_nat l ≫= fun d => d.

(** [value] is what is stored, [clamped k] what is read back from [k] bytes. *)
Ltac writes_number value clamped := apply writes_bind; [apply writes_stream; [|intros _] |
  intros v ? ? ? ? _; cbv zeta; apply writes_bind;
    [apply (put_sizes _ (fun k => store (le_split k (value v)) ;; ret (clamped k (value v)))); [reflexivity|]; intros k Hk; apply writes_bind;
       [apply writes_store; unfold zlen; rewrite length_le_split; lia | intros; apply writes_ret]
    | intros; apply writes_if; intros _; [apply writes_ret | apply writes_error]]].

Lemma number_decoder_writes f dec : 0 < data_size f -> 0 <= PB_LTYPE (type f) -> number_decoder (PB_LTYPE (type f)) = Some dec ->
  writes (PB_LTYPE (type f) <=? PB_LTYPE_LAST_PACKABLE) (scalar_size f) (dec f).
Proof.
  intros Hds Hl0 Hdec. unfold number_decoder in Hdec. unfold scalar_size. set (l := PB_LTYPE (type f)) in *. cbv zeta.
  destruct (Z.to_nat l) as [|[|[|[|[|[|[|[|[|[|[|n]]]]]]]]]]] eqn:El; cbn in Hdec; try discriminate; injection Hdec as <-.
  - assert (l = 0) as -> by lia. change (0 =? PB_LTYPE_BOOL) with true. cbv iota. unfold pb_dec_bool.
    apply writes_bind; [apply writes_stream; [apply pb_decode_varint32_shrinks | intros _ s a s' Hs; apply pb_decode_varint32_left, Hs] | intros; apply writes_store; unfold zlen; cbn; lia].
  - assert (l = 1) as -> by lia. cbn. unfold pb_dec_varint.
    writes_number (fun v => if data_size f =? 8 then sext 64 v else sext 32 v) (fun k v => sext (8 * Z.of_nat k) v); [apply pb_decode_varint_shrinks | apply pb_decode_varint_eats].
  - assert (l = 2) as -> by lia. cbn. unfold pb_dec_uvarint.
    writes_number (fun v : Z => v) (fun k v => wrap (8 * Z.of_nat k) v); [apply pb_decode_varint_shrinks | apply pb_decode_varint_eats].
  - assert (l = 3) as -> by lia. cbn. unfold pb_dec_svarint.
    writes_number (fun v : Z => v) (fun k v => sext (8 * Z.of_nat k) v); [apply pb_decode_svarint_shrinks | apply pb_decode_svarint_eats].
  - assert (l = 4) as -> by lia. cbn. unfold pb_dec_fixed32.
    apply writes_bind; [apply writes_stream; [apply pb_decode_fixed_shrinks | intros _; apply pb_decode_fixed_eats] | intros; apply writes_store; unfold zlen; rewrite length_le_split; lia].
  - assert (l = 5) as -> by lia. cbn. unfold pb_dec_fixed64.
    apply writes_bind; [apply writes_stream; [apply pb_decode_fixed_shrinks | intros _; apply pb_decode_fixed_eats] | intros; apply writes_store; unfold zlen; rewrite length_le_split; lia].
  - assert (l = 10) as -> by lia. cbn. unfold pb_dec_fixed_length_bytes.
    apply writes_bind; [apply writes_stream; [apply pb_decode_varint32_shrinks | discriminate] | intros size ? ? ? ? _].
    apply writes_if; intros _; [apply writes_error|]. apply writes_if; intros _.
    { apply writes_store. unfold zlen, zeros. rewrite repeat_length. lia. }
    apply writes_if; intros _; [apply writes_error|].
    apply writes_bind; [apply writes_stream; [apply pb_read_shrinks; lia | discriminate]|]. intros out ? s0 ? ? H. apply writes_store.
    unfold on_stream in H. destruct (pb_read true (data_size f) s0) as [[a| |] s1] eqn:E; [|discriminate..].
    injection H as <- _ _. apply pb_read_zlen in E; lia.
Qed.
End numbers.

(** ** Objects *)

Section objects.
Context {CB : Type} {ICB : InputCallback CB} {MA : Machine}.
Notation D := (M (dstate CB)).

(** [n] bytes at [d], whatever they are. *)
Definition raw (d n : Z) : hprop := region (fun _ => emp%I) d n.

Lemma wp_at_dest K e dec f d n s (Φ : option unit -> pb_istream CB -> hprop) :
  writes e (scalar_size f) (dec f) -> 0 <= scalar_size f <= n ->
  raw d n ⊢ (∀ o s', ⌞forall u, e = true -> o = Some u -> i_bytes_left s' < i_bytes_left s⌟ -∗ raw d n -∗ Φ o s') -∗ wp (at_dest dec f d) Φ K s.
Proof.
  intros Hw Hn. iIntros "(%bs & %Hbs & Hd & _) HΦ". unfold at_dest. iApply wp_bind.
  iApply (wp_load_at K d bs 0 with "Hd"); [lia..|]. iIntros "Hd". set (obj := slice bs 0 (scalar_size f)).
  assert (Hobj : zlen obj = scalar_size f) by (apply zlen_slice; lia).
  set (m := fun s : pb_istream CB => let '(r, (bs', s')) := dec f (obj, s) in (Ok (r, bs'), s')).
  iApply (wp_ext _ _ ('(r, bs') <- on_istream m ;; store_at d bs' ;; (fun st => (r, st)))).
  { intros h. unfold on_istream, m, bind. cbn [d_stream d_heap]. destruct (dec f (obj, s)) as [r [bs' s']].
    destruct (store_at d bs' _) as [[[]| |] st1]; reflexivity. }
  iApply wp_bind. iApply (wp_istream K m (fun x s' => match x with
    | Ok (r, bs') => r <> Stuck /\ zlen bs' = scalar_size f /\ (forall a, e = true -> r = Ok a -> i_bytes_left s' < i_bytes_left s)
    | _ => False end)).
  { intros Hs. specialize (Hw K obj s Hobj Hs). unfold m. destruct (dec f (obj, s)) as [r [bs' s']]. destruct Hw as (H1 & H2 & H3 & H4).
    cbn [fst snd]. split; [discriminate | auto]. }
  iIntros (o s') "%HR". destruct o as [[r bs']|]; [destruct HR as (Hr & Hz & He) | contradiction].
  iApply wp_bind. iApply (wp_store_at K d bs 0 with "Hd"); [lia..|]. iIntros "Hd".
  iAssert (raw d n) with "[Hd]" as "Hd"; [iExists _; iFrame; iPureIntro; rewrite zlen_splice by lia; exact Hbs|].
  destruct r as [a| |]; [iApply wp_ret | iApply wp_fail | contradiction]; iApply ("HΦ" with "[] Hd"); iPureIntro; [intros _ E _; exact (He a E eq_refl) | discriminate].
Qed.

Lemma raw_put K d n off k v a s (Φ : option unit -> pb_istream CB -> hprop) : a = d + off -> 0 <= off -> off + Z.of_nat k <= n ->
  raw d n ⊢ (raw d n -∗ Φ (Some tt) s) -∗ wp (put_int a k v) Φ K s.
Proof.
  intros Ha Ho Hn. iIntros "(%bs & %Hbs & Hd & _) HΦ". iApply (wp_put_int K d bs off with "Hd"); [lia..|]. iIntros "Hd".
  iApply "HΦ". iExists _. iFrame "Hd". iPureIntro. rewrite zlen_splice; rewrite ?zlen_le_split; lia.
Qed.

Lemma raw_read K d n off count a s (Φ : option unit -> pb_istream CB -> hprop) : a = d + off -> 0 <= off -> 0 <= count -> off + count <= n ->
  raw d n ⊢ (∀ o s', raw d n -∗ Φ o s') -∗ wp (read_into a count) Φ K s.
Proof.
  intros Ha Ho Hc Hn. iIntros "Hd HΦ". unfold read_into. iApply wp_bind.
  iApply (wp_istream K _ (fun x _ => match x with Ok bs => zlen bs = count | _ => True end)).
  { intros Hs. destruct (pb_read_shrinks (CB := CB) true count Hc K s Hs) as [H1 H2]. split; [exact H1|]. split; [exact H2|].
    destruct (pb_read true count s) as [[bs| |] s1] eqn:E; cbn [fst]; auto. exact (pb_read_zlen count s s1 bs Hc E). }
  iIntros (o s') "%HR". destruct o as [new|]; [|iApply ("HΦ" with "Hd")]. cbn in HR. iDestruct "Hd" as "(%bs & %Hbs & Hd & _)".
  iApply (wp_store_at K d bs off with "Hd"); [lia..|]. iIntros "Hd". iApply "HΦ". iExists _. iFrame "Hd".
  iPureIntro. rewrite zlen_splice by lia. exact Hbs.
Qed.

Lemma wp_varint32 K s (Φ : option Z -> pb_istream CB -> hprop) :
  (∀ o s', ⌞forall v, o = Some v -> in_word 32 v⌟ -∗ Φ o s') ⊢ wp (on_istream pb_decode_varint32) Φ K s.
Proof.
  iIntros "HΦ". iApply (wp_istream K _ (fun x _ => forall v, x = Ok v -> in_word 32 v)).
  { intros Hs. destruct (pb_decode_varint32_shrinks (CB := CB) K s Hs) as [H1 H2]. split; [exact H1|]. split; [exact H2|].
    destruct (pb_decode_varint32 s) as [r s1] eqn:E. cbn [fst]. intros v ->. exact (pb_decode_varint32_range s v s1 E). }
  iIntros (o s') "%HR". iApply "HΦ". iPureIntro. intros v ->. apply HR. reflexivity.
Qed.

(** ** Allocation *)

(** Blocks are smaller than 4 GB: [pb_size_t] counts the items, and the offset of
    an item is computed in its 32 bits. *)
Context (Hsmall : forall n, available n -> n < 2 ^ 32).

(** The pointer at the start of [data]. *)
Definition pointer_of (data : list byte) : Z := le_combine (slice data 0 8).

Lemma wp_put_pointer K d data q bs s (Φ : option unit -> pb_istream CB -> hprop) : 8 <= zlen data -> q <> 0 -> 0 < zlen bs ->
  d ↦∗ data ⊢ owned q bs -∗
    (∀ data', ⌞zlen data' = zlen data /\ pointer_of data' = q⌟ -∗ d ↦∗ data' -∗ owned q bs -∗ Φ (Some tt) s) -∗
    wp (put_ptr d q) Φ K s.
Proof.
  intros Hl Hq Hpos. iIntros "Hd Ho HΦ". rewrite (owned_some q bs Hq). iDestruct "Ho" as "[Hb Hq]".
  iDestruct (block_valid with "Hb") as "[Hb %Hv]".
  unfold put_ptr. iApply (wp_put_int K d data 0 with "Hd"); [lia | lia | cbn; lia|]. iIntros "Hd".
  iApply ("HΦ" with "[] Hd [$Hb $Hq]"). iPureIntro. split; [rewrite zlen_splice; rewrite ?zlen_le_split; lia|].
  unfold pointer_of. rewrite (le_combine_splice data 0 8) by lia. apply wrap_small. unfold in_word.
  change (2 ^ (8 * Z.of_nat 8)) with (2 ^ 64). lia.
Qed.

(** A pointer to [n] bytes that begin with what it pointed to before. *)
Definition grown (d len : Z) (old : list byte) (n : Z) : hprop :=
  (∃ data junk, ⌞zlen data = len /\ pointer_of data <> 0 /\ zlen (ztake n old ++ junk) = n /\ 0 < n < 2 ^ 32⌟ ∗
     d ↦∗ data ∗ owned (pointer_of data) (ztake n old ++ junk))%I.

(** [allocate_field] on a pointer to [old]: it may fail and leave all as it was. *)
Lemma wp_allocate_field K d data old size count s (Φ : option unit -> pb_istream CB -> hprop) :
  8 <= zlen data -> 0 <= size < 2 ^ 64 -> 0 <= count < 2 ^ 64 ->
  d ↦∗ data ⊢ owned (pointer_of data) old -∗
    ((∀ s', d ↦∗ data -∗ owned (pointer_of data) old -∗ Φ None s') ∧
     (grown d (zlen data) old (count * size) -∗ Φ (Some tt) s)) -∗
    wp (allocate_field d size count) Φ K s.
Proof.
  intros Hl Hsize Hcount. iIntros "Hd Ho HΦ". unfold allocate_field. iApply wp_bind.
  iApply (wp_get_int K d data 0 with "Hd"); [unfold sizeof_ptr; lia..|]. iIntros "Hd". change (slice data 0 sizeof_ptr) with (slice data 0 8).
  fold (pointer_of data). set (p := pointer_of data).
  destruct (Z.eqb_spec size 0) as [Es|Es]; [iApply wp_return_error; iIntros (s'); iDestruct "HΦ" as "[HΦ _]"; iApply ("HΦ" with "Hd Ho")|].
  destruct (Z.eqb_spec count 0) as [Ec|Ec]; cbn [orb]; [iApply wp_return_error; iIntros (s'); iDestruct "HΦ" as "[HΦ _]"; iApply ("HΦ" with "Hd Ho")|].
  destruct (_ && _) eqn:Echeck; [iApply wp_return_error; iIntros (s'); iDestruct "HΦ" as "[HΦ _]"; iApply ("HΦ" with "Hd Ho")|].
  assert (Hn : 0 < count * size < 2 ^ 64).
  { split; [nia|]. apply andb_false_iff in Echeck as [E|E].
    - apply orb_false_iff in E as [E1 E2]. apply Z.leb_gt in E1, E2. nia.
    - apply Z.ltb_ge in E. assert (size * count <= SIZE_MAX); [|unfold SIZE_MAX in *; lia].
      pose proof (Z.mul_div_le SIZE_MAX count ltac:(lia)). nia. }
  rewrite wrap_small by (unfold in_word; lia). iApply wp_bind. iApply (wp_realloc with "Ho"); [lia|].
  iIntros (q) "[[-> Ho]|(%junk & %Hq & Ho)]".
  - cbn [Z.eqb]. iApply wp_return_error. iIntros (s'). iDestruct "HΦ" as "[HΦ _]". iApply ("HΦ" with "Hd Ho").
  - destruct Hq as [[Hq Hav] Hz]. apply Hsmall in Hav. destruct (Z.eqb_spec q 0); [contradiction|].
    iApply (wp_put_pointer K d data q with "Hd Ho"); [exact Hl | exact Hq | lia|].
    iIntros (data') "[%Hz' %Hp] Hd Ho". iDestruct "HΦ" as "[_ HΦ]". iApply "HΦ". iExists data', junk. rewrite Hp. iFrame.
    iPureIntro. do 3 (split; [assumption|]). lia.
Qed.

(** *** Strings and bytes *)

Lemma pointer_of_cell data : zlen data = 8 -> le_combine data = pointer_of data.
Proof. intros H. unfold pointer_of. rewrite slice_whole by exact H. reflexivity. Qed.

(** The cell of a pointer to a string. *)
Definition blob_cell (d : Z) : hprop := region blob_item d 8.

(** Allocating a string and filling it in. *)
Lemma wp_fill_blob K d size alloc_size s (k : Z -> D unit) (Φ : option unit -> pb_istream CB -> hprop) : 0 <= alloc_size < 2 ^ 64 ->
  (forall q (Ψ : option unit -> pb_istream CB -> hprop), raw q alloc_size ⊢ (∀ o s', raw q alloc_size -∗ Ψ o s') -∗ wp (k q) Ψ K s) ->
  blob_cell d ⊢ (∀ o s', blob_cell d -∗ Φ o s') -∗
  wp (p <- (st <- get ;; if i_bytes_left (d_stream st) <? size then return_error "end-of-stream" else
            allocate_field d alloc_size 1 ;; get_ptr d) ;; k p) Φ K s.
Proof.
  intros Hn Hk. iIntros "Hd HΦ". iApply wp_bind. iApply wp_bind. iApply wp_get. iIntros (h). cbn [d_stream].
  destruct (_ <? _); [iApply wp_return_error; iIntros (s'); iApply ("HΦ" with "Hd")|].
  iDestruct "Hd" as "(%data & %Hdata & Hd & %old & Ho)". iApply wp_bind. rewrite (pointer_of_cell data Hdata).
  iApply (wp_allocate_field K d data old alloc_size 1 with "Hd Ho"); [lia | lia | lia|]. iSplit.
  - iIntros (s') "Hd Ho". iApply "HΦ". iExists data. iFrame "Hd". iSplitR; [done|]. iExists old. rewrite (pointer_of_cell data Hdata). iExact "Ho".
  - rewrite Z.mul_1_l. iIntros "(%data' & %junk & %Hp & Hd & Ho)". destruct Hp as (Hz & Hp & Hl & _).
    iApply (wp_get_int K d data' 0 with "Hd"); [unfold sizeof_ptr; lia..|]. iIntros "Hd".
    change (le_combine (slice data' 0 sizeof_ptr)) with (pointer_of data'). rewrite (owned_some _ _ Hp). iDestruct "Ho" as "[Hb Hq]".
    iApply (Hk with "[Hq]"); [iExists _; iFrame; done|]. iIntros (o s') "(%new & %Hnew & Hq & _)". iApply "HΦ".
    iExists data'. iFrame "Hd". iSplitR; [iPureIntro; lia|]. iExists new.
    rewrite (pointer_of_cell data') by lia. rewrite (owned_some _ _ Hp), Hl, Hnew. iFrame.
Qed.

Lemma bytes_alloc_size size : in_word 32 size -> PB_BYTES_ARRAY_T_ALLOCSIZE size = size + bytes_array_bytes.
Proof. intros H. unfold PB_BYTES_ARRAY_T_ALLOCSIZE, bytes_array_bytes. apply wrap_small. unfold in_word in *. lia. Qed.

Lemma string_alloc_size size : in_word 32 size -> size <= u32 (size + 1) -> u32 (size + 1) = size + 1.
Proof.
  unfold in_word. intros H Hle. destruct (Z.eq_dec size (2 ^ 32 - 1)) as [->|]; [vm_compute in Hle; contradiction|].
  apply wrap_small. unfold in_word. lia.
Qed.

(** The size goes in front of the bytes. *)
Lemma fill_bytes K size q n s (Φ : option unit -> pb_istream CB -> hprop) : in_word 32 size -> size + bytes_array_bytes <= n ->
  raw q n ⊢ (∀ o s', raw q n -∗ Φ o s') -∗ wp (put_size q size ;; read_into (q + bytes_array_bytes) size) Φ K s.
Proof.
  intros Hw Hn. iIntros "Hq HΦ". unfold in_word, bytes_array_bytes in *. iApply wp_bind.
  iApply (raw_put K q n 0 4 size with "Hq"); [lia..|]. iIntros "Hq".
  iApply (raw_read K q n 4 size with "Hq"); [lia..|]. iExact "HΦ".
Qed.

(** The terminator is written even when the read has failed. *)
Lemma fill_string K size q n s (Φ : option unit -> pb_istream CB -> hprop) : in_word 32 size -> size + 1 <= n ->
  raw q n ⊢ (∀ o s', raw q n -∗ Φ o s') -∗
  wp (status <- status_of (read_into q size) ;; put_int (q + size) 1 0 ;; if status then ret tt else fail) Φ K s.
Proof.
  intros Hw Hn. iIntros "Hq HΦ". unfold in_word in *. iApply wp_bind. iApply wp_status_of.
  iApply (raw_read K q n 0 size with "Hq"); [lia..|]. iIntros (o s') "Hq". iApply wp_bind.
  iApply (raw_put K q n size 1 0 with "Hq"); [lia..|]. iIntros "Hq".
  destruct o; [iApply wp_ret | iApply wp_fail]; iApply ("HΦ" with "Hq").
Qed.

Lemma dec_bytes_pointer K f d s (Φ : option unit -> pb_istream CB -> hprop) : is_pointer f = true ->
  blob_cell d ⊢ (∀ o s', blob_cell d -∗ Φ o s') -∗ wp (pb_dec_bytes f d) Φ K s.
Proof.
  intros Hp. iIntros "Hd HΦ". unfold pb_dec_bytes. fold (is_pointer f). rewrite Hp. iApply wp_bind. iApply wp_varint32.
  iIntros (o s1) "%HR". destruct o as [size|]; [|iApply ("HΦ" with "Hd")]. specialize (HR size eq_refl). pose proof HR as Hw. unfold in_word in Hw.
  destruct (Z.ltb_spec PB_SIZE_MAX size); [unfold PB_SIZE_MAX in *; lia|]. rewrite bytes_alloc_size by exact HR.
  destruct (Z.ltb_spec (size + bytes_array_bytes) size); [unfold bytes_array_bytes in *; lia|].
  iApply (wp_fill_blob with "Hd HΦ"); [unfold bytes_array_bytes; lia|]. intros q Ψ. apply fill_bytes; [exact HR | lia].
Qed.

Lemma dec_string_pointer K f d s (Φ : option unit -> pb_istream CB -> hprop) : is_pointer f = true ->
  blob_cell d ⊢ (∀ o s', blob_cell d -∗ Φ o s') -∗ wp (pb_dec_string f d) Φ K s.
Proof.
  intros Hp. iIntros "Hd HΦ". unfold pb_dec_string. fold (is_pointer f). rewrite Hp. iApply wp_bind. iApply wp_varint32.
  iIntros (o s1) "%HR". destruct o as [size|]; [|iApply ("HΦ" with "Hd")]. specialize (HR size eq_refl). pose proof HR as Hw. unfold in_word in Hw.
  destruct (Z.ltb_spec (u32 (size + 1)) size) as [|Hle]; [iApply wp_return_error; iIntros (s'); iApply ("HΦ" with "Hd")|].
  rewrite (string_alloc_size size HR Hle). iApply (wp_fill_blob with "Hd HΦ"); [lia|]. intros q Ψ. apply fill_string; [exact HR | lia].
Qed.

(** In the structure they have the room that the descriptor says. *)
Lemma dec_bytes_static K f d n s (Φ : option unit -> pb_istream CB -> hprop) : is_pointer f = false -> data_size f <= n ->
  raw d n ⊢ (∀ o s', raw d n -∗ Φ o s') -∗ wp (pb_dec_bytes f d) Φ K s.
Proof.
  intros Hp Hn. iIntros "Hd HΦ". unfold pb_dec_bytes. fold (is_pointer f). rewrite Hp. iApply wp_bind. iApply wp_varint32.
  iIntros (o s1) "%HR". destruct o as [size|]; [|iApply ("HΦ" with "Hd")]. specialize (HR size eq_refl). pose proof HR as Hw. unfold in_word in Hw.
  destruct (Z.ltb_spec PB_SIZE_MAX size); [unfold PB_SIZE_MAX in *; lia|]. rewrite bytes_alloc_size by exact HR.
  destruct (Z.ltb_spec (size + bytes_array_bytes) size); [unfold bytes_array_bytes in *; lia|]. iApply wp_bind.
  destruct (Z.ltb_spec (data_size f) (size + bytes_array_bytes)); [iApply wp_return_error; iIntros (s'); iApply ("HΦ" with "Hd")|].
  iApply wp_ret. iApply (fill_bytes with "Hd HΦ"); [exact HR | lia].
Qed.

Lemma dec_string_static K f d n s (Φ : option unit -> pb_istream CB -> hprop) : is_pointer f = false -> data_size f <= n ->
  raw d n ⊢ (∀ o s', raw d n -∗ Φ o s') -∗ wp (pb_dec_string f d) Φ K s.
Proof.
  intros Hp Hn. iIntros "Hd HΦ". unfold pb_dec_string. fold (is_pointer f). rewrite Hp. iApply wp_bind. iApply wp_varint32.
  iIntros (o s1) "%HR". destruct o as [size|]; [|iApply ("HΦ" with "Hd")]. specialize (HR size eq_refl). pose proof HR as Hw. unfold in_word in Hw.
  destruct (Z.ltb_spec (u32 (size + 1)) size) as [|Hle]; [iApply wp_return_error; iIntros (s'); iApply ("HΦ" with "Hd")|].
  rewrite (string_alloc_size size HR Hle). iApply wp_bind.
  destruct (Z.ltb_spec (data_size f) (size + 1)); [iApply wp_return_error; iIntros (s'); iApply ("HΦ" with "Hd")|].
  iApply wp_ret. iApply (fill_string with "Hd HΦ"); [exact HR | lia].
Qed.
End objects.

(** ** Submessages *)

(** The state a decoder leaves. *)
Definition outcome_level {A} (o : option A) : level := match o with Some _ => Filled | None => Broken end.

Section items.
Context {CB : Type} {ICB : InputCallback CB} {MA : Machine}.
Notation D := (M (dstate CB)).
Context (descriptors : Z -> option (list pb_field)) (constants : mem) (rfuel : nat).
Context (decode_noinit : list pb_field -> Z -> D unit).

(** A function on messages, for the descriptors at [a]. *)
Definition with_fields (c : list pb_field -> Z -> D unit) (a d : Z) : D unit := fields <- known (descriptors a) ;; c fields d.

(** What the functions on messages promise to those on fields: [sub] is what
    submessages own, [good a size] holds of the descriptors that fields refer to,
    with the size of the structure, and the input of a submessage is shorter
    than [budget]. *)
Class Submessages (sub : level -> Z -> list byte -> hprop) (good : Z -> Z -> Prop) (budget : Z) := {
  sub_nothing : forall a bs, owns_nothing_when (fun l => sub l a bs);
  sub_mono : forall a bs, monotone (fun l => sub l a bs);
  sub_descriptors : forall a size, good a size -> exists fields, descriptors a = Some fields;
  sub_zeros : forall a size, good a size -> emp ⊢ sub Fresh a (zeros size);
  sub_defaults : forall K a size d s (Φ : option unit -> pb_istream CB -> hprop), good a size ->
    region (sub Clear a) d size ⊢ (region (sub Fresh a) d size -∗ Φ (Some tt) s) -∗
    wp (with_fields (pb_message_set_to_defaults descriptors constants rfuel) a d) Φ K s;
  sub_release : forall K l a size d s (Φ : option unit -> pb_istream CB -> hprop),
    region (sub l a) d size ⊢ (region (sub Clear a) d size -∗ Φ (Some tt) s) -∗
    wp (with_fields (pb_release descriptors rfuel) a d) Φ K s;
  sub_release_item : forall K l a d size s (Φ : option unit -> pb_istream CB -> hprop),
    region (sub l a) d size ⊢ (region (sub Clear a) d size -∗ Φ (Some tt) s) -∗
    wp (release_submessage descriptors (pb_release_single_field descriptors (pred rfuel)) a d) Φ K s;
  sub_decode : forall K a size d s (Φ : option unit -> pb_istream CB -> hprop), good a size -> i_bytes_left s < budget ->
    region (sub Filled a) d size ⊢ (∀ o s', region (sub (outcome_level o) a) d size -∗ Φ o s') -∗
    wp (with_fields decode_noinit a d) Φ K s;
}.

Context (sub : level -> Z -> list byte -> hprop) (good : Z -> Z -> Prop) (budget : Z) {HS : Submessages sub good budget}.

Lemma sub_region_mono l l' a d size : below l l' = true -> region (sub l a) d size ⊢ region (sub l' a) d size.
Proof. intros H. apply region_mono. intros bs _. exact (sub_mono a bs l l' H). Qed.

(** [wp] of a program that looks the descriptors up, when they are known. *)
Lemma wp_with_fields K c a fields d s (Φ : option unit -> pb_istream CB -> hprop) : descriptors a = Some fields ->
  wp (with_fields c a d) Φ K s ⊢ wp (c fields d) Φ K s.
Proof. intros E. apply wp_ext. intros h. unfold with_fields. rewrite E. reflexivity. Qed.

Lemma wp_decode_init K a size fields d s (Φ : option unit -> pb_istream CB -> hprop) :
  good a size -> descriptors a = Some fields -> i_bytes_left s < budget ->
  region (sub Clear a) d size ⊢ (∀ (o : option unit) s', region (sub (if o then Filled else Clear) a) d size -∗ Φ o s') -∗
  wp (decode_init descriptors constants rfuel decode_noinit fields d) Φ K s.
Proof.
  intros Hg E Hb. iIntros "H HΦ". unfold decode_init. iApply wp_bind. iApply (wp_with_fields _ _ a); [exact E|].
  iApply (sub_defaults with "H"); [exact Hg|]. iIntros "H". iApply wp_bind. iApply wp_status_of. iApply (wp_with_fields _ _ a); [exact E|].
  iApply (sub_decode with "[H]"); [exact Hg | exact Hb | iApply (sub_region_mono with "H"); reflexivity|].
  iIntros (o s') "H". destruct o as [[]|]; [iApply wp_ret; iApply ("HΦ" $! (Some tt) with "H")|].
  iApply wp_bind. iApply (wp_with_fields _ _ a); [exact E|]. iApply (sub_release with "H"). iIntros "H". iApply wp_fail. iApply ("HΦ" $! None with "H").
Qed.

(** *** Substreams *)

Lemma wp_make_substream K s (Φ : option (pb_istream CB) -> pb_istream CB -> hprop) :
  (∀ o s', ⌞forall sub, o = Some sub -> in_order (K + i_bytes_left s') sub /\ i_bytes_left sub < i_bytes_left s⌟ -∗ Φ o s') ⊢
  wp (on_istream pb_make_string_substream) Φ K s.
Proof.
  iIntros "HΦ". iApply (wp_istream K _ (fun x s' => forall sub, x = Ok sub -> in_order (K + i_bytes_left s') sub /\ i_bytes_left sub < i_bytes_left s)).
  - intros Hs. pose proof (pb_make_string_substream_in_order K s Hs) as H. destruct (pb_make_string_substream s) as [r s'].
    destruct H as (H1 & H2 & H3). cbn [fst snd]. split; [exact H1|]. split; [exact H2|]. intros sb E. destruct (H3 sb E) as [H4 H5].
    split; [exact H4|]. destruct H2 as [(_ & [Hw _] & _) _]. unfold in_word in Hw. lia.
  - iIntros (o s') "%HR". iApply "HΦ". iPureIntro. intros sb ->. apply HR. reflexivity.
Qed.

Lemma wp_close_substream K sb s (Φ : option unit -> pb_istream CB -> hprop) : in_order (K + i_bytes_left s) sb ->
  (∀ o s', Φ o s') ⊢ wp (on_istream (pb_close_string_substream sb)) Φ K s.
Proof.
  intros Hsb. iIntros "HΦ". iApply (wp_istream K _ (fun _ _ => True)).
  - intros Hs. pose proof (pb_close_string_substream_in_order K s sb Hs Hsb) as H. destruct (pb_close_string_substream sb s) as [r s'].
    destruct H as (H1 & H2 & H3). cbn [fst snd]. split; [exact H1|]. split; [split; [exact H2 | lia] | trivial].
  - iIntros (o s') "_". iApply "HΦ".
Qed.

(** A decoder on a substream: what it leaves of it is in order. *)
Lemma wp_substream {A} (c : D A) K sb s (Φ : option (option A * pb_istream CB) -> pb_istream CB -> hprop) : in_order (K + i_bytes_left s) sb ->
  wp c (fun o sb' => ⌞in_order (K + i_bytes_left s) sb' /\ i_bytes_left sb' <= i_bytes_left sb⌟ -∗ Φ (Some (o, sb')) s) (K + i_bytes_left s) sb ⊢
  wp (on_substream c sb) Φ K s.
Proof.
  intros Hsb. iIntros "H". iApply (wp_on_substream K c (K + i_bytes_left s) sb); [exact Hsb|]. iApply wp_strengthen; [|iExact "H"].
  intros _. iIntros "H". iExact "H".
Qed.

Lemma wp_dec_submessage K f d s (Φ : option unit -> pb_istream CB -> hprop) fields :
  descriptors (ptr f) = Some fields -> good (ptr f) (data_size f) -> i_bytes_left s <= budget ->
  region (sub (if is_repeated f then Clear else Filled) (ptr f)) d (data_size f) ⊢
    (∀ o s', region (sub (outcome_level o) (ptr f)) d (data_size f) -∗ Φ o s') -∗
    wp (pb_dec_submessage descriptors constants rfuel decode_noinit f d) Φ K s.
Proof.
  intros E Hg Hb. set (l := if is_repeated f then Clear else Filled).
  assert (Hl : below l Broken = true) by (unfold l; destruct (is_repeated f); reflexivity).
  iIntros "H HΦ". unfold pb_dec_submessage. iApply wp_bind. iApply wp_make_substream. iIntros (o s1) "%Hsb".
  destruct o as [sb|]; [|iApply ("HΦ" $! None); iApply (sub_region_mono with "H"); exact Hl].
  destruct (Hsb sb eq_refl) as [Hord Hlt]. destruct (_ =? 0).
  { iApply wp_return_error. iIntros (s'). iApply ("HΦ" $! None). iApply (sub_region_mono with "H"). exact Hl. }
  iApply wp_bind. iApply wp_known; [exact E|]. iApply wp_bind. iApply wp_substream; [exact Hord|]. fold (is_repeated f).
  iApply (wp_wand _ _ (fun o _ => region (sub (outcome_level o) (ptr f)) d (data_size f)) with "[H]").
  - unfold l. destruct (is_repeated f).
    + iApply (wp_decode_init _ (ptr f) (data_size f) with "H"); [exact Hg | exact E | lia|]. iIntros (o s') "H".
      iApply (sub_region_mono with "H"). destruct o; reflexivity.
    + iApply (wp_with_fields _ _ (ptr f)); [exact E|]. iApply (sub_decode with "H"); [exact Hg | lia|]. iIntros (o s') "H". iExact "H".
  - iIntros (o sb') "H %Hsb'". iApply wp_bind. iApply wp_close_substream; [apply Hsb'|]. iIntros (o' s').
    destruct o' as [[]|]; [|iApply ("HΦ" $! None); iApply (sub_region_mono with "H"); destruct o; reflexivity].
    destruct o as [[]|]; [iApply wp_ret; iApply ("HΦ" $! (Some tt) with "H") | iApply wp_fail; iApply ("HΦ" $! None with "H")].
Qed.

(** *** Any item *)

Definition item_size (f : pb_field) : Z := if is_blob f && is_pointer f then 8 else data_size f.

(** What one value of a field owns. *)
Definition item_owns (f : pb_field) (l : level) (bs : list byte) : hprop :=
  (if is_message f then sub l (ptr f) bs else if is_blob f && is_pointer f then blob_item bs else emp)%I.

Lemma item_owns_mono f bs : monotone (fun l => item_owns f l bs).
Proof. intros l l' H. unfold item_owns. destruct (is_message f); [exact (sub_mono (ptr f) bs l l' H) | reflexivity]. Qed.

Context (types : Z -> option message_type) (Hsmall : forall n, available n -> n < 2 ^ 32).

Lemma wp_number K f dec d s (Φ : option unit -> pb_istream CB -> hprop) :
  field_wf types constants f -> number_decoder (PB_LTYPE (type f)) = Some dec ->
  raw d (data_size f) ⊢
    (∀ o s', ⌞forall u, PB_LTYPE (type f) <= PB_LTYPE_LAST_PACKABLE -> o = Some u -> i_bytes_left s' < i_bytes_left s⌟ -∗
      raw d (data_size f) -∗ Φ o s') -∗ wp (at_dest dec f d) Φ K s.
Proof.
  intros (_ & Hds & _ & _ & _ & Hbool & H32 & H64 & _) Hdec.
  assert (Hl0 : 0 <= PB_LTYPE (type f)) by (unfold PB_LTYPE; apply Z.land_nonneg; right; lia).
  pose proof (number_decoder_writes f dec (proj1 Hds) Hl0 Hdec) as Hw. iIntros "H HΦ".
  iApply (wp_at_dest K _ dec f d (data_size f) with "H [HΦ]"); [exact Hw | |].
  - unfold scalar_size. cbv zeta. destruct (Z.eqb_spec (PB_LTYPE (type f)) PB_LTYPE_BOOL); [lia|].
    destruct (Z.eqb_spec (PB_LTYPE (type f)) PB_LTYPE_FIXED32); [lia|]. destruct (Z.eqb_spec (PB_LTYPE (type f)) PB_LTYPE_FIXED64); lia.
  - iIntros (o s') "%He H". iApply ("HΦ" with "[] H"). iPureIntro. intros u Hl. apply He, Z.leb_le, Hl.
Qed.

(** The decoders of packable fields are decoders of numbers. *)
Lemma packable_decoder f func : PB_LTYPE (type f) <= PB_LTYPE_LAST_PACKABLE ->
  PB_DECODERS descriptors constants rfuel decode_noinit !! Z.to_nat (PB_LTYPE (type f)) = Some func ->
  exists dec, func = at_dest dec /\ number_decoder (PB_LTYPE (type f)) = Some dec /\ is_message f = false /\ is_blob f = false.
Proof.
  unfold PB_LTYPE_LAST_PACKABLE, is_message, is_blob, PB_LTYPE_SUBMESSAGE, PB_LTYPE_STRING, PB_LTYPE_BYTES, number_decoder, PB_DECODERS. intros Hl Hfunc.
  destruct (Z.eqb_spec (PB_LTYPE (type f)) 8), (Z.eqb_spec (PB_LTYPE (type f)) 7), (Z.eqb_spec (PB_LTYPE (type f)) 6); try lia.
  destruct (Z.to_nat (PB_LTYPE (type f))) as [|[|[|[|[|[|k]]]]]] eqn:En; [.. | lia]; cbn in Hfunc; injection Hfunc as <-; eexists; repeat split.
Qed.

Lemma wp_decoder K f func d s (Φ : option unit -> pb_istream CB -> hprop) :
  field_wf types constants f -> (is_message f = true -> good (ptr f) (data_size f)) ->
  PB_DECODERS descriptors constants rfuel decode_noinit !! Z.to_nat (PB_LTYPE (type f)) = Some func -> i_bytes_left s <= budget ->
  region (item_owns f (if is_repeated f then Clear else Filled)) d (item_size f) ⊢
    (∀ o s', region (item_owns f (outcome_level o)) d (item_size f) -∗ Φ o s') -∗ wp (func f d) Φ K s.
Proof.
  intros Hf Hg Hfunc Hb. pose proof Hf as (_ & Hds & _ & Hl9 & Hl10 & _).
  assert (Hnumber : forall dec, number_decoder (PB_LTYPE (type f)) = Some dec -> is_message f = false -> is_blob f = false ->
    region (item_owns f (if is_repeated f then Clear else Filled)) d (item_size f) ⊢
    (∀ o s', region (item_owns f (outcome_level o)) d (item_size f) -∗ Φ o s') -∗ wp (at_dest dec f d) Φ K s).
  { intros dec Hdec Em Eb. iIntros "H HΦ". unfold item_owns, item_size. rewrite Em, Eb. cbn [andb].
    iApply (wp_number K f dec d s with "H"); [exact Hf | exact Hdec|]. iIntros (o s') "_ H". iApply ("HΦ" with "H"). }
  unfold is_message, is_blob in Hnumber. unfold PB_DECODERS, number_decoder in *.
  destruct (Z.to_nat (PB_LTYPE (type f))) as [|[|[|[|[|[|[|[|[|[|[|n]]]]]]]]]]] eqn:En; cbn in Hfunc; try discriminate; injection Hfunc as <-;
    try (apply Hnumber; [reflexivity | apply Z.eqb_neq; unfold PB_LTYPE_SUBMESSAGE; lia | apply orb_false_iff; split; apply Z.eqb_neq; unfold PB_LTYPE_STRING, PB_LTYPE_BYTES; lia]).
  - (* bytes *)
    assert (Eb : is_blob f = true) by (unfold is_blob; apply orb_true_iff; right; apply Z.eqb_eq; unfold PB_LTYPE_BYTES; lia).
    iIntros "H HΦ". unfold item_owns, item_size. rewrite (blob_not_message f Eb), Eb. cbn [andb]. destruct (is_pointer f) eqn:Ep.
    + iApply (dec_bytes_pointer Hsmall K f d with "H HΦ"). exact Ep.
    + iApply (dec_bytes_static K f d with "H HΦ"); [exact Ep | lia].
  - assert (Eb : is_blob f = true) by (unfold is_blob; apply orb_true_iff; left; apply Z.eqb_eq; unfold PB_LTYPE_STRING; lia).
    iIntros "H HΦ". unfold item_owns, item_size. rewrite (blob_not_message f Eb), Eb. cbn [andb]. destruct (is_pointer f) eqn:Ep.
    + iApply (dec_string_pointer Hsmall K f d with "H HΦ"). exact Ep.
    + iApply (dec_string_static K f d with "H HΦ"); [exact Ep | lia].
  - assert (Em : is_message f = true) by (unfold is_message; apply Z.eqb_eq; unfold PB_LTYPE_SUBMESSAGE; lia).
    assert (Eb : is_blob f = false) by (unfold is_blob; apply orb_false_iff; split; apply Z.eqb_neq; unfold PB_LTYPE_STRING, PB_LTYPE_BYTES; lia).
    destruct (sub_descriptors (ptr f) (data_size f) (Hg Em)) as [fields E].
    iIntros "H HΦ". unfold item_owns, item_size. rewrite Em, Eb. cbn [andb].
    iApply (wp_dec_submessage K f d s Φ fields with "H HΦ"); [exact E | exact (Hg Em) | exact Hb].
  - unfold PB_LTYPE_EXTENSION in Hl9. lia.
Qed.
End items.
Arguments sub_nothing {CB descriptors constants rfuel decode_noinit sub good budget Submessages}.
Arguments sub_mono {CB descriptors constants rfuel decode_noinit sub good budget Submessages}.
Arguments sub_descriptors {CB descriptors constants rfuel decode_noinit sub good budget Submessages}.
Arguments sub_zeros {CB descriptors constants rfuel decode_noinit sub good budget Submessages}.
Arguments sub_defaults {CB descriptors constants rfuel decode_noinit sub good budget Submessages}.
Arguments sub_release {CB descriptors constants rfuel decode_noinit sub good budget Submessages}.
Arguments sub_release_item {CB descriptors constants rfuel decode_noinit sub good budget Submessages}.
Arguments sub_decode {CB descriptors constants rfuel decode_noinit sub good budget Submessages}.
