(* ===== verification/PbField.v ===== *)
(** Decoding one field of a message, static, allocated, by callback or in a
    union: whatever the input, the member stays what its type says, and only a
    failure leaves it broken. *)
From Stdlib Require Import ZArith Lia Bool String.
From coqutil Require Import Byte Word.LittleEndianList.
From stdpp Require Import base list numbers gmap.
From iris.bi Require Import bi.
From iris.proofmode Require Import proofmode.
From S2P Require Import Prelude PbStream PbCommon PbCodec PbSpec PbMemory PbEncode PbAdvance PbHeap PbDecode PbSep PbTypes PbRelease PbItem.
#[local] Unset SsrRewrite.
Local Open Scope Z_scope.
Local Open Scope c_scope.

(** ** Counters *)

Section counter.
Context {CB : Type} {ICB : InputCallback CB} {MA : Machine} (K : Z).

(** The first four of [n] bytes at [c] hold [v]. *)
Definition counter (c n v : Z) : hprop := (∃ bs, ⌞zlen bs = n /\ le_combine (slice bs 0 4) = v⌟ ∗ c ↦∗ bs)%I.

Lemma counter_word c n v : 4 <= n -> counter c n v ⊢ counter c n v ∗ ⌞in_word 32 v⌟.
Proof.
  intros Hn. iIntros "(%bs & [%Hz %Hv] & Hc)". iSplitL; [iExists bs; iFrame; done|]. iPureIntro.
  pose proof (le_combine_bound (slice bs 0 4)) as H. assert (E : length (slice bs 0 4) = 4%nat) by (pose proof (zlen_slice bs 0 4); unfold zlen in *; lia).
  rewrite E, Hv in H. exact H.
Qed.

Lemma wp_get_counter c n v a s (Φ : option Z -> pb_istream CB -> hprop) : a = c -> 4 <= n ->
  counter c n v ⊢ (counter c n v -∗ Φ (Some v) s) -∗ wp (get_size a) Φ K s.
Proof.
  intros -> Hn. iIntros "(%bs & %Hz & Hc) HΦ". destruct Hz as [Hz <-]. iApply (wp_get_int K c bs 0 4 with "Hc"); [lia..|]. iIntros "Hc".
  iApply "HΦ". iExists bs. iFrame. done.
Qed.

Lemma wp_put_counter c n v w a s (Φ : option unit -> pb_istream CB -> hprop) : a = c -> 4 <= n ->
  counter c n v ⊢ (counter c n (u32 w) -∗ Φ (Some tt) s) -∗ wp (put_size a w) Φ K s.
Proof.
  intros -> Hn. iIntros "(%bs & %Hz & Hc) HΦ". destruct Hz as [Hz _]. unfold put_size.
  iApply (wp_put_int K c bs 0 4 w with "Hc"); [lia | lia | cbn; lia|]. iIntros "Hc". iApply "HΦ". iExists _. iFrame "Hc". iPureIntro.
  split; [rewrite zlen_splice; rewrite ?zlen_le_split; lia|]. rewrite (le_combine_splice bs 0 4) by lia. reflexivity.
Qed.
End counter.

(** ** Static fields *)

Section field.
Context {CB : Type} {ICB : InputCallback CB} {MA : Machine}.
Notation D := (M (dstate CB)).
Context (types : Z -> option message_type) (descriptors : Z -> option (list pb_field)) (constants : mem) (rfuel : nat).
Context (decode_noinit : list pb_field -> Z -> D unit).
Context (sub : level -> Z -> list byte -> hprop) (good : Z -> Z -> Prop) (budget : Z).
Context {HS : Submessages descriptors constants rfuel decode_noinit sub good budget}.
Context (Hsmall : forall n, available n -> n < 2 ^ 32).
Notation item_owns := (item_owns sub).
Notation field_owns := (field_owns sub).
Notation PB_DECODERS := (PB_DECODERS descriptors constants rfuel decode_noinit).

Section one.
Context (f : pb_field) (Hf : field_wf types constants f) (Hgood : is_message f = true -> good (ptr f) (data_size f)).
Context (func : pb_field -> Z -> D unit) (Hfunc : PB_DECODERS !! Z.to_nat (PB_LTYPE (type f)) = Some func).

Lemma item_size_pos : 0 < item_size f.
Proof. unfold item_size. destruct (_ && _); [lia | apply Hf]. Qed.

(** A value decoded into its place in an array. *)
Lemma wp_array_item K (L : Z -> level) m n a j s (Φ : option unit -> pb_istream CB -> hprop) :
  i_bytes_left s <= budget -> m * item_size f <= n -> 0 <= j < m -> below (L j) (if is_repeated f then Clear else Filled) = true ->
  region (array (fun i => item_owns f (L i)) m (item_size f)) a n ⊢
    (∀ o s', region (array (fun i => item_owns f (if i =? j then outcome_level o else L i)) m (item_size f)) a n -∗ Φ o s') -∗
    wp (func f (a + j * item_size f)) Φ K s.
Proof.
  intros Hb Hm Hj HL. iIntros "H HΦ". iDestruct (array_access _ a n m (item_size f) j item_size_pos Hm Hj with "H") as "[Hi Hclose]".
  iApply (wp_decoder _ _ _ _ sub good budget types Hsmall K f func with "[Hi]"); [exact Hf | exact Hgood | exact Hfunc | exact Hb | |].
  - iApply (region_mono with "Hi"). intros bs _. apply item_owns_mono with (1 := HS), HL.
  - iIntros (o s') "Hi". iApply "HΦ". iDestruct ("Hclose" with "Hi") as "H". iApply (region_mono with "H"). intros bs _.
    apply array_mono. intros i _. destruct (decide (i = j)) as [->|Hne]; [rewrite Z.eqb_refl; reflexivity|].
    rewrite (proj2 (Z.eqb_neq i j) Hne). reflexivity.
Qed.

(** *** Static arrays *)

Definition static_items (l : level) (cnt : Z) : list byte -> hprop :=
  array (fun i => item_owns f (if i <? cnt then l else Clear)) (array_size f) (item_size f).
Definition count_fits (l : level) (cnt : Z) : Prop := is_message f = true -> bounded l = true -> cnt <= array_size f.

Lemma static_item_size : is_static f = true -> item_size f = data_size f.
Proof. intros H. unfold item_size. rewrite (static_not_pointer f H), andb_false_r. reflexivity. Qed.

Lemma static_array l cnt data : is_static f = true -> is_repeated f = true ->
  field_owns l f cnt data ⊢ ⌞count_fits l cnt⌟ ∗ static_items l cnt data.
Proof.
  intros Est Er. unfold field_owns, PbTypes.field_owns, static_items, count_fits, item_owns, PbItem.item_owns.
  rewrite Est, Er, (static_item_size Est), (static_not_pointer f Est), andb_false_r.
  destruct (is_message f); [iIntros "[%H $]"; iPureIntro; auto|]. iIntros "_". iSplitR; [iPureIntro; discriminate|].
  iApply big_sepL_from_nothing; [|done]. intros. reflexivity.
Qed.

Lemma array_static l cnt data : is_static f = true -> is_repeated f = true -> count_fits l cnt ->
  static_items l cnt data ⊢ field_owns l f cnt data.
Proof.
  intros Est Er Hc. unfold field_owns, PbTypes.field_owns, static_items, count_fits, item_owns, PbItem.item_owns in *.
  rewrite Est, Er, (static_item_size Est), (static_not_pointer f Est), andb_false_r.
  destruct (is_message f); [iIntros "$"; iPureIntro; auto|]. iIntros "H". iApply (array_nothing with "H"). reflexivity.
Qed.

(** The next item of the array, and its count. *)
Lemma static_next K n a cnt s (Φ : option unit -> pb_istream CB -> hprop) :
  is_static f = true -> is_repeated f = true -> i_bytes_left s <= budget -> array_size f * item_size f <= n -> 0 <= cnt < array_size f ->
  region (static_items Filled cnt) a n ⊢
    (∀ o s', region (static_items (outcome_level o) (cnt + 1)) a n -∗ Φ o s') -∗ wp (func f (a + u32 (data_size f * cnt))) Φ K s.
Proof.
  intros Est Er Hb Hn Hc. pose proof Hf as (_ & Hds & _ & _ & _ & _ & _ & _ & _ & _ & Harr & _). specialize (Harr Est Er).
  assert (E : u32 (data_size f * cnt) = cnt * item_size f) by (rewrite (static_item_size Est), wrap_small; [lia | unfold in_word; nia]).
  rewrite E. iIntros "H HΦ".
  iApply (wp_array_item K (fun i => if i <? cnt then Filled else Clear) (array_size f) n a cnt with "H"); [exact Hb | exact Hn | exact Hc | |].
  - rewrite Er. destruct (Z.ltb_spec cnt cnt); [lia | reflexivity].
  - iIntros (o s') "H". iApply "HΦ". iApply (region_mono with "H"). intros bs _. apply array_mono. intros i _.
    destruct (Z.eqb_spec i cnt) as [->|Hne]; [destruct (Z.ltb_spec cnt (cnt + 1)); [reflexivity | lia]|].
    destruct (Z.ltb_spec i cnt), (Z.ltb_spec i (cnt + 1)); try lia; apply item_owns_mono with (1 := HS); destruct o; reflexivity.
Qed.

(** One value for an array in the structure. *)
Lemma static_repeated K n nc a c cnt s (Φ : option unit -> pb_istream CB -> hprop) :
  is_static f = true -> is_repeated f = true -> i_bytes_left s <= budget -> array_size f * item_size f <= n -> 4 <= nc ->
  counter c nc cnt ⊢ region (field_owns Filled f cnt) a n -∗
    (∀ o s' cnt', counter c nc cnt' -∗ region (field_owns (outcome_level o) f cnt') a n -∗ Φ o s') -∗
    wp (size <- get_size c ;; put_size c (u32 (size + 1)) ;;
        if array_size f <=? size then return_error "array overflow" else func f (a + u32 (data_size f * size))) Φ K s.
Proof.
  intros Est Er Hb Hn Hnc. pose proof Hf as (_ & Hds & _ & _ & _ & _ & _ & _ & _ & _ & Harr & _). specialize (Harr Est Er).
  iIntros "Hc Ha HΦ". iDestruct (counter_word c nc cnt Hnc with "Hc") as "[Hc %Hw]". unfold in_word in Hw.
  iDestruct "Ha" as "(%bs & %Hbs & Ha & HP)". iDestruct (static_array _ _ _ Est Er with "HP") as "[%Hfits HP]".
  iApply wp_bind. iApply (wp_get_counter K c nc cnt with "Hc"); [reflexivity | exact Hnc|]. iIntros "Hc".
  iApply wp_bind. iApply (wp_put_counter K c nc cnt with "Hc"); [reflexivity | exact Hnc|]. iIntros "Hc". rewrite wrap_wrap by lia.
  destruct (Z.leb_spec (array_size f) cnt) as [Hle|Hlt].
  - iApply wp_return_error. iIntros (s'). iApply ("HΦ" with "Hc"). iExists bs. iFrame "Ha". iSplitR; [done|]. cbn [outcome_level].
    iApply (array_static _ _ _ Est Er); [intros _ [=]|]. destruct (is_message f) eqn:Em.
    + specialize (Hfits Em eq_refl). assert (E : u32 (cnt + 1) = cnt + 1) by (apply wrap_small; unfold in_word; lia). rewrite E.
      iApply (array_mono with "HP"). intros i Hi. destruct (Z.ltb_spec i cnt), (Z.ltb_spec i (cnt + 1)); try lia.
      apply item_owns_mono with (1 := HS). reflexivity.
    + iApply (array_mono with "HP"). intros i _. unfold item_owns, PbItem.item_owns. rewrite Em. reflexivity.
  - assert (E : u32 (cnt + 1) = cnt + 1) by (apply wrap_small; unfold in_word; lia). rewrite E.
    iApply (static_next K n a cnt with "[Ha HP]"); [exact Est | exact Er | exact Hb | exact Hn | lia | iExists bs; iFrame; done|].
    iIntros (o s') "Ha". iApply ("HΦ" with "Hc"). iApply (region_mono with "Ha"). intros bs' _.
    apply array_static; [exact Est | exact Er|]. intros _ _. lia.
Qed.

(** *** Packed arrays *)

Section packed.
Context (Hpack : PB_LTYPE (type f) <= PB_LTYPE_LAST_PACKABLE).

(** A packed value takes some of the input. *)
Lemma wp_packed_value K d s (Φ : option unit -> pb_istream CB -> hprop) :
  raw d (data_size f) ⊢ (∀ o s', ⌞forall u, o = Some u -> i_bytes_left s' < i_bytes_left s⌟ -∗ raw d (data_size f) -∗ Φ o s') -∗
  wp (func f d) Φ K s.
Proof.
  destruct (packable_decoder _ _ _ _ f func Hpack Hfunc) as (dec & -> & Hdec & _). iIntros "H HΦ".
  iApply (wp_number constants types K f dec d s with "H"); [exact Hf | exact Hdec|].
  iIntros (o s') "%He". iApply "HΦ". iPureIntro. intros u. exact (He u Hpack).
Qed.

Lemma raw_focus d n off k : 0 <= off -> 0 <= k -> off + k <= n ->
  raw d n ⊢ raw (d + off) k ∗ (raw (d + off) k -∗ raw d n).
Proof.
  intros H1 H2 H3. iIntros "(%bs & %Hbs & Hd & H)". iDestruct (object_focus (fun _ => emp%I) d bs off k with "[$Hd $H]") as "[$ Hclose]"; [lia..|].
  iIntros "Hr". iDestruct ("Hclose" with "Hr") as "(%new & %Hnew & Hd & H)". iExists _. iFrame. iPureIntro. rewrite zlen_splice by lia. exact Hbs.
Qed.

Lemma packed_static_wp K n nc a c it fuel : forall cnt sb s (Φ : option (bool * pb_istream CB) -> pb_istream CB -> hprop),
  pSize it = c -> pData it = a ->
  is_static f = true -> is_repeated f = true -> array_size f * data_size f <= n -> 4 <= nc ->
  in_order (K + i_bytes_left s) sb -> i_bytes_left sb < Z.of_nat fuel ->
  counter c nc cnt ⊢ raw a n -∗
    (∀ st sb' cnt', ⌞in_order (K + i_bytes_left s) sb'⌟ -∗ counter c nc cnt' -∗ raw a n -∗ Φ (Some (st, sb')) s) -∗
    wp (packed_static fuel func it f sb) Φ K s.
Proof.
  induction fuel as [|fuel IH]; intros cnt sb s Φ ES ED Est Er Hn Hnc Hord Hfuel.
  { destruct Hord as (_ & [[Hw _] _] & _). lia. }
  pose proof Hf as (_ & Hds & _ & _ & _ & _ & _ & _ & _ & _ & Harr & _). specialize (Harr Est Er).
  iIntros "Hc Ha HΦ". cbn [packed_static]. destruct (Z.eqb_spec (i_bytes_left sb) 0).
  { iApply wp_ret. iApply ("HΦ" with "[//] Hc Ha"). }
  iDestruct (counter_word c nc cnt Hnc with "Hc") as "[Hc %Hw]". unfold in_word in Hw.
  iApply wp_bind. iApply (wp_get_counter K c nc cnt with "Hc"); [exact ES | exact Hnc|]. iIntros "Hc".
  destruct (Z.ltb_spec cnt (array_size f)); [|iApply wp_ret; iApply ("HΦ" with "[//] Hc Ha")].
  assert (E : u32 (data_size f * cnt) = cnt * data_size f) by (rewrite wrap_small; [lia | unfold in_word; nia]). rewrite E, ED.
  iDestruct (raw_focus a n (cnt * data_size f) (data_size f) with "Ha") as "[Hi Hclose]"; [nia..|].
  iApply wp_bind. iApply wp_substream; [exact Hord|]. iApply (wp_packed_value with "Hi"). iIntros (o sb') "%He Hi %Hsb".
  iDestruct ("Hclose" with "Hi") as "Ha". destruct o as [u|]; [|iApply wp_ret; iApply ("HΦ" with "[%] Hc Ha"); apply Hsb].
  iApply wp_bind. iApply (wp_get_counter K c nc cnt with "Hc"); [exact ES | exact Hnc|]. iIntros "Hc".
  iApply wp_bind. iApply (wp_put_counter K c nc cnt with "Hc"); [exact ES | exact Hnc|]. iIntros "Hc".
  specialize (He u eq_refl). iApply (IH with "Hc Ha HΦ"); try assumption; [apply Hsb | lia].
Qed.
End packed.

(** Any value for an array in the structure, with the counter at [c]. *)
Lemma static_repeated_field K wire_type n nc a c it cnt s (Φ : option unit -> pb_istream CB -> hprop) :
  iter_pos it = (Ok f, it) -> pSize it = c -> pData it = a ->
  is_static f = true -> is_repeated f = true -> i_bytes_left s <= budget -> array_size f * item_size f <= n -> 4 <= nc ->
  counter c nc cnt ⊢ region (field_owns Filled f cnt) a n -∗
    (∀ o s' cnt', counter c nc cnt' -∗ region (field_owns (outcome_level o) f cnt') a n -∗ Φ o s') -∗
    wp (decode_static_field descriptors constants rfuel decode_noinit wire_type it) Φ K s.
Proof.
  intros Epos ES ED Est Er Hb Hn Hnc. iIntros "Hc Ha HΦ". unfold decode_static_field.
  iApply wp_bind. iApply wp_pos_of; [exact Epos|]. cbv zeta. iApply wp_bind. iApply wp_known; [exact Hfunc|].
  pose proof Er as Eh. unfold is_repeated in Eh. apply Z.eqb_eq in Eh. rewrite Eh.
  change (PB_HTYPE_REPEATED =? PB_HTYPE_REQUIRED) with false. change (PB_HTYPE_REPEATED =? PB_HTYPE_OPTIONAL) with false.
  change (PB_HTYPE_REPEATED =? PB_HTYPE_REPEATED) with true. cbv iota.
  destruct (is_packed wire_type f) eqn:Epk.
  - unfold is_packed in Epk. apply andb_true_iff in Epk as [_ Epk]. apply Z.leb_le in Epk.
    destruct (packable_decoder _ _ _ _ f func Epk Hfunc) as (_ & _ & _ & Em & _).
    assert (Hraw : forall l cnt, region (field_owns l f cnt) a n = raw a n).
    { intros l v. unfold field_owns, PbTypes.field_owns. rewrite Est, Em. reflexivity. }
    rewrite Hraw, (static_item_size Est) in *. iApply wp_bind. iApply wp_make_substream. iIntros (o s1) "%Hsb".
    destruct o as [sb|]; [|iApply ("HΦ" $! None with "Hc [Ha]"); rewrite Hraw; iExact "Ha"].
    destruct (Hsb sb eq_refl) as [Hord _]. pose proof Hord as (_ & [[Hw _] _] & _).
    iApply wp_bind. iApply (packed_static_wp Epk K n nc a c it with "Hc Ha"); [assumption.. | lia|].
    iIntros (st sb' cnt') "%Hord' Hc Ha". destruct (negb _).
    { iApply wp_return_error. iIntros (s'). iApply ("HΦ" $! None with "Hc [Ha]"). rewrite Hraw. iExact "Ha". }
    iApply wp_bind. iApply wp_close_substream; [exact Hord'|]. iIntros (o' s').
    destruct o' as [u|]; [|iApply ("HΦ" $! None with "Hc [Ha]"); rewrite Hraw; iExact "Ha"].
    destruct st; [iApply wp_ret | iApply wp_fail]; iApply ("HΦ" with "Hc [Ha]"); rewrite Hraw; iExact "Ha".
  - rewrite ES, ED. iApply (static_repeated K n nc a c cnt with "Hc Ha HΦ"); assumption.
Qed.

(** *** One object *)

Lemma static_object K a cnt data s (Φ : option unit -> pb_istream CB -> hprop) :
  is_static f = true -> is_repeated f = false -> i_bytes_left s <= budget -> data_size f <= zlen data ->
  a ↦∗ data ⊢ field_owns Filled f cnt data -∗
    (∀ o s' data', ⌞zlen data' = zlen data⌟ -∗ a ↦∗ data' -∗ field_owns (outcome_level o) f cnt data' -∗ Φ o s') -∗
    wp (func f a) Φ K s.
Proof.
  intros Est Er Hb Hl. pose proof Hf as (_ & Hds & _).
  assert (Hin : forall l data, field_owns l f cnt data ⊣⊢ item_owns f l (slice data 0 (data_size f))).
  { intros l data'. unfold field_owns, PbTypes.field_owns, item_owns, PbItem.item_owns.
    rewrite Est, Er, (static_not_pointer f Est), andb_false_r. destruct (is_message f); reflexivity. }
  rewrite Hin. iIntros "Ha HP HΦ".
  iDestruct (object_focus (item_owns f Filled) a data 0 (data_size f) with "[$Ha $HP]") as "[Hi Hclose]"; [lia..|]. rewrite Z.add_0_r.
  iApply (wp_decoder _ _ _ _ sub good budget types Hsmall K f func with "[Hi]"); [exact Hf | exact Hgood | exact Hfunc | exact Hb | |].
  - rewrite Er, (static_item_size Est). iExact "Hi".
  - rewrite (static_item_size Est). iIntros (o s') "Hi". iDestruct ("Hclose" with "Hi") as "(%new & %Hnew & Ha & HP)".
    iApply ("HΦ" with "[] Ha"); [iPureIntro; apply zlen_splice; lia|]. rewrite Hin.
    rewrite <- Hnew. rewrite slice_splice_same by lia. iExact "HP".
Qed.

(** ** Pointer fields *)

Section pointer.
Context (Ep : is_pointer f = true).

Lemma wp_initialize K q it s (Φ : option unit -> pb_istream CB -> hprop) : iter_pos it = (Ok f, it) ->
  raw q (item_size f) ⊢ (region (item_owns f Fresh) q (item_size f) -∗ Φ (Some tt) s) -∗
  wp (initialize_pointer_field descriptors constants rfuel q it) Φ K s.
Proof.
  intros Epos. pose proof Hf as (_ & Hds & _). iIntros "Hq HΦ". unfold initialize_pointer_field. iApply wp_bind. iApply wp_pos_of; [exact Epos|].
  fold (is_blob f) (is_message f). unfold item_owns, PbItem.item_owns, item_size. rewrite Ep, andb_true_r. destruct (is_blob f) eqn:Eb.
  - rewrite (blob_not_message f Eb). iDestruct "Hq" as "(%bs & %Hbs & Hq & _)". unfold put_ptr.
    iApply (wp_put_int K q bs 0 with "Hq"); [lia | lia | cbn; lia|]. iIntros "Hq". iApply "HΦ". iExists _. iFrame "Hq".
    iSplitR; [iPureIntro; rewrite zlen_splice; rewrite ?zlen_le_split; lia|]. iExists []. iApply owned_null.
    rewrite splice_whole by (rewrite zlen_le_split; lia). reflexivity.
  - destruct (is_message f) eqn:Em; [|iApply wp_ret; iApply ("HΦ" with "Hq")].
    assert (Hz : zlen (zeros (data_size f)) = data_size f) by (unfold zlen, zeros; rewrite repeat_length; lia).
    iDestruct "Hq" as "(%bs & %Hbs & Hq & _)". iApply wp_bind. iApply (wp_store_at K q bs 0 with "Hq"); [lia..|]. iIntros "Hq".
    rewrite splice_whole by lia. iApply (sub_defaults K (ptr f) (data_size f) q with "[Hq]"); [exact (Hgood eq_refl) | | iExact "HΦ"].
    iExists (zeros (data_size f)). iFrame "Hq". iSplitR; [done|]. iApply (sub_mono (ptr f) _ Fresh Clear eq_refl). iApply sub_zeros; [exact (Hgood eq_refl) | done].
Qed.

(** *** A single value *)

(** What a pointer that is about to be allocated again points to. *)
Lemma pointer_open cnt data : is_repeated f = false -> is_blob f = false -> (is_message f = true -> pointer_of data = 0) ->
  field_owns Filled f cnt data ⊢ ∃ old, owned (pointer_of data) old.
Proof.
  intros Er Eb Hp. unfold field_owns, PbTypes.field_owns. rewrite (pointer_not_static f Ep), Ep. cbv zeta. fold (pointer_of data).
  destruct (Z.eqb_spec (pointer_of data) 0) as [E|E].
  - iIntros "_". iExists []. iApply owned_null. exact E.
  - destruct (is_message f) eqn:Em; [exfalso; apply E, Hp; reflexivity|]. unfold pointee. rewrite Er, Em.
    iIntros "(_ & %bs & _ & Ho & HP)". iExists bs. iFrame.
Qed.

Lemma pointer_close cnt data old : is_repeated f = false -> (is_message f = true -> pointer_of data = 0) ->
  owned (pointer_of data) old ⊢ field_owns Broken f cnt data.
Proof.
  intros Er Hp. unfold field_owns, PbTypes.field_owns. rewrite (pointer_not_static f Ep), Ep. cbv zeta. fold (pointer_of data).
  iIntros "Ho". destruct (Z.eqb_spec (pointer_of data) 0) as [E|E].
  - unfold owned. rewrite E. cbn [Z.eqb]. iDestruct "Ho" as "_". iPureIntro. intros; congruence.
  - destruct (is_message f) eqn:Em; [exfalso; apply E, Hp; reflexivity|]. unfold pointee. rewrite Er, Em.
    iSplitR; [done|]. iExists old. iFrame. done.
Qed.

Lemma pointer_value cnt data o new : is_repeated f = false -> is_blob f = false -> pointer_of data <> 0 -> zlen new = data_size f ->
  owned (pointer_of data) new ⊢ item_owns f (outcome_level (o : option unit)) new -∗ field_owns (outcome_level o) f cnt data.
Proof.
  intros Er Eb Hp Hz. unfold field_owns, PbTypes.field_owns, item_owns, PbItem.item_owns. rewrite (pointer_not_static f Ep), Ep, Eb. cbv zeta. fold (pointer_of data).
  destruct (Z.eqb_spec (pointer_of data) 0); [contradiction|]. iIntros "Ho HP". iSplitR; [destruct o; done|]. iExists new. iFrame "Ho".
  iSplitR; [done|]. rewrite Er. destruct (is_message f); [iFrame; done | iExact "HP"].
Qed.

Lemma blob_open cnt data : is_repeated f = false -> is_blob f = true -> field_owns Filled f cnt data ⊢ blob_item (slice data 0 8).
Proof.
  intros Er Eb. unfold field_owns, PbTypes.field_owns. rewrite (pointer_not_static f Ep), Ep. cbv zeta. fold (pointer_of data).
  unfold blob_item. fold (pointer_of data). destruct (Z.eqb_spec (pointer_of data) 0) as [E|E].
  - iIntros "_". iExists []. iApply owned_null. exact E.
  - iIntros "(_ & %bs & _ & Ho & HP)". iExists bs. rewrite Er, (blob_not_message f Eb). iFrame.
Qed.

Lemma blob_value cnt data l : is_repeated f = false -> is_blob f = true -> owning l = true -> blob_item (slice data 0 8) ⊢ field_owns l f cnt data.
Proof.
  intros Er Eb Hl. unfold field_owns, PbTypes.field_owns. rewrite (pointer_not_static f Ep), Ep. cbv zeta. unfold blob_item. fold (pointer_of data).
  iIntros "(%bs & Ho)". destruct (Z.eqb_spec (pointer_of data) 0) as [E|E].
  - unfold owned. rewrite E. cbn [Z.eqb]. iDestruct "Ho" as "_". iPureIntro. intros; congruence.
  - iSplitR; [done|]. iExists bs. iFrame "Ho". iSplitR; [done|]. rewrite Er, (blob_not_message f Eb). done.
Qed.

Lemma pointer_single K a it cnt data s (Φ : option unit -> pb_istream CB -> hprop) :
  iter_pos it = (Ok f, it) -> is_repeated f = false -> i_bytes_left s <= budget -> 8 <= zlen data -> (is_message f = true -> pointer_of data = 0) ->
  a ↦∗ data ⊢ field_owns Filled f cnt data -∗
    (∀ o s' data', ⌞zlen data' = zlen data⌟ -∗ a ↦∗ data' -∗ field_owns (outcome_level o) f cnt data' -∗ Φ o s') -∗
    wp (if is_blob f then func f a
        else allocate_field a (data_size f) 1 ;; p <- get_ptr a ;; initialize_pointer_field descriptors constants rfuel p it ;;
             p <- get_ptr a ;; func f p) Φ K s.
Proof.
  intros Epos Er Hb Hl Hm. pose proof Hf as (_ & Hds & _). iIntros "Ha HP HΦ". destruct (is_blob f) eqn:Eb.
  - iDestruct (blob_open _ _ Er Eb with "HP") as "HP".
    iDestruct (object_focus blob_item a data 0 8 with "[$Ha $HP]") as "[Hi Hclose]"; [lia..|]. rewrite Z.add_0_r.
    assert (Hitem : forall l, item_owns f l = blob_item) by (intros l; unfold item_owns, PbItem.item_owns; rewrite (blob_not_message f Eb), Eb, Ep; reflexivity).
    assert (Hsz : item_size f = 8) by (unfold item_size; rewrite Eb, Ep; reflexivity).
    iApply (wp_decoder _ _ _ _ sub good budget types Hsmall K f func with "[Hi]"); [exact Hf | exact Hgood | exact Hfunc | exact Hb | rewrite Hsz; fold item_owns; rewrite Hitem; iExact "Hi"|].
    rewrite Hsz. iIntros (o s') "Hi". fold item_owns. rewrite Hitem. iDestruct ("Hclose" with "Hi") as "(%new & %Hnew & Ha & HP)".
    iApply ("HΦ" with "[] Ha"); [iPureIntro; apply zlen_splice; lia|]. iApply blob_value; [exact Er | exact Eb | destruct o; reflexivity|].
    rewrite <- Hnew. rewrite slice_splice_same by lia. iExact "HP".
  - iDestruct (pointer_open _ _ Er Eb Hm with "HP") as "(%old & Ho)". iApply wp_bind.
    iApply (wp_allocate_field Hsmall K a data old (data_size f) 1 with "Ha Ho"); [exact Hl | lia | lia|]. iSplit.
    { iIntros (s') "Ha Ho". iApply ("HΦ" $! None with "[] Ha"); [done | iApply (pointer_close _ _ _ Er Hm with "Ho")]. }
    rewrite Z.mul_1_l. iIntros "(%data' & %junk & %Hp & Ha & Ho)". destruct Hp as (Hz & Hp & Hl' & _).
    set (new := ztake (data_size f) old ++ junk) in *.
    iApply wp_bind. iApply (wp_get_int K a data' 0 with "Ha"); [unfold sizeof_ptr; lia..|]. iIntros "Ha".
    change (le_combine (slice data' 0 sizeof_ptr)) with (pointer_of data'). rewrite (owned_some _ _ Hp). iDestruct "Ho" as "[Hblk Hq]".
    assert (Hsz : item_size f = data_size f) by (unfold item_size; rewrite Eb; reflexivity).
    iApply wp_bind. iApply (wp_initialize K (pointer_of data') it with "[Hq]"); [exact Epos | rewrite Hsz; iExists new; iFrame; done|]. iIntros "Hq".
    iApply wp_bind. iApply (wp_get_int K a data' 0 with "Ha"); [unfold sizeof_ptr; lia..|]. iIntros "Ha".
    change (le_combine (slice data' 0 sizeof_ptr)) with (pointer_of data').
    iApply (wp_decoder _ _ _ _ sub good budget types Hsmall K f func with "[Hq]"); [exact Hf | exact Hgood | exact Hfunc | exact Hb | |].
    { rewrite Er. iApply (region_mono with "Hq"). intros bs _. apply item_owns_mono with (1 := HS). reflexivity. }
    rewrite Hsz. iIntros (o s') "(%bs & %Hbs & Hq & HP)". iApply ("HΦ" with "[//] Ha").
    iApply (pointer_value cnt data' o bs Er Eb Hp Hbs with "[Hblk Hq] HP"). rewrite (owned_some _ _ Hp), Hl', Hbs. iFrame.
Qed.

(** *** Arrays *)

Section array.
Context (Er : is_repeated f = true).

Lemma array_item_size : item_size f = data_size f.
Proof.
  unfold item_size. rewrite Ep, andb_true_r. destruct (is_blob f) eqn:Eb; [|reflexivity].
  destruct Hf as (_ & _ & _ & _ & _ & _ & _ & _ & _ & _ & _ & H). symmetry. exact (H Ep Er Eb).
Qed.

Definition block_fits (cnt : Z) (bs : list byte) : Prop := 0 <= cnt /\ cnt * data_size f <= zlen bs < 2 ^ 32.
Definition pointer_items (l : level) (cnt : Z) : list byte -> hprop := array (fun _ => item_owns f l) cnt (data_size f).

Lemma items_open cnt data : field_owns Filled f cnt data ⊢
  ∃ bs, ⌞block_fits cnt bs⌟ ∗ owned (pointer_of data) bs ∗ pointer_items Filled cnt bs.
Proof.
  unfold field_owns, PbTypes.field_owns, pointer_items. rewrite (pointer_not_static f Ep), Ep. cbv zeta. fold (pointer_of data).
  destruct (Z.eqb_spec (pointer_of data) 0) as [E|E].
  - iIntros "%Hc". rewrite (Hc Er). iExists []. iSplitR; [iPureIntro; unfold block_fits, zlen; cbn; lia|].
    iSplitL; [iApply owned_null; exact E | iApply array_0].
  - iIntros "(_ & %bs & _ & Ho & HP)". rewrite Er. iDestruct "HP" as "[%Hc HP]". iExists bs. iFrame "Ho".
    iSplitR; [iPureIntro; exact Hc|]. unfold item_owns, PbItem.item_owns. rewrite Ep, andb_true_r.
    destruct (is_message f); [iExact "HP"|]. destruct (is_blob f); [iExact "HP"|].
    iApply big_sepL_from_nothing; [|iExact "HP"]. intros. reflexivity.
Qed.

Lemma items_close l cnt data bs : owning l = true -> block_fits cnt bs ->
  owned (pointer_of data) bs ⊢ pointer_items l cnt bs -∗ field_owns l f cnt data.
Proof.
  intros Hl [H0 Hc]. unfold field_owns, PbTypes.field_owns, pointer_items. rewrite (pointer_not_static f Ep), Ep. cbv zeta. fold (pointer_of data).
  pose proof Hf as (_ & Hds & _). iIntros "Ho HP". destruct (Z.eqb_spec (pointer_of data) 0) as [E|E].
  - unfold owned. rewrite E. cbn [Z.eqb]. iDestruct "Ho" as "%Hbs". subst bs. unfold zlen in Hc. cbn in Hc. assert (cnt = 0) as -> by nia.
    unfold array. cbn. iDestruct "HP" as "_". iPureIntro. intros _. reflexivity.
  - iSplitR; [done|]. iExists bs. iFrame "Ho". iSplitR; [done|]. rewrite Er. iSplitR; [done|].
    unfold item_owns, PbItem.item_owns. rewrite Ep, andb_true_r.
    destruct (is_message f); [iExact "HP"|]. destruct (is_blob f); [iExact "HP"|]. iApply (array_nothing with "HP"). reflexivity.
Qed.

(** A block that has grown still holds the items. *)
Lemma items_grown l cnt n bs junk : 0 <= cnt -> cnt * data_size f <= n -> cnt * data_size f <= zlen bs ->
  pointer_items l cnt bs ⊢ pointer_items l cnt (ztake n bs ++ junk).
Proof. intros H0 H1 H2. pose proof Hf as (_ & Hds & _). apply array_ext. intros i Hi. symmetry. apply slice_grown; nia. Qed.

(** A new item at the end of the array. *)
Lemma pointer_item K q bs it cnt s (Φ : option unit -> pb_istream CB -> hprop) :
  iter_pos it = (Ok f, it) -> i_bytes_left s <= budget -> 0 <= cnt -> (cnt + 1) * data_size f <= zlen bs ->
  q ↦∗ bs ⊢ pointer_items Filled cnt bs -∗
    (∀ o s' bs', ⌞zlen bs' = zlen bs⌟ -∗ q ↦∗ bs' -∗ pointer_items (outcome_level o) (cnt + 1) bs' -∗ Φ o s') -∗
    wp (initialize_pointer_field descriptors constants rfuel (q + cnt * data_size f) it ;; func f (q + cnt * data_size f)) Φ K s.
Proof.
  intros Epos Hb H0 Hl. pose proof Hf as (_ & Hds & _). iIntros "Hq HP HΦ". unfold pointer_items at 1.
  iDestruct (array_room with "HP") as "HP"; [exact H0|].
  iAssert (region (array (fun i => if i <? cnt then item_owns f Filled else fun _ => emp%I) (cnt + 1) (data_size f)) q (zlen bs)) with "[Hq HP]" as "H";
    [iExists bs; iFrame; done|].
  iDestruct (array_access _ q (zlen bs) (cnt + 1) (data_size f) cnt with "H") as "[Hi Hclose]"; [lia..|]. cbv beta.
  rewrite (Z.ltb_irrefl cnt). rewrite <- array_item_size at 2. iApply wp_bind. iApply (wp_initialize K with "Hi"); [exact Epos|]. iIntros "Hi".
  iApply (wp_decoder _ _ _ _ sub good budget types Hsmall K f func with "[Hi]"); [exact Hf | exact Hgood | exact Hfunc | exact Hb | |].
  { rewrite Er. iApply (region_mono with "Hi"). intros bs' _. apply item_owns_mono with (1 := HS). reflexivity. }
  rewrite array_item_size. iIntros (o s') "Hi". iDestruct ("Hclose" with "Hi") as "(%bs' & %Hz & Hq & HP)".
  iApply ("HΦ" with "[//] Hq"). iApply (array_mono with "HP"). intros i Hi. destruct (decide (i = cnt)); [reflexivity|].
  destruct (Z.ltb_spec i cnt); [|lia]. apply item_owns_mono with (1 := HS). destruct o; reflexivity.
Qed.

Lemma item_offset cnt n : 0 <= cnt -> (cnt + 1) * data_size f <= n -> n < 2 ^ 32 -> u32 (data_size f * cnt) = cnt * data_size f.
Proof. intros H0 H1 H2. pose proof Hf as (_ & Hds & _). rewrite wrap_small; [lia | unfold in_word; nia]. Qed.

(** One value for an allocated array. *)
Lemma pointer_repeated K nc a c it cnt data s (Φ : option unit -> pb_istream CB -> hprop) :
  iter_pos it = (Ok f, it) -> i_bytes_left s <= budget -> 8 <= zlen data -> 4 <= nc ->
  counter c nc cnt ⊢ a ↦∗ data -∗ field_owns Filled f cnt data -∗
    (∀ o s' data' cnt', ⌞zlen data' = zlen data⌟ -∗ counter c nc cnt' -∗ a ↦∗ data' -∗ field_owns (outcome_level o) f cnt' data' -∗ Φ o s') -∗
    wp (size <- get_size c ;; if size =? PB_SIZE_MAX then return_error "too many array entries" else
        allocate_field a (data_size f) (u32 (size + 1)) ;; base <- get_ptr a ;; put_size c (u32 (size + 1)) ;;
        initialize_pointer_field descriptors constants rfuel (base + u32 (data_size f * size)) it ;; func f (base + u32 (data_size f * size))) Φ K s.
Proof.
  intros Epos Hb Hl Hnc. pose proof Hf as (_ & Hds & _). iIntros "Hc Ha HP HΦ".
  iDestruct (counter_word c nc cnt Hnc with "Hc") as "[Hc %Hw]". unfold in_word in Hw.
  iApply wp_bind. iApply (wp_get_counter K c nc cnt with "Hc"); [reflexivity | exact Hnc|]. iIntros "Hc".
  destruct (Z.eqb_spec cnt PB_SIZE_MAX) as [|Hmax].
  { iApply wp_return_error. iIntros (s'). iApply ("HΦ" $! None with "[//] Hc Ha"). iApply (field_owns_mono with "HP"); [exact (sub_mono (sub := sub)) | reflexivity]. }
  unfold PB_SIZE_MAX in Hmax. assert (E1 : u32 (cnt + 1) = cnt + 1) by (apply wrap_small; unfold in_word; lia). rewrite E1.
  iDestruct (items_open with "HP") as "(%bs & %Hfit & Ho & HP)". destruct Hfit as [H0 Hfit]. iApply wp_bind.
  iApply (wp_allocate_field Hsmall K a data bs (data_size f) (cnt + 1) with "Ha Ho"); [exact Hl | lia | lia|]. iSplit.
  { iIntros (s') "Ha Ho". iApply ("HΦ" $! None with "[//] Hc Ha"). iApply (items_close Broken cnt data bs with "Ho"); [reflexivity | split; [exact H0 | exact Hfit]|].
    iApply (array_mono with "HP"). intros i _. apply item_owns_mono with (1 := HS). reflexivity. }
  iIntros "(%data' & %junk & %Hp & Ha & Ho)". destruct Hp as (Hz & Hp & Hl' & Hlt).
  iApply wp_bind. iApply (wp_get_int K a data' 0 with "Ha"); [unfold sizeof_ptr; lia..|]. iIntros "Ha".
  change (le_combine (slice data' 0 sizeof_ptr)) with (pointer_of data'). rewrite (owned_some _ _ Hp). iDestruct "Ho" as "[Hblk Hq]".
  iApply wp_bind. iApply (wp_put_counter K c nc cnt with "Hc"); [reflexivity | exact Hnc|]. iIntros "Hc". rewrite E1.
  rewrite (item_offset cnt _ H0 (Z.le_refl _)) by lia.
  iApply (pointer_item K (pointer_of data') _ it cnt with "Hq [HP]"); [exact Epos | exact Hb | exact H0 | rewrite Hl'; lia | iApply (items_grown with "HP"); lia|].
  rewrite Hl'. iIntros (o s' bs') "%Hbs' Hq HP". iApply ("HΦ" with "[//] Hc Ha").
  iApply (items_close _ (cnt + 1) data' bs' with "[Hblk Hq] HP"); [destruct o; reflexivity | unfold block_fits; lia|].
  rewrite (owned_some _ _ Hp), Hbs'. iFrame.
Qed.

(** *** Packed arrays *)

Section packed.
Context (Hpack : PB_LTYPE (type f) <= PB_LTYPE_LAST_PACKABLE).

Lemma packed_item : is_message f = false /\ is_blob f = false.
Proof. destruct (packable_decoder _ _ _ _ f func Hpack Hfunc) as (_ & _ & _ & H). exact H. Qed.

Lemma packed_items l cnt bs : pointer_items l cnt bs ⊣⊢ emp.
Proof.
  unfold pointer_items, item_owns, PbItem.item_owns. destruct packed_item as [-> ->]. cbn [andb]. apply (anti_symm (⊢)).
  - apply array_nothing. reflexivity.
  - apply big_sepL_from_nothing. reflexivity.
Qed.

(** The room of the block grows ahead of the count. *)
Definition packed_room (cnt alloc : Z) (bs : list byte) : Prop := 0 <= cnt <= alloc /\ alloc * data_size f <= zlen bs < 2 ^ 32.

Lemma packed_close l cnt alloc data bs : owning l = true -> packed_room cnt alloc bs -> owned (pointer_of data) bs ⊢ field_owns l f cnt data.
Proof.
  intros Hl [H1 H2]. pose proof Hf as (_ & Hds & _). iIntros "Ho". iApply (items_close l cnt data bs with "Ho"); [exact Hl | split; nia|].
  rewrite packed_items. done.
Qed.

Lemma packed_open cnt data : field_owns Filled f cnt data ⊢ ∃ bs, ⌞packed_room cnt cnt bs⌟ ∗ owned (pointer_of data) bs.
Proof.
  rewrite items_open. iIntros "(%bs & %Hfit & Ho & HP)". rewrite packed_items. iExists bs. iFrame. iPureIntro. unfold packed_room, block_fits in *. lia.
Qed.

(** How much the block grows by. *)
Lemma packed_growth cnt alloc bs remain : packed_room cnt alloc bs -> 0 < remain ->
  let grown := if remain <? u64 (PB_SIZE_MAX - alloc) then u64 (alloc + remain) else u64 (alloc + 1) in alloc + 1 <= grown < 2 ^ 33.
Proof.
  intros [H1 H2] Hr grown. pose proof Hf as (_ & Hds & _). assert (Ha : alloc < 2 ^ 32) by nia. unfold grown, PB_SIZE_MAX.
  rewrite (wrap_small 64 (2 ^ 32 - 1 - alloc)) by (unfold in_word; lia).
  destruct (Z.ltb_spec remain (2 ^ 32 - 1 - alloc)); rewrite wrap_small by (unfold in_word; lia); lia.
Qed.


Lemma packed_grow K a cnt alloc grown bs data sb s (Φ : option (bool * Z * pb_istream CB) -> pb_istream CB -> hprop) :
  8 <= zlen data -> packed_room cnt alloc bs -> alloc + 1 <= grown < 2 ^ 33 -> in_order (K + i_bytes_left s) sb ->
  a ↦∗ data ⊢ owned (pointer_of data) bs -∗
    (∀ room alloc' bs' data' sb', ⌞(zlen data' = zlen data /\ in_order (K + i_bytes_left s) sb' /\ i_bytes_left sb' <= i_bytes_left sb) /\
        (room = true -> packed_room cnt alloc' bs' /\ cnt + 1 <= alloc') /\ (room = false -> packed_room cnt alloc bs' )⌟ -∗
       a ↦∗ data' -∗ owned (pointer_of data') bs' -∗ Φ (Some (room, alloc', sb')) s) -∗
    wp (if alloc <? cnt + 1 then
          '(status, substream) <- on_substream (allocate_field a (data_size f) grown) sb ;;
          ret (bool_decide (is_Some status), grown, substream)
        else ret (true, alloc, sb)) Φ K s.
Proof.
  intros Hl Hroom Hg Hord. pose proof Hroom as [H1 H2]. pose proof Hf as (_ & Hds & _). iIntros "Ha Ho HΦ".
  destruct (Z.ltb_spec alloc (cnt + 1)).
  2:{ iApply wp_ret. iApply ("HΦ" $! true with "[] Ha Ho"). iPureIntro. split; [split; [reflexivity | split; [exact Hord | lia]]|].
      split; [intros _; split; [exact Hroom | lia] | discriminate]. }
  iApply wp_bind. iApply wp_substream; [exact Hord|].
  iApply (wp_allocate_field Hsmall _ a data bs (data_size f) grown with "Ha Ho"); [exact Hl | lia | lia|]. iSplit.
  - iIntros (sb') "Ha Ho %Hsb". iApply wp_ret. iApply ("HΦ" $! false with "[] Ha Ho"). iPureIntro. split; [split; [reflexivity | exact Hsb]|].
    split; [discriminate | intros _; exact Hroom].
  - iIntros "(%data' & %junk & %Hp & Ha & Ho) %Hsb". destruct Hp as (Hz & _ & Hl' & Hlt). iApply wp_ret.
    iApply ("HΦ" $! true with "[] Ha Ho"). iPureIntro. split; [split; [exact Hz | exact Hsb]|].
    split; [|discriminate]. intros _. rewrite <- Hl' in Hlt. unfold packed_room. rewrite Hl' in *. nia.
Qed.

(** A value in a block that has room for it. *)
Lemma packed_value K a it cnt alloc bs data sb s (Φ : option (option unit * pb_istream CB) -> pb_istream CB -> hprop) :
  iter_pos it = (Ok f, it) -> packed_room cnt alloc bs -> cnt + 1 <= alloc -> in_order (K + i_bytes_left s) sb ->
  a ↦∗ data ⊢ owned (pointer_of data) bs -∗
    (∀ o bs' sb', ⌞packed_room cnt alloc bs' /\ in_order (K + i_bytes_left s) sb' /\ (forall u, o = Some u -> i_bytes_left sb' < i_bytes_left sb)⌟ -∗
       a ↦∗ data -∗ owned (pointer_of data) bs' -∗ Φ (Some (o, sb')) s) -∗
    wp (initialize_pointer_field descriptors constants rfuel (pointer_of data + cnt * data_size f) it ;;
        on_substream (func f (pointer_of data + cnt * data_size f)) sb) Φ K s.
Proof.
  intros Epos [H1 H2] Hc Hord. pose proof Hf as (_ & Hds & _). iIntros "Ha Ho HΦ".
  assert (Hsz : item_size f = data_size f) by (unfold item_size; destruct packed_item as [_ ->]; reflexivity).
  iAssert (⌞pointer_of data <> 0⌟ ∗ owned (pointer_of data) bs)%I with "[Ho]" as "[%Hp Ho]".
  { unfold owned. destruct (Z.eqb_spec (pointer_of data) 0); [|iFrame; done]. iDestruct "Ho" as "%E". subst bs. unfold zlen in H2. cbn in H2. nia. }
  rewrite (owned_some _ _ Hp). iDestruct "Ho" as "[Hblk Hq]".
  iAssert (raw (pointer_of data) (zlen bs)) with "[Hq]" as "Hq"; [iExists bs; iFrame; done|].
  iDestruct (raw_focus _ _ (cnt * data_size f) (data_size f) with "Hq") as "[Hi Hclose]"; [nia..|].
  iApply wp_bind. iApply (wp_initialize K with "[Hi]"); [exact Epos | rewrite Hsz; iExact "Hi"|].
  rewrite Hsz. iIntros "Hi". iApply wp_substream; [exact Hord|]. iApply (wp_packed_value Hpack with "[Hi]").
  { unfold item_owns, PbItem.item_owns. destruct packed_item as [-> ->]. iExact "Hi". }
  iIntros (o sb') "%He Hi %Hsb". iDestruct ("Hclose" with "Hi") as "(%bs' & %Hz & Hq & _)". iApply ("HΦ" with "[] Ha"); [iPureIntro; split; [unfold packed_room; rewrite Hz; split; assumption | split; [apply Hsb | exact He]]|].
  rewrite (owned_some _ _ Hp), Hz. iFrame.
Qed.

Lemma packed_pointer_wp K nc a c it fuel : forall cnt alloc bs data sb s (Φ : option (bool * pb_istream CB) -> pb_istream CB -> hprop),
  iter_pos it = (Ok f, it) -> pSize it = c -> pData it = a -> 8 <= zlen data -> 4 <= nc -> packed_room cnt alloc bs ->
  in_order (K + i_bytes_left s) sb -> i_bytes_left sb < Z.of_nat fuel ->
  counter c nc cnt ⊢ a ↦∗ data -∗ owned (pointer_of data) bs -∗
    (∀ st sb' cnt' data' s', ⌞zlen data' = zlen data /\ in_order (K + i_bytes_left s') sb'⌟ -∗ counter c nc cnt' -∗ a ↦∗ data' -∗
      field_owns Filled f cnt' data' -∗ Φ (Some (st, sb')) s') -∗
    wp (packed_pointer descriptors constants rfuel fuel func it f alloc sb) Φ K s.
Proof.
  induction fuel as [|fuel IH]; intros cnt alloc bs data sb s Φ Epos ES ED Hl Hnc Hroom Hord Hfuel.
  { destruct Hord as (_ & [[Hw _] _] & _). lia. }
  pose proof Hf as (_ & Hds & _). pose proof Hroom as [Hr1 Hr2]. iIntros "Hc Ha Ho HΦ". cbn [packed_pointer]. rewrite ES, ED.
  destruct (Z.eqb_spec (i_bytes_left sb) 0) as [|Hne].
  { iApply wp_ret. iApply ("HΦ" with "[%] Hc Ha"); [auto|]. iApply (packed_close Filled with "Ho"); [reflexivity | exact Hroom]. }
  iApply wp_bind. iApply (wp_get_counter K c nc cnt with "Hc"); [reflexivity | exact Hnc|]. iIntros "Hc".
  destruct (Z.eqb_spec cnt PB_SIZE_MAX) as [|Hmax].
  { set (m := fun s : pb_istream CB => (Ok tt, mk_istream (i_source s) (i_bytes_left s) (Some "too many array entries"%string))).
    iApply wp_bind. iApply (wp_ext _ _ (on_istream m)); [reflexivity|].
    iApply (wp_istream K m (fun x s' => x = Ok tt /\ i_bytes_left s' = i_bytes_left s)).
    { intros Hs. split; [discriminate|]. split; [split; [exact Hs | cbn; lia] | split; reflexivity]. }
    iIntros (o s') "%Hs'". destruct Hs' as [Ho Hs']. destruct o as [u|]; [|discriminate].
    iApply wp_ret. iApply ("HΦ" with "[%] Hc Ha"); [rewrite Hs'; auto|]. iApply (packed_close Filled with "Ho"); [reflexivity | exact Hroom]. }
  destruct (Z.eqb_spec (data_size f) 0); [lia|]. iApply wp_bind. iApply wp_ret. cbv zeta.
  pose proof Hord as (_ & [[Hw _] _] & _).
  assert (Hrem : 0 < (i_bytes_left sb - 1) / data_size f + 1) by (pose proof (Z.div_pos (i_bytes_left sb - 1) (data_size f)); lia).
  pose proof (packed_growth cnt alloc bs _ Hroom Hrem) as Hg. cbv zeta in Hg. iApply wp_bind.
  iApply (packed_grow K a cnt alloc _ bs data sb with "Ha Ho"); [exact Hl | exact Hroom | exact Hg | exact Hord|].
  iIntros (room alloc' bs' data' sb') "%Hres Ha Ho". destruct Hres as ((Hz & Hord' & Hle) & Hyes & Hno). destruct room; cbn [negb].
  2:{ iApply wp_ret. iApply ("HΦ" with "[%] Hc Ha"); [auto|]. iApply (packed_close Filled with "Ho"); [reflexivity | exact (Hno eq_refl)]. }
  destruct (Hyes eq_refl) as [Hroom' Hc]. pose proof Hroom' as [Hr1' Hr2'].
  iApply wp_bind. iApply (wp_get_int K a data' 0 with "Ha"); [unfold sizeof_ptr; lia..|]. iIntros "Ha".
  change (le_combine (slice data' 0 sizeof_ptr)) with (pointer_of data').
  rewrite (item_offset cnt (alloc' * data_size f)) by nia.
  destruct (_ =? 0).
  { iApply wp_ret. iApply ("HΦ" with "[%] Hc Ha"); [auto|]. iApply (packed_close Filled with "Ho"); [reflexivity | exact Hroom']. }
  iApply wp_ext; [intros h; symmetry; apply bind_assoc|]. iApply wp_bind.
  iApply (packed_value K a it cnt alloc' bs' data' sb' with "Ha Ho"); [exact Epos | exact Hroom' | exact Hc | exact Hord'|].
  iIntros (o bs'' sb'') "%Hres Ha Ho". destruct Hres as (Hroom'' & Hord'' & He). destruct o as [u|].
  2:{ iApply wp_ret. iApply ("HΦ" with "[%] Hc Ha"); [auto|]. iApply (packed_close Filled with "Ho"); [reflexivity | exact Hroom'']. }
  iApply wp_bind. iApply (wp_get_counter K c nc cnt with "Hc"); [reflexivity | exact Hnc|]. iIntros "Hc".
  iApply wp_bind. iApply (wp_put_counter K c nc cnt with "Hc"); [reflexivity | exact Hnc|]. iIntros "Hc".
  assert (E1 : u32 (cnt + 1) = cnt + 1) by (apply wrap_small; unfold in_word; nia). rewrite !E1.
  specialize (He u eq_refl).
  iApply (IH (cnt + 1) alloc' bs'' data' sb'' with "Hc Ha Ho"); [exact Epos | exact ES | exact ED | lia | exact Hnc | destruct Hroom''; split; lia | exact Hord'' | lia|].
  rewrite Hz. iExact "HΦ".
Qed.
End packed.

(** Any value for an allocated array. *)
Lemma pointer_repeated_field K wire_type nc a c it cnt data s (Φ : option unit -> pb_istream CB -> hprop) :
  iter_pos it = (Ok f, it) -> pSize it = c -> pData it = a -> i_bytes_left s <= budget -> 8 <= zlen data -> 4 <= nc ->
  counter c nc cnt ⊢ a ↦∗ data -∗ field_owns Filled f cnt data -∗
    (∀ o s' data' cnt', ⌞zlen data' = zlen data⌟ -∗ counter c nc cnt' -∗ a ↦∗ data' -∗ field_owns (outcome_level o) f cnt' data' -∗ Φ o s') -∗
    wp (decode_pointer_field descriptors constants rfuel decode_noinit wire_type it) Φ K s.
Proof.
  intros Epos ES ED Hb Hl Hnc. iIntros "Hc Ha HP HΦ". unfold decode_pointer_field.
  iApply wp_bind. iApply wp_pos_of; [exact Epos|]. cbv zeta. iApply wp_bind. iApply wp_known; [exact Hfunc|].
  pose proof Er as Eh. unfold is_repeated in Eh. apply Z.eqb_eq in Eh. rewrite Eh.
  change ((PB_HTYPE_REPEATED =? PB_HTYPE_REQUIRED) || (PB_HTYPE_REPEATED =? PB_HTYPE_OPTIONAL) || (PB_HTYPE_REPEATED =? PB_HTYPE_ONEOF)) with false.
  change (PB_HTYPE_REPEATED =? PB_HTYPE_REPEATED) with true. cbv iota. rewrite ES, ED.
  assert (Hfail : forall cnt' data', field_owns Filled f cnt' data' ⊢ field_owns Broken f cnt' data').
  { intros cnt' data'. apply field_owns_mono; [exact (sub_mono (sub := sub)) | reflexivity]. }
  destruct (is_packed wire_type f) eqn:Epk.
  - unfold is_packed in Epk. apply andb_true_iff in Epk as [_ Hpack]. apply Z.leb_le in Hpack.
    iApply wp_bind. iApply (wp_get_counter K c nc cnt with "Hc"); [reflexivity | exact Hnc|]. iIntros "Hc".
    iApply wp_bind. iApply wp_make_substream. iIntros (o s1) "%Hsb".
    destruct o as [sb|]; [|iApply ("HΦ" $! None with "[//] Hc Ha"); iApply (Hfail with "HP")].
    destruct (Hsb sb eq_refl) as [Hord _]. pose proof Hord as (_ & [[Hw _] _] & _).
    iDestruct (packed_open Hpack with "HP") as "(%bs & %Hroom & Ho)".
    iApply wp_bind. iApply (packed_pointer_wp Hpack K nc a c it _ cnt cnt bs data sb with "Hc Ha Ho"); [exact Epos | exact ES | exact ED | exact Hl | exact Hnc | exact Hroom | exact Hord | lia|].
    iIntros (st sb' cnt' data' s') "%Hres Hc Ha HP". destruct Hres as [Hz Hord'].
    iApply wp_bind. iApply wp_close_substream; [exact Hord'|]. iIntros (o' s2).
    destruct o' as [u|]; [|iApply ("HΦ" $! None with "[//] Hc Ha"); iApply (Hfail with "HP")].
    destruct st; [iApply wp_ret; iApply ("HΦ" $! (Some tt) with "[//] Hc Ha HP") | iApply wp_fail; iApply ("HΦ" $! None with "[//] Hc Ha"); iApply (Hfail with "HP")].
  - iApply (pointer_repeated K nc a c it cnt data with "Hc Ha HP HΦ"); assumption.
Qed.
End array.
End pointer.

(** ** Single values in a structure *)

Lemma field_owns_count l cnt cnt' data : is_repeated f = false -> field_owns l f cnt data ⊢ field_owns l f cnt' data.
Proof.
  intros Er. unfold field_owns, PbTypes.field_owns. rewrite Er. destruct (is_static f); [reflexivity|]. destruct (is_pointer f); [|reflexivity].
  cbv zeta. destruct (_ =? 0); [iIntros "_"; iPureIntro; discriminate|]. unfold pointee. rewrite Er. reflexivity.
Qed.

Section value.
Context (g : member) (Hg : member_wf types constants g) (Hin : In f (m_fields g)).
Context (b : Z) (it : pb_field_iter) (Hit : at_member b g f it) (Er : is_repeated f = false) (Hrfuel : (0 < rfuel)%nat).
Notation a := (b - m_soff g).

(** The parts of the member when [f] has been decoded. *)
Definition decoded {A} (o : option A) (cnt : Z) : hprop :=
  (∃ hd data, ⌞(zlen hd = - m_soff g /\ zlen data = m_len g) /\ (is_oneof f = true -> le_combine (slice hd 0 4) = tag f)⌟ ∗
     b ↦∗ hd ∗ a ↦∗ data ∗ field_owns (outcome_level o) f cnt data)%I.

Lemma static_value K wire_type hd data cnt s (Φ : option unit -> pb_istream CB -> hprop) :
  is_static f = true -> is_oneof f = false -> i_bytes_left s <= budget -> zlen hd = - m_soff g -> zlen data = m_len g ->
  b ↦∗ hd ⊢ a ↦∗ data -∗ field_owns Filled f cnt data -∗ (∀ o s', decoded o cnt -∗ Φ o s') -∗
    wp (decode_static_field descriptors constants rfuel decode_noinit wire_type it) Φ K s.
Proof.
  intros Est Ho Hb Hhd Hdata. destruct (member_room types constants g f Hg Hin) as (_ & _ & Hrs & _). specialize (Hrs Est). rewrite Er in Hrs.
  destruct Hit as (Epos & ED & ES). pose proof Hg as (Hs & Hlen & _).
  iIntros "Hhd Ha HP HΦ". unfold decode_static_field.
  iApply wp_bind. iApply wp_pos_of; [exact Epos|]. cbv zeta. iApply wp_bind. iApply wp_known; [exact Hfunc|].
  assert (Hrun : forall hd', zlen hd' = - m_soff g -> b ↦∗ hd' ⊢ a ↦∗ data -∗ field_owns Filled f cnt data -∗
    (∀ o s', decoded o cnt -∗ Φ o s') -∗ wp (func f (pData it)) Φ K s).
  { intros hd' Hhd'. iIntros "Hhd Ha HP HΦ". rewrite ED. iApply (static_object K a cnt data with "Ha HP"); [exact Est | exact Er | exact Hb | lia|].
    iIntros (o s' data') "%Hz Ha HP". iApply "HΦ". iExists hd', data'. iFrame. iPureIntro. split; [split; [exact Hhd' | lia] | congruence]. }
  fold (is_optional f) (is_repeated f) (is_oneof f). rewrite Er, Ho. destruct (_ =? PB_HTYPE_REQUIRED); [iApply (Hrun with "Hhd Ha HP HΦ"); exact Hhd|].
  destruct (is_optional f).
  - iApply wp_bind. destruct (Z.eqb_spec (pSize it) (pData it)) as [E|E]; cbn [negb]; [iApply wp_ret; iApply (Hrun with "Hhd Ha HP HΦ"); exact Hhd|].
    iApply (wp_put_int K b hd 0 with "Hhd"); [lia | lia | cbn; lia|]. iIntros "Hhd". iApply (Hrun with "Hhd Ha HP HΦ").
    rewrite zlen_splice; rewrite ?zlen_le_split; lia.
  - iApply wp_return_error. iIntros (s'). iApply ("HΦ" $! None). iExists hd, data. iFrame "Hhd Ha". iSplitR; [iPureIntro; split; [auto | congruence]|].
    iApply (field_owns_mono with "HP"); [exact (sub_mono (sub := sub)) | reflexivity].
Qed.

(** *** Unions *)

(** A union in which [f] is about to be decoded: it is [f] that is set, or
    nothing is left in it. *)
Definition ready (hd data : list byte) : hprop :=
  (⌞le_combine (slice hd 0 4) = tag f⌟ ∗ field_owns Filled f 0 data ∨
   ⌞le_combine (slice hd 0 4) <> tag f /\ (is_pointer f = true -> pointer_of data = 0)⌟)%I.

Lemma put_tag K hd s (Φ : option unit -> pb_istream CB -> hprop) : zlen hd = - m_soff g -> m_soff g <= -4 ->
  b ↦∗ hd ⊢ (∀ hd', ⌞zlen hd' = - m_soff g /\ le_combine (slice hd' 0 4) = tag f⌟ -∗ b ↦∗ hd' -∗ Φ (Some tt) s) -∗
  wp (put_size (pSize it) (tag f)) Φ K s.
Proof.
  intros Hhd Hs. pose proof Hf as (Htag & _). destruct Hit as (_ & _ & ES). iIntros "Hhd HΦ". unfold put_size.
  iApply (wp_put_int K b hd 0 with "Hhd"); [lia | lia | cbn; lia|]. iIntros "Hhd". iApply ("HΦ" with "[] Hhd"). iPureIntro.
  split; [rewrite zlen_splice; rewrite ?zlen_le_split; lia|]. rewrite (le_combine_splice hd 0 4) by lia. apply wrap_small. unfold in_word.
  change (2 ^ (8 * Z.of_nat 4)) with (2 ^ 32). lia.
Qed.

(** A submessage that is not set yet is cleared. *)
Lemma static_oneof_object K hd data s (Φ : option unit -> pb_istream CB -> hprop) :
  is_static f = true -> data_size f <= zlen data ->
  a ↦∗ data ⊢ ready hd data -∗
    (∀ data', ⌞zlen data' = zlen data⌟ -∗ a ↦∗ data' -∗ field_owns Filled f 0 data' -∗ Φ (Some tt) s) -∗
    wp (if is_message f && negb (le_combine (slice hd 0 4) =? tag f) then
          store_at a (zeros (data_size f)) ;; with_fields descriptors (pb_message_set_to_defaults descriptors constants rfuel) (ptr f) a
        else ret tt) Φ K s.
Proof.
  intros Est Hl. pose proof Hf as (_ & Hds & _). iIntros "Ha HP HΦ". unfold ready.
  assert (Hother : is_message f = false -> forall l data, ⊢ field_owns l f 0 data).
  { intros Em l data'. unfold field_owns, PbTypes.field_owns. rewrite Est, Em. done. }
  destruct (is_message f) eqn:Em; cbn [andb].
  2:{ iAssert emp%I with "[HP]" as "_".
      { iDestruct "HP" as "[[_ HP]|_]"; [|done]. unfold field_owns, PbTypes.field_owns. rewrite Est, Em. done. }
      iApply wp_ret. iApply ("HΦ" with "[//] Ha"). iApply (Hother eq_refl). }
  destruct (Z.eqb_spec (le_combine (slice hd 0 4)) (tag f)) as [E|E]; cbn [negb].
  { iDestruct "HP" as "[[_ HP]|[%E' _]]"; [|contradiction]. iApply wp_ret. iApply ("HΦ" with "[//] Ha HP"). }
  iDestruct "HP" as "[[%E' HP]|_]"; [contradiction|].
  assert (Hz : zlen (zeros (data_size f)) = data_size f) by (unfold zlen, zeros; rewrite repeat_length; lia).
  iApply wp_bind. iApply (wp_store_at K a data 0 with "Ha"); [lia..|]. iIntros "Ha".
  set (cleared := splice data 0 (zeros (data_size f))). assert (Hcl : zlen cleared = zlen data) by (apply zlen_splice; lia).
  iAssert (sub Clear (ptr f) (slice cleared 0 (data_size f))) as "HP".
  { pose proof (slice_splice_same data 0 (zeros (data_size f)) ltac:(lia) ltac:(lia)) as Esl. rewrite Hz in Esl. unfold cleared. rewrite Esl. iApply (sub_mono (ptr f) _ Fresh Clear eq_refl).
    iApply sub_zeros; [exact (Hgood eq_refl) | done]. }
  iDestruct (object_focus (sub Clear (ptr f)) a cleared 0 (data_size f) with "[$Ha $HP]") as "[Hi Hclose]"; [lia..|]. rewrite Z.add_0_r.
  iApply (sub_defaults K (ptr f) (data_size f) a with "Hi"); [exact (Hgood eq_refl)|]. iIntros "Hi".
  iDestruct ("Hclose" with "Hi") as "(%new & %Hnew & Ha & Hnew)".
  iApply ("HΦ" with "[] Ha"); [iPureIntro; rewrite zlen_splice by lia; exact Hcl|].
  unfold field_owns, PbTypes.field_owns. rewrite Est, Em, Er. rewrite <- Hnew. rewrite slice_splice_same by lia.
  iApply (sub_mono (ptr f) _ Fresh Filled eq_refl with "Hnew").
Qed.

Lemma static_oneof K wire_type hd data s (Φ : option unit -> pb_istream CB -> hprop) :
  is_static f = true -> is_oneof f = true -> m_soff g <= -4 -> i_bytes_left s <= budget -> zlen hd = - m_soff g -> zlen data = m_len g ->
  b ↦∗ hd ⊢ a ↦∗ data -∗ ready hd data -∗ (∀ o s', decoded o 0 -∗ Φ o s') -∗
    wp (decode_static_field descriptors constants rfuel decode_noinit wire_type it) Φ K s.
Proof.
  intros Est Ho Hs4 Hb Hhd Hdata. destruct (member_room types constants g f Hg Hin) as (_ & _ & Hrs & _). specialize (Hrs Est). rewrite Er in Hrs.
  pose proof Hit as (Epos & ED & ES). iIntros "Hhd Ha HP HΦ". unfold decode_static_field.
  iApply wp_bind. iApply wp_pos_of; [exact Epos|]. cbv zeta. iApply wp_bind. iApply wp_known; [exact Hfunc|].
  pose proof Ho as Eh. unfold is_oneof in Eh. apply Z.eqb_eq in Eh. rewrite Eh.
  change (PB_HTYPE_ONEOF =? PB_HTYPE_REQUIRED) with false. change (PB_HTYPE_ONEOF =? PB_HTYPE_OPTIONAL) with false.
  change (PB_HTYPE_ONEOF =? PB_HTYPE_REPEATED) with false. change (PB_HTYPE_ONEOF =? PB_HTYPE_ONEOF) with true. cbv iota. fold (is_message f).
  iApply wp_bind. iApply (wp_count K g f b it Hit hd with "Hhd"); [exact Hhd | exact Hs4|]. iIntros "Hhd".
  iApply wp_bind. rewrite ED. iApply (static_oneof_object K hd data with "Ha HP"); [exact Est | lia|].
  iIntros (data') "%Hz Ha HP". iApply wp_bind. iApply (put_tag K hd with "Hhd"); [exact Hhd | exact Hs4|]. iIntros (hd') "%Hh Hhd".
  destruct Hh as [Hhd' Htag].
  iApply (static_object K a 0 data' with "Ha HP"); [exact Est | exact Er | exact Hb | lia|].
  iIntros (o s' data'') "%Hz' Ha HP". iApply "HΦ". iExists hd', data''. iFrame. iPureIntro. split; [split; [exact Hhd' | lia] | intros _; exact Htag].
Qed.

(** *** Pointers *)

Lemma clear_pointer cnt data : is_pointer f = true -> field_owns Clear f cnt data ⊢ ⌞pointer_of data = 0⌟.
Proof.
  intros Ep. unfold field_owns, PbTypes.field_owns. rewrite (pointer_not_static f Ep), Ep. cbv zeta. fold (pointer_of data).
  destruct (Z.eqb_spec (pointer_of data) 0) as [E|E]; [iIntros "_"; done | iIntros "[%H ?]"; discriminate].
Qed.

Lemma null_pointer l cnt data : is_pointer f = true -> pointer_of data = 0 -> ⊢ field_owns l f cnt data.
Proof.
  intros Ep E. unfold field_owns, PbTypes.field_owns. rewrite (pointer_not_static f Ep), Ep. cbv zeta. fold (pointer_of data). rewrite E.
  iPureIntro. congruence.
Qed.

(** A submessage is released before another takes its place. *)
Lemma release_old K hd data cnt s (Φ : option unit -> pb_istream CB -> hprop) :
  is_pointer f = true -> zlen hd = - m_soff g -> zlen data = m_len g ->
  (is_oneof f = true -> m_soff g <= -4 /\ (pointer_of data <> 0 -> le_combine (slice hd 0 4) = tag f)) ->
  b ↦∗ hd ⊢ a ↦∗ data -∗ field_owns Filled f cnt data -∗
    (∀ data', ⌞zlen data' = m_len g /\ (is_message f = true -> pointer_of data' = 0)⌟ -∗ b ↦∗ hd -∗ a ↦∗ data' -∗ field_owns Filled f cnt data' -∗ Φ (Some tt) s) -∗
    wp (if is_message f then p <- get_ptr (pData it) ;; if negb (p =? 0) then pb_release_single_field descriptors rfuel it else ret tt
        else ret tt) Φ K s.
Proof.
  intros Ep Hhd Hdata Hone. destruct (member_room types constants g f Hg Hin) as (_ & _ & _ & Hrp & _). specialize (Hrp Ep).
  pose proof Hit as (Epos & ED & ES). iIntros "Hhd Ha HP HΦ". destruct (is_message f) eqn:Em.
  2:{ iApply wp_ret. iApply ("HΦ" with "[%] Hhd Ha HP"). split; [exact Hdata | discriminate]. }
  iApply wp_bind. iApply (wp_get_int K a data 0 with "Ha"); [unfold sizeof_ptr; lia..|]. iIntros "Ha".
  change (le_combine (slice data 0 sizeof_ptr)) with (pointer_of data).
  destruct (Z.eqb_spec (pointer_of data) 0) as [E|E]; cbn [negb].
  { iApply wp_ret. iApply ("HΦ" with "[%] Hhd Ha HP"). split; [exact Hdata | intros _; exact E]. }
  destruct rfuel as [|n] eqn:Efuel; [lia|]. cbn [pb_release_single_field]. iApply wp_bind. iApply wp_pos_of; [exact Epos|].
  fold (is_oneof f) (is_pointer f). iApply wp_bind.
  iAssert (∀ Ψ : option bool -> pb_istream CB -> hprop, b ↦∗ hd -∗ (b ↦∗ hd -∗ Ψ (Some false) s) -∗
    wp (if is_oneof f then which <- get_size (pSize it) ;; ret (negb (which =? tag f)) else ret false) Ψ K s)%I as "Hset".
  { iIntros (Ψ) "Hhd HΨ". destruct (is_oneof f) eqn:Ho; [|iApply wp_ret; iApply ("HΨ" with "Hhd")].
    destruct (Hone eq_refl) as [Hs4 Htag]. iApply wp_bind. iApply (wp_count K g f b it Hit hd with "Hhd"); [exact Hhd | exact Hs4|]. iIntros "Hhd".
    rewrite (Htag E), Z.eqb_refl. iApply wp_ret. iApply ("HΨ" with "Hhd"). }
  iApply ("Hset" with "Hhd"). iIntros "Hhd".
  assert (Hrel : forall l a d size s (Φ : option unit -> pb_istream CB -> hprop),
    region (sub l a) d size ⊢ (region (sub Clear a) d size -∗ Φ (Some tt) s) -∗
    wp (release_submessage descriptors (pb_release_single_field descriptors n) a d) Φ K s).
  { exact (sub_release_item (sub := sub) K). }
  iApply (release_field_wp K types constants descriptors sub (sub_nothing (sub := sub)) _ Hrel g f b it Hg Hin Hit Filled hd data 0 with "Hhd Ha [HP]");
    [exact Hhd | exact Hdata | intros Hr; congruence | lia | iApply (field_owns_count with "HP"); exact Er|].
  iIntros (hd' data') "%Hz Hhd Ha HP". destruct Hz as (_ & Hz & Heq). rewrite (Heq Er), Er.
  iDestruct (clear_pointer _ _ Ep with "HP") as "HP". iDestruct "HP" as "%E'".
  iApply ("HΦ" with "[%] Hhd Ha"); [auto | iApply null_pointer; [exact Ep | exact E']].
Qed.

Lemma pointer_value_field K wire_type hd data cnt s (Φ : option unit -> pb_istream CB -> hprop) :
  is_pointer f = true -> i_bytes_left s <= budget -> zlen hd = - m_soff g -> zlen data = m_len g ->
  (is_oneof f = true -> m_soff g <= -4 /\ (pointer_of data <> 0 -> le_combine (slice hd 0 4) = tag f)) ->
  b ↦∗ hd ⊢ a ↦∗ data -∗ field_owns Filled f cnt data -∗
    (∀ o s', decoded o cnt -∗ Φ o s') -∗
    wp (decode_pointer_field descriptors constants rfuel decode_noinit wire_type it) Φ K s.
Proof.
  intros Ep Hb Hhd Hdata Hone. destruct (member_room types constants g f Hg Hin) as (_ & _ & _ & Hrp & _). specialize (Hrp Ep).
  pose proof Hit as (Epos & ED & ES). iIntros "Hhd Ha HP HΦ". unfold decode_pointer_field.
  iApply wp_bind. iApply wp_pos_of; [exact Epos|]. cbv zeta. iApply wp_bind. iApply wp_known; [exact Hfunc|].
  fold (is_optional f) (is_repeated f) (is_oneof f) (is_message f) (is_blob f). rewrite Er.
  destruct (_ || is_oneof f) eqn:Ekind.
  2:{ apply orb_false_iff in Ekind as [_ Ho]. iApply wp_return_error. iIntros (s'). iApply ("HΦ" $! None). iExists hd, data. iFrame "Hhd Ha".
      iSplitR; [iPureIntro; split; [auto | congruence]|]. iApply (field_owns_mono with "HP"); [exact (sub_mono (sub := sub)) | reflexivity]. }
  iApply wp_bind. iApply (release_old K hd data cnt with "Hhd Ha HP"); [exact Ep | exact Hhd | exact Hdata | exact Hone|].
  iIntros (data') "%Hz Hhd Ha HP". destruct Hz as [Hz Hnull]. iApply wp_bind.
  assert (Hrun : forall hd', zlen hd' = - m_soff g -> (is_oneof f = true -> le_combine (slice hd' 0 4) = tag f) ->
    b ↦∗ hd' ⊢ a ↦∗ data' -∗ field_owns Filled f cnt data' -∗ (∀ o s', decoded o cnt -∗ Φ o s') -∗
    wp (if is_blob f then func f (pData it)
        else allocate_field (pData it) (data_size f) 1 ;; p <- get_ptr (pData it) ;;
             initialize_pointer_field descriptors constants rfuel p it ;; p <- get_ptr (pData it) ;; func f p) Φ K s).
  { intros hd' Hhd' Htag. iIntros "Hhd Ha HP HΦ". rewrite ED.
    iApply (pointer_single Ep K a it cnt data' with "Ha HP"); [exact Epos | exact Er | exact Hb | lia | exact Hnull|].
    iIntros (o s' data'') "%Hz' Ha HP". iApply "HΦ". iExists hd', data''. iFrame. iPureIntro. split; [split; [exact Hhd' | lia] | exact Htag]. }
  destruct (is_oneof f) eqn:Ho.
  - destruct (Hone eq_refl) as [Hs4 _]. iApply (put_tag K hd with "Hhd"); [exact Hhd | exact Hs4|]. iIntros (hd') "%Hh Hhd".
    iApply (Hrun hd' with "Hhd Ha HP HΦ"); [apply Hh | intros _; apply Hh].
  - iApply wp_ret. iApply (Hrun hd with "Hhd Ha HP HΦ"); [exact Hhd | discriminate].
Qed.
End value.
End one.
End field.

(** ** Callbacks *)

Section callback.
Context {CB : Type} {ICB : InputCallback CB} {MA : Machine}.
Notation D := (M (dstate CB)).
Context (funcs_decode : Z -> pb_field -> Z -> D unit).

(** What the user's functions have to do: they may use their argument, a pointer
    in the message, and whatever of the heap is their own; a call that succeeds
    has read something, unless there was nothing to read. *)
Definition callbacks_ok : Prop := forall K p f a s (Φ : option unit -> pb_istream CB -> hprop), p <> 0 ->
  raw a 8 ⊢ (∀ o s', ⌞forall u, o = Some u -> i_bytes_left s' < i_bytes_left s \/ i_bytes_left s' = 0⌟ -∗ raw a 8 -∗ Φ o s') -∗
  wp (funcs_decode p f a) Φ K s.
Context (Hcallbacks : callbacks_ok).

Lemma callback_loop_wp K p f a s fuel : forall sb (Φ : option (pb_istream CB) -> pb_istream CB -> hprop),
  p <> 0 -> in_order (K + i_bytes_left s) sb -> i_bytes_left sb < Z.of_nat fuel -> 
  raw a 8 ⊢ (∀ o s', ⌞forall sb', o = Some sb' -> in_order (K + i_bytes_left s') sb'⌟ -∗ raw a 8 -∗ Φ o s') -∗
  wp (callback_loop fuel (funcs_decode p f a) sb) Φ K s.
Proof.
  induction fuel as [|fuel IH]; intros sb Φ Hp Hord Hfuel; [destruct Hord as (_ & [[Hw _] _] & _); lia|].
  iIntros "Ha HΦ". cbn [callback_loop]. iApply wp_bind. iApply wp_substream; [exact Hord|].
  iApply (Hcallbacks with "Ha"); [exact Hp|]. iIntros (o sb') "%He Ha %Hsb". destruct o as [u|].
  - destruct (Z.eqb_spec (i_bytes_left sb') 0) as [|Hne].
    + iApply wp_ret. iApply ("HΦ" with "[%] Ha"). intros ? [= <-]. apply Hsb.
    + destruct (He u eq_refl) as [Hlt|]; [|contradiction]. iApply (IH sb' with "Ha HΦ"); [exact Hp | apply Hsb | lia].
  - iApply wp_return_error. iIntros (s'). iApply ("HΦ" with "[%] Ha"). discriminate.
Qed.

Lemma raw_varint_loop_zlen fuel : forall size max (s s' : pb_istream CB) bs,
  raw_varint_loop fuel size max s = (Ok bs, s') -> zlen bs <= Z.of_nat fuel.
Proof.
  induction fuel as [|fuel IH]; intros size max s s' bs; cbn [raw_varint_loop]; [discriminate|]. destruct (_ <? _); [discriminate|].
  intros H. apply bind_inv in H as (b & s1 & Hb & H). apply pb_read_zlen in Hb; [|lia]. destruct (negb _).
  - apply bind_inv in H as (rest & s2 & Hrest & [= <- _]). apply IH in Hrest. rewrite zlen_app. lia.
  - injection H as <- _. lia.
Qed.

Lemma read_raw_value_zlen wt (s s' : pb_istream CB) bs : read_raw_value wt 10 s = (Ok bs, s') -> zlen bs <= 11.
Proof.
  unfold read_raw_value. destruct (wt =? PB_WT_VARINT); [intros H; apply raw_varint_loop_zlen in H; exact H|].
  destruct (wt =? PB_WT_64BIT); [intros H; apply pb_read_zlen in H; lia|].
  destruct (wt =? PB_WT_32BIT); [intros H; apply pb_read_zlen in H; lia | discriminate].
Qed.

Lemma callback_field K wire_type f a n it s (Φ : option unit -> pb_istream CB -> hprop) :
  iter_pos it = (Ok f, it) -> pData it = a -> 16 <= n ->
  raw a n ⊢ (∀ o s', raw a n -∗ Φ o s') -∗ wp (decode_callback_field funcs_decode wire_type it) Φ K s.
Proof.
  intros Epos ED Hn. iIntros "Ha HΦ". unfold decode_callback_field. iApply wp_bind. iApply wp_pos_of; [exact Epos|]. rewrite ED.
  iDestruct "Ha" as "(%bs & %Hbs & Ha & H)". iDestruct (points_to_valid with "Ha") as "[Ha %Ha]".
  destruct (Z.eqb_spec a 0); [lia|]. iApply wp_bind. iApply (wp_get_int K a bs 0 with "Ha"); [unfold callback_funcs, sizeof_ptr; lia..|]. iIntros "Ha".
  set (p := le_combine (slice bs 0 sizeof_ptr)).
  iAssert (raw a n) with "[Ha H]" as "Ha"; [iExists bs; iFrame; done|].
  destruct (Z.eqb_spec p 0) as [|Hp].
  { iApply (wp_istream K _ (fun _ _ => True)); [intros Hs; destruct (pb_skip_field_shrinks wire_type K s Hs); auto|].
    iIntros (o s') "_". iApply ("HΦ" with "Ha"). }
  iDestruct (raw_focus a n callback_arg 8 with "Ha") as "[Harg Hclose]"; [unfold callback_arg; lia..|].
  destruct (wire_type =? PB_WT_STRING).
  - iApply wp_bind. iApply wp_make_substream. iIntros (o s1) "%Hsb".
    destruct o as [sb|]; [|iApply "HΦ"; iApply ("Hclose" with "Harg")]. destruct (Hsb sb eq_refl) as [Hord _].
    pose proof Hord as (_ & [[Hw _] _] & _). iApply wp_bind. iApply (callback_loop_wp with "Harg"); [exact Hp | exact Hord | lia|].
    iIntros (o s2) "%Hsb' Harg". iDestruct ("Hclose" with "Harg") as "Ha". destruct o as [sb'|]; [|iApply ("HΦ" with "Ha")].
    iApply wp_close_substream; [exact (Hsb' sb' eq_refl)|]. iIntros (o s3). iApply ("HΦ" with "Ha").
  - iApply wp_bind. iApply (wp_istream K _ (fun x _ => match x with Ok buf => zlen buf <= 11 | _ => True end)).
    { intros Hs. destruct (read_raw_value_shrinks wire_type 10 ltac:(lia) K s Hs) as [H1 H2]. split; [exact H1|]. split; [exact H2|].
      destruct (read_raw_value wire_type 10 s) as [[buf| |] s1] eqn:E; cbn [fst]; auto. exact (read_raw_value_zlen _ _ _ _ E). }
    iIntros (o s1) "%Hbuf". destruct o as [buf|]; [|iApply "HΦ"; iApply ("Hclose" with "Harg")]. cbn in Hbuf. pose proof (zlen_nonneg buf).
    iApply wp_bind. iApply (wp_on_substream K _ 0); [split; [lia|]; split; [split; cbn; [unfold in_word; lia | lia] | cbn; lia]|].
    iApply (Hcallbacks with "Harg"); [exact Hp|]. iIntros (o sb') "_ Harg". iDestruct ("Hclose" with "Harg") as "Ha".
    destruct o; [iApply wp_ret | iApply wp_fail]; iApply ("HΦ" with "Ha").
Qed.
End callback.
