(* ===== verification/PbMessage.v ===== *)
(** Decoding a message: from the fields of PbField to the whole of
    [pb_decode_noinit].  The iterator always stands at a member of the message;
    a fixed-count array has its counter elsewhere, so the iterator's [pSize] may
    be an address of the caller's. *)
From Stdlib Require Import ZArith Lia Bool String.
From coqutil Require Import Byte Word.LittleEndianList.
From stdpp Require Import base list numbers gmap.
From iris.bi Require Import bi.
From iris.proofmode Require Import proofmode.
From S2P Require Import Prelude PbStream PbCommon PbCodec PbSpec PbMemory PbEncode PbAdvance PbHeap PbDecode PbSep PbTypes PbRelease PbItem PbField.
#[local] Unset SsrRewrite.
Local Open Scope Z_scope.
Local Open Scope c_scope.

(** ** The iterator *)

Section iterator.
Context (types : Z -> option message_type) (constants : mem) (t : message_type) (d : Z).
Context (Hwf : type_wf types constants t) (Hd : 0 < d).
Notation body := (body_of t).
Notation offs := (offsets_of t).
Notation placed := (iter_at (fields_of t) offs d).

(** The iterator stands at the field [f]. *)
Definition stands_at (f : pb_field) (it : pb_field_iter) : Prop :=
  start it = fields_of t /\ dest_struct it = d /\ 0 <= required_field_index it /\ body !! pos it = Some f /\
  exists o, offs !! pos it = Some o /\ pData it = d + o /\ (is_oneof f = true -> pSize it = pData it + size_offset f).
Definition located (it : pb_field_iter) : Prop := exists f, stands_at f it.
(** Its count is in the structure. *)
Definition counted_inside (it : pb_field_iter) : Prop := forall f, body !! pos it = Some f -> pSize it = pData it + size_offset f.

Lemma body_wf i f : body !! i = Some f -> field_wf types constants f.
Proof.
  intros Hf. apply list_elem_of_lookup_2, list_elem_of_In, in_concat in Hf as (fs & Hfs & Hf). apply in_map_iff in Hfs as (g & <- & Hg).
  apply list_elem_of_In, list_elem_of_lookup in Hg as [k Hg]. destruct (member_range types constants t Hwf k g Hg) as (Hm & _).
  apply (member_room types constants g f Hm Hf).
Qed.

Lemma iter_at_inside i it : placed i it -> (i < length body)%nat -> 0 <= required_field_index it -> located it /\ counted_inside it.
Proof.
  intros (Es & Ep & Ed & f & o & Hf & Ho & HD & HS) Hi Hr. destruct (lookup_lt_is_Some_2 _ _ Hi) as [f' Hf'].
  unfold fields_of in Hf. rewrite (fields_body body i f' Hf') in Hf. injection Hf as <-.
  split; [exists f'; repeat split; try assumption; [rewrite Ep; exact Hf' | exists o; rewrite Ep; repeat split; auto; lia]|].
  intros f Hf. rewrite Ep, Hf' in Hf. injection Hf as <-. lia.
Qed.

Lemma inside_iter_at it : located it -> counted_inside it -> placed (pos it) it.
Proof.
  intros (f & Es & Ed & _ & Hf & o & Ho & HD & _) Hc. repeat split; [exact Es | exact Ed|]. exists f, o.
  split; [apply fields_body, Hf|]. split; [exact Ho|]. split; [exact HD|]. rewrite (Hc f Hf). lia.
Qed.

Lemma stands_iter_pos f it : stands_at f it -> iter_pos it = (Ok f, it).
Proof. intros (Es & _ & _ & Hf & _). unfold iter_pos. rewrite Es. unfold fields_of. rewrite (fields_body _ _ _ Hf). reflexivity. Qed.

Lemma body_room it : located it -> (pos it < length body)%nat.
Proof. intros (f & _ & _ & _ & Hf & _). exact (lookup_lt_Some _ _ _ Hf). Qed.

(** A step does not look at [pSize], except within a union. *)
Lemma next_any_size f g it z : iter_pos it = (Ok f, it) -> start it !! S (pos it) = Some g -> tag f <> 0 -> is_oneof f = false ->
  pb_field_iter_next it = pb_field_iter_next (mk_iter (start it) (pos it) (required_field_index it) (dest_struct it) (pData it) z).
Proof.
  intros Epos Eg Htag Ho. unfold iter_pos in Epos. destruct (start it !! pos it) as [f'|] eqn:E; [injection Epos as -> | discriminate].
  assert (Ea : forall it', start it' = start it -> pos it' = pos it -> iter_pos it' = (Ok f, it')) by (intros it' Hs Hp; unfold iter_pos; rewrite Hs, Hp, E; reflexivity).
  assert (Eb : forall r p q z, iter_pos (mk_iter (start it) (S (pos it)) r p q z) = (Ok g, mk_iter (start it) (S (pos it)) r p q z)).
  { intros. unfold iter_pos. cbn [start pos]. rewrite Eg. reflexivity. }
  unfold is_oneof in Ho. unfold pb_field_iter_next. rewrite !(bind_Ok iter_pos _ _ f _) by (apply Ea; reflexivity).
  rewrite (proj2 (Z.eqb_neq (tag f) 0) Htag), !bind_get. cbn [start pos required_field_index dest_struct pData pSize].
  rewrite !bind_put, !(bind_Ok iter_pos _ _ g _) by apply Eb. rewrite Ho. cbn [andb].
  destruct (tag g =? 0); reflexivity.
Qed.

Lemma next_required it b it' : pb_field_iter_next it = (Ok b, it') -> 0 <= required_field_index it -> 0 <= required_field_index it'.
Proof.
  intros H Hr. unfold pb_field_iter_next, bind, iter_pos, get, put, pb_field_iter_begin in H. destruct (start it !! pos it) as [f|]; [|discriminate].
  destruct (tag f =? 0); [injection H as _ <-; exact Hr|]. cbn [start pos required_field_index dest_struct pData] in H.
  destruct (start it !! S (pos it)) as [g|]; [|discriminate]. destruct (tag g =? 0).
  { cbn in H. unfold iter_pos, bind, put, ret in H. cbn in H. destruct (start it !! 0%nat); [|discriminate]. destruct (dest_struct it =? 0); injection H as _ <-; cbn; lia. }
  destruct (_ && _); injection H as _ <-; cbn; [exact Hr|]. destruct (_ =? _); [unfold wrap; apply Z.mod_pos_bound; lia | exact Hr].
Qed.

Lemma find_loop_required fuel from tg : forall it b it', pb_field_iter_find_loop fuel from tg it = (Ok b, it') ->
  0 <= required_field_index it -> 0 <= required_field_index it'.
Proof.
  induction fuel as [|fuel IH]; intros it b it' H Hr; [discriminate|]. cbn [pb_field_iter_find_loop] in H.
  apply bind_inv in H as (f & it1 & Ep & H). unfold iter_pos in Ep. destruct (start it !! pos it); [injection Ep as _ <- | discriminate].
  destruct (_ && _); [injection H as _ <-; exact Hr|]. apply bind_inv in H as (b' & it2 & En & H). rewrite bind_get in H.
  pose proof (next_required _ _ _ En Hr) as Hr2. destruct (Nat.eqb _ _); [injection H as _ <-; exact Hr2 | exact (IH _ _ _ H Hr2)].
Qed.

Lemma next_field it f : stands_at f it -> exists g, start it !! S (pos it) = Some g.
Proof.
  intros (Es & _ & _ & Hf & _). rewrite Es. apply lookup_lt_is_Some_2. apply lookup_lt_Some in Hf. unfold fields_of. rewrite length_app. cbn. lia.
Qed.

Lemma next_located it : located it -> exists b it', pb_field_iter_next it = (Ok b, it') /\
  placed (S (pos it) mod length body) it' /\ 0 <= required_field_index it' /\ (b = true -> S (pos it) < length body)%nat.
Proof.
  intros Hit. pose proof Hit as (f & Hst). pose proof Hst as (Es & Ed & Hr & Hf & o & Ho & HD & HS).
  pose proof (body_wf _ _ Hf) as (Htag & _).
  set (it0 := mk_iter (start it) (pos it) (required_field_index it) (dest_struct it) (pData it) (pData it + size_offset f)).
  assert (E : pb_field_iter_next it = pb_field_iter_next it0).
  { destruct (is_oneof f) eqn:Eo; [|destruct (next_field it f Hst) as [g Hg]; apply (next_any_size f g); [exact (stands_iter_pos f it Hst) | exact Hg | lia | exact Eo]].
    unfold it0. rewrite <- (HS eq_refl). destruct it; reflexivity. }
  assert (H0 : placed (pos it) it0).
  { repeat split; [exact Es | exact Ed|]. exists f, o. cbn. split; [apply fields_body, Hf|]. split; [exact Ho|]. split; [exact HD | lia]. }
  pose proof (body_tags types constants t Hwf) as Hbt. pose proof (members_laid_out types constants t Hwf) as Hlay. pose proof (lookup_lt_Some _ _ _ Hf) as Hi. rewrite E.
  assert (Hreq : forall b it', pb_field_iter_next it0 = (Ok b, it') -> 0 <= required_field_index it') by (intros b it' H; exact (next_required _ _ _ H Hr)).
  destruct (decide (S (pos it) = length body)) as [Elast|Elast].
  - destruct (next_wraps body offs d Hbt Hlay ltac:(lia) _ it0 f H0 Hf Elast) as (it' & En & Hit' & _).
    exists false, it'. rewrite Elast, Nat.Div0.mod_same. split; [exact En|]. split; [exact Hit'|]. split; [exact (Hreq _ _ En) | discriminate].
  - destruct (lookup_lt_is_Some_2 body (S (pos it)) ltac:(lia)) as [g Hg].
    destruct (next_advances body offs d Hbt Hlay _ it0 f g H0 Hf Hg) as (it' & En & Hit' & _).
    exists true, it'. rewrite Nat.mod_small by lia. split; [exact En|]. split; [exact Hit'|]. split; [exact (Hreq _ _ En) | lia].
Qed.

(** The message has a field with a tag, or it has not. *)
Lemma pb_field_iter_find_located tg it : located it -> exists found it', pb_field_iter_find tg it = (Ok found, it') /\
  located it' /\ (it' = it \/ counted_inside it') /\
  (if found then exists f, body !! pos it' = Some f /\ tag f = tg else Forall (fun f => tag f <> tg) body).
Proof.
  intros Hit. pose proof Hit as (f & Hst). pose proof Hst as (Es & _ & _ & Hf & _). pose proof (stands_iter_pos f it Hst) as Epos.
  pose proof (body_room it Hit) as Hi. pose proof (body_wf _ _ Hf) as Hfwf.
  assert (Hw : forall i g, body !! i = Some g -> wanted tg g = (tag g =? tg)).
  { intros i g Hg. destruct (body_wf i g Hg) as (_ & _ & _ & He & _). unfold wanted. rewrite (proj2 (Z.eqb_neq _ _) He), andb_true_r. reflexivity. }
  assert (Hlen : length (start it) = S (length body)) by (rewrite Es; unfold fields_of; rewrite length_app; cbn; lia).
  unfold pb_field_iter_find. rewrite bind_get, Hlen. cbn [pb_field_iter_find_loop]. rewrite (bind_Ok _ _ _ _ _ Epos).
  change ((tag f =? tg) && negb (PB_LTYPE (type f) =? PB_LTYPE_EXTENSION)) with (wanted tg f). rewrite (Hw _ _ Hf).
  destruct (Z.eqb_spec (tag f) tg) as [Et|Et].
  { exists true, it. split; [reflexivity|]. split; [exact Hit|]. split; [left; reflexivity | exists f; auto]. }
  destruct (next_located it Hit) as (b & it1 & En & Hit1 & Hr1 & _). rewrite (bind_Ok _ _ _ _ _ En), bind_get.
  pose proof Hit1 as (_ & Ep1 & _). rewrite Ep1.
  assert (Hmod : forall k, ((pos it + k) mod length body < length body)%nat) by (intros k; apply Nat.mod_upper_bound; lia).
  assert (Hno : forall g, body !! pos it = Some g -> wanted tg g = false).
  { intros g Hg. rewrite Hf in Hg. injection Hg as <-. rewrite (Hw _ _ Hf). apply Z.eqb_neq, Et. }
  destruct (Nat.eqb_spec (S (pos it) mod length body) (pos it)) as [E|E].
  - exists false, it1. split; [reflexivity|]. rewrite E in Hit1. destruct (iter_at_inside (pos it) it1 Hit1 Hi Hr1) as [H1 H2].
    split; [exact H1|]. split; [right; exact H2|]. assert (length body = 1%nat) as Hone.
    { destruct (decide (S (pos it) < length body)%nat); [rewrite Nat.mod_small in E by lia; lia|]. assert (S (pos it) = length body) as E' by lia.
      rewrite E', Nat.Div0.mod_same in E. lia. }
    apply Forall_lookup_2. intros j g Hg. assert (j = pos it) as -> by (apply lookup_lt_Some in Hg; lia). specialize (Hno g Hg). rewrite (Hw _ _ Hg) in Hno. apply Z.eqb_neq, Hno.
  - assert (Hk : (1 < length body)%nat).
    { destruct (decide (length body = 1%nat)) as [E1|]; [|lia]. rewrite E1, Nat.mod_1_r in E. lia. }
    destruct (find_loop_correct body offs d (body_tags types constants t Hwf) (members_laid_out types constants t Hwf) ltac:(lia) tg (pos it) (length body) 1 it1)
      as (found & it' & Ef & H); [lia | lia | lia | rewrite Nat.add_1_r; exact Hit1 | | ].
    { intros j g Hj Hg. assert (j = 0%nat) as -> by lia. rewrite Nat.add_0_r, Nat.mod_small in Hg by lia. exact (Hno g Hg). }
    exists found, it'. split; [exact Ef|].
    assert (Hr' : 0 <= required_field_index it') by exact (find_loop_required _ _ _ _ _ _ Ef Hr1). destruct found.
    + destruct H as (k & g & _ & Hit' & Hg & Hwg & _). rewrite (Hw _ _ Hg) in Hwg. apply Z.eqb_eq in Hwg.
      destruct (iter_at_inside _ it' Hit' (Hmod k) Hr') as [H1 H2]. split; [exact H1|]. split; [right; exact H2|].
      pose proof Hit' as (_ & Ep & _). exists g. rewrite Ep. auto.
    + destruct H as [Hit' Hall]. destruct (iter_at_inside _ it' Hit' Hi Hr') as [H1 H2]. split; [exact H1|]. split; [right; exact H2|].
      apply Forall_lookup_2. intros j g Hg. pose proof (Forall_lookup_1 _ _ _ _ Hall Hg) as Hwg. cbn in Hwg. rewrite (Hw _ _ Hg) in Hwg. apply Z.eqb_neq, Hwg.
Qed.

(** It has no extensions. *)
Lemma find_extension_loop_none i fuel : forall k it,
  (i < length body)%nat -> (k < length body)%nat -> (length body - k <= fuel)%nat -> (pos it = (i + k) mod length body)%nat -> located it ->
  exists it', find_extension_loop fuel i it = (Ok false, it') /\ located it' /\ counted_inside it'.
Proof.
  induction fuel as [|fuel IH]; intros k it Hi Hk Hfuel Ep Hit; [lia|]. pose proof Hit as (f & Hst). pose proof Hst as (_ & _ & _ & Hf & _).
  cbn [find_extension_loop]. rewrite (bind_Ok _ _ _ _ _ (stands_iter_pos f it Hst)).
  destruct (body_wf _ _ Hf) as (_ & _ & _ & He & _). rewrite (proj2 (Z.eqb_neq _ _) He).
  destruct (next_located it Hit) as (b & it1 & En & Hit1 & Hr1 & _). rewrite (bind_Ok _ _ _ _ _ En), bind_get.
  pose proof Hit1 as (_ & Ep1 & _). rewrite Ep, mod_succ_mod, <- Nat.add_succ_r in Ep1.
  assert (Hloc : located it1 /\ counted_inside it1).
  { apply (iter_at_inside _ it1 Hit1); [apply Nat.mod_upper_bound; lia | exact Hr1]. }
  destruct (Nat.eqb_spec (pos it1) i) as [E|E]; [exists it1; auto|].
  apply (IH (S k) it1 Hi); [|lia | exact Ep1 | apply Hloc].
  destruct (decide (S k = length body)) as [El|]; [|lia]. rewrite El in Ep1.
  replace (i + length body)%nat with (i + 1 * length body)%nat in Ep1 by lia. rewrite Nat.Div0.mod_add, Nat.mod_small in Ep1 by lia. contradiction.
Qed.

Lemma find_extension_field_none it : located it -> exists it', find_extension_field it = (Ok false, it') /\ located it' /\ counted_inside it'.
Proof.
  intros Hit. pose proof (body_room it Hit) as Hi. pose proof Hit as (f & Es & _). unfold find_extension_field. rewrite bind_get.
  apply (find_extension_loop_none (pos it) _ 0); [exact Hi | lia | rewrite Es; unfold fields_of; rewrite length_app; cbn; lia | | exact Hit].
  rewrite Nat.add_0_r, Nat.mod_small by exact Hi. reflexivity.
Qed.

(** Members by the fields the iterator finds. *)
Lemma body_member i f : body !! i = Some f ->
  exists k g, t_members t !! k = Some g /\ In f (m_fields g) /\ offs !! i = Some (m_off g).
Proof.
  unfold body_of, offsets_of. revert i. induction (t_members t) as [|g ms IH]; intros i H; [discriminate|]. cbn [map concat] in *.
  destruct (decide (i < length (m_fields g))%nat) as [Hi|Hi].
  - exists 0%nat, g. rewrite lookup_app_l in H by exact Hi. rewrite lookup_app_l by (rewrite length_map; exact Hi). split; [reflexivity|].
    split; [apply list_elem_of_In, (list_elem_of_lookup_2 _ i), H|]. rewrite list_lookup_fmap, H. reflexivity.
  - rewrite lookup_app_r in H by lia. rewrite lookup_app_r by (rewrite length_map; lia). rewrite length_map. destruct (IH _ H) as (k & g' & H1 & H2 & H3). exists (S k), g'. auto.
Qed.

Lemma member_index k g f : t_members t !! k = Some g -> In f (m_fields g) ->
  exists i, body !! i = Some f /\ offs !! i = Some (m_off g).
Proof.
  intros Hg Hin. apply in_split in Hin as (pre & post & Ef).
  exists (field_index (take k (t_members t)) pre). apply (field_index_lookup t _ g (drop (S k) (t_members t)) pre f post); [|exact Ef].
  symmetry. apply take_drop_middle, Hg.
Qed.

Lemma same_tag i j f f' : body !! i = Some f -> body !! j = Some f' -> tag f = tag f' -> i = j.
Proof.
  intros Hi Hj E. destruct Hwf as (_ & _ & _ & _ & Hnd & _). eapply (NoDup_lookup _ i j (tag f) Hnd).
  - rewrite list_lookup_fmap, Hi. reflexivity.
  - rewrite list_lookup_fmap, Hj. cbn. rewrite E. reflexivity.
Qed.

Lemma find_member k g f f' it : t_members t !! k = Some g -> In f (m_fields g) -> located it -> body !! pos it = Some f' -> tag f' = tag f ->
  stands_at f it /\ pData it = d + m_off g.
Proof.
  intros Hg Hin (f1 & Hst) Hf' Et. pose proof Hst as (_ & _ & _ & Hf1 & o & Ho & HD & _).
  rewrite Hf' in Hf1. injection Hf1 as <-. destruct (member_index k g f Hg Hin) as (i & Hi & Hoff).
  pose proof (same_tag _ _ _ _ Hf' Hi Et) as <-. rewrite Hf' in Hi. injection Hi as <-. rewrite Hoff in Ho. injection Ho as <-. auto.
Qed.

Lemma inside_member k g f it : t_members t !! k = Some g -> In f (m_fields g) -> stands_at f it -> pData it = d + m_off g -> counted_inside it ->
  at_member (d + m_first g) g f it.
Proof.
  intros Hg Hin Hst HD Hc. destruct (member_range types constants t Hwf k g Hg) as (Hm & _).
  destruct (member_room types constants g f Hm Hin) as (_ & Hso & _). split; [exact (stands_iter_pos f it Hst)|].
  pose proof Hst as (_ & _ & _ & Hf & _). rewrite (Hc f Hf), HD, Hso. unfold m_first. lia.
Qed.
End iterator.

(** ** Unions *)

Section message.
Context {CB : Type} {ICB : InputCallback CB} {MA : Machine}.
Notation D := (M (dstate CB)).
Context (types : Z -> option message_type) (descriptors : Z -> option (list pb_field)) (constants : mem) (rfuel : nat).
Context (decode_noinit : list pb_field -> Z -> D unit).
Context (sub : level -> Z -> list byte -> hprop) (good : Z -> Z -> Prop) (budget : Z).
Context {HS : Submessages descriptors constants rfuel decode_noinit sub good budget}.
Context (Hsmall : forall n, available n -> n < 2 ^ 32) (Hrfuel : (0 < rfuel)%nat).
Context (t : message_type) (d : Z) (Hwf : type_wf types constants t) (Hd : 0 < d).
Context (Hgood : forall f, In f (body_of t) -> is_message f = true -> is_callback f = false -> good (ptr f) (data_size f)).
Notation stands_at := (stands_at t d).
Notation located := (located t d).
Notation counted_inside := (counted_inside t).
Notation field_owns := (field_owns sub).

(** The field of a union that is set is released. *)
Lemma release_set_wp K g f it l hd data s (Φ : option unit -> pb_istream CB -> hprop) :
  let b := d + m_first g in
  member_wf types constants g -> In f (m_fields g) -> at_member b g f it -> is_oneof f = true -> m_soff g <= -4 ->
  zlen hd = - m_soff g -> zlen data = m_len g -> le_combine (slice hd 0 4) = tag f ->
  b ↦∗ hd ⊢ (b - m_soff g) ↦∗ data -∗ field_owns l f 0 data -∗
    (∀ data', ⌞zlen data' = m_len g⌟ -∗ b ↦∗ hd -∗ (b - m_soff g) ↦∗ data' -∗ Φ (Some tt) s) -∗
  wp (pb_release_single_field descriptors rfuel it) Φ K s.
Proof.
  intros b Hg Hin Hit Ho Hs Hhd Hdata Htag. iIntros "Hhd Ha HP HΦ". destruct rfuel as [|n] eqn:Efuel; [lia|].
  cbn [pb_release_single_field]. iApply wp_bind. iApply wp_pos_of; [apply Hit|]. fold (is_oneof f) (is_pointer f). rewrite Ho.
  iApply wp_bind. iApply wp_bind. iApply (wp_count K g f b it Hit hd s with "Hhd"); [exact Hhd | exact Hs|]. iIntros "Hhd". iApply wp_ret.
  rewrite Htag, Z.eqb_refl. cbn [negb].
  assert (Hrel : forall l a d size s (Φ : option unit -> pb_istream CB -> hprop),
    region (sub l a) d size ⊢ (region (sub Clear a) d size -∗ Φ (Some tt) s) -∗
    wp (release_submessage descriptors (pb_release_single_field descriptors n) a d) Φ K s).
  { exact (sub_release_item (sub := sub) K). }
  pose proof (oneof_not_repeated f Ho) as Er.
  iApply (release_field_wp K types constants descriptors sub (sub_nothing (sub := sub)) _ Hrel g f b it Hg Hin Hit l hd data 0 with "Hhd Ha HP");
    [exact Hhd | exact Hdata | intros E; congruence | lia|].
  iIntros (hd' data') "%Hz Hhd Ha HP". destruct Hz as (_ & Hz & Heq). rewrite (Heq Er).
  iDestruct (field_owns_nothing sub f _ data' (sub_nothing (sub := sub)) Clear eq_refl with "HP") as "_".
  iApply ("HΦ" with "[//] Hhd Ha").
Qed.

(** Another field of the union is released before [f] takes its place. *)
Lemma pb_release_union_field_wp K k g f it hd data s (Φ : option pb_field_iter -> pb_istream CB -> hprop) :
  let b := d + m_first g in
  t_members t !! k = Some g -> union_wf g -> is_union g = true -> In f (m_fields g) -> stands_at f it -> pData it = d + m_off g -> counted_inside it ->
  zlen hd = - m_soff g -> zlen data = m_len g ->
  b ↦∗ hd ⊢ (b - m_soff g) ↦∗ data -∗ parts_own sub Filled g hd data -∗
    (∀ it' hd' data', ⌞stands_at f it' /\ pData it' = (d + m_off g)%Z /\ counted_inside it' /\ zlen hd' = - m_soff g /\ zlen data' = m_len g⌟ -∗
      b ↦∗ hd' -∗ (b - m_soff g) ↦∗ data' -∗ ready sub f hd' data' -∗ Φ (Some it') s) -∗
  wp (pb_release_union_field descriptors rfuel it) Φ K s.
Proof.
  intros b Hk (_ & Hs & Hu) Hun Hin Hst HD Hins Hhd Hdata. destruct (member_range types constants t Hwf k g Hk) as (Hg & _).
  pose proof (inside_member types constants t d Hwf k g f it Hk Hin Hst HD Hins) as Hit.
  pose proof (member_tags types constants t k g Hwf Hk) as Hnd.
  assert (Htag : forall h, In h (m_fields g) -> 0 < tag h) by (intros h Hh; destruct (member_room types constants g h Hg Hh) as ((? & _) & _); lia).
  iIntros "Hhd Ha HP HΦ". unfold pb_release_union_field.
  iApply wp_bind. iApply (wp_count K g f b it Hit hd s with "Hhd"); [exact Hhd | exact Hs|]. iIntros "Hhd".
  iApply wp_bind. iApply wp_pos_of; [apply Hit|]. cbv zeta. set (which := le_combine (slice hd 0 4)).
  unfold parts_own. cbv zeta. fold which. rewrite Hun.
  destruct (Z.eqb_spec which 0) as [E0|E0].
  { iApply wp_ret. iApply ("HΦ" with "[//] Hhd Ha"). iRight. destruct (field_set which (m_fields g)) as [h|] eqn:Eset.
    { apply field_set_In in Eset as [Hh Et]. specialize (Htag h Hh). lia. }
    iDestruct "HP" as "%HP". iPureIntro. destruct HP as [_ HP]. fold which. specialize (Htag f Hin). split; [lia|]. intros Hp. apply HP. exists f. auto. }
  destruct (Z.eqb_spec which (tag f)) as [E1|E1].
  { iApply wp_ret. iApply ("HΦ" with "[//] Hhd Ha"). iLeft. rewrite (field_set_unique g f which Hnd Hin E1). iFrame. done. }
  destruct (field_set which (m_fields g)) as [h|] eqn:Eset; [|iDestruct "HP" as "[%HP _]"; contradiction].
  apply field_set_In in Eset as [Hh Et].
  destruct (proj1 (Forall_forall _ _) Hu h (proj2 (list_elem_of_In _ _) Hh)) as (Hoh & _).
  (* to the old field *)
  destruct (pb_field_iter_find_located types constants t d Hwf Hd which it (ex_intro _ f Hst)) as (found & it1 & En1 & Hloc1 & Hc1 & H1).
  destruct (member_index t k g h Hk Hh) as (ih & Hih & _). destruct found; [|exfalso; exact (Forall_lookup_1 _ _ _ _ H1 Hih Et)].
  destruct H1 as (h' & Hh' & Et'). destruct (find_member types constants t d Hwf k g h h' it1 Hk Hh Hloc1 Hh' ltac:(lia)) as [Hst1 HD1].
  assert (Hins1 : counted_inside it1) by (destruct Hc1 as [->|Hc1]; assumption).
  iApply wp_bind. iApply (wp_local K _ _ true it1); [exact En1|]. cbn [negb].
  iApply wp_bind. iApply (release_set_wp K g h it1 Filled hd data with "Hhd Ha HP");
    [exact Hg | exact Hh | exact (inside_member types constants t d Hwf k g h it1 Hk Hh Hst1 HD1 Hins1) | exact Hoh | exact Hs | exact Hhd | exact Hdata | symmetry; exact Et|].
  iIntros (data1) "%Hz1 Hhd Ha".
  (* and back *)
  destruct (pb_field_iter_find_located types constants t d Hwf Hd (tag f) it1 Hloc1) as (found & it2 & En2 & Hloc2 & Hc2 & H2).
  destruct (member_index t k g f Hk Hin) as (ifd & Hif & _). destruct found; [|exfalso; exact (Forall_lookup_1 _ _ _ _ H2 Hif eq_refl)].
  destruct H2 as (f' & Hf' & Etf). destruct (find_member types constants t d Hwf k g f f' it2 Hk Hin Hloc2 Hf' Etf) as [Hst2 HD2].
  assert (Hins2 : counted_inside it2) by (destruct Hc2 as [->|Hc2]; assumption).
  iApply wp_bind. iApply (wp_local K _ _ true it2); [exact En2|]. cbn [negb].
  iApply wp_bind. iApply wp_pos_of; [exact (stands_iter_pos t d f it2 Hst2)|]. fold (is_pointer f). iApply wp_bind. destruct (is_pointer f) eqn:Ep.
  - destruct (member_room types constants g f Hg Hin) as (_ & _ & _ & Hrp & _). specialize (Hrp Ep). unfold put_ptr.
    iApply (wp_put_int K (b - m_soff g) data1 0 with "Ha"); [unfold b, m_first; lia | lia | cbn; lia|]. iIntros "Ha". iApply wp_ret.
    iApply ("HΦ" with "[%] Hhd Ha"); [split; [exact Hst2|]; split; [exact HD2|]; split; [exact Hins2|]; split; [exact Hhd|]; rewrite zlen_splice; rewrite ?zlen_le_split; lia|].
    iRight. iPureIntro. split; [exact E1|]. intros _. unfold pointer_of. rewrite (le_combine_splice data1 0 8) by lia. reflexivity.
  - iApply wp_ret. iApply wp_ret. iApply ("HΦ" with "[%] Hhd Ha"); [split; [exact Hst2|]; split; [exact HD2|]; split; [exact Hins2|]; split; [exact Hhd | exact Hz1]|].
    iRight. iPureIntro. split; [exact E1 | congruence].
Qed.

(** ** Fields *)

Context (funcs_decode : Z -> pb_field -> Z -> D unit) (Hcallbacks : callbacks_ok funcs_decode).
Notation PB_DECODERS := (PB_DECODERS descriptors constants rfuel decode_noinit).

(** A field by the way it is allocated. *)
Definition decode_by_kind (wire_type : Z) (it : pb_field_iter) (f : pb_field) : D unit :=
  if is_static f then decode_static_field descriptors constants rfuel decode_noinit wire_type it
  else if is_pointer f then decode_pointer_field descriptors constants rfuel decode_noinit wire_type it
  else if is_callback f then decode_callback_field funcs_decode wire_type it
  else return_error "invalid field type".

Lemma field_decoder f : field_wf types constants f -> exists func, PB_DECODERS !! Z.to_nat (PB_LTYPE (type f)) = Some func.
Proof.
  intros (_ & _ & _ & _ & Hl & _). apply lookup_lt_is_Some_2. cbn [length PbDecode.PB_DECODERS].
  assert (0 <= PB_LTYPE (type f)) by (unfold PB_LTYPE; apply Z.land_nonneg; right; lia). change PB_LTYPE_FIXED_LENGTH_BYTES with 10 in Hl. lia.
Qed.

Lemma otherwise_pointer f : field_wf types constants f -> is_static f = false -> is_callback f = false -> is_pointer f = true.
Proof. intros (_ & _ & [H|[H|[H _]]] & _) Es Ec; [congruence | exact H | congruence]. Qed.

(** An array that has no counter in the structure. *)
Definition fixed_count (f : pb_field) : bool := is_repeated f && (size_offset f =? 0).

Lemma counter_hd c hd : c ↦∗ hd ⊢ counter c (zlen hd) (le_combine (slice hd 0 4)).
Proof. iIntros "H". iExists hd. iFrame. done. Qed.

Section one.
Context (k : nat) (g : member) (f : pb_field) (Hk : t_members t !! k = Some g) (Hin : In f (m_fields g)).
Notation b := (d + m_first g).
Notation owned_by := (fun l => region (member_owns sub l g) b (m_size g)).

Lemma one_good : is_callback f = false -> is_message f = true -> good (ptr f) (data_size f).
Proof. intros Ec Em. apply Hgood; [exact (body_In t k g f Hk Hin) | exact Em | exact Ec]. Qed.

(** An array, counted at [c]. *)
Lemma array_field_wp K wire_type it n c cnt data s (Φ : option unit -> pb_istream CB -> hprop) :
  iter_pos it = (Ok f, it) -> pData it = b - m_soff g -> pSize it = c -> is_repeated f = true -> is_callback f = false ->
  i_bytes_left s <= budget -> 4 <= n -> zlen data = m_len g ->
  counter c n cnt ⊢ (b - m_soff g) ↦∗ data -∗ field_owns Filled f cnt data -∗
    (∀ o s' cnt' data', ⌞zlen data' = m_len g⌟ -∗ counter c n cnt' -∗ (b - m_soff g) ↦∗ data' -∗ field_owns (outcome_level o) f cnt' data' -∗ Φ o s') -∗
    wp (decode_by_kind wire_type it f) Φ K s.
Proof.
  intros Epos ED ES Er Ec Hb Hn Hdata. destruct (member_range types constants t Hwf k g Hk) as (Hg & _).
  destruct (member_room types constants g f Hg Hin) as (Hf & _ & Hrs & Hrp & _). destruct (field_decoder f Hf) as [func Hfunc].
  pose proof (one_good Ec) as Hgf. iIntros "Hc Ha HP HΦ". unfold decode_by_kind. destruct (is_static f) eqn:Est.
  - specialize (Hrs eq_refl). rewrite Er in Hrs.
    iApply (static_repeated_field types descriptors constants rfuel decode_noinit sub good budget Hsmall f Hf Hgf func Hfunc K wire_type (m_len g) n (b - m_soff g) c it cnt with "Hc [Ha HP]");
      [exact Epos | exact ES | exact ED | exact Est | exact Er | exact Hb | rewrite (static_item_size f Est); lia | exact Hn | iExists data; iFrame; done|].
    iIntros (o s' cnt') "Hc (%data' & %Hz & Ha & HP)". iApply ("HΦ" with "[//] Hc Ha HP").
  - pose proof (otherwise_pointer f Hf Est Ec) as Ep. rewrite Ep. specialize (Hrp Ep).
    iApply (pointer_repeated_field types descriptors constants rfuel decode_noinit sub good budget Hsmall f Hf Hgf func Hfunc Ep Er K wire_type n (b - m_soff g) c it cnt data with "Hc Ha HP");
      [exact Epos | exact ES | exact ED | exact Hb | lia | exact Hn|].
    iIntros (o s' cnt' data') "%Hz Hc Ha HP". iApply ("HΦ" with "[%] Hc Ha HP"). lia.
Qed.

(** A value that is not an array, nor in a union. *)
Lemma value_field_wp K wire_type it hd cnt data s (Φ : option unit -> pb_istream CB -> hprop) :
  at_member b g f it -> is_repeated f = false -> is_oneof f = false -> is_callback f = false ->
  i_bytes_left s <= budget -> zlen hd = - m_soff g -> zlen data = m_len g ->
  b ↦∗ hd ⊢ (b - m_soff g) ↦∗ data -∗ field_owns Filled f cnt data -∗
    (∀ o s', decoded sub f g b o cnt -∗ Φ o s') -∗ wp (decode_by_kind wire_type it f) Φ K s.
Proof.
  intros Hit Er Ho Ec Hb Hhd Hdata. destruct (member_range types constants t Hwf k g Hk) as (Hg & _).
  destruct (member_room types constants g f Hg Hin) as (Hf & _). destruct (field_decoder f Hf) as [func Hfunc].
  pose proof (one_good Ec) as Hgf. iIntros "Hhd Ha HP HΦ". unfold decode_by_kind. destruct (is_static f) eqn:Est.
  - iApply (static_value types descriptors constants rfuel decode_noinit sub good budget Hsmall f Hf Hgf func Hfunc g Hg Hin b it Hit Er Hrfuel K wire_type hd data cnt with "Hhd Ha HP HΦ"); assumption.
  - pose proof (otherwise_pointer f Hf Est Ec) as Ep. rewrite Ep.
    iApply (pointer_value_field types descriptors constants rfuel decode_noinit sub good budget Hsmall f Hf Hgf func Hfunc g Hg Hin b it Hit Er Hrfuel K wire_type hd data cnt with "Hhd Ha HP HΦ");
      [exact Ep | exact Hb | exact Hhd | exact Hdata | congruence].
Qed.

(** A value in a union that is ready for it. *)
Lemma union_field_wp K wire_type it hd data s (Φ : option unit -> pb_istream CB -> hprop) :
  at_member b g f it -> is_oneof f = true -> is_callback f = false -> m_soff g <= -4 ->
  i_bytes_left s <= budget -> zlen hd = - m_soff g -> zlen data = m_len g ->
  b ↦∗ hd ⊢ (b - m_soff g) ↦∗ data -∗ ready sub f hd data -∗
    (∀ o s', decoded sub f g b o 0 -∗ Φ o s') -∗ wp (decode_by_kind wire_type it f) Φ K s.
Proof.
  intros Hit Ho Ec Hs Hb Hhd Hdata. destruct (member_range types constants t Hwf k g Hk) as (Hg & _).
  destruct (member_room types constants g f Hg Hin) as (Hf & _). destruct (field_decoder f Hf) as [func Hfunc].
  pose proof (one_good Ec) as Hgf. pose proof (oneof_not_repeated f Ho) as Er. iIntros "Hhd Ha HP HΦ". unfold decode_by_kind. destruct (is_static f) eqn:Est.
  - iApply (static_oneof types descriptors constants rfuel decode_noinit sub good budget Hsmall f Hf Hgf func Hfunc g Hg Hin b it Hit Er Hrfuel K wire_type hd data with "Hhd Ha HP HΦ"); assumption.
  - pose proof (otherwise_pointer f Hf Est Ec) as Ep. rewrite Ep.
    iAssert (⌞pointer_of data <> 0 -> le_combine (slice hd 0 4) = tag f⌟ ∗ field_owns Filled f 0 data)%I with "[HP]" as "[%Hset HP]".
    { iDestruct "HP" as "[[%E HP]|%E]"; [iFrame; iPureIntro; auto|]. destruct E as [_ E]. specialize (E Ep).
      iSplitR; [iPureIntro; congruence | iApply (null_pointer sub f Er Filled 0 data Ep E)]. }
    iApply (pointer_value_field types descriptors constants rfuel decode_noinit sub good budget Hsmall f Hf Hgf func Hfunc g Hg Hin b it Hit Er Hrfuel K wire_type hd data 0 with "Hhd Ha HP HΦ");
      [exact Ep | exact Hb | exact Hhd | exact Hdata | auto].
Qed.

Lemma callback_field_wp K wire_type it s (Φ : option unit -> pb_istream CB -> hprop) :
  iter_pos it = (Ok f, it) -> pData it = b - m_soff g -> is_callback f = true ->
  raw (b - m_soff g) (m_len g) ⊢ (∀ o s', raw (b - m_soff g) (m_len g) -∗ Φ o s') -∗ wp (decode_by_kind wire_type it f) Φ K s.
Proof.
  intros Epos ED Ec. destruct (member_range types constants t Hwf k g Hk) as (Hg & _).
  destruct (member_room types constants g f Hg Hin) as (_ & _ & _ & _ & Hrc). specialize (Hrc Ec).
  assert (Est : is_static f = false) by (destruct (is_static f) eqn:E; [rewrite (static_not_callback f E) in Ec; discriminate | reflexivity]).
  assert (Ep : is_pointer f = false) by (destruct (is_pointer f) eqn:E; [rewrite (pointer_not_callback f E) in Ec; discriminate | reflexivity]).
  unfold decode_by_kind. rewrite Est, Ep, Ec. apply (callback_field funcs_decode Hcallbacks K wire_type f); assumption.
Qed.

(** The iterator when the field has been decoded, and its counter. *)
Definition tracks (c : Z) (it : pb_field_iter) : Prop :=
  stands_at f it /\ pData it = d + m_off g /\ (if fixed_count f then pSize it = c else counted_inside it).

(** A member of which only one field is. *)
Lemma single_field_wp K wire_type c cnt it s (Φ : option unit -> pb_istream CB -> hprop) :
  single_wf g f -> tracks c it -> i_bytes_left s <= budget ->
  counter c 4 cnt ⊢ region (member_owns sub Filled g) b (m_size g) -∗
    (∀ o s' cnt', counter c 4 cnt' -∗ region (member_owns sub (outcome_level o) g) b (m_size g) -∗ Φ o s') -∗
    wp (decode_by_kind wire_type it f) Φ K s.
Proof.
  intros Hsing (Hst & HD & Hcnt) Hb. destruct (member_range types constants t Hwf k g Hk) as (Hg & _). pose proof Hg as (Hs0 & _).
  pose proof (stands_iter_pos t d f it Hst) as Epos. pose proof Hsing as (Ef & Ho & Hlen & Hrep).
  destruct (member_room types constants g f Hg Hin) as (_ & Hso & _).
  assert (ED : pData it = b - m_soff g) by (rewrite HD; unfold m_first; lia).
  rewrite (single_region types constants sub g f Filled b Hg Hsing). iIntros "Hc (%hd & %data & [%Hhd %Hdata] & Hhd & Ha & HP) HΦ".
  assert (Hclose : forall o, (∃ hd data, ⌞zlen hd = - m_soff g /\ zlen data = m_len g⌟ ∗ b ↦∗ hd ∗ (b - m_soff g) ↦∗ data ∗
      field_owns (outcome_level (o : option unit)) f (le_combine (slice hd 0 4)) data) ⊢ region (member_owns sub (outcome_level o) g) b (m_size g)).
  { intros o. rewrite (single_region types constants sub g f _ b Hg Hsing). reflexivity. }
  destruct (is_callback f) eqn:Ec.
  { assert (Hraw : forall l cnt data, field_owns l f cnt data ⊣⊢ emp).
    { intros l v data'. unfold PbTypes.field_owns. destruct (is_static f) eqn:E1; [rewrite (static_not_callback f E1) in Ec; discriminate|].
      destruct (is_pointer f) eqn:E2; [rewrite (pointer_not_callback f E2) in Ec; discriminate | reflexivity]. }
    rewrite Hraw. iApply (callback_field_wp with "[Ha HP]"); [exact Epos | exact ED | exact Ec | iExists data; iFrame; done|].
    iIntros (o s') "(%data' & %Hz & Ha & HP)". iApply ("HΦ" with "Hc"). iApply Hclose. iExists hd, data'. rewrite Hraw. iFrame. done. }
  destruct (is_repeated f) eqn:Er.
  - destruct (Z.eqb_spec (size_offset f) 0) as [E0|E0]; unfold fixed_count in Hcnt; rewrite Er in Hcnt; cbn [andb] in Hcnt.
    + rewrite (proj2 (Z.eqb_eq _ _) E0) in Hcnt. destruct (Hrep eq_refl) as [?|(_ & Est & Em & _)]; [lia|].
      assert (Hraw : forall l cnt data, field_owns l f cnt data ⊣⊢ emp).
      { intros l v data'. unfold PbTypes.field_owns. rewrite Est, Em. reflexivity. }
      rewrite (Hraw _ _ data). iApply (array_field_wp K wire_type it 4 c cnt data with "Hc Ha [HP]"); [exact Epos | exact ED | exact Hcnt | exact Er | exact Ec | exact Hb | lia | exact Hdata | rewrite Hraw; iExact "HP"|].
      iIntros (o s' cnt' data') "%Hz Hc Ha HP". iApply ("HΦ" with "Hc"). iApply Hclose. iExists hd, data'. rewrite !Hraw. iFrame. done.
    + rewrite (proj2 (Z.eqb_neq _ _) E0) in Hcnt. assert (Hs4 : m_soff g <= -4) by (destruct (Hrep eq_refl) as [?|(? & _)]; lia).
      pose proof (inside_member types constants t d Hwf k g f it Hk Hin Hst HD Hcnt) as (_ & _ & ES).
      iDestruct (counter_hd with "Hhd") as "Hhd".
      iApply (array_field_wp K wire_type it (zlen hd) b _ data with "Hhd Ha HP"); [exact Epos | exact ED | exact ES | exact Er | exact Ec | exact Hb | lia | exact Hdata|].
      iIntros (o s' cnt' data') "%Hz (%hd' & [%Hz1 <-] & Hhd) Ha HP". iApply ("HΦ" with "Hc"). iApply Hclose. iExists hd', data'. iFrame. iPureIntro. lia.
  - unfold fixed_count in Hcnt. rewrite Er in Hcnt. cbn [andb] in Hcnt.
    iApply (value_field_wp with "Hhd Ha HP");
      [exact (inside_member types constants t d Hwf k g f it Hk Hin Hst HD Hcnt) | exact Er | exact Ho | exact Ec | exact Hb | exact Hhd | exact Hdata|].
    iIntros (o s') "(%hd' & %data' & %Hz & Hhd & Ha & HP)". destruct Hz as [Hz _]. iApply ("HΦ" with "Hc"). iApply Hclose. iExists hd', data'. iFrame "Hhd Ha".
    iSplitR; [done|]. iApply (field_owns_count with "HP"). exact Er.
Qed.

(** Any field. *)
Lemma decode_field_wp K wire_type c cnt it s (Φ : option pb_field_iter -> pb_istream CB -> hprop) :
  tracks c it -> i_bytes_left s <= budget ->
  counter c 4 cnt ⊢ region (member_owns sub Filled g) b (m_size g) -∗
    (∀ o s' cnt', ⌞forall it', o = Some it' -> tracks c it'⌟ -∗ counter c 4 cnt' -∗
      region (member_owns sub (outcome_level o) g) b (m_size g) -∗ Φ o s') -∗
    wp (decode_field descriptors constants funcs_decode rfuel decode_noinit wire_type it) Φ K s.
Proof.
  intros Htr Hb. pose proof Htr as (Hst & HD & Hcnt). destruct (member_range types constants t Hwf k g Hk) as (Hg & _). pose proof Hg as (Hs0 & Hl0 & _).
  pose proof (stands_iter_pos t d f it Hst) as Epos. iIntros "Hc H HΦ". unfold decode_field.
  iApply wp_bind. iApply wp_pos_of; [exact Epos|]. fold (is_oneof f).
  destruct (union_of types constants g Hg) as [(f' & Hsing & Hun)|[Hu Hun]].
  - pose proof Hsing as (Ef & Ho & _). assert (f' = f) as -> by (pose proof Hin as Hin'; rewrite Ef in Hin'; destruct Hin' as [|[]]; assumption). rewrite Ho.
    iApply wp_bind. iApply wp_ret. iApply wp_bind. iApply wp_pos_of; [exact Epos|]. fold (is_static f) (is_pointer f) (is_callback f) (decode_by_kind wire_type it f).
    iApply wp_bind. iApply (single_field_wp K wire_type c cnt with "Hc H"); [exact Hsing | exact Htr | exact Hb|].
    iIntros (o s' cnt') "Hc H". destruct o as [u|]; [iApply wp_ret; iApply ("HΦ" $! (Some it) with "[%] Hc H"); intros ? [= <-]; exact Htr | iApply ("HΦ" $! None with "[%] Hc H"); discriminate].
  - pose proof Hu as (_ & Hs & Hall). destruct (proj1 (Forall_forall _ _) Hall f (proj2 (list_elem_of_In _ _) Hin)) as (Ho & Ec & _). rewrite Ho.
    assert (Hfix : fixed_count f = false) by (unfold fixed_count; rewrite (oneof_not_repeated f Ho); reflexivity). rewrite Hfix in Hcnt.
    unfold member_owns. rewrite !member_region by lia. iDestruct "H" as "(%hd & %data & [%Hhd %Hdata] & Hhd & Ha & HP)".
    iApply wp_bind. iApply (pb_release_union_field_wp K k g f it hd data with "Hhd Ha HP"); [exact Hk | exact Hu | exact Hun | exact Hin | exact Hst | exact HD | exact Hcnt | exact Hhd | exact Hdata|].
    iIntros (it' hd' data') "%Hp Hhd Ha HP". destruct Hp as (Hst' & HD' & Hcnt' & Hhd' & Hdata').
    iApply wp_bind. iApply wp_pos_of; [exact (stands_iter_pos t d f it' Hst')|]. fold (is_static f) (is_pointer f) (is_callback f) (decode_by_kind wire_type it' f).
    iApply wp_bind. iApply (union_field_wp with "Hhd Ha HP");
      [exact (inside_member types constants t d Hwf k g f it' Hk Hin Hst' HD' Hcnt') | exact Ho | exact Ec | exact Hs | exact Hb | exact Hhd' | exact Hdata'|].
    iIntros (o s') "(%hd2 & %data2 & %Hz & Hhd & Ha & HP)". destruct Hz as [Hz Htag]. specialize (Htag Ho).
    pose proof (field_set_unique g f _ (member_tags types constants t k g Hwf Hk) Hin Htag) as Eset.
    iAssert (region (member_split (parts_own sub (outcome_level o) g) g) b (m_size g)) with "[Hhd Ha HP]" as "H".
    { rewrite member_region by lia. iExists hd2, data2. iFrame "Hhd Ha". iSplitR; [done|]. unfold parts_own. cbv zeta. rewrite Hun, Eset. iExact "HP". }
    destruct o as [u|].
    + iApply wp_ret. iApply ("HΦ" $! (Some it') with "[%] Hc H"). intros ? [= <-]. unfold tracks. rewrite Hfix. auto.
    + iApply ("HΦ" $! None with "[%] Hc H"). discriminate.
Qed.
End one.
End message.
