(* ===== verification/PbLoop.v ===== *)
(** The loop of [pb_decode_noinit] over the fields of a message, and what is
    checked behind it: whatever the input, the message stays what its type says. *)
From Stdlib Require Import ZArith Lia Bool String.
From coqutil Require Import Byte Word.LittleEndianList.
From stdpp Require Import base list numbers gmap.
From iris.bi Require Import bi.
From iris.proofmode Require Import proofmode.
From S2P Require Import Prelude PbStream PbCommon PbCodec PbSpec PbMemory PbEncode PbAdvance PbHeap PbDecode PbSep PbTypes PbRelease PbItem PbField PbMessage.
#[local] Unset SsrRewrite.
Local Open Scope Z_scope.
Local Open Scope c_scope.

(** ** Tags *)

Section tags.
Context {CB : Type} {ICB : InputCallback CB} {MA : Machine}.

Lemma pb_decode_tag_range (s s' : pb_istream CB) wt tg eof : pb_decode_tag s = (Ok (wt, tg), s', eof) -> 0 <= tg < 2 ^ 29.
Proof.
  unfold pb_decode_tag. destruct (pb_decode_varint32_eof s) as [[[v| |] s1] e] eqn:E; [|discriminate..].
  assert (Hv : in_word 32 v).
  { apply (pb_decode_varint32_range s v s1). unfold pb_decode_varint32. rewrite E. reflexivity. }
  destruct (v =? 0); [discriminate|]. intros [= _ <- _ _]. unfold in_word in Hv. rewrite Z.shiftr_div_pow2 by lia.
  change (2 ^ 3) with 8. split; [apply Z.div_pos; lia | apply Z.div_lt_upper_bound; lia].
Qed.

(** The next tag takes some of the input. *)
Lemma wp_next_tag K s (Φ : option (option (Z * Z)) -> pb_istream CB -> hprop) :
  (∀ o s', ⌞forall wt tg, o = Some (Some (wt, tg)) -> i_bytes_left s' < i_bytes_left s /\ 0 <= tg < 2 ^ 29⌟ -∗ Φ o s') ⊢ wp next_tag Φ K s.
Proof.
  set (m := fun s : pb_istream CB => match pb_decode_tag s with
    | (Ok p, s, _) => (Ok (Some p), s) | (Fail, s, eof) => (if eof then Ok None else Fail, s) | (Stuck, s, _) => (Stuck, s) end).
  iIntros "HΦ". iApply (wp_ext K _ (on_istream m)).
  { intros h. unfold next_tag, on_istream, m. cbn [d_stream d_heap]. destruct (pb_decode_tag s) as [[[p| |] s1] e]; reflexivity. }
  iApply (wp_istream K _ (fun r s' => forall wt tg, r = Ok (Some (wt, tg)) -> i_bytes_left s' < i_bytes_left s /\ 0 <= tg < 2 ^ 29)).
  - intros Hs. pose proof (pb_decode_tag_advances K s Hs) as H. unfold m. destruct (pb_decode_tag s) as [[[[wt tg]| |] s1] e] eqn:E; cbn [fst snd].
    + destruct H as (_ & H1 & H2). split; [discriminate|]. split; [exact H1|]. intros ? ? [= <- <-]. split; [apply (H2 _ eq_refl) | exact (pb_decode_tag_range _ _ _ _ _ E)].
    + destruct H as (_ & H1 & _). split; [destruct e; discriminate|]. split; [exact H1 | destruct e; discriminate].
    + destruct H as (H1 & _). contradiction.
  - iIntros (o s') "%HR". iApply "HΦ". iPureIntro. intros wt tg ->. exact (HR wt tg eq_refl).
Qed.
End tags.

(** ** The loop *)

Section loop.
Context {CB : Type} {ICB : InputCallback CB} {MA : Machine}.
Notation D := (M (dstate CB)).
Context (types : Z -> option message_type) (descriptors : Z -> option (list pb_field)) (constants : mem) (rfuel : nat).
Context (decode_noinit : list pb_field -> Z -> D unit).
Context (sub : level -> Z -> list byte -> hprop) (good : Z -> Z -> Prop) (budget : Z).
Context {HS : Submessages descriptors constants rfuel decode_noinit sub good budget}.
Context (Hsmall : forall n, available n -> n < 2 ^ 32) (Hrfuel : (0 < rfuel)%nat).
Context (t : message_type) (d : Z) (Hwf : type_wf types constants t) (Hd : 0 < d).
Context (Hgood : forall f, In f (body_of t) -> is_message f = true -> is_callback f = false -> good (ptr f) (data_size f)).
Context (funcs_decode : Z -> pb_field -> Z -> D unit) (Hcallbacks : callbacks_ok funcs_decode).
Context (type_decode : Z -> Z -> Z -> Z -> D unit).
Notation body := (body_of t).
Notation located := (located t d).
Notation counted_inside := (counted_inside t).
Notation decode_fields := (decode_fields descriptors constants funcs_decode type_decode rfuel decode_noinit).

Definition whole (l : level) : hprop := region (struct (fun _ => member_owns sub l) t) d (t_size t).

Lemma whole_broken : whole Filled ⊢ whole Broken.
Proof.
  apply region_mono. intros bs Hbs. apply (struct_mono types constants t Hwf); [|exact Hbs]. intros k g _ bs' _.
  apply member_owns_mono; [exact (sub_mono (sub := sub)) | reflexivity].
Qed.

(** A member that is decoded by itself. *)
Lemma whole_member k g : t_members t !! k = Some g ->
  whole Filled ⊢ region (member_owns sub Filled g) (d + m_first g) (m_size g) ∗
    (∀ o : option pb_field_iter, region (member_owns sub (outcome_level o) g) (d + m_first g) (m_size g) -∗ whole (outcome_level o)).
Proof.
  intros Hk. iIntros "H". iDestruct (struct_access types constants t Hwf _ d k g Hk with "H") as "[$ Hclose]".
  iIntros (o) "Hg". iDestruct ("Hclose" with "Hg") as "H". iApply (region_mono with "H"). intros bs Hbs.
  apply (struct_mono types constants t Hwf); [|exact Hbs]. intros k' g' Hg' bs' _. destruct (decide (k' = k)) as [->|].
  - assert (g' = g) as -> by congruence. reflexivity.
  - apply member_owns_mono; [exact (sub_mono (sub := sub)) | destruct o; reflexivity].
Qed.

(** The iterator between two fields, and the other variables. *)
Definition counted_somewhere (c : Z) (it : pb_field_iter) : Prop := forall f, body !! pos it = Some f ->
  pSize it = pData it + size_offset f \/ fixed_count f = true /\ pSize it = c.
Definition vars_ok (c : Z) (v : decode_vars) : Prop :=
  located (v_iter v) /\ counted_somewhere c (v_iter v) /\ (forall i, v_fixed_count_field v = Some i -> is_Some (body !! i)) /\
  length (v_fields_seen v) = 2%nat /\ (v_extension_range_start v = 0 \/ v_extension_range_start v = 2 ^ 32 - 1).

Lemma inside_somewhere c it : counted_inside it -> counted_somewhere c it.
Proof. intros H f Hf. left. exact (H f Hf). Qed.

Lemma tracks_somewhere c k g f it : t_members t !! k = Some g -> In f (m_fields g) -> tracks t d g f c it -> located it /\ counted_somewhere c it.
Proof.
  intros Hk Hin (Hst & HD & Hc). split; [exists f; exact Hst|]. intros f' Hf'. pose proof Hst as (_ & _ & _ & Hf & _). rewrite Hf in Hf'. injection Hf' as <-.
  destruct (fixed_count f) eqn:E; [right; auto | left; exact (Hc f Hf)].
Qed.

(** A field that the message does not have. *)
Lemma decode_unknown_wp K c tg wire_type v s (Φ : option decode_vars -> pb_istream CB -> hprop) : vars_ok c v -> tg < 2 ^ 29 ->
  (∀ o s', ⌞forall v', o = Some v' -> vars_ok c v'⌟ -∗ Φ o s') ⊢ wp (decode_unknown descriptors constants funcs_decode type_decode rfuel decode_noinit tg wire_type v) Φ K s.
Proof.
  intros (Hloc & Hsome & Hfix & Hseen & Hext) Htg. iIntros "HΦ". unfold decode_unknown. iApply wp_bind.
  assert (Hskip : forall v', vars_ok c v' -> (∀ o s', ⌞forall v', o = Some v' -> vars_ok c v'⌟ -∗ Φ o s') ⊢
    wp ((if false then ret tt else on_istream (pb_skip_field wire_type)) ;; ret v') Φ K s).
  { intros v' Hv'. iIntros "HΦ". iApply wp_bind. iApply (wp_istream K _ (fun _ _ => True)); [intros Hs; destruct (pb_skip_field_shrinks wire_type K s Hs); auto|].
    iIntros (o s') "_". destruct o as [u|]; [iApply wp_ret; iApply "HΦ"; iPureIntro; intros ? [= <-]; exact Hv' | iApply "HΦ"; iPureIntro; discriminate]. }
  destruct (Z.leb_spec (v_extension_range_start v) tg) as [Hle|Hlt].
  - destruct (find_extension_field_none types constants t d Hwf Hd (v_iter v) Hloc) as (it' & En & Hloc' & Hins').
    pose proof Hloc' as (f & Hst).
    iApply wp_bind. iApply (wp_local K _ _ false it'); [exact En|]. iApply wp_bind. iApply wp_pos_of; [exact (stands_iter_pos t d f it' Hst)|].
    cbv zeta. cbn [negb]. destruct (Z.leb_spec (2 ^ 32 - 1) tg); [lia|]. iApply wp_ret. iApply Hskip; [|iExact "HΦ"].
    split; [exact Hloc'|]. split; [apply inside_somewhere, Hins'|]. split; [exact Hfix|]. split; [exact Hseen | right; reflexivity].
  - iApply wp_ret. iApply Hskip; [|iExact "HΦ"]. repeat split; assumption.
Qed.

(** An array without a counter in the structure is counted at [c]. *)
Lemma use_fixed_count_wp K c cnt k g f v s (Φ : option decode_vars -> pb_istream CB -> hprop) :
  vars_ok c v -> t_members t !! k = Some g -> In f (m_fields g) -> stands_at t d f (v_iter v) -> pData (v_iter v) = d + m_off g ->
  counter c 4 cnt ⊢
    (∀ o s' cnt', ⌞forall v', o = Some v' -> s' = s /\ tracks t d g f c (v_iter v') /\ vars_ok c v'⌟ -∗ counter c 4 cnt' -∗ Φ o s') -∗
    wp (use_fixed_count c f v) Φ K s.
Proof.
  intros (Hloc & Hsome & Hfix & Hseen & Hext) Hk Hin Hst HD. pose proof Hst as (Es & Ed & Hr & Hf & o & Ho & HDo & Hso'). specialize (Hsome f Hf).
  iIntros "Hc HΦ". unfold use_fixed_count. fold (is_repeated f).
  destruct (is_repeated f && (pSize (v_iter v) =? pData (v_iter v))) eqn:Ecase.
  - apply andb_true_iff in Ecase as [Er E]. apply Z.eqb_eq in E.
    destruct (member_range types constants t Hwf k g Hk) as (Hg & _). destruct (member_room types constants g f Hg Hin) as (_ & Hso & _).
    assert (Efix : fixed_count f = true).
    { destruct Hsome as [Hs|[Hs _]]; [|exact Hs]. unfold fixed_count. rewrite Er. cbn [andb]. apply Z.eqb_eq. lia. }
    assert (Hv' : forall v', v' = mk_vars (mk_iter (start (v_iter v)) (pos (v_iter v)) (required_field_index (v_iter v)) (dest_struct (v_iter v)) (pData (v_iter v)) c)
        (v_extension_range_start v) (Some (pos (v_iter v))) (v_fields_seen v) -> tracks t d g f c (v_iter v') /\ vars_ok c v').
    { intros v' ->. cbn. assert (Htr : tracks t d g f c (mk_iter (start (v_iter v)) (pos (v_iter v)) (required_field_index (v_iter v)) (dest_struct (v_iter v)) (pData (v_iter v)) c)).
      { split; [|split; [exact HD | rewrite Efix; reflexivity]]. repeat split; try assumption. exists o. cbn. split; [exact Ho|]. split; [exact HDo|].
        intros Hone. pose proof (oneof_not_repeated f Hone). congruence. }
      split; [exact Htr|]. destruct (tracks_somewhere c k g f _ Hk Hin Htr) as [H1 H2]. split; [exact H1|]. split; [exact H2|]. cbn.
      split; [|split; [exact Hseen | exact Hext]]. intros i [= <-]. eauto. }
    iApply wp_bind. destruct (negb (bool_decide _)).
    + iApply wp_bind. destruct (v_fixed_count_field v) as [i|].
      * destruct (Hfix i eq_refl) as [h Hh]. iApply wp_bind. iApply (wp_known K _ h); [rewrite Es; apply fields_body, Hh|].
        iApply wp_bind. iApply (wp_get_counter K c 4 cnt with "Hc"); [reflexivity | lia|]. iIntros "Hc". destruct (negb _).
        { iApply wp_return_error. iIntros (s'). iApply ("HΦ" $! None with "[%] Hc"). discriminate. }
        iApply wp_ret. iApply (wp_put_counter K c 4 cnt with "Hc"); [reflexivity | lia|]. iIntros "Hc". iApply wp_ret. iApply ("HΦ" with "[%] Hc"). intros v' [= <-]. split; [reflexivity | apply Hv'; reflexivity].
      * iApply wp_ret. iApply (wp_put_counter K c 4 cnt with "Hc"); [reflexivity | lia|]. iIntros "Hc". iApply wp_ret. iApply ("HΦ" with "[%] Hc"). intros v' [= <-]. split; [reflexivity | apply Hv'; reflexivity].
    + iApply wp_ret. iApply wp_ret. iApply ("HΦ" with "[%] Hc"). intros v' [= <-]. split; [reflexivity | apply Hv'; reflexivity].
  - iApply wp_ret. iApply ("HΦ" with "[%] Hc"). intros v' [= <-]. split; [reflexivity|]. split; [|repeat split; assumption || (intros f' Hf'; rewrite Hf in Hf'; injection Hf' as <-; exact Hsome)].
    split; [exact Hst|]. split; [exact HD|]. destruct (fixed_count f) eqn:Efix.
    + unfold fixed_count in Efix. apply andb_true_iff in Efix as [Er E0]. apply Z.eqb_eq in E0. rewrite Er in Ecase. cbn [andb] in Ecase. apply Z.eqb_neq in Ecase.
      destruct Hsome as [Hs|[_ Hs]]; [lia | exact Hs].
    + intros f' Hf'. rewrite Hf in Hf'. injection Hf' as <-. destruct Hsome as [Hs|[Hs _]]; [exact Hs | congruence].
Qed.

Lemma mark_seen_wp K c g f v s (Φ : option decode_vars -> pb_istream CB -> hprop) : tracks t d g f c (v_iter v) -> vars_ok c v ->
  (∀ v', ⌞tracks t d g f c (v_iter v') /\ vars_ok c v'⌟ -∗ Φ (Some v') s) ⊢ wp (mark_seen f v) Φ K s.
Proof.
  intros Htr Hv. pose proof Hv as (Hloc & Hsome & Hfix & Hseen & Hext). iIntros "HΦ". unfold mark_seen.
  destruct (_ && _) eqn:E; [|iApply wp_ret; iApply "HΦ"; auto]. apply andb_true_iff in E as [_ E]. apply Z.ltb_lt in E. unfold PB_MAX_REQUIRED_FIELDS in E.
  destruct Hloc as (f' & _ & _ & Hr & _). set (k := Z.to_nat (Z.shiftr (required_field_index (v_iter v)) 5)).
  assert (Hk : (k < 2)%nat).
  { unfold k. rewrite Z.shiftr_div_pow2 by lia. change (2 ^ 5) with 32. assert (required_field_index (v_iter v) / 32 < 2) by (apply Z.div_lt_upper_bound; lia).
    pose proof (Z.div_pos (required_field_index (v_iter v)) 32). lia. }
  destruct (lookup_lt_is_Some_2 (v_fields_seen v) k ltac:(lia)) as [w Hw]. iApply wp_bind. iApply (wp_known K _ w); [exact Hw|].
  iApply wp_ret. iApply "HΦ". iPureIntro. split; [exact Htr|]. destruct Hv as (H1 & H2 & H3 & H4 & H5). repeat split; try assumption. cbn. rewrite length_insert. exact H4.
Qed.

(** The fields of a message, until its end or an error. *)
Lemma decode_fields_wp K c fuel : forall cnt v s (Φ : option decode_vars -> pb_istream CB -> hprop),
  vars_ok c v -> i_bytes_left s <= budget -> i_bytes_left s < Z.of_nat fuel ->
  counter c 4 cnt ⊢ whole Filled -∗
    (∀ o s' cnt', ⌞forall v', o = Some v' -> vars_ok c v'⌟ -∗ counter c 4 cnt' -∗ whole (outcome_level o) -∗ Φ o s') -∗
    wp (decode_fields fuel c v) Φ K s.
Proof.
  induction fuel as [|fuel IH]; intros cnt v s Φ Hv Hb Hfuel.
  { iIntros "Hc H HΦ". iStopProof. apply wp_strengthen. intros (_ & [[Hw _] _] & _). lia. }
  iIntros "Hc H HΦ". cbn [PbDecode.decode_fields]. iApply wp_bind. iApply wp_get. iIntros (h). cbn [d_stream].
  destruct (_ =? 0); [iApply wp_ret; iApply ("HΦ" $! (Some v) with "[%] Hc H"); intros ? [= <-]; exact Hv|].
  iApply wp_bind. iApply wp_next_tag. iIntros (o s1) "%Htag".
  destruct o as [[[wire_type tg]|]|]; [|iApply wp_ret; iApply ("HΦ" $! (Some v) with "[%] Hc H"); intros ? [= <-]; exact Hv|].
  2:{ iApply ("HΦ" $! None with "[%] Hc [H]"); [discriminate | iApply whole_broken; iExact "H"]. }
  destruct (Htag wire_type tg eq_refl) as [Hlt Htg]. pose proof Hv as (Hloc & Hsome & Hfix & Hseen & Hext).
  destruct (pb_field_iter_find_located types constants t d Hwf Hd tg (v_iter v) Hloc) as (found & it & En & Hloc' & Hc' & Hfound).
  iApply wp_bind. iApply (wp_local K _ _ found it); [exact En|]. cbv zeta.
  assert (Hv' : vars_ok c (set_iter v it)).
  { repeat split; try assumption. cbn. destruct Hc' as [->|Hc']; [exact Hsome | apply inside_somewhere, Hc']. }
  (* one turn, then the rest *)
  assert (Hnext : forall (m : D decode_vars) s2 cnt, i_bytes_left s2 <= i_bytes_left s1 ->
    (forall Ψ : option decode_vars -> pb_istream CB -> hprop, counter c 4 cnt ⊢ whole Filled -∗
      (∀ o s' cnt', ⌞forall v', o = Some v' -> vars_ok c v'⌟ -∗ counter c 4 cnt' -∗ whole (outcome_level o) -∗ Ψ o s') -∗ wp m Ψ K s2) ->
    counter c 4 cnt ⊢ whole Filled -∗
      (∀ o s' cnt', ⌞forall v', o = Some v' -> vars_ok c v'⌟ -∗ counter c 4 cnt' -∗ whole (outcome_level o) -∗ Φ o s') -∗
      wp (v <- m ;; decode_fields fuel c v) Φ K s2).
  { intros m s2 cnt2 Hs2 Hm. iIntros "Hc H HΦ". iApply wp_bind.
    iStopProof. apply wp_strengthen. intros _. iIntros "(Hc & H & HΦ)".
    iApply (Hm with "Hc H"). iIntros (o s' cnt') "%Hok Hc H %Hadv". destruct Hadv as [_ Hadv].
    destruct o as [v'|]; [|iApply ("HΦ" $! None with "[//] Hc H")].
    iApply (IH cnt' v' s' with "Hc H HΦ"); [exact (Hok v' eq_refl) | lia | lia]. }
  iApply (Hnext with "Hc H HΦ"); [lia|]. intros Ψ. iIntros "Hc H HΨ". destruct found; cbn [negb].
  - destruct Hfound as (f & Hf & _). destruct (body_member t (pos it) f Hf) as (k & g & Hk & Hin & _).
    destruct (find_member types constants t d Hwf k g f f it Hk Hin Hloc' Hf eq_refl) as [Hst HD].
    iApply wp_bind. iApply wp_pos_of; [exact (stands_iter_pos t d f it Hst)|].
    iApply wp_bind. iApply (use_fixed_count_wp K c cnt k g f (set_iter v it) with "Hc"); [exact Hv' | exact Hk | exact Hin | exact Hst | exact HD|].
    iIntros (o s2 cnt2) "%Huse Hc". destruct o as [v2|]; [|iApply ("HΨ" $! None with "[%] Hc [H]"); [discriminate | iApply whole_broken; iExact "H"]].
    destruct (Huse v2 eq_refl) as (-> & Htr2 & Hv2). iApply wp_bind. iApply (mark_seen_wp K c g f v2); [exact Htr2 | exact Hv2|].
    iIntros (v3) "%Hv3". destruct Hv3 as [Htr3 Hv3].
    iDestruct (whole_member k g Hk with "H") as "[Hg Hclose]". iApply wp_bind.
    iApply (decode_field_wp types descriptors constants rfuel decode_noinit sub good budget Hsmall Hrfuel t d Hwf Hd Hgood funcs_decode Hcallbacks k g f Hk Hin K wire_type c cnt2 with "Hc Hg");
      [exact Htr3 | lia|].
    iIntros (o s3 cnt3) "%Hit Hc Hg". iDestruct ("Hclose" with "Hg") as "H".
    destruct o as [it'|]; [|iApply ("HΨ" $! None with "[%] Hc H"); discriminate].
    iApply wp_ret. iApply ("HΨ" $! (Some (set_iter v3 it')) with "[%] Hc H"). intros ? [= <-].
    destruct (tracks_somewhere c k g f it' Hk Hin (Hit it' eq_refl)) as [H1 H2]. destruct Hv3 as (_ & _ & H3 & H4 & H5). repeat split; assumption.
  - iApply (decode_unknown_wp K c); [exact Hv' | lia|]. iIntros (o s2) "%Hok". iApply ("HΨ" with "[//] Hc [H]").
    destruct o; [iExact "H" | iApply whole_broken; iExact "H"].
Qed.

(** ** Behind the loop *)

Lemma check_fixed_count_wp K c cnt v s (Φ : option unit -> pb_istream CB -> hprop) : vars_ok c v ->
  counter c 4 cnt ⊢ (∀ o s', counter c 4 cnt -∗ Φ o s') -∗ wp (check_fixed_count c v) Φ K s.
Proof.
  intros (Hloc & _ & Hfix & _). iIntros "Hc HΦ". unfold check_fixed_count.
  destruct (v_fixed_count_field v) as [i|]; [|iApply wp_ret; iApply ("HΦ" with "Hc")].
  destruct (Hfix i eq_refl) as [g Hg]. pose proof Hloc as (f & Es & _).
  iApply wp_bind. iApply (wp_known K _ g); [rewrite Es; apply fields_body, Hg|].
  iApply wp_bind. iApply (wp_get_counter K c 4 cnt with "Hc"); [reflexivity | lia|]. iIntros "Hc".
  destruct (negb _); [iApply wp_return_error; iIntros (s') | iApply wp_ret]; iApply ("HΦ" with "Hc").
Qed.

Lemma count_required_wp K fuel : forall it s (Φ : option Z -> pb_istream CB -> hprop), located it -> (length body - pos it <= fuel)%nat ->
  (∀ n, ⌞0 <= n⌟ -∗ Φ (Some n) s) ⊢ wp (count_required fuel it) Φ K s.
Proof.
  induction fuel as [|fuel IH]; intros it s Φ Hloc Hfuel.
  { pose proof (body_room t d it Hloc). lia. }
  pose proof Hloc as (f & Hst). pose proof Hst as (_ & _ & Hr & _). iIntros "HΦ". cbn [count_required].
  iApply wp_bind. iApply wp_pos_of; [exact (stands_iter_pos t d f it Hst)|]. cbv zeta.
  pose proof (body_room t d it Hloc) as Hroom.
  destruct (next_located types constants t d Hwf Hd it Hloc) as (more & it' & En & Hit' & Hr' & Hmore).
  destruct (iter_at_inside t d _ it' Hit' ltac:(apply Nat.mod_upper_bound; lia) Hr') as [Hloc' _].
  iApply wp_bind. iApply (wp_local K _ _ more it'); [exact En|]. destruct more.
  - iApply (IH it' s with "HΦ"); [exact Hloc'|]. pose proof Hit' as (_ & Ep & _). rewrite Ep, Nat.mod_small by (apply Hmore; reflexivity). lia.
  - pose proof Hloc' as (g & Hst'). iApply wp_bind. iApply wp_pos_of; [exact (stands_iter_pos t d g it' Hst')|]. iApply wp_ret. iApply "HΦ".
    iPureIntro. destruct (_ && _); [unfold wrap; apply Z.mod_pos_bound; lia | exact Hr].
Qed.

Lemma whole_words_known seen n : (n <= length seen)%nat -> is_Some (whole_words_seen seen n).
Proof.
  revert n. induction seen as [|w seen IH]; intros [|n] H; cbn in *; try (eexists; reflexivity); [lia|].
  destruct (w =? _); [apply IH; lia | eexists; reflexivity].
Qed.

Lemma check_required_wp K c v s (Φ : option unit -> pb_istream CB -> hprop) : vars_ok c v ->
  (∀ o s', Φ o s') ⊢ wp (check_required v) Φ K s.
Proof.
  intros (Hloc & _ & _ & Hseen & _). iIntros "HΦ". unfold check_required. pose proof Hloc as (f & Es & _).
  iApply wp_bind. iApply count_required_wp; [exact Hloc | rewrite Es; unfold fields_of; rewrite length_app; lia|].
  iIntros (n) "%Hn". cbv zeta. unfold PB_MAX_REQUIRED_FIELDS.
  set (m := if 64 <? n then 64 else n). assert (Hm : 0 <= m <= 64) by (unfold m; destruct (Z.ltb_spec 64 n); lia).
  assert (Hq : 0 <= Z.shiftr m 5 <= 2 /\ (Z.land m 31 <> 0 -> Z.shiftr m 5 < 2)).
  { rewrite Z.shiftr_div_pow2 by lia. change 31 with (Z.ones 5). rewrite Z.land_ones by lia. change (2 ^ 5) with 32.
    pose proof (Z.div_mod m 32 ltac:(lia)). pose proof (Z.mod_pos_bound m 32 ltac:(lia)). lia. }
  destruct (0 <? m); [|iApply wp_ret; iApply "HΦ"].
  destruct (whole_words_known (v_fields_seen v) (Z.to_nat (Z.shiftr m 5)) ltac:(lia)) as [ok Hok].
  iApply wp_bind. iApply (wp_known K _ ok); [exact Hok|]. destruct ok; cbn [negb]; [|iApply wp_return_error; iIntros (s'); iApply "HΦ"].
  destruct (Z.eqb_spec (Z.land m 31) 0) as [|Hne]; cbn [negb]; [iApply wp_ret; iApply "HΦ"|].
  destruct Hq as [Hq1 Hq2]. specialize (Hq2 Hne). destruct (lookup_lt_is_Some_2 (v_fields_seen v) (Z.to_nat (Z.shiftr m 5)) ltac:(lia)) as [w Hw].
  iApply wp_bind. iApply (wp_known K _ w); [exact Hw|]. destruct (negb _); [iApply wp_return_error; iIntros (s') | iApply wp_ret]; iApply "HΦ".
Qed.

(** ** The whole message *)

Lemma first_located : exists it, pb_field_iter_begin (fields_of t) d no_iter = (Ok true, it) /\ located it /\ counted_inside it.
Proof.
  assert (Hf : exists f, body !! 0%nat = Some f).
  { destruct Hwf as (Hne & _). destruct (t_members t) as [|g ms] eqn:Et; [contradiction|].
    destruct (member_range types constants t Hwf 0 g ltac:(rewrite Et; reflexivity)) as ((_ & _ & _ & Hk) & _).
    unfold body_of. rewrite Et. cbn [map concat].
    destruct Hk as [(f & Ef & _)|(Hne' & _)]; [rewrite Ef; cbn; eauto|]. destruct (m_fields g); [contradiction | cbn; eauto]. }
  destruct Hf as [f Hf]. destruct (begin_at_first body (offsets_of t) d (body_tags types constants t Hwf) (members_laid_out types constants t Hwf) ltac:(lia) no_iter f Hf)
    as (it & En & Hit & Hr). exists it. split; [exact En|]. apply (iter_at_inside t d 0 it Hit); [apply lookup_lt_Some in Hf; lia | lia].
Qed.

Lemma decode_message_wp K s (Φ : option unit -> pb_istream CB -> hprop) : i_bytes_left s <= budget ->
  whole Filled ⊢ (∀ o s', whole (outcome_level o) -∗ Φ o s') -∗
  wp (decode_message descriptors constants funcs_decode type_decode rfuel decode_noinit (fields_of t) d) Φ K s.
Proof.
  intros Hb. iIntros "H HΦ". unfold decode_message. destruct first_located as (it & En & Hloc & Hins).
  iApply wp_bind. iApply (wp_local K _ _ true it); [exact En|].
  iApply wp_with_local; [reflexivity|]. iIntros (c) "Hc".
  assert (Hclose : forall cnt, counter c 4 cnt ⊢ ∃ bs', ⌞zlen bs' = zlen (zeros 4)⌟ ∗ c ↦∗ bs').
  { intros cnt. iIntros "(%bs & [%Hz _] & Hc)". iExists bs. iFrame. done. }
  iAssert (counter c 4 0) with "[Hc]" as "Hc"; [iExists (zeros 4); iFrame; done|].
  iStopProof. apply wp_strengthen. intros (_ & [[Hw _] _] & _). iIntros "(H & HΦ & Hc)".
  iApply wp_bind. iApply wp_get. iIntros (h). cbn [d_stream].
  iApply wp_bind. iApply (decode_fields_wp K c _ 0 _ s with "Hc H"); [|exact Hb | lia|].
  { split; [exact Hloc|]. split; [apply inside_somewhere, Hins|]. split; [discriminate|]. split; [reflexivity | left; reflexivity]. }
  iIntros (o s1 cnt) "%Hv Hc H". destruct o as [v|].
  2:{ iIntros "_". iDestruct (Hclose with "Hc") as "(%bs & %Hz & Hc)". iExists bs. iFrame "Hc". iSplitR; [done|]. iApply ("HΦ" $! None with "H"). }
  specialize (Hv v eq_refl).
  assert (Hend : forall o s', whole Filled ⊢ (∀ (o : option unit) s', whole (outcome_level o) -∗ Φ o s') -∗ Φ o s').
  { intros o s'. iIntros "H HΦ". iApply "HΦ". destruct o; [iExact "H" | iApply whole_broken; iExact "H"]. }
  iApply wp_bind. iApply (check_fixed_count_wp K c cnt v with "Hc"); [exact Hv|]. iIntros (o s2) "Hc".
  iDestruct (Hclose with "Hc") as "(%bs & %Hz & Hc)". destruct o as [u|].
  - iApply (check_required_wp K c v); [exact Hv|]. iIntros (o s3) "_". iExists bs. iFrame "Hc". iSplitR; [done|]. iApply (Hend with "H HΦ").
  - iIntros "_". iExists bs. iFrame "Hc". iSplitR; [done|]. iApply (Hend None with "H HΦ").
Qed.
End loop.
