(* ===== verification/PbSafe.v ===== *)
(** What nanopb's decoder guarantees for every input: it returns, it keeps to
    the structure and to what it has allocated, a message that it accepts is what
    its type says and can be released, and one that it rejects leaves nothing
    behind. *)
From Stdlib Require Import ZArith Lia Bool String.
From coqutil Require Import Byte Word.LittleEndianList.
From stdpp Require Import base list numbers gmap.
From iris.bi Require Import bi.
From iris.proofmode Require Import proofmode.
From S2P Require Import Prelude PbStream PbCommon PbCodec PbSpec PbMemory PbEncode PbAdvance PbHeap PbDecode PbSep PbTypes PbRelease PbItem PbField PbMessage PbLoop.
#[local] Unset SsrRewrite.
Local Open Scope Z_scope.
Local Open Scope c_scope.

(** The types that descriptors are generated for; [R] is above their ranks. *)
Record types_ok (types : Z -> option message_type) (constants : mem) (descriptors : Z -> option (list pb_field)) (R : nat) : Prop := {
  types_wf : forall a t, types a = Some t -> type_wf types constants t;
  types_descriptors : forall a t, types a = Some t -> descriptors a = Some (fields_of t);
  types_rank : forall a t, types a = Some t -> (t_rank t < R)%nat;
}.

Section safe.
Context {CB : Type} {ICB : InputCallback CB} {MA : Machine}.
Notation D := (M (dstate CB)).
Context (types : Z -> option message_type) (descriptors : Z -> option (list pb_field)) (constants : mem) (R : nat).
Context (Htypes : types_ok types constants descriptors R).
Context (Hsmall : forall n, available n -> n < 2 ^ 32).
Context (funcs_decode : Z -> pb_field -> Z -> D unit) (Hcallbacks : callbacks_ok funcs_decode) (type_decode : Z -> Z -> Z -> Z -> D unit).
Context (rfuel : nat).
Notation noinit := (pb_decode_noinit descriptors constants funcs_decode type_decode rfuel).

(** The nesting [N] is enough for [k] levels of input. *)
Definition deep_enough (k N : nat) (t : message_type) : Prop := (t_rank t + k * R < N <= rfuel)%nat.
Definition good_type (k N : nat) (a size : Z) : Prop := exists t, types a = Some t /\ t_size t = size /\ deep_enough k N t.

(** The decoder of submessages keeps what [Submessages] asks for. *)
Lemma submessages_ok k N : (N < rfuel)%nat ->
  (forall t d K s (Φ : option unit -> pb_istream CB -> hprop), type_wf types constants t -> 0 < d -> deep_enough k N t -> i_bytes_left s < Z.of_nat k ->
    message types N Filled t d ⊢ (∀ o s', message types N (outcome_level o) t d -∗ Φ o s') -∗ wp (noinit k (fields_of t) d) Φ K s) ->
  Submessages descriptors constants rfuel (noinit k) (sub_owns types N) (good_type k N) (Z.of_nat k).
Proof.
  intros HN IH. destruct Htypes as [Hwf Hdesc Hrank]. split.
  - apply sub_owns_nothing.
  - apply sub_owns_mono.
  - intros a size (t & Ht & _). exists (fields_of t). exact (Hdesc a t Ht).
  - intros a size (t & Ht & <- & [Hd _]). iIntros "_". iExists t. destruct (Hwf a t Ht) as (_ & Hsz & _). iSplitR.
    + iPureIntro. split; [exact Ht|]. unfold zlen, zeros. rewrite repeat_length. lia.
    + iApply (owns_zeros types constants Hwf N t (Hwf a t Ht)); [lia | done].
  - intros K a size d s Φ (t & Ht & <- & [Hd Hd']). rewrite !(sub_region types N _ a t d Ht). iIntros "H HΦ". unfold with_fields, pb_message_set_to_defaults.
    iApply wp_bind. iApply wp_known; [exact (Hdesc a t Ht)|].
    iAssert (⌞0 < d⌟ ∗ message types N Clear t d)%I with "[H]" as "[%Hd0 H]".
    { iDestruct "H" as "(%bs & %Hbs & Hd & H)". iDestruct (points_to_valid with "Hd") as "[Hd $]". iExists bs. iFrame. done. }
    iApply (defaults_wp types constants K Hwf descriptors Hdesc with "H HΦ"); [exact (Hwf a t Ht) | lia | lia | exact Hd0].
  - intros K l a size d s Φ. iIntros "H HΦ". iDestruct (sub_region_type with "H") as "(%t & %Hp & H)". destruct Hp as (Ht & -> & Hd0).
    unfold with_fields, pb_release. iApply wp_bind. iApply wp_known; [exact (Hdesc a t Ht)|].
    iApply (release_wp K types constants Hwf descriptors Hdesc with "H"); [exact (Hwf a t Ht) | lia|].
    iIntros "H". iApply "HΦ". iApply (sub_region types N Clear a t d Ht with "H").
  - intros K l a d size s Φ. iIntros "H HΦ". iDestruct (sub_region_type with "H") as "(%t & %Hp & H)". destruct Hp as (Ht & -> & Hd0).
    unfold release_submessage. iApply wp_bind. iApply wp_known; [exact (Hdesc a t Ht)|].
    iApply (release_wp K types constants Hwf descriptors Hdesc with "H"); [exact (Hwf a t Ht) | lia|].
    iIntros "H". iApply "HΦ". iApply (sub_region types N Clear a t d Ht with "H").
  - intros K a size d s Φ (t & Ht & <- & Hd) Hb. iIntros "H HΦ". iDestruct (sub_region_type with "H") as "(%t' & %Hp & H)".
    destruct Hp as (Ht' & _ & Hd0). assert (t' = t) as -> by congruence. unfold with_fields. iApply wp_bind. iApply wp_known; [exact (Hdesc a t Ht)|].
    iApply (IH t d with "H"); [exact (Hwf a t Ht) | exact Hd0 | exact Hd | exact Hb|].
    iIntros (o s') "H". iApply "HΦ". iApply (sub_region types N _ a t d Ht with "H").
Qed.

Lemma decode_noinit_wp k : forall N t d K s (Φ : option unit -> pb_istream CB -> hprop),
  type_wf types constants t -> 0 < d -> deep_enough k N t -> i_bytes_left s < Z.of_nat k ->
  message types N Filled t d ⊢ (∀ o s', message types N (outcome_level o) t d -∗ Φ o s') -∗ wp (noinit k (fields_of t) d) Φ K s.
Proof.
  induction k as [|k IH]; intros N t d K s Φ Hwf Hd [Hdeep HN] Hb.
  { iIntros "H HΦ". iStopProof. apply wp_strengthen. intros (_ & [[Hw _] _] & _). lia. }
  destruct N as [|N]; [lia|]. cbn [pb_decode_noinit].
  assert (HS : Submessages descriptors constants rfuel (noinit k) (sub_owns types N) (good_type k N) (Z.of_nat k)).
  { apply submessages_ok; [lia|]. intros t' d' K' s' Φ'. apply IH. }
  apply (decode_message_wp types descriptors constants rfuel (noinit k) (sub_owns types N) (good_type k N) (Z.of_nat k) Hsmall ltac:(lia) t d Hwf Hd);
    [|exact Hcallbacks | lia].
  intros f Hin Hm Hc. pose proof Hin as Hf. apply list_elem_of_In, list_elem_of_lookup in Hf as [i Hf].
  destruct (body_wf types constants t Hwf i f Hf) as (_ & _ & _ & _ & _ & _ & _ & _ & Hsub & _).
  destruct (Hsub Hm Hc) as (t' & Ht' & Hsz). exists t'. split; [exact Ht'|]. split; [exact Hsz|].
  pose proof (types_rank _ _ _ _ Htypes _ _ Ht'). unfold deep_enough. lia.
Qed.

(** [pb_decode] on a structure that owns nothing. *)
Lemma pb_decode_wp k N t d K s (Φ : option unit -> pb_istream CB -> hprop) :
  type_wf types constants t -> 0 < d -> deep_enough k N t -> i_bytes_left s < Z.of_nat k ->
  message types N Clear t d ⊢ (∀ (o : option unit) s', message types N (if o then Filled else Clear) t d -∗ Φ o s') -∗
  wp (pb_decode descriptors constants funcs_decode type_decode rfuel k (fields_of t) d) Φ K s.
Proof.
  intros Hwf Hd Hdeep Hb. destruct Htypes as [Hwfs Hdesc Hrank]. pose proof Hdeep as [Hd1 Hd2]. iIntros "H HΦ". unfold pb_decode, decode_init.
  iApply wp_bind. iApply (defaults_wp types constants K Hwfs descriptors Hdesc with "H"); [exact Hwf | lia | lia | exact Hd|]. iIntros "H".
  iApply wp_bind. iApply wp_status_of. iApply (decode_noinit_wp k N t d with "[H]"); [exact Hwf | exact Hd | exact Hdeep | exact Hb | |].
  { iApply (region_mono with "H"). intros bs _. apply owns_mono. reflexivity. }
  iIntros (o s') "H". destruct o as [[]|]; [iApply wp_ret; iApply ("HΦ" $! (Some tt) with "H")|].
  iApply wp_bind. iApply (release_wp K types constants Hwfs descriptors Hdesc with "H"); [exact Hwf | lia|]. iIntros "H".
  iApply wp_fail. iApply ("HΦ" $! None with "H").
Qed.

(** *** Runs *)

Lemma run_wp {A} (c : D A) (P : hprop) (Q : option A -> hprop) K s h F :
  (forall Φ : option A -> pb_istream CB -> hprop, P ⊢ (∀ o s', Q o -∗ Φ o s') -∗ wp c Φ K s) ->
  P h -> in_order K s -> apart h F ->
  exists o h' s', c (mk_dstate s (join h F)) = (o, mk_dstate s' (join h' F)) /\ apart h' F /\ advances K s s' /\
    match o with Ok a => Q (Some a) h' | Fail => Q None h' | Stuck => False end.
Proof.
  intros Hc HP Hs HF. assert (Hent : P ⊢ wp c (fun o _ => Q o) K s).
  { iIntros "HP". iApply (Hc with "HP"). iIntros (o s') "$". }
  exact (entails Hent h HP Hs F HF).
Qed.

(** A structure that owns nothing is its bytes. *)
Lemma message_nothing N l t d h : owning l = false -> message types N l t d h -> exists bs, zlen bs = t_size t /\ h = bytes_heap d bs.
Proof.
  intros Hl (bs & h1 & h2 & -> & _ & (Hbs & ->)%affine_pure_holds & h3 & h4 & -> & _ & (-> & _) & H).
  exists bs. split; [exact Hbs|]. pose proof (entails (owns_nothing types N t bs l Hl) _ H) as ->. rewrite join_none.
  unfold join. cbn. rewrite !(right_id_L ∅ (∪)). reflexivity.
Qed.

Lemma message_zeros N t d : type_wf types constants t -> 0 < d -> (t_rank t < N)%nat ->
  message types N Clear t d (bytes_heap d (zeros (t_size t))).
Proof.
  intros Hwf Hd HN. assert (H : d ↦∗ zeros (t_size t) ⊢ message types N Clear t d).
  { iIntros "Hd". iExists (zeros (t_size t)). iFrame "Hd". destruct Hwf as (Hne & Hsz & Hrest). iSplitR; [iPureIntro; unfold zlen, zeros; rewrite repeat_length; lia|].
    iApply (owns_mono types N t _ Fresh Clear eq_refl). iApply (owns_zeros types constants (types_wf _ _ _ _ Htypes) N t (conj Hne (conj Hsz Hrest)) HN). done. }
  apply (entails H). split; [reflexivity | exact Hd].
Qed.

(** What a program may do with a structure. *)
Inductive use :=
  | Decode (s : pb_istream CB)
  | DecodeNoinit (s : pb_istream CB)
  | Release.

Definition run_use (k : nat) (t : message_type) (d : Z) (u : use) : D unit :=
  match u with
  | Decode s => fun st => pb_decode descriptors constants funcs_decode type_decode rfuel k (fields_of t) d (mk_dstate s (d_heap st))
  | DecodeNoinit s => fun st => pb_decode_noinit descriptors constants funcs_decode type_decode rfuel k (fields_of t) d (mk_dstate s (d_heap st))
  | Release => pb_release descriptors rfuel (fields_of t) d
  end.

(** Only a structure that owns nothing may be set to its defaults, and only one
    that is whole may be decoded into. *)
Definition may_use (l : level) (u : use) : bool :=
  match u with Decode _ => negb (owning l) | DecodeNoinit _ => bounded l | Release => true end.
Definition level_after (u : use) (ok : bool) : level :=
  match u with Decode _ => if ok then Filled else Clear | DecodeNoinit _ => if ok then Filled else Broken | Release => Clear end.
Definition use_fits (k : nat) (u : use) : Prop :=
  match u with Decode s | DecodeNoinit s => in_order 0 s /\ i_bytes_left s < Z.of_nat k | Release => True end.

(** The uses one after the other, and the level of the structure in the end; a
    use that is not allowed is left out. *)
Fixpoint session (k : nat) (t : message_type) (d : Z) (l : level) (us : list use) (st : dstate CB) : option (level * dstate CB) :=
  match us with
  | [] => Some (l, st)
  | u :: us =>
      if may_use l u then
        match run_use k t d u st with
        | (Ok _, st1) => session k t d (level_after u true) us st1
        | (Fail, st1) => session k t d (level_after u false) us st1
        | (Stuck, _) => None
        end
      else session k t d l us st
  end.

Lemma use_ok k N t d l u h F s : type_wf types constants t -> 0 < d -> deep_enough k N t -> use_fits k u -> may_use l u = true ->
  in_order 0 s -> message types N l t d h -> apart h F ->
  exists o h' s', run_use k t d u (mk_dstate s (join h F)) = (o, mk_dstate s' (join h' F)) /\ apart h' F /\ in_order 0 s' /\
    match o with Ok _ => message types N (level_after u true) t d h' | Fail => u <> Release /\ message types N (level_after u false) t d h' | Stuck => False end.
Proof.
  intros Hwf Hd Hdeep Hfits Hmay Hs H HF. destruct Htypes as [Hwfs Hdesc Hrank].
  assert (Hlevel : forall l', below l l' = true -> message types N l' t d h).
  { intros l' Hl. apply (entails (P := message types N l t d)); [|exact H]. apply region_mono. intros bs _. apply owns_mono, Hl. }
  destruct u as [s0|s0|]; cbn [run_use may_use level_after d_heap] in *.
  - destruct Hfits as [Hs0 Hb].
    destruct (run_wp (pb_decode descriptors constants funcs_decode type_decode rfuel k (fields_of t) d) (message types N Clear t d)
      (fun o => message types N (if o then Filled else Clear) t d) 0 s0 h F) as (o & h' & s' & E & HF' & [Hs' _] & Ho); try assumption.
    { intros Φ. apply pb_decode_wp; assumption. }
    { apply Hlevel. destruct l; (reflexivity || discriminate). }
    exists o, h', s'. do 3 (split; [assumption|]). destruct o; auto.
  - destruct Hfits as [Hs0 Hb].
    destruct (run_wp (noinit k (fields_of t) d) (message types N Filled t d)
      (fun o => message types N (outcome_level o) t d) 0 s0 h F) as (o & h' & s' & E & HF' & [Hs' _] & Ho); try assumption.
    { intros Φ. apply decode_noinit_wp; assumption. }
    { apply Hlevel. destruct l; (reflexivity || discriminate). }
    exists o, h', s'. do 3 (split; [assumption|]). destruct o; auto.
  - destruct (run_wp (pb_release descriptors rfuel (fields_of t) d) (message types N l t d)
      (fun o => match o with Some _ => message types N Clear t d | None => False end)%I 0 s h F) as (o & h' & s' & E & HF' & [Hs' _] & Ho); try assumption.
    { intros Φ. iIntros "H HΦ". unfold pb_release. destruct Hdeep as [_ HN].
      iApply (release_wp 0 types constants Hwfs descriptors Hdesc with "H"); [exact Hwf | exact HN|]. iIntros "H". iApply ("HΦ" $! (Some tt) with "H"). }
    exists o, h', s'. destruct o; try contradiction. auto.
Qed.

(** What is around the structure, and where it is. *)
Lemma session_ok k N t d us : forall l h F s, type_wf types constants t -> 0 < d -> deep_enough k N t -> Forall (use_fits k) us ->
  in_order 0 s -> message types N l t d h -> apart h F ->
  exists l' h' s', session k t d l us (mk_dstate s (join h F)) = Some (l', mk_dstate s' (join h' F)) /\ apart h' F /\ message types N l' t d h'.
Proof.
  induction us as [|u us IH]; intros l h F s Hwf Hd Hdeep Hus Hs H HF; cbn [session]; [exists l, h, s; auto|].
  apply Forall_cons in Hus as [Hu Hus]. destruct (may_use l u) eqn:Hmay; [|exact (IH l h F s Hwf Hd Hdeep Hus Hs H HF)].
  destruct (use_ok k N t d l u h F s Hwf Hd Hdeep Hu Hmay Hs H HF) as (o & h' & s' & E & HF' & Hs' & Ho). rewrite E.
  destruct o as [x| |]; [| |contradiction]; apply (IH _ h' F s'); try assumption. apply Ho.
Qed.
End safe.
