(* ===== verification/PbGuarantee.v ===== *)
(** The decoder's guarantees without the logic they are proved in: what is in
    memory before and after [pb_decode] and [pb_release], for any input, and for
    a Firestore value. *)
From Stdlib Require Import ZArith Lia Bool String.
From coqutil Require Import Byte Word.LittleEndianList.
From stdpp Require Import base list numbers gmap.
From iris.bi Require Import bi.
From iris.proofmode Require Import proofmode.
From S2P Require Import Prelude PbStream PbCommon PbCodec PbSpec PbMemory PbEncode PbWire PbAdvance PbHeap PbDecode PbFuel PbSep PbTypes PbRelease PbItem PbField PbMessage PbLoop PbSafe.
#[local] Unset SsrRewrite.
Local Open Scope Z_scope.
Local Open Scope c_scope.

Section guarantees.
Context {CB : Type} {ICB : InputCallback CB} {MA : Machine}.
Notation D := (M (dstate CB)).
Context (types : Z -> option message_type) (descriptors : Z -> option (list pb_field)) (constants : mem) (R : nat).
Context (Htypes : types_ok types constants descriptors R).
Context (Hsmall : forall n, available n -> n < 2 ^ 32).
Context (funcs_decode : Z -> pb_field -> Z -> D unit) (Hcallbacks : callbacks_ok funcs_decode) (type_decode : Z -> Z -> Z -> Z -> D unit).
Context (t : message_type) (d : Z) (Hwf : type_wf types constants t) (Hd : 0 < d).
Context (k rfuel : nat) (Hrfuel : (t_rank t + k * R < rfuel)%nat).
Notation decode := (pb_decode descriptors constants funcs_decode type_decode rfuel k (fields_of t) d).
Notation release := (pb_release descriptors rfuel (fields_of t) d).

(** The structure at [d] with the bytes [bs], and the rest of the memory. *)
Definition with_structure (d : Z) (bs : list byte) (F : heap) : heap := join (bytes_heap d bs) F.

Lemma deep : deep_enough R rfuel k rfuel t.
Proof. unfold deep_enough. lia. Qed.

Lemma zeros_clear : message types rfuel Clear t d (bytes_heap d (zeros (t_size t))).
Proof. apply (message_zeros types descriptors constants R Htypes rfuel t d Hwf Hd). lia. Qed.

(** The first use of a structure of zeros. *)
Lemma decode_zeros s F : in_order 0 s -> i_bytes_left s < Z.of_nat k -> apart (bytes_heap d (zeros (t_size t))) F ->
  exists o h1 s1, decode (mk_dstate s (with_structure d (zeros (t_size t)) F)) = (o, mk_dstate s1 (join h1 F)) /\ apart h1 F /\ in_order 0 s1 /\
    match o with Ok _ => message types rfuel Filled t d h1 | Fail => message types rfuel Clear t d h1 | Stuck => False end.
Proof.
  intros Hs Hb HF. destruct (use_ok types descriptors constants R Htypes Hsmall funcs_decode Hcallbacks type_decode rfuel k rfuel t d
    Clear (Decode s) _ F s Hwf Hd deep (conj Hs Hb) eq_refl Hs zeros_clear HF) as (o & h1 & s1 & E & HF1 & Hs1 & Ho).
  exists o, h1, s1. do 3 (split; [assumption|]). destruct o; [exact Ho | apply Ho | exact Ho].
Qed.

Lemma pb_decode_returns s F : in_order 0 s -> i_bytes_left s < Z.of_nat k -> apart (bytes_heap d (zeros (t_size t))) F ->
  fst (decode (mk_dstate s (with_structure d (zeros (t_size t)) F))) <> Stuck.
Proof. intros Hs Hb HF. destruct (decode_zeros s F Hs Hb HF) as (o & h1 & s1 & -> & _ & _ & Ho). cbn. intros ->. exact Ho. Qed.

(** C1: memory safety of nanopb's decoder.  Whatever bytes the stream gives,
    [pb_decode] into a zero-initialised structure comes to an end without
    touching anything but the structure, the blocks it allocates and the
    user's callback arguments; when it fails everything it allocated has been
    freed, and when it succeeds [pb_release] frees it: in both cases the memory
    around the structure is what it was. *)
Theorem pb_decode_no_leak s F : in_order 0 s -> i_bytes_left s < Z.of_nat k -> apart (bytes_heap d (zeros (t_size t))) F ->
  match decode (mk_dstate s (with_structure d (zeros (t_size t)) F)) with
  | (Ok _, st1) => exists bs st2, release st1 = (Ok tt, st2) /\ zlen bs = t_size t /\ d_heap st2 = with_structure d bs F
  | (Fail, st1) => exists bs, zlen bs = t_size t /\ d_heap st1 = with_structure d bs F
  | (Stuck, _) => False
  end.
Proof.
  intros Hs Hb HF.
  assert (Hout : forall (h : heap) (s : pb_istream CB), message types rfuel Clear t d h -> exists bs, zlen bs = t_size t /\ d_heap (mk_dstate s (join h F)) = with_structure d bs F).
  { intros h s' H. destruct (message_nothing types rfuel Clear t d h eq_refl H) as (bs & Hbs & ->). exists bs. auto. }
  destruct (decode_zeros s F Hs Hb HF) as (o & h1 & s1 & -> & HF1 & Hs1 & Ho). destruct o as [[]| |]; [|apply Hout, Ho | exact Ho].
  destruct (use_ok types descriptors constants R Htypes Hsmall funcs_decode Hcallbacks type_decode rfuel k rfuel t d Filled Release h1 F s1 Hwf Hd deep I eq_refl Hs1 Ho HF1)
    as (o & h2 & s2 & E2 & _ & _ & Ho2).
  destruct o as [[]| |]; [|destruct Ho2; contradiction | contradiction]. destruct (Hout h2 s2 Ho2) as (bs & Hbs & Eh). exists bs, (mk_dstate s2 (join h2 F)). auto.
Qed.

(** C6: [pb_decode] terminates.  On every input it comes to a result, and it is
    the same for all larger bounds on the nesting of the input and of the
    structures: a fuel of the length of the input is enough. *)
Theorem pb_decode_terminates s F : in_order 0 s -> i_bytes_left s < Z.of_nat k -> apart (bytes_heap d (zeros (t_size t))) F ->
  exists o st1, o <> Stuck /\ forall k' rfuel', (k <= k')%nat -> (rfuel <= rfuel')%nat ->
    pb_decode descriptors constants funcs_decode type_decode rfuel' k' (fields_of t) d (mk_dstate s (with_structure d (zeros (t_size t)) F)) = (o, st1).
Proof.
  intros Hs Hb HF. pose proof (pb_decode_returns s F Hs Hb HF) as Hret.
  destruct (decode (mk_dstate s (with_structure d (zeros (t_size t)) F))) as [o st1] eqn:E. exists o, st1.
  split; [intros ->; apply Hret; reflexivity|]. intros k' rfuel' Hk Hr. rewrite <- E. symmetry.
  destruct (pb_decode_approx descriptors constants funcs_decode type_decode rfuel rfuel' Hr k k' (fields_of t) d Hk (mk_dstate s (with_structure d (zeros (t_size t)) F))) as [H|H];
    [rewrite E in H; contradiction | exact H].
Qed.

(** C4: type soundness of the decoder.  A message that [pb_decode] accepts is what
    its type says: every pointer in it is null or points to a block of its own
    with the object, the string or as many items as its count says, the counts of
    arrays fit, at most one field of every union owns anything, and so on for the
    messages in it; and the stream has been read within its bounds. *)
Theorem pb_decode_typed s F st1 : in_order 0 s -> i_bytes_left s < Z.of_nat k -> apart (bytes_heap d (zeros (t_size t))) F ->
  decode (mk_dstate s (with_structure d (zeros (t_size t)) F)) = (Ok tt, st1) ->
  in_order 0 (d_stream st1) /\ exists h, d_heap st1 = join h F /\ apart h F /\ message types rfuel Filled t d h.
Proof.
  intros Hs Hb HF Hrun. destruct (decode_zeros s F Hs Hb HF) as (o & h1 & s1 & E & HF1 & Hs1 & Ho).
  rewrite E in Hrun. injection Hrun as -> <-. split; [exact Hs1|]. exists h1. auto.
Qed.

(** C5: whatever a program does with a structure, decoding into it, decoding more
    into a message that is there and releasing it in any order, as long as it
    only decodes anew into a structure that owns nothing and only adds to one
    that is whole: no use gets stuck, and when it releases the structure in the
    end nothing is left of what was allocated. *)
Theorem sessions_end_clean us s F : Forall (use_fits k) us -> in_order 0 s -> apart (bytes_heap d (zeros (t_size t))) F ->
  exists bs s', zlen bs = t_size t /\
    session descriptors constants funcs_decode type_decode rfuel k t d Clear (us ++ [Release]) (mk_dstate s (with_structure d (zeros (t_size t)) F)) =
      Some (Clear, mk_dstate s' (with_structure d bs F)).
Proof.
  intros Hus Hs HF. assert (Hlast : forall l l' st st', session descriptors constants funcs_decode type_decode rfuel k t d l (us ++ [Release]) st = Some (l', st') -> l' = Clear).
  { intros l l' st st'. revert l st. induction us as [|u us' IH]; intros l st; cbn [app session may_use].
    - destruct (run_use _ _ _ _ _ _ _ _ Release st) as [[x| |] st2]; cbn; congruence.
    - apply Forall_cons in Hus as [_ Hus]. destruct (may_use l u); [|apply IH, Hus]. destruct (run_use _ _ _ _ _ _ _ _ u st) as [[x| |] st2]; [apply IH, Hus..|discriminate]. }
  destruct (session_ok types descriptors constants R Htypes Hsmall funcs_decode Hcallbacks type_decode rfuel k rfuel t d (us ++ [Release]) Clear (bytes_heap d (zeros (t_size t))) F s Hwf Hd deep) as (l & h & s' & E & _ & H);
    [apply Forall_app; split; [exact Hus | repeat constructor] | exact Hs | exact zeros_clear | exact HF|].
  pose proof (Hlast _ _ _ _ E) as ->. destruct (message_nothing types rfuel Clear t d h eq_refl H) as (bs & Hbs & ->). exists bs, s'. auto.
Qed.
End guarantees.

(** ** A Firestore value *)

(** The types of the messages of PbWire: a value has a static array value in its
    union, and an array value a pointer to values. *)
Definition Value_type : message_type := mk_type [mk_member Value_fields 8 (-8) 16] 24 1.
Definition ArrayValue_type : message_type := mk_type [mk_member ArrayValue_fields 8 (-8) 8] 16 0.
Definition value_types (a : Z) : option message_type :=
  if a =? 1000 then Some Value_type else if a =? 2000 then Some ArrayValue_type else None.

Lemma value_types_inv (P : Z -> message_type -> Prop) : P 1000 Value_type -> P 2000 ArrayValue_type ->
  forall a t, value_types a = Some t -> P a t.
Proof.
  intros H1 H2 a t. unfold value_types. destruct (Z.eqb_spec a 1000) as [->|]; [intros [= <-]; exact H1|].
  destruct (Z.eqb_spec a 2000) as [->|]; [intros [= <-]; exact H2 | discriminate].
Qed.

(** A condition on a concrete field: by its kind, or by evaluation. *)
Ltac by_kind := first
  [ discriminate
  | (vm_compute; repeat split; (reflexivity || discriminate))
  | left; reflexivity | right; left; reflexivity
  | intros; first [discriminate | (eexists; split; vm_compute; reflexivity) | left; reflexivity] ].

Lemma value_fields_wf : Forall (field_wf value_types ∅) (Value_fields ++ ArrayValue_fields).
Proof.
  apply Forall_cons_2; [|apply Forall_cons_2; [|apply Forall_cons_2; [|apply Forall_cons_2; [|apply Forall_nil_2]]]].
  all: do 11 (split; [by_kind|]); by_kind.
Qed.

Lemma value_field f : In f Value_fields \/ In f ArrayValue_fields -> field_wf value_types ∅ f.
Proof. intros H. apply (proj1 (Forall_forall _ _) value_fields_wf), list_elem_of_In, in_app_iff, H. Qed.

(** A type with one member. *)
Lemma one_member_wf t g : t_members t = [g] -> member_wf value_types ∅ g -> 0 <= m_first g -> m_end g <= t_size t -> 0 < t_size t < 2 ^ 32 ->
  NoDup (map tag (body_of t)) -> laid_out (body_of t) (offsets_of t) ->
  Forall (fun f => is_static f = true -> is_message f = true -> forall t', value_types (ptr f) = Some t' -> (t_rank t' < t_rank t)%nat) (body_of t) ->
  type_wf value_types ∅ t.
Proof.
  intros Et Hg H1 H2 H3 H4 H5 H6. unfold type_wf. rewrite Et. split; [discriminate|]. split; [exact H3|]. split; [apply Forall_singleton; auto|].
  split; [|auto]. intros i j gi gj Hi Hj Hne. destruct i as [|i], j as [|j]; [contradiction | destruct j; discriminate | destruct i; discriminate | destruct i; discriminate].
Qed.

Lemma Value_fields_in (P : pb_field -> Prop) :
  P (nth 0 Value_fields PB_LAST_FIELD) -> P (nth 1 Value_fields PB_LAST_FIELD) -> P (nth 2 Value_fields PB_LAST_FIELD) -> Forall P Value_fields.
Proof. intros H1 H2 H3. repeat constructor; assumption. Qed.

Lemma Value_type_wf : type_wf value_types ∅ Value_type.
Proof.
  apply (one_member_wf Value_type (mk_member Value_fields 8 (-8) 16)); [reflexivity | | by_kind | by_kind | by_kind | | |].
  - split; [cbn; lia|]. split; [cbn; lia|]. split.
    + apply Forall_forall. intros f Hf%list_elem_of_In. split; [apply value_field; auto|]. destruct Hf as [<-|[<-|[<-|[]]]]; reflexivity.
    + right. split; [discriminate|]. split; [cbn; lia|]. apply Value_fields_in; (split; [reflexivity|]; split; [reflexivity|]; split; by_kind).
  - apply (bool_decide_unpack _). vm_compute. exact I.
  - vm_compute. repeat split.
  - apply Value_fields_in; try discriminate. intros _ _ t' [= <-]. cbn. lia.
Qed.

Lemma ArrayValue_type_wf : type_wf value_types ∅ ArrayValue_type.
Proof.
  apply (one_member_wf ArrayValue_type (mk_member ArrayValue_fields 8 (-8) 8)); [reflexivity | | by_kind | by_kind | by_kind | | |].
  - split; [cbn; lia|]. split; [cbn; lia|]. split.
    + apply Forall_forall. intros f Hf%list_elem_of_In. split; [apply value_field; auto|]. destruct Hf as [<-|[]]; reflexivity.
    + left. eexists. split; [reflexivity|]. split; [reflexivity|]. split; [reflexivity|]. intros _. left. cbn. lia.
  - apply (bool_decide_unpack _). vm_compute. exact I.
  - vm_compute. repeat split.
  - apply Forall_singleton. discriminate.
Qed.

Lemma value_types_ok : types_ok value_types ∅ value_descriptors 2.
Proof.
  split.
  - apply value_types_inv; [exact Value_type_wf | exact ArrayValue_type_wf].
  - apply value_types_inv; reflexivity.
  - apply value_types_inv; cbn; lia.
Qed.

(** An allocator that puts every block behind everything there is, in 4 KB. *)
Definition heap_top (h : heap) : Z := set_fold Z.max 0 (dom (h_mem h) ∪ dom (h_blocks h)).

Lemma heap_top_above h a : heap_top h < a -> h_mem h !! a = None /\ h_blocks h !! a = None.
Proof.
  intros Ha. destruct (set_fold_max (dom (h_mem h) ∪ dom (h_blocks h))) as [_ H]. fold (heap_top h) in H.
  split; apply not_elem_of_dom; intros Hin; specialize (H a); (assert (a <= heap_top h) by (apply H, elem_of_union; auto)); lia.
Qed.

Lemma heap_top_pos h : 0 <= heap_top h.
Proof. exact (proj1 (set_fold_max _)). Qed.

Definition bump_malloc (h : heap) (n : Z) : option (Z * list byte) :=
  if 1 + heap_top h + n <=? 4096 then Some (1 + heap_top h, repeat Byte.xaa (Z.to_nat n)) else None.

Lemma bump_malloc_ok h n a bs : 0 < n -> bump_malloc h n = Some (a, bs) ->
  zlen bs = n /\ 0 < a /\ a + n <= 2 ^ 64 /\ unmapped (h_mem h) a n /\ h_blocks h !! a = None.
Proof.
  intros Hn H. unfold bump_malloc in H. pose proof (heap_top_pos h). destruct (Z.leb_spec (1 + heap_top h + n) 4096); [|discriminate]. injection H as <- <-.
  split; [unfold zlen; rewrite repeat_length; lia|]. split; [lia|]. split; [lia|].
  split; [intros i Hi; apply heap_top_above; lia | apply heap_top_above; lia].
Qed.

Lemma bump_local_ok h n a : 0 < n -> 1 + heap_top h = a -> 0 < a /\ unmapped (h_mem h) a n.
Proof. intros Hn <-. pose proof (heap_top_pos h). split; [lia|]. intros i Hi. apply heap_top_above. lia. Qed.

#[local] Instance bump_machine : Machine :=
  {| malloc := bump_malloc; malloc_ok := bump_malloc_ok; local_variable := fun h _ => 1 + heap_top h; local_variable_ok := bump_local_ok |}.

Lemma bump_small n : available n -> n < 2 ^ 32.
Proof.
  intros (h & a & bs & H). cbn in H. unfold bump_malloc in H. pose proof (heap_top_pos h). destruct (Z.leb_spec (1 + heap_top h + n) 4096); [lia | discriminate].
Qed.

(** The application has no callback fields; one that reads a byte at a time
    would do. *)
#[local] Instance no_user_stream : InputCallback Empty_set.
Proof. refine {| cb_read := fun (s : Empty_set) _ _ => match s with end |}; intros []. Defined.
Definition byte_callback : Z -> pb_field -> Z -> M (dstate Empty_set) unit := fun _ _ _ => on_istream pb_readbyte ;; ret tt.
Definition no_type_decode : Z -> Z -> Z -> Z -> M (dstate Empty_set) unit := fun _ _ _ _ => stuck.

Lemma byte_callback_ok : callbacks_ok byte_callback.
Proof.
  intros K p f a s Φ _. iIntros "Ha HΦ". unfold byte_callback. iApply wp_bind.
  iApply (wp_istream K _ (fun r s' => forall b, r = Ok b -> i_bytes_left s' < i_bytes_left s)).
  - intros Hs. pose proof (pb_readbyte_safe s (in_order_ok K s Hs)) as [H1 H2]. pose proof (pb_readbyte_keeps K s Hs) as H3.
    split; [exact H1|]. split; [exact H3|]. intros b Hb. destruct (pb_readbyte s) as [r s1] eqn:E. cbn [fst snd] in *. subst r.
    apply pb_readbyte_left in E; [lia | exact (in_order_ok K s Hs)].
  - iIntros (o s') "%HR". destruct o as [b|]; [iApply wp_ret|]; iApply ("HΦ" with "[%] Ha"); [|discriminate].
    intros u _. left. exact (HR b eq_refl).
Qed.

(** The example of PbWire, the value at 100 and other bytes behind it. *)
Notation decode_value := (pb_decode value_descriptors ∅ byte_callback no_type_decode 32 15 (fields_of Value_type) 100).
Definition other_memory : heap := mk_heap (store_bytes ∅ 1000 [Byte.x01; Byte.x02]) ∅.
Definition value_stream : pb_istream Empty_set := pb_istream_from_buffer example_value (zlen example_value).
Definition value_start : dstate Empty_set := mk_dstate value_stream (with_structure 100 (zeros 24) other_memory).

Lemma value_stream_ok : in_order 0 value_stream /\ i_bytes_left value_stream < Z.of_nat 15.
Proof. split; [|reflexivity]. split; [lia|]. split; [split; vm_compute; [split; [discriminate | reflexivity] | discriminate] | vm_compute; discriminate]. Qed.

Lemma value_apart : apart (bytes_heap 100 (zeros 24)) other_memory.
Proof. split; apply (bool_decide_unpack _); vm_compute; exact I. Qed.

Lemma pb_decode_no_leak_witness :
  fst (decode_value value_start) = Ok tt /\
  match decode_value value_start with
  | (Ok _, st1) => exists bs st2, pb_release value_descriptors 32 (fields_of Value_type) 100 st1 = (Ok tt, st2) /\ zlen bs = 24 /\
      d_heap st2 = with_structure 100 bs other_memory
  | (Fail, st1) => exists bs, zlen bs = 24 /\ d_heap st1 = with_structure 100 bs other_memory
  | (Stuck, _) => False
  end.
Proof.
  split; [vm_compute; reflexivity|].
  apply (pb_decode_no_leak value_types value_descriptors ∅ 2 value_types_ok bump_small byte_callback byte_callback_ok no_type_decode
    Value_type 100 Value_type_wf ltac:(lia) 15 32 ltac:(cbn; lia) value_stream other_memory);
    [apply value_stream_ok | apply value_stream_ok | exact value_apart].
Defined.

Lemma pb_decode_terminates_witness :
  exists o st1, o <> Stuck /\ forall k' rfuel', (15 <= k')%nat -> (32 <= rfuel')%nat ->
    pb_decode value_descriptors ∅ byte_callback no_type_decode rfuel' k' (fields_of Value_type) 100 value_start = (o, st1).
Proof.
  apply (pb_decode_terminates value_types value_descriptors ∅ 2 value_types_ok bump_small byte_callback byte_callback_ok no_type_decode
    Value_type 100 Value_type_wf ltac:(lia) 15 32 ltac:(cbn; lia) value_stream other_memory);
    [apply value_stream_ok | apply value_stream_ok | exact value_apart].
Defined.

Lemma pb_decode_typed_witness :
  exists st1, decode_value value_start = (Ok tt, st1) /\
    in_order 0 (d_stream st1) /\ exists h, d_heap st1 = join h other_memory /\ apart h other_memory /\ message value_types 32 Filled Value_type 100 h.
Proof.
  destruct (decode_value value_start) as [r st1] eqn:E.
  assert (Hr : r = Ok tt) by (change r with (fst (r, st1)); rewrite <- E; vm_compute; reflexivity).
  exists st1. split; [rewrite Hr; reflexivity|]. rewrite Hr in E.
  apply (pb_decode_typed value_types value_descriptors ∅ 2 value_types_ok bump_small byte_callback byte_callback_ok no_type_decode
    Value_type 100 Value_type_wf ltac:(lia) 15 32 ltac:(cbn; lia) value_stream other_memory);
    [apply value_stream_ok | apply value_stream_ok | exact value_apart | exact E].
Defined.

(** The value decoded, decoded into once more, released and decoded from an input
    that ends too early. *)
Definition value_uses : list use :=
  [Decode value_stream; DecodeNoinit value_stream; Release; Decode (pb_istream_from_buffer (ztake 12 example_value) 12)].

Lemma value_uses_fit : Forall (use_fits 15) value_uses.
Proof.
  repeat apply Forall_cons_2; [exact value_stream_ok.. | exact I | | apply Forall_nil_2].
  split; [|reflexivity]. split; [lia|]. split; [split; vm_compute; [split; [discriminate | reflexivity] | discriminate] | vm_compute; discriminate].
Qed.

Lemma sessions_end_clean_witness :
  exists bs s', zlen bs = 24 /\
    session value_descriptors ∅ byte_callback no_type_decode 32 15 Value_type 100 Clear (value_uses ++ [Release]) value_start =
      Some (Clear, mk_dstate s' (with_structure 100 bs other_memory)).
Proof.
  apply (sessions_end_clean value_types value_descriptors ∅ 2 value_types_ok bump_small byte_callback byte_callback_ok no_type_decode
    Value_type 100 Value_type_wf ltac:(lia) 15 32 ltac:(cbn; lia) value_uses value_stream other_memory);
    [exact value_uses_fit | apply value_stream_ok | exact value_apart].
Defined.

(** ** What the guarantees need *)

(** Decoding into [n] bytes that are all [init], at 100. *)
Definition item_descriptors (a : Z) : option (list pb_field) :=
  if a =? 3000 then Some [mk_field 1 (PB_ATYPE_POINTER + PB_HTYPE_OPTIONAL + PB_LTYPE_BYTES) 0 0 8 0 0; PB_LAST_FIELD] else None.
Definition decode_from (fields : list pb_field) (init : byte) (n : nat) (input : list byte) : outcome unit * dstate Empty_set :=
  pb_decode item_descriptors ∅ byte_callback no_type_decode 20 20 (fields ++ [PB_LAST_FIELD]) 100
    (mk_dstate (pb_istream_from_buffer input (zlen input)) (mk_heap (store_bytes ∅ 100 (repeat init n)) ∅)).

(** An array of submessages in the structure, with a counter. *)
Definition counted_items : list pb_field := [mk_field 1 (PB_ATYPE_STATIC + PB_HTYPE_REPEATED + PB_LTYPE_SUBMESSAGE) 8 (-8) 8 2 3000].

(** The structure has to be zeroed: an item is counted before its length is read,
    and when that fails [pb_release] goes through the item, which nothing has
    initialised. *)
Theorem uninitialised_item_released :
  fst (decode_from counted_items Byte.xaa 24 [Byte.x0a; Byte.x64]) = Stuck /\
  fst (decode_from counted_items Byte.x00 24 [Byte.x0a; Byte.x64]) = Fail.
Proof. vm_compute. split; reflexivity. Qed.

(** An array of a fixed number of submessages, and another of numbers. *)
Definition fixed_items : list pb_field :=
  [mk_field 1 (PB_ATYPE_STATIC + PB_HTYPE_REPEATED + PB_LTYPE_SUBMESSAGE) 0 0 8 1 3000;
   mk_field 2 (PB_ATYPE_STATIC + PB_HTYPE_REPEATED + PB_LTYPE_FIXED32) 0 0 4 1 0].
Definition items_twice : list byte :=
  [Byte.x0a; Byte.x03; Byte.x0a; Byte.x01; Byte.x41; Byte.x15; Byte.x00; Byte.x00; Byte.x00; Byte.x00;
   Byte.x0a; Byte.x03; Byte.x0a; Byte.x01; Byte.x42].

(** Arrays of a fixed number of submessages are not among the types: when one
    comes again after another such field its items are set to their defaults, and
    what they owned is lost. *)
Theorem fixed_count_items_leak :
  let (r, st1) := decode_from fixed_items Byte.x00 12 items_twice in
  let (r2, st2) := pb_release item_descriptors 20 (fixed_items ++ [PB_LAST_FIELD]) 100 st1 in
  r = Ok tt /\ r2 = Ok tt /\ map_to_list (h_blocks (d_heap st2)) = [(120, 5)].
Proof. vm_compute. repeat split. Qed.

(** Nor are arrays of a fixed number that are smaller than a counter: setting the
    default writes a counter over the array and what is behind it. *)
Definition two_bools : list pb_field := [mk_field 1 (PB_ATYPE_STATIC + PB_HTYPE_REPEATED + PB_LTYPE_BOOL) 0 0 1 2 0].
Theorem small_fixed_array_overrun :
  fst (decode_from two_bools Byte.x00 2 [Byte.x0a; Byte.x02; Byte.x01; Byte.x01]) = Stuck /\
  fst (decode_from two_bools Byte.x00 4 [Byte.x0a; Byte.x02; Byte.x01; Byte.x01]) = Ok tt.
Proof. vm_compute. split; reflexivity. Qed.
