(* ===== verification/PbValue.v ===== *)
(** The values of messages: what the structure of a message means, apart from
    its layout.  The messages here are those whose members are in the structure
    itself: numbers, byte strings, texts and submessages, optional or repeated,
    as nanopb generates them from proto3 files with fixed sizes.  The encoder
    writes the wire format of the value. *)
From Stdlib Require Import ZArith Lia Bool String.
From coqutil Require Import Byte Word.LittleEndianList.
From stdpp Require Import base list numbers gmap.
From S2P Require Import Prelude PbStream PbCommon PbCodec PbSpec PbMemory PbEncode PbWire PbHeap.
Local Open Scope Z_scope.
Local Open Scope c_scope.

(** A number is its bytes in memory, a bool 0 or 1; a message lists the items of
    every member. *)
Inductive value :=
  | Number (bs : list byte)
  | Blob (data : list byte)
  | Text (data : list byte)
  | Message (members : list (list value)).

(** ** Types of messages *)

Definition is_number (f : pb_field) : bool := PB_LTYPE (type f) <=? PB_LTYPE_LAST_PACKABLE.

(** The offsets of members that are not in unions. *)
Fixpoint offsets_from (next : Z) (body : list pb_field) : list Z :=
  match body with
  | [] => []
  | f :: body => let o := next + data_offset f in o :: offsets_from (o + member_size f) body
  end.
Definition offsets (body : list pb_field) : list Z := offsets_from 0 body.
Definition body_of (fields : list pb_field) : list pb_field := removelast fields.

(** The bytes that a member at [p] takes: its items, and its count or has_ flag. *)
Definition flag_size (f : pb_field) : Z := if is_repeated f then 4 else 1.
Definition touches (f : pb_field) (p i : Z) : Prop :=
  p <= i < p + member_size f \/
  size_offset f <> 0 /\ p + size_offset f <= i < p + size_offset f + flag_size f.

Inductive number_type (f : pb_field) : Prop :=
  | type_bool : PB_LTYPE (type f) = PB_LTYPE_BOOL -> data_size f = 1 -> number_type f
  | type_integer n : PB_LTYPE (type f) = PB_LTYPE_VARINT \/ PB_LTYPE (type f) = PB_LTYPE_UVARINT \/ PB_LTYPE (type f) = PB_LTYPE_SVARINT ->
      int_size n -> data_size f = Z.of_nat n -> number_type f
  | type_fixed32 : PB_LTYPE (type f) = PB_LTYPE_FIXED32 -> data_size f = 4 -> number_type f
  | type_fixed64 : PB_LTYPE (type f) = PB_LTYPE_FIXED64 -> data_size f = 8 -> number_type f.

Section types.
Context (descriptors : Z -> option (list pb_field)).

(** [sub] are the messages one level down, with the size of their structures.
    Default values are zero; a fixed-length string and a submessage have a flag
    or a count. *)
Inductive item_type (sub : Z -> list pb_field -> Prop) (f : pb_field) : Prop :=
  | type_number : number_type f -> ptr f = 0 -> item_type sub f
  | type_bytes : PB_LTYPE (type f) = PB_LTYPE_BYTES -> 4 <= data_size f -> ptr f = 0 -> item_type sub f
  | type_string : PB_LTYPE (type f) = PB_LTYPE_STRING -> ptr f = 0 -> item_type sub f
  | type_fixed : PB_LTYPE (type f) = PB_LTYPE_FIXED_LENGTH_BYTES -> size_offset f <> 0 -> ptr f = 0 -> item_type sub f
  | type_message fields : PB_LTYPE (type f) = PB_LTYPE_SUBMESSAGE -> size_offset f <> 0 -> ptr f <> 0 ->
      descriptors (ptr f) = Some fields -> sub (data_size f) fields -> item_type sub f.

Record plain_field (sub : Z -> list pb_field -> Prop) (f : pb_field) : Prop := {
  plain_tag : 0 < tag f < 2 ^ 29;
  plain_static : PB_ATYPE (type f) = PB_ATYPE_STATIC;
  plain_rule : PB_HTYPE (type f) = PB_HTYPE_OPTIONAL \/
    PB_HTYPE (type f) = PB_HTYPE_REPEATED /\ size_offset f <> 0 /\ 0 < array_size f;
  plain_size : 0 < data_size f /\ 0 < member_size f < 2 ^ 32;
  plain_flag : size_offset f = 0 \/ size_offset f + flag_size f <= 0 \/ member_size f <= size_offset f;
  plain_item : item_type sub f;
}.

(** The members are apart and inside the structure. *)
Record plain_layout (size : Z) (body : list pb_field) : Prop := {
  layout_inside : forall k f o i, body !! k = Some f -> offsets body !! k = Some o -> touches f o i -> 0 <= i < size;
  layout_apart : forall k f o k' f' o' i, body !! k = Some f -> offsets body !! k = Some o ->
    body !! k' = Some f' -> offsets body !! k' = Some o' -> k <> k' -> touches f o i -> ~ touches f' o' i;
}.

(** A message whose submessages nest to a depth below [n]. *)
Fixpoint plain (n : nat) (size : Z) (fields : list pb_field) : Prop :=
  match n with
  | O => False
  | S n => fields = body_of fields ++ [PB_LAST_FIELD] /\ body_of fields <> [] /\
      Forall (plain_field (plain n)) (body_of fields) /\ NoDup (map tag (body_of fields)) /\ plain_layout size (body_of fields)
  end.

(** ** Values in memory *)

Section items.
Context (m : mem) (sub : list pb_field -> Z -> list (list value) -> Prop).

(** The item of the field [f] at [p]; a text has an end inside its array. *)
Inductive item_at (f : pb_field) (p : Z) : value -> Prop :=
  | at_bool b : PB_LTYPE (type f) = PB_LTYPE_BOOL -> load_bytes m p 1 = Some [b] ->
      item_at f p (Number [b8 (if u8 b =? 0 then 0 else 1)])
  | at_number bs : is_number f = true -> PB_LTYPE (type f) <> PB_LTYPE_BOOL -> load_bytes m p (data_size f) = Some bs ->
      item_at f p (Number bs)
  | at_blob n data : PB_LTYPE (type f) = PB_LTYPE_BYTES -> load_pb_size m p = Some n -> n <= data_size f - 4 ->
      load_bytes m (p + 4) n = Some data -> item_at f p (Blob data)
  | at_fixed data : PB_LTYPE (type f) = PB_LTYPE_FIXED_LENGTH_BYTES -> load_bytes m p (data_size f) = Some data -> item_at f p (Blob data)
  | at_text data : PB_LTYPE (type f) = PB_LTYPE_STRING -> zlen data < data_size f -> Forall (fun b => u8 b <> 0) data ->
      load_bytes m p (zlen data + 1) = Some (data ++ [Byte.x00]) -> item_at f p (Text data)
  | at_message fields ms : PB_LTYPE (type f) = PB_LTYPE_SUBMESSAGE -> descriptors (ptr f) = Some fields -> sub fields p ms ->
      item_at f p (Message ms).

(** One item after the other. *)
Fixpoint items_at (f : pb_field) (p : Z) (vs : list value) : Prop :=
  match vs with [] => True | v :: vs => item_at f p v /\ items_at f (p + data_size f) vs end.

(** Whether an optional member is there; without a flag it is not when it has
    the default value. *)
Definition there (f : pb_field) (p : Z) : option bool :=
  if negb (size_offset f =? 0) then option_map (fun c => negb (u8 c =? 0)) (m !! (p + size_offset f))
  else if PB_LTYPE (type f) =? PB_LTYPE_BYTES then option_map (fun n => negb (0 =? n)) (load_pb_size m p)
  else if PB_LTYPE (type f) =? PB_LTYPE_STRING then option_map (fun b => negb (u8 b =? 0)) (m !! p)
  else option_map (fun bs => negb (all_zero bs)) (load_bytes m p (data_size f)).

Definition member_at (f : pb_field) (p : Z) (vs : list value) : Prop :=
  if is_repeated f then load_pb_size m (p + size_offset f) = Some (zlen vs) /\ zlen vs <= array_size f /\ items_at f p vs
  else match vs with
       | [] => there f p = Some false
       | [v] => there f p = Some true /\ item_at f p v
       | _ => False
       end.

Definition members_at (body : list pb_field) (d : Z) (ms : list (list value)) : Prop :=
  length ms = length body /\
  forall k f o vs, body !! k = Some f -> offsets body !! k = Some o -> ms !! k = Some vs -> member_at f (d + o) vs.
End items.

(** The structure at [d] holds the message [ms]. *)
Fixpoint stored (n : nat) (m : mem) (fields : list pb_field) (d : Z) (ms : list (list value)) : Prop :=
  match n with
  | O => False
  | S n => 0 < d /\ members_at m (stored n m) (body_of fields) d ms
  end.

(** ** Values on the wire *)

Definition number_bytes (f : pb_field) (bs : list byte) : list byte :=
  let l := PB_LTYPE (type f) in
  if l =? PB_LTYPE_VARINT then varint (u64 (sext (8 * zlen bs) (le_combine bs)))
  else if l =? PB_LTYPE_SVARINT then varint (zigzag_value (sext (8 * zlen bs) (le_combine bs)))
  else if (l =? PB_LTYPE_FIXED32) || (l =? PB_LTYPE_FIXED64) then bs
  else varint (le_combine bs).

Section wire.
Context (sub : list pb_field -> list (list value) -> list byte).

Definition value_bytes (f : pb_field) (v : value) : list byte :=
  match v with
  | Number bs => number_bytes f bs
  | Blob data | Text data => delimited data
  | Message ms => match descriptors (ptr f) with Some fields => delimited (sub fields ms) | None => [] end
  end.

(** Numbers that are repeated are packed into one record; all other items have
    records of their own. *)
Definition records (f : pb_field) (vs : list value) : list (list value) :=
  if is_repeated f && is_number f then match vs with [] => [] | _ => [vs] end else map (fun v => [v]) vs.

Definition wire_type (f : pb_field) : Z := match protocol_wire_type (PB_LTYPE (type f)) with Some wt => wt | None => 0 end.

Definition record_bytes (f : pb_field) (vs : list value) : list byte :=
  if is_repeated f && is_number f then key f PB_WT_STRING ++ delimited (concat (map (value_bytes f) vs))
  else key f (wire_type f) ++ concat (map (value_bytes f) vs).

Definition member_bytes (f : pb_field) (vs : list value) : list byte := concat (map (record_bytes f) (records f vs)).
End wire.

Fixpoint wire (n : nat) (fields : list pb_field) (ms : list (list value)) : list byte :=
  match n with
  | O => []
  | S n => concat (zip_with (member_bytes (wire n)) (body_of fields) ms)
  end.
End types.

(** ** The encoder writes the value *)

Lemma plain_not_oneof descriptors sub f : plain_field descriptors sub f -> PB_HTYPE (type f) =? PB_HTYPE_ONEOF = false.
Proof. intros H. destruct (plain_rule _ _ _ H) as [-> |(-> & _)]; reflexivity. Qed.

Lemma offsets_laid_out body : Forall (fun f => PB_HTYPE (type f) =? PB_HTYPE_ONEOF = false) body -> laid_out body (offsets body).
Proof.
  intros H. destruct body as [|f body]; [exact I|]. unfold offsets. cbn [offsets_from laid_out]. split; [lia|].
  apply Forall_cons_iff in H as [Hf H]. rewrite Z.add_0_l.
  assert (G : forall prev o, PB_HTYPE (type prev) =? PB_HTYPE_ONEOF = false -> Forall (fun f => PB_HTYPE (type f) =? PB_HTYPE_ONEOF = false) body ->
    laid_out_from prev o body (offsets_from (o + member_size prev) body)); [|apply G; assumption].
  clear. induction body as [|g body IH]; intros prev o Hp H; cbn [offsets_from laid_out_from]; [exact I|].
  apply Forall_cons_iff in H as [Hg H]. split; [|apply (IH g _ Hg H)].
  unfold same_union. rewrite Hp. cbn [andb]. lia.
Qed.

Lemma length_offsets body : length (offsets body) = length body.
Proof. unfold offsets. generalize 0. induction body as [|f body IH]; intros z; cbn; [reflexivity | rewrite IH; reflexivity]. Qed.

Lemma zlen_concat_in (l : list (list byte)) x : In x l -> zlen x <= zlen (concat l).
Proof.
  induction l as [|y l IH]; intros []; cbn [concat]; rewrite zlen_app; pose proof (zlen_nonneg y); pose proof (zlen_nonneg (concat l)).
  - subst. lia.
  - specialize (IH H). lia.
Qed.

Lemma zlen_delimited bs : zlen bs <= zlen (delimited bs).
Proof. unfold delimited. rewrite zlen_app. pose proof (zlen_nonneg (varint (zlen bs))). lia. Qed.

Section encodes.
Context (descriptors : Z -> option (list pb_field)) (m : mem).
(** The messages one level down: their types, values, bytes and wire formats. *)
Context (sub_type : Z -> list pb_field -> Prop) (sub : list pb_field -> Z -> list (list value) -> Prop).
Context (w : list pb_field -> list (list value) -> list byte) (sub_wire : list pb_field -> Z -> list byte -> Prop).
Context (Hsub : forall size fields p ms, sub_type size fields -> sub fields p ms -> zlen (w fields ms) < 2 ^ 32 -> sub_wire fields p (w fields ms)).
Notation vb := (value_bytes descriptors w).

Lemma number_scalar f p v : number_type f -> is_number f = true -> item_at descriptors m sub f p v ->
  exists bs, load_bytes m p (data_size f) = Some bs /\ scalar_wire f bs (vb f v).
Proof.
  intros Ht Hn Hi. unfold is_number in Hn.
  destruct Hi as [b Hb Hl|bs _ Hb Hl|n data Hb|data Hb|data Hb|fields ms Hb]; try (rewrite Hb in Hn; discriminate Hn).
  - assert (E : data_size f = 1) by (destruct Ht as [_ H|n [H|[H|H]]|H|H]; [exact H | rewrite H in Hb; discriminate Hb..]).
    exists [b]. rewrite E. split; [exact Hl|]. cbn [value_bytes]. unfold number_bytes. rewrite Hb. cbn [Z.eqb orb PB_LTYPE_BOOL PB_LTYPE_VARINT PB_LTYPE_SVARINT PB_LTYPE_FIXED32 PB_LTYPE_FIXED64].
    rewrite le_combine_1. replace (u8 (b8 (if u8 b =? 0 then 0 else 1))) with (if u8 b =? 0 then 0 else 1) by (destruct (u8 b =? 0); reflexivity).
    apply wire_bool, Hb.
  - exists bs. split; [exact Hl|]. apply load_bytes_zlen in Hl as [Hz _]. cbn [value_bytes]. unfold number_bytes.
    destruct Ht as [H|n [H|[H|H]] Hi Hs|H Hs|H Hs]; try contradiction; rewrite H; cbn [Z.eqb orb Pos.eqb PB_LTYPE_UVARINT PB_LTYPE_VARINT PB_LTYPE_SVARINT PB_LTYPE_FIXED32 PB_LTYPE_FIXED64];
      rewrite Hs in Hz.
    + rewrite Hz. apply (wire_varint f n bs H Hi). unfold zlen in Hz. lia.
    + apply (wire_uvarint f n bs H Hi). unfold zlen in Hz. lia.
    + rewrite Hz. apply (wire_svarint f n bs H Hi). unfold zlen in Hz. lia.
    + apply (wire_fixed32 f bs H). unfold zlen in Hz. lia.
    + apply (wire_fixed64 f bs H). unfold zlen in Hz. lia.
Qed.

Lemma number_type_number f : number_type f -> is_number f = true.
Proof. intros [H|n [H|[H|H]]|H|H]; unfold is_number; rewrite H; reflexivity. Qed.

Lemma value_item f p v : plain_field descriptors sub_type f -> p <> 0 -> item_at descriptors m sub f p v -> zlen (vb f v) < 2 ^ 32 ->
  item_wire m descriptors sub_wire f p (vb f v).
Proof.
  intros Hf Hp Hi Hl. pose proof (plain_item _ _ _ Hf) as Ht. pose proof (plain_static _ _ _ Hf) as Hs. pose proof (plain_size _ _ _ Hf) as [Hd1 Hd2].
  destruct (is_number f) eqn:En.
  { assert (Hn : number_type f).
    { unfold is_number in En. destruct Ht as [H _|H|H|H|? H]; [exact H|..]; rewrite H in En; discriminate En. }
    destruct (number_scalar f p v Hn En Hi) as (bs & Hb & Hw). exact (item_scalar _ _ _ _ _ bs _ Hb Hw). }
  unfold is_number in En. destruct Hi as [b Hb Hll|bs Hb _ Hll|n data Hb Hn Hle Hll|data Hb Hll|data Hb Hlt Hnz Hll|fields ms Hb Hfs Hms]; cbn [value_bytes] in *.
  - rewrite Hb in En. discriminate En.
  - unfold is_number in Hb. congruence.
  - apply (item_bytes _ _ _ _ _ n data Hb Hp Hn Hll). intros _.
    destruct Ht as [H|H Hds|H|H|? H]; try (rewrite Hb in H; discriminate H); [apply number_type_number in H; unfold is_number in H; rewrite Hb in H; discriminate H|].
    split; [|lia]. assert (data_size f <= member_size f); [|lia]. unfold member_size. rewrite Hs. cbn [Z.eqb PB_ATYPE_STATIC PB_ATYPE_POINTER andb].
    destruct (Z.eqb_spec (PB_HTYPE (type f)) PB_HTYPE_REPEATED) as [Hr|Hr]; [|lia].
    destruct (plain_rule _ _ _ Hf) as [E|(_ & _ & Ha)]; [rewrite E in Hr; discriminate Hr | nia].
  - apply (item_fixed _ _ _ _ _ data Hb Hll). pose proof (zlen_delimited data). lia.
  - apply (item_string _ _ _ _ _ data Hb Hp); [|pose proof (zlen_delimited data); lia].
    assert (Hmax : string_max f = data_size f) by (unfold string_max; rewrite Hs; reflexivity). unfold c_string. rewrite Hmax.
    apply load_bytes_zlen in Hll as [Hz Hb2]. pose proof (zlen_nonneg data). replace (Z.to_nat (zlen data + 1)) with (length data + 1)%nat in Hb2 by (unfold zlen; lia).
    assert (E : bytes_at m p (length data) = data).
    { rewrite <- (bytes_at_take m p (length data + 1) (length data)) by lia. rewrite Hb2. apply take_app_length. }
    split; [|split; [exact Hnz|right; split; [exact Hlt|]]].
    + rewrite load_bytes_Some; unfold zlen; rewrite Nat2Z.id, E; reflexivity.
    + rewrite bytes_at_app in Hb2 by (rewrite E; reflexivity). rewrite E in Hb2. apply app_inv_head in Hb2. cbn in Hb2.
      change (Z.of_nat (length data)) with (zlen data) in Hb2. destruct (m !! (p + zlen data)); [injection Hb2 as ->; reflexivity | discriminate].
  - rewrite Hfs in *. destruct Ht as [H|H|H|H|fields' H Hz Hpt Hfs' Hst]; try (rewrite Hb in H; discriminate H);
      [apply number_type_number in H; unfold is_number in H; rewrite Hb in H; discriminate H|].
    assert (fields' = fields) as -> by congruence. pose proof (zlen_delimited (w fields ms)).
    apply (item_submessage _ _ _ _ _ fields); [exact Hb | exact Hpt | exact Hfs | apply (Hsub (data_size f)); [exact Hst | exact Hms | lia] | lia].
Qed.

Lemma items_packed f vs : number_type f -> forall p, items_at descriptors m sub f p vs ->
  packed_wire m descriptors sub_wire f p (length vs) (concat (map (vb f) vs)).
Proof.
  intros Ht. induction vs as [|v vs IH]; intros p H; cbn [length map concat]; [constructor|]. destruct H as [Hv H].
  destruct (number_scalar f p v Ht (number_type_number f Ht) Hv) as (bs & Hb & Hw).
  constructor; [exact (item_scalar _ _ _ _ _ bs _ Hb Hw) | apply IH, H].
Qed.

Lemma static_direct f : PB_ATYPE (type f) = PB_ATYPE_STATIC -> indirect f = false.
Proof. intros H. unfold indirect. rewrite H. reflexivity. Qed.

Lemma items_unpacked f wt vs : plain_field descriptors sub_type f -> forall p, 0 < p -> items_at descriptors m sub f p vs ->
  zlen (concat (map (fun v => key f wt ++ concat (map (vb f) [v])) vs)) < 2 ^ 32 ->
  unpacked_wire m descriptors sub_wire f wt p (length vs) (concat (map (fun v => key f wt ++ concat (map (vb f) [v])) vs)).
Proof.
  intros Hf. pose proof (plain_size _ _ _ Hf) as [Hd _]. induction vs as [|v vs IH]; intros p Hp H Hl; cbn [length map concat] in *; [constructor|].
  destruct H as [Hv H]. rewrite app_nil_r in *. rewrite !zlen_app in Hl. pose proof (zlen_nonneg (key f wt)). pose proof (zlen_nonneg (vb f v)).
  set (rest := concat (map _ vs)) in *. pose proof (zlen_nonneg rest). rewrite <- app_assoc.
  apply (unpacked_cons _ _ _ _ _ _ p); [rewrite (static_direct f (plain_static _ _ _ Hf)); reflexivity | | apply IH; [lia | exact H | lia]].
  apply (value_item f p v Hf); [lia | exact Hv | lia].
Qed.

Lemma there_present k f p b : plain_field descriptors sub_type f -> is_repeated f = false -> there m f p = Some b ->
  present m (has_default m descriptors (S k)) f p b.
Proof.
  intros Hf Hr H. unfold there, present in *. destruct (Z.eqb_spec (size_offset f) 0) as [Hz|Hz]; cbn [negb] in *.
  2: { destruct (m !! (p + size_offset f)) as [c|] eqn:Ec; [|discriminate]. injection H as <-. exists c. auto. }
  assert (Ho : PB_HTYPE (type f) = PB_HTYPE_OPTIONAL).
  { destruct (plain_rule _ _ _ Hf) as [E|(E & _)]; [exact E|]. unfold is_repeated in Hr. rewrite E in Hr. discriminate Hr. }
  pose proof (plain_static _ _ _ Hf) as Ha. rewrite Ha. cbn [Z.eqb PB_ATYPE_STATIC PB_ATYPE_POINTER].
  enough (exists d, value_default m descriptors (has_default m descriptors k) f p d /\ b = negb d) as (d & Hd & ->)
    by (exists d; split; [apply default_value; assumption | reflexivity]).
  destruct (Z.eqb_spec (PB_LTYPE (type f)) PB_LTYPE_BYTES) as [Et|Eb].
  { destruct (load_pb_size m p) as [n|] eqn:En; [|discriminate]. injection H as <-. exists (n =? 0). split; [apply default_bytes; assumption | rewrite Z.eqb_sym; reflexivity]. }
  destruct (Z.eqb_spec (PB_LTYPE (type f)) PB_LTYPE_STRING) as [Et|Es].
  { destruct (m !! p) as [c|] eqn:Ec; [|discriminate]. injection H as <-. exists (u8 c =? 0). split; [apply default_string; assumption | reflexivity]. }
  destruct (load_bytes m p (data_size f)) as [bs|] eqn:El; [|discriminate]. injection H as <-. exists (all_zero bs). split; [|reflexivity].
  apply default_zeros; [right; split; [exact Ha|] | exact El].
  assert (Hn : number_type f) by (destruct (plain_item _ _ _ Hf) as [Hn|Hn|Hn|_ Hn|? _ Hn]; [exact Hn | contradiction..]).
  apply number_type_number in Hn. unfold is_number in Hn. cbn [In]. intros [E|[E|[E|[E|[]]]]]; rewrite <- E in Hn; discriminate Hn.
Qed.

Lemma wire_type_known f : plain_field descriptors sub_type f -> protocol_wire_type (PB_LTYPE (type f)) = Some (wire_type f).
Proof.
  intros Hf. unfold wire_type. destruct (plain_item _ _ _ Hf) as [[H|n [H|[H|H]]|H|H]|H|H|H|? H]; rewrite H; reflexivity.
Qed.

Context {CB : Type} {OCB : OutputCallback CB}.
Context (funcs_encode : Z -> pb_field -> Z -> M (pb_ostream CB) unit).

Lemma member_field_wire k f p vs : plain_field descriptors sub_type f -> 0 < p -> member_at descriptors m sub f p vs ->
  zlen (member_bytes descriptors w f vs) < 2 ^ 32 ->
  field_wire m descriptors funcs_encode sub_wire (has_default m descriptors (S k)) f p (member_bytes descriptors w f vs).
Proof.
  intros Hf Hp H Hl.
  assert (Htyped : well_typed f).
  { pose proof (plain_tag _ _ _ Hf). pose proof (plain_static _ _ _ Hf) as E. split; [unfold in_word; lia|]. split; [left; exact E|]. rewrite E. discriminate. }
  assert (Hdata : data_of m f p = Some p) by (unfold data_of; rewrite (plain_static _ _ _ Hf); reflexivity).
  pose proof (wire_type_known f Hf) as Hwt. unfold member_at, member_bytes, records, record_bytes in *. destruct (is_repeated f) eqn:Er; cbn [andb] in *.
  - assert (Erep : PB_HTYPE (type f) = PB_HTYPE_REPEATED) by (apply Z.eqb_eq, Er).
    destruct H as (Hc & Hn & Hi).
    assert (Hz : size_offset f <> 0) by (destruct (plain_rule _ _ _ Hf) as [E|(_ & E & _)]; [rewrite E in Erep; discriminate Erep | exact E]).
    assert (Hcount : count_of m f p = Some (zlen vs)) by (unfold count_of; rewrite (proj2 (Z.eqb_neq _ _) Hz); exact Hc).
    destruct vs as [|v vs].
    { assert (E0 : concat (map (fun v => if is_number f then key f PB_WT_STRING ++ delimited (concat (map (vb f) v)) else key f (wire_type f) ++ concat (map (vb f) v))
        (if is_number f then [] else map (fun v => [v]) [])) = []) by (destruct (is_number f); reflexivity).
      rewrite E0. apply (field_absent _ _ _ _ _ f p p (wire_type f)); auto. }
    pose proof (zlen_nonneg vs). destruct (is_number f) eqn:En.
    + cbn [map concat] in *. rewrite app_nil_r in *. rewrite zlen_app in Hl. set (bs := vb f v ++ concat (map (vb f) vs)) in *.
      pose proof (zlen_delimited bs). pose proof (zlen_nonneg (key f PB_WT_STRING)).
      assert (Hnt : number_type f).
      { unfold is_number in En. destruct (plain_item _ _ _ Hf) as [Ht|Ht|Ht|Ht|? Ht]; [exact Ht|..]; rewrite Ht in En; discriminate En. }
      assert (Ha : zlen (v :: vs) < 2 ^ 32).
      { pose proof (plain_size _ _ _ Hf) as [Hd1 Hd2]. unfold member_size in Hd2. rewrite (plain_static _ _ _ Hf), Erep in Hd2. cbn [Z.eqb Pos.eqb andb PB_ATYPE_STATIC PB_HTYPE_REPEATED] in Hd2. nia. }
      apply (field_packed _ _ _ _ _ f p p (zlen (v :: vs)) bs); auto; try lia; [unfold is_number in En; apply Z.leb_le, En | rewrite zlen_cons; lia |].
      unfold zlen. rewrite Nat2Z.id. exact (items_packed f (v :: vs) Hnt p Hi).
    + rewrite map_map in *. apply (field_unpacked _ _ _ _ _ f p p (zlen (v :: vs)) (wire_type f)); auto; [unfold is_number in En; apply Z.leb_gt, En | rewrite zlen_cons; lia |].
      unfold zlen. rewrite Nat2Z.id. apply (items_unpacked f (wire_type f) (v :: vs) Hf p Hp Hi Hl).
  - assert (Eopt : PB_HTYPE (type f) = PB_HTYPE_OPTIONAL).
    { destruct (plain_rule _ _ _ Hf) as [E|(E & _)]; [exact E|]. unfold is_repeated in Er. rewrite E in Er. discriminate Er. }
    destruct vs as [|v [|? ?]]; [| |contradiction].
    + apply (field_absent _ _ _ _ _ f p p (wire_type f)); auto. left. split; [exact Eopt | apply there_present; assumption].
    + destruct H as [Ht Hi]. cbn [map concat] in *. rewrite !app_nil_r in *. rewrite zlen_app in Hl. pose proof (zlen_nonneg (key f (wire_type f))).
      apply (field_single _ _ _ _ _ f p p (wire_type f)); auto.
      * right. left. split; [exact Eopt | apply there_present; assumption].
      * apply (value_item f p v Hf); [lia | exact Hi | lia].
Qed.
End encodes.

Lemma plain_inside descriptors sub size body k f o : Forall (plain_field descriptors sub) body -> plain_layout size body ->
  body !! k = Some f -> offsets body !! k = Some o -> 0 <= o /\ o + member_size f <= size.
Proof.
  intros Hb Hl Hf Ho. pose proof (Forall_lookup_1 _ _ _ _ Hb Hf) as H. pose proof (plain_size _ _ _ H) as [_ Hs].
  pose proof (layout_inside _ _ Hl k f o o Hf Ho ltac:(left; lia)). pose proof (layout_inside _ _ Hl k f o (o + member_size f - 1) Hf Ho ltac:(left; lia)). lia.
Qed.

(** The structure of a value has the wire format that [PbWire.v] describes, and
    so the encoder writes it. *)
Theorem stored_wire {CB} {OCB : OutputCallback CB} descriptors (funcs_encode : Z -> pb_field -> Z -> M (pb_ostream CB) unit) type_encode m n :
  forall size fields d ms, plain descriptors n size fields -> stored descriptors n m fields d ms -> zlen (wire descriptors n fields ms) < 2 ^ 32 ->
  message_wire m descriptors funcs_encode type_encode n fields d (wire descriptors n fields ms).
Proof.
  induction n as [|n IH]; intros size fields d ms Hp Hs Hl; [contradiction|].
  destruct Hp as (Ef & _ & Hb & _ & Hlay). destruct Hs as [Hd [Hlen Hm]]. cbn [wire message_wire] in *.
  set (body := body_of fields) in *. exists body, (offsets body).
  assert (Htags : Forall (fun f => tag f <> 0) body) by (eapply Forall_impl; [exact Hb|]; intros f Hf; pose proof (plain_tag _ _ _ Hf); lia).
  split; [split; assumption|]. split; [apply offsets_laid_out; eapply Forall_impl; [exact Hb|]; intros f; apply plain_not_oneof|]. split; [lia|].
  assert (Hoff : forall k f o, body !! k = Some f -> offsets body !! k = Some o -> 0 < d + o).
  { intros k f o Hf Ho. destruct (plain_inside _ _ _ _ k f o Hb Hlay Hf Ho). lia. }
  assert (G : forall b os vss, length os = length b -> length vss = length b ->
    (forall k f o vs, b !! k = Some f -> os !! k = Some o -> vss !! k = Some vs ->
       plain_field descriptors (plain descriptors n) f /\ 0 < d + o /\ member_at descriptors m (stored descriptors n m) f (d + o) vs) ->
    zlen (concat (zip_with (member_bytes descriptors (wire descriptors n)) b vss)) < 2 ^ 32 ->
    members_wire m descriptors funcs_encode type_encode (message_wire m descriptors funcs_encode type_encode n)
      (has_default m descriptors (S n)) d b os (concat (zip_with (member_bytes descriptors (wire descriptors n)) b vss))).
  2: { apply G; [apply length_offsets | exact Hlen | | exact Hl]. intros k f o vs Hf Ho Hv. split; [apply (Forall_lookup_1 _ _ _ _ Hb Hf)|]. eauto. }
  clear - IH. induction b as [|f b IHb]; intros [|o os] [|vs vss] Ho Hv H Hl; try discriminate; cbn [zip_with concat] in *; [constructor|].
  rewrite zlen_app in Hl. set (bs := member_bytes _ _ f vs) in *. set (rest := concat _) in *. pose proof (zlen_nonneg bs). pose proof (zlen_nonneg rest).
  destruct (H 0%nat f o vs eq_refl eq_refl eq_refl) as (Hf & Hp & Hm). constructor.
  - apply member_field.
    + destruct (plain_item _ _ _ Hf) as [[E|? [E|[E|E]]|E|E]|E|E|E|? E]; rewrite E; discriminate.
    + apply (member_field_wire descriptors m (plain descriptors n) (stored descriptors n m)); [|exact Hf | exact Hp | exact Hm | fold bs; lia].
      intros size fields p ms Ht Hs Hl'. exact (IH size fields p ms Ht Hs Hl').
  - apply IHb; [injection Ho; auto | injection Hv; auto | | fold rest; lia]. intros k f' o' vs' Hf' Ho' Hv'. apply (H (S k) f' o' vs' Hf' Ho' Hv').
Qed.
