(* ===== verification/PbRoundtrip.v ===== *)
(** What is encoded decodes to the same value: [pb_decode] on the wire format
    of a value fills any structure with that value, and touches nothing else. *)
From Stdlib Require Import ZArith Lia Bool String.
From coqutil Require Import Byte Word.LittleEndianList.
From stdpp Require Import base list numbers gmap.
From S2P Require Import Prelude PbStream PbCommon PbCodec PbSpec PbMemory PbEncode PbWire PbHeap PbDecode PbGuarantee PbValue.
Local Open Scope Z_scope.
Local Open Scope c_scope.

(** ** Memories that differ in a few places *)

Definition span (a n i : Z) : Prop := a <= i < a + n.
Definition mapped (m : mem) (a n : Z) : Prop := forall i, span a n i -> is_Some (m !! i).
Definition same_on (P : Z -> Prop) (m m' : mem) : Prop := forall i, P i -> m' !! i = m !! i.

(** Only the bytes of [P] have changed, and everything is still there. *)
Record changes (P : Z -> Prop) (m m' : mem) : Prop := {
  changes_same : same_on (fun i => ~ P i) m m';
  changes_mapped : forall i, is_Some (m !! i) -> is_Some (m' !! i);
}.

Lemma changes_refl P m : changes P m m.
Proof. split; [intros i _; reflexivity | auto]. Qed.

Lemma changes_trans (P : Z -> Prop) m1 m2 m3 : changes P m1 m2 -> changes P m2 m3 -> changes P m1 m3.
Proof. intros [H1 H2] [H3 H4]. split; [intros i Hi; rewrite H3, H1 by exact Hi; reflexivity | auto]. Qed.

Lemma changes_weaken (P Q : Z -> Prop) m m' : (forall i, P i -> Q i) -> changes P m m' -> changes Q m m'.
Proof. intros H [H1 H2]. split; [intros i Hi; apply H1; auto | exact H2]. Qed.

Lemma changes_store m a bs : mapped m a (zlen bs) -> changes (span a (zlen bs)) m (store_bytes m a bs).
Proof.
  intros H. split.
  - intros i Hi. rewrite lookup_store. destruct (decide _) as [Hd|]; [contradiction (Hi Hd) | reflexivity].
  - intros i Hi. rewrite lookup_store. destruct (decide _) as [Hd|]; [|exact Hi]. apply lookup_lt_is_Some. unfold zlen in Hd. lia.
Qed.

(** Bytes that a change leaves alone. *)
Lemma changes_on (P Q : Z -> Prop) m m' : changes P m m' -> (forall i, Q i -> ~ P i) -> same_on Q m m'.
Proof. intros [H _] HQ i Hi. apply H, HQ, Hi. Qed.

Lemma mapped_changes P m m' a n : changes P m m' -> mapped m a n -> mapped m' a n.
Proof. intros [_ H] Hm i Hi. apply H, Hm, Hi. Qed.

Lemma mapped_sub m a n b k : mapped m a n -> a <= b -> b + k <= a + n -> mapped m b k.
Proof. intros H H1 H2 i Hi. apply H. unfold span in *. lia. Qed.

Lemma same_sub (P Q : Z -> Prop) m m' : same_on P m m' -> (forall i, Q i -> P i) -> same_on Q m m'.
Proof. intros H HQ i Hi. apply H, HQ, Hi. Qed.

Lemma same_span m m' a n b k : same_on (span a n) m m' -> a <= b -> b + k <= a + n -> same_on (span b k) m m'.
Proof. intros H H1 H2. apply (same_sub _ _ _ _ H). unfold span. lia. Qed.

Lemma bytes_at_same m m' n : forall a, same_on (span a (Z.of_nat n)) m m' -> bytes_at m' a n = bytes_at m a n.
Proof.
  induction n as [|n IH]; intros a H; cbn [bytes_at]; [reflexivity|]. rewrite (H a) by (unfold span; lia).
  destruct (m !! a); [|reflexivity]. f_equal. apply IH. apply (same_span _ _ _ _ _ _ H); lia.
Qed.

Lemma load_same m m' a n : same_on (span a n) m m' -> load_bytes m' a n = load_bytes m a n.
Proof.
  intros H. unfold load_bytes. rewrite (bytes_at_same m m'); [reflexivity|]. apply (same_sub _ _ _ _ H). unfold span. lia.
Qed.

Lemma load_size_same m m' a : same_on (span a 4) m m' -> load_pb_size m' a = load_pb_size m a.
Proof. intros H. unfold load_pb_size, load_int. rewrite (load_same m m'); [reflexivity | exact H]. Qed.

Lemma bytes_at_mapped m n : forall a, mapped m a (Z.of_nat n) -> length (bytes_at m a n) = n.
Proof.
  induction n as [|n IH]; intros a H; cbn [bytes_at]; [reflexivity|]. destruct (H a) as [b ->]; [unfold span; lia|].
  cbn [length]. f_equal. apply IH. apply (mapped_sub _ _ _ _ _ H); lia.
Qed.

Lemma load_mapped m a n : 0 <= n -> mapped m a n -> exists bs, load_bytes m a n = Some bs.
Proof.
  intros Hn H. eexists. apply load_bytes_Some. unfold zlen. rewrite bytes_at_mapped; [lia|]. rewrite Z2Nat.id by exact Hn. exact H.
Qed.

Lemma mapped_load m a n bs : load_bytes m a n = Some bs -> mapped m a n.
Proof.
  intros [Hz H]%load_bytes_zlen i Hi. unfold span in Hi. replace i with (a + Z.of_nat (Z.to_nat (i - a))) by lia.
  assert (E : length (bytes_at m a (Z.to_nat n)) = Z.to_nat n) by (rewrite H; unfold zlen in Hz; lia).
  apply (bytes_at_dom m a _ _ E). lia.
Qed.

Lemma load_stored m a bs n : n = zlen bs -> load_bytes (store_bytes m a bs) a n = Some bs.
Proof.
  intros ->. rewrite store_union. pose proof (load_store m a bs 0 (zlen bs)) as H. rewrite Z.add_0_r in H.
  pose proof (zlen_nonneg bs). rewrite H by lia. f_equal. apply slice_all.
Qed.

Lemma size_stored m a v : in_word 32 v -> load_pb_size (store_bytes m a (le_split 4 v)) a = Some v.
Proof.
  intros Hv. unfold load_pb_size, load_int. rewrite load_stored by (unfold zlen; rewrite length_le_split; reflexivity).
  cbn [option_map]. rewrite le_combine_split. f_equal. apply Z.mod_small. exact Hv.
Qed.

Lemma store_bytes_app m a bs1 bs2 : store_bytes (store_bytes m a bs1) (a + zlen bs1) bs2 = store_bytes m a (bs1 ++ bs2).
Proof.
  apply map_eq. intros i. rewrite !lookup_store, zlen_app. pose proof (zlen_nonneg bs1). pose proof (zlen_nonneg bs2).
  repeat destruct (decide _); try lia; try reflexivity; unfold zlen in *.
  - rewrite lookup_app_r by lia. f_equal. lia.
  - rewrite lookup_app_l by lia. reflexivity.
Qed.

Lemma load_part m a bs off n : 0 <= off -> 0 <= n -> off + n <= zlen bs -> load_bytes (store_bytes m a bs) (a + off) n = Some (slice bs off n).
Proof. intros. rewrite store_union. apply load_store; assumption. Qed.

Lemma unmapped_outside m a n (P : Z -> Prop) : unmapped m a n -> (forall i, P i -> is_Some (m !! i)) -> forall i, P i -> ~ span a n i.
Proof.
  intros Hu HP i Hi Hs. unfold span in Hs. specialize (Hu (i - a) ltac:(lia)). replace (a + (i - a)) with i in Hu by lia.
  apply HP in Hi as [b Hb]. congruence.
Qed.

(** ** Runs of the decoder *)

Section runs.
Context {CB : Type} {ICB : InputCallback CB} {MA : Machine}.
Notation D := (M (dstate CB)).

(** Whatever blocks there are, [c] succeeds, leaves the blocks alone and what it
    yields satisfies [Q]. *)
Definition yields {A} (c : D A) (s : pb_istream CB) (m : mem) (Q : A -> pb_istream CB -> mem -> Prop) : Prop :=
  forall bl, exists a s' m', c (mk_dstate s (mk_heap m bl)) = (Ok a, mk_dstate s' (mk_heap m' bl)) /\ Q a s' m'.

Lemma yields_mono {A} (c : D A) s m (Q Q' : A -> pb_istream CB -> mem -> Prop) :
  yields c s m Q -> (forall a s' m', Q a s' m' -> Q' a s' m') -> yields c s m Q'.
Proof. intros H HQ bl. destruct (H bl) as (a & s' & m' & E & Hq). exists a, s', m'. auto. Qed.

Lemma yields_ret {A} (a : A) s m (Q : A -> pb_istream CB -> mem -> Prop) : Q a s m -> yields (ret a) s m Q.
Proof. intros H bl. exists a, s, m. auto. Qed.

Lemma yields_bind {A B} (c : D A) (k : A -> D B) s m Q :
  yields c s m (fun a s' m' => yields (k a) s' m' Q) -> yields (bind c k) s m Q.
Proof.
  intros H bl. destruct (H bl) as (a & s' & m' & E & Hq). rewrite (bind_Ok _ _ _ _ _ E). apply Hq.
Qed.

Lemma yields_known {A B} (v : option A) a (k : A -> D B) s m Q : v = Some a -> yields (k a) s m Q -> yields (bind (known v) k) s m Q.
Proof. intros -> H bl. exact (H bl). Qed.

Lemma yields_pos {B} it f (k : pb_field -> D B) s m Q : iter_pos it = (Ok f, it) -> yields (k f) s m Q -> yields (bind (pos_of it) k) s m Q.
Proof. intros E H bl. destruct (H bl) as (a & s' & m' & E' & Hq). exists a, s', m'. split; [|exact Hq]. unfold bind, pos_of, bind, local. rewrite E. exact E'. Qed.

Lemma yields_local {S A B} (c : M S A) s0 a s1 (k : A * S -> D B) s m Q :
  c s0 = (Ok a, s1) -> yields (k (a, s1)) s m Q -> yields (bind (local c s0) k) s m Q.
Proof. intros E H bl. destruct (H bl) as (b & s' & m' & E' & Hq). exists b, s', m'. split; [|exact Hq]. unfold bind, local. rewrite E. exact E'. Qed.

Lemma yields_get {B} (k : dstate CB -> D B) s m Q :
  (forall bl, yields (k (mk_dstate s (mk_heap m bl))) s m Q) -> yields (bind get k) s m Q.
Proof. intros H bl. exact (H bl bl). Qed.

Lemma yields_stream {A B} (d : M (pb_istream CB) A) a (k : A -> D B) s s1 m Q :
  d s = (Ok a, s1) -> yields (k a) s1 m Q -> yields (bind (on_istream d) k) s m Q.
Proof. intros E H bl. destruct (H bl) as (b & s' & m' & E' & Hq). exists b, s', m'. split; [|exact Hq]. unfold bind, on_istream. cbn [d_stream d_heap]. rewrite E. exact E'. Qed.

Lemma yields_load {B} a n bs (k : list byte -> D B) s m Q :
  load_bytes m a n = Some bs -> yields (k bs) s m Q -> yields (bind (load_at a n) k) s m Q.
Proof. intros E H bl. destruct (H bl) as (b & s' & m' & E' & Hq). exists b, s', m'. split; [|exact Hq]. unfold bind, load_at. cbn [d_heap h_mem]. rewrite E. exact E'. Qed.

Lemma yields_size {B} a v (k : Z -> D B) s m Q :
  load_pb_size m a = Some v -> yields (k v) s m Q -> yields (bind (get_size a) k) s m Q.
Proof.
  unfold load_pb_size, load_int. intros E H. destruct (load_bytes m a 4) as [bs|] eqn:Eb; [|discriminate]. injection E as <-.
  intros bl. destruct (H bl) as (b & s' & m' & E' & Hq). exists b, s', m'. split; [|exact Hq].
  unfold bind, get_size, get_int, bind, load_at. cbn [d_heap h_mem]. rewrite Eb. exact E'.
Qed.

Lemma yields_store {B} a bs (k : unit -> D B) s m Q :
  mapped m a (zlen bs) -> yields (k tt) s (store_bytes m a bs) Q -> yields (bind (store_at a bs) k) s m Q.
Proof.
  intros Hm H bl. destruct (H bl) as (b & s' & m' & E' & Hq). exists b, s', m'. split; [|exact Hq].
  destruct (load_mapped m a (zlen bs) (zlen_nonneg bs) Hm) as [old El]. unfold bind, store_at. cbn [d_heap h_mem h_blocks]. rewrite El. exact E'.
Qed.

(** The same at the end of a function. *)
Lemma yields_last {A} (c : D A) s m Q : yields (bind c ret) s m Q -> yields c s m Q.
Proof.
  intros H bl. destruct (H bl) as (a & s' & m' & E & Hq). exists a, s', m'. split; [|exact Hq].
  unfold bind, ret in E. destruct (c _) as [[?| |] ?]; [exact E | discriminate..].
Qed.

Lemma yields_substream {A B} (c : D A) sub (k : option A * pb_istream CB -> D B) s m Q :
  yields c sub m (fun a sub' m' => yields (k (Some a, sub')) s m' Q) -> yields (bind (on_substream c sub) k) s m Q.
Proof.
  intros H bl. destruct (H bl) as (a & sub' & m' & E & Hq). destruct (Hq bl) as (b & s1 & m1 & E1 & Hq1).
  exists b, s1, m1. split; [|exact Hq1]. unfold bind, on_substream. cbn [d_stream d_heap]. rewrite E. exact E1.
Qed.

Lemma yields_status {A B} (c : D A) (k : option A -> D B) s m Q :
  yields c s m (fun a s' m' => yields (k (Some a)) s' m' Q) -> yields (bind (status_of c) k) s m Q.
Proof.
  intros H bl. destruct (H bl) as (a & s' & m' & E & Hq). destruct (Hq bl) as (b & s1 & m1 & E1 & Hq1).
  exists b, s1, m1. split; [|exact Hq1]. unfold bind, status_of. rewrite E. exact E1.
Qed.

(** A local variable comes and goes; it is apart from what was there. *)
Lemma yields_variable {A} bs (c : Z -> D A) s m (Q : A -> pb_istream CB -> mem -> Prop) P : bs <> [] -> (forall i, P i -> is_Some (m !! i)) ->
  (forall a, unmapped m a (zlen bs) ->
     yields (c a) s (store_bytes m a bs) (fun x s' m' => changes P (store_bytes m a bs) m' /\ Q x s' (erase m' a (length bs)))) ->
  yields (with_local bs c) s m (fun x s' m' => changes P m m' /\ Q x s' m').
Proof.
  intros Hne HP H bl. unfold with_local. cbn [d_heap d_stream h_mem h_blocks]. set (a := local_variable _ _).
  assert (Hz : 0 < zlen bs) by (destruct bs; [contradiction | rewrite zlen_cons; pose proof (zlen_nonneg bs); lia]).
  destruct (local_variable_ok _ _ _ Hz (eq_refl a)) as [Ha Hu]. cbn [h_mem] in Hu.
  destruct (H a Hu bl) as (x & s' & m' & E & [Hc Hm] & Hq). rewrite E. cbn [d_stream d_heap h_mem h_blocks].
  exists x, s', (erase m' a (length bs)). split; [reflexivity|]. split; [|exact Hq].
  pose proof (unmapped_outside m a (zlen bs) (fun i => is_Some (m !! i)) Hu (fun _ H => H)) as Hout.
  assert (Hsame : forall i, ~ span a (zlen bs) i -> store_bytes m a bs !! i = m !! i).
  { intros i Hi. rewrite lookup_store. destruct (decide _) as [Hd|]; [contradiction (Hi Hd) | reflexivity]. }
  split.
  - intros i Hi. rewrite lookup_erase. destruct (decide _) as [Hd|Hd].
    + symmetry. replace i with (a + (i - a)) by lia. apply Hu. unfold zlen. lia.
    + rewrite Hc by exact Hi. apply Hsame. unfold span, zlen. lia.
  - intros i Hi. pose proof (Hout i Hi) as Ho. rewrite lookup_erase. destruct (decide _) as [Hd|Hd]; [contradiction Ho; unfold span, zlen; lia|].
    apply Hm. rewrite Hsame by exact Ho. exact Hi.
Qed.
End runs.

(** ** Values depend on their own bytes *)

Section frame.
Context (descriptors : Z -> option (list pb_field)).
Notation plain_field := (plain_field descriptors).
Notation item_at := (item_at descriptors).
Notation items_at := (items_at descriptors).
Notation member_at := (member_at descriptors).

Lemma one_size sub f : plain_field sub f -> is_repeated f = false -> member_size f = data_size f.
Proof.
  intros Hf Hr. unfold member_size. rewrite (plain_static _ _ _ Hf). unfold is_repeated in Hr. rewrite Hr. reflexivity.
Qed.

Lemma array_bytes sub f : plain_field sub f -> is_repeated f = true -> member_size f = data_size f * array_size f /\ size_offset f <> 0 /\ 0 < array_size f.
Proof.
  intros Hf Hr. unfold member_size. rewrite (plain_static _ _ _ Hf). unfold is_repeated in Hr. rewrite Hr.
  destruct (plain_rule _ _ _ Hf) as [E|(_ & H1 & H2)]; [rewrite E in Hr; discriminate Hr | auto].
Qed.

Lemma bool_size sub f : plain_field sub f -> PB_LTYPE (type f) = PB_LTYPE_BOOL -> data_size f = 1.
Proof.
  intros Hf Hb. destruct (plain_item _ _ _ Hf) as [[H Hs|n [H|[H|H]]|H|H]|H|H|H|? H]; [exact Hs | rewrite Hb in H; discriminate H..].
Qed.

Lemma size_word m a n : load_pb_size m a = Some n -> in_word 32 n.
Proof.
  unfold load_pb_size, load_int. destruct (load_bytes m a 4) as [bs|] eqn:E; [|discriminate]. intros [= <-].
  apply load_bytes_zlen in E as [Hz _]. pose proof (le_combine_range bs) as H. rewrite Hz in H. exact H.
Qed.

Section member_frame.
Context (sub_type : Z -> list pb_field -> Prop) (m m' : mem).
Context (sub sub' : list pb_field -> Z -> list (list value) -> Prop).
Context (Hsub : forall size fields p ms, sub_type size fields -> same_on (span p size) m m' -> sub fields p ms -> sub' fields p ms).

Lemma item_frame f p v : plain_field sub_type f -> same_on (span p (data_size f)) m m' -> item_at m sub f p v -> item_at m' sub' f p v.
Proof.
  intros Hf Hs Hi. pose proof (plain_size _ _ _ Hf) as [Hd _].
  destruct Hi as [b Hb Hl|bs Hn Hb Hl|n data Hb Hn Hle Hl|data Hb Hl|data Hb Hlt Hnz Hl|fields ms Hb Hfs Hms].
  - apply at_bool; [exact Hb|]. rewrite (load_same m m'); [exact Hl|]. apply (same_span _ _ _ _ _ _ Hs); [lia|]. rewrite (bool_size _ _ Hf Hb). lia.
  - apply at_number; [exact Hn | exact Hb|]. rewrite (load_same m m'); assumption.
  - pose proof (size_word _ _ _ Hn) as [Hn0 _]. apply (at_blob _ _ _ _ _ n); [exact Hb | | exact Hle |].
    + rewrite (load_size_same m m'); [exact Hn|]. apply (same_span _ _ _ _ _ _ Hs); lia.
    + rewrite (load_same m m'); [exact Hl|]. apply (same_span _ _ _ _ _ _ Hs); lia.
  - apply at_fixed; [exact Hb|]. rewrite (load_same m m'); assumption.
  - pose proof (zlen_nonneg data). apply at_text; [exact Hb | exact Hlt | exact Hnz|]. rewrite (load_same m m'); [exact Hl|]. apply (same_span _ _ _ _ _ _ Hs); lia.
  - destruct (plain_item _ _ _ Hf) as [H|H|H|H|fields' H Hz Hp Hfs' Hst]; try (rewrite Hb in H; discriminate H).
    { apply number_type_number in H. unfold is_number in H. rewrite Hb in H. discriminate H. }
    assert (fields' = fields) as -> by congruence. apply (at_message _ _ _ _ _ fields); [exact Hb | exact Hfs | exact (Hsub _ _ _ _ Hst Hs Hms)].
Qed.

Lemma items_frame f vs : plain_field sub_type f -> forall p, same_on (span p (data_size f * zlen vs)) m m' -> items_at m sub f p vs -> items_at m' sub' f p vs.
Proof.
  intros Hf. pose proof (plain_size _ _ _ Hf) as [Hd _]. induction vs as [|v vs IH]; intros p Hs H; cbn [items_at] in *; [exact I|].
  rewrite zlen_cons in Hs. pose proof (zlen_nonneg vs). destruct H as [Hv H]. split.
  - apply (item_frame f p v Hf); [|exact Hv]. apply (same_span _ _ _ _ _ _ Hs); nia.
  - apply IH; [|exact H]. apply (same_span _ _ _ _ _ _ Hs); nia.
Qed.

Lemma touches_data f p i : span p (member_size f) i -> touches f p i.
Proof. intros H. left. exact H. Qed.

Lemma touches_flag f p i : size_offset f <> 0 -> span (p + size_offset f) (flag_size f) i -> touches f p i.
Proof. intros Hz H. right. auto. Qed.

Lemma there_frame f p : plain_field sub_type f -> is_repeated f = false -> same_on (touches f p) m m' -> there m' f p = there m f p.
Proof.
  intros Hf Hr Hs. pose proof (plain_size _ _ _ Hf) as [Hd _]. pose proof (one_size _ _ Hf Hr) as Hm. unfold there.
  destruct (Z.eqb_spec (size_offset f) 0) as [Hz|Hz]; cbn [negb].
  - assert (Hs' : same_on (span p (data_size f)) m m') by (apply (same_sub _ _ _ _ Hs); intros i Hi; apply touches_data; rewrite Hm; exact Hi).
    destruct (Z.eqb_spec (PB_LTYPE (type f)) PB_LTYPE_BYTES) as [Hb|_].
    + destruct (plain_item _ _ _ Hf) as [H|H H4|H|H|? H]; try (rewrite Hb in H; discriminate H).
      { apply number_type_number in H. unfold is_number in H. rewrite Hb in H. discriminate H. }
      rewrite (load_size_same m m'); [reflexivity|]. apply (same_span _ _ _ _ _ _ Hs'); lia.
    + destruct (_ =? _); [rewrite (Hs' p) by (unfold span; lia); reflexivity|].
      rewrite (load_same m m'); [reflexivity | exact Hs'].
  - rewrite (Hs (p + size_offset f)); [reflexivity|]. apply (touches_flag f p _ Hz). unfold span, flag_size. rewrite Hr. lia.
Qed.

Lemma member_frame f p vs : plain_field sub_type f -> same_on (touches f p) m m' -> member_at m sub f p vs -> member_at m' sub' f p vs.
Proof.
  intros Hf Hs H. unfold member_at in *. pose proof (plain_size _ _ _ Hf) as [Hd _]. destruct (is_repeated f) eqn:Er.
  - destruct (array_bytes _ _ Hf Er) as (Ha & Hz & _). destruct H as (Hc & Hn & Hi). split; [|split; [exact Hn|]].
    + rewrite (load_size_same m m'); [exact Hc|]. apply (same_sub _ _ _ _ Hs). intros i Hsp. apply (touches_flag f p i Hz). unfold flag_size. rewrite Er. exact Hsp.
    + apply (items_frame f vs Hf); [|exact Hi]. apply (same_sub _ _ _ _ Hs). intros i Hsp. apply touches_data. rewrite Ha. unfold span in *. nia.
  - pose proof (one_size _ _ Hf Er) as Hm. destruct vs as [|v [|? ?]]; [rewrite (there_frame f p Hf Er Hs); exact H | | contradiction].
    destruct H as [Ht Hi]. split; [rewrite (there_frame f p Hf Er Hs); exact Ht|]. apply (item_frame f p v Hf); [|exact Hi].
    apply (same_sub _ _ _ _ Hs). intros i Hsp. apply touches_data. rewrite Hm. exact Hsp.
Qed.
End member_frame.

Lemma touches_shift f d o i : touches f (d + o) i <-> touches f o (i - d).
Proof. unfold touches. split; (intros [H|[H1 H2]]; [left; lia | right; split; [exact H1 | lia]]). Qed.

(** A member is inside the structure. *)
Lemma member_inside size body k f o d : plain_layout size body -> body !! k = Some f -> offsets body !! k = Some o ->
  forall i, touches f (d + o) i -> span d size i.
Proof.
  intros Hl Hf Ho i Hi. apply touches_shift in Hi. pose proof (layout_inside _ _ Hl k f o (i - d) Hf Ho Hi). unfold span. lia.
Qed.

Lemma stored_frame n : forall size fields m m' d ms, plain descriptors n size fields -> same_on (span d size) m m' ->
  stored descriptors n m fields d ms -> stored descriptors n m' fields d ms.
Proof.
  induction n as [|n IH]; intros size fields m m' d ms Hp Hs H; [contradiction|].
  destruct Hp as (_ & _ & Hb & _ & Hlay). destruct H as (Hd & Hlen & H). split; [exact Hd|]. split; [exact Hlen|].
  intros k f o vs Hf Ho Hv. pose proof (Forall_lookup_1 _ _ _ _ Hb Hf) as Hpf.
  apply (member_frame (plain descriptors n) m m' (stored descriptors n m)); [|exact Hpf | | apply (H k f o vs Hf Ho Hv)].
  - intros size' fields' p ms' Hp' Hs' Hst. exact (IH size' fields' m m' p ms' Hp' Hs' Hst).
  - apply (same_sub _ _ _ _ Hs). apply (member_inside size _ k f o d Hlay Hf Ho).
Qed.

(** ** Empty structures *)

Section blank_member.
Context (m : mem) (sub_blank : list pb_field -> Z -> Prop).

(** A member without items, ready to be filled. *)
Definition blank_member (f : pb_field) (p : Z) : Prop :=
  mapped m p (member_size f) /\
  if is_repeated f then load_pb_size m (p + size_offset f) = Some 0
  else if size_offset f =? 0 then load_bytes m p (data_size f) = Some (zeros (data_size f))
  else m !! (p + size_offset f) = Some Byte.x00 /\
       (PB_LTYPE (type f) = PB_LTYPE_SUBMESSAGE -> forall fields, descriptors (ptr f) = Some fields -> sub_blank fields p).
End blank_member.

Fixpoint blank (n : nat) (m : mem) (fields : list pb_field) (d : Z) : Prop :=
  match n with
  | O => False
  | S n => 0 < d /\ forall k f o, body_of fields !! k = Some f -> offsets (body_of fields) !! k = Some o ->
      blank_member m (blank n m) f (d + o)
  end.

Lemma mapped_same m m' a n : same_on (span a n) m m' -> mapped m a n -> mapped m' a n.
Proof. intros H Hm i Hi. rewrite (H i Hi). apply Hm, Hi. Qed.

Lemma blank_member_frame sub_type (sub sub' : list pb_field -> Z -> Prop) m m' f p : plain_field sub_type f ->
  (forall size fields p, sub_type size fields -> same_on (span p size) m m' -> sub fields p -> sub' fields p) ->
  same_on (touches f p) m m' -> blank_member m sub f p -> blank_member m' sub' f p.
Proof.
  intros Hf Hsub Hs [Hm H]. assert (Hdata : same_on (span p (member_size f)) m m') by (apply (same_sub _ _ _ _ Hs), touches_data).
  split; [apply (mapped_same _ _ _ _ Hdata Hm)|]. destruct (is_repeated f) eqn:Er.
  - destruct (array_bytes _ _ Hf Er) as (_ & Hz & _). rewrite (load_size_same m m'); [exact H|]. apply (same_sub _ _ _ _ Hs).
    intros i Hi. apply (touches_flag f p i Hz). unfold flag_size. rewrite Er. exact Hi.
  - rewrite (one_size _ _ Hf Er) in Hdata. destruct (Z.eqb_spec (size_offset f) 0) as [Hz|Hz]; [rewrite (load_same m m'); assumption|].
    destruct H as [H1 H2]. split.
    + rewrite (Hs (p + size_offset f)); [exact H1|]. apply (touches_flag f p _ Hz). unfold span, flag_size. destruct (is_repeated f); lia.
    + intros Hb fields Hfs. destruct (plain_item _ _ _ Hf) as [Ht|Ht|Ht|Ht|fields' _ _ _ Hfs' Hst]; try (rewrite Hb in Ht; discriminate Ht).
      { apply number_type_number in Ht. unfold is_number in Ht. rewrite Hb in Ht. discriminate Ht. }
      assert (fields' = fields) as -> by congruence. apply (Hsub _ _ _ Hst Hdata), H2; assumption.
Qed.

Lemma blank_frame n : forall size fields m m' d, plain descriptors n size fields -> same_on (span d size) m m' ->
  blank n m fields d -> blank n m' fields d.
Proof.
  induction n as [|n IH]; intros size fields m m' d Hp Hs H; [contradiction|].
  destruct Hp as (_ & _ & Hb & _ & Hlay). destruct H as (Hd & H). split; [exact Hd|].
  intros k f o Hf Ho. pose proof (Forall_lookup_1 _ _ _ _ Hb Hf) as Hpf.
  apply (blank_member_frame (plain descriptors n) (blank n m) _ m m'); [exact Hpf | | | apply (H k f o Hf Ho)].
  - intros size' fields' p Hp' Hs' Hst. exact (IH size' fields' m m' p Hp' Hs' Hst).
  - apply (same_sub _ _ _ _ Hs). apply (member_inside size _ k f o d Hlay Hf Ho).
Qed.
End frame.

(** ** Default values *)

Section defaults.
Context {CB : Type} {ICB : InputCallback CB} {MA : Machine}.
Context (descriptors : Z -> option (list pb_field)) (constants : mem).
Notation D := (M (dstate CB)).
Notation set_default := (pb_field_set_to_default (CB := CB) descriptors constants).

Lemma at_pos body offs d k it f : iter_at (body ++ [PB_LAST_FIELD]) offs d k it -> body !! k = Some f -> iter_pos it = (Ok f, it).
Proof. intros (Es & Ep & _) Hf. unfold iter_pos. rewrite Es, Ep, (fields_body _ _ _ Hf). reflexivity. Qed.

Lemma at_data body offs d k it f o : iter_at (body ++ [PB_LAST_FIELD]) offs d k it -> body !! k = Some f -> offs !! k = Some o ->
  pData it = d + o /\ pSize it = d + o + size_offset f.
Proof.
  intros (_ & _ & _ & f' & o' & Hf' & Ho' & H1 & H2) Hf Ho. rewrite (fields_body _ _ _ Hf) in Hf'.
  injection Hf' as <-. assert (o' = o) as -> by congruence. auto.
Qed.

(** The loop over the fields of a message, from one invariant to the next. *)
Lemma each_field_yields body offs d (step : pb_field_iter -> D unit) s (I : nat -> mem -> Prop) :
  Forall (fun f => tag f <> 0) body -> laid_out body offs -> d <> 0 -> body <> [] ->
  (forall k it m, (k < length body)%nat -> iter_at (body ++ [PB_LAST_FIELD]) offs d k it -> I k m ->
     yields (step it) s m (fun _ s' m' => s' = s /\ I (S k) m')) ->
  forall m, I 0%nat m -> yields (on_fields step (body ++ [PB_LAST_FIELD]) d) s m (fun _ s' m' => s' = s /\ I (length body) m').
Proof.
  intros Hb Hl Hd Hne Hstep m H0. destruct (lookup_lt_is_Some_2 body 0) as [f0 Hf0]; [destruct body; cbn; [congruence | lia]|].
  destruct (begin_at_first body offs d Hb Hl Hd no_iter f0 Hf0) as (it0 & E0 & Hit0 & _).
  unfold on_fields. apply (yields_local _ _ true it0 _ _ _ _ E0).
  assert (G : forall fuel k it m, (k < length body)%nat -> (length body - k <= fuel)%nat -> iter_at (body ++ [PB_LAST_FIELD]) offs d k it -> I k m ->
    yields (each_field step fuel it) s m (fun _ s' m' => s' = s /\ I (length body) m')).
  2: { apply (G _ 0%nat); [destruct body; cbn; [congruence | lia] | rewrite length_app; cbn; lia | exact Hit0 | exact H0]. }
  clear - Hstep Hb Hl Hd. induction fuel as [|fuel IH]; intros k it m Hk Hf Hit H; [lia|]. cbn [each_field].
  apply yields_bind. apply (yields_mono _ _ _ _ _ (Hstep k it m Hk Hit H)). intros _ s' m' [-> H'].
  destruct (lookup_lt_is_Some_2 body k Hk) as [f Ef]. destruct (decide (S k = length body)) as [E|E].
  - destruct (next_wraps body offs d Hb Hl Hd k it f Hit Ef E) as (it' & En & _). apply (yields_local _ _ _ _ _ _ _ _ En).
    apply yields_ret. rewrite <- E. auto.
  - destruct (lookup_lt_is_Some_2 body (S k)) as [g Hg]; [lia|].
    destruct (next_advances body offs d Hb Hl k it f g Hit Ef Hg) as (it' & En & Hit' & _). apply (yields_local _ _ _ _ _ _ _ _ En).
    apply (IH (S k)); [lia | lia | exact Hit' | exact H'].
Qed.

(** The data of a member and its flag do not overlap. *)
Lemma flag_apart sub f p i : plain_field descriptors sub f -> size_offset f <> 0 -> span (p + size_offset f) (flag_size f) i -> ~ span p (member_size f) i.
Proof. intros Hf Hz Hi Hd. unfold span in *. pose proof (plain_flag _ _ _ Hf). lia. Qed.

Lemma flag_kept sub f p m m' : plain_field descriptors sub f -> size_offset f <> 0 -> changes (span p (member_size f)) m m' ->
  same_on (span (p + size_offset f) (flag_size f)) m m'.
Proof. intros Hf Hz Hc. apply (changes_on _ _ _ _ Hc). intros i Hi. apply (flag_apart sub f p i Hf Hz Hi). Qed.

Lemma flag_mapped size body k f o d m : plain_layout size body -> body !! k = Some f -> offsets body !! k = Some o -> size_offset f <> 0 ->
  mapped m d size -> mapped m (d + o + size_offset f) (flag_size f).
Proof. intros Hl Hf Ho Hz Hm i Hi. apply Hm. apply (member_inside size body k f o d Hl Hf Ho), touches_flag; assumption. Qed.

Lemma member_default n fuel f p it s m : plain_field descriptors (plain descriptors n) f -> 0 < p ->
  (forall fields size q m, plain descriptors n size fields -> 0 < q -> mapped m q size ->
     yields (on_fields (set_default fuel) fields q) s m (fun _ s' m' => s' = s /\ blank descriptors n m' fields q /\ changes (span q size) m m')) ->
  iter_pos it = (Ok f, it) -> pData it = p -> pSize it = p + size_offset f ->
  mapped m p (member_size f) -> (size_offset f <> 0 -> mapped m (p + size_offset f) (flag_size f)) ->
  yields (set_default (S fuel) it) s m (fun _ s' m' => s' = s /\ blank_member descriptors m' (blank descriptors n m') f p /\ changes (touches f p) m m').
Proof.
  intros Hf Hp Hsub Hit HD HS Hm Hflag. pose proof (plain_size _ _ _ Hf) as [Hds _]. cbn [pb_field_set_to_default]. apply (yields_pos _ _ _ _ _ _ Hit).
  rewrite (plain_static _ _ _ Hf).
  assert (Hext : (PB_LTYPE (type f) =? PB_LTYPE_EXTENSION) = false).
  { destruct (plain_item _ _ _ Hf) as [[E|? [E|[E|E]]|E|E]|E|E|E|? E]; rewrite E; reflexivity. }
  rewrite Hext. change (PB_ATYPE_STATIC =? PB_ATYPE_STATIC) with true. cbv iota. rewrite HD, HS.
  destruct (is_repeated f) eqn:Er.
  { destruct (array_bytes _ _ _ Hf Er) as (Ha & Hz & _). unfold is_repeated in Er. apply Z.eqb_eq in Er. rewrite Er.
    cbn [Z.eqb Pos.eqb andb orb PB_HTYPE_REPEATED PB_HTYPE_OPTIONAL]. apply yields_bind.
    assert (Hfm : mapped m (p + size_offset f) (zlen (le_split 4 0))).
    { rewrite zlen_le_split. specialize (Hflag Hz). unfold flag_size, is_repeated in Hflag. rewrite Er in Hflag. exact Hflag. }
    apply yields_store; [exact Hfm|]. apply yields_ret. apply yields_ret. pose proof (changes_store _ _ _ Hfm) as Hc. split; [reflexivity|]. split.
    - split; [apply (mapped_changes _ _ _ _ _ Hc Hm)|]. unfold is_repeated. rewrite Er. cbn [Z.eqb Pos.eqb PB_HTYPE_REPEATED]. apply size_stored. unfold in_word. lia.
    - apply (changes_weaken _ _ _ _ ) with (2 := Hc). intros i Hi. apply (touches_flag f p i Hz). unfold flag_size, is_repeated. rewrite Er. exact Hi. }
  assert (Ho : PB_HTYPE (type f) = PB_HTYPE_OPTIONAL).
  { destruct (plain_rule _ _ _ Hf) as [E|(E & _)]; [exact E|]. unfold is_repeated in Er. rewrite E in Er. discriminate Er. }
  rewrite Ho. cbn [Z.eqb Pos.eqb andb orb PB_HTYPE_REPEATED PB_HTYPE_OPTIONAL PB_HTYPE_ONEOF]. rewrite (one_size _ _ _ Hf Er) in Hm.
  (* the data, after the flag *)
  assert (Hdata : forall m1, mapped m1 p (data_size f) ->
    (size_offset f <> 0 -> m1 !! (p + size_offset f) = Some Byte.x00) -> changes (touches f p) m m1 ->
    yields (if true then
        if PB_LTYPE (type f) =? PB_LTYPE_SUBMESSAGE then
          fields <- known (descriptors (ptr f)) ;; on_fields (set_default fuel) fields p
        else if negb (ptr f =? 0) then bs <- known (load_bytes constants (ptr f) (data_size f)) ;; store_at p bs
        else store_at p (zeros (data_size f))
      else ret tt) s m1 (fun _ s' m' => s' = s /\ blank_member descriptors m' (blank descriptors n m') f p /\ changes (touches f p) m m')).
  { intros m1 Hm1 Hf1 Hc1. cbv iota.
    assert (Hdc : forall m2, changes (span p (data_size f)) m1 m2 -> changes (touches f p) m m2).
    { intros m2 H. apply (changes_trans _ _ _ _ Hc1). apply (changes_weaken _ _ _ _) with (2 := H). intros i Hi. apply touches_data. rewrite (one_size _ _ _ Hf Er). exact Hi. }
    assert (Hfc : forall m2, changes (span p (data_size f)) m1 m2 -> size_offset f <> 0 -> m2 !! (p + size_offset f) = Some Byte.x00).
    { intros m2 H Hz. rewrite <- (Hf1 Hz). rewrite <- (one_size _ _ _ Hf Er) in H.
      apply (flag_kept _ f p m1 m2 Hf Hz H). unfold span, flag_size. rewrite Er. lia. }
    destruct (Z.eqb_spec (PB_LTYPE (type f)) PB_LTYPE_SUBMESSAGE) as [Hb|Hb].
    - destruct (plain_item _ _ _ Hf) as [Ht|Ht|Ht|Ht|fields _ Hz _ Hfs Hst]; try (rewrite Hb in Ht; discriminate Ht).
      { apply number_type_number in Ht. unfold is_number in Ht. rewrite Hb in Ht. discriminate Ht. }
      apply (yields_known _ _ _ _ _ _ Hfs). apply (yields_mono _ _ _ _ _ (Hsub fields _ p m1 Hst Hp Hm1)).
      intros _ s' m' (-> & Hbl & Hc). split; [reflexivity|]. split; [|apply Hdc, Hc]. split; [rewrite (one_size _ _ _ Hf Er); apply (mapped_changes _ _ _ _ _ Hc Hm1)|].
      rewrite Er, (proj2 (Z.eqb_neq _ _) Hz). split; [apply (Hfc _ Hc Hz)|]. intros _ fields' Hfs'. assert (fields' = fields) as -> by congruence. exact Hbl.
    - assert (Hptr : ptr f = 0) by (destruct (plain_item _ _ _ Hf) as [_ E|_ _ E|_ E|_ _ E|? E]; [exact E.. | contradiction]).
      rewrite Hptr. cbn [Z.eqb negb]. apply yields_last.
      assert (Hzm : mapped m1 p (zlen (zeros (data_size f)))) by (rewrite zlen_zeros by lia; exact Hm1).
      apply yields_store; [exact Hzm|]. apply yields_ret. pose proof (changes_store _ _ _ Hzm) as Hc. rewrite zlen_zeros in Hc by lia.
      split; [reflexivity|]. split; [|apply Hdc, Hc]. split; [rewrite (one_size _ _ _ Hf Er); apply (mapped_changes _ _ _ _ _ Hc Hm1)|].
      rewrite Er. destruct (Z.eqb_spec (size_offset f) 0) as [Hz|Hz]; [apply load_stored; rewrite zlen_zeros; lia|].
      split; [apply (Hfc _ Hc Hz) | intros E; contradiction]. }
  apply yields_bind. destruct (Z.eqb_spec (size_offset f) 0) as [Hz|Hz].
  - rewrite Hz, Z.add_0_r, Z.eqb_refl. cbn [negb]. apply yields_ret. apply Hdata; [exact Hm | contradiction | apply changes_refl].
  - destruct (Z.eqb_spec (p + size_offset f) p); [lia|]. cbn [negb].
    assert (Hfm : mapped m (p + size_offset f) (zlen (le_split 1 0))).
    { specialize (Hflag Hz). unfold flag_size in Hflag. rewrite Er in Hflag. exact Hflag. }
    apply yields_store; [exact Hfm|]. apply yields_ret. pose proof (changes_store _ _ _ Hfm) as Hc. change (zlen (le_split 1 0)) with 1 in Hc.
    apply Hdata; [apply (mapped_changes _ _ _ _ _ Hc Hm) | | apply (changes_weaken _ _ _ _) with (2 := Hc); intros i Hi; apply (touches_flag f p i Hz); unfold flag_size; rewrite Er; exact Hi].
    intros _. rewrite lookup_store. destruct (decide _) as [Hd|Hd]; [rewrite Z.sub_diag; reflexivity|]. contradiction Hd. change (zlen (le_split 1 0)) with 1. lia.
Qed.

(** Other members stay empty while one is set. *)
Lemma blank_other n size body k f o j g og d m m' : Forall (plain_field descriptors (plain descriptors n)) body -> plain_layout size body ->
  body !! k = Some f -> offsets body !! k = Some o -> body !! j = Some g -> offsets body !! j = Some og -> j <> k ->
  changes (touches f (d + o)) m m' -> blank_member descriptors m (blank descriptors n m) g (d + og) -> blank_member descriptors m' (blank descriptors n m') g (d + og).
Proof.
  intros Hb Hl Hf Ho Hg Hog Hne Hc H. pose proof (Forall_lookup_1 _ _ _ _ Hb Hg) as Hpg.
  apply (blank_member_frame descriptors (plain descriptors n) (blank descriptors n m) _ m m'); [exact Hpg | | | exact H].
  - intros sz fields p Hp Hs Hbl. exact (blank_frame descriptors n sz fields m m' p Hp Hs Hbl).
  - apply (changes_on _ _ _ _ Hc). intros i Hi Hi'. apply touches_shift in Hi, Hi'. exact (layout_apart _ _ Hl j g og k f o _ Hg Hog Hf Ho Hne Hi Hi').
Qed.

Lemma plain_descriptor n size fields : plain descriptors (S n) size fields ->
  fields = body_of fields ++ [PB_LAST_FIELD] /\ Forall (fun f => tag f <> 0) (body_of fields) /\ laid_out (body_of fields) (offsets (body_of fields)) /\
  body_of fields <> [].
Proof.
  intros (Ef & Hne & Hb & _). split; [exact Ef|]. split; [|split; [|exact Hne]].
  - eapply Forall_impl; [exact Hb|]. intros f Hf. pose proof (plain_tag _ _ _ Hf). lia.
  - apply offsets_laid_out. eapply Forall_impl; [exact Hb|]. intros f. apply plain_not_oneof.
Qed.

(** Any structure becomes an empty one. *)
Lemma default_blank n : forall fuel fields size d s m, (n <= fuel)%nat -> plain descriptors n size fields -> 0 < d -> mapped m d size ->
  yields (on_fields (set_default fuel) fields d) s m (fun _ s' m' => s' = s /\ blank descriptors n m' fields d /\ changes (span d size) m m').
Proof.
  induction n as [|n IH]; intros fuel fields size d s m Hfuel Hp Hd Hm; [contradiction|]. destruct fuel as [|fuel]; [lia|].
  destruct (plain_descriptor n size fields Hp) as (Ef & Htags & Hlaid & Hne). destruct Hp as (_ & _ & Hb & _ & Hlay).
  set (body := body_of fields) in *.
  pose (I := fun k m' => changes (span d size) m m' /\ forall j g og, (j < k)%nat -> body !! j = Some g -> offsets body !! j = Some og ->
    blank_member descriptors m' (blank descriptors n m') g (d + og)).
  rewrite Ef. apply (yields_mono _ _ _ (fun _ s' m' => s' = s /\ I (length body) m')).
  2: { intros _ s' m' (-> & Hc & H). split; [reflexivity|]. split; [|exact Hc]. split; [exact Hd|]. rewrite <- Ef. fold body. intros k f o Hf Ho.
    apply (H k f o); [apply (lookup_lt_Some _ _ _ Hf) | exact Hf | exact Ho]. }
  apply (each_field_yields body (offsets body) d (set_default (S fuel)) s I Htags Hlaid ltac:(lia) Hne).
  2: { split; [apply changes_refl | intros; lia]. }
  intros k it m1 Hk Hit (Hc1 & H1). destruct (lookup_lt_is_Some_2 body k Hk) as [f Hf].
  destruct (lookup_lt_is_Some_2 (offsets body) k) as [o Ho]; [rewrite length_offsets; exact Hk|].
  destruct (at_data _ _ _ _ _ _ _ Hit Hf Ho) as [HD HS]. pose proof (Forall_lookup_1 _ _ _ _ Hb Hf) as Hpf.
  pose proof (mapped_changes _ _ _ _ _ Hc1 Hm) as Hm1. destruct (plain_inside _ _ _ _ k f o Hb Hlay Hf Ho).
  assert (Hle : (n <= fuel)%nat) by lia. assert (Hp : 0 < d + o) by lia.
  assert (Hmd : mapped m1 (d + o) (member_size f)) by (apply (mapped_sub _ _ _ _ _ Hm1); lia).
  apply (yields_mono _ _ _ _ _ (member_default n fuel f (d + o) it s m1 Hpf Hp (fun fields size q m => IH fuel fields size q s m Hle)
    (at_pos _ _ _ _ _ _ Hit Hf) HD HS Hmd (fun Hz => flag_mapped size body k f o d m1 Hlay Hf Ho Hz Hm1))).
  intros _ s' m' (-> & Hbl & Hc). split; [reflexivity|]. split.
  - apply (changes_trans _ _ _ _ Hc1). apply (changes_weaken _ _ _ _) with (2 := Hc). apply (member_inside size body k f o d Hlay Hf Ho).
  - intros j g og Hj Hg Hog. destruct (decide (j = k)) as [->|Hne'].
    + assert (g = f) as -> by congruence. assert (og = o) as -> by congruence. exact Hbl.
    + apply (blank_other n size body k f o j g og d m1 m' Hb Hlay Hf Ho Hg Hog Hne' Hc). apply (H1 j g og ltac:(lia) Hg Hog).
Qed.
End defaults.

Lemma zeros_loaded m p k j : load_bytes m p k = Some (zeros k) -> 0 <= j <= k -> load_bytes m p j = Some (zeros j).
Proof.
  intros H Hj. apply load_bytes_zlen in H as [Hz H].
  assert (E : bytes_at m p (Z.to_nat j) = zeros j).
  { rewrite <- (bytes_at_take m p (Z.to_nat k) (Z.to_nat j)), H by lia. exact (slice_zeros k 0 j ltac:(lia) ltac:(lia) ltac:(lia)). }
  rewrite load_bytes_Some; rewrite E; [reflexivity | apply zlen_zeros; lia].
Qed.

(** ** Decoding one item *)

Section decode.
Context {CB : Type} {ICB : InputCallback CB} {MA : Machine}.
Context (descriptors : Z -> option (list pb_field)) (constants : mem).
Context (funcs_decode : Z -> pb_field -> Z -> M (dstate CB) unit) (type_decode : Z -> Z -> Z -> Z -> M (dstate CB) unit).
Context (rfuel : nat).
Notation D := (M (dstate CB)).
Notation stream bs left err := (mk_istream (buf_source bs) left err).

(** The decoder of the messages whose submessages nest to a depth below [n]. *)
Context (n : nat) (noinit : list pb_field -> Z -> D unit) (Hrfuel : (n <= rfuel)%nat).
Context (Hsub : forall fields size d ms m m0 d0 rest err, plain descriptors n size fields -> mapped m d size -> blank descriptors n m fields d ->
  stored descriptors n m0 fields d0 ms -> zlen (wire descriptors n fields ms) < 2 ^ 32 ->
  yields (noinit fields d) (stream (wire descriptors n fields ms ++ rest) (zlen (wire descriptors n fields ms)) err) m
    (fun _ s' m' => s' = stream rest 0 err /\ stored descriptors n m' fields d ms /\ changes (span d size) m m')).

Notation plain_field := (plain_field descriptors (plain descriptors n)).
Notation vb := (value_bytes descriptors (wire descriptors n)).
Notation item_in m := (item_at descriptors m (stored descriptors n m)).
Notation decoders := (PB_DECODERS (CB := CB) descriptors constants rfuel noinit).

(** A decoder that takes the bytes [bs] and sets the object at [p]. *)
Definition sets {A} (c : D A) (bs : list byte) (p size : Z) (m : mem) (Q : mem -> Prop) : Prop := forall rest left err, zlen bs <= left < 2 ^ 64 ->
  yields c (stream (bs ++ rest) left err) m (fun _ s' m' => s' = stream rest (left - zlen bs) err /\ Q m' /\ changes (span p size) m m').

Lemma sets_at_dest dec f p bs out m (Q : mem -> Prop) : Stores (dec f) bs out -> zlen out = scalar_size f -> mapped m p (scalar_size f) ->
  Q (store_bytes m p out) -> sets (at_dest dec f p) bs p (scalar_size f) m Q.
Proof.
  intros Hs Hz Hm HQ rest left err Hl. pose proof (zlen_nonneg out). destruct (load_mapped m p (scalar_size f) ltac:(lia) Hm) as [old Ho].
  unfold at_dest. apply (yields_load _ _ old); [exact Ho|]. apply load_bytes_zlen in Ho as [Hzo _].
  pose proof (changes_store m p out) as Hc. rewrite Hz in Hc.
  intros bl. exists tt, (stream rest (left - zlen bs) err), (store_bytes m p out).
  split; [|split; [reflexivity | split; [exact HQ | apply Hc, Hm]]]. cbv beta. cbn [d_stream d_heap].
  rewrite Hs by (unfold zlen in *; lia). rewrite drop_ge, app_nil_r by (unfold zlen in *; lia).
  unfold store_at. cbn [d_heap h_mem h_blocks]. destruct (load_mapped m p (zlen out) ltac:(lia)) as [old' ->]; [rewrite Hz; exact Hm | reflexivity].
Qed.

(** The decoder of a number and what it stores. *)
Lemma number_stores f p m0 p0 v : plain_field f -> is_number f = true -> item_in m0 f p0 v ->
  exists dec out, decoders !! Z.to_nat (PB_LTYPE (type f)) = Some (at_dest dec) /\ Stores (CB := CB) (dec f) (vb f v) out /\
    scalar_size f = data_size f /\ zlen out = data_size f /\ (forall m, item_in (store_bytes m p out) f p v).
Proof.
  intros Hf Hn Hi. unfold is_number in Hn.
  destruct Hi as [b Hb Hl|bs _ Hb Hl|? data Hb|data Hb|data Hb|fields ms Hb]; try (rewrite Hb in Hn; discriminate Hn).
  - pose proof (bool_size _ _ _ Hf Hb) as Hs. set (c := negb (u8 b =? 0)).
    exists pb_dec_bool, [b8 (if c then 1 else 0)]. rewrite Hb. split; [reflexivity|].
    assert (E : b8 (if u8 b =? 0 then 0 else 1) = b8 (if c then 1 else 0)) by (unfold c; destruct (u8 b =? 0); reflexivity).
    split; [|split; [unfold scalar_size; rewrite Hb, Hs; reflexivity | split; [rewrite Hs; reflexivity|]]].
    + cbn [value_bytes]. unfold number_bytes. rewrite Hb, le_combine_1, E. replace (u8 (b8 (if c then 1 else 0))) with (if c then 1 else 0) by (destruct c; reflexivity).
      apply bool_stores.
    + intros m. rewrite E. set (x := b8 (if c then 1 else 0)).
      assert (E2 : b8 (if u8 x =? 0 then 0 else 1) = x) by (unfold x; destruct c; reflexivity).
      pose proof (at_bool descriptors (store_bytes m p [x]) (stored descriptors n (store_bytes m p [x])) f p x Hb (load_stored _ _ [x] 1 eq_refl)) as Ha.
      rewrite E2 in Ha. exact Ha.
  - apply load_bytes_zlen in Hl as [Hz _]. assert (Hst : forall m, item_in (store_bytes m p bs) f p (Number bs)).
    { intros m. apply at_number; [exact Hn | exact Hb|]. apply load_stored. symmetry. exact Hz. }
    cbn [value_bytes]. unfold number_bytes, scalar_size.
    destruct (plain_item _ _ _ Hf) as [[H|k [H|[H|H]] Hi Hs|H Hs|H Hs] _|H|H|H|? H]; try contradiction; try (rewrite H in Hn; discriminate Hn); rewrite H; rewrite Hs in Hz |- *;
      assert (Hlen : length bs = Z.to_nat (zlen bs)) by (unfold zlen; lia); rewrite Hz in Hlen; try rewrite Nat2Z.id in Hlen.
    + exists pb_dec_varint, bs. split; [reflexivity|]. split; [|split; [reflexivity | split; [exact Hz | exact Hst]]].
      cbn [Z.eqb orb PB_LTYPE_VARINT]. rewrite Hz. exact (proj2 (varint_field (CBO := Empty_set) f k bs Hi Hlen Hs)).
    + exists pb_dec_uvarint, bs. split; [reflexivity|]. split; [|split; [reflexivity | split; [exact Hz | exact Hst]]].
      exact (proj2 (uvarint_field (CBO := Empty_set) f k bs Hi Hlen Hs)).
    + exists pb_dec_svarint, bs. split; [reflexivity|]. split; [|split; [reflexivity | split; [exact Hz | exact Hst]]].
      cbn [Z.eqb orb Pos.eqb PB_LTYPE_VARINT PB_LTYPE_SVARINT]. rewrite Hz. exact (proj2 (svarint_field (CBO := Empty_set) f k bs Hi Hlen Hs)).
    + exists pb_dec_fixed32, bs. split; [reflexivity|]. split; [|split; [reflexivity | split; [exact Hz | exact Hst]]]. apply fixed32_stores, Hlen.
    + exists pb_dec_fixed64, bs. split; [reflexivity|]. split; [|split; [reflexivity | split; [exact Hz | exact Hst]]]. apply fixed64_stores, Hlen.
Qed.

Lemma sets_weaken {A} (c : D A) bs p size size' m (Q Q' : mem -> Prop) : sets c bs p size m Q -> size <= size' -> (forall m', Q m' -> Q' m') -> sets c bs p size' m Q'.
Proof.
  intros H Hs HQ rest left err Hl. apply (yields_mono _ _ _ _ _ (H rest left err Hl)). intros _ s' m' (E & Hq & Hc).
  split; [exact E|]. split; [apply HQ, Hq|]. apply (changes_weaken _ _ _ _) with (2 := Hc). unfold span. lia.
Qed.

(** [read_into], which ends the decoders of byte strings and texts. *)
Lemma read_into_yields {B} p bs rest left err (k : unit -> D B) m Q : zlen bs <= left < 2 ^ 64 -> mapped m p (zlen bs) ->
  yields (k tt) (stream rest (left - zlen bs) err) (store_bytes m p bs) Q ->
  yields (bind (read_into p (zlen bs)) k) (stream (bs ++ rest) left err) m Q.
Proof.
  intros Hl Hm H. apply yields_bind. unfold read_into. apply (yields_stream _ bs _ _ (stream rest (left - zlen bs) err)); [apply pb_read_parses; [reflexivity | exact Hl]|].
  apply yields_last, yields_store; [exact Hm|]. apply yields_ret, H.
Qed.

Lemma dec_bytes_sets f p data m : plain_field f -> PB_LTYPE (type f) = PB_LTYPE_BYTES -> zlen data <= data_size f - 4 -> mapped m p (data_size f) ->
  sets (pb_dec_bytes f p) (delimited data) p (data_size f) m (fun m' => item_in m' f p (Blob data)).
Proof.
  intros Hf Hb Hle Hm rest left err Hl. pose proof (plain_size _ _ _ Hf) as [Hd1 Hd2]. pose proof (zlen_nonneg data).
  assert (Hms : data_size f <= member_size f).
  { destruct (is_repeated f) eqn:Er; [destruct (array_bytes _ _ _ Hf Er) as (-> & _ & ?); nia | rewrite (one_size _ _ _ Hf Er); lia]. }
  unfold delimited in *. rewrite zlen_app in Hl. pose proof (zlen_leb128 10 (zlen data) ltac:(lia)). rewrite <- app_assoc.
  unfold pb_dec_bytes. apply (yields_stream _ (zlen data) _ _ (stream (data ++ rest) (left - zlen (varint (zlen data))) err)).
  { apply varint32_unsigned; [unfold in_word; lia | lia]. }
  unfold PB_SIZE_MAX, PB_BYTES_ARRAY_T_ALLOCSIZE, bytes_array_bytes. destruct (Z.ltb_spec (2 ^ 32 - 1) (zlen data)); [lia|].
  rewrite wrap_small by (unfold in_word; lia). destruct (Z.ltb_spec (zlen data + 4) (zlen data)); [lia|].
  rewrite (plain_static _ _ _ Hf). change (PB_ATYPE_STATIC =? PB_ATYPE_POINTER) with false. cbv iota.
  destruct (Z.ltb_spec (data_size f) (zlen data + 4)); [lia|]. apply yields_bind, yields_ret.
  assert (Hm4 : mapped m p (zlen (le_split 4 (zlen data)))) by (rewrite zlen_le_split; apply (mapped_sub _ _ _ _ _ Hm); lia).
  unfold put_size, put_int. apply yields_store; [exact Hm4|]. set (m1 := store_bytes _ _ _).
  assert (Hm1 : mapped m1 (p + 4) (zlen data)).
  { apply (mapped_changes _ _ _ _ _ (changes_store _ _ _ Hm4)). apply (mapped_sub _ _ _ _ _ Hm); lia. }
  apply yields_last, read_into_yields; [lia | exact Hm1|]. apply yields_ret.
  assert (Est : store_bytes m1 (p + 4) data = store_bytes m p (le_split 4 (zlen data) ++ data)).
  { unfold m1. rewrite <- store_bytes_app, zlen_le_split. reflexivity. }
  rewrite Est. assert (Hz : zlen (le_split 4 (zlen data) ++ data) = 4 + zlen data) by (rewrite zlen_app, zlen_le_split; lia).
  split; [rewrite zlen_app; f_equal; lia|]. split.
  - apply (at_blob _ _ _ _ _ (zlen data)); [exact Hb | | lia |].
    + unfold load_pb_size, load_int. pose proof (load_part m p (le_split 4 (zlen data) ++ data) 0 4 ltac:(lia) ltac:(lia) ltac:(lia)) as E. rewrite Z.add_0_r in E. rewrite E.
      unfold slice. change (zdrop 0 (le_split 4 (zlen data) ++ data)) with (le_split 4 (zlen data) ++ data).
      rewrite ztake_app by (rewrite zlen_le_split; reflexivity). cbn [option_map]. rewrite le_combine_split. f_equal. apply Z.mod_small. lia.
    + rewrite load_part by lia. f_equal. unfold slice. rewrite zdrop_app by (rewrite zlen_le_split; reflexivity). apply ztake_all. reflexivity.
  - apply (changes_weaken (span p (zlen (le_split 4 (zlen data) ++ data)))); [unfold span; lia|]. apply changes_store. rewrite Hz. apply (mapped_sub _ _ _ _ _ Hm); lia.
Qed.

Lemma dec_string_sets f p data m : plain_field f -> PB_LTYPE (type f) = PB_LTYPE_STRING -> zlen data < data_size f -> Forall (fun b => u8 b <> 0) data ->
  mapped m p (data_size f) -> sets (pb_dec_string f p) (delimited data) p (data_size f) m (fun m' => item_in m' f p (Text data)).
Proof.
  intros Hf Hb Hlt Hnz Hm rest left err Hl. pose proof (plain_size _ _ _ Hf) as [Hd1 Hd2]. pose proof (zlen_nonneg data).
  assert (Hms : data_size f <= member_size f).
  { destruct (is_repeated f) eqn:Er; [destruct (array_bytes _ _ _ Hf Er) as (-> & _ & ?); nia | rewrite (one_size _ _ _ Hf Er); lia]. }
  unfold delimited in *. rewrite zlen_app in Hl. pose proof (zlen_leb128 10 (zlen data) ltac:(lia)). rewrite <- app_assoc.
  unfold pb_dec_string. apply (yields_stream _ (zlen data) _ _ (stream (data ++ rest) (left - zlen (varint (zlen data))) err)).
  { apply varint32_unsigned; [unfold in_word; lia | lia]. }
  rewrite wrap_small by (unfold in_word; lia). destruct (Z.ltb_spec (zlen data + 1) (zlen data)); [lia|].
  rewrite (plain_static _ _ _ Hf). change (PB_ATYPE_STATIC =? PB_ATYPE_POINTER) with false. cbv iota.
  destruct (Z.ltb_spec (data_size f) (zlen data + 1)); [lia|]. apply yields_bind, yields_ret.
  assert (Hmd : mapped m p (zlen data)) by (apply (mapped_sub _ _ _ _ _ Hm); lia).
  apply yields_status. apply yields_last, read_into_yields; [lia | exact Hmd|]. apply yields_ret.
  unfold put_int. change (le_split 1 0) with [Byte.x00]. apply yields_store.
  { apply (mapped_changes _ _ _ _ _ (changes_store _ _ _ Hmd)). apply (mapped_sub _ _ _ _ _ Hm); [lia | change (zlen [Byte.x00]) with 1; lia]. }
  apply yields_ret. rewrite store_bytes_app.
  assert (Hz : zlen (data ++ [Byte.x00]) = zlen data + 1) by (rewrite zlen_app; reflexivity).
  split; [rewrite zlen_app; f_equal; lia|]. split.
  - apply at_text; [exact Hb | exact Hlt | exact Hnz|]. apply load_stored. symmetry. exact Hz.
  - apply (changes_weaken (span p (zlen (data ++ [Byte.x00])))); [unfold span; lia|]. apply changes_store. rewrite Hz. apply (mapped_sub _ _ _ _ _ Hm); lia.
Qed.

(** A place for an item; a submessage that is not in an array has to be empty
    already, one in an array is emptied first. *)
Definition ready (m : mem) (f : pb_field) (p : Z) : Prop :=
  0 < p /\ mapped m p (data_size f) /\
  (is_repeated f = false -> PB_LTYPE (type f) = PB_LTYPE_SUBMESSAGE -> forall fields, descriptors (ptr f) = Some fields -> blank descriptors n m fields p).

Lemma decode_init_yields fields size d ms m m0 d0 rest err : plain descriptors n size fields -> 0 < d -> mapped m d size ->
  stored descriptors n m0 fields d0 ms -> zlen (wire descriptors n fields ms) < 2 ^ 32 ->
  yields (decode_init descriptors constants rfuel noinit fields d) (stream (wire descriptors n fields ms ++ rest) (zlen (wire descriptors n fields ms)) err) m
    (fun _ s' m' => s' = stream rest 0 err /\ stored descriptors n m' fields d ms /\ changes (span d size) m m').
Proof.
  intros Hp Hd Hm Hs Hl. unfold decode_init. apply yields_bind.
  apply (yields_mono _ _ _ _ _ (default_blank descriptors constants n rfuel fields size d _ m Hrfuel Hp Hd Hm)). intros _ s1 m1 (-> & Hbl & Hc).
  apply yields_status. apply (yields_mono _ _ _ _ _ (Hsub fields size d ms m1 m0 d0 rest err Hp (mapped_changes _ _ _ _ _ Hc Hm) Hbl Hs Hl)).
  intros _ s' m' (E & Hst & Hc'). apply yields_ret. split; [exact E|]. split; [exact Hst | apply (changes_trans _ _ _ _ Hc Hc')].
Qed.

Lemma dec_submessage_sets f p fields ms m m0 p0 : plain_field f -> PB_LTYPE (type f) = PB_LTYPE_SUBMESSAGE -> descriptors (ptr f) = Some fields ->
  ready m f p -> stored descriptors n m0 fields p0 ms -> zlen (wire descriptors n fields ms) < 2 ^ 32 ->
  sets (pb_dec_submessage descriptors constants rfuel noinit f p) (delimited (wire descriptors n fields ms)) p (data_size f) m (fun m' => item_in m' f p (Message ms)).
Proof.
  intros Hf Hb Hfs (Hp & Hm & Hready) Hst Hlen rest left err Hl. pose proof (zlen_nonneg (wire descriptors n fields ms)).
  destruct (plain_item _ _ _ Hf) as [Ht|Ht|Ht|Ht|fields' _ Hz Hptr Hfs' Hty]; try (rewrite Hb in Ht; discriminate Ht).
  { apply number_type_number in Ht. unfold is_number in Ht. rewrite Hb in Ht. discriminate Ht. }
  assert (fields' = fields) as -> by congruence. set (w := wire descriptors n fields ms) in *.
  unfold pb_dec_submessage. apply (yields_stream _ _ _ _ _ _ _ (pb_make_string_substream_parses w rest left err Hlen Hl)).
  rewrite (proj2 (Z.eqb_neq _ _) Hptr). apply (yields_known _ _ _ _ _ _ Hfs).
  assert (Hrun : yields (if PB_HTYPE (type f) =? PB_HTYPE_REPEATED then decode_init descriptors constants rfuel noinit fields p else noinit fields p)
    (stream (w ++ rest) (zlen w) err) m (fun _ s' m' => s' = stream rest 0 err /\ stored descriptors n m' fields p ms /\ changes (span p (data_size f)) m m')).
  { fold (is_repeated f). destruct (is_repeated f) eqn:Er; [apply (decode_init_yields _ _ _ _ _ m0 p0) | apply (Hsub _ _ _ _ _ m0 p0)]; auto. }
  apply yields_substream. apply (yields_mono _ _ _ _ _ Hrun). intros _ sub m' (-> & Hst' & Hc).
  apply (yields_stream _ tt _ _ (stream rest (left - zlen (delimited w)) err)).
  { exact (pb_close_string_substream_spec [] rest _ _ err err ltac:(rewrite zlen_nil; lia)). }
  apply yields_ret. split; [reflexivity|]. split; [|exact Hc]. apply (at_message _ _ _ _ _ fields); assumption.
Qed.

Lemma item_decoder f : plain_field f -> exists func, decoders !! Z.to_nat (PB_LTYPE (type f)) = Some func.
Proof.
  intros Hf. destruct (plain_item _ _ _ Hf) as [[E|? [E|[E|E]]|E|E]|E|E|E|? E]; rewrite E; eexists; reflexivity.
Qed.

(** Whatever the type of the field, the item that was encoded is decoded. *)
Lemma item_sets f func m p m0 p0 v : plain_field f -> decoders !! Z.to_nat (PB_LTYPE (type f)) = Some func -> item_in m0 f p0 v ->
  ready m f p -> zlen (vb f v) < 2 ^ 32 -> sets (func f p) (vb f v) p (data_size f) m (fun m' => item_in m' f p v).
Proof.
  intros Hf Hfunc Hi Hr Hl. pose proof Hr as (Hp & Hm & _). destruct (is_number f) eqn:En.
  { destruct (number_stores f p m0 p0 v Hf En Hi) as (dec & out & Hdec & Hst & Hsz & Hz & Hout). rewrite Hdec in Hfunc. injection Hfunc as <-.
    apply (sets_weaken _ _ _ (scalar_size f) _ _ (fun m' => item_in m' f p v)); [|lia | auto]. apply (sets_at_dest _ _ _ _ out); [exact Hst | lia | rewrite Hsz; exact Hm | apply Hout]. }
  unfold is_number in En. destruct Hi as [b Hb Hll|bs Hb _ Hll|k data Hb Hn Hle Hll|data Hb Hll|data Hb Hlt Hnz Hll|fields ms Hb Hfs Hms]; cbn [value_bytes] in *.
  - rewrite Hb in En. discriminate En.
  - unfold is_number in Hb. congruence.
  - rewrite Hb in Hfunc. injection Hfunc as <-. apply dec_bytes_sets; [exact Hf | exact Hb | | exact Hm]. apply load_bytes_zlen in Hll as [-> _]. exact Hle.
  - rewrite Hb in Hfunc. injection Hfunc as <-. apply load_bytes_zlen in Hll as [Hz _]. pose proof (plain_size _ _ _ Hf) as [Hd _]. pose proof (zlen_delimited data).
    assert (Hsz : scalar_size f = data_size f) by (unfold scalar_size; rewrite Hb; reflexivity).
    apply (sets_weaken _ _ _ (scalar_size f) _ _ (fun m' => item_in m' f p (Blob data))); [|lia | auto].
    apply (sets_at_dest _ _ _ _ data); [apply fixed_length_stores; lia | lia | rewrite Hsz; exact Hm|].
    apply at_fixed; [exact Hb|]. apply load_stored. lia.
  - rewrite Hb in Hfunc. injection Hfunc as <-. apply dec_string_sets; assumption.
  - rewrite Hb in Hfunc. injection Hfunc as <-. rewrite Hfs in *. pose proof (zlen_delimited (wire descriptors n fields ms)).
    apply (dec_submessage_sets f p fields ms m m0 p0); try assumption. lia.
Qed.

(** ** Decoding one record of a member *)

Notation items_in m := (items_at descriptors m (stored descriptors n m)).
Notation member_in m := (member_at descriptors m (stored descriptors n m)).

(** A member that has got the items [vs] so far. *)
Definition partial (m : mem) (f : pb_field) (p : Z) (vs : list value) : Prop :=
  match vs with
  | [] => blank_member descriptors m (blank descriptors n m) f p
  | _ => member_in m f p vs /\ mapped m p (member_size f)
  end.

Lemma items_keep f p vs P m m' : plain_field f -> changes P m m' -> (forall i, span p (data_size f * zlen vs) i -> ~ P i) ->
  items_in m f p vs -> items_in m' f p vs.
Proof.
  intros Hf Hc HP. apply (items_frame descriptors (plain descriptors n) m m' (stored descriptors n m)); [|exact Hf | exact (changes_on _ _ _ _ Hc HP)].
  intros size fields q ms Hp Hs Hst. exact (stored_frame descriptors n size fields m m' q ms Hp Hs Hst).
Qed.

Lemma items_snoc m f vs v : forall p, items_in m f p vs -> item_in m f (p + data_size f * zlen vs) v -> items_in m f p (vs ++ [v]).
Proof.
  induction vs as [|x vs IH]; intros p H Hv; cbn [items_at app] in *.
  - rewrite zlen_nil, Z.mul_0_r, Z.add_0_r in Hv. auto.
  - destruct H as [Hx H]. split; [exact Hx|]. apply IH; [exact H|]. rewrite zlen_cons in Hv.
    replace (p + data_size f + data_size f * zlen vs) with (p + data_size f * (1 + zlen vs)) by lia. exact Hv.
Qed.

(** An array with the items [vs] and room for others. *)
Definition array_at (m : mem) (f : pb_field) (p : Z) (vs : list value) : Prop :=
  load_pb_size m (p + size_offset f) = Some (zlen vs) /\ items_in m f p vs /\ mapped m p (member_size f).

Lemma partial_array m f p vs : is_repeated f = true -> zlen vs <= array_size f -> partial m f p vs <-> array_at m f p vs.
Proof.
  intros Er Hn. unfold partial, array_at, member_at, blank_member. rewrite Er. destruct vs as [|v vs].
  - change (zlen (@nil value)) with 0. cbn [items_at]. tauto.
  - tauto.
Qed.

(** Setting an item leaves the count alone. *)
Lemma array_flag f p m m' c : plain_field f -> is_repeated f = true -> changes (span p (member_size f)) m m' ->
  load_pb_size m (p + size_offset f) = Some c -> load_pb_size m' (p + size_offset f) = Some c.
Proof.
  intros Hf Er Hc H. destruct (array_bytes _ _ _ Hf Er) as (_ & Hz & _). rewrite (load_size_same m m'); [exact H|].
  pose proof (flag_kept _ _ f p m m' Hf Hz Hc) as Hs. unfold flag_size in Hs. rewrite Er in Hs. exact Hs.
Qed.

Lemma size_mapped m a c : load_pb_size m a = Some c -> mapped m a 4.
Proof.
  unfold load_pb_size, load_int. destruct (load_bytes m a 4) as [bs|] eqn:E; [|discriminate]. intros _. apply (mapped_load _ _ _ _ E).
Qed.

(** Setting the count leaves the items alone. *)
Lemma array_count f p m vs (c : Z) : plain_field f -> is_repeated f = true -> mapped m (p + size_offset f) 4 -> in_word 32 c ->
  zlen vs <= array_size f -> items_in m f p vs -> mapped m p (member_size f) ->
  let m' := store_bytes m (p + size_offset f) (le_split 4 c) in
  load_pb_size m' (p + size_offset f) = Some c /\ items_in m' f p vs /\ mapped m' p (member_size f) /\ changes (touches f p) m m'.
Proof.
  intros Hf Er Hm4 Hc Hn Hi Hm m'. destruct (array_bytes _ _ _ Hf Er) as (Ha & Hz & _). pose proof (plain_size _ _ _ Hf) as [Hd _].
  assert (Hm4' : mapped m (p + size_offset f) (zlen (le_split 4 c))) by (rewrite zlen_le_split; exact Hm4).
  pose proof (changes_store _ _ _ Hm4') as Hch. rewrite zlen_le_split in Hch.
  split; [apply size_stored, Hc|]. split; [|split; [apply (mapped_changes _ _ _ _ _ Hch Hm)|]].
  - apply (items_keep f p vs _ m m' Hf Hch); [|exact Hi]. intros i Hi1 Hi2. apply (flag_apart _ _ f p i Hf Hz); [unfold flag_size; rewrite Er; exact Hi2|].
    unfold span in *. nia.
  - apply (changes_weaken _ _ _ _) with (2 := Hch). intros i Hs. apply (touches_flag f p i Hz). unfold flag_size. rewrite Er. exact Hs.
Qed.

(** The place of the next item of an array. *)
Lemma next_place f p m (vs : list value) : plain_field f -> is_repeated f = true -> 0 < p -> zlen vs < array_size f -> mapped m p (member_size f) ->
  u32 (data_size f * zlen vs) = data_size f * zlen vs /\ ready m f (p + data_size f * zlen vs) /\
  (forall i, span (p + data_size f * zlen vs) (data_size f) i -> span p (member_size f) i).
Proof.
  intros Hf Er Hp Hn Hm. destruct (array_bytes _ _ _ Hf Er) as (Ha & _ & _). pose proof (plain_size _ _ _ Hf) as [Hd Hs].
  pose proof (zlen_nonneg vs). split; [apply wrap_small; unfold in_word; nia|]. split.
  - split; [nia|]. split; [apply (mapped_sub _ _ _ _ _ Hm); nia|]. intros E. congruence.
  - intros i. unfold span. nia.
Qed.

Lemma record_single f it wt p vs v more m m0 p0 rest left err : plain_field f -> is_repeated f = true -> is_packed wt f = false -> 0 < p ->
  iter_pos it = (Ok f, it) -> pData it = p -> pSize it = p + size_offset f ->
  zlen (vs ++ [v] ++ more) <= array_size f -> item_in m0 f p0 v -> zlen (vb f v) < 2 ^ 32 -> zlen (vb f v) <= left < 2 ^ 64 -> partial m f p vs ->
  yields (decode_static_field descriptors constants rfuel noinit wt it) (stream (vb f v ++ rest) left err) m
    (fun _ s' m' => s' = stream rest (left - zlen (vb f v)) err /\ partial m' f p (vs ++ [v]) /\ changes (touches f p) m m').
Proof.
  intros Hf Er Hpk Hp Hit HD HS Hn Hi Hl Hleft Hpar. rewrite !zlen_app, zlen_cons, zlen_nil in Hn. pose proof (zlen_nonneg vs). pose proof (zlen_nonneg more).
  destruct (array_bytes _ _ _ Hf Er) as (Ha & Hz & _). pose proof (plain_size _ _ _ Hf) as [Hd Hds].
  apply (partial_array m f p vs Er ltac:(lia)) in Hpar as (Hcount & Hitems & Hm). pose proof (size_mapped _ _ _ Hcount) as Hm4.
  destruct (item_decoder f Hf) as [func Hfunc]. unfold decode_static_field. apply (yields_pos _ _ _ _ _ _ Hit). apply (yields_known _ _ _ _ _ _ Hfunc).
  rewrite HD, HS, Hpk. pose proof Er as Er'. unfold is_repeated in Er'. apply Z.eqb_eq in Er'. rewrite Er'.
  cbn [Z.eqb Pos.eqb PB_HTYPE_REQUIRED PB_HTYPE_OPTIONAL PB_HTYPE_REPEATED].
  apply (yields_size _ (zlen vs)); [exact Hcount|]. unfold put_size, put_int.
  assert (Hlt : zlen vs < array_size f) by lia. destruct (next_place f p m vs Hf Er Hp Hlt Hm) as (Hu & _ & Hsub').
  rewrite Hu, (wrap_small 32 (zlen vs + 1)) by (unfold in_word; nia).
  apply yields_store; [rewrite zlen_le_split; exact Hm4|].
  destruct (array_count f p m vs (zlen vs + 1) Hf Er Hm4 ltac:(unfold in_word; nia) ltac:(lia) Hitems Hm) as (Hc1 & Hi1 & Hm1 & Hch1). set (m1 := store_bytes _ _ _) in *.
  destruct (Z.leb_spec (array_size f) (zlen vs)); [lia|]. destruct (next_place f p m1 vs Hf Er Hp Hlt Hm1) as (_ & Hready & _).
  apply (yields_mono _ _ _ _ _ (item_sets f func m1 _ m0 p0 v Hf Hfunc Hi Hready Hl rest left err Hleft)). intros _ s' m' (E & Hv & Hc).
  split; [exact E|]. assert (Hc' : changes (span p (member_size f)) m1 m') by (apply (changes_weaken _ _ _ _ Hsub' Hc)). split.
  - apply (partial_array m' f p (vs ++ [v]) Er); [rewrite zlen_app, zlen_cons, zlen_nil; lia|]. split; [|split; [|apply (mapped_changes _ _ _ _ _ Hc Hm1)]].
    + rewrite zlen_app. apply (array_flag f p m1 m' _ Hf Er Hc'). exact Hc1.
    + apply items_snoc; [|exact Hv]. apply (items_keep f p vs _ m1 m' Hf Hc); [|exact Hi1]. intros i. unfold span. lia.
  - apply (changes_trans _ _ _ _ Hch1). apply (changes_weaken _ _ _ _) with (2 := Hc'). intros i. apply touches_data.
Qed.

Lemma number_positive f m0 p0 v : plain_field f -> is_number f = true -> item_in m0 f p0 v -> 0 < zlen (vb f v).
Proof.
  intros Hf Hn Hi. assert (Hnt : number_type f).
  { unfold is_number in Hn. destruct (plain_item _ _ _ Hf) as [H|H|H|H|? H]; [exact H|..]; rewrite H in Hn; discriminate Hn. }
  destruct (number_scalar descriptors m0 (stored descriptors n m0) (wire descriptors n) f p0 v Hnt Hn Hi) as (bs & Hl & Hw).
  apply load_bytes_zlen in Hl as [Hz _]. pose proof (plain_size _ _ _ Hf) as [Hd _].
  destruct Hw as [b|k src|k src|k src|src|src]; try lia;
    match goal with |- 0 < zlen (varint ?x) => pose proof (zlen_leb128 10 x ltac:(lia)); lia end.
Qed.

Lemma packed_yields f func it p m0 rest err s : plain_field f -> is_repeated f = true -> is_number f = true -> 0 < p ->
  decoders !! Z.to_nat (PB_LTYPE (type f)) = Some func -> pData it = p -> pSize it = p + size_offset f ->
  forall new vs m fuel, Forall (fun v => exists p0, item_in m0 f p0 v) new -> zlen vs + zlen new <= array_size f -> array_at m f p vs ->
  let bytes := concat (map (vb f) new) in zlen bytes < 2 ^ 32 -> zlen bytes < Z.of_nat fuel ->
  yields (packed_static fuel func it f (stream (bytes ++ rest) (zlen bytes) err)) s m
    (fun r s' m' => r = (true, stream rest 0 err) /\ s' = s /\ array_at m' f p (vs ++ new) /\ changes (touches f p) m m').
Proof.
  intros Hf Er Hn Hp Hfunc HD HS. pose proof (plain_size _ _ _ Hf) as [Hd Hds]. destruct (array_bytes _ _ _ Hf Er) as (Ha & Hz & _).
  induction new as [|v new IH]; intros vs m fuel Hsrc Hroom Harr bytes Hl Hfuel; pose proof (zlen_nonneg bytes); (destruct fuel as [|fuel]; [lia|]);
    cbn [packed_static i_bytes_left]; subst bytes; cbn [map concat] in *.
  { change (zlen (@nil byte)) with 0. cbn [Z.eqb app]. apply yields_ret. rewrite app_nil_r. split; [reflexivity|]. split; [reflexivity|]. split; [exact Harr | apply changes_refl]. }
  apply Forall_cons_iff in Hsrc as [[p0 Hv] Hsrc]. rewrite zlen_cons in Hroom. pose proof (zlen_nonneg new). pose proof (zlen_nonneg vs).
  set (bytes := concat (map (vb f) new)) in *. rewrite zlen_app in *. pose proof (zlen_nonneg bytes) as Hbytes. pose proof (number_positive f m0 p0 v Hf Hn Hv).
  destruct (Z.eqb_spec (zlen (vb f v) + zlen bytes) 0); [lia|]. destruct Harr as (Hcount & Hitems & Hm).
  assert (Hlt : zlen vs < array_size f) by lia. destruct (next_place f p m vs Hf Er Hp Hlt Hm) as (Hu & Hready & Hsub').
  rewrite HS, HD. apply (yields_size _ (zlen vs)); [exact Hcount|]. destruct (Z.ltb_spec (zlen vs) (array_size f)); [|lia]. rewrite Hu, <- app_assoc.
  apply yields_substream. apply (yields_mono _ _ _ _ _ (item_sets f func m _ m0 p0 v Hf Hfunc Hv Hready ltac:(lia) (bytes ++ rest) (zlen (vb f v) + zlen bytes) err ltac:(lia))).
  intros _ sub m1 (-> & Hv1 & Hc). assert (Hc1 : changes (span p (member_size f)) m m1) by (apply (changes_weaken _ _ _ _ Hsub' Hc)).
  pose proof (array_flag f p m m1 _ Hf Er Hc1 Hcount) as Hcount1.
  assert (Hitems1 : items_in m1 f p (vs ++ [v])).
  { apply items_snoc; [|exact Hv1]. apply (items_keep f p vs _ m m1 Hf Hc); [|exact Hitems]. intros i. unfold span. lia. }
  apply (yields_size _ (zlen vs)); [exact Hcount1|]. unfold put_size, put_int. rewrite (wrap_small 32) by (unfold in_word; nia).
  apply yields_store; [rewrite zlen_le_split; apply (size_mapped _ _ _ Hcount1)|].
  assert (Hz1 : zlen (vs ++ [v]) = zlen vs + 1) by (rewrite zlen_app; reflexivity).
  destruct (array_count f p m1 (vs ++ [v]) (zlen vs + 1) Hf Er (size_mapped _ _ _ Hcount1) ltac:(unfold in_word; nia) ltac:(lia) Hitems1 (mapped_changes _ _ _ _ _ Hc Hm))
    as (Hc2 & Hi2 & Hm2 & Hch2). set (m2 := store_bytes _ _ _) in *.
  replace (zlen (vb f v) + zlen bytes - zlen (vb f v)) with (zlen bytes) by lia.
  assert (Harr2 : array_at m2 f p (vs ++ [v])) by (split; [rewrite Hz1; exact Hc2 | split; [exact Hi2 | exact Hm2]]).
  apply (yields_mono _ _ _ _ _ (IH (vs ++ [v]) m2 fuel Hsrc ltac:(lia) Harr2 ltac:(lia) ltac:(lia))).
  intros r s' m' (-> & -> & Harr' & Hc'). rewrite <- app_assoc in Harr'. split; [reflexivity|]. split; [reflexivity|]. split; [exact Harr'|].
  apply (changes_trans _ _ m1); [apply (changes_weaken _ _ _ _) with (2 := Hc1); intros i; apply touches_data|]. apply (changes_trans _ _ m2); assumption.
Qed.

(** A record with the numbers [new]. *)
Lemma record_packed f it p vs new more m m0 rest left err : plain_field f -> is_repeated f = true -> is_number f = true -> 0 < p ->
  iter_pos it = (Ok f, it) -> pData it = p -> pSize it = p + size_offset f ->
  zlen (vs ++ new ++ more) <= array_size f -> Forall (fun v => exists p0, item_in m0 f p0 v) new -> new <> [] -> partial m f p vs ->
  let bytes := delimited (concat (map (vb f) new)) in zlen bytes < 2 ^ 32 -> zlen bytes <= left < 2 ^ 64 ->
  yields (decode_static_field descriptors constants rfuel noinit PB_WT_STRING it) (stream (bytes ++ rest) left err) m
    (fun _ s' m' => s' = stream rest (left - zlen bytes) err /\ partial m' f p (vs ++ new) /\ changes (touches f p) m m').
Proof.
  intros Hf Er En Hp Hit HD HS Hn Hsrc Hne Hpar bytes Hl Hleft. rewrite !zlen_app in Hn. pose proof (zlen_nonneg more). pose proof (zlen_nonneg new).
  apply (partial_array m f p vs Er ltac:(lia)) in Hpar. destruct (item_decoder f Hf) as [func Hfunc].
  unfold decode_static_field. apply (yields_pos _ _ _ _ _ _ Hit). apply (yields_known _ _ _ _ _ _ Hfunc).
  pose proof Er as Er'. unfold is_repeated in Er'. apply Z.eqb_eq in Er'. rewrite Er'.
  cbn [Z.eqb Pos.eqb PB_HTYPE_REQUIRED PB_HTYPE_OPTIONAL PB_HTYPE_REPEATED]. unfold is_packed. unfold is_number in En. rewrite En. cbn [andb Z.eqb Pos.eqb PB_WT_STRING].
  set (body := concat (map (vb f) new)) in *. pose proof (zlen_delimited body). pose proof (zlen_nonneg body).
  apply (yields_stream _ _ _ _ _ _ _ (pb_make_string_substream_parses body rest left err ltac:(unfold bytes in Hl; lia) Hleft)). cbn [i_bytes_left].
  assert (Hbody : zlen body < 2 ^ 32) by (unfold bytes in Hl; lia). assert (Hfuel : zlen body < Z.of_nat (S (Z.to_nat (zlen body)))) by lia.
  assert (Hroom : zlen vs + zlen new <= array_size f) by lia.
  apply yields_bind. apply (yields_mono _ _ _ _ _ (packed_yields f func it p m0 rest err _ Hf Er En Hp Hfunc HD HS new vs m _ Hsrc Hroom Hpar Hbody Hfuel)).
  intros r s' m' (-> & -> & Harr & Hc). cbn [i_bytes_left]. change (negb (0 =? 0)) with false. cbv iota.
  apply (yields_stream _ tt _ _ (stream rest (left - zlen bytes) err)).
  { exact (pb_close_string_substream_spec [] rest _ _ err err ltac:(rewrite zlen_nil; lia)). }
  apply yields_ret. split; [reflexivity|]. split; [|exact Hc]. apply partial_array; [exact Er | rewrite zlen_app; lia | exact Harr].
Qed.

(** *** Optional members *)

(** A value that is not the default of its type. *)
Definition nondefault (v : value) : bool :=
  match v with
  | Number bs => negb (forallb (fun b => u8 b =? 0) bs)
  | Blob data | Text data => negb (zlen data =? 0)
  | Message _ => true
  end.

(** Without a flag, a member is there when its value is not the default. *)
Lemma there_value m f p v : plain_field f -> size_offset f = 0 -> item_in m f p v -> there m f p = Some (nondefault v).
Proof.
  intros Hf Hz Hi. unfold there. rewrite Hz. cbn [Z.eqb negb].
  destruct Hi as [b Hb Hl|bs Hn Hb Hl|k data Hb Hn Hle Hl|data Hb Hl|data Hb Hlt Hnz Hl|fields ms Hb Hfs Hms]; cbn [nondefault].
  - rewrite Hb, (bool_size _ _ _ Hf Hb). cbn [Z.eqb Pos.eqb PB_LTYPE_BOOL PB_LTYPE_BYTES PB_LTYPE_STRING].
    rewrite Hl. unfold all_zero. cbn [option_map forallb]. rewrite !andb_true_r. destruct (u8 b =? 0) eqn:E; reflexivity.
  - unfold is_number in Hn. destruct (Z.eqb_spec (PB_LTYPE (type f)) PB_LTYPE_BYTES) as [E|_]; [rewrite E in Hn; discriminate Hn|].
    destruct (Z.eqb_spec (PB_LTYPE (type f)) PB_LTYPE_STRING) as [E|_]; [rewrite E in Hn; discriminate Hn|].
    rewrite Hl. reflexivity.
  - rewrite Hb. cbn [Z.eqb Pos.eqb PB_LTYPE_BYTES]. rewrite Hn. apply load_bytes_zlen in Hl as [-> _]. cbn [option_map]. rewrite Z.eqb_sym. reflexivity.
  - exfalso. destruct (plain_item _ _ _ Hf) as [H|H|H|_ H|? H]; try (rewrite Hb in H; discriminate H); [|contradiction].
    apply number_type_number in H. unfold is_number in H. rewrite Hb in H. discriminate H.
  - rewrite Hb. cbn [Z.eqb Pos.eqb PB_LTYPE_BYTES PB_LTYPE_STRING]. destruct data as [|c data].
    + change (zlen (@nil byte) + 1) with 1 in Hl. cbn [app] in Hl. apply load_bytes_cons in Hl as [-> _]. reflexivity.
    + cbn [app] in Hl. apply load_bytes_cons in Hl as [-> _]. apply Forall_cons_iff in Hnz as [Hc _]. cbn [option_map].
      rewrite (proj2 (Z.eqb_neq _ _) Hc). destruct (Z.eqb_spec (zlen (c :: data)) 0) as [E|_]; [rewrite zlen_cons in E; pose proof (zlen_nonneg data); lia | reflexivity].
  - exfalso. destruct (plain_item _ _ _ Hf) as [H|H|H|H|? _ H]; try (rewrite Hb in H; discriminate H); [|contradiction].
    apply number_type_number in H. unfold is_number in H. rewrite Hb in H. discriminate H.
Qed.

(** An empty member with its flag set is ready for its item. *)
Lemma flag_ready f p m : plain_field f -> is_repeated f = false -> 0 < p -> blank_member descriptors m (blank descriptors n m) f p ->
  exists m1, (forall B (k : unit -> D B) s Q, yields (k tt) s m1 Q ->
      yields (bind (if negb (p + size_offset f =? p) then put_int (p + size_offset f) 1 1 else ret tt) k) s m Q) /\
    ready m1 f p /\ changes (touches f p) m m1 /\ (size_offset f <> 0 -> m1 !! (p + size_offset f) = Some Byte.x01).
Proof.
  intros Hf Er Hp [Hm Hb]. rewrite Er in Hb. rewrite (one_size _ _ _ Hf Er) in Hm. destruct (Z.eqb_spec (size_offset f) 0) as [Hz|Hz].
  - exists m. split; [|split; [|split; [apply changes_refl | contradiction]]].
    + intros B k s Q H. rewrite Hz, Z.add_0_r, Z.eqb_refl. apply yields_bind, yields_ret, H.
    + split; [exact Hp|]. split; [exact Hm|]. intros _ Hsb. exfalso.
      destruct (plain_item _ _ _ Hf) as [H|H|H|H|? _ H]; try (rewrite Hsb in H; discriminate H); [|contradiction].
      apply number_type_number in H. unfold is_number in H. rewrite Hsb in H. discriminate H.
  - destruct Hb as [Hflag Hsub']. assert (Hfm : mapped m (p + size_offset f) (zlen (le_split 1 1))).
    { intros i Hi. unfold span in Hi. change (zlen (le_split 1 1)) with 1 in Hi. replace i with (p + size_offset f) by lia. eauto. }
    pose proof (changes_store _ _ _ Hfm) as Hc. exists (store_bytes m (p + size_offset f) (le_split 1 1)). change (zlen (le_split 1 1)) with 1 in Hc.
    split; [|split; [|split]].
    + intros B k s Q H. destruct (Z.eqb_spec (p + size_offset f) p); [lia|]. cbn [negb]. apply yields_store; assumption.
    + split; [exact Hp|]. split; [apply (mapped_changes _ _ _ _ _ Hc Hm)|]. intros _ Hsb fields Hfs. specialize (Hsub' Hsb fields Hfs).
      destruct (plain_item _ _ _ Hf) as [H|H|H|H|fields' _ _ _ Hfs' Hty]; try (rewrite Hsb in H; discriminate H).
      { apply number_type_number in H. unfold is_number in H. rewrite Hsb in H. discriminate H. }
      assert (fields' = fields) as -> by congruence. apply (blank_frame descriptors n (data_size f) fields m _ p Hty); [|exact Hsub'].
      apply (changes_on _ _ _ _ Hc). intros i Hi Hi'. apply (flag_apart _ _ f p i Hf Hz); [unfold flag_size; rewrite Er; exact Hi' | rewrite (one_size _ _ _ Hf Er); exact Hi].
    + apply (changes_weaken _ _ _ _) with (2 := Hc). intros i Hi. apply (touches_flag f p i Hz). unfold flag_size. rewrite Er. exact Hi.
    + intros _. rewrite lookup_store. change (zlen (le_split 1 1)) with 1. destruct (decide _); [rewrite Z.sub_diag; reflexivity | lia].
Qed.

Lemma record_optional f it wt p v m m0 p0 rest left err : plain_field f -> is_repeated f = false -> 0 < p ->
  iter_pos it = (Ok f, it) -> pData it = p -> pSize it = p + size_offset f ->
  member_in m0 f p0 [v] -> zlen (vb f v) < 2 ^ 32 -> zlen (vb f v) <= left < 2 ^ 64 -> partial m f p [] ->
  yields (decode_static_field descriptors constants rfuel noinit wt it) (stream (vb f v ++ rest) left err) m
    (fun _ s' m' => s' = stream rest (left - zlen (vb f v)) err /\ partial m' f p [v] /\ changes (touches f p) m m').
Proof.
  intros Hf Er Hp Hit HD HS Hsrc Hl Hleft Hbl. unfold member_at in Hsrc. rewrite Er in Hsrc. destruct Hsrc as [Ht Hi].
  destruct (item_decoder f Hf) as [func Hfunc]. unfold decode_static_field. apply (yields_pos _ _ _ _ _ _ Hit). apply (yields_known _ _ _ _ _ _ Hfunc).
  assert (Eopt : PB_HTYPE (type f) = PB_HTYPE_OPTIONAL).
  { destruct (plain_rule _ _ _ Hf) as [E|(E & _)]; [exact E|]. unfold is_repeated in Er. rewrite E in Er. discriminate Er. }
  rewrite HD, HS, Eopt. cbn [Z.eqb Pos.eqb PB_HTYPE_REQUIRED PB_HTYPE_OPTIONAL].
  destruct (flag_ready f p m Hf Er Hp Hbl) as (m1 & Hrun & Hready & Hc1 & Hflag). apply Hrun.
  apply (yields_mono _ _ _ _ _ (item_sets f func m1 p m0 p0 v Hf Hfunc Hi Hready Hl rest left err Hleft)). intros _ s' m' (E & Hv & Hc).
  split; [exact E|]. pose proof (one_size _ _ _ Hf Er) as Hsz. rewrite <- Hsz in Hc. split.
  - split; [|rewrite Hsz; destruct Hready as (_ & Hm1 & _); apply (mapped_changes _ _ _ _ _ Hc Hm1)].
    unfold member_at. rewrite Er. split; [|exact Hv]. destruct (Z.eq_dec (size_offset f) 0) as [Hz|Hz].
    + rewrite (there_value m' f p v Hf Hz Hv). rewrite (there_value m0 f p0 v Hf Hz Hi) in Ht. exact Ht.
    + unfold there. rewrite (proj2 (Z.eqb_neq _ _) Hz). cbn [negb bytes_at].
      pose proof (flag_kept _ _ f p m1 m' Hf Hz Hc) as Hs. unfold flag_size in Hs. rewrite Er in Hs.
      rewrite (Hs (p + size_offset f)) by (unfold span; lia). rewrite (Hflag Hz). reflexivity.
  - apply (changes_trans _ _ _ _ Hc1). apply (changes_weaken _ _ _ _) with (2 := Hc). intros i. apply touches_data.
Qed.

(** *** Any record *)

Definition packed (f : pb_field) : bool := is_repeated f && is_number f.
Definition payload (f : pb_field) (new : list value) : list byte :=
  if packed f then delimited (concat (map (vb f) new)) else concat (map (vb f) new).
Definition record_type (f : pb_field) : Z := if packed f then PB_WT_STRING else wire_type f.
Definition good_record (f : pb_field) (new : list value) : Prop := if packed f then new <> [] else exists v, new = [v].

Notation rb := (record_bytes descriptors (wire descriptors n)).

Lemma record_split f new : rb f new = key f (record_type f) ++ payload f new.
Proof. unfold record_bytes, record_type, payload, packed. destruct (is_repeated f && is_number f); reflexivity. Qed.

Lemma records_concat f vs : concat (records f vs) = vs.
Proof.
  unfold records. destruct (is_repeated f && is_number f); [destruct vs; [reflexivity | cbn; rewrite app_nil_r; reflexivity]|].
  induction vs as [|v vs IH]; [reflexivity|]. cbn. f_equal. exact IH.
Qed.

Lemma records_good f vs : Forall (good_record f) (records f vs).
Proof.
  unfold records, good_record, packed. destruct (is_repeated f && is_number f).
  - destruct vs; [constructor|]. constructor; [discriminate | constructor].
  - induction vs as [|v vs IH]; cbn [map]; constructor; [exists v; reflexivity | exact IH].
Qed.

Lemma items_sources m f vs : forall p, items_in m f p vs -> Forall (fun v => exists p0, item_in m f p0 v) vs.
Proof. induction vs as [|v vs IH]; intros p H; constructor; destruct H as [Hv H]; eauto. Qed.

Lemma record_yields f it p vs new more m m0 p0 rest left err : plain_field f -> 0 < p ->
  iter_pos it = (Ok f, it) -> pData it = p -> pSize it = p + size_offset f ->
  member_in m0 f p0 (vs ++ new ++ more) -> good_record f new -> zlen (payload f new) < 2 ^ 32 -> zlen (payload f new) <= left < 2 ^ 64 -> partial m f p vs ->
  yields (decode_field descriptors constants funcs_decode rfuel noinit (record_type f) it) (stream (payload f new ++ rest) left err) m
    (fun it' s' m' => it' = it /\ s' = stream rest (left - zlen (payload f new)) err /\ partial m' f p (vs ++ new) /\ changes (touches f p) m m').
Proof.
  intros Hf Hp Hit HD HS Hsrc Hg Hl Hleft Hpar. unfold decode_field. apply (yields_pos _ _ _ _ _ _ Hit).
  rewrite (plain_not_oneof _ _ _ Hf). apply yields_bind, yields_ret. apply (yields_pos _ _ _ _ _ _ Hit).
  rewrite (plain_static _ _ _ Hf). change (PB_ATYPE_STATIC =? PB_ATYPE_STATIC) with true. cbv iota. apply yields_bind.
  apply (yields_mono _ _ _ (fun _ s' m' => s' = stream rest (left - zlen (payload f new)) err /\ partial m' f p (vs ++ new) /\ changes (touches f p) m m')).
  2: { intros _ s' m' H. apply yields_ret. auto. }
  unfold member_at in Hsrc. unfold payload, record_type, good_record, packed in *. destruct (is_repeated f) eqn:Er; cbn [andb] in *.
  - destruct Hsrc as (_ & Hn & Hi). pose proof (items_sources _ _ _ _ Hi) as Hv. apply Forall_app in Hv as [_ Hv]. apply Forall_app in Hv as [Hv _].
    destruct (is_number f) eqn:En.
    + apply (record_packed f it p vs new more m m0); assumption.
    + destruct Hg as [v ->]. apply Forall_cons_iff in Hv as [[q Hv] _]. cbn [map concat] in *. rewrite !app_nil_r in *.
      assert (Hpk : is_packed (wire_type f) f = false) by (unfold is_packed; unfold is_number in En; rewrite En; apply andb_false_r).
      apply (record_single f it (wire_type f) p vs v more m m0 q); assumption.
  - destruct Hg as [v ->]. destruct vs as [|x vs]; [|destruct vs; contradiction]. destruct more as [|x more]; [|contradiction].
    cbn [map concat app] in *. rewrite !app_nil_r in *. apply (record_optional f it (wire_type f) p v m m0 p0); [assumption.. | | assumption | assumption | assumption].
    unfold member_at. rewrite Er. exact Hsrc.
Qed.
End decode.

(** ** The loop over a message *)

Lemma next_index body it b it' : Forall (fun f => PB_HTYPE (type f) <> PB_HTYPE_REQUIRED) body -> start it = body ++ [PB_LAST_FIELD] ->
  required_field_index it = 0 -> pb_field_iter_next it = (Ok b, it') -> required_field_index it' = 0 /\ start it' = start it.
Proof.
  intros Hb Es Hr. unfold pb_field_iter_next, bind at 1, iter_pos at 1. destruct (start it !! pos it) as [prev|] eqn:Ep; [|discriminate].
  destruct (Z.eqb_spec (tag prev) 0) as [|Ht]; [intros [= _ <-]; auto|]. rewrite bind_get. unfold bind at 1, put. unfold bind at 1, iter_pos at 1. cbn [start pos].
  destruct (start it !! S (pos it)) as [f|]; [|discriminate]. destruct (tag f =? 0).
  - unfold pb_field_iter_begin, bind, put, iter_pos, ret. cbn [start pos dest_struct]. destruct (start it !! 0%nat); [|discriminate].
    destruct (dest_struct it =? 0); intros [= _ <-]; auto.
  - destruct (_ && _); [intros [= _ <-]; auto|]. cbn [pData required_field_index dest_struct start pos].
    assert (Hp : PB_HTYPE (type prev) <> PB_HTYPE_REQUIRED).
    { rewrite Es in Ep. apply lookup_app_Some in Ep as [Ep|[_ Ep]]; [apply (Forall_lookup_1 _ _ _ _ Hb Ep)|].
      destruct (pos it - length body)%nat; [|discriminate]. injection Ep as <-. contradiction Ht. reflexivity. }
    rewrite (proj2 (Z.eqb_neq _ _) Hp). intros [= _ <-]. auto.
Qed.

Lemma find_index body tg b it' fuel : Forall (fun f => PB_HTYPE (type f) <> PB_HTYPE_REQUIRED) body -> forall from it, start it = body ++ [PB_LAST_FIELD] ->
  required_field_index it = 0 -> pb_field_iter_find_loop fuel from tg it = (Ok b, it') -> required_field_index it' = 0.
Proof.
  intros Hb. induction fuel as [|fuel IH]; intros from it Es Hr; cbn [pb_field_iter_find_loop]; [discriminate|].
  unfold bind at 1, iter_pos at 1. destruct (start it !! pos it) as [f|]; [|discriminate]. destruct (_ && _); [intros [= _ <-]; exact Hr|].
  unfold bind at 1. destruct (pb_field_iter_next it) as [[c| |] it1] eqn:En; [|discriminate..].
  destruct (next_index body it c it1 Hb Es Hr En) as [Hr1 Es1]. rewrite bind_get. destruct (Nat.eqb _ _); [intros [= _ <-]; exact Hr1|].
  apply IH; [congruence | exact Hr1].
Qed.

Section message.
Context {CB : Type} {ICB : InputCallback CB} {MA : Machine}.
Context (descriptors : Z -> option (list pb_field)) (constants : mem).
Context (funcs_decode : Z -> pb_field -> Z -> M (dstate CB) unit) (type_decode : Z -> Z -> Z -> Z -> M (dstate CB) unit).
Context (rfuel : nat).
Notation D := (M (dstate CB)).
Notation stream bs left err := (mk_istream (buf_source bs) left err).
Context (n : nat) (noinit : list pb_field -> Z -> D unit) (Hrfuel : (n <= rfuel)%nat).
Context (Hsub : forall fields size d ms m m0 d0 rest err, plain descriptors n size fields -> mapped m d size -> blank descriptors n m fields d ->
  stored descriptors n m0 fields d0 ms -> zlen (wire descriptors n fields ms) < 2 ^ 32 ->
  yields (noinit fields d) (stream (wire descriptors n fields ms ++ rest) (zlen (wire descriptors n fields ms)) err) m
    (fun _ s' m' => s' = stream rest 0 err /\ stored descriptors n m' fields d ms /\ changes (span d size) m m')).

(** A message at [d], and the values [ms] that are to be decoded, which are
    somewhere in a memory [m0]. *)
Context (body : list pb_field) (size d : Z) (m0 : mem) (d0 : Z) (ms : list (list value)).
Context (Hd : 0 < d) (Hbody : Forall (plain_field descriptors (plain descriptors n)) body) (Hlay : plain_layout size body)
        (Htags : NoDup (map tag body)) (Hsrc : members_at descriptors m0 (stored descriptors n m0) body d0 ms).

Notation loop := (decode_fields descriptors constants funcs_decode type_decode rfuel noinit).
Notation rb := (record_bytes descriptors (wire descriptors n)).
Notation mb := (member_bytes descriptors (wire descriptors n)).
Notation partial := (partial descriptors n).

Lemma members_tagged : Forall (fun f => tag f <> 0) body.
Proof. eapply Forall_impl; [exact Hbody|]. intros f Hf. pose proof (plain_tag _ _ _ Hf). lia. Qed.
Lemma body_laid_out : laid_out body (offsets body).
Proof. apply offsets_laid_out. eapply Forall_impl; [exact Hbody|]. intros f. apply plain_not_oneof. Qed.
Lemma body_optional : Forall (fun f => PB_HTYPE (type f) <> PB_HTYPE_REQUIRED) body.
Proof.
  eapply Forall_impl; [exact Hbody|]. intros f Hf. destruct (plain_rule _ _ _ Hf) as [E|(E & _)]; rewrite E; discriminate.
Qed.

(** The iterator stands at a member, and no required field was counted. *)
Definition standing (it : pb_field_iter) : Prop :=
  required_field_index it = 0 /\ exists k, (k < length body)%nat /\ iter_at (body ++ [PB_LAST_FIELD]) (offsets body) d k it.

(** The first [k] members are decoded, and the others still empty. *)
Definition progress (k : nat) (m : mem) : Prop :=
  forall j f o vs, body !! j = Some f -> offsets body !! j = Some o -> ms !! j = Some vs ->
    partial m f (d + o) (if (j <? k)%nat then vs else []).

Lemma find_at k f it : standing it -> body !! k = Some f ->
  exists it', pb_field_iter_find (tag f) it = (Ok true, it') /\ required_field_index it' = 0 /\
    iter_at (body ++ [PB_LAST_FIELD]) (offsets body) d k it'.
Proof.
  intros (Hr & j & Hj & Hit) Hf. pose proof (Forall_lookup_1 _ _ _ _ Hbody Hf) as Hpf.
  assert (Hw : wanted (tag f) f = true).
  { unfold wanted. rewrite Z.eqb_refl. destruct (plain_item _ _ _ Hpf) as [[E|? [E|[E|E]]|E|E]|E|E|E|? E]; rewrite E; reflexivity. }
  pose proof Hit as (Es & Ep & _). assert (Hne : d <> 0) by lia.
  assert (Hit0 : iter_at (body ++ [PB_LAST_FIELD]) (offsets body) d ((j + 0) mod length body) it) by (rewrite Nat.add_0_r, Nat.mod_small by exact Hj; exact Hit).
  assert (Hfuel : (length body - 0 <= length (start it))%nat) by (rewrite Es, length_app; cbn; lia). assert (Hpos : (0 < length body)%nat) by lia.
  destruct (find_loop_correct body (offsets body) d members_tagged body_laid_out Hne (tag f) j _ 0 it Hj Hpos Hfuel Hit0 ltac:(intros; lia)) as (b & it' & E & H).
  pose proof (find_index body _ b it' _ body_optional _ it Es Hr E) as Hidx.
  destruct b.
  - exists it'. split; [unfold pb_field_iter_find; rewrite bind_get, Ep; exact E|]. split; [exact Hidx|]. destruct H as (k' & g & _ & Hit' & Hg & Hwg & _).
    assert (Etag : tag g = tag f) by (unfold wanted in Hwg; apply andb_true_iff in Hwg as [Hwg _]; apply Z.eqb_eq, Hwg).
    assert (((j + k') mod length body)%nat = k) as <-; [|exact Hit'].
    apply (NoDup_lookup (map tag body) _ _ (tag f) Htags); rewrite list_lookup_fmap; [rewrite Hg, <- Etag | rewrite Hf]; reflexivity.
  - destruct H as [_ H]. pose proof (Forall_lookup_1 _ _ _ _ H Hf) as Hn. cbv beta in Hn. congruence.
Qed.

Lemma yields_tag {B} s p s1 eof (k : option (Z * Z) -> D B) m Q : pb_decode_tag s = (Ok p, s1, eof) -> yields (k (Some p)) s1 m Q -> yields (bind next_tag k) s m Q.
Proof.
  intros E H bl. destruct (H bl) as (b & s' & m' & E' & Hq). exists b, s', m'. split; [|exact Hq]. unfold bind, next_tag. cbn [d_stream d_heap]. rewrite E. exact E'.
Qed.

Lemma record_type_range f : plain_field descriptors (plain descriptors n) f -> 0 <= record_type f < 8.
Proof.
  intros Hf. unfold record_type, wire_type. destruct (packed f); [unfold PB_WT_STRING; lia|].
  destruct (plain_item _ _ _ Hf) as [[E|? [E|[E|E]]|E|E]|E|E|E|? E]; rewrite E; split; (discriminate || reflexivity).
Qed.

Lemma record_positive f new : 0 < zlen (rb f new).
Proof.
  rewrite record_split, zlen_app. unfold key. pose proof (zlen_leb128 10 (tag_value (record_type f) (tag f)) ltac:(lia)) as H.
  pose proof (zlen_nonneg (payload descriptors n f new)). lia.
Qed.

(** One turn of the loop takes one record. *)
Lemma turn k f o vs new more it seen m fuel c rest left err Q : standing it -> body !! k = Some f -> offsets body !! k = Some o ->
  ms !! k = Some (vs ++ new ++ more) -> good_record f new -> partial m f (d + o) vs ->
  zlen (rb f new) < 2 ^ 32 -> zlen (rb f new) <= left < 2 ^ 64 ->
  (forall it' m', standing it' -> partial m' f (d + o) (vs ++ new) -> changes (touches f (d + o)) m m' ->
     yields (loop fuel c (mk_vars it' 0 None seen)) (stream rest (left - zlen (rb f new)) err) m' Q) ->
  yields (loop (S fuel) c (mk_vars it 0 None seen)) (stream (rb f new ++ rest) left err) m Q.
Proof.
  intros Hst Hf Ho Hms Hg Hpar Hl Hleft HQ. pose proof (Forall_lookup_1 _ _ _ _ Hbody Hf) as Hpf.
  rewrite (record_split descriptors n) in *. rewrite zlen_app in *. unfold key in *. set (kb := varint (tag_value (record_type f) (tag f))) in *.
  pose proof (zlen_nonneg (payload descriptors n f new)). pose proof (zlen_leb128 10 (tag_value (record_type f) (tag f)) ltac:(lia)) as Hkb.
  fold kb in Hkb. cbn [decode_fields]. apply yields_get. intros bl. cbn [d_stream i_bytes_left]. destruct (Z.eqb_spec left 0); [lia|]. rewrite <- app_assoc.
  apply (yields_tag _ _ _ _ _ _ _ (pb_decode_tag_parses (record_type f) (tag f) _ left err (plain_tag _ _ _ Hpf) (record_type_range f Hpf) ltac:(fold kb; lia))).
  fold kb. destruct (find_at k f it Hst Hf) as (it' & Efind & Hidx & Hit').
  cbn [v_iter set_iter v_extension_range_start v_fixed_count_field v_fields_seen]. apply (yields_local _ _ _ _ _ _ _ _ Efind). cbn [negb].
  pose proof (at_pos _ _ _ _ _ _ Hit' Hf) as Hpos. destruct (at_data _ _ _ _ _ _ _ Hit' Hf Ho) as [HD HS].
  apply yields_bind. apply (yields_pos _ _ _ _ _ _ Hpos).
  assert (Hcount : (PB_HTYPE (type f) =? PB_HTYPE_REPEATED) && (pSize it' =? pData it') = false).
  { rewrite HD, HS. destruct (PB_HTYPE (type f) =? PB_HTYPE_REPEATED) eqn:Er; [|reflexivity].
    destruct (array_bytes _ _ _ Hpf Er) as (_ & Hz & _). apply Z.eqb_neq. lia. }
  unfold use_fixed_count, set_iter. cbn [v_iter v_extension_range_start v_fixed_count_field v_fields_seen]. rewrite Hcount. apply yields_bind, yields_ret.
  unfold mark_seen. cbn [v_iter]. pose proof (Forall_lookup_1 _ _ _ _ body_optional Hf) as Hreq. cbv beta in Hreq. rewrite (proj2 (Z.eqb_neq _ _) Hreq). cbn [andb].
  apply yields_bind, yields_ret. cbn [v_iter]. apply yields_bind.
  destruct (plain_inside _ _ _ _ k f o Hbody Hlay Hf Ho) as [Ho1 _].
  pose proof (proj2 Hsrc k f o _ Hf Ho Hms) as Hmem.
  apply (yields_mono _ _ _ _ _ (record_yields descriptors constants funcs_decode type_decode rfuel n noinit Hrfuel Hsub f it' (d + o) vs new more m m0 (d0 + o) rest
    (left - zlen kb) err Hpf ltac:(lia) Hpos HD HS Hmem Hg ltac:(lia) ltac:(lia) Hpar)).
  intros it1 s' m' (-> & -> & Hpar' & Hc). apply yields_ret. cbn [set_iter v_extension_range_start v_fixed_count_field v_fields_seen].
  replace (left - zlen kb - zlen (payload descriptors n f new)) with (left - (zlen kb + zlen (payload descriptors n f new))) by lia.
  apply HQ; [|exact Hpar' | exact Hc]. split; [exact Hidx|]. exists k. split; [apply (lookup_lt_Some _ _ _ Hf) | exact Hit'].
Qed.

(** All records of one member. *)
Lemma member_turns k f o c seen err rest Q : body !! k = Some f -> offsets body !! k = Some o -> forall rs vs it m fuel left, standing it ->
  ms !! k = Some (vs ++ concat rs) -> Forall (good_record f) rs -> partial m f (d + o) vs ->
  zlen (concat (map (rb f) rs)) < 2 ^ 32 -> zlen (concat (map (rb f) rs)) <= left < 2 ^ 64 -> left < Z.of_nat fuel ->
  (forall it' m' fuel', standing it' -> partial m' f (d + o) (vs ++ concat rs) -> changes (touches f (d + o)) m m' ->
     left - zlen (concat (map (rb f) rs)) < Z.of_nat fuel' ->
     yields (loop fuel' c (mk_vars it' 0 None seen)) (stream rest (left - zlen (concat (map (rb f) rs))) err) m' Q) ->
  yields (loop fuel c (mk_vars it 0 None seen)) (stream (concat (map (rb f) rs) ++ rest) left err) m Q.
Proof.
  intros Hf Ho. induction rs as [|new rs IH]; intros vs it m fuel left Hst Hms Hg Hpar Hl Hleft Hfuel HQ; cbn [map concat] in *.
  - rewrite app_nil_r in *. change (zlen (@nil byte)) with 0 in HQ. rewrite Z.sub_0_r in HQ.
    apply HQ; [exact Hst | exact Hpar | apply changes_refl | exact Hfuel].
  - rewrite zlen_app in *. pose proof (zlen_nonneg (rb f new)). pose proof (zlen_nonneg (concat (map (rb f) rs))).
    apply Forall_cons_iff in Hg as [Hg1 Hg]. rewrite <- app_assoc. pose proof (record_positive f new) as H1.
    destruct fuel as [|fuel]; [lia|]. apply (turn k f o vs new (concat rs)); try assumption; try lia.
    intros it' m' Hst' Hpar' Hc. apply (IH (vs ++ new)); try assumption; try lia; [rewrite <- app_assoc; exact Hms|].
    intros it2 m2 fuel2 Hst2 Hpar2 Hc2 Hf2. rewrite <- app_assoc in Hpar2. rewrite <- Z.sub_add_distr in *.
    apply HQ; [exact Hst2 | exact Hpar2 | apply (changes_trans _ _ _ _ Hc Hc2) | lia].
Qed.

Lemma partial_other k f o j g og m m' vs : body !! k = Some f -> offsets body !! k = Some o -> body !! j = Some g -> offsets body !! j = Some og ->
  j <> k -> changes (touches f (d + o)) m m' -> partial m g (d + og) vs -> partial m' g (d + og) vs.
Proof.
  intros Hf Ho Hg Hog Hne Hc H. destruct vs as [|v vs]; [exact (blank_other descriptors n size body k f o j g og d m m' Hbody Hlay Hf Ho Hg Hog Hne Hc H)|].
  destruct H as [H Hm]. pose proof (Forall_lookup_1 _ _ _ _ Hbody Hg) as Hpg. split; [|apply (mapped_changes _ _ _ _ _ Hc Hm)].
  apply (member_frame descriptors (plain descriptors n) m m' (stored descriptors n m)); [|exact Hpg | | exact H].
  - intros sz fields p ms' Hp Hs Hst. exact (stored_frame descriptors n sz fields m m' p ms' Hp Hs Hst).
  - apply (changes_on _ _ _ _ Hc). intros i Hi Hi'. apply touches_shift in Hi, Hi'. exact (layout_apart _ _ Hlay j g og k f o _ Hg Hog Hf Ho Hne Hi Hi').
Qed.

Lemma progress_step k f o vs m m' : body !! k = Some f -> offsets body !! k = Some o -> ms !! k = Some vs ->
  progress k m -> changes (touches f (d + o)) m m' -> partial m' f (d + o) vs -> progress (S k) m'.
Proof.
  intros Hf Ho Hv H Hc Hpar j g og ws Hg Hog Hw. destruct (decide (j = k)) as [->|Hne].
  - assert (g = f) as -> by congruence. assert (og = o) as -> by congruence. assert (ws = vs) as -> by congruence.
    destruct (Nat.ltb_spec k (S k)); [exact Hpar | lia].
  - replace (j <? S k)%nat with (j <? k)%nat by (destruct (Nat.ltb_spec j k), (Nat.ltb_spec j (S k)); reflexivity || lia).
    apply (partial_other k f o j g og m); auto.
Qed.

(** The local variables at the end. *)
Definition decoded_vars (seen : list Z) (v : decode_vars) : Prop := exists it, standing it /\ v = mk_vars it 0 None seen.

(** All members that are left, up to the end of the stream. *)
Lemma message_turns c seen err rest : forall r k it m fuel bs, (k + r = length body)%nat -> bs = concat (zip_with mb (drop k body) (drop k ms)) ->
  standing it -> progress k m -> zlen bs < 2 ^ 32 -> zlen bs < Z.of_nat fuel ->
  yields (loop fuel c (mk_vars it 0 None seen)) (stream (bs ++ rest) (zlen bs) err) m
    (fun v s' m' => s' = stream rest 0 err /\ decoded_vars seen v /\ progress (length body) m' /\ changes (span d size) m m').
Proof.
  induction r as [|r IH]; intros k it m fuel bs Hk Hbs Hst Hp Hl Hfuel.
  - rewrite drop_ge in Hbs by lia. cbn in Hbs. subst bs. cbn [app]. change (zlen (@nil byte)) with 0 in *.
    destruct fuel as [|fuel]; [lia|]. cbn [decode_fields]. apply yields_get. intros bl. cbn [d_stream i_bytes_left Z.eqb].
    apply yields_ret. replace (length body) with k by lia. split; [reflexivity|]. split; [exists it; auto|]. split; [exact Hp | apply changes_refl].
  - destruct (lookup_lt_is_Some_2 body k) as [f Hf]; [lia|]. destruct (lookup_lt_is_Some_2 (offsets body) k) as [o Ho]; [rewrite length_offsets; lia|].
    destruct (lookup_lt_is_Some_2 ms k) as [vs Hv]; [rewrite (proj1 Hsrc); lia|].
    rewrite (drop_S _ _ _ Hf), (drop_S _ _ _ Hv) in Hbs. cbn [zip_with concat] in Hbs. set (bs1 := concat (zip_with _ _ _)) in Hbs.
    unfold member_bytes at 1 in Hbs. rewrite Hbs in *. rewrite zlen_app in *. set (b0 := concat (map _ (records f vs))) in *. pose proof (zlen_nonneg b0). pose proof (zlen_nonneg bs1).
    rewrite <- app_assoc. pose proof (Hp k f o vs Hf Ho Hv) as Hpar. rewrite Nat.ltb_irrefl in Hpar.
    apply (member_turns k f o c seen err (bs1 ++ rest) _ Hf Ho (records f vs) []); fold b0; try assumption; try lia.
    { cbn [app]. rewrite records_concat. exact Hv. }
    { apply records_good. }
    intros it' m' fuel' Hst' Hpar' Hc Hfuel'. cbn [app] in Hpar'. rewrite records_concat in Hpar'.
    replace (zlen b0 + zlen bs1 - zlen b0) with (zlen bs1) in * by lia.
    apply (yields_mono _ _ _ _ _ (IH (S k) it' m' fuel' bs1 ltac:(lia) eq_refl Hst' (progress_step k f o vs m m' Hf Ho Hv Hp Hc Hpar') ltac:(lia) Hfuel')).
    intros v s2 m2 (E & Hv2 & Hp2 & Hc2). split; [exact E|]. split; [exact Hv2|]. split; [exact Hp2|].
    apply (changes_trans _ _ _ _) with (2 := Hc2). apply (changes_weaken _ _ _ _) with (2 := Hc). apply (member_inside size body k f o d Hlay Hf Ho).
Qed.

(** A member that is still empty has no items. *)
Lemma partial_member m f p vs : plain_field descriptors (plain descriptors n) f -> partial m f p vs -> member_at descriptors m (stored descriptors n m) f p vs.
Proof.
  intros Hf H. destruct vs as [|v vs]; [|exact (proj1 H)]. destruct H as [Hm H]. unfold member_at. destruct (is_repeated f) eqn:Er.
  - destruct (array_bytes _ _ _ Hf Er) as (_ & _ & Ha). split; [exact H|]. split; [change (zlen (@nil value)) with 0; lia | exact I].
  - unfold there. destruct (Z.eqb_spec (size_offset f) 0) as [Hz|Hz]; cbn [negb].
    2: { destruct H as [H _]. cbn [bytes_at]. rewrite H. reflexivity. }
    pose proof (plain_size _ _ _ Hf) as [Hd0 _]. destruct (Z.eqb_spec (PB_LTYPE (type f)) PB_LTYPE_BYTES) as [Hb|_].
    { destruct (plain_item _ _ _ Hf) as [Ht|Ht H4|Ht|Ht|? Ht]; try (rewrite Hb in Ht; discriminate Ht).
      { apply number_type_number in Ht. unfold is_number in Ht. rewrite Hb in Ht. discriminate Ht. }
      unfold load_pb_size, load_int. rewrite (zeros_loaded m p (data_size f) 4 H) by lia. reflexivity. }
    destruct (_ =? _).
    + pose proof (zeros_loaded m p (data_size f) 1 H ltac:(lia)) as [_ H1]%load_bytes_zlen. change (match m !! p with Some b => b :: [] | None => [] end = [Byte.x00]) in H1. destruct (m !! p) as [b|]; [|discriminate]. injection H1 as ->. reflexivity.
    + rewrite H. cbn [option_map]. f_equal. apply negb_false_iff, forallb_forall. intros b Hb.
      unfold zeros in Hb. apply repeat_spec in Hb as ->. reflexivity.
Qed.

(** [count_required] runs on to the last member and counts none. *)
Lemma count_none k it s m fuel : required_field_index it = 0 -> iter_at (body ++ [PB_LAST_FIELD]) (offsets body) d k it -> (k < length body)%nat ->
  (length body - k <= fuel)%nat -> yields (count_required (CB := CB) fuel it) s m (fun c s' m' => c = 0 /\ s' = s /\ m' = m).
Proof.
  revert k it. induction fuel as [|fuel IH]; intros k it Hr Hit Hk Hf; [lia|]. cbn [count_required].
  destruct (lookup_lt_is_Some_2 body k Hk) as [f Ef]. apply (yields_pos _ _ _ _ _ _ (at_pos _ _ _ _ _ _ Hit Ef)).
  assert (Hne : d <> 0) by lia.
  destruct (decide (S k = length body)) as [E|E].
  - destruct (lookup_lt_is_Some_2 body 0) as [f0 Hf0]; [lia|].
    destruct (next_wraps body (offsets body) d members_tagged body_laid_out Hne k it f Hit Ef E) as (it' & En & Hit' & _).
    apply (yields_local _ _ _ _ _ _ _ _ En). apply (yields_pos _ _ _ _ _ _ (at_pos _ _ _ _ _ _ Hit' Hf0)). apply yields_ret.
    pose proof (Forall_lookup_1 _ _ _ _ body_optional Ef) as Hq. cbv beta in Hq. rewrite (proj2 (Z.eqb_neq _ _) Hq). auto.
  - destruct (lookup_lt_is_Some_2 body (S k)) as [g Hg]; [lia|].
    destruct (next_advances body (offsets body) d members_tagged body_laid_out k it f g Hit Ef Hg) as (it' & En & Hit' & _).
    assert (Es : start it = body ++ [PB_LAST_FIELD]) by apply Hit.
    destruct (next_index body it true it' body_optional Es Hr En) as [Hr' _].
    apply (yields_local _ _ _ _ _ _ _ _ En). apply (IH (S k) it' Hr' Hit'); lia.
Qed.

(** Only the bytes of the structure matter. *)
Lemma progress_same k m m' : same_on (span d size) m m' -> progress k m -> progress k m'.
Proof.
  intros Hs H j f o vs Hf Ho Hv. specialize (H j f o vs Hf Ho Hv). pose proof (Forall_lookup_1 _ _ _ _ Hbody Hf) as Hpf.
  assert (Hs' : same_on (touches f (d + o)) m m') by (apply (same_sub _ _ _ _ Hs), (member_inside size body j f o d Hlay Hf Ho)).
  destruct (if (j <? k)%nat then vs else []) as [|x xs].
  - apply (blank_member_frame descriptors (plain descriptors n) (blank descriptors n m) _ m m'); [exact Hpf | | exact Hs' | exact H].
    intros sz fields p Hp Hss Hb. exact (blank_frame descriptors n sz fields m m' p Hp Hss Hb).
  - destruct H as [H Hm]. split; [|apply (mapped_same m); [apply (same_sub _ _ _ _ Hs'), touches_data | exact Hm]].
    apply (member_frame descriptors (plain descriptors n) m m' (stored descriptors n m)); [|exact Hpf | exact Hs' | exact H].
    intros sz fields p ms' Hp Hss Hst. exact (stored_frame descriptors n sz fields m m' p ms' Hp Hss Hst).
Qed.

(** The whole message: an empty structure becomes the value. *)
Lemma decode_message_yields m rest err : body <> [] -> mapped m d size -> progress 0 m -> zlen (concat (zip_with mb body ms)) < 2 ^ 32 ->
  yields (decode_message descriptors constants funcs_decode type_decode rfuel noinit (body ++ [PB_LAST_FIELD]) d)
    (stream (concat (zip_with mb body ms) ++ rest) (zlen (concat (zip_with mb body ms))) err) m
    (fun _ s' m' => s' = stream rest 0 err /\ members_at descriptors m' (stored descriptors n m') body d ms /\ changes (span d size) m m').
Proof.
  intros Hne Hm Hp Hl. set (bs := concat (zip_with mb body ms)) in *.
  destruct (lookup_lt_is_Some_2 body 0) as [f0 Hf0]; [destruct body; [contradiction | cbn; lia]|]. assert (Hd' : d <> 0) by lia.
  destruct (begin_at_first body (offsets body) d members_tagged body_laid_out Hd' no_iter f0 Hf0) as (it & Eb & Hit & Hr).
  unfold decode_message. apply (yields_local _ _ _ _ _ _ _ _ Eb).
  apply (yields_mono _ _ _ (fun (_ : unit) s' m' => changes (span d size) m m' /\ s' = stream rest 0 err /\ members_at descriptors m' (stored descriptors n m') body d ms)); [|tauto].
  apply (yields_variable (zeros 4) _ _ _ (fun _ s' m' => s' = stream rest 0 err /\ members_at descriptors m' (stored descriptors n m') body d ms)); [discriminate | exact Hm|].
  intros a Ha. change (zlen (zeros 4)) with 4 in Ha. assert (Hout : forall i, span d size i -> ~ span a 4 i) by (apply unmapped_outside with (1 := Ha); exact Hm).
  assert (Hs1 : same_on (span d size) m (store_bytes m a (zeros 4))).
  { intros i Hi. rewrite lookup_store. destruct (decide _) as [Hx|]; [contradiction (Hout i Hi Hx) | reflexivity]. }
  apply yields_get. intros bl. cbn [d_stream i_bytes_left]. apply yields_bind.
  apply (yields_mono _ _ _ _ _ (message_turns a [0; 0] err rest (length body) 0 it (store_bytes m a (zeros 4)) (S (Z.to_nat (zlen bs))) bs (Nat.add_0_l _) eq_refl
    (conj Hr (ex_intro _ 0%nat (conj (lookup_lt_Some _ _ _ Hf0) Hit))) (progress_same 0 _ _ Hs1 Hp) Hl ltac:(pose proof (zlen_nonneg bs); lia))).
  intros v s1 m1 (-> & (it1 & (Hr1 & k1 & Hk1 & Hit1) & ->) & Hp1 & Hc1). unfold check_fixed_count. cbn [v_fixed_count_field].
  apply yields_bind, yields_ret. unfold check_required. cbn [v_iter v_fields_seen]. apply yields_bind.
  assert (Hfuel : (length body - k1 <= length (start it1))%nat) by (rewrite (proj1 Hit1), length_app; lia).
  apply (yields_mono _ _ _ _ _ (count_none k1 it1 _ m1 _ Hr1 Hit1 Hk1 Hfuel)). intros c s2 m2 (-> & -> & ->). apply yields_ret.
  split; [exact Hc1|]. split; [reflexivity|]. split; [apply Hsrc|]. intros k f o vs Hf Ho Hv.
  assert (Hs2 : same_on (span d size) m1 (erase m1 a 4)).
  { intros i Hi. rewrite lookup_erase. destruct (decide _) as [Hx|]; [contradiction (Hout i Hi Hx) | reflexivity]. }
  apply partial_member; [apply (Forall_lookup_1 _ _ _ _ Hbody Hf)|]. pose proof (progress_same (length body) _ _ Hs2 Hp1 k f o vs Hf Ho Hv) as H.
  pose proof (lookup_lt_Some _ _ _ Hf) as Hlt. apply Nat.ltb_lt in Hlt. rewrite Hlt in H. exact H.
Qed.
End message.

Section roundtrip.
Context {CB : Type} {ICB : InputCallback CB} {MA : Machine}.
Context (descriptors : Z -> option (list pb_field)) (constants : mem).
Context (funcs_decode : Z -> pb_field -> Z -> M (dstate CB) unit) (type_decode : Z -> Z -> Z -> Z -> M (dstate CB) unit).
Context (rfuel : nat).
Notation stream bs left err := (mk_istream (buf_source bs) left err).
Notation noinit := (pb_decode_noinit descriptors constants funcs_decode type_decode rfuel).

(** [pb_decode_noinit] fills an empty structure, by induction on the depth of
    the message. *)
Lemma noinit_yields n : (n <= rfuel)%nat -> forall fuel fields size d ms m m0 d0 rest err, (n <= fuel)%nat -> plain descriptors n size fields -> mapped m d size ->
  blank descriptors n m fields d -> stored descriptors n m0 fields d0 ms -> zlen (wire descriptors n fields ms) < 2 ^ 32 ->
  yields (noinit fuel fields d) (stream (wire descriptors n fields ms ++ rest) (zlen (wire descriptors n fields ms)) err) m
    (fun _ s' m' => s' = stream rest 0 err /\ stored descriptors n m' fields d ms /\ changes (span d size) m m').
Proof.
  induction n as [|n IH]; intros Hrfuel fuel fields size d ms m m0 d0 rest err Hfuel Hp Hm Hbl Hst Hl; [contradiction|].
  destruct fuel as [|fuel]; [lia|]. cbn [pb_decode_noinit]. destruct Hp as (Ef & Hne & Hbody & Htags & Hlay).
  destruct Hbl as [Hd Hbl]. destruct Hst as [_ Hsrc]. rewrite Ef at 1. cbn [wire] in *.
  assert (Hr : (n <= rfuel)%nat) by lia. assert (Hf : (n <= fuel)%nat) by lia.
  apply (yields_mono _ _ _ _ _ (decode_message_yields descriptors constants funcs_decode type_decode rfuel n (noinit fuel) Hr
    (fun fields size d ms m m0 d0 rest err => IH Hr fuel fields size d ms m m0 d0 rest err Hf) (body_of fields) size d m0 d0 ms Hd Hbody Hlay Htags Hsrc
    m rest err Hne Hm (fun j f o vs Hf Ho _ => Hbl j f o Hf Ho) Hl)).
  intros _ s' m' (E & Hms & Hc). split; [exact E|]. split; [split; assumption | exact Hc].
Qed.

Lemma pb_decode_yields n fuel fields size d ms m m0 d0 rest err : (n <= rfuel)%nat -> (n <= fuel)%nat -> plain descriptors n size fields -> 0 < d -> mapped m d size ->
  stored descriptors n m0 fields d0 ms -> zlen (wire descriptors n fields ms) < 2 ^ 32 ->
  yields (pb_decode descriptors constants funcs_decode type_decode rfuel fuel fields d)
    (stream (wire descriptors n fields ms ++ rest) (zlen (wire descriptors n fields ms)) err) m
    (fun _ s' m' => s' = stream rest 0 err /\ stored descriptors n m' fields d ms /\ changes (span d size) m m').
Proof.
  intros Hr Hf Hp Hd Hm Hst Hl.
  exact (decode_init_yields descriptors constants rfuel n (noinit fuel) Hr (fun fields size d ms m m0 d0 rest err => noinit_yields n Hr fuel fields size d ms m m0 d0 rest err Hf)
    fields size d ms m m0 d0 rest err Hp Hd Hm Hst Hl).
Qed.

Context {CBO : Type} {OCB : OutputCallback CBO}.
Context (funcs_encode : Z -> pb_field -> Z -> M (pb_ostream CBO) unit) (type_encode : Z -> Z -> M (pb_ostream CBO) unit).

(** C3: encoding and decoding are inverse on whole messages. For every message
    type whose members are optional or repeated numbers, bytes, strings and
    submessages inside the structure, apart from each other, with different tags
    below 2^29, zero for their default values, and a flag or a count for every
    submessage and every byte string of a fixed length, and every value of it in
    memory, whatever the nesting: [pb_encode] writes the wire format of the value,
    which has fewer than 2^32 bytes, and [pb_decode] on those bytes fills any other
    structure, whatever it held, with the same value; all input is consumed, no
    block is allocated or freed and no byte outside the structure changes.  An
    optional member without a flag is there when it is not empty and not all of
    its bytes are zeros. *)
Theorem message_roundtrip n fuel size fields m src ms (buf : list byte) h dst :
  plain descriptors n size fields -> stored descriptors n m fields src ms ->
  zlen (wire descriptors n fields ms) < 2 ^ 32 -> zlen (wire descriptors n fields ms) <= zlen buf < 2 ^ 64 ->
  0 < dst -> mapped (h_mem h) dst size -> (n <= fuel)%nat -> (n <= rfuel)%nat ->
  let bs := wire descriptors n fields ms in
  pb_encode m descriptors funcs_encode type_encode n fields src (pb_ostream_from_buffer buf (zlen buf)) =
    (Ok tt, mk_ostream (buf_sink bs (zlen buf - zlen bs)) (zlen buf) (zlen bs) None) /\
  exists m',
    pb_decode descriptors constants funcs_decode type_decode rfuel fuel fields dst (mk_dstate (pb_istream_from_buffer bs (zlen bs)) h) =
      (Ok tt, mk_dstate (pb_istream_from_buffer [] 0) (mk_heap m' (h_blocks h))) /\
    stored descriptors n m' fields dst ms /\ changes (span dst size) (h_mem h) m'.
Proof.
  intros Hp Hst Hl Hbuf Hd Hm Hf Hr bs. split.
  - rewrite (pb_encode_emits m descriptors funcs_encode type_encode n fields src bs).
    + reflexivity.
    + apply (stored_wire descriptors funcs_encode type_encode m n size); assumption.
    + pose proof (zlen_nonneg bs). unfold fits. cbn. intuition lia.
  - destruct h as [hm bl]. cbn [h_mem h_blocks] in *.
    destruct (pb_decode_yields n fuel fields size dst ms hm m src [] None Hr Hf Hp Hd Hm Hst Hl bl) as ([] & s' & m' & E & -> & Hst' & Hc).
    exists m'. rewrite app_nil_r in E. split; [exact E | split; assumption].
Qed.
End roundtrip.

(** ** A document with a time *)

Definition Time_body : list pb_field := [
  mk_field 1 (PB_ATYPE_STATIC + PB_HTYPE_OPTIONAL + PB_LTYPE_VARINT) 0 0 8 0 0;
  mk_field 2 (PB_ATYPE_STATIC + PB_HTYPE_OPTIONAL + PB_LTYPE_VARINT) 0 0 4 0 0 ].
Definition Document_body : list pb_field := [
  mk_field 1 (PB_ATYPE_STATIC + PB_HTYPE_OPTIONAL + PB_LTYPE_STRING) 0 0 8 0 0;
  mk_field 2 (PB_ATYPE_STATIC + PB_HTYPE_REPEATED + PB_LTYPE_SVARINT) 4 (-4) 4 3 0;
  mk_field 3 (PB_ATYPE_STATIC + PB_HTYPE_OPTIONAL + PB_LTYPE_SUBMESSAGE) 8 (-8) 16 0 5000;
  mk_field 4 (PB_ATYPE_STATIC + PB_HTYPE_OPTIONAL + PB_LTYPE_BYTES) 0 0 12 0 0 ].
Definition Document_fields : list pb_field := Document_body ++ [PB_LAST_FIELD].

Definition document_descriptors (a : Z) : option (list pb_field) := if a =? 5000 then Some (Time_body ++ [PB_LAST_FIELD]) else None.

(** The name "hi", the numbers 1 and -2, a time and no data. *)
Definition document_memory : mem := store_bytes ∅ 100
  ([Byte.x68; Byte.x69] ++ zeros 6 ++ le_split 4 2 ++ le_split 4 1 ++ le_split 4 (-2) ++ zeros 4 ++ [Byte.x01] ++ zeros 7 ++
   le_split 8 300 ++ le_split 4 7 ++ zeros 4 ++ zeros 16).
Definition document : list (list value) :=
  [ [Text [Byte.x68; Byte.x69]]; [Number (le_split 4 1); Number (le_split 4 (-2))];
    [Message [ [Number (le_split 8 300)]; [Number (le_split 4 7)] ]]; [] ].

(** Another structure, with anything in it. *)
Definition document_heap : heap := mk_heap (store_bytes ∅ 300 (repeat Byte.xaa 64)) ∅.

(** Small members by cases; the bytes they take are intervals. *)
Ltac member_cases k Hf := repeat (destruct k as [|k]; [injection Hf as <- | try discriminate Hf]).
Ltac place Ho := vm_compute in Ho; injection Ho as <-.
Ltac sizes := unfold touches; repeat match goal with
  | |- context [member_size ?f] => let z := eval vm_compute in (member_size f) in change (member_size f) with z
  | |- context [flag_size ?f] => let z := eval vm_compute in (flag_size f) in change (flag_size f) with z
  end; cbn [size_offset]; lia.
Ltac layout_cases := split;
  [intros k f o i Hf Ho; member_cases k Hf; place Ho; sizes
  |intros k f o k' f' o' i Hf Ho Hf' Ho' Hne; member_cases k Hf; place Ho; member_cases k' Hf'; place Ho';
   first [contradiction (Hne eq_refl) | sizes]].
Ltac plain_cases := constructor;
  [cbn [tag]; lia | vm_compute; reflexivity | first [left; vm_compute; reflexivity | right; split; [vm_compute; reflexivity | cbn [size_offset array_size]; lia]]
  | split; [cbn [data_size]; lia | split; vm_compute; reflexivity] | cbn [size_offset]; sizes |].

Lemma time_plain : plain document_descriptors 1 16 (Time_body ++ [PB_LAST_FIELD]).
Proof.
  split; [reflexivity|]. split; [discriminate|]. split; [|split; [apply (bool_decide_unpack _); vm_compute; exact I | layout_cases]].
  unfold body_of. cbn [removelast app Time_body]. repeat (constructor; [plain_cases|]); [| |constructor]; (apply type_number; [|reflexivity]).
  - apply (type_integer _ 8); [left; reflexivity | constructor | reflexivity].
  - apply (type_integer _ 4); [left; reflexivity | constructor | reflexivity].
Qed.

Lemma document_plain : plain document_descriptors 2 64 Document_fields.
Proof.
  split; [reflexivity|]. split; [discriminate|]. split; [|split; [apply (bool_decide_unpack _); vm_compute; exact I | layout_cases]].
  unfold body_of. cbn [removelast app Document_fields Document_body]. repeat (constructor; [plain_cases|]); [| | | |constructor].
  - apply type_string; reflexivity.
  - apply type_number; [|reflexivity]. apply (type_integer _ 4); [right; right; reflexivity | constructor | reflexivity].
  - apply (type_message _ _ _ (Time_body ++ [PB_LAST_FIELD])); [reflexivity | discriminate | discriminate | reflexivity | exact time_plain].
  - apply type_bytes; [reflexivity | discriminate | reflexivity].
Qed.

Lemma document_stored : stored document_descriptors 2 document_memory Document_fields 100 document.
Proof.
  split; [lia|]. split; [reflexivity|]. intros k f o vs Hf Ho Hv. member_cases k Hf; injection Ho as <-; injection Hv as <-.
  - split; [reflexivity|]. apply at_text; [reflexivity | reflexivity | repeat constructor; discriminate | reflexivity].
  - split; [reflexivity|]. split; [discriminate|]. repeat split; apply at_number; (reflexivity || discriminate).
  - split; [reflexivity|]. apply (at_message _ _ _ _ _ (Time_body ++ [PB_LAST_FIELD])); [reflexivity | reflexivity|].
    split; [reflexivity|]. split; [reflexivity|]. intros k f o vs Hf Ho Hv. member_cases k Hf; injection Ho as <-; injection Hv as <-;
      (split; [reflexivity|]; apply at_number; (reflexivity || discriminate)).
  - reflexivity.
Qed.

Notation encode_document := (pb_encode document_memory document_descriptors no_callback no_extension 2 Document_fields 100).
Notation decode_document := (pb_decode (ICB := no_user_stream) (MA := bump_machine) document_descriptors ∅ byte_callback no_type_decode 2 2 Document_fields 300).

Lemma message_roundtrip_witness :
  let bs := [Byte.x0a; Byte.x02; Byte.x68; Byte.x69; Byte.x12; Byte.x02; Byte.x02; Byte.x03;
             Byte.x1a; Byte.x05; Byte.x08; Byte.xac; Byte.x02; Byte.x10; Byte.x07] in
  encode_document (pb_ostream_from_buffer (zeros 20) 20) = (Ok tt, mk_ostream (buf_sink bs 5) 20 15 None) /\
  exists m', decode_document (mk_dstate (pb_istream_from_buffer bs 15) document_heap) =
    (Ok tt, mk_dstate (pb_istream_from_buffer [] 0) (mk_heap m' ∅)) /\
    stored document_descriptors 2 m' Document_fields 300 document /\ changes (span 300 64) (h_mem document_heap) m'.
Proof.
  destruct (message_roundtrip (ICB := no_user_stream) (MA := bump_machine) document_descriptors ∅ byte_callback no_type_decode 2 no_callback no_extension
    2 2 64 Document_fields document_memory 100 document (zeros 20) document_heap 300 document_plain document_stored) as [He Hd].
  - reflexivity.
  - split; [discriminate | reflexivity].
  - reflexivity.
  - apply (mapped_load _ _ _ (repeat Byte.xaa 64)). reflexivity.
  - lia.
  - lia.
  - split; [exact He | exact Hd].
Defined.
