(* ===== verification/Alloc.v ===== *)
(** The allocator of BoringSSL (OPENSSL_malloc and its family) as its callers
    see it: a request may be refused, and a block that is granted has the size
    asked for, keeps the bytes it had when it is resized, and holds arbitrary
    bytes beyond them.  A block that is freed goes back to the allocator, which
    may grant it again; callers that free a block they got tell its size.  A block
    of no bytes is not told from NULL. *)
From Stdlib Require Import ZArith Lia Bool.
From coqutil Require Import Byte.
From stdpp Require Import base list numbers.
From S2P Require Import Prelude.
Local Open Scope Z_scope.

Class Allocator (A : Type) := {
  OPENSSL_realloc : A -> list byte -> Z -> option (list byte) * A;
  OPENSSL_free : A -> Z -> A;
  realloc_length : forall a old n new a',
    0 <= n -> OPENSSL_realloc a old n = (Some new, a') -> zlen new = n;
  realloc_keeps : forall a old n new a',
    zlen old <= n -> OPENSSL_realloc a old n = (Some new, a') -> ztake (zlen old) new = old;
}.

Section alloc.
Context {A : Type} {AL : Allocator A}.

Definition OPENSSL_malloc (a : A) (n : Z) : option (list byte) * A := OPENSSL_realloc a [] n.

(** [OPENSSL_memdup(data, size)] *)
Definition OPENSSL_memdup (a : A) (data : list byte) : option (list byte) * A :=
  match OPENSSL_malloc a (zlen data) with
  | (Some _, a1) => (Some data, a1)
  | (None, a1) => (None, a1)
  end.

(** [OPENSSL_free] of a block that may be NULL. *)
Definition free_bytes (a : A) (block : list byte) : A := match block with [] => a | _ => OPENSSL_free a (zlen block) end.

(** No request below the address space is refused. *)
Definition reliable : Prop :=
  forall a old n, 0 <= n < 2 ^ 64 -> fst (OPENSSL_realloc a old n) <> None.

(** The allocator, as it is now, refuses some request below the address space. *)
Definition refuses (a : A) : Prop := exists old n, 0 <= n < 2 ^ 64 /\ fst (OPENSSL_realloc a old n) = None.

Lemma reliable_refuses a : reliable -> ~ refuses a.
Proof. intros H (old & n & Hn & E). exact (H a old n Hn E). Qed.

Lemma refuses_malloc a n a' : 0 <= n < 2 ^ 64 -> OPENSSL_malloc a n = (None, a') -> refuses a.
Proof. intros Hn E. exists [], n. split; [exact Hn|]. unfold OPENSSL_malloc in E. rewrite E. reflexivity. Qed.

Lemma malloc_length a n new a' :
  0 <= n -> OPENSSL_malloc a n = (Some new, a') -> zlen new = n.
Proof. apply realloc_length. Qed.
End alloc.
Arguments reliable A {AL}.

(** An account of the sizes of the blocks that are in use; what is proved about
    every account holds of the ledger below. *)
Class Accounting (A : Type) {AL : Allocator A} := {
  owes : A -> list Z -> Prop;
  owes_perm : forall a sizes sizes', sizes ≡ₚ sizes' -> owes a sizes -> owes a sizes';
  owes_empty : forall a sizes, owes a (0 :: sizes) <-> owes a sizes;
  malloc_owes : forall a n sizes new a',
    owes a sizes -> OPENSSL_malloc a n = (new, a') -> owes a' (match new with Some _ => n :: sizes | None => sizes end);
  realloc_owes : forall a old n sizes new a',
    owes a (zlen old :: sizes) -> OPENSSL_realloc a old n = (new, a') ->
    owes a' ((match new with Some _ => n | None => zlen old end) :: sizes);
  free_owes : forall a n sizes, owes a (n :: sizes) -> owes (OPENSSL_free a n) sizes;
}.

Lemma free_bytes_owes {A} {AL : Allocator A} {AC : Accounting A} (a : A) block sizes :
  owes a (zlen block :: sizes) -> owes (free_bytes a block) sizes.
Proof. destruct block as [|b block]; [apply owes_empty | apply free_owes]. Qed.

#[export] Instance owes_proper {A} {AL : Allocator A} {AC : Accounting A} (a : A) : Proper ((≡ₚ) ==> iff) (owes a).
Proof. intros l l' H. split; apply owes_perm; [exact H | symmetry; exact H]. Qed.

(** Three instances: an allocator that never refuses, one with a budget of bytes
    and one that keeps a ledger.  All zero what they grant. *)
Definition resized (old : list byte) (n : Z) : list byte := ztake n old ++ zeros (n - zlen old).

Lemma resized_length old n : 0 <= n -> zlen (resized old n) = n.
Proof.
  intros Hn. unfold resized. rewrite zlen_app. pose proof (zlen_nonneg old). destruct (Z_le_dec n (zlen old)).
  - rewrite zlen_ztake by lia. unfold zeros. replace (Z.to_nat (n - zlen old)) with 0%nat by lia.
    cbn. rewrite zlen_nil. lia.
  - rewrite zlen_zeros by lia. unfold ztake, zlen in *. rewrite length_take. lia.
Qed.

Lemma resized_keeps old n : zlen old <= n -> ztake (zlen old) (resized old n) = old.
Proof.
  intros H. unfold resized. replace (ztake n old) with old; [apply ztake_app; reflexivity|].
  unfold ztake, zlen in *. symmetry. apply firstn_all2. lia.
Qed.

#[export] Program Instance unlimited_allocator : Allocator unit := {
  OPENSSL_realloc a old n := (Some (resized old n), a);
  OPENSSL_free a n := a;
}.
Next Obligation. intros a old n new a' Hn [= <- _]. apply resized_length, Hn. Qed.
Next Obligation. intros a old n new a' Hn [= <- _]. apply resized_keeps, Hn. Qed.

#[export] Program Instance unlimited_accounting : Accounting unit := { owes _ _ := True }.
Solve All Obligations with easy.

Lemma unlimited_reliable : reliable unit.
Proof. intros a old n _. discriminate. Qed.

#[export] Program Instance budget_allocator : Allocator Z := {
  OPENSSL_realloc room old n := if room <? n then (None, room) else (Some (resized old n), room - n + zlen old);
  OPENSSL_free room n := room + n;
}.
Next Obligation.
  intros a old n new a' Hn H. cbv beta in H. destruct (a <? n); [discriminate|].
  injection H as <- _. apply resized_length, Hn.
Qed.
Next Obligation.
  intros a old n new a' Hn H. cbv beta in H. destruct (a <? n); [discriminate|].
  injection H as <- _. apply resized_keeps, Hn.
Qed.

(** The sizes of the blocks that are in use, which are lost when a block is freed
    or resized that is not among them, and whether the next requests are refused;
    those behind them are granted. *)
Record ledger := mk_ledger { in_use : option (list Z); refusals : list bool }.

Definition enter (n : Z) (sizes : list Z) : list Z := if n =? 0 then sizes else n :: sizes.
Definition strike (n : Z) (sizes : list Z) : option (list Z) :=
  if n =? 0 then Some sizes else
  match list_find (eq n) sizes with Some (i, _) => Some (delete i sizes) | None => None end.

Definition grant (l : ledger) (old : list byte) (n : Z) : option (list byte) * ledger :=
  let later := tail (refusals l) in
  if hd false (refusals l) then (None, mk_ledger (in_use l) later) else
  (Some (resized old n), mk_ledger (option_map (enter n) (mbind (strike (zlen old)) (in_use l))) later).

#[export] Program Instance ledger_allocator : Allocator ledger := {
  OPENSSL_realloc := grant;
  OPENSSL_free l n := mk_ledger (mbind (strike n) (in_use l)) (refusals l);
}.
Next Obligation. intros l old n new l' Hn. unfold grant. destruct (hd _ _); intros [=]; subst. apply resized_length, Hn. Qed.
Next Obligation. intros l old n new l' Hn. unfold grant. destruct (hd _ _); intros [=]; subst. apply resized_keeps, Hn. Qed.

(** The blocks in use are those with the sizes [sizes]. *)
Definition ledger_owes (l : ledger) (sizes : list Z) : Prop :=
  exists blocks, in_use l = Some blocks /\ blocks ≡ₚ filter (fun n => n <> 0) sizes.

Lemma enter_filter n blocks sizes :
  blocks ≡ₚ filter (fun n => n <> 0) sizes -> enter n blocks ≡ₚ filter (fun n => n <> 0) (n :: sizes).
Proof. intros Hp. unfold enter. rewrite filter_cons. destruct (Z.eqb_spec n 0), (decide (n <> 0)); try contradiction; [exact Hp | constructor; exact Hp]. Qed.

Lemma strike_owes l n sizes : ledger_owes l (n :: sizes) ->
  exists blocks, mbind (strike n) (in_use l) = Some blocks /\ blocks ≡ₚ filter (fun n => n <> 0) sizes.
Proof.
  intros (blocks & E & Hp). rewrite E. cbn [mbind option_bind]. unfold strike. rewrite filter_cons in Hp.
  destruct (Z.eqb_spec n 0), (decide (n <> 0)); try contradiction; [eauto|].
  assert (Hin : n ∈ blocks) by (rewrite Hp; left). destruct (list_find (eq n) blocks) as [[i m]|] eqn:Ef.
  - apply list_find_Some in Ef as (Hi & <- & _). eexists. split; [reflexivity|]. apply (Permutation.Permutation_cons_inv (a := n)).
    rewrite <- Hp. symmetry. apply delete_Permutation, Hi.
  - apply list_find_None in Ef. rewrite Forall_forall in Ef. exfalso. exact (Ef n (proj1 (list_elem_of_In _ _) Hin) eq_refl).
Qed.

Lemma grant_owes l old n sizes new l' : ledger_owes l (zlen old :: sizes) -> grant l old n = (new, l') ->
  ledger_owes l' ((match new with Some _ => n | None => zlen old end) :: sizes).
Proof.
  intros Ho. unfold grant. destruct (strike_owes l (zlen old) sizes Ho) as (blocks & Eb & Hb). rewrite Eb.
  destruct (hd _ _); intros [= <- <-]; [exact Ho|]. eexists. split; [reflexivity | apply enter_filter, Hb].
Qed.

#[export] Program Instance ledger_accounting : Accounting ledger := { owes := ledger_owes }.
Next Obligation. intros l sizes sizes' Hp (blocks & E & H). exists blocks. split; [exact E|]. rewrite H, Hp. reflexivity. Qed.
Next Obligation. intros l sizes. unfold ledger_owes. rewrite filter_cons. destruct (decide (0 <> 0)); [contradiction | reflexivity]. Qed.
Next Obligation.
  intros l n sizes new l' Ho E.
  assert (Ho0 : ledger_owes l (zlen (@nil byte) :: sizes)).
  { destruct Ho as (blocks & Eb & Hb). exists blocks. split; [exact Eb|]. rewrite filter_cons. exact Hb. }
  pose proof (grant_owes l [] n sizes new l' Ho0 E) as H. destruct new; [exact H|].
  destruct H as (blocks & Eb & Hb). exists blocks. split; [exact Eb|]. rewrite filter_cons in Hb. exact Hb.
Qed.
Next Obligation. intros l old n sizes new l' Ho E. exact (grant_owes l old n sizes new l' Ho E). Qed.
Next Obligation. intros l n sizes Ho. exact (strike_owes l n sizes Ho). Qed.
