(* ===== verification/Qsort.v ===== *)
(** [qsort] of the C library, which is a parameter of the code that sorts: what
    the library promises of it, and a function that keeps the promise. *)
From Stdlib Require Import ZArith Lia.
From stdpp Require Import base list numbers sorting.
Local Open Scope Z_scope.

(** A comparison function, as [qsort] wants it. *)
Record comparison {T} (f : T -> T -> Z) : Prop := {
  compare_refl x : f x x = 0;
  compare_opp x y : 0 < f x y <-> f y x < 0;
  compare_trans x y z : f x y <= 0 -> f y z <= 0 -> f x z <= 0 }.

Definition ascending {T} (f : T -> T -> Z) (l : list T) : Prop :=
  forall i j x y, (i <= j)%nat -> l !! i = Some x -> l !! j = Some y -> f x y <= 0.

(** [qsort] sorts, when its comparison function is one. *)
Definition sorts {T} (qsort : (T -> T -> Z) -> list T -> list T) : Prop :=
  forall f l, comparison f -> Permutation (qsort f l) l /\ ascending f (qsort f l).

Lemma ascending_sorted {T} (f : T -> T -> Z) l : ascending f l -> StronglySorted (fun x y => f x y <= 0) l.
Proof.
  induction l as [|x l IH]; intros H; constructor.
  - apply IH. intros i j y z Hij Hy Hz. apply (H (S i) (S j)); [lia | exact Hy | exact Hz].
  - apply Forall_lookup_2. intros i y Hy. exact (H 0%nat (S i) x y ltac:(lia) eq_refl Hy).
Qed.

Lemma sorted_lookup {T} (R : T -> T -> Prop) l : StronglySorted R l ->
  forall i j x y, (i < j)%nat -> l !! i = Some x -> l !! j = Some y -> R x y.
Proof.
  induction 1 as [|z l Hs IH Hf]; intros i j x y Hij Hx Hy; [discriminate|]. destruct j as [|j]; [lia|]. cbn in Hy.
  destruct i as [|i]; [|exact (IH i j x y ltac:(lia) Hx Hy)]. injection Hx as <-. exact (Forall_lookup_1 _ _ _ _ Hf Hy).
Qed.

Section reference.
Context {T : Type} (f : T -> T -> Z).
Definition not_above (x y : T) : Prop := f x y <= 0.
#[export] Instance not_above_dec x y : Decision (not_above x y).
Proof. unfold not_above. apply _. Defined.
Definition reference_qsort (l : list T) : list T := merge_sort not_above l.
End reference.

Lemma reference_qsort_sorts {T} : sorts (@reference_qsort T).
Proof.
  intros f l [Hr Ho Ht]. split; [apply merge_sort_Permutation|].
  assert (Htotal : Total (not_above f)).
  { intros x y. unfold not_above. destruct (Z_lt_le_dec 0 (f x y)) as [H|H]; [right; apply Ho in H; lia | left; exact H]. }
  assert (Htrans : Transitive (not_above f)) by (intros x y z; apply Ht).
  pose proof (StronglySorted_merge_sort (not_above f) l) as Hs. fold (reference_qsort f l) in Hs.
  intros i j x y Hij Hx Hy. destruct (decide (i = j)) as [->|Hne].
  - assert (x = y) as -> by congruence. rewrite Hr. reflexivity.
  - exact (sorted_lookup (not_above f) (reference_qsort f l) Hs i j x y ltac:(lia) Hx Hy).
Qed.
