(* ===== verification/Mem.v ===== *)
(** The allocator behind every object of BoringSSL and its string functions
    (src/ios/Pods/BoringSSL-GRPC/src/crypto/mem.c), over a store of the C
    library's blocks.  A pointer is a block and an offset, NULL is [None]; the
    bytes before an object that [OPENSSL_malloc] gives out hold its size.  The
    theorems: the functions implement a map from objects to their contents,
    nothing but zeros is given back to the C library, and [OPENSSL_realloc]
    discharges the interface [Allocator] that the other components rely on. *)
From Stdlib Require Import ZArith Lia Bool.
From coqutil Require Import Byte Word.LittleEndianList.
From stdpp Require Import base list numbers gmap.
From S2P Require Import Prelude Alloc.
Local Open Scope Z_scope.
Local Open Scope c_scope.

(** ** The C library's allocator and its blocks *)

(** [malloc] gives out blocks with any contents; [free] takes a block back with
    what it holds at that time. *)
Class CLibrary (A : Type) := {
  c_malloc : A -> Z -> option (list byte) * A;
  c_malloc_length : forall a n bs a', 0 <= n -> c_malloc a n = (Some bs, a') -> zlen bs = n;
  c_free : A -> list byte -> A;
}.

Record pointer := mk_ptr { block : Z; offset : Z }.
#[export] Instance pointer_eq_dec : EqDecision pointer.
Proof. solve_decision. Defined.

(** [p + n] *)
Definition plus (p : pointer) (n : Z) : pointer := mk_ptr (block p) (offset p + n).

(** [st_next] is above every block that was ever given out, so that a pointer to
    a block that was freed stays a dangling one. *)
Record store (A : Type) := mk_store { st_blocks : gmap Z (list byte); st_next : Z; st_libc : A }.
Arguments mk_store {A} _ _ _.
Arguments st_blocks {A} _.
Arguments st_next {A} _.
Arguments st_libc {A} _.

Definition OPENSSL_MALLOC_PREFIX : Z := 8.

Section mem.
Context {A : Type} {CL : CLibrary A}.
Notation W := (M (store A)).

Definition set_blocks (st : store A) (bs : gmap Z (list byte)) : store A := mk_store bs (st_next st) (st_libc st).

(** The [n] bytes at [p]. *)
Definition load (p : pointer) (n : Z) : W (list byte) := fun st =>
  match st_blocks st !! block p with
  | Some bs => if (0 <=? offset p) && (0 <=? n) && (offset p + n <=? zlen bs) then (Ok (slice bs (offset p) n), st) else (Stuck, st)
  | None => (Stuck, st)
  end.

Definition write (p : pointer) (data : list byte) : W unit := fun st =>
  match st_blocks st !! block p with
  | Some bs => if (0 <=? offset p) && (offset p + zlen data <=? zlen bs)
      then (Ok tt, set_blocks st (<[block p := splice bs (offset p) data]> (st_blocks st))) else (Stuck, st)
  | None => (Stuck, st)
  end.

(** The [size_t] at [p]. *)
Definition load_size (p : pointer) : W Z := bs <- load p 8 ;; ret (le_combine bs).
Definition store_size (p : pointer) (n : Z) : W unit := write p (le_split 8 n).

Definition malloc (n : Z) : W (option pointer) := fun st =>
  match c_malloc (st_libc st) n with
  | (None, a) => (Ok None, mk_store (st_blocks st) (st_next st) a)
  | (Some bs, a) => (Ok (Some (mk_ptr (st_next st) 0)), mk_store (<[st_next st := bs]> (st_blocks st)) (st_next st + 1) a)
  end.

(** [free(p)]; [sdallocx(p, size, 0)], which wants the size that was asked for. *)
Definition free (p : pointer) (sized : option Z) : W unit := fun st =>
  match st_blocks st !! block p with
  | Some bs => if (offset p =? 0) && match sized with Some n => n =? zlen bs | None => true end
      then (Ok tt, mk_store (delete (block p) (st_blocks st)) (st_next st) (c_free (st_libc st) bs)) else (Stuck, st)
  | None => (Stuck, st)
  end.

Definition c_assert (b : bool) : W unit := if b then ret tt else stuck.

(** ** The allocator of BoringSSL *)

(** The functions that a program may define to replace the C library's; they are
    NULL if it does not. *)
Context (OPENSSL_memory_alloc : option (Z -> W (option pointer)))
        (OPENSSL_memory_free : option (pointer -> W unit))
        (OPENSSL_memory_get_size : option (pointer -> W Z))
        (sdallocx : bool).

Definition OPENSSL_malloc (size : Z) : W (option pointer) :=
  match OPENSSL_memory_alloc with
  | Some alloc =>
      c_assert (match OPENSSL_memory_free with Some _ => true | None => false end) ;;
      c_assert (match OPENSSL_memory_get_size with Some _ => true | None => false end) ;;
      alloc size
  | None =>
      if u64 (size + OPENSSL_MALLOC_PREFIX) <? size then ret None else
      ptr <- malloc (u64 (size + OPENSSL_MALLOC_PREFIX)) ;;
      match ptr with
      | None => ret None
      | Some ptr => store_size ptr size ;; ret (Some (plus ptr OPENSSL_MALLOC_PREFIX))
      end
  end.

(** [memset(ptr, 0, len)] that the compiler may not leave out. *)
Definition OPENSSL_cleanse (ptr : pointer) (len : Z) : W unit := write ptr (zeros len).

Definition OPENSSL_free (orig_ptr : option pointer) : W unit :=
  match orig_ptr with
  | None => ret tt
  | Some orig_ptr =>
      match OPENSSL_memory_free with
      | Some memory_free => memory_free orig_ptr
      | None =>
          let ptr := plus orig_ptr (- OPENSSL_MALLOC_PREFIX) in
          size <- load_size ptr ;;
          OPENSSL_cleanse ptr (u64 (size + OPENSSL_MALLOC_PREFIX)) ;;
          if sdallocx then free ptr (Some (u64 (size + OPENSSL_MALLOC_PREFIX))) else free ptr None
      end
  end.

Definition OPENSSL_realloc (orig_ptr : option pointer) (new_size : Z) : W (option pointer) :=
  match orig_ptr with
  | None => OPENSSL_malloc new_size
  | Some orig_ptr =>
      old_size <- match OPENSSL_memory_get_size with
                  | Some get_size => get_size orig_ptr
                  | None => load_size (plus orig_ptr (- OPENSSL_MALLOC_PREFIX))
                  end ;;
      r <- OPENSSL_malloc new_size ;;
      match r with
      | None => ret None
      | Some r =>
          let to_copy := if old_size <? new_size then old_size else new_size in
          data <- load orig_ptr to_copy ;;
          write r data ;;
          OPENSSL_free (Some orig_ptr) ;;
          ret (Some r)
      end
  end.

Definition OPENSSL_clear_free (ptr : option pointer) (unused : Z) : W unit := OPENSSL_free ptr.

(** [data] and the strings below are windows on foreign memory. *)
Definition OPENSSL_memdup (data : list byte) (size : Z) : W (option pointer) :=
  if size =? 0 then ret None else
  r <- OPENSSL_malloc size ;;
  match r with
  | None => ret None
  | Some r => write r (ztake size data) ;; ret (Some r)
  end.
End mem.

(** ** Strings *)

(** [strlen(s)]; a string without an end is read past its object. *)
Fixpoint strlen (s : list byte) : option Z :=
  match s with
  | [] => None
  | c :: s => if u8 c =? 0 then Some 0 else n ← strlen s; Some (1 + n)
  end.

Fixpoint OPENSSL_strnlen (s : list byte) (len : Z) : option Z :=
  if len =? 0 then Some 0 else
  match s with
  | [] => None
  | c :: s => if u8 c =? 0 then Some 0 else n ← OPENSSL_strnlen s (len - 1); Some (1 + n)
  end.

Definition OPENSSL_tolower (c : Z) : Z := if (0x41 <=? c) && (c <=? 0x5A) then c + (0x61 - 0x41) else c.

(** [char] is signed. *)
Definition char (b : byte) : Z := sext 8 (u8 b).

Fixpoint OPENSSL_strcasecmp (a b : list byte) : option Z :=
  match a, b with
  | x :: a, y :: b =>
      let aa := OPENSSL_tolower (char x) in
      let bb := OPENSSL_tolower (char y) in
      if aa <? bb then Some (-1) else if bb <? aa then Some 1 else if aa =? 0 then Some 0 else OPENSSL_strcasecmp a b
  | _, _ => None
  end.

Fixpoint OPENSSL_strncasecmp (a b : list byte) (n : Z) : option Z :=
  if n =? 0 then Some 0 else
  match a, b with
  | x :: a, y :: b =>
      let aa := OPENSSL_tolower (char x) in
      let bb := OPENSSL_tolower (char y) in
      if aa <? bb then Some (-1) else if bb <? aa then Some 1 else if aa =? 0 then Some 0 else OPENSSL_strncasecmp a b (n - 1)
  | _, _ => None
  end.

Fixpoint hash32_loop (in_ : list byte) (h : Z) : Z :=
  match in_ with [] => h | b :: in_ => hash32_loop in_ (u32 (Z.lxor h (u8 b) * 16777619)) end.
Definition OPENSSL_hash32 (in_ : list byte) : Z := hash32_loop in_ 2166136261.
Definition OPENSSL_strhash (s : list byte) : option Z := n ← strlen s; Some (OPENSSL_hash32 (ztake n s)).

(** [dst[i] = c] *)
Definition set_char (dst : list byte) (i : Z) (c : byte) : option (list byte) :=
  if (0 <=? i) && (i <? zlen dst) then Some (splice dst i [c]) else None.

(** The source and the destination, which do not overlap, and how far the
    destination is filled. *)
Fixpoint strlcpy_loop (src dst : list byte) (d dst_size l : Z) : option (list byte * list byte * Z * Z * Z) :=
  if 1 <? dst_size then
    match src with
    | [] => None
    | c :: src' =>
        if u8 c =? 0 then Some (src, dst, d, dst_size, l) else
        dst ← set_char dst d c; strlcpy_loop src' dst (d + 1) (dst_size - 1) (u64 (l + 1))
    end
  else Some (src, dst, d, dst_size, l).

(** Copy to [dst + d]; the result and the destination. *)
Definition strlcpy_at (dst : list byte) (d : Z) (src : list byte) (dst_size : Z) : option (Z * list byte) :=
  match strlcpy_loop src dst d dst_size 0 with
  | None => None
  | Some (src, dst, d, dst_size, l) =>
      dst ← (if dst_size =? 0 then Some dst else set_char dst d Byte.x00);
      n ← strlen src;
      Some (u64 (l + n), dst)
  end.
Definition OPENSSL_strlcpy (dst src : list byte) (dst_size : Z) : option (Z * list byte) := strlcpy_at dst 0 src dst_size.

(** [for (; dst_size > 0 && *dst; dst_size--, dst++) l++;] *)
Fixpoint strlcat_loop (dst : list byte) (dst_size l : Z) : option (Z * Z) :=
  if 0 <? dst_size then
    match dst with
    | [] => None
    | c :: dst => if u8 c =? 0 then Some (dst_size, l) else strlcat_loop dst (dst_size - 1) (u64 (l + 1))
    end
  else Some (dst_size, l).

(** [l] is also how far [dst] has moved. *)
Definition OPENSSL_strlcat (dst src : list byte) (dst_size : Z) : option (Z * list byte) :=
  match strlcat_loop dst dst_size 0 with
  | None => None
  | Some (dst_size, l) =>
      match strlcpy_at dst l src dst_size with None => None | Some (n, dst) => Some (u64 (l + n), dst) end
  end.

Section strings.
Context {A : Type} {CL : CLibrary A}.
Notation W := (M (store A)).
Context (OPENSSL_memory_alloc : option (Z -> W (option pointer)))
        (OPENSSL_memory_free : option (pointer -> W unit))
        (OPENSSL_memory_get_size : option (pointer -> W Z))
        (sdallocx : bool).
Notation Malloc := (OPENSSL_malloc OPENSSL_memory_alloc OPENSSL_memory_free OPENSSL_memory_get_size).
Notation Free := (OPENSSL_free OPENSSL_memory_free sdallocx).

Definition OPENSSL_strdup (s : option (list byte)) : W (option pointer) :=
  match s with
  | None => ret None
  | Some s =>
      n <- known (strlen s) ;;
      let len := u64 (n + 1) in
      r <- Malloc len ;;
      match r with
      | None => ret None
      | Some r => write r (ztake len s) ;; ret (Some r)
      end
  end.

Definition OPENSSL_strndup (str : list byte) (size : Z) : W (option pointer) :=
  size <- known (OPENSSL_strnlen str size) ;;
  let alloc_size := u64 (size + 1) in
  if alloc_size <? size then ret None else
  r <- Malloc alloc_size ;;
  match r with
  | None => ret None
  | Some r => write r (ztake size str) ;; write (plus r size) [Byte.x00] ;; ret (Some r)
  end.

(** The new value of [*out_ptr], [*out_len], and the result. *)
Definition CBS_stow (cbs : list byte) (out_ptr : option pointer) : W (option pointer * Z * bool) :=
  Free out_ptr ;;
  if zlen cbs =? 0 then ret (None, 0, true) else
  p <- OPENSSL_memdup OPENSSL_memory_alloc OPENSSL_memory_free OPENSSL_memory_get_size cbs (zlen cbs) ;;
  match p with
  | None => ret (None, 0, false)
  | Some p => ret (Some p, zlen cbs, true)
  end.

Definition CBS_strdup (cbs : list byte) (out_ptr : option pointer) : W (option pointer * bool) :=
  (match out_ptr with Some p => Free (Some p) | None => ret tt end) ;;
  p <- OPENSSL_strndup cbs (zlen cbs) ;;
  ret (p, match p with Some _ => true | None => false end).
(** *** The names of these functions in buf.c *)

Definition BUF_strdup (str : option (list byte)) : W (option pointer) := OPENSSL_strdup str.
Definition BUF_strnlen (str : list byte) (max_len : Z) : option Z := OPENSSL_strnlen str max_len.
Definition BUF_strndup (str : list byte) (size : Z) : W (option pointer) := OPENSSL_strndup str size.
Definition BUF_strlcpy (dst src : list byte) (dst_size : Z) : option (Z * list byte) := OPENSSL_strlcpy dst src dst_size.
Definition BUF_strlcat (dst src : list byte) (dst_size : Z) : option (Z * list byte) := OPENSSL_strlcat dst src dst_size.
Definition BUF_memdup (data : list byte) (size : Z) : W (option pointer) :=
  OPENSSL_memdup OPENSSL_memory_alloc OPENSSL_memory_free OPENSSL_memory_get_size data size.
End strings.

(** ** Objects *)

(** What a block of [OPENSSL_malloc] holds: the size of the object and the
    object, to which [object] points. *)
Definition boxed (data : list byte) : list byte := le_split 8 (zlen data) ++ data.
Definition object (id : Z) : pointer := mk_ptr id OPENSSL_MALLOC_PREFIX.
Definition fits (data : list byte) : Prop := zlen data + OPENSSL_MALLOC_PREFIX < 2 ^ 64.

(** The store holds the objects [m], besides blocks of others. *)
Record holds {A} (st : store A) (m others : gmap Z (list byte)) : Prop := {
  holds_blocks : st_blocks st = (boxed <$> m) ∪ others;
  holds_disjoint : m ##ₘ others;
  holds_next : forall id, st_next st <= id -> st_blocks st !! id = None;
  holds_fits : map_Forall (fun _ data => fits data) m;
}.

Lemma zlen_boxed data : zlen (boxed data) = 8 + zlen data.
Proof. unfold boxed. rewrite zlen_app. unfold zlen at 1. rewrite length_le_split. lia. Qed.

Lemma slice_boxed data off n : 0 <= off -> 0 <= n -> off + n <= zlen data -> slice (boxed data) (8 + off) n = slice data off n.
Proof.
  intros H1 H2 H3. rewrite <- slice_zdrop by lia. unfold boxed. rewrite zdrop_app; [reflexivity|].
  unfold zlen. rewrite length_le_split. reflexivity.
Qed.

Lemma splice_boxed data off new : 0 <= off -> off + zlen new <= zlen data -> splice (boxed data) (8 + off) new = boxed (splice data off new).
Proof.
  intros H1 H2. pose proof (zlen_nonneg new). unfold boxed at 2. rewrite zlen_splice by lia.
  unfold splice. unfold ztake at 1, zdrop at 1, boxed. set (h := le_split 8 (zlen data)).
  assert (Hh : length h = 8%nat) by apply length_le_split.
  rewrite take_app, drop_app, Hh.
  rewrite (take_ge h), (drop_ge h) by lia. rewrite <- app_assoc. cbn [app]. unfold ztake, zdrop. do 4 f_equal; lia.
Qed.

Lemma size_of_boxed data : fits data -> le_combine (slice (boxed data) 0 8) = zlen data.
Proof.
  intros H. unfold slice. change (zdrop 0 (boxed data)) with (boxed data). unfold boxed. rewrite ztake_app by (unfold zlen; rewrite length_le_split; reflexivity).
  rewrite le_combine_split. pose proof (zlen_nonneg data). unfold fits, OPENSSL_MALLOC_PREFIX in H. apply Z.mod_small. lia.
Qed.

Section objects.
Context {A : Type} {CL : CLibrary A}.
Context (sdallocx : bool).
Notation W := (M (store A)).
Notation Malloc := (OPENSSL_malloc (A := A) None None None).
Notation Free := (OPENSSL_free (A := A) None sdallocx).
Notation Realloc := (OPENSSL_realloc (A := A) None None None sdallocx).
Notation Memdup := (OPENSSL_memdup (A := A) None None None).

Lemma holds_lookup st m others id data : holds (A := A) st m others -> m !! id = Some data ->
  st_blocks st !! id = Some (boxed data) /\ fits data.
Proof.
  intros H Hid. split; [|apply (holds_fits _ _ _ H id data Hid)].
  rewrite (holds_blocks _ _ _ H). apply lookup_union_Some_l. rewrite lookup_fmap, Hid. reflexivity.
Qed.

Lemma holds_fresh st m others id : holds (A := A) st m others -> st_next st <= id -> m !! id = None /\ others !! id = None.
Proof.
  intros H Hid. pose proof (holds_next _ _ _ H id Hid) as E. rewrite (holds_blocks _ _ _ H) in E.
  apply lookup_union_None in E as [E1 E2]. rewrite lookup_fmap in E1. split; [|exact E2].
  destruct (m !! id); [discriminate | reflexivity].
Qed.

(** What the client of an object sees of its accesses. *)
Lemma load_object st m others id data off n : holds st m others -> m !! id = Some data ->
  0 <= off -> 0 <= n -> off + n <= zlen data -> load (A := A) (plus (object id) off) n st = (Ok (slice data off n), st).
Proof.
  intros H Hid H1 H2 H3. unfold load, plus, object. cbn [block offset].
  rewrite (proj1 (holds_lookup _ _ _ _ _ H Hid)), zlen_boxed. unfold OPENSSL_MALLOC_PREFIX.
  destruct (Z.leb_spec 0 (8 + off)); [|lia]. destruct (Z.leb_spec 0 n); [|lia]. destruct (Z.leb_spec (8 + off + n) (8 + zlen data)); [|lia].
  cbn [andb]. rewrite slice_boxed by lia. reflexivity.
Qed.

Lemma write_object st m others id data off new : holds st m others -> m !! id = Some data ->
  0 <= off -> off + zlen new <= zlen data ->
  exists st', write (A := A) (plus (object id) off) new st = (Ok tt, st') /\ st_libc st' = st_libc st /\
    holds st' (<[id := splice data off new]> m) others.
Proof.
  intros H Hid H1 H2. unfold write, plus, object. cbn [block offset].
  destruct (holds_lookup _ _ _ _ _ H Hid) as [E Hf]. rewrite E, zlen_boxed. unfold OPENSSL_MALLOC_PREFIX.
  destruct (Z.leb_spec 0 (8 + off)); [|lia]. destruct (Z.leb_spec (8 + off + zlen new) (8 + zlen data)); [|lia].
  cbn [andb]. rewrite splice_boxed by lia. eexists. split; [reflexivity|]. split; [reflexivity|].
  constructor; cbn [set_blocks st_blocks st_next].
  - rewrite (holds_blocks _ _ _ H), insert_union_l, fmap_insert. reflexivity.
  - apply map_disjoint_insert_l. split; [|apply (holds_disjoint _ _ _ H)].
    apply (map_disjoint_Some_l _ _ _ _ (holds_disjoint _ _ _ H) Hid).
  - intros id' Hid'. pose proof (holds_next _ _ _ H id' Hid'). rewrite lookup_insert_ne; [assumption|]. congruence.
  - apply map_Forall_insert_2; [|apply (holds_fits _ _ _ H)]. unfold fits in *. rewrite zlen_splice by lia. exact Hf.
Qed.

(** An object that is new, or none; the C library has been asked once. *)
Lemma malloc_object st m others n : holds st m others -> 0 <= n < 2 ^ 64 ->
  (exists st', Malloc n st = (Ok None, st') /\ holds st' m others /\
     (st_libc st' = st_libc st \/ st_libc st' = snd (c_malloc (st_libc st) (n + 8)))) \/
  (exists st' data, Malloc n st = (Ok (Some (object (st_next st))), st') /\ zlen data = n /\
     m !! st_next st = None /\ holds st' (<[st_next st := data]> m) others /\ st_libc st' = snd (c_malloc (st_libc st) (n + 8))).
Proof.
  intros H Hn. unfold OPENSSL_malloc, OPENSSL_MALLOC_PREFIX. destruct (Z_lt_dec (n + 8) (2 ^ 64)) as [Hs|Hs].
  2: { left. exists st. split; [|split; [exact H | left; reflexivity]].
    assert (E : u64 (n + 8) = n + 8 - 2 ^ 64) by (symmetry; apply Z.mod_unique with (q := 1); lia).
    rewrite E. destruct (Z.ltb_spec (n + 8 - 2 ^ 64) n); [reflexivity | lia]. }
  rewrite wrap_small by (unfold in_word; lia). destruct (Z.ltb_spec (n + 8) n); [lia|].
  destruct (c_malloc (st_libc st) (n + 8)) as [[bs|] a] eqn:Ec.
  2: { left. unfold bind, malloc. rewrite Ec. eexists. split; [reflexivity|]. split; [|right; reflexivity]. destruct H. constructor; assumption. }
  right. assert (Hbs : zlen bs = n + 8) by (refine (c_malloc_length _ _ _ _ _ Ec); lia).
  destruct (holds_fresh _ _ _ (st_next st) H ltac:(lia)) as [F1 F2].
  eexists _, (zdrop 8 bs). split.
  { unfold bind, malloc, store_size, write. rewrite Ec. cbn [st_blocks block offset]. rewrite lookup_insert_eq. cbn [Z.leb Z.compare andb].
    replace (zlen (le_split 8 n)) with 8 by (unfold zlen; rewrite length_le_split; reflexivity).
    destruct (Z.leb_spec (0 + 8) (zlen bs)); [|lia]. reflexivity. }
  assert (Hd : zlen (zdrop 8 bs) = n) by (rewrite zlen_zdrop by lia; lia).
  split; [exact Hd|]. split; [exact F1|]. split; [|reflexivity].
  assert (Eb : splice bs 0 (le_split 8 n) = boxed (zdrop 8 bs)).
  { unfold boxed, splice. rewrite Hd. cbn [ztake Z.to_nat take app]. reflexivity. }
  constructor; cbn [set_blocks st_blocks st_next].
  - rewrite Eb, insert_insert_eq, (holds_blocks _ _ _ H), insert_union_l, fmap_insert. reflexivity.
  - apply map_disjoint_insert_l. split; [exact F2 | apply (holds_disjoint _ _ _ H)].
  - intros id Hid. rewrite !lookup_insert_ne by lia. apply (holds_next _ _ _ H). lia.
  - apply map_Forall_insert_2; [unfold fits, OPENSSL_MALLOC_PREFIX; lia | apply (holds_fits _ _ _ H)].
Qed.

(** The block goes back to the C library, full of zeros. *)
Lemma free_object st m others id data : holds st m others -> m !! id = Some data ->
  exists st', Free (Some (object id)) st = (Ok tt, st') /\ holds st' (delete id m) others /\
    st_libc st' = c_free (st_libc st) (zeros (zlen data + 8)).
Proof.
  intros H Hid. destruct (holds_lookup _ _ _ _ _ H Hid) as [E Hf]. pose proof (zlen_nonneg data) as Hd.
  unfold OPENSSL_free, plus, object. cbn [block offset]. unfold OPENSSL_MALLOC_PREFIX. change (8 + - (8)) with 0.
  assert (El : load_size (A := A) (mk_ptr id 0) st = (Ok (zlen data), st)).
  { unfold load_size, bind, load. cbn [block offset]. rewrite E, zlen_boxed. destruct (Z.leb_spec (0 + 8) (8 + zlen data)); [|lia].
    cbn [Z.leb Z.compare andb]. rewrite (size_of_boxed data Hf). reflexivity. }
  rewrite (bind_Ok _ _ _ _ _ El). unfold fits, OPENSSL_MALLOC_PREFIX in Hf. rewrite wrap_small by (unfold in_word; lia).
  assert (Ez : splice (boxed data) 0 (zeros (zlen data + 8)) = zeros (zlen data + 8)).
  { apply splice_whole. rewrite zlen_boxed, zlen_zeros by lia. lia. }
  unfold OPENSSL_cleanse, bind, write. cbn [block offset]. rewrite E, zlen_boxed, zlen_zeros by lia. rewrite Ez.
  destruct (Z.leb_spec (0 + (zlen data + 8)) (8 + zlen data)); [|lia]. cbn [Z.leb Z.compare andb].
  exists (mk_store (delete id (st_blocks st)) (st_next st) (c_free (st_libc st) (zeros (zlen data + 8)))).
  split; [|split; [|reflexivity]].
  - destruct sdallocx; unfold free; cbn [set_blocks st_blocks block offset st_next st_libc]; rewrite lookup_insert_eq, delete_insert_eq; [|reflexivity].
    rewrite zlen_zeros, !Z.eqb_refl by lia. reflexivity.
  - constructor; cbn [st_blocks st_next].
    + rewrite (holds_blocks _ _ _ H), delete_union, fmap_delete. f_equal. apply delete_id.
      apply (map_disjoint_Some_l _ _ _ _ (holds_disjoint _ _ _ H) Hid).
    + apply map_disjoint_delete_l, (holds_disjoint _ _ _ H).
    + intros id' Hid'. apply lookup_delete_None. right. apply (holds_next _ _ _ H id' Hid').
    + apply map_Forall_delete, (holds_fits _ _ _ H).
Qed.

(** The new object has the bytes that both sizes have in common. *)
Lemma realloc_object st m others id old n : holds st m others -> m !! id = Some old -> 0 <= n < 2 ^ 64 ->
  (exists st', Realloc (Some (object id)) n st = (Ok None, st') /\ holds st' m others /\
     (st_libc st' = st_libc st \/ st_libc st' = snd (c_malloc (st_libc st) (n + 8)))) \/
  (exists st' new, Realloc (Some (object id)) n st = (Ok (Some (object (st_next st))), st') /\ zlen new = n /\
     ztake (Z.min n (zlen old)) new = ztake (Z.min n (zlen old)) old /\
     m !! st_next st = None /\ holds st' (<[st_next st := new]> (delete id m)) others /\
     st_libc st' = c_free (snd (c_malloc (st_libc st) (n + 8))) (zeros (zlen old + 8))).
Proof.
  intros H Hid Hn. destruct (holds_lookup _ _ _ _ _ H Hid) as [E Hf]. pose proof (zlen_nonneg old) as Hd.
  assert (El : load_size (A := A) (plus (object id) (- OPENSSL_MALLOC_PREFIX)) st = (Ok (zlen old), st)).
  { unfold load_size, bind, load. cbn [plus object block offset]. rewrite E, zlen_boxed. unfold OPENSSL_MALLOC_PREFIX.
    change (8 + - (8)) with 0. destruct (Z.leb_spec (0 + 8) (8 + zlen old)); [|lia]. cbn [Z.leb Z.compare andb].
    rewrite (size_of_boxed old Hf). reflexivity. }
  unfold OPENSSL_realloc. rewrite (bind_Ok _ _ _ _ _ El).
  destruct (malloc_object st m others n H Hn) as [(st1 & E1 & H1 & L1)|(st1 & new & E1 & Hl & Hfr & H1 & L1)]; rewrite (bind_Ok _ _ _ _ _ E1).
  { left. exists st1. auto. }
  right. set (to_copy := if zlen old <? n then zlen old else n).
  assert (Ht : to_copy = Z.min n (zlen old)) by (unfold to_copy; destruct (Z.ltb_spec (zlen old) n); lia).
  assert (Hne : st_next st <> id) by congruence.
  assert (Hid1 : <[st_next st := new]> m !! id = Some old) by (rewrite lookup_insert_ne; assumption).
  pose proof (load_object _ _ _ id old 0 to_copy H1 Hid1 ltac:(lia) ltac:(lia) ltac:(lia)) as E2.
  replace (plus (object id) 0) with (object id) in E2 by reflexivity. rewrite (bind_Ok _ _ _ _ _ E2).
  assert (Hs : zlen (slice old 0 to_copy) = to_copy) by (apply zlen_slice; lia).
  destruct (write_object _ _ _ (st_next st) new 0 (slice old 0 to_copy) H1 (lookup_insert_eq _ _ _) ltac:(lia) ltac:(lia)) as (st2 & E3 & L2 & H2).
  replace (plus (object (st_next st)) 0) with (object (st_next st)) in E3 by reflexivity. rewrite (bind_Ok _ _ _ _ _ E3).
  rewrite insert_insert_eq in H2.
  assert (Hid2 : <[st_next st := splice new 0 (slice old 0 to_copy)]> m !! id = Some old) by (rewrite lookup_insert_ne; assumption).
  destruct (free_object _ _ _ id old H2 Hid2) as (st3 & E4 & H3 & L3). rewrite (bind_Ok _ _ _ _ _ E4).
  exists st3, (splice new 0 (slice old 0 to_copy)). split; [reflexivity|]. split; [rewrite zlen_splice; lia|]. split.
  { rewrite <- Ht. unfold splice. change (ztake 0 new) with (@nil byte). cbn [app]. rewrite ztake_app by lia. reflexivity. }
  split; [exact Hfr|]. rewrite delete_insert_ne in H3 by congruence. split; [exact H3|]. rewrite L3, L2, L1. reflexivity.
Qed.

Lemma memdup_object st m others data : holds st m others -> zlen data < 2 ^ 64 ->
  (exists st', Memdup data (zlen data) st = (Ok None, st') /\ holds st' m others /\
     (st_libc st' = st_libc st \/ st_libc st' = snd (c_malloc (st_libc st) (zlen data + 8)))) \/
  (exists st', Memdup data (zlen data) st = (Ok (Some (object (st_next st))), st') /\ data <> [] /\
     m !! st_next st = None /\ holds st' (<[st_next st := data]> m) others /\
     st_libc st' = snd (c_malloc (st_libc st) (zlen data + 8))).
Proof.
  intros H Hn. pose proof (zlen_nonneg data). unfold OPENSSL_memdup. destruct (Z.eqb_spec (zlen data) 0) as [Hz|Hz].
  { left. exists st. auto. }
  destruct (malloc_object st m others (zlen data) H ltac:(lia)) as [(st1 & E1 & H1 & L1)|(st1 & new & E1 & Hl & Hfr & H1 & L1)];
    rewrite (bind_Ok _ _ _ _ _ E1).
  { left. exists st1. auto. }
  right. rewrite ztake_all by reflexivity.
  destruct (write_object _ _ _ (st_next st) new 0 data H1 (lookup_insert_eq _ _ _) ltac:(lia) ltac:(lia)) as (st2 & E3 & L2 & H2).
  replace (plus (object (st_next st)) 0) with (object (st_next st)) in E3 by reflexivity. rewrite (bind_Ok _ _ _ _ _ E3).
  rewrite insert_insert_eq, splice_whole in H2 by lia. exists st2. split; [reflexivity|]. split; [intros ->; apply Hz; reflexivity|].
  split; [exact Hfr|]. split; [exact H2|]. rewrite L2. exact L1.
Qed.
End objects.

(** ** The contract *)

(** What a client may ask for; it reads and writes its objects itself. *)
Inductive request :=
  | Alloc (n : Z)
  | Resize (p : option pointer) (n : Z)
  | Release (p : option pointer)
  | Duplicate (data : list byte)
  | Peek (p : pointer) (n : Z)
  | Poke (p : pointer) (data : list byte).

Inductive answer := Got (p : option pointer) | Bytes (data : list byte) | Done.

Definition sizable (n : Z) : Prop := 0 <= n < 2 ^ 64.
Definition live (m : gmap Z (list byte)) (p : pointer) : Prop := exists id data, p = object id /\ m !! id = Some data.
Definition within (m : gmap Z (list byte)) (p : pointer) (n : Z) : Prop :=
  exists id data off, p = plus (object id) off /\ m !! id = Some data /\ 0 <= off /\ 0 <= n /\ off + n <= zlen data.

(** A request that respects the objects there are. *)
Definition valid (m : gmap Z (list byte)) (r : request) : Prop :=
  match r with
  | Alloc n | Resize None n => sizable n
  | Resize (Some p) n => live m p /\ sizable n
  | Release None => True
  | Release (Some p) => live m p
  | Duplicate data => sizable (zlen data)
  | Peek p n => within m p n
  | Poke p data => within m p (zlen data)
  end.

(** The answers that an allocator may give, and the objects afterwards. *)
Inductive allocates (m : gmap Z (list byte)) : request -> answer -> gmap Z (list byte) -> Prop :=
  | Alloc_refused n : allocates m (Alloc n) (Got None) m
  | Alloc_new n id data : m !! id = None -> zlen data = n ->
      allocates m (Alloc n) (Got (Some (object id))) (<[id := data]> m)
  | Resize_null n a m' : allocates m (Alloc n) a m' -> allocates m (Resize None n) a m'
  | Resize_refused p n : allocates m (Resize (Some p) n) (Got None) m
  | Resize_moved id old n id' new : m !! id = Some old -> m !! id' = None -> zlen new = n ->
      ztake (Z.min n (zlen old)) new = ztake (Z.min n (zlen old)) old ->
      allocates m (Resize (Some (object id)) n) (Got (Some (object id'))) (<[id' := new]> (delete id m))
  | Release_null : allocates m (Release None) Done m
  | Release_object id : allocates m (Release (Some (object id))) Done (delete id m)
  | Duplicate_refused data : allocates m (Duplicate data) (Got None) m
  | Duplicate_new data id : data <> [] -> m !! id = None ->
      allocates m (Duplicate data) (Got (Some (object id))) (<[id := data]> m)
  | Peek_bytes id data off n : m !! id = Some data ->
      allocates m (Peek (plus (object id) off) n) (Bytes (slice data off n)) m
  | Poke_bytes id data off new : m !! id = Some data ->
      allocates m (Poke (plus (object id) off) new) Done (<[id := splice data off new]> m).

(** A property of the C library that is kept as long as it gets only zeros back. *)
Definition kept_by_zeros {A} {CL : CLibrary A} (P : A -> Prop) : Prop :=
  (forall a n, P a -> P (snd (c_malloc a n))) /\ (forall a n, P a -> P (c_free a (zeros n))).

Section contract.
Context {A : Type} {CL : CLibrary A}.
Context (sdallocx : bool).
Notation W := (M (store A)).

Definition perform (r : request) : W answer :=
  match r with
  | Alloc n => p <- OPENSSL_malloc None None None n ;; ret (Got p)
  | Resize p n => p <- OPENSSL_realloc None None None sdallocx p n ;; ret (Got p)
  | Release p => OPENSSL_free None sdallocx p ;; ret Done
  | Duplicate data => p <- OPENSSL_memdup None None None data (zlen data) ;; ret (Got p)
  | Peek p n => bs <- load p n ;; ret (Bytes bs)
  | Poke p data => write p data ;; ret Done
  end.

Lemma perform_allocates st m others r : holds st m others -> valid m r ->
  exists a st' m', perform r st = (Ok a, st') /\ allocates m r a m' /\ holds st' m' others /\
    (forall P, kept_by_zeros P -> P (st_libc st) -> P (st_libc st')).
Proof.
  intros H Hv. destruct r as [n|[p|] n|[p|]|data|p n|p data]; cbn [perform valid] in *.
  - destruct (malloc_object st m others n H Hv) as [(st1 & E & H1 & L)|(st1 & new & E & Hl & Hfr & H1 & L)];
      rewrite (bind_Ok _ _ _ _ _ E); (eexists _, st1, _; split; [reflexivity|]).
    + split; [constructor|]. split; [exact H1|]. intros P [Pm _] HP. destruct L as [-> | ->]; auto.
    + split; [econstructor; eassumption|]. split; [exact H1|]. intros P [Pm _] HP. rewrite L. auto.
  - destruct Hv as [(id & old & -> & Hid) Hn].
    destruct (realloc_object sdallocx st m others id old n H Hid Hn) as [(st1 & E & H1 & L)|(st1 & new & E & Hl & Hk & Hfr & H1 & L)];
      rewrite (bind_Ok _ _ _ _ _ E); (eexists _, st1, _; split; [reflexivity|]).
    + split; [constructor|]. split; [exact H1|]. intros P [Pm _] HP. destruct L as [-> | ->]; auto.
    + split; [econstructor; eassumption|]. split; [exact H1|]. intros P [Pm Pf] HP. rewrite L. auto.
  - cbn [OPENSSL_realloc].
    destruct (malloc_object st m others n H Hv) as [(st1 & E & H1 & L)|(st1 & new & E & Hl & Hfr & H1 & L)];
      rewrite (bind_Ok _ _ _ _ _ E); (eexists _, st1, _; split; [reflexivity|]).
    + split; [do 2 constructor|]. split; [exact H1|]. intros P [Pm _] HP. destruct L as [-> | ->]; auto.
    + split; [constructor; econstructor; eassumption|]. split; [exact H1|]. intros P [Pm _] HP. rewrite L. auto.
  - destruct Hv as (id & data & -> & Hid). destruct (free_object sdallocx st m others id data H Hid) as (st1 & E & H1 & L).
    rewrite (bind_Ok _ _ _ _ _ E). eexists _, st1, _. split; [reflexivity|]. split; [constructor|]. split; [exact H1|].
    intros P [_ Pf] HP. rewrite L. auto.
  - eexists _, st, m. split; [reflexivity|]. split; [constructor|]. auto.
  - destruct (memdup_object st m others data H (proj2 Hv)) as [(st1 & E & H1 & L)|(st1 & E & Hne & Hfr & H1 & L)];
      rewrite (bind_Ok _ _ _ _ _ E); (eexists _, st1, _; split; [reflexivity|]).
    + split; [constructor|]. split; [exact H1|]. intros P [Pm _] HP. destruct L as [-> | ->]; auto.
    + split; [econstructor; eassumption|]. split; [exact H1|]. intros P [Pm _] HP. rewrite L. auto.
  - destruct Hv as (id & data & off & -> & Hid & H1 & H2 & H3).
    rewrite (bind_Ok _ _ _ _ _ (load_object _ _ _ _ _ off n H Hid H1 H2 H3)).
    eexists _, st, m. split; [reflexivity|]. split; [constructor; exact Hid|]. auto.
  - destruct Hv as (id & old & off & -> & Hid & H1 & _ & H3).
    destruct (write_object _ _ _ _ _ off data H Hid H1 H3) as (st1 & E & L & H4). rewrite (bind_Ok _ _ _ _ _ E).
    eexists _, st1, _. split; [reflexivity|]. split; [constructor; exact Hid|]. split; [exact H4|].
    intros P _ HP. rewrite L. exact HP.
Qed.

(** A client decides on its next request by the answers it has had. *)
Definition client := list answer -> option request.

Fixpoint play (n : nat) (c : client) (had : list answer) : W (list answer) :=
  match n with
  | O => ret had
  | S n =>
      match c had with
      | None => ret had
      | Some r => a <- perform r ;; play n c (had ++ [a])
      end
  end.
End contract.

(** The answers a client may have had, and the objects it has then. *)
Inductive conversation (c : client) (m : gmap Z (list byte)) : list answer -> gmap Z (list byte) -> Prop :=
  | conversation_start : conversation c m [] m
  | conversation_step had m1 r a m2 : conversation c m had m1 -> c had = Some r -> allocates m1 r a m2 ->
      conversation c m (had ++ [a]) m2.

(** Whatever it is answered, its requests are valid. *)
Definition careful (c : client) (m : gmap Z (list byte)) : Prop :=
  forall had m1 r, conversation c m had m1 -> c had = Some r -> valid m1 r.

Lemma play_conversation {A} {CL : CLibrary A} sdallocx c m0 others : careful c m0 ->
  forall n had (st : store A) m, conversation c m0 had m -> holds st m others ->
  exists had' st' m', play sdallocx n c had st = (Ok had', st') /\ conversation c m0 had' m' /\ holds st' m' others /\
    (forall P, kept_by_zeros P -> P (st_libc st) -> P (st_libc st')).
Proof.
  intros Hc. induction n as [|n IH]; intros had st m Hm H; cbn [play].
  { exists had, st, m. auto. }
  destruct (c had) as [r|] eqn:Er; [|exists had, st, m; auto].
  destruct (perform_allocates sdallocx st m others r H (Hc _ _ _ Hm Er)) as (a & st1 & m1 & E & Ha & H1 & K1).
  rewrite (bind_Ok _ _ _ _ _ E). destruct (IH (had ++ [a]) st1 m1) as (had' & st' & m' & E' & Hm' & H' & K').
  { econstructor; eassumption. }
  { exact H1. }
  exists had', st', m'. split; [exact E'|]. split; [exact Hm'|]. split; [exact H'|]. intros P KP HP.
  apply (K' P KP), (K1 P KP), HP.
Qed.

(** C20: The allocator implements a map from objects to their bytes: whatever a
    careful client asks for, in any order and number, no step is undefined, the
    answers are ones the map allows, the store holds the map that results, and
    the blocks of others are as they were. *)
Theorem mem_refines {A} {CL : CLibrary A} sdallocx c n (st : store A) m others : holds st m others -> careful c m ->
  exists had st' m', play sdallocx n c [] st = (Ok had, st') /\ conversation c m had m' /\ holds st' m' others.
Proof.
  intros H Hc. destruct (play_conversation sdallocx c m others Hc n [] st m (conversation_start c m) H) as (had & st' & m' & E & C & H' & _).
  exists had, st', m'. auto.
Qed.

(** C21: No byte of an object reaches the C library: while a careful client runs,
    including its reallocations, whatever stays true of the C library as long
    as the blocks it gets back are full of zeros does stay true. *)
Theorem freed_blocks_are_zero {A} {CL : CLibrary A} sdallocx c n (st : store A) m others P :
  holds st m others -> careful c m -> kept_by_zeros P -> P (st_libc st) -> P (st_libc (snd (play sdallocx n c [] st))).
Proof.
  intros H Hc HP H0. destruct (play_conversation sdallocx c m others Hc n [] st m (conversation_start c m) H) as (had & st' & m' & E & _ & _ & K).
  rewrite E. apply (K P HP H0).
Qed.

(** *** A client that keeps a secret *)

(** A C library that remembers what it gets back and gives out used memory. *)
#[local] Program Instance logging : CLibrary (list (list byte)) := {
  c_malloc log n := (Some (repeat Byte.x5a (Z.to_nat n)), log);
  c_free log bs := bs :: log;
}.
Next Obligation. intros log n bs a' Hn [= <- _]. unfold zlen. rewrite repeat_length. lia. Qed.

Definition secret : list byte := map b8 [11; 12; 13].
Definition secret_keeper : client := fun had =>
  match had with
  | [] => Some (Alloc 3)
  | [Got (Some p)] => Some (Poke p secret)
  | [Got (Some p); Done] => Some (Resize (Some p) 5)
  | [_; _; Got (Some p)] => Some (Peek p 3)
  | [_; _; Got (Some p); _] => Some (Release (Some p))
  | _ => None
  end.
Definition empty_store : store (list (list byte)) := mk_store ∅ 0 [].

Example secret_kept : play true 9 secret_keeper [] empty_store =
  (Ok [Got (Some (object 0)); Done; Got (Some (object 1)); Bytes secret; Done], mk_store ∅ 2 [zeros 13; zeros 11]).
Proof. vm_compute. reflexivity. Qed.

Lemma empty_holds : holds empty_store ∅ ∅.
Proof. constructor; [reflexivity | apply map_disjoint_empty_l | reflexivity | apply map_Forall_empty]. Qed.

Lemma conversation_inv c m had a m2 : conversation c m (had ++ [a]) m2 ->
  exists m1 r, conversation c m had m1 /\ c had = Some r /\ allocates m1 r a m2.
Proof.
  intros H. inversion H as [E|had' m1 r a' m2' H1 H2 H3 E]; [destruct had; discriminate|].
  apply app_inj_tail in E as [-> ->]. eauto.
Qed.

(** The object of the secret, before and after it grows. *)
Definition holds_object (m : gmap Z (list byte)) (p : pointer) (n : Z) : Prop :=
  exists id data, p = object id /\ m !! id = Some data /\ zlen data = n.

Lemma keeper_alloc a m : conversation secret_keeper ∅ [a] m -> forall p, a = Got (Some p) -> holds_object m p 3.
Proof.
  intros C p ->. destruct (conversation_inv _ _ [] _ _ C) as (m1 & r & _ & [= <-] & Ha). inversion Ha; subst.
  eexists _, _. split; [reflexivity|]. split; [apply lookup_insert_eq | assumption].
Qed.

Lemma keeper_poke a b m : conversation secret_keeper ∅ [a; b] m -> exists p, a = Got (Some p) /\ holds_object m p 3.
Proof.
  intros C. destruct (conversation_inv _ _ [a] _ _ C) as (m1 & r & C1 & E & Ha). cbn in E.
  destruct a as [[p|]| |]; try discriminate. injection E as <-. exists p. split; [reflexivity|].
  destruct (keeper_alloc _ _ C1 p eq_refl) as (id & data & -> & Hid & Hl).
  inversion Ha as [| | | | | | | | | |id' data' off new Hid' Ep Eo Em]; subst. assert (off = 0) as -> by lia.
  assert (data' = data) as -> by congruence. eexists _, _. split; [reflexivity|]. split; [apply lookup_insert_eq|].
  rewrite zlen_splice; [exact Hl | lia |]. rewrite Hl. discriminate.
Qed.

Lemma keeper_resize a b d m : conversation secret_keeper ∅ [a; b; d] m -> forall p, d = Got (Some p) -> holds_object m p 5.
Proof.
  intros C q ->. destruct (conversation_inv _ _ [a; b] _ _ C) as (m1 & r & C1 & E & Ha).
  destruct (keeper_poke _ _ _ C1) as (p & -> & _). cbn in E. destruct b; try discriminate. injection E as <-.
  inversion Ha; subst. eexists _, _. split; [reflexivity|]. split; [apply lookup_insert_eq | assumption].
Qed.

Lemma keeper_peek a b d e m : conversation secret_keeper ∅ [a; b; d; e] m -> exists p, d = Got (Some p) /\ holds_object m p 5.
Proof.
  intros C. destruct (conversation_inv _ _ [a; b; d] _ _ C) as (m1 & r & C1 & E & Ha).
  assert (exists p, d = Got (Some p) /\ r = Peek p 3) as (p & -> & ->).
  { destruct (conversation_inv _ _ [a; b] _ _ C1) as (m2 & r2 & C2 & _). destruct (keeper_poke _ _ _ C2) as (p & -> & _).
    cbn in E. destruct b, d as [[q|]| |]; try discriminate; injection E as <-; eauto. }
  exists p. split; [reflexivity|]. pose proof (keeper_resize _ _ _ _ C1 p eq_refl) as H. inversion Ha; subst; exact H.
Qed.

Lemma keeper_careful : careful secret_keeper ∅.
Proof.
  intros had m1 r C E. destruct had as [|a [|b [|d [|e [|f had]]]]].
  - injection E as <-. cbn. unfold sizable. lia.
  - cbn in E. destruct a as [[p|]| |]; try discriminate. injection E as <-.
    destruct (keeper_alloc _ _ C p eq_refl) as (id & data & -> & Hid & Hl).
    exists id, data, 0. rewrite Hl. split; [reflexivity|]. split; [exact Hid|]. split; [lia|]. split; discriminate.
  - destruct (keeper_poke _ _ _ C) as (p & -> & id & data & -> & Hid & Hl). cbn in E. destruct b; try discriminate. injection E as <-.
    split; [exists id, data; auto | unfold sizable; lia].
  - assert (exists p, d = Got (Some p) /\ r = Peek p 3) as (p & -> & ->).
    { destruct (conversation_inv _ _ [a; b] _ _ C) as (m2 & r2 & C2 & _). destruct (keeper_poke _ _ _ C2) as (p & -> & _).
      cbn in E. destruct b, d as [[q|]| |]; try discriminate; injection E as <-; eauto. }
    destruct (keeper_resize _ _ _ _ C p eq_refl) as (id & data & -> & Hid & Hl).
    exists id, data, 0. split; [reflexivity|]. split; [exact Hid | lia].
  - destruct (keeper_peek _ _ _ _ _ C) as (p & -> & id & data & -> & Hid & Hl).
    assert (r = Release (Some (object id))) as ->.
    { cbn in E. destruct a as [[q|]| |], b; cbn in E; injection E as <-; reflexivity. }
    exists id, data. auto.
  - exfalso. cbn in E. destruct a as [[q|]| |], b, d as [[q'|]| |]; discriminate.
Qed.

Lemma mem_refines_witness :
  exists had st' m', play true 9 secret_keeper [] empty_store = (Ok had, st') /\ conversation secret_keeper ∅ had m' /\ holds st' m' ∅.
Proof. exact (mem_refines true secret_keeper 9 empty_store ∅ ∅ empty_holds keeper_careful). Defined.

(** The log of the C library has only zeros. *)
Definition all_zero (log : list (list byte)) : Prop := Forall (fun bs => bs = zeros (zlen bs)) log.

Lemma all_zero_kept : kept_by_zeros all_zero.
Proof.
  split; [intros a n H; exact H|]. intros a n H. constructor; [|exact H].
  unfold zeros, zlen. rewrite repeat_length, Nat2Z.id. reflexivity.
Qed.

Lemma freed_blocks_are_zero_witness : all_zero (st_libc (snd (play true 9 secret_keeper [] empty_store))).
Proof.
  apply (freed_blocks_are_zero true secret_keeper 9 empty_store ∅ ∅ all_zero empty_holds keeper_careful all_zero_kept).
  constructor.
Defined.

(** ** The interface of the other components *)

(** [OPENSSL_realloc] of an object with the bytes [old]; there are no others. *)
Definition mem_realloc {A} {CL : CLibrary A} (sdallocx : bool) (a : A) (old : list byte) (n : Z) : option (list byte) * A :=
  if (SIZE_MAX <? n) || (2 ^ 64 <=? zlen old + 8) then (None, a) else
  let p := match old with [] => None | _ => Some (object 0) end in
  match OPENSSL_realloc None None None sdallocx p n (mk_store {[0 := boxed old]} 1 a) with
  | (Ok (Some q), st) => (zdrop OPENSSL_MALLOC_PREFIX <$> st_blocks st !! block q, st_libc st)
  | (_, st) => (None, st_libc st)
  end.

(** [OPENSSL_free] of an object of [n] bytes. *)
Definition mem_free {A} {CL : CLibrary A} (sdallocx : bool) (a : A) (n : Z) : A :=
  st_libc (snd (OPENSSL_free None sdallocx (Some (object 0)) (mk_store {[0 := boxed (zeros n)]} 1 a))).

Lemma single_holds {A} (a : A) old : fits old -> holds (mk_store {[0 := boxed old]} 1 a) {[0 := old]} ∅.
Proof.
  intros H. constructor; cbn [st_blocks st_next].
  - rewrite map_fmap_singleton, map_union_empty. reflexivity.
  - apply map_disjoint_empty_r.
  - intros id Hid. apply lookup_singleton_ne. lia.
  - apply map_Forall_singleton, H.
Qed.

Lemma zdrop_boxed data : zdrop OPENSSL_MALLOC_PREFIX (boxed data) = data.
Proof. apply zdrop_app. unfold zlen. rewrite length_le_split. reflexivity. Qed.

Lemma mem_realloc_keeps {A} {CL : CLibrary A} sdallocx (a : A) old n new a' : 0 <= n ->
  mem_realloc sdallocx a old n = (Some new, a') -> zlen new = n /\ ztake (Z.min n (zlen old)) new = ztake (Z.min n (zlen old)) old.
Proof.
  intros Hn. unfold mem_realloc. destruct (Z.ltb_spec SIZE_MAX n) as [|Hs]; [discriminate|].
  destruct (Z.leb_spec (2 ^ 64) (zlen old + 8)) as [|Hf]; [discriminate|]. cbn [orb].
  pose proof (single_holds a old Hf) as H. destruct old as [|b old].
  - cbn [OPENSSL_realloc].
    destruct (malloc_object _ _ _ n H ltac:(lia)) as [(st1 & E & H1 & _)|(st1 & data & E & Hl & _ & H1 & _)]; rewrite E; [discriminate|].
    destruct (holds_lookup _ _ _ 1 data H1 (lookup_insert_eq _ _ _)) as [El _]. cbn [object block st_next]. rewrite El. cbn [fmap option_fmap option_map].
    rewrite zdrop_boxed. intros [= <- _]. split; [exact Hl|]. rewrite zlen_nil, Z.min_r by lia. reflexivity.
  - destruct (realloc_object sdallocx _ _ _ 0 (b :: old) n H (lookup_singleton_eq _ _) ltac:(lia))
      as [(st1 & E & H1 & _)|(st1 & data & E & Hl & Hk & _ & H1 & _)]; rewrite E; [discriminate|].
    destruct (holds_lookup _ _ _ 1 data H1 (lookup_insert_eq _ _ _)) as [El _]. cbn [object block st_next]. rewrite El. cbn [fmap option_fmap option_map].
    rewrite zdrop_boxed. intros [= <- _]. auto.
Qed.

(** The functions of this file promise what the clients in the other files rely
    on. *)
Program Definition mem_allocator {A} {CL : CLibrary A} (sdallocx : bool) : Allocator A := {|
  Alloc.OPENSSL_realloc a old n := mem_realloc sdallocx a old n;
  Alloc.OPENSSL_free a n := mem_free sdallocx a n;
|}.
Next Obligation. intros A CL sdallocx a old n new a' Hn H. apply (mem_realloc_keeps _ _ _ _ _ _ Hn H). Qed.
Next Obligation.
  intros A CL sdallocx a old n new a' Hn H. cbv beta in H. pose proof (zlen_nonneg old) as Hl.
  assert (H0 : 0 <= n) by lia. destruct (mem_realloc_keeps _ _ _ _ _ _ H0 H) as [_ E]. rewrite Z.min_r in E by exact Hn. rewrite E.
  apply ztake_all. reflexivity.
Qed.

(** ** Strings *)

(** The characters of a string, and the same with its end and what follows. *)
Definition characters (s : list byte) : Prop := Forall (fun c => u8 c <> 0) s.
Definition terminated (s rest : list byte) : list byte := s ++ Byte.x00 :: rest.

Lemma characters_cons c s : characters (c :: s) -> (u8 c =? 0) = false /\ characters s.
Proof. intros H. apply Forall_cons_iff in H as [Hc Hs]. split; [apply Z.eqb_neq, Hc | exact Hs]. Qed.

Lemma strlen_spec s rest : characters s -> strlen (terminated s rest) = Some (zlen s).
Proof.
  induction s as [|c s IH]; intros H; [reflexivity|]. destruct (characters_cons _ _ H) as [Hc Hs].
  cbn [terminated app strlen]. rewrite Hc. change (s ++ Byte.x00 :: rest) with (terminated s rest). rewrite IH by exact Hs.
  cbn. rewrite zlen_cons. reflexivity.
Qed.

(** The string may go on behind [len], and end there with its object. *)
Lemma strnlen_spec s rest : characters s -> forall len, 0 <= len ->
  (len <= zlen s -> OPENSSL_strnlen (s ++ rest) len = Some len) /\
  OPENSSL_strnlen (terminated s rest) len = Some (Z.min len (zlen s)).
Proof.
  induction s as [|c s IH]; intros H len Hlen.
  - rewrite zlen_nil. split.
    + intros Hl. assert (len = 0) as -> by lia. destruct rest; reflexivity.
    + cbn [terminated app OPENSSL_strnlen]. destruct (Z.eqb_spec len 0) as [-> |]; [reflexivity|]. cbn. f_equal. lia.
  - destruct (characters_cons _ _ H) as [Hc Hs]. rewrite zlen_cons. pose proof (zlen_nonneg s).
    cbn [terminated app OPENSSL_strnlen]. change (s ++ Byte.x00 :: rest) with (terminated s rest).
    destruct (Z.eqb_spec len 0) as [-> | Hz]; [rewrite Z.min_l by lia; auto|]. rewrite Hc.
    destruct (IH Hs (len - 1) ltac:(lia)) as [E1 E2]. split.
    + intros Hl. rewrite E1 by lia. cbn. f_equal. lia.
    + rewrite E2. cbn. f_equal. lia.
Qed.

Lemma set_char_in dst i c : 0 <= i < zlen dst -> set_char dst i c = Some (splice dst i [c]).
Proof. intros H. unfold set_char. destruct (Z.leb_spec 0 i), (Z.ltb_spec i (zlen dst)); try lia. reflexivity. Qed.

(** What fits of [s] has been copied. *)
Lemma strlcpy_loop_spec s rest : characters s -> forall dst d dst_size l,
  0 <= d -> 0 <= dst_size -> d + dst_size <= zlen dst -> 0 <= l -> l + zlen s < 2 ^ 64 ->
  let k := Z.min (zlen s) (Z.max 0 (dst_size - 1)) in
  strlcpy_loop (terminated s rest) dst d dst_size l =
    Some (terminated (zdrop k s) rest, splice dst d (ztake k s), d + k, dst_size - k, l + k).
Proof.
  induction s as [|c s IH]; intros H dst d dst_size l H1 H2 H3 H4 H5; cbv zeta.
  - assert (Hk : Z.min (zlen (@nil byte)) (Z.max 0 (dst_size - 1)) = 0) by (rewrite zlen_nil; lia). rewrite Hk.
    change (ztake 0 (@nil byte)) with (@nil byte). change (zdrop 0 (@nil byte)) with (@nil byte). rewrite splice_nil by lia.
    cbn [terminated app strlcpy_loop]. rewrite !Z.add_0_r, Z.sub_0_r. destruct (1 <? dst_size); reflexivity.
  - destruct (characters_cons _ _ H) as [Hc Hs]. rewrite zlen_cons in *. pose proof (zlen_nonneg s).
    cbn [terminated app strlcpy_loop]. change (s ++ Byte.x00 :: rest) with (terminated s rest).
    destruct (Z.ltb_spec 1 dst_size) as [Hd|Hd].
    + rewrite Hc, set_char_in by lia. cbn [mbind option_bind]. rewrite wrap_small by (unfold in_word; lia).
      assert (Hl : zlen (splice dst d [c]) = zlen dst) by (apply zlen_splice; [lia | rewrite zlen_cons, zlen_nil; lia]).
      rewrite IH by (try assumption; lia). set (k := Z.min (zlen s) (Z.max 0 (dst_size - 1 - 1))).
      replace (Z.min (1 + zlen s) (Z.max 0 (dst_size - 1))) with (1 + k) by lia.
      assert (Ek : Z.to_nat (1 + k) = S (Z.to_nat k)) by lia.
      assert (E1 : zdrop (1 + k) (c :: s) = zdrop k s) by (unfold zdrop; rewrite Ek; reflexivity).
      assert (E2 : ztake (1 + k) (c :: s) = [c] ++ ztake k s) by (unfold ztake; rewrite Ek; reflexivity).
      rewrite E1, E2. rewrite <- splice_splice; [|lia|].
      * change (zlen [c]) with 1. replace (d + 1 + k) with (d + (1 + k)) by lia.
        replace (dst_size - 1 - k) with (dst_size - (1 + k)) by lia. replace (l + 1 + k) with (l + (1 + k)) by lia. reflexivity.
      * change (zlen [c]) with 1. rewrite zlen_ztake by lia. lia.
    + rewrite Z.min_r, Z.max_l by lia. change (ztake 0 (c :: s)) with (@nil byte). change (zdrop 0 (c :: s)) with (c :: s).
      rewrite splice_nil by lia. rewrite !Z.add_0_r, Z.sub_0_r. reflexivity.
Qed.

(** [dst] from [d] on when [s] is copied into [dst_size] bytes. *)
Definition copied (dst : list byte) (d : Z) (s : list byte) (dst_size : Z) : list byte :=
  if dst_size =? 0 then dst else splice dst d (ztake (Z.min (zlen s) (dst_size - 1)) s ++ [Byte.x00]).

Lemma strlcpy_at_spec dst d s rest dst_size : characters s -> zlen s < 2 ^ 64 -> 0 <= d -> 0 <= dst_size -> d + dst_size <= zlen dst ->
  strlcpy_at dst d (terminated s rest) dst_size = Some (zlen s, copied dst d s dst_size).
Proof.
  intros Hs Hl Hd Hn Hb. unfold strlcpy_at. rewrite strlcpy_loop_spec by (try assumption; lia).
  set (k := Z.min (zlen s) (Z.max 0 (dst_size - 1))). pose proof (zlen_nonneg s).
  assert (Hk : characters (zdrop k s)) by (apply Forall_drop, Hs). rewrite strlen_spec by exact Hk.
  rewrite zlen_zdrop by lia. unfold copied. destruct (Z.eqb_spec dst_size 0) as [-> | Hz].
  - assert (k = 0) as -> by lia. change (ztake 0 s) with (@nil byte). rewrite splice_nil by lia. change (0 - 0 =? 0) with true.
    cbn [mbind option_bind]. rewrite wrap_small by (unfold in_word; lia). do 2 f_equal. lia.
  - replace (Z.min (zlen s) (dst_size - 1)) with k by lia. destruct (Z.eqb_spec (dst_size - k) 0); [lia|].
    assert (Hz1 : zlen (ztake k s) = k) by (apply zlen_ztake; lia).
    assert (Hz2 : zlen (splice dst d (ztake k s)) = zlen dst) by (apply zlen_splice; lia).
    rewrite set_char_in by lia. cbn [mbind option_bind]. rewrite wrap_small by (unfold in_word; lia).
    pose proof (splice_splice dst d (ztake k s) [Byte.x00] Hd) as E. rewrite Hz1 in E. change (zlen [Byte.x00]) with 1 in E.
    rewrite E by lia. do 2 f_equal. lia.
Qed.

(** [strlcpy] copies what fits, ends it, and tells the length it tried to copy. *)
Theorem OPENSSL_strlcpy_spec dst s rest dst_size : characters s -> zlen s < 2 ^ 64 -> 0 <= dst_size <= zlen dst ->
  OPENSSL_strlcpy dst (terminated s rest) dst_size = Some (zlen s, copied dst 0 s dst_size).
Proof. intros Hs Hl Hb. apply strlcpy_at_spec; [assumption.. | lia | lia | lia]. Qed.

Lemma strlcat_loop_spec d rest : characters d -> forall dst_size l, 0 <= l -> l + zlen d < 2 ^ 64 -> 0 <= dst_size <= zlen (d ++ rest) ->
  dst_size <= zlen d \/ (exists rest', rest = Byte.x00 :: rest') ->
  strlcat_loop (d ++ rest) dst_size l = Some (dst_size - Z.min dst_size (zlen d), l + Z.min dst_size (zlen d)).
Proof.
  induction d as [|c d IH]; intros H dst_size l H1 H2 H3 H4.
  - rewrite zlen_nil in *. rewrite Z.min_r, Z.sub_0_r, Z.add_0_r by lia. cbn [app] in *.
    destruct rest as [|r rest]; cbn [strlcat_loop]; destruct (Z.ltb_spec 0 dst_size) as [Hp|Hp]; try reflexivity;
      destruct H4 as [H4|[rest' [= -> ->]]]; try lia. reflexivity.
  - destruct (characters_cons _ _ H) as [Hc Hs]. cbn [app] in *. rewrite zlen_cons in *. pose proof (zlen_nonneg d).
    cbn [strlcat_loop]. destruct (Z.ltb_spec 0 dst_size) as [Hp|Hp].
    + rewrite Hc, wrap_small by (unfold in_word; lia). rewrite IH; [do 2 f_equal; lia | assumption | lia | lia | lia |].
      destruct H4 as [H4|H4]; [left; lia | right; exact H4].
    + assert (dst_size = 0) as -> by lia. f_equal. f_equal; lia.
Qed.

(** [strlcat] appends what fits behind the string in [dst], and tells the length
    it tried to make; a destination without an end in its first [dst_size] bytes
    stays as it is. *)
Theorem OPENSSL_strlcat_spec d tail s rest dst_size :
  characters d -> characters s -> zlen d + zlen s < 2 ^ 64 -> 0 <= dst_size <= zlen (d ++ tail) ->
  dst_size <= zlen d \/ (exists tail', tail = Byte.x00 :: tail') ->
  OPENSSL_strlcat (d ++ tail) (terminated s rest) dst_size =
    Some (Z.min dst_size (zlen d) + zlen s,
      copied (d ++ tail) (Z.min dst_size (zlen d)) s (dst_size - Z.min dst_size (zlen d))).
Proof.
  intros Hd Hs Hl Hb Ht. pose proof (zlen_nonneg d). pose proof (zlen_nonneg s). unfold OPENSSL_strlcat.
  rewrite strlcat_loop_spec by (try assumption; lia). rewrite !Z.add_0_l.
  rewrite strlcpy_at_spec by (try assumption; lia). rewrite wrap_small by (unfold in_word; lia). reflexivity.
Qed.

(** The order of strings without regard to the case of ASCII letters. *)
Definition lower (c : byte) : Z := OPENSSL_tolower (char c).

Lemma char_zero c : char c = 0 <-> u8 c = 0.
Proof.
  unfold char, sext. pose proof (u8_range c). rewrite wrap_small by (unfold in_word; lia).
  change (2 ^ (8 - 1)) with 128. change (2 ^ 8) with 256. destruct (Z.ltb_spec (u8 c) 128); lia.
Qed.

Lemma lower_zero c : u8 c <> 0 -> lower c <> 0.
Proof.
  intros H E. apply H, char_zero. unfold lower, OPENSSL_tolower in E.
  destruct (Z.leb_spec 0x41 (char c)), (Z.leb_spec (char c) 0x5A); cbn [andb] in E; lia.
Qed.

Theorem OPENSSL_strcasecmp_spec s : forall t r1 r2, characters s -> characters t ->
  exists r, OPENSSL_strcasecmp (terminated s r1) (terminated t r2) = Some r /\ (r = 0 <-> map lower s = map lower t).
Proof.
  induction s as [|x s IH]; intros [|y t] r1 r2 Hs Ht.
  - exists 0. split; [reflexivity | split; reflexivity].
  - destruct (characters_cons _ _ Ht) as [Hy%Z.eqb_neq _]. cbn [terminated app OPENSSL_strcasecmp].
    change (OPENSSL_tolower (char Byte.x00)) with 0. fold (lower y). pose proof (lower_zero y Hy).
    destruct (Z.ltb_spec 0 (lower y)); [exists (-1); split; [reflexivity | split; discriminate]|].
    destruct (Z.ltb_spec (lower y) 0); [|lia]. exists 1. split; [reflexivity | split; discriminate].
  - destruct (characters_cons _ _ Hs) as [Hx%Z.eqb_neq _]. cbn [terminated app OPENSSL_strcasecmp].
    change (OPENSSL_tolower (char Byte.x00)) with 0. fold (lower x). pose proof (lower_zero x Hx).
    destruct (Z.ltb_spec (lower x) 0); [exists (-1); split; [reflexivity | split; discriminate]|].
    destruct (Z.ltb_spec 0 (lower x)); [|lia]. exists 1. split; [reflexivity | split; discriminate].
  - destruct (characters_cons _ _ Hs) as [Hx%Z.eqb_neq Hs']. destruct (characters_cons _ _ Ht) as [_ Ht'].
    cbn [terminated app OPENSSL_strcasecmp map]. fold (lower x) (lower y). pose proof (lower_zero x Hx).
    destruct (Z.ltb_spec (lower x) (lower y)); [exists (-1); split; [reflexivity|]; split; [discriminate | intros [= E _]; lia]|].
    destruct (Z.ltb_spec (lower y) (lower x)); [exists 1; split; [reflexivity|]; split; [discriminate | intros [= E _]; lia]|].
    destruct (Z.eqb_spec (lower x) 0); [contradiction|].
    destruct (IH t r1 r2 Hs' Ht') as (r & E & Hr). exists r. split; [exact E|]. rewrite Hr.
    split; [intros Em; f_equal; [lia | exact Em] | intros [= _ Em]; exact Em].
Qed.

Lemma OPENSSL_strlcpy_spec_witness :
  OPENSSL_strlcpy (zeros 4) (terminated secret []) 3 = Some (3, copied (zeros 4) 0 secret 3).
Proof.
  apply (OPENSSL_strlcpy_spec (zeros 4) secret [] 3); [repeat constructor; discriminate | reflexivity | split; discriminate].
Defined.

Example strlcpy_truncates : OPENSSL_strlcpy (zeros 4) (terminated secret []) 3 = Some (3, map b8 [11; 12; 0; 0]).
Proof. reflexivity. Qed.

Example strlcat_truncates :
  OPENSSL_strlcat (map b8 [1; 2; 0; 9; 9; 9; 9]) (terminated secret []) 5 = Some (5, map b8 [1; 2; 11; 12; 0; 9; 9]).
Proof. reflexivity. Qed.

(** *** Copies of strings *)

Section copies.
Context {A : Type} {CL : CLibrary A}.

(** A call that gives a copy of [bs], or refuses. *)
Definition copies (c : M (store A) (option pointer)) (bs : list byte) : Prop :=
  forall st m others, holds st m others ->
  (exists st', c st = (Ok None, st') /\ holds st' m others) \/
  (exists st' id, c st = (Ok (Some (object id)), st') /\ m !! id = None /\ holds st' (<[id := bs]> m) others).

(** Allocate [n] bytes and fill them. *)
Lemma copies_fill n bs (k : pointer -> M (store A) unit) : 0 <= n < 2 ^ 64 ->
  (forall st m others id data, holds st m others -> m !! id = Some data -> zlen data = n ->
     exists st', k (object id) st = (Ok tt, st') /\ holds st' (<[id := bs]> m) others) ->
  copies (r <- OPENSSL_malloc None None None n ;; match r with None => ret None | Some r => k r ;; ret (Some r) end) bs.
Proof.
  intros Hn Hk st m others H.
  destruct (malloc_object st m others n H Hn) as [(st1 & E1 & H1 & L1)|(st1 & new & E1 & Hl & Hfr & H1 & L1)]; rewrite (bind_Ok _ _ _ _ _ E1).
  { left. exists st1. auto. }
  right. destruct (Hk _ _ _ (st_next st) new H1 (lookup_insert_eq _ _ _) Hl) as (st2 & E2 & H2). rewrite (bind_Ok _ _ _ _ _ E2).
  rewrite insert_insert_eq in H2. exists st2, (st_next st). auto.
Qed.

Lemma write_fill (st : store A) m others id data bs : holds st m others -> m !! id = Some data -> zlen data = zlen bs ->
  exists st', write (object id) bs st = (Ok tt, st') /\ holds st' (<[id := bs]> m) others.
Proof.
  intros H Hid Hl. destruct (write_object st m others id data 0 bs H Hid ltac:(lia) ltac:(lia)) as (st' & E & _ & H').
  rewrite splice_whole in H' by lia. exists st'. auto.
Qed.

(** A copy of a string has its end and nothing that follows. *)
Theorem OPENSSL_strdup_spec s rest : characters s -> zlen s + 1 < 2 ^ 64 ->
  copies (OPENSSL_strdup None None None (Some (terminated s rest))) (terminated s []).
Proof.
  intros Hs Hl. pose proof (zlen_nonneg s). unfold OPENSSL_strdup. rewrite strlen_spec by exact Hs.
  change (copies (let len := u64 (zlen s + 1) in
    r <- OPENSSL_malloc None None None len ;; match r with None => ret None | Some r => write r (ztake len (terminated s rest)) ;; ret (Some r) end) (terminated s [])).
  cbv zeta. rewrite wrap_small by (unfold in_word; lia).
  assert (E : ztake (zlen s + 1) (terminated s rest) = terminated s []).
  { unfold terminated. change (Byte.x00 :: rest) with ([Byte.x00] ++ rest). rewrite app_assoc. apply ztake_app. rewrite zlen_app. reflexivity. }
  rewrite E. apply (copies_fill _ _ (fun r => write r (terminated s []))); [lia|].
  intros st m others id data H1 H2 H3. apply (write_fill _ _ _ _ data _ H1 H2). unfold terminated. rewrite zlen_app. exact H3.
Qed.

(** So has a copy of at most [size] characters. *)
Theorem OPENSSL_strndup_spec s rest size : characters s -> 0 <= size < 2 ^ 64 - 1 ->
  (size <= zlen s \/ exists rest', rest = Byte.x00 :: rest') ->
  copies (OPENSSL_strndup None None None (s ++ rest) size) (terminated (ztake (Z.min size (zlen s)) s) []).
Proof.
  intros Hs Hl Hr. pose proof (zlen_nonneg s). set (n := Z.min size (zlen s)).
  assert (E : OPENSSL_strnlen (s ++ rest) size = Some n).
  { destruct Hr as [Hr|[rest' ->]]; [|apply (strnlen_spec s rest' Hs size ltac:(lia))].
    unfold n. rewrite Z.min_l by lia. apply (strnlen_spec s rest Hs size ltac:(lia)), Hr. }
  assert (Et : ztake n (s ++ rest) = ztake n s) by (unfold ztake; apply take_app_le; unfold zlen in *; lia).
  assert (Hz : zlen (ztake n s) = n) by (apply zlen_ztake; lia).
  unfold OPENSSL_strndup. rewrite E.
  change (copies (let alloc_size := u64 (n + 1) in if alloc_size <? n then ret None else
    r <- OPENSSL_malloc None None None alloc_size ;;
    match r with None => ret None | Some r => write r (ztake n (s ++ rest)) ;; write (plus r n) [Byte.x00] ;; ret (Some r) end)
    (terminated (ztake n s) [])).
  cbv zeta. rewrite wrap_small by (unfold in_word; lia). destruct (Z.ltb_spec (n + 1) n); [lia|]. rewrite Et.
  intros st m others Hh.
  destruct (malloc_object st m others (n + 1) Hh ltac:(lia)) as [(st1 & E1 & H1 & L1)|(st1 & new & E1 & Hn & Hfr & H1 & L1)]; rewrite (bind_Ok _ _ _ _ _ E1).
  { left. exists st1. auto. }
  right. destruct (write_object _ _ _ _ new 0 (ztake n s) H1 (lookup_insert_eq _ _ _) ltac:(lia) ltac:(lia)) as (st2 & E2 & _ & H2).
  replace (plus (object (st_next st)) 0) with (object (st_next st)) in E2 by reflexivity. rewrite (bind_Ok _ _ _ _ _ E2).
  destruct (write_object _ _ _ _ _ n [Byte.x00] H2 (lookup_insert_eq _ _ _) ltac:(lia)) as (st3 & E3 & _ & H3).
  { rewrite zlen_splice by lia. change (zlen [Byte.x00]) with 1. lia. }
  rewrite (bind_Ok _ _ _ _ _ E3). exists st3, (st_next st). split; [reflexivity|]. split; [exact Hfr|].
  rewrite !insert_insert_eq in H3. pose proof (splice_splice new 0 (ztake n s) [Byte.x00] ltac:(lia)) as Es.
  rewrite Hz, Z.add_0_l in Es. change (zlen [Byte.x00]) with 1 in Es. rewrite Es in H3 by lia.
  rewrite splice_whole in H3; [exact H3|]. rewrite zlen_app, Hz. exact (eq_sym Hn).
Qed.

(** [CBS_stow] frees what [*out_ptr] was and puts a copy of the bytes there. *)
Theorem CBS_stow_spec sdallocx cbs out (st : store A) m m0 others : holds st m others -> zlen cbs < 2 ^ 64 ->
  (out = None /\ m0 = m) \/ (exists id data, out = Some (object id) /\ m !! id = Some data /\ m0 = delete id m) ->
  exists p b st', CBS_stow None None None sdallocx cbs out st = (Ok (p, match p with Some _ => zlen cbs | None => 0 end, b), st') /\
    match p with
    | None => holds st' m0 others /\ (b = true <-> cbs = [])
    | Some p => b = true /\ exists id, p = object id /\ m0 !! id = None /\ holds st' (<[id := cbs]> m0) others
    end.
Proof.
  intros H Hl Ho. unfold CBS_stow.
  assert (exists st1, OPENSSL_free None sdallocx out st = (Ok tt, st1) /\ holds st1 m0 others) as (st1 & E1 & H1).
  { destruct Ho as [[-> ->]|(id & data & -> & Hid & ->)]; [exists st; auto|].
    destruct (free_object sdallocx st m others id data H Hid) as (st1 & E1 & H1 & _). eauto. }
  rewrite (bind_Ok _ _ _ _ _ E1). destruct (Z.eqb_spec (zlen cbs) 0) as [Hz|Hz].
  { exists None, true, st1. split; [reflexivity|]. split; [exact H1|]. split; [|reflexivity]. intros _. apply nil_of_zlen, Hz. }
  destruct (memdup_object st1 m0 others cbs H1 Hl) as [(st2 & E2 & H2 & _)|(st2 & E2 & Hne & Hfr & H2 & _)]; rewrite (bind_Ok _ _ _ _ _ E2).
  - exists None, false, st2. split; [reflexivity|]. split; [exact H2|]. split; [discriminate|]. intros ->. contradiction Hz. reflexivity.
  - exists (Some (object (st_next st1))), true, st2. split; [reflexivity|]. split; [reflexivity|]. exists (st_next st1). auto.
Qed.
End copies.
