(* ===== verification/Cbs.v ===== *)
(** BoringSSL's byte-string reader: [CBS] of
    ios/Pods/BoringSSL-GRPC/src/crypto/bytestring/cbs.c, on which every
    certificate, key and handshake message of the TLS layer is parsed.  A
    [CBS] is a window on memory it does not own, so its value is the list of
    the bytes it still covers; every operation runs in the monad over it. *)
From Stdlib Require Import ZArith Lia Bool.
From coqutil Require Import Byte Word.LittleEndianList.
From stdpp Require Import base list numbers.
From S2P Require Import Prelude.
Local Open Scope Z_scope.
Local Open Scope c_scope.

Definition CBS : Type := list byte.
Notation R := (M CBS).

(** ** Bytes *)

(** The memory behind a pointer: its first [n] bytes, and its byte [i].  To read
    past its end, or to make a window or move a pointer past it, is undefined. *)
Definition bytes_at {S} (data : list byte) (n : Z) : M S (list byte) :=
  if n <=? zlen data then ret (ztake n data) else stuck.
Definition byte_at {S} (data : list byte) (i : Z) : M S byte :=
  if (0 <=? i) && (i <? zlen data) then ret (znth data i) else stuck.

Definition CBS_init {S} (data : list byte) (len : Z) : M S CBS := bytes_at data len.

Definition cbs_get (n : Z) : R (list byte) :=
  cbs <- get ;;
  if zlen cbs <? n then fail else
  p <- bytes_at cbs n ;; put (zdrop n cbs) ;; ret p.

Definition CBS_skip (len : Z) : R unit := cbs_get len ;; ret tt.
Definition CBS_data (cbs : CBS) : list byte := cbs.
Definition CBS_len (cbs : CBS) : Z := zlen cbs.

Definition CBS_contains_zero_byte (cbs : CBS) : bool := existsb (fun b => u8 b =? 0) cbs.

(** [CRYPTO_memcmp] folds the differences of all the bytes. *)
Definition CBS_mem_equal {S} (cbs : CBS) (data : list byte) (len : Z) : M S bool :=
  if negb (len =? zlen cbs) then ret false else
  data <- bytes_at data len ;;
  ret (foldl Z.lor 0 (zip_with (fun a b => Z.lxor (u8 a) (u8 b)) cbs data) =? 0).

Definition cbs_get_u (len : Z) : R Z :=
  data <- cbs_get len ;;
  data <- bytes_at data len ;;
  ret (foldl (fun result b => Z.lor (u64 (Z.shiftl result 8)) (u8 b)) 0 data).

Definition CBS_get_u8 : R byte := v <- cbs_get 1 ;; byte_at v 0.
Definition CBS_get_u16 : R Z := v <- cbs_get_u 2 ;; ret (u16 v).
Definition CBS_get_u24 : R Z := v <- cbs_get_u 3 ;; ret (u32 v).
Definition CBS_get_u32 : R Z := v <- cbs_get_u 4 ;; ret (u32 v).
Definition CBS_get_u64 : R Z := cbs_get_u 8.

(** [CRYPTO_bswap2], [4] and [8]: reverse the [n] bytes of a word. *)
Definition CRYPTO_bswap (n : nat) (x : Z) : Z := le_combine (be_split n x).

Definition CBS_get_u16le : R Z := v <- CBS_get_u16 ;; ret (CRYPTO_bswap 2 v).
Definition CBS_get_u32le : R Z := v <- CBS_get_u32 ;; ret (CRYPTO_bswap 4 v).
Definition CBS_get_u64le : R Z := v <- cbs_get_u 8 ;; ret (CRYPTO_bswap 8 v).

Definition CBS_get_last_u8 : R byte :=
  cbs <- get ;;
  if zlen cbs =? 0 then fail else
  b <- byte_at cbs (zlen cbs - 1) ;; put (ztake (zlen cbs - 1) cbs) ;; ret b.

Definition CBS_get_bytes (len : Z) : R CBS := v <- cbs_get len ;; CBS_init v len.
Definition CBS_copy_bytes (len : Z) : R (list byte) := v <- cbs_get len ;; bytes_at v len.

Definition cbs_get_length_prefixed (len_len : Z) : R CBS :=
  len <- cbs_get_u len_len ;; CBS_get_bytes len.
Definition CBS_get_u8_length_prefixed : R CBS := cbs_get_length_prefixed 1.
Definition CBS_get_u16_length_prefixed : R CBS := cbs_get_length_prefixed 2.
Definition CBS_get_u24_length_prefixed : R CBS := cbs_get_length_prefixed 3.

(** [OPENSSL_memchr(s, c, n) - s], when found. *)
Fixpoint memchr (c : byte) (s : list byte) : option Z :=
  match s with
  | [] => None
  | b :: s => if u8 b =? u8 c then Some 0 else option_map Z.succ (memchr c s)
  end.

Definition CBS_get_until_first (c : byte) : R CBS :=
  cbs <- get ;;
  match memchr c cbs with
  | None => fail
  | Some split => CBS_get_bytes split
  end.

(** ** ASN.1 headers *)

Notation CBS_ASN1_TAG_SHIFT := 24.
Definition CBS_ASN1_CONSTRUCTED : Z := Z.shiftl 0x20 CBS_ASN1_TAG_SHIFT.
Definition CBS_ASN1_CONTEXT_SPECIFIC : Z := Z.shiftl 0x80 CBS_ASN1_TAG_SHIFT.
Definition CBS_ASN1_CLASS_MASK : Z := Z.shiftl 0xc0 CBS_ASN1_TAG_SHIFT.
Definition CBS_ASN1_TAG_NUMBER_MASK : Z := Z.shiftl 1 (5 + CBS_ASN1_TAG_SHIFT) - 1.
Definition CBS_ASN1_BOOLEAN : Z := 0x1.
Definition CBS_ASN1_INTEGER : Z := 0x2.
Definition CBS_ASN1_BITSTRING : Z := 0x3.
Definition CBS_ASN1_OCTETSTRING : Z := 0x4.
Definition CBS_ASN1_OBJECT : Z := 0x6.
Definition CBS_ASN1_SEQUENCE : Z := Z.lor 0x10 CBS_ASN1_CONSTRUCTED.
Definition CBS_ASN1_SET : Z := Z.lor 0x11 CBS_ASN1_CONSTRUCTED.

(** The loop of [parse_base128_integer]; every turn consumes a byte. *)
Fixpoint base128_loop (fuel : nat) (v : Z) : R Z :=
  match fuel with
  | O => stuck
  | S fuel =>
      b <- CBS_get_u8 ;;
      if negb (Z.shiftr v (64 - 7) =? 0) then fail
      else if (v =? 0) && (u8 b =? 0x80) then fail
      else
        let v := Z.lor (u64 (Z.shiftl v 7)) (Z.land (u8 b) 0x7f) in
        if negb (Z.land (u8 b) 0x80 =? 0) then base128_loop fuel v else ret v
  end.

Definition parse_base128_integer : R Z :=
  cbs <- get ;; base128_loop (S (length cbs)) 0.

Definition parse_asn1_tag : R Z :=
  tag_byte <- CBS_get_u8 ;;
  let tag := u32 (Z.shiftl (Z.land (u8 tag_byte) 0xe0) CBS_ASN1_TAG_SHIFT) in
  let tag_number := Z.land (u8 tag_byte) 0x1f in
  if tag_number =? 0x1f then
    v <- parse_base128_integer ;;
    if (CBS_ASN1_TAG_NUMBER_MASK <? v) || (v <? 0x1f) then fail
    else ret (Z.lor tag (u32 v))
  else ret (Z.lor tag tag_number).

(** [( *out, *out_tag, *out_header_len, *out_ber_found)] *)
Definition cbs_get_any_asn1_element (ber_ok : bool) : R (CBS * Z * Z * bool) :=
  cbs <- get ;;
  '((tag, length_byte), header) <-
    local (tag <- parse_asn1_tag ;; length_byte <- CBS_get_u8 ;; ret (tag, length_byte)) cbs ;;
  let header_len := CBS_len cbs - CBS_len header in
  if Z.land (u8 length_byte) 0x80 =? 0 then
    let len := u64 (u8 length_byte + header_len) in
    out <- CBS_get_bytes len ;; ret (out, tag, header_len, false)
  else
    let num_bytes := Z.land (u8 length_byte) 0x7f in
    if ber_ok && negb (Z.land tag CBS_ASN1_CONSTRUCTED =? 0) && (num_bytes =? 0) then
      out <- CBS_get_bytes header_len ;; ret (out, tag, header_len, true)
    else if (num_bytes =? 0) || (4 <? num_bytes) then fail
    else
      '(len64, _) <- local (cbs_get_u num_bytes) header ;;
      let short := len64 <? 128 in
      let padded := Z.shiftr len64 ((num_bytes - 1) * 8) =? 0 in
      if negb ber_ok && (short || padded) then fail
      else if u64 (len64 + header_len + num_bytes) <? len64 then fail
      else
        let len := u64 (len64 + header_len + num_bytes) in
        out <- CBS_get_bytes len ;; ret (out, tag, header_len + num_bytes, short || padded).

Definition CBS_get_any_asn1_element : R (CBS * Z * Z) :=
  '(out, tag, header_len, _) <- cbs_get_any_asn1_element false ;; ret (out, tag, header_len).

Definition CBS_get_any_ber_asn1_element : R (CBS * Z * Z * bool) :=
  cbs_get_any_asn1_element true.

Definition CBS_get_any_asn1 : R (CBS * Z) :=
  '(out, tag, header_len) <- CBS_get_any_asn1_element ;;
  '(_, out) <- local (CBS_skip header_len) out ;;
  ret (out, tag).

Definition cbs_get_asn1 (tag_value : Z) (skip_header : bool) : R CBS :=
  '(out, tag, header_len) <- CBS_get_any_asn1_element ;;
  if negb (tag =? tag_value) then fail
  else if skip_header then '(_, out) <- local (CBS_skip header_len) out ;; ret out
  else ret out.

Definition CBS_get_asn1 (tag_value : Z) : R CBS := cbs_get_asn1 tag_value true.
Definition CBS_get_asn1_element (tag_value : Z) : R CBS := cbs_get_asn1 tag_value false.

Definition CBS_peek_asn1_tag (cbs : CBS) (tag_value : Z) : bool :=
  if CBS_len cbs <? 1 then false else
  match parse_asn1_tag cbs with
  | (Ok actual_tag, _) => tag_value =? actual_tag
  | _ => false
  end.

(** ** ASN.1 values *)

(** Whether the integer is valid, with [*out_is_negative]. *)
Definition CBS_is_valid_asn1_integer (cbs : CBS) : option bool :=
  match cbs with
  | [] => None
  | first_byte :: copy =>
      let is_negative := negb (Z.land (u8 first_byte) 0x80 =? 0) in
      match copy with
      | [] => Some is_negative
      | second_byte :: _ =>
          if ((u8 first_byte =? 0x00) && (Z.land (u8 second_byte) 0x80 =? 0))
             || ((u8 first_byte =? 0xff) && negb (Z.land (u8 second_byte) 0x80 =? 0))
          then None else Some is_negative
      end
  end.

Definition CBS_is_unsigned_asn1_integer (cbs : CBS) : bool :=
  match CBS_is_valid_asn1_integer cbs with Some is_negative => negb is_negative | None => false end.

(** The accumulation of [CBS_get_asn1_uint64], which stops on overflow. *)
Fixpoint uint64_loop (out : Z) (data : list byte) : option Z :=
  match data with
  | [] => Some out
  | b :: data =>
      if negb (Z.shiftr out 56 =? 0) then None
      else uint64_loop (Z.lor (u64 (Z.shiftl out 8)) (u8 b)) data
  end.

Definition CBS_get_asn1_uint64 : R Z :=
  bytes <- CBS_get_asn1 CBS_ASN1_INTEGER ;;
  if negb (CBS_is_unsigned_asn1_integer bytes) then fail else
  match uint64_loop 0 bytes with
  | None => fail
  | Some out => ret out
  end.

Definition CBS_get_asn1_int64 : R Z :=
  bytes <- CBS_get_asn1 CBS_ASN1_INTEGER ;;
  match CBS_is_valid_asn1_integer bytes with
  | None => fail
  | Some is_negative =>
      if 8 <? CBS_len bytes then fail else
      let u := repeat (if is_negative then Byte.xff else Byte.x00) 8 in
      let u := splice u 0 (rev bytes) in
      ret (sext 64 (le_combine u))
  end.

Definition CBS_get_asn1_bool : R Z :=
  bytes <- CBS_get_asn1 CBS_ASN1_BOOLEAN ;;
  if negb (CBS_len bytes =? 1) then fail else
  value <- byte_at bytes 0 ;;
  let value := u8 value in
  if negb (value =? 0) && negb (value =? 0xff) then fail
  else ret (if value =? 0 then 0 else 1).

(** [( *out, *out_present)]; [out] is meaningful when present. *)
Definition CBS_get_optional_asn1 (tag : Z) : R (option CBS) :=
  cbs <- get ;;
  if CBS_peek_asn1_tag cbs tag then out <- CBS_get_asn1 tag ;; ret (Some out) else ret None.

(** Run [m] on [child] and require that it uses it up. *)
Definition whole {A} (m : R A) (child : CBS) : R A :=
  '(a, child) <- local m child ;;
  if negb (CBS_len child =? 0) then fail else ret a.

Definition CBS_get_optional_asn1_octet_string (tag : Z) : R (CBS * bool) :=
  child <- CBS_get_optional_asn1 tag ;;
  match child with
  | Some child => out <- whole (CBS_get_asn1 CBS_ASN1_OCTETSTRING) child ;; ret (out, true)
  | None => ret ([], false)
  end.

Definition CBS_get_optional_asn1_uint64 (tag default_value : Z) : R Z :=
  child <- CBS_get_optional_asn1 tag ;;
  match child with
  | Some child => whole CBS_get_asn1_uint64 child
  | None => ret default_value
  end.

Definition CBS_get_optional_asn1_bool (tag default_value : Z) : R Z :=
  child <- CBS_get_optional_asn1 tag ;;
  match child with
  | Some child =>
      '(child2, child) <- local (CBS_get_asn1 CBS_ASN1_BOOLEAN) child ;;
      if negb (CBS_len child2 =? 1) || negb (CBS_len child =? 0) then fail else
      boolean <- byte_at child2 0 ;;
      let boolean := u8 boolean in
      if boolean =? 0 then ret 0 else if boolean =? 0xff then ret 1 else fail
  | None => ret default_value
  end.

Definition CBS_is_valid_asn1_bitstring {S} (cbs : CBS) : M S bool :=
  match cbs with
  | [] => ret false
  | num_unused_bits :: inn =>
      if 7 <? u8 num_unused_bits then ret false
      else if u8 num_unused_bits =? 0 then ret true
      else match CBS_get_last_u8 inn with
           | (Ok last, _) => ret (Z.land (u8 last) (Z.shiftl 1 (u8 num_unused_bits) - 1) =? 0)
           | (Fail, _) => ret false
           | (Stuck, _) => stuck
           end
  end.

Definition CBS_asn1_bitstring_has_bit {S} (cbs : CBS) (bit : Z) : M S bool :=
  valid <- CBS_is_valid_asn1_bitstring cbs ;;
  if negb valid then ret false else
  let byte_num := u32 (Z.shiftr bit 3 + 1) in
  let bit_num := 7 - Z.land bit 7 in
  if byte_num <? CBS_len cbs then
    b <- byte_at cbs byte_num ;; ret (negb (Z.land (u8 b) (Z.shiftl 1 bit_num) =? 0))
  else ret false.
