(* ===== verification/CbsSpec.v ===== *)
(** What the byte-string reader promises: every operation returns a prefix of
    the window and leaves the rest, the DER header parser accepts exactly the
    canonical headers, the BER parser extends it, and the ASN.1 value readers
    return the value the contents denote and refuse every other encoding. *)
From Stdlib Require Import ZArith Lia Bool.
From coqutil Require Import Byte Word.LittleEndianList.
From stdpp Require Import base list numbers.
From S2P Require Import Prelude Cbs.
Local Open Scope Z_scope.
Local Open Scope c_scope.

(** ** The reading interface *)

(** [m] takes exactly [bs] off the front of the window and returns [a]. *)
Class Reads {A} (m : R A) (bs : list byte) (a : A) : Prop :=
  reads : forall rest, m (bs ++ rest) = (Ok a, rest).

Lemma reads_ret {A} (a : A) : Reads (ret a) [] a.
Proof. intros rest. reflexivity. Qed.

Lemma reads_bind {A B} (m : R A) (k : A -> R B) bs1 bs2 a b :
  Reads m bs1 a -> Reads (k a) bs2 b -> Reads (bind m k) (bs1 ++ bs2) b.
Proof. intros H1 H2 rest. unfold bind. rewrite <- app_assoc, H1. apply H2. Qed.

Lemma reads_map {A B} (m : R A) (f : A -> B) bs a :
  Reads m bs a -> Reads (x <- m ;; ret (f x)) bs (f a).
Proof. intros H rest. unfold bind. rewrite H. reflexivity. Qed.

Lemma bytes_at_Ok {S} (data : list byte) n (s : S) : n <= zlen data -> bytes_at data n s = (Ok (ztake n data), s).
Proof. intros H. unfold bytes_at. rewrite (proj2 (Z.leb_le n (zlen data)) H). reflexivity. Qed.

Lemma byte_at_Ok {S} (data : list byte) i (s : S) : 0 <= i < zlen data -> byte_at data i s = (Ok (znth data i), s).
Proof.
  intros H. unfold byte_at. rewrite (proj2 (Z.leb_le 0 i)), (proj2 (Z.ltb_lt i (zlen data))) by lia. reflexivity.
Qed.

Lemma cbs_get_run n cbs : cbs_get n cbs = if zlen cbs <? n then (Fail, cbs) else (Ok (ztake n cbs), zdrop n cbs).
Proof.
  unfold cbs_get. rewrite bind_get. destruct (Z.ltb_spec (zlen cbs) n); [reflexivity|].
  unfold bind at 1. rewrite bytes_at_Ok by lia. reflexivity.
Qed.

Lemma cbs_get_reads n bs : n = zlen bs -> Reads (cbs_get n) bs bs.
Proof.
  intros -> rest. rewrite cbs_get_run. rewrite zlen_app. pose proof (zlen_nonneg rest).
  destruct (Z.ltb_spec (zlen bs + zlen rest) (zlen bs)); [lia|].
  rewrite ztake_app, zdrop_app by reflexivity. reflexivity.
Qed.

Lemma cbs_get_inv n cbs v cbs' :
  0 <= n -> cbs_get n cbs = (Ok v, cbs') -> cbs = v ++ cbs' /\ zlen v = n.
Proof.
  intros Hn. rewrite cbs_get_run. destruct (Z.ltb_spec (zlen cbs) n); intros [= <- <-].
  rewrite ztake_zdrop, zlen_ztake by lia. auto.
Qed.

(** A failed read leaves the window alone. *)
Lemma cbs_get_short n cbs : zlen cbs < n -> cbs_get n cbs = (Fail, cbs).
Proof. intros H. rewrite cbs_get_run. destruct (Z.ltb_spec (zlen cbs) n); [reflexivity | lia]. Qed.

Lemma CBS_get_u8_reads b : Reads CBS_get_u8 [b] b.
Proof. intros rest. unfold CBS_get_u8, bind. rewrite (cbs_get_reads 1 [b] eq_refl). reflexivity. Qed.

Lemma CBS_get_u8_cons b rest : CBS_get_u8 (b :: rest) = (Ok b, rest).
Proof. apply (CBS_get_u8_reads b rest). Qed.

Lemma CBS_get_u8_nil : CBS_get_u8 [] = (Fail, []).
Proof. reflexivity. Qed.

Lemma zlen_singleton {A} (l : list A) : zlen l = 1 -> exists x, l = [x].
Proof.
  unfold zlen. destruct l as [|x [|? ?]]; cbn [length]; [lia | eauto | lia].
Qed.

Lemma CBS_get_u8_inv cbs b cbs' : CBS_get_u8 cbs = (Ok b, cbs') -> cbs = b :: cbs'.
Proof. destruct cbs; [discriminate|]. rewrite CBS_get_u8_cons. intros [= <- <-]. reflexivity. Qed.

Lemma CBS_get_bytes_reads bs n : n = zlen bs -> Reads (CBS_get_bytes n) bs bs.
Proof.
  intros Hn rest. unfold CBS_get_bytes, bind. rewrite (cbs_get_reads n bs Hn). unfold CBS_init.
  rewrite bytes_at_Ok, ztake_all by (exact Hn || lia). reflexivity.
Qed.

Lemma CBS_get_bytes_inv n cbs v cbs' :
  0 <= n -> CBS_get_bytes n cbs = (Ok v, cbs') -> cbs = v ++ cbs' /\ zlen v = n.
Proof.
  intros Hn H. apply bind_inv in H as (w & s1 & H1 & H).
  apply cbs_get_inv in H1 as [-> Hw]; [|exact Hn]. unfold CBS_init in H. rewrite bytes_at_Ok, ztake_all in H by lia.
  injection H as <- <-. auto.
Qed.

(** The accumulation of a big-endian integer. *)
Lemma get_u_fold data : zlen data <= 8 ->
  foldl (fun result b => Z.lor (u64 (Z.shiftl result 8)) (u8 b)) 0 data = be_value data.
Proof.
  induction data as [|b data IH] using rev_ind; [reflexivity|].
  rewrite zlen_app, zlen_cons, zlen_nil. intros H. pose proof (zlen_nonneg data).
  rewrite foldl_app, IH, be_value_snoc by lia. cbn [foldl].
  pose proof (be_value_range data) as Hr. pose proof (u8_range b).
  rewrite wrap_small.
  - rewrite lor_shiftl_add by lia. reflexivity.
  - unfold in_word. rewrite Z.shiftl_mul_pow2 by lia.
    assert (2 ^ (8 * zlen data) * 2 ^ 8 <= 2 ^ 64)
      by (rewrite <- Z.pow_add_r by lia; apply Z.pow_le_mono_r; lia).
    lia.
Qed.

Lemma cbs_get_u_reads n bs : n = zlen bs -> n <= 8 -> Reads (cbs_get_u n) bs (be_value bs).
Proof.
  intros Hn Hl rest. unfold cbs_get_u, bind. rewrite (cbs_get_reads n bs Hn), bytes_at_Ok, ztake_all by lia. unfold ret.
  rewrite get_u_fold by lia. reflexivity.
Qed.

Lemma cbs_get_u_inv n cbs v cbs' :
  0 <= n <= 8 -> cbs_get_u n cbs = (Ok v, cbs') ->
  exists bs, cbs = bs ++ cbs' /\ zlen bs = n /\ v = be_value bs.
Proof.
  intros Hn H. apply bind_inv in H as (bs & s1 & H1 & H). apply cbs_get_inv in H1 as [-> Hl]; [|lia].
  unfold bind in H. rewrite bytes_at_Ok, ztake_all in H by lia. unfold ret in H. rewrite get_u_fold in H by lia. injection H as <- <-. eauto.
Qed.

(** ** Base-128 integers *)

Definition b128_value (acc : Z) (bs : list byte) : Z :=
  foldl (fun v b => v * 128 + u8 b mod 128) acc bs.

(** The minimal big-endian base-128 encoding of a 64-bit value. *)
Definition is_base128 (bs : list byte) (v : Z) : Prop :=
  exists hi lo, bs = hi ++ [lo] /\ Forall (fun b => 128 <= u8 b) hi /\ u8 lo < 128 /\
    head hi <> Some Byte.x80 /\ v = b128_value 0 bs /\ v < 2 ^ 64.

Lemma b128_value_ge acc bs : 0 <= acc -> acc <= b128_value acc bs.
Proof.
  revert acc; induction bs as [|b bs IH]; intros acc H; [cbn; lia|].
  change (b128_value acc (b :: bs)) with (b128_value (acc * 128 + u8 b mod 128) bs).
  pose proof (Z.mod_pos_bound (u8 b) 128 ltac:(lia)). specialize (IH (acc * 128 + u8 b mod 128)). lia.
Qed.

Lemma base128_step v b : 0 <= v < 2 ^ 57 ->
  Z.lor (u64 (Z.shiftl v 7)) (Z.land (u8 b) 0x7f) = v * 128 + u8 b mod 128.
Proof.
  intros H. change 0x7f with (2 ^ 7 - 1). rewrite land_ones_mod by lia.
  pose proof (Z.mod_pos_bound (u8 b) (2 ^ 7) ltac:(lia)).
  rewrite wrap_small by (unfold in_word; rewrite Z.shiftl_mul_pow2 by lia; lia).
  rewrite lor_shiftl_add by lia. reflexivity.
Qed.

Lemma shiftr_zero v k : 0 <= k -> 0 <= v -> (Z.shiftr v k =? 0) = (v <? 2 ^ k).
Proof.
  intros Hk Hv. rewrite shiftr_div by lia. pose proof (Z.pow_pos_nonneg 2 k ltac:(lia) ltac:(lia)).
  destruct (Z.ltb_spec v (2 ^ k)).
  - rewrite Z.div_small by lia. reflexivity.
  - pose proof (Z.div_str_pos v (2 ^ k) ltac:(lia)). apply Z.eqb_neq. lia.
Qed.

(** The top bit of a byte, as the C tests it. *)
Lemma cbs_land_128 b : negb (Z.land (u8 b) 0x80 =? 0) = (128 <=? u8 b).
Proof. destruct b; reflexivity. Qed.

Lemma u8_eqb b c : (u8 b =? u8 c) = true <-> b = c.
Proof. rewrite Z.eqb_eq. split; [apply u8_inj | congruence]. Qed.

Lemma base128_loop_sound fuel v0 cbs v cbs' :
  0 <= v0 -> base128_loop fuel v0 cbs = (Ok v, cbs') ->
  exists hi lo, cbs = (hi ++ [lo]) ++ cbs' /\ Forall (fun b => 128 <= u8 b) hi /\ u8 lo < 128 /\
    (v0 = 0 -> head hi <> Some Byte.x80) /\ v = b128_value v0 (hi ++ [lo]) /\ v < 2 ^ 64.
Proof.
  revert v0 cbs; induction fuel as [|fuel IH]; intros v0 cbs H0 H; [discriminate|].
  cbn [base128_loop] in H. apply bind_inv in H as (b & s1 & Hb & H).
  apply CBS_get_u8_inv in Hb as ->. rewrite shiftr_zero in H by lia.
  destruct (Z.ltb_spec v0 (2 ^ (64 - 7))); [|discriminate]. cbn [negb] in H.
  change (2 ^ (64 - 7)) with (2 ^ 57) in *.
  destruct ((v0 =? 0) && (u8 b =? 0x80)) eqn:Ez; [discriminate|].
  rewrite base128_step, cbs_land_128 in H by lia. pose proof (Z.mod_pos_bound (u8 b) 128 ltac:(lia)).
  destruct (Z.leb_spec 128 (u8 b)).
  - apply IH in H as (hi & lo & -> & Hhi & Hlo & _ & Hv & Hmax); [|lia].
    exists (b :: hi), lo. repeat split; auto.
    intros -> [= ->]. rewrite Z.eqb_refl in Ez. discriminate.
  - injection H as <- <-. exists [], b. repeat split; auto; try discriminate; cbn; lia.
Qed.

Lemma base128_loop_complete hi lo fuel v0 rest :
  0 <= v0 -> (length hi < fuel)%nat -> Forall (fun b => 128 <= u8 b) hi -> u8 lo < 128 ->
  (v0 = 0 -> head hi <> Some Byte.x80) -> b128_value v0 (hi ++ [lo]) < 2 ^ 64 ->
  base128_loop fuel v0 (hi ++ lo :: rest) = (Ok (b128_value v0 (hi ++ [lo])), rest).
Proof.
  revert v0 fuel; induction hi as [|b hi IH]; intros v0 fuel H0 Hf Hhi Hlo Hhd Hmax;
    (destruct fuel as [|fuel]; [cbn in Hf; lia|]); cbn [base128_loop app].
  - unfold bind. rewrite CBS_get_u8_cons. cbn in Hmax. pose proof (Z.mod_pos_bound (u8 lo) 128 ltac:(lia)).
    rewrite shiftr_zero by lia. change (2 ^ (64 - 7)) with (2 ^ 57).
    destruct (Z.ltb_spec v0 (2 ^ 57)); [|lia]. cbn [negb].
    destruct (Z.eqb_spec (u8 lo) 0x80); [lia|]. rewrite andb_false_r, base128_step, cbs_land_128 by lia.
    destruct (Z.leb_spec 128 (u8 lo)); [lia|]. reflexivity.
  - unfold bind. rewrite CBS_get_u8_cons. cbn [app] in Hmax.
    change (b128_value v0 (b :: hi ++ [lo])) with (b128_value (v0 * 128 + u8 b mod 128) (hi ++ [lo])) in *.
    pose proof (Z.mod_pos_bound (u8 b) 128 ltac:(lia)).
    pose proof (b128_value_ge (v0 * 128 + u8 b mod 128) (hi ++ [lo]) ltac:(lia)).
    rewrite shiftr_zero by lia. change (2 ^ (64 - 7)) with (2 ^ 57).
    destruct (Z.ltb_spec v0 (2 ^ 57)); [|lia]. cbn [negb].
    inversion_clear Hhi as [|? ? Hb Hhi'].
    destruct ((v0 =? 0) && (u8 b =? 0x80)) eqn:Ez.
    { apply andb_prop in Ez as [E1 E2]. apply Z.eqb_eq in E1. change 0x80 with (u8 Byte.x80) in E2.
      apply u8_eqb in E2 as ->. exfalso. apply (Hhd E1). reflexivity. }
    rewrite base128_step, cbs_land_128 by lia. destruct (Z.leb_spec 128 (u8 b)); [|lia].
    apply IH; auto; [lia | cbn in Hf; lia |]. intros E.
    exfalso. assert (u8 b = 128) by (rewrite (Z.mod_eq (u8 b) 128) in E by lia; pose proof (u8_range b); lia).
    assert (v0 = 0) by lia. apply (Hhd ltac:(assumption)). cbn. do 2 f_equal. apply u8_inj. assumption.
Qed.

(** [parse_base128_integer] accepts exactly the minimal encodings. *)
Lemma parse_base128_integer_iff cbs v cbs' :
  parse_base128_integer cbs = (Ok v, cbs') <-> exists bs, cbs = bs ++ cbs' /\ is_base128 bs v.
Proof.
  unfold parse_base128_integer. rewrite bind_get. split.
  - intros H. apply base128_loop_sound in H as (hi & lo & -> & H1 & H2 & H3 & H4 & H5); [|lia].
    exists (hi ++ [lo]). split; [reflexivity|]. exists hi, lo. auto 10.
  - intros (bs & -> & hi & lo & -> & H1 & H2 & H3 & -> & H5).
    rewrite <- app_assoc. cbn [app].
    apply base128_loop_complete; auto; [lia|]. rewrite length_app. lia.
Qed.

Lemma b128_value_pow acc bs : 0 <= acc -> acc * 128 ^ zlen bs <= b128_value acc bs.
Proof.
  revert acc; induction bs as [|b bs IH]; intros acc H.
  - rewrite zlen_nil. cbn. lia.
  - change (b128_value acc (b :: bs)) with (b128_value (acc * 128 + u8 b mod 128) bs).
    rewrite zlen_cons. pose proof (zlen_nonneg bs). rewrite Z.pow_add_r, Z.pow_1_r by lia.
    pose proof (Z.mod_pos_bound (u8 b) 128 ltac:(lia)). pose proof (Z.pow_pos_nonneg 128 (zlen bs) ltac:(lia) ltac:(lia)).
    specialize (IH (acc * 128 + u8 b mod 128) ltac:(lia)). nia.
Qed.

Lemma is_base128_length bs v : is_base128 bs v -> 1 <= zlen bs <= 10.
Proof.
  intros (hi & lo & -> & Hhi & Hlo & Hhd & -> & Hmax).
  rewrite zlen_app, zlen_cons, zlen_nil. pose proof (zlen_nonneg hi).
  destruct hi as [|b hi]; [rewrite zlen_nil; lia|].
  rewrite zlen_cons in *. pose proof (zlen_nonneg hi). cbn [app] in Hmax.
  change (b128_value 0 (b :: hi ++ [lo])) with (b128_value (u8 b mod 128) (hi ++ [lo])) in Hmax.
  pose proof (Z.mod_pos_bound (u8 b) 128 ltac:(lia)).
  assert (1 <= u8 b mod 128).
  { inversion_clear Hhi as [|? ? Hb _]. pose proof (u8_range b).
    assert (u8 b <> 128) by (intros E; apply Hhd; cbn; f_equal; apply u8_inj; exact E).
    rewrite <- (Z.mod_unique (u8 b) 128 1 (u8 b - 128)); lia. }
  pose proof (b128_value_pow (u8 b mod 128) (hi ++ [lo]) ltac:(lia)) as Hp.
  rewrite zlen_app, zlen_cons, zlen_nil in Hp.
  destruct (Z_le_dec (zlen hi) 8); [lia|]. exfalso.
  assert (2 ^ 70 <= 128 ^ (zlen hi + (1 + 0)))
    by (change (2 ^ 70) with (128 ^ 10); apply Z.pow_le_mono_r; lia).
  pose proof (Z.pow_lt_mono_r 2 64 70 ltac:(lia) ltac:(lia) ltac:(lia)). nia.
Qed.

(** ** Canonical headers *)

(** The identifier octets of a tag: low tag number form below 31, minimal
    base-128 above. *)
Inductive is_der_tag : list byte -> Z -> Prop :=
  | low_tag b :
      Z.land (u8 b) 0x1f <> 0x1f ->
      is_der_tag [b] (Z.lor (Z.shiftl (Z.land (u8 b) 0xe0) 24) (Z.land (u8 b) 0x1f))
  | high_tag b bs v :
      Z.land (u8 b) 0x1f = 0x1f -> is_base128 bs v -> 0x1f <= v < 2 ^ 29 ->
      is_der_tag (b :: bs) (Z.lor (Z.shiftl (Z.land (u8 b) 0xe0) 24) v).

(** The length octets: short form below 128, then the fewest bytes possible. *)
Inductive is_der_length : list byte -> Z -> Prop :=
  | short_length b : u8 b < 128 -> is_der_length [b] (u8 b)
  | long_length b bs :
      u8 b = 128 + zlen bs -> 1 <= zlen bs <= 4 -> 128 <= be_value bs ->
      2 ^ (8 * (zlen bs - 1)) <= be_value bs -> is_der_length (b :: bs) (be_value bs).

(** A complete element: header and contents. *)
Definition is_der_element (elem : list byte) (tag header_len : Z) (body : list byte) : Prop :=
  exists t l, elem = t ++ l ++ body /\ header_len = zlen t + zlen l /\
    is_der_tag t tag /\ is_der_length l (zlen body).

Lemma tag_class_word b : u32 (Z.shiftl (Z.land (u8 b) 0xe0) 24) = Z.shiftl (Z.land (u8 b) 0xe0) 24.
Proof. destruct b; reflexivity. Qed.

Lemma parse_asn1_tag_iff cbs tag cbs' :
  parse_asn1_tag cbs = (Ok tag, cbs') <-> exists t, cbs = t ++ cbs' /\ is_der_tag t tag.
Proof.
  split.
  - intros H. apply bind_inv in H as (b & s1 & Hb & H). apply CBS_get_u8_inv in Hb as ->.
    cbv zeta in H. rewrite tag_class_word in H.
    destruct (Z.eqb_spec (Z.land (u8 b) 0x1f) 0x1f).
    + apply bind_inv in H as (v & s2 & Hv & H). apply parse_base128_integer_iff in Hv as (bs & -> & Hv).
      destruct (_ || _) eqn:E; [discriminate|]. apply orb_false_iff in E as [E1 E2].
      change CBS_ASN1_TAG_NUMBER_MASK with (2 ^ 29 - 1) in E1. zbool.
      rewrite wrap_small in H by (unfold in_word; lia). injection H as <- <-.
      exists (b :: bs). split; [reflexivity|]. apply high_tag; auto. lia.
    + injection H as <- <-. exists [b]. split; [reflexivity|]. apply low_tag. assumption.
  - intros (t & -> & Ht). destruct Ht as [b Hb | b bs v Hb Hv Hr]; unfold parse_asn1_tag, bind.
    + cbn [app]. rewrite CBS_get_u8_cons, tag_class_word. destruct (Z.eqb_spec (Z.land (u8 b) 0x1f) 0x1f); [contradiction|].
      reflexivity.
    + cbn [app]. rewrite CBS_get_u8_cons, tag_class_word, Hb. cbn [Z.eqb Pos.eqb].
      assert (parse_base128_integer (bs ++ cbs') = (Ok v, cbs')) as -> by (apply parse_base128_integer_iff; eauto).
      change CBS_ASN1_TAG_NUMBER_MASK with (2 ^ 29 - 1).
      destruct (Z.ltb_spec (2 ^ 29 - 1) v); [lia|]. destruct (Z.ltb_spec v 0x1f); [lia|].
      rewrite wrap_small by (unfold in_word; lia). reflexivity.
Qed.

Lemma is_der_tag_length t tag : is_der_tag t tag -> 1 <= zlen t <= 11.
Proof.
  intros [b _ | b bs v _ H _]; rewrite zlen_cons; [rewrite zlen_nil; lia|].
  apply is_base128_length in H. lia.
Qed.

(** The whole header, as [cbs_get_any_asn1_element] first reads it. *)
Lemma header_run_iff cbs tag length_byte header :
  (tag <- parse_asn1_tag ;; length_byte <- CBS_get_u8 ;; ret (tag, length_byte)) cbs
  = (Ok (tag, length_byte), header)
  <-> exists t, cbs = t ++ length_byte :: header /\ is_der_tag t tag.
Proof.
  split.
  - intros H. apply bind_inv in H as (tag' & s1 & H1 & H). apply bind_inv in H as (b & s2 & H2 & H).
    injection H as -> -> ->. apply CBS_get_u8_inv in H2 as ->. apply parse_asn1_tag_iff in H1. exact H1.
  - intros Ht. apply parse_asn1_tag_iff in Ht. erewrite bind_Ok by exact Ht.
    unfold bind. rewrite CBS_get_u8_cons. reflexivity.
Qed.

Lemma local_inv {S S' A} (m : M S' A) s' (s : S) r s1 :
  local m s' s = (Ok r, s1) -> m s' = (Ok (fst r), snd r) /\ s1 = s.
Proof. unfold local. destruct (m s') as [[a| |] s2]; intros [= <- <-]; auto. Qed.

Lemma local_Ok {S S' A} (m : M S' A) s' (s : S) a s2 :
  m s' = (Ok a, s2) -> local m s' s = (Ok (a, s2), s).
Proof. intros H. unfold local. rewrite H. reflexivity. Qed.

(** [cbs_get_any_asn1_element] after the identifier and the first length octet. *)
Definition element_tail (ber_ok : bool) (tag header_len : Z) (b : byte) (header : CBS) : R (CBS * Z * Z * bool) :=
  if u8 b <? 128 then out <- CBS_get_bytes (u8 b + header_len) ;; ret (out, tag, header_len, false)
  else
    let n := u8 b - 128 in
    if ber_ok && negb (Z.land tag CBS_ASN1_CONSTRUCTED =? 0) && (n =? 0)
    then out <- CBS_get_bytes header_len ;; ret (out, tag, header_len, true)
    else if (n =? 0) || (4 <? n) || (zlen header <? n) then fail
    else
      let len := be_value (ztake n header) in
      let long := (len <? 128) || (len <? 2 ^ (8 * (n - 1))) in
      if negb ber_ok && long then fail
      else out <- CBS_get_bytes (len + header_len + n) ;; ret (out, tag, header_len + n, long).

Lemma land_7f b : 128 <= u8 b -> Z.land (u8 b) 0x7f = u8 b - 128.
Proof.
  intros H. pose proof (u8_range b). change 0x7f with (2 ^ 7 - 1). rewrite land_ones_mod by lia.
  symmetry. apply Z.mod_unique with (q := 1); lia.
Qed.

Lemma element_run ber_ok t tag b header :
  is_der_tag t tag ->
  cbs_get_any_asn1_element ber_ok (t ++ b :: header)
  = element_tail ber_ok tag (zlen t + 1) b header (t ++ b :: header).
Proof.
  intros Ht. pose proof (is_der_tag_length t tag Ht). pose proof (u8_range b).
  unfold cbs_get_any_asn1_element. rewrite bind_get.
  erewrite bind_Ok by (apply local_Ok, header_run_iff; eauto). cbv beta iota zeta.
  unfold CBS_len. rewrite zlen_app, zlen_cons.
  replace (zlen t + (1 + zlen header) - zlen header) with (zlen t + 1) by lia.
  unfold element_tail. pose proof (cbs_land_128 b) as Hb.
  destruct (Z.leb_spec 128 (u8 b)); destruct (Z.ltb_spec (u8 b) 128); try lia.
  - apply negb_true_iff in Hb. rewrite Hb, land_7f by lia.
    destruct (_ && _ && _); [reflexivity|].
    destruct (Z.eqb_spec (u8 b - 128) 0); cbn [orb]; [reflexivity|].
    destruct (Z.ltb_spec 4 (u8 b - 128)); cbn [orb]; [reflexivity|].
    set (nb := u8 b - 128) in *. unfold bind, local.
    destruct (Z.ltb_spec (zlen header) nb) as [Hs|Hs].
    { unfold cbs_get_u, bind. rewrite cbs_get_short by exact Hs. reflexivity. }
    rewrite <- (ztake_zdrop header nb) at 1.
    rewrite (cbs_get_u_reads nb (ztake nb header)) by (rewrite ?zlen_ztake; lia). cbv beta iota zeta.
    pose proof (be_value_range (ztake nb header)) as Hr. rewrite zlen_ztake in Hr by lia.
    assert (2 ^ (8 * nb) <= 2 ^ 32) by (apply Z.pow_le_mono_r; lia).
    rewrite shiftr_zero by lia. rewrite (Z.mul_comm (nb - 1) 8).
    rewrite wrap_small by (unfold in_word; lia).
    destruct (negb ber_ok && _); [reflexivity|].
    destruct (Z.ltb_spec (be_value (ztake nb header) + (zlen t + 1) + nb) (be_value (ztake nb header))); [lia|].
    reflexivity.
  - apply negb_false_iff in Hb. rewrite Hb, wrap_small by (unfold in_word; lia). reflexivity.
Qed.

(** A run that succeeds found a tag and a length octet. *)
Lemma element_run_inv ber_ok cbs r cbs' :
  cbs_get_any_asn1_element ber_ok cbs = (Ok r, cbs') ->
  exists t tag b header, cbs = t ++ b :: header /\ is_der_tag t tag.
Proof.
  unfold cbs_get_any_asn1_element. rewrite bind_get. intros H.
  apply bind_inv in H as ([[tag b] header] & s1 & H & _).
  apply local_inv in H as [H _]. cbn in H. apply header_run_iff in H as (t & -> & Ht). eauto 6.
Qed.

Lemma ztake_snoc_split {A} n (l : list A) : 0 <= n <= zlen l -> zlen (ztake n l) = n /\ l = ztake n l ++ zdrop n l.
Proof. intros H. rewrite zlen_ztake, ztake_zdrop by exact H. auto. Qed.

(** Splitting the bytes taken after a known header. *)
Lemma get_after_header h header n out rest :
  zlen h <= n -> CBS_get_bytes n (h ++ header) = (Ok out, rest) ->
  exists body, out = h ++ body /\ header = body ++ rest /\ zlen body = n - zlen h.
Proof.
  intros Hn H. pose proof (zlen_nonneg h). apply CBS_get_bytes_inv in H as [E Hl]; [|lia].
  apply app_eq_app in E as (k & [[-> ->] | [-> ->]]).
  - rewrite zlen_app in Hn. pose proof (zlen_nonneg k).
    assert (zlen k = 0) as Hk by lia. destruct k; [|rewrite zlen_cons in Hk; pose proof (zlen_nonneg k); lia].
    exists []. rewrite !app_nil_r. rewrite zlen_nil in *. repeat split; cbn; lia.
  - exists k. rewrite zlen_app in Hl. repeat split; lia.
Qed.

Lemma der_element_iff cbs out tag header_len ber rest :
  cbs_get_any_asn1_element false cbs = (Ok (out, tag, header_len, ber), rest)
  <-> ber = false /\ cbs = out ++ rest /\ exists body, is_der_element out tag header_len body.
Proof.
  split.
  - intros H. destruct (element_run_inv _ _ _ _ H) as (t & tag' & b & header & -> & Ht).
    rewrite (element_run _ _ _ _ _ Ht) in H. pose proof (is_der_tag_length _ _ Ht).
    pose proof (u8_range b). unfold element_tail in H. cbn [negb andb] in H.
    change (t ++ b :: header) with (t ++ [b] ++ header) in *. rewrite app_assoc in *.
    assert (Hh : zlen (t ++ [b]) = zlen t + 1) by (rewrite zlen_app, zlen_cons, zlen_nil; lia).
    destruct (Z.ltb_spec (u8 b) 128).
    + apply bind_inv in H as (o & s & Ho & H). injection H as <- <- <- <- <-.
      apply get_after_header in Ho as (body & -> & -> & Hb); [|lia].
      split; [reflexivity|]. split; [rewrite app_assoc; reflexivity|].
      exists body, t, [b].
      split; [rewrite <- app_assoc; reflexivity|].
      split; [rewrite zlen_cons, zlen_nil; lia|]. split; [assumption|].
      replace (zlen body) with (u8 b) by lia. constructor. assumption.
    + set (nb := u8 b - 128) in *. destruct (_ || _ || _) eqn:E; [discriminate|].
      apply orb_false_iff in E as [E E3]. apply orb_false_iff in E as [E1 E2]. zbool.
      destruct (_ || _) eqn:E4; [discriminate|]. apply orb_false_iff in E4 as [E4 E5]. zbool.
      apply bind_inv in H as (o & s & Ho & H). injection H as <- <- <- <- <-.
      destruct (ztake_snoc_split nb header ltac:(lia)) as [Hl Hsplit].
      set (lb := ztake nb header) in *. rewrite Hsplit in Ho. rewrite app_assoc in Ho.
      assert (Hh2 : zlen ((t ++ [b]) ++ lb) = zlen t + 1 + nb) by (rewrite zlen_app; lia).
      pose proof (be_value_range lb).
      apply get_after_header in Ho as (body & -> & Hrest & Hb); [|lia].
      split; [reflexivity|]. rewrite Hsplit, Hrest. split; [rewrite <- !app_assoc; reflexivity|].
      exists body, t, (b :: lb).
      split; [rewrite <- !app_assoc; reflexivity|].
      split; [rewrite zlen_cons; lia|]. split; [assumption|].
      replace (zlen body) with (be_value lb) by lia. constructor; rewrite ?Hl; lia.
  - intros (-> & -> & body & t & l & -> & -> & Ht & Hl). pose proof (is_der_tag_length _ _ Ht).
    pose proof (zlen_nonneg body). pose proof (zlen_nonneg rest).
    remember (zlen body) as len eqn:Hlen. destruct Hl as [b Hb | b lb Hb Hn Hv1 Hv2].
    + rewrite <- !app_assoc. cbn [app]. rewrite (element_run _ _ _ _ _ Ht). unfold element_tail.
      destruct (Z.ltb_spec (u8 b) 128); [|lia]. unfold bind.
      change (t ++ b :: body ++ rest) with (t ++ ([b] ++ body) ++ rest). rewrite app_assoc.
      rewrite CBS_get_bytes_reads by (rewrite !zlen_app, zlen_cons, zlen_nil; lia). reflexivity.
    + rewrite <- !app_assoc. cbn [app]. rewrite (element_run _ _ _ _ _ Ht). unfold element_tail.
      destruct (Z.ltb_spec (u8 b) 128); [lia|]. cbn [andb negb].
      replace (u8 b - 128) with (zlen lb) by lia. rewrite ztake_app, zlen_app by reflexivity.
      pose proof (zlen_nonneg (body ++ rest)).
      destruct (Z.eqb_spec (zlen lb) 0); [lia|]. destruct (Z.ltb_spec 4 (zlen lb)); [lia|].
      destruct (Z.ltb_spec (zlen lb + zlen (body ++ rest)) (zlen lb)); [lia|]. cbn [orb].
      destruct (Z.ltb_spec (be_value lb) 128); [lia|].
      destruct (Z.ltb_spec (be_value lb) (2 ^ (8 * (zlen lb - 1)))); [lia|]. cbn [orb]. unfold bind.
      change (t ++ b :: lb ++ body ++ rest) with (t ++ ([b] ++ lb ++ body ++ rest)).
      replace (t ++ [b] ++ lb ++ body ++ rest) with ((t ++ [b] ++ lb ++ body) ++ rest)
        by (rewrite <- !app_assoc; reflexivity).
      rewrite CBS_get_bytes_reads by (rewrite !zlen_app, zlen_cons, zlen_nil; lia).
      unfold ret. rewrite zlen_cons.
      replace (zlen t + 1 + zlen lb) with (zlen t + (1 + zlen lb)) by lia. reflexivity.
Qed.

Lemma CBS_get_any_asn1_element_iff cbs out tag header_len rest :
  CBS_get_any_asn1_element cbs = (Ok (out, tag, header_len), rest)
  <-> cbs = out ++ rest /\ exists body, is_der_element out tag header_len body.
Proof.
  unfold CBS_get_any_asn1_element. split.
  - intros H. apply bind_inv in H as ([[[o t] h] ber] & s & H1 & H). injection H as <- <- <- <-.
    apply der_element_iff in H1 as (_ & H). exact H.
  - intros H. unfold bind. assert (cbs_get_any_asn1_element false cbs = (Ok (out, tag, header_len, false), rest)) as ->;
      [apply der_element_iff; auto | reflexivity].
Qed.

(** Skipping the header of an element leaves its contents. *)
Lemma CBS_skip_header elem tag header_len body :
  is_der_element elem tag header_len body -> CBS_skip header_len elem = (Ok tt, body).
Proof.
  intros (t & l & -> & -> & _). unfold CBS_skip, bind. rewrite app_assoc.
  rewrite (cbs_get_reads _ (t ++ l)) by (rewrite zlen_app; reflexivity). reflexivity.
Qed.

Lemma CBS_get_any_asn1_iff cbs body tag rest :
  CBS_get_any_asn1 cbs = (Ok (body, tag), rest)
  <-> exists elem header_len, cbs = elem ++ rest /\ is_der_element elem tag header_len body.
Proof.
  unfold CBS_get_any_asn1. split.
  - intros H. apply bind_inv in H as ([[o t] h] & s & H1 & H).
    apply CBS_get_any_asn1_element_iff in H1 as (-> & body' & He).
    apply bind_inv in H as ([u b] & s2 & H2 & H). apply local_inv in H2 as [H2 ->].
    rewrite (CBS_skip_header _ _ _ _ He) in H2. cbn in H2. injection H2 as <- <-.
    injection H as <- <- <-. eauto.
  - intros (elem & h & -> & He). erewrite bind_Ok by (apply CBS_get_any_asn1_element_iff; eauto).
    cbv beta iota. erewrite bind_Ok by (eapply local_Ok, CBS_skip_header, He). reflexivity.
Qed.

(** [CBS_get_asn1] with the tag it is asked for. *)
Lemma CBS_get_asn1_iff cbs tag body rest :
  CBS_get_asn1 tag cbs = (Ok body, rest)
  <-> exists elem header_len, cbs = elem ++ rest /\ is_der_element elem tag header_len body.
Proof.
  unfold CBS_get_asn1, cbs_get_asn1. split.
  - intros H. apply bind_inv in H as ([[o t] h] & s & H1 & H).
    destruct (Z.eqb_spec t tag) as [->|]; [|discriminate]. cbn [negb] in H.
    apply CBS_get_any_asn1_element_iff in H1 as (-> & body' & He).
    apply bind_inv in H as ([u b] & s2 & H2 & H). apply local_inv in H2 as [H2 ->].
    rewrite (CBS_skip_header _ _ _ _ He) in H2. cbn in H2. injection H2 as <- <-.
    injection H as <- <-. eauto.
  - intros (elem & h & -> & He). erewrite bind_Ok by (apply CBS_get_any_asn1_element_iff; eauto).
    cbv beta iota. rewrite Z.eqb_refl. cbn [negb].
    erewrite bind_Ok by (eapply local_Ok, CBS_skip_header, He). reflexivity.
Qed.

(** ** Integers *)

(** The two's complement value of the contents of an INTEGER. *)
Definition int_value (body : list byte) : Z := sext (8 * zlen body) (be_value body).

(** The contents are minimal: no shorter string has the same value. *)
Definition is_der_integer (body : list byte) : Prop :=
  body <> [] /\
  (zlen body = 1 \/
   ~ (- 2 ^ (8 * (zlen body - 1) - 1) <= int_value body < 2 ^ (8 * (zlen body - 1) - 1))).

Lemma int_value_cons b body : int_value (b :: body) =
  (if 128 <=? u8 b then u8 b - 256 else u8 b) * 2 ^ (8 * zlen body) + be_value body.
Proof.
  unfold int_value, sext. pose proof (be_value_range (b :: body)) as Hr.
  rewrite wrap_small by exact Hr. rewrite be_value_cons, zlen_cons in *.
  pose proof (zlen_nonneg body). pose proof (be_value_range body). pose proof (u8_range b).
  replace (8 * (1 + zlen body) - 1) with (8 * zlen body + 7) by lia.
  replace (8 * (1 + zlen body)) with (8 * zlen body + 8) by lia.
  rewrite !(Z.pow_add_r 2 (8 * zlen body)) by lia. change (2 ^ 7) with 128. change (2 ^ 8) with 256.
  pose proof (Z.pow_pos_nonneg 2 (8 * zlen body) ltac:(lia) ltac:(lia)).
  set (Q := 2 ^ (8 * zlen body)) in *. clearbody Q.
  destruct (Z.leb_spec 128 (u8 b)); destruct (Z.ltb_spec (u8 b * Q + be_value body) (Q * 128)); nia.
Qed.

Lemma first_bit b : (Z.land (u8 b) 0x80 =? 0) = (u8 b <? 128).
Proof. destruct b; reflexivity. Qed.

Lemma CBS_is_valid_asn1_integer_iff body neg :
  CBS_is_valid_asn1_integer body = Some neg
  <-> is_der_integer body /\ neg = (int_value body <? 0).
Proof.
  unfold is_der_integer. destruct body as [|b [|c body]].
  - split; [discriminate | intros [[H _] _]; contradiction].
  - cbn [CBS_is_valid_asn1_integer]. rewrite first_bit, int_value_cons, be_value_nil. pose proof (u8_range b).
    change (2 ^ (8 * zlen (@nil byte))) with 1.
    assert (negb (u8 b <? 128) = ((if 128 <=? u8 b then u8 b - 256 else u8 b) * 1 + 0 <? 0)) as ->.
    { destruct (Z.ltb_spec (u8 b) 128); destruct (Z.leb_spec 128 (u8 b)); try lia; cbn [negb]; symmetry;
      first [apply Z.ltb_ge; lia | apply Z.ltb_lt; lia]. }
    split; [intros [= <-] | intros [_ ->]; reflexivity].
    split; [split; [discriminate | left; reflexivity] | reflexivity].
  - cbn [CBS_is_valid_asn1_integer]. rewrite !first_bit.
    pose proof (u8_range b). pose proof (u8_range c).
    assert (Hc : be_value (c :: body) < 2 ^ (8 * zlen (c :: body) - 1) <-> u8 c < 128).
    { rewrite be_value_cons, zlen_cons. pose proof (be_value_range body). pose proof (zlen_nonneg body).
      replace (8 * (1 + zlen body) - 1) with (8 * zlen body + 7) by lia.
      rewrite Z.pow_add_r by lia. change (2 ^ 7) with 128. nia. }
    pose proof (be_value_range (c :: body)) as Hr. rewrite int_value_cons.
    rewrite (zlen_cons b). pose proof (zlen_nonneg body).
    assert (Hpow : 2 ^ (8 * zlen (c :: body)) = 2 * 2 ^ (8 * zlen (c :: body) - 1)).
    { rewrite zlen_cons, <- Z.pow_succ_r by lia. f_equal. lia. }
    rewrite Hpow in *. replace (8 * (1 + zlen (c :: body) - 1) - 1) with (8 * zlen (c :: body) - 1) by lia.
    pose proof (Z.pow_pos_nonneg 2 (8 * zlen (c :: body) - 1) ltac:(lia) ltac:(rewrite zlen_cons; lia)).
    assert (Hone : 1 + zlen (c :: body) <> 1) by (rewrite zlen_cons; lia).
    set (Q := 2 ^ (8 * zlen (c :: body) - 1)) in *. set (V := be_value (c :: body)) in *.
    set (n := zlen (c :: body)) in *. clearbody Q V n.
    set (x := (if 128 <=? u8 b then u8 b - 256 else u8 b) * (2 * Q) + V) in *.
    assert (Hneg : negb (u8 b <? 128) = (x <? 0)).
    { subst x. destruct (Z.ltb_spec (u8 b) 128); destruct (Z.leb_spec 128 (u8 b)); try lia; cbn [negb]; symmetry;
      first [apply Z.ltb_ge; nia | apply Z.ltb_lt; nia]. }
    assert (Hfit : (u8 b =? 0) && (u8 c <? 128) || (u8 b =? 0xff) && negb (u8 c <? 128) = true
                   <-> - Q <= x < Q).
    { subst x. destruct (Z.eqb_spec (u8 b) 0); destruct (Z.eqb_spec (u8 b) 0xff);
        destruct (Z.ltb_spec (u8 c) 128); destruct (Z.leb_spec 128 (u8 b)); try lia; cbn [andb orb negb];
        (split; [intros; try discriminate | intros; try reflexivity; exfalso]); nia. }
    rewrite Hneg. destruct (_ || _).
    + split; [discriminate|]. intros [[_ [?|Hn]] _]; [contradiction|].
      exfalso. apply Hn, Hfit. reflexivity.
    + split; [intros [= <-] | intros [_ ->]; reflexivity].
      split; [|reflexivity]. split; [discriminate|]. right. intros Hf. apply Hfit in Hf. discriminate.
Qed.

(** The unsigned and the signed value agree on non-negative contents. *)
Lemma int_value_nonneg body : 0 <= int_value body -> int_value body = be_value body.
Proof.
  intros H. destruct body as [|b body]; [exfalso; apply H; reflexivity|]. rewrite int_value_cons in *. rewrite be_value_cons.
  destruct (Z.leb_spec 128 (u8 b)); [|reflexivity]. exfalso.
  pose proof (be_value_range body). pose proof (u8_range b). nia.
Qed.

Lemma CBS_is_unsigned_iff body :
  CBS_is_unsigned_asn1_integer body = true <-> is_der_integer body /\ 0 <= int_value body.
Proof.
  unfold CBS_is_unsigned_asn1_integer. split.
  - destruct (CBS_is_valid_asn1_integer body) as [neg|] eqn:E; [|discriminate].
    intros H. apply negb_true_iff in H. subst neg. apply CBS_is_valid_asn1_integer_iff in E as [H E].
    split; [exact H|]. symmetry in E. zbool. exact E.
  - intros [H1 H2]. assert (CBS_is_valid_asn1_integer body = Some false) as ->; [|reflexivity].
    apply CBS_is_valid_asn1_integer_iff. split; [exact H1|]. symmetry. apply Z.ltb_ge, H2.
Qed.

Lemma uint64_loop_spec data acc :
  0 <= acc < 2 ^ 64 ->
  uint64_loop acc data =
    (let v := acc * 2 ^ (8 * zlen data) + be_value data in if v <? 2 ^ 64 then Some v else None).
Proof.
  revert acc; induction data as [|b data IH]; intros acc H; cbn [uint64_loop]; cbv zeta.
  - rewrite be_value_nil. change (2 ^ (8 * zlen (@nil byte))) with 1. rewrite Z.mul_1_r, Z.add_0_r.
    destruct (Z.ltb_spec acc (2 ^ 64)); [reflexivity | lia].
  - rewrite shiftr_zero by lia. pose proof (zlen_nonneg data). pose proof (u8_range b).
    pose proof (be_value_range data). rewrite be_value_cons, zlen_cons.
    replace (8 * (1 + zlen data)) with (8 * zlen data + 8) by lia. rewrite Z.pow_add_r by lia. change (2 ^ 8) with 256.
    pose proof (Z.pow_pos_nonneg 2 (8 * zlen data) ltac:(lia) ltac:(lia)). set (Q := 2 ^ (8 * zlen data)) in *.
    destruct (Z.ltb_spec acc (2 ^ 56)); cbn [negb].
    + rewrite wrap_small by (unfold in_word; rewrite Z.shiftl_mul_pow2 by lia; lia).
      rewrite lor_shiftl_add by lia. change (2 ^ 8) with 256. rewrite IH by lia. cbv zeta. fold Q.
      replace ((acc * 256 + u8 b) * Q + be_value data) with (acc * (Q * 256) + (u8 b * Q + be_value data)) by ring.
      reflexivity.
    + destruct (Z.ltb_spec (acc * (Q * 256) + (u8 b * Q + be_value data)) (2 ^ 64)); [nia | reflexivity].
Qed.

(** Contents of an element with a given universal tag. *)
Definition der_value (tag : Z) (cbs body rest : list byte) : Prop :=
  exists elem header_len, cbs = elem ++ rest /\ is_der_element elem tag header_len body.

Lemma CBS_get_asn1_uint64_iff cbs v rest :
  CBS_get_asn1_uint64 cbs = (Ok v, rest)
  <-> exists body, der_value CBS_ASN1_INTEGER cbs body rest /\ is_der_integer body
                   /\ v = int_value body /\ 0 <= v < 2 ^ 64.
Proof.
  unfold CBS_get_asn1_uint64. split.
  - intros H. apply bind_inv in H as (body & s & H1 & H). apply CBS_get_asn1_iff in H1.
    destruct (CBS_is_unsigned_asn1_integer body) eqn:E; [|discriminate]. cbn [negb] in H.
    apply CBS_is_unsigned_iff in E as [Ei E0]. rewrite uint64_loop_spec in H by lia. cbv zeta in H.
    rewrite Z.mul_0_l, Z.add_0_l in H. destruct (Z.ltb_spec (be_value body) (2 ^ 64)); [|discriminate].
    injection H as <- <-. exists body. pose proof (int_value_nonneg body E0).
    split; [exact H1|]. split; [exact Ei|]. lia.
  - intros (body & H1 & H2 & -> & H3). erewrite bind_Ok by (apply CBS_get_asn1_iff, H1).
    assert (CBS_is_unsigned_asn1_integer body = true) as -> by (apply CBS_is_unsigned_iff; split; [assumption | lia]).
    cbn [negb]. rewrite uint64_loop_spec by lia. cbv zeta. rewrite Z.mul_0_l, Z.add_0_l.
    rewrite <- int_value_nonneg by lia. destruct (Z.ltb_spec (int_value body) (2 ^ 64)); [reflexivity | lia].
Qed.

Lemma le_combine_ff n : le_combine (repeat Byte.xff n) = 2 ^ (8 * Z.of_nat n) - 1.
Proof.
  induction n as [|n IH]; [reflexivity|].
  change (le_combine (repeat Byte.xff (S n))) with (Z.lor (u8 Byte.xff) (Z.shiftl (le_combine (repeat Byte.xff n)) 8)).
  rewrite IH, Z.lor_comm, lor_shiftl_add by (change (u8 Byte.xff) with 255; lia).
  change (u8 Byte.xff) with 255. replace (8 * Z.of_nat (S n)) with (8 * Z.of_nat n + 8) by lia.
  rewrite Z.pow_add_r by lia. lia.
Qed.

(** The union of [CBS_get_asn1_int64]: sign bytes overwritten from below. *)
Lemma sign_extended body :
  0 < zlen body <= 8 ->
  let u := repeat (if int_value body <? 0 then Byte.xff else Byte.x00) 8 in
  sext 64 (le_combine (splice u 0 (rev body))) = int_value body.
Proof.
  intros Hl u. subst u. unfold splice. rewrite Z.add_0_l.
  assert (Hr : zlen (rev body) = zlen body) by (unfold zlen; rewrite length_rev; reflexivity).
  rewrite Hr. change (ztake 0 ?l) with (@nil byte). cbn [app].
  set (f := if _ : bool then _ else _).
  assert (zdrop (zlen body) (repeat f 8) = repeat f (8 - length body)) as ->.
  { unfold zdrop, zlen. rewrite Nat2Z.id. unfold zlen in Hl.
    generalize (length body) as n. intros n. do 9 (destruct n as [|n]; [reflexivity|]). reflexivity. }
  rewrite le_combine_app, length_rev. fold (be_value body).
  pose proof (be_value_range body) as Hb. unfold zlen in Hl, Hb. set (n := length body) in *.
  rewrite (Z.mul_comm (Z.of_nat n) 8), Z.lor_comm, lor_shiftl_add by lia.
  assert (Hpow : 2 ^ (8 * Z.of_nat (8 - n)) * 2 ^ (8 * Z.of_nat n) = 2 ^ 64).
  { rewrite <- Z.pow_add_r by lia. f_equal. lia. }
  assert (Hiv : int_value body = if int_value body <? 0 then be_value body - 2 ^ (8 * Z.of_nat n) else be_value body).
  { destruct (Z.ltb_spec (int_value body) 0) as [Hn|]; [|apply int_value_nonneg; lia].
    unfold int_value, sext, zlen in *. fold n in Hn |- *. rewrite wrap_small in * by exact Hb.
    destruct (_ <? _); lia. }
  assert (Hrange : - 2 ^ 63 <= int_value body < 2 ^ 63).
  { pose proof (sext_range (8 * Z.of_nat n) (be_value body) ltac:(lia)) as Hs.
    assert (2 ^ (8 * Z.of_nat n - 1) <= 2 ^ 63) by (apply Z.pow_le_mono_r; lia).
    unfold int_value, zlen. fold n. lia. }
  rewrite <- (sext_small 64 (int_value body)) by (try exact Hrange; lia).
  subst f. destruct (Z.ltb_spec (int_value body) 0).
  - rewrite le_combine_ff, Hiv. rewrite Z.mul_sub_distr_r, Hpow.
    rewrite <- (sext_wrap 64 64 (be_value body - 2 ^ (8 * Z.of_nat n))) by lia.
    rewrite <- (sext_wrap 64 64 (_ + _)) by lia. f_equal.
    replace (2 ^ 64 - 1 * 2 ^ (8 * Z.of_nat n) + be_value body) with (be_value body - 2 ^ (8 * Z.of_nat n) + 1 * 2 ^ 64) by lia.
    unfold wrap. apply Z.mod_add. lia.
  - rewrite le_combine_00, Z.mul_0_l, Z.add_0_l. congruence.
Qed.

Lemma CBS_get_asn1_int64_iff cbs v rest :
  CBS_get_asn1_int64 cbs = (Ok v, rest)
  <-> exists body, der_value CBS_ASN1_INTEGER cbs body rest /\ is_der_integer body
                   /\ v = int_value body /\ zlen body <= 8.
Proof.
  unfold CBS_get_asn1_int64, CBS_len.
  assert (Hpos : forall body, is_der_integer body -> 0 < zlen body).
  { intros [|b body] [H _]; [contradiction|]. rewrite zlen_cons. pose proof (zlen_nonneg body). lia. }
  split.
  - intros H. apply bind_inv in H as (body & s & H1 & H). apply CBS_get_asn1_iff in H1.
    destruct (CBS_is_valid_asn1_integer body) as [neg|] eqn:E; [|discriminate].
    apply CBS_is_valid_asn1_integer_iff in E as [Ei ->]. destruct (Z.ltb_spec 8 (zlen body)); [discriminate|].
    cbv zeta in H. rewrite sign_extended in H by (pose proof (Hpos body Ei); lia).
    injection H as <- <-. exists body. auto.
  - intros (body & H1 & H2 & -> & H3). erewrite bind_Ok by (apply CBS_get_asn1_iff, H1).
    assert (CBS_is_valid_asn1_integer body = Some (int_value body <? 0)) as ->
      by (apply CBS_is_valid_asn1_integer_iff; auto).
    destruct (Z.ltb_spec 8 (zlen body)); [lia|]. cbv zeta.
    rewrite sign_extended by (pose proof (Hpos body H2); lia). reflexivity.
Qed.

(** ** BER *)

(** BER never contradicts DER: where the strict parser succeeds the lenient
    one returns the same element, and it says [ber_found] otherwise. *)
Lemma element_tail_ber tag hl b header cbs out rest :
  element_tail false tag hl b header cbs = (Ok out, rest) ->
  element_tail true tag hl b header cbs = (Ok out, rest).
Proof.
  unfold element_tail. destruct (u8 b <? 128); [auto|]. cbn [andb negb].
  destruct (u8 b - 128 =? 0) eqn:E0; [discriminate|]. rewrite andb_false_r. cbn [orb].
  destruct (4 <? u8 b - 128); [discriminate|]. cbn [orb].
  destruct (zlen header <? u8 b - 128); [discriminate|].
  destruct (_ || _); [discriminate|]. auto.
Qed.

Lemma element_tail_der tag hl b header cbs o t h rest :
  element_tail true tag hl b header cbs = (Ok (o, t, h, false), rest) ->
  element_tail false tag hl b header cbs = (Ok (o, t, h, false), rest).
Proof.
  unfold element_tail. destruct (u8 b <? 128); [auto|]. cbn [andb negb].
  destruct (_ && _).
  { intros H. apply bind_inv in H as (x & s & _ & H). discriminate. }
  destruct (_ || _ || _); [discriminate|].
  destruct (_ || _); [|auto]. intros H. apply bind_inv in H as (x & s & _ & H). discriminate.
Qed.

(** ** Bit strings *)

Lemma be_value_testbit l i k : 0 <= i < zlen l -> 0 <= k < 8 ->
  Z.testbit (be_value l) (8 * (zlen l - 1 - i) + k) = Z.testbit (u8 (znth l i)) k.
Proof.
  revert i; induction l as [|b l IH]; intros i Hi Hk; [change (zlen (@nil byte)) with 0 in Hi; lia|].
  rewrite zlen_cons in *. rewrite be_value_cons. pose proof (be_value_range l). pose proof (zlen_nonneg l).
  rewrite <- lor_shiftl_add by lia. rewrite Z.lor_spec.
  destruct (Z.eq_dec i 0) as [->|].
  - change (znth (b :: l) 0) with b. replace (8 * (1 + zlen l - 1 - 0) + k) with (8 * zlen l + k) by lia.
    rewrite Z.shiftl_spec by lia. rewrite <- (Z.mod_small (be_value l) (2 ^ (8 * zlen l))) by lia.
    rewrite Z.mod_pow2_bits_high by lia. rewrite orb_false_r. f_equal. lia.
  - replace (znth (b :: l) i) with (znth l (i - 1)).
    + rewrite <- IH by lia. replace (8 * (zlen l - 1 - (i - 1)) + k) with (8 * (1 + zlen l - 1 - i) + k) by lia.
      rewrite Z.shiftl_spec_low by lia. reflexivity.
    + unfold znth. replace (Z.to_nat i) with (S (Z.to_nat (i - 1))) by lia. reflexivity.
Qed.

Lemma byte_bit b k : 0 <= k < 8 -> negb (Z.land (u8 b) (Z.shiftl 1 k) =? 0) = Z.testbit (u8 b) k.
Proof.
  intros Hk. assert (E : k = 0 \/ k = 1 \/ k = 2 \/ k = 3 \/ k = 4 \/ k = 5 \/ k = 6 \/ k = 7) by lia.
  destruct E as [->|[->|[->|[->|[->|[->|[->| ->]]]]]]]; destruct b; reflexivity.
Qed.

(** ** Safety *)

(** [m] takes its result off the front of the window, on every input. *)
Definition windowed {A} (m : R A) : Prop :=
  forall cbs, fst (m cbs) <> Stuck /\ exists taken, cbs = taken ++ snd (m cbs).

Lemma windowed_ret {A} (a : A) : windowed (ret a).
Proof. intros cbs. split; [discriminate | exists []; reflexivity]. Qed.

Lemma windowed_fail {A} : windowed (@fail CBS A).
Proof. intros cbs. split; [discriminate | exists []; reflexivity]. Qed.

Lemma windowed_get : windowed (@get CBS).
Proof. intros cbs. split; [discriminate | exists []; reflexivity]. Qed.

Lemma windowed_bind {A B} (m : R A) (k : A -> R B) :
  windowed m -> (forall a, windowed (k a)) -> windowed (bind m k).
Proof.
  intros Hm Hk cbs. destruct (Hm cbs) as [H1 [t1 E1]]. unfold bind.
  destruct (m cbs) as [[a| |] s1]; cbn [fst snd] in *; [|split; [discriminate | eauto] | contradiction].
  destruct (Hk a s1) as [H2 [t2 E2]]. split; [exact H2|]. exists (t1 ++ t2). rewrite <- app_assoc, <- E2. exact E1.
Qed.

Lemma windowed_local {S A} (m : M S A) (s : S) :
  fst (m s) <> Stuck -> windowed (local m s).
Proof.
  intros H cbs. unfold local. destruct (m s) as [[a| |] s1]; cbn in *; [..|contradiction];
    (split; [discriminate | exists []; reflexivity]).
Qed.

Lemma windowed_if {A} (b : bool) (m1 m2 : R A) : windowed m1 -> windowed m2 -> windowed (if b then m1 else m2).
Proof. destruct b; auto. Qed.

Lemma windowed_cbs_get n : windowed (cbs_get n).
Proof.
  intros cbs. rewrite cbs_get_run. destruct (_ <? _); (split; [discriminate|]); [exists []; reflexivity|].
  exists (ztake n cbs). symmetry. apply ztake_zdrop.
Qed.

(** What follows a read may use the bytes that were read. *)
Lemma windowed_with {A} n (k : list byte -> R A) : (forall v, n <= zlen v -> windowed (k v)) -> windowed (bind (cbs_get n) k).
Proof.
  intros Hk cbs. unfold bind. rewrite cbs_get_run. destruct (Z.ltb_spec (zlen cbs) n); [split; [discriminate | exists []; reflexivity]|].
  assert (Hz : n <= zlen (ztake n cbs)).
  { destruct (Z.le_ge_cases 0 n); [rewrite zlen_ztake; lia | pose proof (zlen_nonneg (ztake n cbs)); lia]. }
  destruct (Hk _ Hz (zdrop n cbs)) as [H1 [t E]]. split; [exact H1|]. exists (ztake n cbs ++ t).
  rewrite <- app_assoc, <- E. symmetry. apply ztake_zdrop.
Qed.

Lemma windowed_bytes_at data n : n <= zlen data -> windowed (bytes_at data n).
Proof. intros H cbs. rewrite bytes_at_Ok by exact H. split; [discriminate | exists []; reflexivity]. Qed.

Lemma windowed_byte_at data i : 0 <= i < zlen data -> windowed (byte_at data i).
Proof. intros H cbs. rewrite byte_at_Ok by exact H. split; [discriminate | exists []; reflexivity]. Qed.

Lemma windowed_guarded {A} (b : bool) (m1 m2 : R A) :
  (b = true -> windowed m1) -> (b = false -> windowed m2) -> windowed (if b then m1 else m2).
Proof. destruct b; auto. Qed.

(** The byte of a window that was found to have just one. *)
Lemma windowed_single {A} (data : CBS) (k : byte -> R A) :
  CBS_len data = 1 -> (forall b, windowed (k b)) -> windowed (bind (byte_at data 0) k).
Proof. intros H Hk. apply windowed_bind; [apply windowed_byte_at; unfold CBS_len in H; lia | exact Hk]. Qed.

Create HintDb windowed discriminated.
#[export] Hint Resolve windowed_ret windowed_fail windowed_get windowed_bind windowed_if windowed_cbs_get : windowed.

(** Structural decomposition of a reader. *)
Ltac windowed :=
  repeat first
    [ progress intros
    | apply windowed_ret | apply windowed_fail | apply windowed_get | apply windowed_cbs_get
    | match goal with
      | |- windowed (let x := _ in _) => cbv zeta
      | |- windowed (bind (cbs_get _) _) => apply windowed_with
      | |- windowed (bytes_at _ _) => apply windowed_bytes_at
      | |- windowed (byte_at _ _) => apply windowed_byte_at
      | |- windowed (bind _ _) => apply windowed_bind
      | |- windowed (if _ then _ else _) => apply windowed_if
      | |- windowed (match ?x with _ => _ end) => destruct x
      | |- windowed (local _ _) => apply windowed_local
      | H : forall cbs, windowed ?m |- _ => apply H
      end
    | assumption ].

Lemma windowed_get_u n : windowed (cbs_get_u n).
Proof. unfold cbs_get_u. windowed. Qed.

Lemma windowed_get_u8 : windowed CBS_get_u8.
Proof. unfold CBS_get_u8. windowed. lia. Qed.

Lemma windowed_get_bytes n : windowed (CBS_get_bytes n).
Proof. unfold CBS_get_bytes, CBS_init. windowed. Qed.

Lemma base128_loop_windowed fuel v cbs :
  (length cbs < fuel)%nat ->
  fst (base128_loop fuel v cbs) <> Stuck /\ exists taken, cbs = taken ++ snd (base128_loop fuel v cbs).
Proof.
  revert v cbs; induction fuel as [|fuel IH]; intros v cbs Hf; [lia|]. cbn [base128_loop]. unfold bind.
  destruct cbs as [|b cbs]; [split; [discriminate | exists []; reflexivity]|].
  rewrite CBS_get_u8_cons. cbn in Hf.
  destruct (negb _); [split; [discriminate | exists [b]; reflexivity]|].
  destruct (_ && _); [split; [discriminate | exists [b]; reflexivity]|]. cbv zeta.
  destruct (negb _); [|split; [discriminate | exists [b]; reflexivity]].
  specialize (IH (Z.lor (u64 (Z.shiftl v 7)) (Z.land (u8 b) 0x7f)) cbs ltac:(lia)) as [H1 [t E]].
  split; [exact H1|]. exists (b :: t). cbn. rewrite <- E. reflexivity.
Qed.

Lemma windowed_base128 : windowed parse_base128_integer.
Proof. intros cbs. unfold parse_base128_integer. rewrite bind_get. apply base128_loop_windowed. lia. Qed.

Lemma windowed_tag : windowed parse_asn1_tag.
Proof.
  unfold parse_asn1_tag. apply windowed_bind; [apply windowed_get_u8 | intros b]. cbv zeta.
  apply windowed_if; [|windowed]. apply windowed_bind; [apply windowed_base128 | windowed].
Qed.

Lemma windowed_element ber_ok : windowed (cbs_get_any_asn1_element ber_ok).
Proof.
  unfold cbs_get_any_asn1_element. apply windowed_bind; [windowed | intros cbs].
  apply windowed_bind.
  { apply windowed_local. apply windowed_bind; [apply windowed_tag | intros; apply windowed_bind; [apply windowed_get_u8 | windowed]]. }
  intros [[tag b] header]. cbv zeta.
  windowed; try apply windowed_get_bytes. apply windowed_get_u.
Qed.

Lemma windowed_any_asn1_element : windowed CBS_get_any_asn1_element.
Proof. unfold CBS_get_any_asn1_element. apply windowed_bind; [apply windowed_element | windowed]. Qed.

Lemma CBS_skip_windowed n : windowed (CBS_skip n).
Proof. unfold CBS_skip. windowed. Qed.

Lemma windowed_get_asn1 tag : windowed (CBS_get_asn1 tag).
Proof.
  unfold CBS_get_asn1, cbs_get_asn1. apply windowed_bind; [apply windowed_any_asn1_element | intros [[o t] h]].
  apply windowed_if; [apply windowed_fail|]. apply windowed_bind; [apply windowed_local, CBS_skip_windowed | windowed].
Qed.

Lemma windowed_uint64 : windowed CBS_get_asn1_uint64.
Proof. unfold CBS_get_asn1_uint64. apply windowed_bind; [apply windowed_get_asn1 | windowed]. Qed.

Lemma windowed_int64 : windowed CBS_get_asn1_int64.
Proof. unfold CBS_get_asn1_int64. apply windowed_bind; [apply windowed_get_asn1 | windowed]. Qed.

Lemma windowed_optional tag : windowed (CBS_get_optional_asn1 tag).
Proof.
  unfold CBS_get_optional_asn1. apply windowed_bind; [windowed | intros cbs]. apply windowed_if; [|windowed].
  apply windowed_bind; [apply windowed_get_asn1 | windowed].
Qed.

Lemma windowed_whole {A} (m : R A) child : windowed m -> windowed (whole m child).
Proof. intros H. unfold whole. apply windowed_bind; [apply windowed_local, H | windowed]. Qed.

(** ** The properties *)

(** the fixed-width readers return the big-endian (or little-endian) value
    of the bytes they take; on a window that is too short they fail and leave
    it as it was. *)
Theorem fixed_width_readers bs2 bs4 bs8 rest :
  length bs2 = 2%nat -> length bs4 = 4%nat -> length bs8 = 8%nat ->
  CBS_get_u16 (bs2 ++ rest) = (Ok (be_value bs2), rest) /\
  CBS_get_u32 (bs4 ++ rest) = (Ok (be_value bs4), rest) /\
  CBS_get_u64 (bs8 ++ rest) = (Ok (be_value bs8), rest) /\
  CBS_get_u16le (bs2 ++ rest) = (Ok (le_combine bs2), rest) /\
  CBS_get_u32le (bs4 ++ rest) = (Ok (le_combine bs4), rest) /\
  CBS_get_u64le (bs8 ++ rest) = (Ok (le_combine bs8), rest) /\
  (forall cbs, zlen cbs < 8 -> CBS_get_u64 cbs = (Fail, cbs) /\ CBS_get_u64le cbs = (Fail, cbs)).
Proof.
  intros H2 H4 H8.
  assert (L : forall n bs, length bs = n -> CRYPTO_bswap n (be_value bs) = le_combine bs).
  { intros n bs <-. unfold CRYPTO_bswap. rewrite be_split_be_value. reflexivity. }
  assert (W : forall n bs, length bs = n -> wrap (8 * Z.of_nat n) (be_value bs) = be_value bs).
  { intros n bs <-. apply wrap_small, be_value_range. }
  pose proof (cbs_get_u_reads 2 bs2 ltac:(unfold zlen; lia) ltac:(lia) rest) as R2.
  pose proof (cbs_get_u_reads 4 bs4 ltac:(unfold zlen; lia) ltac:(lia) rest) as R4.
  pose proof (cbs_get_u_reads 8 bs8 ltac:(unfold zlen; lia) ltac:(lia) rest) as R8.
  unfold CBS_get_u16le, CBS_get_u32le, CBS_get_u64le, CBS_get_u16, CBS_get_u32, CBS_get_u64, bind.
  rewrite R2, R4, R8. unfold ret.
  pose proof (W 2%nat bs2 H2 : u16 _ = _) as W2. pose proof (W 4%nat bs4 H4 : u32 _ = _) as W4.
  rewrite W2, W4, (L 2%nat), (L 4%nat), (L 8%nat) by assumption.
  do 6 (split; [reflexivity|]). intros cbs Hs. unfold cbs_get_u, bind. rewrite cbs_get_short by lia. auto.
Qed.

Lemma fixed_width_readers_witness :
  CBS_get_u32le ([Byte.x01; Byte.x02; Byte.x03; Byte.x04] ++ [Byte.xff])
  = (Ok (le_combine [Byte.x01; Byte.x02; Byte.x03; Byte.x04]), [Byte.xff]).
Proof.
  refine (proj1 (proj2 (proj2 (proj2 (proj2 (fixed_width_readers (zeros 2) [Byte.x01; Byte.x02; Byte.x03; Byte.x04]
    (zeros 8) [Byte.xff] _ _ _)))))); reflexivity.
Defined.

(** C8: [CBS_get_any_asn1_element] accepts exactly DER: it succeeds if and only
    if the window starts with an element whose tag and length are in the unique
    canonical form, and then returns that element, its tag and the length of its
    header, and moves right behind it. *)
Theorem CBS_get_any_asn1_element_exact cbs out tag header_len rest :
  CBS_get_any_asn1_element cbs = (Ok (out, tag, header_len), rest)
  <-> cbs = out ++ rest /\ exists body, is_der_element out tag header_len body.
Proof. apply CBS_get_any_asn1_element_iff. Qed.

(** DER is prefix-free and has one reading: two elements that start the
    same bytes are the same element with the same tag and contents. *)
Theorem der_element_unique e1 t1 h1 b1 r1 e2 t2 h2 b2 r2 :
  is_der_element e1 t1 h1 b1 -> is_der_element e2 t2 h2 b2 -> e1 ++ r1 = e2 ++ r2 ->
  CBS_get_any_asn1_element (e1 ++ r1) = (Ok (e2, t2, h2), r2) /\
  e1 = e2 /\ t1 = t2 /\ h1 = h2 /\ b1 = b2 /\ r1 = r2.
Proof.
  intros H1 H2 E.
  assert (A1 : CBS_get_any_asn1_element (e1 ++ r1) = (Ok (e1, t1, h1), r1)) by (apply CBS_get_any_asn1_element_iff; eauto).
  assert (A2 : CBS_get_any_asn1_element (e1 ++ r1) = (Ok (e2, t2, h2), r2)).
  { rewrite E. apply CBS_get_any_asn1_element_iff; eauto. }
  split; [exact A2|]. rewrite A1 in A2. injection A2 as -> -> -> ->. repeat split; try reflexivity.
  apply CBS_skip_header in H1, H2. congruence.
Qed.

Lemma der_element_unique_witness :
  CBS_get_any_asn1_element ([Byte.x02; Byte.x01; Byte.x05] ++ [])
  = (Ok ([Byte.x02; Byte.x01; Byte.x05], 2, 2), []).
Proof.
  assert (H : is_der_element [Byte.x02; Byte.x01; Byte.x05] 2 2 [Byte.x05]).
  { exists [Byte.x02], [Byte.x01]. split; [reflexivity|]. split; [reflexivity|].
    split; [apply (low_tag Byte.x02); discriminate | apply (short_length Byte.x01); reflexivity]. }
  refine (proj1 (der_element_unique _ _ _ _ [] _ _ _ _ [] H H _)). reflexivity.
Defined.

(** the BER reader extends the DER reader: it returns the same element
    wherever DER is accepted, and whenever it reports that no BER was found the
    strict reader accepts the same bytes. *)
Theorem ber_extends_der cbs out tag header_len rest :
  (CBS_get_any_asn1_element cbs = (Ok (out, tag, header_len), rest) ->
   exists ber, CBS_get_any_ber_asn1_element cbs = (Ok (out, tag, header_len, ber), rest)) /\
  (CBS_get_any_ber_asn1_element cbs = (Ok (out, tag, header_len, false), rest) ->
   CBS_get_any_asn1_element cbs = (Ok (out, tag, header_len), rest)).
Proof.
  unfold CBS_get_any_ber_asn1_element, CBS_get_any_asn1_element. split; intros H.
  - apply bind_inv in H as ([[[o t] h] ber] & s & H & E). injection E as <- <- <- <-.
    exists ber. pose proof (element_run_inv _ _ _ _ H) as (t' & tag' & b & header & -> & Ht).
    rewrite (element_run false _ _ _ _ Ht) in H. rewrite (element_run true _ _ _ _ Ht).
    apply element_tail_ber, H.
  - pose proof (element_run_inv _ _ _ _ H) as (t' & tag' & b & header & -> & Ht).
    rewrite (element_run true _ _ _ _ Ht) in H. unfold bind. rewrite (element_run false _ _ _ _ Ht).
    rewrite (element_tail_der _ _ _ _ _ _ _ _ _ H). reflexivity.
Qed.

Lemma ber_extends_der_witness :
  exists ber, CBS_get_any_ber_asn1_element [Byte.x02; Byte.x01; Byte.x05]
              = (Ok ([Byte.x02; Byte.x01; Byte.x05], 2, 2, ber), []).
Proof. refine (proj1 (ber_extends_der _ _ _ _ _) _). vm_compute. reflexivity. Defined.

(** C30: [CBS_get_asn1_uint64] and [CBS_get_asn1_int64] accept exactly the
    minimal INTEGERs whose value fits their type, and return that value. *)
Theorem asn1_integers_exact cbs v rest :
  (CBS_get_asn1_uint64 cbs = (Ok v, rest)
   <-> exists body, der_value CBS_ASN1_INTEGER cbs body rest /\ is_der_integer body
                    /\ v = int_value body /\ 0 <= v < 2 ^ 64) /\
  (CBS_get_asn1_int64 cbs = (Ok v, rest)
   <-> exists body, der_value CBS_ASN1_INTEGER cbs body rest /\ is_der_integer body
                    /\ v = int_value body /\ - 2 ^ 63 <= v < 2 ^ 63).
Proof.
  split; [apply CBS_get_asn1_uint64_iff|]. rewrite CBS_get_asn1_int64_iff.
  split; intros (body & H1 & H2 & -> & H3); exists body; (split; [exact H1|]; split; [exact H2|]; split; [reflexivity|]).
  - destruct H2 as [Hne _]. assert (0 < zlen body) by (destruct body; [contradiction | rewrite zlen_cons; pose proof (zlen_nonneg body); lia]).
    pose proof (sext_range (8 * zlen body) (be_value body) ltac:(lia)) as Hs.
    assert (2 ^ (8 * zlen body - 1) <= 2 ^ 63) by (apply Z.pow_le_mono_r; lia). unfold int_value. lia.
  - destruct H2 as [_ [->|Hmin]]; [lia|]. destruct (Z_le_dec (zlen body) 8); [assumption|]. exfalso. apply Hmin.
    assert (2 ^ 63 <= 2 ^ (8 * (zlen body - 1) - 1)) by (apply Z.pow_le_mono_r; lia). lia.
Qed.

(** on a valid BIT STRING, [CBS_asn1_bitstring_has_bit] is the bit of the
    contents counted from the most significant one, and bits past the end are
    unset; nothing outside the contents is read. *)
Theorem bitstring_has_bit_spec {S} unused body bit (s : S) :
  CBS_is_valid_asn1_bitstring (unused :: body) s = (Ok true, s) -> 0 <= bit < 2 ^ 32 ->
  CBS_asn1_bitstring_has_bit (unused :: body) bit s
  = (Ok ((bit <? 8 * zlen body) && Z.testbit (be_value body) (8 * zlen body - 1 - bit)), s).
Proof.
  intros Hv Hbit. unfold CBS_asn1_bitstring_has_bit. rewrite (bind_Ok _ _ _ _ _ Hv). cbn [negb]. cbv zeta. unfold CBS_len.
  rewrite zlen_cons. replace (Z.land bit 7) with (bit mod 8) by (symmetry; apply (land_ones_mod bit 3); lia). rewrite shiftr_div by lia. change (2 ^ 3) with 8.
  pose proof (Z.div_mod bit 8 ltac:(lia)). pose proof (Z.mod_pos_bound bit 8 ltac:(lia)).
  rewrite wrap_small by (unfold in_word; lia).
  destruct (Z.ltb_spec (bit / 8 + 1) (1 + zlen body)); destruct (Z.ltb_spec bit (8 * zlen body)); try lia; [|reflexivity].
  unfold bind. rewrite byte_at_Ok by (rewrite zlen_cons; lia). unfold ret. do 2 f_equal.
  rewrite byte_bit by lia.
  cbn [andb]. replace (znth (unused :: body) (bit / 8 + 1)) with (znth body (bit / 8)).
  - rewrite <- be_value_testbit by lia. f_equal. lia.
  - unfold znth. replace (Z.to_nat (bit / 8 + 1)) with (Datatypes.S (Z.to_nat (bit / 8))) by lia. reflexivity.
Qed.

Lemma bitstring_has_bit_spec_witness :
  CBS_asn1_bitstring_has_bit [Byte.x06; Byte.x40] 1 tt
  = (Ok ((1 <? 8 * zlen [Byte.x40]) && Z.testbit (be_value [Byte.x40]) (8 * zlen [Byte.x40] - 1 - 1)), tt).
Proof. apply (bitstring_has_bit_spec Byte.x06 [Byte.x40] 1); [reflexivity | lia]. Defined.

(** no ASN.1 reader reads outside its window or loops forever, on any
    input: each ends with a result or an error and a window that is a suffix of
    the one it was given. *)
Theorem asn1_readers_safe tag default :
  windowed parse_base128_integer /\ windowed CBS_get_any_asn1_element /\
  windowed CBS_get_any_ber_asn1_element /\ windowed CBS_get_any_asn1 /\ windowed (CBS_get_asn1 tag) /\
  windowed CBS_get_asn1_uint64 /\ windowed CBS_get_asn1_int64 /\ windowed CBS_get_asn1_bool /\
  windowed (CBS_get_optional_asn1 tag) /\ windowed (CBS_get_optional_asn1_octet_string tag) /\
  windowed (CBS_get_optional_asn1_uint64 tag default) /\ windowed (CBS_get_optional_asn1_bool tag default).
Proof.
  split; [apply windowed_base128|]. split; [apply windowed_any_asn1_element|]. split; [apply windowed_element|].
  split. { unfold CBS_get_any_asn1. apply windowed_bind; [apply windowed_any_asn1_element|]. intros [[o t] h].
           apply windowed_bind; [apply windowed_local, CBS_skip_windowed | windowed]. }
  split; [apply windowed_get_asn1|]. split; [apply windowed_uint64|]. split; [apply windowed_int64|].
  split. { unfold CBS_get_asn1_bool. apply windowed_bind; [apply windowed_get_asn1 | intros bytes].
           apply windowed_guarded; [windowed | intros E]. apply windowed_single; [zbool; exact E | windowed]. }
  split; [apply windowed_optional|].
  split. { unfold CBS_get_optional_asn1_octet_string. apply windowed_bind; [apply windowed_optional|].
           intros [c|]; [|windowed]. apply windowed_bind; [apply windowed_whole, windowed_get_asn1 | windowed]. }
  split. { unfold CBS_get_optional_asn1_uint64. apply windowed_bind; [apply windowed_optional|].
           intros [c|]; [apply windowed_whole, windowed_uint64 | windowed]. }
  unfold CBS_get_optional_asn1_bool. apply windowed_bind; [apply windowed_optional|].
  intros [c|]; [|windowed]. apply windowed_bind; [apply windowed_local, windowed_get_asn1 | intros [child2 child]].
  apply windowed_guarded; [windowed | intros E]. apply orb_false_iff in E as [E _].
  apply windowed_single; [zbool; exact E | windowed].
Qed.
