(* ===== verification/Cbb.v ===== *)
(** BoringSSL's byte-string writer: [CBB] of
    ios/Pods/BoringSSL-GRPC/src/crypto/bytestring/cbb.c and [CBB_finish_i2d] of
    asn1_compat.c.  A writer is a buffer and the chain of children whose length
    prefix is still pending; adding anything to a writer first flushes its
    children, which fills in their prefixes and may move their contents.

    A [CBB *] is the depth of the writer in the chain: 0 is the top-level
    object, [S k] the child of [k].  A depth beyond the chain is a child that
    was flushed or discarded, whose [base] the C code has set to NULL. *)
From Stdlib Require Import ZArith Lia Bool.
From coqutil Require Import Byte Word.LittleEndianList.
From stdpp Require Import base list numbers sorting.
From S2P Require Import Prelude Alloc Cbs.
Local Open Scope Z_scope.
Local Open Scope c_scope.

Section cbb.
Context {A : Type} {AL : Allocator A}.

(** [struct cbb_buffer_st]; [buf] is the whole block, of [cap] bytes. *)
Record cbb_buffer := mk_buffer {
  buf : list byte;
  len : Z;
  cap : Z;
  can_resize : bool;
  error : bool;
}.

(** The fields of a child [CBB]. *)
Record child := mk_child {
  offset : Z;
  pending_len_len : Z;
  pending_is_asn1 : bool;
}.

Record CBB := mk_cbb {
  heap : A;
  base : option cbb_buffer;
  chain : list child;
}.

Notation W := (M CBB).

Definition set_base (b : cbb_buffer) : W unit := fun st =>
  (Ok tt, mk_cbb (heap st) (Some b) (chain st)).
Definition set_chain (c : list child) : W unit := fun st =>
  (Ok tt, mk_cbb (heap st) (base st) c).
Definition set_len (n : Z) (b : cbb_buffer) : cbb_buffer :=
  mk_buffer (buf b) n (cap b) (can_resize b) (error b).
Definition set_buf (l : list byte) (b : cbb_buffer) : cbb_buffer :=
  mk_buffer l (len b) (cap b) (can_resize b) (error b).
Definition set_error (b : cbb_buffer) : cbb_buffer :=
  mk_buffer (buf b) (len b) (cap b) (can_resize b) true.

(** [base->error = 1] *)
Definition mark_error (st : CBB) : CBB :=
  mk_cbb (heap st) (option_map set_error (base st)) (chain st).
(** [goto err] around [m]. *)
Definition on_err {B} (m : W B) : W B := fun st =>
  match m st with
  | (Fail, st1) => (Fail, mark_error st1)
  | r => r
  end.

(** [cbb->base], NULL for a depth beyond the chain. *)
Definition get_base (k : nat) : W cbb_buffer := fun st =>
  match base st with
  | Some b => if (length (chain st) <? k)%nat then (Fail, st) else (Ok b, st)
  | None => (Fail, st)
  end.

(** ** The buffer *)

Definition cbb_buffer_reserve (k : nat) (n : Z) : W unit :=
  b <- get_base k ;;
  on_err
    (let newlen := u64 (len b + n) in
     if newlen <? len b then fail else
     if cap b <? newlen then
       if negb (can_resize b) then fail else
       let newcap := u64 (cap b * 2) in
       let newcap := if (newcap <? cap b) || (newcap <? newlen) then newlen else newcap in
       st <- get ;;
       let '(newbuf, heap1) := OPENSSL_realloc (heap st) (buf b) newcap in
       put (mk_cbb heap1 (base st) (chain st)) ;;
       match newbuf with
       | None => fail
       | Some newbuf => set_base (mk_buffer newbuf (len b) newcap (can_resize b) (error b))
       end
     else ret tt).

(** Returns the offset of [*out], the old length. *)
Definition cbb_buffer_add (k : nat) (n : Z) : W Z :=
  cbb_buffer_reserve k n ;;
  b <- get_base k ;;
  set_base (set_len (u64 (len b + n)) b) ;;
  ret (len b).

(** [memcpy(base->buf + off, bs, length bs)]; undefined outside the block. *)
Definition store_at (off : Z) (bs : list byte) : W unit := fun st =>
  match base st with
  | Some b =>
      if (off <? 0) || (zlen (buf b) <? off + zlen bs) then (Stuck, st)
      else set_base (set_buf (splice (buf b) off bs) b) st
  | None => (Stuck, st)
  end.

(** The loop storing [n] bytes of [v] big-endian; what is left of [v]. *)
Fixpoint store_be (n : nat) (off v : Z) : W Z :=
  match n with
  | O => ret v
  | S n => store_at (off + Z.of_nat n) [b8 v] ;; store_be n off (Z.shiftr v 8)
  end.

Definition cbb_buffer_add_u (k : nat) (v : Z) (len_len : nat) : W unit :=
  if (len_len =? 0)%nat then ret tt else
  off <- cbb_buffer_add k (Z.of_nat len_len) ;;
  v <- store_be len_len off v ;;
  if negb (v =? 0) then on_err fail else ret tt.

(** ** Flushing *)

(** [OPENSSL_memmove] inside the buffer. *)
Definition move (dst src n : Z) : W unit := fun st =>
  match base st with
  | Some b =>
      if (src <? 0) || (zlen (buf b) <? src + n) then (Stuck, st)
      else store_at dst (ztake n (zdrop src (buf b))) st
  | None => (Stuck, st)
  end.

(** [( *len_len, *initial_length_byte, len)] of an ASN.1 length. *)
Definition asn1_length (len : Z) : option (Z * Z * Z) :=
  if 0xfffffffe <? len then None
  else if 0xffffff <? len then Some (5, Z.lor 0x80 4, len)
  else if 0xffff <? len then Some (4, Z.lor 0x80 3, len)
  else if 0xff <? len then Some (3, Z.lor 0x80 2, len)
  else if 0x7f <? len then Some (2, Z.lor 0x80 1, len)
  else Some (1, len, 0).

(** The length prefix of the child [c] of [k] written over its placeholder. *)
Definition flush_prefix (k : nat) (c : child) (child_start len : Z) : W unit :=
  '(off, n, len) <-
    (if pending_is_asn1 c then
       match asn1_length len with
       | None => fail
       | Some (len_len, initial_length_byte, len') =>
           (if negb (len_len =? 1) then
              let extra_bytes := len_len - 1 in
              cbb_buffer_add k extra_bytes ;;
              move (child_start + extra_bytes) child_start len
            else ret tt) ;;
           store_at (offset c) [b8 initial_length_byte] ;;
           ret (offset c + 1, len_len - 1, len')
       end
     else ret (offset c, pending_len_len c, len)) ;;
  len <- store_be (Z.to_nat n) off len ;;
  if negb (len =? 0) then fail else ret tt.

Fixpoint flush_from (fuel k : nat) : W unit :=
  b <- get_base k ;;
  if error b then fail else
  st <- get ;;
  match chain st !! k with
  | None => ret tt
  | Some c =>
      if pending_len_len c =? 0 then ret tt else
      match fuel with
      | O => stuck
      | S fuel =>
          let child_start := u64 (offset c + pending_len_len c) in
          on_err
            (flush_from fuel (S k) ;;
             b <- get_base k ;;
             if (child_start <? offset c) || (len b <? child_start) then fail else
             flush_prefix k c child_start (len b - child_start) ;;
             st <- get ;;
             set_chain (take k (chain st)))
      end
  end.

(** Each level of recursion opens one more child of the chain. *)
Definition CBB_flush (k : nat) : W unit := st <- get ;; flush_from (length (chain st)) k.

(** ** Construction *)

Definition CBB_zero (a : A) : CBB := mk_cbb a None [].

Definition sizeof_cbb_buffer_st : Z := 32.

Definition cbb_init (buf : list byte) (cap : Z) : W unit := fun st =>
  match OPENSSL_malloc (heap st) sizeof_cbb_buffer_st with
  | (None, a) => (Fail, CBB_zero a)
  | (Some _, a) => (Ok tt, mk_cbb a (Some (mk_buffer buf 0 cap true false)) [])
  end.

Definition CBB_init (initial_capacity : Z) : W unit := fun st =>
  match OPENSSL_malloc (heap st) initial_capacity with
  | (None, a) => if 0 <? initial_capacity then (Fail, CBB_zero a) else cbb_init [] initial_capacity (CBB_zero a)
  | (Some buf, a) =>
      match cbb_init buf initial_capacity (CBB_zero a) with
      | (Fail, st) => (Fail, CBB_zero (free_bytes (heap st) buf))
      | r => r
      end
  end.

(** The caller's buffer, which cannot be resized. *)
Definition CBB_init_fixed (b : list byte) (n : Z) : W unit := fun st =>
  (cbb_init b n ;; fun st => (Ok tt, mk_cbb (heap st) (option_map (fun b => mk_buffer (buf b) (len b) (cap b) false (error b)) (base st)) (chain st))) (CBB_zero (heap st)).

(** A caller's buffer stays with the caller. *)
Definition CBB_cleanup : W unit := fun st =>
  match base st with
  | None => (Ok tt, CBB_zero (heap st))
  | Some b =>
      let a := if can_resize b then free_bytes (heap st) (buf b) else heap st in
      (Ok tt, CBB_zero (OPENSSL_free a sizeof_cbb_buffer_st))
  end.

(** The block handed to the caller and the number of bytes in it; [has_out] is
    [out_data] and [out_len] both non-NULL.  The buffer is NULL here then. *)
Definition finish_block (k : nat) (has_out : bool) : W (list byte * Z) :=
  if negb (k =? 0)%nat then fail else
  CBB_flush k ;;
  b <- get_base k ;;
  if can_resize b && negb has_out then fail else
  set_base (set_buf [] b) ;;
  CBB_cleanup ;;
  ret (buf b, len b).

Definition CBB_finish (k : nat) (has_out : bool) : W (list byte) :=
  '(out_data, out_len) <- finish_block k has_out ;; ret (ztake out_len out_data).

(** What a function makes of a writer of its own; the [err] label. *)
Definition with_writer {B} (m : W B) (a : A) : outcome B * A :=
  match m (CBB_zero a) with
  | (Fail, st) => (Fail, heap (snd (CBB_cleanup st)))
  | (r, st) => (r, heap st)
  end.

(** ** Adding data *)

Definition CBB_add_u8 (k : nat) (value : Z) : W unit := CBB_flush k ;; cbb_buffer_add_u k value 1.
Definition CBB_add_u16 (k : nat) (value : Z) : W unit := CBB_flush k ;; cbb_buffer_add_u k value 2.
Definition CBB_add_u24 (k : nat) (value : Z) : W unit := CBB_flush k ;; cbb_buffer_add_u k value 3.
Definition CBB_add_u32 (k : nat) (value : Z) : W unit := CBB_flush k ;; cbb_buffer_add_u k value 4.
Definition CBB_add_u64 (k : nat) (value : Z) : W unit := CBB_flush k ;; cbb_buffer_add_u k value 8.
Definition CBB_add_u16le (k : nat) (value : Z) : W unit := CBB_add_u16 k (CRYPTO_bswap 2 value).
Definition CBB_add_u32le (k : nat) (value : Z) : W unit := CBB_add_u32 k (CRYPTO_bswap 4 value).
Definition CBB_add_u64le (k : nat) (value : Z) : W unit := CBB_add_u64 k (CRYPTO_bswap 8 value).

Definition CBB_add_bytes (k : nat) (data : list byte) : W unit :=
  CBB_flush k ;;
  dest <- cbb_buffer_add k (zlen data) ;;
  store_at dest data.

(** The offset of [*out_data]. *)
Definition CBB_add_space (k : nat) (n : Z) : W Z := CBB_flush k ;; cbb_buffer_add k n.

Definition CBB_add_zeros (k : nat) (n : Z) : W unit :=
  out <- CBB_add_space k n ;; store_at out (zeros n).

Definition CBB_reserve (k : nat) (n : Z) : W unit := CBB_flush k ;; cbb_buffer_reserve k n.

Definition CBB_did_write (k : nat) (n : Z) : W unit := fun st =>
  match get_base k st with
  | (Ok b, st) =>
      let newlen := u64 (len b + n) in
      if (k <? length (chain st))%nat || (newlen <? len b) || (cap b <? newlen) then (Fail, st)
      else set_base (set_len newlen b) st
  | (_, st) => (Stuck, st)
  end.

(** Where the contents of [k] start. *)
Definition content_start (k : nat) (st : CBB) : Z :=
  match k with
  | O => 0
  | S k => match chain st !! k with Some c => offset c + pending_len_len c | None => 0 end
  end.

(** [CBB_data] and [CBB_len]: the contents of [k]. *)
Definition CBB_data (k : nat) (st : CBB) : option (list byte) :=
  match base st with
  | Some b => Some (zdrop (content_start k st) (ztake (len b) (buf b)))
  | None => None
  end.
Definition CBB_len (k : nat) (st : CBB) : option Z :=
  option_map (fun b => len b - content_start k st) (base st).

(** ** Length-prefixed children *)

Definition cbb_add_length_prefixed (k : nat) (len_len : Z) : W unit :=
  CBB_flush k ;;
  off <- cbb_buffer_add k len_len ;;
  store_at off (zeros len_len) ;;
  st <- get ;;
  set_chain (take k (chain st) ++ [mk_child off len_len false]).

Definition CBB_add_u8_length_prefixed (k : nat) : W unit := cbb_add_length_prefixed k 1.
Definition CBB_add_u16_length_prefixed (k : nat) : W unit := cbb_add_length_prefixed k 2.
Definition CBB_add_u24_length_prefixed (k : nat) : W unit := cbb_add_length_prefixed k 3.

Definition CBB_discard_child (k : nat) : W unit := fun st =>
  match chain st !! k, base st with
  | None, _ => (Ok tt, st)
  | Some c, Some b => (Ok tt, mk_cbb (heap st) (Some (set_len (offset c) b)) (take k (chain st)))
  | Some _, None => (Stuck, st)
  end.

(** ** ASN.1 *)

(** The number of base-128 digits; 10 digits hold 64 bits. *)
Fixpoint base128_digits (fuel : nat) (copy : Z) : nat :=
  match fuel with
  | O => 0
  | S fuel => if 0 <? copy then S (base128_digits fuel (Z.shiftr copy 7)) else 0
  end.

Fixpoint add_base128_loop (k : nat) (n : nat) (v : Z) : W unit :=
  match n with
  | O => ret tt
  | S i =>
      let byte := Z.land (Z.shiftr v (7 * Z.of_nat i)) 0x7f in
      let byte := if negb (i =? 0)%nat then Z.lor byte 0x80 else byte in
      CBB_add_u8 k byte ;;
      add_base128_loop k i v
  end.

Definition add_base128_integer (k : nat) (v : Z) : W unit :=
  let len_len := base128_digits 10 v in
  let len_len := if (len_len =? 0)%nat then 1%nat else len_len in
  add_base128_loop k len_len v.

Definition CBB_add_asn1 (k : nat) (tag : Z) : W unit :=
  CBB_flush k ;;
  let tag_bits := Z.land (Z.shiftr tag CBS_ASN1_TAG_SHIFT) 0xe0 in
  let tag_number := Z.land tag CBS_ASN1_TAG_NUMBER_MASK in
  (if 0x1f <=? tag_number then
     CBB_add_u8 k (Z.lor tag_bits 0x1f) ;; add_base128_integer k tag_number
   else CBB_add_u8 k (Z.lor tag_bits tag_number)) ;;
  b <- get_base k ;;
  let off := len b in
  CBB_add_u8 k 0 ;;
  st <- get ;;
  set_chain (take k (chain st) ++ [mk_child off 1 true]).

(** The loop of [CBB_add_asn1_uint64] over bytes [8 - n], ..., 7. *)
Fixpoint add_uint64_loop (k : nat) (n : nat) (started : bool) (value : Z) : W bool :=
  match n with
  | O => ret started
  | S n =>
      let byte := Z.land (Z.shiftr value (8 * Z.of_nat n)) 0xff in
      if negb started && (byte =? 0) then add_uint64_loop k n false value
      else
        (if negb started && negb (Z.land byte 0x80 =? 0) then CBB_add_u8 k 0 else ret tt) ;;
        CBB_add_u8 k byte ;;
        add_uint64_loop k n true value
  end.

Definition CBB_add_asn1_uint64 (k : nat) (value : Z) : W unit :=
  CBB_add_asn1 k CBS_ASN1_INTEGER ;;
  started <- add_uint64_loop (S k) 8 false value ;;
  (if negb started then CBB_add_u8 (S k) 0 else ret tt) ;;
  CBB_flush k.

(** [start] of [CBB_add_asn1_int64]; [bytes] is little-endian. *)
Fixpoint int64_start (start : nat) (bytes : list byte) : nat :=
  match start with
  | O => 0
  | S s =>
      if (u8 (znth bytes (Z.of_nat (S s))) =? 0xff)
         && negb (Z.land (u8 (znth bytes (Z.of_nat s))) 0x80 =? 0)
      then int64_start s bytes else S s
  end.

Fixpoint add_u8s (k : nat) (bytes : list byte) : W unit :=
  match bytes with
  | [] => ret tt
  | b :: bytes => CBB_add_u8 k (u8 b) ;; add_u8s k bytes
  end.

Definition CBB_add_asn1_int64 (k : nat) (value : Z) : W unit :=
  if 0 <=? value then CBB_add_asn1_uint64 k value else
  let bytes := le_split 8 value in
  let start := int64_start 7 bytes in
  CBB_add_asn1 k CBS_ASN1_INTEGER ;;
  add_u8s (S k) (rev (take (S start) bytes)) ;;
  CBB_flush k.

Definition CBB_add_asn1_octet_string (k : nat) (data : list byte) : W unit :=
  CBB_add_asn1 k CBS_ASN1_OCTETSTRING ;;
  CBB_add_bytes (S k) data ;;
  CBB_flush k.

Definition CBB_add_asn1_bool (k : nat) (value : Z) : W unit :=
  CBB_add_asn1 k CBS_ASN1_BOOLEAN ;;
  CBB_add_u8 (S k) (if negb (value =? 0) then 0xff else 0) ;;
  CBB_flush k.

(** ** Object identifiers *)

(** The loop of [parse_dotted_decimal]; every turn consumes a character. *)
Fixpoint dotted_loop (fuel : nat) (out : Z) (seen_digit : bool) : R Z :=
  match fuel with
  | O => stuck
  | S fuel =>
      let done := if seen_digit then ret out else fail in
      fun cbs =>
      match CBS_get_u8 cbs with
      | (Ok c, cbs1) =>
          let u := u8 c in
          if (u =? 46) && (0 <? CBS_len cbs1) then done cbs1
          else if (u <? 48) || (57 <? u) || (seen_digit && (out =? 0))
               || ((2 ^ 64 - 1) / 10 <? out) || ((2 ^ 64 - 1) - (u - 48) <? out * 10)
          then (Fail, cbs1)
          else dotted_loop fuel (out * 10 + (u - 48)) true cbs1
      | (_, cbs1) => done cbs1
      end
  end.

Definition parse_dotted_decimal : R Z := cbs <- get ;; dotted_loop (S (length cbs)) 0 false.

(** The components after the second one. *)
Fixpoint oid_rest_loop (fuel : nat) (k : nat) (cbs : list byte) : W unit :=
  match fuel with
  | O => stuck
  | S fuel =>
      if CBS_len cbs =? 0 then ret tt else
      '(a, cbs) <- local parse_dotted_decimal cbs ;;
      add_base128_integer k a ;;
      oid_rest_loop fuel k cbs
  end.

Definition CBB_add_asn1_oid_from_text (k : nat) (text : list byte) : W unit :=
  CBB_flush k ;;
  '(a, cbs) <- local parse_dotted_decimal text ;;
  '(b, cbs) <- local parse_dotted_decimal cbs ;;
  if (2 <? a) || ((a <? 2) && (39 <? b)) || ((2 ^ 64 - 1) - 80 <? b) then fail else
  add_base128_integer k (u64 (40 * a + b)) ;;
  oid_rest_loop (S (length cbs)) k cbs.

(** ["%" PRIu64] *)
Fixpoint decimal (fuel : nat) (v : Z) : list byte :=
  match fuel with
  | O => []
  | S fuel => (if v <? 10 then [] else decimal fuel (v / 10)) ++ [b8 (48 + v mod 10)]
  end.

Definition add_decimal (k : nat) (v : Z) : W unit := CBB_add_bytes k (decimal 20 v).

Fixpoint oid_text_loop (fuel : nat) (copy : list byte) : W unit :=
  match fuel with
  | O => stuck
  | S fuel =>
      if CBS_len copy =? 0 then ret tt else
      '(v, copy) <- local parse_base128_integer copy ;;
      CBB_add_u8 0 46 ;;
      add_decimal 0 v ;;
      oid_text_loop fuel copy
  end.

(** [CBS_asn1_oid_to_text] of cbs.c: the text with its terminator. *)
Definition CBS_asn1_oid_to_text (cbs : list byte) (a : A) : outcome (list byte) * A :=
  with_writer
   (CBB_init 32 ;;
    '(v, copy) <- local parse_base128_integer cbs ;;
    (if 80 <=? v then CBB_add_bytes 0 [b8 50; b8 46] ;; add_decimal 0 (v - 80)
     else add_decimal 0 (v / 40) ;; CBB_add_u8 0 46 ;; add_decimal 0 (v mod 40)) ;;
    oid_text_loop (S (length copy)) copy ;;
    CBB_add_u8 0 0 ;;
    CBB_finish 0 true) a.

(** ** SET OF *)

(** [OPENSSL_memcmp]: the sign of the first difference. *)
Fixpoint memcmp (a b : list byte) : Z :=
  match a, b with
  | x :: a, y :: b => if u8 x =? u8 y then memcmp a b else u8 x - u8 y
  | _, _ => 0
  end.

Definition compare_set_of_element (a b : list byte) : Z :=
  let min_len := Z.min (CBS_len a) (CBS_len b) in
  let r := memcmp (ztake min_len a) (ztake min_len b) in
  if negb (r =? 0) then r
  else if CBS_len a =? CBS_len b then 0
  else if CBS_len a <? CBS_len b then -1 else 1.

(** The elements one after the other. *)
Fixpoint set_of_children (fuel : nat) (cbs : list byte) : outcome (list (list byte)) :=
  match fuel with
  | O => Stuck
  | S fuel =>
      if CBS_len cbs =? 0 then Ok [] else
      match CBS_get_any_asn1_element cbs with
      | (Ok (c, _, _), cbs1) =>
          match set_of_children fuel cbs1 with
          | Ok cs => Ok (c :: cs)
          | r => r
          end
      | (Fail, _) => Fail
      | (Stuck, _) => Stuck
      end
  end.

Fixpoint add_all (k : nat) (children : list (list byte)) : W unit :=
  match children with
  | [] => ret tt
  | c :: children => CBB_add_bytes k c ;; add_all k children
  end.

(** [m], and then [f] on the allocator whether it succeeds or not. *)
Definition finally {B} (m : W B) (f : A -> A) : W B := fun st =>
  let '(r, st) := m st in (r, mk_cbb (f (heap st)) (base st) (chain st)).

(** [qsort] is the C library's, on an array of elements. *)
Definition CBB_flush_asn1_set_of (qsort : (list byte -> list byte -> Z) -> list (list byte) -> list (list byte)) (k : nat) : W unit :=
  CBB_flush k ;;
  st <- get ;;
  match CBB_data k st with
  | None => stuck
  | Some data =>
      match set_of_children (S (length data)) data with
      | Stuck => stuck
      | Fail => fail
      | Ok children =>
          let num_children := Z.of_nat (length children) in
          if num_children <? 2 then ret tt
          else if (2 ^ 64 - 1) / 16 <? num_children then fail
          else
            let '(copy, heap1) := OPENSSL_memdup (heap st) data in
            let '(table, heap2) := OPENSSL_malloc heap1 (num_children * 16) in
            put (mk_cbb heap2 (base st) (chain st)) ;;
            finally
              (match copy, table with
               | Some _, Some _ =>
                   b <- get_base k ;;
                   set_base (set_len (content_start k st) b) ;;
                   add_all k (qsort compare_set_of_element children) ;;
                   st <- get ;;
                   match CBB_len k st with
                   | Some n => if n =? zlen data then ret tt else stuck
                   | None => stuck
                   end
               | _, _ => fail
               end)
              (fun a => free_bytes (free_bytes a (default [] copy)) (default [] table))
      end
  end.

(** The encoding and its length, unless that is too long; [keep] is when
    [*outp] is NULL and gets the block, which is freed otherwise. *)
Definition CBB_finish_i2d (keep : bool) : W (list byte) := fun st =>
  match base st with
  | Some b =>
      if negb (can_resize b) then (Stuck, st) else
      match finish_block 0 true st with
      | (Ok (der, der_len), st) =>
          let freed := mk_cbb (free_bytes (heap st) der) (base st) (chain st) in
          if INT_MAX <? der_len then (Fail, freed) else (Ok (ztake der_len der), if keep then st else freed)
      | (Fail, st) => (Fail, snd (CBB_cleanup st))
      | (Stuck, st) => (Stuck, st)
      end
  | None => (Stuck, st)
  end.
End cbb.
Arguments CBB : clear implicits.
