(* ===== verification/CbbSpec.v ===== *)
(** What the byte-string writer promises.  The abstract state of a writer is
    the stack of the contents of its open children; the concrete buffer, with
    its placeholders, moved contents and reallocations, refines it: every
    operation either behaves as on the stack or marks the writer as failed, and
    it does not fail while memory lasts, or a buffer of fixed size has room, and
    the lengths fit their prefixes. *)
From Stdlib Require Import ZArith Lia Bool.
From coqutil Require Import Byte Word.LittleEndianList.
From stdpp Require Import base list numbers sorting.
From S2P Require Import Prelude Alloc Cbs CbsSpec Cbb.
Local Open Scope Z_scope.
Local Open Scope c_scope.

Section spec.
Context {A : Type} {AL : Allocator A}.
Notation W := (M (CBB A)).

(** ** Running a writer operation *)

Definition has_base (st : CBB A) : Prop := base st <> None.
Definition failed (st : CBB A) : Prop := exists b, base st = Some b /\ error b = true.

(** [m] never reaches undefined behaviour; when it succeeds [Q] holds, and
    when it fails [F] holds and the resources [Res] were not available. *)
Definition wp (F : CBB A -> Prop) {B} (m : W B) (Res : Prop) (Q : B -> CBB A -> Prop) (st : CBB A) : Prop :=
  match m st with
  | (Ok a, st1) => Q a st1
  | (Fail, st1) => F st1 /\ ~ Res
  | (Stuck, _) => False
  end.

Lemma run_bind F {B C} (m : W B) (k : B -> W C) Res Q st :
  wp F m Res (fun a => wp F (k a) Res Q) st -> wp F (bind m k) Res Q st.
Proof. unfold wp, bind. destruct (m st) as [[a| |] st1]; auto. Qed.

Lemma run_ret F {B} (a : B) Res Q st : Q a st -> wp F (ret a) Res Q st.
Proof. auto. Qed.

Lemma run_mono F1 F2 {B} (m : W B) (Res1 Res2 : Prop) Q1 Q2 st :
  wp F1 m Res1 Q1 st -> (forall st', F1 st' -> F2 st') -> (Res2 -> Res1) ->
  (forall a st', Q1 a st' -> Q2 a st') -> wp F2 m Res2 Q2 st.
Proof. unfold wp. destruct (m st) as [[a| |] st1]; intuition. Qed.

Lemma wp_on_err {B} (m : W B) Res Q st : wp has_base m Res Q st -> wp failed (on_err m) Res Q st.
Proof.
  unfold wp, on_err. destruct (m st) as [[a| |] st1]; auto. intros [H1 H2]. split; [|exact H2].
  unfold failed, mark_error, has_base in *. cbn. destruct (base st1) as [b|]; [|contradiction].
  exists (set_error b). auto.
Qed.

Lemma failed_has_base st : failed st -> has_base st.
Proof. intros (b & E & _). unfold has_base. congruence. Qed.

Lemma wp_weak {B} (m : W B) Res Q st : wp failed m Res Q st -> wp has_base m Res Q st.
Proof. intros H. eapply run_mono; eauto using failed_has_base. Qed.

Lemma run_fail F {B} (Res : Prop) (Q : B -> CBB A -> Prop) st : F st -> ~ Res -> wp F fail Res Q st.
Proof. unfold wp. cbn. auto. Qed.

(** ** The buffer *)

(** What is known of the block: whether it can be resized, and a number of bytes
    for which it has room as it is. *)
Record space := mk_space { resizable : bool; room : Z }.

(** The first [len] bytes of the block are [bs], and the block is as [r] says. *)
Definition mem (r : space) (bs : list byte) (st : CBB A) : Prop :=
  exists b, base st = Some b /\ error b = false /\ can_resize b = resizable r /\ zlen (buf b) = cap b /\
    0 <= len b <= cap b /\ room r <= cap b < 2 ^ 64 /\ ztake (len b) (buf b) = bs.

(** There is room for [n] bytes, or the block can grow to [n] bytes. *)
Definition growable (r : space) (n : Z) : Prop :=
  n < 2 ^ 64 /\ (n <= room r \/ resizable r = true /\ reliable A).

Lemma growable_le r n m : m <= n -> growable r n -> growable r m.
Proof. intros H [? [?|?]]; (split; [lia|]); [left; lia | right; assumption]. Qed.

(** The number of children that are open. *)
Notation depth st := (length (chain st)).

Lemma mem_len r bs st b : mem r bs st -> base st = Some b -> len b = zlen bs.
Proof.
  intros (b' & E & _ & _ & Hb & Hl & _ & <-) E'. rewrite E in E'. injection E' as <-.
  rewrite zlen_ztake; lia.
Qed.

Lemma get_base_wp F k r bs st Res Q :
  mem r bs st -> (k <= depth st)%nat ->
  (forall b, base st = Some b -> len b = zlen bs -> error b = false -> Q b st) -> wp F (get_base k) Res Q st.
Proof.
  intros Hm Hk HQ. pose proof Hm as (b & E & He & _). unfold wp, get_base. rewrite E.
  destruct (Nat.ltb_spec (depth st) k); [lia|]. apply HQ; auto. eapply mem_len; eassumption.
Qed.

Lemma reserve_wp k n r bs st :
  mem r bs st -> (k <= depth st)%nat -> 0 <= n < 2 ^ 64 ->
  wp failed (cbb_buffer_reserve k n) (growable r (zlen bs + n))
    (fun _ st' => chain st' = chain st /\ mem r bs st' /\
       forall b, base st' = Some b -> zlen bs + n <= cap b) st.
Proof.
  intros Hm Hk Hn. unfold cbb_buffer_reserve. apply run_bind.
  apply (get_base_wp _ _ _ _ _ _ _ Hm Hk). intros b E Hl He. apply wp_on_err.
  pose proof Hm as (b' & E' & _ & Hr & Hc & Hlc & Hcap & Hbs). rewrite E in E'. injection E' as <-.
  pose proof (zlen_nonneg bs). rewrite Hl.
  assert (Hov : (u64 (zlen bs + n) <? zlen bs) = false -> u64 (zlen bs + n) = zlen bs + n /\ zlen bs + n < 2 ^ 64).
  { intros Hz. zbool. unfold wrap in *. destruct (Z_lt_dec (zlen bs + n) (2 ^ 64)); [rewrite Z.mod_small; lia|].
    replace (zlen bs + n) with (zlen bs + n - 2 ^ 64 + 1 * 2 ^ 64) in Hz by lia.
    rewrite Z.mod_add, Z.mod_small in Hz by lia. lia. }
  destruct (u64 (zlen bs + n) <? zlen bs) eqn:Eo.
  { apply run_fail; [unfold has_base; congruence|]. intros (H1 & _).
    rewrite wrap_small in Eo by (unfold in_word; lia). zbool. lia. }
  destruct (Hov eq_refl) as [-> Hfit].
  destruct (Z.ltb_spec (cap b) (zlen bs + n)) as [Hgrow|Hgrow].
  2: { apply run_ret. split; [reflexivity|]. split; [exact Hm|]. intros b1 E1. congruence. }
  rewrite Hr. destruct (resizable r) eqn:Er0; cbn [negb].
  2: { apply run_fail; [unfold has_base; congruence|]. intros (_ & [?|[? _]]); [lia | congruence]. }
  set (newcap := if _ : bool then _ else _).
  assert (Hnew : zlen bs + n <= newcap < 2 ^ 64 /\ cap b <= newcap).
  { subst newcap. pose proof (wrap_range 64 (cap b * 2) ltac:(lia)). unfold in_word in *.
    destruct (Z.ltb_spec (u64 (cap b * 2)) (cap b)); cbn [orb]; [lia|].
    destruct (Z.ltb_spec (u64 (cap b * 2)) (zlen bs + n)); lia. }
  clearbody newcap. unfold wp, bind, get.
  destruct (OPENSSL_realloc (heap st) (buf b) newcap) as [[newbuf|] heap1] eqn:Er; cbn.
  - pose proof (realloc_length (heap st) (buf b) newcap newbuf heap1 ltac:(lia) Er) as Hnl.
    pose proof (realloc_keeps (heap st) (buf b) newcap newbuf heap1 ltac:(lia) Er) as Hkeep.
    split; [reflexivity|]. split; [|intros b1 [= <-]; cbn; lia].
    eexists. split; [reflexivity|]. cbn. repeat split; auto; try lia.
    transitivity (ztake (zlen bs) (ztake (zlen (buf b)) newbuf)).
    + unfold ztake. rewrite take_take. f_equal. unfold zlen in *. lia.
    + rewrite Hkeep, <- Hl. exact Hbs.
  - rewrite E. split; [discriminate|]. intros (_ & [?|[_ Hrel]]); [lia|]. apply (Hrel (heap st) (buf b) newcap); [lia|].
    rewrite Er. reflexivity.
Qed.

(** Room was made for [n] more bytes, of any value. *)
Lemma add_wp k n r bs st :
  mem r bs st -> (k <= depth st)%nat -> 0 <= n < 2 ^ 64 ->
  wp failed (cbb_buffer_add k n) (growable r (zlen bs + n))
    (fun off st' => off = zlen bs /\ chain st' = chain st /\
       exists junk, zlen junk = n /\ mem r (bs ++ junk) st') st.
Proof.
  intros Hm Hk Hn. unfold cbb_buffer_add. apply run_bind.
  eapply run_mono; [apply (reserve_wp k n r bs st Hm Hk Hn) | auto | auto |].
  intros _ st1 (Hch & Hm1 & Hroom). apply run_bind.
  apply (get_base_wp _ _ _ _ _ _ _ Hm1); [rewrite Hch; exact Hk|]. intros b E Hl He.
  specialize (Hroom b E). pose proof Hm1 as (b' & E' & _ & Hr & Hc & Hlc & Hcap & Hbs).
  rewrite E in E'. injection E' as <-. unfold wp, bind, set_base, ret. cbn.
  pose proof (zlen_nonneg bs). rewrite Hl, wrap_small by (unfold in_word; lia).
  split; [reflexivity|]. split; [exact Hch|].
  exists (ztake n (zdrop (zlen bs) (buf b))). split; [rewrite zlen_ztake; [reflexivity | rewrite zlen_zdrop; lia]|].
  eexists. split; [reflexivity|]. cbn. repeat split; auto; try lia.
  rewrite Hl in Hbs. unfold ztake, zdrop in *. rewrite Z2Nat.inj_add by lia.
  rewrite <- take_take_drop. congruence.
Qed.

Lemma store_at_wp F off d r x y z st Res :
  mem r (x ++ y ++ z) st -> off = zlen x -> zlen d = zlen y ->
  wp F (store_at off d) Res (fun _ st' => chain st' = chain st /\ mem r (x ++ d ++ z) st') st.
Proof.
  intros Hm -> Hd. pose proof Hm as (b & E & He & Hr & Hc & Hl & Hcap & Hbs).
  pose proof (mem_len _ _ _ _ Hm E) as Hlen. rewrite !zlen_app in Hlen.
  pose proof (zlen_nonneg x). pose proof (zlen_nonneg z). pose proof (zlen_nonneg d).
  unfold wp, store_at. rewrite E.
  destruct (Z.ltb_spec (zlen x) 0); [lia|]. destruct (Z.ltb_spec (zlen (buf b)) (zlen x + zlen d)); [lia|].
  cbn. split; [reflexivity|]. eexists. split; [reflexivity|]. cbn. repeat split; auto; try lia.
  - rewrite zlen_splice by lia. exact Hc.
  - rewrite <- (ztake_zdrop (buf b) (len b)), Hbs, <- !app_assoc, splice_app by auto.
    rewrite !app_assoc. apply ztake_app. rewrite !zlen_app. lia.
Qed.

Lemma b8_low v : b8 v = b8 (v mod 256).
Proof. apply b8_eq. rewrite Z.mod_mod by lia. reflexivity. Qed.

Lemma be_split_S n v : be_split (S n) v = be_split n (Z.shiftr v 8) ++ [b8 v].
Proof. reflexivity. Qed.

Lemma store_be_wp F n off v r x y z st Res :
  mem r (x ++ y ++ z) st -> off = zlen x -> length y = n ->
  wp F (store_be n off v) Res
    (fun v' st' => v' = Z.shiftr v (8 * Z.of_nat n) /\ chain st' = chain st /\
       mem r (x ++ be_split n v ++ z) st') st.
Proof.
  revert v y z st; induction n as [|n IH]; intros v y z st Hm Hoff Hy; cbn [store_be].
  - destruct y; [|discriminate]. apply run_ret. rewrite Z.shiftr_0_r. auto.
  - destruct y as [|last y _] using rev_ind; [discriminate|]. rewrite length_app in Hy. cbn in Hy.
    apply run_bind. eapply run_mono.
    + rewrite <- app_assoc in Hm. rewrite app_assoc in Hm.
      apply (store_at_wp F (off + Z.of_nat n) [b8 v] r (x ++ y) [last] z st Res Hm); [|reflexivity].
      rewrite zlen_app. unfold zlen in *. lia.
    + auto.
    + auto.
    + intros _ st1 [Hch Hm1]. rewrite <- app_assoc in Hm1.
      eapply run_mono; [apply (IH (Z.shiftr v 8) y ([b8 v] ++ z) st1 Hm1 Hoff); lia | auto | auto |].
      intros v' st2 (-> & Hch2 & Hm2). rewrite Z.shiftr_shiftr by lia.
      split; [f_equal; lia|]. split; [congruence|].
      rewrite be_split_S, <- app_assoc. exact Hm2.
Qed.

(** Moving the tail [z] of the contents up over the junk after it. *)
Lemma move_wp F r x z junk st Res :
  mem r (x ++ z ++ junk) st ->
  wp F (move (zlen x + zlen junk) (zlen x) (zlen z)) Res
    (fun _ st' => chain st' = chain st /\
       exists gap, zlen gap = zlen junk /\ mem r (x ++ gap ++ z) st') st.
Proof.
  intros Hm. pose proof Hm as (b & E & He & Hr & Hc & Hl & Hcap & Hbs).
  pose proof (mem_len _ _ _ _ Hm E) as Hlen. rewrite !zlen_app in Hlen.
  pose proof (zlen_nonneg x). pose proof (zlen_nonneg z). pose proof (zlen_nonneg junk).
  unfold wp, move. rewrite E.
  destruct (Z.ltb_spec (zlen x) 0); [lia|]. destruct (Z.ltb_spec (zlen (buf b)) (zlen x + zlen z)); [lia|].
  cbn [orb].
  assert (Hz : ztake (zlen z) (zdrop (zlen x) (buf b)) = z).
  { rewrite <- (ztake_zdrop (buf b) (len b)), Hbs, <- !app_assoc.
    rewrite zdrop_app, ztake_app by reflexivity. reflexivity. }
  rewrite Hz.
  set (gap := ztake (zlen junk) (z ++ junk)).
  assert (Hgap : zlen gap = zlen junk) by (subst gap; rewrite zlen_ztake; [reflexivity | rewrite zlen_app; lia]).
  assert (Hsplit : z ++ junk = gap ++ zdrop (zlen junk) (z ++ junk)) by (symmetry; apply ztake_zdrop).
  assert (Hm' : mem r ((x ++ gap) ++ zdrop (zlen junk) (z ++ junk) ++ []) st)
    by (rewrite app_nil_r, <- app_assoc, <- Hsplit; exact Hm).
  pose proof (fun Res => store_at_wp F (zlen x + zlen junk) z r _ _ _ st Res Hm') as Hs.
  specialize (Hs Res ltac:(rewrite zlen_app; lia)).
  assert (Hz2 : zlen z = zlen (zdrop (zlen junk) (z ++ junk)))
    by (rewrite zlen_zdrop by (rewrite zlen_app; lia); rewrite zlen_app; lia).
  eapply run_mono; [exact (Hs Hz2) | auto | auto |].
  intros u st1 [Hs1 Hs2]. split; [exact Hs1|]. exists gap. split; [exact Hgap|].
  rewrite app_nil_r, <- app_assoc in Hs2. exact Hs2.
Qed.

(** ** The abstract writer *)

(** The prefix of a child: none (the top-level writer), a big-endian length
    of [n] bytes, or a DER length. *)
Inductive prefix := root | fixed (n : nat) | asn1.

Definition hole_len (p : prefix) : Z :=
  match p with root => 0 | fixed n => Z.of_nat n | asn1 => 1 end.

Definition proper (p : prefix) : Prop :=
  match p with root => False | fixed n => (1 <= n <= 3)%nat | asn1 => True end.

(** The DER length octets. *)
Definition der_length (n : Z) : option (list byte) :=
  if 0xfffffffe <? n then None
  else if 0xffffff <? n then Some (b8 0x84 :: be_split 4 n)
  else if 0xffff <? n then Some (b8 0x83 :: be_split 3 n)
  else if 0xff <? n then Some (b8 0x82 :: be_split 2 n)
  else if 0x7f <? n then Some (b8 0x81 :: be_split 1 n)
  else Some [b8 n].

Definition prefix_bytes (p : prefix) (n : Z) : option (list byte) :=
  match p with
  | root => Some []
  | fixed k => if n <? 2 ^ (8 * Z.of_nat k) then Some (be_split k n) else None
  | asn1 => der_length n
  end.

(** The open writers, outermost first, with the contents of each. *)
Definition levels : Type := list (prefix * list byte).

(** What closing the children [cs] adds to their parent. *)
Fixpoint encode (cs : levels) : option (list byte) :=
  match cs with
  | [] => Some []
  | (p, c) :: cs =>
      match encode cs with
      | None => None
      | Some e => match prefix_bytes p (zlen (c ++ e)) with
                  | None => None
                  | Some l => Some (l ++ c ++ e)
                  end
      end
  end.

(** The buffer: contents with zeroed placeholders for the prefixes. *)
Fixpoint layout (cs : levels) : list byte :=
  match cs with
  | [] => []
  | (p, c) :: cs => (zeros (hole_len p) ++ c) ++ layout cs
  end.

Fixpoint children_of (off : Z) (cs : levels) : list child :=
  match cs with
  | [] => []
  | (p, c) :: cs =>
      mk_child off (hole_len p) (match p with asn1 => true | _ => false end)
      :: children_of (off + hole_len p + zlen c) cs
  end.

(** A top-level writer and proper children. *)
Definition well_formed (ls : levels) : Prop :=
  match ls with
  | (root, _) :: cs => Forall (fun pc => proper (fst pc)) cs
  | _ => False
  end.

(** The representation invariant. *)
Definition rep (r : space) (st : CBB A) (ls : levels) : Prop :=
  mem r (layout ls) st /\ well_formed ls /\ chain st = tail (children_of 0 ls).

Lemma layout_app l1 l2 : layout (l1 ++ l2) = layout l1 ++ layout l2.
Proof. induction l1 as [|[p c] l1 IH]; cbn; [reflexivity|]. rewrite IH, app_assoc. reflexivity. Qed.

Lemma hole_len_nonneg p : 0 <= hole_len p.
Proof. destruct p; cbn; lia. Qed.

Lemma zlen_hole p : zlen (zeros (hole_len p)) = hole_len p.
Proof. apply zlen_zeros, hole_len_nonneg. Qed.

Lemma children_of_app off l1 l2 :
  children_of off (l1 ++ l2) = children_of off l1 ++ children_of (off + zlen (layout l1)) l2.
Proof.
  revert off; induction l1 as [|[p c] l1 IH]; intros off; cbn [children_of app layout].
  - rewrite zlen_nil, Z.add_0_r. reflexivity.
  - rewrite IH, !zlen_app, zlen_hole. do 3 f_equal. lia.
Qed.

Lemma length_children_of off cs : length (children_of off cs) = length cs.
Proof. revert off; induction cs as [|[p c] cs IH]; intros off; cbn; [reflexivity|]. rewrite IH. reflexivity. Qed.

(** ** Flushing *)

Lemma asn1_length_der n :
  0 <= n ->
  match asn1_length n with
  | None => der_length n = None
  | Some (len_len, b, n') =>
      der_length n = Some (b8 b :: be_split (Z.to_nat (len_len - 1)) n') /\ 1 <= len_len <= 5 /\
      Z.shiftr n' (8 * (len_len - 1)) = 0
  end.
Proof.
  intros Hn. unfold asn1_length, der_length.
  destruct (Z.ltb_spec 0xfffffffe n); [reflexivity|].
  destruct (Z.ltb_spec 0xffffff n).
  { split; [reflexivity|]. split; [lia|]. rewrite shiftr_div by lia. apply Z.div_small. cbn; lia. }
  destruct (Z.ltb_spec 0xffff n).
  { split; [reflexivity|]. split; [lia|]. rewrite shiftr_div by lia. apply Z.div_small. cbn; lia. }
  destruct (Z.ltb_spec 0xff n).
  { split; [reflexivity|]. split; [lia|]. rewrite shiftr_div by lia. apply Z.div_small. cbn; lia. }
  destruct (Z.ltb_spec 0x7f n).
  { split; [reflexivity|]. split; [lia|]. rewrite shiftr_div by lia. apply Z.div_small. cbn; lia. }
  split; [reflexivity|]. split; [lia|]. reflexivity.
Qed.

Lemma mem_has_base r bs st : mem r bs st -> has_base st.
Proof. intros (b & E & _). unfold has_base. congruence. Qed.

(** The contents are shifted by the extra length octets, if there are any. *)
Lemma make_space_wp k r pre hole body st n (Res : Prop) :
  mem r (pre ++ hole ++ body) st -> zlen hole = 1 -> (k <= depth st)%nat -> 1 <= n <= 5 ->
  (Res -> growable r (zlen pre + n + zlen body)) ->
  wp has_base
    (if negb (n =? 1) then
       cbb_buffer_add k (n - 1) ;; move (zlen pre + 1 + (n - 1)) (zlen pre + 1) (zlen body)
     else ret tt) Res
    (fun _ st' => chain st' = chain st /\
       exists gap, zlen gap = n - 1 /\ mem r (pre ++ hole ++ gap ++ body) st') st.
Proof.
  intros Hm Hh Hk Hn HRes. pose proof (zlen_nonneg pre). pose proof (zlen_nonneg body).
  destruct (Z.eqb_spec n 1) as [->|]; cbn [negb].
  { apply run_ret. split; [reflexivity|]. exists []. split; [reflexivity | exact Hm]. }
  apply run_bind. apply wp_weak. eapply run_mono; [apply (add_wp k (n - 1) r _ st Hm Hk); lia | auto | |].
  - intros HR. eapply growable_le; [|apply HRes, HR]. rewrite !zlen_app. lia.
  - intros off st1 (_ & Hch & junk & Hj & Hm1).
    replace (zlen pre + 1 + (n - 1)) with (zlen (pre ++ hole) + zlen junk) by (rewrite zlen_app; lia).
    replace (zlen pre + 1) with (zlen (pre ++ hole)) by (rewrite zlen_app; lia).
    assert (Hm1' : mem r ((pre ++ hole) ++ body ++ junk) st1) by (rewrite <- !app_assoc in *; exact Hm1).
    eapply run_mono; [apply (move_wp has_base r _ _ _ st1 Res Hm1') | auto | auto |].
    intros _ st2 (Hch2 & gap & Hg & Hm2). split; [congruence|]. exists gap. split; [lia|].
    rewrite <- app_assoc in Hm2. exact Hm2.
Qed.

Lemma flush_prefix_wp k p r pre body st :
  mem r (pre ++ zeros (hole_len p) ++ body) st -> proper p -> (k <= depth st)%nat ->
  let c := mk_child (zlen pre) (hole_len p) (match p with asn1 => true | _ => false end) in
  wp has_base (flush_prefix k c (zlen pre + hole_len p) (zlen body))
    (exists l, prefix_bytes p (zlen body) = Some l /\ growable r (zlen pre + zlen l + zlen body))
    (fun _ st' => chain st' = chain st /\
       exists l, prefix_bytes p (zlen body) = Some l /\ mem r (pre ++ l ++ body) st') st.
Proof.
  intros Hm Hp Hk c. pose proof (zlen_nonneg body). pose proof (zlen_nonneg pre). unfold flush_prefix.
  subst c. cbn [pending_is_asn1 offset pending_len_len]. destruct p as [|n|]; [contradiction| |].
  - cbn [hole_len] in *. unfold wp at 1. unfold bind at 1, ret at 1. rewrite Nat2Z.id.
    change (wp has_base (len <- store_be n (zlen pre) (zlen body);; (if negb (len =? 0) then fail else ret ())) 
      (exists l, prefix_bytes (fixed n) (zlen body) = Some l /\ growable r (zlen pre + zlen l + zlen body))
      (fun _ st' => chain st' = chain st /\
        exists l, prefix_bytes (fixed n) (zlen body) = Some l /\ mem r (pre ++ l ++ body) st') st).
    apply run_bind. eapply run_mono; [apply (store_be_wp has_base n _ (zlen body) r _ _ _ st True Hm eq_refl) | auto | auto |].
    { unfold zeros. rewrite repeat_length. lia. }
    intros v st1 (-> & Hch & Hm1). rewrite shiftr_zero by lia. cbn [prefix_bytes].
    destruct (Z.ltb_spec (zlen body) (2 ^ (8 * Z.of_nat n))); cbn [negb].
    + apply run_ret. split; [exact Hch|]. eauto.
    + apply run_fail; [eapply mem_has_base, Hm1 | intros (l & E & _); discriminate].
  - cbn [hole_len prefix_bytes] in *. pose proof (asn1_length_der (zlen body) ltac:(lia)) as Hder.
    destruct (asn1_length (zlen body)) as [[[ll ib] n']|].
    2: { rewrite Hder. apply run_bind. apply run_fail; [eapply mem_has_base, Hm | intros (l & E & _); discriminate]. }
    destruct Hder as (Hder & Hll & Hsh). rewrite Hder.
    assert (Hl : forall l, Some (b8 ib :: be_split (Z.to_nat (ll - 1)) n') = Some l -> zlen l = ll).
    { intros l [= <-]. rewrite zlen_cons. unfold zlen. rewrite length_be_split. lia. }
    apply run_bind, run_bind.
    eapply run_mono; [apply (make_space_wp k r pre _ body st ll _ Hm eq_refl Hk Hll) | auto | |].
    { intros HR. exact HR. }
    { intros (l & E & Hg). rewrite (Hl l E) in Hg. exact Hg. }
    intros _ st1 (Hch & gap & Hg & Hm1). apply run_bind.
    eapply run_mono; [apply (store_at_wp has_base _ [b8 ib] r _ _ _ st1 True Hm1); reflexivity | auto | auto |].
    intros _ st2 (Hch2 & Hm2). apply run_ret. apply run_bind.
    assert (Hm2' : mem r ((pre ++ [b8 ib]) ++ gap ++ body) st2) by (rewrite <- app_assoc; exact Hm2).
    eapply run_mono; [apply (store_be_wp has_base (Z.to_nat (ll - 1)) _ n' r _ _ _ st2 True Hm2') | auto | auto |].
    { rewrite zlen_app, zlen_cons, zlen_nil. lia. }
    { unfold zlen in Hg. lia. }
    intros v st3 (-> & Hch3 & Hm3). rewrite Z2Nat.id, Hsh by lia. cbn [Z.eqb negb].
    apply run_ret. split; [congruence|]. eexists. split; [reflexivity|].
    rewrite <- app_assoc in Hm3. exact Hm3.
Qed.

Lemma well_formed_app ls p c cs :
  well_formed (ls ++ (p, c) :: cs) <-> well_formed (ls ++ [(p, c)]) /\ Forall (fun pc => proper (fst pc)) cs.
Proof.
  destruct ls as [|[[] c0] ls]; cbn; try tauto.
  - destruct p; cbn; try tauto. split; [intros H; split; [constructor | exact H] | tauto].
  - rewrite !Forall_app, Forall_cons_iff. split; [intros (? & ? & ?) | intros ((? & Hl) & ?)]; auto.
    inversion_clear Hl. auto.
Qed.

Lemma well_formed_last ls p c c' : well_formed (ls ++ [(p, c)]) -> well_formed (ls ++ [(p, c')]).
Proof.
  destruct ls as [|[[] c0] ls]; cbn; auto.
  rewrite !Forall_app. intros [H1 H2]. split; [exact H1|]. inversion_clear H2. constructor; auto.
Qed.

(** The chain up to a writer does not depend on its contents. *)
Definition chain_to (ls : levels) (p : prefix) : list child := tail (children_of 0 (ls ++ [(p, [])])).

Lemma chain_to_spec ls p c : tail (children_of 0 (ls ++ [(p, c)])) = chain_to ls p.
Proof. unfold chain_to. rewrite !children_of_app. reflexivity. Qed.

Lemma length_chain_to ls p : length (chain_to ls p) = length ls.
Proof.
  unfold chain_to. rewrite children_of_app. cbn [children_of].
  destruct ls as [|[q c] ls]; [reflexivity|]. cbn. rewrite length_app, length_children_of. cbn. lia.
Qed.

Lemma chain_split r st ls p c cs :
  rep r st (ls ++ (p, c) :: cs) ->
  chain st = chain_to ls p ++ children_of (zlen (layout (ls ++ [(p, c)]))) cs.
Proof.
  intros (_ & _ & ->). change ((p, c) :: cs) with ([(p, c)] ++ cs). rewrite app_assoc, children_of_app.
  rewrite <- (chain_to_spec ls p c). destruct ls as [|[q d] ls]; reflexivity.
Qed.

Lemma rep_last r st ls p c :
  rep r st (ls ++ [(p, c)]) -> chain st = chain_to ls p /\ length (chain st) = length ls.
Proof. intros H. pose proof (chain_split _ _ _ _ _ _ H) as E. cbn in E. rewrite app_nil_r in E.
  rewrite E, length_chain_to. auto. Qed.

(** Contents appended to the last writer. *)
Lemma rep_extend r st st' ls p c d :
  rep r st (ls ++ [(p, c)]) -> chain st' = chain st -> mem r (layout (ls ++ [(p, c)]) ++ d) st' ->
  rep r st' (ls ++ [(p, c ++ d)]).
Proof.
  intros Hrep Hch Hm. pose proof (rep_last _ _ _ _ _ Hrep) as [Hc _].
  destruct Hrep as (_ & Hwf & _). split; [|split].
  - rewrite layout_app in *. cbn [layout] in *. rewrite !app_nil_r in *. rewrite <- !app_assoc in *. exact Hm.
  - eapply well_formed_last, Hwf.
  - rewrite chain_to_spec. congruence.
Qed.

Lemma prefix_bytes_longer p n l : proper p -> prefix_bytes p n = Some l -> hole_len p <= zlen l.
Proof.
  intros Hp. destruct p as [|k|]; [contradiction| |]; cbn [prefix_bytes hole_len].
  - destruct (_ <? _); intros [= <-]. unfold zlen. rewrite length_be_split. lia.
  - unfold der_length. repeat zif; intros [= <-]; rewrite zlen_cons; unfold zlen; cbn [length]; lia.
Qed.

(** The buffer of a writer whose first open child is [(p1, c1)]. *)
Lemma layout_child ls p c p1 c1 cs :
  layout (ls ++ (p, c) :: (p1, c1) :: cs) = layout (ls ++ [(p, c)]) ++ zeros (hole_len p1) ++ c1 ++ layout cs.
Proof.
  change ((p, c) :: (p1, c1) :: cs) with ([(p, c)] ++ (p1, c1) :: cs).
  rewrite app_assoc, layout_app. cbn [layout]. rewrite <- app_assoc. reflexivity.
Qed.

(** What the recursive call and the prefix need is at most what the whole
    flush was promised. *)
Lemma encode_resources r n p1 c1 cs :
  proper p1 ->
  (exists e, encode ((p1, c1) :: cs) = Some e /\ growable r (n + zlen e)) ->
  exists e1 l, encode cs = Some e1 /\ prefix_bytes p1 (zlen (c1 ++ e1)) = Some l /\
    growable r (n + hole_len p1 + zlen c1 + zlen e1) /\ growable r (n + zlen l + zlen (c1 ++ e1)).
Proof.
  intros Hp (e & Ee & Hg). cbn [encode] in Ee. destruct (encode cs) as [e1|]; [|discriminate].
  destruct (prefix_bytes p1 _) as [l|] eqn:El; [|discriminate]. injection Ee as <-.
  exists e1, l. pose proof (prefix_bytes_longer _ _ _ Hp El).
  do 2 (split; [first [reflexivity | assumption]|]). split; (eapply growable_le; [|exact Hg]); rewrite !zlen_app; lia.
Qed.

(** Once the prefix [l] is written, the child is part of its parent. *)
Lemma close_child r ls p c p1 c1 d st st1 :
  rep r st ((ls ++ [(p, c)]) ++ [(p1, c1)]) -> chain st1 = chain st ->
  mem r (layout (ls ++ [(p, c)]) ++ d) st1 ->
  rep r (mk_cbb (heap st1) (base st1) (take (length ls) (chain st1))) (ls ++ [(p, c ++ d)]).
Proof.
  intros Hrep Hch Hm. pose proof (rep_last _ _ _ _ _ Hrep) as [Hc _].
  destruct Hrep as (_ & Hwf & _). rewrite <- app_assoc in Hwf.
  apply well_formed_app in Hwf as [Hwf _]. split; [|split].
  - destruct Hm as (b & E & Hb). exists b. split; [exact E|].
    rewrite layout_app in *. cbn [layout] in *. rewrite !app_nil_r, <- !app_assoc in *. exact Hb.
  - eapply well_formed_last, Hwf.
  - cbn [chain]. rewrite chain_to_spec, Hch, Hc. unfold chain_to at 1. rewrite children_of_app. cbn [children_of].
    rewrite <- (chain_to_spec ls p c). pose proof (length_children_of 0 (ls ++ [(p, c)])) as Hlen.
    rewrite length_app in Hlen. cbn [length] in Hlen.
    destruct (children_of 0 (ls ++ [(p, c)])) as [|q rest]; [cbn in Hlen; lia|]. cbn [tail app].
    cbn [length] in Hlen. rewrite take_app_le, firstn_all2; [reflexivity | lia | lia].
Qed.

Lemma flush_from_wp cs : forall fuel ls p c r st,
  rep r st (ls ++ (p, c) :: cs) -> (length cs <= fuel)%nat ->
  wp failed (flush_from fuel (length ls))
    (exists e, encode cs = Some e /\ growable r (zlen (layout (ls ++ [(p, c)])) + zlen e))
    (fun _ st' => exists e, encode cs = Some e /\ rep r st' (ls ++ [(p, c ++ e)])) st.
Proof.
  induction cs as [|[p1 c1] cs IH]; intros fuel ls p c r st Hrep Hfuel;
    pose proof (chain_split _ _ _ _ _ _ Hrep) as Hch; pose proof Hrep as (Hm & Hwf & _);
    (assert (Hdepth : (length ls <= depth st)%nat) by (rewrite Hch, length_app, length_chain_to; lia)).
  - destruct fuel as [|fuel]; cbn [flush_from]; apply run_bind; apply (get_base_wp _ _ _ _ _ _ _ Hm Hdepth);
      intros b E Hl He; rewrite He; apply run_bind; unfold wp at 1, get; rewrite Hch;
      cbn [children_of]; rewrite app_nil_r, lookup_ge_None_2 by (rewrite length_chain_to; lia);
      exists []; rewrite app_nil_r; auto.
  - destruct fuel as [|fuel]; [cbn in Hfuel; lia|]. cbn [flush_from]. apply run_bind.
    apply (get_base_wp _ _ _ _ _ _ _ Hm Hdepth). intros b E Hl He. rewrite He. apply run_bind. unfold wp at 1, get.
    rewrite Hch. cbn [children_of]. rewrite list_lookup_middle by (rewrite length_chain_to; reflexivity).
    set (ch := mk_child _ (hole_len p1) _). cbn [pending_len_len offset ch].
    apply well_formed_app in Hwf as [_ Hprop]. inversion_clear Hprop as [|? ? Hp1 _]. cbn in Hp1.
    assert (Hh : 1 <= hole_len p1) by (destruct p1; cbn in *; lia || contradiction).
    destruct (Z.eqb_spec (hole_len p1) 0); [lia|].
    rewrite layout_child in *. set (pre := layout (ls ++ [(p, c)])) in *.
    pose proof (zlen_nonneg pre). pose proof (zlen_nonneg c1).
    assert (Hsmall : zlen pre + hole_len p1 < 2 ^ 64).
    { destruct Hm as (b' & E' & _ & _ & _ & Hlb & Hcap & _). rewrite E in E'. injection E' as <-.
      rewrite Hl, !zlen_app, zlen_hole in Hlb. pose proof (zlen_nonneg (layout cs)). lia. }
    rewrite wrap_small by (unfold in_word; lia). apply wp_on_err, run_bind, wp_weak.
    assert (Hrep1 : rep r st ((ls ++ [(p, c)]) ++ (p1, c1) :: cs)) by (rewrite <- app_assoc; exact Hrep).
    assert (Hk1 : S (length ls) = length (ls ++ [(p, c)])) by (rewrite length_app; cbn; lia).
    rewrite Hk1. eapply run_mono; [apply (IH fuel _ p1 c1 r st Hrep1); cbn in Hfuel; lia | auto | |].
    { intros HR. apply encode_resources in HR as (e1 & l & E1 & _ & Hg & _); [|exact Hp1].
      exists e1. split; [exact E1|]. rewrite layout_app. fold pre. cbn [layout].
      rewrite !zlen_app, zlen_nil, zlen_hole. eapply growable_le; [|exact Hg]. lia. }
    intros _ st1 (e1 & Ee1 & Hrep2). pose proof (rep_last _ _ _ _ _ Hrep2) as [_ Hd2].
    pose proof Hrep2 as (Hm2 & _ & _). rewrite layout_app in Hm2. fold pre in Hm2. cbn [layout] in Hm2.
    rewrite app_nil_r in Hm2. pose proof (zlen_nonneg e1). apply run_bind.
    apply (get_base_wp _ _ _ _ _ _ _ Hm2); [lia|]. intros b2 E2 Hl2 He2. rewrite Hl2, !zlen_app, zlen_hole.
    destruct (Z.ltb_spec (zlen pre + hole_len p1) (zlen pre)); [lia|]. cbn [orb].
    destruct (Z.ltb_spec (zlen pre + (hole_len p1 + (zlen c1 + zlen e1))) (zlen pre + hole_len p1)); [lia|].
    replace (zlen pre + (hole_len p1 + (zlen c1 + zlen e1)) - (zlen pre + hole_len p1)) with (zlen (c1 ++ e1))
      by (rewrite zlen_app; lia).
    apply run_bind. eapply run_mono; [apply (flush_prefix_wp (length ls) p1 r pre (c1 ++ e1) st1 Hm2 Hp1); lia | auto | |].
    { intros HR. apply encode_resources in HR as (e1' & l & E1 & El & _ & Hg); [|exact Hp1].
      rewrite Ee1 in E1. injection E1 as <-. eauto. }
    intros _ st2 (Hch3 & l & El & Hm3). unfold wp, bind, get, set_chain. cbn [encode]. rewrite Ee1, El.
    eexists. split; [reflexivity|]. eapply close_child; eassumption.
Qed.

(** Flushing the writer at any depth closes the children below it. *)
Lemma CBB_flush_wp ls p c cs r st :
  rep r st (ls ++ (p, c) :: cs) ->
  wp failed (CBB_flush (length ls))
    (exists e, encode cs = Some e /\ growable r (zlen (layout (ls ++ [(p, c)])) + zlen e))
    (fun _ st' => exists e, encode cs = Some e /\ rep r st' (ls ++ [(p, c ++ e)])) st.
Proof.
  intros H. unfold CBB_flush. apply run_bind. unfold wp at 1, get.
  apply flush_from_wp; [exact H|]. rewrite (chain_split _ _ _ _ _ _ H), length_app, length_children_of. lia.
Qed.

(** ** Adding data *)

(** [m] closes the children of the writer at depth [k] and appends [data] to
    its contents. *)
Definition adds (k : nat) (m : W unit) (data : list byte) : Prop :=
  forall ls p c cs r st, length ls = k -> rep r st (ls ++ (p, c) :: cs) ->
    wp failed m
      (exists e, encode cs = Some e /\ growable r (zlen (layout (ls ++ [(p, c)])) + zlen e + zlen data))
      (fun _ st' => exists e, encode cs = Some e /\ rep r st' (ls ++ [(p, c ++ e ++ data)])) st.

Lemma layout_extend ls p c d : layout (ls ++ [(p, c ++ d)]) = layout (ls ++ [(p, c)]) ++ d.
Proof. rewrite !layout_app. cbn. rewrite !app_nil_r, <- !app_assoc. reflexivity. Qed.

(** After a flush there is nothing left to close. *)
Lemma adds_after_flush k (m : W unit) data :
  (forall ls p c r st, length ls = k -> rep r st (ls ++ [(p, c)]) ->
     wp failed m (growable r (zlen (layout (ls ++ [(p, c)])) + zlen data))
       (fun _ st' => rep r st' (ls ++ [(p, c ++ data)])) st) ->
  adds k (CBB_flush k ;; m) data.
Proof.
  intros H ls p c cs r st <- Hrep. pose proof (zlen_nonneg data). apply run_bind.
  eapply run_mono; [apply (CBB_flush_wp _ _ _ _ _ _ Hrep) | auto | |].
  - intros (e & E & Hg). exists e. split; [exact E|]. eapply growable_le; [|exact Hg]. lia.
  - intros _ st1 (e & E & Hrep1). eapply run_mono; [apply (H _ _ _ _ _ eq_refl Hrep1) | auto | |].
    + intros (e' & E' & Hg). rewrite E in E'. injection E' as <-.
      rewrite layout_extend, zlen_app. exact Hg.
    + intros ? st2 Hrep2. exists e. split; [exact E|]. rewrite app_assoc. exact Hrep2.
Qed.

Lemma adds_seq k m1 m2 d1 d2 : adds k m1 d1 -> adds k m2 d2 -> adds k (m1 ;; m2) (d1 ++ d2).
Proof.
  intros H1 H2 ls p c cs r st Hk Hrep. pose proof (zlen_nonneg d2). apply run_bind.
  eapply run_mono; [apply (H1 _ _ _ _ _ _ Hk Hrep) | auto | |].
  - intros (e & E & Hg). exists e. split; [exact E|]. eapply growable_le; [|exact Hg].
    rewrite zlen_app. lia.
  - intros _ st1 (e & E & Hrep1). eapply run_mono; [apply (H2 _ _ _ [] _ _ Hk Hrep1) | auto | |].
    + intros (e' & E' & Hg). rewrite E in E'. injection E' as <-. exists []. split; [reflexivity|].
      rewrite layout_extend. rewrite !zlen_app in *. change (zlen (@nil byte)) with 0. eapply growable_le; [|exact Hg]. lia.
    + intros _ st2 (e' & E' & Hrep2). cbn in E'. injection E' as E'. subst e'. exists e. split; [exact E|].
      cbn [app] in Hrep2. rewrite <- !app_assoc in Hrep2. exact Hrep2.
Qed.

Lemma adds_flush k : adds k (CBB_flush k) [].
Proof.
  intros ls p c cs r st <- Hrep. change (zlen (@nil byte)) with 0.
  eapply run_mono; [apply (CBB_flush_wp _ _ _ _ _ _ Hrep) | auto | |].
  - intros (e & E & Hg). exists e. split; [exact E|]. eapply growable_le; [|exact Hg]. lia.
  - intros _ st1 (e & E & Hrep1). exists e. rewrite app_nil_r. auto.
Qed.

Lemma adds_bytes k data : zlen data < 2 ^ 64 -> adds k (CBB_add_bytes k data) data.
Proof.
  intros Hd. apply adds_after_flush. intros ls p c r st <- Hrep. pose proof (zlen_nonneg data).
  pose proof (rep_last _ _ _ _ _ Hrep) as [_ Hdep]. pose proof Hrep as (Hm & _ & _). apply run_bind.
  eapply run_mono; [apply (add_wp _ (zlen data) r _ _ Hm); lia | auto | auto |].
  intros off st1 (-> & Hch & junk & Hj & Hm1). rewrite <- (app_nil_r junk) in Hm1.
  eapply run_mono; [apply (store_at_wp failed _ data r _ _ _ st1 True Hm1 eq_refl); lia | auto | auto |].
  intros _ st2 (Hch2 & Hm2). rewrite app_nil_r in Hm2. eapply rep_extend; [exact Hrep | congruence | exact Hm2].
Qed.

(** A big-endian integer of [n] bytes, when it fits. *)
Lemma adds_u k v n : (1 <= n <= 8)%nat -> 0 <= v < 2 ^ (8 * Z.of_nat n) ->
  adds k (CBB_flush k ;; cbb_buffer_add_u k v n) (be_split n v).
Proof.
  intros Hn Hv. apply adds_after_flush. intros ls p c r st <- Hrep.
  assert (Hlen : zlen (be_split n v) = Z.of_nat n) by (unfold zlen; rewrite length_be_split; reflexivity).
  pose proof (rep_last _ _ _ _ _ Hrep) as [_ Hdep]. pose proof Hrep as (Hm & _ & _).
  unfold cbb_buffer_add_u. destruct (Nat.eqb_spec n 0); [lia|]. apply run_bind.
  eapply run_mono; [apply (add_wp _ (Z.of_nat n) r _ _ Hm); lia | auto | rewrite Hlen; auto |].
  intros off st1 (-> & Hch & junk & Hj & Hm1). rewrite <- (app_nil_r junk) in Hm1. apply run_bind.
  eapply run_mono; [apply (store_be_wp failed n _ v r _ _ _ st1 True Hm1 eq_refl) | auto | auto |].
  { unfold zlen in Hj. lia. }
  intros v' st2 (-> & Hch2 & Hm2). rewrite shiftr_zero by lia. destruct (Z.ltb_spec v (2 ^ (8 * Z.of_nat n))); [|lia].
  cbn [negb]. apply run_ret. rewrite app_nil_r in Hm2. eapply rep_extend; [exact Hrep | congruence | exact Hm2].
Qed.

Lemma adds_u8 k v : 0 <= v < 256 -> adds k (CBB_add_u8 k v) [b8 v].
Proof. intros Hv. apply (adds_u k v 1); [lia | exact Hv]. Qed.

Lemma adds_zeros k n : 0 <= n < 2 ^ 64 -> adds k (CBB_add_zeros k n) (zeros n).
Proof.
  intros Hn ls p c cs r st Hk Hrep.
  pose proof (adds_bytes k (zeros n) ltac:(rewrite zlen_zeros; lia) ls p c cs r st Hk Hrep) as H.
  unfold CBB_add_bytes, CBB_add_zeros, CBB_add_space, wp, bind in *. rewrite zlen_zeros in H by lia.
  rewrite zlen_zeros by lia. destruct (CBB_flush k st) as [[u| |] st1]; exact H.
Qed.

(** A number with its bytes in the other order. *)
Lemma bswap_be_split n v : 0 <= v < 2 ^ (8 * Z.of_nat n) ->
  be_split n (CRYPTO_bswap n v) = le_split n v /\ 0 <= CRYPTO_bswap n v < 2 ^ (8 * Z.of_nat n).
Proof.
  intros Hv. unfold CRYPTO_bswap, be_split. set (l := rev (le_split n v)).
  assert (Hl : length l = n) by (unfold l; rewrite length_rev, length_le_split; reflexivity). split.
  - rewrite <- Hl at 1. rewrite split_le_combine. apply rev_involutive.
  - pose proof (le_combine_bound l) as H. rewrite Hl in H. exact H.
Qed.

(** [m] closes the children of the writer at depth [k] and appends [n] bytes of
    any value to its contents; it returns where they are in the buffer. *)
Definition adds_space (k : nat) (m : W Z) (n : Z) : Prop :=
  forall ls p c cs r st, length ls = k -> rep r st (ls ++ (p, c) :: cs) ->
    wp failed m
      (exists e, encode cs = Some e /\ growable r (zlen (layout (ls ++ [(p, c)])) + zlen e + n))
      (fun off st' => exists e junk, encode cs = Some e /\ zlen junk = n /\ off = zlen (layout (ls ++ [(p, c)]) ++ e) /\
         rep r st' (ls ++ [(p, c ++ e ++ junk)])) st.

Lemma CBB_add_space_adds k n : 0 <= n < 2 ^ 64 -> adds_space k (CBB_add_space k n) n.
Proof.
  intros Hn ls p c cs r st <- Hrep. unfold CBB_add_space. apply run_bind.
  eapply run_mono; [apply (CBB_flush_wp _ _ _ _ _ _ Hrep) | auto | |].
  { intros (e & E & Hg). exists e. split; [exact E|]. eapply growable_le; [|exact Hg]. lia. }
  intros _ st1 (e & E & Hrep1). pose proof (rep_last _ _ _ _ _ Hrep1) as [_ Hdep]. pose proof Hrep1 as (Hm & _ & _).
  eapply run_mono; [apply (add_wp _ n r _ _ Hm); lia | auto | |].
  - intros (e' & E' & Hg). rewrite E in E'. injection E' as <-. rewrite layout_extend, zlen_app. exact Hg.
  - intros off st2 (-> & Hch & junk & Hj & Hm1). exists e, junk. rewrite layout_extend. do 3 (split; [first [exact E | exact Hj | reflexivity]|]).
    rewrite app_assoc. eapply rep_extend; [exact Hrep1 | exact Hch | exact Hm1].
Qed.

(** ** Children *)

(** [m] opens a child with prefix [q] after [data]. *)
Definition opens (k : nat) (m : W unit) (data : list byte) (q : prefix) : Prop :=
  forall ls p c cs r st, length ls = k -> rep r st (ls ++ (p, c) :: cs) ->
    wp failed m
      (exists e, encode cs = Some e /\
         growable r (zlen (layout (ls ++ [(p, c)])) + zlen e + zlen data + hole_len q))
      (fun _ st' => exists e, encode cs = Some e /\ rep r st' (ls ++ [(p, c ++ e ++ data); (q, [])])) st.

(** The new child is placed behind the contents. *)
Lemma rep_open r st st' ls p c q :
  rep r st (ls ++ [(p, c)]) -> proper q -> mem r (layout (ls ++ [(p, c)]) ++ zeros (hole_len q)) st' ->
  chain st' = take (length ls) (chain st) ++
    [mk_child (zlen (layout (ls ++ [(p, c)]))) (hole_len q) (match q with asn1 => true | _ => false end)] ->
  rep r st' (ls ++ [(p, c); (q, [])]).
Proof.
  intros Hrep Hq Hm Hch. pose proof (rep_last _ _ _ _ _ Hrep) as [Hc Hd]. destruct Hrep as (_ & Hwf & _).
  rewrite firstn_all2, Hc in Hch by lia.
  change (ls ++ [(p, c); (q, [])]) with (ls ++ [(p, c)] ++ [(q, [])]). rewrite app_assoc. split; [|split].
  - rewrite layout_app. cbn [layout]. rewrite !app_nil_r. exact Hm.
  - rewrite <- app_assoc. apply well_formed_app. split; [exact Hwf|]. constructor; auto.
  - rewrite Hch, children_of_app, Z.add_0_l. cbn [children_of]. rewrite <- (chain_to_spec ls p c).
    destruct ls as [|[? ?] ls]; reflexivity.
Qed.

Lemma opens_length_prefixed k n :
  (1 <= n <= 3)%nat -> opens k (cbb_add_length_prefixed k (Z.of_nat n)) [] (fixed n).
Proof.
  intros Hn ls p c cs r st <- Hrep. unfold cbb_add_length_prefixed. apply run_bind.
  eapply run_mono; [apply (CBB_flush_wp _ _ _ _ _ _ Hrep) | auto | |].
  { intros (e & E & Hg). exists e. split; [exact E|]. eapply growable_le; [|exact Hg].
    change (zlen (@nil byte)) with 0. cbn [hole_len]. lia. }
  intros _ st1 (e & E & Hrep1). pose proof (rep_last _ _ _ _ _ Hrep1) as [_ Hdep]. pose proof Hrep1 as (Hm & _ & _).
  apply run_bind. eapply run_mono; [apply (add_wp _ (Z.of_nat n) r _ _ Hm); lia | auto | |].
  { intros (e' & E' & Hg). rewrite E in E'. injection E' as <-. rewrite layout_extend, zlen_app.
    eapply growable_le; [|exact Hg]. change (zlen (@nil byte)) with 0. cbn [hole_len]. lia. }
  intros off st2 (-> & Hch & junk & Hj & Hm1). apply run_bind. rewrite <- (app_nil_r junk) in Hm1.
  eapply run_mono; [apply (store_at_wp failed _ (zeros (Z.of_nat n)) r _ _ _ st2 True Hm1 eq_refl) | auto | auto |].
  { rewrite zlen_zeros; lia. }
  intros _ st3 (Hch3 & Hm3). rewrite app_nil_r in Hm3. unfold wp, bind, get, set_chain.
  exists e. split; [exact E|]. rewrite app_nil_r.
  eapply rep_open; [exact Hrep1 | exact Hn | |].
  - destruct Hm3 as (b & Eb & Hb). exists b. split; [exact Eb|]. exact Hb.
  - cbn. rewrite Hch3, Hch. reflexivity.
Qed.

(** ** Filling a writer that has no open child *)

(** [m] returns [b] and appends [data] to the innermost writer. *)
Definition appends {B} (k : nat) (m : W B) (b : B) (data : list byte) : Prop :=
  forall ls p c r st, length ls = k -> rep r st (ls ++ [(p, c)]) ->
    wp failed m (growable r (zlen (layout (ls ++ [(p, c)])) + zlen data))
      (fun b' st' => b' = b /\ rep r st' (ls ++ [(p, c ++ data)])) st.

Lemma appends_adds k m data : adds k m data -> appends k m tt data.
Proof.
  intros H ls p c r st Hk Hrep. eapply run_mono; [apply (H ls p c [] r st Hk Hrep) | auto | |].
  - intros Hg. exists []. split; [reflexivity|]. change (zlen (@nil byte)) with 0.
    eapply growable_le; [|exact Hg]. lia.
  - intros [] st1 (e & E & Hrep1). cbn in E. injection E as E. subst e. auto.
Qed.

Lemma appends_ret {B} k (b : B) : appends k (ret b) b [].
Proof. intros ls p c r st Hk Hrep. apply run_ret. rewrite app_nil_r. auto. Qed.

Lemma appends_bind {B C} k (m : W B) (f : B -> W C) b b' d1 d2 :
  appends k m b d1 -> appends k (f b) b' d2 -> appends k (bind m f) b' (d1 ++ d2).
Proof.
  intros H1 H2 ls p c r st Hk Hrep. pose proof (zlen_nonneg d2). apply run_bind.
  eapply run_mono; [apply (H1 _ _ _ _ _ Hk Hrep) | auto | |].
  - intros Hg. eapply growable_le; [|exact Hg]. rewrite zlen_app. lia.
  - intros b1 st1 (-> & Hrep1). eapply run_mono; [apply (H2 _ _ _ _ _ Hk Hrep1) | auto | |].
    + intros Hg. rewrite layout_extend. rewrite !zlen_app in *. eapply growable_le; [|exact Hg]. lia.
    + intros b2 st2 (-> & Hrep2). rewrite <- app_assoc in Hrep2. auto.
Qed.

Lemma appends_u8 k v : 0 <= v < 256 -> appends k (CBB_add_u8 k v) tt [b8 v].
Proof. intros Hv. apply appends_adds, adds_u8, Hv. Qed.

Lemma appends_byte k b : appends k (CBB_add_u8 k (u8 b)) tt [b].
Proof. rewrite <- (b8_u8 b) at 2. apply appends_u8, u8_range. Qed.

(** A child that is filled by [m] and then closed. *)
Lemma opens_fill_flush {B} k m1 (m2 : W B) b data q body l :
  opens k m1 data q -> appends (S k) m2 b body -> proper q -> prefix_bytes q (zlen body) = Some l ->
  adds k (m1 ;; m2 ;; CBB_flush k) (data ++ l ++ body).
Proof.
  intros H1 H2 Hq Hl ls p c cs r st Hk Hrep. pose proof (prefix_bytes_longer _ _ _ Hq Hl).
  pose proof (zlen_nonneg body). apply run_bind.
  eapply run_mono; [apply (H1 _ _ _ _ _ _ Hk Hrep) | auto | |].
  { intros (e & E & Hg). exists e. split; [exact E|]. eapply growable_le; [|exact Hg]. rewrite !zlen_app. lia. }
  intros _ st1 (e & E & Hrep1). apply run_bind.
  assert (Hk1 : length (ls ++ [(p, c ++ e ++ data)]) = S k) by (rewrite length_app; cbn; lia).
  change (ls ++ [(p, c ++ e ++ data); (q, [])]) with (ls ++ [(p, c ++ e ++ data)] ++ [(q, [])]) in Hrep1.
  rewrite app_assoc in Hrep1.
  eapply run_mono; [apply (H2 _ _ _ _ _ Hk1 Hrep1) | auto | |].
  { intros (e' & E' & Hg). rewrite E in E'. injection E' as <-.
    rewrite layout_app, layout_extend. cbn [layout]. rewrite !app_nil_r, !zlen_app, zlen_hole.
    rewrite !zlen_app in Hg. eapply growable_le; [|exact Hg]. lia. }
  intros b1 st2 (_ & Hrep2). cbn [app] in Hrep2.
  rewrite <- app_assoc in Hrep2. cbn [app] in Hrep2. rewrite <- Hk.
  assert (Henc : encode [(q, body)] = Some (l ++ body)) by (cbn; rewrite app_nil_r, Hl; reflexivity).
  eapply run_mono; [apply (CBB_flush_wp _ _ _ _ _ _ Hrep2) | auto | |].
  { intros (e' & E' & Hg). rewrite E in E'. injection E' as <-. exists (l ++ body). split; [exact Henc|].
    rewrite layout_extend, !zlen_app in *. eapply growable_le; [|exact Hg]. lia. }
  intros ? st3 (e' & E' & Hrep3). rewrite Henc in E'. injection E' as <-. exists e. split; [exact E|].
  rewrite <- !app_assoc in Hrep3. exact Hrep3.
Qed.

(** ** Tags and base-128 integers *)

Lemma adds_ret k m d : adds k m d -> adds k (m ;; ret tt) d.
Proof.
  intros H ls p c cs r st Hk Hrep. apply run_bind.
  eapply run_mono; [apply (H _ _ _ _ _ _ Hk Hrep) | auto | auto |]. intros ? st1 H1. apply run_ret, H1.
Qed.

Definition b128_byte (i : nat) (v : Z) : Z :=
  (v / 128 ^ Z.of_nat i) mod 128 + (if (i =? 0)%nat then 0 else 128).

(** The [n] low base-128 digits of [v], with their continuation bits. *)
Fixpoint b128_bytes (n : nat) (v : Z) : list byte :=
  match n with
  | O => []
  | S i => b8 (b128_byte i v) :: b128_bytes i v
  end.

Lemma b128_byte_range i v : 0 <= b128_byte i v < 256.
Proof.
  unfold b128_byte. pose proof (Z.mod_pos_bound (v / 128 ^ Z.of_nat i) 128 ltac:(lia)).
  destruct (i =? 0)%nat; lia.
Qed.

Lemma lor_80 x : 0 <= x < 128 -> Z.lor x 0x80 = x + 128.
Proof.
  intros H. rewrite Z.lor_comm. change 0x80 with (Z.shiftl 1 7). rewrite lor_shiftl_add by lia.
  change (Z.shiftl 1 7) with 128. lia.
Qed.

Lemma loop_byte i v :
  0 <= v -> (let byte := Z.land (Z.shiftr v (7 * Z.of_nat i)) 0x7f in
   if negb (i =? 0)%nat then Z.lor byte 0x80 else byte) = b128_byte i v.
Proof.
  intros Hv. cbv zeta. change 0x7f with (2 ^ 7 - 1). rewrite land_ones_mod, shiftr_div by lia.
  rewrite Z.pow_mul_r by lia. change (2 ^ 7) with 128. unfold b128_byte.
  pose proof (Z.mod_pos_bound (v / 128 ^ Z.of_nat i) 128 ltac:(lia)).
  destruct (i =? 0)%nat; cbn [negb]; [lia | apply lor_80; lia].
Qed.

Lemma adds_base128_loop k n v :
  0 <= v -> adds k (add_base128_loop k (S n) v) (b128_bytes (S n) v).
Proof.
  intros Hv. induction n as [|n IH].
  - change (add_base128_loop k 1 v) with (CBB_add_u8 k (Z.land (Z.shiftr v (7 * Z.of_nat 0)) 0x7f) ;; ret tt).
    apply adds_ret. pose proof (loop_byte 0 v Hv) as E. cbn [Nat.eqb negb] in E. rewrite E.
    apply adds_u8, b128_byte_range.
  - pose proof (loop_byte (S n) v Hv) as E. cbv zeta in E.
    change (add_base128_loop k (S (S n)) v) with
      (CBB_add_u8 k (if negb (S n =? 0)%nat then Z.lor (Z.land (Z.shiftr v (7 * Z.of_nat (S n))) 0x7f) 0x80
                     else Z.land (Z.shiftr v (7 * Z.of_nat (S n))) 0x7f) ;; add_base128_loop k (S n) v).
    rewrite E. apply (adds_seq _ _ _ [_]); [apply adds_u8, b128_byte_range | exact IH].
Qed.

Lemma b128_bytes_value n v acc :
  0 <= v -> 0 <= acc -> b128_value acc (b128_bytes n v) = acc * 128 ^ Z.of_nat n + v mod 128 ^ Z.of_nat n.
Proof.
  intros Hv. revert acc; induction n as [|n IH]; intros acc Hacc.
  - cbn. rewrite Z.mod_1_r. lia.
  - cbn [b128_bytes]. pose proof (b128_byte_range n v).
    match goal with |- b128_value acc (?b :: ?l) = _ =>
      change (b128_value acc (b :: l)) with (b128_value (acc * 128 + u8 b mod 128) l) end.
    rewrite u8_b8_small by assumption.
    assert (E : b128_byte n v mod 128 = (v / 128 ^ Z.of_nat n) mod 128).
    { unfold b128_byte. destruct (n =? 0)%nat; rewrite ?Z.add_0_r, ?Z.mod_mod by lia; [reflexivity|].
      replace 128 with (1 * 128) at 3 by lia. rewrite Z.mod_add, Z.mod_mod by lia. reflexivity. }
    rewrite E. pose proof (Z.mod_pos_bound (v / 128 ^ Z.of_nat n) 128 ltac:(lia)). rewrite IH by lia.
    rewrite Nat2Z.inj_succ, Z.pow_succ_r by lia. rewrite (Z.mul_comm 128 (128 ^ Z.of_nat n)).
    rewrite (Z.rem_mul_r v) by (try apply Z.pow_nonzero; lia). ring.
Qed.

Lemma base128_digits_spec fuel v :
  0 <= v < 128 ^ Z.of_nat fuel ->
  v < 128 ^ Z.of_nat (base128_digits fuel v) /\ (base128_digits fuel v <= fuel)%nat /\
  (v = 0 /\ base128_digits fuel v = 0%nat \/
   exists n, base128_digits fuel v = S n /\ 128 ^ Z.of_nat n <= v).
Proof.
  revert v; induction fuel as [|fuel IH]; intros v Hv; cbn [base128_digits].
  - cbn in *. split; [lia|]. split; [lia|]. left. lia.
  - rewrite Nat2Z.inj_succ, Z.pow_succ_r in Hv by lia.
    destruct (Z.ltb_spec 0 v); [|cbn; split; [lia|]; split; [lia|]; left; lia].
    rewrite shiftr_div by lia. change (2 ^ 7) with 128.
    pose proof (Z.div_mod v 128 ltac:(lia)). pose proof (Z.mod_pos_bound v 128 ltac:(lia)).
    destruct (IH (v / 128)) as (H2 & H3 & H4).
    { split; [apply Z.div_pos; lia | apply Z.div_lt_upper_bound; lia]. }
    rewrite Nat2Z.inj_succ, Z.pow_succ_r by lia. split; [nia|]. split; [lia|]. right.
    eexists. split; [reflexivity|]. destruct H4 as [[H4 ->] | (n & -> & H4)]; [cbn; lia|].
    rewrite Nat2Z.inj_succ, Z.pow_succ_r by lia. lia.
Qed.

Lemma b128_bytes_split n v : exists hi, b128_bytes (S n) v = hi ++ [b8 (b128_byte 0 v)] /\
  Forall (fun b => 128 <= u8 b) hi /\ (hi <> [] -> head hi = Some (b8 (b128_byte n v))).
Proof.
  induction n as [|n (hi & IH & Hf & _)].
  - exists []. split; [reflexivity|]. split; [constructor | congruence].
  - exists (b8 (b128_byte (S n) v) :: hi). split; [cbn [app]; rewrite <- IH; reflexivity|].
    split; [|reflexivity]. constructor; [|exact Hf]. rewrite u8_b8_small by apply b128_byte_range.
    unfold b128_byte. cbn [Nat.eqb].
    pose proof (Z.mod_pos_bound (v / 128 ^ Z.of_nat (S n)) 128 ltac:(lia)). lia.
Qed.

(** The bytes [add_base128_integer] writes. *)
Definition base128 (v : Z) : list byte :=
  b128_bytes (let n := base128_digits 10 v in if (n =? 0)%nat then 1%nat else n) v.

Lemma base128_minimal v : 0 <= v < 2 ^ 64 -> is_base128 (base128 v) v.
Proof.
  intros Hv. unfold base128. destruct (base128_digits_spec 10 v) as (H1 & H2 & H3); [cbn; lia|].
  destruct H3 as [[-> ->] | (n & Ed & H3)]; [|rewrite Ed in *]; cbn [Nat.eqb].
  - exists [], (b8 0). repeat split; [constructor | discriminate].
  - rewrite Nat2Z.inj_succ, Z.pow_succ_r in H1 by lia.
    pose proof (Z.pow_pos_nonneg 128 (Z.of_nat n) ltac:(lia) ltac:(lia)).
    destruct (b128_bytes_split n v) as (hi & E & Hf & Hhd). exists hi, (b8 (b128_byte 0 v)).
    pose proof (b128_byte_range n v). pose proof (b128_byte_range 0 v).
    split; [exact E|]. split; [exact Hf|]. split.
    { rewrite u8_b8_small by assumption. unfold b128_byte. cbn [Nat.eqb].
      pose proof (Z.mod_pos_bound (v / 128 ^ Z.of_nat 0) 128 ltac:(lia)). lia. }
    split.
    { destruct hi as [|b hi]; [discriminate|]. rewrite Hhd by discriminate. intros [= E1].
      apply (f_equal u8) in E1. rewrite u8_b8_small in E1 by assumption. change (u8 Byte.x80) with 128 in E1.
      assert (1 <= v / 128 ^ Z.of_nat n < 128)
        by (split; [apply Z.div_le_lower_bound | apply Z.div_lt_upper_bound]; lia).
      unfold b128_byte in E1. rewrite Z.mod_small in E1 by lia. destruct (n =? 0)%nat; [|lia].
      rewrite Z.add_0_r in E1. lia. }
    split; [|lia]. rewrite b128_bytes_value by lia.
    rewrite Nat2Z.inj_succ, Z.pow_succ_r, Z.mod_small by lia. lia.
Qed.

Lemma adds_base128 k v : 0 <= v -> adds k (add_base128_integer k v) (base128 v).
Proof.
  intros Hv. unfold add_base128_integer, base128. cbv zeta.
  destruct (base128_digits 10 v) as [|n]; cbn [Nat.eqb]; apply adds_base128_loop, Hv.
Qed.

(** The identifier octets [CBB_add_asn1] writes. *)
Definition tag_octets (tag : Z) : list byte :=
  let tag_bits := Z.land (Z.shiftr tag CBS_ASN1_TAG_SHIFT) 0xe0 in
  let tag_number := Z.land tag CBS_ASN1_TAG_NUMBER_MASK in
  if 0x1f <=? tag_number then b8 (Z.lor tag_bits 0x1f) :: base128 tag_number
  else [b8 (Z.lor tag_bits tag_number)].

Lemma tag_bits_facts t n :
  0 <= t < 256 -> 0 <= n <= 0x1f ->
  let bits := Z.land t 0xe0 in
  0 <= Z.lor bits n < 256 /\ Z.land (Z.lor bits n) 0x1f = n /\ Z.land (Z.lor bits n) 0xe0 = bits /\
  bits = t / 32 * 32.
Proof.
  intros Ht Hn bits.
  assert (Hb : bits = t / 32 * 32).
  { subst bits. rewrite <- (u8_b8_small t Ht). generalize (b8 t). intros b. destruct b; reflexivity. }
  pose proof (Z.div_pos t 32 ltac:(lia) ltac:(lia)). pose proof (Z.div_lt_upper_bound t 32 8 ltac:(lia) ltac:(lia)).
  assert (E : Z.lor bits n = t / 32 * 32 + n).
  { rewrite Hb. replace (t / 32 * 32) with (Z.shiftl (t / 32) 5) by (rewrite Z.shiftl_mul_pow2 by lia; reflexivity).
    rewrite lor_shiftl_add by lia. rewrite Z.shiftl_mul_pow2 by lia. reflexivity. }
  rewrite E. split; [lia|].
  assert (En : Z.land (t / 32 * 32 + n) 0x1f = n).
  { change 0x1f with (2 ^ 5 - 1). rewrite land_ones_mod by lia. change (2 ^ 5) with 32.
    rewrite Z.add_comm, Z.mod_add, Z.mod_small by lia. reflexivity. }
  split; [exact En|]. split; [|exact Hb]. rewrite Hb.
  rewrite <- (u8_b8_small (t / 32 * 32 + n)) by lia.
  assert (Hgen : forall b, Z.land (u8 b) 0xe0 = u8 b / 32 * 32) by (intros b; destruct b; reflexivity).
  rewrite Hgen, u8_b8_small by lia. f_equal. rewrite Z.div_add_l, (Z.div_small n) by lia. lia.
Qed.

Lemma tag_octets_der tag : 0 <= tag < 2 ^ 32 -> is_der_tag (tag_octets tag) tag.
Proof.
  intros Ht. unfold tag_octets. cbv zeta. change CBS_ASN1_TAG_NUMBER_MASK with (2 ^ 29 - 1).
  rewrite land_ones_mod by lia. pose proof (Z.mod_pos_bound tag (2 ^ 29) ltac:(lia)).
  set (t := Z.shiftr tag 24). set (n := tag mod 2 ^ 29) in *.
  assert (Ht8 : 0 <= t < 256).
  { subst t. rewrite shiftr_div by lia. split; [apply Z.div_pos; lia | apply Z.div_lt_upper_bound; lia]. }
  assert (Hrec : Z.lor (Z.shiftl (t / 32 * 32) 24) n = tag).
  { replace (Z.shiftl (t / 32 * 32) 24) with (Z.shiftl (t / 32) 29)
      by (rewrite !Z.shiftl_mul_pow2 by lia; lia).
    rewrite lor_shiftl_add by lia. subst t n. rewrite shiftr_div, Z.div_div by lia.
    change (2 ^ 24 * 32) with (2 ^ 29). pose proof (Z.div_mod tag (2 ^ 29)). lia. }
  destruct (Z.leb_spec 0x1f n).
  - destruct (tag_bits_facts t 0x1f Ht8 ltac:(lia)) as (H1 & H2 & H3 & H4).
    pose proof (high_tag (b8 (Z.lor (Z.land t 0xe0) 0x1f)) (base128 n) n) as Hh.
    rewrite u8_b8_small, H3, H4, Hrec in Hh by exact H1. rewrite H4 in *.
    apply Hh; [exact H2 | apply base128_minimal; lia | lia].
  - destruct (tag_bits_facts t n Ht8 ltac:(lia)) as (H1 & H2 & H3 & H4).
    pose proof (low_tag (b8 (Z.lor (Z.land t 0xe0) n))) as Hh.
    rewrite u8_b8_small, H2, H3, H4, Hrec in Hh by exact H1. rewrite H4 in *. apply Hh. lia.
Qed.

Lemma der_length_is n l : 0 <= n -> der_length n = Some l -> is_der_length l n.
Proof.
  intros Hn. unfold der_length.
  assert (Hlong : forall j b, (1 <= j <= 4)%nat -> u8 b = 128 + Z.of_nat j -> 128 <= n ->
            2 ^ (8 * (Z.of_nat j - 1)) <= n < 2 ^ (8 * Z.of_nat j) -> is_der_length (b :: be_split j n) n).
  { intros j b Hj Hb H1 H2. rewrite <- (Z.mod_small n (2 ^ (8 * Z.of_nat j))) at 2 by lia.
    assert (Hl : zlen (be_split j n) = Z.of_nat j) by (unfold zlen; rewrite length_be_split; reflexivity).
    rewrite <- be_value_be_split. constructor; rewrite ?Hl, ?be_value_be_split, ?Z.mod_small by lia; lia. }
  destruct (Z.ltb_spec 0xfffffffe n); [discriminate|].
  destruct (Z.ltb_spec 0xffffff n); [intros [= <-]; apply (Hlong 4%nat); [lia | reflexivity | lia |]; change (2 ^ 24 <= n < 2 ^ 32); lia|].
  destruct (Z.ltb_spec 0xffff n); [intros [= <-]; apply (Hlong 3%nat); [lia | reflexivity | lia |]; change (2 ^ 16 <= n < 2 ^ 24); lia|].
  destruct (Z.ltb_spec 0xff n); [intros [= <-]; apply (Hlong 2%nat); [lia | reflexivity | lia |]; change (2 ^ 8 <= n < 2 ^ 16); lia|].
  destruct (Z.ltb_spec 0x7f n); [intros [= <-]; apply (Hlong 1%nat); [lia | reflexivity | lia |]; change (2 ^ 0 <= n < 2 ^ 8); lia|].
  intros [= <-]. pose proof (short_length (b8 n)) as H5. rewrite u8_b8_small in H5 by lia. apply H5. lia.
Qed.

Lemma opens_asn1 k tag : 0 <= tag < 2 ^ 32 -> opens k (CBB_add_asn1 k tag) (tag_octets tag) asn1.
Proof.
  intros Ht ls p c cs r st Hk Hrep.
  set (bits := Z.land (Z.shiftr tag 24) 0xe0).
  set (n := Z.land tag CBS_ASN1_TAG_NUMBER_MASK).
  assert (Ht8 : 0 <= Z.shiftr tag 24 < 256).
  { rewrite shiftr_div by lia. split; [apply Z.div_pos; lia | apply Z.div_lt_upper_bound; lia]. }
  assert (Hn : 0 <= n).
  { subst n. apply Z.land_nonneg. lia. }
  assert (Htag : adds k (CBB_flush k ;; (if 0x1f <=? n then CBB_add_u8 k (Z.lor bits 0x1f) ;; add_base128_integer k n
                         else CBB_add_u8 k (Z.lor bits n))) (tag_octets tag)).
  { apply (adds_seq k _ _ [] _ (adds_flush k)). unfold tag_octets. cbv zeta. fold bits n.
    destruct (Z.leb_spec 0x1f n).
    - apply (adds_seq _ _ _ [_]); [|apply adds_base128, Hn]. apply adds_u8, tag_bits_facts; lia.
    - apply adds_u8, tag_bits_facts; lia. }
  unfold CBB_add_asn1. fold bits n.
  assert (Hassoc : forall (m1 m2 k2 : W unit), (m1 ;; m2 ;; k2) st = ((m1 ;; m2) ;; k2) st).
  { intros m1 m2 k2. unfold bind. destruct (m1 st) as [[a| |] s1]; reflexivity. }
  unfold wp. rewrite Hassoc. apply run_bind.
  eapply run_mono; [apply (Htag _ _ _ _ _ _ Hk Hrep) | auto | |].
  { intros (e & E & Hg). exists e. split; [exact E|]. eapply growable_le; [|exact Hg]. cbn [hole_len]. lia. }
  intros ? st1 (e & E & Hrep1). subst k. pose proof (rep_last _ _ _ _ _ Hrep1) as [_ Hdep].
  pose proof Hrep1 as (Hm1 & _ & _). apply run_bind. apply (get_base_wp _ _ _ _ _ _ _ Hm1); [lia|].
  intros b Eb Hl _. rewrite Hl. apply run_bind.
  eapply run_mono; [apply (adds_u8 _ 0 ltac:(lia) _ _ _ [] _ _ eq_refl Hrep1) | auto | |].
  { intros (e' & E' & Hg). rewrite E in E'. injection E' as <-. exists []. split; [reflexivity|].
    rewrite layout_extend, !zlen_app. change (zlen (@nil byte)) with 0. eapply growable_le; [|exact Hg].
    change (zlen [b8 0]) with 1. cbn [hole_len]. lia. }
  intros ? st2 (e' & E' & Hrep2). cbn in E'. injection E' as E'. subst e'. cbn [app] in Hrep2.
  unfold wp, bind, get, set_chain. exists e. split; [exact E|].
  pose proof (rep_last _ _ _ _ _ Hrep2) as [Hc2 _]. pose proof (rep_last _ _ _ _ _ Hrep1) as [Hc1 _].
  eapply (rep_open r st1); [exact Hrep1 | exact I | |].
  - destruct Hrep2 as (Hm2 & _ & _). rewrite layout_extend in Hm2. destruct Hm2 as (b2 & Eb2 & Hb2).
    exists b2. split; [exact Eb2 | exact Hb2].
  - cbn [chain]. rewrite Hc2, Hc1. reflexivity.
Qed.

(** The complete element with contents [body]. *)
Definition der_element (tag : Z) (body : list byte) : option (list byte) :=
  option_map (fun l => tag_octets tag ++ l ++ body) (der_length (zlen body)).

Lemma der_element_is tag body elem :
  0 <= tag < 2 ^ 32 -> der_element tag body = Some elem -> exists h, is_der_element elem tag h body.
Proof.
  intros Ht. unfold der_element. destruct (der_length (zlen body)) as [l|] eqn:E; [|discriminate].
  intros [= <-]. eexists. exists (tag_octets tag), l. split; [reflexivity|]. split; [reflexivity|].
  split; [apply tag_octets_der, Ht | apply der_length_is; [apply zlen_nonneg | exact E]].
Qed.

Lemma der_length_total n : n <= 0xfffffffe -> exists l, der_length n = Some l.
Proof. intros H. unfold der_length. destruct (Z.ltb_spec 0xfffffffe n); [lia|]. repeat zif; eexists; reflexivity. Qed.

Lemma der_element_total tag body :
  zlen body <= 0xfffffffe -> exists elem, der_element tag body = Some elem.
Proof. intros H. unfold der_element. destruct (der_length_total _ H) as [l ->]. eexists. reflexivity. Qed.

Lemma adds_asn1 {B} k tag (m : W B) b body elem :
  0 <= tag < 2 ^ 32 -> appends (S k) m b body -> der_element tag body = Some elem ->
  adds k (CBB_add_asn1 k tag ;; m ;; CBB_flush k) elem.
Proof.
  intros Ht Hm. unfold der_element. destruct (der_length (zlen body)) as [l|] eqn:E; [|discriminate].
  intros [= <-]. apply (opens_fill_flush k _ m b (tag_octets tag) asn1 body l); auto.
  - apply opens_asn1, Ht.
  - exact I.
Qed.

(** A child with tag [tag] is opened, filled with [body] and closed. *)
Definition adds_element (k : nat) (m : W unit) (tag : Z) (body : list byte) : Prop :=
  exists elem h, is_der_element elem tag h body /\ adds k m elem.

Lemma adds_octet_string k data : zlen data <= 0xfffffffe -> adds_element k (CBB_add_asn1_octet_string k data) CBS_ASN1_OCTETSTRING data.
Proof.
  intros Hl. assert (Ht : 0 <= CBS_ASN1_OCTETSTRING < 2 ^ 32) by (unfold CBS_ASN1_OCTETSTRING; lia).
  destruct (der_element_total CBS_ASN1_OCTETSTRING data Hl) as [elem He]. destruct (der_element_is _ _ _ Ht He) as [h Hd]. exists elem, h. split; [exact Hd|].
  apply (adds_asn1 k _ (CBB_add_bytes (S k) data) tt data); [exact Ht | apply appends_adds, adds_bytes; lia | exact He].
Qed.

Lemma adds_bool k v : adds_element k (CBB_add_asn1_bool k v) CBS_ASN1_BOOLEAN [if v =? 0 then Byte.x00 else Byte.xff].
Proof.
  assert (Ht : 0 <= CBS_ASN1_BOOLEAN < 2 ^ 32) by (unfold CBS_ASN1_BOOLEAN; lia). set (body := [_]).
  destruct (der_element_total CBS_ASN1_BOOLEAN body) as [elem He]; [unfold body, zlen; cbn; lia|].
  destruct (der_element_is _ _ _ Ht He) as [h Hd]. exists elem, h. split; [exact Hd|].
  apply (adds_asn1 k _ (CBB_add_u8 (S k) (if negb (v =? 0) then 0xff else 0)) tt body); [exact Ht | | exact He].
  unfold body. destruct (v =? 0); cbn [negb]; [apply (appends_u8 (S k) 0); lia | apply (appends_u8 (S k) 0xff); lia].
Qed.

(** ** INTEGER *)

Lemma be_split_cons n v : be_split (S n) v = b8 (Z.shiftr v (8 * Z.of_nat n)) :: be_split n v.
Proof.
  revert v; induction n as [|n IH]; intros v; [rewrite Z.shiftr_0_r; reflexivity|].
  rewrite be_split_S, IH, Z.shiftr_shiftr by lia. cbn [app]. rewrite <- be_split_S.
  do 3 f_equal. lia.
Qed.

(** Contents without leading zero bytes, and with the sign byte back. *)
Fixpoint strip_zeros (l : list byte) : list byte :=
  match l with
  | b :: l' => if u8 b =? 0 then strip_zeros l' else l
  | [] => []
  end.

Definition uint_contents (v : Z) : list byte :=
  match strip_zeros (be_split 8 v) with
  | [] => [Byte.x00]
  | b :: s => if 128 <=? u8 b then Byte.x00 :: b :: s else b :: s
  end.

Lemma strip_zeros_value l : be_value (strip_zeros l) = be_value l.
Proof.
  induction l as [|b l IH]; [reflexivity|]. cbn [strip_zeros]. rewrite be_value_cons.
  destruct (Z.eqb_spec (u8 b) 0) as [->|]; [rewrite IH; lia | apply be_value_cons].
Qed.

Lemma strip_zeros_head l b s : strip_zeros l = b :: s -> u8 b <> 0.
Proof.
  induction l as [|x l IH]; cbn [strip_zeros]; [discriminate|].
  destruct (Z.eqb_spec (u8 x) 0); [exact IH | intros [= -> ->]; assumption].
Qed.

Lemma uint_contents_value v : 0 <= v < 2 ^ 64 ->
  is_der_integer (uint_contents v) /\ int_value (uint_contents v) = v.
Proof.
  intros Hv. assert (Hbe : be_value (uint_contents v) = v).
  { assert (E : be_value (strip_zeros (be_split 8 v)) = v).
    { rewrite strip_zeros_value, be_value_be_split. apply Z.mod_small, Hv. }
    unfold uint_contents. destruct (strip_zeros (be_split 8 v)) as [|b s].
    - rewrite be_value_nil in E. subst v. reflexivity.
    - destruct (128 <=? u8 b); [|exact E]. rewrite be_value_cons. exact E. }
  assert (Hvalid : CBS_is_valid_asn1_integer (uint_contents v) = Some false).
  { unfold uint_contents. destruct (strip_zeros (be_split 8 v)) as [|b s] eqn:Es; [reflexivity|].
    apply strip_zeros_head in Es. pose proof (u8_range b). destruct (Z.leb_spec 128 (u8 b)).
    - cbn [CBS_is_valid_asn1_integer]. change (u8 Byte.x00) with 0. rewrite first_bit.
      destruct (Z.ltb_spec (u8 b) 128); [lia|]. reflexivity.
    - cbn [CBS_is_valid_asn1_integer]. rewrite first_bit. destruct (Z.ltb_spec (u8 b) 128); [|lia].
      destruct s as [|x s]; [reflexivity|].
      destruct (Z.eqb_spec (u8 b) 0); [contradiction|]. destruct (Z.eqb_spec (u8 b) 0xff); [lia|]. reflexivity. }
  apply CBS_is_valid_asn1_integer_iff in Hvalid as [H1 H2]. split; [exact H1|]. symmetry in H2. zbool.
  rewrite int_value_nonneg by lia. exact Hbe.
Qed.

(** What the loop writes: nothing for leading zeros, then every byte. *)
Lemma appends_uint64_started k n v : 0 <= v ->
  appends k (add_uint64_loop k n true v) true (be_split n v).
Proof.
  intros Hv. induction n as [|n IH]; cbn [add_uint64_loop]; [apply appends_ret|].
  cbv zeta. cbn [negb andb]. rewrite be_split_cons. set (byte := Z.land _ _).
  assert (Hb : 0 <= byte < 256).
  { subst byte. change 0xff with (2 ^ 8 - 1). rewrite land_ones_mod by lia. apply Z.mod_pos_bound; lia. }
  apply (appends_bind k _ _ tt true [] _ (appends_ret k tt)).
  apply (appends_bind k _ _ tt true [_]); [|exact IH].
  replace (b8 (Z.shiftr v (8 * Z.of_nat n))) with (b8 byte) by (subst byte; apply b8_land_255).
  apply appends_u8, Hb.
Qed.

Lemma appends_uint64_loop k n v : 0 <= v ->
  match strip_zeros (be_split n v) with
  | [] => appends k (add_uint64_loop k n false v) false []
  | b :: s => appends k (add_uint64_loop k n false v) true (if 128 <=? u8 b then Byte.x00 :: b :: s else b :: s)
  end.
Proof.
  intros Hv. induction n as [|n IH]; [apply appends_ret|].
  rewrite be_split_cons. cbn [strip_zeros add_uint64_loop]. cbv zeta. cbn [negb andb].
  set (byte := Z.land _ _). set (b := b8 (Z.shiftr v (8 * Z.of_nat n))).
  assert (Hbyte : u8 b = byte).
  { subst b byte. rewrite u8_b8. change 0xff with (2 ^ 8 - 1). symmetry. apply land_ones_mod. lia. }
  rewrite <- Hbyte. destruct (Z.eqb_spec (u8 b) 0); [exact IH|].
  pose proof (u8_range b). rewrite cbs_land_128.
  destruct (Z.leb_spec 128 (u8 b)).
  - apply (appends_bind k _ _ tt true [Byte.x00]); [apply (appends_u8 k 0); lia|].
    apply (appends_bind k _ _ tt true [_]); [apply appends_byte | apply appends_uint64_started, Hv].
  - apply (appends_bind k _ _ tt true [] _ (appends_ret k tt)).
    apply (appends_bind k _ _ tt true [_]); [apply appends_byte | apply appends_uint64_started, Hv].
Qed.

Lemma adds_ext k m1 m2 d : (forall st, m1 st = m2 st) -> adds k m1 d -> adds k m2 d.
Proof.
  intros E H ls p c cs r st Hk Hrep. pose proof (H ls p c cs r st Hk Hrep) as H1.
  unfold wp in *. rewrite <- E. exact H1.
Qed.

Lemma bind_cong {B C} (m : W B) (f g : B -> W C) st :
  (forall a s, f a s = g a s) -> bind m f st = bind m g st.
Proof. intros E. unfold bind. destruct (m st) as [[a| |] s1]; auto. Qed.

Lemma appends_uint64 k v : 0 <= v ->
  appends k (started <- add_uint64_loop k 8 false v ;; (if negb started then CBB_add_u8 k 0 else ret tt)) tt (uint_contents v).
Proof.
  intros Hv. pose proof (appends_uint64_loop k 8 v Hv) as H. unfold uint_contents.
  destruct (strip_zeros (be_split 8 v)) as [|b s].
  - eapply (appends_bind k _ _ false tt [] _ H). apply (appends_u8 k 0). lia.
  - rewrite <- (app_nil_r (if _ : bool then _ else _)). eapply (appends_bind k _ _ true tt _ _ H). apply appends_ret.
Qed.

Lemma adds_asn1_uint64 k v elem :
  0 <= v < 2 ^ 64 -> der_element CBS_ASN1_INTEGER (uint_contents v) = Some elem ->
  adds k (CBB_add_asn1_uint64 k v) elem.
Proof.
  intros Hv He.
  eapply adds_ext; [|exact (adds_asn1 k CBS_ASN1_INTEGER _ tt _ _ ltac:(unfold CBS_ASN1_INTEGER; lia)
                              (appends_uint64 (S k) v ltac:(lia)) He)].
  intros st. unfold CBB_add_asn1_uint64. apply bind_cong. intros [] s. apply bind_assoc.
Qed.

(** Contents of a negative integer: redundant sign bytes are dropped. *)
Fixpoint strip_sign (l : list byte) : list byte :=
  match l with
  | b :: ((c :: _) as l') => if (u8 b =? 0xff) && (128 <=? u8 c) then strip_sign l' else l
  | l => l
  end.

Lemma znth_app_l l l' i : 0 <= i < zlen l -> znth (l ++ l') i = znth l i.
Proof. intros H. unfold znth, zlen in *. apply app_nth1. lia. Qed.

Lemma take_S_znth l n : (n < length l)%nat -> take (S n) l = take n l ++ [znth l (Z.of_nat n)].
Proof.
  intros H. destruct (lookup_lt_is_Some_2 l n H) as [b Hb].
  rewrite (take_S_r l n b Hb). unfold znth. rewrite Nat2Z.id, (nth_lookup_Some _ _ _ b Hb). reflexivity.
Qed.

Lemma int64_start_spec s bytes : (s < length bytes)%nat ->
  rev (take (S (int64_start s bytes)) bytes) = strip_sign (rev (take (S s) bytes)).
Proof.
  induction s as [|s IH]; intros Hs; cbn [int64_start].
  - destruct bytes as [|b bytes]; [cbn in Hs; lia | reflexivity].
  - rewrite (take_S_znth bytes (S s)) by lia. rewrite rev_app_distr. cbn [rev app].
    pose proof (take_S_znth bytes s ltac:(lia)) as E. rewrite E, rev_app_distr. cbn [rev app].
    cbn [strip_sign]. rewrite cbs_land_128.
    destruct ((u8 (znth bytes (Z.of_nat (S s))) =? 0xff) && (128 <=? u8 (znth bytes (Z.of_nat s)))).
    + rewrite IH, E, rev_app_distr by lia. reflexivity.
    + rewrite (take_S_znth bytes (S s)), E, !rev_app_distr by lia. reflexivity.
Qed.

Lemma strip_sign_cons b c l :
  strip_sign (b :: c :: l) = if (u8 b =? 0xff) && (128 <=? u8 c) then strip_sign (c :: l) else b :: c :: l.
Proof. reflexivity. Qed.

Lemma strip_sign_value l b :
  head l = Some b -> 128 <= u8 b ->
  CBS_is_valid_asn1_integer (strip_sign l) = Some true /\ int_value (strip_sign l) = int_value l.
Proof.
  revert b; induction l as [|x l IH]; intros b; [discriminate|]. cbn [head]. intros [= ->] Hb.
  destruct l as [|c l]; [|rewrite strip_sign_cons].
  - cbn [strip_sign CBS_is_valid_asn1_integer]. rewrite cbs_land_128. destruct (Z.leb_spec 128 (u8 b)); [|lia]. auto.
  - destruct (Z.eqb_spec (u8 b) 0xff) as [Eb|]; cbn [andb].
    + destruct (Z.leb_spec 128 (u8 c)) as [Hc|Hc].
      * destruct (IH c eq_refl Hc) as [H1 H2]. split; [exact H1|]. rewrite H2, !int_value_cons, be_value_cons, zlen_cons.
        destruct (Z.leb_spec 128 (u8 c)); [|lia]. destruct (Z.leb_spec 128 (u8 b)); [|lia].
        rewrite Eb. replace (8 * (1 + zlen l)) with (8 * zlen l + 8) by lia.
        pose proof (zlen_nonneg l). rewrite Z.pow_add_r by lia.
        change (2 ^ 8) with 256. ring.
      * split; [|reflexivity]. cbn [CBS_is_valid_asn1_integer]. rewrite cbs_land_128, !first_bit, Eb.
        destruct (Z.leb_spec 128 (u8 c)); [lia|]. destruct (u8 c <? 128); reflexivity.
    + split; [|reflexivity]. cbn [CBS_is_valid_asn1_integer]. rewrite !cbs_land_128.
      destruct (Z.leb_spec 128 (u8 b)); [|lia]. destruct (Z.eqb_spec (u8 b) 0); [lia|].
      destruct (Z.eqb_spec (u8 b) 0xff); [contradiction|]. reflexivity.
Qed.

Definition sint_contents (v : Z) : list byte :=
  if 0 <=? v then uint_contents v else strip_sign (be_split 8 v).

Lemma sint_contents_value v : - 2 ^ 63 <= v < 2 ^ 63 ->
  is_der_integer (sint_contents v) /\ int_value (sint_contents v) = v.
Proof.
  intros Hv. unfold sint_contents. destruct (Z.leb_spec 0 v); [apply uint_contents_value; lia|].
  assert (Hval : int_value (be_split 8 v) = v).
  { unfold int_value. rewrite be_value_be_split. unfold zlen. rewrite length_be_split.
    change (8 * Z.of_nat 8) with 64. change (v mod 2 ^ 64) with (u64 v). rewrite (sext_wrap 64 64) by lia. apply sext_small; lia. }
  pose proof (be_split_cons 7 v) as E. rewrite E in *.
  set (b := b8 _) in *. set (l := be_split 7 v) in *.
  assert (Hb : 128 <= u8 b).
  { rewrite int_value_cons in Hval. destruct (Z.leb_spec 128 (u8 b)); [assumption|].
    pose proof (u8_range b). pose proof (be_value_range l). nia. }
  destruct (strip_sign_value (b :: l) b eq_refl Hb) as [H1 H2].
  apply CBS_is_valid_asn1_integer_iff in H1 as [H1 _]. split; [exact H1 | congruence].
Qed.

Lemma appends_u8s k l : appends k (add_u8s k l) tt l.
Proof.
  induction l as [|b l IH]; [apply appends_ret|]. apply (appends_bind k _ _ tt tt [b]); [apply appends_byte | exact IH].
Qed.

Lemma adds_asn1_int64 k v elem :
  - 2 ^ 63 <= v < 2 ^ 63 -> der_element CBS_ASN1_INTEGER (sint_contents v) = Some elem ->
  adds k (CBB_add_asn1_int64 k v) elem.
Proof.
  intros Hv He. unfold CBB_add_asn1_int64, sint_contents in *. destruct (Z.leb_spec 0 v).
  - apply adds_asn1_uint64; [lia | exact He].
  - cbv zeta. rewrite int64_start_spec by (rewrite length_le_split; lia).
    rewrite (firstn_all2 (le_split 8 v)) by (rewrite length_le_split; lia).
    exact (adds_asn1 k CBS_ASN1_INTEGER _ tt _ _ ltac:(unfold CBS_ASN1_INTEGER; lia) (appends_u8s (S k) _) He).
Qed.

Lemma zlen_contents v : zlen (sint_contents v) <= 9 /\ zlen (uint_contents v) <= 9.
Proof.
  assert (Hz : forall l, (length (strip_zeros l) <= length l)%nat).
  { induction l as [|b l IH]; cbn [strip_zeros]; [lia|]. destruct (_ =? _); cbn [length] in *; lia. }
  assert (Hs : forall l, (length (strip_sign l) <= length l)%nat).
  { induction l as [|b [|c l] IH]; [cbn; lia | cbn; lia|]. rewrite strip_sign_cons.
    destruct (_ && _); cbn [length] in *; lia. }
  assert (Hu : zlen (uint_contents v) <= 9).
  { unfold uint_contents, zlen. specialize (Hz (be_split 8 v)). rewrite length_be_split in Hz.
    destruct (strip_zeros (be_split 8 v)); [cbn; lia|]. cbn [length] in *. destruct (128 <=? _); cbn [length]; lia. }
  split; [|exact Hu]. unfold sint_contents. destruct (0 <=? v); [exact Hu|].
  specialize (Hs (be_split 8 v)). rewrite length_be_split in Hs. unfold zlen. lia.
Qed.
Lemma adds_uint64_element k v : 0 <= v < 2 ^ 64 -> adds_element k (CBB_add_asn1_uint64 k v) CBS_ASN1_INTEGER (uint_contents v).
Proof.
  intros Hv. assert (Ht : 0 <= CBS_ASN1_INTEGER < 2 ^ 32) by (unfold CBS_ASN1_INTEGER; lia).
  destruct (der_element_total CBS_ASN1_INTEGER (uint_contents v)) as [elem He]; [pose proof (zlen_contents v); lia|].
  destruct (der_element_is _ _ _ Ht He) as [h Hd]. exists elem, h. split; [exact Hd | apply adds_asn1_uint64; assumption].
Qed.

Lemma adds_int64_element k v : - 2 ^ 63 <= v < 2 ^ 63 -> adds_element k (CBB_add_asn1_int64 k v) CBS_ASN1_INTEGER (sint_contents v).
Proof.
  intros Hv. assert (Ht : 0 <= CBS_ASN1_INTEGER < 2 ^ 32) by (unfold CBS_ASN1_INTEGER; lia).
  destruct (der_element_total CBS_ASN1_INTEGER (sint_contents v)) as [elem He]; [pose proof (zlen_contents v); lia|].
  destruct (der_element_is _ _ _ Ht He) as [h Hd]. exists elem, h. split; [exact Hd | apply adds_asn1_int64; assumption].
Qed.

End spec.
