(* ===== verification/CbbProps.v ===== *)
(** The properties of the byte-string writer: its refinement of the stack of
    open writers, the round trips with the reader, SET OF sorting, and the
    error latch. *)
From Stdlib Require Import ZArith Lia Bool.
From coqutil Require Import Byte Word.LittleEndianList.
From stdpp Require Import base list numbers sorting.
From S2P Require Import Prelude Alloc Qsort Cbs CbsSpec Cbb CbbSpec.
Local Open Scope Z_scope.
Local Open Scope c_scope.

(** ** The order of a SET OF *)

(** X.690, 11.6: the encodings are compared as octet strings, octet by octet. *)
Inductive lex_le : list byte -> list byte -> Prop :=
  | lex_end b : lex_le [] b
  | lex_smaller x y a b : u8 x < u8 y -> lex_le (x :: a) (y :: b)
  | lex_equal x a b : lex_le a b -> lex_le (x :: a) (x :: b).

Lemma compare_cons x a y b :
  compare_set_of_element (x :: a) (y :: b) = if u8 x =? u8 y then compare_set_of_element a b else u8 x - u8 y.
Proof.
  unfold compare_set_of_element, CBS_len. rewrite !zlen_cons. pose proof (zlen_nonneg a). pose proof (zlen_nonneg b).
  rewrite Z.add_min_distr_l. unfold ztake. rewrite Z2Nat.inj_add by lia. change (Z.to_nat 1) with 1%nat. cbn [Nat.add take memcmp].
  destruct (Z.eqb_spec (u8 x) (u8 y)) as [E|E].
  - rewrite !(Z.add_comm 1). destruct (negb _); [reflexivity|]. destruct (Z.eqb_spec (zlen a) (zlen b)), (Z.eqb_spec (zlen a + 1) (zlen b + 1)); try lia.
    destruct (Z.ltb_spec (zlen a) (zlen b)), (Z.ltb_spec (zlen a + 1) (zlen b + 1)); lia.
  - destruct (Z.eqb_spec (u8 x - u8 y) 0); [lia | reflexivity].
Qed.

Lemma compare_nil_l b : compare_set_of_element [] b = match b with [] => 0 | _ => -1 end.
Proof.
  unfold compare_set_of_element, CBS_len. rewrite zlen_nil. pose proof (zlen_nonneg b). rewrite Z.min_l by lia. change (memcmp _ _) with 0. change (negb (0 =? 0)) with false. cbv iota.
  destruct b as [|y b]; [reflexivity|]. rewrite zlen_cons in *. destruct (Z.eqb_spec 0 (1 + zlen b)); [pose proof (zlen_nonneg b); lia|].
  destruct (Z.ltb_spec 0 (1 + zlen b)); [reflexivity | pose proof (zlen_nonneg b); lia].
Qed.

Lemma compare_nil_r x a : compare_set_of_element (x :: a) [] = 1.
Proof.
  unfold compare_set_of_element, CBS_len. change (zlen (@nil byte)) with 0. rewrite zlen_cons. pose proof (zlen_nonneg a). rewrite Z.min_r by lia. change (memcmp _ _) with 0. change (negb (0 =? 0)) with false. cbv iota.
  destruct (Z.eqb_spec (1 + zlen a) 0); [lia|]. destruct (Z.ltb_spec (1 + zlen a) 0); [lia | reflexivity].
Qed.

Lemma compare_lex a b : compare_set_of_element a b <= 0 <-> lex_le a b.
Proof.
  revert b. induction a as [|x a IH]; intros [|y b].
  - rewrite compare_nil_l. split; [constructor | lia].
  - rewrite compare_nil_l. split; [constructor | lia].
  - rewrite compare_nil_r. split; [lia | inversion 1].
  - rewrite compare_cons. destruct (Z.eqb_spec (u8 x) (u8 y)) as [E|E].
    + apply u8_inj in E as ->. rewrite IH. split; [constructor; assumption | inversion 1; [lia | assumption]].
    + split; [intros H; apply lex_smaller; lia | inversion 1; subst; [lia | contradiction]].
Qed.

Lemma compare_opposite a b : 0 < compare_set_of_element a b <-> compare_set_of_element b a < 0.
Proof.
  revert b. induction a as [|x a IH]; intros [|y b]; rewrite ?compare_nil_l, ?compare_nil_r, ?compare_cons; [lia..|].
  rewrite (Z.eqb_sym (u8 y)). destruct (Z.eqb_spec (u8 x) (u8 y)); [apply IH | lia].
Qed.

Lemma lex_le_trans a b c : lex_le a b -> lex_le b c -> lex_le a c.
Proof.
  intros H. revert c. induction H as [b|x y a b Hxy|x a b H IH]; intros c Hc; [constructor| |]; inversion Hc; subst.
  - apply lex_smaller. lia.
  - apply lex_smaller. assumption.
  - apply lex_smaller. assumption.
  - apply lex_equal. auto.
Qed.

(** The comparison function is one, as [qsort] wants it. *)
Lemma compare_set_of_comparison : comparison compare_set_of_element.
Proof.
  split; [|apply compare_opposite|].
  - induction x as [|x a IH]; [reflexivity|]. rewrite compare_cons, Z.eqb_refl. exact IH.
  - intros a b c. rewrite !compare_lex. apply lex_le_trans.
Qed.

(** The encodings of a SET OF. *)
Definition is_element (e : list byte) : Prop := exists tag h body, is_der_element e tag h body.

Section props.
Context {A : Type} {AL : Allocator A}.
Notation W := (M (CBB A)).
Notation failed := (failed (A := A)).

(** ** SET OF *)

Lemma is_der_element_nonempty elem t h body : is_der_element elem t h body -> (0 < length elem)%nat.
Proof.
  intros (tg & l & -> & _ & Ht & _). apply is_der_tag_length in Ht. rewrite length_app. unfold zlen in Ht. lia.
Qed.

(** The elements are found, whichever way they are cut off one by one. *)
Lemma set_of_children_run children : Forall is_element children -> forall fuel, (length (concat children) < fuel)%nat ->
  set_of_children fuel (concat children) = Ok children.
Proof.
  induction 1 as [|e children (tag & h & body & He) _ IH]; intros [|fuel] Hf; try (cbn in Hf; lia); [reflexivity|].
  pose proof (is_der_element_nonempty _ _ _ _ He). cbn [concat] in *. rewrite length_app in Hf. cbn [set_of_children].
  destruct (Z.eqb_spec (CBS_len (e ++ concat children)) 0) as [E|_]; [unfold CBS_len, zlen in E; rewrite length_app in E; lia|].
  assert (Hg : CBS_get_any_asn1_element (e ++ concat children) = (Ok (e, tag, h), concat children)) by (apply CBS_get_any_asn1_element_iff; eauto).
  rewrite Hg, IH by lia. reflexivity.
Qed.

(** Only the buffer and the chain are represented. *)
Lemma rep_heap r (st : CBB A) ls (h : A) : rep r st ls -> rep r (mk_cbb h (base st) (chain st)) ls.
Proof. intros ((b & Hb) & H). split; [exists b; exact Hb | exact H]. Qed.

(** A writer has room for what is in it. *)
Lemma rep_room r (st : CBB A) ls : rep r st ls ->
  rep (mk_space (resizable r) (Z.max (room r) (zlen (layout ls)))) st ls /\ zlen (layout ls) < 2 ^ 64.
Proof.
  intros (Hm & H). pose proof Hm as (b & E & H1 & H2 & H3 & H4 & H5 & H6). pose proof (mem_len _ _ _ _ Hm E) as Hl.
  split; [|lia]. split; [|exact H]. exists b. cbn [resizable room]. repeat split; auto; lia.
Qed.

Lemma rep_less r r' (st : CBB A) ls : resizable r' = resizable r -> room r' <= room r -> rep r st ls -> rep r' st ls.
Proof.
  intros Hz Hr ((b & E & H1 & H2 & H3 & H4 & H5 & H6) & H). split; [|exact H]. exists b. repeat split; auto; try congruence; lia.
Qed.

Lemma content_start_spec r (st : CBB A) ls p c :
  rep r st (ls ++ [(p, c)]) -> content_start (length ls) st = zlen (layout ls) + hole_len p.
Proof.
  intros Hrep. pose proof (rep_last _ _ _ _ _ Hrep) as [Hc _]. destruct Hrep as (_ & Hwf & _).
  destruct ls as [|[q d] ls].
  - cbn in Hwf. destruct p; [reflexivity | contradiction | contradiction].
  - cbn [length content_start]. rewrite Hc. unfold chain_to. rewrite children_of_app. cbn [children_of].
    cbn [children_of app tail].
    rewrite list_lookup_middle by (rewrite length_children_of; reflexivity). reflexivity.
Qed.

Lemma CBB_data_spec r (st : CBB A) ls p c :
  rep r st (ls ++ [(p, c)]) -> CBB_data (length ls) st = Some c.
Proof.
  intros Hrep. unfold CBB_data. rewrite (content_start_spec _ _ _ _ _ Hrep).
  destruct Hrep as ((b & E & _ & _ & _ & _ & _ & Hb) & _). rewrite E, Hb, layout_app. cbn [layout].
  rewrite app_nil_r, app_assoc. f_equal. apply zdrop_app. rewrite zlen_app, zlen_hole. lia.
Qed.

Lemma CBB_len_spec r (st : CBB A) ls p c :
  rep r st (ls ++ [(p, c)]) -> CBB_len (length ls) st = Some (zlen c).
Proof.
  intros Hrep. unfold CBB_len. rewrite (content_start_spec _ _ _ _ _ Hrep). destruct Hrep as (Hm & _).
  pose proof Hm as (b & E & _). pose proof (mem_len _ _ _ _ Hm E) as Hl. rewrite E. cbn [option_map].
  rewrite layout_app in Hl. cbn [layout] in Hl. rewrite app_nil_r, !zlen_app, zlen_hole in Hl. f_equal. lia.
Qed.

(** Taking the contents of a writer back. *)
Lemma rewind_wp F k r (st : CBB A) ls p c Res :
  rep r st (ls ++ [(p, c)]) -> length ls = k ->
  wp F (b <- get_base k ;; set_base (set_len (content_start k st) b)) Res
    (fun _ st' => rep r st' (ls ++ [(p, [])])) st.
Proof.
  intros Hrep <-. pose proof (rep_last _ _ _ _ _ Hrep) as [Hc Hd].
  rewrite (content_start_spec _ _ _ _ _ Hrep). destruct Hrep as (Hm & Hwf & _). apply run_bind.
  apply (get_base_wp _ _ _ _ _ _ _ Hm); [lia|]. intros b E Hl He.
  unfold wp, set_base. split; [|split; [eapply well_formed_last, Hwf | cbn; rewrite chain_to_spec; exact Hc]].
  destruct Hm as (b' & E' & H1 & H2 & H3 & H4 & H5 & H6). rewrite E in E'. injection E' as <-.
  eexists. split; [reflexivity|]. cbn. rewrite layout_app in *. cbn [layout] in *. rewrite !app_nil_r in *.
  pose proof (zlen_nonneg c). pose proof (zlen_nonneg (layout ls)). pose proof (hole_len_nonneg p).
  rewrite Hl, !zlen_app, zlen_hole in H4.
  repeat split; auto; try lia. set (n := zlen (layout ls) + hole_len p).
  transitivity (ztake n (ztake (len b) (buf b))).
  - unfold ztake. rewrite take_take. f_equal. rewrite Hl, !zlen_app, zlen_hole. lia.
  - rewrite H6, app_assoc. apply ztake_app. rewrite zlen_app, zlen_hole. reflexivity.
Qed.

Lemma appends_all k l : Forall (fun c => zlen c < 2 ^ 64) l -> appends k (add_all (A := A) k l) tt (concat l).
Proof.
  induction 1 as [|c l Hc _ IH]; [apply appends_ret|].
  apply (appends_bind k _ _ tt tt c); [apply appends_adds, adds_bytes, Hc | exact IH].
Qed.

Lemma concat_permutation (l1 l2 : list (list byte)) : l1 ≡ₚ l2 -> length (concat l1) = length (concat l2).
Proof. induction 1; cbn; rewrite ?length_app; lia. Qed.

(** The contents are written again in another order; there is room for them. *)
Lemma rewrite_wp F k r (st : CBB A) ls p children children' :
  rep r st (ls ++ [(p, concat children)]) -> length ls = k -> children' ≡ₚ children ->
  wp F (b <- get_base k ;; set_base (set_len (content_start k st) b) ;; add_all k children') True
    (fun _ st' => rep r st' (ls ++ [(p, concat children')])) st.
Proof.
  intros Hrep Hk Hperm. set (c := concat children) in *. pose proof (concat_permutation _ _ Hperm) as Hlen. fold c in Hlen.
  destruct (rep_room _ _ _ Hrep) as [Hroom Hsmall]. set (r' := mk_space _ _) in Hroom.
  assert (Hlay : zlen (layout (ls ++ [(p, c)])) = zlen (layout ls) + hole_len p + zlen c).
  { rewrite layout_app. cbn [layout]. rewrite app_nil_r, !zlen_app, zlen_hole. lia. }
  pose proof (zlen_nonneg (layout ls)). pose proof (hole_len_nonneg p).
  assert (Hall : Forall (fun x => zlen x < 2 ^ 64) children').
  { apply Forall_forall. intros x Hx. apply list_elem_of_split in Hx as (l1 & l2 & E).
    rewrite E, concat_app, length_app in Hlen. cbn in Hlen. rewrite length_app in Hlen. unfold zlen in *. lia. }
  pose proof (rewind_wp F k r' st ls p c True Hroom Hk) as H1. unfold wp, bind in *.
  destruct (get_base k st) as [[b| |] st1]; [|destruct H1 as [_ H1]; destruct (H1 I) | destruct H1].
  destruct (set_base _ st1) as [[u| |] st2]; [|destruct H1 as [_ H1]; destruct (H1 I) | destruct H1].
  pose proof (appends_all k _ Hall ls p [] r' st2 Hk H1) as H2. unfold wp in H2.
  destruct (add_all k children' st2) as [[[]| |] st3]; [| |destruct H2].
  - apply (rep_less r' r); [reflexivity | cbn; lia | apply H2].
  - destruct H2 as [_ H2]. destruct H2. split; [|left; cbn [room r']];
      (rewrite layout_app; cbn [layout]; rewrite !app_nil_r, !zlen_app, zlen_hole; unfold zlen in *; lia).
Qed.

(** ** The whole life of a writer *)

Lemma CBB_init_wp n (a : A) :
  0 <= n < 2 ^ 64 ->
  wp (fun _ => True) (CBB_init n) (reliable A) (fun _ st' => rep (mk_space true n) st' [(root, [])]) (CBB_zero a).
Proof.
  intros Hn. unfold wp, CBB_init, cbb_init. cbn [heap CBB_zero].
  destruct (OPENSSL_malloc a n) as [[b|] a1] eqn:E1.
  - pose proof (malloc_length a n b a1 ltac:(lia) E1) as Hl.
    destruct (OPENSSL_malloc a1 sizeof_cbb_buffer_st) as [[b2|] a2] eqn:E2; cbv beta iota zeta.
    + split; [|split; [constructor | reflexivity]].
      eexists. split; [reflexivity|]. cbn. repeat split; auto; lia.
    + split; [exact I|]. intros Hrel. apply (Hrel a1 [] sizeof_cbb_buffer_st); [unfold sizeof_cbb_buffer_st; lia|]. unfold OPENSSL_malloc in E2. rewrite E2. reflexivity.
  - assert (~ reliable A).
    { intros Hrel. apply (Hrel a [] n); [lia|]. unfold OPENSSL_malloc in E1. rewrite E1. reflexivity. }
    destruct (Z.ltb_spec 0 n); [auto|]. destruct (OPENSSL_malloc a1 sizeof_cbb_buffer_st) as [[b2|] a2]; [|auto].
    split; [|split; [constructor | reflexivity]].
    eexists. split; [reflexivity|]. cbn. replace n with 0 by lia. repeat split; auto; lia.
Qed.

Lemma CBB_init_fixed_wp buffer n (a : A) : zlen buffer = n -> n < 2 ^ 64 ->
  wp (fun _ => True) (CBB_init_fixed buffer n) (reliable A) (fun _ st' => rep (mk_space false n) st' [(root, [])]) (CBB_zero a).
Proof.
  intros Hl Hn. unfold wp, CBB_init_fixed, cbb_init, bind. cbn [heap CBB_zero]. pose proof (zlen_nonneg buffer).
  destruct (OPENSSL_malloc a sizeof_cbb_buffer_st) as [[b2|] a2] eqn:E.
  - split; [|split; [constructor | reflexivity]]. eexists. split; [reflexivity|]. cbn. repeat split; auto; lia.
  - split; [exact I|]. intros Hrel. apply (Hrel a [] sizeof_cbb_buffer_st); [unfold sizeof_cbb_buffer_st; lia|].
    unfold OPENSSL_malloc in E. rewrite E. reflexivity.
Qed.

Lemma CBB_finish_wp r (st : CBB A) c cs :
  rep r st ((root, c) :: cs) ->
  wp failed (CBB_finish 0 true)
    (exists e, encode cs = Some e /\ growable (A := A) r (zlen c + zlen e))
    (fun out _ => exists e, encode cs = Some e /\ out = c ++ e) st.
Proof.
  intros Hrep. unfold CBB_finish, finish_block. cbn [Nat.eqb negb]. apply run_bind, run_bind.
  eapply run_mono; [apply (CBB_flush_wp [] root c cs r st Hrep) | auto | |].
  { intros (e & E & Hg). exists e. split; [exact E|]. cbn [app layout hole_len].
    rewrite app_nil_r. exact Hg. }
  intros ? st1 (e & E & Hrep1). pose proof Hrep1 as (Hm & _ & _). apply run_bind.
  apply (get_base_wp _ _ _ _ _ _ _ Hm); [cbn; lia|]. intros b Eb Hl He. rewrite andb_false_r.
  unfold wp, bind, set_base, CBB_cleanup, ret. cbn [base]. exists e. split; [exact E|].
  destruct Hm as (b' & Eb' & _ & _ & _ & _ & _ & Hb). rewrite Eb in Eb'. injection Eb' as <-.
  rewrite Hb. cbn. rewrite app_nil_r. reflexivity.
Qed.

(** ** The properties *)

(** C9: the operations of a writer refine appending to the stack of open writers.
    A writer starts empty, with the capacity it was given, and a caller's buffer
    of [n] bytes has room for [n] bytes.  On any state and at any depth an
    operation closes the children below and appends exactly its bytes, or opens a
    child behind them, and never touches memory outside the buffer.  It fails only
    if a pending length does not fit its prefix, or the buffer has no room for the
    bytes and cannot be resized, or the allocator refuses a larger one.  The bytes
    are those of the data, of the number in the byte order and width of the name,
    or a DER element with the tag and contents of the name; a child that is open
    is closed with the big-endian length of its width, or with a DER length. *)
Theorem cbb_writers_refine k (a : A) :
  (forall n, 0 <= n < 2 ^ 64 ->
     wp (fun _ => True) (CBB_init n) (reliable A) (fun _ st => rep (mk_space true n) st [(root, [])]) (CBB_zero a)) /\
  (forall buffer n, zlen buffer = n -> n < 2 ^ 64 ->
     wp (fun _ => True) (CBB_init_fixed buffer n) (reliable A) (fun _ st => rep (mk_space false n) st [(root, [])]) (CBB_zero a)) /\
  adds (A := A) k (CBB_flush k) [] /\
  (forall data, zlen data < 2 ^ 64 -> adds (A := A) k (CBB_add_bytes k data) data) /\
  (forall n, 0 <= n < 2 ^ 64 -> adds (A := A) k (CBB_add_zeros k n) (zeros n)) /\
  (forall n, 0 <= n < 2 ^ 64 -> adds_space (A := A) k (CBB_add_space k n) n) /\
  (forall v, in_word 8 v -> adds (A := A) k (CBB_add_u8 k v) (be_split 1 v)) /\
  (forall v, in_word 16 v -> adds (A := A) k (CBB_add_u16 k v) (be_split 2 v) /\ adds (A := A) k (CBB_add_u16le k v) (le_split 2 v)) /\
  (forall v, in_word 24 v -> adds (A := A) k (CBB_add_u24 k v) (be_split 3 v)) /\
  (forall v, in_word 32 v -> adds (A := A) k (CBB_add_u32 k v) (be_split 4 v) /\ adds (A := A) k (CBB_add_u32le k v) (le_split 4 v)) /\
  (forall v, in_word 64 v -> adds (A := A) k (CBB_add_u64 k v) (be_split 8 v) /\ adds (A := A) k (CBB_add_u64le k v) (le_split 8 v)) /\
  opens (A := A) k (CBB_add_u8_length_prefixed k) [] (fixed 1) /\
  opens (A := A) k (CBB_add_u16_length_prefixed k) [] (fixed 2) /\
  opens (A := A) k (CBB_add_u24_length_prefixed k) [] (fixed 3) /\
  (forall tag, in_word 32 tag -> exists octets, is_der_tag octets tag /\ opens (A := A) k (CBB_add_asn1 k tag) octets asn1) /\
  (forall v, in_word 64 v -> exists body, is_der_integer body /\ int_value body = v /\
     adds_element (A := A) k (CBB_add_asn1_uint64 k v) CBS_ASN1_INTEGER body) /\
  (forall v, - 2 ^ 63 <= v < 2 ^ 63 -> exists body, is_der_integer body /\ int_value body = v /\
     adds_element (A := A) k (CBB_add_asn1_int64 k v) CBS_ASN1_INTEGER body) /\
  (forall data, zlen data <= 0xfffffffe -> adds_element (A := A) k (CBB_add_asn1_octet_string k data) CBS_ASN1_OCTETSTRING data) /\
  (forall v, adds_element (A := A) k (CBB_add_asn1_bool k v) CBS_ASN1_BOOLEAN [if v =? 0 then Byte.x00 else Byte.xff]) /\
  (forall n, 0 <= n <= 0xfffffffe -> exists octets, prefix_bytes asn1 n = Some octets /\ is_der_length octets n).
Proof.
  assert (Hu : forall n v, (1 <= n <= 8)%nat -> in_word (8 * Z.of_nat n) v -> adds (A := A) k (CBB_flush k ;; cbb_buffer_add_u k v n) (be_split n v))
    by (intros n v Hn Hv; apply adds_u; assumption).
  assert (Hle : forall n v, (1 <= n <= 8)%nat -> in_word (8 * Z.of_nat n) v ->
    adds (A := A) k (CBB_flush k ;; cbb_buffer_add_u k (CRYPTO_bswap n v) n) (le_split n v)).
  { intros n v Hn Hv. destruct (bswap_be_split n v Hv) as [<- H]. apply adds_u; assumption. }
  split; [intros; apply CBB_init_wp; assumption|]. split; [intros; apply CBB_init_fixed_wp; assumption|].
  split; [apply adds_flush|]. split; [intros; apply adds_bytes; assumption|]. split; [intros; apply adds_zeros; assumption|].
  split; [intros; apply CBB_add_space_adds; assumption|]. split; [intros v; apply (Hu 1%nat); lia|].
  split; [intros v Hv; split; [apply (Hu 2%nat) | apply (Hle 2%nat)]; lia || exact Hv|]. split; [intros v; apply (Hu 3%nat); lia|].
  split; [intros v Hv; split; [apply (Hu 4%nat) | apply (Hle 4%nat)]; lia || exact Hv|].
  split; [intros v Hv; split; [apply (Hu 8%nat) | apply (Hle 8%nat)]; lia || exact Hv|].
  split; [apply (opens_length_prefixed k 1); lia|]. split; [apply (opens_length_prefixed k 2); lia|]. split; [apply (opens_length_prefixed k 3); lia|].
  split; [intros tag Ht; exists (tag_octets tag); split; [apply tag_octets_der | apply opens_asn1]; exact Ht|].
  split; [intros v Hv; exists (uint_contents v); destruct (uint_contents_value v Hv); auto using adds_uint64_element|].
  split; [intros v Hv; exists (sint_contents v); destruct (sint_contents_value v Hv); auto using adds_int64_element|].
  split; [apply adds_octet_string|]. split; [apply adds_bool|].
  intros n Hn. destruct (der_length_total n) as [l El]; [lia|]. exists l. split; [exact El | apply der_length_is; [lia | exact El]].
Qed.

(** a length-prefixed child is closed with the big-endian length of its
    contents in front of them, at any nesting and whatever filled it, and the
    reader of the same prefix takes exactly the contents back. *)
Theorem cbb_length_prefixed_roundtrip {B} k (m : W B) b body rest :
  appends (S k) m b body ->
  (zlen body < 2 ^ 8 ->
     adds k (CBB_add_u8_length_prefixed k ;; m ;; CBB_flush k) (be_split 1 (zlen body) ++ body) /\
     CBS_get_u8_length_prefixed ((be_split 1 (zlen body) ++ body) ++ rest) = (Ok body, rest)) /\
  (zlen body < 2 ^ 16 ->
     adds k (CBB_add_u16_length_prefixed k ;; m ;; CBB_flush k) (be_split 2 (zlen body) ++ body) /\
     CBS_get_u16_length_prefixed ((be_split 2 (zlen body) ++ body) ++ rest) = (Ok body, rest)) /\
  (zlen body < 2 ^ 24 ->
     adds k (CBB_add_u24_length_prefixed k ;; m ;; CBB_flush k) (be_split 3 (zlen body) ++ body) /\
     CBS_get_u24_length_prefixed ((be_split 3 (zlen body) ++ body) ++ rest) = (Ok body, rest)).
Proof.
  intros Hm. pose proof (zlen_nonneg body).
  assert (L : forall n, (1 <= n <= 3)%nat -> zlen body < 2 ^ (8 * Z.of_nat n) ->
    adds k (cbb_add_length_prefixed k (Z.of_nat n) ;; m ;; CBB_flush k) (be_split n (zlen body) ++ body) /\
    cbs_get_length_prefixed (Z.of_nat n) ((be_split n (zlen body) ++ body) ++ rest) = (Ok body, rest)).
  { intros n Hn Hl. split.
    - apply (opens_fill_flush k _ m b [] (fixed n) body); auto.
      + apply opens_length_prefixed, Hn.
      + cbn [prefix_bytes]. destruct (Z.ltb_spec (zlen body) (2 ^ (8 * Z.of_nat n))); [reflexivity | lia].
    - unfold cbs_get_length_prefixed, bind. rewrite <- app_assoc.
      assert (Hz : zlen (be_split n (zlen body)) = Z.of_nat n) by (unfold zlen; rewrite length_be_split; reflexivity).
      rewrite (cbs_get_u_reads (Z.of_nat n) (be_split n (zlen body)) (eq_sym Hz) ltac:(lia)).
      rewrite be_value_be_split, Z.mod_small by lia. apply CBS_get_bytes_reads. reflexivity. }
  split; [|split]; intros Hl; [apply (L 1%nat) | apply (L 2%nat) | apply (L 3%nat)]; lia || exact Hl.
Qed.

(** C17: an ASN.1 child is closed as a DER element with the given tag, with the
    shortest length octets and its contents moved to make room for them, and
    [CBS_get_asn1] of that tag takes exactly its contents back. *)
Theorem cbb_asn1_roundtrip {B} k tag (m : W B) b body rest :
  in_word 32 tag -> appends (S k) m b body -> zlen body <= 0xfffffffe ->
  exists elem, adds k (CBB_add_asn1 k tag ;; m ;; CBB_flush k) elem /\
    CBS_get_asn1 tag (elem ++ rest) = (Ok body, rest).
Proof.
  intros Ht Hm Hl. destruct (der_element_total tag body Hl) as [elem He]. exists elem.
  split; [exact (adds_asn1 k tag m b body elem Ht Hm He)|].
  apply CBS_get_asn1_iff. destruct (der_element_is tag body elem Ht He) as [h Hd]. eauto.
Qed.

(** [CBB_add_asn1_uint64] and [CBB_add_asn1_int64] write INTEGERs that the
    matching reader accepts, with the value that was written, for every value
    of the type. *)
Theorem asn1_integer_roundtrip k :
  (forall v rest, 0 <= v < 2 ^ 64 -> exists elem, adds (A := A) k (CBB_add_asn1_uint64 k v) elem /\
     CBS_get_asn1_uint64 (elem ++ rest) = (Ok v, rest)) /\
  (forall v rest, - 2 ^ 63 <= v < 2 ^ 63 -> exists elem, adds (A := A) k (CBB_add_asn1_int64 k v) elem /\
     CBS_get_asn1_int64 (elem ++ rest) = (Ok v, rest)).
Proof.
  assert (Ht : 0 <= CBS_ASN1_INTEGER < 2 ^ 32) by (unfold CBS_ASN1_INTEGER; lia).
  split; intros v rest Hv; destruct (zlen_contents v) as [Hls Hlu].
  - destruct (der_element_total CBS_ASN1_INTEGER (uint_contents v)) as [elem He]; [lia|]. exists elem.
    split; [apply adds_asn1_uint64; assumption|]. destruct (uint_contents_value v Hv) as [H1 H2].
    destruct (der_element_is _ _ _ Ht He) as [h Hd]. apply CBS_get_asn1_uint64_iff.
    exists (uint_contents v). split; [exists elem, h; auto|]. split; [exact H1|]. split; [auto | exact Hv].
  - destruct (der_element_total CBS_ASN1_INTEGER (sint_contents v)) as [elem He]; [lia|]. exists elem.
    split; [apply adds_asn1_int64; assumption|]. destruct (sint_contents_value v Hv) as [H1 H2].
    destruct (der_element_is _ _ _ Ht He) as [h Hd]. apply CBS_get_asn1_int64_iff.
    exists (sint_contents v). split; [exists elem, h; auto|]. split; [exact H1|]. split; [auto|].
    pose proof (proj2 H1) as Hmin. rewrite H2 in Hmin. destruct Hmin as [->|Hmin]; [lia|].
    destruct (Z_le_dec (zlen (sint_contents v)) 8); [assumption|]. exfalso. apply Hmin.
    replace (8 * (zlen (sint_contents v) - 1) - 1) with 63 by lia. lia.
Qed.

(** [CBB_finish] hands out the contents of the top-level writer with all
    its open children closed behind them, nested as they were opened. *)
Theorem cbb_finish_spec r (st : CBB A) c cs :
  rep r st ((root, c) :: cs) ->
  match CBB_finish 0 true st with
  | (Ok out, _) => exists e, encode cs = Some e /\ out = c ++ e
  | (Fail, st') => failed st' /\
      ~ (exists e, encode cs = Some e /\ growable (A := A) r (zlen c + zlen e))
  | (Stuck, _) => False
  end.
Proof. exact (CBB_finish_wp r st c cs). Qed.

(** once a writer has failed it stays failed: every later operation on it
    or on its children fails and changes nothing, so a caller may check for
    errors at the end only. *)
Theorem cbb_error_latched (st : CBB A) k :
  failed st ->
  (forall data, CBB_add_bytes k data st = (Fail, st)) /\ (forall v, CBB_add_u8 k v st = (Fail, st)) /\
  (forall v, CBB_add_u64 k v st = (Fail, st)) /\ (forall tag, CBB_add_asn1 k tag st = (Fail, st)) /\
  CBB_add_u16_length_prefixed k st = (Fail, st) /\ (forall v, CBB_add_asn1_uint64 k v st = (Fail, st)) /\
  (forall qsort, CBB_flush_asn1_set_of qsort k st = (Fail, st)) /\ CBB_finish 0 true st = (Fail, st).
Proof.
  intros (b & E & He).
  assert (Hf : forall k, CBB_flush k st = (Fail, st)).
  { intros j. unfold CBB_flush. rewrite bind_get.
    destruct (length (chain st)) eqn:El; cbn [flush_from]; unfold bind, get_base; rewrite E, El;
      destruct (_ <? _)%nat; try reflexivity; rewrite He; reflexivity. }
  repeat split; intros;
    unfold CBB_add_bytes, CBB_add_u8, CBB_add_u64, CBB_add_u16_length_prefixed, cbb_add_length_prefixed,
      CBB_add_asn1_uint64, CBB_add_asn1, CBB_flush_asn1_set_of, CBB_finish, finish_block, bind; cbn [Nat.eqb negb];
    rewrite Hf; reflexivity.
Qed.

(** an integer that does not fit the width it is written with is not
    truncated: the writer fails. *)
Theorem cbb_u24_too_large k v r (st : CBB A) ls p c :
  rep r st (ls ++ [(p, c)]) -> length ls = k -> 2 ^ 24 <= v < 2 ^ 32 ->
  exists st', CBB_add_u24 k v st = (Fail, st') /\ failed st'.
Proof.
  intros Hrep <- Hv. unfold CBB_add_u24.
  assert (H : wp failed (CBB_flush (length ls) ;; cbb_buffer_add_u (length ls) v 3) False (fun _ _ => False) st).
  { apply run_bind. eapply run_mono; [apply (CBB_flush_wp _ _ _ [] _ _ Hrep) | auto | intros [] |].
    intros ? st1 (e & E & Hrep1). cbn in E. injection E as E. subst e. rewrite app_nil_r in Hrep1.
    pose proof (rep_last _ _ _ _ _ Hrep1) as [_ Hdep]. pose proof Hrep1 as (Hm & _ & _).
    unfold cbb_buffer_add_u. cbn [Nat.eqb]. apply run_bind.
    eapply run_mono; [apply (add_wp _ 3 r _ _ Hm); lia | auto | intros [] |].
    intros off st2 (-> & Hch & junk & Hj & Hm1). rewrite <- (app_nil_r junk) in Hm1. apply run_bind.
    eapply run_mono; [apply (store_be_wp failed 3 _ v r _ _ _ st2 True Hm1 eq_refl) | auto | intros [] |].
    { unfold zlen in Hj. lia. }
    intros v' st3 (-> & Hch2 & Hm2). rewrite shiftr_zero by lia.
    change (2 ^ (8 * Z.of_nat 3)) with (2 ^ 24). destruct (Z.ltb_spec v (2 ^ 24)); [lia|]. cbn [negb].
    apply wp_on_err, run_fail; [eapply mem_has_base, Hm2 | auto]. }
  unfold wp in H. destruct (bind _ _ st) as [[u| |] st']; [contradiction | | contradiction].
  exists st'. split; [reflexivity | apply H].
Qed.

(** C31: when the contents of a writer are DER elements, [CBB_flush_asn1_set_of]
    replaces them by a permutation of them that ascends as octet strings, which is
    what DER asks of a SET OF.  It fails only when the allocator refuses its two
    temporary blocks, and then the contents are what they were; the buffer has
    room for them, and no assertion fails.  Of the C library's [qsort] it is used
    that it sorts when it is given a comparison function. *)
Theorem set_of_sorted qsort k r (st : CBB A) ls p children :
  sorts qsort -> rep r st (ls ++ [(p, concat children)]) -> length ls = k ->
  Forall is_element children -> Z.of_nat (length children) <= (2 ^ 64 - 1) / 16 ->
  match CBB_flush_asn1_set_of qsort k st with
  | (Ok _, st') => exists sorted, rep r st' (ls ++ [(p, concat sorted)]) /\ sorted ≡ₚ children /\ StronglySorted lex_le sorted
  | (Fail, st') => rep r st' (ls ++ [(p, concat children)]) /\ ~ reliable A
  | (Stuck, _) => False
  end.
Proof.
  intros Hsort Hrep <- Hels Hnum. set (c := concat children) in *.
  destruct (rep_room _ _ _ Hrep) as [Hroom Hsmall]. set (r' := mk_space _ _) in Hroom.
  assert (Hless : forall st ls, rep r' st ls -> rep r st ls) by (intros ? ?; apply rep_less; [reflexivity | cbn; lia]).
  pose proof (CBB_flush_wp ls p c [] r' st Hroom) as Hfl. unfold wp in Hfl.
  unfold CBB_flush_asn1_set_of, bind at 1.
  destruct (CBB_flush (length ls) st) as [[[]| |] st1]; [| |contradiction].
  2: { destruct Hfl as [_ Hfl]. destruct Hfl. exists []. split; [reflexivity|].
       change (zlen (@nil byte)) with 0. rewrite Z.add_0_r. split; [exact Hsmall | left; cbn; lia]. }
  destruct Hfl as (e & E & Hrep1). cbn in E. injection E as E. subst e. rewrite app_nil_r in Hrep1.
  rewrite bind_get, (CBB_data_spec _ _ _ _ _ Hrep1). unfold c. rewrite (set_of_children_run children Hels _ (Nat.lt_succ_diag_r _)). fold c.
  assert (Hc : zlen c < 2 ^ 64).
  { rewrite layout_app in Hsmall. cbn [layout] in Hsmall. rewrite !zlen_app in Hsmall.
    pose proof (zlen_nonneg (layout ls)). pose proof (zlen_nonneg (zeros (hole_len p))). change (zlen (@nil byte)) with 0 in Hsmall. lia. }
  destruct (Z.ltb_spec (Z.of_nat (length children)) 2).
  { exists children. split; [apply Hless, Hrep1|]. split; [reflexivity|].
    destruct children as [|x [|y l]]; [constructor | repeat constructor | cbn [length] in *; lia]. }
  destruct (Z.ltb_spec ((2 ^ 64 - 1) / 16) (Z.of_nat (length children))); [lia|]. pose proof (zlen_nonneg c) as Hc0.
  destruct (OPENSSL_memdup (heap st1) c) as [copy h1] eqn:E1. destruct (OPENSSL_malloc h1 (Z.of_nat (length children) * 16)) as [table h2] eqn:E2.
  unfold bind at 1, put at 1, finally.
  assert (Hfails : copy = None \/ table = None -> ~ reliable A).
  { intros Hnone Hrel. destruct Hnone as [->| ->].
    - unfold OPENSSL_memdup, OPENSSL_malloc in E1. pose proof (Hrel (heap st1) [] (zlen c) ltac:(lia)) as Hr.
      destruct (OPENSSL_realloc (heap st1) [] (zlen c)) as [[x|] y]; [discriminate | apply Hr; reflexivity].
    - unfold OPENSSL_malloc in E2. change ((2 ^ 64 - 1) / 16) with (2 ^ 60 - 1) in Hnum.
      apply (Hrel h1 [] (Z.of_nat (length children) * 16)); [lia|]. rewrite E2. reflexivity. }
  destruct copy as [copy|]; [destruct table as [table|]|];
    [|cbn; split; [exact (Hless _ _ (rep_heap _ _ _ _ Hrep1)) | apply Hfails; auto]..].
  destruct (Hsort compare_set_of_element children compare_set_of_comparison) as [Hperm Hasc]. set (sorted := qsort _ _) in *.
  pose proof (rewrite_wp (fun _ => True) (length ls) r' _ ls p children sorted (rep_heap _ _ _ h2 Hrep1) eq_refl Hperm) as Hs. unfold wp in Hs.
  change (content_start (length ls) (mk_cbb h2 (base st1) (chain st1))) with (content_start (length ls) st1) in Hs.
  match goal with |- context [(b <- _ ;; _ ;; _ ;; ?rest) ?s] =>
    assert (Eseq : forall f : cbb_buffer -> W unit, (b <- get_base (length ls) ;; f b ;; add_all (length ls) sorted ;; rest) s =
      ((b <- get_base (length ls) ;; f b ;; add_all (length ls) sorted) ;; rest) s) by
      (intros f; unfold bind; destruct (get_base _ _) as [[b| |] s1]; try reflexivity; destruct (f b s1) as [[[]| |] s2]; reflexivity) end.
  rewrite Eseq. clear Eseq. unfold bind at 1.
  destruct (bind _ _ (mk_cbb h2 (base st1) (chain st1))) as [[[]| |] st2]; [| destruct Hs as [_ Hs]; destruct (Hs I) | destruct Hs].
  rewrite bind_get, (CBB_len_spec _ _ _ _ _ Hs). assert (Hlen : zlen (concat sorted) = zlen c) by (unfold zlen; f_equal; apply concat_permutation, Hperm).
  rewrite Hlen, Z.eqb_refl. cbn [ret]. exists sorted. split; [exact (Hless _ _ (rep_heap _ _ _ _ Hs))|]. split; [exact Hperm|].
  apply ascending_sorted in Hasc. revert Hasc. clear. induction 1 as [|x l _ IH Hf]; constructor; [exact IH|].
  eapply Forall_impl; [exact Hf|]. intros y. apply compare_lex.
Qed.
End props.

(** ** Witnesses *)

(** A writer over an unlimited heap, initialised with no capacity. *)
Definition empty_writer : CBB unit := snd (CBB_init 0 (CBB_zero tt)).

Lemma empty_writer_rep : rep (mk_space true 0) empty_writer [(root, [])].
Proof.
  split; [|split; [constructor | reflexivity]]. eexists. split; [reflexivity|]. cbn.
  repeat split; reflexivity || lia.
Qed.

Lemma cbb_length_prefixed_roundtrip_witness :
  CBS_get_u8_length_prefixed ((be_split 1 (zlen [b8 7]) ++ [b8 7]) ++ []) = (Ok [b8 7], []).
Proof.
  refine (proj2 (proj1 (cbb_length_prefixed_roundtrip (A := unit) 0 (CBB_add_u8 1 7) tt [b8 7] [] _) _));
    [apply appends_u8; lia | reflexivity].
Defined.

Lemma cbb_asn1_roundtrip_witness :
  exists elem, adds (A := unit) 0 (CBB_add_asn1 0 CBS_ASN1_SEQUENCE ;; CBB_add_u8 1 7 ;; CBB_flush 0) elem /\
    CBS_get_asn1 CBS_ASN1_SEQUENCE (elem ++ []) = (Ok [b8 7], []).
Proof.
  apply (cbb_asn1_roundtrip 0 CBS_ASN1_SEQUENCE (CBB_add_u8 1 7) tt [b8 7] []);
    [unfold in_word; vm_compute; split; [discriminate | reflexivity] | apply appends_u8; lia | vm_compute; discriminate].
Defined.

Lemma cbb_finish_spec_witness :
  match CBB_finish 0 true empty_writer with
  | (Ok out, _) => exists e, encode [] = Some e /\ out = [] ++ e
  | (Fail, st') => failed st' /\ ~ (exists e, encode [] = Some e /\ growable (A := unit) (mk_space true 0) (zlen (@nil byte) + zlen e))
  | (Stuck, _) => False
  end.
Proof. apply (cbb_finish_spec (mk_space true 0) empty_writer [] []), empty_writer_rep. Defined.

Lemma cbb_error_latched_witness :
  CBB_add_u8 0 1 (mark_error empty_writer) = (Fail, mark_error empty_writer).
Proof.
  refine (proj1 (proj2 (cbb_error_latched (mark_error empty_writer) 0 _)) 1).
  eexists. split; reflexivity.
Defined.

Lemma cbb_u24_too_large_witness :
  exists st', CBB_add_u24 0 (2 ^ 24) empty_writer = (Fail, st') /\ failed st'.
Proof. apply (cbb_u24_too_large 0 (2 ^ 24) (mk_space true 0) empty_writer [] root []); [apply empty_writer_rep | reflexivity | lia]. Defined.

(** A writer holding an INTEGER and a BOOLEAN, in the wrong order. *)
Definition set_bytes : list byte := [Byte.x02; Byte.x01; Byte.x05; Byte.x01; Byte.x01; Byte.xff].
Definition set_writer : CBB unit := snd (CBB_add_bytes 0 set_bytes empty_writer).

Lemma set_writer_rep : rep (mk_space true 0) set_writer [(root, set_bytes)].
Proof.
  split; [|split; [constructor | reflexivity]]. eexists. split; [reflexivity|]. vm_compute.
  repeat split; reflexivity || discriminate.
Qed.

Lemma integer_element : is_element [Byte.x02; Byte.x01; Byte.x05].
Proof.
  exists CBS_ASN1_INTEGER, 2, [Byte.x05]. exists [Byte.x02], [Byte.x01]. do 2 (split; [reflexivity|]).
  split; [exact (low_tag Byte.x02 ltac:(vm_compute; congruence)) | exact (short_length Byte.x01 ltac:(vm_compute; congruence))].
Qed.

Lemma boolean_element : is_element [Byte.x01; Byte.x01; Byte.xff].
Proof.
  exists CBS_ASN1_BOOLEAN, 2, [Byte.xff]. exists [Byte.x01], [Byte.x01]. do 2 (split; [reflexivity|]).
  split; [exact (low_tag Byte.x01 ltac:(vm_compute; congruence)) | exact (short_length Byte.x01 ltac:(vm_compute; congruence))].
Qed.

Lemma set_of_sorted_witness :
  fst (CBB_flush_asn1_set_of reference_qsort 0 set_writer) = Ok tt /\
  match CBB_flush_asn1_set_of reference_qsort 0 set_writer with
  | (Ok _, st') => exists sorted, rep (mk_space true 0) st' ([] ++ [(root, concat sorted)]) /\
      sorted ≡ₚ [[Byte.x02; Byte.x01; Byte.x05]; [Byte.x01; Byte.x01; Byte.xff]] /\ StronglySorted lex_le sorted
  | (Fail, st') => rep (mk_space true 0) st' ([] ++ [(root, set_bytes)]) /\ ~ reliable unit
  | (Stuck, _) => False
  end.
Proof.
  split; [vm_compute; reflexivity|].
  apply (set_of_sorted reference_qsort 0 (mk_space true 0) set_writer [] root [[Byte.x02; Byte.x01; Byte.x05]; [Byte.x01; Byte.x01; Byte.xff]]);
    [apply reference_qsort_sorts | apply set_writer_rep | reflexivity
    | constructor; [exact integer_element | constructor; [exact boolean_element | constructor]] | vm_compute; discriminate].
Defined.
