(* ===== verification/Unicode.v ===== *)
(** The character codecs of ASN.1 strings:
    ios/Pods/BoringSSL-GRPC/src/crypto/bytestring/unicode.c. *)
From Stdlib Require Import ZArith Lia Bool.
From coqutil Require Import Byte Word.LittleEndianList.
From stdpp Require Import base list numbers.
From S2P Require Import Prelude Alloc Cbs CbsSpec Cbb CbbSpec.
Local Open Scope Z_scope.
Local Open Scope c_scope.

Definition is_valid_code_point (v : Z) : bool :=
  negb ((0x10ffff <? v) || (Z.land v 0xfffe =? 0xfffe)
        || ((0xfdd0 <=? v) && (v <=? 0xfdef)) || ((0xd800 <=? v) && (v <=? 0xdfff))).

(** A byte with its bottom, or top, [n] bits set. *)
Definition BOTTOM_BITS (n : Z) : Z := Z.land (Z.shiftl 1 n - 1) 0xff.
Definition TOP_BITS (n : Z) : Z := Z.land (Z.lnot (BOTTOM_BITS (8 - n))) 0xff.

(** The [len] continuation bytes. *)
Fixpoint utf8_continuation (len : nat) (v : Z) : R Z :=
  match len with
  | O => ret v
  | S len =>
      c <- CBS_get_u8 ;;
      if negb (Z.land (u8 c) (TOP_BITS 2) =? TOP_BITS 1) then fail
      else utf8_continuation len (Z.lor (u32 (Z.shiftl v 6)) (Z.land (u8 c) (BOTTOM_BITS 6)))
  end.

Definition cbs_get_utf8 : R Z :=
  c <- CBS_get_u8 ;;
  let c := u8 c in
  if c <=? 0x7f then ret c else
  let more v len lower_bound :=
    v <- utf8_continuation len v ;;
    if negb (is_valid_code_point v) || (v <? lower_bound) then fail else ret v in
  if Z.land c (TOP_BITS 3) =? TOP_BITS 2 then more (Z.land c (BOTTOM_BITS 5)) 1%nat 0x80
  else if Z.land c (TOP_BITS 4) =? TOP_BITS 3 then more (Z.land c (BOTTOM_BITS 4)) 2%nat 0x800
  else if Z.land c (TOP_BITS 5) =? TOP_BITS 4 then more (Z.land c (BOTTOM_BITS 3)) 3%nat 0x10000
  else fail.

Definition cbs_get_latin1 : R Z := c <- CBS_get_u8 ;; ret (u8 c).

Definition cbs_get_ucs2_be : R Z :=
  c <- CBS_get_u16 ;; if negb (is_valid_code_point c) then fail else ret c.

Definition cbs_get_utf32_be : R Z :=
  c <- CBS_get_u32 ;; if is_valid_code_point c then ret c else fail.

Definition cbb_get_utf8_len (u : Z) : Z :=
  if u <=? 0x7f then 1 else if u <=? 0x7ff then 2 else if u <=? 0xffff then 3 else 4.

Section writers.
Context {A : Type} {AL : Allocator A}.
Notation W := (M (CBB A) unit).

Definition cbb_add_utf8 (k : nat) (u : Z) : W :=
  if negb (is_valid_code_point u) then fail else
  let tail s := Z.lor (TOP_BITS 1) (Z.land (Z.shiftr u s) (BOTTOM_BITS 6)) in
  if u <=? 0x7f then CBB_add_u8 k (Z.land u 0xff)
  else if u <=? 0x7ff then CBB_add_u8 k (Z.lor (TOP_BITS 2) (Z.shiftr u 6)) ;; CBB_add_u8 k (tail 0)
  else if u <=? 0xffff then
    CBB_add_u8 k (Z.lor (TOP_BITS 3) (Z.shiftr u 12)) ;; CBB_add_u8 k (tail 6) ;; CBB_add_u8 k (tail 0)
  else if u <=? 0x10ffff then
    CBB_add_u8 k (Z.lor (TOP_BITS 4) (Z.shiftr u 18)) ;; CBB_add_u8 k (tail 12) ;;
    CBB_add_u8 k (tail 6) ;; CBB_add_u8 k (tail 0)
  else fail.

Definition cbb_add_latin1 (k : nat) (u : Z) : W :=
  if u <=? 0xff then CBB_add_u8 k (Z.land u 0xff) else fail.

Definition cbb_add_ucs2_be (k : nat) (u : Z) : W :=
  if (u <=? 0xffff) && is_valid_code_point u then CBB_add_u16 k (u16 u) else fail.

Definition cbb_add_utf32_be (k : nat) (u : Z) : W :=
  if is_valid_code_point u then CBB_add_u32 k u else fail.
End writers.

(** ** The UTF-8 form *)

(** The [i]th group of six bits as a continuation byte. *)
Definition cont (u i : Z) : byte := b8 (0x80 + (u / 64 ^ i) mod 64).

Definition utf8_bytes (u : Z) : list byte :=
  if u <=? 0x7f then [b8 u]
  else if u <=? 0x7ff then [b8 (0xc0 + u / 64); cont u 0]
  else if u <=? 0xffff then [b8 (0xe0 + u / 64 ^ 2); cont u 1; cont u 0]
  else [b8 (0xf0 + u / 64 ^ 3); cont u 2; cont u 1; cont u 0].

(** The code points that are characters: not past the end of Unicode, not
    half of a surrogate pair, and not one of the noncharacters, which are
    U+FDD0 to U+FDEF and the last two of each plane of 65536. *)
Definition character (u : Z) : Prop :=
  0 <= u <= 0x10ffff /\ ~ (0xd800 <= u <= 0xdfff) /\ ~ (0xfdd0 <= u <= 0xfdef) /\
  u mod 65536 <> 65534 /\ u mod 65536 <> 65535.

Lemma land_fffe u : Z.land u 0xfffe = 2 * ((u / 2) mod 2 ^ 15).
Proof.
  rewrite <- land_ones_mod by lia. apply Z.bits_inj'. intros i Hi.
  rewrite Z.land_spec. destruct (Z.eq_dec i 0) as [->|Hn].
  - rewrite Z.testbit_even_0, andb_false_r. reflexivity.
  - replace i with (Z.succ (i - 1)) by lia. rewrite Z.testbit_even_succ, Z.land_spec by lia.
    rewrite <- (Z.div2_spec u) || idtac. f_equal.
    + change (u / 2) with (u / 2 ^ 1). rewrite Z.div_pow2_bits by lia. f_equal; lia.
    + change 0xfffe with (2 * (2 ^ 15 - 1)). rewrite Z.testbit_even_succ by lia. reflexivity.
Qed.

Lemma character_valid u : character u <-> 0 <= u /\ is_valid_code_point u = true.
Proof.
  unfold character, is_valid_code_point. rewrite land_fffe.
  rewrite negb_true_iff, !orb_false_iff, !andb_false_iff, !Z.ltb_ge, !Z.leb_gt, Z.eqb_neq.
  pose proof (Z.div_mod u 2 ltac:(lia)). pose proof (Z.mod_pos_bound u 2 ltac:(lia)).
  pose proof (Z.div_mod (u / 2) (2 ^ 15) ltac:(lia)). pose proof (Z.mod_pos_bound (u / 2) (2 ^ 15) ltac:(lia)).
  assert (E : u mod 65536 = 2 * ((u / 2) mod 2 ^ 15) + u mod 2).
  { symmetry. apply Z.mod_unique with (q := u / 2 / 2 ^ 15); lia. }
  rewrite E. lia.
Qed.

Lemma valid_range u : is_valid_code_point u = true -> u <= 0x10ffff.
Proof.
  unfold is_valid_code_point. rewrite negb_true_iff, !orb_false_iff. intros [[[H _] _] _]. zbool. exact H.
Qed.

(** One continuation byte, read and written. *)
Lemma cont_byte c : negb (Z.land (u8 c) (TOP_BITS 2) =? TOP_BITS 1) = negb ((0x80 <=? u8 c) && (u8 c <? 0xc0)).
Proof. destruct c; reflexivity. Qed.

Lemma cont_value c : Z.land (u8 c) (BOTTOM_BITS 6) = u8 c mod 64.
Proof. change (BOTTOM_BITS 6) with (2 ^ 6 - 1). apply land_ones_mod. lia. Qed.

Lemma cont_step v x : 0 <= v < 2 ^ 26 -> 0 <= x < 64 -> Z.lor (u32 (Z.shiftl v 6)) x = v * 64 + x.
Proof.
  intros Hv Hx. rewrite wrap_small by (unfold in_word; rewrite Z.shiftl_mul_pow2 by lia; lia).
  rewrite lor_shiftl_add by lia. reflexivity.
Qed.

Lemma utf8_continuation_S len v cbs u rest :
  0 <= v < 2 ^ 26 ->
  utf8_continuation (S len) v cbs = (Ok u, rest) <->
  exists x cbs', 0 <= x < 64 /\ cbs = b8 (0x80 + x) :: cbs' /\ utf8_continuation len (v * 64 + x) cbs' = (Ok u, rest).
Proof.
  intros Hv. cbn [utf8_continuation]. split.
  - intros H. apply bind_inv in H as (c & s & H1 & H). apply CBS_get_u8_inv in H1 as ->.
    rewrite cont_byte, cont_value in H. destruct (Z.leb_spec 0x80 (u8 c)); [|discriminate].
    destruct (Z.ltb_spec (u8 c) 0xc0); [|discriminate]. cbn [andb negb] in H.
    pose proof (Z.mod_pos_bound (u8 c) 64 ltac:(lia)). rewrite cont_step in H by lia.
    exists (u8 c mod 64), s. split; [lia|]. split; [|exact H]. f_equal. apply u8_inj.
    assert (E : u8 c mod 64 = u8 c - 128) by (symmetry; apply Z.mod_unique with (q := 2); lia).
    rewrite E, u8_b8_small; lia.
  - intros (x & cbs' & Hx & -> & H). unfold bind. rewrite CBS_get_u8_cons, cont_byte, cont_value, u8_b8_small by lia.
    destruct (Z.leb_spec 0x80 (0x80 + x)); [|lia]. destruct (Z.ltb_spec (0x80 + x) 0xc0); [|lia]. cbn [andb negb].
    replace ((0x80 + x) mod 64) with x by (apply Z.mod_unique with (q := 2); lia). rewrite cont_step by lia. exact H.
Qed.

Lemma utf8_continuation_0 v cbs u rest : utf8_continuation 0 v cbs = (Ok u, rest) <-> v = u /\ cbs = rest.
Proof. cbn. split; [intros [= <- <-]; auto | intros [-> ->]; reflexivity]. Qed.

(** The ranges of the leading byte. *)
Lemma lead2 c : (Z.land (u8 c) (TOP_BITS 3) =? TOP_BITS 2) = (0xc0 <=? u8 c) && (u8 c <? 0xe0).
Proof. destruct c; reflexivity. Qed.
Lemma lead3 c : (Z.land (u8 c) (TOP_BITS 4) =? TOP_BITS 3) = (0xe0 <=? u8 c) && (u8 c <? 0xf0).
Proof. destruct c; reflexivity. Qed.
Lemma lead4 c : (Z.land (u8 c) (TOP_BITS 5) =? TOP_BITS 4) = (0xf0 <=? u8 c) && (u8 c <? 0xf8).
Proof. destruct c; reflexivity. Qed.
Lemma low5 c : Z.land (u8 c) (BOTTOM_BITS 5) = u8 c mod 32.
Proof. change (BOTTOM_BITS 5) with (2 ^ 5 - 1). apply land_ones_mod. lia. Qed.
Lemma low4 c : Z.land (u8 c) (BOTTOM_BITS 4) = u8 c mod 16.
Proof. change (BOTTOM_BITS 4) with (2 ^ 4 - 1). apply land_ones_mod. lia. Qed.
Lemma low3 c : Z.land (u8 c) (BOTTOM_BITS 3) = u8 c mod 8.
Proof. change (BOTTOM_BITS 3) with (2 ^ 3 - 1). apply land_ones_mod. lia. Qed.

(** The checks on the value that was accumulated. *)
Lemma utf8_check len v lower cbs u rest :
  (v <- utf8_continuation len v ;; if negb (is_valid_code_point v) || (v <? lower) then fail else ret v) cbs = (Ok u, rest)
  <-> utf8_continuation len v cbs = (Ok u, rest) /\ is_valid_code_point u = true /\ lower <= u.
Proof.
  split.
  - intros H. apply bind_inv in H as (v' & s & H1 & H). destruct (is_valid_code_point v') eqn:E; [|discriminate].
    cbn [negb orb] in H. destruct (Z.ltb_spec v' lower); [discriminate|]. injection H as <- <-. auto.
  - intros (H1 & H2 & H3). unfold bind. rewrite H1, H2. destruct (Z.ltb_spec u lower); [lia | reflexivity].
Qed.

(** The groups of six bits of a number put together from them. *)
Lemma group0 v x : 0 <= x < 64 -> cont (v * 64 + x) 0 = b8 (0x80 + x) /\ (v * 64 + x) / 64 = v.
Proof.
  intros H. unfold cont. rewrite Z.pow_0_r, Z.div_1_r. split.
  - do 2 f_equal. symmetry. apply Z.mod_unique with (q := v); lia.
  - symmetry. apply Z.div_unique with (r := x); lia.
Qed.

Lemma cont_succ u i : 0 <= i -> cont u (i + 1) = cont (u / 64) i.
Proof.
  intros Hi. unfold cont. rewrite Z.pow_add_r, Z.pow_1_r, (Z.mul_comm (64 ^ i)) by lia.
  rewrite Z.div_div by (try apply Z.pow_pos_nonneg; lia). reflexivity.
Qed.

(** [u] split into a leading part and groups of six bits. *)
Lemma split_1 u : u = (u / 64) * 64 + u mod 64 /\ 0 <= u mod 64 < 64.
Proof. pose proof (Z.div_mod u 64 ltac:(lia)). pose proof (Z.mod_pos_bound u 64 ltac:(lia)). lia. Qed.

Lemma cont_0 u : cont u 0 = b8 (0x80 + u mod 64).
Proof. unfold cont. rewrite Z.pow_0_r, Z.div_1_r. reflexivity. Qed.

Lemma cont_1 u : cont u 1 = b8 (0x80 + (u / 64) mod 64).
Proof. reflexivity. Qed.

Lemma cont_2 u : cont u 2 = b8 (0x80 + (u / 64 / 64) mod 64).
Proof. unfold cont. rewrite Z.div_div by lia. reflexivity. Qed.

(** Reading [n] continuation bytes after the leading part [v]. *)
Lemma continuation_1 v cbs u rest : 0 <= v < 2 ^ 26 ->
  utf8_continuation 1 v cbs = (Ok u, rest) <-> u / 64 = v /\ cbs = cont u 0 :: rest.
Proof.
  intros Hv. rewrite utf8_continuation_S by exact Hv. rewrite cont_0. split.
  - intros (x & cbs' & Hx & -> & H). apply utf8_continuation_0 in H as [<- ->].
    destruct (group0 v x Hx) as [E1 E2]. rewrite cont_0 in E1. rewrite E1, E2. auto.
  - intros [<- ->]. destruct (split_1 u) as [E Hx]. exists (u mod 64), rest.
    split; [exact Hx|]. split; [reflexivity|]. apply utf8_continuation_0. auto.
Qed.

Lemma continuation_2 v cbs u rest : 0 <= v < 2 ^ 20 ->
  utf8_continuation 2 v cbs = (Ok u, rest) <-> u / 64 / 64 = v /\ cbs = cont u 1 :: cont u 0 :: rest.
Proof.
  intros Hv. rewrite utf8_continuation_S by lia. rewrite cont_1. split.
  - intros (x & cbs' & Hx & -> & H). apply continuation_1 in H as [E ->]; [|lia].
    destruct (group0 v x Hx) as [E1 E2]. rewrite cont_0 in E1. rewrite E, E1, E2. auto.
  - intros [<- ->]. destruct (split_1 (u / 64)) as [E Hx]. exists ((u / 64) mod 64), (cont u 0 :: rest).
    split; [exact Hx|]. split; [reflexivity|]. apply continuation_1; [lia|]. auto.
Qed.

Lemma continuation_3 v cbs u rest : 0 <= v < 2 ^ 14 ->
  utf8_continuation 3 v cbs = (Ok u, rest) <-> u / 64 / 64 / 64 = v /\ cbs = cont u 2 :: cont u 1 :: cont u 0 :: rest.
Proof.
  intros Hv. rewrite utf8_continuation_S by lia. rewrite cont_2. split.
  - intros (x & cbs' & Hx & -> & H). apply continuation_2 in H as [E ->]; [|lia].
    destruct (group0 v x Hx) as [E1 E2]. rewrite cont_0 in E1. rewrite E, E1, E2. auto.
  - intros [<- ->]. destruct (split_1 (u / 64 / 64)) as [E Hx].
    exists ((u / 64 / 64) mod 64), (cont u 1 :: cont u 0 :: rest).
    split; [exact Hx|]. split; [reflexivity|]. apply continuation_2; [lia|]. auto.
Qed.

(** The leading byte of each length. *)
Lemma lead_byte c base n q :
  0 <= n < 256 -> 0 <= base -> (base + n <= 256) -> base <= u8 c < base + n -> u8 c - base = q -> c = b8 (base + q).
Proof. intros _ Hb Hm H <-. apply u8_inj. rewrite u8_b8_small; lia. Qed.

Lemma ascii_valid c : u8 c <= 0x7f -> is_valid_code_point (u8 c) = true.
Proof. destruct c; cbn; intros H; reflexivity || (exfalso; apply H; reflexivity). Qed.

Lemma b8_range u : 0 <= u < 256 -> exists c, u = u8 c /\ b8 u = c.
Proof. intros H. exists (b8 u). rewrite u8_b8_small by exact H. auto. Qed.

Definition utf8_ok (cbs : CBS) (u : Z) (rest : CBS) : Prop :=
  is_valid_code_point u = true /\ 0 <= u /\ cbs = utf8_bytes u ++ rest.

Lemma cbs_get_utf8_sound cbs u rest : cbs_get_utf8 cbs = (Ok u, rest) -> utf8_ok cbs u rest.
Proof.
  intros H. apply bind_inv in H as (c & s & H1 & H). apply CBS_get_u8_inv in H1 as ->.
  cbv zeta in H. pose proof (u8_range c) as Hc. unfold utf8_ok, utf8_bytes.
  destruct (Z.leb_spec (u8 c) 0x7f) as [Ha|Ha].
  { injection H as <- <-. split; [apply ascii_valid, Ha|]. split; [lia|].
    destruct (Z.leb_spec (u8 c) 0x7f); [|lia]. rewrite b8_u8. reflexivity. }
  rewrite lead2 in H. destruct (Z.leb_spec 0xc0 (u8 c)); destruct (Z.ltb_spec (u8 c) 0xe0); cbn [andb] in H.
  2: rewrite lead3, lead4 in H.
  1: { rewrite low5 in H. assert (E : u8 c mod 32 = u8 c - 0xc0) by (symmetry; apply Z.mod_unique with (q := 6); lia).
       rewrite E in H. apply utf8_check in H as (H & Hv & Hl). apply continuation_1 in H as [E1 ->]; [|lia].
       pose proof (split_1 u). split; [exact Hv|]. split; [lia|].
       destruct (Z.leb_spec u 0x7f); [lia|]. destruct (Z.leb_spec u 0x7ff); [|lia].
       rewrite E1. rewrite (lead_byte c 0xc0 0x20 (u8 c - 0xc0)) at 1 by lia. reflexivity. }
  - destruct (Z.leb_spec 0xe0 (u8 c)); [|lia]. destruct (Z.ltb_spec (u8 c) 0xf0); cbn [andb] in H.
    + rewrite low4 in H. assert (E : u8 c mod 16 = u8 c - 0xe0) by (symmetry; apply Z.mod_unique with (q := 14); lia).
      rewrite E in H. apply utf8_check in H as (H & Hv & Hl). apply continuation_2 in H as [E1 ->]; [|lia].
      pose proof (split_1 u). pose proof (split_1 (u / 64)). split; [exact Hv|]. split; [lia|].
      destruct (Z.leb_spec u 0x7f); [lia|]. destruct (Z.leb_spec u 0x7ff); [lia|]. destruct (Z.leb_spec u 0xffff); [|lia].
      change (64 ^ 2) with (64 * 64). rewrite <- Z.div_div, E1 by lia.
      rewrite (lead_byte c 0xe0 0x10 (u8 c - 0xe0)) at 1 by lia. reflexivity.
    + destruct (Z.leb_spec 0xf0 (u8 c)); [|lia]. destruct (Z.ltb_spec (u8 c) 0xf8); cbn [andb] in H; [|discriminate].
      rewrite low3 in H. assert (E : u8 c mod 8 = u8 c - 0xf0) by (symmetry; apply Z.mod_unique with (q := 30); lia).
      rewrite E in H. apply utf8_check in H as (H & Hv & Hl). apply continuation_3 in H as [E1 ->]; [|lia].
      pose proof (split_1 u). pose proof (split_1 (u / 64)). pose proof (split_1 (u / 64 / 64)).
      split; [exact Hv|]. split; [lia|].
      destruct (Z.leb_spec u 0x7f); [lia|]. destruct (Z.leb_spec u 0x7ff); [lia|]. destruct (Z.leb_spec u 0xffff); [lia|].
      change (64 ^ 3) with (64 * 64 * 64). rewrite <- !Z.div_div, E1 by lia.
      rewrite (lead_byte c 0xf0 0x08 (u8 c - 0xf0)) at 1 by lia. reflexivity.
  - rewrite lead3, lead4 in H. destruct (Z.leb_spec 0xe0 (u8 c)); [lia|]. destruct (Z.leb_spec 0xf0 (u8 c)); [lia|]. discriminate.
  - lia.
Qed.

Lemma cbs_get_utf8_complete cbs u rest : utf8_ok cbs u rest -> cbs_get_utf8 cbs = (Ok u, rest).
Proof.
  intros (Hv & H0 & ->). pose proof (valid_range u Hv) as Hmax. unfold cbs_get_utf8, utf8_bytes.
  destruct (Z.leb_spec u 0x7f) as [Ha|Ha].
  { cbn [app]. erewrite bind_Ok by apply CBS_get_u8_cons. cbv zeta. rewrite u8_b8_small by lia.
    destruct (Z.leb_spec u 0x7f); [reflexivity | lia]. }
  pose proof (split_1 u). pose proof (split_1 (u / 64)). pose proof (split_1 (u / 64 / 64)).
  destruct (Z.leb_spec u 0x7ff); [|destruct (Z.leb_spec u 0xffff)]; cbn [app];
    erewrite bind_Ok by apply CBS_get_u8_cons; cbv zeta; rewrite lead2, ?lead3, ?lead4.
  - set (q := u / 64) in *. rewrite low5, !u8_b8_small by lia.
    destruct (Z.leb_spec (0xc0 + q) 0x7f); [lia|]. destruct (Z.leb_spec 0xc0 (0xc0 + q)); [|lia].
    destruct (Z.ltb_spec (0xc0 + q) 0xe0); [|lia]. cbn [andb].
    replace ((0xc0 + q) mod 32) with q by (apply Z.mod_unique with (q := 6); lia).
    apply utf8_check. split; [apply continuation_1; [lia|]; auto | split; [exact Hv | lia]].
  - change (64 ^ 2) with (64 * 64). rewrite <- Z.div_div by lia.
    set (q := u / 64 / 64) in *. rewrite low4, !u8_b8_small by lia.
    destruct (Z.leb_spec (0xe0 + q) 0x7f); [lia|]. destruct (Z.ltb_spec (0xe0 + q) 0xe0); [lia|]. rewrite andb_false_r.
    destruct (Z.leb_spec 0xe0 (0xe0 + q)); [|lia]. destruct (Z.ltb_spec (0xe0 + q) 0xf0); [|lia]. cbn [andb].
    replace ((0xe0 + q) mod 16) with q by (apply Z.mod_unique with (q := 14); lia).
    apply utf8_check. split; [apply continuation_2; [lia|]; auto | split; [exact Hv | lia]].
  - change (64 ^ 3) with (64 * 64 * 64). rewrite <- !Z.div_div by lia.
    set (q := u / 64 / 64 / 64) in *. pose proof (split_1 (u / 64 / 64)). fold q in H2, H3.
    rewrite low3, !u8_b8_small by lia.
    destruct (Z.leb_spec (0xf0 + q) 0x7f); [lia|]. destruct (Z.ltb_spec (0xf0 + q) 0xe0); [lia|]. rewrite andb_false_r.
    destruct (Z.ltb_spec (0xf0 + q) 0xf0); [lia|]. rewrite andb_false_r.
    destruct (Z.leb_spec 0xf0 (0xf0 + q)); [|lia]. destruct (Z.ltb_spec (0xf0 + q) 0xf8); [|lia]. cbn [andb].
    replace ((0xf0 + q) mod 8) with q by (apply Z.mod_unique with (q := 30); lia).
    apply utf8_check. split; [apply continuation_3; [lia|]; auto | split; [exact Hv | lia]].
Qed.

(** ** The writers *)

Section writer_spec.
Context {A : Type} {AL : Allocator A}.

Lemma lor_top a b k : 0 <= k -> 0 <= b < 2 ^ k -> Z.lor (a * 2 ^ k) b = a * 2 ^ k + b.
Proof. intros Hk Hb. rewrite <- Z.shiftl_mul_pow2 by exact Hk. rewrite lor_shiftl_add by assumption.
  rewrite Z.shiftl_mul_pow2 by exact Hk. reflexivity. Qed.

(** The byte the macro arithmetic computes for a group of six bits. *)
Lemma tail_byte u s i : s = 6 * i -> 0 <= i ->
  Z.lor (TOP_BITS 1) (Z.land (Z.shiftr u s) (BOTTOM_BITS 6)) = 0x80 + (u / 64 ^ i) mod 64.
Proof.
  intros -> Hi. change (BOTTOM_BITS 6) with (2 ^ 6 - 1). rewrite land_ones_mod, shiftr_div by lia.
  rewrite Z.pow_mul_r by lia. change (2 ^ 6) with 64. pose proof (Z.mod_pos_bound (u / 64 ^ i) 64 ltac:(lia)).
  change (TOP_BITS 1) with (2 * 2 ^ 6). rewrite lor_top by lia. reflexivity.
Qed.

Lemma adds_tail k u i : 0 <= i ->
  adds (A := A) k (CBB_add_u8 k (Z.lor (TOP_BITS 1) (Z.land (Z.shiftr u (6 * i)) (BOTTOM_BITS 6)))) [cont u i].
Proof.
  intros Hi. rewrite (tail_byte u (6 * i) i eq_refl Hi). unfold cont. apply adds_u8.
  pose proof (Z.mod_pos_bound (u / 64 ^ i) 64 ltac:(lia)). lia.
Qed.

Lemma adds_utf8 k u : 0 <= u -> is_valid_code_point u = true ->
  adds (A := A) k (cbb_add_utf8 k u) (utf8_bytes u).
Proof.
  intros H0 Hv. pose proof (valid_range u Hv). unfold cbb_add_utf8, utf8_bytes. rewrite Hv. cbn [negb]. cbv zeta.
  pose proof (split_1 u). pose proof (split_1 (u / 64)). pose proof (split_1 (u / 64 / 64)).
  assert (E2 : u / 64 ^ 2 = u / 64 / 64) by (rewrite Z.div_div by lia; reflexivity).
  assert (E3 : u / 64 ^ 3 = u / 64 / 64 / 64) by (rewrite !Z.div_div by lia; reflexivity).
  destruct (Z.leb_spec u 0x7f).
  { change 0xff with (2 ^ 8 - 1). rewrite land_ones_mod, Z.mod_small by lia. apply adds_u8. lia. }
  destruct (Z.leb_spec u 0x7ff); [|destruct (Z.leb_spec u 0xffff); [|destruct (Z.leb_spec u 0x10ffff); [|lia]]].
  - apply (adds_seq k _ _ [_] [_]); [|apply (adds_tail k u 0); lia].
    rewrite shiftr_div by lia. change (TOP_BITS 2) with (6 * 2 ^ 5). change (2 ^ 6) with 64.
    rewrite lor_top by lia. change (6 * 2 ^ 5) with 0xc0. apply adds_u8. lia.
  - apply (adds_seq k _ _ [_] [_; _]); [|apply (adds_seq k _ _ [_] [_]); [apply (adds_tail k u 1) | apply (adds_tail k u 0)]; lia].
    rewrite shiftr_div by lia. change (TOP_BITS 3) with (14 * 2 ^ 4). change (2 ^ 12) with (64 ^ 2).
    rewrite lor_top by lia. change (14 * 2 ^ 4) with 0xe0. apply adds_u8. lia.
  - apply (adds_seq k _ _ [_] [_; _; _]);
      [|apply (adds_seq k _ _ [_] [_; _]); [apply (adds_tail k u 2) | apply (adds_seq k _ _ [_] [_]); [apply (adds_tail k u 1) | apply (adds_tail k u 0)]]; lia].
    rewrite shiftr_div by lia. change (TOP_BITS 4) with (30 * 2 ^ 3). change (2 ^ 18) with (64 ^ 3).
    rewrite lor_top by lia. change (30 * 2 ^ 3) with 0xf0. apply adds_u8. lia.
Qed.

(** C32: [cbs_get_utf8] accepts exactly the shortest UTF-8 form of the
    characters, and gives the character and the rest of the input: overlong
    forms, numbers beyond 0x10ffff, surrogates and noncharacters are refused.
    What a character is, is stated apart from the code's test. *)
Theorem cbs_get_utf8_exact cbs u rest :
  cbs_get_utf8 cbs = (Ok u, rest) <-> character u /\ cbs = utf8_bytes u ++ rest.
Proof.
  rewrite character_valid. split.
  - intros H. apply cbs_get_utf8_sound in H as (Hv & H0 & E). auto.
  - intros ((H0 & Hv) & E). apply cbs_get_utf8_complete. split; [|split]; assumption.
Qed.

(** every code point that a writer of unicode.c accepts is read back by
    the reader of the same encoding, [cbb_get_utf8_len] is the number of UTF-8
    bytes written, and an invalid code point is refused without writing. *)
Theorem unicode_roundtrip k u rest :
  0 <= u < 2 ^ 32 ->
  (is_valid_code_point u = true ->
     adds (A := A) k (cbb_add_utf8 k u) (utf8_bytes u) /\
     cbs_get_utf8 (utf8_bytes u ++ rest) = (Ok u, rest) /\ zlen (utf8_bytes u) = cbb_get_utf8_len u) /\
  (u <= 0xff -> adds (A := A) k (cbb_add_latin1 k u) [b8 u] /\ cbs_get_latin1 ([b8 u] ++ rest) = (Ok u, rest)) /\
  (u <= 0xffff -> is_valid_code_point u = true ->
     adds (A := A) k (cbb_add_ucs2_be k u) (be_split 2 u) /\
     cbs_get_ucs2_be (be_split 2 u ++ rest) = (Ok u, rest)) /\
  (is_valid_code_point u = true ->
     adds (A := A) k (cbb_add_utf32_be k u) (be_split 4 u) /\
     cbs_get_utf32_be (be_split 4 u ++ rest) = (Ok u, rest)) /\
  (is_valid_code_point u = false -> forall st : CBB A,
     cbb_add_utf8 k u st = (Fail, st) /\ cbb_add_ucs2_be k u st = (Fail, st) /\ cbb_add_utf32_be k u st = (Fail, st)).
Proof.
  intros Hu.
  assert (Hget : forall n, (Z.of_nat n <= 8) -> u < 2 ^ (8 * Z.of_nat n) ->
            cbs_get_u (Z.of_nat n) (be_split n u ++ rest) = (Ok u, rest)).
  { intros n Hn Hs. assert (Hz : Z.of_nat n = zlen (be_split n u)) by (unfold zlen; rewrite length_be_split; reflexivity).
    rewrite (cbs_get_u_reads _ _ Hz Hn rest), be_value_be_split, Z.mod_small by lia. reflexivity. }
  split; [|split; [|split; [|split]]].
  - intros Hv. split; [apply adds_utf8; [lia | exact Hv]|]. split.
    + apply cbs_get_utf8_complete. repeat split; auto. lia.
    + unfold utf8_bytes, cbb_get_utf8_len. repeat zif; reflexivity.
  - intros Hl. split.
    + unfold cbb_add_latin1. destruct (Z.leb_spec u 0xff); [|lia].
      change 0xff with (2 ^ 8 - 1). rewrite land_ones_mod, Z.mod_small by lia. apply adds_u8. lia.
    + unfold cbs_get_latin1, bind. rewrite (CBS_get_u8_reads (b8 u) rest). unfold ret. rewrite u8_b8_small by lia. reflexivity.
  - intros Hl Hv. unfold cbb_add_ucs2_be, cbs_get_ucs2_be. rewrite Hv. destruct (Z.leb_spec u 0xffff); [|lia]. cbn [andb].
    rewrite (wrap_small 16) by (unfold in_word; lia). split; [apply (adds_u k u 2); [lia | change (8 * Z.of_nat 2) with 16; lia]|].
    pose proof (Hget 2%nat ltac:(lia) ltac:(change (8 * Z.of_nat 2) with 16; lia)) as G. change (Z.of_nat 2) with 2 in G.
    unfold CBS_get_u16, bind. rewrite G. unfold ret.
    rewrite (wrap_small 16) by (unfold in_word; lia). rewrite Hv. reflexivity.
  - intros Hv. unfold cbb_add_utf32_be, cbs_get_utf32_be. rewrite Hv.
    split; [apply (adds_u k u 4); [lia | change (8 * Z.of_nat 4) with 32; lia]|].
    pose proof (Hget 4%nat ltac:(lia) ltac:(change (8 * Z.of_nat 4) with 32; lia)) as G. change (Z.of_nat 4) with 4 in G.
    unfold CBS_get_u32, bind. rewrite G. unfold ret.
    rewrite (wrap_small 32) by (unfold in_word; lia). rewrite Hv. reflexivity.
  - intros Hv st. unfold cbb_add_utf8, cbb_add_ucs2_be, cbb_add_utf32_be. rewrite Hv, andb_false_r. auto.
Qed.
End writer_spec.

Lemma unicode_roundtrip_witness :
  cbs_get_utf8 (utf8_bytes 0x20ac ++ []) = (Ok 0x20ac, []).
Proof.
  refine (proj1 (proj2 (proj1 (unicode_roundtrip (A := unit) 0 0x20ac [] _) _))); [lia | reflexivity].
Defined.
