(* ===== verification/Ber.v ===== *)
(** The BER to DER converter:
    ios/Pods/BoringSSL-GRPC/src/crypto/bytestring/ber.c.  It reads with the
    lenient parser of [Cbs] and writes with the nested writers of [Cbb]. *)
From Stdlib Require Import ZArith Lia Bool.
From coqutil Require Import Byte Word.LittleEndianList.
From stdpp Require Import base list numbers.
From S2P Require Import Prelude Alloc Cbs CbsSpec Cbb CbbSpec CbbProps.
Local Open Scope Z_scope.
Local Open Scope c_scope.

Definition kMaxDepth : Z := 2048.

Definition is_constructed (tag : Z) : bool := negb (Z.land tag CBS_ASN1_CONSTRUCTED =? 0).
Definition clear_constructed (tag : Z) : Z := Z.land tag (Z.lnot CBS_ASN1_CONSTRUCTED).

Definition is_string_type (tag : Z) : bool :=
  existsb (Z.eqb (clear_constructed tag))
    [CBS_ASN1_OCTETSTRING; 0xc; 0x12; 0x13; 0x14; 0x15; 0x16; 0x19; 0x1a; 0x1b; 0x1c; 0x1e].

(** [cbs_find_ber] from the depth check on; [ber_found] is the variable the
    caller passed, which every element that is parsed overwrites.  Every turn
    and every call works on a shorter input. *)
Fixpoint find_ber_loop (fuel : nat) (depth : Z) (ber_found : bool) (inn : list byte) : outcome bool :=
  match fuel with
  | O => Stuck
  | S fuel =>
      if CBS_len inn =? 0 then Ok ber_found else
      match CBS_get_any_ber_asn1_element inn with
      | (Ok (contents, tag, header_len, ber_found), inn) =>
          if ber_found then Ok true
          else if is_constructed tag then
            if is_string_type tag then Ok true else
            match CBS_skip header_len contents with
            | (Ok _, contents) =>
                match (if kMaxDepth <? depth + 1 then Fail else find_ber_loop fuel (depth + 1) false contents) with
                | Ok ber_found => find_ber_loop fuel depth ber_found inn
                | r => r
                end
            | (Fail, _) => Fail
            | (Stuck, _) => Stuck
            end
          else find_ber_loop fuel depth ber_found inn
      | (Fail, _) => Fail
      | (Stuck, _) => Stuck
      end
  end.

Definition cbs_find_ber (inn : list byte) : outcome bool :=
  find_ber_loop (S (length inn)) 0 false inn.

Definition assert_that {S} (b : bool) : M S unit := if b then ret tt else stuck.

Definition is_eoc {S} (header_len : Z) (contents : list byte) : M S bool :=
  if (header_len =? 2) && (CBS_len contents =? 2) then
    data <- bytes_at contents 2 ;; ret (memcmp data [Byte.x00; Byte.x00] =? 0)
  else ret false.

Section convert.
Context {A : Type} {AL : Allocator A}.
Notation W := (M (CBB A)).

(** [cbs_convert_ber] from its loop on; the assertion and the depth check are
    where it is called, in [nested].  [k] is [out] and the result is what is left
    of [in]. *)
Fixpoint convert_loop (fuel : nat) (inn : list byte) (k : nat) (string_tag : Z) (looking_for_eoc : bool)
    (depth : Z) : W (list byte) :=
  match fuel with
  | O => stuck
  | S fuel =>
      let nested inn k string_tag looking :=
        assert_that (negb (is_constructed string_tag)) ;;
        if kMaxDepth <? depth + 1 then fail else convert_loop fuel inn k string_tag looking (depth + 1) in
      if CBS_len inn =? 0 then (if looking_for_eoc then fail else ret inn) else
      '((contents, tag, header_len, _), inn) <- local CBS_get_any_ber_asn1_element inn ;;
      eoc <- is_eoc header_len contents ;;
      if (eoc : bool) then (if looking_for_eoc then ret inn else fail) else
      '(out_contents, child_string_tag) <-
        (if negb (string_tag =? 0) then
           if negb (clear_constructed tag =? string_tag) then fail else ret (k, string_tag)
         else
           let string := is_constructed tag && is_string_type tag in
           let out_tag := if string then clear_constructed tag else tag in
           CBB_add_asn1 k out_tag ;;
           ret (S k, if string then out_tag else string_tag)) ;;
      indefinite <-
        (if (CBS_len contents =? header_len) && (0 <? header_len)
         then b <- byte_at contents (header_len - 1) ;; ret (u8 b =? 0x80) else ret false) ;;
      if (indefinite : bool) then
        inn <- nested inn out_contents child_string_tag true ;;
        CBB_flush k ;;
        convert_loop fuel inn k string_tag looking_for_eoc depth
      else
        '(_, contents) <- local (CBS_skip header_len) contents ;;
        (if is_constructed tag then nested contents out_contents child_string_tag false ;; ret tt
         else CBB_add_bytes out_contents contents) ;;
        CBB_flush k ;;
        convert_loop fuel inn k string_tag looking_for_eoc depth
  end.

Definition cbs_convert_ber (inn : list byte) (k : nat) : W (list byte) :=
  assert_that (negb (is_constructed 0)) ;; convert_loop (S (length inn)) inn k 0 false 0.

(** [*out], what is left of [in], and whether [*out_storage] was allocated. *)
Definition CBS_asn1_ber_to_der (inn : list byte) (a : A) : outcome (list byte * list byte * bool) * A :=
  match cbs_find_ber inn with
  | Ok false =>
      match CBS_get_any_asn1_element inn with
      | (Ok (out, _, _), inn) => (Ok (out, inn, false), a)
      | (Fail, _) => (Fail, a)
      | (Stuck, _) => (Stuck, a)
      end
  | Ok true =>
      with_writer
        (CBB_init (CBS_len inn) ;;
         inn <- cbs_convert_ber inn 0 ;;
         out <- CBB_finish 0 true ;;
         ret (out, inn, true)) a
  | Fail => (Fail, a)
  | Stuck => (Stuck, a)
  end.

(** The chunks of a constructed string, appended to [result]. *)
Fixpoint chunks_loop (fuel : nat) (child : list byte) (inner_tag : Z) : W unit :=
  match fuel with
  | O => stuck
  | S fuel =>
      if CBS_len child =? 0 then ret tt else
      '(chunk, child) <- local (CBS_get_asn1 inner_tag) child ;;
      CBB_add_bytes 0 chunk ;;
      chunks_loop fuel child inner_tag
  end.

Definition CBS_get_asn1_implicit_string (inn : list byte) (outer_tag inner_tag : Z) (a : A)
    : outcome (list byte * list byte * bool) * A :=
  if is_constructed outer_tag || is_constructed inner_tag || negb (is_string_type inner_tag) then (Stuck, a) else
  if CBS_peek_asn1_tag inn outer_tag then
    match CBS_get_asn1 outer_tag inn with
    | (Ok out, inn) => (Ok (out, inn, false), a)
    | (Fail, _) => (Fail, a)
    | (Stuck, _) => (Stuck, a)
    end
  else
    with_writer
      (CBB_init (CBS_len inn) ;;
       '(child, inn) <- local (CBS_get_asn1 (Z.lor outer_tag CBS_ASN1_CONSTRUCTED)) inn ;;
       chunks_loop (S (length child)) child inner_tag ;;
       data <- CBB_finish 0 true ;;
       ret (data, inn, true)) a.
End convert.

(** ** Progress of the parser *)

Lemma element_tail_inv ber_ok tag hl b header cbs o t h f rest :
  1 <= hl -> element_tail ber_ok tag hl b header cbs = (Ok (o, t, h, f), rest) ->
  t = tag /\ cbs = o ++ rest /\ 1 <= zlen o /\ 1 <= h.
Proof.
  intros Hhl H. unfold element_tail in H. pose proof (u8_range b).
  assert (L : forall n f0 h0, 1 <= n -> 1 <= h0 -> (out <- CBS_get_bytes n ;; ret (out, tag, h0, f0)) cbs = (Ok (o, t, h, f), rest) ->
            t = tag /\ cbs = o ++ rest /\ 1 <= zlen o /\ 1 <= h).
  { intros n f0 h0 Hn Hh0 H1. apply bind_inv in H1 as (x & s & H2 & H1). injection H1 as <- <- <- <- <-.
    apply CBS_get_bytes_inv in H2 as [-> <-]; [auto | lia]. }
  destruct (Z.ltb_spec (u8 b) 128); [eapply L; [| |exact H]; lia|].
  destruct (_ && _ && _); [eapply L; [| |exact H]; lia|].
  destruct (_ || _ || _) eqn:E; [discriminate|]. apply orb_false_iff in E as [E _]. apply orb_false_iff in E as [E1 E2]. zbool.
  cbv zeta in H. destruct (negb ber_ok && _); [discriminate|].
  pose proof (be_value_range (ztake (u8 b - 128) header)). eapply L; [| |exact H]; lia.
Qed.

Lemma is_der_tag_range t tag : is_der_tag t tag -> 0 <= tag < 2 ^ 32.
Proof.
  assert (L : forall b v, 0 <= v < 2 ^ 29 -> 0 <= Z.lor (Z.shiftl (Z.land (u8 b) 0xe0) 24) v < 2 ^ 32).
  { intros b v Hv. assert (E : exists q, 0 <= q < 8 /\ Z.land (u8 b) 0xe0 = q * 2 ^ 5).
    { exists (u8 b / 32). pose proof (u8_range b). split; [|destruct b; reflexivity].
      split; [apply Z.div_pos; lia | apply Z.div_lt_upper_bound; lia]. }
    destruct E as (q & Hq & ->). replace (Z.shiftl (q * 2 ^ 5) 24) with (Z.shiftl q 29)
      by (rewrite !Z.shiftl_mul_pow2 by lia; lia).
    rewrite lor_shiftl_add by lia. lia. }
  intros [b _ | b bs v _ _ Hv]; apply L; [|lia].
  change 0x1f with (2 ^ 5 - 1). rewrite land_ones_mod by lia. pose proof (Z.mod_pos_bound (u8 b) (2 ^ 5)). lia.
Qed.

(** An element that was parsed is a nonempty prefix, and its tag is a word. *)
Lemma ber_element_inv cbs o t h f rest :
  CBS_get_any_ber_asn1_element cbs = (Ok (o, t, h, f), rest) ->
  cbs = o ++ rest /\ (0 < length o)%nat /\ 0 <= t < 2 ^ 32 /\ 1 <= h.
Proof.
  intros H. unfold CBS_get_any_ber_asn1_element in H.
  destruct (element_run_inv _ _ _ _ H) as (tg & tag & b & header & -> & Ht).
  rewrite (element_run _ _ _ _ _ Ht) in H. pose proof (is_der_tag_length _ _ Ht).
  apply element_tail_inv in H as (-> & E & Hl & Hh); [|lia]. split; [exact E|].
  split; [unfold zlen in Hl; lia|]. split; [apply (is_der_tag_range _ _ Ht) | exact Hh].
Qed.

Lemma ber_element_not_stuck cbs : fst (CBS_get_any_ber_asn1_element cbs) <> Stuck.
Proof. apply (windowed_element true). Qed.

Lemma skip_suffix n cbs r rest : 1 <= n -> CBS_skip n cbs = (Ok r, rest) -> (length rest < length cbs)%nat.
Proof.
  intros Hn H. apply bind_inv in H as (v & s & H & E). injection E as _ <-.
  apply cbs_get_inv in H as [-> Hl]; [|lia]. rewrite length_app. unfold zlen in Hl. lia.
Qed.

Lemma find_ber_total fuel depth found inn : (length inn < fuel)%nat -> find_ber_loop fuel depth found inn <> Stuck.
Proof.
  revert depth found inn; induction fuel as [|fuel IH]; intros depth found inn Hf; [lia|]. cbn [find_ber_loop].
  destruct (_ =? 0); [discriminate|]. pose proof (ber_element_not_stuck inn) as Hns.
  destruct (CBS_get_any_ber_asn1_element inn) as [[[[[o t] h] f]| |] rest] eqn:E; [|discriminate|contradiction].
  apply ber_element_inv in E as (-> & Ho & _ & Hh). rewrite length_app in Hf.
  destruct f; [discriminate|]. destruct (is_constructed t); [|apply IH; lia].
  destruct (is_string_type t); [discriminate|]. pose proof (CBS_skip_windowed h o) as [Hs _].
  destruct (CBS_skip h o) as [[u| |] c] eqn:Es; [|discriminate|contradiction].
  destruct (kMaxDepth <? depth + 1); [discriminate|]. apply skip_suffix in Es; [|exact Hh].
  pose proof (IH (depth + 1) false c) as Hn. destruct (find_ber_loop fuel (depth + 1) false c); [apply IH; lia | discriminate | apply Hn; lia].
Qed.

(** The search does not depend on the fuel. *)
Lemma find_ber_fuel fuel : forall fuel' depth found inn, (length inn < fuel)%nat -> (length inn < fuel')%nat ->
  find_ber_loop fuel depth found inn = find_ber_loop fuel' depth found inn.
Proof.
  induction fuel as [|fuel IH]; intros [|fuel'] depth found inn Hf Hf'; [lia | lia | lia|]. cbn [find_ber_loop].
  destruct (_ =? 0); [reflexivity|].
  destruct (CBS_get_any_ber_asn1_element inn) as [[[[[o t] h] f]| |] rest] eqn:E; [|reflexivity|reflexivity].
  apply ber_element_inv in E as (-> & Ho & _ & Hh). rewrite length_app in Hf, Hf'.
  destruct f; [reflexivity|]. destruct (is_constructed t); [|apply IH; lia].
  destruct (is_string_type t); [reflexivity|].
  destruct (CBS_skip h o) as [[u| |] c] eqn:Es; [|reflexivity|reflexivity].
  apply skip_suffix in Es; [|exact Hh]. destruct (kMaxDepth <? depth + 1); [reflexivity|].
  rewrite (IH fuel' (depth + 1) false c) by lia. destruct (find_ber_loop fuel' _ _ c); [apply IH; lia | reflexivity | reflexivity].
Qed.

(** What was found before is overwritten by the next element. *)
Lemma find_ber_forgets fuel depth inn : inn <> [] -> find_ber_loop fuel depth true inn = find_ber_loop fuel depth false inn.
Proof. intros H. destruct fuel; [reflexivity|]. destruct inn; [contradiction|]. reflexivity. Qed.

(** An element in DER is no BER to the lenient reader. *)
Lemma der_element_ber elem tag h body rest : is_der_element elem tag h body ->
  CBS_get_any_ber_asn1_element (elem ++ rest) = (Ok (elem, tag, h, false), rest).
Proof.
  intros He. assert (E : CBS_get_any_asn1_element (elem ++ rest) = (Ok (elem, tag, h), rest)) by (apply CBS_get_any_asn1_element_iff; eauto).
  unfold CBS_get_any_asn1_element in E. apply bind_inv in E as ([[[o t] hl] f] & s & E & E'). injection E' as -> -> -> ->.
  destruct (element_run_inv _ _ _ _ E) as (t' & tag' & b & header & Eq & Ht).
  rewrite Eq in *. rewrite (element_run false _ _ _ _ Ht) in E. unfold CBS_get_any_ber_asn1_element. rewrite (element_run true _ _ _ _ Ht).
  assert (f = false) as <-; [|apply element_tail_ber, E]. unfold element_tail in E. destruct (u8 b <? 128).
  - apply bind_inv in E as (x & s & _ & E). injection E as _ _ _ <- _. reflexivity.
  - cbn [andb negb] in E. destruct (_ || _ || _); [discriminate|]. cbv zeta in E. destruct (_ || _); [discriminate|].
    apply bind_inv in E as (x & s & _ & E). injection E as _ _ _ <- _. reflexivity.
Qed.

Lemma is_der_element_header elem tag h body : is_der_element elem tag h body -> 1 <= h.
Proof. intros (t & l & _ & -> & Ht & _). pose proof (is_der_tag_length _ _ Ht). pose proof (zlen_nonneg l). lia. Qed.

(** One turn of the search on a constructed element in DER. *)
Lemma find_ber_constructed fuel depth elem tag h body tail : is_der_element elem tag h body ->
  is_constructed tag = true -> is_string_type tag = false -> depth + 1 <= kMaxDepth ->
  find_ber_loop (S fuel) depth false (elem ++ tail) =
    match find_ber_loop fuel (depth + 1) false body with Ok found => find_ber_loop fuel depth found tail | r => r end.
Proof.
  intros He Hc Hs Hd. cbn [find_ber_loop]. rewrite (der_element_ber _ _ _ _ tail He), Hc, Hs, (CBS_skip_header _ _ _ _ He).
  pose proof (is_der_element_nonempty _ _ _ _ He).
  destruct (Z.eqb_spec (CBS_len (elem ++ tail)) 0) as [E|_]; [unfold CBS_len, zlen in E; rewrite length_app in E; lia|].
  rewrite (proj2 (Z.ltb_ge kMaxDepth (depth + 1))) by exact Hd. reflexivity.
Qed.

(** ** Safety of the conversion *)

Section convert_safe.
Context {A : Type} {AL : Allocator A}.
Notation W := (M (CBB A)).

(** Any failure is allowed; undefined behaviour is not. *)
Notation runs m Q st := (wp (fun _ => True) m False Q st).

Lemma runs_wp {B} (m : W B) Res Q st : wp failed m Res Q st -> runs m Q st.
Proof. intros H. eapply run_mono; [exact H | auto | intros [] | auto]. Qed.

Lemma runs_fail {B} (Q : B -> CBB A -> Prop) st : runs fail Q st.
Proof. split; auto. Qed.

Lemma runs_local {S B C} (m : M S B) s (k : B * S -> W C) Q st :
  fst (m s) <> Stuck -> (forall a s1, m s = (Ok a, s1) -> runs (k (a, s1)) Q st) -> runs (bind (local m s) k) Q st.
Proof.
  intros Hns H. unfold wp, bind, local. destruct (m s) as [[a| |] s1]; cbn in Hns;
    [apply H; reflexivity | auto | contradiction].
Qed.

Lemma runs_flush k ls p c cs r (st : CBB A) :
  length ls = k -> rep r st (ls ++ (p, c) :: cs) ->
  runs (CBB_flush k) (fun _ st' => exists c', rep r st' (ls ++ [(p, c')])) st.
Proof.
  intros <- H. eapply run_mono; [apply (CBB_flush_wp _ _ _ _ _ _ H) | auto | intros [] |].
  intros ? st' (e & _ & H1). eauto.
Qed.

Lemma runs_add_bytes k data ls p c r (st : CBB A) :
  length ls = k -> zlen data < 2 ^ 64 -> rep r st (ls ++ [(p, c)]) ->
  runs (CBB_add_bytes k data) (fun _ st' => exists c', rep r st' (ls ++ [(p, c')])) st.
Proof.
  intros Hk Hd H. eapply run_mono; [apply (adds_bytes k data Hd ls p c [] r st Hk H) | auto | intros [] |].
  intros ? st' (e & _ & H1). eauto.
Qed.

Lemma runs_add_asn1 k tag ls p c r (st : CBB A) :
  length ls = k -> 0 <= tag < 2 ^ 32 -> rep r st (ls ++ [(p, c)]) ->
  runs (CBB_add_asn1 k tag) (fun _ st' => exists c', rep r st' (ls ++ [(p, c'); (asn1, [])])) st.
Proof.
  intros Hk Ht H. eapply run_mono; [apply (opens_asn1 k tag Ht ls p c [] r st Hk H) | auto | intros [] |].
  intros ? st' (e & _ & H1). eauto.
Qed.

Lemma clear_constructed_range tag : 0 <= tag < 2 ^ 32 -> 0 <= clear_constructed tag < 2 ^ 32.
Proof.
  intros H. unfold clear_constructed. set (m := Z.lnot _).
  assert (E : Z.land tag m = Z.land tag m mod 2 ^ 32).
  { rewrite <- Z.land_ones by lia. rewrite <- Z.land_assoc, (Z.land_comm m), Z.land_assoc, Z.land_ones by lia.
    rewrite (Z.mod_small tag) by exact H. reflexivity. }
  rewrite E. apply Z.mod_pos_bound. lia.
Qed.

(** The writer a converted element goes to is the one at the end of [ls], or
    the child that was opened there; flushing the former closes both. *)
Definition target (ls : levels) (p : prefix) (ls' : levels) (p' : prefix) : Prop :=
  forall c', exists c cs, ls' ++ [(p', c')] = ls ++ (p, c) :: cs.

Lemma target_self ls p : target ls p ls p.
Proof. intros c'. exists c', []. reflexivity. Qed.

Lemma target_child ls p c q : target ls p (ls ++ [(p, c)]) q.
Proof. intros c'. exists c, [(q, c')]. rewrite <- app_assoc. reflexivity. Qed.

(** After the nested work in [target], the flush leaves the writer at [ls]. *)
Lemma runs_finish {B C} (m : W B) (rest : B -> W C) k r st ls p ls' p' Q :
  length ls = k -> target ls p ls' p' ->
  runs m (fun b st' => (exists c', rep r st' (ls' ++ [(p', c')])) /\
    forall st2 c2, rep r st2 (ls ++ [(p, c2)]) -> runs (rest b) Q st2) st ->
  runs (b <- m ;; CBB_flush k ;; rest b) Q st.
Proof.
  intros Hk Ht Hm. apply run_bind. eapply run_mono; [exact Hm | auto | auto |].
  intros b st1 ((c1 & H1) & Hrest). destruct (Ht c1) as (c & cs & E). rewrite E in H1. apply run_bind.
  eapply run_mono; [apply (runs_flush k _ _ _ _ _ _ Hk H1) | auto | auto |].
  intros _ st2 (c2 & H2). apply (Hrest st2 c2 H2).
Qed.

Lemma primitive_tag tag : is_constructed (clear_constructed tag) = false.
Proof. unfold is_constructed, clear_constructed. rewrite <- Z.land_assoc, (Z.land_comm (Z.lnot _)), Z.land_lnot_diag, Z.land_0_r. reflexivity. Qed.

Lemma runs_assert {C} (b : bool) (m : W C) Q st : b = true -> runs m Q st -> runs (assert_that b ;; m) Q st.
Proof. intros -> H. exact H. Qed.

(** Both tests look only at bytes that are there. *)
Lemma runs_eoc {C} h o (m : bool -> W C) Q st : (forall b, runs (m b) Q st) -> runs (b <- is_eoc h o ;; m b) Q st.
Proof.
  intros H. unfold is_eoc. destruct (_ && _) eqn:E; [|apply (H false)]. apply andb_true_iff in E as [_ E]. zbool. unfold CBS_len in E.
  unfold wp, bind at 1, bind at 1. rewrite bytes_at_Ok by lia. apply H.
Qed.

Lemma runs_indefinite {C} h o (m : bool -> W C) Q st : (forall b, runs (m b) Q st) ->
  runs (b <- (if (CBS_len o =? h) && (0 <? h) then b <- byte_at o (h - 1) ;; ret (u8 b =? 0x80) else ret false) ;; m b) Q st.
Proof.
  intros H. destruct (_ && _) eqn:E; [|apply (H false)]. apply andb_true_iff in E as [E1 E2]. zbool. unfold CBS_len in E1.
  unfold wp, bind at 1, bind at 1. rewrite byte_at_Ok by lia. apply H.
Qed.

Lemma convert_runs fuel inn k string_tag looking depth ls p c r (st : CBB A) :
  is_constructed string_tag = false -> (length inn < fuel)%nat -> zlen inn < 2 ^ 64 -> length ls = k -> rep r st (ls ++ [(p, c)]) ->
  runs (convert_loop fuel inn k string_tag looking depth)
    (fun rest st' => (length rest <= length inn)%nat /\ exists c', rep r st' (ls ++ [(p, c')])) st.
Proof.
  revert inn k string_tag looking depth ls p c st.
  induction fuel as [|fuel IH]; intros inn k string_tag looking depth ls p c st Hst Hf Hlen Hk Hrep; [lia|].
  cbn [convert_loop]. cbv zeta. destruct (CBS_len inn =? 0).
  { destruct looking; [apply runs_fail | apply run_ret; eauto]. }
  apply runs_local; [apply ber_element_not_stuck|]. intros [[[o t] h] f] rest E.
  apply ber_element_inv in E as (-> & Ho & Ht & Hh). rewrite length_app in Hf. rewrite zlen_app in Hlen.
  pose proof (zlen_nonneg rest). pose proof (zlen_nonneg o).
  apply runs_eoc. intros eoc. destruct eoc.
  { destruct looking; [apply run_ret; rewrite length_app; split; [lia | eauto] | apply runs_fail]. }
  apply run_bind.
  eapply (run_mono (fun _ => True) _ _ False _ (fun '(k', tag') st' => exists ls' p' c', is_constructed tag' = false /\ length ls' = k' /\ target ls p ls' p' /\
              rep r st' (ls' ++ [(p', c')]))); [| auto | exact id |].
  { destruct (negb (string_tag =? 0)).
    - destruct (negb _); [apply runs_fail | apply run_ret]. exists ls, p, c. auto 6 using target_self.
    - apply run_bind. eapply run_mono; [apply (runs_add_asn1 k _ ls p c r st Hk) | auto | auto |].
      + destruct (_ && _); auto using clear_constructed_range.
      + exact Hrep.
      + intros _ st1 (c1 & H1). apply run_ret. exists (ls ++ [(p, c1)]), asn1, [].
        split; [destruct (_ && _); [apply primitive_tag | exact Hst]|].
        rewrite length_app, <- app_assoc. cbn. split; [lia|]. auto using target_child. }
  intros [k' tag'] st1 (ls' & p' & c' & Htag' & Hk' & Htg & Hrep1).
  assert (Hrest : forall rest', (length rest' <= length rest)%nat -> forall st2 c2, rep r st2 (ls ++ [(p, c2)]) ->
            runs (convert_loop fuel rest' k string_tag looking depth)
              (fun r0 st' => (length r0 <= length (o ++ rest))%nat /\ exists c3, rep r st' (ls ++ [(p, c3)])) st2).
  { intros rest' Hr st2 c2 H2. eapply run_mono; [apply (IH rest' k string_tag looking depth ls p c2 st2); auto; unfold zlen in *; lia | auto | auto |].
    intros r0 st3 [H3 H4]. rewrite length_app. split; [lia | exact H4]. }
  assert (Hnest : forall inn', (length inn' < fuel)%nat -> zlen inn' < 2 ^ 64 -> forall lk,
            runs (assert_that (negb (is_constructed tag')) ;; if kMaxDepth <? depth + 1 then fail else convert_loop fuel inn' k' tag' lk (depth + 1))
              (fun r0 st' => (length r0 <= length inn')%nat /\ exists c3, rep r st' (ls' ++ [(p', c3)])) st1).
  { intros inn' H1 H2 lk. apply runs_assert; [rewrite Htag'; reflexivity|].
    destruct (_ <? _); [apply runs_fail | apply (IH inn' k' tag' lk _ ls' p' c'); auto]. }
  apply runs_indefinite. intros indefinite. destruct indefinite.
  - apply (runs_finish _ _ k r st1 ls p ls' p' _ Hk Htg).
    eapply run_mono; [apply Hnest; [lia | lia] | auto | auto |]. intros r0 st2 [H1 H2]. split; [exact H2|].
    apply Hrest, H1.
  - pose proof (CBS_skip_windowed h o) as [Hs _]. apply runs_local; [exact Hs|].
    intros u contents Es. apply skip_suffix in Es; [|exact Hh].
    assert (zlen contents < 2 ^ 64) by (unfold zlen in *; lia).
    apply (runs_finish _ (fun _ => _) k r st1 ls p ls' p' _ Hk Htg). destruct (is_constructed t).
    + apply run_bind. eapply run_mono; [apply Hnest; [lia | assumption] | auto | auto |].
      intros r0 st2 [_ H2]. apply run_ret. split; [exact H2|]. intros st3 c3 H3. eapply Hrest; [|exact H3]. lia.
    + eapply run_mono; [apply (runs_add_bytes k' contents ls' p' c' r st1 Hk'); assumption | auto | auto |].
      intros [] st2 H2. split; [exact H2|]. intros st3 c3 H3. eapply Hrest; [|exact H3]. lia.
Qed.
End convert_safe.

(** ** Strings sent in chunks *)

(** The elements of [data], all with the tag [tag], have the given contents. *)
Inductive chunks_of (tag : Z) : list byte -> list (list byte) -> Prop :=
  | chunks_nil : chunks_of tag [] []
  | chunks_cons elem h body data bodies :
      is_der_element elem tag h body -> chunks_of tag data bodies ->
      chunks_of tag (elem ++ data) (body :: bodies).

Lemma chunks_length tag data bodies : chunks_of tag data bodies -> zlen (concat bodies) <= zlen data.
Proof.
  induction 1 as [|elem h body data bodies (tg & l & -> & _) _ IH]; cbn; [lia|].
  rewrite !zlen_app. pose proof (zlen_nonneg tg). pose proof (zlen_nonneg l). lia.
Qed.

Section strings.
Context {A : Type} {AL : Allocator A}.
Notation W := (M (CBB A)).

Lemma appends_chunks tag data bodies : chunks_of tag data bodies -> zlen data < 2 ^ 64 ->
  forall fuel, (length data < fuel)%nat -> appends (A := A) 0 (chunks_loop fuel data tag) tt (concat bodies).
Proof.
  induction 1 as [|elem h body data bodies He _ IH]; intros Hd [|fuel] Hf; try lia; cbn [chunks_loop concat].
  - apply appends_ret.
  - pose proof (is_der_element_nonempty _ _ _ _ He) as Hn. rewrite length_app in Hf. rewrite zlen_app in Hd.
    pose proof (zlen_nonneg data). pose proof (zlen_nonneg elem).
    destruct (Z.eqb_spec (CBS_len (elem ++ data)) 0) as [E|_].
    { unfold CBS_len, zlen in E. rewrite length_app in E. lia. }
    assert (Hb : zlen body <= zlen elem).
    { destruct He as (tg & l & -> & _). rewrite !zlen_app. pose proof (zlen_nonneg tg). pose proof (zlen_nonneg l). lia. }
    assert (Hg : CBS_get_asn1 tag (elem ++ data) = (Ok body, data)) by (apply CBS_get_asn1_iff; eauto).
    pose proof (appends_bind 0 _ (fun _ => chunks_loop fuel data tag) _ _ _ _ (appends_adds (A := A) 0 _ _ (adds_bytes 0 body ltac:(lia)))
                 (IH ltac:(lia) fuel ltac:(lia))) as Hall.
    intros ls p c r st Hk Hrep. unfold wp, bind at 1, local. rewrite Hg. apply (Hall ls p c r st Hk Hrep).
Qed.

Lemma chunks_run tag fuel child k r (st : CBB A) ls p c :
  (length child < fuel)%nat -> zlen child < 2 ^ 64 -> k = 0%nat -> length ls = k -> rep r st (ls ++ [(p, c)]) ->
  wp (fun _ => True) (chunks_loop fuel child tag) False (fun _ st' => exists c', rep r st' (ls ++ [(p, c')])) st.
Proof.
  intros Hf Hl -> Hk. revert child Hf Hl c st; induction fuel as [|fuel IH]; intros child Hf Hl c st Hrep; [lia|].
  cbn [chunks_loop]. destruct (_ =? 0); [apply run_ret; eauto|].
  apply runs_local.
  { apply (windowed_get_asn1 tag). }
  intros chunk rest E. apply CBS_get_asn1_iff in E as (elem & h & -> & He).
  pose proof (is_der_element_nonempty _ _ _ _ He). destruct He as (tg & l & -> & _).
  rewrite !length_app in *. rewrite !zlen_app in Hl.
  pose proof (zlen_nonneg rest). pose proof (zlen_nonneg tg). pose proof (zlen_nonneg l). pose proof (zlen_nonneg chunk).
  apply run_bind. eapply run_mono; [apply (runs_add_bytes 0 chunk ls p c r st Hk); [lia | exact Hrep] | auto | auto |].
  intros _ st1 (c1 & Hc1). apply (IH rest ltac:(lia) ltac:(lia) c1 st1 Hc1).
Qed.

(** What a failure or a success of a whole conversion leaves is of no use to
    the caller, so only the outcome is looked at. *)
Lemma whole_not_stuck {B} (m : W B) n (a : A) :
  0 <= n < 2 ^ 64 ->
  (forall st, rep (mk_space true n) st [(root, [])] -> wp (fun _ => True) m False (fun _ _ => True) st) ->
  fst (with_writer (CBB_init n ;; m) a) <> Stuck.
Proof.
  intros Hn Hm. pose proof (CBB_init_wp n a Hn) as Hi. unfold wp in Hi. unfold with_writer, bind.
  destruct (CBB_init n (CBB_zero a)) as [[u| |] st]; [|discriminate|contradiction].
  specialize (Hm st Hi). unfold wp in Hm. destruct (m st) as [[b| |] st']; [discriminate | discriminate | contradiction].
Qed.

Lemma finish_runs {B} (f : list byte -> B) r c (st : CBB A) :
  rep r st [(root, c)] ->
  wp (fun _ => True) (out <- CBB_finish 0 true ;; ret (f out)) False (fun _ _ => True) st.
Proof.
  intros H. apply run_bind. eapply run_mono; [apply (CBB_finish_wp _ _ _ _ H) | auto | intros [] |].
  intros; apply run_ret; exact I.
Qed.

(** C33: the converter of BER and the reader of chunked strings, run on any
    input, neither read outside it nor write outside the output buffer, no
    assertion fails, and they terminate: their recursion follows the input.  The
    reader's tags are, as its assertions ask for, primitive ones and the inner one
    that of a string type. *)
Theorem ber_to_der_safe (inn : list byte) outer_tag inner_tag (a : A) :
  zlen inn < 2 ^ 64 ->
  is_constructed outer_tag = false -> is_constructed inner_tag = false -> is_string_type inner_tag = true ->
  fst (CBS_asn1_ber_to_der inn a) <> Stuck /\
  fst (CBS_get_asn1_implicit_string inn outer_tag inner_tag a) <> Stuck.
Proof.
  intros Hlen Hot Hit Hst. pose proof (zlen_nonneg inn). split.
  - unfold CBS_asn1_ber_to_der. pose proof (find_ber_total (S (length inn)) 0 false inn ltac:(lia)) as Hf.
    fold (cbs_find_ber inn) in Hf. destruct (cbs_find_ber inn) as [[|]| |]; [| |discriminate|contradiction].
    + apply whole_not_stuck; [unfold CBS_len; lia|]. intros st Hrep. apply run_bind. unfold cbs_convert_ber. apply runs_assert; [reflexivity|].
      eapply run_mono; [apply (convert_runs _ inn 0 0 false 0 [] root [] (mk_space true (CBS_len inn)) st); auto | auto | auto |].
      intros rest st1 (_ & c1 & H1). apply (finish_runs (fun out => (out, rest, true)) (mk_space true (CBS_len inn)) c1), H1.
    + pose proof (windowed_any_asn1_element inn) as [Hns _].
      destruct (CBS_get_any_asn1_element inn) as [[[[o t] h]| |] r]; [discriminate | discriminate | contradiction].
  - unfold CBS_get_asn1_implicit_string. rewrite Hot, Hit, Hst. cbn [orb negb]. destruct (CBS_peek_asn1_tag inn outer_tag).
    + pose proof (windowed_get_asn1 outer_tag inn) as [Hns _].
      destruct (CBS_get_asn1 outer_tag inn) as [[o| |] r]; [discriminate | discriminate | contradiction].
    + apply whole_not_stuck; [unfold CBS_len; lia|]. set (sp := mk_space _ _). clearbody sp. intros st Hrep. apply runs_local; [apply windowed_get_asn1|].
      intros child rest E. apply CBS_get_asn1_iff in E as (elem & h & -> & tg & l & -> & _).
      rewrite !zlen_app in Hlen. pose proof (zlen_nonneg tg). pose proof (zlen_nonneg l). pose proof (zlen_nonneg rest).
      apply run_bind. eapply run_mono; [apply (chunks_run inner_tag _ child 0 sp st [] root []); auto; lia | auto | auto |].
      intros _ st1 (c1 & Hc1). apply (finish_runs (fun data => (data, rest, true)) sp c1), Hc1.
Qed.

(** a string that BER sends in chunks inside a constructed element is the
    concatenation of the contents of its chunks. *)
Theorem implicit_string_concat (inn : list byte) outer_tag inner_tag (a : A) child rest bodies :
  is_constructed outer_tag = false -> is_constructed inner_tag = false -> is_string_type inner_tag = true ->
  CBS_peek_asn1_tag inn outer_tag = false ->
  CBS_get_asn1 (Z.lor outer_tag CBS_ASN1_CONSTRUCTED) inn = (Ok child, rest) ->
  chunks_of inner_tag child bodies -> reliable A -> zlen inn < 2 ^ 64 ->
  fst (CBS_get_asn1_implicit_string inn outer_tag inner_tag a) = Ok (concat bodies, rest, true).
Proof.
  intros Hot Hit Hst Hp Hc Hch Hrel Hlen. pose proof (zlen_nonneg inn). unfold CBS_get_asn1_implicit_string. rewrite Hot, Hit, Hst, Hp. cbn [orb negb].
  pose proof (CBB_init_wp (CBS_len inn) a ltac:(unfold CBS_len; lia)) as Hi. unfold wp in Hi. unfold with_writer, bind at 1.
  destruct (CBB_init (CBS_len inn) (CBB_zero a)) as [[u| |] st]; [| destruct Hi; contradiction | contradiction].
  unfold bind at 1, local at 1. rewrite Hc.
  assert (Hcl : zlen child < 2 ^ 64).
  { apply CBS_get_asn1_iff in Hc as (elem & h & -> & tg & l & -> & _). rewrite !zlen_app in Hlen.
    pose proof (zlen_nonneg tg). pose proof (zlen_nonneg l). pose proof (zlen_nonneg rest). lia. }
  pose proof (chunks_length _ _ _ Hch) as Hbl. pose proof (zlen_nonneg (concat bodies)).
  pose proof (appends_chunks _ _ _ Hch Hcl (S (length child)) ltac:(lia) [] root [] _ st eq_refl Hi) as Hr.
  unfold wp in Hr. unfold bind at 1.
  destruct (chunks_loop (S (length child)) child inner_tag st) as [[[]| |] st1]; [| | contradiction].
  2: { destruct Hr as [_ Hr]. destruct Hr. split; [change (zlen (layout _)) with 0; lia | auto]. }
  destruct Hr as [_ H1]. cbn [app] in H1.
  pose proof (CBB_finish_wp _ st1 _ [] H1) as Hfin. unfold wp in Hfin. unfold bind.
  destruct (CBB_finish 0 true st1) as [[out| |] st2]; [| | contradiction].
  - destruct Hfin as (e & [= <-] & ->). rewrite app_nil_r. reflexivity.
  - destruct Hfin as [_ Hfin]. destruct Hfin. exists []. split; [reflexivity|]. split; [change (zlen (@nil byte)) with 0; lia | auto].
Qed.
End strings.

(** ** Witnesses and an incompleteness *)

Definition ber_sample : list byte :=
  [Byte.x24; Byte.x80; Byte.x04; Byte.x01; Byte.xaa; Byte.x04; Byte.x01; Byte.xbb; Byte.x00; Byte.x00].

Lemma ber_to_der_safe_witness :
  (fst (CBS_asn1_ber_to_der ber_sample tt) <> Stuck /\
   fst (CBS_get_asn1_implicit_string ber_sample 0x80000000 CBS_ASN1_OCTETSTRING tt) <> Stuck) /\
  fst (CBS_asn1_ber_to_der ber_sample tt) = Ok ([Byte.x04; Byte.x02; Byte.xaa; Byte.xbb], [], true).
Proof.
  split; [apply (ber_to_der_safe ber_sample 0x80000000 CBS_ASN1_OCTETSTRING tt); reflexivity | vm_compute; reflexivity].
Defined.

Lemma implicit_string_concat_witness :
  fst (CBS_get_asn1_implicit_string [Byte.xa0; Byte.x06; Byte.x04; Byte.x01; Byte.xaa; Byte.x04; Byte.x01; Byte.xbb]
    0x80000000 CBS_ASN1_OCTETSTRING tt) = Ok (concat [[Byte.xaa]; [Byte.xbb]], [], true).
Proof.
  apply (implicit_string_concat _ _ _ _ [Byte.x04; Byte.x01; Byte.xaa; Byte.x04; Byte.x01; Byte.xbb]);
    [reflexivity | reflexivity | reflexivity | vm_compute; reflexivity | vm_compute; reflexivity | | apply unlimited_reliable | reflexivity].
  assert (D : forall b, is_der_element [Byte.x04; Byte.x01; b] CBS_ASN1_OCTETSTRING 2 [b]).
  { intros b. exists [Byte.x04], [Byte.x01]. split; [reflexivity|]. split; [reflexivity|].
    split; [apply (low_tag Byte.x04); discriminate | apply (short_length Byte.x01); reflexivity]. }
  apply (chunks_cons _ [Byte.x04; Byte.x01; Byte.xaa] 2 [Byte.xaa]); [apply D|].
  apply (chunks_cons _ [Byte.x04; Byte.x01; Byte.xbb] 2 [Byte.xbb] []); [apply D | constructor].
Defined.

(** C40: the search for BER forgets what a nested call found as soon as another
    element follows.  Take any constructed element that is no string, whose own
    header is DER, and in whose contents the nested call finds BER: alone, BER is
    found in it; with other elements after it, of whatever kind and number, in
    which there is none, the search reports that there is none, and the element is
    handed out as it is, without the conversion that it needs. *)
Theorem nested_ber_missed {A : Type} {AL : Allocator A} elem tag header_len body tail (a : A) :
  is_der_element elem tag header_len body -> is_constructed tag = true -> is_string_type tag = false ->
  find_ber_loop (S (length body)) 1 false body = Ok true ->
  tail <> [] -> cbs_find_ber tail = Ok false ->
  cbs_find_ber elem = Ok true /\ cbs_find_ber (elem ++ tail) = Ok false /\
  CBS_asn1_ber_to_der (elem ++ tail) a = (Ok (elem, tail, false), a).
Proof.
  intros He Hc Hs Hbody Hne Htail. pose proof (is_der_element_nonempty _ _ _ _ He) as Hn.
  assert (Hlen : (length body < length elem)%nat) by (pose proof (CBS_skip_header _ _ _ _ He) as E; apply skip_suffix in E; [exact E|]; apply (is_der_element_header _ _ _ _ He)).
  assert (Hfound : forall tail', cbs_find_ber (elem ++ tail') = find_ber_loop (length (elem ++ tail')) 0 true tail').
  { intros tail'. unfold cbs_find_ber. rewrite (find_ber_constructed _ 0 _ _ _ _ tail' He Hc Hs) by discriminate.
    rewrite (find_ber_fuel _ (S (length body)) 1 false body), Hbody by (rewrite ?length_app; lia). reflexivity. }
  assert (Hmiss : cbs_find_ber (elem ++ tail) = Ok false).
  { rewrite Hfound, find_ber_forgets by exact Hne. rewrite <- Htail. apply find_ber_fuel; rewrite ?length_app; lia. }
  split; [|split; [exact Hmiss|]].
  - pose proof (Hfound []) as E. rewrite app_nil_r in E. rewrite E. destruct elem; [cbn in Hn; lia | reflexivity].
  - unfold CBS_asn1_ber_to_der. rewrite Hmiss.
    assert (CBS_get_any_asn1_element (elem ++ tail) = (Ok (elem, tag, header_len), tail)) as -> by (apply CBS_get_any_asn1_element_iff; eauto).
    reflexivity.
Qed.

(** A SEQUENCE that holds a SEQUENCE with a constructed, hence BER, OCTET
    STRING, alone and followed by a NULL. *)
Definition nested_ber : list byte :=
  [Byte.x30; Byte.x05; Byte.x24; Byte.x03; Byte.x04; Byte.x01; Byte.xaa].

Lemma nested_ber_missed_witness :
  cbs_find_ber nested_ber = Ok true /\ cbs_find_ber (nested_ber ++ [Byte.x05; Byte.x00]) = Ok false /\
  CBS_asn1_ber_to_der (nested_ber ++ [Byte.x05; Byte.x00]) tt = (Ok (nested_ber, [Byte.x05; Byte.x00], false), tt).
Proof.
  apply (nested_ber_missed (A := unit) nested_ber CBS_ASN1_SEQUENCE 2 [Byte.x24; Byte.x03; Byte.x04; Byte.x01; Byte.xaa] [Byte.x05; Byte.x00] tt).
  - exists [Byte.x30], [Byte.x05]. split; [reflexivity|]. split; [reflexivity|].
    split; [apply (low_tag Byte.x30); discriminate | apply (short_length Byte.x05); reflexivity].
  - reflexivity.
  - reflexivity.
  - vm_compute. reflexivity.
  - discriminate.
  - vm_compute. reflexivity.
Defined.

(** The same two elements as the contents of a SEQUENCE, which is handed out
    although it is not DER. *)
Example nested_ber_sibling : let sequence := [Byte.x30; Byte.x09] ++ nested_ber ++ [Byte.x05; Byte.x00] in
  cbs_find_ber sequence = Ok false /\ CBS_asn1_ber_to_der sequence tt = (Ok (sequence, [], false), tt).
Proof. vm_compute. split; reflexivity. Qed.
