(* ===== verification/ConstTime.v ===== *)
(** Constant-time words: ios/Pods/BoringSSL-GRPC/src/crypto/internal.h, lines
    216 to 443.  A comparison computes a mask of all ones or all zeros without
    branching; [w] is the width of a [crypto_word_t], 64 or 32 by the build. *)
From Stdlib Require Import ZArith Lia Bool.
From stdpp Require Import base list numbers.
From S2P Require Import Prelude.
Local Open Scope Z_scope.

(** A truth value as a mask of [w] ones. *)
Definition mask (w : Z) (b : bool) : Z := if b then 2 ^ w - 1 else 0.

Section constant_time.
Variable w : Z.
Notation word := (wrap w).

Definition value_barrier_w (a : Z) : Z := a.

Definition constant_time_msb_w (a : Z) : Z := word (0 - Z.shiftr a (w - 1)).

Definition constant_time_lt_w (a b : Z) : Z :=
  constant_time_msb_w (Z.lxor a (Z.lor (Z.lxor a b) (Z.lxor (word (a - b)) a))).
Definition constant_time_lt_8 (a b : Z) : Z := wrap 8 (constant_time_lt_w a b).

Definition constant_time_ge_w (a b : Z) : Z := word (Z.lnot (constant_time_lt_w a b)).
Definition constant_time_ge_8 (a b : Z) : Z := wrap 8 (constant_time_ge_w a b).

Definition constant_time_is_zero_w (a : Z) : Z :=
  constant_time_msb_w (Z.land (word (Z.lnot a)) (word (a - 1))).
Definition constant_time_is_zero_8 (a : Z) : Z := wrap 8 (constant_time_is_zero_w a).

Definition constant_time_eq_w (a b : Z) : Z := constant_time_is_zero_w (Z.lxor a b).
Definition constant_time_eq_8 (a b : Z) : Z := wrap 8 (constant_time_eq_w a b).
Definition constant_time_eq_int (a b : Z) : Z := constant_time_eq_w (word a) (word b).
Definition constant_time_eq_int_8 (a b : Z) : Z := constant_time_eq_8 (word a) (word b).

Definition constant_time_select_w (mask a b : Z) : Z :=
  Z.lor (Z.land (value_barrier_w mask) a) (Z.land (value_barrier_w (word (Z.lnot mask))) b).
Definition constant_time_select_8 (mask a b : Z) : Z := wrap 8 (constant_time_select_w mask a b).
Definition constant_time_select_int (mask a b : Z) : Z :=
  sext 32 (constant_time_select_w mask (word a) (word b)).

(** [buffers_alias] on the addresses of the buffers. *)
Definition buffers_alias (a_u a_len b_u b_len : Z) : bool :=
  (b_u <? word (a_u + a_len)) && (a_u <? word (b_u + b_len)).

(** [align_pointer] on an address. *)
Definition align_pointer (ptr alignment : Z) : Z :=
  let offset := Z.land (word (0 - ptr)) (alignment - 1) in ptr + offset.
End constant_time.

(** ** Masks *)

Section lemmas.
Context (w : Z) (Hw : 8 <= w).
Notation word := (wrap w).
Notation T := (2 ^ w).

Lemma half : T = 2 * 2 ^ (w - 1) /\ 128 <= 2 ^ (w - 1).
Proof.
  split; [rewrite <- Z.pow_succ_r by lia; f_equal; lia|].
  change 128 with (2 ^ 7). apply Z.pow_le_mono_r; lia.
Qed.

(** The top bit of a word. *)
Lemma top_bit a : in_word w a -> Z.testbit a (w - 1) = (2 ^ (w - 1) <=? a).
Proof.
  intros Ha. unfold in_word in Ha. pose proof half. rewrite Z.testbit_odd, shiftr_div by lia.
  destruct (Z.leb_spec (2 ^ (w - 1)) a).
  - replace (a / 2 ^ (w - 1)) with 1; [reflexivity|]. apply Z.div_unique with (a - 2 ^ (w - 1)); lia.
  - rewrite Z.div_small by lia. reflexivity.
Qed.

Lemma msb_spec a : in_word w a -> constant_time_msb_w w a = mask w (Z.testbit a (w - 1)).
Proof.
  intros Ha. rewrite top_bit by exact Ha. unfold in_word in Ha. pose proof half.
  unfold constant_time_msb_w, mask. rewrite shiftr_div by lia.
  destruct (Z.leb_spec (2 ^ (w - 1)) a).
  - replace (a / 2 ^ (w - 1)) with 1 by (apply Z.div_unique with (a - 2 ^ (w - 1)); lia).
    unfold wrap. symmetry. apply Z.mod_unique with (-1); lia.
  - rewrite Z.div_small by lia. reflexivity.
Qed.

Lemma in_word_bits a : 0 <= a -> (in_word w a <-> forall i, w <= i -> Z.testbit a i = false).
Proof.
  intros Ha. unfold in_word. split.
  - intros [_ H] i Hi. destruct (Z.eq_dec a 0) as [->|]; [apply Z.testbit_0_l|].
    apply Z.bits_above_log2; [exact Ha|]. apply Z.log2_lt_pow2 in H; lia.
  - intros H. split; [exact Ha|]. destruct (Z.eq_dec a 0) as [->|]; [apply Z.pow_pos_nonneg; lia|].
    apply Z.log2_lt_pow2; [lia|]. destruct (Z_lt_dec (Z.log2 a) w); [assumption|].
    specialize (H (Z.log2 a) ltac:(lia)). rewrite Z.bit_log2 in H by lia. discriminate.
Qed.

Lemma lxor_word a b : in_word w a -> in_word w b -> in_word w (Z.lxor a b).
Proof.
  intros Ha Hb. assert (0 <= Z.lxor a b) by (apply Z.lxor_nonneg; unfold in_word in *; lia).
  apply in_word_bits; [assumption|]. intros i Hi. rewrite Z.lxor_spec.
  rewrite (proj1 (in_word_bits a (proj1 Ha)) Ha i Hi), (proj1 (in_word_bits b (proj1 Hb)) Hb i Hi). reflexivity.
Qed.

Lemma lor_word a b : in_word w a -> in_word w b -> in_word w (Z.lor a b).
Proof.
  intros Ha Hb. assert (0 <= Z.lor a b) by (apply Z.lor_nonneg; unfold in_word in *; lia).
  apply in_word_bits; [assumption|]. intros i Hi. rewrite Z.lor_spec.
  rewrite (proj1 (in_word_bits a (proj1 Ha)) Ha i Hi), (proj1 (in_word_bits b (proj1 Hb)) Hb i Hi). reflexivity.
Qed.

Lemma land_word a b : in_word w a -> in_word w b -> in_word w (Z.land a b).
Proof.
  intros Ha Hb. assert (0 <= Z.land a b) by (apply Z.land_nonneg; unfold in_word in *; lia).
  apply in_word_bits; [assumption|]. intros i Hi. rewrite Z.land_spec.
  rewrite (proj1 (in_word_bits a (proj1 Ha)) Ha i Hi). reflexivity.
Qed.

Lemma word_sub a b : in_word w a -> in_word w b ->
  word (a - b) = if a <? b then a - b + T else a - b.
Proof.
  intros Ha Hb. unfold in_word, wrap in *. destruct (Z.ltb_spec a b).
  - symmetry. apply Z.mod_unique with (-1); lia.
  - apply Z.mod_small. lia.
Qed.

Lemma word_lnot a : in_word w a -> word (Z.lnot a) = T - 1 - a.
Proof.
  intros Ha. unfold in_word, wrap in *. replace (Z.lnot a) with (- a - 1) by (unfold Z.lnot; lia).
  symmetry. apply Z.mod_unique with (-1); lia.
Qed.

Lemma lt_w_spec a b : in_word w a -> in_word w b -> constant_time_lt_w w a b = mask w (a <? b).
Proof.
  intros Ha Hb. pose proof (wrap_range w (a - b) ltac:(lia)) as Hd. unfold constant_time_lt_w.
  rewrite msb_spec by (repeat apply lxor_word || apply lor_word; auto using lxor_word). f_equal.
  rewrite !Z.lxor_spec, Z.lor_spec, !Z.lxor_spec, !top_bit by auto.
  rewrite (word_sub a b Ha Hb). unfold in_word in *. pose proof half.
  destruct (Z.ltb_spec a b), (Z.leb_spec (2 ^ (w - 1)) a), (Z.leb_spec (2 ^ (w - 1)) b);
    try lia; cbn [xorb orb]; try (destruct (Z.leb_spec (2 ^ (w - 1)) (a - b + T))); try (destruct (Z.leb_spec (2 ^ (w - 1)) (a - b)));
    cbn [xorb]; try reflexivity; lia.
Qed.

Lemma is_zero_w_spec a : in_word w a -> constant_time_is_zero_w w a = mask w (a =? 0).
Proof.
  intros Ha. pose proof (wrap_range w (a - 1) ltac:(lia)) as Hd.
  assert (Hn : in_word w (word (Z.lnot a))) by (apply wrap_range; lia).
  unfold constant_time_is_zero_w. rewrite msb_spec by (apply land_word; assumption). f_equal.
  rewrite Z.land_spec, !top_bit by assumption. rewrite word_lnot, word_sub by (unfold in_word in *; pose proof half; lia || assumption).
  unfold in_word in *. pose proof half.
  destruct (Z.eqb_spec a 0), (Z.ltb_spec a 1), (Z.leb_spec (2 ^ (w - 1)) (T - 1 - a)); try lia; cbn [andb]; try reflexivity;
    apply Z.leb_le || apply Z.leb_gt; lia.
Qed.

Lemma eq_w_spec a b : in_word w a -> in_word w b -> constant_time_eq_w w a b = mask w (a =? b).
Proof.
  intros Ha Hb. unfold constant_time_eq_w. rewrite is_zero_w_spec by auto using lxor_word. f_equal.
  destruct (Z.eqb_spec (Z.lxor a b) 0) as [E|E], (Z.eqb_spec a b) as [E'|E']; auto.
  - apply Z.lxor_eq in E. contradiction.
  - subst. rewrite Z.lxor_nilpotent in E. contradiction.
Qed.

Lemma mask_8 b : wrap 8 (mask w b) = mask 8 b.
Proof.
  destruct b; [|reflexivity]. cbn [mask]. unfold wrap.
  replace (2 ^ w - 1) with (2 ^ 8 - 1 + (2 ^ (w - 8) - 1) * 2 ^ 8).
  - rewrite Z.mod_add by lia. reflexivity.
  - rewrite Z.mul_sub_distr_r, <- Z.pow_add_r by lia. replace (w - 8 + 8) with w by lia. lia.
Qed.

(** The mask may be narrower than the word, as long as the values are, too. *)
Lemma select_spec n c a b : 8 <= n <= w -> in_word n a -> in_word n b ->
  wrap n (constant_time_select_w w (mask n c) a b) = if c then a else b.
Proof.
  intros Hn Ha Hb. unfold constant_time_select_w, value_barrier_w.
  assert (Hones : forall x, in_word n x -> Z.land (2 ^ n - 1) x = x).
  { intros x Hx. rewrite Z.land_comm, land_ones_mod by lia. apply Z.mod_small, Hx. }
  destruct c; cbn [mask].
  - rewrite Hones by exact Ha. unfold wrap. rewrite <- Z.land_ones, Z.land_lor_distr_l, !Z.land_ones by lia.
    rewrite Z.mod_small by exact Ha.
    replace (Z.land ((Z.lnot (2 ^ n - 1)) mod 2 ^ w) b mod 2 ^ n) with 0; [apply Z.lor_0_r|].
    symmetry. rewrite <- Z.land_ones by lia. apply Z.bits_inj_0. intros i.
    rewrite !Z.land_spec. destruct (Z_lt_dec i 0); [rewrite (Z.testbit_neg_r b) by lia; rewrite andb_false_r; reflexivity|].
    destruct (Z_lt_dec i n).
    + rewrite Z.mod_pow2_bits_low by lia. rewrite Z.lnot_spec by lia.
      replace (2 ^ n - 1) with (Z.ones n) by (rewrite Z.ones_equiv; lia). rewrite Z.ones_spec_low by lia. reflexivity.
    + rewrite Z.ones_spec_high by lia. rewrite andb_false_r. reflexivity.
  - rewrite Z.land_0_l, Z.lor_0_l. change (Z.lnot 0) with (-1). unfold wrap at 2.
    replace (-1 mod 2 ^ w) with (2 ^ w - 1) by (apply Z.mod_unique with (-1); pose proof half; lia).
    rewrite Z.land_comm, land_ones_mod by lia. unfold wrap, in_word in *.
    assert (2 ^ n <= 2 ^ w) by (apply Z.pow_le_mono_r; lia).
    rewrite (Z.mod_small b (2 ^ w)) by lia. apply Z.mod_small. lia.
Qed.

Lemma select_w_spec c a b : in_word w a -> in_word w b ->
  constant_time_select_w w (mask w c) a b = if c then a else b.
Proof.
  intros Ha Hb. rewrite <- (select_spec w c a b) by (lia || assumption). symmetry. apply wrap_small.
  assert (Hm : in_word w (mask w c)).
  { unfold in_word, mask. pose proof half. destruct c; lia. }
  apply lor_word; apply land_word; auto. apply wrap_range. lia.
Qed.

Lemma lor_mask n c d : 0 <= n -> Z.lor (mask n c) (mask n d) = mask n (c || d).
Proof. destruct c, d; cbn [mask orb]; rewrite ?Z.lor_diag, ?Z.lor_0_r, ?Z.lor_0_l; reflexivity. Qed.

(** whatever the word size, the constant-time comparisons are the masks of
    the comparisons they are named after, and a selection with such a mask is
    the conditional: no intermediate overflow is visible in the result. *)
Theorem constant_time_masks a b c :
  in_word w a -> in_word w b ->
  constant_time_lt_w w a b = mask w (a <? b) /\ constant_time_lt_8 w a b = mask 8 (a <? b) /\
  constant_time_ge_w w a b = mask w (b <=? a) /\ constant_time_ge_8 w a b = mask 8 (b <=? a) /\
  constant_time_is_zero_w w a = mask w (a =? 0) /\ constant_time_is_zero_8 w a = mask 8 (a =? 0) /\
  constant_time_eq_w w a b = mask w (a =? b) /\ constant_time_eq_8 w a b = mask 8 (a =? b) /\
  constant_time_select_w w (mask w c) a b = (if c then a else b) /\
  (a < 256 -> b < 256 -> constant_time_select_8 w (mask 8 c) a b = if c then a else b).
Proof.
  intros Ha Hb. unfold constant_time_lt_8, constant_time_ge_8, constant_time_is_zero_8, constant_time_eq_8, constant_time_select_8.
  assert (Hge : constant_time_ge_w w a b = mask w (b <=? a)).
  { unfold constant_time_ge_w. rewrite lt_w_spec by assumption. rewrite word_lnot.
    - rewrite Z.leb_antisym. unfold mask. destruct (a <? b); cbn [negb]; lia.
    - unfold in_word, mask. pose proof half. destruct (a <? b); lia. }
  rewrite Hge, lt_w_spec, is_zero_w_spec, eq_w_spec, !mask_8 by assumption.
  repeat split. { apply select_w_spec; assumption. }
  intros. unfold in_word in *. apply select_spec; unfold in_word; lia.
Qed.

(** buffers that do not wrap around the address space alias exactly when
    they share a byte. *)
Theorem buffers_alias_spec a_u a_len b_u b_len :
  0 <= a_u -> 0 < a_len -> a_u + a_len < 2 ^ w -> 0 <= b_u -> 0 < b_len -> b_u + b_len < 2 ^ w ->
  buffers_alias w a_u a_len b_u b_len = true
  <-> exists p, a_u <= p < a_u + a_len /\ b_u <= p < b_u + b_len.
Proof.
  intros. unfold buffers_alias. rewrite !wrap_small by (unfold in_word; lia). rewrite andb_true_iff, !Z.ltb_lt.
  split; [intros; exists (Z.max a_u b_u); lia | intros (p & Hp); lia].
Qed.

(** an aligned pointer is the least multiple of the alignment that is not
    below the pointer. *)
Theorem align_pointer_spec ptr k :
  in_word w ptr -> 0 <= k <= w ->
  (2 ^ k | align_pointer w ptr (2 ^ k)) /\ ptr <= align_pointer w ptr (2 ^ k) < ptr + 2 ^ k.
Proof.
  intros Hp Hk. unfold align_pointer. rewrite land_ones_mod by lia.
  assert (H2 : 0 < 2 ^ k) by (apply Z.pow_pos_nonneg; lia).
  assert (E : wrap w (0 - ptr) mod 2 ^ k = (- ptr) mod 2 ^ k).
  { change (wrap w (0 - ptr) mod 2 ^ k) with (wrap k (wrap w (0 - ptr))). apply wrap_narrow. lia. }
  rewrite E. pose proof (Z.mod_pos_bound (- ptr) (2 ^ k) H2). split; [|lia].
  exists (- ((- ptr) / 2 ^ k)). pose proof (Z.div_mod (- ptr) (2 ^ k)). lia.
Qed.
End lemmas.

Lemma constant_time_masks_witness :
  in_word 64 5 /\ constant_time_select_w 64 (mask 64 true) 5 7 = 5.
Proof.
  split; [split; [lia | reflexivity]|].
  destruct (constant_time_masks 64 ltac:(lia) 5 7 true) as (_ & _ & _ & _ & _ & _ & _ & _ & H & _);
    [split; [lia | reflexivity] | split; [lia | reflexivity] | exact H].
Defined.

Lemma buffers_alias_spec_witness :
  buffers_alias 64 100 10 109 1 = true <-> exists p, 100 <= p < 100 + 10 /\ 109 <= p < 109 + 1.
Proof. apply (buffers_alias_spec 64); reflexivity || lia. Defined.

Lemma align_pointer_spec_witness :
  (2 ^ 6 | align_pointer 64 100 (2 ^ 6)) /\ 100 <= align_pointer 64 100 (2 ^ 6) < 100 + 2 ^ 6.
Proof. apply (align_pointer_spec 64); [split; [lia | reflexivity] | lia]. Defined.
