(* ===== verification/Base64.v ===== *)
(** Base64 as PEM uses it:
    ios/Pods/BoringSSL-GRPC/src/crypto/base64/base64.c.  The caller's [out]
    block is the state; a store outside it is [Stuck]. *)
From Stdlib Require Import ZArith Lia Bool.
From coqutil Require Import Byte Word.LittleEndianList.
From stdpp Require Import base list numbers.
From S2P Require Import Prelude Alloc ConstTime.
Local Open Scope Z_scope.
Local Open Scope c_scope.

Notation B := (M (list byte)).

(** [memcpy(out + off, bs, length bs)]. *)
Definition store (off : Z) (bs : list byte) : B unit := fun out =>
  if (0 <=? off) && (off + zlen bs <=? zlen out) then (Ok tt, splice out off bs) else (Stuck, out).

(** ** Characters: a [uint8_t] is a [Z] below 256 *)

Definition constant_time_lt_args_8 (a b : Z) : Z := wrap 8 (constant_time_msb_w 64 (u64 (a - b))).

Definition constant_time_in_range_8 (a min max : Z) : Z :=
  let a := wrap 8 (a - min) in
  constant_time_lt_args_8 a (wrap 8 (max - min + 1)).

Definition conv_bin2ascii (a : Z) : Z :=
  let a := Z.land (wrap 8 a) 0x3f in
  let ret := constant_time_select_8 64 (constant_time_eq_8 64 a 62) 43 47 in
  let ret := constant_time_select_8 64 (constant_time_lt_args_8 a 62) (wrap 8 (a - 52 + 48)) ret in
  let ret := constant_time_select_8 64 (constant_time_lt_args_8 a 52) (wrap 8 (a - 26 + 97)) ret in
  constant_time_select_8 64 (constant_time_lt_args_8 a 26) (wrap 8 (a + 65)) ret.

Definition base64_ascii_to_bin (a : Z) : Z :=
  let is_upper := constant_time_in_range_8 a 65 90 in
  let is_lower := constant_time_in_range_8 a 97 122 in
  let is_digit := constant_time_in_range_8 a 48 57 in
  let is_plus := constant_time_eq_8 64 a 43 in
  let is_slash := constant_time_eq_8 64 a 47 in
  let is_equals := constant_time_eq_8 64 a 61 in
  let ret := 0 in
  let ret := wrap 8 (Z.lor ret (Z.land is_upper (a - 65))) in
  let ret := wrap 8 (Z.lor ret (Z.land is_lower (a - 97 + 26))) in
  let ret := wrap 8 (Z.lor ret (Z.land is_digit (a - 48 + 52))) in
  let ret := wrap 8 (Z.lor ret (Z.land is_plus 62)) in
  let ret := wrap 8 (Z.lor ret (Z.land is_slash 63)) in
  let is_valid := Z.lor (Z.lor (Z.lor (Z.lor (Z.lor is_upper is_lower) is_digit) is_plus) is_slash) is_equals in
  wrap 8 (Z.lor ret (Z.lnot is_valid)).

(** ** Encoding *)

Definition EVP_EncodedLength (len : Z) : option Z :=
  if u64 (len + 2) <? len then None else
  let len := u64 (len + 2) / 3 in
  if negb (Z.shiftr (u64 (Z.shiftl len 2)) 2 =? len) then None else
  let len := u64 (Z.shiftl len 2) in
  if u64 (len + 1) <? len then None else Some (u64 (len + 1)).

(** The loop of [EVP_EncodeBlock]: [dst] and [count] the returned length. *)
Fixpoint encode_loop (src : list byte) (dst count : Z) : B (Z * Z) :=
  match src with
  | s0 :: s1 :: s2 :: src =>
      let l := Z.lor (Z.lor (Z.shiftl (u8 s0) 16) (Z.shiftl (u8 s1) 8)) (u8 s2) in
      store dst [b8 (conv_bin2ascii (Z.shiftr l 18)); b8 (conv_bin2ascii (Z.shiftr l 12));
                 b8 (conv_bin2ascii (Z.shiftr l 6)); b8 (conv_bin2ascii l)] ;;
      encode_loop src (dst + 4) (u64 (count + 4))
  | s0 :: src =>
      let l := Z.shiftl (u8 s0) 16 in
      let l := match src with s1 :: _ => Z.lor l (Z.shiftl (u8 s1) 8) | [] => l end in
      store dst [b8 (conv_bin2ascii (Z.shiftr l 18)); b8 (conv_bin2ascii (Z.shiftr l 12));
                 (match src with [] => b8 61 | _ => b8 (conv_bin2ascii (Z.shiftr l 6)) end); b8 61] ;;
      ret (dst + 4, u64 (count + 4))
  | [] => ret (dst, count)
  end.

Definition EVP_EncodeBlock (dst : Z) (src : list byte) : B Z :=
  '(dst, count) <- encode_loop src dst 0 ;;
  store dst [Byte.x00] ;;
  ret count.

Record EVP_ENCODE_CTX := mk_ctx {
  data_used : Z; data : list byte; eof_seen : bool; error_encountered : bool }.

(** With the padding. *)
Definition sizeof_EVP_ENCODE_CTX : Z := 56.

Definition EVP_ENCODE_CTX_new {A} {AL : Allocator A} (a : A) : option EVP_ENCODE_CTX * A :=
  match OPENSSL_malloc a sizeof_EVP_ENCODE_CTX with
  | (None, a) => (None, a)
  | (Some _, a) => (Some (mk_ctx 0 (zeros 48) false false), a)
  end.
Definition EVP_ENCODE_CTX_free {A} {AL : Allocator A} (ctx : option EVP_ENCODE_CTX) (a : A) : A :=
  match ctx with None => a | Some _ => OPENSSL_free a sizeof_EVP_ENCODE_CTX end.

Definition EVP_EncodeInit : EVP_ENCODE_CTX := mk_ctx 0 (zeros 48) false false.
Definition EVP_DecodeInit : EVP_ENCODE_CTX := mk_ctx 0 (zeros 48) false false.

(** A line of 64 characters and its newline, which the NUL follows. *)
Definition encode_line (out : Z) (line : list byte) : B Z :=
  encoded <- EVP_EncodeBlock out line ;;
  let out := out + encoded in
  store out [b8 10] ;;
  store (out + 1) [Byte.x00] ;;
  ret encoded.

(** The loop over whole lines: the rest of [in] and [total], [None] on the
    overflow of [total]. *)
Fixpoint encode_lines (fuel : nat) (inn : list byte) (out total : Z) : B (list byte * option Z) :=
  match fuel with
  | O => stuck
  | S fuel =>
      if 48 <=? zlen inn then
        encoded <- encode_line out (ztake 48 inn) ;;
        let inn := zdrop 48 inn in
        if u64 (total + encoded + 1) <? total then ret (inn, None) else
        encode_lines fuel inn (out + encoded + 1) (u64 (total + encoded + 1))
      else ret (inn, Some total)
  end.

(** The context and [*out_len]. *)
Definition EVP_EncodeUpdate (ctx : EVP_ENCODE_CTX) (out : Z) (inn : list byte) : B (EVP_ENCODE_CTX * Z) :=
  if zlen inn =? 0 then ret (ctx, 0) else
  if negb (data_used ctx <? 48) then stuck else
  if zlen inn <? 48 - data_used ctx then
    ret (mk_ctx (data_used ctx + zlen inn) (splice (data ctx) (data_used ctx) inn) (eof_seen ctx) (error_encountered ctx), 0)
  else
    '(ctx, inn, out, total) <-
      (if negb (data_used ctx =? 0) then
         let todo := 48 - data_used ctx in
         let data' := splice (data ctx) (data_used ctx) (ztake todo inn) in
         encoded <- encode_line out data' ;;
         ret (mk_ctx 0 data' (eof_seen ctx) (error_encountered ctx), zdrop todo inn, out + encoded + 1, encoded + 1)
       else ret (ctx, inn, out, 0)) ;;
    '(inn, total) <- encode_lines (S (length inn)) inn out total ;;
    match total with
    | None => ret (ctx, 0)
    | Some total =>
        let data' := if negb (zlen inn =? 0) then splice (data ctx) 0 inn else data ctx in
        let ctx := mk_ctx (zlen inn) data' (eof_seen ctx) (error_encountered ctx) in
        ret (ctx, if INT_MAX <? total then 0 else total)
    end.

Definition EVP_EncodeFinal (ctx : EVP_ENCODE_CTX) (out : Z) : B (EVP_ENCODE_CTX * Z) :=
  if data_used ctx =? 0 then ret (ctx, 0) else
  encoded <- EVP_EncodeBlock out (ztake (data_used ctx) (data ctx)) ;;
  store (out + encoded) [b8 10] ;;
  store (out + encoded + 1) [Byte.x00] ;;
  ret (mk_ctx 0 (data ctx) (eof_seen ctx) (error_encountered ctx), encoded + 1).

(** ** Decoding *)

Definition EVP_DecodedLength (len : Z) : option Z :=
  if negb (len mod 4 =? 0) then None else Some (u64 (len / 4 * 3)).

(** The bytes of a quad are written at [out]; the result is their number.  The
    failures leave [out] as it is. *)
Definition base64_decode_quad (out : Z) (inn : list byte) : B Z :=
  if negb (4 <=? zlen inn) then stuck else
  let i k := u8 (znth inn k) in
  let a := base64_ascii_to_bin (i 0) in
  let b := base64_ascii_to_bin (i 1) in
  let c := base64_ascii_to_bin (i 2) in
  let d := base64_ascii_to_bin (i 3) in
  if (a =? 0xff) || (b =? 0xff) || (c =? 0xff) || (d =? 0xff) then fail else
  let v := Z.lor (Z.lor (Z.lor (Z.shiftl a 18) (Z.shiftl b 12)) (Z.shiftl c 6)) d in
  let eq k n := Z.shiftl (if i k =? 61 then 1 else 0) n in
  let padding_pattern := Z.lor (Z.lor (Z.lor (eq 0 3) (eq 1 2)) (eq 2 1)) (eq 3 0) in
  if padding_pattern =? 0 then store out [b8 (Z.shiftr v 16); b8 (Z.shiftr v 8); b8 v] ;; ret 3
  else if padding_pattern =? 1 then store out [b8 (Z.shiftr v 16); b8 (Z.shiftr v 8)] ;; ret 2
  else if padding_pattern =? 3 then store out [b8 (Z.shiftr v 16)] ;; ret 1
  else fail.

Definition is_space (c : byte) : bool := existsb (Z.eqb (u8 c)) [32; 9; 13; 10].

Definition set_error (ctx : EVP_ENCODE_CTX) : EVP_ENCODE_CTX :=
  mk_ctx (data_used ctx) (data ctx) (eof_seen ctx) true.

(** The loop of [EVP_DecodeUpdate]; [None] is the early return on an error.
    [out] has advanced by [bytes_out] from where it started. *)
Fixpoint decode_loop (ctx : EVP_ENCODE_CTX) (out : Z) (inn : list byte) (bytes_out : Z) : B (EVP_ENCODE_CTX * option Z) :=
  match inn with
  | [] => ret (ctx, Some bytes_out)
  | c :: inn =>
      if is_space c then decode_loop ctx out inn bytes_out else
      if eof_seen ctx then ret (set_error ctx, None) else
      if negb (data_used ctx <? 48) then stuck else
      let ctx := mk_ctx (data_used ctx + 1) (splice (data ctx) (data_used ctx) [c]) (eof_seen ctx) (error_encountered ctx) in
      if data_used ctx =? 4 then fun mem =>
        match base64_decode_quad (out + bytes_out) (data ctx) mem with
        | (Ok num_bytes_resulting, mem) =>
            let ctx := mk_ctx 0 (data ctx) (if num_bytes_resulting <? 3 then true else eof_seen ctx) (error_encountered ctx) in
            decode_loop ctx out inn (bytes_out + num_bytes_resulting) mem
        | (Fail, mem) => (Ok (set_error ctx, None), mem)
        | (Stuck, mem) => (Stuck, mem)
        end
      else decode_loop ctx out inn bytes_out
  end.

(** The context, the result and [*out_len]. *)
Definition EVP_DecodeUpdate (ctx : EVP_ENCODE_CTX) (out : Z) (inn : list byte) : B (EVP_ENCODE_CTX * Z * Z) :=
  if error_encountered ctx then ret (ctx, -1, 0) else
  '(ctx, bytes_out) <- decode_loop ctx out inn 0 ;;
  match bytes_out with
  | None => ret (ctx, -1, 0)
  | Some bytes_out =>
      if INT_MAX <? bytes_out then ret (set_error ctx, -1, 0)
      else ret (ctx, if eof_seen ctx then 0 else 1, bytes_out)
  end.

(** The result; [*out_len] is 0. *)
Definition EVP_DecodeFinal (ctx : EVP_ENCODE_CTX) : Z :=
  if error_encountered ctx || negb (data_used ctx =? 0) then -1 else 1.

Fixpoint decode_quads (fuel : nat) (out : Z) (inn : list byte) (bytes_out : Z) : B Z :=
  match fuel with
  | O => stuck
  | S fuel =>
      if zlen inn =? 0 then ret bytes_out else
      num_bytes_resulting <- base64_decode_quad (out + bytes_out) inn ;;
      if negb (num_bytes_resulting =? 3) && negb (zlen inn =? 4) then fail else
      decode_quads fuel out (zdrop 4 inn) (bytes_out + num_bytes_resulting)
  end.

(** [*out_len]. *)
Definition EVP_DecodeBase64 (out max_out : Z) (inn : list byte) : B Z :=
  if negb (zlen inn mod 4 =? 0) then fail else
  match EVP_DecodedLength (zlen inn) with
  | None => fail
  | Some max_len => if max_out <? max_len then fail else decode_quads (S (length inn)) out inn 0
  end.

Fixpoint trim_left (src : list byte) : list byte :=
  match src with
  | c :: src' => if negb (u8 c =? 32) && negb (u8 c =? 9) then src else trim_left src'
  | [] => []
  end.

(** From the last character on. *)
Fixpoint trim_right (rsrc : list byte) : list byte :=
  match rsrc with
  | c :: rsrc' => if is_space c then trim_right rsrc' else rsrc
  | [] => []
  end.

Fixpoint pad_nul (fuel : nat) (dst dst_len : Z) : B Z :=
  match fuel with
  | O => stuck
  | S fuel =>
      if negb (dst_len mod 3 =? 0) then store (dst + dst_len) [Byte.x00] ;; pad_nul fuel dst (dst_len + 1)
      else ret dst_len
  end.

(** [Fail] is the result -1. *)
Definition EVP_DecodeBlock (dst : Z) (src : list byte) : B Z :=
  let src := rev (trim_right (rev (trim_left src))) in
  match EVP_DecodedLength (zlen src) with
  | None => fail
  | Some dst_len =>
      if INT_MAX <? dst_len then fail else
      dst_len <- EVP_DecodeBase64 dst dst_len src ;;
      pad_nul 3 dst dst_len
  end.

(** ** The reference: RFC 4648, section 4 *)

Definition alphabet : list Z :=
  map Z.of_nat (seq 65 26 ++ seq 97 26 ++ seq 48 10) ++ [43; 47].

Definition char64 (v : Z) : byte := b8 (nth (Z.to_nat (v mod 64)) alphabet 0).
Definition pad : byte := b8 61.

Fixpoint base64 (src : list byte) : list byte :=
  match src with
  | [] => []
  | [a] => let n := u8 a * 65536 in [char64 (n / 2 ^ 18); char64 (n / 2 ^ 12); pad; pad]
  | [a; b] => let n := u8 a * 65536 + u8 b * 256 in
      [char64 (n / 2 ^ 18); char64 (n / 2 ^ 12); char64 (n / 2 ^ 6); pad]
  | a :: b :: c :: src => let n := u8 a * 65536 + u8 b * 256 + u8 c in
      [char64 (n / 2 ^ 18); char64 (n / 2 ^ 12); char64 (n / 2 ^ 6); char64 n] ++ base64 src
  end.

(** ** Characters *)

Lemma forall_below n (P : Z -> bool) :
  forallb P (map Z.of_nat (seq 0 n)) = true -> forall v, 0 <= v < Z.of_nat n -> P v = true.
Proof.
  intros H v Hv. rewrite forallb_forall in H. apply H, in_map_iff. exists (Z.to_nat v).
  split; [lia|]. apply in_seq. lia.
Qed.

Lemma land63 a : Z.land (wrap 8 a) 0x3f = a mod 64.
Proof. change 0x3f with (2 ^ 6 - 1). rewrite land_ones_mod by lia. apply (wrap_narrow 6 8); lia. Qed.

Lemma conv_spec a : b8 (conv_bin2ascii a) = char64 a.
Proof.
  unfold char64. assert (E : conv_bin2ascii a = conv_bin2ascii (a mod 64)).
  { unfold conv_bin2ascii. rewrite !land63, Zmod_mod. reflexivity. }
  rewrite E. pose proof (Z.mod_pos_bound a 64 ltac:(lia)) as Hr. f_equal. apply Z.eqb_eq. revert Hr.
  generalize (a mod 64). apply (forall_below 64 (fun v => conv_bin2ascii v =? nth (Z.to_nat v) alphabet 0)).
  vm_compute. reflexivity.
Qed.

Lemma u8_char64 v : u8 (char64 v) <> 61 /\ base64_ascii_to_bin (u8 (char64 v)) = v mod 64 /\ is_space (char64 v) = false.
Proof.
  unfold char64. pose proof (Z.mod_pos_bound v 64 ltac:(lia)) as Hr.
  pose proof (forall_below 64 (fun v => negb (u8 (b8 (nth (Z.to_nat v) alphabet 0)) =? 61) &&
    (base64_ascii_to_bin (u8 (b8 (nth (Z.to_nat v) alphabet 0))) =? v) && negb (is_space (b8 (nth (Z.to_nat v) alphabet 0))))
    ltac:(vm_compute; reflexivity) (v mod 64) Hr) as H.
  apply andb_true_iff in H as [H H3]. zbool. destruct H as [H1 H2]. auto.
Qed.

(** ** Stores *)

Lemma store_app off d (x y z : list byte) :
  off = zlen x -> zlen d = zlen y -> store off d (x ++ y ++ z) = (Ok tt, x ++ d ++ z).
Proof.
  intros -> Hd. unfold store. rewrite !zlen_app. pose proof (zlen_nonneg x). pose proof (zlen_nonneg z).
  destruct (Z.leb_spec 0 (zlen x)); [|lia]. destruct (Z.leb_spec (zlen x + zlen d) (zlen x + (zlen y + zlen z))); [|lia].
  cbn [andb]. rewrite splice_app by auto. reflexivity.
Qed.

(** [n] bytes of room split off [k] of them. *)
Lemma room_split (y : list byte) k : 0 <= k <= zlen y ->
  exists y1 y2, y = y1 ++ y2 /\ zlen y1 = k /\ zlen y2 = zlen y - k.
Proof.
  intros Hk. exists (ztake k y), (zdrop k y). rewrite ztake_zdrop, zlen_ztake, zlen_zdrop by lia. auto.
Qed.

Lemma triple_ind (P : list byte -> Prop) :
  P [] -> (forall a, P [a]) -> (forall a b, P [a; b]) -> (forall a b c l, P l -> P (a :: b :: c :: l)) -> forall l, P l.
Proof.
  intros H0 H1 H2 H3. fix IH 1. intros [|a [|b [|c l]]]; [exact H0 | apply H1 | apply H2 | apply H3, IH].
Qed.

Lemma zlen_base64 src : zlen (base64 src) = 4 * ((zlen src + 2) / 3).
Proof.
  induction src as [| | |a b c l IH] using triple_ind; try reflexivity. cbn [base64]. rewrite zlen_app, IH, !zlen_cons.
  replace (1 + (1 + (1 + zlen l)) + 2) with (zlen l + 2 + 1 * 3) by lia.
  rewrite Z.div_add by lia. change (zlen (@nil byte)) with 0. lia.
Qed.

(** ** The encoder *)

Lemma word24 a b c :
  Z.lor (Z.lor (Z.shiftl (u8 a) 16) (Z.shiftl (u8 b) 8)) (u8 c) = u8 a * 65536 + u8 b * 256 + u8 c.
Proof.
  pose proof (u8_range a). pose proof (u8_range b). pose proof (u8_range c).
  replace (Z.shiftl (u8 a) 16) with (Z.shiftl (Z.shiftl (u8 a) 8) 8) by (rewrite Z.shiftl_shiftl by lia; reflexivity).
  rewrite <- Z.shiftl_lor. rewrite (lor_shiftl_add (u8 a)) by lia. rewrite lor_shiftl_add by lia. lia.
Qed.

Lemma word16 a b : Z.lor (Z.shiftl (u8 a) 16) (Z.shiftl (u8 b) 8) = u8 a * 65536 + u8 b * 256.
Proof. pose proof (word24 a b Byte.x00) as H. change (u8 Byte.x00) with 0 in H. rewrite Z.lor_0_r in H. lia. Qed.

Lemma word8 a : Z.shiftl (u8 a) 16 = u8 a * 65536.
Proof. rewrite Z.shiftl_mul_pow2 by lia. reflexivity. Qed.

Lemma encode_loop_spec src : forall count x y z,
  zlen y = zlen (base64 src) -> 0 <= count -> count + zlen (base64 src) < 2 ^ 64 ->
  encode_loop src (zlen x) count (x ++ y ++ z)
  = (Ok (zlen x + zlen (base64 src), count + zlen (base64 src)), x ++ base64 src ++ z).
Proof.
  induction src as [|a|a b|a b c l IH] using triple_ind; intros count x y z Hy Hc Hb.
  - destruct y; [|discriminate]. cbn. unfold ret. rewrite Z.add_0_r, Z.add_0_r. reflexivity.
  - cbn [encode_loop]. cbv zeta. rewrite !conv_spec, word8, !shiftr_div by lia. unfold bind.
    rewrite store_app by auto. unfold ret. change (zlen (base64 [a])) with 4 in *.
    rewrite wrap_small by (unfold in_word; lia). reflexivity.
  - cbn [encode_loop]. cbv zeta. rewrite !conv_spec, word16, !shiftr_div by lia. unfold bind.
    rewrite store_app by auto. unfold ret. change (zlen (base64 [a; b])) with 4 in *.
    rewrite wrap_small by (unfold in_word; lia). reflexivity.
  - cbn [encode_loop base64] in *. cbv zeta in *. rewrite zlen_app in *. change (zlen [_; _; _; _]) with 4 in *.
    pose proof (zlen_nonneg (base64 l)). destruct (room_split y 4) as (y1 & y2 & -> & H1 & H2); [lia|].
    rewrite !conv_spec, word24, !shiftr_div by lia. unfold bind. rewrite <- app_assoc, store_app by auto.
    rewrite app_assoc. set (q := [_; _; _; _]) in *. replace (zlen x + 4) with (zlen (x ++ q)) by (rewrite zlen_app; reflexivity).
    rewrite wrap_small by (unfold in_word; lia). rewrite IH by lia. rewrite zlen_app. change (zlen q) with 4.
    rewrite <- !app_assoc. do 3 f_equal; lia.
Qed.

Lemma EVP_EncodeBlock_spec src x y z :
  zlen y = zlen (base64 src) + 1 -> zlen (base64 src) < 2 ^ 64 ->
  EVP_EncodeBlock (zlen x) src (x ++ y ++ z) = (Ok (zlen (base64 src)), x ++ base64 src ++ [Byte.x00] ++ z).
Proof.
  intros Hy Hb. pose proof (zlen_nonneg (base64 src)).
  destruct (room_split y (zlen (base64 src))) as (y1 & y2 & -> & H1 & H2); [lia|].
  unfold EVP_EncodeBlock, bind. rewrite <- app_assoc, encode_loop_spec by lia.
  rewrite app_assoc, store_app; [|rewrite zlen_app; lia|change (zlen [Byte.x00]) with 1; lia].
  unfold ret. rewrite <- app_assoc. reflexivity.
Qed.

Lemma EVP_EncodedLength_spec len : 0 <= len < 2 ^ 64 ->
  EVP_EncodedLength len = if 4 * ((len + 2) / 3) + 1 <? 2 ^ 64 then Some (4 * ((len + 2) / 3) + 1) else None.
Proof.
  intros Hl. unfold EVP_EncodedLength. pose proof (Z.div_mod (len + 2) 3 ltac:(lia)). pose proof (Z.mod_pos_bound (len + 2) 3 ltac:(lia)).
  destruct (Z_lt_dec (len + 2) (2 ^ 64)).
  2: { replace (u64 (len + 2)) with (len + 2 - 2 ^ 64) by (unfold wrap; apply Z.mod_unique with 1; lia).
       destruct (Z.ltb_spec (len + 2 - 2 ^ 64) len); [|lia]. destruct (Z.ltb_spec (4 * ((len + 2) / 3) + 1) (2 ^ 64)); [lia | reflexivity]. }
  rewrite (wrap_small 64 (len + 2)) by (unfold in_word; lia). destruct (Z.ltb_spec (len + 2) len); [lia|].
  set (q := (len + 2) / 3) in *. rewrite Z.shiftl_mul_pow2, shiftr_div by lia. change (2 ^ 2) with 4.
  assert (0 <= q) by (apply Z.div_pos; lia).
  destruct (Z.ltb_spec (4 * q + 1) (2 ^ 64)).
  - rewrite (wrap_small 64 (q * 4)) by (unfold in_word; lia). rewrite Z.div_mul by lia. rewrite Z.eqb_refl. cbn [negb].
    rewrite wrap_small by (unfold in_word; lia). destruct (Z.ltb_spec (q * 4 + 1) (q * 4)); [lia|]. f_equal. lia.
  - assert (Hm : u64 (q * 4) = q * 4 - 2 ^ 64) by (unfold wrap; symmetry; apply Z.mod_unique with 1; lia).
    rewrite Hm. destruct (Z.eqb_spec ((q * 4 - 2 ^ 64) / 4) q) as [E|]; [|reflexivity].
    replace (q * 4 - 2 ^ 64) with ((q - 2 ^ 62) * 4) in E by lia. rewrite Z.div_mul in E by lia. lia.
Qed.

(** ** The decoder *)

(** The first quad of an encoding, and what it stands for. *)
Definition quad (q s0 s : list byte) : Prop :=
  length q = 4%nat /\ Forall (fun c => is_space c = false) q /\ 1 <= zlen s0 <= 3 /\
  (zlen s0 < 3 -> s = []) /\
  forall rest x y z, zlen y = zlen s0 ->
    base64_decode_quad (zlen x) (q ++ rest) (x ++ y ++ z) = (Ok (zlen s0), x ++ s0 ++ z).

Lemma sextets p q r t : 0 <= p < 64 -> 0 <= q < 64 -> 0 <= r < 64 -> 0 <= t < 64 ->
  Z.lor (Z.lor (Z.lor (Z.shiftl p 18) (Z.shiftl q 12)) (Z.shiftl r 6)) t = p * 2 ^ 18 + q * 2 ^ 12 + r * 2 ^ 6 + t.
Proof.
  intros. replace (Z.shiftl p 18) with (Z.shiftl (Z.shiftl (Z.shiftl p 6) 6) 6) by (rewrite !Z.shiftl_shiftl by lia; reflexivity).
  replace (Z.shiftl q 12) with (Z.shiftl (Z.shiftl q 6) 6) by (rewrite !Z.shiftl_shiftl by lia; reflexivity).
  rewrite <- !Z.shiftl_lor. rewrite (lor_shiftl_add p), (lor_shiftl_add _ r), (lor_shiftl_add _ t) by lia. lia.
Qed.

(** The bits below a number of 24 bits, put together again. *)
Lemma sextets_join n : 0 <= n < 2 ^ 24 ->
  (n / 2 ^ 18) mod 64 * 2 ^ 18 + (n / 2 ^ 12) mod 64 * 2 ^ 12 + (n / 2 ^ 6) mod 64 * 2 ^ 6 + n mod 64 = n.
Proof. intros H. Z.div_mod_to_equations. lia. Qed.

Lemma low_bytes a b c : 
  let n := u8 a * 65536 + u8 b * 256 + u8 c in
  b8 (n / 2 ^ 16) = a /\ b8 (n / 2 ^ 8) = b /\ b8 n = c.
Proof.
  cbv zeta. pose proof (u8_range a). pose proof (u8_range b). pose proof (u8_range c).
  repeat split; apply u8_inj; rewrite u8_b8; Z.div_mod_to_equations; lia.
Qed.

Lemma decode_quad_run v1 v2 (c3 c4 : byte) r3 r4 k rest n x y z (s0 : list byte) :
  n = (v1 mod 64) * 2 ^ 18 + (v2 mod 64) * 2 ^ 12 + r3 * 2 ^ 6 + r4 ->
  base64_ascii_to_bin (u8 c3) = r3 -> base64_ascii_to_bin (u8 c4) = r4 -> 0 <= r3 < 64 -> 0 <= r4 < 64 ->
  (k = 3 /\ u8 c3 <> 61 /\ u8 c4 <> 61 /\ s0 = [b8 (n / 2 ^ 16); b8 (n / 2 ^ 8); b8 n] \/
   k = 2 /\ u8 c3 <> 61 /\ u8 c4 = 61 /\ s0 = [b8 (n / 2 ^ 16); b8 (n / 2 ^ 8)] \/
   k = 1 /\ u8 c3 = 61 /\ u8 c4 = 61 /\ s0 = [b8 (n / 2 ^ 16)]) ->
  zlen y = k ->
  base64_decode_quad (zlen x) ([char64 v1; char64 v2; c3; c4] ++ rest) (x ++ y ++ z) = (Ok k, x ++ s0 ++ z).
Proof.
  intros -> E3 E4 H3 H4 Hk Hy. pose proof (zlen_nonneg rest).
  destruct (u8_char64 v1) as (N1 & E1 & _), (u8_char64 v2) as (N2 & E2 & _).
  unfold base64_decode_quad. rewrite !zlen_app, !zlen_cons. change (zlen (@nil byte)) with 0.
  destruct (Z.leb_spec 4 (1 + (1 + (1 + (1 + 0))) + zlen rest)); [|lia]. cbn [negb]. cbv zeta.
  change (znth ([char64 v1; char64 v2; c3; c4] ++ rest) 0) with (char64 v1).
  change (znth ([char64 v1; char64 v2; c3; c4] ++ rest) 1) with (char64 v2).
  change (znth ([char64 v1; char64 v2; c3; c4] ++ rest) 2) with c3.
  change (znth ([char64 v1; char64 v2; c3; c4] ++ rest) 3) with c4.
  rewrite E1, E2, E3, E4. pose proof (Z.mod_pos_bound v1 64 ltac:(lia)). pose proof (Z.mod_pos_bound v2 64 ltac:(lia)).
  destruct (Z.eqb_spec (v1 mod 64) 255); [lia|]. destruct (Z.eqb_spec (v2 mod 64) 255); [lia|].
  destruct (Z.eqb_spec r3 255); [lia|]. destruct (Z.eqb_spec r4 255); [lia|]. cbn [orb].
  apply Z.eqb_neq in N1, N2. rewrite N1, N2, sextets, !shiftr_div by lia.
  destruct Hk as [(-> & K3 & K4 & ->) | [(-> & K3 & K4 & ->) | (-> & K3 & K4 & ->)]];
    rewrite ?K3, ?K4; try (apply Z.eqb_neq in K3; rewrite K3); try (apply Z.eqb_neq in K4; rewrite K4);
    change (61 =? 61) with true; cbv iota;
    match goal with |- context [Z.lor (Z.lor (Z.lor ?p ?q) ?r) ?t] =>
      let v := eval vm_compute in (Z.lor (Z.lor (Z.lor p q) r) t) in change (Z.lor (Z.lor (Z.lor p q) r) t) with v end;
    cbn [Z.eqb Pos.eqb]; unfold bind; rewrite store_app by (auto; rewrite Hy; reflexivity); reflexivity.
Qed.

Lemma pad_facts : base64_ascii_to_bin (u8 pad) = 0 /\ u8 pad = 61 /\ is_space pad = false.
Proof. vm_compute. auto. Qed.

Lemma base64_quad src : src <> [] ->
  exists q s0 s, src = s0 ++ s /\ base64 src = q ++ base64 s /\ quad q s0 s.
Proof.
  destruct pad_facts as (P1 & P2 & P3). intros Hne.
  assert (R : forall n, 0 <= n mod 64 < 64) by (intros; apply Z.mod_pos_bound; lia).
  destruct src as [|a [|b [|c l]]]; [contradiction| | |].
  - pose proof (u8_range a). pose proof (low_bytes a Byte.x00 Byte.x00) as (L1 & _). change (u8 Byte.x00) with 0 in L1.
    set (n := u8 a * 65536 + 0 * 256 + 0) in *.
    exists [char64 (n / 2 ^ 18); char64 (n / 2 ^ 12); pad; pad], [a], []. split; [reflexivity|].
    split. { cbn [base64]. cbv zeta. replace (u8 a * 65536) with n by (subst n; lia). reflexivity. }
    split; [reflexivity|]. split; [repeat constructor; try apply u8_char64; apply P3|].
    split; [unfold zlen; cbn; lia|]. split; [auto|].
    intros rest x y z Hy. apply (decode_quad_run _ _ _ _ 0 0 1 rest n); auto; try lia.
    { subst n. Z.div_mod_to_equations. lia. }
    right; right. rewrite L1. auto.
  - pose proof (u8_range a). pose proof (u8_range b). pose proof (low_bytes a b Byte.x00) as (L1 & L2 & _). change (u8 Byte.x00) with 0 in L1, L2.
    set (n := u8 a * 65536 + u8 b * 256 + 0) in *.
    exists [char64 (n / 2 ^ 18); char64 (n / 2 ^ 12); char64 (n / 2 ^ 6); pad], [a; b], []. split; [reflexivity|].
    split. { cbn [base64]. cbv zeta. replace (u8 a * 65536 + u8 b * 256) with n by (subst n; lia). reflexivity. }
    split; [reflexivity|]. split; [repeat constructor; try apply u8_char64; apply P3|].
    split; [unfold zlen; cbn; lia|]. split; [auto|].
    intros rest x y z Hy. destruct (u8_char64 (n / 2 ^ 6)) as (N3 & E3 & _).
    apply (decode_quad_run _ _ _ _ _ 0 2 rest n) with (2 := E3); auto; try lia.
    { subst n. Z.div_mod_to_equations. lia. }
    right; left. rewrite L1, L2. auto.
  - pose proof (u8_range a). pose proof (u8_range b). pose proof (u8_range c). pose proof (low_bytes a b c) as (L1 & L2 & L3).
    set (n := u8 a * 65536 + u8 b * 256 + u8 c) in *.
    exists [char64 (n / 2 ^ 18); char64 (n / 2 ^ 12); char64 (n / 2 ^ 6); char64 n], [a; b; c], l. split; [reflexivity|].
    split; [reflexivity|].
    split; [reflexivity|]. split; [repeat constructor; apply u8_char64|].
    split; [unfold zlen; cbn; lia|]. split; [unfold zlen; cbn; lia|].
    intros rest x y z Hy. destruct (u8_char64 (n / 2 ^ 6)) as (N3 & E3 & _), (u8_char64 n) as (N4 & E4 & _).
    apply (decode_quad_run _ _ _ _ _ _ 3 rest n) with (2 := E3) (3 := E4); auto; try lia.
    { symmetry. apply sextets_join. subst n. lia. }
    left. rewrite L1, L2, L3. auto.
Qed.

Lemma base64_nil src : base64 src = [] -> src = [].
Proof. destruct src as [|a [|b [|c l]]]; [reflexivity | discriminate..]. Qed.

Lemma zlen_zero_nil {A} (l : list A) : zlen l = 0 -> l = [].
Proof. destruct l; [reflexivity | discriminate]. Qed.

Lemma decode_quads_spec fuel : forall src x d y z out,
  (length (base64 src) < fuel)%nat -> zlen y = zlen src -> out = zlen x ->
  decode_quads fuel out (base64 src) (zlen d) (x ++ d ++ y ++ z) = (Ok (zlen d + zlen src), x ++ d ++ src ++ z).
Proof.
  induction fuel as [|fuel IH]; intros src x d y z out Hf Hy ->; [lia|]. cbn [decode_quads].
  destruct (Z.eqb_spec (zlen (base64 src)) 0) as [E|E].
  { apply zlen_zero_nil, base64_nil in E. subst src. destruct y; [|discriminate]. unfold ret. rewrite Z.add_0_r. reflexivity. }
  destruct (base64_quad src) as (q' & s0' & s' & -> & Eb & Hq & _ & Hs0 & Hs & Hrun).
  { intros ->. apply E. reflexivity. }
  rewrite zlen_app in Hy. pose proof (zlen_nonneg s'). destruct (room_split y (zlen s0')) as (y1 & y2 & -> & H1 & H2); [lia|].
  rewrite Eb in *. unfold bind. rewrite <- (zlen_app x d).
    replace (x ++ d ++ (y1 ++ y2) ++ z) with ((x ++ d) ++ y1 ++ y2 ++ z) by (rewrite <- !app_assoc; reflexivity).
    rewrite Hrun by exact H1.
  rewrite length_app in Hf.
  replace (negb (zlen s0' =? 3) && negb (zlen (q' ++ base64 s') =? 4)) with false.
  2: { destruct (Z.eqb_spec (zlen s0') 3); [reflexivity|]. rewrite (Hs ltac:(lia)), app_nil_r. unfold zlen. rewrite Hq. reflexivity. }
  rewrite zdrop_app by (unfold zlen; rewrite Hq; reflexivity). rewrite <- zlen_app.
  replace ((x ++ d) ++ s0' ++ y2 ++ z) with (x ++ (d ++ s0') ++ y2 ++ z) by (rewrite <- !app_assoc; reflexivity).
  rewrite IH by (lia || reflexivity). rewrite !zlen_app, <- !app_assoc. do 2 f_equal. lia.
Qed.

(** The context holds the characters [pend] of a quad that is not complete. *)
Definition decoding (ctx : EVP_ENCODE_CTX) (pend s : list byte) : Prop :=
  zlen (data ctx) = 48 /\ data_used ctx = zlen pend /\ ztake (zlen pend) (data ctx) = pend /\ zlen pend < 4 /\
  error_encountered ctx = false /\ (eof_seen ctx = true -> s = []).

(** White space, apart from the code's test: the space, the tabulator, the
    line feed and the carriage return. *)
Definition white_space (c : byte) : bool :=
  match c with Byte.x20 | Byte.x09 | Byte.x0a | Byte.x0d => true | _ => false end.

Lemma is_space_white c : is_space c = white_space c.
Proof. destruct c; reflexivity. Qed.

(** The characters that are not white space. *)
Definition strip (inn : list byte) : list byte := List.filter (fun c => negb (white_space c)) inn.

Lemma decoding_push ctx pend c s : decoding ctx pend s ->
  let data' := splice (data ctx) (data_used ctx) [c] in
  zlen data' = 48 /\ ztake (zlen pend + 1) data' = pend ++ [c].
Proof.
  intros (Hd & Hu & Hp & H4 & _). cbv zeta. rewrite Hu.
  destruct (room_split (data ctx) (zlen pend)) as (p' & t & E & L1 & L2); [pose proof (zlen_nonneg pend); lia|].
  rewrite E in Hp. rewrite ztake_app in Hp by lia. subst p'.
  pose proof (zlen_nonneg pend). destruct (room_split t 1) as (b & t' & -> & M1 & M2); [lia|]. rewrite E, splice_app by auto.
  split; [rewrite !zlen_app in *; change (zlen [c]) with 1; lia|].
  rewrite app_assoc, ztake_app; [reflexivity|]. rewrite zlen_app. reflexivity.
Qed.

Lemma decode_loop_spec inn : forall more ctx pend s x d y z,
  decoding ctx pend s -> pend ++ strip (inn ++ more) = base64 s -> zlen s <= zlen y ->
  exists ctx' s1 s2 y1 y2 pend', s = s1 ++ s2 /\ y = y1 ++ y2 /\ zlen y1 = zlen s1 /\
    decoding ctx' pend' s2 /\ pend' ++ strip more = base64 s2 /\
    decode_loop ctx (zlen x) inn (zlen d) (x ++ d ++ y ++ z)
    = (Ok (ctx', Some (zlen d + zlen s1)), x ++ d ++ s1 ++ y2 ++ z).
Proof.
  induction inn as [|c inn IH]; intros more ctx pend s x d y z Hctx Hs Hy.
  - exists ctx, [], s, [], y, pend. cbn in *. unfold ret. rewrite Z.add_0_r. auto 10.
  - cbn [decode_loop app strip List.filter] in *. fold (strip (inn ++ more)) in Hs. rewrite is_space_white. destruct (white_space c) eqn:Ec; cbn [negb] in Hs.
    { destruct (IH more ctx pend s x d y z Hctx Hs Hy) as (ctx' & s1 & s2 & y1 & y2 & p' & H). exists ctx', s1, s2, y1, y2, p'. exact H. }
    pose proof (decoding_push ctx pend c s Hctx) as [Hd1 Hp1]. destruct Hctx as (Hd & Hu & Hp & H4 & Her & Heof).
    destruct (eof_seen ctx) eqn:Ef.
    { rewrite (Heof eq_refl) in Hs. destruct pend; discriminate. }
    pose proof (zlen_nonneg pend). destruct (Z.ltb_spec (data_used ctx) 48); [|lia]. cbn [negb]. cbv zeta. cbn [data_used data eof_seen error_encountered].
    set (data' := splice _ _ _) in *.
    destruct (base64_quad s) as (q' & s0' & s'' & Es & Eb & Hq & _ & Hs0 & Hs3 & Hrun).
    { intros ->. destruct pend; discriminate. }
    subst s. rewrite Eb in Hs. rewrite zlen_app in Hy. pose proof (zlen_nonneg s'').
    destruct (Z.eqb_spec (data_used ctx + 1) 4) as [E4|E4].
    + assert (Hpc : length (pend ++ [c]) = 4%nat) by (rewrite length_app; unfold zlen in *; cbn; lia).
      change (c :: strip (inn ++ more)) with ([c] ++ strip (inn ++ more)) in Hs. rewrite app_assoc in Hs.
      apply app_inj_1 in Hs as [Hq' Hs]; [|congruence].
      assert (Edata : data' = q' ++ zdrop 4 data').
      { rewrite <- (ztake_zdrop data' 4) at 1. rewrite <- Hq', <- Hp1. do 2 f_equal. lia. }
      destruct (room_split y (zlen s0')) as (y1 & y2 & -> & L1 & L2); [lia|].
      rewrite <- (zlen_app x d).
      replace (x ++ d ++ (y1 ++ y2) ++ z) with ((x ++ d) ++ y1 ++ y2 ++ z) by (rewrite <- !app_assoc; reflexivity).
      assert (Hq4 : base64_decode_quad (zlen (x ++ d)) data' ((x ++ d) ++ y1 ++ y2 ++ z) = (Ok (zlen s0'), (x ++ d) ++ s0' ++ y2 ++ z)).
      { rewrite Edata. apply Hrun, L1. }
      rewrite Hq4.
      set (ctx1 := mk_ctx _ _ _ _).
      assert (Hctx1 : decoding ctx1 [] s'').
      { subst ctx1. repeat split; auto; cbn [data_used data eof_seen error_encountered].
        intros Hif. apply Hs3. destruct (Z.ltb_spec (zlen s0') 3); [assumption | discriminate]. }
      rewrite <- (zlen_app d). replace ((x ++ d) ++ s0' ++ y2 ++ z) with (x ++ (d ++ s0') ++ y2 ++ z) by (rewrite <- !app_assoc; reflexivity).
      destruct (IH more ctx1 [] s'' x (d ++ s0') y2 z Hctx1 Hs ltac:(lia)) as (ctx' & s1 & s2 & z1 & z2 & p' & -> & -> & Hz & Hc & Hm & ->).
      exists ctx', (s0' ++ s1), s2, (y1 ++ z1), z2, p'. rewrite <- !app_assoc.
      split; [reflexivity|]. split; [reflexivity|]. split; [rewrite !zlen_app; lia|]. split; [exact Hc|]. split; [exact Hm|].
      rewrite !zlen_app, Z.add_assoc. reflexivity.
    + apply (IH more) with (pend := pend ++ [c]).
      * unfold decoding. cbn [data_used data eof_seen error_encountered]. rewrite zlen_app. change (zlen [c]) with 1.
        split; [exact Hd1|]. split; [lia|]. split; [exact Hp1|]. split; [lia|]. split; [exact Her | discriminate].
      * rewrite <- app_assoc, Eb. exact Hs.
      * rewrite zlen_app. lia.
Qed.

(** ** Lines *)

(** The text of the first [n] lines of [d]. *)
Fixpoint full_lines (n : nat) (d : list byte) : list byte :=
  match n with
  | O => []
  | S n => base64 (ztake 48 d) ++ [b8 10] ++ full_lines n (zdrop 48 d)
  end.

(** The number of whole lines in [d], and the text of [d] with its last line. *)
Definition lines (d : list byte) : nat := Nat.div (length d) 48.
Definition pem_text (d : list byte) : list byte :=
  let last := zdrop (48 * Z.of_nat (lines d)) d in
  full_lines (lines d) d ++ (if zlen last =? 0 then [] else base64 last ++ [b8 10]).

Lemma lines_step d : 48 <= zlen d -> lines d = S (lines (zdrop 48 d)).
Proof.
  intros H. unfold lines, zdrop. rewrite length_drop. change (Z.to_nat 48) with 48%nat. unfold zlen in H.
  replace (length d) with (1 * 48 + (length d - 48))%nat at 1 by lia. rewrite Nat.div_add_l by lia. reflexivity.
Qed.

Lemma lines_small d : zlen d < 48 -> lines d = O.
Proof. intros H. apply Nat.div_small. unfold zlen in H. lia. Qed.

Lemma zlen_full_lines n d : 48 * Z.of_nat n <= zlen d -> zlen (full_lines n d) = 65 * Z.of_nat n.
Proof.
  revert d; induction n as [|n IH]; intros d H; [reflexivity|]. cbn [full_lines].
  rewrite !zlen_app, IH by (rewrite zlen_zdrop by lia; lia). rewrite zlen_base64, zlen_ztake by lia.
  change (zlen [b8 10]) with 1. change ((48 + 2) / 3) with 16. lia.
Qed.

Lemma lines_le d : 48 * Z.of_nat (lines d) <= zlen d < 48 * Z.of_nat (lines d) + 48.
Proof.
  unfold lines, zlen. pose proof (Nat.div_mod_eq (length d) 48). pose proof (Nat.mod_upper_bound (length d) 48). lia.
Qed.

Lemma ztake_zdrop_app (d e : list byte) n : 0 <= n <= zlen d ->
  ztake n (d ++ e) = ztake n d /\ zdrop n (d ++ e) = zdrop n d ++ e.
Proof.
  intros H. unfold ztake, zdrop, zlen in *. rewrite take_app_le, drop_app_le by lia. auto.
Qed.

Lemma zdrop_zdrop (d : list byte) m n : 0 <= m -> 0 <= n -> zdrop m (zdrop n d) = zdrop (n + m) d.
Proof. intros. unfold zdrop. rewrite drop_drop. f_equal. lia. Qed.

(** Text that was written line by line is written as by one call. *)
Lemma lines_app a : forall b,
  let rest := zdrop (48 * Z.of_nat (lines a)) a in
  lines (a ++ b) = (lines a + lines (rest ++ b))%nat /\
  full_lines (lines (a ++ b)) (a ++ b) = full_lines (lines a) a ++ full_lines (lines (rest ++ b)) (rest ++ b) /\
  zdrop (48 * Z.of_nat (lines (a ++ b))) (a ++ b) = zdrop (48 * Z.of_nat (lines (rest ++ b))) (rest ++ b).
Proof.
  remember (lines a) as n eqn:En. revert a En; induction n as [|n IH]; intros a En b; cbv zeta.
  - rewrite Z.mul_0_r. change (zdrop 0 a) with a. auto.
  - assert (H48 : 48 <= zlen a) by (pose proof (lines_le a); lia).
    assert (H48' : 48 <= zlen (a ++ b)) by (rewrite zlen_app; pose proof (zlen_nonneg b); lia).
    rewrite (lines_step (a ++ b)) by exact H48'. destruct (ztake_zdrop_app a b 48) as [T D]; [lia|]. rewrite D.
    rewrite (lines_step a) in En by exact H48. injection En as En. specialize (IH _ En b). cbv zeta in IH.
    destruct IH as (I1 & I2 & I3).
    replace (zdrop (48 * Z.of_nat (S n)) a) with (zdrop (48 * Z.of_nat n) (zdrop 48 a)) by (rewrite zdrop_zdrop by lia; f_equal; lia).
    split; [rewrite I1; reflexivity|]. split.
    + cbn [full_lines]. rewrite T, D, I2, <- !app_assoc. reflexivity.
    + rewrite <- I3. rewrite <- D, zdrop_zdrop by lia. f_equal. lia.
Qed.

Lemma pem_text_app a b : 
  let rest := zdrop (48 * Z.of_nat (lines a)) a in
  pem_text (a ++ b) = full_lines (lines a) a ++ pem_text (rest ++ b).
Proof.
  destruct (lines_app a b) as (_ & H2 & H3). cbv zeta in *. unfold pem_text. rewrite H2, H3, <- app_assoc. reflexivity.
Qed.

(** ** The streaming encoder *)

Lemma encode_line_spec line x y z :
  zlen line = 48 -> zlen y = 66 ->
  encode_line (zlen x) line (x ++ y ++ z) = (Ok 64, (x ++ base64 line ++ [b8 10]) ++ [Byte.x00] ++ z).
Proof.
  intros Hl Hy. assert (Hb : zlen (base64 line) = 64) by (rewrite zlen_base64, Hl; reflexivity).
  destruct (room_split y 65) as (y1 & y2 & -> & H1 & H2); [lia|]. rewrite zlen_app in Hy, H2.
  destruct y2 as [|j [|j2 y2]]; [change (zlen (@nil byte)) with 0 in *; lia | | rewrite !zlen_cons in *; pose proof (zlen_nonneg y2); lia].
  unfold encode_line, bind. rewrite <- app_assoc, EVP_EncodeBlock_spec by lia. rewrite Hb.
  rewrite (app_assoc x), store_app; [|rewrite zlen_app; lia | reflexivity].
  rewrite (app_assoc (x ++ base64 line)).
  rewrite store_app; [|rewrite !zlen_app, Hb; change (zlen [b8 10]) with 1; lia | reflexivity].
  unfold ret. rewrite <- !app_assoc. reflexivity.
Qed.

(** The byte after the text is a NUL once a line was written. *)
Definition terminator (n : nat) (y : list byte) : byte := if n then hd Byte.x00 y else Byte.x00.

Lemma encode_lines_spec fuel : forall inn out total x y z,
  (length inn < fuel)%nat -> out = zlen x -> zlen y = 65 * Z.of_nat (lines inn) + 1 ->
  0 <= total -> total + zlen y < 2 ^ 64 ->
  encode_lines fuel inn out total (x ++ y ++ z)
  = (Ok (zdrop (48 * Z.of_nat (lines inn)) inn, Some (total + 65 * Z.of_nat (lines inn))),
     x ++ full_lines (lines inn) inn ++ [terminator (lines inn) y] ++ z).
Proof.
  induction fuel as [|fuel IH]; intros inn out total x y z Hf -> Hy Ht Hb; [lia|]. cbn [encode_lines].
  destruct (Z.leb_spec 48 (zlen inn)).
  - pose proof (lines_step inn ltac:(lia)) as En. rewrite En in *. cbn [full_lines].
    destruct (room_split y 66) as (y1 & y2 & -> & H1 & H2); [lia|]. rewrite zlen_app in *.
    unfold bind. rewrite <- app_assoc, encode_line_spec by (assumption || (apply zlen_ztake; lia)).
    rewrite wrap_small by (unfold in_word; lia). destruct (Z.ltb_spec (total + 64 + 1) total); [lia|].
    set (text := base64 (ztake 48 inn)). assert (Hx : zlen text = 64) by (unfold text; rewrite zlen_base64, zlen_ztake by lia; reflexivity).
    pose proof (zlen_nonneg y2) as Hy2.
    change ([Byte.x00] ++ y2 ++ z) with (([Byte.x00] ++ y2) ++ z). rewrite IH.
    + rewrite zdrop_zdrop by lia. replace (48 + 48 * Z.of_nat (lines (zdrop 48 inn))) with (48 * Z.of_nat (S (lines (zdrop 48 inn)))) by lia.
      replace (total + 64 + 1 + 65 * Z.of_nat (lines (zdrop 48 inn))) with (total + 65 * Z.of_nat (S (lines (zdrop 48 inn)))) by lia.
      rewrite <- !app_assoc. destruct (lines (zdrop 48 inn)); reflexivity.
    + unfold zdrop. rewrite length_drop. unfold zlen in *. lia.
    + rewrite !zlen_app, Hx. change (zlen [b8 10]) with 1. lia.
    + rewrite zlen_app. change (zlen [Byte.x00]) with 1. lia.
    + lia.
    + rewrite zlen_app. change (zlen [Byte.x00]) with 1. lia.
  - rewrite (lines_small inn) in * by lia. destruct y as [|j [|j2 y]];
      [discriminate | | rewrite !zlen_cons in Hy; pose proof (zlen_nonneg y); lia]. unfold ret. rewrite Z.add_0_r. reflexivity.
Qed.

(** The context holds the bytes [pend] of a line that is not complete. *)
Definition encoding (ctx : EVP_ENCODE_CTX) (pend : list byte) : Prop :=
  zlen (data ctx) = 48 /\ data_used ctx = zlen pend /\ ztake (zlen pend) (data ctx) = pend /\ zlen pend < 48.

Lemma fill_data (d pend inn : list byte) :
  zlen d = 48 -> ztake (zlen pend) d = pend -> zlen pend + zlen inn <= 48 ->
  zlen (splice d (zlen pend) inn) = 48 /\ ztake (zlen pend + zlen inn) (splice d (zlen pend) inn) = pend ++ inn.
Proof.
  intros Hd Hp Hl. pose proof (zlen_nonneg pend). pose proof (zlen_nonneg inn).
  destruct (room_split d (zlen pend)) as (p' & t & -> & L1 & L2); [lia|]. rewrite ztake_app in Hp by lia. subst p'.
  destruct (room_split t (zlen inn)) as (b & t' & -> & M1 & M2); [lia|]. rewrite splice_app by auto.
  split; [rewrite !zlen_app in *; lia|]. rewrite app_assoc, ztake_app; [reflexivity | rewrite zlen_app; reflexivity].
Qed.

(** The rest of a call once the line in the context is written. *)
Lemma encode_tail_spec ctx rest out total xx yy z :
  zlen (data ctx) = 48 -> out = zlen xx -> zlen yy = 65 * Z.of_nat (lines rest) + 1 ->
  0 <= total -> total + 65 * Z.of_nat (lines rest) <= INT_MAX ->
  exists ctx', ('(inn, total) <- encode_lines (S (length rest)) rest out total ;;
    match total with
    | None => ret (ctx, 0)
    | Some total =>
        ret (mk_ctx (zlen inn) (if negb (zlen inn =? 0) then splice (data ctx) 0 inn else data ctx)
               (eof_seen ctx) (error_encountered ctx),
             if INT_MAX <? total then 0 else total)
    end) (xx ++ yy ++ z)
  = (Ok (ctx', total + 65 * Z.of_nat (lines rest)), xx ++ full_lines (lines rest) rest ++ [terminator (lines rest) yy] ++ z) /\
  encoding ctx' (zdrop (48 * Z.of_nat (lines rest)) rest).
Proof.
  intros Hd -> Hyy Ht Hm. unfold bind. rewrite encode_lines_spec by (auto; lia).
  destruct (Z.ltb_spec INT_MAX (total + 65 * Z.of_nat (lines rest))); [lia|].
  pose proof (lines_le rest) as Hle. set (r := zdrop _ rest).
  assert (Hr : zlen r = zlen rest - 48 * Z.of_nat (lines rest)) by (apply zlen_zdrop; lia).
  eexists. split; [reflexivity|]. pose proof (zlen_nonneg r).
  destruct (fill_data (data ctx) [] r) as [F1 F2]; auto; [change (zlen (@nil byte)) with 0; lia|].
  unfold encoding. cbn [data_used data]. destruct (Z.eqb_spec (zlen r) 0) as [E|E]; cbn [negb].
  - apply zlen_zero_nil in E. rewrite E. repeat split; auto.
  - split; [exact F1|]. split; [reflexivity|]. split; [exact F2 | lia].
Qed.

(** One call writes the lines that are complete and keeps the rest. *)
Lemma EVP_EncodeUpdate_spec ctx pend inn x y z :
  encoding ctx pend ->
  let all := pend ++ inn in
  let n := lines all in
  zlen y = 65 * Z.of_nat n + 1 -> 65 * Z.of_nat n <= INT_MAX ->
  exists ctx', EVP_EncodeUpdate ctx (zlen x) inn (x ++ y ++ z)
    = (Ok (ctx', 65 * Z.of_nat n), x ++ full_lines n all ++ [terminator n y] ++ z) /\
    encoding ctx' (zdrop (48 * Z.of_nat n) all).
Proof.
  intros (Hd & Hu & Hp & H48). cbv zeta. intros Hy Hmax. pose proof (zlen_nonneg pend). pose proof (zlen_nonneg inn).
  unfold EVP_EncodeUpdate. destruct (Z.eqb_spec (zlen inn) 0) as [E0|E0].
  { apply zlen_zero_nil in E0. subst inn. rewrite app_nil_r in *. rewrite lines_small in * by lia.
    exists ctx. destruct y as [|j [|j2 y]]; [discriminate | | rewrite !zlen_cons in Hy; pose proof (zlen_nonneg y); lia].
    split; [reflexivity|]. split; auto. }
  destruct (Z.ltb_spec (data_used ctx) 48); [|lia]. cbn [negb].
  destruct (Z.ltb_spec (zlen inn) (48 - data_used ctx)).
  { rewrite lines_small in * by (rewrite zlen_app; lia). rewrite Hu. destruct (fill_data (data ctx) pend inn) as [F1 F2]; auto; try lia.
    eexists. destruct y as [|j [|j2 y]]; [discriminate | | rewrite !zlen_cons in Hy; pose proof (zlen_nonneg y); lia].
    split; [reflexivity|]. split; [exact F1|]. change (zdrop (48 * Z.of_nat 0) (pend ++ inn)) with (pend ++ inn).
    cbn [data_used data]. rewrite zlen_app. split; [reflexivity|]. split; [exact F2 | lia]. }
  destruct (Z.eqb_spec (data_used ctx) 0) as [Eu|Eu]; cbn [negb].
  - assert (pend = []) by (apply zlen_zero_nil; lia). subst pend. cbn [app] in *. rewrite bind_ret.
    destruct (encode_tail_spec ctx inn (zlen x) 0 x y z) as (ctx' & E & H'); auto; try lia. exists ctx'.
    split; [exact E | exact H'].
  - rewrite Hu. destruct (fill_data (data ctx) pend (ztake (48 - zlen pend) inn)) as [F1 F2]; auto; [rewrite zlen_ztake; lia|].
    rewrite zlen_ztake in F2 by lia. replace (zlen pend + (48 - zlen pend)) with 48 in F2 by lia.
    rewrite (ztake_all _ 48) in F2 by lia. rewrite F2 in *.
    assert (Hall : 48 <= zlen (pend ++ inn)) by (rewrite zlen_app; lia).
    assert (Etk : pend ++ ztake (48 - zlen pend) inn = ztake 48 (pend ++ inn)).
    { unfold ztake, zlen in *. rewrite take_app_ge by lia. do 2 f_equal. lia. }
    assert (Edr : zdrop (48 - zlen pend) inn = zdrop 48 (pend ++ inn)).
    { unfold zdrop, zlen in *. rewrite drop_app_ge by lia. f_equal. lia. }
    rewrite Etk, Edr in *. set (all := pend ++ inn) in *. pose proof (lines_step all Hall) as En. rewrite En in *.
    destruct (room_split y 66) as (y1 & y2 & -> & L1 & L2); [lia|]. rewrite zlen_app in *.
    unfold bind at 1. unfold bind at 1. rewrite <- app_assoc, encode_line_spec by assumption. unfold ret at 1.
    set (text := base64 (ztake 48 all)) in *. assert (Hx : zlen text = 64) by (unfold text; rewrite zlen_base64, F1; reflexivity).
    change ([Byte.x00] ++ y2 ++ z) with (([Byte.x00] ++ y2) ++ z).
    set (ctx1 := mk_ctx 0 _ _ _).
    destruct (encode_tail_spec ctx1 (zdrop 48 all) (zlen x + 64 + 1) 65 (x ++ text ++ [b8 10]) ([Byte.x00] ++ y2) z) as (ctx' & E & H'); auto; try lia.
    { rewrite !zlen_app, Hx. change (zlen [b8 10]) with 1. lia. }
    { rewrite zlen_app. change (zlen [Byte.x00]) with 1. lia. }
    exists ctx'. split.
    + change (64 + 1) with 65. etransitivity; [exact E|].
      replace (65 + 65 * Z.of_nat (lines (zdrop 48 all))) with (65 * Z.of_nat (S (lines (zdrop 48 all)))) by lia. f_equal.
      cbn [full_lines]. fold text. rewrite <- !app_assoc. destruct (lines (zdrop 48 all)); reflexivity.
    + rewrite zdrop_zdrop in H' by lia. replace (48 * Z.of_nat (S (lines (zdrop 48 all)))) with (48 + 48 * Z.of_nat (lines (zdrop 48 all))) by lia. exact H'.
Qed.

Lemma base64_app a b : (3 | zlen a) -> base64 (a ++ b) = base64 a ++ base64 b.
Proof.
  induction a as [|x|x y|x y c a IH] using triple_ind; intros H; try (unfold zlen in H; cbn in H; destruct H; lia); [reflexivity|].
  change ((x :: y :: c :: a) ++ b) with (x :: y :: c :: (a ++ b)). cbn [base64]. cbv zeta. rewrite IH; [reflexivity|]. rewrite !zlen_cons in H. destruct H as [k H]. exists (k - 1). lia.
Qed.

Lemma strip_app a b : strip (a ++ b) = strip a ++ strip b.
Proof. apply List.filter_app. Qed.

Lemma strip_base64 src : strip (base64 src) = base64 src.
Proof.
  remember (length src) as n eqn:En. revert src En. induction (lt_wf n) as [n _ IH]; intros src ->.
  destruct (decide (src = [])) as [->|Hne]; [reflexivity|].
  destruct (base64_quad src Hne) as (q & s0 & s & -> & -> & _ & Hq & Hs0 & _). rewrite strip_app.
  rewrite (IH (length s)); [|rewrite length_app; unfold zlen in Hs0; lia | reflexivity]. f_equal.
  clear -Hq. induction Hq as [|c q Hc _ IHq]; [reflexivity|]. unfold strip. cbn [List.filter]. rewrite <- is_space_white, Hc. cbn [negb].
  f_equal. exact IHq.
Qed.

Lemma strip_full_lines n d : 48 * Z.of_nat n <= zlen d ->
  strip (full_lines n d) ++ base64 (zdrop (48 * Z.of_nat n) d) = base64 d.
Proof.
  revert d; induction n as [|n IH]; intros d H; [reflexivity|]. cbn [full_lines]. rewrite !strip_app, strip_base64, <- !app_assoc.
  change (strip [b8 10]) with (@nil byte). cbn [app].
  replace (zdrop (48 * Z.of_nat (S n)) d) with (zdrop (48 * Z.of_nat n) (zdrop 48 d)) by (rewrite zdrop_zdrop by lia; f_equal; lia).
  rewrite IH by (rewrite zlen_zdrop by lia; lia). rewrite <- base64_app, ztake_zdrop; [reflexivity|].
  rewrite zlen_ztake by lia. exists 16. lia.
Qed.

Lemma strip_pem_text d : strip (pem_text d) = base64 d.
Proof.
  unfold pem_text. cbv zeta. rewrite strip_app, <- (strip_full_lines (lines d) d) by (pose proof (lines_le d); lia). f_equal.
  destruct (Z.eqb_spec (zlen (zdrop (48 * Z.of_nat (lines d)) d)) 0) as [E|_].
  - apply zlen_zero_nil in E. rewrite E. reflexivity.
  - rewrite strip_app, strip_base64. apply app_nil_r.
Qed.

(** ** Callers *)

(** A caller that encodes its data in pieces and advances [out] by [*out_len]. *)
Fixpoint encode_chunks (ctx : EVP_ENCODE_CTX) (out : Z) (chunks : list (list byte)) : B Z :=
  match chunks with
  | [] => '(_, n) <- EVP_EncodeFinal ctx out ;; ret (out + n)
  | chunk :: chunks => '(ctx, n) <- EVP_EncodeUpdate ctx out chunk ;; encode_chunks ctx (out + n) chunks
  end.

(** A caller that decodes a text in pieces and checks every result. *)
Fixpoint decode_chunks (ctx : EVP_ENCODE_CTX) (out : Z) (chunks : list (list byte)) : B Z :=
  match chunks with
  | [] => if EVP_DecodeFinal ctx =? 1 then ret out else fail
  | chunk :: chunks =>
      '(ctx, r, n) <- EVP_DecodeUpdate ctx out chunk ;;
      if r =? -1 then fail else decode_chunks ctx (out + n) chunks
  end.

Lemma EVP_EncodeFinal_spec ctx pend x y z :
  encoding ctx pend -> zlen y = zlen (pem_text pend) + 1 ->
  exists ctx' j, EVP_EncodeFinal ctx (zlen x) (x ++ y ++ z) = (Ok (ctx', zlen (pem_text pend)), x ++ pem_text pend ++ [j] ++ z).
Proof.
  intros (Hd & Hu & Hp & H48) Hy. unfold EVP_EncodeFinal, pem_text in *. cbv zeta in *. rewrite (lines_small pend) in * by lia.
  change (zdrop (48 * Z.of_nat 0) pend) with pend in *. cbn [full_lines app] in *. rewrite Hu, Hp.
  destruct (Z.eqb_spec (zlen pend) 0).
  - destruct y as [|j [|j2 y]]; [discriminate | | rewrite !zlen_cons in Hy; pose proof (zlen_nonneg y); change (zlen (@nil byte)) with 0 in *; lia].
    exists ctx, j. reflexivity.
  - assert (Hb : 0 <= zlen (base64 pend) < 2 ^ 64).
    { rewrite zlen_base64. pose proof (zlen_nonneg pend). Z.div_mod_to_equations. lia. }
    rewrite zlen_app in *. change (zlen [b8 10]) with 1 in *.
    destruct (room_split y (zlen (base64 pend) + 1)) as (y1 & y2 & -> & L1 & L2); [lia|]. rewrite zlen_app in *.
    destruct y2 as [|j [|j2 y2]]; [change (zlen (@nil byte)) with 0 in *; lia | | rewrite !zlen_cons in *; pose proof (zlen_nonneg y2); lia].
    unfold bind. rewrite <- app_assoc, EVP_EncodeBlock_spec by lia.
    rewrite (app_assoc x), store_app; [|rewrite zlen_app; lia | reflexivity].
    rewrite (app_assoc (x ++ base64 pend)), store_app; [|rewrite !zlen_app; change (zlen [b8 10]) with 1; lia | reflexivity].
    eexists _, Byte.x00. unfold ret. rewrite <- !app_assoc. reflexivity.
Qed.

Lemma zlen_pem_text d : 65 * Z.of_nat (lines d) <= zlen (pem_text d).
Proof.
  unfold pem_text. cbv zeta. rewrite zlen_app, zlen_full_lines by (pose proof (lines_le d); lia).
  match goal with |- context [zlen (if ?b then ?u else ?v)] => pose proof (zlen_nonneg (if b then u else v)) end. lia.
Qed.

Lemma encode_chunks_spec chunks : forall ctx pend x y z,
  encoding ctx pend -> zlen y = zlen (pem_text (pend ++ concat chunks)) + 1 -> zlen y <= INT_MAX ->
  exists j, encode_chunks ctx (zlen x) chunks (x ++ y ++ z)
    = (Ok (zlen x + zlen (pem_text (pend ++ concat chunks))), x ++ pem_text (pend ++ concat chunks) ++ [j] ++ z).
Proof.
  induction chunks as [|c chunks IH]; intros ctx pend x y z Hctx Hy Hm; cbn [encode_chunks concat] in *.
  - rewrite app_nil_r in *. destruct (EVP_EncodeFinal_spec ctx pend x y z Hctx Hy) as (ctx' & j & E).
    exists j. unfold bind. rewrite E. reflexivity.
  - rewrite (app_assoc pend c) in *. set (all := pend ++ c) in *. rewrite (pem_text_app all) in *. set (rest := zdrop _ all) in *.
    rewrite zlen_app in *. pose proof (lines_le all) as Hle. pose proof (zlen_nonneg (pem_text (rest ++ concat chunks))).
    pose proof (zlen_full_lines (lines all) all ltac:(lia)) as Hfl. rewrite Hfl in *.
    destruct (room_split y (65 * Z.of_nat (lines all) + 1)) as (y1 & y2 & -> & L1 & L2); [lia|]. rewrite zlen_app in *.
    pose proof (zlen_nonneg y2).
    destruct (EVP_EncodeUpdate_spec ctx pend c x y1 (y2 ++ z) Hctx L1 ltac:(fold all; lia)) as (ctx' & E & Hctx').
    fold all in E, Hctx'. fold rest in Hctx'. unfold bind. rewrite <- app_assoc, E.
    rewrite <- Hfl, <- zlen_app.
    destruct (IH ctx' rest (x ++ full_lines (lines all) all) ([terminator (lines all) y1] ++ y2) z Hctx') as (j & E').
    { rewrite zlen_app. change (zlen [_]) with 1. lia. }
    { rewrite zlen_app. change (zlen [_]) with 1. lia. }
    exists j. rewrite <- !app_assoc in *. rewrite E'. rewrite zlen_app, Z.add_assoc. reflexivity.
Qed.

Lemma decode_chunks_spec chunks : forall ctx pend s x y z,
  decoding ctx pend s -> pend ++ strip (concat chunks) = base64 s -> zlen y = zlen s -> zlen s <= INT_MAX ->
  decode_chunks ctx (zlen x) chunks (x ++ y ++ z) = (Ok (zlen x + zlen s), x ++ s ++ z).
Proof.
  induction chunks as [|c chunks IH]; intros ctx pend s x y z Hctx Hs Hy Hm; cbn [decode_chunks concat] in *.
  - change (strip []) with (@nil byte) in Hs. rewrite app_nil_r in Hs. destruct Hctx as (_ & Hu & _ & H4 & Her & _).
    assert (pend = [] /\ s = []) as [-> ->].
    { destruct s as [|b s].
      - cbn in Hs. auto.
      - exfalso. destruct (base64_quad (b :: s)) as (q & s0 & s' & _ & Eb & Hq & _); [discriminate|].
        rewrite Eb in Hs. subst pend. rewrite zlen_app in H4. pose proof (zlen_nonneg (base64 s')). unfold zlen in *. lia. }
    destruct y; [|discriminate]. unfold EVP_DecodeFinal. rewrite Her, Hu. cbn. unfold ret. rewrite Z.add_0_r. reflexivity.
  - destruct (decode_loop_spec c (concat chunks) ctx pend s x [] y z Hctx Hs ltac:(lia))
      as (ctx' & s1 & s2 & y1 & y2 & pend' & -> & -> & L & Hctx' & Hs' & E).
    rewrite !zlen_app in *. pose proof (zlen_nonneg s2). pose proof (zlen_nonneg s1).
    unfold EVP_DecodeUpdate. destruct Hctx as (_ & _ & _ & _ & Her & _). rewrite Her. unfold bind at 1. unfold bind at 1.
    change (zlen (@nil byte)) with 0 in E. cbn [app] in E. rewrite E. rewrite Z.add_0_l.
    destruct (Z.ltb_spec INT_MAX (zlen s1)); [lia|]. unfold ret at 1.
    replace ((if eof_seen ctx' then 0 else 1) =? -1) with false by (destruct (eof_seen ctx'); reflexivity).
    rewrite <- zlen_app, (app_assoc x s1). rewrite (IH ctx' pend' s2 (x ++ s1) y2 z Hctx' Hs') by lia.
    rewrite !zlen_app, <- !app_assoc, Z.add_assoc. reflexivity.
Qed.

(** ** Safety of the decoder *)

(** [m] stays in the buffer, and its result is at most [n]. *)
Definition stays (n : Z) (m : B Z) (mem : list byte) : Prop :=
  fst (m mem) <> Stuck /\ zlen (snd (m mem)) = zlen mem /\ forall r, fst (m mem) = Ok r -> 0 <= r <= n.

Lemma store_run off bs (mem : list byte) : 0 <= off -> off + zlen bs <= zlen mem ->
  exists mem', store off bs mem = (Ok tt, mem') /\ zlen mem' = zlen mem.
Proof.
  intros H1 H2. unfold store. destruct (Z.leb_spec 0 off); [|lia]. destruct (Z.leb_spec (off + zlen bs) (zlen mem)); [|lia].
  cbn [andb]. eexists. split; [reflexivity|]. apply zlen_splice; lia.
Qed.

Lemma decode_quad_stays out inn mem :
  4 <= zlen inn -> 0 <= out -> out + 3 <= zlen mem ->
  stays 3 (base64_decode_quad out inn) mem /\ forall r, fst (base64_decode_quad out inn mem) = Ok r -> 1 <= r.
Proof.
  intros H4 Ho Hm. unfold stays, base64_decode_quad. destruct (Z.leb_spec 4 (zlen inn)); [|lia]. cbn [negb]. cbv zeta.
  assert (F : forall r : Z, fst (@fail (list byte) Z mem) <> Stuck /\ zlen (snd (@fail (list byte) Z mem)) = zlen mem /\
            (fst (@fail (list byte) Z mem) = Ok r -> 1 <= r <= 3)).
  { intros r. split; [discriminate|]. split; [reflexivity | discriminate]. }
  assert (S1 : forall bs n, zlen bs = n -> 1 <= n <= 3 ->
            forall r, fst ((store out bs ;; ret n) mem) <> Stuck /\ zlen (snd ((store out bs ;; ret n) mem)) = zlen mem /\
              (fst ((store out bs ;; ret n) mem) = Ok r -> 1 <= r <= 3)).
  { intros bs n Hb Hn r. destruct (store_run out bs mem) as (mem' & E & L); [lia | lia|]. unfold bind. rewrite E.
    cbn. split; [discriminate|]. split; [exact L|]. intros [= <-]. exact Hn. }
  assert (K : forall m : B Z, (forall r, fst (m mem) <> Stuck /\ zlen (snd (m mem)) = zlen mem /\ (fst (m mem) = Ok r -> 1 <= r <= 3)) ->
            (fst (m mem) <> Stuck /\ zlen (snd (m mem)) = zlen mem /\ forall r, fst (m mem) = Ok r -> 0 <= r <= 3) /\
            forall r, fst (m mem) = Ok r -> 1 <= r).
  { intros m H1. pose proof (H1 0) as (G1 & G2 & _). split; [split; [exact G1 | split; [exact G2|]]|];
      intros r Hr; apply (H1 r) in Hr; lia. }
  apply K. destruct (_ || _); [apply F|]. destruct (_ =? 0); [apply (S1 _ 3); [reflexivity | lia]|].
  destruct (_ =? 1); [apply (S1 _ 2); [reflexivity | lia]|].
  destruct (_ =? 3); [apply (S1 _ 1); [reflexivity | lia] | apply F].
Qed.

Lemma decode_quads_stay fuel : forall inn out n mem,
  (length inn < fuel)%nat -> (4 | zlen inn) -> 0 <= out -> 0 <= n -> out + n + 3 * (zlen inn / 4) <= zlen mem ->
  stays (n + 3 * (zlen inn / 4)) (decode_quads fuel out inn n) mem.
Proof.
  induction fuel as [|fuel IH]; intros inn out n mem Hf Hd Ho Hn Hm; [lia|]. cbn [decode_quads]. pose proof (zlen_nonneg inn).
  destruct (Z.eqb_spec (zlen inn) 0) as [E|E].
  { split; [discriminate|]. split; [reflexivity|]. cbn [fst ret]. intros r [= <-]. rewrite E. change (0 / 4) with 0. lia. }
  destruct Hd as [k Hk]. rewrite Hk, Z.div_mul in * by lia.
  destruct (decode_quad_stays (out + n) inn mem) as [(Q1 & Q2 & Q3) Q4]; [lia | lia | lia|].
  unfold stays, bind. destruct (base64_decode_quad (out + n) inn mem) as [[r| |] mem1]; cbn in *;
    [| split; [discriminate|]; split; [exact Q2 | discriminate] | contradiction].
  specialize (Q3 r eq_refl). specialize (Q4 r eq_refl).
  destruct (negb (r =? 3) && _); [split; [discriminate|]; split; [exact Q2 | discriminate]|].
  assert (Hz : zlen (zdrop 4 inn) = (k - 1) * 4) by (rewrite zlen_zdrop by lia; lia).
  destruct (IH (zdrop 4 inn) out (n + r) mem1) as (I1 & I2 & I3); rewrite ?Hz, ?Z.div_mul by lia; try lia.
  { unfold zdrop. rewrite length_drop. unfold zlen in *. lia. }
  { exists (k - 1). reflexivity. }
  split; [exact I1|]. split; [lia|]. intros r' Hr. apply I3 in Hr. rewrite Hz, Z.div_mul in Hr by lia. lia.
Qed.

Lemma EVP_DecodeBase64_stays inn out max_out mem :
  0 <= out -> out + max_out <= zlen mem -> zlen inn < 2 ^ 64 ->
  stays (3 * (zlen inn / 4)) (EVP_DecodeBase64 out max_out inn) mem.
Proof.
  intros Ho Hm Hl. unfold EVP_DecodeBase64, EVP_DecodedLength. pose proof (zlen_nonneg inn).
  destruct (Z.eqb_spec (zlen inn mod 4) 0) as [E|E]; cbn [negb];
    [|split; [discriminate|]; split; [reflexivity | discriminate]].
  rewrite wrap_small by (unfold in_word; Z.div_mod_to_equations; lia).
  destruct (Z.ltb_spec max_out (zlen inn / 4 * 3)); [split; [discriminate|]; split; [reflexivity | discriminate]|].
  apply (decode_quads_stay (S (length inn)) inn out 0 mem); try lia. apply Z.mod_divide; lia.
Qed.

Lemma pad_nul_stays fuel dst n k mem :
  0 <= dst -> 0 <= n <= 3 * k -> dst + 3 * k <= zlen mem -> (- n) mod 3 < Z.of_nat fuel ->
  stays (3 * k) (pad_nul fuel dst n) mem.
Proof.
  revert n mem; induction fuel as [|fuel IH]; intros n mem Hd Hn Hm Hf.
  { exfalso. pose proof (Z.mod_pos_bound (- n) 3 ltac:(lia)). lia. }
  cbn [pad_nul]. destruct (Z.eqb_spec (n mod 3) 0) as [E|E]; cbn [negb].
  { split; [discriminate|]. split; [reflexivity|]. cbn. intros r [= <-]. lia. }
  assert (n + 1 <= 3 * k) by (Z.div_mod_to_equations; lia).
  unfold stays, bind. destruct (store_run (dst + n) [Byte.x00] mem) as (mem' & -> & L); [lia | change (zlen [Byte.x00]) with 1; lia|].
  rewrite <- L. apply IH; [lia | lia | lia |]. Z.div_mod_to_equations. lia.
Qed.

Lemma trim_le src : (length (rev (trim_right (rev (trim_left src)))) <= length src)%nat.
Proof.
  rewrite length_rev. assert (R : forall l, (length (trim_right l) <= length l)%nat).
  { induction l as [|c l IH]; cbn [trim_right length]; [lia|]. destruct (is_space c); cbn [length]; lia. }
  assert (L : (length (trim_left src) <= length src)%nat).
  { induction src as [|c l IH]; cbn [trim_left length]; [lia|]. destruct (negb _ && _); cbn [length]; lia. }
  pose proof (R (rev (trim_left src))). rewrite length_rev in *. lia.
Qed.

Lemma EVP_DecodeBlock_stays src dst mem :
  0 <= dst -> dst + 3 * (zlen src / 4) <= zlen mem -> zlen src < 2 ^ 64 ->
  stays (3 * (zlen src / 4)) (EVP_DecodeBlock dst src) mem.
Proof.
  intros Hd Hm Hl. unfold EVP_DecodeBlock, EVP_DecodedLength. pose proof (trim_le src) as Ht.
  set (t := rev _) in *. assert (Hz : 0 <= zlen t <= zlen src) by (unfold zlen; lia). clearbody t.
  assert (Hk : zlen t / 4 <= zlen src / 4) by (apply Z.div_le_mono; lia).
  destruct (Z.eqb_spec (zlen t mod 4) 0) as [E|E]; cbn [negb];
    [|split; [discriminate|]; split; [reflexivity | discriminate]].
  rewrite wrap_small by (unfold in_word; Z.div_mod_to_equations; lia).
  destruct (INT_MAX <? _); [split; [discriminate|]; split; [reflexivity | discriminate]|].
  destruct (EVP_DecodeBase64_stays t dst (zlen t / 4 * 3) mem) as (D1 & D2 & D3); [lia | lia | lia|].
  unfold stays, bind. destruct (EVP_DecodeBase64 dst (zlen t / 4 * 3) t mem) as [[r| |] mem1] eqn:Er; cbn in D1, D2, D3;
    [| split; [discriminate|]; split; [exact D2 | discriminate] | contradiction].
  specialize (D3 r eq_refl). rewrite <- D2. destruct (pad_nul_stays 3 dst r (zlen t / 4) mem1) as (P1 & P2 & P3); try lia.
  { pose proof (Z.mod_pos_bound (- r) 3 ltac:(lia)). lia. }
  split; [exact P1|]. split; [exact P2|]. intros r' Hr. apply P3 in Hr. lia.
Qed.

(** What every call on a decoding context keeps. *)
Definition decode_ctx (ctx : EVP_ENCODE_CTX) : Prop := zlen (data ctx) = 48 /\ 0 <= data_used ctx < 4.

Lemma decode_loop_stays inn : forall ctx out n mem,
  decode_ctx ctx -> 0 <= out -> 0 <= n -> out + n + 3 * ((data_used ctx + zlen inn) / 4) <= zlen mem ->
  exists ctx' r, fst (decode_loop ctx out inn n mem) = Ok (ctx', r) /\ zlen (snd (decode_loop ctx out inn n mem)) = zlen mem /\
    (r = None -> error_encountered ctx' = true) /\
    (forall k, r = Some k -> decode_ctx ctx' /\ 0 <= k <= n + 3 * ((data_used ctx + zlen inn) / 4)).
Proof.
  induction inn as [|c inn IH]; intros ctx out n mem (Hd & Hu) Ho Hn Hm; cbn [decode_loop].
  { exists ctx, (Some n). cbn. split; [reflexivity|]. split; [reflexivity|]. split; [discriminate|].
    intros k [= <-]. split; [split; assumption|]. split; [lia|]. change (zlen (@nil byte)) with 0. Z.div_mod_to_equations. lia. }
  rewrite zlen_cons in *. pose proof (zlen_nonneg inn).
  destruct (is_space c).
  { destruct (IH ctx out n mem) as (ctx' & r & H1 & H2 & H3 & H4); [split; assumption | lia | lia | Z.div_mod_to_equations; lia|].
    exists ctx', r. split; [exact H1|]. split; [exact H2|]. split; [exact H3|]. intros k Hk. destruct (H4 k Hk) as [H5 H6].
    split; [exact H5|]. Z.div_mod_to_equations. lia. }
  destruct (eof_seen ctx).
  { eexists _, None. cbn. split; [reflexivity|]. split; [reflexivity|]. split; [reflexivity | discriminate]. }
  destruct (Z.ltb_spec (data_used ctx) 48); [|lia]. cbn [negb]. cbv zeta. cbn [data_used data eof_seen error_encountered].
  assert (Hsp : zlen (splice (data ctx) (data_used ctx) [c]) = 48).
  { rewrite zlen_splice; [exact Hd | lia | change (zlen [c]) with 1; lia]. }
  set (data' := splice _ _ _) in *.
  destruct (Z.eqb_spec (data_used ctx + 1) 4) as [E|E].
  - assert (Hdiv : (data_used ctx + (1 + zlen inn)) / 4 = 1 + zlen inn / 4).
    { replace (data_used ctx + (1 + zlen inn)) with (zlen inn + 1 * 4) by lia. rewrite Z.div_add by lia. lia. }
    rewrite Hdiv in *. assert (0 <= zlen inn / 4) by (apply Z.div_pos; lia).
    destruct (decode_quad_stays (out + n) data' mem) as [(Q1 & Q2 & Q3) Q4]; [lia | lia | lia|].
    destruct (base64_decode_quad (out + n) data' mem) as [[r| |] mem1]; cbn in Q1, Q2, Q3; [| | contradiction].
    2: { eexists _, None. cbn. split; [reflexivity|]. split; [exact Q2|]. split; [reflexivity | discriminate]. }
    specialize (Q3 r eq_refl). set (ctx1 := mk_ctx 0 _ _ _).
    destruct (IH ctx1 out (n + r) mem1) as (ctx' & r' & G1 & H2 & H3 & H4); [split; [exact Hsp | cbn; lia] | lia | lia | cbn [data_used ctx1]; rewrite Z.add_0_l; lia|].
    exists ctx', r'. split; [exact G1|]. split; [lia|]. split; [exact H3|]. intros k Hk. destruct (H4 k Hk) as [H5 H6].
    split; [exact H5|]. cbn [data_used ctx1] in H6. rewrite Z.add_0_l in H6. lia.
  - set (ctx1 := mk_ctx _ _ _ _).
    replace (data_used ctx + (1 + zlen inn)) with (data_used ctx1 + zlen inn) in * by (cbn; lia).
    apply IH; [split; [exact Hsp | cbn; lia] | lia | lia | exact Hm].
Qed.

(** ** The properties *)

(** C34: with a destination of the length that [EVP_EncodedLength] computes,
    [EVP_EncodeBlock] writes the RFC 4648 encoding of its input and a NUL, fills
    the destination exactly, and leaves the bytes around it alone. *)
Theorem EVP_EncodeBlock_rfc4648 src n x y z :
  EVP_EncodedLength (zlen src) = Some n -> zlen src < 2 ^ 64 -> zlen y = n ->
  EVP_EncodeBlock (zlen x) src (x ++ y ++ z) = (Ok (n - 1), x ++ base64 src ++ [Byte.x00] ++ z).
Proof.
  intros Hn Hl Hy. pose proof (zlen_nonneg src). rewrite EVP_EncodedLength_spec in Hn by lia.
  pose proof (zlen_base64 src). destruct (Z.ltb_spec (4 * ((zlen src + 2) / 3) + 1) (2 ^ 64)); [|discriminate].
  injection Hn as <-. rewrite EVP_EncodeBlock_spec by lia. do 2 f_equal. lia.
Qed.

(** [EVP_DecodeBase64] inverts the encoding of any data, whatever the room
    behind it, and writes nothing else. *)
Theorem base64_roundtrip src max_out x y z :
  zlen y = zlen src -> zlen (base64 src) < 2 ^ 64 -> zlen (base64 src) / 4 * 3 <= max_out ->
  EVP_DecodeBase64 (zlen x) max_out (base64 src) (x ++ y ++ z) = (Ok (zlen src), x ++ src ++ z).
Proof.
  intros Hy Hl Hm. pose proof (zlen_nonneg (base64 src)). unfold EVP_DecodeBase64, EVP_DecodedLength.
  assert (Hmod : zlen (base64 src) mod 4 = 0) by (rewrite zlen_base64, Z.mul_comm; apply Z.mod_mul; lia).
  rewrite Hmod. cbn [Z.eqb negb]. rewrite wrap_small by (unfold in_word; Z.div_mod_to_equations; lia).
  destruct (Z.ltb_spec max_out (zlen (base64 src) / 4 * 3)); [lia|].
  apply (decode_quads_spec (S (length (base64 src))) src x [] y z (zlen x)); auto.
Qed.

(** C35: data encoded in pieces of any lengths gives the text of the whole: lines
    of 64 characters, each with its newline, and a shorter last one; without its
    white space the text is the RFC 4648 encoding. *)
Theorem streaming_encoder chunks x y z :
  let text := pem_text (concat chunks) in
  zlen y = zlen text + 1 -> zlen y <= INT_MAX ->
  (exists j, encode_chunks EVP_EncodeInit (zlen x) chunks (x ++ y ++ z) = (Ok (zlen x + zlen text), x ++ text ++ [j] ++ z)) /\
  strip text = base64 (concat chunks).
Proof.
  cbv zeta. intros Hy Hm. split; [|apply strip_pem_text].
  apply (encode_chunks_spec chunks EVP_EncodeInit [] x y z); auto. repeat split; reflexivity.
Qed.

(** C16: a text that is the RFC 4648 encoding of some data when its white space
    is taken out (spaces, tabulators, line feeds and carriage returns, anywhere
    in the text), given to the streaming decoder in pieces of any lengths, which
    may end inside a quad, decodes to that data, written into the room kept for
    it; the memory around is left alone. *)
Theorem streaming_decoder chunks src x y z :
  strip (concat chunks) = base64 src -> zlen y = zlen src -> zlen src <= INT_MAX ->
  decode_chunks EVP_DecodeInit (zlen x) chunks (x ++ y ++ z) = (Ok (zlen x + zlen src), x ++ src ++ z).
Proof.
  intros Hs. apply (decode_chunks_spec chunks EVP_DecodeInit []); [|exact Hs].
  repeat split; try reflexivity. discriminate.
Qed.

(** on any input, valid or not, the decoders stay inside an output buffer of
    three bytes for four characters, and report no more than that. *)
Theorem base64_decoders_safe inn out (mem : list byte) ctx :
  0 <= out -> out + 3 * (zlen inn / 4) <= zlen mem -> zlen inn < 2 ^ 64 ->
  stays (3 * (zlen inn / 4)) (EVP_DecodeBase64 out (3 * (zlen inn / 4)) inn) mem /\
  stays (3 * (zlen inn / 4)) (EVP_DecodeBlock out inn) mem /\
  (decode_ctx ctx -> out + 3 * ((data_used ctx + zlen inn) / 4) <= zlen mem ->
   exists ctx' r n, fst (EVP_DecodeUpdate ctx out inn mem) = Ok (ctx', r, n) /\
     zlen (snd (EVP_DecodeUpdate ctx out inn mem)) = zlen mem /\ 0 <= n <= 3 * ((data_used ctx + zlen inn) / 4) /\
     (r = -1 \/ decode_ctx ctx')).
Proof.
  intros Ho Hm Hl. split; [apply EVP_DecodeBase64_stays; lia|]. split; [apply EVP_DecodeBlock_stays; lia|].
  intros Hctx Hroom. assert (H0 : 0 <= (data_used ctx + zlen inn) / 4).
  { destruct Hctx as [_ Hu]. pose proof (zlen_nonneg inn). apply Z.div_pos; lia. }
  unfold EVP_DecodeUpdate. destruct (error_encountered ctx).
  { eexists _, (-1), 0. split; [reflexivity|]. split; [reflexivity|]. split; [lia | auto]. }
  destruct (decode_loop_stays inn ctx out 0 mem Hctx Ho ltac:(lia) ltac:(lia)) as (ctx' & r & H1 & H2 & _ & H4).
  unfold bind. destruct (decode_loop ctx out inn 0 mem) as [o mem1]. cbn in H1, H2. subst o.
  destruct r as [k|]; [|eexists _, (-1), 0; split; [reflexivity|]; split; [exact H2|]; split; [lia | auto]].
  destruct (H4 k eq_refl) as [Hc Hk]. destruct (INT_MAX <? k).
  - eexists _, (-1), 0. split; [reflexivity|]. split; [exact H2|]. split; [lia | auto].
  - eexists ctx', _, k. split; [reflexivity|]. split; [exact H2|]. split; [lia | auto].
Qed.

Definition sample : list byte := map b8 [77; 97; 110; 1; 2].

Lemma EVP_EncodeBlock_rfc4648_witness :
  EVP_EncodeBlock (zlen [b8 7]) sample ([b8 7] ++ zeros 9 ++ []) = (Ok (9 - 1), [b8 7] ++ base64 sample ++ [Byte.x00] ++ []).
Proof. apply (EVP_EncodeBlock_rfc4648 sample 9 [b8 7] (zeros 9) []); vm_compute; reflexivity. Defined.

Lemma base64_roundtrip_witness :
  EVP_DecodeBase64 (zlen [b8 7]) 6 (base64 sample) ([b8 7] ++ zeros 5 ++ [b8 9]) = (Ok (zlen sample), [b8 7] ++ sample ++ [b8 9]).
Proof. apply (base64_roundtrip sample 6 [b8 7] (zeros 5) [b8 9]); vm_compute; congruence. Defined.

Lemma streaming_encoder_witness :
  (exists j, encode_chunks EVP_EncodeInit (zlen (@nil byte)) [sample; zeros 50] ([] ++ zeros 79 ++ [])
     = (Ok (zlen (@nil byte) + zlen (pem_text (concat [sample; zeros 50]))), [] ++ pem_text (concat [sample; zeros 50]) ++ [j] ++ [])) /\
  strip (pem_text (concat [sample; zeros 50])) = base64 (concat [sample; zeros 50]).
Proof. apply (streaming_encoder [sample; zeros 50] [] (zeros 79) []); vm_compute; congruence. Defined.

Lemma streaming_decoder_witness :
  decode_chunks EVP_DecodeInit (zlen (@nil byte)) [map b8 [84; 87; 32; 70]; map b8 [117; 10; 65; 81; 73; 61; 10]] ([] ++ zeros 5 ++ [])
  = (Ok (zlen (@nil byte) + zlen sample), [] ++ sample ++ []).
Proof. apply (streaming_decoder _ sample [] (zeros 5) []); vm_compute; congruence. Defined.

Lemma base64_decoders_safe_witness :
  stays 6 (EVP_DecodeBase64 0 6 (base64 sample)) (zeros 6).
Proof.
  refine (proj1 (base64_decoders_safe (base64 sample) 0 (zeros 6) EVP_DecodeInit _ _ _)); vm_compute; congruence.
Defined.
