(* ===== verification/Bio.v ===== *)
(** I/O objects: ios/Pods/BoringSSL-GRPC/src/crypto/bio/bio.c and the reference
    counts of crypto/refcount_lock.c.  The BIOs live in a shared store and point
    to each other by address; a method table is a record of operations, so the
    generic layer is independent of the kind of BIO below it. *)
From Stdlib Require Import ZArith Lia Bool.
From coqutil Require Import Byte.
From stdpp Require Import base list numbers gmap.
From S2P Require Import Prelude Alloc.
Local Open Scope Z_scope.
Local Open Scope c_scope.

Notation addr := nat.

(** [struct bio_st] without [method], which is the table of the section below;
    [P] is what [ptr] points to, which the BIO owns. *)
Record BIO (P : Type) := mk_bio {
  init : bool; shutdown : Z; flags : Z; retry_reason : Z; num : Z; references : Z; ptr : option P;
  next_bio : option addr; num_read : Z; num_write : Z }.
Arguments mk_bio {P}.
Arguments init {P}. Arguments shutdown {P}. Arguments flags {P}. Arguments retry_reason {P}. Arguments num {P}.
Arguments references {P}. Arguments ptr {P}. Arguments next_bio {P}. Arguments num_read {P}. Arguments num_write {P}.

(** The heap and the BIOs that are allocated in it. *)
Record world (A P : Type) := mk_world { heap : A; bios : gmap addr (BIO P) }.
Arguments mk_world {A P}.
Arguments heap {A P}. Arguments bios {A P}.

Section setters.
Context {P : Type}.
Definition set_init (v : bool) (b : BIO P) : BIO P :=
  mk_bio v (shutdown b) (flags b) (retry_reason b) (num b) (references b) (ptr b) (next_bio b) (num_read b) (num_write b).
Definition set_shutdown (v : Z) (b : BIO P) : BIO P :=
  mk_bio (init b) v (flags b) (retry_reason b) (num b) (references b) (ptr b) (next_bio b) (num_read b) (num_write b).
Definition set_flags (f r : Z) (b : BIO P) : BIO P :=
  mk_bio (init b) (shutdown b) f r (num b) (references b) (ptr b) (next_bio b) (num_read b) (num_write b).
Definition set_references (v : Z) (b : BIO P) : BIO P :=
  mk_bio (init b) (shutdown b) (flags b) (retry_reason b) (num b) v (ptr b) (next_bio b) (num_read b) (num_write b).
Definition set_ptr (v : option P) (b : BIO P) : BIO P :=
  mk_bio (init b) (shutdown b) (flags b) (retry_reason b) (num b) (references b) v (next_bio b) (num_read b) (num_write b).
Definition set_next (v : option addr) (b : BIO P) : BIO P :=
  mk_bio (init b) (shutdown b) (flags b) (retry_reason b) (num b) (references b) (ptr b) v (num_read b) (num_write b).
Definition set_counts (r w : Z) (b : BIO P) : BIO P :=
  mk_bio (init b) (shutdown b) (flags b) (retry_reason b) (num b) (references b) (ptr b) (next_bio b) r w.
Definition set_num (v : Z) (b : BIO P) : BIO P :=
  mk_bio (init b) (shutdown b) (flags b) (retry_reason b) v (references b) (ptr b) (next_bio b) (num_read b) (num_write b).
End setters.

Section store.
Context {A P : Type} {AL : Allocator A}.
Notation W := (M (world A P)).

(** Accesses through a pointer; one to a BIO that was freed is undefined. *)
Definition load (b : addr) : W (BIO P) := fun w =>
  match bios w !! b with Some bio => (Ok bio, w) | None => (Stuck, w) end.
Definition update (b : addr) (f : BIO P -> BIO P) : W unit := fun w =>
  match bios w !! b with
  | Some bio => (Ok tt, mk_world (heap w) (<[b := f bio]> (bios w)))
  | None => (Stuck, w)
  end.

(** A block of [n] bytes, of which the caller keeps the contents. *)
Definition malloc (n : Z) : W (option (list byte)) := fun w =>
  let '(r, a) := OPENSSL_malloc (heap w) n in (Ok r, mk_world a (bios w)).

(** [OPENSSL_free] of a block of [n] bytes. *)
Definition release (n : Z) : W unit := fun w => (Ok tt, mk_world (OPENSSL_free (heap w) n) (bios w)).
(** A BIO is freed: nothing may use it any more. *)
Definition remove (n : Z) (bio : addr) : W unit := fun w =>
  (Ok tt, mk_world (OPENSSL_free (heap w) n) (delete bio (bios w))).

(** ** Flags *)

Definition BIO_FLAGS_READ : Z := 0x01.
Definition BIO_FLAGS_WRITE : Z := 0x02.
Definition BIO_FLAGS_IO_SPECIAL : Z := 0x04.
Definition BIO_FLAGS_RWS : Z := Z.lor (Z.lor BIO_FLAGS_READ BIO_FLAGS_WRITE) BIO_FLAGS_IO_SPECIAL.
Definition BIO_FLAGS_SHOULD_RETRY : Z := 0x08.
Definition kRetryFlags : Z := Z.lor BIO_FLAGS_RWS BIO_FLAGS_SHOULD_RETRY.

Definition BIO_set_flags (bio : addr) (f : Z) : W unit :=
  update bio (fun b => set_flags (Z.lor (flags b) f) (retry_reason b) b).
Definition BIO_test_flags (bio : addr) (f : Z) : W Z := b <- load bio ;; ret (Z.land (flags b) f).
Definition BIO_should_read (bio : addr) : W Z := BIO_test_flags bio BIO_FLAGS_READ.
Definition BIO_should_write (bio : addr) : W Z := BIO_test_flags bio BIO_FLAGS_WRITE.
Definition BIO_should_retry (bio : addr) : W Z := BIO_test_flags bio BIO_FLAGS_SHOULD_RETRY.
Definition BIO_should_io_special (bio : addr) : W Z := BIO_test_flags bio BIO_FLAGS_IO_SPECIAL.
Definition BIO_get_retry_reason (bio : addr) : W Z := b <- load bio ;; ret (retry_reason b).
Definition BIO_set_retry_reason (bio : addr) (reason : Z) : W unit :=
  update bio (fun b => set_flags (flags b) reason b).
Definition BIO_clear_flags (bio : addr) (f : Z) : W unit :=
  update bio (fun b => set_flags (Z.land (flags b) (Z.lnot f)) (retry_reason b) b).
Definition BIO_set_retry_read (bio : addr) : W unit :=
  update bio (fun b => set_flags (Z.lor (flags b) (Z.lor BIO_FLAGS_READ BIO_FLAGS_SHOULD_RETRY)) (retry_reason b) b).
Definition BIO_set_retry_write (bio : addr) : W unit :=
  update bio (fun b => set_flags (Z.lor (flags b) (Z.lor BIO_FLAGS_WRITE BIO_FLAGS_SHOULD_RETRY)) (retry_reason b) b).
Definition BIO_set_retry_special (bio : addr) : W unit :=
  update bio (fun b => set_flags (Z.lor (flags b) (Z.lor BIO_FLAGS_READ BIO_FLAGS_IO_SPECIAL)) (retry_reason b) b).
Definition BIO_get_retry_flags (bio : addr) : W Z := b <- load bio ;; ret (Z.land (flags b) kRetryFlags).
Definition BIO_clear_retry_flags (bio : addr) : W unit :=
  update bio (fun b => set_flags (Z.land (flags b) (Z.lnot kRetryFlags)) 0 b).

Definition BIO_copy_next_retry (bio : addr) : W unit :=
  BIO_clear_retry_flags bio ;;
  b <- load bio ;;
  match next_bio b with
  | None => stuck
  | Some next =>
      f <- BIO_get_retry_flags next ;;
      BIO_set_flags bio f ;;
      n <- load next ;;
      BIO_set_retry_reason bio (retry_reason n)
  end.

(** ** What only one kind of BIO knows *)

(** [init] is an [int] that everything only tests. *)
Definition BIO_set_data (bio : addr) (p : option P) : W unit := update bio (set_ptr p).
Definition BIO_get_data (bio : addr) : W (option P) := b <- load bio ;; ret (ptr b).
Definition BIO_set_init (bio : addr) (v : bool) : W unit := update bio (set_init v).
Definition BIO_get_init (bio : addr) : W bool := b <- load bio ;; ret (init b).
Definition BIO_set_shutdown (bio : addr) (v : Z) : W unit := update bio (set_shutdown v).
Definition BIO_get_shutdown (bio : addr) : W Z := b <- load bio ;; ret (shutdown b).
Definition BIO_set_write_buffer_size (bio : addr) (buffer_size : Z) : Z := 0.

(** ** Reference counts: [abort] is [Stuck] *)

Definition CRYPTO_REFCOUNT_MAX : Z := 0xffffffff.

Definition CRYPTO_refcount_inc (count : Z) : Z := if count <? CRYPTO_REFCOUNT_MAX then count + 1 else count.

(** The new count and whether it is zero. *)
Definition CRYPTO_refcount_dec_and_test_zero (count : Z) : option (Z * bool) :=
  if count =? 0 then None else
  let count := if count <? CRYPTO_REFCOUNT_MAX then count - 1 else count in
  Some (count, count =? 0).

Definition BIO_up_ref (bio : addr) : W unit :=
  update bio (fun b => set_references (CRYPTO_refcount_inc (references b)) b).

(** ** Chains *)

Definition BIO_next (bio : option addr) : W (option addr) :=
  match bio with None => ret None | Some bio => b <- load bio ;; ret (next_bio b) end.

Definition BIO_pop (bio : option addr) : W (option addr) :=
  match bio with
  | None => ret None
  | Some bio => b <- load bio ;; update bio (set_next None) ;; ret (next_bio b)
  end.

(** The last BIO of a chain; a chain that comes back to itself has none. *)
Fixpoint last_bio (fuel : nat) (bio : addr) : W addr :=
  match fuel with
  | O => stuck
  | S fuel =>
      b <- load bio ;;
      match next_bio b with None => ret bio | Some next => last_bio fuel next end
  end.

Definition BIO_push (bio appended_bio : option addr) : W (option addr) :=
  match bio with
  | None => ret None
  | Some b =>
      w <- get ;;
      last <- last_bio (S (size (bios w))) b ;;
      update last (set_next appended_bio) ;;
      ret bio
  end.
End store.

(** ** The method table and the operations that go through it *)

(** [struct bio_method_st].  A buffer that is read into is given by its size
    and the bytes that were stored in it are returned; a buffer that is written
    is [None] when it is NULL. *)
Record BIO_METHOD (A P : Type) := mk_method {
  type : Z;
  bwrite : option (addr -> option (list byte) -> Z -> M (world A P) Z);
  bread : option (addr -> bool -> Z -> M (world A P) (Z * list byte));
  bgets : option (addr -> Z -> M (world A P) (Z * list byte));
  ctrl : option (addr -> Z -> Z -> option addr -> M (world A P) Z);
  create : option (addr -> M (world A P) bool);
  destroy : option (addr -> M (world A P) unit) }.
Arguments mk_method {A P}.
Arguments type {A P}. Arguments bwrite {A P}. Arguments bread {A P}. Arguments bgets {A P}. Arguments ctrl {A P}. Arguments create {A P}. Arguments destroy {A P}.

(** ** Tables of other kinds of BIOs *)

Section methods.
Context {A P : Type} {AL : Allocator A}.
Notation T := (BIO_METHOD A P).

Definition sizeof_BIO_METHOD : Z := 80.

Definition BIO_meth_new (type_ : Z) : M (world A P) (option T) :=
  r <- malloc sizeof_BIO_METHOD ;;
  ret (match r with None => None | Some _ => Some (mk_method type_ None None None None None None) end).
Definition BIO_meth_free (m : option T) : M (world A P) unit :=
  match m with None => ret tt | Some _ => release sizeof_BIO_METHOD end.
Definition BIO_meth_set_create (m : T) (f : option (addr -> M (world A P) bool)) : T :=
  mk_method (type m) (bwrite m) (bread m) (bgets m) (ctrl m) f (destroy m).
Definition BIO_meth_set_destroy (m : T) (f : option (addr -> M (world A P) unit)) : T :=
  mk_method (type m) (bwrite m) (bread m) (bgets m) (ctrl m) (create m) f.
Definition BIO_meth_set_write (m : T) (f : option (addr -> option (list byte) -> Z -> M (world A P) Z)) : T :=
  mk_method (type m) f (bread m) (bgets m) (ctrl m) (create m) (destroy m).
Definition BIO_meth_set_read (m : T) (f : option (addr -> bool -> Z -> M (world A P) (Z * list byte))) : T :=
  mk_method (type m) (bwrite m) f (bgets m) (ctrl m) (create m) (destroy m).
Definition BIO_meth_set_gets (m : T) (f : option (addr -> Z -> M (world A P) (Z * list byte))) : T :=
  mk_method (type m) (bwrite m) (bread m) f (ctrl m) (create m) (destroy m).
Definition BIO_meth_set_ctrl (m : T) (f : option (addr -> Z -> Z -> option addr -> M (world A P) Z)) : T :=
  mk_method (type m) (bwrite m) (bread m) (bgets m) f (create m) (destroy m).
End methods.

(** [g_index], which the lock protects; a type above 255 would be taken for flags. *)
Definition BIO_TYPE_START : Z := 128.
Definition BIO_get_new_index : M Z Z := fun g_index =>
  if 255 <? g_index then (Ok (-1), g_index) else (Ok g_index, g_index + 1).

Section operations.
Context {A P : Type} {AL : Allocator A} (method : BIO_METHOD A P).
Notation W := (M (world A P)).

Definition sizeof_BIO : Z := 64.

Definition BIO_new : W (option addr) :=
  r <- malloc sizeof_BIO ;;
  match r with
  | None => ret None
  | Some _ => fun w =>
      let bio := fresh (dom (bios w)) in
      let w1 := mk_world (heap w) (<[bio := mk_bio false 1 0 0 0 1 None None 0 0]> (bios w)) in
      match create method with
      | None => (Ok (Some bio), w1)
      | Some create =>
          (ok <- create bio ;;
           if ok then ret (Some bio)
           else remove sizeof_BIO bio ;; ret None) w1
      end
  end.

Fixpoint free_loop (fuel : nat) (bio : option addr) : W bool :=
  match fuel with
  | O => stuck
  | S fuel =>
      match bio with
      | None => ret true
      | Some bio =>
          b <- load bio ;;
          match CRYPTO_refcount_dec_and_test_zero (references b) with
          | None => stuck
          | Some (count, zero) =>
              update bio (set_references count) ;;
              if negb zero then ret false else
              next_bio <- BIO_pop (Some bio) ;;
              (match destroy method with Some destroy => destroy bio | None => ret tt end) ;;
              remove sizeof_BIO bio ;;
              free_loop fuel next_bio
          end
      end
  end.

Definition BIO_free (bio : option addr) : W bool := w <- get ;; free_loop (S (size (bios w))) bio.
Definition BIO_vfree (bio : option addr) : W unit := BIO_free bio ;; ret tt.
Definition BIO_free_all (bio : option addr) : W unit := BIO_free bio ;; ret tt.

Definition BIO_read (bio : option addr) (buf : bool) (len : Z) : W (Z * list byte) :=
  match bio, bread method with
  | Some bio, Some bread =>
      b <- load bio ;;
      if negb (init b) then ret (-2, []) else
      if len <=? 0 then ret (0, []) else
      '(r, data) <- bread bio buf len ;;
      (if 0 <? r then update bio (fun b => set_counts (u64 (num_read b + r)) (num_write b) b) else ret tt) ;;
      ret (r, data)
  | _, _ => ret (-2, [])
  end.

(** The bytes that were stored include the NUL. *)
Definition BIO_gets (bio : option addr) (len : Z) : W (Z * list byte) :=
  match bio, bgets method with
  | Some bio, Some bgets =>
      b <- load bio ;;
      if negb (init b) then ret (-2, []) else
      if len <=? 0 then ret (0, []) else
      '(r, data) <- bgets bio len ;;
      (if 0 <? r then update bio (fun b => set_counts (u64 (num_read b + r)) (num_write b) b) else ret tt) ;;
      ret (r, data)
  | _, _ => ret (-2, [])
  end.

Definition BIO_write (bio : option addr) (inn : option (list byte)) (inl : Z) : W Z :=
  match bio, bwrite method with
  | Some bio, Some bwrite =>
      b <- load bio ;;
      if negb (init b) then ret (-2) else
      if inl <=? 0 then ret 0 else
      r <- bwrite bio inn inl ;;
      (if 0 <? r then update bio (fun b => set_counts (num_read b) (u64 (num_write b + r)) b) else ret tt) ;;
      ret r
  | _, _ => ret (-2)
  end.

Fixpoint write_all_loop (fuel : nat) (bio : option addr) (data : list byte) : W bool :=
  match fuel with
  | O => stuck
  | S fuel =>
      if 0 <? zlen data then
        r <- BIO_write bio (Some data) (if INT_MAX <? zlen data then INT_MAX else zlen data) ;;
        if r <=? 0 then ret false else write_all_loop fuel bio (zdrop r data)
      else ret true
  end.

Definition BIO_write_all (bio : option addr) (data : list byte) : W bool :=
  write_all_loop (S (length data)) bio data.

(** A string without its NUL. *)
Definition BIO_puts (bio : option addr) (inn : list byte) : W Z := BIO_write bio (Some inn) (sext 32 (zlen inn)).

Definition BIO_ctrl (bio : option addr) (cmd larg : Z) (parg : option addr) : W Z :=
  match bio with
  | None => ret 0
  | Some bio => match ctrl method with None => ret (-2) | Some ctrl => ctrl bio cmd larg parg end
  end.

Definition BIO_CTRL_RESET : Z := 1.
Definition BIO_CTRL_EOF : Z := 2.
Definition BIO_CTRL_GET_CLOSE : Z := 8.
Definition BIO_CTRL_SET_CLOSE : Z := 9.
Definition BIO_CTRL_PENDING : Z := 10.
Definition BIO_CTRL_FLUSH : Z := 11.
Definition BIO_CTRL_WPENDING : Z := 13.

(** The conversion of a [long] to the [int] that is returned. *)
Definition as_int (c : W Z) : W Z := r <- c ;; ret (sext 32 r).

Definition BIO_flush (bio : option addr) : W Z := as_int (BIO_ctrl bio BIO_CTRL_FLUSH 0 None).
Definition BIO_reset (bio : option addr) : W Z := as_int (BIO_ctrl bio BIO_CTRL_RESET 0 None).
Definition BIO_eof (bio : option addr) : W Z := as_int (BIO_ctrl bio BIO_CTRL_EOF 0 None).

(** The assertion is [Stuck]. *)
Definition BIO_pending (bio : option addr) : W Z :=
  r <- BIO_ctrl bio BIO_CTRL_PENDING 0 None ;; if r <? 0 then stuck else ret r.
Definition BIO_ctrl_pending (bio : option addr) : W Z := BIO_pending bio.
Definition BIO_wpending (bio : option addr) : W Z :=
  r <- BIO_ctrl bio BIO_CTRL_WPENDING 0 None ;; if r <? 0 then stuck else ret r.
Definition BIO_set_close (bio : option addr) (close_flag : Z) : W Z :=
  as_int (BIO_ctrl bio BIO_CTRL_SET_CLOSE close_flag None).

Definition BIO_number_read (bio : addr) : W Z := b <- load bio ;; ret (num_read b).
Definition BIO_number_written (bio : addr) : W Z := b <- load bio ;; ret (num_write b).

Definition BIO_method_type (bio : addr) : W Z := load bio ;; ret (type method).

(** The BIOs of a chain have one table here. *)
Fixpoint find_type_loop (fuel : nat) (bio : addr) (mask type_ : Z) : W (option addr) :=
  match fuel with
  | O => stuck
  | S fuel =>
      b <- load bio ;;
      let method_type := type method in
      if (if mask =? 0 then negb (Z.land method_type type_ =? 0) else method_type =? type_) then ret (Some bio) else
      match next_bio b with None => ret None | Some next => find_type_loop fuel next mask type_ end
  end.

Definition BIO_find_type (bio : option addr) (type_ : Z) : W (option addr) :=
  match bio with
  | None => ret None
  | Some b =>
      w <- get ;;
      find_type_loop (S (size (bios w))) b (Z.land type_ 0xff) type_
  end.

Fixpoint indent_loop (n : nat) (bio : option addr) : W bool :=
  match n with
  | O => ret true
  | S n => r <- BIO_puts bio [Byte.x20] ;; if negb (r =? 1) then ret false else indent_loop n bio
  end.

Definition BIO_indent (bio : option addr) (indent max_indent : Z) : W bool :=
  let indent := if max_indent <? indent then max_indent else indent in indent_loop (Z.to_nat indent) bio.

(** ** Reading everything, or one ASN.1 element *)

Definition realloc (old : list byte) (n : Z) : W (option (list byte)) := fun w =>
  let '(r, a) := OPENSSL_realloc (heap w) old n in (Ok r, mk_world a (bios w)).

Definition kChunkSize : Z := 4096.

(** The loop of [bio_read_all], with the block [out] of [len] bytes; a read past
    its end, or from before its start, is undefined. *)
Fixpoint read_all_loop (fuel : nat) (bio : option addr) (out : list byte) (len done max_len : Z) : W (option (list byte * Z)) :=
  match fuel with
  | O => stuck
  | S fuel =>
      if done =? len then release (zlen out) ;; ret None else
      let todo := u64 (len - done) in
      if INT_MAX <=? todo then stuck else
      if len <? done then stuck else
      '(n, data) <- BIO_read bio true todo ;;
      if todo <? zlen data then stuck else
      let out := splice out done data in
      if n =? 0 then ret (Some (out, done)) else
      if n =? -1 then release (zlen out) ;; ret None else
      let done := u64 (done + n) in
      if (len <? max_len) && (u64 (len - done) <? kChunkSize / 2) then
        let len := u64 (len + kChunkSize) in
        let len := if (len <? kChunkSize) || (max_len <? len) then max_len else len in
        new_buf <- realloc out len ;;
        match new_buf with
        | None => release (zlen out) ;; ret None
        | Some out => read_all_loop fuel bio out len done max_len
        end
      else read_all_loop fuel bio out len done max_len
  end.

(** [*out] and [*out_len] *)
Definition bio_read_all (fuel : nat) (bio : option addr) (prefix : list byte) (max_len : Z) : W (option (list byte * Z)) :=
  let len := u64 (zlen prefix + kChunkSize) in
  let len := if max_len <? len then max_len else len in
  if len <? zlen prefix then ret None else
  out <- malloc len ;;
  match out with
  | None => ret None
  | Some out => read_all_loop fuel bio (splice out 0 prefix) len (zlen prefix) max_len
  end.

(** The [len] bytes that were read, or [*out_eof_on_first_read].  A method that
    returns a positive number has to store as many bytes. *)
Fixpoint read_full_loop (fuel : nat) (bio : option addr) (first_read : bool) (len : Z) : W (list byte + bool) :=
  match fuel with
  | O => stuck
  | S fuel =>
      if 0 <? len then
        let todo := if len <=? INT_MAX then len else INT_MAX in
        '(r, data) <- BIO_read bio true todo ;;
        if todo <? zlen data then stuck else
        if r <=? 0 then ret (inr (first_read && (r =? 0))) else
        if negb (r =? zlen data) then stuck else
        rest <- read_full_loop fuel bio false (u64 (len - r)) ;;
        ret (match rest with inl rest => inl (data ++ rest) | inr eof => inr eof end)
      else ret (inl [])
  end.

(** Every turn but the last one reads a byte. *)
Definition bio_read_full (bio : option addr) (len : Z) : W (list byte + bool) := read_full_loop (S (Z.to_nat len)) bio true len.

(** The contents of an element, after its header: [*out] and [*out_len]. *)
Definition read_element (bio : option addr) (header : list byte) (len max_len : Z) : W (option (list byte * Z)) :=
  let header_len := zlen header in
  if (u64 (len + header_len) <? len) || (max_len <? u64 (len + header_len)) || (INT_MAX <? len) then ret None else
  let len := u64 (len + header_len) in
  out <- malloc len ;;
  match out with
  | None => ret None
  | Some out =>
      let out := splice out 0 header in
      rest <- bio_read_full bio (u64 (len - header_len)) ;;
      match rest with
      | inl rest => ret (Some (splice out header_len rest, len))
      | inr _ => release (zlen out) ;; ret None
      end
  end.

(** The block of an element of indefinite length may be larger than [*out_len]. *)
Definition BIO_read_asn1 (fuel : nat) (bio : option addr) (max_len : Z) : W (option (list byte * Z)) :=
  header <- bio_read_full bio 2 ;;
  match header with
  | inl (tag :: length_byte :: _) =>
      if Z.land (u8 tag) 0x1f =? 0x1f then ret None else
      let num_bytes := Z.land (u8 length_byte) 0x7f in
      if Z.land (u8 length_byte) 0x80 =? 0 then read_element bio [tag; length_byte] (u8 length_byte) max_len else
      if negb (Z.land (u8 tag) 0x20 =? 0) && (num_bytes =? 0) then bio_read_all fuel bio [tag; length_byte] max_len else
      if (num_bytes =? 0) || (4 <? num_bytes) then ret None else
      more <- bio_read_full bio num_bytes ;;
      match more with
      | inl more =>
          let len32 := foldl (fun len32 b => Z.lor (u32 (Z.shiftl len32 8)) (u8 b)) 0 more in
          if len32 <? 128 then ret None else
          if Z.shiftr len32 ((num_bytes - 1) * 8) =? 0 then ret None else
          read_element bio (tag :: length_byte :: more) len32 max_len
      | inr _ => ret None
      end
  | _ => ret None
  end.
End operations.
