(* ===== verification/BioPair.v ===== *)
(** Pairs of BIOs, the loopback that a TLS connection is driven through:
    ios/Pods/BoringSSL-GRPC/src/crypto/bio/pair.c.  What one end writes goes to
    its ring buffer, from which the other end reads. *)
From Stdlib Require Import ZArith Lia Bool.
From coqutil Require Import Byte.
From stdpp Require Import base list numbers gmap.
From S2P Require Import Prelude Alloc Bio.
Local Open Scope Z_scope.
Local Open Scope c_scope.

Record bio_bio_st := mk_end {
  peer : option addr; closed : bool; len : Z; offset : Z; size : Z; buf : option (list byte); request : Z }.

Definition set_ring (b : bio_bio_st) (len' offset' : Z) (buf' : option (list byte)) : bio_bio_st :=
  mk_end (peer b) (closed b) len' offset' (size b) buf' (request b).
Definition set_peer (b : bio_bio_st) (p : option addr) : bio_bio_st :=
  mk_end p (closed b) (len b) (offset b) (size b) (buf b) (request b).
Definition set_request (b : bio_bio_st) (r : Z) : bio_bio_st :=
  mk_end (peer b) (closed b) (len b) (offset b) (size b) (buf b) r.
Definition set_closed (b : bio_bio_st) (c : bool) : bio_bio_st :=
  mk_end (peer b) c (len b) (offset b) (size b) (buf b) (request b).

Section pair.
Context {A : Type} {AL : Allocator A}.
Notation W := (M (world A bio_bio_st)).

(** [bio->ptr], which is not NULL. *)
Definition load_end (bio : addr) : W bio_bio_st :=
  b <- load bio ;; match ptr b with Some e => ret e | None => stuck end.
Definition store_end (bio : addr) (e : bio_bio_st) : W unit := update bio (set_ptr (Some e)).
Definition assert (b : bool) : W unit := if b then ret tt else stuck.

Definition sizeof_bio_bio_st : Z := 56.

Definition bio_new (bio : addr) : W bool :=
  r <- malloc sizeof_bio_bio_st ;;
  match r with
  | None => ret false
  | Some _ => store_end bio (mk_end None false 0 0 (17 * 1024) None 0) ;; ret true
  end.

Definition bio_destroy_pair (bio : addr) : W unit :=
  bb <- load bio ;;
  match ptr bb with
  | None => ret tt
  | Some b =>
      match peer b with
      | None => ret tt
      | Some peer_bio =>
          peer_b <- load_end peer_bio ;;
          assert (bool_decide (peer peer_b = Some bio)) ;;
          assert (bool_decide (is_Some (buf peer_b))) ;;
          store_end peer_bio (set_ring (set_peer peer_b None) 0 0 (buf peer_b)) ;;
          update peer_bio (set_init false) ;;
          b <- load_end bio ;;
          assert (bool_decide (is_Some (buf b))) ;;
          store_end bio (set_ring (set_peer b None) 0 0 (buf b)) ;;
          update bio (set_init false)
      end
  end.

Definition bio_free (bio : addr) : W unit :=
  b <- load_end bio ;;
  (match peer b with Some _ => bio_destroy_pair bio | None => ret tt end) ;;
  b <- load_end bio ;;
  (match buf b with Some data => release (zlen data) | None => ret tt end) ;;
  release sizeof_bio_bio_st ;;
  update bio (set_ptr None).

(** The bytes of [buf] from [off] on. *)
Definition copy_out (e : bio_bio_st) (off n : Z) : W (list byte) :=
  match buf e with
  | Some data => if (0 <=? n) && (off + n <=? zlen data) then ret (ztake n (zdrop off data)) else stuck
  | None => stuck
  end.

(** The copying loop of [bio_read], with [peer_b] behind [p]: the bytes that
    were stored in the caller's buffer. *)
Fixpoint read_loop (fuel : nat) (p : addr) (rest : Z) : W (list byte) :=
  match fuel with
  | O => stuck
  | S fuel =>
      peer_b <- load_end p ;;
      assert (rest <=? len peer_b) ;;
      let chunk := if u64 (offset peer_b + rest) <=? size peer_b then rest else u64 (size peer_b - offset peer_b) in
      assert (u64 (offset peer_b + chunk) <=? size peer_b) ;;
      data <- copy_out peer_b (offset peer_b) chunk ;;
      let len' := u64 (len peer_b - chunk) in
      (if negb (len' =? 0) then
         let offset' := u64 (offset peer_b + chunk) in
         assert (offset' <=? size peer_b) ;;
         store_end p (set_ring peer_b len' (if offset' =? size peer_b then 0 else offset') (buf peer_b))
       else
         assert (chunk =? rest) ;;
         store_end p (set_ring peer_b len' 0 (buf peer_b))) ;;
      let rest := u64 (rest - chunk) in
      if rest =? 0 then ret data else
      data' <- read_loop fuel p rest ;;
      ret (data ++ data')
  end.

(** The result and what was stored in [buf]; one or two turns of the loop. *)
Definition bio_read (bio : addr) (buf_ok : bool) (size_ : Z) : W (Z * list byte) :=
  BIO_clear_retry_flags bio ;;
  bb <- load bio ;;
  if negb (init bb) then ret (0, []) else
  b <- load_end bio ;;
  match peer b with
  | None => stuck
  | Some p =>
      peer_b <- load_end p ;;
      assert (bool_decide (is_Some (buf peer_b))) ;;
      let sz := u64 size_ in
      store_end p (set_request peer_b 0) ;;
      peer_b <- load_end p ;;
      if negb buf_ok || (sz =? 0) then ret (0, []) else
      if len peer_b =? 0 then
        if closed peer_b then ret (0, []) else
        BIO_set_retry_read bio ;;
        store_end p (set_request peer_b (if sz <=? size peer_b then sz else size peer_b)) ;;
        ret (-1, [])
      else
        let sz := if len peer_b <? sz then len peer_b else sz in
        assert (0 <? sz) ;;
        data <- read_loop 2 p sz ;;
        ret (sext 32 sz, data)
  end.

(** The copying loop of [bio_write]. *)
Fixpoint write_loop (fuel : nat) (bio : addr) (data : list byte) (rest : Z) : W unit :=
  match fuel with
  | O => stuck
  | S fuel =>
      b <- load_end bio ;;
      assert (u64 (len b + rest) <=? size b) ;;
      let write_offset := u64 (offset b + len b) in
      let write_offset := if size b <=? write_offset then u64 (write_offset - size b) else write_offset in
      let chunk := if u64 (write_offset + rest) <=? size b then rest else u64 (size b - write_offset) in
      match buf b with
      | None => stuck
      | Some mem =>
          if negb ((chunk <=? zlen data) && (write_offset + chunk <=? zlen mem)) then stuck else
          let mem := splice mem write_offset (ztake chunk data) in
          let len' := u64 (len b + chunk) in
          assert (len' <=? size b) ;;
          store_end bio (set_ring b len' (offset b) (Some mem)) ;;
          let rest := u64 (rest - chunk) in
          if rest =? 0 then ret tt else write_loop fuel bio (zdrop chunk data) rest
      end
  end.

Definition bio_write (bio : addr) (buf_ : option (list byte)) (num_ : Z) : W Z :=
  BIO_clear_retry_flags bio ;;
  bb <- load bio ;;
  let num := u64 num_ in
  match buf_ with
  | None => ret 0
  | Some data =>
      if negb (init bb) || (num =? 0) then ret 0 else
      b <- load_end bio ;;
      assert (bool_decide (is_Some (peer b))) ;;
      assert (bool_decide (is_Some (buf b))) ;;
      store_end bio (set_request b 0) ;;
      b <- load_end bio ;;
      if closed b then ret (-1) else
      assert (len b <=? size b) ;;
      if len b =? size b then BIO_set_retry_write bio ;; ret (-1) else
      let num := if u64 (size b - len b) <? num then u64 (size b - len b) else num in
      assert (0 <? num) ;;
      write_loop 2 bio data num ;;
      ret (sext 32 num)
  end.

(** The allocation of the buffer of one end. *)
Definition make_buffer (bio : addr) (writebuf_len : Z) : W bool :=
  b <- load_end bio ;;
  match buf b with
  | Some _ => ret true
  | None =>
      let size' := if negb (writebuf_len =? 0) then writebuf_len else size b in
      r <- malloc size' ;;
      let b := mk_end (peer b) (closed b) (len b) (offset b) size' (buf b) (request b) in
      match r with
      | None => store_end bio b ;; ret false
      | Some mem => store_end bio (set_ring b 0 0 (Some mem)) ;; ret true
      end
  end.

Definition bio_make_pair (bio1 bio2 : addr) (writebuf1_len writebuf2_len : Z) : W bool :=
  b1 <- load_end bio1 ;;
  b2 <- load_end bio2 ;;
  if bool_decide (is_Some (peer b1)) || bool_decide (is_Some (peer b2)) then ret false else
  ok <- make_buffer bio1 writebuf1_len ;;
  if negb ok then ret false else
  ok <- make_buffer bio2 writebuf2_len ;;
  if negb ok then ret false else
  b1 <- load_end bio1 ;;
  store_end bio1 (set_request (set_closed (set_peer b1 (Some bio2)) false) 0) ;;
  b2 <- load_end bio2 ;;
  store_end bio2 (set_request (set_closed (set_peer b2 (Some bio1)) false) 0) ;;
  update bio1 (set_init true) ;;
  update bio2 (set_init true) ;;
  ret true.

Definition BIO_C_GET_WRITE_BUF_SIZE : Z := 137.
Definition BIO_C_GET_WRITE_GUARANTEE : Z := 140.
Definition BIO_C_GET_READ_REQUEST : Z := 141.
Definition BIO_C_SHUTDOWN_WR : Z := 142.
Definition BIO_C_RESET_READ_REQUEST : Z := 147.

Notation long z := (sext 64 z).

Definition bio_ctrl (bio : addr) (cmd num : Z) (arg : option addr) : W Z :=
  bb <- load bio ;;
  b <- load_end bio ;;
  if cmd =? BIO_C_GET_WRITE_BUF_SIZE then ret (long (size b)) else
  if cmd =? BIO_C_GET_WRITE_GUARANTEE then
    ret (if negb (bool_decide (is_Some (peer b))) || closed b then 0 else long (size b - len b)) else
  if cmd =? BIO_C_GET_READ_REQUEST then ret (long (request b)) else
  if cmd =? BIO_C_RESET_READ_REQUEST then store_end bio (set_request b 0) ;; ret 1 else
  if cmd =? BIO_C_SHUTDOWN_WR then store_end bio (set_closed b true) ;; ret 1 else
  if cmd =? BIO_CTRL_GET_CLOSE then ret (shutdown bb) else
  if cmd =? BIO_CTRL_SET_CLOSE then update bio (set_shutdown (sext 32 num)) ;; ret 1 else
  if cmd =? BIO_CTRL_PENDING then
    match peer b with
    | Some p => peer_b <- load_end p ;; ret (long (len peer_b))
    | None => ret 0
    end else
  if cmd =? BIO_CTRL_WPENDING then ret (if bool_decide (is_Some (buf b)) then long (len b) else 0) else
  if cmd =? BIO_CTRL_FLUSH then ret 1 else
  if cmd =? BIO_CTRL_EOF then
    match arg with
    | Some other_bio => other_b <- load_end other_bio ;; ret (if (len other_b =? 0) && closed other_b then 1 else 0)
    | None => ret 1
    end
  else ret 0.

Definition BIO_TYPE_BIO : Z := Z.lor 19 0x0400.
Definition methods_biop : BIO_METHOD A bio_bio_st :=
  mk_method BIO_TYPE_BIO (Some bio_write) (Some bio_read) None (Some bio_ctrl) (Some bio_new) (Some bio_free).

(** [*bio1_p] and [*bio2_p]. *)
Definition BIO_new_bio_pair (writebuf1_len writebuf2_len : Z) : W (option (addr * addr)) :=
  bio1 <- BIO_new methods_biop ;;
  bio2 <- BIO_new methods_biop ;;
  let cleanup := BIO_free methods_biop bio1 ;; BIO_free methods_biop bio2 ;; ret None in
  match bio1, bio2 with
  | Some b1, Some b2 =>
      ok <- bio_make_pair b1 b2 writebuf1_len writebuf2_len ;;
      if ok then ret (Some (b1, b2)) else cleanup
  | _, _ => cleanup
  end.

Definition BIO_ctrl_get_read_request (bio : option addr) : W Z :=
  r <- BIO_ctrl methods_biop bio BIO_C_GET_READ_REQUEST 0 None ;; ret (u64 r).
Definition BIO_ctrl_get_write_guarantee (bio : option addr) : W Z :=
  r <- BIO_ctrl methods_biop bio BIO_C_GET_WRITE_GUARANTEE 0 None ;; ret (u64 r).
Definition BIO_shutdown_wr (bio : option addr) : W Z :=
  r <- BIO_ctrl methods_biop bio BIO_C_SHUTDOWN_WR 0 None ;; ret (sext 32 r).
End pair.

(** ** The ring *)

(** The [n] bytes of a ring from [off] on. *)
Definition contents (mem : list byte) (off n : Z) : list byte := ztake n (zdrop off mem ++ mem).

Lemma ring_len mem off n : 0 <= off <= zlen mem -> 0 <= n <= zlen mem -> zlen (contents mem off n) = n.
Proof. intros. apply zlen_ztake. rewrite zlen_app, zlen_zdrop; lia. Qed.

(** A block cut in two at [k]. *)
Lemma cut (l : list byte) k : 0 <= k <= zlen l -> exists l1 l2, l = l1 ++ l2 /\ zlen l1 = k /\ zlen l2 = zlen l - k.
Proof. intros Hk. exists (ztake k l), (zdrop k l). rewrite ztake_zdrop, zlen_ztake, zlen_zdrop by lia. auto. Qed.

Lemma contents_write mem off n wo d :
  0 <= off < zlen mem -> 0 <= n -> n + zlen d <= zlen mem ->
  wo = (if zlen mem <=? off + n then off + n - zlen mem else off + n) -> wo + zlen d <= zlen mem ->
  zlen (splice mem wo d) = zlen mem /\ contents (splice mem wo d) off (n + zlen d) = contents mem off n ++ d.
Proof.
  intros Ho Hn Hd -> Hw. pose proof (zlen_nonneg d).
  destruct (Z.leb_spec (zlen mem) (off + n)) as [Hwrap|Hwrap].
  - destruct (cut mem (off + n - zlen mem)) as (a & t & -> & L1 & L2); [lia|]. rewrite zlen_app in *.
    destruct (cut t (zlen d)) as (c & t' & -> & L3 & L4); [lia|]. rewrite zlen_app in *.
    destruct (cut t' (off - zlen a - zlen d)) as (d' & b & -> & L5 & L6); [lia|]. rewrite zlen_app in *.
    rewrite splice_app by lia. split; [rewrite !zlen_app; lia|].
    unfold contents. replace (a ++ d ++ d' ++ b) with ((a ++ d ++ d') ++ b) by (rewrite <- !app_assoc; reflexivity).
    replace (a ++ c ++ d' ++ b) with ((a ++ c ++ d') ++ b) by (rewrite <- !app_assoc; reflexivity).
    rewrite !zdrop_app by (rewrite !zlen_app; lia).
    transitivity ((b ++ a) ++ d).
    + replace (b ++ (a ++ d ++ d') ++ b) with (((b ++ a) ++ d) ++ d' ++ b) by (rewrite <- !app_assoc; reflexivity).
      apply ztake_app. rewrite !zlen_app. lia.
    + f_equal. replace (b ++ (a ++ c ++ d') ++ b) with ((b ++ a) ++ c ++ d' ++ b) by (rewrite <- !app_assoc; reflexivity).
      symmetry. apply ztake_app. rewrite !zlen_app. lia.
  - destruct (cut mem off) as (a & t & -> & L1 & L2); [lia|]. rewrite zlen_app in *.
    destruct (cut t n) as (b & t' & -> & L3 & L4); [lia|]. rewrite zlen_app in *.
    destruct (cut t' (zlen d)) as (c & e & -> & L5 & L6); [lia|]. rewrite zlen_app in *.
    rewrite (app_assoc a b), splice_app by (rewrite ?zlen_app; lia). split; [rewrite !zlen_app; lia|].
    unfold contents. rewrite <- !(app_assoc a b). rewrite !zdrop_app by lia. transitivity (b ++ d).
    + rewrite <- !app_assoc. rewrite (app_assoc b d). apply ztake_app. rewrite !zlen_app. lia.
    + f_equal. rewrite <- !app_assoc. symmetry. apply ztake_app. lia.
Qed.

Lemma contents_read mem off n k :
  0 <= off < zlen mem -> 0 <= k <= n -> n <= zlen mem -> off + k <= zlen mem ->
  ztake k (zdrop off mem) = ztake k (contents mem off n) /\
  contents mem (if off + k =? zlen mem then 0 else off + k) (n - k) = zdrop k (contents mem off n).
Proof.
  intros Ho Hk Hn Hs. destruct (cut mem off) as (a & t & E & L1 & L2); [lia|].
  destruct (cut t k) as (c & b & -> & L3 & L4); [lia|]. rewrite zlen_app in L2.
  assert (Ec : contents mem off n = c ++ ztake (n - k) (b ++ mem)).
  { unfold contents. rewrite E at 1. rewrite zdrop_app by lia. rewrite <- app_assoc. unfold ztake, zlen in *.
    rewrite take_app_ge by lia. f_equal. f_equal. lia. }
  rewrite Ec. split.
  - rewrite E, zdrop_app by lia. rewrite !ztake_app by lia. reflexivity.
  - rewrite zdrop_app by lia. unfold contents. destruct (Z.eqb_spec (off + k) (zlen mem)) as [Ew|Ew].
    + assert (b = []) as ->. { destruct b as [|x b]; [reflexivity|]. rewrite zlen_cons in *. pose proof (zlen_nonneg b). lia. }
      change (zdrop 0 mem) with mem. unfold ztake, zlen in *. cbn [app]. rewrite take_app_le by lia. reflexivity.
    + f_equal. f_equal. rewrite E, app_assoc. apply zdrop_app. rewrite zlen_app. lia.
Qed.

(** ** The store *)

Definition upd {A P} (w : world A P) (b : addr) (x : BIO P) : world A P := mk_world (heap w) (<[b := x]> (bios w)).

Lemma lookup_upd {A P} (w : world A P) b x c :
  bios (upd w b x) !! c = if decide (c = b) then Some x else bios w !! c.
Proof. cbn. destruct (decide (c = b)) as [->|Hn]; [apply lookup_insert_eq | apply lookup_insert_ne; congruence]. Qed.

Lemma upd_upd {A P} (w : world A P) b x y : upd (upd w b x) b y = upd w b y.
Proof. unfold upd. cbn. rewrite insert_insert_eq. reflexivity. Qed.

(** The end [e] is in good order and its ring holds [q]. *)
Definition ring (e : bio_bio_st) (q : list byte) : Prop :=
  exists mem, buf e = Some mem /\ zlen mem = size e /\ 0 <= offset e < size e /\ size e < 2 ^ 63 /\
    len e = zlen q /\ zlen q <= size e /\ contents mem (offset e) (zlen q) = q.

(** What the copying loops leave alone. *)
Definition same_end (e e' : bio_bio_st) : Prop := exists l o b, e' = set_ring e l o b.

Lemma same_end_trans e1 e2 e3 : same_end e1 e2 -> same_end e2 e3 -> same_end e1 e3.
Proof. intros (? & ? & ? & ->) (? & ? & ? & ->). eexists _, _, _. reflexivity. Qed.

Section runs.
Context {A : Type} {AL : Allocator A}.
Notation W := (M (world A bio_bio_st)).
Notation world := (world A bio_bio_st).

(** The BIO at [b] is [x] and its end is [e]. *)
Definition holds (w : world) (b : addr) (x : BIO bio_bio_st) (e : bio_bio_st) : Prop :=
  bios w !! b = Some x /\ ptr x = Some e.

Lemma load_run (w : world) b x e : holds w b x e -> load b w = (Ok x, w).
Proof. intros [H _]. unfold load. rewrite H. reflexivity. Qed.

Lemma load_end_run (w : world) b x e : holds w b x e -> load_end b w = (Ok e, w).
Proof. intros [H1 H2]. unfold load_end, bind, load. rewrite H1, H2. reflexivity. Qed.

Lemma update_run (w : world) b x e f : holds w b x e -> update b f w = (Ok tt, upd w b (f x)).
Proof. intros [H _]. unfold update. rewrite H. reflexivity. Qed.

Lemma store_end_run (w : world) b x e e' : holds w b x e -> store_end b e' w = (Ok tt, upd w b (set_ptr (Some e') x)).
Proof. apply update_run. Qed.

Lemma holds_upd (w : world) b x e : ptr x = Some e -> holds (upd w b x) b x e.
Proof. intros H. split; [|exact H]. rewrite lookup_upd. destruct (decide (b = b)); [reflexivity | contradiction]. Qed.

Lemma assert_run b (w : world) : b = true -> assert b w = (Ok tt, w).
Proof. intros ->. reflexivity. Qed.

Lemma set_ptr_set_ptr (x : BIO bio_bio_st) v v' : set_ptr v (set_ptr v' x) = set_ptr v x.
Proof. reflexivity. Qed.

(** One turn of the copying loop of [bio_write]: all that is left, or what fits
    before the end of the buffer. *)
Lemma write_turn fuel (w : world) a x e q data n :
  holds w a x e -> ring e q -> 0 < n -> zlen q + n <= size e -> n <= zlen data ->
  exists mem' chunk, let e' := set_ring e (len e + chunk) (offset e) (Some mem') in
    ring e' (q ++ ztake chunk data) /\ 0 < chunk <= n /\ (chunk = n \/ offset e + len e + chunk = size e) /\
    write_loop (S fuel) a data n w =
      (if n - chunk =? 0 then ret tt else write_loop fuel a (zdrop chunk data) (n - chunk)) (upd w a (set_ptr (Some e') x)).
Proof.
  intros Hw (mem & Hb & Hm & Ho & Hs & Hl & Hq & Hc) Hn Hfit Hd. pose proof (zlen_nonneg q).
  set (wo := if size e <=? offset e + len e then offset e + len e - size e else offset e + len e).
  set (chunk := if wo + n <=? size e then n else size e - wo).
  assert (Hwo : 0 <= wo < size e /\ (wo + n <= size e \/ wo = offset e + len e)).
  { subst wo. destruct (Z.leb_spec (size e) (offset e + len e)); lia. }
  assert (Hch : 0 < chunk <= n /\ wo + chunk <= size e /\ (chunk = n \/ wo + chunk = size e /\ size e < wo + n)).
  { subst chunk. destruct (Z.leb_spec (wo + n) (size e)); lia. }
  assert (Hzt : zlen (ztake chunk data) = chunk) by (apply zlen_ztake; lia).
  destruct (contents_write mem (offset e) (zlen q) wo (ztake chunk data)) as [C1 C2]; try lia.
  { rewrite Hm, <- Hl. reflexivity. }
  exists (splice mem wo (ztake chunk data)), chunk. cbv zeta. split; [|split; [tauto|split]].
  - eexists. split; [reflexivity|]. cbn [set_ring buf size offset len]. rewrite zlen_app, Hzt in *.
    repeat split; try lia. rewrite C2, Hc. reflexivity.
  - lia.
  - cbn [write_loop]. rewrite (bind_Ok _ _ _ _ _ (load_end_run _ _ _ _ Hw)).
    assert (Hsmall : forall z, 0 <= z < 2 ^ 64 -> u64 z = z) by (intros; apply wrap_small; assumption).
    rewrite (Hsmall (len e + n)) by lia.
    rewrite (bind_Ok _ _ _ _ _ (assert_run (len e + n <=? size e) w ltac:(apply Z.leb_le; lia))).
    cbv zeta. rewrite (Hsmall (offset e + len e)) by lia.
    replace (if size e <=? offset e + len e then u64 (offset e + len e - size e) else offset e + len e) with wo
      by (subst wo; destruct (Z.leb_spec (size e) (offset e + len e)); [symmetry; apply Hsmall; lia | reflexivity]).
    rewrite (Hsmall (wo + n)), (Hsmall (size e - wo)) by lia. fold chunk. rewrite Hb.
    destruct (Z.leb_spec chunk (zlen data)); [|lia]. destruct (Z.leb_spec (wo + chunk) (zlen mem)); [|lia]. cbn [andb negb].
    rewrite (Hsmall (len e + chunk)), (Hsmall (n - chunk)) by lia.
    rewrite (bind_Ok _ _ _ _ _ (assert_run (len e + chunk <=? size e) w ltac:(apply Z.leb_le; lia))).
    rewrite (bind_Ok _ _ _ _ _ (store_end_run _ _ _ _ _ Hw)). reflexivity.
Qed.

Lemma ztake_split {B} (l : list B) m n : 0 <= m <= n -> ztake m l ++ ztake (n - m) (zdrop m l) = ztake n l.
Proof.
  intros H. unfold ztake, zdrop. rewrite <- (take_drop (Z.to_nat m) (take (Z.to_nat n) l)).
  rewrite take_take, skipn_firstn_comm. f_equal; f_equal; lia.
Qed.

(** The loop ends after one or two turns. *)
Lemma write_loop_run (w : world) a x e q data n :
  holds w a x e -> ring e q -> 0 < n -> zlen q + n <= size e -> n <= zlen data ->
  exists e', same_end e e' /\ ring e' (q ++ ztake n data) /\
    write_loop 2 a data n w = (Ok tt, upd w a (set_ptr (Some e') x)).
Proof.
  intros Hw Hr Hn Hfit Hd.
  destruct (write_turn 1 w a x e q data n Hw Hr Hn Hfit Hd) as (m1 & c1 & Hr1 & Hc1 & Hlast & ->).
  set (e1 := set_ring e _ _ _) in *.
  destruct (Z.eqb_spec (n - c1) 0) as [E|E].
  { replace c1 with n in * by lia. exists e1. split; [eexists _, _, _; reflexivity | auto]. }
  destruct (write_turn 0 (upd w a (set_ptr (Some e1) x)) a (set_ptr (Some e1) x) e1 (q ++ ztake c1 data) (zdrop c1 data) (n - c1))
    as (m2 & c2 & Hr2 & Hc2 & Hlast2 & ->); auto using holds_upd; try lia.
  { rewrite zlen_app, zlen_ztake by lia. cbn [e1 set_ring size]. lia. }
  { rewrite zlen_zdrop by lia. lia. }
  cbn [e1 set_ring offset len size] in *. replace c2 with (n - c1) in * by lia. rewrite Z.sub_diag. cbn [Z.eqb].
  eexists. split; [eexists _, _, _; reflexivity|]. split; [|unfold ret; rewrite upd_upd, set_ptr_set_ptr; reflexivity].
  rewrite <- app_assoc, ztake_split in Hr2 by lia. exact Hr2.
Qed.

(** One turn of the copying loop of [bio_read]. *)
Lemma read_turn fuel (w : world) p x e q n :
  holds w p x e -> ring e q -> 0 < n <= zlen q ->
  exists l o chunk, let e' := set_ring e l o (buf e) in
    ring e' (zdrop chunk q) /\ 0 < chunk <= n /\ (chunk = n \/ offset e + chunk = size e /\ o = 0) /\
    read_loop (S fuel) p n w =
      (if n - chunk =? 0 then ret (ztake chunk q)
       else data' <- read_loop fuel p (n - chunk) ;; ret (ztake chunk q ++ data')) (upd w p (set_ptr (Some e') x)).
Proof.
  intros Hw (mem & Hb & Hm & Ho & Hs & Hl & Hq & Hc) Hn. pose proof (zlen_nonneg q).
  set (chunk := if offset e + n <=? size e then n else size e - offset e).
  assert (Hch : 0 < chunk <= n /\ offset e + chunk <= size e /\ (chunk = n \/ offset e + chunk = size e)).
  { subst chunk. destruct (Z.leb_spec (offset e + n) (size e)); lia. }
  destruct (contents_read mem (offset e) (zlen q) chunk) as [C1 C2]; try lia. rewrite Hc in C1, C2. rewrite Hm in C2.
  set (l := len e - chunk).
  set (o := if negb (l =? 0) then (if offset e + chunk =? size e then 0 else offset e + chunk) else 0).
  exists l, o, chunk. cbv zeta. split; [|split; [tauto|split]].
  - exists mem. cbn [set_ring buf size offset len]. rewrite zlen_zdrop by lia. subst o l.
    destruct (Z.eqb_spec (len e - chunk) 0) as [E|E]; cbn [negb].
    + repeat split; auto; try lia. replace (zlen q - chunk) with 0 by lia.
      assert (zdrop chunk q = []) as -> by (apply nil_length_inv; unfold zdrop; rewrite length_drop; unfold zlen in *; lia). reflexivity.
    + destruct (Z.eqb_spec (offset e + chunk) (size e)); repeat split; auto; lia.
  - destruct Hch as (_ & _ & [|Hch]); [auto|]. right. split; [exact Hch|]. subst o.
    destruct (negb (l =? 0)); [|reflexivity]. rewrite Hch, Z.eqb_refl. reflexivity.
  - cbn [read_loop]. rewrite (bind_Ok _ _ _ _ _ (load_end_run _ _ _ _ Hw)).
    assert (Hsmall : forall z, 0 <= z < 2 ^ 64 -> u64 z = z) by (intros; apply wrap_small; assumption).
    rewrite (bind_Ok _ _ _ _ _ (assert_run (n <=? len e) w ltac:(apply Z.leb_le; lia))). cbv zeta.
    rewrite (Hsmall (offset e + n)), (Hsmall (size e - offset e)) by lia. fold chunk. rewrite (Hsmall (offset e + chunk)) by lia.
    rewrite (bind_Ok _ _ _ _ _ (assert_run (offset e + chunk <=? size e) w ltac:(apply Z.leb_le; lia))).
    assert (Hcp : copy_out (A := A) e (offset e) chunk w = (Ok (ztake chunk q), w)).
    { unfold copy_out. rewrite Hb. destruct (Z.leb_spec 0 chunk); [|lia]. destruct (Z.leb_spec (offset e + chunk) (zlen mem)); [|lia].
      cbn [andb]. rewrite C1. reflexivity. }
    rewrite (bind_Ok _ _ _ _ _ Hcp), (Hsmall (len e - chunk)), (Hsmall (n - chunk)) by lia. fold l.
    assert (Hst : (if negb (l =? 0) then
                     assert (offset e + chunk <=? size e) ;;
                     store_end p (set_ring e l (if offset e + chunk =? size e then 0 else offset e + chunk) (buf e))
                   else assert (chunk =? n) ;; store_end p (set_ring e l 0 (buf e))) w
                  = (Ok tt, upd w p (set_ptr (Some (set_ring e l o (buf e))) x))).
    { subst o. destruct (Z.eqb_spec l 0) as [E|E]; cbn [negb].
      - rewrite (bind_Ok _ _ _ _ _ (assert_run (chunk =? n) w ltac:(apply Z.eqb_eq; subst l; lia))). apply store_end_run with (1 := Hw).
      - rewrite (bind_Ok _ _ _ _ _ (assert_run (offset e + chunk <=? size e) w ltac:(apply Z.leb_le; lia))). apply store_end_run with (1 := Hw). }
    rewrite (bind_Ok _ _ _ _ _ Hst). reflexivity.
Qed.

Lemma read_loop_run (w : world) p x e q n :
  holds w p x e -> ring e q -> 0 < n <= zlen q ->
  exists e', same_end e e' /\ ring e' (zdrop n q) /\ read_loop 2 p n w = (Ok (ztake n q), upd w p (set_ptr (Some e') x)).
Proof.
  intros Hw Hr Hn.
  destruct (read_turn 1 w p x e q n Hw Hr Hn) as (l1 & o1 & c1 & Hr1 & Hc1 & Hlast & ->).
  set (e1 := set_ring e _ _ _) in *.
  destruct (Z.eqb_spec (n - c1) 0) as [E|E].
  { replace c1 with n in * by lia. exists e1. split; [eexists _, _, _; reflexivity | auto]. }
  assert (Hz : zlen (zdrop c1 q) = zlen q - c1) by (apply zlen_zdrop; lia).
  destruct (read_turn 0 (upd w p (set_ptr (Some e1) x)) p (set_ptr (Some e1) x) e1 (zdrop c1 q) (n - c1))
    as (l2 & o2 & c2 & Hr2 & Hc2 & Hlast2 & E2); auto using holds_upd; try lia.
  rewrite (bind_Ok _ _ _ (ztake (n - c1) (zdrop c1 q)) (upd w p (set_ptr (Some (set_ring e1 l2 o2 (buf e1))) x))).
  - eexists. split; [eexists _, _, _; reflexivity|]. split; [|unfold ret; rewrite ztake_split by lia; reflexivity].
    assert (c2 = n - c1) as ->.
    { destruct Hr as (m & _ & _ & _ & _ & _ & Hq & _). cbn [e1 set_ring offset size] in *. lia. }
    replace (zdrop n q) with (zdrop (n - c1) (zdrop c1 q)); [exact Hr2|]. unfold zdrop. rewrite drop_drop. f_equal. lia.
  - rewrite E2. assert (c2 = n - c1) as ->.
    { destruct Hr as (m & _ & _ & _ & _ & _ & Hq & _). cbn [e1 set_ring offset size] in *. lia. }
    rewrite Z.sub_diag. cbn [Z.eqb]. unfold ret. rewrite upd_upd, set_ptr_set_ptr. reflexivity.
Qed.
(** ** One end, abstractly *)

Lemma holds_ne (w : world) b x e c y : b <> c -> holds w b x e -> holds (upd w c y) b x e.
Proof. intros Hn [H1 H2]. split; [|exact H2]. rewrite lookup_upd. destruct (decide (b = c)); [contradiction | exact H1]. Qed.
End runs.

(** What an end is to its callers: the bytes that wait in it, its capacity,
    whether it was shut down, and how many bytes the peer asked for in vain. *)
Record side := mk_side { waiting : list byte; capacity : Z; shut : bool; wanted : Z }.

Definition write_side (data : list byte) (s : side) : side * Z :=
  if zlen data =? 0 then (s, 0) else
  if shut s || (zlen (waiting s) =? capacity s) then (mk_side (waiting s) (capacity s) (shut s) 0, -1) else
  let n := Z.min (zlen data) (capacity s - zlen (waiting s)) in
  (mk_side (waiting s ++ ztake n data) (capacity s) (shut s) 0, n).

(** Reading takes from the end of the peer. *)
Definition read_side (n : Z) (s : side) : side * (Z * list byte) :=
  if n =? 0 then (s, (0, [])) else
  if zlen (waiting s) =? 0 then
    if shut s then (mk_side (waiting s) (capacity s) (shut s) 0, (0, []))
    else (mk_side (waiting s) (capacity s) (shut s) (Z.min n (capacity s)), (-1, []))
  else
    let k := Z.min n (zlen (waiting s)) in
    (mk_side (zdrop k (waiting s)) (capacity s) (shut s) 0, (k, ztake k (waiting s))).

(** What a caller can do with one of the two BIOs. *)
Inductive action :=
  | Write (data : list byte)
  | Read (n : Z)
  | Shutdown
  | Guarantee
  | Request
  | Pending
  | Unsent.

Definition valid (act : action) : Prop :=
  match act with Write data => zlen data <= INT_MAX | Read n => 0 <= n <= INT_MAX | _ => True end.

(** The action on abstract ends, [me] and [you]. *)
Definition spec_action (act : action) (me you : side) : side * side * (Z * list byte) :=
  match act with
  | Write data => let '(me, r) := write_side data me in (me, you, (r, []))
  | Read n => let '(you, r) := read_side n you in (me, you, r)
  | Shutdown => (mk_side (waiting me) (capacity me) true (wanted me), you, (1, []))
  | Guarantee => (me, you, (if shut me then 0 else capacity me - zlen (waiting me), []))
  | Request => (me, you, (wanted me, []))
  | Pending => (me, you, (zlen (waiting you), []))
  | Unsent => (me, you, (zlen (waiting me), []))
  end.

Section refinement.
Context {A : Type} {AL : Allocator A}.
Notation W := (M (world A bio_bio_st)).
Notation world := (world A bio_bio_st).

Definition run_action (act : action) (bio : addr) : W (Z * list byte) :=
  match act with
  | Write data => r <- BIO_write methods_biop (Some bio) (Some data) (zlen data) ;; ret (r, [])
  | Read n => BIO_read methods_biop (Some bio) true n
  | Shutdown => r <- BIO_shutdown_wr (Some bio) ;; ret (r, [])
  | Guarantee => r <- BIO_ctrl_get_write_guarantee (Some bio) ;; ret (r, [])
  | Request => r <- BIO_ctrl_get_read_request (Some bio) ;; ret (r, [])
  | Pending => r <- BIO_ctrl_pending methods_biop (Some bio) ;; ret (r, [])
  | Unsent => r <- BIO_wpending methods_biop (Some bio) ;; ret (r, [])
  end.

Definition end_rep (e : bio_bio_st) (s : side) (p : addr) : Prop :=
  peer e = Some p /\ closed e = shut s /\ size e = capacity s /\ request e = wanted s /\ ring e (waiting s) /\
  0 <= wanted s <= capacity s.

Definition side_at (w : world) (b : addr) (s : side) (p : addr) : Prop :=
  exists x e, holds w b x e /\ init x = true /\ end_rep e s p.

Definition paired (w : world) (a b : addr) (sa sb : side) : Prop :=
  a <> b /\ side_at w a sa b /\ side_at w b sb a.

Lemma paired_sym (w : world) a b sa sb : paired w a b sa sb -> paired w b a sb sa.
Proof. intros (H1 & H2 & H3). split; [congruence | auto]. Qed.

Lemma side_at_upd (w : world) b s p x e :
  ptr x = Some e -> init x = true -> end_rep e s p -> side_at (upd w b x) b s p.
Proof. intros Hp Hi He. exists x, e. split; [apply holds_upd, Hp | auto]. Qed.

Lemma side_at_ne (w : world) b s p c y : b <> c -> side_at w b s p -> side_at (upd w c y) b s p.
Proof. intros Hn (x & e & H & Hi & He). exists x, e. split; [apply holds_ne; assumption | auto]. Qed.

Lemma end_rep_ring (e e' : bio_bio_st) s p q :
  end_rep e s p -> same_end e e' -> ring e' q -> end_rep e' (mk_side q (capacity s) (shut s) (wanted s)) p.
Proof. intros (H1 & H2 & H3 & H4 & _ & H5) (l & o & b & ->) Hr. unfold end_rep. cbn [set_ring peer closed size request waiting capacity shut wanted]. auto 10. Qed.

Lemma end_rep_request (e : bio_bio_st) s p r :
  end_rep e s p -> 0 <= r <= capacity s ->
  end_rep (set_request e r) (mk_side (waiting s) (capacity s) (shut s) r) p.
Proof. intros (H1 & H2 & H3 & H4 & H5 & H6) Hr. unfold end_rep. cbn [set_request peer closed size request waiting capacity shut wanted].
  assert (ring (set_request e r) (waiting s)) by exact H5. auto 10.
Qed.

Lemma small64 z : 0 <= z < 2 ^ 64 -> u64 z = z.
Proof. intros. apply wrap_small. assumption. Qed.

Lemma small_int z : 0 <= z <= INT_MAX -> sext 32 z = z.
Proof. intros. apply sext_small; lia. Qed.

(** Facts about an end that the calls check. *)
Lemma end_facts (e : bio_bio_st) s p : end_rep e s p ->
  len e = zlen (waiting s) /\ 0 <= zlen (waiting s) <= size e /\ 0 < size e < 2 ^ 63 /\
  bool_decide (is_Some (peer e)) = true /\ bool_decide (is_Some (buf e)) = true.
Proof.
  intros (Hp & _ & _ & _ & (mem & Hb & Hm & Ho & Hs & Hl & Hq & _) & _). pose proof (zlen_nonneg (waiting s)).
  rewrite Hp, Hb. repeat split; auto; lia.
Qed.

Ltac run H := rewrite (bind_Ok _ _ _ _ _ H).

Lemma bio_write_run (w : world) a s p data :
  side_at w a s p -> 0 < zlen data <= INT_MAX ->
  exists x, bio_write a (Some data) (zlen data) w = (Ok (snd (write_side data s)), upd w a x) /\
    side_at (upd w a x) a (fst (write_side data s)) p.
Proof.
  intros (x & e & Hw & Hi & He) Hd. destruct (end_facts _ _ _ He) as (Hl & Hq & Hsz & Hpe & Hbu). pose proof He as (Hp & Hcl & Hcap & _).
  unfold bio_write, write_side. destruct (Z.eqb_spec (zlen data) 0); [lia|]. rewrite (small64 (zlen data)) by lia.
  run (update_run _ _ _ _ (fun b => set_flags (Z.land (flags b) (Z.lnot kRetryFlags)) 0 b) Hw).
  set (x1 := set_flags _ _ x). assert (H1 : holds (upd w a x1) a x1 e) by (apply holds_upd; apply Hw).
  run (load_run _ _ _ _ H1). cbv zeta. change (init x1) with (init x). rewrite Hi.
  destruct (Z.eqb_spec (zlen data) 0); [lia|]. cbn [negb orb].
  run (load_end_run _ _ _ _ H1). run (assert_run _ (upd w a x1) Hpe). run (assert_run _ (upd w a x1) Hbu).
  run (store_end_run _ _ _ _ (set_request e 0) H1). rewrite upd_upd.
  set (x2 := set_ptr _ x1). set (e2 := set_request e 0). assert (H2 : holds (upd w a x2) a x2 e2) by (apply holds_upd; reflexivity).
  run (load_end_run _ _ _ _ H2). change (closed e2) with (closed e). change (len e2) with (len e). change (size e2) with (size e).
  assert (He2 : end_rep e2 (mk_side (waiting s) (capacity s) (shut s) 0) p) by (apply end_rep_request; [exact He | lia]).
  rewrite Hcl. destruct (shut s) eqn:Esh; cbn [orb].
  { exists x2. split; [reflexivity|]. apply (side_at_upd _ _ _ _ _ e2); [reflexivity | exact Hi | exact He2]. }
  run (assert_run (len e <=? size e) (upd w a x2) ltac:(apply Z.leb_le; lia)). rewrite Hl, <- Hcap.
  destruct (Z.eqb_spec (zlen (waiting s)) (size e)).
  { run (update_run _ _ _ _ (fun b => set_flags (Z.lor (flags b) (Z.lor BIO_FLAGS_WRITE BIO_FLAGS_SHOULD_RETRY)) (retry_reason b) b) H2).
    rewrite upd_upd. eexists. split; [reflexivity|]. rewrite Hcap. apply (side_at_upd _ _ _ _ _ e2); [reflexivity | exact Hi | exact He2]. }
  rewrite (small64 (size e - zlen (waiting s))) by lia.
  replace (if size e - zlen (waiting s) <? zlen data then size e - zlen (waiting s) else zlen data)
    with (Z.min (zlen data) (size e - zlen (waiting s))) by (destruct (Z.ltb_spec (size e - zlen (waiting s)) (zlen data)); lia).
  set (k := Z.min _ _). assert (Hn : 0 < k <= zlen data /\ zlen (waiting s) + k <= size e) by lia.
  run (assert_run (0 <? k) (upd w a x2) ltac:(apply Z.ltb_lt; lia)).
  destruct (write_loop_run (upd w a x2) a x2 e2 (waiting s) data k H2) as (e3 & Hs3 & Hr3 & E3); try (apply He2); try lia.
  { change (size e2) with (size e). lia. }
  run E3. rewrite upd_upd. unfold ret. rewrite small_int by lia. eexists. split; [reflexivity|].
  apply (side_at_upd _ _ _ _ _ e3); [reflexivity | exact Hi |]. rewrite Hcap.
  apply (end_rep_ring e2 e3 _ _ _ He2 Hs3 Hr3).
Qed.

Lemma bio_read_run (w : world) a b sa sb n :
  paired w a b sa sb -> 0 < n <= INT_MAX ->
  exists x y, bio_read a true n w = (Ok (snd (read_side n sb)), upd (upd w b y) a x) /\
    paired (upd (upd w b y) a x) a b sa (fst (read_side n sb)).
Proof.
  intros (Hne & (x & e & Hw & Hi & He) & (y & f & Hv & Hj & Hf)) Hn.
  destruct (end_facts _ _ _ Hf) as (Hl & Hq & Hsz & Hpe & Hbu). pose proof Hf as (_ & Hcl & Hcap & _). pose proof He as (Hp & _).
  unfold bio_read, read_side. destruct (Z.eqb_spec n 0); [lia|].
  run (update_run _ _ _ _ (fun b => set_flags (Z.land (flags b) (Z.lnot kRetryFlags)) 0 b) Hw).
  set (x1 := set_flags _ _ x). assert (H1 : holds (upd w a x1) a x1 e) by (apply holds_upd; apply Hw).
  assert (V1 : holds (upd w a x1) b y f) by (apply holds_ne; [congruence | exact Hv]).
  run (load_run _ _ _ _ H1). change (init x1) with (init x). rewrite Hi. cbn [negb].
  run (load_end_run _ _ _ _ H1). rewrite Hp. run (load_end_run _ _ _ _ V1). run (assert_run _ (upd w a x1) Hbu).
  rewrite (small64 n) by lia. cbv zeta. run (store_end_run _ _ _ _ (set_request f 0) V1).
  set (y1 := set_ptr _ y). set (f1 := set_request f 0). assert (V2 : holds (upd (upd w a x1) b y1) b y1 f1) by (apply holds_upd; reflexivity).
  assert (H2 : holds (upd (upd w a x1) b y1) a x1 e) by (apply holds_ne; [congruence | exact H1]).
  run (load_end_run _ _ _ _ V2). destruct (Z.eqb_spec n 0); [lia|]. cbn [negb orb].
  change (len f1) with (len f). change (closed f1) with (closed f). change (size f1) with (size f). rewrite Hl, Hcl.
  assert (Hf1 : end_rep f1 (mk_side (waiting sb) (capacity sb) (shut sb) 0) a) by (apply end_rep_request; [exact Hf | lia]).
  assert (Swap : forall z z', upd (upd w a z) b z' = upd (upd w b z') a z).
  { intros. unfold upd. cbn. f_equal. apply insert_insert_ne. congruence. }
  assert (Done : forall z z' g s', ptr z' = Some g -> init z' = true -> end_rep g s' a -> init z = true -> ptr z = Some e ->
            paired (upd (upd w b z') a z) a b sa s').
  { intros z z' g s' P1 P2 P3 P4 P5. split; [exact Hne|]. split; [apply (side_at_upd _ _ _ _ _ e); auto|].
    apply side_at_ne; [congruence|]. apply (side_at_upd _ _ _ _ _ g); auto. }
  destruct (Z.eqb_spec (zlen (waiting sb)) 0) as [E0|E0].
  - destruct (shut sb) eqn:Esh.
    + exists x1, y1. rewrite Swap. split; [reflexivity|]. apply (Done _ _ f1); auto. apply Hw.
    + run (update_run _ _ _ _ (fun b => set_flags (Z.lor (flags b) (Z.lor BIO_FLAGS_READ BIO_FLAGS_SHOULD_RETRY)) (retry_reason b) b) H2).
      set (x2 := set_flags _ _ x1).
      assert (V3 : holds (upd (upd (upd w a x1) b y1) a x2) b y1 f1) by (apply holds_ne; [congruence | exact V2]).
      run (store_end_run _ _ _ _ (set_request f1 (if n <=? size f then n else size f)) V3).
      rewrite Swap, upd_upd, <- Swap, upd_upd, Swap. eexists _, _. split; [reflexivity|].
      eapply (Done x2); [reflexivity | exact Hj | | exact Hi | apply Hw].
      replace (if n <=? size f then n else size f) with (Z.min n (capacity sb)) by (rewrite <- Hcap; destruct (Z.leb_spec n (size f)); lia).
      apply (end_rep_request f1 _ _ (Z.min n (capacity sb)) Hf1). cbn [capacity]. lia.
  - replace (if zlen (waiting sb) <? n then zlen (waiting sb) else n) with (Z.min n (zlen (waiting sb)))
      by (destruct (Z.ltb_spec (zlen (waiting sb)) n); lia).
    set (k := Z.min _ _). assert (Hk : 0 < k <= zlen (waiting sb) /\ k <= n) by lia.
    run (assert_run (0 <? k) (upd (upd w a x1) b y1) ltac:(apply Z.ltb_lt; lia)).
    destruct (read_loop_run _ b y1 f1 (waiting sb) k V2) as (f2 & Hs2 & Hr2 & E2); [apply Hf1 | lia|].
    run E2. rewrite upd_upd, Swap. unfold ret. rewrite small_int by lia. eexists _, _. split; [reflexivity|].
    apply (Done _ _ f2); [reflexivity | exact Hj | | exact Hi | apply Hw].
    apply (end_rep_ring f1 f2 _ _ _ Hf1 Hs2 Hr2).
Qed.

(** Counting the bytes does not touch the end. *)
Lemma side_at_update (w : world) a s p f :
  side_at w a s p -> (forall x : BIO bio_bio_st, ptr (f x) = ptr x /\ init (f x) = init x) ->
  exists x, update a f w = (Ok tt, upd w a x) /\ side_at (upd w a x) a s p.
Proof.
  intros (x & e & Hw & Hi & He) Hf. exists (f x). split; [apply (update_run _ _ _ _ f Hw)|].
  destruct (Hf x) as [F1 F2]. apply (side_at_upd _ _ _ _ _ e); [rewrite F1; apply Hw | congruence | exact He].
Qed.

Lemma paired_upd (w : world) a b sa sb sa' x :
  paired w a b sa sb -> side_at (upd w a x) a sa' b -> paired (upd w a x) a b sa' sb.
Proof. intros (Hne & _ & Hb) Ha. split; [exact Hne|]. split; [exact Ha|]. apply side_at_ne; [congruence | exact Hb]. Qed.

Lemma BIO_write_run (w : world) a b sa sb data :
  paired w a b sa sb -> zlen data <= INT_MAX ->
  exists w', BIO_write methods_biop (Some a) (Some data) (zlen data) w = (Ok (snd (write_side data sa)), w') /\
    paired w' a b (fst (write_side data sa)) sb.
Proof.
  intros Hp Hd. pose proof Hp as (Hne & Ha & Hb). pose proof Ha as (x & e & Hw & Hi & _).
  unfold BIO_write. cbn [bwrite methods_biop]. run (load_run _ _ _ _ Hw). rewrite Hi. cbn [negb].
  pose proof (zlen_nonneg data). destruct (Z.leb_spec (zlen data) 0).
  { exists w. unfold write_side. destruct (Z.eqb_spec (zlen data) 0); [|lia]. auto. }
  destruct (bio_write_run w a sa b data Ha ltac:(lia)) as (x1 & E & Ha1). run E.
  set (r := snd _) in *. destruct (0 <? r).
  - destruct (side_at_update (upd w a x1) a _ b (fun b => set_counts (num_read b) (u64 (num_write b + r)) b) Ha1) as (x2 & E2 & Ha2); [auto|].
    run E2. eexists. split; [reflexivity|]. rewrite upd_upd in *. apply (paired_upd _ _ _ sa); assumption.
  - eexists. split; [reflexivity|]. apply (paired_upd _ _ _ sa); assumption.
Qed.

Lemma BIO_read_run (w : world) a b sa sb n :
  paired w a b sa sb -> 0 <= n <= INT_MAX ->
  exists w', BIO_read methods_biop (Some a) true n w = (Ok (snd (read_side n sb)), w') /\
    paired w' a b sa (fst (read_side n sb)).
Proof.
  intros Hp Hn. pose proof Hp as (Hne & (x & e & Hw & Hi & _) & _).
  unfold BIO_read. cbn [bread methods_biop]. run (load_run _ _ _ _ Hw). rewrite Hi. cbn [negb].
  destruct (Z.leb_spec n 0).
  { exists w. unfold read_side. destruct (Z.eqb_spec n 0); [|lia]. auto. }
  destruct (bio_read_run w a b sa sb n Hp ltac:(lia)) as (x1 & y1 & E & Hp1). run E.
  destruct (snd (read_side n sb)) as [r data]. set (w1 := upd (upd w b y1) a x1) in *. destruct (0 <? r).
  - destruct (side_at_update w1 a _ b (fun b => set_counts (u64 (num_read b + r)) (num_write b) b) (proj1 (proj2 Hp1))) as (x2 & E2 & Ha2); [auto|].
    run E2. eexists. split; [reflexivity|]. apply (paired_upd _ _ _ sa); assumption.
  - eexists. split; [reflexivity | exact Hp1].
Qed.

Lemma ctrl_run (w : world) a x e cmd num arg : holds w a x e ->
  BIO_ctrl methods_biop (Some a) cmd num arg w = bio_ctrl a cmd num arg w.
Proof. reflexivity. Qed.

Lemma bio_ctrl_run (w : world) a x e cmd num arg : holds w a x e ->
  bio_ctrl a cmd num arg w =
    (if cmd =? BIO_C_GET_WRITE_BUF_SIZE then ret (sext 64 (size e)) else
     if cmd =? BIO_C_GET_WRITE_GUARANTEE then
       ret (if negb (bool_decide (is_Some (peer e))) || closed e then 0 else sext 64 (size e - len e)) else
     if cmd =? BIO_C_GET_READ_REQUEST then ret (sext 64 (request e)) else
     if cmd =? BIO_C_RESET_READ_REQUEST then store_end a (set_request e 0) ;; ret 1 else
     if cmd =? BIO_C_SHUTDOWN_WR then store_end a (set_closed e true) ;; ret 1 else
     if cmd =? BIO_CTRL_GET_CLOSE then ret (shutdown x) else
     if cmd =? BIO_CTRL_SET_CLOSE then update a (set_shutdown (sext 32 num)) ;; ret 1 else
     if cmd =? BIO_CTRL_PENDING then
       match peer e with Some p => peer_b <- load_end p ;; ret (sext 64 (len peer_b)) | None => ret 0 end else
     if cmd =? BIO_CTRL_WPENDING then ret (if bool_decide (is_Some (buf e)) then sext 64 (len e) else 0) else
     if cmd =? BIO_CTRL_FLUSH then ret 1 else
     if cmd =? BIO_CTRL_EOF then
       match arg with
       | Some other_bio => other_b <- load_end other_bio ;; ret (if (len other_b =? 0) && closed other_b then 1 else 0)
       | None => ret 1
       end
     else ret 0) w.
Proof. intros H. unfold bio_ctrl. run (load_run _ _ _ _ H). run (load_end_run _ _ _ _ H). reflexivity. Qed.

(** Decide which case of [bio_ctrl] a command is. *)
Ltac which_cmd :=
  unfold BIO_C_GET_WRITE_BUF_SIZE, BIO_C_GET_WRITE_GUARANTEE, BIO_C_GET_READ_REQUEST, BIO_C_RESET_READ_REQUEST,
    BIO_C_SHUTDOWN_WR, BIO_CTRL_GET_CLOSE, BIO_CTRL_SET_CLOSE, BIO_CTRL_PENDING, BIO_CTRL_WPENDING;
  cbn [Z.eqb Pos.eqb].

(** One action of one of the two ends. *)
Lemma action_run (w : world) a b sa sb act :
  paired w a b sa sb -> valid act ->
  let '(sa', sb', r) := spec_action act sa sb in
  exists w', run_action act a w = (Ok r, w') /\ paired w' a b sa' sb'.
Proof.
  intros Hp Hv. pose proof Hp as (Hne & (x & e & Hw & Hi & He) & (y & f & Hy & _ & Hf)).
  destruct (end_facts _ _ _ He) as (Hl & Hq & Hsz & Hpe & Hbu). destruct (end_facts _ _ _ Hf) as (Hlf & Hqf & Hszf & _).
  pose proof He as (Hpeer & Hcl & Hcap & Hreq & _ & Hw0). pose proof Hf as (_ & _ & Hcapf & _).
  assert (Hsmall : forall z, 0 <= z < 2 ^ 63 -> sext 64 z = z) by (intros; apply sext_small; lia).
  destruct act as [data|n| | | | |]; cbn [spec_action valid run_action] in *.
  - destruct (BIO_write_run w a b sa sb data Hp Hv) as (w' & E & Hp'). destruct (write_side data sa) as [sa' r]. run E.
    exists w'. split; [reflexivity | exact Hp'].
  - destruct (BIO_read_run w a b sa sb n Hp Hv) as (w' & E & Hp'). destruct (read_side n sb) as [sb' r]. eauto.
  - unfold BIO_shutdown_wr, BIO_ctrl. cbn [ctrl methods_biop].
    assert (E : bio_ctrl a BIO_C_SHUTDOWN_WR 0 None w = (Ok 1, upd w a (set_ptr (Some (set_closed e true)) x))).
    { rewrite (bio_ctrl_run _ _ _ _ _ _ _ Hw). which_cmd. run (store_end_run _ _ _ _ (set_closed e true) Hw). reflexivity. }
    unfold bind. rewrite E. eexists. split; [reflexivity|]. apply (paired_upd _ _ _ sa _ _ _ Hp).
    apply (side_at_upd _ _ _ _ _ (set_closed e true)); [reflexivity | exact Hi |].
    destruct He as (H1 & H2 & H3 & H4 & H5 & H6). assert (ring (set_closed e true) (waiting sa)) by exact H5.
    unfold end_rep. cbn [set_closed peer closed size request waiting capacity shut wanted]. auto 10.
  - exists w. unfold BIO_ctrl_get_write_guarantee, BIO_ctrl, bind. cbn [ctrl methods_biop].
    rewrite (bio_ctrl_run _ _ _ _ _ _ _ Hw). which_cmd. rewrite Hpe, Hcl, Hl, Hcap. cbn [negb orb]. unfold ret.
    destruct (shut sa); [auto|]. rewrite Hsmall, small64 by lia. auto.
  - exists w. unfold BIO_ctrl_get_read_request, BIO_ctrl, bind. cbn [ctrl methods_biop].
    rewrite (bio_ctrl_run _ _ _ _ _ _ _ Hw). which_cmd. unfold ret. rewrite Hreq, Hsmall, small64 by lia. auto.
  - exists w. unfold BIO_ctrl_pending, BIO_pending, BIO_ctrl. cbn [ctrl methods_biop].
    assert (E : bio_ctrl a BIO_CTRL_PENDING 0 None w = (Ok (zlen (waiting sb)), w)).
    { rewrite (bio_ctrl_run _ _ _ _ _ _ _ Hw). which_cmd. rewrite Hpeer. run (load_end_run _ _ _ _ Hy).
      rewrite Hlf, Hsmall by lia. reflexivity. }
    unfold bind. rewrite E. destruct (Z.ltb_spec (zlen (waiting sb)) 0); [lia|]. auto.
  - exists w. unfold BIO_wpending, BIO_ctrl. cbn [ctrl methods_biop].
    assert (E : bio_ctrl a BIO_CTRL_WPENDING 0 None w = (Ok (zlen (waiting sa)), w)).
    { rewrite (bio_ctrl_run _ _ _ _ _ _ _ Hw). which_cmd. rewrite Hbu, Hl, Hsmall by lia. reflexivity. }
    unfold bind. rewrite E. destruct (Z.ltb_spec (zlen (waiting sa)) 0); [lia|]. auto.
Qed.

(** ** Sequences of actions *)

(** The caller acts on the first BIO or on the second. *)
Fixpoint run_actions (acts : list (bool * action)) (a b : addr) : W (list (Z * list byte)) :=
  match acts with
  | [] => ret []
  | (first, act) :: acts =>
      r <- run_action act (if first : bool then a else b) ;;
      rs <- run_actions acts a b ;;
      ret (r :: rs)
  end.
End refinement.

(** Both ends with the bytes that came out of each of them so far. *)
Fixpoint spec_actions (acts : list (bool * action)) (sa sb : side) : side * side * list (Z * list byte) :=
  match acts with
  | [] => (sa, sb, [])
  | (first, act) :: acts =>
      let '(sa, sb, r) := if first : bool then spec_action act sa sb
                          else let '(sb, sa, r) := spec_action act sb sa in (sa, sb, r) in
      let '(sa, sb, rs) := spec_actions acts sa sb in
      (sa, sb, r :: rs)
  end.

(** What the second BIO delivers, and what the first one took: the results of
    the reads of one and of the writes of the other, in order. *)
Fixpoint delivered (acts : list (bool * action)) (rs : list (Z * list byte)) : list byte :=
  match acts, rs with
  | (false, Read _) :: acts, (_, data) :: rs => data ++ delivered acts rs
  | _ :: acts, _ :: rs => delivered acts rs
  | _, _ => []
  end.
Fixpoint accepted (acts : list (bool * action)) (rs : list (Z * list byte)) : list byte :=
  match acts, rs with
  | (true, Write data) :: acts, (n, _) :: rs => ztake n data ++ accepted acts rs
  | _ :: acts, _ :: rs => accepted acts rs
  | _, _ => []
  end.

Lemma write_side_takes data s : waiting (fst (write_side data s)) = waiting s ++ ztake (snd (write_side data s)) data.
Proof.
  unfold write_side. destruct (_ =? 0); [symmetry; apply app_nil_r|].
  destruct (_ || _); [symmetry; apply app_nil_r | reflexivity].
Qed.

Lemma read_side_gives n s : 0 <= n -> waiting s = snd (snd (read_side n s)) ++ waiting (fst (read_side n s)).
Proof.
  intros Hn. unfold read_side. destruct (n =? 0); [reflexivity|].
  destruct (_ =? 0); [destruct (shut s); reflexivity|]. cbn [fst snd waiting]. symmetry. apply ztake_zdrop.
Qed.

Lemma conservation acts : forall sa sb,
  Forall (fun o => valid (snd o)) acts ->
  let '(sa', _, rs) := spec_actions acts sa sb in
  waiting sa ++ accepted acts rs = delivered acts rs ++ waiting sa'.
Proof.
  induction acts as [|[first act] acts IH]; intros sa sb Hv; cbn [spec_actions].
  { cbn. apply app_nil_r. }
  apply Forall_cons in Hv as [Hv Hvs].
  destruct first; destruct act as [data|n| | | | |]; cbn [spec_action snd valid] in *.
  all: try match goal with
    | |- context [write_side ?d ?s] => pose proof (write_side_takes d s) as Hw; destruct (write_side d s) as [s' r]
    | |- context [read_side ?n ?s] => pose proof (read_side_gives n s ltac:(lia)) as Hr; destruct (read_side n s) as [s' [r data]]
    end; cbn [fst snd] in *;
    match goal with |- context [spec_actions ?l ?x ?y] => specialize (IH x y Hvs); destruct (spec_actions l x y) as [[x' y'] rs] end;
    cbn [accepted delivered waiting] in *; try exact IH.
  - rewrite app_assoc, <- Hw. exact IH.
  - rewrite Hr, <- !app_assoc. f_equal. exact IH.
Qed.

(** ** Making a pair, and taking it apart *)

Section lifecycle.
Context {A : Type} {AL : Allocator A}.
Notation world := (world A bio_bio_st).

Definition fresh_end : bio_bio_st := mk_end None false 0 0 (17 * 1024) None 0.
Definition fresh_bio : BIO bio_bio_st := mk_bio false 1 0 0 0 1 (Some fresh_end) None 0 0.

(** The capacity of a ring whose size was asked for. *)
Definition asked (n : Z) : Z := if n =? 0 then 17 * 1024 else n.

Lemma malloc_run (w : world) n r h : OPENSSL_malloc (heap w) n = (r, h) -> malloc n w = (Ok r, mk_world h (bios w)).
Proof. intros E. unfold malloc. rewrite E. reflexivity. Qed.

Lemma bio_new_run (w : world) c x :
  bios w !! c = Some x ->
  exists h (ok : bool), bio_new c w = (Ok ok, mk_world h (if ok then <[c := set_ptr (Some fresh_end) x]> (bios w) else bios w)).
Proof.
  intros Hc. unfold bio_new. destruct (OPENSSL_malloc (heap w) sizeof_bio_bio_st) as [r h] eqn:E.
  rewrite (bind_Ok _ _ _ _ _ (malloc_run _ _ _ _ E)). exists h. destruct r; [exists true | exists false]; [|reflexivity].
  unfold bind, store_end, update. cbn [bios]. rewrite Hc. reflexivity.
Qed.

Lemma BIO_new_run (w : world) :
  (exists h, BIO_new methods_biop w = (Ok None, mk_world h (bios w))) \/
  (exists c h, bios w !! c = None /\ BIO_new methods_biop w = (Ok (Some c), mk_world h (<[c := fresh_bio]> (bios w)))).
Proof.
  unfold BIO_new. destruct (OPENSSL_malloc (heap w) sizeof_BIO) as [r h] eqn:E. rewrite (bind_Ok _ _ _ _ _ (malloc_run _ _ _ _ E)).
  destruct r; [|left; exists h; reflexivity]. cbn [create methods_biop heap bios].
  set (c := fresh (dom (bios w))). assert (Hc : bios w !! c = None) by (apply not_elem_of_dom, is_fresh).
  set (b0 := mk_bio (P := bio_bio_st) false 1 0 0 0 1 None None 0 0).
  destruct (bio_new_run (mk_world h (<[c := b0]> (bios w))) c b0) as (h' & ok & Eb); [apply lookup_insert_eq|].
  rewrite (bind_Ok _ _ _ _ _ Eb). cbn [bios]. destruct ok; [right | left].
  - exists c, h'. split; [exact Hc|]. rewrite insert_insert_eq. reflexivity.
  - eexists. unfold bind, remove, ret. cbn [heap bios]. rewrite delete_insert_id by exact Hc. reflexivity.
Qed.

Lemma make_buffer_run (w : world) c x e n :
  holds w c x e -> buf e = None -> size e = 17 * 1024 -> 0 <= n < 2 ^ 63 ->
  exists e' h ok, make_buffer c n w = (Ok ok, mk_world h (<[c := set_ptr (Some e') x]> (bios w))) /\
    peer e' = peer e /\ (ok = true -> ring e' [] /\ size e' = asked n).
Proof.
  intros Hw Hb Hs Hn. unfold make_buffer. rewrite (bind_Ok _ _ _ _ _ (load_end_run _ _ _ _ Hw)), Hb, Hs. cbv zeta.
  replace (if negb (n =? 0) then n else 17 * 1024) with (asked n) by (unfold asked; destruct (n =? 0); reflexivity).
  assert (Ha : 0 < asked n < 2 ^ 63) by (unfold asked; destruct (Z.eqb_spec n 0); lia).
  destruct (OPENSSL_malloc (heap w) (asked n)) as [r h] eqn:E. rewrite (bind_Ok _ _ _ _ _ (malloc_run _ _ _ _ E)).
  assert (H1 : holds (mk_world h (bios w)) c x e) by exact Hw.
  destruct r as [mem|]; rewrite (bind_Ok _ _ _ _ _ (store_end_run _ _ _ _ _ H1)).
  - apply malloc_length in E; [|lia]. eexists _, h, true. split; [reflexivity|]. split; [reflexivity|]. intros _. split; [|reflexivity].
    exists mem. cbn [set_ring buf size offset len]. repeat split; auto; rewrite ?zlen_nil; try lia.
  - eexists _, h, false. split; [reflexivity|]. split; [reflexivity | discriminate].
Qed.

(** The last reference to a BIO at the end of a chain: what its method leaves
    behind is freed. *)
Lemma BIO_free_last (w w' : world) c x e :
  holds w c x e -> references x = 1 -> next_bio x = None ->
  bio_free c (upd w c (set_next None (set_references 0 x))) = (Ok tt, w') ->
  BIO_free methods_biop (Some c) w = (Ok true, mk_world (OPENSSL_free (heap w') sizeof_BIO) (delete c (bios w'))).
Proof.
  intros Hw Hr Hn E. assert (Hsz : base.size (bios w) <> 0%nat).
  { intros E0. apply map_size_empty_iff in E0. destruct Hw as [Hw _]. rewrite E0, lookup_empty in Hw. discriminate. }
  unfold BIO_free, bind at 1, get. destruct (base.size (bios w)) as [|k]; [contradiction|]. cbn [free_loop].
  rewrite (bind_Ok _ _ _ _ _ (load_run _ _ _ _ Hw)), Hr.
  change (CRYPTO_refcount_dec_and_test_zero 1) with (Some (0, true)). cbv iota beta.
  rewrite (bind_Ok _ _ _ _ _ (update_run _ _ _ _ (set_references 0) Hw)). cbn [negb].
  set (x1 := set_references 0 x) in *. assert (H1 : holds (upd w c x1) c x1 e) by (apply holds_upd; apply Hw).
  unfold BIO_pop, bind at 1, bind at 1. rewrite (load_run _ _ _ _ H1), (bind_Ok _ _ _ _ _ (update_run _ _ _ _ (set_next None) H1)).
  change (next_bio x1) with (next_bio x). rewrite Hn, upd_upd. unfold ret at 1. cbn [destroy methods_biop].
  rewrite (bind_Ok _ _ _ _ _ E). reflexivity.
Qed.

(** Nothing else refers to the BIO at [c], which is the last of its chain. *)
Definition owned (w : world) (c : addr) : Prop :=
  exists x, bios w !! c = Some x /\ references x = 1 /\ next_bio x = None.

(** An end that is not part of a pair. *)
Definition single (w : world) (c : addr) : Prop := exists x e, holds w c x e /\ init x = false /\ peer e = None.

(** The end [e] goes back to the allocator: its ring and the block it is in. *)
Definition free_end (e : bio_bio_st) (h : A) : A :=
  OPENSSL_free (match buf e with Some data => OPENSSL_free h (zlen data) | None => h end) sizeof_bio_bio_st.

Lemma free_end_run (w : world) c x e : holds w c x e ->
  (b <- load_end c ;; (match buf b with Some data => release (zlen data) | None => ret tt end) ;;
   release sizeof_bio_bio_st ;; update c (set_ptr None)) w =
  (Ok tt, mk_world (free_end e (heap w)) (<[c := set_ptr None x]> (bios w))).
Proof.
  intros H. rewrite (bind_Ok _ _ _ _ _ (load_end_run _ _ _ _ H)). unfold free_end, bind, release, ret, update.
  destruct H as [H _]. destruct (buf e); cbn [heap bios]; rewrite H; reflexivity.
Qed.

Lemma single_free (w : world) c x e :
  holds w c x e -> references x = 1 -> next_bio x = None -> peer e = None ->
  BIO_free methods_biop (Some c) w = (Ok true, mk_world (OPENSSL_free (free_end e (heap w)) sizeof_BIO) (delete c (bios w))).
Proof.
  intros Hw Hr Hn Hp.
  set (x2 := set_next None (set_references 0 x)). assert (H2 : holds (upd w c x2) c x2 e) by (apply holds_upd; apply Hw).
  rewrite (BIO_free_last w (mk_world (free_end e (heap w)) (<[c := set_ptr None x2]> (bios (upd w c x2)))) c x e); auto.
  - unfold upd. cbn [heap bios]. rewrite insert_insert_eq, delete_insert_eq. reflexivity.
  - unfold bio_free. fold x2. rewrite (bind_Ok _ _ _ _ _ (load_end_run _ _ _ _ H2)), Hp, bind_ret.
    apply (free_end_run _ _ _ _ H2).
Qed.

Lemma holds_heap (w : world) (h : A) c x e : holds w c x e -> holds (mk_world h (bios w)) c x e.
Proof. exact id. Qed.

(** Two ends are joined, or stay as they were but for their buffers. *)
Lemma bio_make_pair_run (w : world) a b x y n1 n2 :
  a <> b -> holds w a x fresh_end -> holds w b y fresh_end -> init x = false -> init y = false ->
  0 <= n1 < 2 ^ 63 -> 0 <= n2 < 2 ^ 63 ->
  exists h e f (ok : bool), let x' := set_init ok (set_ptr (Some e) x) in let y' := set_init ok (set_ptr (Some f) y) in
    bio_make_pair a b n1 n2 w = (Ok ok, mk_world h (<[b := y']> (<[a := x']> (bios w)))) /\
    if ok then end_rep e (mk_side [] (asked n1) false 0) b /\ end_rep f (mk_side [] (asked n2) false 0) a
    else peer e = None /\ peer f = None.
Proof.
  intros Hab Ha Hb Hx Hy Hn1 Hn2. unfold bio_make_pair.
  rewrite (bind_Ok _ _ _ _ _ (load_end_run _ _ _ _ Ha)), (bind_Ok _ _ _ _ _ (load_end_run _ _ _ _ Hb)).
  change (bool_decide (is_Some (peer fresh_end))) with false. cbn [orb].
  assert (Hasked : forall n, 0 <= n < 2 ^ 63 -> 0 < asked n) by (intros n ?; unfold asked; destruct (Z.eqb_spec n 0); lia).
  destruct (make_buffer_run w a x fresh_end n1 Ha eq_refl eq_refl Hn1) as (e & h1 & ok1 & E1 & Hp1 & Hr1).
  rewrite (bind_Ok _ _ _ _ _ E1). destruct ok1; cbn [negb].
  2: { exists h1, e, fresh_end, false. split; [|split; [exact Hp1 | reflexivity]]. unfold ret. f_equal. f_equal.
       replace (set_init false (set_ptr (Some fresh_end) y)) with y; [replace (set_init false (set_ptr (Some e) x)) with (set_ptr (Some e) x)|].
       - symmetry. apply insert_id. rewrite lookup_insert_ne by exact Hab. apply Hb.
       - unfold set_init, set_ptr. cbn. rewrite Hx. reflexivity.
       - destruct Hb as [_ Hb]. destruct y. unfold set_init, set_ptr. cbn in *. congruence. }
  set (x1 := set_ptr (Some e) x) in *. set (w1 := mk_world h1 (bios w)).
  change (mk_world h1 (<[a := x1]> (bios w))) with (upd w1 a x1).
  assert (Ha1 : holds (upd w1 a x1) a x1 e) by (apply holds_upd; reflexivity).
  assert (Hb1 : holds (upd w1 a x1) b y fresh_end) by (apply holds_ne; [congruence | exact Hb]).
  destruct (make_buffer_run _ b y fresh_end n2 Hb1 eq_refl eq_refl Hn2) as (f & h2 & ok2 & E2 & Hp2 & Hr2).
  rewrite (bind_Ok _ _ _ _ _ E2). destruct ok2; cbn [negb].
  2: { exists h2, e, f, false. split; [|split; assumption]. unfold ret. f_equal. f_equal. cbn [upd bios w1].
       unfold x1, set_init, set_ptr. cbn. rewrite Hx, Hy. reflexivity. }
  set (y1 := set_ptr (Some f) y) in *. set (w2 := mk_world h2 (<[a := x1]> (bios w))).
  change (mk_world h2 _) with (upd w2 b y1).
  assert (Hb2 : holds (upd w2 b y1) b y1 f) by (apply holds_upd; reflexivity).
  assert (Ha2 : holds (upd w2 b y1) a x1 e).
  { apply holds_ne; [exact Hab|]. exact (holds_heap _ h2 _ _ _ Ha1). }
  set (e' := set_request (set_closed (set_peer e (Some b)) false) 0). set (f' := set_request (set_closed (set_peer f (Some a)) false) 0).
  rewrite (bind_Ok _ _ _ _ _ (load_end_run _ _ _ _ Ha2)), (bind_Ok _ _ _ _ _ (store_end_run _ _ _ _ e' Ha2)).
  set (x2 := set_ptr (Some e') x1). set (w3 := upd (upd w2 b y1) a x2).
  assert (Ha3 : holds w3 a x2 e') by (apply holds_upd; reflexivity).
  assert (Hb3 : holds w3 b y1 f) by (apply holds_ne; [congruence | exact Hb2]).
  rewrite (bind_Ok _ _ _ _ _ (load_end_run _ _ _ _ Hb3)), (bind_Ok _ _ _ _ _ (store_end_run _ _ _ _ f' Hb3)).
  set (y2 := set_ptr (Some f') y1). assert (Ha4 : holds (upd w3 b y2) a x2 e') by (apply holds_ne; assumption).
  rewrite (bind_Ok _ _ _ _ _ (update_run _ _ _ _ (set_init true) Ha4)).
  set (x3 := set_init true x2). assert (Hb5 : holds (upd (upd w3 b y2) a x3) b y2 f').
  { apply holds_ne; [congruence|]. apply holds_upd. reflexivity. }
  rewrite (bind_Ok _ _ _ _ _ (update_run _ _ _ _ (set_init true) Hb5)). unfold ret.
  exists h2, e', f', true. split.
  - f_equal. unfold upd, w3, upd, w2. cbn [heap bios]. f_equal.
    apply map_eq. intros c. destruct (decide (c = b)) as [->|Hcb]; [rewrite !lookup_insert_eq; reflexivity|].
    destruct (decide (c = a)) as [->|Hca].
    + rewrite !(lookup_insert_ne _ b a) by congruence. rewrite !lookup_insert_eq. reflexivity.
    + rewrite !lookup_insert_ne by congruence. reflexivity.
  - destruct (Hr1 eq_refl) as [R1 S1], (Hr2 eq_refl) as [R2 S2]. specialize (Hasked n1 Hn1) as A1. specialize (Hasked n2 Hn2) as A2.
    split; repeat split; cbn [waiting capacity shut wanted]; auto; lia.
Qed.

(** Frees what [o] points to, if anything. *)
Definition removed (o : option addr) (m : gmap addr (BIO bio_bio_st)) : gmap addr (BIO bio_bio_st) :=
  match o with Some c => delete c m | None => m end.
Definition loose (w : world) (o : option addr) : Prop := forall c, o = Some c -> owned w c /\ single w c.

Lemma loose_free (w : world) o : loose w o -> exists h, BIO_free methods_biop o w = (Ok true, mk_world h (removed o (bios w))).
Proof.
  intros H. destruct o as [c|].
  { destruct (H c eq_refl) as [(x & Hx & Hr & Hn) (x' & e & Hw & _ & Hp)]. assert (x' = x) as -> by (destruct Hw; congruence).
    eexists. exact (single_free w c x e Hw Hr Hn Hp). }
  exists (heap w). unfold BIO_free, bind, get. cbn [free_loop removed]. destruct w. reflexivity.
Qed.

Lemma loose_same (w w' : world) c : bios w' !! c = bios w !! c -> loose w (Some c) -> loose w' (Some c).
Proof.
  intros E H c' [= <-]. destruct (H c eq_refl) as [(x & H1 & H2) (x' & e & [H3 H4] & H5)].
  split; [exists x | exists x', e]; unfold holds; rewrite E; auto.
Qed.

(** An end that was made and not joined. *)
Lemma loose_new (w : world) c e : peer e = None -> bios w !! c = Some (set_init false (set_ptr (Some e) fresh_bio)) -> loose w (Some c).
Proof. intros Hp Hc c' [= <-]. split; [eexists; split; [exact Hc | auto] | eexists _, e; repeat split; [exact Hc | reflexivity.. | exact Hp]]. Qed.

Lemma cleanup_run (w : world) o1 o2 :
  o1 <> o2 \/ o1 = None -> loose w o1 -> loose w o2 ->
  exists h, (BIO_free methods_biop o1 ;; BIO_free methods_biop o2 ;; ret (None (A := addr * addr))) w =
    (Ok None, mk_world h (removed o2 (removed o1 (bios w)))).
Proof.
  intros Hne H1 H2. destruct (loose_free w o1 H1) as [h1 E1]. rewrite (bind_Ok _ _ _ _ _ E1).
  set (w1 := mk_world _ _). assert (H3 : loose w1 o2).
  { destruct o2 as [b|]; [|discriminate]. apply (loose_same w); [|exact H2]. destruct o1 as [a|]; [|reflexivity].
    cbn [removed bios w1]. apply lookup_delete_ne. destruct Hne; congruence. }
  destruct (loose_free w1 o2 H3) as [h2 E2]. exists h2. rewrite (bind_Ok _ _ _ _ _ E2). reflexivity.
Qed.

(** [BIO_new_bio_pair] gives two joined BIOs with empty buffers of the sizes
    that were asked for, 17 KiB where that is 0, each with one reference, and
    leaves every other BIO alone; when memory runs out it frees what it made. *)
Theorem BIO_new_bio_pair_spec (w : world) n1 n2 :
  0 <= n1 < 2 ^ 63 -> 0 <= n2 < 2 ^ 63 ->
  (exists a b w', BIO_new_bio_pair n1 n2 w = (Ok (Some (a, b)), w') /\
     bios w !! a = None /\ bios w !! b = None /\
     paired w' a b (mk_side [] (asked n1) false 0) (mk_side [] (asked n2) false 0) /\ owned w' a /\ owned w' b /\
     (forall c, c <> a -> c <> b -> bios w' !! c = bios w !! c)) \/
  (exists h, BIO_new_bio_pair n1 n2 w = (Ok None, mk_world h (bios w))).
Proof.
  intros Hn1 Hn2. unfold BIO_new_bio_pair.
  destruct (BIO_new_run w) as [(h & E)|(a & h & Ha & E)]; rewrite (bind_Ok _ _ _ _ _ E);
    (match goal with |- context [bind (BIO_new methods_biop) _ ?v] => destruct (BIO_new_run v) as [(h2 & E2)|(b & h2 & Hb & E2)] end;
     rewrite (bind_Ok _ _ _ _ _ E2)); cbv zeta.
  - right. apply (cleanup_run (mk_world h2 (bios w))); [auto | discriminate..].
  - right. destruct (cleanup_run (mk_world h2 (<[b := fresh_bio]> (bios w))) None (Some b)) as [h3 E3]; [auto | discriminate | |].
    + apply (loose_new _ b fresh_end eq_refl). apply lookup_insert_eq.
    + exists h3. cbn [removed bios] in E3. rewrite delete_insert_id in E3 by exact Hb. exact E3.
  - right. destruct (cleanup_run (mk_world h2 (<[a := fresh_bio]> (bios w))) (Some a) None) as [h3 E3]; [left; discriminate | | discriminate |].
    + apply (loose_new _ a fresh_end eq_refl). apply lookup_insert_eq.
    + exists h3. cbn [removed bios] in E3. rewrite delete_insert_id in E3 by exact Ha. exact E3.
  - cbn [bios] in Hb. assert (Hab : a <> b) by (intros ->; rewrite lookup_insert_eq in Hb; discriminate).
    assert (Hb' : bios w !! b = None) by (rewrite lookup_insert_ne in Hb by exact Hab; exact Hb).
    set (w2 := mk_world h2 _). assert (La : bios w2 !! a = Some fresh_bio).
    { cbn. rewrite lookup_insert_ne by congruence. apply lookup_insert_eq. }
    destruct (bio_make_pair_run w2 a b fresh_bio fresh_bio n1 n2 Hab) as (h3 & e & f & ok & E3 & Hends); auto.
    { split; [exact La | reflexivity]. } { split; [apply lookup_insert_eq | reflexivity]. }
    rewrite (bind_Ok _ _ _ _ _ E3). set (w3 := mk_world h3 _). set (x' := set_init ok (set_ptr (Some e) fresh_bio)) in *.
    set (y' := set_init ok (set_ptr (Some f) fresh_bio)) in *.
    assert (Wa : bios w3 !! a = Some x') by (cbn; rewrite lookup_insert_ne by congruence; apply lookup_insert_eq).
    assert (Wb : bios w3 !! b = Some y') by apply lookup_insert_eq.
    destruct ok; destruct Hends as [He Hf].
    + left. exists a, b, w3. split; [reflexivity|]. split; [exact Ha|]. split; [exact Hb'|].
      split; [|split; [exists x'; auto | split; [exists y'; auto|]]].
      * split; [exact Hab|]. split; [exists x', e | exists y', f]; repeat split; auto; first [apply He | apply Hf].
      * intros c Hca Hcb. cbn. rewrite !lookup_insert_ne by congruence. reflexivity.
    + right. destruct (cleanup_run w3 (Some a) (Some b)) as [h4 E4]; [left; congruence | apply (loose_new _ _ e He Wa) | apply (loose_new _ _ f Hf Wb)|].
      exists h4. rewrite E4. cbn [removed bios heap w3 w2]. f_equal. f_equal. apply map_eq. intros c.
      destruct (decide (c = b)) as [->|Hcb]; [rewrite lookup_delete_eq, Hb'; reflexivity|]. rewrite lookup_delete_ne by congruence.
      destruct (decide (c = a)) as [->|Hca]; [rewrite lookup_delete_eq, Ha; reflexivity|].
      rewrite lookup_delete_ne, !lookup_insert_ne by congruence. reflexivity.
Qed.

Lemma bio_destroy_pair_run (w : world) a b x y e f :
  a <> b -> holds w a x e -> holds w b y f -> peer e = Some b -> peer f = Some a -> is_Some (buf e) -> is_Some (buf f) ->
  bio_destroy_pair a w = (Ok tt,
    upd (upd w b (set_init false (set_ptr (Some (set_ring (set_peer f None) 0 0 (buf f))) y)))
      a (set_init false (set_ptr (Some (set_ring (set_peer e None) 0 0 (buf e))) x))).
Proof.
  intros Hab Ha Hb Hp Hq Be Bf. unfold bio_destroy_pair.
  rewrite (bind_Ok _ _ _ _ _ (load_run _ _ _ _ Ha)). destruct Ha as [Ha Hx]. rewrite Hx, Hp.
  rewrite (bind_Ok _ _ _ _ _ (load_end_run _ _ _ _ Hb)).
  rewrite (bind_Ok _ _ _ _ _ (assert_run (bool_decide (peer f = Some a)) w ltac:(apply bool_decide_eq_true_2, Hq))).
  rewrite (bind_Ok _ _ _ _ _ (assert_run (bool_decide (is_Some (buf f))) w ltac:(apply bool_decide_eq_true_2, Bf))).
  set (f' := set_ring _ _ _ (buf f)). rewrite (bind_Ok _ _ _ _ _ (store_end_run _ _ _ _ f' Hb)).
  set (y1 := set_ptr (Some f') y). assert (Hb1 : holds (upd w b y1) b y1 f') by (apply holds_upd; reflexivity).
  rewrite (bind_Ok _ _ _ _ _ (update_run _ _ _ _ (set_init false) Hb1)), upd_upd.
  assert (Ha2 : holds (upd w b (set_init false y1)) a x e) by (apply holds_ne; [exact Hab | split; assumption]).
  rewrite (bind_Ok _ _ _ _ _ (load_end_run _ _ _ _ Ha2)).
  rewrite (bind_Ok _ _ _ _ _ (assert_run (bool_decide (is_Some (buf e))) _ ltac:(apply bool_decide_eq_true_2, Be))).
  set (e' := set_ring _ _ _ (buf e)). rewrite (bind_Ok _ _ _ _ _ (store_end_run _ _ _ _ e' Ha2)).
  set (x1 := set_ptr (Some e') x). assert (Ha3 : holds (upd (upd w b (set_init false y1)) a x1) a x1 e') by (apply holds_upd; reflexivity).
  rewrite (update_run _ _ _ _ (set_init false) Ha3), upd_upd. reflexivity.
Qed.

(** C19: freeing one BIO of a pair takes its peer out of service without leaving
    a pointer to the freed one behind: what is left answers every read and write
    with -2 and can be freed in turn.  When both are freed, the allocator has got
    back the two ring buffers, the two ends and the two BIOs, each of them once. *)
Theorem BIO_free_pair (w : world) a b sa sb :
  paired w a b sa sb -> owned w a -> owned w b ->
  exists w', BIO_free methods_biop (Some a) w = (Ok true, w') /\ dom (bios w') = dom (bios w) ∖ {[a]} /\
    (forall ok n, BIO_read methods_biop (Some b) ok n w' = (Ok (-2, []), w')) /\
    (forall data n, BIO_write methods_biop (Some b) data n w' = (Ok (-2), w')) /\
    BIO_free methods_biop (Some b) w' = (Ok true, mk_world
      (fold_left OPENSSL_free [capacity sa; sizeof_bio_bio_st; sizeof_BIO; capacity sb; sizeof_bio_bio_st; sizeof_BIO] (heap w))
      (delete b (delete a (bios w)))).
Proof.
  intros (Hab & (x & e & Ha & Hix & He) & (y & f & Hb & Hiy & Hf)) (x' & Hx & Hrx & Hnx) (y' & Hy & Hry & Hny).
  assert (x' = x) as -> by (destruct Ha; congruence). assert (y' = y) as -> by (destruct Hb; congruence).
  set (x2 := set_next None (set_references 0 x)). assert (Ha2 : holds (upd w a x2) a x2 e) by (apply holds_upd; apply Ha).
  assert (Hb2 : holds (upd w a x2) b y f) by (apply holds_ne; [congruence | exact Hb]).
  destruct He as (Hpe & _ & Hze & _ & (me & Hme & Hle & _) & _), Hf as (Hpf & _ & Hzf & _ & (mf & Hmf & Hlf & _) & _).
  pose proof (bio_destroy_pair_run _ a b x2 y e f Hab Ha2 Hb2 Hpe Hpf ltac:(rewrite Hme; eauto) ltac:(rewrite Hmf; eauto)) as Ed.
  set (y3 := set_init false _) in Ed. set (x3 := set_init false (set_ptr _ x2)) in Ed.
  set (w3 := upd (upd (upd w a x2) b y3) a x3) in *. assert (Ha3 : holds w3 a x3 _) by (apply holds_upd; reflexivity).
  set (e3 := set_ring (set_peer e None) 0 0 (buf e)) in *. set (f3 := set_ring (set_peer f None) 0 0 (buf f)) in *.
  assert (Ef : bio_free a (upd w a x2) = (Ok tt, mk_world (free_end e3 (heap w)) (<[a := set_ptr None x3]> (bios w3)))).
  { unfold bio_free. rewrite (bind_Ok _ _ _ _ _ (load_end_run _ _ _ _ Ha2)), Hpe, (bind_Ok _ _ _ _ _ Ed).
    apply (free_end_run _ _ _ _ Ha3). }
  eexists. split; [exact (BIO_free_last _ _ _ _ _ Ha Hrx Hnx Ef)|].
  set (w4 := mk_world _ _). assert (E4 : bios w4 = <[b := y3]> (delete a (bios w))).
  { apply map_eq. intros c. unfold w4, w3, upd. cbn [bios].
    destruct (decide (c = a)) as [->|Hca]; [rewrite lookup_delete_eq, lookup_insert_ne, lookup_delete_eq by congruence; reflexivity|].
    rewrite lookup_delete_ne, !(lookup_insert_ne _ a c) by congruence.
    destruct (decide (c = b)) as [->|Hcb]; [rewrite !lookup_insert_eq; reflexivity|].
    rewrite !lookup_insert_ne, lookup_delete_ne by congruence. reflexivity. }
  assert (Hb4 : bios w4 !! b = Some y3) by (rewrite E4; apply lookup_insert_eq).
  assert (Hl : load b w4 = (Ok y3, w4)) by (unfold load; rewrite Hb4; reflexivity).
  split; [|split; [|split]].
  - rewrite E4, dom_insert_L, dom_delete_L. assert (b ∈ dom (bios w)) by (apply elem_of_dom; eauto). set_solver.
  - intros ok n. cbn [BIO_read methods_biop bread]. rewrite (bind_Ok _ _ _ _ _ Hl). reflexivity.
  - intros data n. cbn [BIO_write methods_biop bwrite]. rewrite (bind_Ok _ _ _ _ _ Hl). reflexivity.
  - rewrite (single_free w4 b y3 f3); [| split; [exact Hb4 | reflexivity] | exact Hry | exact Hny | reflexivity].
    f_equal. f_equal; [|rewrite E4, delete_insert_eq; reflexivity].
    change (fold_left _ _ _) with (OPENSSL_free (OPENSSL_free (OPENSSL_free (OPENSSL_free (OPENSSL_free (OPENSSL_free (heap w)
      (capacity sa)) sizeof_bio_bio_st) sizeof_BIO) (capacity sb)) sizeof_bio_bio_st) sizeof_BIO).
    unfold w4. cbn [heap]. unfold free_end, e3, f3. cbn [set_ring set_peer buf heap]. rewrite Hme, Hmf, Hle, Hlf, Hze, Hzf. reflexivity.
Qed.
End lifecycle.

Section traces.
Context {A : Type} {AL : Allocator A}.

Lemma actions_run acts : forall (w : world A bio_bio_st) a b sa sb,
  paired w a b sa sb -> Forall (fun o => valid (snd o)) acts ->
  let '(sa', sb', rs) := spec_actions acts sa sb in
  exists w', run_actions acts a b w = (Ok rs, w') /\ paired w' a b sa' sb'.
Proof.
  induction acts as [|[first act] acts IH]; intros w a b sa sb Hp Hv; cbn [spec_actions run_actions].
  { exists w. auto. }
  apply Forall_cons in Hv as [Hv Hvs]. destruct first.
  - pose proof (action_run w a b sa sb act Hp Hv) as Ha. destruct (spec_action act sa sb) as [[sa1 sb1] r].
    destruct Ha as (w1 & E & Hp1). specialize (IH w1 a b sa1 sb1 Hp1 Hvs). destruct (spec_actions acts sa1 sb1) as [[sa2 sb2] rs].
    destruct IH as (w2 & E2 & Hp2). exists w2. rewrite (bind_Ok _ _ _ _ _ E), (bind_Ok _ _ _ _ _ E2). auto.
  - pose proof (action_run w b a sb sa act (paired_sym _ _ _ _ _ Hp) Hv) as Ha. destruct (spec_action act sb sa) as [[sb1 sa1] r].
    destruct Ha as (w1 & E & Hp1). apply paired_sym in Hp1.
    specialize (IH w1 a b sa1 sb1 Hp1 Hvs). destruct (spec_actions acts sa1 sb1) as [[sa2 sb2] rs].
    destruct IH as (w2 & E2 & Hp2). exists w2. rewrite (bind_Ok _ _ _ _ _ E), (bind_Ok _ _ _ _ _ E2). auto.
Qed.

(** C10: any sequence of reads, writes, shutdowns and queries on the two BIOs of
    a pair, in any order, gives the results of two bounded queues, one in each
    direction; no access leaves a ring buffer and no assertion fails. *)
Theorem bio_pair_refines acts (w : world A bio_bio_st) a b sa sb :
  paired w a b sa sb -> Forall (fun o => valid (snd o)) acts ->
  let '(sa', sb', rs) := spec_actions acts sa sb in
  exists w', run_actions acts a b w = (Ok rs, w') /\ paired w' a b sa' sb'.
Proof. apply actions_run. Qed.

(** what one BIO of a pair delivers is what the other one accepted, byte for
    byte and in order, whatever the interleaving: the bytes that came out and
    those that still wait are the bytes that went in. *)
Theorem bio_pair_stream acts (w : world A bio_bio_st) a b sa sb rs w' :
  paired w a b sa sb -> Forall (fun o => valid (snd o)) acts ->
  run_actions acts a b w = (Ok rs, w') ->
  exists sa' sb', paired w' a b sa' sb' /\ waiting sa ++ accepted acts rs = delivered acts rs ++ waiting sa'.
Proof.
  intros Hp Hv E. pose proof (actions_run acts w a b sa sb Hp Hv) as Hrun. pose proof (conservation acts sa sb Hv) as Hc.
  destruct (spec_actions acts sa sb) as [[sa' sb'] rs']. destruct Hrun as (w2 & E2 & Hp2). rewrite E in E2. injection E2 as <- <-.
  exists sa', sb'. auto.
Qed.
End traces.

(** ** Instances *)

(** Two ends with rings of four and of three bytes. *)
Definition example_world : world unit bio_bio_st := snd (BIO_new_bio_pair 4 3 (mk_world tt ∅)).

Lemma example_paired : paired example_world 0%nat 1%nat (mk_side [] 4 false 0) (mk_side [] 3 false 0).
Proof.
  split; [discriminate|]. split; eexists _, _; (split; [split; vm_compute; reflexivity|]); (split; [reflexivity|]);
    (split; [reflexivity|]); (split; [reflexivity|]); (split; [reflexivity|]); (split; [reflexivity|]);
    (split; [|split; vm_compute; discriminate]); (eexists; split; [reflexivity|]);
    vm_compute; repeat split; discriminate.
Qed.

Lemma example_owned c : (c < 2)%nat -> owned example_world c.
Proof. intros H. destruct c as [|[|c]]; [| |lia]; (eexists; split; [vm_compute; reflexivity | auto]). Qed.

(** The ring of the first BIO wraps around twice. *)
Definition example_actions : list (bool * action) :=
  [(true, Write [Byte.x61; Byte.x62; Byte.x63]); (false, Read 2); (true, Write [Byte.x64; Byte.x65; Byte.x66; Byte.x67]);
   (false, Read 9); (false, Read 5); (true, Request); (true, Write [Byte.x68]); (true, Shutdown); (true, Write [Byte.x69]);
   (false, Pending); (false, Read 9); (false, Read 9)].

Lemma example_valid : Forall (fun o => valid (snd o)) example_actions.
Proof. repeat constructor; cbn; unfold zlen, INT_MAX; cbn; lia. Qed.

Definition example_results : list (Z * list byte) :=
  [(3, []); (2, [Byte.x61; Byte.x62]); (3, []); (4, [Byte.x63; Byte.x64; Byte.x65; Byte.x66]); (-1, []); (4, []);
   (1, []); (1, []); (-1, []); (1, []); (1, [Byte.x68]); (0, [])].

Lemma bio_pair_refines_witness :
  exists w', run_actions example_actions 0%nat 1%nat example_world = (Ok example_results, w') /\
    paired w' 0%nat 1%nat (mk_side [] 4 true 0) (mk_side [] 3 false 0).
Proof. exact (bio_pair_refines example_actions example_world 0%nat 1%nat _ _ example_paired example_valid). Defined.

Lemma bio_pair_stream_witness :
  exists sa' sb', paired (snd (run_actions example_actions 0%nat 1%nat example_world)) 0%nat 1%nat sa' sb' /\
    [] ++ accepted example_actions example_results = delivered example_actions example_results ++ waiting sa'.
Proof.
  assert (E : fst (run_actions example_actions 0%nat 1%nat example_world) = Ok example_results) by (vm_compute; reflexivity).
  apply (bio_pair_stream example_actions example_world 0%nat 1%nat _ _ example_results _ example_paired example_valid).
  rewrite <- E. destruct (run_actions _ _ _ _). reflexivity.
Defined.

Lemma BIO_new_bio_pair_spec_witness : 0 <= 4 < 2 ^ 63 /\
  exists a b w', BIO_new_bio_pair 4 0 (mk_world tt ∅) = (Ok (Some (a, b)), w') /\
    paired w' a b (mk_side [] 4 false 0) (mk_side [] 17408 false 0).
Proof.
  split; [lia|]. destruct (BIO_new_bio_pair_spec (mk_world tt ∅) 4 0) as [(a & b & w' & E & _ & _ & Hp & _)|(h & E)];
    [lia | lia | exists a, b, w'; auto |]. exfalso. apply (f_equal (fun r => match fst r with Ok None => true | _ => false end)) in E.
  vm_compute in E. discriminate E.
Defined.

Lemma BIO_free_pair_witness :
  exists w', BIO_free methods_biop (Some 0%nat) example_world = (Ok true, w') /\
    (forall ok n, BIO_read methods_biop (Some 1%nat) ok n w' = (Ok (-2, []), w')).
Proof.
  destruct (BIO_free_pair example_world 0%nat 1%nat _ _ example_paired ltac:(apply example_owned; lia) ltac:(apply example_owned; lia))
    as (w' & E & _ & Hr & _). exists w'. auto.
Defined.

(** Whichever of its six requests is refused, or none, a pair that is made and
    freed leaves the allocator the block that was in use before. *)
Definition pair_life (refused : nat) : option (list Z) :=
  let w := mk_world (mk_ledger (Some [100]) (repeat false refused ++ [true])) ∅ in
  in_use (heap (snd ((pair <- BIO_new_bio_pair 4 8 ;;
    match pair with
    | Some (a, b) => BIO_free methods_biop (Some a) ;; BIO_free methods_biop (Some b)
    | None => ret true
    end) w))).

Example pair_balanced : map pair_life (seq 0 7) = repeat (Some [100]) 7.
Proof. vm_compute. reflexivity. Qed.
