(* ===== verification/BioLive.v ===== *)
(** A pair of BIOs does not get stuck: under every schedule in which the sender
    and the receiver take their turns often enough, whatever else is done with
    the pair meanwhile, everything that is sent arrives. *)
From Stdlib Require Import ZArith Lia Bool.
From coqutil Require Import Byte.
From stdpp Require Import base list numbers gmap.
From S2P Require Import Prelude Alloc Bio BioPair.
Local Open Scope Z_scope.
Local Open Scope c_scope.

(** A step of a program that moves data from the first BIO to the second: the
    sender writes what is left, the receiver reads up to [n] bytes, or something
    else happens to one of the BIOs. *)
Inductive turn :=
  | Send
  | Receive (n : Z)
  | Elsewhere (first : bool) (act : action).

(** What happens elsewhere neither puts bytes on the way, nor takes them off, nor
    closes it; the other direction is free. *)
Definition allowed (t : turn) : Prop :=
  match t with
  | Send => True
  | Receive n => 0 < n <= INT_MAX
  | Elsewhere true (Write _ | Shutdown) | Elsewhere false (Read _) => False
  | Elsewhere _ act => valid act
  end.

(** How often a turn of the sender is followed by one of the receiver. *)
Fixpoint rounds (sent : bool) (turns : list turn) : Z :=
  match turns with
  | [] => 0
  | Send :: turns => rounds true turns
  | Receive _ :: turns => (if sent then 1 else 0) + rounds false turns
  | Elsewhere _ _ :: turns => rounds sent turns
  end.

Lemma rounds_nonneg turns : forall sent, 0 <= rounds sent turns.
Proof.
  induction turns as [|[|n|first act] turns IH]; intros sent; cbn [rounds]; [lia | apply IH | | apply IH].
  specialize (IH false). destruct sent; lia.
Qed.

Section transfer.
Context {A : Type} {AL : Allocator A}.
Notation W := (M (world A bio_bio_st)).

(** What was received and what is left to send. *)
Fixpoint transfer (turns : list turn) (a b : addr) (rest : list byte) : W (list byte * list byte) :=
  match turns with
  | [] => ret ([], rest)
  | Send :: turns =>
      let chunk := ztake INT_MAX rest in
      r <- BIO_write methods_biop (Some a) (Some chunk) (zlen chunk) ;;
      transfer turns a b (if 0 <? r then zdrop r rest else rest)
  | Receive n :: turns =>
      ' (_, data) <- BIO_read methods_biop (Some b) true n ;;
      ' (received, rest) <- transfer turns a b rest ;;
      ret (data ++ received, rest)
  | Elsewhere first act :: turns =>
      run_action act (if first then a else b) ;;
      transfer turns a b rest
  end.

(** A way that is open: the bytes on it, and what may change about its ends. *)
Definition open_way (s : side) : Prop := shut s = false /\ 0 < capacity s.

Lemma zlen_chunk (rest : list byte) : zlen (ztake INT_MAX rest) <= INT_MAX /\ (rest <> [] -> 0 < zlen (ztake INT_MAX rest)).
Proof.
  unfold zlen, ztake. rewrite length_take. split; [lia|]. intros H. destruct rest as [|x rest]; [contradiction|].
  cbn [length]. lia.
Qed.

Lemma zdrop_ztake_chunk (rest : list byte) r : r <= zlen (ztake INT_MAX rest) -> ztake r (ztake INT_MAX rest) ++ zdrop r rest = rest.
Proof.
  intros Hr. unfold zlen, ztake, zdrop in *. rewrite length_take in Hr. rewrite take_take, Nat.min_l by lia. apply take_drop.
Qed.

(** A turn of the sender moves bytes from what is left to the way, and at least
    one if the way was empty. *)
Lemma send_turn s rest : open_way s ->
  let chunk := ztake INT_MAX rest in
  let '(s', r) := write_side chunk s in
  let rest' := if 0 <? r then zdrop r rest else rest in
  open_way s' /\ waiting s' ++ rest' = waiting s ++ rest /\ (waiting s' <> [] \/ rest' = []).
Proof.
  intros [Hs Hc]. destruct (zlen_chunk rest) as [Hmax Hpos]. cbv zeta. set (chunk := ztake INT_MAX rest) in *. unfold write_side. rewrite Hs. cbn [orb].
  destruct (Z.eqb_spec (zlen chunk) 0) as [E|E].
  { assert (rest = []) as -> by (destruct rest; [reflexivity | specialize (Hpos ltac:(discriminate)); lia]).
    cbn. split; [split; assumption|]. auto. }
  destruct (Z.eqb_spec (zlen (waiting s)) (capacity s)) as [Ef|Ef].
  { cbn. split; [split; [reflexivity | exact Hc]|]. split; [reflexivity|]. left. intros E0. rewrite E0 in Ef. change (zlen []) with 0 in Ef. lia. }
  set (r := Z.min _ _). cbn [waiting shut capacity]. split; [split; [reflexivity | exact Hc]|]. destruct (Z.ltb_spec 0 r) as [Hr|Hr].
  - rewrite <- app_assoc. unfold chunk. rewrite zdrop_ztake_chunk by (fold chunk; lia). split; [reflexivity|]. left.
    intros E0. apply app_eq_nil in E0 as [_ E0]. fold chunk in E0. apply (f_equal zlen) in E0. rewrite zlen_ztake in E0 by lia. change (zlen []) with 0 in E0. lia.
  - replace (ztake r chunk) with (@nil Init.Byte.byte) by (unfold ztake; replace (Z.to_nat r) with 0%nat by lia; reflexivity).
    rewrite app_nil_r. split; [reflexivity|]. left. intros E0. assert (Ez : zlen (waiting s) = 0) by (rewrite E0; reflexivity).
    pose proof (zlen_nonneg chunk). unfold r in Hr. lia.
Qed.

(** A turn of the receiver takes bytes off the way, and at least one if there is one. *)
Lemma receive_turn s n : open_way s -> 0 < n ->
  let '(s', (_, data)) := read_side n s in
  open_way s' /\ waiting s = data ++ waiting s' /\ (waiting s <> [] -> 0 < zlen data).
Proof.
  intros [Hs Hc] Hn. unfold read_side. destruct (Z.eqb_spec n 0); [lia|].
  destruct (Z.eqb_spec (zlen (waiting s)) 0) as [E|E].
  - rewrite Hs. split; [split; [reflexivity | exact Hc]|]. split; [reflexivity|]. intros H. destruct (waiting s); [contradiction|]. unfold zlen in E. cbn in E. lia.
  - pose proof (zlen_nonneg (waiting s)). split; [split; assumption|]. cbn [waiting]. split; [symmetry; apply ztake_zdrop|].
    intros _. rewrite zlen_ztake; lia.
Qed.

Lemma elsewhere_turn first act sa sb : allowed (Elsewhere first act) -> open_way sa ->
  let '(sa', _, _) := if first then spec_action act sa sb else let '(sb', sa', r) := spec_action act sb sa in (sa', sb', r) in
  open_way sa' /\ waiting sa' = waiting sa.
Proof.
  intros Ha Ho. destruct first, act; cbn in Ha |- *; try contradiction; try (split; [exact Ho | reflexivity]).
  - unfold read_side. repeat (destruct (_ =? 0)); try destruct (shut sb); split; (exact Ho || reflexivity).
  - unfold write_side. destruct (_ =? 0); [|destruct (_ || _)]; split; (exact Ho || reflexivity).
Qed.

Lemma transfer_run turns : forall (w : world A bio_bio_st) a b sa sb rest sent,
  paired w a b sa sb -> open_way sa -> Forall allowed turns -> (sent = true -> waiting sa <> [] \/ rest = []) ->
  zlen (waiting sa) + zlen rest <= rounds sent turns ->
  exists w' sa' sb', transfer turns a b rest w = (Ok (waiting sa ++ rest, []), w') /\ paired w' a b sa' sb' /\ waiting sa' = [].
Proof.
  induction turns as [|t turns IH]; intros w a b sa sb rest sent Hp Ho Hall Hinv Hr.
  - cbn [rounds] in Hr. assert (waiting sa = [] /\ rest = []) as [E1 E2].
    { unfold zlen in Hr. split; apply nil_length_inv; lia. }
    exists w, sa, sb. cbn [transfer]. rewrite E1, E2. auto.
  - apply Forall_cons_iff in Hall as [Ht Hall]. destruct t as [|n|first act]; cbn [transfer rounds] in *.
    + pose proof (send_turn sa rest Ho) as Hsend. cbv zeta in *. set (chunk := ztake INT_MAX rest) in *.
      destruct (BIO_write_run w a b sa sb chunk Hp (proj1 (zlen_chunk rest))) as (w1 & E & Hp1). rewrite (bind_Ok _ _ _ _ _ E).
      destruct (write_side chunk sa) as [sa1 r]. cbn [fst snd] in *. destruct Hsend as (Ho1 & Ew & Hne). set (rest1 := if 0 <? r then _ else _) in *.
      rewrite <- Ew. apply (IH w1 a b sa1 sb rest1 true); auto. rewrite <- zlen_app, Ew, zlen_app. exact Hr.
    + cbn in Ht. pose proof (receive_turn sa n Ho (proj1 Ht)) as Hrecv.
      destruct (BIO_read_run w b a sb sa n (paired_sym _ _ _ _ _ Hp) ltac:(lia)) as (w1 & E & Hp1). apply paired_sym in Hp1. rewrite (bind_Ok _ _ _ _ _ E).
      destruct (read_side n sa) as [sa1 [r data]]. cbn [fst snd] in *. destruct Hrecv as (Ho1 & Ew & Hpos).
      assert (Hlen : zlen (waiting sa) = zlen data + zlen (waiting sa1)) by (rewrite Ew at 1; apply zlen_app).
      destruct (IH w1 a b sa1 sb rest false Hp1 Ho1 Hall ltac:(discriminate)) as (w2 & sa2 & sb2 & E2 & Hp2 & Hw2).
      { destruct sent; [|pose proof (zlen_nonneg data); lia]. destruct (Hinv eq_refl) as [Hne| ->]; [specialize (Hpos Hne); lia|].
        destruct (waiting sa) as [|x q] eqn:Eq; [|specialize (Hpos ltac:(discriminate)); lia].
        pose proof (zlen_nonneg data). pose proof (zlen_nonneg (waiting sa1)).
        pose proof (rounds_nonneg turns false). change (zlen []) with 0 in *. lia. }
      rewrite (bind_Ok _ _ _ _ _ E2). exists w2, sa2, sb2. split; [|auto]. unfold ret. rewrite Ew, <- app_assoc. reflexivity.
    + pose proof (elsewhere_turn first act sa sb Ht Ho) as Helse.
      assert (Hact : exists w1 sa1 sb1, run_action act (if first then a else b) w = (Ok (snd (if first then spec_action act sa sb else let '(sb', sa', r) := spec_action act sb sa in (sa', sb', r))), w1) /\
        paired w1 a b sa1 sb1 /\ open_way sa1 /\ waiting sa1 = waiting sa).
      { assert (Hv : valid act) by (destruct first, act; cbn in Ht |- *; auto; contradiction). destruct first.
        - pose proof (action_run w a b sa sb act Hp Hv) as Hrun. destruct (spec_action act sa sb) as [[sa1 sb1] r]. destruct Hrun as (w1 & E & Hp1). exists w1, sa1, sb1. auto.
        - pose proof (action_run w b a sb sa act (paired_sym _ _ _ _ _ Hp) Hv) as Hrun. destruct (spec_action act sb sa) as [[sb1 sa1] r].
          destruct Hrun as (w1 & E & Hp1). exists w1, sa1, sb1. split; [exact E|]. split; [apply paired_sym, Hp1 | exact Helse]. }
      destruct Hact as (w1 & sa1 & sb1 & E & Hp1 & Ho1 & Ew). rewrite (bind_Ok _ _ _ _ _ E), <- Ew in *.
      apply (IH w1 a b sa1 sb1 rest sent); auto.
Qed.

(** C36: Everything that is sent arrives: when the sender's turns are followed by
    the receiver's at least once for each byte that is on the way or still to be
    sent, the receiver has got all of them, in order, and nothing is left; however
    small the buffers and the reads are, and whatever happens in between in the
    other direction. *)
Theorem bio_pair_delivers turns (w : world A bio_bio_st) a b sa sb data :
  paired w a b sa sb -> shut sa = false -> 0 < capacity sa -> Forall allowed turns ->
  zlen (waiting sa) + zlen data <= rounds false turns ->
  exists w' sa' sb', transfer turns a b data w = (Ok (waiting sa ++ data, []), w') /\ paired w' a b sa' sb' /\ waiting sa' = [].
Proof. intros Hp Hs Hc Hall Hr. apply (transfer_run turns w a b sa sb data false); try assumption; [split; assumption | discriminate]. Qed.
End transfer.

(** A ring of four bytes, six bytes to send and reads of two bytes, with traffic in
    the other direction. *)
Definition example_turns : list turn :=
  [Send; Elsewhere false (Write [Byte.x01; Byte.x02]); Receive 2; Send; Elsewhere true (Read 5); Receive 2; Send; Receive 2; Receive 1;
   Send; Elsewhere false Shutdown; Receive 2; Send; Receive 2; Send; Elsewhere true Request; Receive 2].

Lemma bio_pair_delivers_witness :
  0 < 4 /\ exists w', transfer example_turns 0%nat 1%nat (map b8 [1; 2; 3; 4; 5; 6]) example_world = (Ok (map b8 [1; 2; 3; 4; 5; 6], []), w').
Proof.
  split; [lia|].
  destruct (bio_pair_delivers example_turns example_world 0%nat 1%nat _ _ (map b8 [1; 2; 3; 4; 5; 6]) example_paired eq_refl) as (w' & _ & _ & E & _).
  - reflexivity.
  - unfold example_turns. repeat (apply Forall_cons_iff; split; [cbn; unfold zlen, INT_MAX; cbn; lia || exact I|]). constructor.
  - discriminate.
  - exists w'. exact E.
Defined.
