(* ===== verification/Buf.v ===== *)
(** Growing buffers: ios/Pods/BoringSSL-GRPC/src/crypto/buf/buf.c.  A [BUF_MEM]
    has an address, since memory BIOs share theirs with their callers. *)
From Stdlib Require Import ZArith Lia Bool.
From coqutil Require Import Byte.
From stdpp Require Import base list numbers gmap.
From S2P Require Import Prelude Alloc.
Local Open Scope Z_scope.
Local Open Scope c_scope.

Notation addr := nat.

(** A pointer into a block, [at_] bytes behind its start; only a block of the
    allocator may be written, resized and freed. *)
Record pointer := mk_pointer { owned : bool; block : list byte; at_ : Z }.

(** [struct buf_mem_st]; [data] is [None] for NULL. *)
Record BUF_MEM := mk_buf { length_ : Z; data : option pointer; max : Z }.

(** A variable of a caller that a function stores a pointer in. *)
Inductive variable := Chars (p : option pointer) | Buffer (b : option addr).

(** The allocator, the [BUF_MEM]s it has given out, and the callers' variables. *)
Record mem_heap (A : Type) := mk_mem_heap { allocator : A; bufs : gmap addr BUF_MEM; variables : gmap addr variable }.
Arguments mk_mem_heap {A}. Arguments allocator {A}. Arguments bufs {A}. Arguments variables {A}.

#[export] Program Instance mem_heap_allocator {A} {AL : Allocator A} : Allocator (mem_heap A) := {
  OPENSSL_realloc h old n := let '(r, a) := OPENSSL_realloc (allocator h) old n in (r, mk_mem_heap a (bufs h) (variables h));
  OPENSSL_free h n := mk_mem_heap (OPENSSL_free (allocator h) n) (bufs h) (variables h);
}.
Next Obligation.
  intros A AL h old n new h' Hn E. cbv beta in E. destruct (OPENSSL_realloc (allocator h) old n) as [r a] eqn:Er. injection E as -> _. exact (realloc_length _ _ _ _ _ Hn Er).
Qed.
Next Obligation.
  intros A AL h old n new h' Hn E. cbv beta in E. destruct (OPENSSL_realloc (allocator h) old n) as [r a] eqn:Er. injection E as -> _. exact (realloc_keeps _ _ _ _ _ Hn Er).
Qed.

Section buf.
Context {A : Type} {AL : Allocator A}.
Notation H := (M (mem_heap A)).

Definition load_buf (b : addr) : H BUF_MEM := fun h =>
  match bufs h !! b with Some m => (Ok m, h) | None => (Stuck, h) end.
Definition store_buf (b : addr) (m : BUF_MEM) : H unit := fun h =>
  match bufs h !! b with
  | Some _ => (Ok tt, mk_mem_heap (allocator h) (<[b := m]> (bufs h)) (variables h))
  | None => (Stuck, h)
  end.

(** [OPENSSL_realloc] of a pointer. *)
Definition realloc_data (p : option pointer) (n : Z) : H (option (list byte)) := fun h =>
  match p with
  | Some (mk_pointer false _ _) => (Stuck, h)
  | Some (mk_pointer true old off) =>
      if negb (off =? 0) then (Stuck, h) else let '(r, h) := OPENSSL_realloc h old n in (Ok r, h)
  | None => let '(r, h) := OPENSSL_realloc h [] n in (Ok r, h)
  end.

Definition free_data (p : option pointer) : H unit :=
  match p with
  | Some p => if owned p && (at_ p =? 0) then fun h => (Ok tt, OPENSSL_free h (zlen (block p))) else stuck
  | None => ret tt
  end.

(** The bytes at [p + off]; a copy of no bytes does not look at the pointer. *)
Definition write_data (p : option pointer) (off : Z) (bs : list byte) : H (option pointer) :=
  if zlen bs =? 0 then ret p else
  match p with
  | Some (mk_pointer own blk start) =>
      let o := start + off in
      if own && (0 <=? o) && (o + zlen bs <=? zlen blk) then ret (Some (mk_pointer own (splice blk o bs) start)) else stuck
  | None => stuck
  end.
Definition read_data (p : option pointer) (off n : Z) : H (list byte) :=
  if n =? 0 then ret [] else
  match p with
  | Some (mk_pointer _ blk start) =>
      let o := start + off in
      if (0 <=? o) && (0 <=? n) && (o + n <=? zlen blk) then ret (ztake n (zdrop o blk)) else stuck
  | None => stuck
  end.

Definition sizeof_BUF_MEM : Z := 24.

Definition BUF_MEM_new : H (option addr) := fun h =>
  match OPENSSL_malloc h sizeof_BUF_MEM with
  | (None, h) => (Ok None, h)
  | (Some _, h) =>
      let b := fresh (dom (bufs h)) in
      (Ok (Some b), mk_mem_heap (allocator h) (<[b := mk_buf 0 None 0]> (bufs h)) (variables h))
  end.

Definition BUF_MEM_free (buf : option addr) : H unit :=
  match buf with
  | None => ret tt
  | Some b =>
      m <- load_buf b ;;
      free_data (data m) ;;
      fun h => (Ok tt, mk_mem_heap (OPENSSL_free (allocator h) sizeof_BUF_MEM) (delete b (bufs h)) (variables h))
  end.

Definition BUF_MEM_reserve (buf : addr) (cap : Z) : H bool :=
  m <- load_buf buf ;;
  if cap <=? max m then ret true else
  let n := u64 (cap + 3) in
  if n <? cap then ret false else
  let n := n / 3 in
  let alloc_size := u64 (n * 4) in
  if negb (alloc_size / 4 =? n) then ret false else
  new_buf <- realloc_data (data m) alloc_size ;;
  match new_buf with
  | None => ret false
  | Some new_buf => store_buf buf (mk_buf (length_ m) (Some (mk_pointer true new_buf 0)) alloc_size) ;; ret true
  end.

Definition BUF_MEM_grow (buf : addr) (len : Z) : H Z :=
  ok <- BUF_MEM_reserve buf len ;;
  if negb ok then ret 0 else
  m <- load_buf buf ;;
  d <- (if length_ m <? len then write_data (data m) (length_ m) (zeros (len - length_ m)) else ret (data m)) ;;
  store_buf buf (mk_buf len d (max m)) ;;
  ret len.

Definition BUF_MEM_grow_clean (buf : addr) (len : Z) : H Z := BUF_MEM_grow buf len.

Definition BUF_MEM_append (buf : addr) (inn : list byte) : H bool :=
  let len := zlen inn in
  if len =? 0 then ret true else
  m <- load_buf buf ;;
  let new_len := u64 (length_ m + len) in
  if new_len <? len then ret false else
  ok <- BUF_MEM_reserve buf new_len ;;
  if negb ok then ret false else
  m <- load_buf buf ;;
  d <- write_data (data m) (length_ m) inn ;;
  store_buf buf (mk_buf new_len d (max m)) ;;
  ret true.
End buf.
