(* ===== verification/BioMem.v ===== *)
(** Memory BIOs: ios/Pods/BoringSSL-GRPC/src/crypto/bio/bio_mem.c, a method
    table over the buffers of Buf.v.  What [ptr] points to is the address of a
    [BUF_MEM], which the BIO owns or shares with its caller. *)
From Stdlib Require Import ZArith Lia Bool.
From coqutil Require Import Byte.
From stdpp Require Import base list numbers gmap.
From S2P Require Import Prelude Alloc Buf Bio.
Local Open Scope Z_scope.
Local Open Scope c_scope.

Section mem.
Context {A : Type} {AL : Allocator A}.
Notation W := (M (world (mem_heap A) addr)).

(** A function on the heap. *)
Definition on_heap {B} (c : M (mem_heap A) B) : W B := fun w =>
  let '(r, h) := c (heap w) in (r, mk_world h (bios w)).

(** [*p = v] for a variable of the caller. *)
Definition assign (p : addr) (v : variable) : W unit := on_heap (fun h =>
  match variables h !! p with
  | Some _ => (Ok tt, mk_mem_heap (allocator h) (bufs h) (<[p := v]> (variables h)))
  | None => (Stuck, h)
  end).

Definition BIO_FLAGS_MEM_RDONLY : Z := 0x200.
Definition rdonly (b : BIO addr) : bool := negb (Z.land (flags b) BIO_FLAGS_MEM_RDONLY =? 0).

(** [bio->ptr], which is not NULL, and the [BUF_MEM] there. *)
Definition load_mem (bio : addr) : W (addr * BUF_MEM) :=
  b <- load bio ;;
  match ptr b with Some p => m <- on_heap (load_buf p) ;; ret (p, m) | None => stuck end.

Definition mem_new (bio : addr) : W bool :=
  r <- on_heap BUF_MEM_new ;;
  match r with
  | None => ret false
  | Some b =>
      update bio (set_shutdown 1) ;;
      update bio (set_init true) ;;
      update bio (set_num (-1)) ;;
      update bio (set_ptr (Some b)) ;;
      ret true
  end.

Definition mem_free (bio : addr) : W unit :=
  b <- load bio ;;
  match ptr b with
  | Some p =>
      if (shutdown b =? 0) || negb (init b) then ret tt else
      (if rdonly b then m <- on_heap (load_buf p) ;; on_heap (store_buf p (mk_buf (length_ m) None (max m))) else ret tt) ;;
      on_heap (BUF_MEM_free (Some p)) ;;
      update bio (set_ptr None)
  | None => ret tt
  end.

(** The result and the bytes that were stored in [out]. *)
Definition mem_read (bio : addr) (outl : Z) : W (Z * list byte) :=
  '(p, m) <- load_mem bio ;;
  BIO_clear_retry_flags bio ;;
  let r := if (length_ m <? INT_MAX) && (length_ m <? outl) then length_ m else outl in
  if 0 <? r then
    out <- on_heap (read_data (data m) 0 r) ;;
    let len := u64 (length_ m - r) in
    b <- load bio ;;
    (if rdonly b then
       on_heap (store_buf p (mk_buf len (option_map (fun d => mk_pointer (owned d) (block d) (at_ d + r)) (data m)) (max m)))
     else
       rest <- on_heap (read_data (data m) r len) ;;
       d <- on_heap (write_data (data m) 0 rest) ;;
       on_heap (store_buf p (mk_buf len d (max m)))) ;;
    ret (r, out)
  else if length_ m =? 0 then
    b <- load bio ;;
    (if negb (num b =? 0) then BIO_set_retry_read bio else ret tt) ;;
    ret (num b, [])
  else ret (r, []).

(** The difference of two ints overflows if the length is above [INT_MAX]. *)
Definition mem_write (bio : addr) (inn : option (list byte)) (inl : Z) : W Z :=
  '(p, m) <- load_mem bio ;;
  b <- load bio ;;
  if rdonly b then ret (-1) else
  BIO_clear_retry_flags bio ;;
  let blen := sext 32 (length_ m) in
  if blen <? 0 then stuck else
  if INT_MAX - blen <? inl then ret (-1) else
  n <- on_heap (BUF_MEM_grow_clean p (u64 (blen + inl))) ;;
  if negb (n =? u64 (blen + inl)) then ret (-1) else
  m <- on_heap (load_buf p) ;;
  match inn with
  | None => stuck
  | Some bs =>
      if zlen bs <? inl then stuck else
      d <- on_heap (write_data (data m) blen (ztake inl bs)) ;;
      on_heap (store_buf p (mk_buf (length_ m) d (max m))) ;;
      ret inl
  end.

(** The index behind the first newline, or the number of bytes. *)
Fixpoint line_end (p : list byte) : Z :=
  match p with
  | [] => 0
  | c :: p => if u8 c =? 10 then 1 else 1 + line_end p
  end.

(** The bytes that are stored include the NUL. *)
Definition mem_gets (bio : addr) (size : Z) : W (Z * list byte) :=
  '(_, m) <- load_mem bio ;;
  BIO_clear_retry_flags bio ;;
  let j := sext 32 (length_ m) in
  let j := if size - 1 <? j then size - 1 else j in
  if j <=? 0 then ret (0, if 0 <? size then [Byte.x00] else []) else
  line <- on_heap (read_data (data m) 0 j) ;;
  '(i, buf) <- mem_read bio (line_end line) ;;
  ret (i, if 0 <? i then buf ++ [Byte.x00] else buf).

Definition BIO_CTRL_INFO : Z := 3.
Definition BIO_C_SET_BUF_MEM : Z := 114.
Definition BIO_C_GET_BUF_MEM_PTR : Z := 115.
Definition BIO_C_SET_BUF_MEM_EOF_RETURN : Z := 130.

(** [ptr_] is a [BUF_MEM] for [BIO_C_SET_BUF_MEM], and a variable otherwise. *)
Definition mem_ctrl (bio : addr) (cmd num_ : Z) (ptr_ : option addr) : W Z :=
  if cmd =? BIO_C_SET_BUF_MEM then
    load bio ;;
    mem_free bio ;;
    update bio (set_shutdown (sext 32 num_)) ;;
    update bio (set_ptr ptr_) ;;
    ret 1
  else if cmd =? BIO_C_SET_BUF_MEM_EOF_RETURN then update bio (set_num (sext 32 num_)) ;; ret 1
  else if cmd =? BIO_CTRL_SET_CLOSE then update bio (set_shutdown (sext 32 num_)) ;; ret 1
  else if cmd =? BIO_CTRL_GET_CLOSE then b <- load bio ;; ret (shutdown b)
  else if cmd =? BIO_CTRL_WPENDING then ret 0
  else if cmd =? BIO_CTRL_FLUSH then ret 1
  else if cmd =? BIO_C_GET_BUF_MEM_PTR then
    b <- load bio ;;
    (match ptr_ with Some v => assign v (Buffer (ptr b)) | None => ret tt end) ;;
    ret 1
  else if (cmd =? BIO_CTRL_EOF) || (cmd =? BIO_CTRL_PENDING) || (cmd =? BIO_CTRL_INFO) || (cmd =? BIO_CTRL_RESET) then
    '(p, m) <- load_mem bio ;;
    if cmd =? BIO_CTRL_EOF then ret (if length_ m =? 0 then 1 else 0)
    else if cmd =? BIO_CTRL_PENDING then ret (sext 64 (length_ m))
    else if cmd =? BIO_CTRL_INFO then
      (match ptr_ with Some v => assign v (Chars (data m)) | None => ret tt end) ;;
      ret (sext 64 (length_ m))
    else
      match data m with
      | None => ret 1
      | Some d =>
          b <- load bio ;;
          (if rdonly b then
             let start := at_ d - (max m - length_ m) in
             on_heap (store_buf p (mk_buf (max m) (Some (mk_pointer (owned d) (block d) start)) (max m)))
           else
             d <- on_heap (write_data (Some d) 0 (zeros (max m))) ;;
             on_heap (store_buf p (mk_buf 0 d (max m)))) ;;
          ret 1
      end
  else ret 0.

Definition BIO_TYPE_MEM : Z := Z.lor 1 0x0400.
Definition mem_method : BIO_METHOD (mem_heap A) addr :=
  mk_method BIO_TYPE_MEM (Some mem_write) (Some (fun bio _ => mem_read bio)) (Some mem_gets) (Some mem_ctrl) (Some mem_new) (Some mem_free).

(** [strlen]; the string has an end. *)
Fixpoint strlen (s : list byte) : option Z :=
  match s with
  | [] => None
  | c :: s => if u8 c =? 0 then Some 0 else option_map (fun n => 1 + n) (strlen s)
  end.

(** [buf] is the object behind the pointer, [None] for NULL. *)
Definition BIO_new_mem_buf (buf : option (list byte)) (len : Z) : W (option addr) :=
  size <- known (if len <? 0 then match buf with Some s => strlen s | None => None end else Some len) ;;
  if bool_decide (buf = None) && negb (len =? 0) then ret None else
  r <- BIO_new mem_method ;;
  match r with
  | None => ret None
  | Some bio =>
      '(p, m) <- load_mem bio ;;
      on_heap (store_buf p (mk_buf size (option_map (fun s => mk_pointer false s 0) buf) size)) ;;
      BIO_set_flags bio BIO_FLAGS_MEM_RDONLY ;;
      update bio (set_num 0) ;;
      ret (Some bio)
  end.

(** The BIO is a memory BIO here. *)
Definition BIO_mem_contents (bio : addr) : W (option pointer * Z) := '(_, m) <- load_mem bio ;; ret (data m, length_ m).
Definition BIO_get_mem_data (bio : option addr) (contents : option addr) : W Z := BIO_ctrl mem_method bio BIO_CTRL_INFO 0 contents.
Definition BIO_get_mem_ptr (bio out : option addr) : W Z := as_int (BIO_ctrl mem_method bio BIO_C_GET_BUF_MEM_PTR 0 out).
Definition BIO_set_mem_buf (bio b : option addr) (take_ownership : Z) : W Z := as_int (BIO_ctrl mem_method bio BIO_C_SET_BUF_MEM take_ownership b).
Definition BIO_set_mem_eof_return (bio : option addr) (eof_value : Z) : W Z := as_int (BIO_ctrl mem_method bio BIO_C_SET_BUF_MEM_EOF_RETURN eof_value None).
End mem.
