(* ===== verification/BioMemSpec.v ===== *)
(** What memory BIOs promise: a memory BIO is a queue of bytes.  One that reads
    a buffer of its caller goes back to the start of it when it is reset; one
    of its own is emptied.  It is a source for [BIO_read_asn1]. *)
From Stdlib Require Import ZArith Lia Bool.
From coqutil Require Import Byte.
From stdpp Require Import base list numbers gmap.
From S2P Require Import Prelude Alloc Buf Bio BioMem.
Local Open Scope Z_scope.
Local Open Scope c_scope.

(** ** Queues *)

(** What was read is kept by a queue that is read-only; [eof] is the result of a
    read when there is nothing left, and [retry] whether it is worth trying again. *)
Record queue := mk_queue { ro : bool; past : list byte; bytes : list byte; eof : Z; retry : bool }.

Definition set_retry (q : queue) (r : bool) : queue := mk_queue (ro q) (past q) (bytes q) (eof q) r.
Definition take (q : queue) (n : Z) : queue :=
  mk_queue (ro q) (if ro q then past q ++ ztake n (bytes q) else []) (zdrop n (bytes q)) (eof q) false.

Inductive op := Write (bs : list byte) | Read (n : Z) | Gets (n : Z) | Reset | Eof | Pending | SetEof (v : Z).

(** The first line of some bytes: up to the first newline and with it, or all of
    them if there is none. *)
Definition newline : byte := Byte.x0a.
Definition first_line (l : list byte) : list byte :=
  match list_find (eq newline) l with Some (i, _) => firstn (S i) l | None => l end.

Lemma first_line_spec l :
  (newline ∉ l /\ first_line l = l) \/
  exists before after, l = before ++ newline :: after /\ newline ∉ before /\ first_line l = before ++ [newline].
Proof.
  unfold first_line. destruct (list_find (eq newline) l) as [[i c]|] eqn:E.
  - right. apply list_find_Some in E as (Hi & <- & Hb). exists (firstn i l), (skipn (S i) l). split; [|split].
    + symmetry. apply take_drop_middle, Hi.
    + intros (j & Hj)%list_elem_of_lookup. apply lookup_take_Some in Hj as [Hj Hlt]. exact (Hb j _ Hj Hlt eq_refl).
    + apply take_S_r, Hi.
  - left. apply list_find_None in E. split; [|reflexivity]. intros H. rewrite Forall_forall in E. exact (E _ H eq_refl).
Qed.

Definition queue_op (q : queue) (o : op) : Z * list byte * queue :=
  match o with
  | Write bs =>
      if zlen bs =? 0 then (0, [], q) else
      if ro q then (-1, [], q) else
      if INT_MAX <? zlen (bytes q) + zlen bs then (-1, [], set_retry q false)
      else (zlen bs, [], mk_queue false [] (bytes q ++ bs) (eof q) false)
  | Read n =>
      if n <=? 0 then (0, [], q) else
      if zlen (bytes q) =? 0 then (eof q, [], set_retry q (negb (eof q =? 0)))
      else let r := Z.min n (zlen (bytes q)) in (r, ztake r (bytes q), take q r)
  | Gets n =>
      if n <=? 0 then (0, [], q) else
      let j := Z.min (n - 1) (zlen (bytes q)) in
      if j =? 0 then (0, [Byte.x00], set_retry q false)
      else let line := first_line (ztake j (bytes q)) in (zlen line, line ++ [Byte.x00], take q (zlen line))
  | Reset => (1, [], mk_queue (ro q) [] (if ro q then past q ++ bytes q else []) (eof q) (retry q))
  | Eof => (if zlen (bytes q) =? 0 then 1 else 0, [], q)
  | Pending => (zlen (bytes q), [], q)
  | SetEof v => (1, [], mk_queue (ro q) (past q) (bytes q) (sext 32 v) (retry q))
  end.

(** The arguments are ints. *)
Definition op_ok (o : op) : Prop :=
  match o with Write bs => zlen bs <= INT_MAX | Read n | Gets n => n <= INT_MAX | _ => True end.

Section mem.
Context {A : Type} {AL : Allocator A}.
Notation world := (world (mem_heap A) addr).
Notation W := (M world).

(** A write may fail when there is no memory. *)
Definition queue_step (q : queue) (o : op) (out : Z * list byte) (q' : queue) : Prop :=
  queue_op q o = (out, q') \/
  exists bs, o = Write bs /\ ro q = false /\ 0 < zlen bs /\ out = (-1, []) /\ q' = set_retry q false /\ ~ reliable A.

Inductive queue_run : queue -> list op -> list (Z * list byte) -> queue -> Prop :=
  | queue_done q : queue_run q [] [] q
  | queue_more q o out q1 ops outs q2 : queue_step q o out q1 -> queue_run q1 ops outs q2 -> queue_run q (o :: ops) (out :: outs) q2.

Definition mem_op (b : addr) (o : op) : W (Z * list byte) :=
  let alone (c : W Z) : W (Z * list byte) := r <- c ;; ret (r, []) in
  match o with
  | Write bs => alone (BIO_write mem_method (Some b) (Some bs) (zlen bs))
  | Read n => BIO_read mem_method (Some b) true n
  | Gets n => BIO_gets mem_method (Some b) n
  | Reset => alone (BIO_reset mem_method (Some b))
  | Eof => alone (BIO_eof mem_method (Some b))
  | Pending => alone (BIO_pending mem_method (Some b))
  | SetEof v => alone (BIO_set_mem_eof_return (Some b) v)
  end.

Fixpoint mem_ops (b : addr) (ops : list op) : W (list (Z * list byte)) :=
  match ops with
  | [] => ret []
  | o :: ops => out <- mem_op b o ;; outs <- mem_ops b ops ;; ret (out :: outs)
  end.

(** ** A memory BIO in the store *)

(** The buffer of a BIO of its own, and that of a caller, which may be longer. *)
Definition own_buffer (m : BUF_MEM) (q : list byte) : Prop :=
  length_ m = zlen q /\ max m < 2 ^ 64 /\
  (data m = None /\ q = [] /\ max m = 0 \/
   exists rest, data m = Some (mk_pointer true (q ++ rest) 0) /\ max m = zlen q + zlen rest).
Definition foreign_buffer (m : BUF_MEM) (past q : list byte) : Prop :=
  length_ m = zlen q /\ max m = zlen past + zlen q /\
  (data m = None /\ past = [] /\ q = [] \/ exists rest, data m = Some (mk_pointer false (past ++ q ++ rest) (zlen past))).

Record bio_is (x : BIO addr) (m : BUF_MEM) (q : queue) : Prop := {
  is_init : init x = true;
  is_rdonly : rdonly x = ro q;
  is_num : num x = eof q;
  is_retry : Z.land (flags x) kRetryFlags = if retry q then 9 else 0;
  is_short : zlen (past q) + zlen (bytes q) <= INT_MAX;
  is_buffer : if ro q then foreign_buffer m (past q) (bytes q) else past q = [] /\ own_buffer m (bytes q);
}.

(** ** Growing *)

(** The heap after a change of one buffer. *)
Definition with_buf (h : mem_heap A) (a : A) (p : addr) (m : BUF_MEM) : mem_heap A := mk_mem_heap a (<[p := m]> (bufs h)) (variables h).

Lemma own_block m q rest : data m = Some (mk_pointer true (q ++ rest) 0) -> length_ m = zlen q -> max m = zlen q + zlen rest -> max m < 2 ^ 64 -> own_buffer m q.
Proof. intros H1 H2 H3 H4. split; [exact H2|]. split; [exact H4|]. right. exists rest. auto. Qed.

(** [BUF_MEM_reserve] finds room, or there is no memory. *)
Lemma reserve_run h p m q n : bufs h !! p = Some m -> own_buffer m q -> zlen q <= n -> 0 < n < 2 ^ 61 ->
  (exists a rest, BUF_MEM_reserve p n h = (Ok true, with_buf h a p (mk_buf (zlen q) (Some (mk_pointer true (q ++ rest) 0)) (zlen q + zlen rest))) /\
     n <= zlen q + zlen rest < 2 ^ 64) \/
  (exists a, BUF_MEM_reserve p n h = (Ok false, mk_mem_heap a (bufs h) (variables h)) /\ ~ reliable A).
Proof.
  intros Hm (Hl & Hmax & Hd) Hq Hn. pose proof (zlen_nonneg q). unfold BUF_MEM_reserve.
  assert (El : load_buf p h = (Ok m, h)) by (unfold load_buf; rewrite Hm; reflexivity). rewrite (bind_Ok _ _ _ _ _ El).
  destruct (Z.leb_spec n (max m)) as [Hfit|Hgrow].
  { destruct Hd as [(_ & _ & E)|(rest & Hd & Hr)]; [lia|]. left. exists (allocator h), rest. split; [|lia].
    unfold ret, with_buf. rewrite insert_id; [destruct h; reflexivity|]. rewrite Hm. destruct m; cbn in *. subst. reflexivity. }
  rewrite (wrap_small 64 (n + 3)) by (unfold in_word; lia). destruct (Z.ltb_spec (n + 3) n); [lia|].
  set (k := (n + 3) / 3). assert (Hk : n < k * 4 < 2 ^ 64) by (pose proof (Z.div_mod (n + 3) 3 ltac:(lia)); pose proof (Z.mod_pos_bound (n + 3) 3 ltac:(lia)); unfold k; lia).
  rewrite (wrap_small 64 (k * 4)) by (unfold in_word; lia). rewrite Z.div_mul, Z.eqb_refl by lia. cbn [negb].
  assert (E : exists old, old = (match data m with Some d => block d | None => [] end) /\ realloc_data (data m) (k * 4) h = let '(r, h) := OPENSSL_realloc h old (k * 4) in (Ok r, h)).
  { eexists. split; [reflexivity|]. destruct Hd as [(-> & _)|(rest & -> & _)]; reflexivity. }
  destruct E as (old & Eold & E). assert (Hold : exists rest, old = q ++ rest /\ zlen old <= max m).
  { destruct Hd as [(E1 & -> & E2)|(rest & E1 & E2)]; rewrite E1 in Eold; cbn in Eold; subst old; [exists []; split; [reflexivity | rewrite E2; reflexivity..] | exists rest; split; [reflexivity | rewrite zlen_app; lia]]. }
  destruct Hold as (rest & -> & Hz). cbn [OPENSSL_realloc mem_heap_allocator] in E.
  destruct (OPENSSL_realloc (allocator h) (q ++ rest) (k * 4)) as [[new|] a] eqn:Er; rewrite (bind_Ok _ _ _ _ _ E).
  - left. assert (Hzn : zlen new = k * 4) by (apply (realloc_length (allocator h) (q ++ rest) (k * 4) new a); [lia | exact Er]).
    apply realloc_keeps in Er; [|lia]. exists a, (rest ++ zdrop (zlen (q ++ rest)) new).
    assert (En : new = q ++ rest ++ zdrop (zlen (q ++ rest)) new) by (rewrite app_assoc, <- Er at 1; symmetry; apply ztake_zdrop).
    set (ext := zdrop (zlen (q ++ rest)) new) in *. assert (Hr : zlen (rest ++ ext) = k * 4 - zlen q) by (apply (f_equal zlen) in En; rewrite !zlen_app in *; lia).
    rewrite Hr, <- En. replace (zlen q + (k * 4 - zlen q)) with (k * 4) by lia. split; [|lia].
    unfold bind, store_buf, ret, with_buf. cbn [bufs]. rewrite Hm, Hl. reflexivity.
  - right. exists a. split; [reflexivity|]. intros Hrel. apply (Hrel (allocator h) (q ++ rest) (k * 4)); [lia|]. rewrite Er. reflexivity.
Qed.

(** [BUF_MEM_grow] makes the buffer [n] bytes long. *)
Lemma grow_run h p m q n : bufs h !! p = Some m -> own_buffer m q -> zlen q <= n -> 0 < n < 2 ^ 61 ->
  (exists a new rest, zlen new = n - zlen q /\ n + zlen rest < 2 ^ 64 /\
     BUF_MEM_grow p n h = (Ok n, with_buf h a p (mk_buf n (Some (mk_pointer true (q ++ new ++ rest) 0)) (n + zlen rest)))) \/
  (exists a, BUF_MEM_grow p n h = (Ok 0, mk_mem_heap a (bufs h) (variables h)) /\ ~ reliable A).
Proof.
  intros Hm Hb Hq Hn. pose proof (zlen_nonneg q). unfold BUF_MEM_grow.
  destruct (reserve_run h p m q n Hm Hb Hq Hn) as [(a & rest & E & Hz)|(a & E & Hrel)]; rewrite (bind_Ok _ _ _ _ _ E); cbn [negb].
  2: { right. exists a. split; [reflexivity | exact Hrel]. }
  left. set (m1 := mk_buf _ _ _). assert (Hm1 : bufs (with_buf h a p m1) !! p = Some m1) by apply lookup_insert_eq.
  assert (El : load_buf p (with_buf h a p m1) = (Ok m1, with_buf h a p m1)) by (unfold load_buf; rewrite Hm1; reflexivity). rewrite (bind_Ok _ _ _ _ _ El). cbn [length_ data max m1]. pose proof (zlen_nonneg rest).
  assert (Hstore : forall d, (store_buf p (mk_buf n d (zlen q + zlen rest)) ;; ret n) (with_buf h a p m1) = (Ok n, with_buf h a p (mk_buf n d (zlen q + zlen rest)))).
  { intros d. unfold bind, store_buf. rewrite Hm1. unfold ret, with_buf. cbn [bufs allocator variables]. rewrite insert_insert_eq. reflexivity. }
  destruct (Z.ltb_spec (zlen q) n) as [Hlt|Hge].
  - exists a, (zeros (n - zlen q)), (zdrop (n - zlen q) rest). assert (Hzr : zlen (zdrop (n - zlen q) rest) = zlen rest - (n - zlen q)) by (apply zlen_zdrop; lia).
    rewrite zlen_zeros by lia. split; [reflexivity|]. split; [lia|]. unfold bind at 1, write_data. rewrite zlen_zeros by lia.
    rewrite (proj2 (Z.eqb_neq (n - zlen q) 0)) by lia. rewrite zlen_app. rewrite (proj2 (Z.leb_le 0 (0 + zlen q))), (proj2 (Z.leb_le (0 + zlen q + (n - zlen q)) (zlen q + zlen rest))) by lia. cbn [andb].
    unfold ret at 1. rewrite Hstore. rewrite Hzr. replace (n + (zlen rest - (n - zlen q))) with (zlen q + zlen rest) by lia. do 6 f_equal.
    rewrite Z.add_0_l. rewrite <- (ztake_zdrop rest (n - zlen q)) at 1. apply splice_app; [reflexivity | rewrite zlen_zeros, zlen_ztake; lia].
  - exists a, [], rest. assert (n = zlen q) as -> by lia. split; [change (zlen (@nil byte)) with 0; lia|]. split; [lia|]. unfold bind at 1, ret at 1. rewrite Hstore. reflexivity.
Qed.

(** Everything else is as it was. *)
Record elsewhere (b p : addr) (w w' : world) : Prop := {
  else_bios : forall c, c <> b -> bios w' !! c = bios w !! c;
  else_bufs : forall c, c <> p -> bufs (heap w') !! c = bufs (heap w) !! c;
  else_variables : variables (heap w') = variables (heap w);
}.

Lemma elsewhere_refl b p w : elsewhere b p w w.
Proof. split; auto. Qed.

Lemma elsewhere_trans b p w1 w2 w3 : elsewhere b p w1 w2 -> elsewhere b p w2 w3 -> elsewhere b p w1 w3.
Proof. intros [H1 H2 H3] [H4 H5 H6]. split; [intros; rewrite H4, H1; auto | intros; rewrite H5, H2; auto | congruence]. Qed.

Definition mem_bio (w : world) (b p : addr) (q : queue) : Prop :=
  exists x m, bios w !! b = Some x /\ ptr x = Some p /\ bufs (heap w) !! p = Some m /\ bio_is x m q.

(** ** Runs *)

Section runs.
Context (b p : addr) (w0 : world).

(** The BIO is [x] and its buffer [m], in a world that came from [w0]. *)
Record stands (w : world) (x : BIO addr) (m : BUF_MEM) : Prop := {
  st_bio : bios w !! b = Some x;
  st_ptr : ptr x = Some p;
  st_buf : bufs (heap w) !! p = Some m;
  st_else : elsewhere b p w0 w;
}.

(** [c] succeeds, and then [Q] holds. *)
Definition does {B} (c : W B) (w : world) (Q : B -> world -> Prop) : Prop := exists a w', c w = (Ok a, w') /\ Q a w'.

Lemma does_ret {B} (a : B) w (Q : B -> world -> Prop) : Q a w -> does (ret a) w Q.
Proof. intros H. exists a, w. auto. Qed.

Lemma does_bind {B C} (c : W B) (k : B -> W C) w Q : does c w (fun a w' => does (k a) w' Q) -> does (bind c k) w Q.
Proof. intros (a & w' & E & H). unfold does. rewrite (bind_Ok _ _ _ _ _ E). exact H. Qed.

Lemma does_mono {B} (c : W B) w (Q Q' : B -> world -> Prop) : does c w Q -> (forall a w', Q a w' -> Q' a w') -> does c w Q'.
Proof. intros (a & w' & E & H) HQ. exists a, w'. auto. Qed.

(** A step whose result is known. *)
Lemma does_step {B C} (c : W B) a w w' (k : B -> W C) Q : c w = (Ok a, w') -> does (k a) w' Q -> does (bind c k) w Q.
Proof. intros E H. unfold does. rewrite (bind_Ok _ _ _ _ _ E). exact H. Qed.

Lemma does_load {C} x m w (k : BIO addr -> W C) Q : stands w x m -> does (k x) w Q -> does (bind (load b) k) w Q.
Proof. intros [Hb _ _ _]. apply does_step. unfold load. rewrite Hb. reflexivity. Qed.

Lemma does_load_buf {C} x m w (k : BUF_MEM -> W C) Q : stands w x m -> does (k m) w Q -> does (bind (on_heap (load_buf p)) k) w Q.
Proof. intros [_ _ Hm _]. apply does_step. unfold on_heap, load_buf. rewrite Hm. destruct w. reflexivity. Qed.

Lemma does_load_mem {C} x m w (k : addr * BUF_MEM -> W C) Q : stands w x m -> does (k (p, m)) w Q -> does (bind (load_mem b) k) w Q.
Proof.
  intros H. apply does_step. pose proof H as [Hb Hp Hm _]. unfold load_mem, bind, load, on_heap, load_buf. rewrite Hb, Hp, Hm. destruct w. reflexivity.
Qed.

Lemma does_update {C} x m w f (k : unit -> W C) Q : stands w x m -> ptr (f x) = ptr x ->
  (forall w', stands w' (f x) m -> does (k tt) w' Q) -> does (bind (update b f) k) w Q.
Proof.
  intros [Hb Hp Hm He] Hf H. eapply does_step; [unfold update; rewrite Hb; reflexivity|]. apply H. split; cbn [bios heap].
  - apply lookup_insert_eq.
  - congruence.
  - exact Hm.
  - apply (elsewhere_trans b p w0 w _ He). split; cbn [bios heap]; auto. intros c Hc. apply lookup_insert_ne. congruence.
Qed.

Lemma does_store_end x m w m' (Q : unit -> world -> Prop) : stands w x m ->
  (forall w', stands w' x m' -> Q tt w') -> does (on_heap (store_buf p m')) w Q.
Proof.
  intros [Hb Hp Hm He] H. eexists tt, _. split; [unfold on_heap, store_buf; rewrite Hm; reflexivity|]. apply H. split; cbn [bios heap bufs]; auto.
  - apply lookup_insert_eq.
  - apply (elsewhere_trans b p w0 w _ He). split; cbn [bios heap bufs variables]; auto. intros c Hc. apply lookup_insert_ne. congruence.
Qed.

Lemma does_store {C} x m w m' (k : unit -> W C) Q : stands w x m ->
  (forall w', stands w' x m' -> does (k tt) w' Q) -> does (bind (on_heap (store_buf p m')) k) w Q.
Proof. intros Hs H. apply does_bind, (does_store_end _ _ _ _ _ Hs), H. Qed.

(** Reads and writes through a pointer. *)
Lemma does_read {C} own blk start off n w (k : list byte -> W C) Q : 0 <= start + off -> 0 < n -> start + off + n <= zlen blk ->
  does (k (ztake n (zdrop (start + off) blk))) w Q -> does (bind (on_heap (read_data (Some (mk_pointer own blk start)) off n)) k) w Q.
Proof.
  intros H1 H2 H3. apply does_step. unfold on_heap, read_data. rewrite (proj2 (Z.eqb_neq n 0)) by lia.
  rewrite (proj2 (Z.leb_le 0 (start + off))), (proj2 (Z.leb_le 0 n)), (proj2 (Z.leb_le (start + off + n) (zlen blk))) by lia. destruct w. reflexivity.
Qed.

Lemma does_write {C} blk start off bs w (k : option pointer -> W C) Q : 0 <= start + off -> 0 < zlen bs -> start + off + zlen bs <= zlen blk ->
  does (k (Some (mk_pointer true (splice blk (start + off) bs) start))) w Q -> does (bind (on_heap (write_data (Some (mk_pointer true blk start)) off bs)) k) w Q.
Proof.
  intros H1 H2 H3. apply does_step. unfold on_heap, write_data. rewrite (proj2 (Z.eqb_neq (zlen bs) 0)) by lia.
  rewrite (proj2 (Z.leb_le 0 (start + off))), (proj2 (Z.leb_le (start + off + zlen bs) (zlen blk))) by lia. destruct w. reflexivity.
Qed.

Lemma does_nothing {C} d off w (k : list byte -> W C) (k' : option pointer -> W C) Q :
  (does (k []) w Q -> does (bind (on_heap (read_data d off 0)) k) w Q) /\
  (does (k' d) w Q -> does (bind (on_heap (write_data d off [])) k') w Q).
Proof. split; apply does_step; destruct w; reflexivity. Qed.

Lemma ztake_part {B} (l rest : list B) r : 0 <= r <= zlen l -> ztake r (l ++ rest) = ztake r l.
Proof. intros H. unfold ztake, zlen in *. apply take_app_le. lia. Qed.

(** ** The operations *)

Lemma rdonly_flags f r (x : BIO addr) : Z.land f BIO_FLAGS_MEM_RDONLY = Z.land (flags x) BIO_FLAGS_MEM_RDONLY -> rdonly (set_flags f r x) = rdonly x.
Proof. intros H. unfold rdonly. cbn [set_flags flags]. rewrite H. reflexivity. Qed.

Lemma clear_rdonly f : Z.land (Z.land f (Z.lnot kRetryFlags)) BIO_FLAGS_MEM_RDONLY = Z.land f BIO_FLAGS_MEM_RDONLY.
Proof. rewrite <- Z.land_assoc. reflexivity. Qed.

Lemma clear_retry f : Z.land (Z.land f (Z.lnot kRetryFlags)) kRetryFlags = 0.
Proof. rewrite <- Z.land_assoc. apply Z.land_0_r. Qed.

Lemma set_rdonly f : Z.land (Z.lor f 9) BIO_FLAGS_MEM_RDONLY = Z.land f BIO_FLAGS_MEM_RDONLY.
Proof. rewrite Z.land_lor_distr_l. apply Z.lor_0_r. Qed.

(** The same BIO with other flags for trying again. *)
Lemma is_cleared x m q : bio_is x m q -> bio_is (set_flags (Z.land (flags x) (Z.lnot kRetryFlags)) 0 x) m (set_retry q false).
Proof.
  intros [H1 H2 H3 H4 H5 H6]. split; cbn [ro past bytes eof retry set_retry]; auto; [|apply clear_retry].
  rewrite rdonly_flags; [exact H2 | apply clear_rdonly].
Qed.

Lemma is_retrying x m q : bio_is x m q -> retry q = false -> bio_is (set_flags (Z.lor (flags x) 9) (retry_reason x) x) m (set_retry q true).
Proof.
  intros [H1 H2 H3 H4 H5 H6] Hr. rewrite Hr in H4. split; cbn [ro past bytes eof retry set_retry]; auto.
  - rewrite rdonly_flags; [exact H2 | apply set_rdonly].
  - cbn [flags set_flags]. rewrite Z.land_lor_distr_l, H4. reflexivity.
Qed.

Lemma is_counted x m q r w : bio_is x m q -> bio_is (set_counts r w x) m q.
Proof. intros [H1 H2 H3 H4 H5 H6]. split; assumption. Qed.

(** Another buffer for the same BIO. *)
Lemma is_moved x m q m' q' : bio_is x m q -> ro q' = ro q -> eof q' = eof q -> retry q' = retry q -> zlen (past q') + zlen (bytes q') <= INT_MAX ->
  (if ro q then foreign_buffer m' (past q') (bytes q') else past q' = [] /\ own_buffer m' (bytes q')) -> bio_is x m' q'.
Proof. intros [H1 H2 H3 H4 _ _] E1 E2 E3 Hl Hb. split; rewrite ?E1, ?E2, ?E3; assumption. Qed.

(** What is done satisfies the step of the queue. *)
Definition follows (q : queue) (o : op) (out : Z * list byte) (w : world) : Prop :=
  exists x m q', queue_step q o out q' /\ stands w x m /\ bio_is x m q'.

Lemma follows_op q o out q' w x m : queue_op q o = (out, q') -> stands w x m -> bio_is x m q' -> follows q o out w.
Proof. intros E Hs Hi. exists x, m, q'. split; [left; exact E | auto]. Qed.

(** Taking [r] bytes from the front, as [mem_read] does it. *)
Definition take_run {C} (m : BUF_MEM) (r : Z) (k : list byte -> W C) : W C :=
  out <- on_heap (read_data (data m) 0 r) ;;
  let len := u64 (length_ m - r) in
  b0 <- load b ;;
  (if rdonly b0 then
     on_heap (store_buf p (mk_buf len (option_map (fun d => mk_pointer (owned d) (block d) (at_ d + r)) (data m)) (max m)))
   else
     rest <- on_heap (read_data (data m) r len) ;;
     d <- on_heap (write_data (data m) 0 rest) ;;
     on_heap (store_buf p (mk_buf len d (max m)))) ;;
  k out.

Lemma does_take {C} w x m q r (k : list byte -> W C) Q : stands w x m -> bio_is x m q -> retry q = false -> 0 < r <= zlen (bytes q) ->
  (forall w' m', stands w' x m' -> bio_is x m' (take q r) -> does (k (ztake r (bytes q))) w' Q) -> does (take_run m r k) w Q.
Proof.
  intros Hs Hi Hretry Hr HQ. unfold take_run. pose proof (is_buffer _ _ _ Hi) as Hb. pose proof (is_short _ _ _ Hi) as Hshort. pose proof (is_rdonly _ _ _ Hi) as Hro. pose proof (zlen_nonneg (past q)).
  assert (Hz : zlen (zdrop r (bytes q)) = zlen (bytes q) - r) by (apply zlen_zdrop; lia).
  assert (Hq : ztake r (bytes q) ++ zdrop r (bytes q) = bytes q) by apply ztake_zdrop.
  destruct (ro q) eqn:Er.
  - destruct Hb as (Hl & Hm & [(_ & _ & E)|(rest & Hd)]); [rewrite E in Hr; change (zlen (@nil byte)) with 0 in Hr; lia|]. rewrite Hd, Hl.
    pose proof (zlen_nonneg (past q)). pose proof (zlen_nonneg rest). rewrite wrap_small by (unfold in_word; lia).
    apply does_read; [lia | lia | rewrite !zlen_app; lia|]. cbv zeta. apply (does_load _ _ _ _ _ Hs). rewrite Hro. rewrite Z.add_0_r.
    rewrite zdrop_app by reflexivity. rewrite (ztake_part (bytes q) rest r) by lia.
    apply (does_store _ _ _ _ _ _ Hs). intros w' Hs'. apply (HQ w' _ Hs'). apply (is_moved _ _ _ _ _ Hi); try reflexivity; [exact (eq_sym Hretry) | cbn [past bytes take]; rewrite Er, ?zlen_app, ?zlen_ztake by lia; try change (zlen (@nil byte)) with 0; lia|].
    rewrite Er. cbn [option_map owned block at_ past bytes take]. rewrite Er. split; [cbn [length_]; lia|]. split; [cbn [max]; rewrite zlen_app, zlen_ztake by lia; lia|].
    right. exists rest. cbn [data]. rewrite zlen_app, zlen_ztake by lia. rewrite <- app_assoc, (app_assoc (ztake r (bytes q))), Hq. reflexivity.
  - destruct Hb as (Hpast & Hl & Hm & [(_ & E & _)|(rest & Hd & Hmax)]); [rewrite E in Hr; change (zlen (@nil byte)) with 0 in Hr; lia|]. rewrite Hd, Hl.
    pose proof (zlen_nonneg rest). rewrite wrap_small by (unfold in_word; lia). cbv zeta.
    apply does_read; [lia | lia | rewrite !zlen_app; lia|]. apply (does_load _ _ _ _ _ Hs). rewrite Hro. change (zdrop (0 + 0) ?l) with l. rewrite (ztake_part (bytes q) rest r) by lia.
    assert (Hgo : forall rest', zlen rest' = r + zlen rest -> does (on_heap (store_buf p (mk_buf (zlen (bytes q) - r) (Some (mk_pointer true (zdrop r (bytes q) ++ rest') 0)) (max m)))) w
      (fun _ w' => does (k (ztake r (bytes q))) w' Q)).
    { intros rest' Hrest'. apply (does_store_end _ _ _ _ _ Hs). intros w' Hs'. apply (HQ w' _ Hs'). apply (is_moved _ _ _ _ _ Hi); try reflexivity; [exact (eq_sym Hretry) | cbn [past bytes take]; rewrite Er, ?zlen_app, ?zlen_ztake by lia; try change (zlen (@nil byte)) with 0; lia|].
      rewrite Er. cbn [past bytes take]. rewrite Er. split; [reflexivity|]. split; [cbn [length_]; lia|]. split; [exact Hm|]. right. exists rest'. split; [reflexivity|]. cbn [max]. lia. }
    apply does_bind. destruct (Z.eq_dec (zlen (bytes q) - r) 0) as [Hlen|Hlen].
    + rewrite Hlen in *. apply (does_step _ [] _ w); [destruct w; reflexivity|]. apply (does_step _ (Some (mk_pointer true (bytes q ++ rest) 0)) _ w); [destruct w; reflexivity|].
      specialize (Hgo (bytes q ++ rest) ltac:(rewrite zlen_app; lia)). replace (zdrop r (bytes q)) with (@nil byte) in Hgo by (symmetry; apply nil_of_zlen; lia). exact Hgo.
    + set (len := zlen (bytes q) - r) in *. apply does_read; [lia | lia | rewrite !zlen_app; lia|].
      rewrite Z.add_0_l. replace (ztake len (zdrop r (bytes q ++ rest))) with (zdrop r (bytes q)).
      2: { replace (zdrop r (bytes q ++ rest)) with (zdrop r (bytes q) ++ rest) by (symmetry; unfold zdrop, zlen in *; apply drop_app_le; lia).
        symmetry. apply ztake_app. lia. }
      apply does_write; [lia | lia | rewrite zlen_app; lia|]. change (splice (bytes q ++ rest) (0 + 0) (zdrop r (bytes q))) with (zdrop r (bytes q) ++ zdrop (0 + zlen (zdrop r (bytes q))) (bytes q ++ rest)).
      apply Hgo. rewrite zlen_zdrop; rewrite ?zlen_app; lia.
Qed.

Lemma does_clear {C} w x m q (k : unit -> W C) Q : stands w x m -> bio_is x m q ->
  (forall w' x', stands w' x' m -> bio_is x' m (set_retry q false) -> does (k tt) w' Q) -> does (bind (BIO_clear_retry_flags b) k) w Q.
Proof.
  intros Hs Hi H. unfold BIO_clear_retry_flags. apply (does_update _ _ _ _ _ _ Hs); [reflexivity|]. intros w' Hs'. apply (H w' _ Hs' (is_cleared _ _ _ Hi)).
Qed.

Lemma length_is x m q : bio_is x m q -> length_ m = zlen (bytes q) /\ 0 <= zlen (bytes q) <= INT_MAX.
Proof.
  intros Hi. pose proof (is_short _ _ _ Hi). pose proof (zlen_nonneg (past q)). pose proof (is_buffer _ _ _ Hi) as H1. pose proof (zlen_nonneg (bytes q)). split; [|lia].
  destruct (ro q); [apply H1 | apply (proj2 H1)].
Qed.

Lemma take_clear q r : take (set_retry q false) r = take q r.
Proof. reflexivity. Qed.

Lemma mem_read_run w x m q n : stands w x m -> bio_is x m q -> 0 < n <= INT_MAX -> does (mem_read b n) w (follows q (Read n)).
Proof.
  intros Hs Hi Hn. unfold mem_read. apply (does_load_mem _ _ _ _ _ Hs). apply (does_clear _ _ _ _ _ _ Hs Hi). intros w1 x1 Hs1 Hi1.
  destruct (length_is _ _ _ Hi) as [Hl Hz]. rewrite Hl. cbv zeta. set (r := if _ && _ then _ else _).
  assert (Hr : r = Z.min n (zlen (bytes q))) by (unfold r; destruct (Z.ltb_spec (zlen (bytes q)) INT_MAX), (Z.ltb_spec (zlen (bytes q)) n); cbn [andb]; lia).
  destruct (Z.ltb_spec 0 r) as [Hpos|Hnone].
  - rewrite <- Hl. fold (take_run m r (fun out => ret (r, out))).
    apply (does_take w1 x1 m (set_retry q false) r _ _ Hs1 Hi1); [reflexivity | cbn [bytes set_retry]; lia|]. intros w2 m2 Hs2 Hi2. apply does_ret.
    apply (follows_op q (Read n) _ (take q r) w2 x1 m2); [|exact Hs2 | exact Hi2]. cbn [queue_op bytes set_retry].
    rewrite (proj2 (Z.leb_gt n 0)), (proj2 (Z.eqb_neq (zlen (bytes q)) 0)), <- Hr by lia. reflexivity.
  - assert (E0 : zlen (bytes q) = 0) by lia. rewrite E0. cbn [Z.eqb]. apply (does_load _ _ _ _ _ Hs1). pose proof (is_num _ _ _ Hi1) as Hnum. cbn [eof set_retry] in Hnum. rewrite Hnum.
    assert (E : queue_op q (Read n) = (eof q, [], set_retry q (negb (eof q =? 0)))) by (cbn [queue_op]; rewrite (proj2 (Z.leb_gt n 0)), E0 by lia; reflexivity).
    destruct (Z.eqb_spec (eof q) 0) as [He|He]; cbn [negb] in *.
    + apply (does_step _ tt _ w1); [reflexivity|]. apply does_ret. apply (follows_op _ _ _ _ _ _ _ E Hs1 Hi1).
    + unfold BIO_set_retry_read. apply (does_update _ _ _ _ _ _ Hs1); [reflexivity|]. intros w2 Hs2. apply does_ret.
      apply (follows_op _ _ _ _ _ _ _ E Hs2). apply (is_retrying _ _ _ Hi1 eq_refl).
Qed.

Lemma line_end_range l : l <> [] -> 0 < line_end l <= zlen l.
Proof.
  induction l as [|c l IH]; [contradiction|]. intros _. cbn [line_end]. rewrite zlen_cons. pose proof (zlen_nonneg l).
  destruct (u8 c =? 10); [lia|]. destruct l as [|d l]; [cbn; lia|]. specialize (IH ltac:(discriminate)). lia.
Qed.

(** The search for the newline finds the first line. *)
Lemma line_end_first l : zlen (first_line l) = line_end l /\ first_line l = ztake (line_end l) l.
Proof.
  enough (E : first_line l = ztake (line_end l) l).
  { split; [|exact E]. rewrite E. destruct l as [|c l]; [reflexivity|]. apply zlen_ztake.
    pose proof (line_end_range (c :: l) ltac:(discriminate)). lia. }
  induction l as [|c l IH]; [reflexivity|]. cbn [line_end]. unfold first_line in *. cbn [list_find].
  destruct (Z.eqb_spec (u8 c) 10) as [Hc|Hc].
  - assert (newline = c) as -> by (apply u8_inj; rewrite Hc; reflexivity). rewrite decide_True by reflexivity. reflexivity.
  - rewrite decide_False by (intros <-; apply Hc; reflexivity).
    assert (Hn : 0 <= line_end l) by (clear; induction l as [|d l IH]; cbn [line_end]; [lia | destruct (u8 d =? 10); lia]).
    unfold ztake in *. replace (Z.to_nat (1 + line_end l)) with (S (Z.to_nat (line_end l))) by lia. cbn [firstn].
    destruct (list_find (eq newline) l) as [[i x]|]; cbn [fmap option_fmap option_map prod_map]; rewrite <- IH; reflexivity.
Qed.

Lemma sext_int n : 0 <= n <= INT_MAX -> sext 32 n = n.
Proof. intros H. unfold sext. rewrite wrap_small by (unfold in_word; lia). destruct (Z.ltb_spec n (2 ^ (32 - 1))); lia. Qed.

Lemma line_prefix (l : list byte) j : 0 < j <= zlen l -> ztake (line_end (ztake j l)) (ztake j l) = ztake (line_end (ztake j l)) l.
Proof.
  intros Hj. pose proof (zlen_ztake l j ltac:(lia)) as Hz.
  assert (Hne : ztake j l <> []) by (intros E0; rewrite E0 in Hz; change (zlen (@nil byte)) with 0 in Hz; lia).
  pose proof (line_end_range _ Hne). rewrite Hz in H. set (i := line_end _) in *. clearbody i.
  unfold ztake. rewrite take_take. f_equal. lia.
Qed.

(** The line is looked at where [mem_read] will take it from. *)
Lemma does_peek {C} w x m q j (k : list byte -> W C) Q : bio_is x m q -> 0 < j <= zlen (bytes q) ->
  does (k (ztake j (bytes q))) w Q -> does (bind (on_heap (read_data (data m) 0 j)) k) w Q.
Proof.
  intros Hi Hj H. pose proof (is_buffer _ _ _ Hi) as Hb. destruct (ro q).
  - destruct Hb as (_ & _ & [(_ & _ & E)|(rest & ->)]); [rewrite E in Hj; change (zlen (@nil byte)) with 0 in Hj; lia|].
    pose proof (zlen_nonneg (past q)). pose proof (zlen_nonneg rest). apply does_read; [lia | lia | rewrite !zlen_app; lia|].
    rewrite Z.add_0_r, zdrop_app, ztake_part by (reflexivity || lia). exact H.
  - destruct Hb as (_ & _ & _ & [(_ & E & _)|(rest & -> & _)]); [rewrite E in Hj; change (zlen (@nil byte)) with 0 in Hj; lia|].
    pose proof (zlen_nonneg rest). apply does_read; [lia | lia | rewrite !zlen_app; lia|].
    change (zdrop (0 + 0) ?l) with l. rewrite ztake_part by lia. exact H.
Qed.

Lemma mem_gets_run w x m q n : stands w x m -> bio_is x m q -> 0 < n <= INT_MAX -> does (mem_gets b n) w (follows q (Gets n)).
Proof.
  intros Hs Hi Hn. unfold mem_gets. apply (does_load_mem _ _ _ _ _ Hs). apply (does_clear _ _ _ _ _ _ Hs Hi). intros w1 x1 Hs1 Hi1.
  destruct (length_is _ _ _ Hi) as [Hl Hz]. rewrite Hl, sext_int by exact Hz. cbv zeta. set (j := if _ <? _ then _ else _).
  assert (Hj : j = Z.min (n - 1) (zlen (bytes q))) by (unfold j; destruct (Z.ltb_spec (n - 1) (zlen (bytes q))); lia).
  assert (E : queue_op q (Gets n) = if j =? 0 then (0, [Byte.x00], set_retry q false) else
    (line_end (ztake j (bytes q)), ztake (line_end (ztake j (bytes q))) (bytes q) ++ [Byte.x00], take q (line_end (ztake j (bytes q))))).
  { cbn [queue_op]. rewrite (proj2 (Z.leb_gt n 0)), <- Hj by lia. cbv zeta. destruct (line_end_first (ztake j (bytes q))) as [-> ->].
    destruct (Z.eqb_spec j 0) as [|Hj0]; [reflexivity|]. do 3 f_equal. apply line_prefix; lia. }
  destruct (Z.leb_spec j 0) as [Hj0|Hj0].
  - apply does_ret. rewrite (proj2 (Z.eqb_eq j 0)) in E by lia. rewrite (proj2 (Z.ltb_lt 0 n)) by lia. apply (follows_op _ _ _ _ _ _ _ E Hs1 Hi1).
  - rewrite (proj2 (Z.eqb_neq j 0)) in E by lia. apply (does_peek _ _ _ _ _ _ _ Hi); [lia|].
    assert (Hne : ztake j (bytes q) <> []) by (intros E0; pose proof (zlen_ztake (bytes q) j ltac:(lia)) as H0; rewrite E0 in H0; change (zlen (@nil byte)) with 0 in H0; lia).
    pose proof (line_end_range _ Hne) as Hi0. rewrite zlen_ztake in Hi0 by lia. set (i := line_end (ztake j (bytes q))) in *.
    apply does_bind. apply (does_mono _ _ _ _ (mem_read_run w1 x1 m (set_retry q false) i Hs1 Hi1 ltac:(lia))).
    intros out w2 (x2 & m2 & q2 & [Hstep|(? & ? & _)] & Hs2 & Hi2); [|discriminate]. cbn [queue_op bytes set_retry] in Hstep.
    rewrite (proj2 (Z.leb_gt i 0)), (proj2 (Z.eqb_neq (zlen (bytes q)) 0)), Z.min_l in Hstep by lia. injection Hstep as <- <-.
    apply does_ret. rewrite (proj2 (Z.ltb_lt 0 i)) by lia. apply (follows_op _ _ _ _ _ _ _ E Hs2 Hi2).
Qed.

Lemma mem_write_run w x m q bs : stands w x m -> bio_is x m q -> 0 < zlen bs <= INT_MAX ->
  does (mem_write b (Some bs) (zlen bs)) w (fun r w' => follows q (Write bs) (r, []) w').
Proof.
  intros Hs Hi Hn. unfold mem_write. apply (does_load_mem _ _ _ _ _ Hs). apply (does_load _ _ _ _ _ Hs).
  assert (E : queue_op q (Write bs) = if ro q then (-1, [], q) else if INT_MAX <? zlen (bytes q) + zlen bs then (-1, [], set_retry q false)
      else (zlen bs, [], mk_queue false [] (bytes q ++ bs) (eof q) false)) by (cbn [queue_op]; rewrite (proj2 (Z.eqb_neq (zlen bs) 0)) by lia; reflexivity).
  rewrite (is_rdonly _ _ _ Hi). destruct (ro q) eqn:Er; [apply does_ret, (follows_op _ _ _ _ _ _ _ E Hs Hi)|].
  apply (does_clear _ _ _ _ _ _ Hs Hi). intros w1 x1 Hs1 Hi1. destruct (length_is _ _ _ Hi) as [Hl Hz]. rewrite Hl, sext_int by exact Hz. cbv zeta.
  rewrite (proj2 (Z.ltb_ge (zlen (bytes q)) 0)) by lia.
  destruct (Z.ltb_spec (INT_MAX - zlen (bytes q)) (zlen bs)), (Z.ltb_spec INT_MAX (zlen (bytes q) + zlen bs)); try lia; [apply does_ret, (follows_op _ _ _ _ _ _ _ E Hs1 Hi1)|].
  rewrite wrap_small by (unfold in_word; lia). set (n := zlen (bytes q) + zlen bs) in *.
  pose proof (is_buffer _ _ _ Hi1) as Hb. cbn [ro set_retry bytes past] in Hb. rewrite Er in Hb. destruct Hb as [Hpast Hb]. pose proof Hs1 as [Hbio Hptr Hbuf Helse].
  destruct (grow_run (heap w1) p m (bytes q) n Hbuf Hb ltac:(lia) ltac:(lia)) as [(a & new & rest & Hnew & Hlt & Eg)|(a & Eg & Hrel)].
  2: { assert (Hw2 : stands (mk_world (mk_mem_heap a (bufs (heap w1)) (variables (heap w1))) (bios w1)) x1 m).
    { split; auto. apply (elsewhere_trans b p w0 w1 _ Helse). split; auto. }
    eapply does_step; [unfold on_heap, BUF_MEM_grow_clean; rewrite Eg; reflexivity|]. rewrite (proj2 (Z.eqb_neq 0 n)) by lia. cbn [negb]. apply does_ret.
    exists x1, m, (set_retry q false). split; [|split; [exact Hw2 | exact Hi1]]. right. exists bs. repeat split; auto; lia. }
  set (m2 := mk_buf _ _ _) in Eg. set (w2 := mk_world (with_buf (heap w1) a p m2) (bios w1)).
  assert (Hs2 : stands w2 x1 m2).
  { split; auto; [apply lookup_insert_eq|]. apply (elsewhere_trans b p w0 w1 _ Helse). split; auto. intros c Hc. apply lookup_insert_ne. congruence. }
  apply (does_step _ n _ w2); [unfold on_heap, BUF_MEM_grow_clean; rewrite Eg; reflexivity|]. rewrite Z.eqb_refl. cbn [negb].
  apply (does_load_buf _ _ _ _ _ Hs2). rewrite (proj2 (Z.ltb_ge (zlen bs) (zlen bs))), ztake_all by (reflexivity || lia).
  cbn [data length_ max m2]. pose proof (zlen_nonneg rest). apply does_write; [lia | lia | rewrite !zlen_app; lia|].
  rewrite Z.add_0_l, splice_app by (reflexivity || lia). apply (does_store _ _ _ _ _ _ Hs2). intros w3 Hs3. apply does_ret.
  apply (follows_op _ _ _ _ _ _ _ E Hs3). apply (is_moved _ _ _ _ _ Hi1); cbn [ro eof retry bytes past set_retry]; auto; [change (zlen (@nil byte)) with 0; rewrite zlen_app; lia|].
  rewrite Er. split; [reflexivity|]. apply (own_block _ _ rest); cbn [data length_ max]; rewrite ?zlen_app, <- ?app_assoc; reflexivity || lia.
Qed.

(** What [BIO_read], [BIO_gets] and [BIO_write] add: the counts. *)
Lemma counted_run (c : W (Z * list byte)) (f : Z -> BIO addr -> BIO addr) w q o : (forall r x, exists i j, f r x = set_counts i j x) -> does c w (follows q o) ->
  does ('(r, out) <- c ;; (if 0 <? r then update b (f r) else ret tt) ;; ret (r, out)) w (follows q o).
Proof.
  intros Hf H. apply does_bind. apply (does_mono _ _ _ _ H). intros [r out] w1 (x1 & m1 & q1 & Hq & Hs1 & Hi1). destruct (0 <? r).
  - destruct (Hf r x1) as (i & j & Ef). apply (does_update _ _ _ _ _ _ Hs1); [rewrite Ef; reflexivity|]. intros w2 Hs2. apply does_ret.
    exists (f r x1), m1, q1. split; [exact Hq|]. split; [exact Hs2 | rewrite Ef; apply is_counted, Hi1].
  - apply (does_step _ tt _ w1); [reflexivity|]. apply does_ret. exists x1, m1, q1. auto.
Qed.

Lemma mem_BIO_read_run w x m q n : stands w x m -> bio_is x m q -> n <= INT_MAX -> does (BIO_read mem_method (Some b) true n) w (follows q (Read n)).
Proof.
  intros Hs Hi Hn. unfold BIO_read. cbn [bread mem_method]. apply (does_load _ _ _ _ _ Hs). rewrite (is_init _ _ _ Hi). cbn [negb].
  destruct (Z.leb_spec n 0) as [H0|H0].
  - apply does_ret. apply (follows_op _ _ _ q w x m); auto. cbn [queue_op]. rewrite (proj2 (Z.leb_le n 0)) by lia. reflexivity.
  - apply (counted_run (mem_read b n) (fun r x => set_counts (u64 (num_read x + r)) (num_write x) x)); [eauto|]. apply (mem_read_run w x m); auto.
Qed.

Lemma mem_BIO_gets_run w x m q n : stands w x m -> bio_is x m q -> n <= INT_MAX -> does (BIO_gets mem_method (Some b) n) w (follows q (Gets n)).
Proof.
  intros Hs Hi Hn. unfold BIO_gets. cbn [bgets mem_method]. apply (does_load _ _ _ _ _ Hs). rewrite (is_init _ _ _ Hi). cbn [negb].
  destruct (Z.leb_spec n 0) as [H0|H0].
  - apply does_ret. apply (follows_op _ _ _ q w x m); auto. cbn [queue_op]. rewrite (proj2 (Z.leb_le n 0)) by lia. reflexivity.
  - apply (counted_run (mem_gets b n) (fun r x => set_counts (u64 (num_read x + r)) (num_write x) x)); [eauto|]. apply (mem_gets_run w x m); auto.
Qed.

Lemma mem_BIO_write_run w x m q bs : stands w x m -> bio_is x m q -> zlen bs <= INT_MAX ->
  does (r <- BIO_write mem_method (Some b) (Some bs) (zlen bs) ;; ret (r, [])) w (follows q (Write bs)).
Proof.
  intros Hs Hi Hn. pose proof (zlen_nonneg bs). unfold BIO_write. cbn [bwrite mem_method]. apply does_bind. apply (does_load _ _ _ _ _ Hs). rewrite (is_init _ _ _ Hi). cbn [negb].
  destruct (Z.leb_spec (zlen bs) 0) as [H0|H0].
  - apply does_ret, does_ret. apply (follows_op _ _ _ q w x m); auto. cbn [queue_op]. rewrite (proj2 (Z.eqb_eq (zlen bs) 0)) by lia. reflexivity.
  - apply does_bind. apply (does_mono _ _ _ _ (mem_write_run w x m q bs Hs Hi ltac:(lia))). intros r w1 (x1 & m1 & q1 & Hq & Hs1 & Hi1). destruct (0 <? r).
    + apply (does_update _ _ _ _ _ _ Hs1); [reflexivity|]. intros w2 Hs2. apply does_ret, does_ret. exists (set_counts (num_read x1) (u64 (num_write x1 + r)) x1), m1, q1.
      split; [exact Hq|]. split; [exact Hs2 | apply is_counted, Hi1].
    + apply (does_step _ tt _ w1); [reflexivity|]. apply does_ret, does_ret. exists x1, m1, q1. auto.
Qed.

(** The control calls. *)
Lemma does_as_int (c : W Z) w Q : does c w (fun a w' => Q (sext 32 a) w') -> does (as_int c) w Q.
Proof. intros (a & w' & E & H). exists (sext 32 a), w'. unfold as_int. rewrite (bind_Ok _ _ _ _ _ E). auto. Qed.

Lemma mem_BIO_reset_run w x m q : stands w x m -> bio_is x m q -> does (r <- BIO_reset mem_method (Some b) ;; ret (r, [])) w (follows q Reset).
Proof.
  intros Hs Hi. apply does_bind. unfold BIO_reset, BIO_ctrl. apply does_as_int. cbn [ctrl mem_method]. unfold mem_ctrl.
  cbn [Z.eqb Pos.eqb orb BIO_CTRL_RESET BIO_C_SET_BUF_MEM BIO_C_SET_BUF_MEM_EOF_RETURN BIO_CTRL_SET_CLOSE BIO_CTRL_GET_CLOSE BIO_CTRL_WPENDING BIO_CTRL_FLUSH BIO_C_GET_BUF_MEM_PTR BIO_CTRL_EOF BIO_CTRL_PENDING BIO_CTRL_INFO].
  apply (does_load_mem _ _ _ _ _ Hs). destruct (length_is _ _ _ Hi) as [Hl Hz]. pose proof (is_buffer _ _ _ Hi) as Hb. pose proof (is_rdonly _ _ _ Hi) as Hro.
  pose proof (is_short _ _ _ Hi). pose proof (zlen_nonneg (past q)). destruct (ro q) eqn:Er.
  - destruct Hb as (_ & Hm & [(Hd & E1 & E2)|(rest & Hd)]); rewrite Hd.
    + apply does_ret, does_ret. apply (follows_op _ _ _ q w x m); auto. cbn [queue_op]. rewrite Er, E1, E2. destruct q; cbn in *; subst. reflexivity.
    + apply (does_load _ _ _ _ _ Hs). rewrite Hro. cbn [owned block at_]. apply (does_store _ _ _ _ _ _ Hs). intros w1 Hs1. apply does_ret, does_ret.
      eapply (follows_op _ _ _ _ w1 x _); [reflexivity | exact Hs1 |]. rewrite Er. apply (is_moved _ _ _ _ _ Hi); cbn [ro eof retry past bytes]; auto.
      { change (zlen (@nil byte)) with 0. rewrite zlen_app. lia. }
      rewrite Er. split; [cbn [length_]; rewrite zlen_app; lia|]. split; [cbn [max]; change (zlen (@nil byte)) with 0; rewrite zlen_app; lia|].
      right. exists rest. cbn [data app]. rewrite <- app_assoc. do 2 f_equal. change (zlen (@nil byte)) with 0. lia.
  - destruct Hb as (Hpast & _ & Hmax & [(Hd & E & Hm)|(rest & Hd & Hm)]); rewrite Hd.
    + apply does_ret, does_ret. apply (follows_op _ _ _ q w x m); auto. cbn [queue_op]. rewrite Er. destruct q; cbn in *; subst. reflexivity.
    + apply (does_load _ _ _ _ _ Hs). rewrite Hro. pose proof (zlen_nonneg rest).
      assert (Hgo : forall blk, zlen blk = max m -> does (on_heap (store_buf p (mk_buf 0 (Some (mk_pointer true blk 0)) (max m)))) w
        (fun _ w' => does (ret 1) w' (fun a w'' => does (ret (sext 32 a, [])) w'' (follows q Reset)))).
      { intros blk Hblk. apply (does_store_end _ _ _ _ _ Hs). intros w1 Hs1. apply does_ret, does_ret. eapply (follows_op _ _ _ _ w1 x _); [reflexivity | exact Hs1|].
        rewrite Er. apply (is_moved _ _ _ _ _ Hi); cbn [ro eof retry past bytes]; auto; [vm_compute; discriminate|]. rewrite Er. split; [reflexivity|].
        apply (own_block _ [] blk); cbn [data length_ max app]; auto. }
      apply does_bind. destruct (Z.eq_dec (max m) 0) as [Hmax0|Hmax0].
      * rewrite Hmax0 in *. apply (does_step _ (Some (mk_pointer true (bytes q ++ rest) 0)) _ w); [destruct w; reflexivity|]. apply Hgo. rewrite zlen_app. lia.
      * assert (Hzz : zlen (zeros (max m)) = max m) by (apply zlen_zeros; lia).
        apply does_write; [lia | lia | rewrite zlen_app; lia|]. apply Hgo. rewrite zlen_splice; rewrite ?zlen_app; lia.
Qed.

Lemma alone_run (o : op) (c : W Z) (r : Z) q q' w w1 x m : c w = (Ok r, w1) -> queue_op q o = (r, [], q') -> stands w1 x m -> bio_is x m q' ->
  does (r <- c ;; ret (r, [])) w (follows q o).
Proof. intros E Hq Hs Hi. apply (does_step _ _ _ _ _ _ E). apply does_ret. apply (follows_op _ _ _ _ _ _ _ Hq Hs Hi). Qed.

Lemma load_mem_run w x m : stands w x m -> load_mem b w = (Ok (p, m), w).
Proof. intros [Hb Hp Hm _]. unfold load_mem, bind, load, on_heap, load_buf. rewrite Hb, Hp, Hm. destruct w. reflexivity. Qed.

Lemma mem_op_run w x m q o : stands w x m -> bio_is x m q -> op_ok o -> does (mem_op b o) w (follows q o).
Proof.
  intros Hs Hi Ho. destruct (length_is _ _ _ Hi) as [Hl Hz]. destruct o as [bs|n|n| | | |v]; cbn [mem_op op_ok] in *.
  - apply (mem_BIO_write_run w x m q bs Hs Hi Ho).
  - apply (mem_BIO_read_run w x m q n Hs Hi Ho).
  - apply (mem_BIO_gets_run w x m q n Hs Hi Ho).
  - apply (mem_BIO_reset_run w x m q Hs Hi).
  - apply (alone_run Eof _ (if zlen (bytes q) =? 0 then 1 else 0) q q w w x m); [|reflexivity | exact Hs | exact Hi].
    transitivity ((as_int (ret (if length_ m =? 0 then 1 else 0))) w); [|rewrite Hl; destruct (zlen (bytes q) =? 0); reflexivity].
    unfold BIO_eof, BIO_ctrl, as_int. cbn [ctrl mem_method]. unfold mem_ctrl. cbn [Z.eqb Pos.eqb orb BIO_C_SET_BUF_MEM BIO_C_SET_BUF_MEM_EOF_RETURN BIO_CTRL_SET_CLOSE BIO_CTRL_GET_CLOSE BIO_CTRL_WPENDING BIO_CTRL_FLUSH BIO_C_GET_BUF_MEM_PTR BIO_CTRL_EOF].
    unfold bind at 1. rewrite (bind_Ok _ _ _ _ _ (load_mem_run _ _ _ Hs)). reflexivity.
  - apply (alone_run Pending _ (zlen (bytes q)) q q w w x m); [|reflexivity | exact Hs | exact Hi].
    assert (Ec : BIO_ctrl mem_method (Some b) BIO_CTRL_PENDING 0 None w = (Ok (zlen (bytes q)), w)).
    { transitivity ((ret (sext 64 (length_ m)) : W Z) w).
      - unfold BIO_ctrl. cbn [ctrl mem_method]. unfold mem_ctrl. cbn [Z.eqb Pos.eqb orb BIO_C_SET_BUF_MEM BIO_C_SET_BUF_MEM_EOF_RETURN BIO_CTRL_SET_CLOSE BIO_CTRL_GET_CLOSE BIO_CTRL_WPENDING BIO_CTRL_FLUSH BIO_C_GET_BUF_MEM_PTR BIO_CTRL_EOF BIO_CTRL_PENDING].
        rewrite (bind_Ok _ _ _ _ _ (load_mem_run _ _ _ Hs)). reflexivity.
      - rewrite Hl. unfold sext, ret. rewrite wrap_small by (unfold in_word; lia). destruct (Z.ltb_spec (zlen (bytes q)) (2 ^ (64 - 1))); [reflexivity | lia]. }
    unfold BIO_pending. rewrite (bind_Ok _ _ _ _ _ Ec). rewrite (proj2 (Z.ltb_ge (zlen (bytes q)) 0)) by lia. reflexivity.
  - apply does_bind. unfold BIO_set_mem_eof_return, BIO_ctrl. apply does_as_int. cbn [ctrl mem_method]. unfold mem_ctrl. cbn [Z.eqb Pos.eqb BIO_C_SET_BUF_MEM BIO_C_SET_BUF_MEM_EOF_RETURN].
    apply (does_update _ _ _ _ _ _ Hs); [reflexivity|]. intros w1 Hs1. apply does_ret, does_ret. eapply (follows_op _ _ _ _ w1 _ m); [reflexivity | exact Hs1|].
    destruct Hi as [H1 H2 H3 H4 H5 H6]. split; assumption || reflexivity.
Qed.

Lemma mem_ops_run ops : Forall op_ok ops -> forall w x m q, stands w x m -> bio_is x m q ->
  does (mem_ops b ops) w (fun outs w' => exists x' m' q', queue_run q ops outs q' /\ stands w' x' m' /\ bio_is x' m' q').
Proof.
  induction ops as [|o ops IH]; intros Hok w x m q Hs Hi; cbn [mem_ops].
  - apply does_ret. exists x, m, q. split; [constructor | auto].
  - apply Forall_cons_iff in Hok as [Ho Hok]. apply does_bind. apply (does_mono _ _ _ _ (mem_op_run w x m q o Hs Hi Ho)).
    intros out w1 (x1 & m1 & q1 & Hq1 & Hs1 & Hi1). apply does_bind. apply (does_mono _ _ _ _ (IH Hok w1 x1 m1 q1 Hs1 Hi1)).
    intros outs w2 (x2 & m2 & q2 & Hq2 & Hs2 & Hi2). apply does_ret. exists x2, m2, q2. split; [econstructor; eassumption | auto].
Qed.
End runs.

(** ** The theorem *)

(** C14: A memory BIO is a queue of bytes.  Whatever sequence of writes, reads,
    lines, resets and questions it gets, every call returns what the queue
    returns: what was written and not yet read, in order, or, for a BIO on a buffer
    of its caller, that buffer; a line ends behind the first newline, or with the bytes that are
    there or asked for; at the end the
    value that was set for it, and whether to try again; a reset empties the
    queue, or goes back to the start of the caller's buffer.  A write that fails has
    changed nothing and had no memory, or would make more than [INT_MAX] bytes.
    No other BIO or buffer changes. *)
Theorem mem_bio_refines b p q ops w : mem_bio w b p q -> Forall op_ok ops ->
  exists outs q' w', mem_ops b ops w = (Ok outs, w') /\ queue_run q ops outs q' /\ mem_bio w' b p q' /\ elsewhere b p w w'.
Proof.
  intros (x & m & Hb & Hp & Hm & Hi) Hok.
  destruct (mem_ops_run b p w ops Hok w x m q (Build_stands b p w w x m Hb Hp Hm (elsewhere_refl b p w)) Hi) as (outs & w' & E & x' & m' & q' & Hq & [Hb' Hp' Hm' He] & Hi').
  exists outs, q', w'. split; [exact E|]. split; [exact Hq|]. split; [|exact He]. exists x', m'. auto.
Qed.

(** ** Creation *)

(** An allocation touches no buffer. *)
Lemma malloc_bufs (h : mem_heap A) n r h1 : OPENSSL_malloc h n = (r, h1) -> exists a, h1 = mk_mem_heap a (bufs h) (variables h).
Proof. unfold OPENSSL_malloc. cbn. destruct (OPENSSL_realloc _ _ _) as [r1 a]. intros [= _ <-]. eauto. Qed.

Lemma update_at (w : world) c x f : bios w !! c = Some x -> update c f w = (Ok tt, mk_world (heap w) (<[c := f x]> (bios w))).
Proof. intros H. unfold update. rewrite H. reflexivity. Qed.

Lemma mem_new_run c x w : bios w !! c = Some x ->
  (exists a, mem_new c w = (Ok false, mk_world (mk_mem_heap a (bufs (heap w)) (variables (heap w))) (bios w))) \/
  (exists a p, bufs (heap w) !! p = None /\ mem_new c w =
     (Ok true, mk_world (with_buf (heap w) a p (mk_buf 0 None 0)) (<[c := set_ptr (Some p) (set_num (-1) (set_init true (set_shutdown 1 x)))]> (bios w)))).
Proof.
  intros Hc. unfold mem_new. destruct (OPENSSL_malloc (heap w) sizeof_BUF_MEM) as [r h] eqn:E. destruct (malloc_bufs _ _ _ _ E) as [a ->].
  destruct r as [r|]; [right | left].
  - set (p := fresh (dom (bufs (heap w)))). exists a, p. split; [apply not_elem_of_dom, is_fresh|].
    assert (En : on_heap BUF_MEM_new w = (Ok (Some p), mk_world (with_buf (heap w) a p (mk_buf 0 None 0)) (bios w))) by (unfold on_heap, BUF_MEM_new; rewrite E; reflexivity).
    rewrite (bind_Ok _ _ _ _ _ En). set (w1 := mk_world _ _). assert (H1 : bios w1 !! c = Some x) by exact Hc.
    rewrite (bind_Ok _ _ _ _ _ (update_at _ _ _ _ H1)). do 3 (erewrite bind_Ok by (apply update_at; cbn [bios]; apply lookup_insert_eq)).
    unfold ret. cbn [heap bios w1]. rewrite !insert_insert_eq. reflexivity.
  - exists a. assert (En : on_heap BUF_MEM_new w = (Ok None, mk_world (mk_mem_heap a (bufs (heap w)) (variables (heap w))) (bios w))) by (unfold on_heap, BUF_MEM_new; rewrite E; reflexivity).
    rewrite (bind_Ok _ _ _ _ _ En). reflexivity.
Qed.

Lemma BIO_new_mem_run w :
  (exists h, BIO_new mem_method w = (Ok None, mk_world h (bios w))) \/
  (exists b p w', BIO_new mem_method w = (Ok (Some b), w') /\ stands b p w w' (mk_bio true 1 0 0 (-1) 1 (Some p) None 0 0) (mk_buf 0 None 0)).
Proof.
  unfold BIO_new. destruct (OPENSSL_malloc (heap w) sizeof_BIO) as [r h1] eqn:E1. destruct (malloc_bufs _ _ _ _ E1) as [a1 ->]. set (h1 := mk_mem_heap _ _ _) in *.
  assert (Em : malloc sizeof_BIO w = (Ok r, mk_world h1 (bios w))) by (unfold malloc; rewrite E1; reflexivity). rewrite (bind_Ok _ _ _ _ _ Em).
  destruct r as [r|]; [|left; exists h1; reflexivity]. cbn [create mem_method heap bios].
  set (c := fresh (dom (bios w))). assert (Hc : bios w !! c = None) by (apply not_elem_of_dom, is_fresh).
  set (b0 := mk_bio (P := addr) false 1 0 0 0 1 None None 0 0). set (w1 := mk_world h1 (<[c := b0]> (bios w))).
  destruct (mem_new_run c b0 w1) as [(a & E)|(a & p & Hp & E)]; [apply lookup_insert_eq | left | right]; rewrite (bind_Ok _ _ _ _ _ E).
  - eexists. unfold bind, remove, ret; cbn. rewrite delete_insert_id by exact Hc. reflexivity.
  - exists c, p. eexists. split; [reflexivity|]. split; cbn [heap bios bufs w1 h1]; [apply lookup_insert_eq | reflexivity | apply lookup_insert_eq |].
    split; cbn [heap bios bufs variables with_buf h1]; [|intros d Hd; apply lookup_insert_ne; congruence | reflexivity].
    intros d Hd. rewrite !lookup_insert_ne by congruence. reflexivity.
Qed.

(** A BIO of its own starts empty; one on a buffer of the caller has its bytes. *)
Lemma new_mem_bio w : (exists h, BIO_new mem_method w = (Ok None, mk_world h (bios w))) \/
  exists b p w', BIO_new mem_method w = (Ok (Some b), w') /\ mem_bio w' b p (mk_queue false [] [] (-1) false) /\ elsewhere b p w w'.
Proof.
  destruct (BIO_new_mem_run w) as [(h & E)|(b & p & w' & E & [Hb Hp Hm He])]; [left; eauto|]. right. exists b, p, w'. split; [exact E|]. split; [|exact He].
  eexists _, _. split; [exact Hb|]. split; [exact Hp|]. split; [exact Hm|]. split; try reflexivity; [vm_compute; discriminate|]. split; [reflexivity|].
  split; [reflexivity|]. split; [reflexivity|]. left. auto.
Qed.

Lemma new_mem_buf_bio w object len : 0 <= len <= INT_MAX -> len <= zlen object ->
  (exists h, BIO_new_mem_buf (Some object) len w = (Ok None, mk_world h (bios w))) \/
  exists b p w', BIO_new_mem_buf (Some object) len w = (Ok (Some b), w') /\ mem_bio w' b p (mk_queue true [] (ztake len object) 0 false) /\ elsewhere b p w w'.
Proof.
  intros Hl Ho. unfold BIO_new_mem_buf. rewrite (proj2 (Z.ltb_ge len 0)) by lia. assert (Ek : (known (Some len) : W Z) w = (Ok len, w)) by reflexivity. rewrite (bind_Ok _ _ _ _ _ Ek).
  replace (bool_decide (Some object = None)) with false by (symmetry; apply bool_decide_eq_false; discriminate). cbn [andb].
  destruct (BIO_new_mem_run w) as [(h & E)|(b & p & w1 & E & Hs)]; rewrite (bind_Ok _ _ _ _ _ E); [left; exists h; reflexivity|]. right.
  assert (H : does (
      '(p, m) <- load_mem b ;;
      on_heap (store_buf p (mk_buf len (option_map (fun s => mk_pointer false s 0) (Some object)) len)) ;;
      BIO_set_flags b BIO_FLAGS_MEM_RDONLY ;;
      update b (set_num 0) ;;
      ret (Some b)) w1 (fun r w' => r = Some b /\ mem_bio w' b p (mk_queue true [] (ztake len object) 0 false) /\ elsewhere b p w w')).
  { apply (does_load_mem _ _ _ _ _ _ _ _ Hs). apply (does_store _ _ _ _ _ _ _ _ _ Hs). intros w2 Hs2. unfold BIO_set_flags. apply (does_update _ _ _ _ _ _ _ _ _ Hs2); [reflexivity|]. intros w3 Hs3.
    apply (does_update _ _ _ _ _ _ _ _ _ Hs3); [reflexivity|]. intros w4 [Hb Hp Hm He]. apply does_ret. split; [reflexivity|]. split; [|exact He].
    eexists _, _. split; [exact Hb|]. split; [exact Hp|]. split; [exact Hm|]. assert (Hz : zlen (ztake len object) = len) by (apply zlen_ztake; lia).
    split; try reflexivity; cbn [past bytes ro]; [change (zlen (@nil byte)) with 0; lia|]. split; [cbn [length_]; lia|]. split; [cbn [max]; change (zlen (@nil byte)) with 0; lia|].
    right. exists (zdrop len object). cbn [data option_map app]. rewrite ztake_zdrop. reflexivity. }
  destruct H as (r & w' & E' & -> & H). exists b, p, w'. split; [exact E' | exact H].
Qed.
End mem.

(** A line is written, read in two pieces, and then there is nothing left. *)
Definition queue_world : world (mem_heap unit) addr := snd (BIO_new mem_method (mk_world (mk_mem_heap tt ∅ ∅) ∅)).
Definition queue_program : list op := [Write [Byte.x61; Byte.x0a; Byte.x62]; Gets 9; Pending; Read 5; Read 5; SetEof 0; Eof; Read 1].

Lemma mem_bio_refines_witness :
  mem_bio queue_world 0%nat 0%nat (mk_queue false [] [] (-1) false) /\ Forall op_ok queue_program /\
  exists outs q' w', mem_ops 0%nat queue_program queue_world = (Ok outs, w') /\
    queue_run (A := unit) (mk_queue false [] [] (-1) false) queue_program outs q' /\ mem_bio w' 0%nat 0%nat q' /\ elsewhere 0%nat 0%nat queue_world w'.
Proof.
  assert (H : mem_bio queue_world 0%nat 0%nat (mk_queue false [] [] (-1) false)).
  { eexists _, _. split; [vm_compute; reflexivity|]. split; [reflexivity|]. split; [vm_compute; reflexivity|].
    split; try reflexivity; [vm_compute; discriminate|]. split; [reflexivity|]. split; [reflexivity|]. split; [reflexivity|]. left. auto. }
  assert (Hok : Forall op_ok queue_program) by (repeat constructor; vm_compute; discriminate).
  split; [exact H|]. split; [exact Hok|]. exact (mem_bio_refines 0%nat 0%nat _ _ _ H Hok).
Defined.

Example queue_program_runs :
  fst (mem_ops 0%nat queue_program queue_world) =
    Ok [(3, []); (2, [Byte.x61; Byte.x0a; Byte.x00]); (1, []); (1, [Byte.x62]); (-1, []); (1, []); (1, []); (0, [])].
Proof. vm_compute. reflexivity. Qed.
