(* ===== verification/BioAsn1.v ===== *)
(** Reading one ASN.1 element from a BIO ([BIO_read_asn1] in bio.c): whatever
    the BIO is and however it cuts its bytes into pieces, the result is the
    element that the parser of cbs.c finds in front of the same bytes. *)
From Stdlib Require Import ZArith Lia Bool.
From coqutil Require Import Byte.
From stdpp Require Import base list numbers gmap.
From S2P Require Import Prelude Alloc Cbs CbsSpec Bio Buf BioMem BioMemSpec.
Local Open Scope Z_scope.
Local Open Scope c_scope.

(** ** The bytes that a BIO delivers *)

(** [at_bytes bs w] says that in [w] the bytes [bs] are still to come; a read
    returns some of them, as many as it likes, and [eof] when there are none. *)
Class Source {A P} {AL : Allocator A} (method : BIO_METHOD A P) (bio : option addr) (eof : Z) (at_bytes : list byte -> world A P -> Prop) : Prop := {
  source_more : forall bs w n, at_bytes bs w -> bs <> [] -> 0 < n <= INT_MAX ->
    exists r w', BIO_read method bio true n w = (Ok (r, ztake r bs), w') /\ 0 < r <= n /\ r <= zlen bs /\ at_bytes (zdrop r bs) w';
  source_end : forall w n, at_bytes [] w -> 0 < n <= INT_MAX ->
    exists w', BIO_read method bio true n w = (Ok (eof, []), w') /\ at_bytes [] w';
  source_heap : forall bs w old n x h, at_bytes bs w -> OPENSSL_realloc (heap w) old n = (x, h) -> at_bytes bs (mk_world h (bios w));
}.

(** ** What is to be read *)

Definition one_byte_tag (e : list byte) : bool := match e with b :: _ => negb (Z.land (u8 b) 0x1f =? 0x1f) | [] => false end.

(** The element in front of [bs] and what follows it, unless it is too long or
    its tag number takes more than the first byte. *)
Definition next_element (max_len : Z) (bs : list byte) : option (list byte * list byte) :=
  match CBS_get_any_asn1_element bs with
  | (Ok (e, _, header_len), rest) =>
      if one_byte_tag e && (zlen e <=? max_len) && (zlen e - header_len <=? INT_MAX) then Some (e, rest) else None
  | _ => None
  end.

(** A constructed element without a length goes on to the end of the input. *)
Definition indefinite (bs : list byte) : bool :=
  match bs with
  | tag :: length_byte :: _ => one_byte_tag bs && negb (Z.land (u8 tag) 0x20 =? 0) && (u8 length_byte =? 0x80)
  | _ => false
  end.

(** The element with the header [header] and [len] bytes of contents. *)
Definition take_element (max_len : Z) (header : list byte) (len : Z) (more : list byte) : option (list byte * list byte) :=
  if (zlen header + len <=? max_len) && (len <=? INT_MAX) && (len <=? zlen more) then Some (header ++ ztake len more, zdrop len more) else None.

Lemma ztake_more {A} (a b : list A) n : 0 <= n <= zlen b -> ztake (zlen a + n) (a ++ b) = a ++ ztake n b /\ zdrop (zlen a + n) (a ++ b) = zdrop n b.
Proof.
  intros H. rewrite <- (ztake_zdrop b n) at 1 3. rewrite app_assoc. pose proof (zlen_ztake b n H) as Hz.
  rewrite ztake_app, zdrop_app by (rewrite zlen_app; lia). auto.
Qed.

Lemma get_bytes_more header len more : 0 <= len -> CBS_get_bytes (zlen header + len) (header ++ more) =
  if len <=? zlen more then (Ok (header ++ ztake len more), zdrop len more) else (Fail, header ++ more).
Proof.
  intros Hl. unfold CBS_get_bytes, bind. rewrite cbs_get_run, zlen_app. pose proof (zlen_nonneg header).
  destruct (Z.leb_spec len (zlen more)).
  - destruct (Z.ltb_spec (zlen header + zlen more) (zlen header + len)); [lia|]. destruct (ztake_more header more len ltac:(lia)) as [-> ->].
    unfold CBS_init. assert (Hz : zlen header + len = zlen (header ++ ztake len more)) by (rewrite zlen_app, zlen_ztake by lia; reflexivity).
    rewrite bytes_at_Ok, ztake_all by lia. reflexivity.
  - destruct (Z.ltb_spec (zlen header + zlen more) (zlen header + len)); [reflexivity | lia].
Qed.

Section next.
Context (max_len : Z) (tag : byte) (Hlow : Z.land (u8 tag) 0x1f =? 0x1f = false).

(** The parser after an identifier of one byte. *)
Lemma parse_low b more :
  exists t, cbs_get_any_asn1_element false (tag :: b :: more) = element_tail false t 2 b more (tag :: b :: more).
Proof.
  eexists. apply (element_run false [tag] _ b more). apply low_tag. apply Z.eqb_neq, Hlow.
Qed.

Lemma next_taken t n hl header more (long : bool) : header <> [] -> one_byte_tag header = true -> 0 <= n -> hl = zlen header ->
  cbs_get_any_asn1_element false (header ++ more) = (out <- CBS_get_bytes (n + hl) ;; ret (out, t, hl, long)) (header ++ more) ->
  next_element max_len (header ++ more) = take_element max_len header n more.
Proof.
  intros Hne Ht Hn -> E. unfold next_element, CBS_get_any_asn1_element. unfold bind at 1. rewrite E. unfold bind.
  rewrite (Z.add_comm n), get_bytes_more by exact Hn. unfold take_element. pose proof (zlen_nonneg header).
  destruct (Z.leb_spec n (zlen more)); [|rewrite andb_false_r; reflexivity]. unfold ret.
  replace (one_byte_tag (header ++ ztake n more)) with true by (destruct header; [contradiction | symmetry; exact Ht]).
  rewrite zlen_app, zlen_ztake by lia. replace (zlen header + n - zlen header) with n by lia. rewrite andb_true_r. reflexivity.
Qed.

Lemma tag_in_header h : one_byte_tag (tag :: h) = true.
Proof. unfold one_byte_tag. rewrite Hlow. reflexivity. Qed.

Lemma next_short b more : u8 b < 128 -> next_element max_len (tag :: b :: more) = take_element max_len [tag; b] (u8 b) more.
Proof.
  intros Hb. destruct (parse_low b more) as [t E]. unfold element_tail in E. rewrite (proj2 (Z.ltb_lt _ _) Hb) in E. pose proof (u8_range b).
  apply (next_taken t (u8 b) 2 [tag; b] more false); [discriminate | apply tag_in_header | lia | reflexivity | exact E].
Qed.

Lemma next_fails b more t : cbs_get_any_asn1_element false (tag :: b :: more) = (Fail, t) -> next_element max_len (tag :: b :: more) = None.
Proof. intros E. unfold next_element, CBS_get_any_asn1_element, bind. rewrite E. reflexivity. Qed.

Lemma next_long b more : 128 <= u8 b -> let n := u8 b - 128 in
  next_element max_len (tag :: b :: more) =
    if (n =? 0) || (4 <? n) || (zlen more <? n) then None else
    let len := be_value (ztake n more) in
    if (len <? 128) || (len <? 2 ^ (8 * (n - 1))) then None else
    take_element max_len (tag :: b :: ztake n more) len (zdrop n more).
Proof.
  intros Hb n. destruct (parse_low b more) as [t E]. unfold element_tail in E. rewrite (proj2 (Z.ltb_ge _ _) Hb) in E. fold n in E. cbn [negb andb] in E.
  destruct (_ || _ || _) eqn:E1; [apply (next_fails _ _ _ E)|]. cbv zeta. apply orb_false_iff in E1 as [E1 E2]. apply orb_false_iff in E1 as [E0 E1].
  apply Z.eqb_neq in E0. apply Z.ltb_ge in E1, E2.
  destruct (_ || _) eqn:E3; [apply (next_fails _ _ _ E)|]. pose proof (be_value_range (ztake n more)).
  assert (Hm : tag :: b :: more = (tag :: b :: ztake n more) ++ zdrop n more) by (cbn [app]; rewrite ztake_zdrop by lia; reflexivity).
  rewrite Hm in E |- *. rewrite <- Z.add_assoc in E.
  apply (next_taken t _ (2 + n) (tag :: b :: ztake n more) (zdrop n more) false); [discriminate | apply tag_in_header | lia | | exact E].
  rewrite !zlen_cons, zlen_ztake by lia. lia.
Qed.
End next.

(** ** The reads *)

Section source.
Context {A P : Type} {AL : Allocator A} (method : BIO_METHOD A P) (bio : option addr) (eof : Z) (at_bytes : list byte -> world A P -> Prop).
Context {SO : Source method bio eof at_bytes} (Heof : eof <= 0).

(** A read by either law. *)
Lemma source_run bs w n : at_bytes bs w -> 0 < n <= INT_MAX -> exists r k w',
  BIO_read method bio true n w = (Ok (r, ztake k bs), w') /\ at_bytes (zdrop k bs) w' /\ 0 <= k <= n /\ k <= zlen bs /\
  (r = k /\ 0 < k \/ r = eof /\ k = 0 /\ bs = []).
Proof.
  intros H Hn. destruct bs as [|b bs].
  - destruct (source_end w n H Hn) as (w' & E & H'). exists eof, 0, w'. split; [exact E|]. split; [exact H'|].
    split; [lia|]. split; [reflexivity | auto].
  - destruct (source_more (b :: bs) w n H ltac:(discriminate) Hn) as (r & w' & E & Hr & Hz & H').
    exists r, r, w'. split; [exact E|]. split; [exact H'|]. split; [lia|]. split; [exact Hz | left; lia].
Qed.

(** [bio_read_full] takes all it asks for, or everything. *)
Lemma read_full_run : forall fuel bs w first len, at_bytes bs w -> 0 <= len < 2 ^ 64 -> len < Z.of_nat fuel -> exists w',
  if len <=? zlen bs then read_full_loop method fuel bio first len w = (Ok (inl (ztake len bs)), w') /\ at_bytes (zdrop len bs) w'
  else exists e, read_full_loop method fuel bio first len w = (Ok (inr e), w') /\ at_bytes [] w'.
Proof.
  induction fuel as [|fuel IH]; intros bs w first len H Hl Hf; [lia|]. cbn [read_full_loop]. pose proof (zlen_nonneg bs).
  destruct (Z.ltb_spec 0 len) as [Hpos|Hpos].
  2: { assert (len = 0) as -> by lia. exists w. destruct (Z.leb_spec 0 (zlen bs)); [|lia]. split; [reflexivity | exact H]. }
  set (todo := if len <=? INT_MAX then len else INT_MAX). assert (Htodo : 0 < todo <= INT_MAX /\ todo <= len) by (unfold todo; destruct (Z.leb_spec len INT_MAX); lia).
  destruct (source_run bs w todo H ltac:(lia)) as (r & k & w1 & E & H1 & Hk & Hz & Hr). rewrite (bind_Ok _ _ _ _ _ E).
  rewrite zlen_ztake by lia. rewrite (proj2 (Z.ltb_ge todo k)) by lia.
  destruct Hr as [[-> Hr]|(-> & -> & ->)].
  - rewrite (proj2 (Z.leb_gt k 0)), Z.eqb_refl by lia. cbn [negb]. rewrite wrap_small by (unfold in_word; lia).
    destruct (IH (zdrop k bs) w1 false (len - k) H1 ltac:(lia) ltac:(lia)) as (w' & H'). exists w'. rewrite zlen_zdrop in H' by lia.
    destruct (Z.leb_spec (len - k) (zlen bs - k)), (Z.leb_spec len (zlen bs)); try lia.
    + destruct H' as [E' H']. rewrite (bind_Ok _ _ _ _ _ E'). replace (zdrop (len - k) (zdrop k bs)) with (zdrop len bs) in H' by (unfold zdrop; rewrite drop_drop; f_equal; lia).
      split; [|exact H']. unfold ret. do 3 f_equal. rewrite <- (ztake_zdrop bs k) at 3 by lia.
      replace len with (zlen (ztake k bs) + (len - k)) at 2 by (rewrite zlen_ztake; lia). symmetry. apply ztake_more. rewrite zlen_zdrop; lia.
    + destruct H' as (e & E' & H'). rewrite (bind_Ok _ _ _ _ _ E'). exists e. split; [reflexivity | exact H'].
  - rewrite (proj2 (Z.leb_le eof 0)) by lia. exists w1. change (zlen (@nil byte)) with 0. destruct (Z.leb_spec len 0); [lia|]. eexists. split; [reflexivity | exact H1].
Qed.

Lemma bio_read_full_run bs w len : at_bytes bs w -> 0 <= len < 2 ^ 64 -> exists w',
  if len <=? zlen bs then bio_read_full method bio len w = (Ok (inl (ztake len bs)), w') /\ at_bytes (zdrop len bs) w'
  else exists e, bio_read_full method bio len w = (Ok (inr e), w') /\ at_bytes [] w'.
Proof. intros H Hl. apply read_full_run; [exact H | exact Hl | lia]. Qed.

Lemma bio_malloc_run n (w : world A P) r h : OPENSSL_malloc (heap w) n = (r, h) -> malloc n w = (Ok r, mk_world h (bios w)).
Proof. intros E. unfold malloc. rewrite E. reflexivity. Qed.

(** The contents of an element. *)
Lemma read_element_run header len max_len more w : at_bytes more w -> 0 < zlen header < 2 ^ 32 -> 0 <= len < 2 ^ 32 -> 0 <= max_len < 2 ^ 64 ->
  exists r w', read_element method bio header len max_len w = (Ok r, w') /\
  match r with
  | Some (out, n) => exists rest, take_element max_len header len more = Some (out, rest) /\ n = zlen out /\ at_bytes rest w'
  | None => reliable A -> take_element max_len header len more = None
  end.
Proof.
  intros H Hh Hl Hm. unfold read_element, take_element. rewrite wrap_small by (unfold in_word; lia).
  destruct (Z.ltb_spec (len + zlen header) len); [lia|]. cbn [orb]. rewrite (Z.add_comm (zlen header)).
  destruct (Z.ltb_spec max_len (len + zlen header)), (Z.leb_spec (len + zlen header) max_len); try lia;
    destruct (Z.ltb_spec INT_MAX len), (Z.leb_spec len INT_MAX); try lia; cbn [orb andb]; try (do 2 eexists; split; [reflexivity|]; cbn; intros _; reflexivity).
  destruct (OPENSSL_malloc (heap w) (len + zlen header)) as [[out|] h] eqn:Em; rewrite (bind_Ok _ _ _ _ _ (bio_malloc_run _ _ _ _ Em)).
  2: { do 2 eexists. split; [reflexivity|]. cbn. intros Hrel. exfalso. apply (Hrel (heap w) [] (len + zlen header)); [lia|]. unfold OPENSSL_malloc in Em. rewrite Em. reflexivity. }
  apply malloc_length in Em as Hlen; [|lia]. replace (len + zlen header - zlen header) with len by lia. rewrite wrap_small by (unfold in_word; lia).
  destruct (bio_read_full_run more (mk_world h (bios w)) len) as (w' & H'); [exact (source_heap more w [] (len + zlen header) (Some out) h H Em) | lia|].
  destruct (Z.leb_spec len (zlen more)) as [Hz|Hz].
  - destruct H' as [E' H']. rewrite (bind_Ok _ _ _ _ _ E'). do 2 eexists. split; [reflexivity|]. cbn.
    exists (zdrop len more). assert (Hs : splice (splice out 0 header) (zlen header) (ztake len more) = header ++ ztake len more).
    { rewrite <- (ztake_zdrop out (zlen header)) by lia. set (x := ztake (zlen header) out). set (y := zdrop (zlen header) out).
      assert (Hx : zlen x = zlen header) by (apply zlen_ztake; lia). assert (Hy : zlen y = len) by (unfold y; rewrite zlen_zdrop; lia).
      pose proof (splice_app [] x y header) as S1. cbn [app] in S1. rewrite S1 by (reflexivity || lia).
      pose proof (splice_app header y [] (ztake len more)) as S2. rewrite !app_nil_r in S2. apply S2; rewrite ?zlen_ztake; lia. }
    rewrite Hs. split; [reflexivity|]. split; [rewrite zlen_app, zlen_ztake by lia; lia | exact H'].
  - destruct H' as (e & E' & H'). rewrite (bind_Ok _ _ _ _ _ E'). do 2 eexists. split; [reflexivity|]. intros _. reflexivity.
Qed.

(** All of [bs], if it is shorter than [max_len] and the end is no error. *)
Definition all_read (max_len : Z) (bs : list byte) (r : option (list byte * Z)) (w : world A P) : Prop :=
  match r with
  | Some (out, n) => eof = 0 /\ at_bytes [] w /\ n = zlen bs /\ n < max_len /\ ztake n out = bs
  | None => reliable A -> eof <> 0 \/ max_len <= zlen bs
  end.

(** Everything, with room to spare: the block grows before it is full. *)
Lemma read_all_run max_len : eof = 0 \/ eof = -1 -> max_len < 2 ^ 64 -> forall fuel bs w pre tail len, at_bytes bs w -> zlen bs < Z.of_nat fuel ->
  len = zlen pre + zlen tail -> len <= max_len -> zlen tail <= 8192 -> (zlen tail = 0 -> len = max_len) ->
  exists r w', read_all_loop method fuel bio (pre ++ tail) len (zlen pre) max_len w = (Ok r, w') /\
  all_read max_len (pre ++ bs) r w'.
Proof.
  intros He Hm. induction fuel as [|fuel IH]; intros bs w pre tail len H Hf Hlen Hle Ht Hfull; pose proof (zlen_nonneg bs); [lia|]. cbn [read_all_loop].
  pose proof (zlen_nonneg pre). pose proof (zlen_nonneg tail). destruct (Z.eqb_spec (zlen pre) len) as [Hd|Hd].
  { do 2 eexists. split; [reflexivity|]. cbn. intros _. right. rewrite zlen_app. lia. }
  rewrite wrap_small by (unfold in_word; lia). replace (len - zlen pre) with (zlen tail) by lia.
  destruct (Z.leb_spec INT_MAX (zlen tail)); [lia|]. destruct (Z.ltb_spec len (zlen pre)); [lia|].
  destruct (source_run bs w (zlen tail) H ltac:(lia)) as (r & k & w1 & E & Hw1 & Hk & Hz & Hr). rewrite (bind_Ok _ _ _ _ _ E).
  rewrite zlen_ztake by lia. destruct (Z.ltb_spec (zlen tail) k); [lia|].
  destruct Hr as [[-> Hr]|(-> & -> & ->)].
  2: { destruct He as [He|He]; rewrite He; cbn [Z.eqb]; do 2 eexists; (split; [reflexivity|]); cbn.
    - split; [exact He|]. split; [exact Hw1|]. rewrite app_nil_r. split; [reflexivity|]. split; [lia|].
      change (splice (pre ++ tail) (zlen pre) (ztake 0 [])) with (splice (pre ++ tail) (zlen pre) (@nil byte)).
      rewrite splice_nil by (rewrite ?zlen_app; lia). apply ztake_app. reflexivity.
    - intros _. left. lia. }
  destruct (Z.eqb_spec k 0); [lia|]. destruct (Z.eqb_spec k (-1)); [lia|]. rewrite (wrap_small 64 (zlen pre + k)) by (unfold in_word; lia).
  set (pre' := pre ++ ztake k bs). set (tail' := zdrop k tail).
  assert (Hp : zlen pre' = zlen pre + k) by (unfold pre'; rewrite zlen_app, zlen_ztake; lia).
  assert (Ht' : zlen tail' = zlen tail - k) by (unfold tail'; rewrite zlen_zdrop; lia).
  assert (Hs : splice (pre ++ tail) (zlen pre) (ztake k bs) = pre' ++ tail').
  { rewrite <- (ztake_zdrop tail k) at 1. unfold pre', tail'. rewrite <- app_assoc. apply splice_app; [reflexivity | rewrite !zlen_ztake; lia]. }
  rewrite Hs, <- Hp. assert (Hb : zlen (zdrop k bs) = zlen bs - k) by (apply zlen_zdrop; lia).
  assert (Hnext : forall w1 tail2 len2, at_bytes (zdrop k bs) w1 -> len2 = zlen pre' + zlen tail2 -> len2 <= max_len -> zlen tail2 <= 8192 -> (zlen tail2 = 0 -> len2 = max_len) ->
    exists r w', read_all_loop method fuel bio (pre' ++ tail2) len2 (zlen pre') max_len w1 = (Ok r, w') /\
    all_read max_len (pre ++ bs) r w').
  { intros w2 tail2 len2 Hw2 Hl2 Hle2 Ht2 Hf2. destruct (IH (zdrop k bs) w2 pre' tail2 len2 Hw2 ltac:(lia) Hl2 Hle2 Ht2 Hf2) as (r & w' & E2 & Hr2).
    exists r, w'. split; [exact E2|]. unfold pre' in Hr2. rewrite <- app_assoc, ztake_zdrop in Hr2. exact Hr2. }
  change (kChunkSize / 2) with 2048. replace (len - zlen pre') with (zlen tail') by lia. rewrite (wrap_small 64 (zlen tail')) by (unfold in_word; lia).
  destruct (Z.ltb_spec len max_len) as [Hlt|Hge]; cbn [andb]; [|apply Hnext; auto; lia].
  destruct (Z.ltb_spec (zlen tail') 2048) as [Hsmall|Hbig]; cbn [andb]; [|apply Hnext; auto; lia].
  set (len2 := if (_ || _) then max_len else _). assert (Hl2 : len < len2 <= max_len /\ len2 <= len + 4096).
  { unfold len2, kChunkSize, wrap. destruct (Z.ltb_spec (len + 4096) (2 ^ 64)).
    - rewrite Z.mod_small by lia. destruct (Z.ltb_spec (len + 4096) 4096), (Z.ltb_spec max_len (len + 4096)); cbn [orb]; lia.
    - replace ((len + 4096) mod 2 ^ 64) with (len + 4096 - 2 ^ 64) by (apply Z.mod_unique with (q := 1); lia).
      destruct (Z.ltb_spec (len + 4096 - 2 ^ 64) 4096); cbn [orb]; lia. }
  unfold realloc at 1. unfold bind at 1. destruct (OPENSSL_realloc (heap w1) (pre' ++ tail') len2) as [[new|] h] eqn:Er.
  2: { do 2 eexists. split; [reflexivity|]. cbn. intros Hrel. exfalso. apply (Hrel (heap w1) (pre' ++ tail') len2); [lia|]. rewrite Er. reflexivity. }
  assert (Hzo : zlen (pre' ++ tail') = len) by (rewrite zlen_app; lia).
  assert (Hzn : zlen new = len2) by (apply (realloc_length (heap w1) (pre' ++ tail') len2 new h); [lia | exact Er]). apply realloc_keeps in Er as Hkeep; [|lia].
  rewrite <- (ztake_zdrop new len), <- Hzo, Hkeep, <- app_assoc.
  assert (Hze : zlen (zdrop (zlen (pre' ++ tail')) new) = len2 - len) by (rewrite zlen_zdrop; lia).
  apply Hnext; [exact (source_heap _ w1 _ _ _ h Hw1 Er) | rewrite zlen_app; lia | lia | rewrite zlen_app; lia |].
  rewrite zlen_app. lia.
Qed.

Lemma bio_read_all_run fuel prefix max_len bs w : eof = 0 \/ eof = -1 -> at_bytes bs w -> zlen prefix < 128 -> 0 <= max_len < 2 ^ 64 -> zlen bs < Z.of_nat fuel ->
  exists r w', bio_read_all method fuel bio prefix max_len w = (Ok r, w') /\
  all_read max_len (prefix ++ bs) r w'.
Proof.
  intros He H Hp Hm Hf. pose proof (zlen_nonneg prefix). pose proof (zlen_nonneg bs). unfold bio_read_all, kChunkSize. rewrite wrap_small by (unfold in_word; lia).
  set (len := if max_len <? zlen prefix + 4096 then max_len else _). assert (Hl : len <= max_len /\ len <= zlen prefix + 4096 /\ (len = max_len \/ len = zlen prefix + 4096))
    by (unfold len; destruct (Z.ltb_spec max_len (zlen prefix + 4096)); lia).
  destruct (Z.ltb_spec len (zlen prefix)). { do 2 eexists. split; [reflexivity|]. cbn. intros _. right. rewrite zlen_app. lia. }
  destruct (OPENSSL_malloc (heap w) len) as [[out|] h] eqn:Em; rewrite (bind_Ok _ _ _ _ _ (bio_malloc_run _ _ _ _ Em)).
  2: { do 2 eexists. split; [reflexivity|]. cbn. intros Hrel. exfalso. apply (Hrel (heap w) [] len); [lia|]. unfold OPENSSL_malloc in Em. rewrite Em. reflexivity. }
  apply malloc_length in Em as Hlen; [|lia].
  assert (Hs : splice out 0 prefix = prefix ++ zdrop (zlen prefix) out) by reflexivity. rewrite Hs.
  assert (Hz : zlen (zdrop (zlen prefix) out) = len - zlen prefix) by (rewrite zlen_zdrop by lia; lia).
  apply read_all_run; auto; try lia. exact (source_heap bs w [] len (Some out) h H Em).
Qed.

(** ** One element *)

(** The result is the element in front of [bs], and what follows it is still to
    come; of an element of indefinite length, all of [bs]. *)
Definition element_read (max_len : Z) (bs : list byte) (r : option (list byte * Z)) (w : world A P) : Prop :=
  if indefinite bs then all_read max_len bs r w
  else match r with
       | Some (out, n) => exists rest, next_element max_len bs = Some (out, rest) /\ n = zlen out /\ at_bytes rest w
       | None => reliable A -> next_element max_len bs = None
       end.

Lemma short_input max_len bs : zlen bs < 2 -> next_element max_len bs = None /\ indefinite bs = false.
Proof.
  intros H. destruct bs as [|a [|b bs]]; [split; reflexivity | | rewrite !zlen_cons in H; pose proof (zlen_nonneg bs); lia].
  split; [|reflexivity]. unfold next_element. destruct (CBS_get_any_asn1_element [a]) as [[[[e t] hl]| |] rest] eqn:E; try reflexivity.
  apply CBS_get_any_asn1_element_iff in E as (Es & body & tb & l & -> & _ & Ht & Hl). exfalso.
  assert (1 <= zlen tb) by (destruct Ht; rewrite zlen_cons; [change (zlen (@nil byte)) with 0; lia | pose proof (zlen_nonneg bs); lia]).
  assert (1 <= zlen l) by (destruct Hl; rewrite zlen_cons; [change (zlen (@nil byte)) with 0; lia | lia]).
  apply (f_equal zlen) in Es. rewrite !zlen_app in Es. pose proof (zlen_nonneg body). pose proof (zlen_nonneg rest). change (zlen [a]) with 1 in Es. lia.
Qed.

Lemma long_tag max_len a b more : Z.land (u8 a) 0x1f =? 0x1f = true -> next_element max_len (a :: b :: more) = None.
Proof.
  intros Ha. unfold next_element. destruct (CBS_get_any_asn1_element _) as [[[[e t] hl]| |] rest] eqn:E; try reflexivity.
  apply CBS_get_any_asn1_element_iff in E as (Es & body & tb & l & -> & _ & Ht & Hl). destruct Ht; injection Es as <- _; cbn [app one_byte_tag]; rewrite Ha; reflexivity.
Qed.

Lemma length_loop more : zlen more <= 4 -> foldl (fun len32 b => Z.lor (u32 (Z.shiftl len32 8)) (u8 b)) 0 more = be_value more.
Proof.
  induction more as [|b more IH] using rev_ind; [reflexivity|]. rewrite zlen_app. change (zlen [b]) with 1. intros H. pose proof (zlen_nonneg more).
  rewrite foldl_app, IH, be_value_snoc by lia. cbn [foldl]. pose proof (be_value_range more). pose proof (u8_range b).
  rewrite wrap_small; [apply lor_shiftl_add; lia|]. unfold in_word. rewrite Z.shiftl_mul_pow2 by lia.
  assert (2 ^ (8 * zlen more) * 2 ^ 8 <= 2 ^ 32) by (rewrite <- Z.pow_add_r by lia; apply Z.pow_le_mono_r; lia). lia.
Qed.

Lemma indefinite_low tag b more : indefinite (tag :: b :: more) = one_byte_tag (tag :: b :: more) && negb (Z.land (u8 tag) 0x20 =? 0) && (u8 b =? 0x80).
Proof. reflexivity. Qed.

(** C13: [BIO_read_asn1] reads exactly one element from any BIO that hands out a
    given string of bytes in pieces of its own choice and answers 0 or -1 when
    they are used up: the result is the element that the DER parser of cbs.c finds
    in front of the same bytes, if its tag takes one byte and its length is at most
    the caller's limit and the content at most [INT_MAX], and the bytes behind it
    are still to come; if the length is indefinite, it is all there is up to the
    end of the input.  Every other input is refused; without a failing allocation,
    nothing else is. *)
Theorem BIO_read_asn1_exact fuel max_len bs w : eof = 0 \/ eof = -1 -> at_bytes bs w -> 0 <= max_len < 2 ^ 64 -> zlen bs < Z.of_nat fuel ->
  exists r w', BIO_read_asn1 method fuel bio max_len w = (Ok r, w') /\ element_read max_len bs r w'.
Proof.
  intros He H Hm Hf. unfold BIO_read_asn1, element_read. destruct (bio_read_full_run bs w 2 H ltac:(lia)) as (w1 & H1).
  destruct (Z.leb_spec 2 (zlen bs)) as [H2|H2].
  2: { destruct H1 as (e & E & H1). rewrite (bind_Ok _ _ _ _ _ E). destruct (short_input max_len bs H2) as [-> ->]. do 2 eexists. split; [reflexivity|]. intros _. reflexivity. }
  destruct H1 as [E H1]. rewrite (bind_Ok _ _ _ _ _ E). clear E. destruct bs as [|tag [|b more]]; [exfalso; revert H2; unfold zlen; cbn [length]; lia | exfalso; revert H2; unfold zlen; cbn [length]; lia|].
  change (ztake 2 (tag :: b :: more)) with [tag; b]. change (zdrop 2 (tag :: b :: more)) with more in H1. cbv beta iota.
  rewrite indefinite_low. cbn [one_byte_tag]. destruct (Z.land (u8 tag) 0x1f =? 0x1f) eqn:Et; cbn [negb andb].
  { do 2 eexists. split; [reflexivity|]. intros _. apply long_tag, Et. }
  pose proof (u8_range b). pose proof (cbs_land_128 b) as Hb. rewrite !zlen_cons in Hf. pose proof (zlen_nonneg more).
  destruct (Z.leb_spec 128 (u8 b)) as [Hlong|Hshort].
  2: { apply negb_false_iff in Hb. rewrite Hb. rewrite (proj2 (Z.eqb_neq (u8 b) 0x80)), andb_false_r by lia. rewrite next_short by assumption.
    apply read_element_run; [exact H1 | change (zlen [tag; b]) with 2; lia | lia | exact Hm]. }
  apply negb_true_iff in Hb. rewrite Hb, land_7f by lia. set (n := u8 b - 128) in *.
  replace (u8 b =? 0x80) with (n =? 0) by (unfold n; destruct (Z.eqb_spec (u8 b - 128) 0), (Z.eqb_spec (u8 b) 0x80); lia || reflexivity).
  destruct (negb (Z.land (u8 tag) 0x20 =? 0) && (n =? 0)) eqn:Ei.
  { apply (bio_read_all_run fuel [tag; b] max_len more w1); [exact He | exact H1 | reflexivity | exact Hm | lia]. }
  rewrite (next_long max_len tag Et b more Hlong). fold n. cbv zeta.
  destruct (Z.eqb_spec n 0) as [Hn|Hn]; cbn [orb]; [do 2 eexists; split; [reflexivity|]; intros _; reflexivity|].
  destruct (Z.ltb_spec 4 n) as [H4|H4]; cbn [orb]; [do 2 eexists; split; [reflexivity|]; intros _; reflexivity|].
  destruct (bio_read_full_run more w1 n H1 ltac:(lia)) as (w2 & Hw2).
  destruct (Z.leb_spec n (zlen more)) as [Hz|Hz], (Z.ltb_spec (zlen more) n); try lia.
  2: { destruct Hw2 as (e & E & Hw2). rewrite (bind_Ok _ _ _ _ _ E). do 2 eexists. split; [reflexivity|]. intros _. reflexivity. }
  destruct Hw2 as [E Hw2]. rewrite (bind_Ok _ _ _ _ _ E). clear E. rewrite length_loop by (rewrite zlen_ztake; lia).
  pose proof (be_value_range (ztake n more)) as Hr. rewrite zlen_ztake in Hr by lia. assert (2 ^ (8 * n) <= 2 ^ 32) by (apply Z.pow_le_mono_r; lia).
  set (len := be_value (ztake n more)) in *. destruct (Z.ltb_spec len 128); cbn [orb]; [do 2 eexists; split; [reflexivity|]; intros _; reflexivity|].
  rewrite shiftr_zero, (Z.mul_comm (n - 1) 8) by lia. destruct (len <? 2 ^ (8 * (n - 1))); [do 2 eexists; split; [reflexivity|]; intros _; reflexivity|].
  apply read_element_run; [exact Hw2 | rewrite !zlen_cons, zlen_ztake; lia | lia | exact Hm].
Qed.
End source.

(** ** Memory BIOs are sources *)

Definition mem_at {A} (b p : addr) (e : Z) (bs : list byte) (w : world (mem_heap A) addr) : Prop :=
  exists q, mem_bio w b p q /\ bytes q = bs /\ eof q = e.

#[export] Instance mem_source {A} {AL : Allocator A} b p e : Source (mem_method (A := A)) (Some b) e (mem_at b p e).
Proof.
  assert (Hrun : forall w q n, mem_bio w b p q -> 0 < n <= INT_MAX -> exists out q' w',
    BIO_read mem_method (Some b) true n w = (Ok out, w') /\ queue_op q (Read n) = (out, q') /\ mem_bio w' b p q').
  { intros w q n (x & m & Hb & Hp & Hm & Hi) Hn.
    destruct (mem_BIO_read_run b p w w x m q n (Build_stands b p w w x m Hb Hp Hm (elsewhere_refl b p w)) Hi ltac:(lia)) as (out & w' & E & x' & m' & q' & Hq & [Hb' Hp' Hm' _] & Hi').
    exists out, q', w'. split; [exact E|]. destruct Hq as [Hq|(? & ? & _)]; [|discriminate]. split; [exact Hq|]. exists x', m'. auto. }
  split.
  - intros bs w n (q & Hq & <- & He) Hne Hn. destruct (Hrun w q n Hq Hn) as (out & q' & w' & E & Ho & Hq'). cbn [queue_op] in Ho.
    assert (Hz : 0 < zlen (bytes q)) by (destruct (bytes q) as [|c l]; [contradiction | rewrite zlen_cons; pose proof (zlen_nonneg l); lia]).
    rewrite (proj2 (Z.leb_gt n 0)), (proj2 (Z.eqb_neq (zlen (bytes q)) 0)) in Ho by lia. injection Ho as <- <-.
    exists (Z.min n (zlen (bytes q))), w'. split; [exact E|]. split; [lia|]. split; [lia|]. eexists. split; [exact Hq'|]. split; [reflexivity | exact He].
  - intros w n (q & Hq & Hbs & He) Hn. destruct (Hrun w q n Hq Hn) as (out & q' & w' & E & Ho & Hq'). cbn [queue_op] in Ho.
    rewrite Hbs, He, (proj2 (Z.leb_gt n 0)) in Ho by lia. injection Ho as <- <-. exists w'. split; [exact E|]. eexists. split; [exact Hq'|]. split; [exact Hbs | exact He].
  - intros bs w old n x h (q & (y & m & Hb & Hp & Hm & Hi) & Hbs) E. exists q. split; [|exact Hbs]. cbn in E.
    destruct (OPENSSL_realloc _ _ _) as [r a]. injection E as _ <-. exists y, m. auto.
Qed.

(** *** A certificate serial number, say, in front of other bytes *)

Definition two_elements : list byte := [Byte.x02; Byte.x02; Byte.x01; Byte.x00; Byte.x05; Byte.x00].
Definition element_world : world (mem_heap unit) addr :=
  snd (BIO_new_mem_buf (Some two_elements) 6 (mk_world (mk_mem_heap tt ∅ ∅) ∅)).

Lemma BIO_read_asn1_exact_witness :
  mem_at 0%nat 0%nat 0 two_elements element_world /\
  (exists r w', BIO_read_asn1 mem_method 10 (Some 0%nat) 100 element_world = (Ok r, w') /\
     element_read 0 (mem_at 0%nat 0%nat 0) 100 two_elements r w') /\
  fst (BIO_read_asn1 mem_method 10 (Some 0%nat) 100 element_world) = Ok (Some ([Byte.x02; Byte.x02; Byte.x01; Byte.x00], 4)).
Proof.
  assert (H : mem_at 0%nat 0%nat 0 two_elements element_world).
  { exists (mk_queue true [] two_elements 0 false). split; [|split; reflexivity]. eexists _, _.
    split; [vm_compute; reflexivity|]. split; [reflexivity|]. split; [vm_compute; reflexivity|]. split; try reflexivity; [vm_compute; discriminate|].
    split; [reflexivity|]. split; [reflexivity|]. right. exists []. reflexivity. }
  split; [exact H|]. split; [|vm_compute; reflexivity].
  apply (BIO_read_asn1_exact mem_method (Some 0%nat) 0 (mem_at 0%nat 0%nat 0)); [lia | auto | exact H | lia | reflexivity].
Defined.

(** ** Two programs that leave their buffers *)

Definition no_world : world (mem_heap unit) addr := mk_world (mk_mem_heap tt ∅ ∅) ∅.

(** [bio_read_all] takes [0] for the end and [-1] for an error; any other
    negative result of a read, here one that was asked for with
    [BIO_set_mem_eof_return], moves [done] back and then below the buffer. *)
Definition read_all_below (v : Z) : M (world (mem_heap unit) addr) (option (list byte * Z)) :=
  bio <- BIO_new mem_method ;;
  BIO_write mem_method bio (Some [Byte.x30; Byte.x80]) 2 ;;
  BIO_set_mem_eof_return bio v ;;
  BIO_read_asn1 mem_method 100 bio 5000.

Example bio_read_all_other_errors : fst (read_all_below (-1) no_world) = Ok None /\ fst (read_all_below (-2) no_world) = Stuck.
Proof. vm_compute. auto. Qed.

(** [BIO_set_mem_buf] leaves [BIO_FLAGS_MEM_RDONLY] set, and [BIO_reset] takes the
    room that is left in the new buffer for what was read from it. *)
Definition reset_below (reset : bool) : M (world (mem_heap unit) addr) (Z * list byte) :=
  bio <- BIO_new_mem_buf (Some two_elements) 6 ;;
  b <- on_heap BUF_MEM_new ;;
  match b with
  | None => stuck
  | Some p =>
      on_heap (BUF_MEM_append p two_elements) ;;
      BIO_set_mem_buf bio b 1 ;;
      (if reset then BIO_reset mem_method bio else ret 1) ;;
      BIO_read mem_method bio true 1
  end.

Example BIO_set_mem_buf_reset : fst (reset_below false no_world) = Ok (1, [Byte.x02]) /\ fst (reset_below true no_world) = Stuck.
Proof. vm_compute. auto. Qed.
