(* ===== verification/Poly1305.v ===== *)
(** The Poly1305 authenticator in portable C (src/ios/Pods/BoringSSL-GRPC/src/
    crypto/poly1305/poly1305.c), which iOS devices run: numbers modulo 2^130 - 5
    in five limbs of 26 bits. *)
From Stdlib Require Import ZArith Lia Bool.
From coqutil Require Import Byte Word.LittleEndianList.
From stdpp Require Import base list numbers.
From S2P Require Import Prelude.
Local Open Scope Z_scope.

Notation byte := Init.Byte.byte.

Definition U8TO32_LE (m : list byte) : Z := le_combine (ztake 4 m).
Definition U32TO8_LE (v : Z) : list byte := le_split 4 v.
Definition mul32x32_64 (a b : Z) : Z := u64 (a * b).

Record poly1305_state_st := mk_poly {
  r0 : Z; r1 : Z; r2 : Z; r3 : Z; r4 : Z;
  s1 : Z; s2 : Z; s3 : Z; s4 : Z;
  h0 : Z; h1 : Z; h2 : Z; h3 : Z; h4 : Z;
  buf : list byte;
  buf_used : Z;
  key : list byte;
}.

Definition set_h (st : poly1305_state_st) (a0 a1 a2 a3 a4 : Z) : poly1305_state_st :=
  mk_poly (r0 st) (r1 st) (r2 st) (r3 st) (r4 st) (s1 st) (s2 st) (s3 st) (s4 st) a0 a1 a2 a3 a4 (buf st) (buf_used st) (key st).
Definition set_buf (st : poly1305_state_st) (b : list byte) (used : Z) : poly1305_state_st :=
  mk_poly (r0 st) (r1 st) (r2 st) (r3 st) (r4 st) (s1 st) (s2 st) (s3 st) (s4 st) (h0 st) (h1 st) (h2 st) (h3 st) (h4 st) b used (key st).

(** The sixteen bytes [in_] are added; [hibit] is what is ORed into the top limb. *)
Definition poly1305_donna_add (st : poly1305_state_st) (in_ : list byte) (hibit : Z) : poly1305_state_st :=
  let t0 := U8TO32_LE in_ in
  let t1 := U8TO32_LE (zdrop 4 in_) in
  let t2 := U8TO32_LE (zdrop 8 in_) in
  let t3 := U8TO32_LE (zdrop 12 in_) in
  set_h st
    (u32 (h0 st + Z.land t0 0x3ffffff))
    (u32 (h1 st + Z.land (Z.shiftr (Z.lor (u64 (Z.shiftl t1 32)) t0) 26) 0x3ffffff))
    (u32 (h2 st + Z.land (Z.shiftr (Z.lor (u64 (Z.shiftl t2 32)) t1) 20) 0x3ffffff))
    (u32 (h3 st + Z.land (Z.shiftr (Z.lor (u64 (Z.shiftl t3 32)) t2) 14) 0x3ffffff))
    (u32 (h4 st + Z.lor (Z.shiftr t3 8) hibit)).

Definition poly1305_donna_mul (st : poly1305_state_st) : poly1305_state_st :=
  let t0 := u64 (mul32x32_64 (h0 st) (r0 st) + mul32x32_64 (h1 st) (s4 st) + mul32x32_64 (h2 st) (s3 st) +
                 mul32x32_64 (h3 st) (s2 st) + mul32x32_64 (h4 st) (s1 st)) in
  let t1 := u64 (mul32x32_64 (h0 st) (r1 st) + mul32x32_64 (h1 st) (r0 st) + mul32x32_64 (h2 st) (s4 st) +
                 mul32x32_64 (h3 st) (s3 st) + mul32x32_64 (h4 st) (s2 st)) in
  let t2 := u64 (mul32x32_64 (h0 st) (r2 st) + mul32x32_64 (h1 st) (r1 st) + mul32x32_64 (h2 st) (r0 st) +
                 mul32x32_64 (h3 st) (s4 st) + mul32x32_64 (h4 st) (s3 st)) in
  let t3 := u64 (mul32x32_64 (h0 st) (r3 st) + mul32x32_64 (h1 st) (r2 st) + mul32x32_64 (h2 st) (r1 st) +
                 mul32x32_64 (h3 st) (r0 st) + mul32x32_64 (h4 st) (s4 st)) in
  let t4 := u64 (mul32x32_64 (h0 st) (r4 st) + mul32x32_64 (h1 st) (r3 st) + mul32x32_64 (h2 st) (r2 st) +
                 mul32x32_64 (h3 st) (r1 st) + mul32x32_64 (h4 st) (r0 st)) in
  let a0 := Z.land (u32 t0) 0x3ffffff in
  let c := Z.shiftr t0 26 in
  let t1 := u64 (t1 + c) in
  let a1 := Z.land (u32 t1) 0x3ffffff in
  let b := u32 (Z.shiftr t1 26) in
  let t2 := u64 (t2 + b) in
  let a2 := Z.land (u32 t2) 0x3ffffff in
  let b := u32 (Z.shiftr t2 26) in
  let t3 := u64 (t3 + b) in
  let a3 := Z.land (u32 t3) 0x3ffffff in
  let b := u32 (Z.shiftr t3 26) in
  let t4 := u64 (t4 + b) in
  let a4 := Z.land (u32 t4) 0x3ffffff in
  let b := u32 (Z.shiftr t4 26) in
  set_h st (u32 (a0 + u32 (b * 5))) a1 a2 a3 a4.

(** The last bytes, fewer than sixteen, followed by a one and zeros. *)
Definition poly1305_donna_atmost15bytes (st : poly1305_state_st) (in_ : list byte) : poly1305_state_st :=
  if zlen in_ =? 0 then st else
  let mp := in_ ++ Byte.x01 :: zeros (15 - zlen in_) in
  poly1305_donna_mul (poly1305_donna_add st mp 0).

(** The whole blocks, then what is left. *)
Fixpoint poly1305_update (fuel : nat) (st : poly1305_state_st) (in_ : list byte) : option poly1305_state_st :=
  match fuel with
  | O => None
  | S fuel =>
      if zlen in_ <? 16 then Some (poly1305_donna_atmost15bytes st in_) else
      let st := poly1305_donna_mul (poly1305_donna_add st in_ (Z.shiftl 1 24)) in
      poly1305_update fuel st (zdrop 16 in_)
  end.
Definition update_fuel (in_ : list byte) : nat := S (length in_).

(** [b] is what the buffer of the state holds before. *)
Definition CRYPTO_poly1305_init (b : list byte) (k : list byte) : poly1305_state_st :=
  let t0 := U8TO32_LE k in
  let t1 := U8TO32_LE (zdrop 4 k) in
  let t2 := U8TO32_LE (zdrop 8 k) in
  let t3 := U8TO32_LE (zdrop 12 k) in
  let r0 := Z.land t0 0x3ffffff in
  let t0 := Z.shiftr t0 26 in
  let t0 := Z.lor t0 (u32 (Z.shiftl t1 6)) in
  let r1 := Z.land t0 0x3ffff03 in
  let t1 := Z.shiftr t1 20 in
  let t1 := Z.lor t1 (u32 (Z.shiftl t2 12)) in
  let r2 := Z.land t1 0x3ffc0ff in
  let t2 := Z.shiftr t2 14 in
  let t2 := Z.lor t2 (u32 (Z.shiftl t3 18)) in
  let r3 := Z.land t2 0x3f03fff in
  let t3 := Z.shiftr t3 8 in
  let r4 := Z.land t3 0x00fffff in
  mk_poly r0 r1 r2 r3 r4 (u32 (r1 * 5)) (u32 (r2 * 5)) (u32 (r3 * 5)) (u32 (r4 * 5)) 0 0 0 0 0 b 0 (ztake 16 (zdrop 16 k)).

(** [state->buf[off + i] = in[i]] for the bytes of [in_]. *)
Definition put_buf (b : list byte) (off : Z) (in_ : list byte) : option (list byte) :=
  if off + zlen in_ <=? 16 then Some (splice b off in_) else None.

(** The buffer takes what it has room for and is emptied when it is full. *)
Definition fill_buf (st : poly1305_state_st) (in_ : list byte) : option (poly1305_state_st * list byte) :=
  let todo := u64 (16 - buf_used st) in
  let todo := if zlen in_ <? todo then zlen in_ else todo in
  match put_buf (buf st) (buf_used st) (ztake todo in_) with
  | None => None
  | Some b =>
      let st := set_buf st b (u64 (buf_used st + todo)) in
      if buf_used st =? 16 then
        match poly1305_update (update_fuel (buf st)) st (buf st) with
        | Some st => Some (set_buf st (buf st) 0, zdrop todo in_)
        | None => None
        end
      else Some (st, zdrop todo in_)
  end.

(** The length of [in_] is [in_len]. *)
Definition CRYPTO_poly1305_update (st : poly1305_state_st) (in_ : list byte) : option poly1305_state_st :=
  match (if buf_used st =? 0 then Some (st, in_) else fill_buf st in_) with
  | None => None
  | Some (st, in_) =>
      let todo := Z.land (zlen in_) (u64 (Z.lnot 0xf)) in
      match (if 16 <=? zlen in_
             then match poly1305_update (update_fuel in_) st (ztake todo in_) with
                  | Some st => Some (st, zdrop todo in_)
                  | None => None
                  end
             else Some (st, in_)) with
      | None => None
      | Some (st, in_) =>
          if zlen in_ =? 0 then Some st else
          match put_buf (buf st) 0 in_ with
          | Some b => Some (set_buf st b (zlen in_))
          | None => None
          end
      end
  end.

(** The carries, without one out of the lowest limb after the last. *)
Definition finish_carry (st : poly1305_state_st) : poly1305_state_st :=
  let b := Z.shiftr (h0 st) 26 in
  let a0 := Z.land (h0 st) 0x3ffffff in
  let a1 := u32 (h1 st + b) in
  let b := Z.shiftr a1 26 in
  let a1 := Z.land a1 0x3ffffff in
  let a2 := u32 (h2 st + b) in
  let b := Z.shiftr a2 26 in
  let a2 := Z.land a2 0x3ffffff in
  let a3 := u32 (h3 st + b) in
  let b := Z.shiftr a3 26 in
  let a3 := Z.land a3 0x3ffffff in
  let a4 := u32 (h4 st + b) in
  let b := Z.shiftr a4 26 in
  let a4 := Z.land a4 0x3ffffff in
  set_h st (u32 (a0 + u32 (b * 5))) a1 a2 a3 a4.

(** The number less 2^130 - 5 if it is not below that. *)
Definition finish_reduce (st : poly1305_state_st) : poly1305_state_st :=
  let g0 := u32 (h0 st + 5) in
  let b := Z.shiftr g0 26 in
  let g0 := Z.land g0 0x3ffffff in
  let g1 := u32 (h1 st + b) in
  let b := Z.shiftr g1 26 in
  let g1 := Z.land g1 0x3ffffff in
  let g2 := u32 (h2 st + b) in
  let b := Z.shiftr g2 26 in
  let g2 := Z.land g2 0x3ffffff in
  let g3 := u32 (h3 st + b) in
  let b := Z.shiftr g3 26 in
  let g3 := Z.land g3 0x3ffffff in
  let g4 := u32 (h4 st + b - Z.shiftl 1 26) in
  let b := u32 (Z.shiftr g4 31 - 1) in
  let nb := u32 (Z.lnot b) in
  set_h st
    (Z.lor (Z.land (h0 st) nb) (Z.land g0 b))
    (Z.lor (Z.land (h1 st) nb) (Z.land g1 b))
    (Z.lor (Z.land (h2 st) nb) (Z.land g2 b))
    (Z.lor (Z.land (h3 st) nb) (Z.land g3 b))
    (Z.lor (Z.land (h4 st) nb) (Z.land g4 b)).

(** The limbs as four words, with the second half of the key added. *)
Definition finish_mac (st : poly1305_state_st) : list byte :=
  let f0 := u64 (u32 (Z.lor (h0 st) (u32 (Z.shiftl (h1 st) 26))) + U8TO32_LE (key st)) in
  let f1 := u64 (u32 (Z.lor (Z.shiftr (h1 st) 6) (u32 (Z.shiftl (h2 st) 20))) + U8TO32_LE (zdrop 4 (key st))) in
  let f2 := u64 (u32 (Z.lor (Z.shiftr (h2 st) 12) (u32 (Z.shiftl (h3 st) 14))) + U8TO32_LE (zdrop 8 (key st))) in
  let f3 := u64 (u32 (Z.lor (Z.shiftr (h3 st) 18) (u32 (Z.shiftl (h4 st) 8))) + U8TO32_LE (zdrop 12 (key st))) in
  let m0 := U32TO8_LE (u32 f0) in
  let f1 := u64 (f1 + Z.shiftr f0 32) in
  let m1 := U32TO8_LE (u32 f1) in
  let f2 := u64 (f2 + Z.shiftr f1 32) in
  let m2 := U32TO8_LE (u32 f2) in
  let f3 := u64 (f3 + Z.shiftr f2 32) in
  let m3 := U32TO8_LE (u32 f3) in
  m0 ++ m1 ++ m2 ++ m3.

Definition CRYPTO_poly1305_finish (st : poly1305_state_st) : option (list byte) :=
  match (if buf_used st =? 0 then Some st else poly1305_update (update_fuel (buf st)) st (ztake (buf_used st) (buf st))) with
  | None => None
  | Some st => Some (finish_mac (finish_reduce (finish_carry st)))
  end.
