(* ===== verification/Poly1305Spec.v ===== *)
(** What the portable Poly1305 computes: the authenticator of RFC 8439, for
    every way of cutting the message, unless the polynomial takes one of a few
    small values; for those the last carry is lost. *)
From Stdlib Require Import ZArith Lia Bool.
From coqutil Require Import Byte Word.LittleEndianList.
From stdpp Require Import base list numbers.
From S2P Require Import Prelude Poly1305.
Local Open Scope Z_scope.

(** ** The authenticator *)

Definition p1305 : Z := 2 ^ 130 - 5.
Definition clamp (k : list byte) : Z := Z.land (le_combine (ztake 16 k)) 0x0ffffffc0ffffffc0ffffffc0fffffff.

(** The blocks of a message, the last of which may be short. *)
Fixpoint message_blocks (fuel : nat) (m : list byte) : list (list byte) :=
  match fuel with
  | O => []
  | S fuel => if zlen m =? 0 then [] else ztake 16 m :: message_blocks fuel (zdrop 16 m)
  end.
Definition blocks_of (m : list byte) : list (list byte) := message_blocks (length m) m.

(** A block is the number of its bytes followed by a one. *)
Definition block_value (b : list byte) : Z := le_combine (b ++ [Byte.x01]).
Definition absorb (r a : Z) (b : list byte) : Z := ((a + block_value b) * r) mod p1305.
Definition polynomial (k m : list byte) : Z := fold_left (absorb (clamp k)) (blocks_of m) 0.
Definition poly1305_mac (k m : list byte) : list byte := le_split 16 (polynomial k m + le_combine (ztake 16 (zdrop 16 k))).

(** ** Limbs *)

Definition limbs (a0 a1 a2 a3 a4 : Z) : Z := a0 + 2 ^ 26 * a1 + 2 ^ 52 * a2 + 2 ^ 78 * a3 + 2 ^ 104 * a4.
Definition hval (st : poly1305_state_st) : Z := limbs (h0 st) (h1 st) (h2 st) (h3 st) (h4 st).
Definition rval (st : poly1305_state_st) : Z := limbs (r0 st) (r1 st) (r2 st) (r3 st) (r4 st).

Lemma land26 x : Z.land x 0x3ffffff = x mod 2 ^ 26.
Proof. exact (land_ones_mod x 26 ltac:(lia)). Qed.

Lemma lor_add k a b : 0 <= k -> 0 <= b < 2 ^ k -> Z.lor b (Z.shiftl a k) = b + a * 2 ^ k.
Proof. intros Hk Hb. rewrite Z.lor_comm, lor_shiftl_add by assumption. lia. Qed.

(** A masked piece of a number below a power of two. *)
Lemma land_bound x m k : 0 <= k -> Z.land m (2 ^ k - 1) = m -> 0 <= Z.land x m < 2 ^ k.
Proof.
  intros Hk Hm. rewrite <- Hm, Z.land_assoc, land_ones_mod by exact Hk. apply Z.mod_pos_bound, Z.pow_pos_nonneg; lia.
Qed.

(** Four little-endian words. *)
Lemma le32_range b : 0 <= U8TO32_LE b < 2 ^ 32.
Proof.
  unfold U8TO32_LE. pose proof (le_combine_bound (ztake 4 b)) as Hb.
  assert (2 ^ (8 * Z.of_nat (length (ztake 4 b))) <= 2 ^ 32); [|lia]. apply Z.pow_le_mono_r; [lia|]. unfold ztake. rewrite length_take. lia.
Qed.

Lemma le_combine_app_add a b : le_combine (a ++ b) = le_combine a + 2 ^ (8 * zlen a) * le_combine b.
Proof.
  rewrite le_combine_app. pose proof (le_combine_bound a) as Ha. unfold zlen. rewrite (Z.mul_comm _ 8), (lor_add (8 * Z.of_nat (length a))) by lia. lia.
Qed.

Lemma le_words m : 16 <= zlen m ->
  le_combine (ztake 16 m) = U8TO32_LE m + 2 ^ 32 * U8TO32_LE (zdrop 4 m) + 2 ^ 64 * U8TO32_LE (zdrop 8 m) + 2 ^ 96 * U8TO32_LE (zdrop 12 m).
Proof.
  intros Hm. assert (E : ztake 16 m = ztake 4 m ++ ztake 4 (zdrop 4 m) ++ ztake 4 (zdrop 8 m) ++ ztake 4 (zdrop 12 m)).
  { unfold ztake, zdrop. change (Z.to_nat 16) with (4 + (4 + (4 + 4)))%nat. change (Z.to_nat 4) with 4%nat. change (Z.to_nat 8) with (4 + 4)%nat. change (Z.to_nat 12) with (4 + 4 + 4)%nat.
    rewrite <- !take_take_drop, !drop_drop. reflexivity. }
  rewrite E, !le_combine_app_add, !zlen_ztake by (rewrite ?zlen_zdrop; lia). unfold U8TO32_LE. lia.
Qed.

(** The pieces of four words that the code takes are the limbs of their number. *)
Lemma words_limbs t0 t1 t2 t3 : 0 <= t0 < 2 ^ 32 -> 0 <= t1 < 2 ^ 32 -> 0 <= t2 < 2 ^ 32 -> 0 <= t3 < 2 ^ 32 ->
  limbs (t0 mod 2 ^ 26) ((t0 + t1 * 2 ^ 32) / 2 ^ 26 mod 2 ^ 26) ((t1 + t2 * 2 ^ 32) / 2 ^ 20 mod 2 ^ 26) ((t2 + t3 * 2 ^ 32) / 2 ^ 14 mod 2 ^ 26) (t3 / 2 ^ 8) =
  t0 + 2 ^ 32 * t1 + 2 ^ 64 * t2 + 2 ^ 96 * t3.
Proof.
  intros H0 H1 H2 H3. unfold limbs. Z.to_euclidean_division_equations. lia.
Qed.

(** ** Bounds *)

(** The multipliers; [r4] is shorter, which keeps the carries in 32 bits. *)
Definition multipliers (st : poly1305_state_st) : Prop :=
  (0 <= r0 st < 2 ^ 26 /\ 0 <= r1 st < 2 ^ 26 /\ 0 <= r2 st < 2 ^ 26 /\ 0 <= r3 st < 2 ^ 26 /\ 0 <= r4 st < 2 ^ 20) /\
  s1 st = 5 * r1 st /\ s2 st = 5 * r2 st /\ s3 st = 5 * r3 st /\ s4 st = 5 * r4 st.

(** The accumulator between blocks: the lowest limb has the last carry in it. *)
Definition reduced (st : poly1305_state_st) : Prop :=
  0 <= h0 st < 42 * 2 ^ 26 /\ 0 <= h1 st < 2 ^ 26 /\ 0 <= h2 st < 2 ^ 26 /\ 0 <= h3 st < 2 ^ 26 /\ 0 <= h4 st < 2 ^ 26.

(** ... and when a block has been added. *)
Definition added (st : poly1305_state_st) : Prop :=
  0 <= h0 st < 43 * 2 ^ 26 /\ 0 <= h1 st < 2 ^ 27 /\ 0 <= h2 st < 2 ^ 27 /\ 0 <= h3 st < 2 ^ 27 /\ 0 <= h4 st < 3 * 2 ^ 25.

(** What an operation on the accumulator leaves alone. *)
Definition same_rest (st st' : poly1305_state_st) : Prop :=
  (r0 st' = r0 st /\ r1 st' = r1 st /\ r2 st' = r2 st /\ r3 st' = r3 st /\ r4 st' = r4 st /\
   s1 st' = s1 st /\ s2 st' = s2 st /\ s3 st' = s3 st /\ s4 st' = s4 st) /\
  buf st' = buf st /\ buf_used st' = buf_used st /\ Poly1305.key st' = Poly1305.key st.

Lemma set_h_rest st a0 a1 a2 a3 a4 : same_rest st (set_h st a0 a1 a2 a3 a4).
Proof. unfold same_rest. auto 20. Qed.

Lemma multipliers_rest st st' : same_rest st st' -> multipliers st -> multipliers st' /\ rval st' = rval st.
Proof.
  intros ((E0 & E1 & E2 & E3 & E4 & F1 & F2 & F3 & F4) & _) H. unfold multipliers, rval in *. rewrite E0, E1, E2, E3, E4, F1, F2, F3, F4. auto.
Qed.

Lemma same_rest_trans a b c : same_rest a b -> same_rest b c -> same_rest a c.
Proof. unfold same_rest. intros H1 H2. intuition congruence. Qed.

Lemma lor_words k t0 t1 : 0 <= t0 < 2 ^ 32 -> 0 <= t1 < 2 ^ 32 -> 0 <= k ->
  Z.land (Z.shiftr (Z.lor (u64 (Z.shiftl t1 32)) t0) k) 0x3ffffff = (t0 + t1 * 2 ^ 32) / 2 ^ k mod 2 ^ 26.
Proof.
  intros H0 H1 Hk. rewrite land26, shiftr_div by exact Hk. rewrite wrap_small, lor_shiftl_add by (rewrite ?Z.shiftl_mul_pow2 by lia; unfold in_word; lia).
  do 2 f_equal. lia.
Qed.

Lemma add_spec st m hibit : reduced st -> 16 <= zlen m -> hibit = 0 \/ hibit = 2 ^ 24 ->
  let st' := poly1305_donna_add st m hibit in
  added st' /\ hval st' = hval st + le_combine (ztake 16 m) + 2 ^ 104 * hibit /\ same_rest st st'.
Proof.
  intros (B0 & B1 & B2 & B3 & B4) Hm Hhi. cbv zeta. split; [|split; [|apply set_h_rest]]; unfold poly1305_donna_add, added, hval; cbn [h0 h1 h2 h3 h4 set_h];
    pose proof (le32_range m) as T0; pose proof (le32_range (zdrop 4 m)) as T1; pose proof (le32_range (zdrop 8 m)) as T2; pose proof (le32_range (zdrop 12 m)) as T3;
    rewrite ?le_words by exact Hm; revert T0 T1 T2 T3;
    generalize (U8TO32_LE m), (U8TO32_LE (zdrop 4 m)), (U8TO32_LE (zdrop 8 m)), (U8TO32_LE (zdrop 12 m)); intros t0 t1 t2 t3 T0 T1 T2 T3;
    rewrite !lor_words, land26, shiftr_div by lia;
    assert (E : Z.lor (t3 / 2 ^ 8) hibit = t3 / 2 ^ 8 + hibit)
      by (destruct Hhi as [->| ->]; [rewrite Z.lor_0_r; lia | apply (lor_add 24 1); Z.to_euclidean_division_equations; lia]);
    rewrite E; pose proof (words_limbs t0 t1 t2 t3 T0 T1 T2 T3) as Hw; unfold limbs in Hw |- *.
  all: assert (L3 : 0 <= t3 / 2 ^ 8 < 2 ^ 24) by (Z.to_euclidean_division_equations; lia); revert Hw L3.
  all: pose proof (Z.mod_pos_bound t0 (2 ^ 26) ltac:(lia)) as L0; revert L0; generalize (t0 mod 2 ^ 26), (t3 / 2 ^ 8).
  all: pose proof (Z.mod_pos_bound ((t0 + t1 * 2 ^ 32) / 2 ^ 26) (2 ^ 26) ltac:(lia)) as L1; revert L1; generalize ((t0 + t1 * 2 ^ 32) / 2 ^ 26 mod 2 ^ 26).
  all: pose proof (Z.mod_pos_bound ((t1 + t2 * 2 ^ 32) / 2 ^ 20) (2 ^ 26) ltac:(lia)) as L2; revert L2; generalize ((t1 + t2 * 2 ^ 32) / 2 ^ 20 mod 2 ^ 26).
  all: pose proof (Z.mod_pos_bound ((t2 + t3 * 2 ^ 32) / 2 ^ 14) (2 ^ 26) ltac:(lia)) as L3; revert L3; generalize ((t2 + t3 * 2 ^ 32) / 2 ^ 14 mod 2 ^ 26).
  all: intros; rewrite !wrap_small by (unfold in_word; destruct Hhi; lia); destruct Hhi; lia.
Qed.

(** *** Multiplication *)

(** The products of the limbs and what is left out, a multiple of [p1305]. *)
Lemma product_identity a0 a1 a2 a3 a4 b0 b1 b2 b3 b4 :
  limbs (a0 * b0 + a1 * (5 * b4) + a2 * (5 * b3) + a3 * (5 * b2) + a4 * (5 * b1))
        (a0 * b1 + a1 * b0 + a2 * (5 * b4) + a3 * (5 * b3) + a4 * (5 * b2))
        (a0 * b2 + a1 * b1 + a2 * b0 + a3 * (5 * b4) + a4 * (5 * b3))
        (a0 * b3 + a1 * b2 + a2 * b1 + a3 * b0 + a4 * (5 * b4))
        (a0 * b4 + a1 * b3 + a2 * b2 + a3 * b1 + a4 * b0) +
  p1305 * (a1 * b4 + a2 * b3 + a3 * b2 + a4 * b1 + 2 ^ 26 * (a2 * b4 + a3 * b3 + a4 * b2) + 2 ^ 52 * (a3 * b4 + a4 * b3) + 2 ^ 78 * (a4 * b4)) =
  limbs a0 a1 a2 a3 a4 * limbs b0 b1 b2 b3 b4.
Proof.
  unfold limbs, p1305. change (2 ^ 130) with (2 ^ 26 * 2 ^ 26 * 2 ^ 26 * 2 ^ 26 * 2 ^ 26). change (2 ^ 104) with (2 ^ 26 * 2 ^ 26 * 2 ^ 26 * 2 ^ 26).
  change (2 ^ 78) with (2 ^ 26 * 2 ^ 26 * 2 ^ 26). change (2 ^ 52) with (2 ^ 26 * 2 ^ 26). generalize (2 ^ 26). intros x. ring.
Qed.

Lemma product_bound a b x y : 0 <= a < x -> 0 <= b < y -> 0 <= a * b <= x * y.
Proof. intros Ha Hb. split; [apply Z.mul_nonneg_nonneg; lia | apply Z.mul_le_mono_nonneg; lia]. Qed.

Lemma mul32x32_exact a b x y : 0 <= a < x -> 0 <= b < y -> x * y < 2 ^ 64 -> mul32x32_64 a b = a * b.
Proof. intros Ha Hb Hxy. apply wrap_small. pose proof (product_bound a b x y Ha Hb). unfold in_word. lia. Qed.

(** The five sums fit, and so do the carries out of them: the second sum fills
    63 of the 64 parts of the space that its 32-bit carry leaves. *)
Definition sums_fit (t0 t1 t2 t3 t4 : Z) : Prop :=
  0 <= t0 < 71 * 2 ^ 52 /\ 0 <= t1 < 63 * 2 ^ 52 /\ 0 <= t2 < 55 * 2 ^ 52 /\ 0 <= t3 < 50 * 2 ^ 52 /\ 0 <= t4 < 131 * 2 ^ 48.

Lemma carry_spec t0 t1 t2 t3 t4 : sums_fit t0 t1 t2 t3 t4 ->
  let c1 := Z.shiftr t0 26 in let u1 := u64 (t1 + c1) in let c2 := u32 (Z.shiftr u1 26) in let u2 := u64 (t2 + c2) in
  let c3 := u32 (Z.shiftr u2 26) in let u3 := u64 (t3 + c3) in let c4 := u32 (Z.shiftr u3 26) in let u4 := u64 (t4 + c4) in let c5 := u32 (Z.shiftr u4 26) in
  let a0 := u32 (Z.land (u32 t0) 0x3ffffff + u32 (c5 * 5)) in
  let a1 := Z.land (u32 u1) 0x3ffffff in let a2 := Z.land (u32 u2) 0x3ffffff in let a3 := Z.land (u32 u3) 0x3ffffff in let a4 := Z.land (u32 u4) 0x3ffffff in
  limbs a0 a1 a2 a3 a4 + p1305 * c5 = limbs t0 t1 t2 t3 t4 /\
  0 <= a0 < 42 * 2 ^ 26 /\ 0 <= a1 < 2 ^ 26 /\ 0 <= a2 < 2 ^ 26 /\ 0 <= a3 < 2 ^ 26 /\ 0 <= a4 < 2 ^ 26.
Proof.
  intros (B0 & B1 & B2 & B3 & B4). cbv zeta. rewrite !land26, !shiftr_div by lia.
  assert (Hmod : forall x, u32 x mod 2 ^ 26 = x mod 2 ^ 26).
  { intros x. unfold wrap. change (2 ^ 32) with (2 ^ 26 * 2 ^ 6). rewrite Z.rem_mul_r by lia. rewrite Z.mul_comm, Z.mod_add by lia. apply Z.mod_mod. lia. }
  rewrite !Hmod.
  pose proof (Z.mod_pos_bound t0 (2 ^ 26) ltac:(lia)) as M0. pose proof (Z.div_mod t0 (2 ^ 26) ltac:(lia)) as D0.
  set (q0 := t0 / 2 ^ 26) in *. set (m0 := t0 mod 2 ^ 26) in *. rewrite (wrap_small 64 (t1 + q0)) by (unfold in_word; lia).
  pose proof (Z.mod_pos_bound (t1 + q0) (2 ^ 26) ltac:(lia)) as M1. pose proof (Z.div_mod (t1 + q0) (2 ^ 26) ltac:(lia)) as D1.
  set (q1 := (t1 + q0) / 2 ^ 26) in *. set (m1 := (t1 + q0) mod 2 ^ 26) in *. rewrite (wrap_small 32 q1) by (unfold in_word; lia). rewrite (wrap_small 64 (t2 + q1)) by (unfold in_word; lia).
  pose proof (Z.mod_pos_bound (t2 + q1) (2 ^ 26) ltac:(lia)) as M2. pose proof (Z.div_mod (t2 + q1) (2 ^ 26) ltac:(lia)) as D2.
  set (q2 := (t2 + q1) / 2 ^ 26) in *. set (m2 := (t2 + q1) mod 2 ^ 26) in *. rewrite (wrap_small 32 q2) by (unfold in_word; lia). rewrite (wrap_small 64 (t3 + q2)) by (unfold in_word; lia).
  pose proof (Z.mod_pos_bound (t3 + q2) (2 ^ 26) ltac:(lia)) as M3. pose proof (Z.div_mod (t3 + q2) (2 ^ 26) ltac:(lia)) as D3.
  set (q3 := (t3 + q2) / 2 ^ 26) in *. set (m3 := (t3 + q2) mod 2 ^ 26) in *. rewrite (wrap_small 32 q3) by (unfold in_word; lia). rewrite (wrap_small 64 (t4 + q3)) by (unfold in_word; lia).
  pose proof (Z.mod_pos_bound (t4 + q3) (2 ^ 26) ltac:(lia)) as M4. pose proof (Z.div_mod (t4 + q3) (2 ^ 26) ltac:(lia)) as D4.
  set (q4 := (t4 + q3) / 2 ^ 26) in *. set (m4 := (t4 + q3) mod 2 ^ 26) in *. rewrite (wrap_small 32 q4) by (unfold in_word; lia). rewrite (wrap_small 32 (q4 * 5)) by (unfold in_word; lia).
  rewrite (wrap_small 32 (m0 + _)) by (unfold in_word; lia). unfold limbs, p1305. split; lia.
Qed.

Lemma sum_exact a0 b0 a1 b1 a2 b2 a3 b3 a4 b4 x0 y0 x1 y1 x2 y2 x3 y3 x4 y4 :
  0 <= a0 < x0 -> 0 <= b0 < y0 -> 0 <= a1 < x1 -> 0 <= b1 < y1 -> 0 <= a2 < x2 -> 0 <= b2 < y2 -> 0 <= a3 < x3 -> 0 <= b3 < y3 -> 0 <= a4 < x4 -> 0 <= b4 < y4 ->
  x0 * y0 + x1 * y1 + x2 * y2 + x3 * y3 + x4 * y4 < 2 ^ 64 ->
  let t := a0 * b0 + a1 * b1 + a2 * b2 + a3 * b3 + a4 * b4 in
  u64 (mul32x32_64 a0 b0 + mul32x32_64 a1 b1 + mul32x32_64 a2 b2 + mul32x32_64 a3 b3 + mul32x32_64 a4 b4) = t /\
  0 <= t <= x0 * y0 + x1 * y1 + x2 * y2 + x3 * y3 + x4 * y4.
Proof.
  intros A0 B0 A1 B1 A2 B2 A3 B3 A4 B4 Hs. pose proof (product_bound _ _ _ _ A0 B0). pose proof (product_bound _ _ _ _ A1 B1).
  pose proof (product_bound _ _ _ _ A2 B2). pose proof (product_bound _ _ _ _ A3 B3). pose proof (product_bound _ _ _ _ A4 B4).
  rewrite (mul32x32_exact _ _ _ _ A0 B0), (mul32x32_exact _ _ _ _ A1 B1), (mul32x32_exact _ _ _ _ A2 B2), (mul32x32_exact _ _ _ _ A3 B3), (mul32x32_exact _ _ _ _ A4 B4) by lia.
  cbv zeta. rewrite wrap_small by (unfold in_word; lia). lia.
Qed.

Lemma mul_spec st : multipliers st -> added st ->
  let st' := poly1305_donna_mul st in
  reduced st' /\ (exists k, hval st' + p1305 * k = hval st * rval st) /\ same_rest st st'.
Proof.
  intros ((R0 & R1 & R2 & R3 & R4) & S1 & S2 & S3 & S4) (H0 & H1 & H2 & H3 & H4). cbv zeta.
  assert (Q1 : 0 <= 5 * r1 st < 5 * 2 ^ 26) by lia. assert (Q2 : 0 <= 5 * r2 st < 5 * 2 ^ 26) by lia.
  assert (Q3 : 0 <= 5 * r3 st < 5 * 2 ^ 26) by lia. assert (Q4 : 0 <= 5 * r4 st < 5 * 2 ^ 20) by lia.
  destruct (sum_exact _ _ _ _ _ _ _ _ _ _ _ _ _ _ _ _ _ _ _ _ H0 R0 H1 Q4 H2 Q3 H3 Q2 H4 Q1 ltac:(lia)) as [E0 T0].
  destruct (sum_exact _ _ _ _ _ _ _ _ _ _ _ _ _ _ _ _ _ _ _ _ H0 R1 H1 R0 H2 Q4 H3 Q3 H4 Q2 ltac:(lia)) as [E1 T1].
  destruct (sum_exact _ _ _ _ _ _ _ _ _ _ _ _ _ _ _ _ _ _ _ _ H0 R2 H1 R1 H2 R0 H3 Q4 H4 Q3 ltac:(lia)) as [E2 T2].
  destruct (sum_exact _ _ _ _ _ _ _ _ _ _ _ _ _ _ _ _ _ _ _ _ H0 R3 H1 R2 H2 R1 H3 R0 H4 Q4 ltac:(lia)) as [E3 T3].
  destruct (sum_exact _ _ _ _ _ _ _ _ _ _ _ _ _ _ _ _ _ _ _ _ H0 R4 H1 R3 H2 R2 H3 R1 H4 R0 ltac:(lia)) as [E4 T4].
  pose proof (product_identity (h0 st) (h1 st) (h2 st) (h3 st) (h4 st) (r0 st) (r1 st) (r2 st) (r3 st) (r4 st)) as Hid.
  fold (hval st) in Hid. fold (rval st) in Hid. unfold poly1305_donna_mul. rewrite S1, S2, S3, S4, E0, E1, E2, E3, E4. clear E0 E1 E2 E3 E4.
  set (t0 := h0 st * r0 st + _ + _ + _ + _) in *. set (t1 := h0 st * r1 st + _ + _ + _ + _) in *. set (t2 := h0 st * r2 st + _ + _ + _ + _) in *.
  set (t3 := h0 st * r3 st + _ + _ + _ + _) in *. set (t4 := h0 st * r4 st + _ + _ + _ + _) in *.
  destruct (carry_spec t0 t1 t2 t3 t4) as [Hv Hb]; [unfold sums_fit; lia|]. cbv zeta in Hv, Hb |- *.
  split; [exact Hb|]. split; [|apply set_h_rest]. rewrite <- Hid, <- Hv. unfold hval. cbn [h0 h1 h2 h3 h4 set_h].
  eexists. rewrite <- Z.add_assoc, <- Z.mul_add_distr_l. reflexivity.
Qed.

(** *** The key *)

Definition limb (i x : Z) : Z := x / 2 ^ (26 * i) mod 2 ^ 26.

Lemma limbs_of x : 0 <= x < 2 ^ 130 -> limbs (limb 0 x) (limb 1 x) (limb 2 x) (limb 3 x) (limb 4 x) = x.
Proof.
  intros Hx. unfold limb, limbs. change (26 * 0) with 0. change (26 * 1) with 26. change (26 * 2) with 52. change (26 * 3) with 78. change (26 * 4) with 104.
  Z.to_euclidean_division_equations. lia.
Qed.

Lemma limb_land i x y : 0 <= i -> limb i (Z.land x y) = Z.land (limb i x) (limb i y).
Proof.
  intros Hi. unfold limb. rewrite <- !shiftr_div, <- !land26, Z.shiftr_land by lia.
  rewrite <- !Z.land_assoc. f_equal. rewrite (Z.land_assoc 0x3ffffff), (Z.land_comm 0x3ffffff), <- Z.land_assoc, Z.land_diag. reflexivity.
Qed.

Lemma land_mod26 x m : Z.land m 0x3ffffff = m -> Z.land x m = Z.land (x mod 2 ^ 26) m.
Proof. intros Hm. rewrite <- land26, <- Z.land_assoc, (Z.land_comm 0x3ffffff), Hm. reflexivity. Qed.

(** A word's upper bits and the lower ones of the next. *)
Lemma lor_next t t' k j : 0 <= t < 2 ^ (k + j) -> 0 <= j <= 32 -> 0 <= k -> Z.lor (Z.shiftr t k) (u32 (Z.shiftl t' j)) = t / 2 ^ k + (t' * 2 ^ j) mod 2 ^ 32.
Proof.
  intros Ht Hj Hk. unfold wrap. rewrite shiftr_div, Z.shiftl_mul_pow2 by lia.
  assert (E : (t' * 2 ^ j) mod 2 ^ 32 = (t' mod 2 ^ (32 - j)) * 2 ^ j).
  { replace (2 ^ 32) with (2 ^ (32 - j) * 2 ^ j) by (rewrite <- Z.pow_add_r by lia; f_equal; lia). rewrite Z.mul_mod_distr_r; [reflexivity | apply Z.pow_nonzero; lia | apply Z.pow_nonzero; lia]. }
  rewrite E, <- (Z.shiftl_mul_pow2 _ j) by lia. rewrite lor_add; [rewrite Z.shiftl_mul_pow2 by lia; reflexivity | lia|].
  split; [apply Z.div_pos; [lia | apply Z.pow_pos_nonneg; lia]|]. apply Z.div_lt_upper_bound; [apply Z.pow_pos_nonneg; lia|]. rewrite <- Z.pow_add_r by lia. lia.
Qed.

(** What the state holds of a message, up to the buffer. *)
Definition keyed (k : list byte) (st : poly1305_state_st) : Prop :=
  multipliers st /\ rval st = clamp k /\ Poly1305.key st = ztake 16 (zdrop 16 k) /\ zlen (buf st) = 16.

Lemma init_spec b k : 32 <= zlen k -> zlen b = 16 ->
  let st := CRYPTO_poly1305_init b k in keyed k st /\ reduced st /\ hval st = 0 /\ buf_used st = 0.
Proof.
  intros Hk Hb. cbv zeta. unfold keyed, reduced. cbn [CRYPTO_poly1305_init Poly1305.key buf buf_used h0 h1 h2 h3 h4].
  pose proof (le32_range k) as T0. pose proof (le32_range (zdrop 4 k)) as T1. pose proof (le32_range (zdrop 8 k)) as T2. pose proof (le32_range (zdrop 12 k)) as T3.
  assert (Hr : multipliers (CRYPTO_poly1305_init b k) /\ rval (CRYPTO_poly1305_init b k) = clamp k).
  2: { split; [|split; [lia | split; reflexivity]]. split; [apply Hr|]. split; [apply Hr|]. auto. }
  unfold clamp. rewrite le_words by lia. unfold multipliers, rval, CRYPTO_poly1305_init. cbn [r0 r1 r2 r3 r4 s1 s2 s3 s4].
  revert T0 T1 T2 T3. generalize (U8TO32_LE k), (U8TO32_LE (zdrop 4 k)), (U8TO32_LE (zdrop 8 k)), (U8TO32_LE (zdrop 12 k)). intros t0 t1 t2 t3 T0 T1 T2 T3.
  set (n := t0 + 2 ^ 32 * t1 + 2 ^ 64 * t2 + 2 ^ 96 * t3). rewrite (lor_next t0 t1 26 6), (lor_next t1 t2 20 12), (lor_next t2 t3 14 18), (shiftr_div t3 8) by (cbn [Z.add Pos.add]; lia).
  rewrite (land_mod26 t0), (land_mod26 (t0 / _ + _)), (land_mod26 (t1 / _ + _)), (land_mod26 (t2 / _ + _)), (land_mod26 (t3 / _)) by reflexivity.
  assert (L0 : t0 mod 2 ^ 26 = limb 0 n) by (unfold limb, n; change (26 * 0) with 0; Z.to_euclidean_division_equations; lia).
  assert (L1 : (t0 / 2 ^ 26 + (t1 * 2 ^ 6) mod 2 ^ 32) mod 2 ^ 26 = limb 1 n) by (unfold limb, n; change (26 * 1) with 26; Z.to_euclidean_division_equations; lia).
  assert (L2 : (t1 / 2 ^ 20 + (t2 * 2 ^ 12) mod 2 ^ 32) mod 2 ^ 26 = limb 2 n) by (unfold limb, n; change (26 * 2) with 52; Z.to_euclidean_division_equations; lia).
  assert (L3 : (t2 / 2 ^ 14 + (t3 * 2 ^ 18) mod 2 ^ 32) mod 2 ^ 26 = limb 3 n) by (unfold limb, n; change (26 * 3) with 78; Z.to_euclidean_division_equations; lia).
  assert (L4 : t3 / 2 ^ 8 mod 2 ^ 26 = limb 4 n) by (unfold limb, n; change (26 * 4) with 104; Z.to_euclidean_division_equations; lia).
  rewrite L0, L1, L2, L3, L4. set (c := 0x0ffffffc0ffffffc0ffffffc0fffffff).
  pose proof (land_bound (limb 0 n) 0x3ffffff 26 ltac:(lia) eq_refl) as B0. pose proof (land_bound (limb 1 n) 0x3ffff03 26 ltac:(lia) eq_refl) as B1.
  pose proof (land_bound (limb 2 n) 0x3ffc0ff 26 ltac:(lia) eq_refl) as B2. pose proof (land_bound (limb 3 n) 0x3f03fff 26 ltac:(lia) eq_refl) as B3.
  pose proof (land_bound (limb 4 n) 0x00fffff 20 ltac:(lia) eq_refl) as B4.
  split.
  - split; [auto|]. rewrite !wrap_small by (unfold in_word; lia). lia.
  - change 0x3ffffff with (limb 0 c) at 1. change 0x3ffff03 with (limb 1 c). change 0x3ffc0ff with (limb 2 c). change 0x3f03fff with (limb 3 c). change 0x00fffff with (limb 4 c).
    rewrite <- !limb_land by lia. apply limbs_of. pose proof (land_bound n c 128 ltac:(lia) eq_refl). lia.
Qed.

(** *** Blocks *)

Lemma message_blocks_fuel f1 : forall f2 m, (length m <= f1)%nat -> (length m <= f2)%nat -> message_blocks f1 m = message_blocks f2 m.
Proof.
  induction f1 as [|f1 IH]; intros [|f2] m H1 H2; cbn [message_blocks]; try reflexivity;
    destruct (Z.eqb_spec (zlen m) 0) as [E|E]; try reflexivity; try (unfold zlen in E; lia).
  f_equal. apply IH; unfold zdrop; rewrite length_drop; unfold zlen in E; lia.
Qed.

Lemma ztake_big {B} n (l : list B) : zlen l <= n -> ztake n l = l.
Proof. intros H. unfold ztake, zlen in *. apply firstn_all2. lia. Qed.

Lemma zdrop_big {B} n (l : list B) : zlen l <= n -> zdrop n l = [].
Proof. intros H. unfold zdrop, zlen in *. apply skipn_all2. lia. Qed.

Lemma blocks_nil : blocks_of [] = [].
Proof. reflexivity. Qed.

Lemma blocks_cons m : 0 < zlen m -> blocks_of m = ztake 16 m :: blocks_of (zdrop 16 m).
Proof.
  intros Hm. unfold blocks_of at 1. destruct m as [|b m]; [unfold zlen in Hm; cbn in Hm; lia|]. cbn [length message_blocks].
  destruct (Z.eqb_spec (zlen (b :: m)) 0); [unfold zlen in *; cbn in *; lia|]. f_equal. apply message_blocks_fuel; unfold zdrop; rewrite length_drop; cbn [length]; lia.
Qed.

Lemma blocks_app n : forall m m', zlen m = 16 * Z.of_nat n -> blocks_of (m ++ m') = blocks_of m ++ blocks_of m'.
Proof.
  induction n as [|n IH]; intros m m' Hm.
  - destruct m as [|b m]; [reflexivity | rewrite zlen_cons in Hm; pose proof (zlen_nonneg m); lia].
  - pose proof (zlen_nonneg m'). rewrite (blocks_cons m), (blocks_cons (m ++ m')) by (rewrite ?zlen_app; lia).
    replace (m ++ m') with (ztake 16 m ++ (zdrop 16 m ++ m')) by (rewrite app_assoc, ztake_zdrop; reflexivity).
    rewrite (ztake_app (ztake 16 m)), (zdrop_app (ztake 16 m)) by (rewrite zlen_ztake; lia).
    cbn [app]. f_equal. apply IH. rewrite zlen_zdrop by lia. lia.
Qed.

Lemma absorb_mod r a b : absorb r (a mod p1305) b = absorb r a b.
Proof.
  unfold absorb. rewrite <- (Z.mul_mod_idemp_l (a mod p1305 + _)), Z.add_mod_idemp_l, Z.mul_mod_idemp_l by discriminate. reflexivity.
Qed.

Lemma block_value_add b : block_value b = le_combine b + 2 ^ (8 * zlen b).
Proof. unfold block_value. rewrite le_combine_app_add. change (le_combine [Byte.x01]) with 1. lia. Qed.

Lemma padded_block b : zlen b < 16 -> let mp := b ++ Byte.x01 :: zeros (15 - zlen b) in zlen mp = 16 /\ le_combine (ztake 16 mp) = block_value b.
Proof.
  intros Hb. pose proof (zlen_nonneg b). cbv zeta.
  assert (Hz : zlen (b ++ Byte.x01 :: zeros (15 - zlen b)) = 16) by (rewrite zlen_app, zlen_cons, zlen_zeros; lia).
  split; [exact Hz|]. rewrite ztake_all by (symmetry; exact Hz). rewrite le_combine_app_add, block_value_add.
  change (le_combine (Byte.x01 :: ?l)) with (Z.lor (u8 Byte.x01) (Z.shiftl (le_combine l) 8)). unfold zeros. rewrite le_combine_00.
  change (Z.lor (u8 Byte.x01) (Z.shiftl 0 8)) with 1. lia.
Qed.

(** One block, added and multiplied. *)
Lemma block_spec k st m hibit v : keyed k st -> reduced st -> 16 <= zlen m -> hibit = 0 \/ hibit = 2 ^ 24 ->
  le_combine (ztake 16 m) + 2 ^ 104 * hibit = v ->
  let st' := poly1305_donna_mul (poly1305_donna_add st m hibit) in
  reduced st' /\ same_rest st st' /\ hval st' mod p1305 = ((hval st + v) * clamp k) mod p1305.
Proof.
  intros (Hmul & Hr & _) Hred Hm Hhi Hv. cbv zeta. destruct (add_spec st m hibit Hred Hm Hhi) as (Ha & Hh & Hs).
  destruct (multipliers_rest _ _ Hs Hmul) as [Hmul' Hr']. destruct (mul_spec _ Hmul' Ha) as (Hred' & (q & Hq) & Hs').
  split; [exact Hred'|]. split; [exact (same_rest_trans _ _ _ Hs Hs')|]. rewrite Hr', Hr, Hh in Hq.
  replace (hval st + le_combine (ztake 16 m) + 2 ^ 104 * hibit) with (hval st + v) in Hq by lia. rewrite <- Hq.
  rewrite (Z.mul_comm p1305), Z.mod_add by discriminate. reflexivity.
Qed.

Lemma keyed_rest k st st' : same_rest st st' -> keyed k st -> keyed k st'.
Proof.
  intros Hs (Hm & Hr & Hk & Hb). destruct (multipliers_rest _ _ Hs Hm) as [Hm' Hr']. destruct Hs as (_ & E1 & _ & E3).
  split; [exact Hm'|]. rewrite Hr', E1, E3. auto.
Qed.

Definition absorb_all (k : list byte) (m : list byte) (a : Z) : Z := fold_left (absorb (clamp k)) (blocks_of m) a.

Lemma poly1305_update_run k fuel : forall st m, keyed k st -> reduced st -> (length m < fuel)%nat ->
  exists st', poly1305_update fuel st m = Some st' /\ reduced st' /\ same_rest st st' /\
    hval st' mod p1305 = absorb_all k m (hval st mod p1305).
Proof.
  induction fuel as [|fuel IH]; intros st m Hk Hred Hfuel; [lia|]. cbn [poly1305_update]. unfold absorb_all. destruct (Z.ltb_spec (zlen m) 16) as [Hlt|Hge].
  - unfold poly1305_donna_atmost15bytes. destruct (Z.eqb_spec (zlen m) 0) as [E|E].
    + exists st. destruct m; [|rewrite zlen_cons in E; pose proof (zlen_nonneg m); lia]. unfold same_rest. auto 20.
    + pose proof (zlen_nonneg m). destruct (padded_block m Hlt) as [Hz Hv]. cbv zeta in Hz, Hv.
      destruct (block_spec k st (m ++ Byte.x01 :: zeros (15 - zlen m)) 0 (block_value m) Hk Hred ltac:(lia) (or_introl eq_refl) ltac:(lia)) as (H1 & H2 & H3).
      eexists. split; [reflexivity|]. split; [exact H1|]. split; [exact H2|]. rewrite H3, blocks_cons by lia.
      rewrite ztake_big, zdrop_big by lia. cbn [blocks_of length message_blocks fold_left]. rewrite absorb_mod. reflexivity.
  - destruct (block_spec k st m (Z.shiftl 1 24) (block_value (ztake 16 m)) Hk Hred Hge (or_intror eq_refl)) as (H1 & H2 & H3).
    { rewrite block_value_add, zlen_ztake by lia. reflexivity. }
    destruct (IH _ (zdrop 16 m) (keyed_rest _ _ _ H2 Hk) H1) as (st' & E & K1 & K2 & K3); [unfold zdrop; rewrite length_drop; unfold zlen in Hge; lia|].
    exists st'. split; [exact E|]. split; [exact K1|]. split; [exact (same_rest_trans _ _ _ H2 K2)|].
    rewrite K3, H3, (blocks_cons m) by lia. cbn [fold_left]. rewrite absorb_mod. reflexivity.
Qed.

(** *** In one piece *)

Definition update_all (st : poly1305_state_st) (m : list byte) : option poly1305_state_st := poly1305_update (update_fuel m) st m.

(** The state without the buffer, which [poly1305_update] does not look at. *)
Definition bare (st : poly1305_state_st) : poly1305_state_st := set_buf st [] 0.

Lemma update_fuel_irrelevant f1 : forall f2 st m, (length m < f1)%nat -> (length m < f2)%nat -> poly1305_update f1 st m = poly1305_update f2 st m.
Proof.
  induction f1 as [|f1 IH]; intros [|f2] st m H1 H2; try lia. cbn [poly1305_update]. destruct (Z.ltb_spec (zlen m) 16); [reflexivity|].
  apply IH; unfold zdrop; rewrite length_drop; unfold zlen in *; lia.
Qed.

Lemma add_bare st m hibit : poly1305_donna_add (bare st) m hibit = bare (poly1305_donna_add st m hibit).
Proof. reflexivity. Qed.

Lemma mul_bare st : poly1305_donna_mul (bare st) = bare (poly1305_donna_mul st).
Proof.
  destruct st as [x0 x1 x2 x3 x4 y1 y2 y3 y4 z0 z1 z2 z3 z4 bf n k]. cbv [poly1305_donna_mul bare set_buf set_h r0 r1 r2 r3 r4 s1 s2 s3 s4 h0 h1 h2 h3 h4 buf buf_used Poly1305.key]. reflexivity.
Qed.

Lemma update_bare fuel : forall st m st', poly1305_update fuel st m = Some st' -> poly1305_update fuel (bare st) m = Some (bare st').
Proof.
  induction fuel as [|fuel IH]; intros st m st' H; [discriminate|]. cbn [poly1305_update] in *. destruct (zlen m <? 16).
  - injection H as <-. unfold poly1305_donna_atmost15bytes. destruct (zlen m =? 0); [reflexivity|].
    cbv zeta. rewrite add_bare, mul_bare. reflexivity.
  - rewrite add_bare, mul_bare. exact (IH _ _ _ H).
Qed.

Lemma update_all_app n : forall st a b st1, zlen a = 16 * Z.of_nat n -> update_all st a = Some st1 -> update_all st (a ++ b) = update_all st1 b.
Proof.
  induction n as [|n IH]; intros st a b st1 Ha H.
  - destruct a; [|rewrite zlen_cons in Ha; pose proof (zlen_nonneg a); lia]. injection H as <-. reflexivity.
  - unfold update_all, update_fuel in H |- *. cbn [poly1305_update] in H |- *. pose proof (zlen_nonneg b).
    destruct (Z.ltb_spec (zlen a) 16); [lia|]. destruct (Z.ltb_spec (zlen (a ++ b)) 16); [rewrite zlen_app in *; lia|].
    assert (Ead : poly1305_donna_add st (a ++ b) (Z.shiftl 1 24) = poly1305_donna_add st a (Z.shiftl 1 24)).
    { unfold poly1305_donna_add, U8TO32_LE, zdrop, ztake. rewrite !drop_app_le, !take_app_le by (rewrite ?length_drop; unfold zlen in *; lia). reflexivity. }
    assert (Edr : zdrop 16 (a ++ b) = zdrop 16 a ++ b) by (unfold zdrop; apply drop_app_le; unfold zlen in *; lia).
    rewrite Ead, Edr. rewrite (update_fuel_irrelevant _ (update_fuel (zdrop 16 a ++ b))) by (unfold update_fuel; rewrite ?length_app; unfold zdrop; rewrite ?length_drop; unfold zlen in *; lia).
    rewrite (update_fuel_irrelevant _ (update_fuel (zdrop 16 a))) in H by (unfold update_fuel, zdrop; rewrite length_drop; unfold zlen in *; lia).
    apply IH; [rewrite zlen_zdrop by lia; lia | exact H].
Qed.

(** The accumulator is what the blocks give when they come in one piece. *)
Definition direct (k : list byte) (st : poly1305_state_st) (whole : list byte) : Prop :=
  update_all (CRYPTO_poly1305_init [] k) whole = Some (bare st).

Lemma direct_app n k st whole m st' : zlen whole = 16 * Z.of_nat n -> direct k st whole -> update_all st m = Some st' -> direct k st' (whole ++ m).
Proof. intros Hw Hd H. unfold direct. rewrite (update_all_app n _ _ _ _ Hw Hd). apply update_bare, H. Qed.

(** ** The stream *)

(** The state after the bytes [m]: whole blocks are in the accumulator, the rest
    is in the buffer. *)
Definition holds (k : list byte) (st : poly1305_state_st) (m : list byte) : Prop :=
  keyed k st /\ reduced st /\ exists n whole rest,
    m = whole ++ rest /\ zlen whole = 16 * Z.of_nat n /\ zlen rest < 16 /\ buf_used st = zlen rest /\
    ztake (zlen rest) (buf st) = rest /\ hval st mod p1305 = absorb_all k whole 0 /\ direct k st whole.

Lemma absorb_all_app k n a b x : zlen a = 16 * Z.of_nat n -> absorb_all k (a ++ b) x = absorb_all k b (absorb_all k a x).
Proof. intros Ha. unfold absorb_all. rewrite (blocks_app n) by exact Ha. apply fold_left_app. Qed.

Lemma land_not15 x : 0 <= x < 2 ^ 64 -> Z.land x (u64 (Z.lnot 0xf)) = 16 * (x / 16).
Proof.
  intros Hx. assert (E : Z.land x (u64 (Z.lnot 0xf)) = Z.shiftl (Z.shiftr x 4) 4).
  { apply Z.bits_inj'. intros i Hi. change (u64 (Z.lnot 0xf)) with (Z.shiftl (Z.ones 60) 4). rewrite Z.land_spec, !Z.shiftl_spec by lia.
    destruct (Z_lt_le_dec i 4); [rewrite !(Z.testbit_neg_r _ (i - 4)) by lia; apply andb_false_r|]. rewrite Z.shiftr_spec by lia. replace (i - 4 + 4) with i by lia.
    destruct (Z_lt_le_dec i 64); [rewrite Z.ones_spec_low by lia; apply andb_true_r|].
    rewrite <- (Z.mod_small x (2 ^ 64)) by lia. rewrite Z.mod_pow2_bits_high by lia. reflexivity. }
  rewrite E, Z.shiftl_mul_pow2, shiftr_div by lia. change (2 ^ 4) with 16. apply Z.mul_comm.
Qed.

Lemma keyed_set_buf k st b n : keyed k st -> zlen b = 16 -> keyed k (set_buf st b n).
Proof. intros (H1 & H2 & H3 & _) Hb. split; [exact H1|]. split; [exact H2|]. split; [exact H3 | exact Hb]. Qed.

Lemma put_buf_run b off m : zlen b = 16 -> 0 <= off -> off + zlen m <= 16 ->
  exists b', put_buf b off m = Some b' /\ zlen b' = 16 /\ ztake (off + zlen m) b' = ztake off b ++ m.
Proof.
  intros Hb Ho Hm. pose proof (zlen_nonneg m). unfold put_buf. destruct (Z.leb_spec (off + zlen m) 16); [|lia]. exists (splice b off m). split; [reflexivity|].
  split; [rewrite zlen_splice by lia; exact Hb|]. unfold splice. rewrite app_assoc. apply ztake_app. rewrite zlen_app, zlen_ztake by lia. reflexivity.
Qed.

(** What is left of the input when the buffer has been filled or emptied. *)
Lemma fill_buf_run k st m in_ : holds k st m -> 0 < buf_used st -> zlen in_ < 2 ^ 64 ->
  exists st' taken left, fill_buf st in_ = Some (st', left) /\ in_ = taken ++ left /\ holds k st' (m ++ taken) /\ (left = [] \/ buf_used st' = 0).
Proof.
  intros (Hk & Hred & n & whole & rest & -> & Hw & Hr & Hu & Hb & Hh & Hd) Hpos Hin. unfold fill_buf. rewrite Hu in *. pose proof (zlen_nonneg in_).
  rewrite wrap_small by (unfold in_word; lia). set (todo := if zlen in_ <? 16 - zlen rest then zlen in_ else 16 - zlen rest).
  assert (Ht : 0 <= todo <= zlen in_ /\ zlen rest + todo <= 16 /\ (todo = zlen in_ \/ zlen rest + todo = 16)) by (unfold todo; destruct (Z.ltb_spec (zlen in_) (16 - zlen rest)); lia).
  destruct (put_buf_run (buf st) (zlen rest) (ztake todo in_)) as (b & -> & Hzb & Htb); [apply Hk | lia | rewrite zlen_ztake; lia|].
  rewrite zlen_ztake, Hb in Htb by lia. rewrite wrap_small by (unfold in_word; lia). cbn [buf_used set_buf buf].
  pose proof (keyed_set_buf k st b (zlen rest + todo) Hk Hzb) as Hk1. destruct (Z.eqb_spec (zlen rest + todo) 16) as [Efull|Efull].
  - destruct (poly1305_update_run k (update_fuel b) (set_buf st b (zlen rest + todo)) b Hk1 Hred) as (st' & Eup & K1 & K2 & K3); [unfold update_fuel; lia|]. rewrite Eup.
    exists (set_buf st' (buf st') 0), (ztake todo in_), (zdrop todo in_). split; [reflexivity|]. split; [symmetry; apply ztake_zdrop|].
    split; [|right; reflexivity]. pose proof (keyed_rest _ _ _ K2 Hk1) as Hk2. split; [apply keyed_set_buf; [exact Hk2 | apply Hk2]|]. split; [exact K1|].
    rewrite Efull, ztake_big in Htb by lia. exists (S n), (whole ++ b), []. rewrite app_nil_r, <- app_assoc, <- Htb. split; [reflexivity|].
    split; [rewrite zlen_app; lia|]. split; [reflexivity|]. split; [reflexivity|]. split; [reflexivity|].
    change (hval (set_buf st' (buf st') 0)) with (hval st'). rewrite (absorb_all_app k n) by exact Hw. rewrite K3, <- Hh. split; [reflexivity|].
    exact (direct_app n k (set_buf st b (zlen rest + todo)) whole b st' Hw Hd Eup).
  - assert (todo = zlen in_) as Etodo by lia. exists (set_buf st b (zlen rest + todo)), in_, []. rewrite zdrop_big by lia. split; [reflexivity|].
    rewrite app_nil_r. split; [reflexivity|]. split; [|left; reflexivity]. split; [exact Hk1|]. split; [exact Hred|].
    rewrite (ztake_big todo in_) in Htb by lia. exists n, whole, (rest ++ in_).
    rewrite zlen_app, <- Etodo. split; [symmetry; apply app_assoc|]. split; [exact Hw|]. split; [lia|]. split; [reflexivity|]. split; [exact Htb|]. split; [exact Hh | exact Hd].
Qed.

Lemma update_holds k st m in_ : holds k st m -> zlen in_ < 2 ^ 64 ->
  exists st', CRYPTO_poly1305_update st in_ = Some st' /\ holds k st' (m ++ in_).
Proof.
  intros Hst Hin. unfold CRYPTO_poly1305_update.
  assert (Hfill : exists st1 taken left, (if buf_used st =? 0 then Some (st, in_) else fill_buf st in_) = Some (st1, left) /\
    in_ = taken ++ left /\ holds k st1 (m ++ taken) /\ (left = [] \/ buf_used st1 = 0)).
  { destruct (Z.eqb_spec (buf_used st) 0) as [E|E].
    - exists st, [], in_. rewrite app_nil_r. auto.
    - apply (fill_buf_run k); auto. destruct Hst as (_ & _ & n & whole & rest & _ & _ & _ & Hu & _ & _). pose proof (zlen_nonneg rest). lia. }
  destruct Hfill as (st1 & taken & left & -> & -> & Hst1 & Hleft). rewrite zlen_app in Hin. pose proof (zlen_nonneg taken). pose proof (zlen_nonneg left).
  destruct Hleft as [->|Hu1].
  { exists st1. split; [reflexivity|]. rewrite app_nil_r. exact Hst1. }
  destruct Hst1 as (Hk & Hred & n & whole & rest & Em & Hw & _ & Hu & _ & Hh & Hd). rewrite Hu1 in Hu.
  assert (rest = []) as -> by (apply nil_length_inv; unfold zlen in Hu; lia). rewrite app_nil_r in Em.
  rewrite land_not15 by lia. pose proof (Z.mod_pos_bound (zlen left) 16 ltac:(lia)). pose proof (Z.div_mod (zlen left) 16 ltac:(lia)).
  set (todo := 16 * (zlen left / 16)) in *.
  assert (Hblk : exists st2, (if 16 <=? zlen left
      then match poly1305_update (update_fuel left) st1 (ztake todo left) with Some st => Some (st, zdrop todo left) | None => None end
      else Some (st1, left)) = Some (st2, zdrop todo left) /\ keyed k st2 /\ reduced st2 /\ same_rest st1 st2 /\
      hval st2 mod p1305 = absorb_all k (ztake todo left) (hval st1 mod p1305) /\ update_all st1 (ztake todo left) = Some st2).
  { destruct (Z.leb_spec 16 (zlen left)).
    - destruct (poly1305_update_run k (update_fuel left) st1 (ztake todo left) Hk Hred) as (st2 & Eup & K1 & K2 & K3);
        [unfold update_fuel, ztake; rewrite length_take; lia|]. rewrite Eup. exists st2. split; [reflexivity|]. split; [exact (keyed_rest _ _ _ K2 Hk)|].
      split; [exact K1|]. split; [exact K2|]. split; [exact K3|]. rewrite <- Eup.
      apply update_fuel_irrelevant; unfold update_fuel; [lia|]. unfold ztake. rewrite length_take. lia.
    - assert (todo = 0) as -> by (unfold todo; rewrite Z.div_small by lia; reflexivity). exists st1. unfold same_rest. auto 20. }
  destruct Hblk as (st2 & -> & Hk2 & Hred2 & Hs2 & Hh2 & Hup). pose proof (direct_app n k _ _ _ _ Hw Hd Hup) as Hd2.
  assert (Hnew : hval st2 mod p1305 = absorb_all k (whole ++ ztake todo left) 0) by (rewrite (absorb_all_app k n), <- Hh by exact Hw; exact Hh2).
  assert (Hzw : zlen (whole ++ ztake todo left) = 16 * Z.of_nat (n + Z.to_nat (zlen left / 16))) by (rewrite zlen_app, zlen_ztake by lia; pose proof (Z.div_pos (zlen left) 16 ltac:(lia) ltac:(lia)); lia).
  assert (Ejoin : m ++ taken ++ left = (whole ++ ztake todo left) ++ zdrop todo left) by (rewrite <- app_assoc, ztake_zdrop, app_assoc, Em; reflexivity).
  rewrite Ejoin. pose proof (zlen_zdrop left todo ltac:(lia)) as Hzd. destruct (Z.eqb_spec (zlen (zdrop todo left)) 0) as [E0|E0].
  - exists st2. split; [reflexivity|]. split; [exact Hk2|]. split; [exact Hred2|]. exists (n + Z.to_nat (zlen left / 16))%nat, (whole ++ ztake todo left), (zdrop todo left).
    split; [reflexivity|]. split; [exact Hzw|]. rewrite E0. split; [lia|]. destruct Hs2 as (_ & _ & Eu & _). split; [congruence|].
    split; [symmetry; apply nil_length_inv; unfold zlen in E0; lia|]. split; [exact Hnew | exact Hd2].
  - destruct (put_buf_run (buf st2) 0 (zdrop todo left)) as (b & -> & Hzb & Htb); [apply Hk2 | lia | lia|].
    eexists. split; [reflexivity|]. split; [apply keyed_set_buf; assumption|]. split; [exact Hred2|]. exists (n + Z.to_nat (zlen left / 16))%nat, (whole ++ ztake todo left), (zdrop todo left).
    split; [reflexivity|]. split; [exact Hzw|]. split; [lia|]. split; [reflexivity|]. split; [exact Htb|]. split; [exact Hnew | exact Hd2].
Qed.

(** ** The end *)

(** Carrying subtracts [p1305] at most once; then the lowest limb may be too
    large, and the number is small. *)
Lemma finish_carry_spec st : reduced st ->
  let st' := finish_carry st in exists b, (b = 0 \/ b = 1) /\ hval st' + p1305 * b = hval st /\ same_rest st st' /\
    0 <= h0 st' < 2 ^ 26 + 5 * b /\ 0 <= h1 st' < 2 ^ 26 /\ 0 <= h2 st' < 2 ^ 26 /\ 0 <= h3 st' < 2 ^ 26 /\ 0 <= h4 st' < 2 ^ 26.
Proof.
  intros (B0 & B1 & B2 & B3 & B4). cbv zeta. unfold finish_carry, hval. cbn [h0 h1 h2 h3 h4 set_h]. rewrite !land26, !shiftr_div by lia. revert B0 B1 B2 B3 B4.
  generalize (h0 st), (h1 st), (h2 st), (h3 st), (h4 st). intros a0 a1 a2 a3 a4 B0 B1 B2 B3 B4.
  pose proof (Z.mod_pos_bound a0 (2 ^ 26) ltac:(lia)) as M0. pose proof (Z.div_mod a0 (2 ^ 26) ltac:(lia)) as D0.
  set (q0 := a0 / 2 ^ 26) in *. set (m0 := a0 mod 2 ^ 26) in *. rewrite (wrap_small 32 (a1 + q0)) by (unfold in_word; lia).
  pose proof (Z.mod_pos_bound (a1 + q0) (2 ^ 26) ltac:(lia)) as M1. pose proof (Z.div_mod (a1 + q0) (2 ^ 26) ltac:(lia)) as D1.
  set (q1 := (a1 + q0) / 2 ^ 26) in *. set (m1 := (a1 + q0) mod 2 ^ 26) in *. rewrite (wrap_small 32 (a2 + q1)) by (unfold in_word; lia).
  pose proof (Z.mod_pos_bound (a2 + q1) (2 ^ 26) ltac:(lia)) as M2. pose proof (Z.div_mod (a2 + q1) (2 ^ 26) ltac:(lia)) as D2.
  set (q2 := (a2 + q1) / 2 ^ 26) in *. set (m2 := (a2 + q1) mod 2 ^ 26) in *. rewrite (wrap_small 32 (a3 + q2)) by (unfold in_word; lia).
  pose proof (Z.mod_pos_bound (a3 + q2) (2 ^ 26) ltac:(lia)) as M3. pose proof (Z.div_mod (a3 + q2) (2 ^ 26) ltac:(lia)) as D3.
  set (q3 := (a3 + q2) / 2 ^ 26) in *. set (m3 := (a3 + q2) mod 2 ^ 26) in *. rewrite (wrap_small 32 (a4 + q3)) by (unfold in_word; lia).
  pose proof (Z.mod_pos_bound (a4 + q3) (2 ^ 26) ltac:(lia)) as M4. pose proof (Z.div_mod (a4 + q3) (2 ^ 26) ltac:(lia)) as D4.
  set (q4 := (a4 + q3) / 2 ^ 26) in *. set (m4 := (a4 + q3) mod 2 ^ 26) in *. rewrite (wrap_small 32 (q4 * 5)) by (unfold in_word; lia).
  rewrite (wrap_small 32 (m0 + _)) by (unfold in_word; lia). exists q4. unfold limbs, p1305.
  split; [lia|]. split; [lia|]. split; [apply set_h_rest | lia].
Qed.

(** A choice between two words by a mask of ones or of zeros. *)
Lemma select_word x y (c : bool) : 0 <= x < 2 ^ 32 -> 0 <= y < 2 ^ 32 ->
  Z.lor (Z.land x (u32 (Z.lnot (u32 ((if c then 1 else 0) - 1))))) (Z.land y (u32 ((if c then 1 else 0) - 1))) = if c then x else y.
Proof.
  intros Hx Hy. destruct c.
  - change (u32 (1 - 1)) with 0. change (u32 (Z.lnot 0)) with (2 ^ 32 - 1). rewrite land_ones_mod, Z.land_0_r, Z.lor_0_r by lia. apply Z.mod_small. lia.
  - change (u32 (0 - 1)) with (2 ^ 32 - 1). change (u32 (Z.lnot (2 ^ 32 - 1))) with 0. rewrite land_ones_mod, Z.land_0_r, Z.lor_0_l by lia. apply Z.mod_small. lia.
Qed.

Lemma finish_reduce_spec st : 0 <= h0 st < 2 ^ 26 + 5 -> 0 <= h1 st < 2 ^ 26 -> 0 <= h2 st < 2 ^ 26 -> 0 <= h3 st < 2 ^ 26 -> 0 <= h4 st < 2 ^ 26 ->
  let st' := finish_reduce st in same_rest st st' /\
  if hval st <? p1305 then h0 st' = h0 st /\ h1 st' = h1 st /\ h2 st' = h2 st /\ h3 st' = h3 st /\ h4 st' = h4 st
  else hval st' = hval st - p1305 /\ 0 <= h0 st' < 2 ^ 26 /\ 0 <= h1 st' < 2 ^ 26 /\ 0 <= h2 st' < 2 ^ 26 /\ 0 <= h3 st' < 2 ^ 26 /\ 0 <= h4 st' < 2 ^ 26.
Proof.
  intros B0 B1 B2 B3 B4. cbv zeta. split; [apply set_h_rest|]. unfold finish_reduce, hval. cbn [h0 h1 h2 h3 h4 set_h]. rewrite !land26, !shiftr_div by lia. revert B0 B1 B2 B3 B4.
  generalize (h0 st), (h1 st), (h2 st), (h3 st), (h4 st). intros a0 a1 a2 a3 a4 B0 B1 B2 B3 B4. change (Z.shiftl 1 26) with (2 ^ 26). change (Z.shiftl 1 26) with (2 ^ 26).
  rewrite (wrap_small 32 (a0 + 5)) by (unfold in_word; lia).
  pose proof (Z.mod_pos_bound (a0 + 5) (2 ^ 26) ltac:(lia)) as M0. pose proof (Z.div_mod (a0 + 5) (2 ^ 26) ltac:(lia)) as D0.
  set (q0 := (a0 + 5) / 2 ^ 26) in *. set (m0 := (a0 + 5) mod 2 ^ 26) in *. rewrite (wrap_small 32 (a1 + q0)) by (unfold in_word; lia).
  pose proof (Z.mod_pos_bound (a1 + q0) (2 ^ 26) ltac:(lia)) as M1. pose proof (Z.div_mod (a1 + q0) (2 ^ 26) ltac:(lia)) as D1.
  set (q1 := (a1 + q0) / 2 ^ 26) in *. set (m1 := (a1 + q0) mod 2 ^ 26) in *. rewrite (wrap_small 32 (a2 + q1)) by (unfold in_word; lia).
  pose proof (Z.mod_pos_bound (a2 + q1) (2 ^ 26) ltac:(lia)) as M2. pose proof (Z.div_mod (a2 + q1) (2 ^ 26) ltac:(lia)) as D2.
  set (q2 := (a2 + q1) / 2 ^ 26) in *. set (m2 := (a2 + q1) mod 2 ^ 26) in *. rewrite (wrap_small 32 (a3 + q2)) by (unfold in_word; lia).
  pose proof (Z.mod_pos_bound (a3 + q2) (2 ^ 26) ltac:(lia)) as M3. pose proof (Z.div_mod (a3 + q2) (2 ^ 26) ltac:(lia)) as D3.
  set (q3 := (a3 + q2) / 2 ^ 26) in *. set (m3 := (a3 + q2) mod 2 ^ 26) in *.
  assert (Hg : u32 (a4 + q3 - 2 ^ 26) / 2 ^ 31 = (if limbs a0 a1 a2 a3 a4 <? p1305 then 1 else 0) /\ (p1305 <= limbs a0 a1 a2 a3 a4 -> u32 (a4 + q3 - 2 ^ 26) = a4 + q3 - 2 ^ 26) /\
    0 <= u32 (a4 + q3 - 2 ^ 26) < 2 ^ 32).
  { split; [|split; [|apply wrap_range; lia]].
    - destruct (Z.ltb_spec (limbs a0 a1 a2 a3 a4) p1305) as [Hp|Hp]; unfold limbs, p1305 in Hp.
      + replace (u32 (a4 + q3 - 2 ^ 26)) with (a4 + q3 - 2 ^ 26 + 2 ^ 32); [symmetry; apply Z.div_unique with (a4 + q3 - 2 ^ 26 + 2 ^ 31); lia|].
        unfold wrap. apply Z.mod_unique with (-1); lia.
      + rewrite wrap_small by (unfold in_word; lia). apply Z.div_small. lia.
    - unfold limbs, p1305. intros Hp. apply wrap_small. unfold in_word. lia. }
  destruct Hg as (Hb & Hg & Hr). rewrite Hb. rewrite !select_word by lia.
  destruct (Z.ltb_spec (limbs a0 a1 a2 a3 a4) p1305) as [Hp|Hp]; [auto|]. rewrite Hg by lia. unfold limbs, p1305 in *. lia.
Qed.

Lemma le_split_add a b z : le_split (a + b) z = le_split a z ++ le_split b (Z.shiftr z (8 * Z.of_nat a)).
Proof.
  revert z. induction a as [|a IH]; intros z; [rewrite Z.shiftr_0_r; reflexivity|].
  change (le_split (S a + b) z) with (b8 z :: le_split (a + b) (Z.shiftr z 8)). rewrite IH. cbn [app].
  change (le_split (S a) z) with (b8 z :: le_split a (Z.shiftr z 8)). cbn [app]. do 3 f_equal. rewrite Z.shiftr_shiftr by lia. f_equal. lia.
Qed.

Lemma le_split_cong n y z : y mod 2 ^ (8 * Z.of_nat n) = z mod 2 ^ (8 * Z.of_nat n) -> le_split n y = le_split n z.
Proof.
  intros E. rewrite <- (split_le_combine (le_split n y)), <- (split_le_combine (le_split n z)), !length_le_split, !le_combine_split. f_equal.
  replace (Z.of_nat n * 8) with (8 * Z.of_nat n) by lia. exact E.
Qed.

(** The lowest word is right if nothing of the limbs overlaps. *)
Lemma low_word a0 a1 : (0 <= a0 < 2 ^ 26 \/ 0 <= a0 < 2 ^ 27 /\ a1 mod 2 = 0) -> 0 <= a1 < 2 ^ 26 ->
  Z.lor a0 (u32 (Z.shiftl a1 26)) = a0 + (a1 * 2 ^ 26) mod 2 ^ 32.
Proof.
  intros [H|[H H2]] H1.
  - rewrite <- (Z.shiftr_0_r a0) at 1. rewrite (lor_next a0 a1 0 26) by (cbn [Z.add]; lia). rewrite Z.div_1_r. reflexivity.
  - replace (Z.shiftl a1 26) with (Z.shiftl (a1 / 2) 27) by (rewrite !Z.shiftl_mul_pow2 by lia; Z.to_euclidean_division_equations; lia).
    rewrite <- (Z.shiftr_0_r a0) at 1. rewrite (lor_next a0 (a1 / 2) 0 27) by (cbn [Z.add]; lia). rewrite Z.div_1_r. do 2 f_equal. Z.to_euclidean_division_equations. lia.
Qed.

(** The limbs are presentable: in range, or overlapping without harm. *)
Definition presentable (st : poly1305_state_st) : Prop :=
  (0 <= h0 st < 2 ^ 26 \/ 0 <= h0 st < 2 ^ 27 /\ h1 st mod 2 = 0 /\ hval st < 2 ^ 32) /\
  0 <= h1 st < 2 ^ 26 /\ 0 <= h2 st < 2 ^ 26 /\ 0 <= h3 st < 2 ^ 26 /\ 0 <= h4 st < 2 ^ 26.

(** The four words of the number. *)
Lemma words_of_limbs a0 a1 a2 a3 a4 n : n = limbs a0 a1 a2 a3 a4 -> (0 <= a0 < 2 ^ 26 \/ 0 <= a0 < 2 ^ 27 /\ n < 2 ^ 32) ->
  0 <= a1 < 2 ^ 26 -> 0 <= a2 < 2 ^ 26 -> 0 <= a3 < 2 ^ 26 -> 0 <= a4 < 2 ^ 26 ->
  u32 (a0 + (a1 * 2 ^ 26) mod 2 ^ 32) = n mod 2 ^ 32 /\ u32 (a1 / 2 ^ 6 + (a2 * 2 ^ 20) mod 2 ^ 32) = n / 2 ^ 32 mod 2 ^ 32 /\
  u32 (a2 / 2 ^ 12 + (a3 * 2 ^ 14) mod 2 ^ 32) = n / 2 ^ 64 mod 2 ^ 32 /\ u32 (a3 / 2 ^ 18 + (a4 * 2 ^ 8) mod 2 ^ 32) = n / 2 ^ 96 mod 2 ^ 32.
Proof.
  intros -> H0 H1 H2 H3 H4. unfold limbs in *. unfold wrap. rewrite !Z.add_mod_idemp_r by lia.
  split; [|split; [|split]].
  - rewrite <- (Z.mod_add _ (2 ^ 20 * a2 + 2 ^ 46 * a3 + 2 ^ 72 * a4)) by lia. f_equal. lia.
  - rewrite <- (Z.mod_add (_ / _ + _) (2 ^ 14 * a3 + 2 ^ 40 * a4)) by lia. f_equal. Z.to_euclidean_division_equations. lia.
  - rewrite <- (Z.mod_add (_ / _ + _) (2 ^ 8 * a4)) by lia. f_equal. Z.to_euclidean_division_equations. lia.
  - f_equal. Z.to_euclidean_division_equations. lia.
Qed.

(** Adding four words with the carries. *)
Lemma add_words n t0 t1 t2 t3 : 0 <= t0 < 2 ^ 32 -> 0 <= t1 < 2 ^ 32 -> 0 <= t2 < 2 ^ 32 -> 0 <= t3 < 2 ^ 32 ->
  let f0 := u64 (n mod 2 ^ 32 + t0) in let f1 := u64 (u64 (n / 2 ^ 32 mod 2 ^ 32 + t1) + f0 / 2 ^ 32) in
  let f2 := u64 (u64 (n / 2 ^ 64 mod 2 ^ 32 + t2) + f1 / 2 ^ 32) in let f3 := u64 (u64 (n / 2 ^ 96 mod 2 ^ 32 + t3) + f2 / 2 ^ 32) in
  le_split 4 (u32 f0) ++ le_split 4 (u32 f1) ++ le_split 4 (u32 f2) ++ le_split 4 (u32 f3) =
  le_split 16 (n + (t0 + 2 ^ 32 * t1 + 2 ^ 64 * t2 + 2 ^ 96 * t3)).
Proof.
  intros T0 T1 T2 T3. cbv zeta.
  change 16%nat with (4 + (4 + (4 + 4)))%nat. rewrite !le_split_add, !Z.shiftr_shiftr by lia. change (8 * Z.of_nat 4) with 32. change (32 + 32 + 32) with 96. change (32 + 32) with 64.
  rewrite !shiftr_div by lia.
  pose proof (Z.mod_pos_bound n (2 ^ 32) ltac:(lia)) as M0. pose proof (Z.mod_pos_bound (n / 2 ^ 32) (2 ^ 32) ltac:(lia)) as M1.
  pose proof (Z.mod_pos_bound (n / 2 ^ 64) (2 ^ 32) ltac:(lia)) as M2. pose proof (Z.mod_pos_bound (n / 2 ^ 96) (2 ^ 32) ltac:(lia)) as M3.
  set (w0 := n mod 2 ^ 32) in *. set (w1 := n / 2 ^ 32 mod 2 ^ 32) in *. set (w2 := n / 2 ^ 64 mod 2 ^ 32) in *. set (w3 := n / 2 ^ 96 mod 2 ^ 32) in *.
  assert (En : n = w0 + 2 ^ 32 * w1 + 2 ^ 64 * w2 + 2 ^ 96 * w3 + 2 ^ 128 * (n / 2 ^ 128)).
  { unfold w0, w1, w2, w3. clear. Z.to_euclidean_division_equations. lia. }
  rewrite (wrap_small 64 (w0 + t0)) by (unfold in_word; lia).
  assert (C0 : 0 <= (w0 + t0) / 2 ^ 32 <= 1) by (Z.to_euclidean_division_equations; lia). set (c0 := (w0 + t0) / 2 ^ 32) in *.
  rewrite (wrap_small 64 (w1 + t1)), (wrap_small 64 (w1 + t1 + c0)) by (unfold in_word; lia).
  assert (C1 : 0 <= (w1 + t1 + c0) / 2 ^ 32 <= 1) by (clearbody c0 w1; Z.to_euclidean_division_equations; lia). set (c1 := (w1 + t1 + c0) / 2 ^ 32) in *.
  rewrite (wrap_small 64 (w2 + t2)), (wrap_small 64 (w2 + t2 + c1)) by (unfold in_word; lia).
  assert (C2 : 0 <= (w2 + t2 + c1) / 2 ^ 32 <= 1) by (clearbody c1 w2; Z.to_euclidean_division_equations; lia). set (c2 := (w2 + t2 + c1) / 2 ^ 32) in *.
  rewrite (wrap_small 64 (w3 + t3)), (wrap_small 64 (w3 + t3 + c2)) by (unfold in_word; lia).
  assert (D0 : w0 + t0 = (w0 + t0) mod 2 ^ 32 + 2 ^ 32 * c0 /\ 0 <= (w0 + t0) mod 2 ^ 32 < 2 ^ 32) by (unfold c0; clear; Z.to_euclidean_division_equations; lia).
  assert (D1 : w1 + t1 + c0 = (w1 + t1 + c0) mod 2 ^ 32 + 2 ^ 32 * c1 /\ 0 <= (w1 + t1 + c0) mod 2 ^ 32 < 2 ^ 32) by (unfold c1; clear; clearbody c0; Z.to_euclidean_division_equations; lia).
  assert (D2 : w2 + t2 + c1 = (w2 + t2 + c1) mod 2 ^ 32 + 2 ^ 32 * c2 /\ 0 <= (w2 + t2 + c1) mod 2 ^ 32 < 2 ^ 32) by (unfold c2; clear; clearbody c1; Z.to_euclidean_division_equations; lia).
  clearbody w0 w1 w2 w3 c0 c1 c2. set (z := n + (t0 + 2 ^ 32 * t1 + 2 ^ 64 * t2 + 2 ^ 96 * t3)).
  assert (Z1 : z / 2 ^ 32 = w1 + t1 + c0 + 2 ^ 32 * (w2 + t2) + 2 ^ 64 * (w3 + t3) + 2 ^ 96 * (n / 2 ^ 128)).
  { symmetry. apply Z.div_unique with ((w0 + t0) mod 2 ^ 32); [lia|]. unfold z. lia. }
  assert (Z2 : z / 2 ^ 64 = w2 + t2 + c1 + 2 ^ 32 * (w3 + t3) + 2 ^ 64 * (n / 2 ^ 128)).
  { symmetry. apply Z.div_unique with ((w0 + t0) mod 2 ^ 32 + 2 ^ 32 * ((w1 + t1 + c0) mod 2 ^ 32)); [lia|]. unfold z. lia. }
  assert (Z3 : z / 2 ^ 96 = w3 + t3 + c2 + 2 ^ 32 * (n / 2 ^ 128)).
  { symmetry. apply Z.div_unique with ((w0 + t0) mod 2 ^ 32 + 2 ^ 32 * ((w1 + t1 + c0) mod 2 ^ 32) + 2 ^ 64 * ((w2 + t2 + c1) mod 2 ^ 32)); [lia|]. unfold z. lia. }
  rewrite Z1, Z2, Z3. f_equal; [|f_equal; [|f_equal]]; apply le_split_cong; change (8 * Z.of_nat 4) with 32; unfold wrap; rewrite Z.mod_mod by lia.
  - unfold z. rewrite En. rewrite <- (Z.mod_add (w0 + t0) (w1 + t1 + 2 ^ 32 * (w2 + t2) + 2 ^ 64 * (w3 + t3) + 2 ^ 96 * (n / 2 ^ 128))) by lia. f_equal. lia.
  - rewrite <- (Z.mod_add (w1 + t1 + c0) (w2 + t2 + 2 ^ 32 * (w3 + t3) + 2 ^ 64 * (n / 2 ^ 128))) by lia. f_equal. lia.
  - rewrite <- (Z.mod_add (w2 + t2 + c1) (w3 + t3 + 2 ^ 32 * (n / 2 ^ 128))) by lia. f_equal. lia.
  - rewrite <- (Z.mod_add (w3 + t3 + c2) (n / 2 ^ 128)) by lia. f_equal. lia.
Qed.

Lemma finish_mac_spec st : presentable st -> 16 <= zlen (Poly1305.key st) ->
  finish_mac st = le_split 16 (hval st + le_combine (ztake 16 (Poly1305.key st))).
Proof.
  intros (H0 & H1 & H2 & H3 & H4) Hk. rewrite le_words by exact Hk. unfold finish_mac, U32TO8_LE.
  rewrite (low_word (h0 st) (h1 st)), (lor_next (h1 st) (h2 st) 6 20), (lor_next (h2 st) (h3 st) 12 14), (lor_next (h3 st) (h4 st) 18 8) by (cbn [Z.add Pos.add]; tauto || lia).
  destruct (words_of_limbs (h0 st) (h1 st) (h2 st) (h3 st) (h4 st) (hval st) eq_refl ltac:(tauto) H1 H2 H3 H4) as (-> & -> & -> & ->).
  rewrite !shiftr_div by lia. apply add_words; apply le32_range.
Qed.

(** The tag is the authenticator unless the number is below 2^32 and its lowest
    27 bits are below 5: then a one may be carried over another and be lost. *)
Definition lost_carry (v : Z) : Prop := v < 2 ^ 32 /\ v mod 2 ^ 27 < 5.

(** The carry that is added to the lowest limb overflows it, and the next limb is
    odd: then the two bits meet when the limbs are put together. *)
Definition loses_carry (st : poly1305_state_st) : bool :=
  let c := finish_carry st in (2 ^ 26 <=? h0 c) && Z.odd (h1 c).

Lemma carried_lost st : hval st < 2 ^ 32 -> 2 ^ 26 <= h0 st < 2 ^ 26 + 5 -> Z.odd (h1 st) = true ->
  lost_carry (hval st).
Proof.
  intros Hsmall H0 Hodd. split; [exact Hsmall|]. replace (hval st mod 2 ^ 27) with (h0 st - 2 ^ 26); [lia|].
  unfold hval, limbs. apply Zodd_bool_iff, Zodd_ex in Hodd as (x & Hx).
  apply Z.mod_unique with (x + 1 + 2 ^ 25 * h2 st + 2 ^ 51 * h3 st + 2 ^ 77 * h4 st); lia.
Qed.

(** The overflow of the lowest limb is not seen next to an odd limb. *)
Lemma overlap d a1 : 0 <= d < 5 -> Z.odd a1 = true ->
  Z.lor (2 ^ 26 + d) (u32 (Z.shiftl a1 26)) = Z.lor d (u32 (Z.shiftl a1 26)).
Proof.
  intros Hd Hodd. replace (2 ^ 26 + d) with (Z.lor d (Z.shiftl 1 26)).
  2: { rewrite Z.lor_comm, lor_shiftl_add by lia. lia. }
  rewrite <- Z.lor_assoc. f_equal. apply Z.bits_inj'. intros i Hi. rewrite Z.lor_spec.
  destruct (Z.eq_dec i 26) as [->|Hne].
  - unfold wrap. rewrite Z.mod_pow2_bits_low, !Z.shiftl_spec by lia. change (26 - 26) with 0. rewrite !Z.bit0_odd, Hodd. reflexivity.
  - replace (Z.testbit (Z.shiftl 1 26) i) with false; [reflexivity|]. rewrite Z.shiftl_spec by lia.
    symmetry. destruct (Z.lt_ge_cases i 26); [apply Z.testbit_neg_r; lia|]. apply (Z.pow2_bits_false 0). lia.
Qed.

Lemma finish_spec_gen st : reduced st -> 16 <= zlen (Poly1305.key st) ->
  finish_mac (finish_reduce (finish_carry st)) =
    le_split 16 (hval st mod p1305 - (if loses_carry st then 2 ^ 26 else 0) + le_combine (ztake 16 (Poly1305.key st))) /\
  (loses_carry st = true -> lost_carry (hval st mod p1305)).
Proof.
  intros Hred Hk. destruct (finish_carry_spec st Hred) as (b & Hb & Hval & Hs & B0 & B1 & B2 & B3 & B4). unfold loses_carry. set (st1 := finish_carry st) in *.
  destruct (finish_reduce_spec st1 ltac:(lia) B1 B2 B3 B4) as [Hs' Hred']. set (st2 := finish_reduce st1) in *.
  assert (Ekey : Poly1305.key st2 = Poly1305.key st) by (destruct Hs as (_ & _ & _ & E1), Hs' as (_ & _ & _ & E2); congruence).
  assert (H0 : 0 <= hval st1) by (unfold hval, limbs; lia).
  assert (Hhi : hval st1 < 2 * p1305) by (unfold hval, limbs, p1305; lia).
  assert (Hmod : hval st mod p1305 = hval st1 mod p1305) by (rewrite <- Hval, (Z.mul_comm p1305), Z.mod_add by discriminate; reflexivity).
  assert (Hsmall : b = 1 -> hval st1 < 2 ^ 32) by (intros ->; destruct Hred as (? & ? & ? & ? & ?); unfold hval, limbs, p1305 in *; lia).
  rewrite Hmod. clear Hmod Hval. destruct (Z.leb_spec (2 ^ 26) (h0 st1)) as [Hov|Hov]; cbn [andb].
  2: { (* nothing overflows *)
    split; [|discriminate]. rewrite Z.sub_0_r. destruct (Z.ltb_spec (hval st1) p1305) as [Hlt|Hge].
    - rewrite Z.mod_small by lia. destruct Hred' as (E0 & E1 & E2 & E3 & E4).
      assert (Eh : hval st2 = hval st1) by (unfold hval; rewrite E0, E1, E2, E3, E4; reflexivity).
      rewrite finish_mac_spec; [rewrite Eh, Ekey; reflexivity | | rewrite Ekey; exact Hk]. unfold presentable. rewrite E0, E1, E2, E3, E4. lia.
    - destruct Hred' as (E & C0 & C1 & C2 & C3 & C4). replace (hval st1 mod p1305) with (hval st2) by (rewrite E; apply Z.mod_unique with 1; unfold p1305 in *; lia).
      rewrite finish_mac_spec; [rewrite Ekey; reflexivity | split; [left; exact C0 | auto] | rewrite Ekey; exact Hk]. }
  assert (b = 1) as -> by lia. specialize (Hsmall eq_refl).
  destruct (Z.ltb_spec (hval st1) p1305) as [Hlt|Hge]; [|unfold p1305 in Hge; lia]. rewrite Z.mod_small by lia.
  destruct Hred' as (E0 & E1 & E2 & E3 & E4).
  assert (Eh : hval st2 = hval st1) by (unfold hval; rewrite E0, E1, E2, E3, E4; reflexivity).
  destruct (Z.odd (h1 st1)) eqn:Hodd.
  - split; [|intros _; apply carried_lost; [exact Hsmall | lia | exact Hodd]].
    set (st3 := set_h st2 (h0 st2 - 2 ^ 26) (h1 st2) (h2 st2) (h3 st2) (h4 st2)).
    assert (Em : finish_mac st2 = finish_mac st3).
    { unfold finish_mac at 1. rewrite E0, E1. replace (h0 st1) with (2 ^ 26 + (h0 st1 - 2 ^ 26)) by lia. rewrite overlap by (lia || exact Hodd).
      rewrite <- E0, <- E1. reflexivity. }
    rewrite Em, finish_mac_spec.
    + f_equal. change (Poly1305.key st3) with (Poly1305.key st2). rewrite Ekey, <- Eh. unfold hval, st3, limbs. cbn [h0 h1 h2 h3 h4 set_h]. lia.
    + unfold presentable, st3. cbn [h0 h1 h2 h3 h4 set_h]. rewrite E0, E1, E2, E3, E4. lia.
    + change (Poly1305.key st3) with (Poly1305.key st2). rewrite Ekey. exact Hk.
  - split; [|discriminate]. rewrite Z.sub_0_r, finish_mac_spec; [rewrite Eh, Ekey; reflexivity | | rewrite Ekey; exact Hk].
    unfold presentable. rewrite E0, E1, E2, E3, E4, Eh. split; [right|lia]. split; [lia|]. split; [|exact Hsmall].
    rewrite Zmod_odd, Hodd. reflexivity.
Qed.

(** *** Whole messages *)

Fixpoint updates (st : poly1305_state_st) (chunks : list (list byte)) : option poly1305_state_st :=
  match chunks with
  | [] => Some st
  | c :: chunks => match CRYPTO_poly1305_update st c with Some st => updates st chunks | None => None end
  end.

(** [CRYPTO_poly1305_init], any number of updates and [CRYPTO_poly1305_finish]. *)
Definition CRYPTO_poly1305 (b k : list byte) (chunks : list (list byte)) : option (list byte) :=
  match updates (CRYPTO_poly1305_init b k) chunks with
  | Some st => CRYPTO_poly1305_finish st
  | None => None
  end.

Lemma updates_hold k chunks : Forall (fun c => zlen c < 2 ^ 64) chunks -> forall st m, holds k st m ->
  exists st', updates st chunks = Some st' /\ holds k st' (m ++ concat chunks).
Proof.
  induction 1 as [|c chunks Hc _ IH]; intros st m Hst; cbn [updates concat].
  - exists st. rewrite app_nil_r. auto.
  - destruct (update_holds k st m c Hst Hc) as (st1 & -> & Hst1). destruct (IH st1 _ Hst1) as (st' & E & Hst'). exists st'.
    rewrite app_assoc. auto.
Qed.

Lemma finish_bare st : finish_mac (finish_reduce (finish_carry (bare st))) = finish_mac (finish_reduce (finish_carry st)).
Proof.
  assert (E1 : finish_carry (bare st) = bare (finish_carry st)).
  { destruct st as [x0 x1 x2 x3 x4 y1 y2 y3 y4 z0 z1 z2 z3 z4 bf n k]. cbv [finish_carry bare set_buf set_h r0 r1 r2 r3 r4 s1 s2 s3 s4 h0 h1 h2 h3 h4 buf buf_used Poly1305.key]. reflexivity. }
  rewrite E1. destruct (finish_carry st) as [x0 x1 x2 x3 x4 y1 y2 y3 y4 z0 z1 z2 z3 z4 bf n k].
  cbv [finish_reduce finish_mac bare set_buf set_h r0 r1 r2 r3 r4 s1 s2 s3 s4 h0 h1 h2 h3 h4 buf buf_used Poly1305.key]. reflexivity.
Qed.

(** The tag of a message in one piece. *)
Definition direct_tag (k m : list byte) : option (list byte) :=
  option_map (fun st => finish_mac (finish_reduce (finish_carry st))) (update_all (CRYPTO_poly1305_init [] k) m).

(** Whether the carry is lost for a message. *)
Definition carry_is_lost (k m : list byte) : bool :=
  match update_all (CRYPTO_poly1305_init [] k) m with Some st => loses_carry st | None => false end.

Lemma loses_bare st : loses_carry (bare st) = loses_carry st.
Proof.
  unfold loses_carry. destruct st as [x0 x1 x2 x3 x4 y1 y2 y3 y4 z0 z1 z2 z3 z4 bf n k].
  cbv [finish_carry bare set_buf set_h r0 r1 r2 r3 r4 s1 s2 s3 s4 h0 h1 h2 h3 h4 buf buf_used Poly1305.key]. reflexivity.
Qed.

Lemma poly1305_mac_value k m : le_combine (poly1305_mac k m) = (polynomial k m + le_combine (ztake 16 (zdrop 16 k))) mod 2 ^ 128.
Proof. unfold poly1305_mac. rewrite le_combine_split. reflexivity. Qed.

Lemma finish_holds k st m : holds k st m -> 32 <= zlen k ->
  exists tag, CRYPTO_poly1305_finish st = Some tag /\ direct_tag k m = Some tag /\
    (carry_is_lost k m = false -> tag = poly1305_mac k m) /\
    (carry_is_lost k m = true -> lost_carry (polynomial k m) /\ le_combine tag = (le_combine (poly1305_mac k m) - 2 ^ 26) mod 2 ^ 128).
Proof.
  intros (Hk & Hred & n & whole & rest & -> & Hw & Hr & Hu & Hb & Hh & Hd) Hlen. unfold CRYPTO_poly1305_finish.
  assert (Hlast : exists st1, (if buf_used st =? 0 then Some st else poly1305_update (update_fuel (buf st)) st (ztake (buf_used st) (buf st))) = Some st1 /\
    keyed k st1 /\ reduced st1 /\ hval st1 mod p1305 = polynomial k (whole ++ rest) /\ update_all st rest = Some st1).
  { change (polynomial k (whole ++ rest)) with (absorb_all k (whole ++ rest) 0). rewrite (absorb_all_app k n), <- Hh, Hu, Hb by exact Hw.
    destruct (Z.eqb_spec (zlen rest) 0) as [E|E].
    - exists st. assert (rest = []) as -> by (apply nil_length_inv; unfold zlen in E; lia). auto.
    - assert (El : (length rest <= length (buf st))%nat) by (pose proof (f_equal length Hb) as El; unfold ztake in El; rewrite length_take in El; lia).
      destruct (poly1305_update_run k (update_fuel (buf st)) st rest Hk Hred) as (st1 & E1 & K1 & K2 & K3); [unfold update_fuel; lia|].
      exists st1. split; [exact E1|]. split; [exact (keyed_rest _ _ _ K2 Hk)|]. split; [exact K1|]. split; [exact K3|].
      rewrite <- E1. apply update_fuel_irrelevant; unfold update_fuel; lia. }
  destruct Hlast as (st1 & -> & Hk1 & Hred1 & Hh1 & Hup). eexists. split; [reflexivity|].
  pose proof (direct_app n k _ _ _ _ Hw Hd Hup) as Hdir. unfold direct in Hdir.
  split; [unfold direct_tag; rewrite Hdir; cbn [option_map]; rewrite finish_bare; reflexivity|]. unfold carry_is_lost. rewrite Hdir, loses_bare.
  destruct Hk1 as (_ & _ & Ekey & _).
  assert (Ek16 : zlen (ztake 16 (zdrop 16 k)) = 16) by (rewrite zlen_ztake; [reflexivity | rewrite zlen_zdrop; lia]).
  destruct (finish_spec_gen st1 Hred1 ltac:(rewrite Ekey; lia)) as [-> Hl]. rewrite Hh1 in *.
  rewrite Ekey, (ztake_big 16 (ztake 16 _)) by lia.
  destruct (loses_carry st1); (split; intros Hc; [try discriminate Hc | try discriminate Hc]).
  - split; [exact (Hl eq_refl)|]. rewrite poly1305_mac_value, le_combine_split, Zminus_mod_idemp_l. change (Z.of_nat 16 * 8) with 128. f_equal. lia.
  - unfold poly1305_mac. f_equal. lia.
Qed.

Lemma finish_mac_holds k st m : holds k st m -> 32 <= zlen k ->
  exists tag, CRYPTO_poly1305_finish st = Some tag /\ direct_tag k m = Some tag /\ (~ lost_carry (polynomial k m) -> tag = poly1305_mac k m).
Proof.
  intros H Hk. destruct (finish_holds k st m H Hk) as (tag & E1 & E2 & H1 & H2). exists tag. split; [exact E1|]. split; [exact E2|].
  intros Hn. apply H1. destruct (carry_is_lost k m); [|reflexivity]. destruct (Hn (proj1 (H2 eq_refl))).
Qed.

Lemma init_holds b k : 32 <= zlen k -> zlen b = 16 -> holds k (CRYPTO_poly1305_init b k) [].
Proof.
  intros Hk Hb. destruct (init_spec b k Hk Hb) as (H1 & H2 & H3 & H4). split; [exact H1|]. split; [exact H2|].
  exists 0%nat, [], []. rewrite H3, H4. repeat split; reflexivity.
Qed.

(** C28: For every key, every message and every way of cutting it into updates,
    the portable Poly1305 yields a tag, the same for every way of cutting the
    message; and the tag is the one of RFC 8439 (the
    blocks with a one appended, as coefficients of a polynomial that is evaluated
    modulo 2^130 - 5 at the clamped half of the key, plus the other half), if the
    value of the polynomial is not below 2^32 with a remainder below 5 modulo
    2^27.  In particular no product, sum or carry overflows its 32 or 64 bits. *)
Theorem poly1305_computes_mac b k chunks : zlen k = 32 -> zlen b = 16 -> Forall (fun c => zlen c < 2 ^ 64) chunks ->
  exists tag, CRYPTO_poly1305 b k chunks = Some tag /\ direct_tag k (concat chunks) = Some tag /\
    (2 ^ 32 <= polynomial k (concat chunks) \/ 5 <= polynomial k (concat chunks) mod 2 ^ 27 -> tag = poly1305_mac k (concat chunks)).
Proof.
  intros Hk Hb Hc. destruct (updates_hold k chunks Hc _ _ (init_holds b k ltac:(lia) Hb)) as (st & E & Hst).
  unfold CRYPTO_poly1305. rewrite E. destruct (finish_mac_holds k st _ Hst ltac:(lia)) as (tag & Et & Hdir & Htag). exists tag. split; [exact Et|].
  split; [exact Hdir|]. intros Hv. cbn [app] in Htag. apply Htag. intros [H1 H2]. destruct Hv; lia.
Qed.

(** *** Examples *)

Definition bytes (l : list Z) : list byte := map b8 l.

(** The example of RFC 8439, section 2.5.2. *)
Definition rfc_key : list byte := bytes
  [0x85; 0xd6; 0xbe; 0x78; 0x57; 0x55; 0x6d; 0x33; 0x7f; 0x44; 0x52; 0xfe; 0x42; 0xd5; 0x06; 0xa8;
   0x01; 0x03; 0x80; 0x8a; 0xfb; 0x0d; 0xb2; 0xfd; 0x4a; 0xbf; 0xf6; 0xaf; 0x41; 0x49; 0xf5; 0x1b].
Definition rfc_message : list byte := bytes
  [0x43; 0x72; 0x79; 0x70; 0x74; 0x6f; 0x67; 0x72; 0x61; 0x70; 0x68; 0x69; 0x63; 0x20; 0x46; 0x6f; 0x72;
   0x75; 0x6d; 0x20; 0x52; 0x65; 0x73; 0x65; 0x61; 0x72; 0x63; 0x68; 0x20; 0x47; 0x72; 0x6f; 0x75; 0x70].
Definition rfc_tag : list byte := bytes
  [0xa8; 0x06; 0x1d; 0xc1; 0x30; 0x51; 0x36; 0xc6; 0xc2; 0x2b; 0x8b; 0xaf; 0x0c; 0x01; 0x27; 0xa9].

Example rfc_mac : poly1305_mac rfc_key rfc_message = rfc_tag.
Proof. vm_compute. reflexivity. Qed.

Lemma poly1305_computes_mac_witness :
  zlen rfc_key = 32 /\ zlen (zeros 16) = 16 /\ Forall (fun c => zlen c < 2 ^ 64) [ztake 5 rfc_message; zdrop 5 rfc_message] /\
  exists tag, CRYPTO_poly1305 (zeros 16) rfc_key [ztake 5 rfc_message; zdrop 5 rfc_message] = Some tag /\
    direct_tag rfc_key (concat [ztake 5 rfc_message; zdrop 5 rfc_message]) = Some tag /\
    (2 ^ 32 <= polynomial rfc_key (concat [ztake 5 rfc_message; zdrop 5 rfc_message]) \/
     5 <= polynomial rfc_key (concat [ztake 5 rfc_message; zdrop 5 rfc_message]) mod 2 ^ 27 ->
     tag = poly1305_mac rfc_key (concat [ztake 5 rfc_message; zdrop 5 rfc_message])).
Proof.
  split; [reflexivity|]. split; [reflexivity|]. split; [repeat constructor|].
  apply poly1305_computes_mac; [reflexivity | reflexivity | repeat constructor].
Defined.

(** A key and a message of one block whose polynomial has one of the values that
    are left out. *)
Definition unlucky_key : list byte := bytes
  [0x68; 0xb4; 0x09; 0x99; 0xae; 0x03; 0x43; 0x35; 0xf8; 0xcd; 0x81; 0x20; 0xb6; 0x7c; 0xe9; 0x9b;
   0x01; 0xfe; 0x6a; 0x38; 0xf3; 0x2f; 0x5d; 0x48; 0xd1; 0x7d; 0x16; 0x1b; 0xb6; 0x45; 0x12; 0xd5].
Definition unlucky_message : list byte := bytes
  [0x68; 0xf6; 0x3b; 0x79; 0x2f; 0xe2; 0x4d; 0x61; 0xbc; 0xc0; 0xaa; 0x92; 0xf7; 0xae; 0x02; 0x6c].

(** C38: The last carry of the reduction is added to the lowest limb and not
    carried on.  For every key, every message and every way of cutting it: if that
    carry overflows the lowest limb while the next limb is odd, the tag is less
    than the one of RFC 8439 by exactly 2^26, modulo 2^128, because ORing the limbs
    together loses the carry; in every other case the tag is the one of RFC 8439.
    The value of the polynomial is then below 2^32 with a remainder below 5 modulo
    2^27, and there are a key and a message for which it happens. *)
Theorem poly1305_wrong_tag :
  (forall b k chunks, zlen k = 32 -> zlen b = 16 -> Forall (fun c => zlen c < 2 ^ 64) chunks ->
    exists tag, CRYPTO_poly1305 b k chunks = Some tag /\
      (carry_is_lost k (concat chunks) = false -> tag = poly1305_mac k (concat chunks)) /\
      (carry_is_lost k (concat chunks) = true -> lost_carry (polynomial k (concat chunks)) /\
        le_combine tag = (le_combine (poly1305_mac k (concat chunks)) - 2 ^ 26) mod 2 ^ 128)) /\
  exists k m, zlen k = 32 /\ zlen m = 16 /\ carry_is_lost k m = true.
Proof.
  split.
  - intros b k chunks Hk Hb Hc. destruct (updates_hold k chunks Hc _ _ (init_holds b k ltac:(lia) Hb)) as (st & E & Hst).
    unfold CRYPTO_poly1305. rewrite E. destruct (finish_holds k st _ Hst ltac:(lia)) as (tag & Et & _ & H). exists tag. split; [exact Et | exact H].
  - exists unlucky_key, unlucky_message. split; [reflexivity|]. split; [reflexivity|]. vm_compute. reflexivity.
Qed.

Lemma poly1305_wrong_tag_witness : exists tag, CRYPTO_poly1305 (zeros 16) unlucky_key [ztake 7 unlucky_message; zdrop 7 unlucky_message] = Some tag /\
  le_combine tag = (le_combine (poly1305_mac unlucky_key unlucky_message) - 2 ^ 26) mod 2 ^ 128.
Proof.
  destruct (proj1 poly1305_wrong_tag (zeros 16) unlucky_key [ztake 7 unlucky_message; zdrop 7 unlucky_message]) as (tag & E & _ & H).
  - reflexivity.
  - reflexivity.
  - repeat constructor.
  - exists tag. split; [exact E|]. apply H. vm_compute. reflexivity.
Defined.
