(* ===== verification/ChaCha.v ===== *)
(** The ChaCha20 stream cipher in portable C (src/ios/Pods/BoringSSL-GRPC/src/
    crypto/chacha/chacha.c, without the assembly), and SipHash
    (siphash/siphash.c), which has the same shape. *)
From Stdlib Require Import ZArith Lia Bool.
From coqutil Require Import Byte Word.LittleEndianList.
From stdpp Require Import base list numbers.
From S2P Require Import Prelude.
Local Open Scope Z_scope.

Notation byte := Init.Byte.byte.

(** Words: CRYPTO_load_u32_le, CRYPTO_store_u32_le and the rotations of
    crypto/internal.h. *)
Definition CRYPTO_load_u32_le (in_ : list byte) : Z := le_combine (ztake 4 in_).
Definition CRYPTO_store_u32_le (v : Z) : list byte := le_split 4 v.
Definition CRYPTO_rotl_u32 (value shift : Z) : Z :=
  Z.lor (u32 (Z.shiftl value shift)) (Z.shiftr value (Z.land (- shift) 31)).
Definition CRYPTO_rotl_u64 (value shift : Z) : Z :=
  Z.lor (u64 (Z.shiftl value shift)) (Z.shiftr value (Z.land (- shift) 63)).

(** ** ChaCha20 *)

Definition sigma : list byte := map b8 [101; 120; 112; 97; 110; 100; 32; 51; 50; 45; 98; 121; 116; 101; 32; 107].

(** An array of words; every index is below its length. *)
Notation "x @ i" := (nth i x 0) (at level 15, left associativity).

Definition QUARTERROUND (a b c d : nat) (x : list Z) : list Z :=
  let x := <[a := u32 (x @ a + x @ b)]> x in
  let x := <[d := CRYPTO_rotl_u32 (Z.lxor (x @ d) (x @ a)) 16]> x in
  let x := <[c := u32 (x @ c + x @ d)]> x in
  let x := <[b := CRYPTO_rotl_u32 (Z.lxor (x @ b) (x @ c)) 12]> x in
  let x := <[a := u32 (x @ a + x @ b)]> x in
  let x := <[d := CRYPTO_rotl_u32 (Z.lxor (x @ d) (x @ a)) 8]> x in
  let x := <[c := u32 (x @ c + x @ d)]> x in
  <[b := CRYPTO_rotl_u32 (Z.lxor (x @ b) (x @ c)) 7]> x.

(** The body of the loop over the rounds, which it does two at a time. *)
Definition double_round (x : list Z) : list Z :=
  let x := QUARTERROUND 0 4 8 12 x in
  let x := QUARTERROUND 1 5 9 13 x in
  let x := QUARTERROUND 2 6 10 14 x in
  let x := QUARTERROUND 3 7 11 15 x in
  let x := QUARTERROUND 0 5 10 15 x in
  let x := QUARTERROUND 1 6 11 12 x in
  let x := QUARTERROUND 2 7 8 13 x in
  QUARTERROUND 3 4 9 14 x.

(** [memcpy] between bytes and arrays of [n] words. *)
Fixpoint load_words (n : nat) (bs : list byte) : list Z :=
  match n with O => [] | S n => CRYPTO_load_u32_le bs :: load_words n (zdrop 4 bs) end.
Definition store_words (ws : list Z) : list byte := flat_map CRYPTO_store_u32_le ws.

Definition CRYPTO_hchacha20 (key nonce : list byte) : list byte :=
  let x := load_words 4 sigma ++ load_words 8 key ++ load_words 4 nonce in
  let x := Nat.iter 10 double_round x in
  store_words (take 4 x) ++ store_words (take 4 (drop 12 x)).

Definition chacha_core (input : list Z) : list byte :=
  let x := Nat.iter 10 double_round input in
  store_words (zip_with (fun a b => u32 (a + b)) x input).

(** [input], with [counter] at index 12. *)
Definition chacha_input (key nonce : list byte) (counter : Z) : list Z :=
  load_words 4 sigma ++ load_words 8 key ++ counter :: load_words 3 nonce.

Definition xor_bytes (in_ buf : list byte) : list byte := zip_with (fun a b => b8 (Z.lxor (u8 a) (u8 b))) in_ buf.

(** The loop over the blocks; [in_] may be the output buffer as well, since each
    byte is read before it is written. *)
Fixpoint chacha_20_loop (fuel : nat) (key nonce : list byte) (counter : Z) (in_ : list byte) : option (list byte) :=
  match fuel with
  | O => None
  | S fuel =>
      if zlen in_ =? 0 then Some [] else
      let todo := if zlen in_ <? 64 then zlen in_ else 64 in
      let buf := chacha_core (chacha_input key nonce counter) in
      match chacha_20_loop fuel key nonce (u32 (counter + 1)) (zdrop todo in_) with
      | Some out => Some (xor_bytes (ztake todo in_) (ztake todo buf) ++ out)
      | None => None
      end
  end.

Definition CRYPTO_chacha_20 (in_ key nonce : list byte) (counter : Z) : option (list byte) :=
  chacha_20_loop (S (length in_)) key nonce counter in_.

(** ** SipHash *)

Definition siphash_round (v : list Z) : list Z :=
  let v := <[0%nat := u64 (v @ 0 + v @ 1)]> v in
  let v := <[2%nat := u64 (v @ 2 + v @ 3)]> v in
  let v := <[1%nat := CRYPTO_rotl_u64 (v @ 1) 13]> v in
  let v := <[3%nat := CRYPTO_rotl_u64 (v @ 3) 16]> v in
  let v := <[1%nat := Z.lxor (v @ 1) (v @ 0)]> v in
  let v := <[3%nat := Z.lxor (v @ 3) (v @ 2)]> v in
  let v := <[0%nat := CRYPTO_rotl_u64 (v @ 0) 32]> v in
  let v := <[2%nat := u64 (v @ 2 + v @ 1)]> v in
  let v := <[0%nat := u64 (v @ 0 + v @ 3)]> v in
  let v := <[1%nat := CRYPTO_rotl_u64 (v @ 1) 17]> v in
  let v := <[3%nat := CRYPTO_rotl_u64 (v @ 3) 21]> v in
  let v := <[1%nat := Z.lxor (v @ 1) (v @ 2)]> v in
  let v := <[3%nat := Z.lxor (v @ 3) (v @ 0)]> v in
  <[2%nat := CRYPTO_rotl_u64 (v @ 2) 32]> v.

(** One word of the message. *)
Definition siphash_word (v : list Z) (m : Z) : list Z :=
  let v := <[3%nat := Z.lxor (v @ 3) m]> v in
  let v := siphash_round (siphash_round v) in
  <[0%nat := Z.lxor (v @ 0) m]> v.

Fixpoint siphash_loop (fuel : nat) (v : list Z) (input : list byte) : option (list Z * list byte) :=
  match fuel with
  | O => None
  | S fuel =>
      if 8 <=? zlen input
      then siphash_loop fuel (siphash_word v (le_combine (ztake 8 input))) (zdrop 8 input)
      else Some (v, input)
  end.

Definition SIPHASH_24 (key0 key1 : Z) (input : list byte) : option Z :=
  let orig_input_len := zlen input in
  let v := [Z.lxor key0 0x736f6d6570736575; Z.lxor key1 0x646f72616e646f6d;
            Z.lxor key0 0x6c7967656e657261; Z.lxor key1 0x7465646279746573] in
  match siphash_loop (S (length input)) v input with
  | None => None
  | Some (v, input) =>
      let last_block := splice (splice (zeros 8) 0 input) 7 [b8 (Z.land orig_input_len 0xff)] in
      let v := siphash_word v (le_combine last_block) in
      let v := <[2%nat := Z.lxor (v @ 2) 0xff]> v in
      let v := siphash_round (siphash_round (siphash_round (siphash_round v))) in
      Some (Z.lxor (Z.lxor (Z.lxor (v @ 0) (v @ 1)) (v @ 2)) (v @ 3))
  end.
