(* ===== verification/ChaChaSpec.v ===== *)
(** ChaCha20 as RFC 8439 and SipHash-2-4 as its paper define them, and that the
    code computes them. *)
From Stdlib Require Import ZArith Lia Bool.
From coqutil Require Import Byte Word.LittleEndianList.
From stdpp Require Import base list numbers.
From S2P Require Import Prelude ChaCha.
Local Open Scope Z_scope.

(** ** The definitions *)

(** Rotation of a word of [w] bits. *)
Definition rotl (w n v : Z) : Z := (v * 2 ^ n) mod 2 ^ w + v / 2 ^ (w - n).

Definition quarter (q : Z * Z * Z * Z) : Z * Z * Z * Z :=
  let '(a, b, c, d) := q in
  let a := (a + b) mod 2 ^ 32 in let d := rotl 32 16 (Z.lxor d a) in
  let c := (c + d) mod 2 ^ 32 in let b := rotl 32 12 (Z.lxor b c) in
  let a := (a + b) mod 2 ^ 32 in let d := rotl 32 8 (Z.lxor d a) in
  let c := (c + d) mod 2 ^ 32 in let b := rotl 32 7 (Z.lxor b c) in
  (a, b, c, d).

(** The state as a matrix: its rows. *)
Notation matrix := (list Z * list Z * list Z * list Z)%type.

Fixpoint columns (r0 r1 r2 r3 : list Z) : matrix :=
  match r0, r1, r2, r3 with
  | a :: r0, b :: r1, c :: r2, d :: r3 =>
      let '(a, b, c, d) := quarter (a, b, c, d) in
      let '(r0, r1, r2, r3) := columns r0 r1 r2 r3 in (a :: r0, b :: r1, c :: r2, d :: r3)
  | _, _, _, _ => ([], [], [], [])
  end.
Definition turn (n : nat) (r : list Z) : list Z := drop n r ++ take n r.

Definition column_round (m : matrix) : matrix := let '(r0, r1, r2, r3) := m in columns r0 r1 r2 r3.
(** The diagonals are the columns of the matrix with its rows turned. *)
Definition diagonal_round (m : matrix) : matrix :=
  let '(r0, r1, r2, r3) := m in
  let '(r0, r1, r2, r3) := columns r0 (turn 1 r1) (turn 2 r2) (turn 3 r3) in
  (r0, turn 3 r1, turn 2 r2, turn 1 r3).
Definition rounds (m : matrix) : matrix := Nat.iter 10 (fun m => diagonal_round (column_round m)) m.

Definition rows (x : list Z) : matrix := (take 4 x, take 4 (drop 4 x), take 4 (drop 8 x), drop 12 x).
Definition flat (m : matrix) : list Z := let '(r0, r1, r2, r3) := m in r0 ++ r1 ++ r2 ++ r3.

(** A block of the key stream. *)
Definition chacha_block (key nonce : list byte) (counter : Z) : list byte :=
  let x := load_words 4 sigma ++ load_words 8 key ++ counter :: load_words 3 nonce in
  flat_map (le_split 4) (zip_with (fun a b => (a + b) mod 2 ^ 32) (flat (rounds (rows x))) x).

Fixpoint key_stream (blocks : nat) (key nonce : list byte) (counter : Z) : list byte :=
  match blocks with O => [] | S n => chacha_block key nonce counter ++ key_stream n key nonce ((counter + 1) mod 2 ^ 32) end.

(** ** Words *)

Notation word32 := (in_word 32).

Lemma rotl_ok w n v : 0 < n < w -> in_word w v -> Z.lor (wrap w (Z.shiftl v n)) (Z.shiftr v (w - n)) = rotl w n v.
Proof.
  intros Hn Hv. unfold in_word, wrap, rotl in *. rewrite Z.shiftl_mul_pow2, shiftr_div by lia.
  assert (E : (v * 2 ^ n) mod 2 ^ w = (v mod 2 ^ (w - n)) * 2 ^ n).
  { replace (2 ^ w) with (2 ^ (w - n) * 2 ^ n) by (rewrite <- Z.pow_add_r by lia; f_equal; lia).
    rewrite Z.mul_mod_distr_r; [reflexivity | apply Z.pow_nonzero; lia | apply Z.pow_nonzero; lia]. }
  rewrite E, <- (Z.shiftl_mul_pow2 _ n) by lia. rewrite lor_shiftl_add; [rewrite Z.shiftl_mul_pow2 by lia; reflexivity | lia|].
  split; [apply Z.div_pos; [lia | apply Z.pow_pos_nonneg; lia]|]. apply Z.div_lt_upper_bound; [apply Z.pow_pos_nonneg; lia|].
  rewrite <- Z.pow_add_r by lia. replace (w - n + n) with w by lia. lia.
Qed.

Lemma rotl_range w n v : 0 < n < w -> in_word w v -> in_word w (rotl w n v).
Proof.
  intros Hn Hv. unfold in_word, rotl in *. assert (E : 2 ^ w = 2 ^ (w - n) * 2 ^ n) by (rewrite <- Z.pow_add_r by lia; f_equal; lia).
  pose proof (Z.pow_pos_nonneg 2 n ltac:(lia) ltac:(lia)) as Hp. pose proof (Z.pow_pos_nonneg 2 (w - n) ltac:(lia) ltac:(lia)) as Hq.
  rewrite E. rewrite Z.mul_mod_distr_r by lia. pose proof (Z.mod_pos_bound v (2 ^ (w - n)) Hq) as Hm.
  assert (0 <= v / 2 ^ (w - n) < 2 ^ n) by (split; [apply Z.div_pos; lia | apply Z.div_lt_upper_bound; lia]). nia.
Qed.

Lemma rotl_u32_ok n v : 0 < n < 32 -> word32 v -> CRYPTO_rotl_u32 v n = rotl 32 n v.
Proof.
  intros Hn Hv. unfold CRYPTO_rotl_u32. change 31 with (2 ^ 5 - 1). rewrite land_ones_mod by lia.
  replace (- n mod 2 ^ 5) with (32 - n) by (apply Z.mod_unique with (-1); lia). apply rotl_ok; assumption.
Qed.

Lemma rotl_u64_ok n v : 0 < n < 64 -> in_word 64 v -> CRYPTO_rotl_u64 v n = rotl 64 n v.
Proof.
  intros Hn Hv. unfold CRYPTO_rotl_u64. change 63 with (2 ^ 6 - 1). rewrite land_ones_mod by lia.
  replace (- n mod 2 ^ 6) with (64 - n) by (apply Z.mod_unique with (-1); lia). apply rotl_ok; assumption.
Qed.

Lemma lxor_range w a b : 0 <= w -> in_word w a -> in_word w b -> in_word w (Z.lxor a b).
Proof.
  unfold in_word. intros Hw Ha Hb. assert (0 <= Z.lxor a b) by (apply Z.lxor_nonneg; lia). split; [assumption|].
  assert (E : Z.lxor a b mod 2 ^ w = Z.lxor a b).
  { apply Z.bits_inj'. intros i Hi. destruct (Z_lt_le_dec i w) as [Hlt|Hge]; [apply Z.mod_pow2_bits_low; exact Hlt|].
    rewrite Z.mod_pow2_bits_high by lia. rewrite Z.lxor_spec, <- (Z.mod_small a (2 ^ w)), <- (Z.mod_small b (2 ^ w)) by lia.
    rewrite !Z.mod_pow2_bits_high by lia. reflexivity. }
  rewrite <- E. apply Z.mod_pos_bound, Z.pow_pos_nonneg; lia.
Qed.

Lemma sum_range w a b : 0 <= w -> in_word w ((a + b) mod 2 ^ w).
Proof. intros Hw. apply Z.mod_pos_bound, Z.pow_pos_nonneg; lia. Qed.

Ltac in_word_step :=
  match goal with
  | |- in_word _ (Z.lxor _ _) => apply lxor_range; [lia | |]
  | |- in_word _ ((_ + _) mod _) => apply sum_range; lia
  | |- in_word _ (rotl _ _ _) => apply rotl_range; [lia|]
  end.

(** ** The rounds *)

Definition words4 (q : Z * Z * Z * Z) : Prop := let '(a, b, c, d) := q in word32 a /\ word32 b /\ word32 c /\ word32 d.

Lemma quarter_words q : words4 q -> words4 (quarter q).
Proof. destruct q as [[[a b] c] d]. intros (Ha & Hb & Hc & Hd). cbn [quarter words4]. refine (conj _ (conj _ (conj _ _))); repeat first [assumption | in_word_step]. Qed.

(** The macro, on the four words it changes. *)
Definition quarter_code (q : Z * Z * Z * Z) : Z * Z * Z * Z :=
  let '(a, b, c, d) := q in
  let a := u32 (a + b) in let d := CRYPTO_rotl_u32 (Z.lxor d a) 16 in
  let c := u32 (c + d) in let b := CRYPTO_rotl_u32 (Z.lxor b c) 12 in
  let a := u32 (a + b) in let d := CRYPTO_rotl_u32 (Z.lxor d a) 8 in
  let c := u32 (c + d) in let b := CRYPTO_rotl_u32 (Z.lxor b c) 7 in
  (a, b, c, d).

Lemma quarter_code_ok q : words4 q -> quarter_code q = quarter q.
Proof.
  destruct q as [[[a b] c] d]. intros (Ha & Hb & Hc & Hd). unfold quarter_code, quarter, wrap.
  rewrite !rotl_u32_ok by (try lia; repeat first [assumption | in_word_step]). reflexivity.
Qed.

(** The macro on an array changes the four words it names. *)
Section macro.
Context (x0 x1 x2 x3 x4 x5 x6 x7 x8 x9 x10 x11 x12 x13 x14 x15 : Z).
Notation array := [x0; x1; x2; x3; x4; x5; x6; x7; x8; x9; x10; x11; x12; x13; x14; x15].
Ltac by_steps := cbv [QUARTERROUND quarter_code insert list_insert nth]; reflexivity.

Lemma quarter_0 : QUARTERROUND 0 4 8 12 array =
  let '(a, b, c, d) := quarter_code (x0, x4, x8, x12) in [a; x1; x2; x3; b; x5; x6; x7; c; x9; x10; x11; d; x13; x14; x15].
Proof. by_steps. Qed.

Lemma quarter_1 : QUARTERROUND 1 5 9 13 array =
  let '(a, b, c, d) := quarter_code (x1, x5, x9, x13) in [x0; a; x2; x3; x4; b; x6; x7; x8; c; x10; x11; x12; d; x14; x15].
Proof. by_steps. Qed.

Lemma quarter_2 : QUARTERROUND 2 6 10 14 array =
  let '(a, b, c, d) := quarter_code (x2, x6, x10, x14) in [x0; x1; a; x3; x4; x5; b; x7; x8; x9; c; x11; x12; x13; d; x15].
Proof. by_steps. Qed.

Lemma quarter_3 : QUARTERROUND 3 7 11 15 array =
  let '(a, b, c, d) := quarter_code (x3, x7, x11, x15) in [x0; x1; x2; a; x4; x5; x6; b; x8; x9; x10; c; x12; x13; x14; d].
Proof. by_steps. Qed.

Lemma quarter_4 : QUARTERROUND 0 5 10 15 array =
  let '(a, b, c, d) := quarter_code (x0, x5, x10, x15) in [a; x1; x2; x3; x4; b; x6; x7; x8; x9; c; x11; x12; x13; x14; d].
Proof. by_steps. Qed.

Lemma quarter_5 : QUARTERROUND 1 6 11 12 array =
  let '(a, b, c, d) := quarter_code (x1, x6, x11, x12) in [x0; a; x2; x3; x4; x5; b; x7; x8; x9; x10; c; d; x13; x14; x15].
Proof. by_steps. Qed.

Lemma quarter_6 : QUARTERROUND 2 7 8 13 array =
  let '(a, b, c, d) := quarter_code (x2, x7, x8, x13) in [x0; x1; a; x3; x4; x5; x6; b; c; x9; x10; x11; x12; d; x14; x15].
Proof. by_steps. Qed.

Lemma quarter_7 : QUARTERROUND 3 4 9 14 array =
  let '(a, b, c, d) := quarter_code (x3, x4, x9, x14) in [x0; x1; x2; a; b; x5; x6; x7; x8; c; x10; x11; x12; x13; d; x15].
Proof. by_steps. Qed.
End macro.

Ltac quarter_step lem :=
  rewrite lem;
  match goal with |- context [quarter_code ?q] =>
    let Hw := fresh "Hw" in assert (Hw : words4 q) by (unfold words4; auto);
    rewrite (quarter_code_ok q Hw); apply quarter_words in Hw; destruct (quarter q) as [[[? ?] ?] ?] eqn:?; destruct Hw as (? & ? & ? & ?)
  end.

Lemma double_round_ok x : length x = 16%nat -> Forall word32 x ->
  rows (double_round x) = diagonal_round (column_round (rows x)) /\ length (double_round x) = 16%nat /\ Forall word32 (double_round x).
Proof.
  intros Hl Hx. do 16 (destruct x as [|? x]; [discriminate|]). destruct x; [|discriminate]. clear Hl.
  repeat (apply Forall_cons_iff in Hx; destruct Hx as [? Hx]). clear Hx.
  unfold double_round. cbv zeta.
  quarter_step quarter_0. quarter_step quarter_1. quarter_step quarter_2. quarter_step quarter_3.
  quarter_step quarter_4. quarter_step quarter_5. quarter_step quarter_6. quarter_step quarter_7.
  unfold rows, column_round, diagonal_round, turn. cbn [take drop app columns].
  repeat match goal with E : quarter _ = _ |- _ => rewrite E; clear E; cbn [columns take drop app] end.
  split; [reflexivity|]. split; [reflexivity|]. repeat (apply Forall_cons_iff; split; [assumption|]). constructor.
Qed.

Lemma all_rounds_ok n x : length x = 16%nat -> Forall word32 x ->
  rows (Nat.iter n double_round x) = Nat.iter n (fun m => diagonal_round (column_round m)) (rows x) /\
  length (Nat.iter n double_round x) = 16%nat /\ Forall word32 (Nat.iter n double_round x).
Proof.
  intros Hl Hx. induction n as [|n (E & Hn & Hw)]; [auto|]. cbn [Nat.iter nat_rect]. change (nat_rect _ ?a (fun _ => ?f) ?k) with (Nat.iter k f a) in *.
  destruct (double_round_ok _ Hn Hw) as (E' & H'). rewrite E', E. auto.
Qed.

Lemma flat_rows x : flat (rows x) = x.
Proof.
  unfold flat, rows. change 12%nat with (8 + 4)%nat. rewrite <- drop_drop, take_drop. change 8%nat with (4 + 4)%nat. rewrite <- drop_drop, take_drop, take_drop. reflexivity.
Qed.

(** ** Blocks *)

Lemma load_u32_range bs : word32 (CRYPTO_load_u32_le bs).
Proof.
  unfold CRYPTO_load_u32_le, in_word. pose proof (le_combine_bound (ztake 4 bs)) as Hb.
  assert (2 ^ (8 * Z.of_nat (length (ztake 4 bs))) <= 2 ^ 32); [|lia]. apply Z.pow_le_mono_r; [lia|]. unfold ztake. rewrite length_take. lia.
Qed.

Lemma load_words_ok n bs : length (load_words n bs) = n /\ Forall word32 (load_words n bs).
Proof.
  revert bs. induction n as [|n IH]; intros bs; [split; [reflexivity | constructor]|]. destruct (IH (zdrop 4 bs)) as [H1 H2].
  cbn [load_words length]. split; [rewrite H1; reflexivity|]. constructor; [apply load_u32_range | exact H2].
Qed.

Lemma chacha_input_ok key nonce counter : word32 counter -> length (chacha_input key nonce counter) = 16%nat /\ Forall word32 (chacha_input key nonce counter).
Proof.
  intros Hc. unfold chacha_input. destruct (load_words_ok 4 sigma) as [L1 W1], (load_words_ok 8 key) as [L2 W2], (load_words_ok 3 nonce) as [L3 W3]. split.
  - rewrite !length_app. cbn [length]. rewrite L1, L2, L3. reflexivity.
  - apply Forall_app. split; [exact W1|]. apply Forall_app. split; [exact W2 | constructor; assumption].
Qed.

Lemma chacha_core_ok key nonce counter : word32 counter -> chacha_core (chacha_input key nonce counter) = chacha_block key nonce counter.
Proof.
  intros Hc. destruct (chacha_input_ok key nonce counter Hc) as [Hl Hw]. destruct (all_rounds_ok 10 _ Hl Hw) as (E & _ & _).
  unfold chacha_core, chacha_block. fold (chacha_input key nonce counter). unfold rounds. rewrite <- E, flat_rows. reflexivity.
Qed.

(** The key that XChaCha20 derives: the first and the last row after the
    rounds, which nothing is added to. *)
Definition hchacha_key (key nonce : list byte) : list byte :=
  let '(r0, _, _, r3) := rounds (rows (load_words 4 sigma ++ load_words 8 key ++ load_words 4 nonce)) in
  flat_map (le_split 4) (r0 ++ r3).

Lemma hchacha20_ok key nonce : CRYPTO_hchacha20 key nonce = hchacha_key key nonce.
Proof.
  unfold CRYPTO_hchacha20, hchacha_key. set (x := load_words 4 sigma ++ load_words 8 key ++ load_words 4 nonce).
  assert (Hx : length x = 16%nat /\ Forall word32 x).
  { unfold x. destruct (load_words_ok 4 sigma) as [L1 W1], (load_words_ok 8 key) as [L2 W2], (load_words_ok 4 nonce) as [L3 W3].
    rewrite !length_app, L1, L2, L3. split; [reflexivity|]. apply Forall_app. split; [exact W1|]. apply Forall_app. auto. }
  destruct (all_rounds_ok 10 x (proj1 Hx) (proj2 Hx)) as (E & Hn & _). unfold rounds. rewrite <- E. cbv zeta. set (y := Nat.iter 10 double_round x) in *.
  unfold rows. rewrite (take_ge (drop 12 y)) by (rewrite length_drop, Hn; reflexivity). unfold store_words. rewrite flat_map_app. reflexivity.
Qed.

Lemma length_store n ws : length ws = n -> zlen (flat_map (le_split 4) ws) = 4 * Z.of_nat n.
Proof.
  intros <-. induction ws as [|w ws IH]; [reflexivity|]. cbn [flat_map]. rewrite zlen_app, IH. unfold zlen. rewrite length_le_split. cbn [length]. lia.
Qed.

Lemma chacha_block_zlen key nonce counter : word32 counter -> zlen (chacha_block key nonce counter) = 64.
Proof.
  intros Hc. destruct (chacha_input_ok key nonce counter Hc) as [Hl Hw]. unfold chacha_block. fold (chacha_input key nonce counter).
  rewrite (length_store 16); [reflexivity|]. rewrite length_zip_with, Hl. unfold rounds. destruct (all_rounds_ok 10 _ Hl Hw) as (E & Hn & _).
  rewrite <- E, flat_rows, Hn. reflexivity.
Qed.

Lemma next_word counter : word32 ((counter + 1) mod 2 ^ 32).
Proof. apply Z.mod_pos_bound. lia. Qed.

Lemma key_stream_zlen n key nonce : forall counter, word32 counter -> zlen (key_stream n key nonce counter) = 64 * Z.of_nat n.
Proof.
  induction n as [|n IH]; intros counter Hc; [reflexivity|]. cbn [key_stream]. rewrite zlen_app, chacha_block_zlen, IH by (apply next_word || exact Hc). lia.
Qed.

(** ** The cipher *)

Lemma xor_bytes_app a1 a2 b1 b2 : length a1 = length b1 -> xor_bytes (a1 ++ a2) (b1 ++ b2) = xor_bytes a1 b1 ++ xor_bytes a2 b2.
Proof. intros H. apply zip_with_app, H. Qed.

Lemma xor_bytes_prefix a : forall b, (length a <= length b)%nat -> xor_bytes a b = xor_bytes a (take (length a) b).
Proof. induction a as [|x a IH]; intros [|y b] H; cbn in *; try reflexivity; try lia. unfold xor_bytes in *. rewrite <- IH by lia. reflexivity. Qed.

Lemma xor_bytes_length a b : (length a <= length b)%nat -> length (xor_bytes a b) = length a.
Proof. intros H. unfold xor_bytes. rewrite length_zip_with. lia. Qed.

Lemma xor_bytes_twice a : forall b, (length a <= length b)%nat -> xor_bytes (xor_bytes a b) b = a.
Proof.
  induction a as [|x a IH]; intros [|y b] H; cbn in *; try reflexivity; try lia. unfold xor_bytes in *. rewrite IH by lia. f_equal.
  apply u8_inj. rewrite !u8_b8. assert (Hx : Z.lxor (u8 x) (u8 y) mod 256 = Z.lxor (u8 x) (u8 y)) by (apply Z.mod_small, (lxor_range 8); [lia | apply u8_range..]).
  rewrite Hx, Z.lxor_assoc, Z.lxor_nilpotent, Z.lxor_0_r. apply Z.mod_small, u8_range.
Qed.

Lemma ztake_length {B C} (a : list B) (l : list C) : ztake (zlen a) l = take (length a) l.
Proof. unfold ztake, zlen. rewrite Nat2Z.id. reflexivity. Qed.

#[local] Opaque chacha_block chacha_core.

Lemma chacha_20_loop_run key nonce fuel : forall blocks counter in_, word32 counter -> (length in_ < fuel)%nat -> zlen in_ <= 64 * Z.of_nat blocks ->
  chacha_20_loop fuel key nonce counter in_ = Some (xor_bytes in_ (key_stream blocks key nonce counter)).
Proof.
  induction fuel as [|fuel IH]; intros blocks counter in_ Hc Hfuel Hb; [lia|]. cbn [chacha_20_loop]. pose proof (zlen_nonneg in_) as H0.
  destruct (Z.eqb_spec (zlen in_) 0) as [E|E]; [destruct in_; [reflexivity | unfold zlen in E; cbn in E; lia]|].
  destruct blocks as [|blocks]; [lia|]. set (todo := if zlen in_ <? 64 then zlen in_ else 64).
  assert (Ht : 0 < todo <= zlen in_ /\ todo <= 64 /\ (todo = 64 \/ todo = zlen in_)) by (unfold todo; destruct (Z.ltb_spec (zlen in_) 64); lia).
  assert (Hdrop : zlen (zdrop todo in_) = zlen in_ - todo) by (apply zlen_zdrop; lia).
  rewrite (IH blocks (u32 (counter + 1)) (zdrop todo in_)); [|apply next_word | unfold zlen in *; lia | lia].
  rewrite chacha_core_ok by exact Hc. f_equal. cbn [key_stream]. pose proof (chacha_block_zlen key nonce counter Hc) as Hk. change (u32 (counter + 1)) with ((counter + 1) mod 2 ^ 32).
  rewrite <- (ztake_zdrop in_ todo) at 3. destruct (Z.eq_dec todo 64) as [E64|E64].
  - rewrite E64 in *. rewrite (ztake_all (chacha_block key nonce counter)) by (symmetry; exact Hk). symmetry. apply xor_bytes_app.
    pose proof (zlen_ztake in_ 64 ltac:(lia)) as Hz. unfold zlen in *. lia.
  - assert (todo = zlen in_) as Etodo by lia. rewrite Etodo. assert (zdrop (zlen in_) in_ = []) as -> by (apply nil_length_inv; unfold zlen in *; rewrite Etodo in Hdrop; lia).
    rewrite (ztake_all in_) by reflexivity. rewrite !app_nil_r. rewrite (xor_bytes_prefix in_ (_ ++ _)) by (rewrite length_app; unfold zlen in *; lia).
    rewrite take_app_le, ztake_length by (unfold zlen in *; lia). reflexivity.
Qed.

(** The blocks that [n] bytes need. *)
Definition blocks_for (n : Z) : nat := Z.to_nat ((n + 63) / 64).

Lemma blocks_for_enough n : 0 <= n -> n <= 64 * Z.of_nat (blocks_for n).
Proof. intros Hn. unfold blocks_for. rewrite Z2Nat.id by (apply Z.div_pos; lia). pose proof (Z.mul_succ_div_gt (n + 63) 64 ltac:(lia)). lia. Qed.

Lemma chacha_20_run in_ key nonce counter : word32 counter ->
  CRYPTO_chacha_20 in_ key nonce counter = Some (xor_bytes in_ (key_stream (blocks_for (zlen in_)) key nonce counter)).
Proof. intros Hc. apply chacha_20_loop_run; [exact Hc | lia | apply blocks_for_enough, zlen_nonneg]. Qed.

(** C27: [CRYPTO_chacha_20] is the ChaCha20 cipher of RFC 8439: for every input it
    ends with the input XORed with the key stream, whose blocks are ten column
    and diagonal rounds on the matrix of the constants, the key, the block
    counter and the nonce, added to that matrix; the counter wraps at 2^32.  A
    second run with the same key, nonce and counter restores the input. *)
Theorem chacha_20_rfc8439 in_ key nonce counter : 0 <= counter < 2 ^ 32 ->
  exists out, CRYPTO_chacha_20 in_ key nonce counter = Some out /\ out = xor_bytes in_ (key_stream (blocks_for (zlen in_)) key nonce counter) /\
    zlen out = zlen in_ /\ CRYPTO_chacha_20 out key nonce counter = Some in_.
Proof.
  intros Hc. eexists. split; [apply chacha_20_run, Hc|]. split; [reflexivity|].
  pose proof (key_stream_zlen (blocks_for (zlen in_)) key nonce counter Hc) as Hk. pose proof (blocks_for_enough (zlen in_) (zlen_nonneg _)) as Hb.
  assert (Hl : zlen (xor_bytes in_ (key_stream (blocks_for (zlen in_)) key nonce counter)) = zlen in_).
  { unfold zlen at 1. rewrite xor_bytes_length; [reflexivity | unfold zlen in *; lia]. }
  split; [exact Hl|]. rewrite chacha_20_run by exact Hc. rewrite Hl, xor_bytes_twice; [reflexivity | unfold zlen in *; lia].
Qed.
#[local] Transparent chacha_block chacha_core.

(** ** SipHash *)

Notation quad := (Z * Z * Z * Z)%type.

Definition sip_round (v : quad) : quad :=
  let '(v0, v1, v2, v3) := v in
  let v0 := (v0 + v1) mod 2 ^ 64 in let v1 := rotl 64 13 v1 in let v1 := Z.lxor v1 v0 in let v0 := rotl 64 32 v0 in
  let v2 := (v2 + v3) mod 2 ^ 64 in let v3 := rotl 64 16 v3 in let v3 := Z.lxor v3 v2 in
  let v0 := (v0 + v3) mod 2 ^ 64 in let v3 := rotl 64 21 v3 in let v3 := Z.lxor v3 v0 in
  let v2 := (v2 + v1) mod 2 ^ 64 in let v1 := rotl 64 17 v1 in let v1 := Z.lxor v1 v2 in let v2 := rotl 64 32 v2 in
  (v0, v1, v2, v3).

Definition sip_compress (v : quad) (m : Z) : quad :=
  let '(v0, v1, v2, v3) := v in
  let '(v0, v1, v2, v3) := sip_round (sip_round (v0, v1, v2, Z.lxor v3 m)) in (Z.lxor v0 m, v1, v2, v3).

(** Words of eight bytes. *)
Fixpoint words64 (n : nat) (m : list byte) : list Z :=
  match n with O => [] | S n => le_combine (ztake 8 m) :: words64 n (zdrop 8 m) end.
(** The message, zeros, and its length modulo 256 in the last byte. *)
Definition sip_padded (m : list byte) : list byte := m ++ zeros (7 - zlen m mod 8) ++ [b8 (zlen m)].

Definition siphash24 (k0 k1 : Z) (m : list byte) : Z :=
  let v := (Z.lxor k0 0x736f6d6570736575, Z.lxor k1 0x646f72616e646f6d, Z.lxor k0 0x6c7967656e657261, Z.lxor k1 0x7465646279746573) in
  let '(v0, v1, v2, v3) := fold_left sip_compress (words64 (Z.to_nat (zlen m / 8 + 1)) (sip_padded m)) v in
  let '(v0, v1, v2, v3) := sip_round (sip_round (sip_round (sip_round (v0, v1, Z.lxor v2 0xff, v3)))) in
  Z.lxor (Z.lxor (Z.lxor v0 v1) v2) v3.

Notation word64 := (in_word 64).
Definition words_ok (q : quad) : Prop := let '(a, b, c, d) := q in word64 a /\ word64 b /\ word64 c /\ word64 d.
Definition listed (q : quad) : list Z := let '(a, b, c, d) := q in [a; b; c; d].

Ltac four := refine (conj _ (conj _ (conj _ _))).
Ltac word64_auto := repeat first [assumption | in_word_step]; try lia.

(** The round as the code does it, on four words. *)
Definition sip_code (v : quad) : quad :=
  let '(v0, v1, v2, v3) := v in
  let v0 := u64 (v0 + v1) in let v2 := u64 (v2 + v3) in let v1 := CRYPTO_rotl_u64 v1 13 in let v3 := CRYPTO_rotl_u64 v3 16 in
  let v1 := Z.lxor v1 v0 in let v3 := Z.lxor v3 v2 in let v0 := CRYPTO_rotl_u64 v0 32 in
  let v2 := u64 (v2 + v1) in let v0 := u64 (v0 + v3) in let v1 := CRYPTO_rotl_u64 v1 17 in let v3 := CRYPTO_rotl_u64 v3 21 in
  let v1 := Z.lxor v1 v2 in let v3 := Z.lxor v3 v0 in let v2 := CRYPTO_rotl_u64 v2 32 in (v0, v1, v2, v3).

Lemma siphash_round_listed q : siphash_round (listed q) = listed (sip_code q).
Proof. destruct q as [[[v0 v1] v2] v3]. cbv [siphash_round sip_code listed insert list_insert nth]. reflexivity. Qed.

Lemma sip_code_ok q : words_ok q -> sip_code q = sip_round q /\ words_ok (sip_round q).
Proof.
  destruct q as [[[v0 v1] v2] v3]. intros (H0 & H1 & H2 & H3). split; [|cbn [sip_round words_ok]; four; word64_auto].
  unfold sip_code, sip_round, wrap. rewrite (rotl_u64_ok 13 v1), (rotl_u64_ok 16 v3) by (lia || assumption).
  rewrite !rotl_u64_ok by (try lia; word64_auto). reflexivity.
Qed.

Lemma siphash_round_ok q : words_ok q -> siphash_round (listed q) = listed (sip_round q) /\ words_ok (sip_round q).
Proof. intros Hq. destruct (sip_code_ok q Hq) as [E Hw]. rewrite siphash_round_listed, E. auto. Qed.

Lemma siphash_rounds_ok q : words_ok q ->
  siphash_round (siphash_round (siphash_round (siphash_round (listed q)))) = listed (sip_round (sip_round (sip_round (sip_round q)))).
Proof.
  intros Hq. destruct (siphash_round_ok q Hq) as [-> H1]. destruct (siphash_round_ok _ H1) as [-> H2].
  destruct (siphash_round_ok _ H2) as [-> H3]. apply siphash_round_ok, H3.
Qed.

Lemma siphash_word_ok q m : words_ok q -> word64 m -> siphash_word (listed q) m = listed (sip_compress q m) /\ words_ok (sip_compress q m).
Proof.
  destruct q as [[[v0 v1] v2] v3]. intros (H0 & H1 & H2 & H3) Hm. unfold siphash_word, sip_compress.
  change (<[3%nat := Z.lxor (listed (v0, v1, v2, v3) @ 3) m]> (listed (v0, v1, v2, v3))) with (listed (v0, v1, v2, Z.lxor v3 m)).
  destruct (siphash_round_ok (v0, v1, v2, Z.lxor v3 m)) as [-> Hw]; [four; word64_auto|].
  destruct (siphash_round_ok _ Hw) as [-> Hw']. revert Hw'. generalize (sip_round (sip_round (v0, v1, v2, Z.lxor v3 m))). intros r Hw'. destruct r as [[[a b] c] d]. destruct Hw' as (Ha & Hb & Hc & Hd).
  split; [reflexivity|]. four; word64_auto.
Qed.

Lemma le64_range bs : word64 (le_combine (ztake 8 bs)).
Proof.
  unfold in_word. pose proof (le_combine_bound (ztake 8 bs)) as Hb.
  assert (2 ^ (8 * Z.of_nat (length (ztake 8 bs))) <= 2 ^ 64); [|lia]. apply Z.pow_le_mono_r; [lia|]. unfold ztake. rewrite length_take. lia.
Qed.

Lemma siphash_loop_run fuel : forall q m, words_ok q -> (length m < fuel)%nat ->
  exists q', siphash_loop fuel (listed q) m = Some (listed q', zdrop (8 * (zlen m / 8)) m) /\
    q' = fold_left sip_compress (words64 (Z.to_nat (zlen m / 8)) m) q /\ words_ok q'.
Proof.
  induction fuel as [|fuel IH]; intros q m Hq Hfuel; [lia|]. cbn [siphash_loop]. pose proof (zlen_nonneg m). destruct (Z.leb_spec 8 (zlen m)) as [Hle|Hgt].
  - destruct (siphash_word_ok q _ Hq (le64_range m)) as [-> Hq']. destruct (IH _ (zdrop 8 m) Hq') as (q' & E & E' & Hw); [unfold zdrop; rewrite length_drop; unfold zlen in *; lia|].
    exists q'. rewrite E. rewrite zlen_zdrop in * by lia. replace (zlen m / 8) with ((zlen m - 8) / 8 + 1) by (rewrite <- (Z.div_add _ 1) by lia; f_equal; lia).
    pose proof (Z.div_pos (zlen m - 8) 8 ltac:(lia) ltac:(lia)) as Hp. rewrite Z2Nat.inj_add by lia. rewrite Nat.add_comm. cbn [Nat.add words64 fold_left]. split; [|auto].
    do 2 f_equal. unfold zdrop. rewrite drop_drop. f_equal. lia.
  - exists q. rewrite Z.div_small by lia. auto.
Qed.

Lemma words64_app n a b : zlen a = 8 * Z.of_nat n -> forall k, words64 (n + k) (a ++ b) = words64 n a ++ words64 k b.
Proof.
  revert a. induction n as [|n IH]; intros a Ha k; [destruct a; [reflexivity | unfold zlen in Ha; cbn in Ha; lia]|]. cbn [Nat.add words64 app].
  assert (E : a ++ b = ztake 8 a ++ (zdrop 8 a ++ b)) by (rewrite app_assoc, ztake_zdrop; reflexivity).
  rewrite E, ztake_app, zdrop_app by (rewrite zlen_ztake; lia). f_equal. apply IH. rewrite zlen_zdrop by lia. lia.
Qed.

Lemma words64_prefix n a : forall b, zlen a = 8 * Z.of_nat n -> words64 n (a ++ b) = words64 n a.
Proof. intros b Ha. pose proof (words64_app n a b Ha 0) as H. rewrite Nat.add_0_r in H. rewrite H. apply app_nil_r. Qed.

(** What the union holds is the last word of the padded message. *)
Lemma last_block_ok (rest : list byte) n : zlen rest < 8 -> splice (splice (zeros 8) 0 rest) 7 [b8 (Z.land n 0xff)] = rest ++ zeros (7 - zlen rest) ++ [b8 n].
Proof.
  intros Hr. pose proof (zlen_nonneg rest).
  assert (E8 : zeros 8 = zeros (zlen rest) ++ zeros (7 - zlen rest) ++ [Byte.x00]).
  { unfold zeros. change [Byte.x00] with (repeat Byte.x00 1). rewrite <- !repeat_app. f_equal. lia. }
  assert (E : splice (zeros 8) 0 rest = (rest ++ zeros (7 - zlen rest)) ++ [Byte.x00] ++ []).
  { rewrite E8, app_nil_r, <- app_assoc. apply (splice_app [] _ _ rest); [reflexivity | symmetry; apply zlen_zeros; lia]. }
  rewrite E, splice_app by (rewrite ?zlen_app, ?zlen_zeros by lia; cbn; unfold zlen in *; cbn; lia). rewrite app_nil_r, <- app_assoc. do 3 f_equal.
  apply b8_eq. change 0xff with (2 ^ 8 - 1). rewrite land_ones_mod by lia. change (2 ^ 8) with 256. apply Z.mod_mod. lia.
Qed.

Lemma sip_final_ok v0 v1 v2 v3 : words_ok (v0, v1, v2, v3) ->
  let v := <[2%nat := Z.lxor (listed (v0, v1, v2, v3) @ 2) 0xff]> (listed (v0, v1, v2, v3)) in
  let v := siphash_round (siphash_round (siphash_round (siphash_round v))) in
  Some (Z.lxor (Z.lxor (Z.lxor (v @ 0) (v @ 1)) (v @ 2)) (v @ 3)) =
  Some (let '(v0, v1, v2, v3) := sip_round (sip_round (sip_round (sip_round (v0, v1, Z.lxor v2 0xff, v3)))) in Z.lxor (Z.lxor (Z.lxor v0 v1) v2) v3).
Proof.
  intros (A0 & A1 & A2 & A3). assert (Hq : words_ok (v0, v1, Z.lxor v2 0xff, v3)) by (four; word64_auto; split; reflexivity || discriminate).
  cbv zeta. change (<[2%nat := _]> _) with (listed (v0, v1, Z.lxor v2 0xff, v3)). rewrite (siphash_rounds_ok _ Hq).
  generalize (sip_round (sip_round (sip_round (sip_round (v0, v1, Z.lxor v2 0xff, v3))))). intros [[[a b] c] d]. reflexivity.
Qed.

(** [SIPHASH_24] ends for every input with the SipHash-2-4 value: the words of
    the message, padded with zeros and its length modulo 256, are compressed with
    two rounds each, and four rounds finish. *)
Theorem siphash_24_exact k0 k1 m : 0 <= k0 < 2 ^ 64 -> 0 <= k1 < 2 ^ 64 -> SIPHASH_24 k0 k1 m = Some (siphash24 k0 k1 m).
Proof.
  intros H0 H1. unfold SIPHASH_24, siphash24. set (q0 := (_, _, _, _)).
  assert (Hq0 : words_ok q0) by (four; word64_auto; split; reflexivity || discriminate).
  change [_; _; _; _] with (listed q0). destruct (siphash_loop_run (S (length m)) q0 m Hq0) as (q1 & -> & E1 & Hq1); [lia|].
  pose proof (zlen_nonneg m). pose proof (Z.div_mod (zlen m) 8 ltac:(lia)) as Hdm. pose proof (Z.mod_pos_bound (zlen m) 8 ltac:(lia)) as Hmb.
  pose proof (Z.div_pos (zlen m) 8 ltac:(lia) ltac:(lia)) as Hdp. set (k := zlen m / 8) in *.
  pose proof (zlen_zdrop m (8 * k) ltac:(lia)) as Hz. rewrite last_block_ok by lia. set (last := zdrop (8 * k) m ++ _).
  assert (Elen : zlen last = 8) by (unfold last; rewrite !zlen_app, zlen_zeros by lia; change (zlen [b8 (zlen m)]) with 1; lia).
  assert (Epad : sip_padded m = ztake (8 * k) m ++ last).
  { unfold sip_padded, last. rewrite <- (ztake_zdrop m (8 * k)) at 1. rewrite <- app_assoc. do 4 f_equal. lia. }
  assert (Ek : zlen (ztake (8 * k) m) = 8 * Z.of_nat (Z.to_nat k)) by (rewrite zlen_ztake by lia; lia).
  rewrite Epad, Z2Nat.inj_add by lia. rewrite (words64_app _ _ _ Ek). rewrite <- (words64_prefix _ _ (zdrop (8 * k) m) Ek), ztake_zdrop, fold_left_app, <- E1.
  change (Z.to_nat 1) with 1%nat. cbn [words64 fold_left]. rewrite (ztake_all last) by (symmetry; exact Elen).
  assert (Hlast : word64 (le_combine last)) by (rewrite <- (ztake_all last 8) by (symmetry; exact Elen); apply le64_range).
  destruct (siphash_word_ok q1 _ Hq1 Hlast) as [-> Hq2]. destruct (sip_compress q1 (le_combine last)) as [[[v0 v1] v2] v3]. destruct Hq2 as (A0 & A1 & A2 & A3).
  apply sip_final_ok. four; assumption.
Qed.

(** ** Examples *)

(** The block of RFC 8439, section 2.3.2. *)
Definition example_key : list byte := map (fun i => b8 (Z.of_nat i)) (seq 0 32).
Definition example_nonce : list byte := map b8 [0; 0; 0; 9; 0; 0; 0; 74; 0; 0; 0; 0].

Example rfc8439_block : map u8 (take 16 (chacha_block example_key example_nonce 1)) =
  [0x10; 0xf1; 0xe7; 0xe4; 0xd1; 0x3b; 0x59; 0x15; 0x50; 0x0f; 0xdd; 0x1f; 0xa3; 0x20; 0x71; 0xc4].
Proof. vm_compute. reflexivity. Qed.

Lemma chacha_20_rfc8439_witness : 0 <= 2 ^ 32 - 1 < 2 ^ 32 /\
  exists out, CRYPTO_chacha_20 (zeros 100) example_key example_nonce (2 ^ 32 - 1) = Some out /\
    out = xor_bytes (zeros 100) (key_stream (blocks_for (zlen (zeros 100))) example_key example_nonce (2 ^ 32 - 1)) /\
    zlen out = zlen (zeros 100) /\ CRYPTO_chacha_20 out example_key example_nonce (2 ^ 32 - 1) = Some (zeros 100).
Proof. split; [lia|]. apply chacha_20_rfc8439. lia. Defined.

(** The example of the SipHash paper. *)
Example siphash_paper : SIPHASH_24 0x0706050403020100 0x0f0e0d0c0b0a0908 (map (fun i => b8 (Z.of_nat i)) (seq 0 15)) = Some 0xa129ca6149be45e5.
Proof. vm_compute. reflexivity. Qed.

Lemma siphash_24_exact_witness : 0 <= 1 < 2 ^ 64 /\ SIPHASH_24 1 2 (zeros 20) = Some (siphash24 1 2 (zeros 20)).
Proof. split; [lia|]. apply siphash_24_exact; lia. Defined.
