(* ===== verification/Aead.v ===== *)
(** Authenticated encryption: the generic layer over a method table
    (src/ios/Pods/BoringSSL-GRPC/src/crypto/fipsmodule/cipher/aead.c) and its
    instances ChaCha20-Poly1305 and XChaCha20-Poly1305 in portable C
    (cipher_extra/e_chacha20poly1305.c, where chacha20_poly1305_asm_capable
    is 0).  Inputs and outputs are addresses in one memory, since callers may
    pass the same buffer as both. *)
From Stdlib Require Import ZArith Lia Bool.
From coqutil Require Import Byte.
From stdpp Require Import base list numbers.
From S2P Require Import Prelude Alloc ConstTime Poly1305 ChaCha.
Local Open Scope Z_scope.
Local Open Scope c_scope.

(** ** Memory *)

(** The byte at an address; every object of the caller is within it. *)
Notation memory := (list byte) (only parsing).

Definition read (p n : Z) : M memory (list byte) :=
  m <- get ;;
  if n =? 0 then ret [] else
  if (0 <=? p) && (0 <=? n) && (p + n <=? zlen m) then ret (slice m p n) else stuck.
Definition write (p : Z) (bs : list byte) : M memory unit :=
  m <- get ;;
  if zlen bs =? 0 then ret tt else
  if (0 <=? p) && (p + zlen bs <=? zlen m) then put (splice m p bs) else stuck.

Definition must {S} (b : bool) : M S unit := if b then ret tt else stuck.

(** An argument that points into the memory or to a local array. *)
Inductive buffer : Type :=
  | at_address (p : Z)
  | local_array (bs : list byte).
Definition fetch (b : buffer) (n : Z) : M memory (list byte) :=
  match b with
  | at_address p => read p n
  | local_array bs => if n <=? zlen bs then ret (ztake n bs) else stuck
  end.

(** [CRYPTO_chacha_20] on addresses, with its assertion. *)
Definition chacha_20_at (out in_ in_len : Z) (key : list byte) (nonce : buffer) (counter : Z) : M memory unit :=
  must (negb (buffers_alias 64 out in_len in_ in_len) || (in_ =? out)) ;;
  n <- fetch nonce 12 ;;
  bs <- read in_ in_len ;;
  c <- known (CRYPTO_chacha_20 bs key n counter) ;;
  write out c.

Fixpoint memcmp_loop (a b : list byte) (x : Z) : Z :=
  match a, b with
  | a0 :: a, b0 :: b => memcmp_loop a b (Z.lor x (Z.lxor (u8 a0) (u8 b0)))
  | _, _ => x
  end.
(** The two arrays have the same length. *)
Definition CRYPTO_memcmp (a b : list byte) : Z := memcmp_loop a b 0.

(** ** The structures of the generic layer *)

Record EVP_AEAD_CTX := mk_ctx {
  aead : Z;
  state : list byte;
  tag_len : Z;
}.
Definition sizeof_EVP_AEAD_CTX : Z := 600.

Inductive evp_aead_direction_t := evp_aead_open | evp_aead_seal.

(** A method is [None] where the table has NULL.  Those that write one length
    return it. *)
Record EVP_AEAD := mk_aead {
  key_len : Z;
  nonce_len : Z;
  overhead : Z;
  max_tag_len : Z;
  seal_scatter_supports_extra_in : bool;
  init : option (list byte -> Z -> M EVP_AEAD_CTX unit);
  init_with_direction : option (list byte -> Z -> evp_aead_direction_t -> M EVP_AEAD_CTX unit);
  cleanup : M EVP_AEAD_CTX unit;
  open : option (EVP_AEAD_CTX -> forall (out max_out_len nonce nonce_len in_ in_len ad ad_len : Z), M memory Z);
  seal_scatter : EVP_AEAD_CTX -> forall (out out_tag max_out_tag_len nonce nonce_len in_ in_len extra_in extra_in_len ad ad_len : Z), M memory Z;
  open_gather : option (EVP_AEAD_CTX -> forall (out nonce nonce_len in_ in_len in_tag in_tag_len ad ad_len : Z), M memory unit);
  get_iv : option (EVP_AEAD_CTX -> option (list byte));
  tag_len_of : option (EVP_AEAD_CTX -> forall (in_len extra_in_len : Z), Z);
}.

(** ** ChaCha20-Poly1305 *)

Section chacha20_poly1305.
(** What the sixteen bytes of a local Poly1305 buffer hold at first. *)
Variable garbage : list byte.

Definition POLY1305_TAG_LEN : Z := 16.

(** The key is the first member of the state. *)
Definition c20_key (ctx : EVP_AEAD_CTX) : list byte := ztake 32 (state ctx).

(** The length of [key] is the key length. *)
Definition aead_chacha20_poly1305_init (key : list byte) (tl : Z) : M EVP_AEAD_CTX unit :=
  let tl := if tl =? 0 then POLY1305_TAG_LEN else tl in
  guard (negb (POLY1305_TAG_LEN <? tl)) ;;
  guard (zlen key =? 32) ;;
  ctx <- get ;;
  put (mk_ctx (aead ctx) (splice (state ctx) 0 key) (wrap 8 tl)).

Definition aead_chacha20_poly1305_cleanup : M EVP_AEAD_CTX unit := ret tt.

Fixpoint length_bytes (n : nat) (data_len : Z) : list byte :=
  match n with O => [] | S n => b8 data_len :: length_bytes n (Z.shiftr data_len 8) end.
Definition poly1305_update_length (poly1305 : poly1305_state_st) (data_len : Z) : option poly1305_state_st :=
  CRYPTO_poly1305_update poly1305 (length_bytes 8 data_len).

(** Zeros up to the next multiple of sixteen. *)
Definition update_padding (ctx : poly1305_state_st) (len : Z) : option poly1305_state_st :=
  if len mod 16 =? 0 then Some ctx else CRYPTO_poly1305_update ctx (zeros (16 - len mod 16)).

Definition calc_tag (key : list byte) (nonce : buffer) (ad ad_len ciphertext ciphertext_len ciphertext_extra ciphertext_extra_len : Z) : M memory (list byte) :=
  n <- fetch nonce 12 ;;
  poly1305_key <- known (CRYPTO_chacha_20 (zeros 32) key n 0) ;;
  let ctx := CRYPTO_poly1305_init garbage poly1305_key in
  bs <- read ad ad_len ;;
  ctx <- known (CRYPTO_poly1305_update ctx bs) ;;
  ctx <- known (update_padding ctx ad_len) ;;
  bs <- read ciphertext ciphertext_len ;;
  ctx <- known (CRYPTO_poly1305_update ctx bs) ;;
  bs <- read ciphertext_extra ciphertext_extra_len ;;
  ctx <- known (CRYPTO_poly1305_update ctx bs) ;;
  let ciphertext_total := u64 (ciphertext_len + ciphertext_extra_len) in
  ctx <- known (update_padding ctx ciphertext_total) ;;
  ctx <- known (poly1305_update_length ctx ad_len) ;;
  ctx <- known (poly1305_update_length ctx ciphertext_total) ;;
  known (CRYPTO_poly1305_finish ctx).

(** The loop over the bytes of a block, which returns [done]. *)
Fixpoint extra_bytes (fuel : nat) (block : list byte) (i done out_tag extra_in extra_in_len : Z) : M memory Z :=
  match fuel with
  | O => stuck
  | S fuel =>
      if (i <? 64) && (done <? extra_in_len)
      then
        bs <- read (extra_in + done) 1 ;;
        write (out_tag + done) [b8 (Z.lxor (u8 (znth bs 0)) (u8 (znth block i)))] ;;
        extra_bytes fuel block (i + 1) (done + 1) out_tag extra_in extra_in_len
      else ret done
  end.

(** The loop over the blocks. *)
Fixpoint extra_blocks (fuel : nat) (key : list byte) (nonce : buffer) (block_counter offset done out_tag extra_in extra_in_len : Z) : M memory unit :=
  match fuel with
  | O => stuck
  | S fuel =>
      if done <? extra_in_len
      then
        n <- fetch nonce 12 ;;
        block <- known (CRYPTO_chacha_20 (zeros 64) key n block_counter) ;;
        done <- extra_bytes 65 block offset done out_tag extra_in extra_in_len ;;
        extra_blocks fuel key nonce (u32 (block_counter + 1)) 0 done out_tag extra_in extra_in_len
      else ret tt
  end.

Definition seal_extra_in (key : list byte) (nonce : buffer) (in_len out_tag extra_in extra_in_len : Z) : M memory unit :=
  if extra_in_len =? 0 then ret tt else
  let block_counter := u32 (1 + in_len / 64) in
  let offset := in_len mod 64 in
  extra_blocks (S (Z.to_nat extra_in_len)) key nonce block_counter offset 0 out_tag extra_in extra_in_len.

Definition MAX_IN_LEN : Z := 2 ^ 32 * 64 - 64.

Definition chacha20_poly1305_seal_scatter (key : list byte) (out out_tag max_out_tag_len : Z) (nonce : buffer)
    (nonce_len in_ in_len extra_in extra_in_len ad ad_len tag_len : Z) : M memory Z :=
  guard (negb (u64 (extra_in_len + tag_len) <? tag_len)) ;;
  guard (negb (max_out_tag_len <? u64 (tag_len + extra_in_len))) ;;
  guard (nonce_len =? 12) ;;
  guard (negb (MAX_IN_LEN <=? in_len)) ;;
  guard (negb (max_out_tag_len <? tag_len)) ;;
  seal_extra_in key nonce in_len out_tag extra_in extra_in_len ;;
  chacha_20_at out in_ in_len key nonce 1 ;;
  tag <- calc_tag key nonce ad ad_len out in_len out_tag extra_in_len ;;
  write (out_tag + extra_in_len) (ztake tag_len tag) ;;
  ret (u64 (extra_in_len + tag_len)).

Definition aead_chacha20_poly1305_seal_scatter (ctx : EVP_AEAD_CTX)
    (out out_tag max_out_tag_len nonce nonce_len in_ in_len extra_in extra_in_len ad ad_len : Z) : M memory Z :=
  chacha20_poly1305_seal_scatter (c20_key ctx) out out_tag max_out_tag_len (at_address nonce) nonce_len
    in_ in_len extra_in extra_in_len ad ad_len (tag_len ctx).

(** The key and nonce that XChaCha20 derives: [CRYPTO_hchacha20] of the key and
    sixteen bytes of the nonce, and four zeros before the other eight. *)
Definition derive (key : list byte) (nonce : Z) : M memory (list byte * list byte) :=
  n <- read nonce 16 ;;
  n' <- read (nonce + 16) 8 ;;
  ret (CRYPTO_hchacha20 key n, zeros 4 ++ n').

Definition aead_xchacha20_poly1305_seal_scatter (ctx : EVP_AEAD_CTX)
    (out out_tag max_out_tag_len nonce nonce_len in_ in_len extra_in extra_in_len ad ad_len : Z) : M memory Z :=
  guard (nonce_len =? 24) ;;
  ' (derived_key, derived_nonce) <- derive (c20_key ctx) nonce ;;
  chacha20_poly1305_seal_scatter derived_key out out_tag max_out_tag_len (local_array derived_nonce) 12
    in_ in_len extra_in extra_in_len ad ad_len (tag_len ctx).

Definition chacha20_poly1305_open_gather (key : list byte) (out : Z) (nonce : buffer)
    (nonce_len in_ in_len in_tag in_tag_len ad ad_len tag_len : Z) : M memory unit :=
  guard (nonce_len =? 12) ;;
  guard (in_tag_len =? tag_len) ;;
  guard (negb (MAX_IN_LEN <=? in_len)) ;;
  tag <- calc_tag key nonce ad ad_len in_ in_len 0 0 ;;
  chacha_20_at out in_ in_len key nonce 1 ;;
  given <- read in_tag tag_len ;;
  guard (CRYPTO_memcmp (ztake tag_len tag) given =? 0).

Definition aead_chacha20_poly1305_open_gather (ctx : EVP_AEAD_CTX)
    (out nonce nonce_len in_ in_len in_tag in_tag_len ad ad_len : Z) : M memory unit :=
  chacha20_poly1305_open_gather (c20_key ctx) out (at_address nonce) nonce_len in_ in_len in_tag in_tag_len ad ad_len (tag_len ctx).

Definition aead_xchacha20_poly1305_open_gather (ctx : EVP_AEAD_CTX)
    (out nonce nonce_len in_ in_len in_tag in_tag_len ad ad_len : Z) : M memory unit :=
  guard (nonce_len =? 24) ;;
  ' (derived_key, derived_nonce) <- derive (c20_key ctx) nonce ;;
  chacha20_poly1305_open_gather derived_key out (local_array derived_nonce) 12 in_ in_len in_tag in_tag_len ad ad_len (tag_len ctx).

Definition aead_chacha20_poly1305 : EVP_AEAD :=
  mk_aead 32 12 POLY1305_TAG_LEN POLY1305_TAG_LEN true
    (Some aead_chacha20_poly1305_init) None aead_chacha20_poly1305_cleanup None
    aead_chacha20_poly1305_seal_scatter (Some aead_chacha20_poly1305_open_gather) None None.

Definition aead_xchacha20_poly1305 : EVP_AEAD :=
  mk_aead 32 24 POLY1305_TAG_LEN POLY1305_TAG_LEN true
    (Some aead_chacha20_poly1305_init) None aead_chacha20_poly1305_cleanup None
    aead_xchacha20_poly1305_seal_scatter (Some aead_xchacha20_poly1305_open_gather) None None.
End chacha20_poly1305.

(** ** The generic layer *)

Section evp.
(** The constant objects that [aead] pointers refer to; NULL is 0. *)
Variable methods : Z -> option EVP_AEAD.

Definition EVP_AEAD_key_length (a : EVP_AEAD) : Z := key_len a.
Definition EVP_AEAD_nonce_length (a : EVP_AEAD) : Z := nonce_len a.
Definition EVP_AEAD_max_overhead (a : EVP_AEAD) : Z := overhead a.
Definition EVP_AEAD_max_tag_len (a : EVP_AEAD) : Z := max_tag_len a.

Definition set_aead (p : Z) : M EVP_AEAD_CTX unit := ctx <- get ;; put (mk_ctx p (state ctx) (tag_len ctx)).

Definition EVP_AEAD_CTX_zero : M EVP_AEAD_CTX unit := put (mk_ctx 0 (zeros 580) 0).

(** [if (!m) { ctx->aead = NULL; return 0; }] *)
Definition or_unset (m : M EVP_AEAD_CTX unit) : M EVP_AEAD_CTX unit := fun ctx =>
  match m ctx with
  | (Fail, ctx1) => (set_aead 0 ;; fail) ctx1
  | r => r
  end.

Definition EVP_AEAD_CTX_init_with_direction (p : Z) (key : list byte) (tl : Z) (dir : evp_aead_direction_t) : M EVP_AEAD_CTX unit :=
  a <- known (methods p) ;;
  or_unset (guard (zlen key =? key_len a)) ;;
  set_aead p ;;
  or_unset
    match init a with
    | Some init => init key tl
    | None => init <- known (init_with_direction a) ;; init key tl dir
    end.

Definition EVP_AEAD_CTX_init (p : Z) (key : list byte) (tl : Z) : M EVP_AEAD_CTX unit :=
  a <- known (methods p) ;;
  or_unset (guard (match init a with Some _ => true | None => false end)) ;;
  EVP_AEAD_CTX_init_with_direction p key tl evp_aead_open.

Definition EVP_AEAD_CTX_cleanup : M EVP_AEAD_CTX unit :=
  ctx <- get ;;
  if aead ctx =? 0 then ret tt else
  a <- known (methods (aead ctx)) ;;
  cleanup a ;;
  set_aead 0.

Definition EVP_AEAD_CTX_free {A} {AL : Allocator A} (ctx : EVP_AEAD_CTX) : M A unit := fun al =>
  match EVP_AEAD_CTX_cleanup ctx with
  | (Ok _, _) => (Ok tt, OPENSSL_free al sizeof_EVP_AEAD_CTX)
  | (r, _) => (r, al)
  end.

(** The context is written without a test for NULL. *)
Definition EVP_AEAD_CTX_new {A} {AL : Allocator A} (p : Z) (key : list byte) (tl : Z) : M A (option EVP_AEAD_CTX) := fun al =>
  match OPENSSL_malloc al sizeof_EVP_AEAD_CTX with
  | (None, al) => (Stuck, al)
  | (Some _, al) =>
      match EVP_AEAD_CTX_init p key tl (mk_ctx 0 (zeros 580) 0) with
      | (Ok _, ctx) => (Ok (Some ctx), al)
      | (Fail, ctx) => (EVP_AEAD_CTX_free ctx ;; ret None) al
      | (Stuck, _) => (Stuck, al)
      end
  end.

Definition check_alias (in_ in_len out out_len : Z) : bool :=
  if negb (buffers_alias 64 in_ in_len out out_len) then true else in_ =? out.

(** [error:] clears the output; the length of the output is 0 then. *)
Definition or_clear (m : M memory Z) (clear : M memory unit) : M memory (bool * Z) := fun s =>
  match m s with
  | (Ok n, s1) => (Ok (true, n), s1)
  | (Fail, s1) => (clear ;; ret (false, 0)) s1
  | (Stuck, s1) => (Stuck, s1)
  end.

Definition EVP_AEAD_CTX_seal (ctx : EVP_AEAD_CTX) (out max_out_len nonce nonce_len in_ in_len ad ad_len : Z) : M memory (bool * Z) :=
  a <- known (methods (aead ctx)) ;;
  or_clear
    (guard (negb (u64 (in_len + overhead a) <? in_len)) ;;
     guard (negb (max_out_len <? in_len)) ;;
     guard (check_alias in_ in_len out max_out_len) ;;
     out_tag_len <- seal_scatter a ctx out (out + in_len) (max_out_len - in_len) nonce nonce_len in_ in_len 0 0 ad ad_len ;;
     ret (u64 (in_len + out_tag_len)))
    (write out (zeros max_out_len)).

Definition EVP_AEAD_CTX_seal_scatter (ctx : EVP_AEAD_CTX)
    (out out_tag max_out_tag_len nonce nonce_len in_ in_len extra_in extra_in_len ad ad_len : Z) : M memory (bool * Z) :=
  a <- known (methods (aead ctx)) ;;
  or_clear
    (guard (negb (negb (check_alias in_ in_len out in_len) ||
                  buffers_alias 64 out in_len out_tag max_out_tag_len ||
                  buffers_alias 64 in_ in_len out_tag max_out_tag_len)) ;;
     guard (negb (negb (seal_scatter_supports_extra_in a) && negb (extra_in_len =? 0))) ;;
     seal_scatter a ctx out out_tag max_out_tag_len nonce nonce_len in_ in_len extra_in extra_in_len ad ad_len)
    (write out (zeros in_len) ;; write out_tag (zeros max_out_tag_len)).

(** It has no length to return; that it writes is [in_len]. *)
Definition EVP_AEAD_CTX_open_gather (ctx : EVP_AEAD_CTX)
    (out nonce nonce_len in_ in_len in_tag in_tag_len ad ad_len : Z) : M memory bool :=
  a <- known (methods (aead ctx)) ;;
  ' (ok, _) <- or_clear
    (guard (check_alias in_ in_len out in_len) ;;
     match open_gather a with
     | None => fail
     | Some open_gather => open_gather ctx out nonce nonce_len in_ in_len in_tag in_tag_len ad ad_len
     end ;;
     ret in_len)
    (write out (zeros in_len)) ;;
  ret ok.

Definition EVP_AEAD_CTX_open (ctx : EVP_AEAD_CTX) (out max_out_len nonce nonce_len in_ in_len ad ad_len : Z) : M memory (bool * Z) :=
  a <- known (methods (aead ctx)) ;;
  or_clear
    (guard (check_alias in_ in_len out max_out_len) ;;
     match open a with
     | Some open => open ctx out max_out_len nonce nonce_len in_ in_len ad ad_len
     | None =>
         must (negb (tag_len ctx =? 0)) ;;
         guard (negb (in_len <? tag_len ctx)) ;;
         let plaintext_len := in_len - tag_len ctx in
         guard (negb (max_out_len <? plaintext_len)) ;;
         ok <- EVP_AEAD_CTX_open_gather ctx out nonce nonce_len in_ plaintext_len (in_ + plaintext_len) (tag_len ctx) ad ad_len ;;
         guard ok ;;
         ret plaintext_len
     end)
    (write out (zeros max_out_len)).

Definition EVP_AEAD_CTX_aead (ctx : EVP_AEAD_CTX) : Z := aead ctx.

Definition EVP_AEAD_CTX_get_iv (ctx : EVP_AEAD_CTX) : option (list byte) :=
  match methods (aead ctx) with
  | Some a => match get_iv a with Some get_iv => get_iv ctx | None => None end
  | None => None
  end.

(** The status and [*out_tag_len]. *)
Definition EVP_AEAD_CTX_tag_len (ctx : EVP_AEAD_CTX) (in_len extra_in_len : Z) : M unit (bool * Z) :=
  a <- known (methods (aead ctx)) ;;
  must (seal_scatter_supports_extra_in a || (extra_in_len =? 0)) ;;
  match tag_len_of a with
  | Some f => ret (true, f ctx in_len extra_in_len)
  | None =>
      if u64 (extra_in_len + tag_len ctx) <? extra_in_len then ret (false, 0)
      else ret (true, u64 (extra_in_len + tag_len ctx))
  end.
End evp.

(** The two constant objects, at the addresses that [EVP_aead_chacha20_poly1305]
    and [EVP_aead_xchacha20_poly1305] return. *)
Definition EVP_aead_chacha20_poly1305 : Z := 1.
Definition EVP_aead_xchacha20_poly1305 : Z := 2.
Definition const_aeads (garbage : list byte) (p : Z) : option EVP_AEAD :=
  if p =? EVP_aead_chacha20_poly1305 then Some (aead_chacha20_poly1305 garbage) else
  if p =? EVP_aead_xchacha20_poly1305 then Some (aead_xchacha20_poly1305 garbage) else None.
