(* ===== verification/AeadSpec.v ===== *)
(** Authenticated encryption is what RFC 8439 defines: sealing writes the text
    XORed with the ChaCha20 key stream and the Poly1305 tag of the associated
    data and the ciphertext, opening accepts exactly that tag, and what an error
    leaves in the output is zeros.  The generic layer is proved against the
    class [Implements], with ChaCha20-Poly1305 and XChaCha20-Poly1305 as its
    instances. *)
From Stdlib Require Import ZArith Lia Bool.
From coqutil Require Import Byte Word.LittleEndianList.
From stdpp Require Import base list numbers.
From S2P Require Import Prelude Alloc ConstTime Poly1305 Poly1305Spec ChaCha ChaChaSpec Aead.
Local Open Scope Z_scope.
Local Open Scope c_scope.

#[local] Opaque chacha_block chacha_core hchacha_key.

(** ** Memory *)

(** The bytes [bs] are at [p]. *)
Definition stored (m : memory) (p : Z) (bs : list byte) : Prop :=
  0 <= p /\ p + zlen bs <= zlen m /\ slice m p (zlen bs) = bs.
Definition apart (p n q k : Z) : Prop := p + n <= q \/ q + k <= p.

Lemma read_stored m p bs n : stored m p bs -> n = zlen bs -> read p n m = (Ok bs, m).
Proof.
  intros (H1 & H2 & H3) ->. unfold read. rewrite bind_get. pose proof (zlen_nonneg bs).
  destruct (Z.eqb_spec (zlen bs) 0) as [E|E]; [rewrite (nil_of_zlen bs E); reflexivity|].
  rewrite (proj2 (Z.leb_le 0 p)), (proj2 (Z.leb_le 0 (zlen bs))), (proj2 (Z.leb_le (p + zlen bs) (zlen m))) by lia. cbn [andb].
  rewrite H3. reflexivity.
Qed.

Lemma write_run m p bs : 0 <= p -> p + zlen bs <= zlen m -> write p bs m = (Ok tt, splice m p bs).
Proof.
  intros H1 H2. unfold write. rewrite bind_get. pose proof (zlen_nonneg bs).
  destruct (Z.eqb_spec (zlen bs) 0) as [E|E]; [rewrite (nil_of_zlen bs E), splice_nil by lia; reflexivity|].
  rewrite (proj2 (Z.leb_le 0 p)), (proj2 (Z.leb_le (p + zlen bs) (zlen m))) by lia. reflexivity.
Qed.

Lemma write_inv m p bs m' : write p bs m = (Ok tt, m') -> zlen bs = 0 /\ m' = m \/ 0 <= p /\ p + zlen bs <= zlen m /\ m' = splice m p bs.
Proof.
  unfold write. rewrite bind_get. destruct (Z.eqb_spec (zlen bs) 0); [intros [= <-]; auto|].
  destruct (_ && _) eqn:E; [|discriminate]. apply andb_true_iff in E as [E1 E2]. apply Z.leb_le in E1, E2. intros [= <-]. auto.
Qed.

Lemma stored_slice m p n : 0 <= p -> 0 <= n -> p + n <= zlen m -> stored m p (slice m p n).
Proof. intros H1 H2 H3. unfold stored. rewrite zlen_slice by lia. auto. Qed.

Lemma stored_splice_same m p bs : 0 <= p -> p + zlen bs <= zlen m -> stored (splice m p bs) p bs.
Proof. intros H1 H2. split; [exact H1|]. rewrite zlen_splice by lia. split; [exact H2|]. apply slice_splice_same; lia. Qed.

Lemma stored_splice m p bs q new : stored m p bs -> 0 <= q -> q + zlen new <= zlen m -> apart p (zlen bs) q (zlen new) ->
  stored (splice m q new) p bs.
Proof.
  intros (H1 & H2 & H3) Hq1 Hq2 Ha. split; [exact H1|]. rewrite zlen_splice by lia. split; [exact H2|].
  pose proof (zlen_nonneg bs). rewrite slice_splice_other by (assumption || lia). exact H3.
Qed.

Lemma stored_two m p a b : stored m p (a ++ b) <-> stored m p a /\ stored m (p + zlen a) b.
Proof.
  unfold stored. rewrite zlen_app. pose proof (zlen_nonneg a). pose proof (zlen_nonneg b). split.
  - intros (H1 & H2 & H3).
    assert (Ea : slice m p (zlen a) = a).
    { rewrite <- (Z.add_0_r p), <- (slice_slice m p (zlen a + zlen b) 0 (zlen a)) by lia. rewrite H3. unfold slice, zdrop. cbn. apply ztake_app. reflexivity. }
    assert (Eb : slice m (p + zlen a) (zlen b) = b).
    { rewrite <- (slice_slice m p (zlen a + zlen b) (zlen a) (zlen b)) by lia. rewrite H3. unfold slice. rewrite zdrop_app by reflexivity. apply ztake_all. reflexivity. }
    repeat split; try lia; assumption.
  - intros [(H1 & H2 & H3) (H4 & H5 & H6)]. repeat split; try lia. rewrite <- H3 at 2. rewrite <- H6 at 2.
    unfold slice, ztake, zdrop. rewrite !Z2Nat.inj_add, <- drop_drop by lia. symmetry. apply take_take_drop.
Qed.

Lemma splice_over (m : memory) p a b : 0 <= p -> zlen a = zlen b -> p + zlen b <= zlen m -> splice (splice m p a) p b = splice m p b.
Proof.
  intros H1 H2 H3. apply list_eq. intros i. rewrite !splice_lookup by (rewrite ?zlen_splice by lia; lia).
  repeat destruct (decide _); try lia; reflexivity.
Qed.

Lemma splice_comm (m : memory) p a q b : 0 <= p -> p + zlen a <= zlen m -> 0 <= q -> q + zlen b <= zlen m -> apart p (zlen a) q (zlen b) ->
  splice (splice m p a) q b = splice (splice m q b) p a.
Proof.
  intros H1 H2 H3 H4 Ha. apply list_eq. intros i. rewrite !splice_lookup by (rewrite ?zlen_splice by lia; lia).
  unfold apart in Ha. repeat destruct (decide _); try lia; reflexivity.
Qed.

(** [buffers_alias] on objects that are apart. *)
Lemma not_alias p n q k : 0 <= p -> 0 <= q -> 0 <= n -> 0 <= k -> p + n < 2 ^ 64 -> q + k < 2 ^ 64 ->
  apart p n q k -> buffers_alias 64 p n q k = false.
Proof.
  intros H1 H2 H3 H4 H5 H6 Ha. unfold buffers_alias. rewrite !wrap_small by (split; lia). apply andb_false_iff.
  rewrite !Z.ltb_ge. unfold apart in Ha. lia.
Qed.

Lemma check_alias_ok (m : memory) p n q k : zlen m < 2 ^ 64 -> 0 <= p -> 0 <= q -> 0 <= n -> 0 <= k -> p + n <= zlen m -> q + k <= zlen m ->
  p = q \/ apart p n q k -> check_alias p n q k = true.
Proof.
  intros Hm H1 H2 H3 H4 H5 H6 [->|Ha]; unfold check_alias.
  - rewrite Z.eqb_refl. destruct (negb _); reflexivity.
  - rewrite not_alias by (try lia; exact Ha). reflexivity.
Qed.

(** ** What RFC 8439 defines *)

Definition pad16 (n : Z) : list byte := if n mod 16 =? 0 then [] else zeros (16 - n mod 16).
Definition mac_data (a c : list byte) : list byte :=
  a ++ pad16 (zlen a) ++ c ++ pad16 (zlen c) ++ le_split 8 (zlen a) ++ le_split 8 (zlen c).
Definition one_time_key (key n : list byte) : list byte := ztake 32 (chacha_block key n 0).
(** The text XORed with the blocks of the key stream from counter 1 on. *)
Definition crypt (key n text : list byte) : list byte := xor_bytes text (key_stream (blocks_for (zlen text)) key n 1).

(** ** The key stream and the extra input *)

Lemma apart_swap p n q k : apart p n q k -> apart q k p n.
Proof. unfold apart. lia. Qed.

Lemma xor_bytes_zeros n : forall b, n <= zlen b -> xor_bytes (zeros n) b = ztake n b.
Proof.
  unfold zeros, ztake, zlen. intros b Hb. assert (Hn : (Z.to_nat n <= length b)%nat) by lia. clear Hb. revert b Hn.
  induction (Z.to_nat n) as [|k IH]; intros [|y b] H; cbn in *; try reflexivity; try lia.
  unfold xor_bytes in *. rewrite IH by lia. f_equal. rewrite Z.lxor_0_l. apply b8_u8.
Qed.

Lemma one_time_key_run key n : CRYPTO_chacha_20 (zeros 32) key n 0 = Some (one_time_key key n).
Proof.
  rewrite chacha_20_run by (split; lia). pose proof (chacha_block_zlen key n 0 ltac:(split; lia)) as Hz.
  change (key_stream (blocks_for (zlen (zeros 32))) key n 0) with (chacha_block key n 0 ++ []). rewrite app_nil_r.
  rewrite xor_bytes_zeros by lia. reflexivity.
Qed.

Lemma block_run key n counter : word32 counter -> CRYPTO_chacha_20 (zeros 64) key n counter = Some (chacha_block key n counter).
Proof.
  intros Hc. rewrite chacha_20_run by exact Hc. pose proof (chacha_block_zlen key n counter Hc) as Hz.
  change (key_stream (blocks_for (zlen (zeros 64))) key n counter) with (chacha_block key n counter ++ []). rewrite app_nil_r.
  rewrite xor_bytes_zeros by lia. apply (f_equal Some), ztake_all. symmetry. exact Hz.
Qed.

Lemma one_time_key_zlen key n : zlen (one_time_key key n) = 32.
Proof. unfold one_time_key. rewrite zlen_ztake; [reflexivity|]. rewrite chacha_block_zlen by (split; lia). lia. Qed.

Lemma key_stream_add key n a : forall b c, word32 c ->
  key_stream (a + b) key n c = key_stream a key n c ++ key_stream b key n ((c + Z.of_nat a) mod 2 ^ 32).
Proof.
  induction a as [|a IH]; intros b c Hc.
  - cbn [key_stream Nat.add app]. rewrite Z.add_0_r, Z.mod_small by exact Hc. reflexivity.
  - cbn [key_stream Nat.add]. rewrite IH by apply next_word. rewrite <- app_assoc. do 3 f_equal.
    rewrite Z.add_mod_idemp_l by lia. f_equal. lia.
Qed.

Lemma zlen_xor a b : zlen a <= zlen b -> zlen (xor_bytes a b) = zlen a.
Proof. intros H. unfold zlen in *. rewrite xor_bytes_length by lia. reflexivity. Qed.

(** Longer key streams give the same. *)
Lemma xor_stream key n text k1 k2 c : word32 c -> zlen text <= 64 * Z.of_nat k1 -> zlen text <= 64 * Z.of_nat k2 ->
  xor_bytes text (key_stream k1 key n c) = xor_bytes text (key_stream k2 key n c).
Proof.
  intros Hc H1 H2.
  assert (Hle : forall k j, zlen text <= 64 * Z.of_nat k -> xor_bytes text (key_stream (k + j) key n c) = xor_bytes text (key_stream k key n c)).
  { intros k j Hk. pose proof (key_stream_zlen k key n c Hc). rewrite key_stream_add by exact Hc.
    rewrite (xor_bytes_prefix text (_ ++ _)) by (rewrite length_app; unfold zlen in *; lia).
    rewrite take_app_le by (unfold zlen in *; lia). symmetry. apply xor_bytes_prefix. unfold zlen in *; lia. }
  destruct (Nat.le_ge_cases k1 k2).
  - replace k2 with (k1 + (k2 - k1))%nat by lia. symmetry. apply Hle, H1.
  - replace k1 with (k2 + (k1 - k2))%nat by lia. apply Hle, H2.
Qed.

Lemma crypt_zlen key n text : zlen (crypt key n text) = zlen text.
Proof. apply zlen_xor. rewrite key_stream_zlen by (split; lia). apply blocks_for_enough, zlen_nonneg. Qed.

Lemma crypt_twice key n text : crypt key n (crypt key n text) = text.
Proof.
  unfold crypt at 1. rewrite crypt_zlen. apply xor_bytes_twice. pose proof (key_stream_zlen (blocks_for (zlen text)) key n 1 ltac:(split; lia)) as H.
  pose proof (blocks_for_enough (zlen text) (zlen_nonneg _)). unfold zlen in *. lia.
Qed.

(** Where the key stream of the extra input starts. *)
Definition crypt_extra (key n : list byte) (len : Z) (extra : list byte) : list byte :=
  xor_bytes extra (zdrop (len mod 64) (key_stream (blocks_for (len mod 64 + zlen extra)) key n ((1 + len / 64) mod 2 ^ 32))).

Lemma crypt_app key n text extra : crypt key n (text ++ extra) = crypt key n text ++ crypt_extra key n (zlen text) extra.
Proof.
  pose proof (zlen_nonneg text) as H0. pose proof (zlen_nonneg extra) as H1.
  pose proof (Z.div_mod (zlen text) 64 ltac:(lia)) as Hdm. pose proof (Z.mod_pos_bound (zlen text) 64 ltac:(lia)) as Hr.
  pose proof (Z.div_pos (zlen text) 64 H0 ltac:(lia)) as Hq. set (q := Z.to_nat (zlen text / 64)). set (r := zlen text mod 64) in *.
  set (k := blocks_for (r + zlen extra)). pose proof (blocks_for_enough (r + zlen extra) ltac:(lia)) as Hk. fold k in Hk.
  assert (Hqz : Z.of_nat q = zlen text / 64) by (unfold q; lia).
  unfold crypt. rewrite (xor_stream key n (text ++ extra) _ (q + k) 1), (xor_stream key n text _ (q + k) 1);
    try (split; lia); try (apply blocks_for_enough; rewrite ?zlen_app; lia); try (rewrite ?zlen_app; lia).
  rewrite key_stream_add by (split; lia). unfold crypt_extra. fold r. fold k. rewrite <- Hqz.
  pose proof (key_stream_zlen q key n 1 ltac:(split; lia)) as Z1.
  pose proof (key_stream_zlen k key n ((1 + Z.of_nat q) mod 2 ^ 32) ltac:(apply Z.mod_pos_bound; lia)) as Z2.
  set (ks1 := key_stream q key n 1) in *. set (ks2 := key_stream k key n _) in *.
  assert (Htext : zlen text = zlen ks1 + r) by lia.
  rewrite <- (ztake_zdrop ks2 r) at 1 2. rewrite !app_assoc. rewrite (xor_bytes_app text extra).
  2: { rewrite length_app. pose proof (zlen_ztake ks2 r ltac:(lia)). unfold zlen in *. lia. }
  f_equal. rewrite (xor_bytes_prefix text ((ks1 ++ ztake r ks2) ++ zdrop r ks2)).
  2: { rewrite !length_app. pose proof (zlen_ztake ks2 r ltac:(lia)). unfold zlen in *. lia. }
  rewrite take_app_length' by (rewrite length_app; pose proof (zlen_ztake ks2 r ltac:(lia)); unfold zlen in *; lia). reflexivity.
Qed.

(** ** The steps of sealing *)

(** The [l] bytes of the nonce, and that a write does not change them. *)
Definition nonce_is (l : Z) (m : memory) (nonce : buffer) (n : list byte) : Prop :=
  zlen n = l /\ match nonce with at_address p => stored m p n | local_array bs => bs = n end.
Definition nonce_apart (l : Z) (nonce : buffer) (p n : Z) : Prop :=
  match nonce with at_address q => apart q l p n | local_array _ => True end.

Lemma fetch_nonce m nonce n : nonce_is 12 m nonce n -> fetch nonce 12 m = (Ok n, m).
Proof.
  intros [Hl H]. destruct nonce as [p|bs]; cbn [fetch].
  - apply read_stored; [exact H | lia].
  - subst bs. rewrite Hl. cbn [Z.leb Z.compare Pos.compare Pos.compare_cont]. rewrite ztake_all by lia. reflexivity.
Qed.

Lemma nonce_splice l m nonce n q new : nonce_is l m nonce n -> 0 <= q -> q + zlen new <= zlen m -> nonce_apart l nonce q (zlen new) ->
  nonce_is l (splice m q new) nonce n.
Proof.
  intros [Hl H] H1 H2 Ha. split; [exact Hl|]. destruct nonce as [p|bs]; [|exact H]. apply stored_splice; try assumption. rewrite Hl. exact Ha.
Qed.

Lemma chacha_20_at_run (m : memory) out in_ bs key nonce n counter : zlen m < 2 ^ 64 -> nonce_is 12 m nonce n -> stored m in_ bs ->
  0 <= out -> out + zlen bs <= zlen m -> out = in_ \/ apart out (zlen bs) in_ (zlen bs) -> word32 counter ->
  chacha_20_at out in_ (zlen bs) key nonce counter m =
  (Ok tt, splice m out (xor_bytes bs (key_stream (blocks_for (zlen bs)) key n counter))).
Proof.
  intros Hm Hn Hb H1 H2 Ha Hc. pose proof Hb as (B1 & B2 & _). pose proof (zlen_nonneg bs). unfold chacha_20_at.
  assert (Hmust : negb (buffers_alias 64 out (zlen bs) in_ (zlen bs)) || (in_ =? out) = true).
  { destruct Ha as [->|Ha]; [rewrite Z.eqb_refl; apply orb_true_r|]. rewrite not_alias by (lia || exact Ha). reflexivity. }
  rewrite Hmust. unfold must. rewrite bind_ret, (bind_Ok _ _ _ _ _ (fetch_nonce _ _ _ Hn)), (bind_Ok _ _ _ _ _ (read_stored _ _ _ _ Hb eq_refl)).
  rewrite chacha_20_run by exact Hc. unfold known. rewrite bind_ret.
  apply write_run; [exact H1|]. rewrite zlen_xor; [exact H2|]. rewrite key_stream_zlen by exact Hc. apply blocks_for_enough. lia.
Qed.

Lemma znth_read (l : list byte) i b : nth_error l (Z.to_nat i) = Some b -> znth l i = b.
Proof. intros H. unfold znth. apply nth_error_nth, H. Qed.

Lemma zdrop_znth (l : list byte) i : 0 <= i < zlen l -> zdrop i l = znth l i :: zdrop (i + 1) l.
Proof.
  intros Hi. unfold zdrop, znth. rewrite Z2Nat.inj_add, Nat.add_1_r by lia.
  assert (Hn : (Z.to_nat i < length l)%nat) by (unfold zlen in Hi; lia). clear Hi. revert l Hn.
  induction (Z.to_nat i) as [|k IH]; intros [|x l] H; cbn in *; try lia; [reflexivity | apply IH; lia].
Qed.

Lemma ztake_cons {A} n (x : A) l : 0 < n -> ztake n (x :: l) = x :: ztake (n - 1) l.
Proof. intros Hn. unfold ztake. replace (Z.to_nat n) with (S (Z.to_nat (n - 1))) by lia. reflexivity. Qed.

Section extra_input.
Context (key n : list byte) (nonce : buffer) (out_tag extra_in : Z) (X : list byte).
Hypothesis Hsep : apart extra_in (zlen X) out_tag (zlen X).
Hypothesis Hnsep : nonce_apart 12 nonce out_tag (zlen X).

Lemma extra_bytes_run fuel : forall m block i done, zlen block = 64 -> 0 <= i <= 64 -> (Z.to_nat (64 - i) < fuel)%nat -> 0 <= done <= zlen X ->
  stored m extra_in X -> 0 <= out_tag -> out_tag + zlen X <= zlen m ->
  extra_bytes fuel block i done out_tag extra_in (zlen X) m =
  (Ok (done + Z.min (64 - i) (zlen X - done)),
   splice m (out_tag + done) (xor_bytes (ztake (64 - i) (zdrop done X)) (zdrop i block))).
Proof.
  induction fuel as [|fuel IH]; intros m block i done Hb Hi Hf Hd HX H1 H2; [lia|]. cbn [extra_bytes].
  destruct (Z.ltb_spec i 64) as [Hi64|Hi64]; cbn [andb].
  2: { replace (64 - i) with 0 by lia. rewrite Z.min_l by lia. unfold xor_bytes, ztake. cbn [Z.to_nat take zip_with].
       rewrite splice_nil by lia. unfold ret. repeat f_equal. lia. }
  destruct (Z.ltb_spec done (zlen X)) as [HdX|HdX].
  2: { rewrite Z.min_r by lia. replace done with (zlen X) by lia. rewrite (zdrop_big (zlen X) X) by lia.
       unfold ztake. rewrite take_nil. cbn. rewrite splice_nil by lia. unfold ret. do 2 f_equal. lia. }
  assert (Hx : stored m (extra_in + done) [znth X done]).
  { pose proof HX as (X1 & X2 & X3). rewrite <- (ztake_zdrop X done), stored_two in HX. destruct HX as [_ HX]. revert HX.
    rewrite zlen_ztake, zdrop_znth by lia. intros HX. apply (stored_two m _ [_]) in HX. apply HX. }
  rewrite (bind_Ok _ _ _ _ _ (read_stored _ _ _ _ Hx eq_refl)). change (znth [znth X done] 0) with (znth X done).
  set (b := b8 _). rewrite (bind_Ok _ _ _ _ _ (write_run m (out_tag + done) [b] ltac:(lia) ltac:(change (zlen [b]) with 1; lia))).
  rewrite IH; try lia; try assumption.
  - rewrite (zdrop_znth X done), (zdrop_znth block i) by lia. rewrite ztake_cons by lia. replace (64 - i - 1) with (64 - (i + 1)) by lia.
    f_equal; [f_equal; lia|]. unfold xor_bytes. cbn [zip_with]. fold b. rewrite Z.add_assoc.
    change (out_tag + done + 1) with (out_tag + done + zlen [b]). rewrite splice_splice; [reflexivity | lia|].
    fold (xor_bytes (ztake (64 - (i + 1)) (zdrop (done + 1) X)) (zdrop (i + 1) block)).
    assert (Hz : zlen (ztake (64 - (i + 1)) (zdrop (done + 1) X)) <= Z.min (64 - (i + 1)) (zlen X - (done + 1))).
    { unfold zlen, ztake, zdrop in *. rewrite length_take, length_drop. lia. }
    rewrite zlen_xor; [change (zlen [b]) with 1; lia | rewrite zlen_zdrop by lia; lia].
  - apply stored_splice; change (zlen [b]) with 1; [exact HX | lia | lia | unfold apart in *; lia].
  - rewrite zlen_splice by (change (zlen [b]) with 1; lia). exact H2.
Qed.

Lemma extra_blocks_run fuel : forall m c offset done blocks, word32 c -> 0 <= offset < 64 -> 0 <= done <= zlen X ->
  (Z.to_nat (zlen X - done) < fuel)%nat -> zlen X - done + offset <= 64 * Z.of_nat blocks ->
  stored m extra_in X -> 0 <= out_tag -> out_tag + zlen X <= zlen m -> nonce_is 12 m nonce n ->
  extra_blocks fuel key nonce c offset done out_tag extra_in (zlen X) m =
  (Ok tt, splice m (out_tag + done) (xor_bytes (zdrop done X) (zdrop offset (key_stream blocks key n c)))).
Proof.
  induction fuel as [|fuel IH]; intros m c offset done blocks Hc Ho Hd Hf Hb HX H1 H2 Hn; [lia|]. cbn [extra_blocks].
  destruct (Z.ltb_spec done (zlen X)) as [HdX|HdX].
  2: { replace done with (zlen X) by lia. rewrite (zdrop_big (zlen X) X) by lia. unfold xor_bytes. cbn [zip_with].
       rewrite splice_nil by lia. reflexivity. }
  rewrite (bind_Ok _ _ _ _ _ (fetch_nonce _ _ _ Hn)), block_run by exact Hc. unfold known at 1. rewrite bind_ret.
  pose proof (chacha_block_zlen key n c Hc) as Hz. set (block := chacha_block key n c) in *.
  rewrite (bind_Ok _ _ _ _ _ (extra_bytes_run 65 m block offset done Hz ltac:(lia) ltac:(lia) ltac:(lia) HX H1 H2)).
  set (taken := ztake (64 - offset) (zdrop done X)). set (cnt := Z.min (64 - offset) (zlen X - done)).
  assert (Ht : zlen taken = cnt). { unfold taken, cnt, zlen, ztake, zdrop in *. rewrite length_take, length_drop. lia. }
  assert (Hxz : zlen (xor_bytes taken (zdrop offset block)) = cnt). { rewrite zlen_xor; [exact Ht|]. rewrite zlen_zdrop by lia. lia. }
  destruct blocks as [|blocks]; [lia|].
  rewrite (IH _ (u32 (c + 1)) 0 (done + cnt) blocks); try lia.
  - f_equal. change (u32 (c + 1)) with ((c + 1) mod 2 ^ 32). cbn [key_stream]. fold block. set (ks := key_stream blocks key n _).
    rewrite Z.add_assoc. change (zdrop 0 ks) with ks.
    assert (Hks : zlen ks = 64 * Z.of_nat blocks) by (apply key_stream_zlen, next_word).
    assert (Erest : zlen (zdrop (done + cnt) X) = zlen X - (done + cnt)) by (apply zlen_zdrop; lia).
    assert (Erx : zlen (xor_bytes (zdrop (done + cnt) X) ks) = zlen X - (done + cnt)) by (rewrite zlen_xor; lia).
    replace (out_tag + done + cnt) with (out_tag + done + zlen (xor_bytes taken (zdrop offset block))) by lia.
    rewrite splice_splice by lia. f_equal.
    assert (Esplit : zdrop done X = taken ++ zdrop (done + cnt) X).
    { unfold taken. rewrite <- (ztake_zdrop (zdrop done X) (64 - offset)) at 1. f_equal. unfold zdrop, cnt. rewrite drop_drop.
      destruct (Z.le_ge_cases (64 - offset) (zlen X - done)); [f_equal; lia|]. rewrite !drop_ge by (unfold zlen in *; lia). reflexivity. }
    rewrite Esplit. unfold zdrop at 4. rewrite drop_app_le by (unfold zlen in Hz; lia). fold (zdrop offset block).
    destruct (Z.eq_dec cnt (64 - offset)) as [E|E].
    + symmetry. apply xor_bytes_app. pose proof (zlen_zdrop block offset ltac:(lia)). unfold zlen in *. lia.
    + assert (zdrop (done + cnt) X = []) as -> by (apply nil_of_zlen; lia). change (xor_bytes [] ks) with (@nil Init.Byte.byte). rewrite !app_nil_r.
      rewrite (xor_bytes_prefix taken (_ ++ _)), take_app_le by (rewrite ?length_app; pose proof (zlen_zdrop block offset ltac:(lia)); unfold zlen in *; lia).
      apply xor_bytes_prefix. pose proof (zlen_zdrop block offset ltac:(lia)). unfold zlen in *. lia.
  - apply next_word.
  - apply stored_splice; try lia; [exact HX|]. rewrite Hxz. unfold apart in *. lia.
  - rewrite zlen_splice by lia. exact H2.
  - apply nonce_splice; try lia; [exact Hn|]. rewrite Hxz. destruct nonce; cbn in *; [unfold apart in *; lia | exact I].
Qed.

Lemma seal_extra_in_run m len : 0 <= len -> stored m extra_in X -> 0 <= out_tag -> out_tag + zlen X <= zlen m -> nonce_is 12 m nonce n ->
  seal_extra_in key nonce len out_tag extra_in (zlen X) m = (Ok tt, splice m out_tag (crypt_extra key n len X)).
Proof.
  intros Hl HX H1 H2 Hn. pose proof (zlen_nonneg X). pose proof (Z.mod_pos_bound len 64 ltac:(lia)). unfold seal_extra_in, crypt_extra.
  destruct (Z.eqb_spec (zlen X) 0) as [E|E]; [rewrite (nil_of_zlen X E); unfold xor_bytes; cbn [zip_with]; rewrite splice_nil by lia; reflexivity|].
  rewrite (extra_blocks_run _ m _ _ 0 (blocks_for (len mod 64 + zlen X))); try assumption; try lia.
  - rewrite Z.add_0_r. reflexivity.
  - apply Z.mod_pos_bound. lia.
  - pose proof (blocks_for_enough (len mod 64 + zlen X) ltac:(lia)). lia.
Qed.
End extra_input.

(** *** The tag *)

(** What the code computes; it is the tag of RFC 8439 unless the last carry of
    Poly1305 is lost. *)
Definition tag_for (key n a c tag : list byte) : Prop :=
  direct_tag (one_time_key key n) (mac_data a c) = Some tag /\ zlen tag = 16 /\
  (~ lost_carry (polynomial (one_time_key key n) (mac_data a c)) -> tag = poly1305_mac (one_time_key key n) (mac_data a c)).

Lemma tag_for_unique key n a c t1 t2 : tag_for key n a c t1 -> tag_for key n a c t2 -> t1 = t2.
Proof. intros (E1 & _) (E2 & _). congruence. Qed.

Lemma finish_mac_zlen st : zlen (finish_mac st) = 16.
Proof. unfold finish_mac, U32TO8_LE, zlen. rewrite !length_app, !length_le_split. reflexivity. Qed.

Lemma length_bytes_split k : forall v, length_bytes k v = le_split k v.
Proof. induction k as [|k IH]; intros v; [reflexivity|]. cbn [length_bytes]. rewrite IH. reflexivity. Qed.

Lemma padding_holds k st m len : holds k st m -> exists st', update_padding st len = Some st' /\ holds k st' (m ++ pad16 len).
Proof.
  intros H. unfold update_padding, pad16. destruct (Z.eqb_spec (len mod 16) 0); [exists st; rewrite app_nil_r; auto|].
  apply update_holds; [exact H|]. pose proof (Z.mod_pos_bound len 16 ltac:(lia)). rewrite zlen_zeros; lia.
Qed.

Lemma length_holds k st m len : holds k st m -> exists st', poly1305_update_length st len = Some st' /\ holds k st' (m ++ le_split 8 len).
Proof.
  intros H. unfold poly1305_update_length. rewrite length_bytes_split. apply update_holds; [exact H|].
  unfold zlen. rewrite length_le_split. lia.
Qed.

Ltac step_holds H := let st := fresh "st" in let E := fresh "E" in
  destruct H as (st & E & ?); rewrite E; unfold known at 1; rewrite bind_ret; clear E.

Lemma calc_tag_run garbage (m : memory) key nonce n ad A ct C ex X : zlen garbage = 16 -> zlen m < 2 ^ 64 -> nonce_is 12 m nonce n ->
  stored m ad A -> stored m ct C -> stored m ex X -> zlen C + zlen X < 2 ^ 64 ->
  exists tag, calc_tag garbage key nonce ad (zlen A) ct (zlen C) ex (zlen X) m = (Ok tag, m) /\ tag_for key n A (C ++ X) tag.
Proof.
  intros Hg Hm Hn HA HC HX Hsum. unfold calc_tag. pose proof (zlen_nonneg C). pose proof (zlen_nonneg X).
  assert (Hle : forall p bs, stored m p bs -> zlen bs < 2 ^ 64) by (intros p bs (? & ? & _); lia).
  rewrite (bind_Ok _ _ _ _ _ (fetch_nonce _ _ _ Hn)), one_time_key_run. unfold known at 1. rewrite bind_ret.
  set (k := one_time_key key n). assert (Hk : zlen k = 32) by apply one_time_key_zlen.
  pose proof (init_holds garbage k ltac:(lia) Hg) as Hinit. set (st0 := CRYPTO_poly1305_init garbage k) in *. cbv zeta.
  rewrite (bind_Ok _ _ _ _ _ (read_stored _ _ _ _ HA eq_refl)). step_holds (update_holds k st0 _ A Hinit (Hle _ _ HA)).
  step_holds (padding_holds k st _ (zlen A) ltac:(eassumption)).
  rewrite (bind_Ok _ _ _ _ _ (read_stored _ _ _ _ HC eq_refl)). step_holds (update_holds k st1 _ C ltac:(eassumption) (Hle _ _ HC)).
  rewrite (bind_Ok _ _ _ _ _ (read_stored _ _ _ _ HX eq_refl)). step_holds (update_holds k st2 _ X ltac:(eassumption) (Hle _ _ HX)).
  rewrite (wrap_small 64 (zlen C + zlen X)) by (split; lia). rewrite <- zlen_app.
  step_holds (padding_holds k st3 _ (zlen (C ++ X)) ltac:(eassumption)).
  step_holds (length_holds k st4 _ (zlen A) ltac:(eassumption)).
  step_holds (length_holds k st5 _ (zlen (C ++ X)) ltac:(eassumption)).
  match goal with H : holds k st6 ?d |- _ => assert (Ed : d = mac_data A (C ++ X)) by (unfold mac_data; cbn [app]; rewrite <- !app_assoc; reflexivity);
    rewrite Ed in H; destruct (finish_mac_holds k st6 _ H ltac:(lia)) as (tag & Et & Hd & Hr) end.
  exists tag. rewrite Et. split; [reflexivity|]. split; [exact Hd|]. split; [|exact Hr].
  unfold direct_tag in Hd. destruct (update_all _ _); [|discriminate]. injection Hd as <-. apply finish_mac_zlen.
Qed.

(** *** Comparing tags *)

Lemma memcmp_loop_zero a : forall b x, length a = length b -> 0 <= x -> (memcmp_loop a b x = 0 <-> x = 0 /\ a = b).
Proof.
  induction a as [|a0 a IH]; intros [|b0 b] x Hl Hx; cbn in Hl |- *; try discriminate; [intuition|].
  assert (Hxor : 0 <= Z.lxor (u8 a0) (u8 b0)) by (apply Z.lxor_nonneg; pose proof (u8_range a0); pose proof (u8_range b0); lia).
  rewrite IH; [|lia | apply Z.lor_nonneg; auto]. rewrite Z.lor_eq_0_iff, Z.lxor_eq_0_iff. split.
  - intros [[-> E] ->]. apply u8_inj in E as ->. auto.
  - intros [-> [= -> ->]]. auto.
Qed.

Lemma CRYPTO_memcmp_zero a b : length a = length b -> (CRYPTO_memcmp a b =? 0) = bool_decide (a = b).
Proof.
  intros Hl. pose proof (memcmp_loop_zero a b 0 Hl ltac:(lia)) as H. unfold CRYPTO_memcmp.
  destruct (Z.eqb_spec (memcmp_loop a b 0) 0) as [E|E]; symmetry.
  - apply bool_decide_true, H, E.
  - apply bool_decide_false. intros Hab. apply E, H. auto.
Qed.

(** ** Sealing and opening with a key *)

(** The arguments of sealing: the nonce, the text, the associated data and the
    extra input are in memory, and the outputs do not overlap with them or each
    other, except that the text may be encrypted in place. *)
Record sealing (l : Z) (m : memory) (nonce : buffer) (n : list byte) (in_ : Z) (P : list byte) (ad : Z) (A : list byte)
    (extra : Z) (X : list byte) (out out_tag room : Z) : Prop := mk_sealing {
  s_memory : zlen m < 2 ^ 64;
  s_nonce : nonce_is l m nonce n;
  s_in : stored m in_ P;
  s_ad : stored m ad A;
  s_extra : stored m extra X;
  s_out : 0 <= out /\ out + zlen P <= zlen m;
  s_tag : 0 <= out_tag /\ out_tag + room <= zlen m;
  s_in_place : out = in_ \/ apart out (zlen P) in_ (zlen P);
  s_nonce_apart : nonce_apart l nonce out (zlen P) /\ nonce_apart l nonce out_tag room;
  s_ad_apart : apart ad (zlen A) out (zlen P) /\ apart ad (zlen A) out_tag room;
  s_extra_apart : apart extra (zlen X) out (zlen P) /\ apart extra (zlen X) out_tag room;
  s_tag_apart : apart in_ (zlen P) out_tag room /\ apart out (zlen P) out_tag room;
}.

Lemma apart_le p n q k k' : apart p n q k -> 0 <= k' <= k -> apart p n q k'.
Proof. unfold apart. lia. Qed.
Lemma nonce_apart_le l nonce q k k' : nonce_apart l nonce q k -> 0 <= k' <= k -> nonce_apart l nonce q k'.
Proof. destruct nonce; [apply apart_le | auto]. Qed.

Lemma crypt_extra_zlen key n len X : 0 <= len -> zlen (crypt_extra key n len X) = zlen X.
Proof.
  intros Hl. pose proof (zlen_nonneg X). pose proof (Z.mod_pos_bound len 64 ltac:(lia)). apply zlen_xor.
  pose proof (blocks_for_enough (len mod 64 + zlen X) ltac:(lia)).
  assert (Hks : zlen (key_stream (blocks_for (len mod 64 + zlen X)) key n ((1 + len / 64) mod 2 ^ 32)) = 64 * Z.of_nat (blocks_for (len mod 64 + zlen X)))
    by (apply key_stream_zlen, Z.mod_pos_bound; lia).
  rewrite zlen_zdrop by lia. lia.
Qed.

Lemma guard_true {S A} (b : bool) (k : unit -> M S A) s : b = true -> bind (guard b) k s = k tt s.
Proof. intros ->. reflexivity. Qed.

Lemma seal_scatter_run garbage key tl m nonce n in_ P ad A extra X out out_tag room : zlen garbage = 16 -> 0 < tl <= 16 ->
  sealing 12 m nonce n in_ P ad A extra X out out_tag room -> zlen P < MAX_IN_LEN -> zlen X + tl <= room ->
  exists tag, tag_for key n A (crypt key n (P ++ X)) tag /\
    chacha20_poly1305_seal_scatter garbage key out out_tag room nonce 12 in_ (zlen P) extra (zlen X) ad (zlen A) tl m =
    (Ok (zlen X + tl), splice (splice m out (crypt key n P)) out_tag (crypt_extra key n (zlen P) X ++ ztake tl tag)).
Proof.
  intros Hg Htl [Hm Hn HP HA HX [Ho1 Ho2] [Ht1 Ht2] Hip [Hno Hnt] [Hao Hat] [Hxo Hxt] [Hit Hot]] HPl Hroom.
  pose proof (zlen_nonneg P) as HP0. pose proof (zlen_nonneg X) as HX0. pose proof (zlen_nonneg A) as HA0.
  set (C := crypt key n P). set (XC := crypt_extra key n (zlen P) X).
  assert (HC : zlen C = zlen P) by apply crypt_zlen. assert (HXC : zlen XC = zlen X) by (apply crypt_extra_zlen; lia).
  unfold chacha20_poly1305_seal_scatter.
  rewrite guard_true by (rewrite (wrap_small 64 (zlen X + tl)) by (split; lia); apply negb_true_iff, Z.ltb_ge; lia).
  rewrite guard_true by (rewrite (wrap_small 64 (tl + zlen X)) by (split; lia); apply negb_true_iff, Z.ltb_ge; lia).
  rewrite guard_true by reflexivity. rewrite guard_true by (apply negb_true_iff, Z.leb_gt; lia). rewrite guard_true by (apply negb_true_iff, Z.ltb_ge; lia).
  set (m1 := splice m out_tag XC).
  assert (Hl1 : zlen m1 = zlen m) by (apply zlen_splice; lia).
  rewrite (bind_Ok _ _ _ tt m1).
  2: { apply seal_extra_in_run; try lia; try assumption; [apply (apart_le _ _ _ room); [exact Hxt | lia] | apply (nonce_apart_le _ _ _ room); [exact Hnt | lia]]. }
  assert (Hn1 : nonce_is 12 m1 nonce n) by (apply nonce_splice; try lia; [exact Hn | apply (nonce_apart_le _ _ _ room); [exact Hnt | lia]]).
  assert (Hkeep1 : forall p bs, stored m p bs -> apart p (zlen bs) out_tag room -> stored m1 p bs).
  { intros p bs H Ha. apply stored_splice; try lia; [exact H|]. apply (apart_le _ _ _ room); [exact Ha | lia]. }
  set (m2 := splice m1 out C). assert (Hl2 : zlen m2 = zlen m) by (unfold m2; rewrite zlen_splice; lia).
  rewrite (bind_Ok _ _ _ tt m2) by (apply chacha_20_at_run; try lia; auto; split; lia).
  assert (Hn2 : nonce_is 12 m2 nonce n) by (apply nonce_splice; rewrite ?HC; try lia; assumption).
  assert (Hkeep2 : forall p bs, stored m1 p bs -> apart p (zlen bs) out (zlen P) -> stored m2 p bs).
  { intros p bs H Ha. apply stored_splice; rewrite ?HC; try lia; assumption. }
  destruct (calc_tag_run garbage m2 key nonce n ad A out C out_tag XC) as (tag & Etag & Htag); try lia; try assumption.
  { apply Hkeep2; [|exact Hao]. apply Hkeep1; assumption. }
  { apply stored_splice_same; lia. }
  { apply Hkeep2; [apply stored_splice_same; lia|]. rewrite HXC. apply apart_swap, (apart_le _ _ _ room); [exact Hot | lia]. }
  { unfold MAX_IN_LEN in HPl. rewrite HC, HXC. unfold apart in Hot. lia. }
  exists tag. split; [rewrite crypt_app; exact Htag|]. rewrite HC, HXC in Etag. rewrite (bind_Ok _ _ _ _ _ Etag).
  destruct Htag as (_ & Hlt & _). assert (Htt : zlen (ztake tl tag) = tl) by (apply zlen_ztake; lia).
  rewrite (bind_Ok _ _ _ _ _ (write_run m2 (out_tag + zlen X) (ztake tl tag) ltac:(lia) ltac:(lia))). unfold ret.
  rewrite (wrap_small 64) by (split; lia). f_equal. unfold m2, m1. rewrite (splice_comm m out_tag XC out C); try lia.
  2: { rewrite HXC, HC. apply apart_swap, (apart_le _ _ _ room); [exact Hot | lia]. }
  rewrite <- HXC at 1. apply splice_splice; [lia|]. rewrite zlen_splice by lia. lia.
Qed.

(** Opening: the text is decrypted whatever the tag is, and the tag decides. *)
Lemma open_gather_run garbage key tl m nonce n in_ C ad A out in_tag T : zlen garbage = 16 -> 0 < tl <= 16 -> zlen m < 2 ^ 64 ->
  nonce_is 12 m nonce n -> stored m in_ C -> stored m ad A -> stored m in_tag T -> zlen T = tl ->
  0 <= out -> out + zlen C <= zlen m -> out = in_ \/ apart out (zlen C) in_ (zlen C) -> apart in_tag tl out (zlen C) -> zlen C < MAX_IN_LEN ->
  exists tag, tag_for key n A C tag /\
    chacha20_poly1305_open_gather garbage key out nonce 12 in_ (zlen C) in_tag tl ad (zlen A) tl m =
    ((if bool_decide (ztake tl tag = T) then Ok tt else Fail), splice m out (crypt key n C)).
Proof.
  intros Hg Htl Hm Hn HC HA HT Hlen Ho1 Ho2 Hip Hta HCl. pose proof (zlen_nonneg C) as HC0. unfold chacha20_poly1305_open_gather.
  rewrite guard_true by reflexivity. rewrite guard_true by apply Z.eqb_refl. rewrite guard_true by (apply negb_true_iff, Z.leb_gt; lia).
  assert (Hnil : stored m 0 []) by (pose proof (zlen_nonneg m); repeat split; [lia | change (0 <= zlen m); lia]).
  destruct (calc_tag_run garbage m key nonce n ad A in_ C 0 [] Hg Hm Hn HA HC Hnil) as (tag & Et & Htag).
  { unfold MAX_IN_LEN in HCl. change (zlen []) with 0. lia. }
  rewrite app_nil_r in Htag. exists tag. split; [exact Htag|]. change (zlen []) with 0 in Et. rewrite (bind_Ok _ _ _ _ _ Et).
  set (m1 := splice m out (crypt key n C)). rewrite (bind_Ok _ _ _ tt m1) by (apply chacha_20_at_run; try lia; auto; split; lia).
  assert (HT1 : stored m1 in_tag T) by (apply stored_splice; rewrite ?crypt_zlen; try lia; [exact HT | rewrite Hlen; exact Hta]).
  rewrite (bind_Ok _ _ _ _ _ (read_stored _ _ _ tl HT1 ltac:(lia))). destruct Htag as (_ & Hlt & _).
  rewrite CRYPTO_memcmp_zero by (pose proof (zlen_ztake tag tl ltac:(lia)); unfold zlen in *; lia).
  unfold guard. destruct (bool_decide _); reflexivity.
Qed.

(** ** What an AEAD promises the generic layer *)

(** Tags are functions of their arguments and ciphertexts have the length of the
    text; encrypting twice restores it. *)
Record scheme := mk_scheme {
  sc_nonce_len : Z;
  sc_crypt : EVP_AEAD_CTX -> list byte -> list byte -> list byte;
  sc_tag : EVP_AEAD_CTX -> list byte -> list byte -> list byte -> list byte -> Prop;
}.

Class Implements (a : EVP_AEAD) (sc : scheme) := {
  impl_extra : seal_scatter_supports_extra_in a = true;
  impl_overhead : overhead a = 16;
  impl_open : Aead.open a = None;
  impl_crypt_zlen : forall ctx n text, zlen (sc_crypt sc ctx n text) = zlen text;
  impl_crypt_twice : forall ctx n text, sc_crypt sc ctx n (sc_crypt sc ctx n text) = text;
  impl_tag_zlen : forall ctx n ad c tag, sc_tag sc ctx n ad c tag -> zlen tag = 16;
  impl_tag_unique : forall ctx n ad c t1 t2, sc_tag sc ctx n ad c t1 -> sc_tag sc ctx n ad c t2 -> t1 = t2;
  impl_seal : forall ctx m nonce n in_ P ad A extra X out out_tag room,
    0 < tag_len ctx <= 16 -> sealing (sc_nonce_len sc) m (at_address nonce) n in_ P ad A extra X out out_tag room ->
    zlen P < MAX_IN_LEN -> zlen X + tag_len ctx <= room ->
    exists tag, let whole := sc_crypt sc ctx n (P ++ X) in sc_tag sc ctx n A whole tag /\
      seal_scatter a ctx out out_tag room nonce (sc_nonce_len sc) in_ (zlen P) extra (zlen X) ad (zlen A) m =
      (Ok (zlen X + tag_len ctx), splice (splice m out (ztake (zlen P) whole)) out_tag (zdrop (zlen P) whole ++ ztake (tag_len ctx) tag));
  impl_open_gather : forall ctx m nonce n in_ C ad A out in_tag T, 0 < tag_len ctx <= 16 -> zlen m < 2 ^ 64 ->
    nonce_is (sc_nonce_len sc) m (at_address nonce) n -> stored m in_ C -> stored m ad A -> stored m in_tag T -> zlen T = tag_len ctx ->
    0 <= out -> out + zlen C <= zlen m -> out = in_ \/ apart out (zlen C) in_ (zlen C) -> apart in_tag (tag_len ctx) out (zlen C) -> zlen C < MAX_IN_LEN ->
    exists open tag, open_gather a = Some open /\ sc_tag sc ctx n A C tag /\
      open ctx out nonce (sc_nonce_len sc) in_ (zlen C) in_tag (tag_len ctx) ad (zlen A) m =
      ((if bool_decide (ztake (tag_len ctx) tag = T) then Ok tt else Fail), splice m out (sc_crypt sc ctx n C));
}.

(** *** The two instances *)

Definition chacha20_poly1305 : scheme :=
  mk_scheme 12 (fun ctx n => crypt (c20_key ctx) n) (fun ctx n => tag_for (c20_key ctx) n).
Definition xkey (ctx : EVP_AEAD_CTX) (n : list byte) : list byte := hchacha_key (c20_key ctx) (ztake 16 n).
Definition xnonce (n : list byte) : list byte := zeros 4 ++ zdrop 16 n.
Definition xchacha20_poly1305 : scheme :=
  mk_scheme 24 (fun ctx n => crypt (xkey ctx n) (xnonce n)) (fun ctx n => tag_for (xkey ctx n) (xnonce n)).

Lemma split_crypt key n P X : ztake (zlen P) (crypt key n (P ++ X)) = crypt key n P /\ zdrop (zlen P) (crypt key n (P ++ X)) = crypt_extra key n (zlen P) X.
Proof. rewrite crypt_app. split; [apply ztake_app | apply zdrop_app]; symmetry; apply crypt_zlen. Qed.

Lemma derive_run m ctx nonce n : nonce_is 24 m (at_address nonce) n ->
  derive (c20_key ctx) nonce m = (Ok (xkey ctx n, xnonce n), m) /\ nonce_is 12 m (local_array (xnonce n)) (xnonce n).
Proof.
  intros [Hl Hn]. pose proof (zlen_ztake n 16 ltac:(lia)) as H1. pose proof (zlen_zdrop n 16 ltac:(lia)) as H2. split.
  - rewrite <- (ztake_zdrop n 16) in Hn. apply stored_two in Hn as [Hn1 Hn2]. rewrite H1 in Hn2. unfold derive.
    rewrite (bind_Ok _ _ _ _ _ (read_stored _ _ _ 16 Hn1 ltac:(lia))), (bind_Ok _ _ _ _ _ (read_stored _ _ _ 8 Hn2 ltac:(lia))).
    unfold xkey, xnonce. rewrite hchacha20_ok. reflexivity.
  - split; [|reflexivity]. unfold xnonce. rewrite zlen_app, H2, Hl. reflexivity.
Qed.

Section instances.
Context (garbage : list byte) (Hg : zlen garbage = 16).

#[local] Instance chacha20_poly1305_implements : Implements (aead_chacha20_poly1305 garbage) chacha20_poly1305.
Proof.
  split; try reflexivity.
  - intros ctx n text. apply crypt_zlen.
  - intros ctx n text. apply crypt_twice.
  - intros ctx n ad c tag (_ & H & _). exact H.
  - intros ctx n ad c t1 t2. apply tag_for_unique.
  - intros ctx m nonce n in_ P ad A extra X out out_tag room Ht Hs HP Hroom. cbn [sc_nonce_len sc_crypt sc_tag chacha20_poly1305] in *. cbv zeta.
    destruct (seal_scatter_run garbage (c20_key ctx) (tag_len ctx) m _ n in_ P ad A extra X out out_tag room Hg Ht Hs HP Hroom) as (tag & Htag & E).
    exists tag. split; [exact Htag|]. destruct (split_crypt (c20_key ctx) n P X) as [-> ->]. exact E.
  - intros ctx m nonce n in_ C ad A out in_tag T Ht Hm Hn HC HA HT Hl H1 H2 Hip Hta HCl. cbn [sc_nonce_len sc_crypt sc_tag chacha20_poly1305] in *.
    destruct (open_gather_run garbage (c20_key ctx) (tag_len ctx) m _ n in_ C ad A out in_tag T Hg Ht Hm Hn HC HA HT Hl H1 H2 Hip Hta HCl) as (tag & Htag & E).
    eexists _, tag. split; [reflexivity|]. split; [exact Htag | exact E].
Qed.

#[local] Instance xchacha20_poly1305_implements : Implements (aead_xchacha20_poly1305 garbage) xchacha20_poly1305.
Proof.
  split; try reflexivity.
  - intros ctx n text. apply crypt_zlen.
  - intros ctx n text. apply crypt_twice.
  - intros ctx n ad c tag (_ & H & _). exact H.
  - intros ctx n ad c t1 t2. apply tag_for_unique.
  - intros ctx m nonce n in_ P ad A extra X out out_tag room Ht Hs HP Hroom. cbn [sc_nonce_len sc_crypt sc_tag xchacha20_poly1305] in *. cbv zeta.
    destruct (derive_run m ctx nonce n (s_nonce _ _ _ _ _ _ _ _ _ _ _ _ _ Hs)) as [Ed Hn].
    destruct (seal_scatter_run garbage (xkey ctx n) (tag_len ctx) m (local_array (xnonce n)) (xnonce n) in_ P ad A extra X out out_tag room Hg Ht) as (tag & Htag & E); try assumption.
    { destruct Hs. constructor; try assumption. split; exact I. }
    exists tag. split; [exact Htag|]. destruct (split_crypt (xkey ctx n) (xnonce n) P X) as [-> ->].
    cbn [seal_scatter aead_xchacha20_poly1305]. unfold aead_xchacha20_poly1305_seal_scatter. rewrite guard_true by reflexivity.
    rewrite (bind_Ok _ _ _ _ _ Ed). exact E.
  - intros ctx m nonce n in_ C ad A out in_tag T Ht Hm Hn HC HA HT Hl H1 H2 Hip Hta HCl. cbn [sc_nonce_len sc_crypt sc_tag xchacha20_poly1305] in *.
    destruct (derive_run m ctx nonce n Hn) as [Ed Hn'].
    destruct (open_gather_run garbage (xkey ctx n) (tag_len ctx) m _ _ in_ C ad A out in_tag T Hg Ht Hm Hn' HC HA HT Hl H1 H2 Hip Hta HCl) as (tag & Htag & E).
    eexists _, tag. split; [reflexivity|]. split; [exact Htag|]. unfold aead_xchacha20_poly1305_open_gather. rewrite guard_true by reflexivity.
    rewrite (bind_Ok _ _ _ _ _ Ed). exact E.
Qed.
End instances.

(** ** The generic layer *)

Lemma splice_over_le (m : memory) p a b : 0 <= p -> zlen a <= zlen b -> p + zlen b <= zlen m -> splice (splice m p a) p b = splice m p b.
Proof.
  intros H1 H2 H3. pose proof (zlen_nonneg a). apply list_eq. intros i. rewrite !splice_lookup by (rewrite ?zlen_splice by lia; lia).
  repeat destruct (decide _); try lia; reflexivity.
Qed.

Section generic.
Context (methods : Z -> option EVP_AEAD) (a : EVP_AEAD) (sc : scheme) {I : Implements a sc}.
Context (ctx : EVP_AEAD_CTX) (Hctx : methods (aead ctx) = Some a) (Htl : 0 < tag_len ctx <= 16).
Notation tl := (tag_len ctx).

(** The arguments of [EVP_AEAD_CTX_seal] and [EVP_AEAD_CTX_open]: [len] bytes
    at [in_], and [room] bytes at [out], which is [in_] or apart from them. *)
Record one_shot (m : memory) (nonce : Z) (n : list byte) (in_ len ad : Z) (A : list byte) (out room : Z) : Prop := mk_one_shot {
  o_memory : zlen m < 2 ^ 64;
  o_nonce : nonce_is (sc_nonce_len sc) m (at_address nonce) n;
  o_ad : stored m ad A;
  o_out : 0 <= out /\ out + room <= zlen m;
  o_in_place : out = in_ \/ apart out room in_ len;
  o_apart : apart nonce (sc_nonce_len sc) out room /\ apart ad (zlen A) out room;
}.

Lemma apart_sub p n q k d : apart p n q k -> 0 <= d <= k -> apart p n (q + d) (k - d) /\ apart p n q d.
Proof. unfold apart. lia. Qed.

Lemma stored_nil (m : memory) : stored m 0 [].
Proof. pose proof (zlen_nonneg m). repeat split; [lia | change (0 <= zlen m); lia]. Qed.

Lemma EVP_seal_run m nonce n in_ P ad A out room : one_shot m nonce n in_ (zlen P) ad A out room -> stored m in_ P ->
  zlen P < MAX_IN_LEN -> zlen P + tl <= room ->
  exists tag, sc_tag sc ctx n A (sc_crypt sc ctx n P) tag /\
    EVP_AEAD_CTX_seal methods ctx out room nonce (sc_nonce_len sc) in_ (zlen P) ad (zlen A) m =
    (Ok (true, zlen P + tl), splice m out (sc_crypt sc ctx n P ++ ztake tl tag)).
Proof.
  intros [Hm Hn HA [Ho1 Ho2] Hip [Hno Hao]] HP HPl Hroom. pose proof (zlen_nonneg P) as HP0. pose proof HP as (P1 & P2 & _).
  destruct (apart_sub _ _ _ _ (zlen P) Hno ltac:(lia)) as [Hn1 Hn2]. destruct (apart_sub _ _ _ _ (zlen P) Hao ltac:(lia)) as [Ha1 Ha2].
  destruct (impl_seal ctx m nonce n in_ P ad A 0 [] out (out + zlen P) (room - zlen P) Htl) as (tag & Htag & E).
  { constructor; try assumption; try apply stored_nil; try lia; cbn [nonce_apart]; change (zlen []) with 0; unfold apart in *; lia. }
  { exact HPl. }
  { change (zlen []) with 0. lia. }
  rewrite app_nil_r in Htag, E. change (zlen []) with 0 in E. rewrite Z.add_0_l in E. cbv zeta in Htag, E.
  pose proof (impl_crypt_zlen ctx n P) as HC. set (C := sc_crypt sc ctx n P) in *. exists tag. split; [exact Htag|].
  unfold EVP_AEAD_CTX_seal. rewrite Hctx. unfold known. rewrite bind_ret. unfold or_clear. unfold MAX_IN_LEN in HPl.
  rewrite guard_true by (rewrite impl_overhead, wrap_small by (split; lia); apply negb_true_iff, Z.ltb_ge; lia).
  rewrite guard_true by (apply negb_true_iff, Z.ltb_ge; lia).
  rewrite guard_true by (apply (check_alias_ok m); try lia; destruct Hip as [->|Hip]; [auto | right; apply apart_swap, Hip]).
  rewrite (bind_Ok _ _ _ _ _ E). unfold ret at 1. rewrite (wrap_small 64) by (split; lia).
  pose proof (impl_tag_zlen ctx n A C tag Htag) as Hlt. pose proof (zlen_ztake tag tl ltac:(lia)) as Htt.
  rewrite (ztake_all C), (zdrop_big (zlen P) C) by lia. cbn [app].
  replace (out + zlen P) with (out + zlen C) by lia. rewrite splice_splice by lia. reflexivity.
Qed.

Lemma or_clear_ok m clear (s s1 : memory) r : m s = (Ok r, s1) -> or_clear m clear s = (Ok (true, r), s1).
Proof. intros H. unfold or_clear. rewrite H. reflexivity. Qed.

Lemma or_clear_fail m clear (s s1 s2 : memory) : m s = (Fail, s1) -> clear s1 = (Ok tt, s2) -> or_clear m clear s = (Ok (false, 0), s2).
Proof. intros H1 H2. unfold or_clear. rewrite H1, (bind_Ok _ _ _ _ _ H2). reflexivity. Qed.

Lemma EVP_open_gather_run m nonce n in_ C ad A out in_tag T : zlen m < 2 ^ 64 ->
  nonce_is (sc_nonce_len sc) m (at_address nonce) n -> stored m in_ C -> stored m ad A -> stored m in_tag T -> zlen T = tl ->
  0 <= out -> out + zlen C <= zlen m -> out = in_ \/ apart out (zlen C) in_ (zlen C) -> apart in_tag tl out (zlen C) -> zlen C < MAX_IN_LEN ->
  exists tag, sc_tag sc ctx n A C tag /\
    EVP_AEAD_CTX_open_gather methods ctx out nonce (sc_nonce_len sc) in_ (zlen C) in_tag tl ad (zlen A) m =
    (if bool_decide (ztake tl tag = T) then (Ok true, splice m out (sc_crypt sc ctx n C)) else (Ok false, splice m out (zeros (zlen C)))).
Proof.
  intros Hm Hn HC HA HT Hl Ho1 Ho2 Hip Hta HCl. pose proof (zlen_nonneg C) as HC0. pose proof HC as (C1 & C2 & _). pose proof (impl_crypt_zlen ctx n C) as Hz.
  destruct (impl_open_gather ctx m nonce n in_ C ad A out in_tag T Htl Hm Hn HC HA HT Hl Ho1 Ho2 Hip Hta HCl) as (og & tag & Eog & Htag & E).
  exists tag. split; [exact Htag|]. unfold EVP_AEAD_CTX_open_gather. rewrite Hctx. unfold known. rewrite bind_ret.
  assert (Halias : check_alias in_ (zlen C) out (zlen C) = true).
  { apply (check_alias_ok m); try lia. destruct Hip as [->|Hip]; [auto | right; apply apart_swap, Hip]. }
  destruct (bool_decide _).
  - rewrite (bind_Ok _ _ _ (true, zlen C) (splice m out (sc_crypt sc ctx n C))); [reflexivity|]. apply or_clear_ok. rewrite guard_true by exact Halias. rewrite Eog, (bind_Ok _ _ _ _ _ E). reflexivity.
  - rewrite (bind_Ok _ _ _ (false, 0) (splice m out (zeros (zlen C)))); [reflexivity|]. eapply or_clear_fail.
    + rewrite guard_true by exact Halias. rewrite Eog, (bind_Fail _ _ _ _ E). reflexivity.
    + assert (Hz1 : zlen (zeros (zlen C)) = zlen C) by (apply zlen_zeros; lia).
      rewrite write_run by (rewrite ?zlen_splice; lia). rewrite splice_over by lia. reflexivity.
Qed.

Lemma EVP_open_run m nonce n in_ C T ad A out room : one_shot m nonce n in_ (zlen C + tl) ad A out room -> stored m in_ (C ++ T) -> zlen T = tl ->
  zlen C < MAX_IN_LEN -> zlen C <= room ->
  exists tag, sc_tag sc ctx n A C tag /\
    EVP_AEAD_CTX_open methods ctx out room nonce (sc_nonce_len sc) in_ (zlen C + tl) ad (zlen A) m =
    (if bool_decide (ztake tl tag = T) then (Ok (true, zlen C), splice m out (sc_crypt sc ctx n C))
     else (Ok (false, 0), splice m out (zeros room))).
Proof.
  intros [Hm Hn HA [Ho1 Ho2] Hip [Hno Hao]] HCT HT HCl Hroom. pose proof (zlen_nonneg C) as HC0. pose proof HCT as (I1 & I2 & _).
  apply stored_two in HCT as [HC HTs]. rewrite zlen_app in I2.
  destruct (EVP_open_gather_run m nonce n in_ C ad A out (in_ + zlen C) T Hm Hn HC HA HTs HT) as (tag & Htag & E); try lia; try (unfold apart in *; lia).
  exists tag. split; [exact Htag|]. unfold EVP_AEAD_CTX_open. rewrite Hctx. unfold known. rewrite bind_ret.
  assert (Halias : check_alias in_ (zlen C + tl) out room = true).
  { apply (check_alias_ok m); try lia. destruct Hip as [->|Hip]; [auto | right; apply apart_swap, Hip]. }
  assert (Hopen : forall (k : bool -> M memory Z), bind (guard (check_alias in_ (zlen C + tl) out room)) (fun _ =>
    match Aead.open a with
    | Some open => open ctx out room nonce (sc_nonce_len sc) in_ (zlen C + tl) ad (zlen A)
    | None => must (negb (tl =? 0)) ;; guard (negb (zlen C + tl <? tl)) ;; guard (negb (room <? zlen C + tl - tl)) ;;
        ok <- EVP_AEAD_CTX_open_gather methods ctx out nonce (sc_nonce_len sc) in_ (zlen C + tl - tl) (in_ + (zlen C + tl - tl)) tl ad (zlen A) ;; k ok
    end) m = bind (EVP_AEAD_CTX_open_gather methods ctx out nonce (sc_nonce_len sc) in_ (zlen C) (in_ + zlen C) tl ad (zlen A)) k m).
  { intros k. rewrite guard_true by exact Halias. rewrite impl_open. replace (negb (tl =? 0)) with true by (symmetry; apply negb_true_iff, Z.eqb_neq; lia).
    unfold must. rewrite bind_ret, guard_true by (apply negb_true_iff, Z.ltb_ge; lia). replace (zlen C + tl - tl) with (zlen C) by lia.
    rewrite guard_true by (apply negb_true_iff, Z.ltb_ge; lia). reflexivity. }
  destruct (bool_decide _).
  - apply or_clear_ok. rewrite Hopen, (bind_Ok _ _ _ _ _ E). replace (zlen C + tl - tl) with (zlen C) by lia. reflexivity.
  - eapply or_clear_fail; [rewrite Hopen, (bind_Ok _ _ _ _ _ E); reflexivity|].
    assert (Hz1 : zlen (zeros (zlen C)) = zlen C) by (apply zlen_zeros; lia). assert (Hz2 : zlen (zeros room) = room) by (apply zlen_zeros; lia).
    rewrite write_run by (rewrite ?zlen_splice; lia). rewrite splice_over_le by lia. reflexivity.
Qed.
End generic.

(** ** Errors *)

Lemma zeros_lookup n i : (i < Z.to_nat n)%nat -> zeros n !! i = Some Byte.x00.
Proof.
  unfold zeros. intros H. revert i H. induction (Z.to_nat n) as [|k IH]; intros [|i] H; try lia; [reflexivity|]. apply (IH i). lia.
Qed.

(** Zeros stay zeros when others are written. *)
Lemma zeros_splice m p n q k : stored m p (zeros n) -> 0 <= n -> 0 <= k -> 0 <= q -> q + k <= zlen m -> stored (splice m q (zeros k)) p (zeros n).
Proof.
  intros (H1 & H2 & H3) Hn Hk Hq1 Hq2. rewrite zlen_zeros in H2, H3 by lia.
  assert (Hz : zlen (zeros k) = k) by (apply zlen_zeros; lia). unfold stored. rewrite zlen_zeros, zlen_splice by lia. repeat split; try lia.
  apply list_eq. intros i. rewrite slice_lookup, splice_lookup by lia. rewrite <- H3. rewrite slice_lookup by lia.
  destruct (decide (Z.of_nat i < n)) as [Hi|]; [|reflexivity]. destruct (decide _); [|reflexivity].
  assert (Hm : m !! (Z.to_nat p + i)%nat = zeros n !! i) by (rewrite <- H3, slice_lookup by lia; destruct (decide _); [reflexivity | lia]).
  rewrite Hm, !zeros_lookup by lia. reflexivity.
Qed.

(** [room] bytes at [out] are zeros. *)
Definition cleared (m : memory) (out room : Z) : Prop := room = 0 \/ stored m out (zeros room).

Lemma write_zeros_inv m p n m' : 0 <= n -> write p (zeros n) m = (Ok tt, m') -> cleared m' p n /\
  (forall q k, 0 <= k -> cleared m q k -> cleared m' q k).
Proof.
  intros Hn H. assert (Hz : zlen (zeros n) = n) by (apply zlen_zeros; lia).
  destruct (write_inv _ _ _ _ H) as [[E ->]|(H1 & H2 & ->)]; [split; [left; lia | auto]|]. split; [right; apply stored_splice_same; lia|].
  intros q k Hk [->|Hq]; [left; reflexivity | right; apply zeros_splice; try lia; exact Hq].
Qed.

Lemma or_clear_false m clear (s s' : memory) r : or_clear m clear s = (Ok (false, r), s') -> exists s1, r = 0 /\ clear s1 = (Ok tt, s').
Proof.
  unfold or_clear. destruct (m s) as [[x| |] s1]; [discriminate| |discriminate]. unfold bind. destruct (clear s1) as [[[]| |] s2] eqn:E; try discriminate.
  intros [= <- <-]. eauto.
Qed.

Lemma known_inv {S A B} (v : option A) (k : A -> M S B) s r : bind (known v) k s = r -> fst r <> Stuck -> exists x, v = Some x /\ k x s = r.
Proof. intros <- H. destruct v as [x|]; [exists x; auto | destruct (H eq_refl)]. Qed.

(** C37: Whatever the method table does and for whatever reason sealing or opening
    fails, the length that is returned is 0 and the whole output buffer holds
    zeros, so a caller who does not look at the status never gets plaintext or
    unauthenticated data. *)
Theorem aead_errors_clear methods ctx m m' out room out_tag nonce nonce_len in_ in_len extra extra_len in_tag in_tag_len ad ad_len r :
  0 <= room -> 0 <= in_len ->
  (EVP_AEAD_CTX_seal methods ctx out room nonce nonce_len in_ in_len ad ad_len m = (Ok (false, r), m') -> r = 0 /\ cleared m' out room) /\
  (EVP_AEAD_CTX_open methods ctx out room nonce nonce_len in_ in_len ad ad_len m = (Ok (false, r), m') -> r = 0 /\ cleared m' out room) /\
  (EVP_AEAD_CTX_seal_scatter methods ctx out out_tag room nonce nonce_len in_ in_len extra extra_len ad ad_len m = (Ok (false, r), m') ->
    r = 0 /\ cleared m' out in_len /\ cleared m' out_tag room) /\
  (EVP_AEAD_CTX_open_gather methods ctx out nonce nonce_len in_ in_len in_tag in_tag_len ad ad_len m = (Ok false, m') -> cleared m' out in_len).
Proof.
  intros Hr Hl. split; [|split; [|split]]; intros H; apply known_inv in H as (a & _ & H); try discriminate.
  - apply or_clear_false in H as (s1 & -> & H). split; [reflexivity|]. exact (proj1 (write_zeros_inv _ _ _ _ Hr H)).
  - apply or_clear_false in H as (s1 & -> & H). split; [reflexivity|]. exact (proj1 (write_zeros_inv _ _ _ _ Hr H)).
  - apply or_clear_false in H as (s1 & -> & H). apply bind_inv in H as ([] & s2 & H1 & H2).
    destruct (write_zeros_inv _ _ _ _ Hl H1) as [C1 _]. destruct (write_zeros_inv _ _ _ _ Hr H2) as [C2 K]. auto.
  - apply bind_inv in H as ([ok r1] & s2 & H & E). injection E as -> ->.
    apply or_clear_false in H as (s1 & _ & H). exact (proj1 (write_zeros_inv _ _ _ _ Hl H)).
Qed.

(** [EVP_AEAD_CTX_new] writes to the context before it looks whether there is one. *)
Example ctx_new_without_memory : fst (EVP_AEAD_CTX_new (const_aeads (zeros 16)) EVP_aead_chacha20_poly1305 (zeros 32) 0 (0 : Z)) = Stuck.
Proof. reflexivity. Qed.

(** ** The theorems about what is sealed and opened *)

(** C25: For every AEAD that keeps the promises of [Implements], sealing a message
    succeeds and what it writes opens to the message again, in any memory to
    which the nonce, the associated data and the sealed bytes have come, in place
    or not; nothing else in either memory changes. *)
Theorem aead_roundtrip methods a sc {I : Implements a sc} ctx m nonce n in_ P ad A out room :
  methods (aead ctx) = Some a -> 0 < tag_len ctx <= 16 ->
  one_shot sc m nonce n in_ (zlen P) ad A out room -> stored m in_ P -> zlen P < MAX_IN_LEN -> zlen P + tag_len ctx <= room ->
  exists sealed, zlen sealed = zlen P + tag_len ctx /\
    EVP_AEAD_CTX_seal methods ctx out room nonce (sc_nonce_len sc) in_ (zlen P) ad (zlen A) m = (Ok (true, zlen sealed), splice m out sealed) /\
    forall m2 nonce2 in2 ad2 out2 room2,
      one_shot sc m2 nonce2 n in2 (zlen sealed) ad2 A out2 room2 -> stored m2 in2 sealed -> zlen P <= room2 ->
      EVP_AEAD_CTX_open methods ctx out2 room2 nonce2 (sc_nonce_len sc) in2 (zlen sealed) ad2 (zlen A) m2 = (Ok (true, zlen P), splice m2 out2 P).
Proof.
  intros Hctx Htl Ho HP HPl Hroom. destruct (EVP_seal_run methods a sc ctx Hctx Htl m nonce n in_ P ad A out room Ho HP HPl Hroom) as (tag & Htag & E).
  pose proof (impl_crypt_zlen ctx n P) as HC. set (C := sc_crypt sc ctx n P) in *. pose proof (impl_tag_zlen ctx n A C tag Htag) as Hlt.
  pose proof (zlen_ztake tag (tag_len ctx) ltac:(lia)) as Htt. exists (C ++ ztake (tag_len ctx) tag).
  assert (Hlen : zlen (C ++ ztake (tag_len ctx) tag) = zlen C + tag_len ctx) by (rewrite zlen_app; lia).
  rewrite Hlen, HC. split; [reflexivity|]. split; [exact E|]. intros m2 nonce2 in2 ad2 out2 room2 Ho2 Hs Hr2. rewrite <- HC in *.
  destruct (EVP_open_run methods a sc ctx Hctx Htl m2 nonce2 n in2 C _ ad2 A out2 room2 Ho2 Hs Htt HPl Hr2) as (tag2 & Htag2 & E2).
  rewrite (impl_tag_unique ctx n A C _ _ Htag2 Htag), bool_decide_true in E2 by reflexivity. rewrite E2.
  unfold C. rewrite impl_crypt_twice. reflexivity.
Qed.

(** What opening does, for any AEAD with the promises. *)
Lemma open_exact_run methods a sc {I : Implements a sc} ctx m nonce n in_ C T ad A out room :
  methods (aead ctx) = Some a -> 0 < tag_len ctx <= 16 ->
  one_shot sc m nonce n in_ (zlen C + tag_len ctx) ad A out room -> stored m in_ (C ++ T) -> zlen T = tag_len ctx ->
  zlen C < MAX_IN_LEN -> zlen C <= room ->
  exists tag, sc_tag sc ctx n A C tag /\
    (T = ztake (tag_len ctx) tag ->
      EVP_AEAD_CTX_open methods ctx out room nonce (sc_nonce_len sc) in_ (zlen C + tag_len ctx) ad (zlen A) m = (Ok (true, zlen C), splice m out (sc_crypt sc ctx n C))) /\
    (T <> ztake (tag_len ctx) tag ->
      EVP_AEAD_CTX_open methods ctx out room nonce (sc_nonce_len sc) in_ (zlen C + tag_len ctx) ad (zlen A) m = (Ok (false, 0), splice m out (zeros room))).
Proof.
  intros Hctx Htl Ho Hs HT HCl Hroom. destruct (EVP_open_run methods a sc ctx Hctx Htl m nonce n in_ C T ad A out room Ho Hs HT HCl Hroom) as (tag & Htag & E).
  exists tag. split; [exact Htag|]. rewrite E. split; intros Heq.
  - rewrite bool_decide_true by congruence. reflexivity.
  - rewrite bool_decide_false by congruence. reflexivity.
Qed.

(** The key, the length of the nonce and the nonce with which an AEAD uses ChaCha20. *)
Definition derived (p : Z) (key n : list byte) : Z * list byte * list byte :=
  if p =? EVP_aead_chacha20_poly1305 then (12, key, n) else (24, hchacha_key key (ztake 16 n), zeros 4 ++ zdrop 16 n).

Lemma init_ready garbage p key tl ctx0 : p = EVP_aead_chacha20_poly1305 \/ p = EVP_aead_xchacha20_poly1305 -> zlen key = 32 -> 0 <= tl <= 16 ->
  zlen (state ctx0) = 580 ->
  exists ctx, EVP_AEAD_CTX_init (const_aeads garbage) p key tl ctx0 = (Ok tt, ctx) /\ aead ctx = p /\ c20_key ctx = key /\
    tag_len ctx = (if tl =? 0 then 16 else tl).
Proof.
  intros Hp Hk Htl Hs. set (tl' := if tl =? 0 then 16 else tl). assert (Htl' : 0 <= tl' <= 16) by (unfold tl'; destruct (tl =? 0); lia).
  exists (mk_ctx p (splice (state ctx0) 0 key) tl'). assert (E : EVP_AEAD_CTX_init (const_aeads garbage) p key tl ctx0 = (Ok tt, mk_ctx p (splice (state ctx0) 0 key) tl')).
  { unfold EVP_AEAD_CTX_init, EVP_AEAD_CTX_init_with_direction.
    assert (Ha : exists a, const_aeads garbage p = Some a /\ init a = Some aead_chacha20_poly1305_init /\ key_len a = 32).
    { destruct Hp as [-> | ->]; eexists; repeat split. }
    destruct Ha as (a & -> & Ei & El). unfold known. rewrite bind_ret, Ei. unfold or_unset at 1. unfold guard at 1. unfold bind at 1. cbn [ret].
    rewrite bind_ret, El, Hk. change (or_unset (guard (32 =? 32))) with (or_unset (@ret EVP_AEAD_CTX unit tt)). unfold or_unset at 1, bind at 1. cbn [ret].
    unfold set_aead at 1. rewrite bind_assoc, bind_get, bind_put. unfold or_unset. rewrite Ei. unfold aead_chacha20_poly1305_init. change POLY1305_TAG_LEN with 16. fold tl'.
    rewrite guard_true by (apply negb_true_iff, Z.ltb_ge; lia). rewrite guard_true by (apply Z.eqb_eq; exact Hk). rewrite bind_get. cbn [put aead state].
    rewrite (wrap_small 8) by (split; lia). reflexivity. }
  split; [exact E|]. split; [reflexivity|]. split; [|reflexivity]. unfold c20_key, splice. cbn [state aead]. change (ztake 0 (state ctx0)) with (@nil Init.Byte.byte). cbn [app].
  apply ztake_app. lia.
Qed.

Lemma sealing_aliases l m nonce n in_ P ad A extra X out out_tag room : 0 <= room -> sealing l m nonce n in_ P ad A extra X out out_tag room ->
  negb (check_alias in_ (zlen P) out (zlen P)) || buffers_alias 64 out (zlen P) out_tag room || buffers_alias 64 in_ (zlen P) out_tag room = false.
Proof.
  intros Hr [Hm Hn (P1 & P2 & _) HA HX [Ho1 Ho2] [Ht1 Ht2] Hip _ _ _ [Hit Hot]]. pose proof (zlen_nonneg P).
  rewrite (not_alias out), (not_alias in_) by (lia || assumption).
  assert (Hok : check_alias in_ (zlen P) out (zlen P) = true); [|rewrite Hok; reflexivity].
  apply (check_alias_ok m); try lia. destruct Hip as [->|Hip]; [auto | right; apply apart_swap, Hip].
Qed.

Definition scheme_of (p : Z) : scheme := if p =? EVP_aead_chacha20_poly1305 then chacha20_poly1305 else xchacha20_poly1305.

(** The schemes of the two AEADs are ChaCha20 and Poly1305 with the derived key
    and nonce. *)
Lemma scheme_derived garbage p ctx n l k nn : zlen garbage = 16 -> p = EVP_aead_chacha20_poly1305 \/ p = EVP_aead_xchacha20_poly1305 ->
  derived p (c20_key ctx) n = (l, k, nn) ->
  exists a, const_aeads garbage p = Some a /\ Implements a (scheme_of p) /\ sc_nonce_len (scheme_of p) = l /\
    (forall text, sc_crypt (scheme_of p) ctx n text = crypt k nn text) /\
    (forall A c tag, sc_tag (scheme_of p) ctx n A c tag -> tag_for k nn A c tag).
Proof.
  intros Hg Hp. unfold derived, scheme_of. destruct (Z.eqb_spec p EVP_aead_chacha20_poly1305) as [->|Hne];
    intros Ed; apply pair_equal_spec in Ed as [Ed <-]; apply pair_equal_spec in Ed as [<- <-].
  - exists (aead_chacha20_poly1305 garbage).
    split; [reflexivity|]. split; [exact (chacha20_poly1305_implements garbage Hg)|]. split; [reflexivity|]. split; [reflexivity | auto].
  - destruct Hp as [->| ->]; [congruence|]. exists (aead_xchacha20_poly1305 garbage).
    split; [reflexivity|]. split; [exact (xchacha20_poly1305_implements garbage Hg)|]. split; [reflexivity|]. split; [reflexivity | auto].
Qed.

(** C26: A context that [EVP_AEAD_CTX_init] has set up for either AEAD opens a
    ciphertext with exactly one tag and then writes its text, the ciphertext XORed
    with the key stream; for every other tag it fails, reports the length 0 and
    fills the whole output with zeros.  The accepted tag is the one of RFC 8439
    for the ciphertext and the associated data, cut to the tag length, unless the
    last carry of Poly1305 is lost; XChaCha20 derives its key and nonce first. *)
Theorem aead_open_exact garbage p key tl0 ctx0 m nonce n in_ C T ad A out room :
  let '(nonce_len, k, nn) := derived p key n in
  let tl := if tl0 =? 0 then 16 else tl0 in
  let mac_key := ztake 32 (chacha_block k nn 0) in
  zlen garbage = 16 -> p = EVP_aead_chacha20_poly1305 \/ p = EVP_aead_xchacha20_poly1305 -> zlen key = 32 -> 0 <= tl0 <= 16 -> zlen (state ctx0) = 580 ->
  one_shot (scheme_of p) m nonce n in_ (zlen C + tl) ad A out room -> stored m in_ (C ++ T) -> zlen T = tl ->
  zlen C < MAX_IN_LEN -> zlen C <= room ->
  exists ctx tag, EVP_AEAD_CTX_init (const_aeads garbage) p key tl0 ctx0 = (Ok tt, ctx) /\ zlen tag = 16 /\
    (~ lost_carry (polynomial mac_key (mac_data A C)) -> tag = poly1305_mac mac_key (mac_data A C)) /\
    (T = ztake tl tag ->
      EVP_AEAD_CTX_open (const_aeads garbage) ctx out room nonce nonce_len in_ (zlen C + tl) ad (zlen A) m =
        (Ok (true, zlen C), splice m out (xor_bytes C (key_stream (blocks_for (zlen C)) k nn 1)))) /\
    (T <> ztake tl tag ->
      EVP_AEAD_CTX_open (const_aeads garbage) ctx out room nonce nonce_len in_ (zlen C + tl) ad (zlen A) m =
        (Ok (false, 0), splice m out (zeros room))).
Proof.
  destruct (derived p key n) as [[l k] nn] eqn:Ed. cbv zeta. intros Hg Hp Hk Htl Hs Ho HC HT HCl Hroom.
  destruct (init_ready garbage p key tl0 ctx0 Hp Hk Htl Hs) as (ctx & Ei & Ea & Ek & Et). rewrite <- Et in *.
  assert (Htl' : 0 < tag_len ctx <= 16) by (rewrite Et; destruct (Z.eqb_spec tl0 0); lia).
  rewrite <- Ek in Ed. destruct (scheme_derived garbage p ctx n l k nn Hg Hp Ed) as (a & Ha & HI & El & Ec & Htag). rewrite <- Ea in Ha.
  destruct (open_exact_run (const_aeads garbage) a (scheme_of p) ctx m nonce n in_ C T ad A out room Ha Htl' Ho HC HT HCl Hroom) as (tag & Ht & Hacc & Hrej).
  rewrite El in Hacc, Hrej. rewrite Ec in Hacc. apply Htag in Ht as (_ & Hlen & Hmac). exists ctx, tag.
  split; [exact Ei|]. split; [exact Hlen|]. split; [exact Hmac|]. split; [exact Hacc | exact Hrej].
Qed.

(** C24: A context that [EVP_AEAD_CTX_init] has set up for either AEAD, with any key
    of 32 bytes and any length of tags up to 16 (0 stands for 16), seals as RFC
    8439 says: the text and the extra input, together not longer than the 2^38 - 64
    bytes for which the RFC defines a key stream, are XORed with the ChaCha20 key
    stream from block 1 on, and the tag is the Poly1305 of the padded associated
    data and ciphertext and their lengths, under a key from block 0, unless the
    last carry of Poly1305 is lost; XChaCha20 derives its key and nonce first. *)
Theorem aead_seals_rfc8439 garbage p key tl0 ctx0 m nonce n in_ P ad A extra X out out_tag room :
  let '(nonce_len, k, nn) := derived p key n in
  let tl := if tl0 =? 0 then 16 else tl0 in
  let mac_key := ztake 32 (chacha_block k nn 0) in
  zlen garbage = 16 -> p = EVP_aead_chacha20_poly1305 \/ p = EVP_aead_xchacha20_poly1305 -> zlen key = 32 -> 0 <= tl0 <= 16 -> zlen (state ctx0) = 580 ->
  sealing nonce_len m (at_address nonce) n in_ P ad A extra X out out_tag room -> zlen P < MAX_IN_LEN -> zlen (P ++ X) <= 2 ^ 38 - 64 -> zlen X + tl <= room ->
  exists ctx C CX tag, EVP_AEAD_CTX_init (const_aeads garbage) p key tl0 ctx0 = (Ok tt, ctx) /\
    EVP_AEAD_CTX_seal_scatter (const_aeads garbage) ctx out out_tag room nonce nonce_len in_ (zlen P) extra (zlen X) ad (zlen A) m =
      (Ok (true, zlen X + tl), splice (splice m out C) out_tag (CX ++ ztake tl tag)) /\
    zlen C = zlen P /\ C ++ CX = xor_bytes (P ++ X) (key_stream (blocks_for (zlen (P ++ X))) k nn 1) /\
    (~ lost_carry (polynomial mac_key (mac_data A (C ++ CX))) -> tag = poly1305_mac mac_key (mac_data A (C ++ CX))).
Proof.
  destruct (derived p key n) as [[l k] nn] eqn:Ed. cbv zeta. intros Hg Hp Hk Htl Hs Hseal HP _ Hroom. pose proof (zlen_nonneg X).
  destruct (init_ready garbage p key tl0 ctx0 Hp Hk Htl Hs) as (ctx & Ei & Ea & Ek & Et). set (tl := if tl0 =? 0 then 16 else tl0) in *.
  assert (Htl' : 0 < tag_len ctx <= 16) by (rewrite Et; unfold tl; destruct (Z.eqb_spec tl0 0); lia).
  rewrite <- Ek in Ed. destruct (scheme_derived garbage p ctx n l k nn Hg Hp Ed) as (a & Ha & HI & El & Ec & Htag). rewrite <- El in Hseal.
  destruct (impl_seal ctx m nonce n in_ P ad A extra X out out_tag room Htl' Hseal HP ltac:(rewrite Et; lia)) as (tag & Ht & E). cbv zeta in Ht, E.
  rewrite Ec in Ht, E. apply Htag in Ht as (_ & _ & Hmac). destruct (split_crypt k nn P X) as [E1 E2].
  exists ctx, (crypt k nn P), (crypt_extra k nn (zlen P) X), tag. split; [exact Ei|]. split; [|split; [apply crypt_zlen|]].
  - unfold EVP_AEAD_CTX_seal_scatter. rewrite Ea, Ha. unfold known. rewrite bind_ret. apply or_clear_ok.
    assert (Hr : 0 <= room) by lia. rewrite guard_true by (apply negb_true_iff; exact (sealing_aliases _ _ _ _ _ _ _ _ _ _ _ _ _ Hr Hseal)). rewrite impl_extra.
    rewrite guard_true by reflexivity. rewrite <- El, E, E1, E2, Et. reflexivity.
  - rewrite <- crypt_app. split; [reflexivity | exact Hmac].
Qed.

(** The limit on the length of the text does not count the extra input: after
    a text of 2^38 - 65 bytes, the longest that is accepted, the block counter
    wraps to 0 at the second byte of extra input, and up to 32 further bytes are
    encrypted with the very bytes that are the Poly1305 key of the message. *)
Theorem extra_input_wraps key n (m : memory) nonce out_tag extra x X :
  zlen X <= 32 -> nonce_is 12 m nonce n -> stored m extra (x :: X) -> 0 <= out_tag -> out_tag + (1 + zlen X) <= zlen m ->
  apart extra (1 + zlen X) out_tag (1 + zlen X) -> nonce_apart 12 nonce out_tag (1 + zlen X) ->
  exists m', MAX_IN_LEN - 1 < MAX_IN_LEN /\ seal_extra_in key nonce (MAX_IN_LEN - 1) out_tag extra (1 + zlen X) m = (Ok tt, m') /\
    stored m' (out_tag + 1) (xor_bytes X (one_time_key key n)).
Proof.
  intros HX Hn Hs H1 H2 Ha Hna. pose proof (zlen_nonneg X) as HX0. rewrite <- (zlen_cons x X) in *. eexists. split; [lia|].
  split; [apply (seal_extra_in_run key n); try assumption; unfold MAX_IN_LEN; lia|].
  unfold crypt_extra. change ((MAX_IN_LEN - 1) mod 64) with 63. change ((1 + (MAX_IN_LEN - 1) / 64) mod 2 ^ 32) with (2 ^ 32 - 1).
  rewrite zlen_cons in *. pose proof (chacha_block_zlen key n (2 ^ 32 - 1) ltac:(split; lia)) as Z1.
  set (k := blocks_for (63 + (1 + zlen X))).
  assert (Hk : (1 <= k)%nat) by (pose proof (blocks_for_enough (63 + (1 + zlen X)) ltac:(lia)); fold k in H; lia).
  destruct k as [|k'] eqn:Ek; [lia|]. cbn [key_stream]. change ((2 ^ 32 - 1 + 1) mod 2 ^ 32) with 0.
  set (ks := key_stream k' key n 0). set (b1 := chacha_block key n (2 ^ 32 - 1)) in *.
  assert (Ez : zdrop 63 (b1 ++ ks) = znth b1 63 :: ks).
  { unfold zdrop. rewrite drop_app_le by (unfold zlen in Z1; lia). fold (zdrop 63 b1). rewrite zdrop_znth, (zdrop_big (63 + 1) b1) by lia. reflexivity. }
  rewrite Ez. unfold xor_bytes at 1. cbn [zip_with]. fold (xor_bytes X ks). set (b := b8 _).
  assert (Eks : xor_bytes X ks = xor_bytes X (one_time_key key n)).
  { destruct k' as [|k''].
    - assert (zlen X = 0) as E0.
      { pose proof (blocks_for_enough (63 + (1 + zlen X)) ltac:(lia)) as Hb. fold k in Hb. rewrite Ek in Hb. lia. }
      rewrite (nil_of_zlen X E0). reflexivity.
    - unfold ks. cbn [key_stream]. pose proof (chacha_block_zlen key n 0 ltac:(split; lia)) as Z0. set (b0 := chacha_block key n 0) in *.
      rewrite (xor_bytes_prefix X (b0 ++ _)), (xor_bytes_prefix X (one_time_key key n));
        try (rewrite ?length_app; pose proof (one_time_key_zlen key n); unfold zlen in *; lia).
      f_equal. rewrite take_app_le by (unfold zlen in *; lia). unfold one_time_key. fold b0. unfold ztake. rewrite take_take. f_equal. unfold zlen in *. lia. }
  rewrite Eks. assert (Hlen : zlen (xor_bytes X (one_time_key key n)) = zlen X) by (apply zlen_xor; rewrite one_time_key_zlen; lia).
  change (b :: xor_bytes X (one_time_key key n)) with ([b] ++ xor_bytes X (one_time_key key n)).
  apply (stored_two _ out_tag [b]). apply stored_splice_same; [lia|]. rewrite zlen_app, Hlen. exact H2.
Qed.

(** ** Examples *)

(** The message of RFC 8439, section 2.8.2, and its tag. *)
Definition sunscreen_key : list byte := map (fun i => b8 (128 + Z.of_nat i)) (seq 0 32).
Definition sunscreen_nonce : list byte := bytes [7; 0; 0; 0; 64; 65; 66; 67; 68; 69; 70; 71].
Definition sunscreen_ad : list byte := bytes [80; 81; 82; 83; 192; 193; 194; 195; 196; 197; 198; 199].
Definition sunscreen : list byte := bytes
  [76; 97; 100; 105; 101; 115; 32; 97; 110; 100; 32; 71; 101; 110; 116; 108; 101; 109; 101; 110;
   32; 111; 102; 32; 116; 104; 101; 32; 99; 108; 97; 115; 115; 32; 111; 102; 32; 39; 57; 57;
   58; 32; 73; 102; 32; 73; 32; 99; 111; 117; 108; 100; 32; 111; 102; 102; 101; 114; 32; 121;
   111; 117; 32; 111; 110; 108; 121; 32; 111; 110; 101; 32; 116; 105; 112; 32; 102; 111; 114; 32;
   116; 104; 101; 32; 102; 117; 116; 117; 114; 101; 44; 32; 115; 117; 110; 115; 99; 114; 101; 101;
   110; 32; 119; 111; 117; 108; 100; 32; 98; 101; 32; 105; 116; 46].
Definition sunscreen_tag : list byte := bytes [26; 225; 11; 89; 79; 9; 226; 106; 126; 144; 46; 203; 208; 96; 6; 145].

(** The nonce at 0, the associated data at 24, the text at 40, extra input at
    160, room for the ciphertext at 170 and for the tag at 290. *)
Definition example_memory : memory :=
  splice (splice (splice (splice (zeros 320) 0 sunscreen_nonce) 24 sunscreen_ad) 40 sunscreen) 160 (bytes [1; 2]).
Definition example_ctx : EVP_AEAD_CTX := mk_ctx EVP_aead_chacha20_poly1305 (sunscreen_key ++ zeros 548) 16.

Example sunscreen_sealed : match EVP_AEAD_CTX_seal (const_aeads (zeros 16)) example_ctx 170 150 0 12 40 114 24 12 example_memory with
  | (Ok (true, 130), m) => slice m 284 16 = sunscreen_tag
  | _ => False
  end.
Proof. vm_compute. reflexivity. Qed.

Lemma example_stored p bs : slice example_memory p (zlen bs) = bs -> 0 <= p -> p + zlen bs <= 320 -> stored example_memory p bs.
Proof. intros H1 H2 H3. split; [exact H2|]. split; [exact H3 | exact H1]. Qed.

Lemma example_one_shot in_ len out room : 36 <= out -> out + room <= 320 -> out = in_ \/ apart out room in_ len ->
  one_shot chacha20_poly1305 example_memory 0 sunscreen_nonce in_ len 24 sunscreen_ad out room.
Proof.
  intros H1 H2 Hip. constructor; try exact Hip.
  - reflexivity.
  - split; [reflexivity | apply example_stored; [vm_compute; reflexivity | lia | discriminate]].
  - apply example_stored; [vm_compute; reflexivity | lia | discriminate].
  - split; [lia | exact H2].
  - unfold apart. change (zlen sunscreen_ad) with 12. cbn [sc_nonce_len chacha20_poly1305]. lia.
Qed.

(** A text longer than the output. *)
Lemma aead_errors_clear_witness : 0 <= 8 /\ 0 <= 9 /\
  exists m', EVP_AEAD_CTX_seal (const_aeads (zeros 16)) example_ctx 200 8 0 12 40 9 24 12 example_memory = (Ok (false, 0), m') /\ cleared m' 200 8.
Proof.
  split; [lia|]. split; [lia|]. eexists. split; [vm_compute; reflexivity|].
  refine (proj2 (proj1 (aead_errors_clear (const_aeads (zeros 16)) example_ctx example_memory _ 200 8 0 0 12 40 9 0 0 0 0 24 12 0 _ _) _));
    [lia | lia | vm_compute; reflexivity].
Defined.

(** Sealed to another place and opened there, in place. *)
Lemma aead_roundtrip_witness : exists sealed m,
  EVP_AEAD_CTX_seal (const_aeads (zeros 16)) example_ctx 170 150 0 12 40 114 24 12 example_memory = (Ok (true, 130), m) /\ m = splice example_memory 170 sealed /\
  EVP_AEAD_CTX_open (const_aeads (zeros 16)) example_ctx 170 150 0 12 170 130 24 12 m = (Ok (true, 114), splice m 170 sunscreen).
Proof.
  pose proof (chacha20_poly1305_implements (zeros 16) eq_refl) as HI.
  destruct (aead_roundtrip (const_aeads (zeros 16)) _ chacha20_poly1305 example_ctx example_memory 0 sunscreen_nonce 40 sunscreen 24 sunscreen_ad 170 150) as (sealed & Hl & E & Hopen).
  - reflexivity.
  - cbn. lia.
  - apply example_one_shot; [lia | lia | right; unfold apart; change (zlen sunscreen) with 114; lia].
  - apply example_stored; [vm_compute; reflexivity | lia | discriminate].
  - reflexivity.
  - cbn [tag_len example_ctx]. change (zlen sunscreen) with 114. lia.
  - change (zlen sunscreen + tag_len example_ctx) with 130 in Hl. exists sealed, (splice example_memory 170 sealed). split; [rewrite Hl in E; exact E|]. split; [reflexivity|].
    rewrite Hl in Hopen. apply Hopen.
    + destruct (example_one_shot 170 130 170 150) as [_ [Hn1 Hn2] Ha _ _ Hap]; try lia. change (zlen example_memory) with 320 in *.
      assert (Hm : zlen (splice example_memory 170 sealed) = 320) by (apply (zlen_splice example_memory); [lia | rewrite Hl; discriminate]).
      constructor; try lia; try exact Hap.
      * split; [exact Hn1|]. apply stored_splice; [exact Hn2 | lia | rewrite Hl; discriminate | rewrite Hl; left; discriminate].
      * apply stored_splice; [exact Ha | lia | rewrite Hl; discriminate | rewrite Hl; left; discriminate].
    + apply stored_splice_same; [lia | rewrite Hl; discriminate].
    + discriminate.
Defined.

(** The message of the RFC at 170, with its tag and with another one. *)
Definition example_ciphertext : list byte := crypt sunscreen_key sunscreen_nonce sunscreen.

Lemma aead_open_exact_witness : exists (ctx : EVP_AEAD_CTX) (tag : list byte),
  let m := splice example_memory 170 (example_ciphertext ++ sunscreen_tag) in
  (sunscreen_tag = ztake 16 tag -> exists text, EVP_AEAD_CTX_open (const_aeads (zeros 16)) ctx 40 114 0 12 170 130 24 12 m = (Ok (true, 114), splice m 40 text)) /\
  (sunscreen_tag <> ztake 16 tag -> EVP_AEAD_CTX_open (const_aeads (zeros 16)) ctx 40 114 0 12 170 130 24 12 m = (Ok (false, 0), splice m 40 (zeros 114))).
Proof.
  assert (HC : zlen example_ciphertext = 114) by (unfold example_ciphertext; rewrite crypt_zlen; reflexivity).
  assert (Hct : zlen (example_ciphertext ++ sunscreen_tag) = 130) by (rewrite zlen_app, HC; reflexivity).
  set (m := splice example_memory 170 (example_ciphertext ++ sunscreen_tag)). cbv zeta.
  destruct (aead_open_exact (zeros 16) EVP_aead_chacha20_poly1305 sunscreen_key 0 (mk_ctx 0 (zeros 580) 0) m 0 sunscreen_nonce 170 example_ciphertext sunscreen_tag 24 sunscreen_ad 40 114)
    as (ctx & tag & _ & _ & _ & Hacc & Hrej).
  - reflexivity.
  - left. reflexivity.
  - reflexivity.
  - lia.
  - reflexivity.
  - destruct (example_one_shot 170 130 40 114) as [_ [Hn1 Hn2] Ha _ Hip Hap]; [lia | lia | right; unfold apart; lia|].
    assert (Hm : zlen m = 320) by (apply (zlen_splice example_memory); [lia | rewrite Hct; discriminate]).
    change (scheme_of EVP_aead_chacha20_poly1305) with chacha20_poly1305. cbn [Z.eqb].
    constructor; rewrite ?HC; try exact Hap; try exact Hip.
    + rewrite Hm. reflexivity.
    + split; [exact Hn1|]. apply stored_splice; [exact Hn2 | lia | rewrite Hct; discriminate | rewrite Hct; left; discriminate].
    + apply stored_splice; [exact Ha | lia | rewrite Hct; discriminate | rewrite Hct; left; discriminate].
    + rewrite Hm. lia.
  - apply stored_splice_same; [lia | rewrite Hct; discriminate].
  - reflexivity.
  - rewrite HC. reflexivity.
  - rewrite HC. discriminate.
  - rewrite HC in Hacc, Hrej. exists ctx, tag. split; [intros E; eexists; exact (Hacc E) | exact Hrej].
Defined.

(** Two bytes of extra input. *)
Lemma aead_seals_rfc8439_witness : zlen sunscreen_key = 32 /\
  exists ctx C CX tag, EVP_AEAD_CTX_init (const_aeads (zeros 16)) EVP_aead_chacha20_poly1305 sunscreen_key 0 (mk_ctx 0 (zeros 580) 0) = (Ok tt, ctx) /\
    EVP_AEAD_CTX_seal_scatter (const_aeads (zeros 16)) ctx 170 290 18 0 12 40 114 160 2 24 12 example_memory =
      (Ok (true, 18), splice (splice example_memory 170 C) 290 (CX ++ ztake 16 tag)).
Proof.
  split; [reflexivity|].
  destruct (aead_seals_rfc8439 (zeros 16) EVP_aead_chacha20_poly1305 sunscreen_key 0 (mk_ctx 0 (zeros 580) 0) example_memory 0 sunscreen_nonce
    40 sunscreen 24 sunscreen_ad 160 (bytes [1; 2]) 170 290 18) as (ctx & C & CX & tag & E1 & E2 & _).
  - reflexivity.
  - left. reflexivity.
  - reflexivity.
  - lia.
  - reflexivity.
  - constructor; try (apply example_stored; [vm_compute; reflexivity | lia | discriminate]); cbn [nonce_apart];
      change (zlen sunscreen) with 114; change (zlen sunscreen_ad) with 12; change (zlen (bytes [1; 2])) with 2; change (zlen example_memory) with 320; unfold apart; try lia.
    split; [reflexivity | apply example_stored; [vm_compute; reflexivity | lia | discriminate]].
  - reflexivity.
  - discriminate.
  - discriminate.
  - exists ctx, C, CX, tag. split; [exact E1 | exact E2].
Defined.

Lemma extra_input_wraps_witness : zlen (bytes [2]) <= 32 /\
  exists m', seal_extra_in sunscreen_key (local_array sunscreen_nonce) (MAX_IN_LEN - 1) 290 160 2 example_memory = (Ok tt, m') /\
    stored m' 291 (xor_bytes (bytes [2]) (one_time_key sunscreen_key sunscreen_nonce)).
Proof.
  split; [discriminate|].
  destruct (extra_input_wraps sunscreen_key sunscreen_nonce example_memory (local_array sunscreen_nonce) 290 160 (b8 1) (bytes [2])) as (m' & _ & E & Hs).
  - discriminate.
  - split; reflexivity.
  - apply (example_stored 160 (bytes [1; 2])); [vm_compute; reflexivity | lia | discriminate].
  - lia.
  - discriminate.
  - unfold apart. change (zlen (bytes [2])) with 1. lia.
  - exact Logic.I.
  - exists m'. split; [exact E | exact Hs].
Defined.
