(* ===== verification/Lhash.v ===== *)
(** BoringSSL's chained hash table (src/ios/Pods/BoringSSL-GRPC/src/crypto/
    lhash/lhash.c).  The items of all tables are in one store, by address, and
    the chains are the pointers of the code; a pointer to a pointer is either an
    element of [buckets] or the [next] field of an item.  The allocator's
    contract, the addresses it gives to items ([Addresses]) and the table's
    comparison and hash functions are parameters. *)
From Stdlib Require Import ZArith Lia Bool.
From coqutil Require Import Byte.
From stdpp Require Import base list numbers gmap.
From S2P Require Import Prelude Alloc.
Local Open Scope Z_scope.
Local Open Scope c_scope.

Definition kMinNumBuckets : Z := 16.
Definition kMaxAverageChainLength : Z := 2.
Definition kMinAverageChainLength : Z := 1.

Record LHASH_ITEM := mk_item { data : Z; next : Z; hash : Z }.

(** [comp] and [hash] are parameters of the operations. *)
Record LHASH := mk_lhash { num_items : Z; buckets : list Z; num_buckets : Z; callback_depth : Z }.

(** Where a new item is: not at NULL, and not where another one is. *)
Class Addresses (A : Type) := {
  new_address : A -> gset Z -> Z;
  new_address_ok : forall a live, 0 < new_address a live /\ new_address a live ∉ live;
}.

Definition sizeof_LHASH : Z := 48.
Definition sizeof_LHASH_ITEM : Z := 24.

Section lhash.
Context {A : Type} {AL : Allocator A} {AD : Addresses A}.

(** [st_table] is the table that [lh] points to, unless it has been freed. *)
Record lh_state := mk_st { st_items : gmap Z LHASH_ITEM; st_table : option LHASH; st_alloc : A }.
Notation L := (M lh_state).

Definition get_lh : L LHASH := st <- get ;; known (st_table st).
Definition put_lh (lh : LHASH) : L unit := fun st => (Ok tt, mk_st (st_items st) (Some lh) (st_alloc st)).
Definition get_item (p : Z) : L LHASH_ITEM := st <- get ;; known (st_items st !! p).
Definition put_item (p : Z) (it : LHASH_ITEM) : L unit := fun st =>
  match st_items st !! p with
  | Some _ => (Ok tt, mk_st (<[p := it]> (st_items st)) (st_table st) (st_alloc st))
  | None => (Stuck, st)
  end.
Definition free_item (p : Z) : L unit := fun st =>
  match st_items st !! p with
  | Some _ => (Ok tt, mk_st (delete p (st_items st)) (st_table st) (OPENSSL_free (st_alloc st) sizeof_LHASH_ITEM))
  | None => (Stuck, st)
  end.

(** [OPENSSL_malloc(sizeof(LHASH_ITEM))]; what is in the item is set by the caller. *)
Definition malloc_item : L Z := fun st =>
  match OPENSSL_malloc (st_alloc st) sizeof_LHASH_ITEM with
  | (Some _, a) =>
      let p := new_address a (dom (st_items st)) in
      (Ok p, mk_st (<[p := mk_item 0 0 0]> (st_items st)) (st_table st) a)
  | (None, a) => (Ok 0, mk_st (st_items st) (st_table st) a)
  end.

(** [OPENSSL_free] of the array of [n] buckets, and of the table. *)
Definition free_array (n : Z) : L unit := fun st =>
  (Ok tt, mk_st (st_items st) (st_table st) (OPENSSL_free (st_alloc st) (8 * n))).
Definition free_table : L unit := fun st => (Ok tt, mk_st (st_items st) None (OPENSSL_free (st_alloc st) sizeof_LHASH)).

(** An array of null pointers, in [n] bytes; nothing when there is no memory. *)
Definition malloc_buckets (n : Z) : L (option (list Z)) := fun st =>
  match OPENSSL_malloc (st_alloc st) n with
  | (Some _, a) => (Ok (Some (repeat 0 (Z.to_nat (n / 8)))), mk_st (st_items st) (st_table st) a)
  | (None, a) => (Ok None, mk_st (st_items st) (st_table st) a)
  end.

(** A pointer to a pointer to an item. *)
Inductive link := Bucket (i : Z) | Next_of (p : Z).

Definition read_link (l : link) : L Z :=
  match l with
  | Bucket i => lh <- get_lh ;; known (buckets lh !! Z.to_nat i)
  | Next_of p => it <- get_item p ;; ret (next it)
  end.

Definition write_link (l : link) (q : Z) : L unit :=
  match l with
  | Bucket i =>
      lh <- get_lh ;;
      _ <- known (buckets lh !! Z.to_nat i) ;;
      put_lh (mk_lhash (num_items lh) (<[Z.to_nat i := q]> (buckets lh)) (num_buckets lh) (callback_depth lh))
  | Next_of p => it <- get_item p ;; put_item p (mk_item (data it) q (hash it))
  end.

(** A chain is no longer than the number of items there are. *)
Definition chain_fuel : L nat := st <- get ;; ret (S (size (st_items st))).

Definition OPENSSL_lh_new : L bool :=
  fun st =>
    match OPENSSL_malloc (st_alloc st) sizeof_LHASH with
    | (None, a) => (Ok false, mk_st (st_items st) (st_table st) a)
    | (Some _, a) =>
        match malloc_buckets (8 * kMinNumBuckets) (mk_st (st_items st) (st_table st) a) with
        | (Ok (Some bs), st) => (Ok true, mk_st (st_items st) (Some (mk_lhash 0 bs kMinNumBuckets 0)) (st_alloc st))
        | (_, st) => (Ok false, mk_st (st_items st) (st_table st) (OPENSSL_free (st_alloc st) sizeof_LHASH))
        end
    end.

Fixpoint free_chain (fuel : nat) (n : Z) : L unit :=
  match fuel with
  | O => stuck
  | S fuel => if n =? 0 then ret tt else it <- get_item n ;; free_item n ;; free_chain fuel (next it)
  end.

(** The buckets from [i] on, of which there are [count]. *)
Fixpoint free_buckets (count : nat) (i : Z) : L unit :=
  match count with
  | O => ret tt
  | S count => n <- read_link (Bucket i) ;; fuel <- chain_fuel ;; free_chain fuel n ;; free_buckets count (i + 1)
  end.

Definition OPENSSL_lh_free : L unit :=
  st <- get ;;
  match st_table st with
  | None => ret tt
  | Some lh =>
      free_buckets (Z.to_nat (num_buckets lh)) 0 ;;
      free_array (num_buckets lh) ;;
      free_table
  end.

Definition OPENSSL_lh_num_items : L Z := lh <- get_lh ;; ret (num_items lh).

(** *** Searching *)

(** The loop along a chain, to the first item that [found]. *)
Fixpoint find_link (fuel : nat) (found : Z -> bool) (l : link) : L link :=
  match fuel with
  | O => stuck
  | S fuel =>
      cur <- read_link l ;;
      if cur =? 0 then ret l else
      it <- get_item cur ;;
      if found (data it) then ret l else find_link fuel found (Next_of cur)
  end.

Section functions.
Context (call_hash_func : Z -> Z) (call_cmp_func : Z -> Z -> Z).

Definition get_next_ptr_and_hash (d : Z) : L (link * Z) :=
  let h := call_hash_func d in
  lh <- get_lh ;;
  fuel <- chain_fuel ;;
  l <- find_link fuel (fun d' => call_cmp_func d' d =? 0) (Bucket (h mod num_buckets lh)) ;;
  ret (l, h).

Definition get_next_ptr_by_key (key_hash : Z) (cmp_key : Z -> Z) : L link :=
  lh <- get_lh ;;
  fuel <- chain_fuel ;;
  find_link fuel (fun d' => cmp_key d' =? 0) (Bucket (key_hash mod num_buckets lh)).

(** The data of the item that [next_ptr] leads to, NULL if there is none. *)
Definition link_data (l : link) : L Z :=
  p <- read_link l ;; if p =? 0 then ret 0 else it <- get_item p ;; ret (data it).

Definition OPENSSL_lh_retrieve (d : Z) : L Z := '(l, _) <- get_next_ptr_and_hash d ;; link_data l.
Definition OPENSSL_lh_retrieve_key (key_hash : Z) (cmp_key : Z -> Z) : L Z :=
  l <- get_next_ptr_by_key key_hash cmp_key ;; link_data l.

(** *** Resizing *)

(** A chain moves to the heads of the new ones. *)
Fixpoint move_chain (fuel : nat) (new_num_buckets cur : Z) (new_buckets : list Z) : L (list Z) :=
  match fuel with
  | O => stuck
  | S fuel =>
      if cur =? 0 then ret new_buckets else
      it <- get_item cur ;;
      let new_bucket := hash it mod new_num_buckets in
      head <- known (new_buckets !! Z.to_nat new_bucket) ;;
      put_item cur (mk_item (data it) head (hash it)) ;;
      move_chain fuel new_num_buckets (next it) (<[Z.to_nat new_bucket := cur]> new_buckets)
  end.

Fixpoint move_buckets (count : nat) (i new_num_buckets : Z) (new_buckets : list Z) : L (list Z) :=
  match count with
  | O => ret new_buckets
  | S count =>
      cur <- read_link (Bucket i) ;;
      fuel <- chain_fuel ;;
      new_buckets <- move_chain fuel new_num_buckets cur new_buckets ;;
      move_buckets count (i + 1) new_num_buckets new_buckets
  end.

Definition lh_rebucket (new_num_buckets : Z) : L unit :=
  let alloc_size := u64 (8 * new_num_buckets) in
  if negb (alloc_size / 8 =? new_num_buckets) then ret tt else
  new_buckets <- malloc_buckets alloc_size ;;
  match new_buckets with
  | None => ret tt
  | Some new_buckets =>
      lh <- get_lh ;;
      new_buckets <- move_buckets (Z.to_nat (num_buckets lh)) 0 new_num_buckets new_buckets ;;
      free_array (num_buckets lh) ;;
      put_lh (mk_lhash (num_items lh) new_buckets new_num_buckets (callback_depth lh))
  end.

Definition lh_maybe_resize : L unit :=
  lh <- get_lh ;;
  if 0 <? callback_depth lh then ret tt else
  if negb (kMinNumBuckets <=? num_buckets lh) then stuck else
  let avg_chain_length := num_items lh / num_buckets lh in
  if kMaxAverageChainLength <? avg_chain_length then
    let new_num_buckets := u64 (num_buckets lh * 2) in
    if num_buckets lh <? new_num_buckets then lh_rebucket new_num_buckets else ret tt
  else if (avg_chain_length <? kMinAverageChainLength) && (kMinNumBuckets <? num_buckets lh) then
    let new_num_buckets := num_buckets lh / 2 in
    lh_rebucket (if new_num_buckets <? kMinNumBuckets then kMinNumBuckets else new_num_buckets)
  else ret tt.

(** *** Inserting and deleting *)

Definition set_num_items (n : Z) : L unit :=
  lh <- get_lh ;; put_lh (mk_lhash n (buckets lh) (num_buckets lh) (callback_depth lh)).

(** The return value, and what [old_data] points to afterwards. *)
Definition OPENSSL_lh_insert (d : Z) : L (bool * Z) :=
  '(next_ptr, h) <- get_next_ptr_and_hash d ;;
  p <- read_link next_ptr ;;
  if negb (p =? 0) then
    it <- get_item p ;;
    put_item p (mk_item d (next it) (hash it)) ;;
    ret (true, data it)
  else
    item <- malloc_item ;;
    if item =? 0 then ret (false, 0) else
    put_item item (mk_item d 0 h) ;;
    write_link next_ptr item ;;
    lh <- get_lh ;;
    set_num_items (u64 (num_items lh + 1)) ;;
    lh_maybe_resize ;;
    ret (true, 0).

Definition OPENSSL_lh_delete (d : Z) : L Z :=
  '(next_ptr, _) <- get_next_ptr_and_hash d ;;
  p <- read_link next_ptr ;;
  if p =? 0 then ret 0 else
  it <- get_item p ;;
  write_link next_ptr (next it) ;;
  free_item p ;;
  lh <- get_lh ;;
  set_num_items (u64 (num_items lh - 1)) ;;
  lh_maybe_resize ;;
  ret (data it).
End functions.

(** *** Iterating *)

(** The callback may use the table; [next] is read before the call. *)
Fixpoint doall_chain (fuel : nat) (func : Z -> L unit) (cur : Z) : L unit :=
  match fuel with
  | O => stuck
  | S fuel =>
      if cur =? 0 then ret tt else
      it <- get_item cur ;;
      func (data it) ;;
      doall_chain fuel func (next it)
  end.

(** [fuel] bounds the buckets, and the items of each chain, that the loops
    see: the callback may lengthen the chains. *)
Fixpoint doall_buckets (count fuel : nat) (func : Z -> L unit) (i : Z) : L unit :=
  match count with
  | O => stuck
  | S count =>
      lh <- get_lh ;;
      if i <? num_buckets lh then
        cur <- read_link (Bucket i) ;;
        doall_chain fuel func cur ;;
        doall_buckets count fuel func (i + 1)
      else ret tt
  end.

Definition UINT_MAX : Z := 2 ^ 32 - 1.

Definition OPENSSL_lh_doall_arg (fuel : nat) (func : Z -> L unit) : L unit :=
  st <- get ;;
  match st_table st with
  | None => ret tt
  | Some lh =>
      (if callback_depth lh <? UINT_MAX
       then put_lh (mk_lhash (num_items lh) (buckets lh) (num_buckets lh) (callback_depth lh + 1)) else ret tt) ;;
      doall_buckets fuel fuel func 0 ;;
      lh <- get_lh ;;
      (if callback_depth lh <? UINT_MAX
       then put_lh (mk_lhash (num_items lh) (buckets lh) (num_buckets lh) (u32 (callback_depth lh - 1))) else ret tt) ;;
      lh_maybe_resize
  end.
End lhash.
Arguments lh_state : clear implicits.
