(* ===== verification/LhashSpec.v ===== *)
(** What the hash table promises: under every sequence of operations it is the
    finite map of its elements by key, whatever the chains and the resizing do;
    an operation fails only where the allocator refuses, and then nothing changes;
    freeing the table gives all memory back. *)
From Stdlib Require Import ZArith Lia Bool.
From coqutil Require Import Byte.
From stdpp Require Import base list numbers gmap.
From S2P Require Import Prelude Alloc Lhash.
Local Open Scope Z_scope.
Local Open Scope c_scope.

(** ** Chains *)

(** An item of a chain: its address and the element. *)
Notation node := (Z * Z)%type.
Definition head (c : list node) : Z := match c with [] => 0 | n :: _ => n.1 end.
Notation nodes := (@concat node).

Lemma replace_middle {B} (l1 l2 : list B) x y : <[length l1 := y]> (l1 ++ x :: l2) = l1 ++ y :: l2.
Proof. rewrite insert_app_r_alt, Nat.sub_diag by lia. reflexivity. Qed.

Lemma elem_of_nodes n chs : n ∈ nodes chs <-> exists c, c ∈ chs /\ n ∈ c.
Proof. rewrite list_elem_of_In, in_concat. setoid_rewrite list_elem_of_In. reflexivity. Qed.

Section chains.
Context (hashf : Z -> Z).

(** The items of a chain are where it says, each pointing to the next. *)
Fixpoint linked (m : gmap Z LHASH_ITEM) (c : list node) : Prop :=
  match c with
  | [] => True
  | (a, d) :: c => a <> 0 /\ m !! a = Some (mk_item d (head c) (hashf d)) /\ linked m c
  end.

Lemma linked_frame m m' c : linked m c -> (forall a, a ∈ c.*1 -> m' !! a = m !! a) -> linked m' c.
Proof.
  induction c as [|[a d] c IH]; [auto|]. intros (Ha & Hm & Hc) H. cbn. rewrite H by (cbn; set_solver).
  split; [auto|]. split; [exact Hm|]. apply IH; [exact Hc|]. intros x Hx. apply H. cbn. set_solver.
Qed.

Lemma linked_insert m c p it : linked m c -> p ∉ c.*1 -> linked (<[p := it]> m) c.
Proof. intros H Hp. apply (linked_frame m); [exact H|]. intros a Ha. apply lookup_insert_ne. intros ->. contradiction. Qed.

Lemma linked_app m c1 c2 : linked m (c1 ++ c2) -> linked m c2.
Proof. induction c1 as [|[a d] c1 IH]; [auto|]. intros (_ & _ & H). auto. Qed.

Lemma linked_elem m c a d : linked m c -> (a, d) ∈ c -> a <> 0 /\ exists q, m !! a = Some (mk_item d q (hashf d)).
Proof.
  induction c as [|[a' d'] c IH]; intros H Hin; [set_solver|]. destruct H as (Ha & Hm & H).
  apply elem_of_cons in Hin as [[= -> ->]|Hin]; eauto.
Qed.

(** The store after [pre]'s last item, if there is one, is made to point to [q]. *)
Definition relink (m : gmap Z LHASH_ITEM) (pre : list node) (q : Z) : gmap Z LHASH_ITEM :=
  match last pre with None => m | Some n => <[n.1 := mk_item n.2 q (hashf n.2)]> m end.

Lemma relink_other m pre q a : a ∉ pre.*1 -> relink m pre q !! a = m !! a.
Proof.
  unfold relink. intros H. destruct (last pre) as [[p d]|] eqn:E; [|reflexivity]. apply lookup_insert_ne. intros <-. apply H.
  apply last_Some in E as [l ->]. rewrite fmap_app. cbn. set_solver.
Qed.

Lemma relink_linked m pre post post' : linked m (pre ++ post) -> NoDup (pre.*1) ->
  linked (relink m pre (head post')) post' -> linked (relink m pre (head post')) (pre ++ post').
Proof.
  intros H Hn Hp. unfold relink in *. destruct (last pre) as [[p d]|] eqn:E; [|apply last_None in E as ->; exact Hp].
  apply last_Some in E as [l ->]. cbn [fst snd] in *. set (m' := <[p := _]> m) in *. rewrite fmap_app in Hn. cbn in Hn.
  apply NoDup_app in Hn as (Hn & Hd & _). revert H Hn Hd. induction l as [|[a e] l IH]; intros H Hn Hd.
  - cbn. destruct H as (Hp0 & _ & _). split; [exact Hp0|]. split; [apply lookup_insert_eq | exact Hp].
  - destruct H as (Ha & Hm & H). cbn in Hn, Hd. apply NoDup_cons in Hn as [Hn1 Hn2]. cbn. split; [exact Ha|]. split.
    + unfold m'. rewrite lookup_insert_ne; [rewrite Hm; destruct l as [|[b f] l]; reflexivity|].
      intros <-. apply (Hd p); cbn; set_solver.
    + apply IH; auto. intros x Hx. apply Hd. set_solver.
Qed.

(** The store determines the chains. *)
Lemma linked_unique m c : forall c', linked m c -> linked m c' -> head c = head c' -> c = c'.
Proof.
  induction c as [|[a d] c IH]; intros [|[a' d'] c'] Hl Hl' Hh; cbn [head fst] in Hh.
  { reflexivity. } { destruct Hl' as [Ha _]. congruence. } { destruct Hl as [Ha _]. congruence. }
  destruct Hl as (_ & Hm & Hl), Hl' as (_ & Hm' & Hl'). subst a'. rewrite Hm in Hm'. injection Hm' as -> Hn _. f_equal. apply IH; assumption.
Qed.

Lemma chains_unique m chs : forall chs', Forall (linked m) chs -> Forall (linked m) chs' -> head <$> chs = head <$> chs' -> chs = chs'.
Proof.
  induction chs as [|c chs IH]; intros [|c' chs'] Hl Hl' Hh; try discriminate; [reflexivity|]. injection Hh as Hc Hh.
  apply Forall_cons in Hl as [H1 H2]. apply Forall_cons in Hl' as [H1' H2']. f_equal; [apply (linked_unique m); assumption | apply IH; assumption].
Qed.

(** An item gets another element with the same hash value. *)
Lemma linked_replace m pre a d d' post : linked m (pre ++ (a, d) :: post) -> NoDup (pre ++ (a, d) :: post).*1 -> hashf d = hashf d' ->
  linked (<[a := mk_item d' (head post) (hashf d)]> m) (pre ++ (a, d') :: post).
Proof.
  intros Hl Hn Hh. induction pre as [|[b e] pre IH]; cbn [app fmap list_fmap fst] in Hn; apply NoDup_cons in Hn as [Hb Hn].
  - destruct Hl as (Ha & _ & Hl). cbn. split; [exact Ha|]. split; [rewrite Hh; apply lookup_insert_eq | apply linked_insert; assumption].
  - destruct Hl as (Hb0 & Hm & Hl). cbn. split; [exact Hb0|]. split; [|apply IH; assumption]. rewrite lookup_insert_ne.
    + rewrite Hm. destruct pre; reflexivity.
    + intros <-. apply Hb. rewrite fmap_app. cbn. set_solver.
Qed.

(** ** Searching *)
Context {A : Type} {AL : Allocator A} {AD : Addresses A}.

Definition link_after (l : link) (pre : list node) : link :=
  match last pre with None => l | Some n => Next_of n.1 end.

Lemma link_after_cons l a d pre : link_after l ((a, d) :: pre) = link_after (Next_of a) pre.
Proof. unfold link_after. rewrite last_cons. destruct (last pre); reflexivity. Qed.

Lemma find_link_run (st : lh_state A) (found : Z -> bool) pre post fuel l :
  linked (st_items st) (pre ++ post) -> Forall (fun n => found n.2 = false) pre ->
  match post with [] => True | n :: _ => found n.2 = true end ->
  read_link l st = (Ok (head (pre ++ post)), st) -> (length pre < fuel)%nat ->
  find_link fuel found l st = (Ok (link_after l pre), st) /\ read_link (link_after l pre) st = (Ok (head post), st).
Proof.
  intros H Hf Hp. revert fuel l H Hf. induction pre as [|[a d] pre IH]; intros [|fuel] l H Hf Hr Hfuel; cbn [length] in *; try lia; cbn [find_link].
  - unfold bind at 1. rewrite Hr. cbn [app] in *. split; [|exact Hr]. destruct post as [|[a d] post]; [reflexivity|]. destruct H as (Ha & Hm & _). cbn [head fst].
    rewrite (proj2 (Z.eqb_neq a 0) Ha). unfold get_item, bind, get, known. rewrite Hm. unfold ret at 1. cbn [data]. cbn in Hp. rewrite Hp. reflexivity.
  - destruct H as (Ha & Hm & H). apply Forall_cons in Hf as [Hd Hf]. cbn [fst snd head app] in *. rewrite link_after_cons.
    assert (Hr2 : read_link (Next_of a) st = (Ok (head (pre ++ post)), st)).
    { cbn. unfold get_item, bind, get, known. rewrite Hm. reflexivity. }
    destruct (IH fuel (Next_of a) H Hf Hr2 ltac:(lia)) as [E1 E2]. split; [|exact E2]. rewrite <- E1.
    unfold bind at 1. rewrite Hr. cbn [head fst]. rewrite (proj2 (Z.eqb_neq a 0) Ha). unfold get_item, bind at 1, bind at 1, get, known. rewrite Hm.
    unfold ret at 1. cbn [data]. rewrite Hd. reflexivity.
Qed.

(** A chain falls into what the search passes over and the rest. *)
Lemma chain_cut (found : Z -> bool) (c : list node) : exists pre post, c = pre ++ post /\ Forall (fun n => found n.2 = false) pre /\
  match post with [] => True | n :: _ => found n.2 = true end.
Proof.
  induction c as [|n c (pre & post & -> & H1 & H2)]; [exists [], []; auto|]. destruct (found n.2) eqn:E.
  - exists [], (n :: pre ++ post). auto.
  - exists (n :: pre), post. auto.
Qed.
End chains.

(** ** The table *)

Section table.
Context {A : Type} {AL : Allocator A} {AC : Accounting A} {AD : Addresses A}.
Context {K : Type} `{Countable K} (key : Z -> K) (call_hash_func : Z -> Z) (call_cmp_func : Z -> Z -> Z).
(** The sizes of the blocks that are not the table's. *)
Context (others : list Z).
Notation linked := (linked call_hash_func).
Notation relink := (relink call_hash_func).

(** What the users of the table owe it: elements are equal when their keys are,
    and then they have the same hash value, a [uint32_t]. *)
Record functions_ok : Prop := {
  cmp_key_ok : forall d d', call_cmp_func d d' = 0 <-> key d = key d';
  hash_range : forall d, 0 <= call_hash_func d < 2 ^ 32;
  hash_key : forall d d', key d = key d' -> call_hash_func d = call_hash_func d';
}.

Definition bucket (n : Z) (d : Z) : nat := Z.to_nat (call_hash_func d mod n).

(** The blocks of a table with [n] buckets and [k] items. *)
Definition blocks (n : Z) (k : nat) : list Z := repeat sizeof_LHASH_ITEM k ++ 8 * n :: sizeof_LHASH :: others.

(** The chains [chs] are the table; [F] is what else is in the store, such as
    the items of other tables. *)
Record rep (F : gmap Z LHASH_ITEM) (depth : Z) (chs : list (list node)) (st : lh_state A) : Prop := {
  rep_table : st_table st = Some (mk_lhash (zlen (nodes chs)) (head <$> chs) (zlen chs) depth);
  rep_linked : Forall (linked (st_items st)) chs;
  rep_addrs : NoDup (nodes chs).*1;
  rep_keys : NoDup (key <$> (nodes chs).*2);
  rep_placed : forall i c, chs !! i = Some c -> Forall (fun n => bucket (zlen chs) n.2 = i) c;
  rep_size : 16 <= zlen chs /\ 8 * zlen chs < 2 ^ 64;
  rep_frame : forall p, p ∉ (nodes chs).*1 -> st_items st !! p = F !! p;
  rep_owned : forall p, p ∈ (nodes chs).*1 -> 0 < p /\ F !! p = None;
  rep_count : zlen (nodes chs) < 2 ^ 64;
  rep_owes : owes (st_alloc st) (blocks (zlen chs) (length (nodes chs)));
}.

(** The map that the chains hold. *)
Definition entries (l : list node) : gmap K Z := list_to_map ((fun n => (key n.2, n.2)) <$> l).
Definition content (chs : list (list node)) : gmap K Z := entries (nodes chs).

Lemma entries_fst l : ((fun n : node => (key n.2, n.2)) <$> l).*1 = key <$> l.*2.
Proof. induction l as [|n l IH]; cbn; [|rewrite IH]; reflexivity. Qed.

Lemma entries_perm l l' : NoDup (key <$> l.*2) -> Permutation l l' -> entries l = entries l'.
Proof. intros Hn Hp. apply list_to_map_proper; [rewrite entries_fst; exact Hn | apply Permutation_map, Hp]. Qed.

Lemma entries_lookup l k d : NoDup (key <$> l.*2) -> entries l !! k = Some d <-> exists a, (a, d) ∈ l /\ key d = k.
Proof.
  intros Hn. unfold entries. rewrite <- elem_of_list_to_map by (rewrite entries_fst; exact Hn). rewrite list_elem_of_fmap. split.
  - intros ([a e] & [= -> ->] & Hin). eauto.
  - intros (a & Hin & <-). exists (a, d). auto.
Qed.

Lemma entries_None l k : Forall (fun n : node => key n.2 <> k) l -> entries l !! k = None.
Proof.
  intros Hf. apply not_elem_of_list_to_map. rewrite entries_fst, list_elem_of_fmap. intros (d & -> & Hd).
  apply list_elem_of_fmap in Hd as ([a e] & -> & Hin). rewrite Forall_forall in Hf. exact (Hf _ Hin eq_refl).
Qed.

Lemma entries_cons a d l : entries ((a, d) :: l) = <[key d := d]> (entries l).
Proof. reflexivity. Qed.

(** *** Positions *)

Lemma bucket_range n d : functions_ok -> 0 < n -> (bucket n d < Z.to_nat n)%nat.
Proof. intros Hf Hn. unfold bucket. pose proof (Z.mod_pos_bound (call_hash_func d) n Hn). lia. Qed.

(** All elements with a key are in its bucket. *)
Lemma rep_other F depth chs1 c chs2 st k : rep F depth (chs1 ++ c :: chs2) st ->
  (forall d, key d = k -> bucket (zlen (chs1 ++ c :: chs2)) d = length chs1) ->
  Forall (fun n : node => key n.2 <> k) (nodes chs1 ++ nodes chs2).
Proof.
  intros Hr Hl. apply Forall_app. split; apply Forall_forall; intros n Hn Hk; apply elem_of_nodes in Hn as (c' & Hc' & Hin);
    apply list_elem_of_lookup in Hc' as [i Hi]; apply Hl in Hk.
  - pose proof (lookup_lt_Some _ _ _ Hi). pose proof (rep_placed _ _ _ _ Hr i c') as Hp. rewrite lookup_app_l in Hp by lia. specialize (Hp Hi).
    rewrite Forall_forall in Hp. specialize (Hp n Hin). lia.
  - pose proof (rep_placed _ _ _ _ Hr (length chs1 + S i) c') as Hp. rewrite lookup_app_r in Hp by lia.
    replace (length chs1 + S i - length chs1)%nat with (S i) in Hp by lia. specialize (Hp Hi).
    rewrite Forall_forall in Hp. specialize (Hp n Hin). lia.
Qed.

Lemma nodes_middle chs1 c chs2 : nodes (chs1 ++ c :: chs2) = nodes chs1 ++ c ++ nodes chs2.
Proof. rewrite concat_app. reflexivity. Qed.

Lemma nodes_perm chs1 pre n post chs2 :
  Permutation (nodes (chs1 ++ (pre ++ n :: post) :: chs2)) (n :: nodes (chs1 ++ (pre ++ post) :: chs2)).
Proof. rewrite !nodes_middle. rewrite <- !app_assoc. cbn [app]. rewrite (app_assoc _ pre (n :: _)), (app_assoc _ pre (post ++ _)). symmetry. apply Permutation_middle. Qed.

(** *** Searching *)

Lemma rep_fuel F depth chs st : rep F depth chs st -> (length (nodes chs) <= size (st_items st))%nat.
Proof.
  intros Hr. rewrite <- size_dom. rewrite <- (length_fmap fst), <- (size_list_to_set (C := gset Z)) by exact (rep_addrs _ _ _ _ Hr).
  apply subseteq_size. intros p Hp. apply elem_of_list_to_set, list_elem_of_fmap in Hp as ([a d] & -> & Hn).
  apply elem_of_nodes in Hn as (c & Hc & Hin). pose proof (rep_linked _ _ _ _ Hr) as Hl. rewrite Forall_forall in Hl.
  destruct (linked_elem _ _ _ _ _ (Hl c Hc) Hin) as (_ & q & Hq). apply elem_of_dom. eauto.
Qed.

(** Where the elements with key [k] are: after [pre] in the chain number
    [length chs1], if anywhere. *)
Record position (k : K) (chs1 : list (list node)) (pre post : list node) (chs2 : list (list node)) : Prop := {
  position_match : match post with [] => True | n :: _ => key n.2 = k end;
  position_other : Forall (fun n : node => key n.2 <> k) (nodes chs1 ++ pre ++ tail post ++ nodes chs2);
}.

Lemma position_content k chs1 pre post chs2 : NoDup (key <$> (nodes (chs1 ++ (pre ++ post) :: chs2)).*2) ->
  position k chs1 pre post chs2 -> content (chs1 ++ (pre ++ post) :: chs2) !! k = (fun n : node => n.2) <$> list.head post.
Proof.
  intros Hn [Hm Ho]. unfold content in *. destruct post as [|[a d] post]; cbn [list.head fmap option_fmap option_map].
  - apply entries_None. rewrite nodes_middle, app_nil_r. exact Ho.
  - cbn in Hm. apply entries_lookup; [exact Hn|]. exists a. split; [|exact Hm]. rewrite nodes_middle, !elem_of_app. set_solver.
Qed.

Lemma chain_search_run F depth chs st k h (found : Z -> bool) : functions_ok -> rep F depth chs st -> 0 <= h ->
  (forall d, key d = k -> call_hash_func d = h) -> (forall d, found d = true <-> key d = k) ->
  exists chs1 pre post chs2, let l := link_after (Bucket (h mod zlen chs)) pre in
    chs = chs1 ++ (pre ++ post) :: chs2 /\ length chs1 = Z.to_nat (h mod zlen chs) /\ position k chs1 pre post chs2 /\
    (fuel <- chain_fuel ;; find_link fuel found (Bucket (h mod zlen chs))) st = (Ok l, st) /\ read_link l st = (Ok (head post), st).
Proof.
  intros Hf Hr Hh Hk Hfound. pose proof (rep_size _ _ _ _ Hr) as Hs. pose proof (Z.mod_pos_bound h (zlen chs) ltac:(lia)) as Hi.
  destruct (lookup_lt_is_Some_2 chs (Z.to_nat (h mod zlen chs))) as [c Hc]; [unfold zlen in *; lia|].
  apply list_elem_of_split_length in Hc as (chs1 & chs2 & E & Hl). destruct (chain_cut found c) as (pre & post & -> & Hpre & Hpost).
  exists chs1, pre, post, chs2. cbv zeta. split; [exact E|]. split; [symmetry; exact Hl|].
  assert (Hpos : Forall (fun n : node => key n.2 <> k) pre).
  { eapply Forall_impl; [exact Hpre|]. intros n Hn Hkn. apply Hfound in Hkn. congruence. }
  pose proof (rep_linked _ _ _ _ Hr) as Hlk. rewrite E, Forall_app, Forall_cons in Hlk. destruct Hlk as (_ & Hlk & _). split.
  - assert (Hr' := Hr). rewrite E in Hr'. pose proof (rep_other _ _ _ _ _ _ k Hr') as Ho. rewrite <- E, Forall_app in Ho.
    destruct Ho as [Ho1 Ho2]; [intros d Hd; unfold bucket; rewrite (Hk d Hd); auto|].
    pose proof (rep_keys _ _ _ _ Hr') as Hn. rewrite nodes_middle in Hn.
    split; [destruct post; [auto|]; apply Hfound, Hpost|]. rewrite !Forall_app. split; [exact Ho1|]. split; [exact Hpos|]. split; [|exact Ho2].
    destruct post as [|n post]; [constructor|]. cbn [tail]. apply Hfound in Hpost. apply Forall_forall. intros n' Hn' Hk'.
    rewrite !fmap_app in Hn. cbn [fmap list_fmap] in Hn. apply NoDup_app in Hn as (_ & _ & Hn). apply NoDup_app in Hn as (Hn & _ & _).
    apply NoDup_app in Hn as (_ & _ & Hn). apply NoDup_cons in Hn as [Hn _]. apply Hn. rewrite Hpost, <- Hk'. rewrite <- list_fmap_compose.
    apply (list_elem_of_fmap_2 (fun n : node => key n.2)), Hn'.
  - assert (Hread : read_link (Bucket (h mod zlen chs)) st = (Ok (head (pre ++ post)), st)).
    { cbn. unfold get_lh, bind, get, known. rewrite (rep_table _ _ _ _ Hr). cbn [buckets ret].
      rewrite list_lookup_fmap, E. replace (Z.to_nat _) with (length chs1) by (rewrite <- E; symmetry; exact Hl). rewrite list_lookup_middle by reflexivity. reflexivity. }
    pose proof (rep_fuel _ _ _ _ Hr) as Hfuel. rewrite E, nodes_middle, !length_app in Hfuel.
    apply (find_link_run call_hash_func st found pre post (S (size (st_items st)))); auto. lia.
Qed.

Definition or_null (o : option Z) : Z := match o with Some d => d | None => 0 end.

Lemma get_lh_run F depth chs st : rep F depth chs st ->
  get_lh st = (Ok (mk_lhash (zlen (nodes chs)) (head <$> chs) (zlen chs) depth), st).
Proof. intros Hr. unfold get_lh, bind, get, known. rewrite (rep_table _ _ _ _ Hr). reflexivity. Qed.

(** The item that a position leads to. *)
Lemma position_item F depth chs1 pre a d post chs2 st : rep F depth (chs1 ++ (pre ++ (a, d) :: post) :: chs2) st ->
  a <> 0 /\ st_items st !! a = Some (mk_item d (head post) (call_hash_func d)).
Proof.
  intros Hr. pose proof (rep_linked _ _ _ _ Hr) as Hlk. rewrite Forall_app, Forall_cons in Hlk. destruct Hlk as (_ & Hlk & _).
  apply linked_app in Hlk as (Ha & Hm & _). auto.
Qed.

Lemma link_data_run F depth chs1 pre post chs2 st l : rep F depth (chs1 ++ (pre ++ post) :: chs2) st ->
  read_link l st = (Ok (head post), st) -> link_data l st = (Ok (or_null ((fun n : node => n.2) <$> list.head post)), st).
Proof.
  intros Hr Hl. unfold link_data, bind at 1. rewrite Hl. destruct post as [|[a d] post]; [reflexivity|]. cbn [head fst].
  destruct (position_item _ _ _ _ _ _ _ _ _ Hr) as [Ha Hm]. rewrite (proj2 (Z.eqb_neq a 0) Ha). unfold get_item, bind, get, known. rewrite Hm. reflexivity.
Qed.

Lemma get_next_ptr_run F depth chs st d : functions_ok -> rep F depth chs st ->
  exists chs1 pre post chs2 l, chs = chs1 ++ (pre ++ post) :: chs2 /\ length chs1 = bucket (zlen chs) d /\ position (key d) chs1 pre post chs2 /\
    l = link_after (Bucket (call_hash_func d mod zlen chs)) pre /\
    get_next_ptr_and_hash call_hash_func call_cmp_func d st = (Ok (l, call_hash_func d), st) /\ read_link l st = (Ok (head post), st).
Proof.
  intros Hf Hr. destruct (chain_search_run F depth chs st (key d) (call_hash_func d) (fun d' => call_cmp_func d' d =? 0) Hf Hr) as (chs1 & pre & post & chs2 & E & Hl & Hp & Hrun & Hread).
  - apply (hash_range Hf).
  - intros d' Hd. apply (hash_key Hf), Hd.
  - intros d'. rewrite Z.eqb_eq. apply (cmp_key_ok Hf).
  - do 5 eexists. split; [exact E|]. split; [exact Hl|]. split; [exact Hp|]. split; [reflexivity|]. split; [|exact Hread].
    unfold get_next_ptr_and_hash, bind at 1. rewrite (get_lh_run _ _ _ _ Hr). cbn [num_buckets]. unfold bind at 1 in Hrun. unfold bind at 1.
    destruct (chain_fuel st) as [[fuel| |] st'] eqn:Ef; [|discriminate..]. unfold bind. rewrite Hrun. reflexivity.
Qed.

Lemma lh_retrieve_run F depth chs st d : functions_ok -> rep F depth chs st ->
  OPENSSL_lh_retrieve call_hash_func call_cmp_func d st = (Ok (or_null (content chs !! key d)), st).
Proof.
  intros Hf Hr. destruct (get_next_ptr_run F depth chs st d Hf Hr) as (chs1 & pre & post & chs2 & l & -> & _ & Hp & _ & Hrun & Hread).
  unfold OPENSSL_lh_retrieve, bind at 1. rewrite Hrun. rewrite (link_data_run _ _ _ _ _ _ _ _ Hr Hread).
  rewrite (position_content _ _ _ _ _ (rep_keys _ _ _ _ Hr) Hp). reflexivity.
Qed.

(** [key_hash] and [cmp_key] fit the functions of the table. *)
Definition by_key_ok (k : K) (key_hash : Z) (cmp_key : Z -> Z) : Prop :=
  (forall d, cmp_key d = 0 <-> key d = k) /\ (forall d, key d = k -> call_hash_func d = key_hash) /\ 0 <= key_hash < 2 ^ 32.

Lemma lh_retrieve_key_run F depth chs st k key_hash cmp_key : functions_ok -> rep F depth chs st -> by_key_ok k key_hash cmp_key ->
  OPENSSL_lh_retrieve_key key_hash cmp_key st = (Ok (or_null (content chs !! k)), st).
Proof.
  intros Hf Hr (Hc & Hh & Hrange).
  destruct (chain_search_run F depth chs st k key_hash (fun d' => cmp_key d' =? 0) Hf Hr) as (chs1 & pre & post & chs2 & E & _ & Hp & Hrun & Hread); [lia | exact Hh | |].
  { intros d'. rewrite Z.eqb_eq. apply Hc. }
  assert (Hnext : get_next_ptr_by_key key_hash cmp_key st = (Ok (link_after (Bucket (key_hash mod zlen chs)) pre), st)).
  { unfold get_next_ptr_by_key, bind at 1. rewrite (get_lh_run _ _ _ _ Hr). cbn [num_buckets]. exact Hrun. }
  unfold OPENSSL_lh_retrieve_key, bind at 1. rewrite Hnext. subst chs.
  rewrite (link_data_run _ _ _ _ _ _ _ _ Hr Hread), (position_content _ _ _ _ _ (rep_keys _ _ _ _ Hr) Hp). reflexivity.
Qed.

(** *** Changing one chain *)

Lemma rep_update F depth chs1 c c' chs2 st items' al : rep F depth (chs1 ++ c :: chs2) st -> linked items' c' ->
  (forall p, p ∉ c.*1 -> p ∉ c'.*1 -> items' !! p = st_items st !! p) -> (forall p, p ∈ c.*1 -> p ∉ c'.*1 -> items' !! p = None) ->
  (forall p, p ∈ c'.*1 -> p ∉ c.*1 -> 0 < p /\ F !! p = None /\ p ∉ (nodes (chs1 ++ c :: chs2)).*1) ->
  NoDup (nodes (chs1 ++ c' :: chs2)).*1 -> NoDup (key <$> (nodes (chs1 ++ c' :: chs2)).*2) ->
  Forall (fun n => bucket (zlen (chs1 ++ c :: chs2)) n.2 = length chs1) c' ->
  zlen (nodes (chs1 ++ c' :: chs2)) < 2 ^ 64 ->
  owes al (blocks (zlen (chs1 ++ c :: chs2)) (length (nodes (chs1 ++ c' :: chs2)))) ->
  rep F depth (chs1 ++ c' :: chs2)
    (mk_st items' (Some (mk_lhash (zlen (nodes (chs1 ++ c' :: chs2))) (head <$> chs1 ++ c' :: chs2) (zlen (chs1 ++ c :: chs2)) depth)) al).
Proof.
  intros Hr Hc' Hsame Hgone Hnew Hna Hnk Hb Hcount Howes. assert (Hz : zlen (chs1 ++ c :: chs2) = zlen (chs1 ++ c' :: chs2)) by (rewrite !zlen_app, !zlen_cons; reflexivity).
  pose proof (rep_addrs _ _ _ _ Hr) as Hno. rewrite nodes_middle, !fmap_app in Hno.
  assert (Hin : forall x p, x ∈ chs1 ++ chs2 -> p ∈ x.*1 -> p ∈ (nodes chs1).*1 ++ (nodes chs2).*1).
  { intros x p Hx Hp. rewrite <- fmap_app, <- concat_app. apply list_elem_of_fmap in Hp as (n & -> & Hn). apply list_elem_of_fmap_2, elem_of_nodes. eauto. }
  assert (Hother : forall p, p ∈ (nodes chs1).*1 ++ (nodes chs2).*1 -> p ∉ c.*1 /\ p ∉ c'.*1).
  { rewrite nodes_middle, !fmap_app in Hna. intros p Hp. apply NoDup_app in Hno as (_ & Ho1 & Ho2). apply NoDup_app in Ho2 as (_ & Ho2 & _).
    apply NoDup_app in Hna as (_ & Hn1 & Hn2). apply NoDup_app in Hn2 as (_ & Hn2 & _). apply elem_of_app in Hp as [Hp|Hp]; set_solver. }
  pose proof (rep_linked _ _ _ _ Hr) as Hl. rewrite Forall_app, Forall_cons in Hl. destruct Hl as (Hl1 & _ & Hl2).
  constructor; cbn [st_table st_items].
  - rewrite Hz. reflexivity.
  - apply Forall_app. split; [|apply Forall_cons; split; [exact Hc'|]].
    all: apply Forall_forall; intros x Hx; rewrite Forall_forall in Hl1, Hl2; apply (linked_frame _ (st_items st)); [auto|].
    all: intros p Hp; destruct (Hother p); [apply (Hin x); [set_solver | exact Hp] | auto].
  - exact Hna.
  - exact Hnk.
  - rewrite <- Hz. intros i x Hx. destruct (decide (i = length chs1)) as [->|Hi].
    + rewrite list_lookup_middle in Hx by reflexivity. injection Hx as <-. exact Hb.
    + apply (rep_placed _ _ _ _ Hr). rewrite <- Hx. rewrite <- (replace_middle chs1 chs2 c c'). rewrite list_lookup_insert_ne by auto. reflexivity.
  - rewrite <- Hz. exact (rep_size _ _ _ _ Hr).
  - intros p Hp. rewrite nodes_middle, !fmap_app, !elem_of_app in Hp. destruct (decide (p ∈ c.*1)) as [Hc|Hc].
    + rewrite Hgone by tauto. destruct (rep_owned _ _ _ _ Hr p) as [_ ->]; [|reflexivity]. rewrite nodes_middle, !fmap_app. set_solver.
    + rewrite Hsame by tauto. apply (rep_frame _ _ _ _ Hr). rewrite nodes_middle, !fmap_app, !elem_of_app. tauto.
  - intros p Hp. rewrite nodes_middle, !fmap_app, !elem_of_app in Hp. destruct (decide (p ∈ c'.*1 /\ p ∉ c.*1)) as [[H1 H2]|Hc].
    + destruct (Hnew p H1 H2) as (? & ? & _). auto.
    + apply (rep_owned _ _ _ _ Hr). rewrite nodes_middle, !fmap_app, !elem_of_app. destruct (decide (p ∈ c.*1)); [tauto|]. tauto.
  - exact Hcount.
  - rewrite <- Hz. exact Howes.
Qed.

(** The allocator has changed, and its account has not. *)
Lemma rep_alloc F depth chs st al : rep F depth chs st -> owes al (blocks (zlen chs) (length (nodes chs))) ->
  rep F depth chs (mk_st (st_items st) (st_table st) al).
Proof. intros Hr Ho. destruct Hr; split; assumption. Qed.

Lemma get_item_run m t (al : A) p it : m !! p = Some it -> get_item p (mk_st m t al) = (Ok it, mk_st m t al).
Proof. intros Hm. unfold get_item, bind, get, known. cbn [st_items]. rewrite Hm. reflexivity. Qed.

Lemma put_item_run m t (al : A) p it : is_Some (m !! p) -> put_item p it (mk_st m t al) = (Ok tt, mk_st (<[p := it]> m) t al).
Proof. intros [x Hm]. unfold put_item. cbn [st_items]. rewrite Hm. reflexivity. Qed.

Lemma free_item_run m t (al : A) p : is_Some (m !! p) -> free_item p (mk_st m t al) = (Ok tt, mk_st (delete p m) t (OPENSSL_free al sizeof_LHASH_ITEM)).
Proof. intros [x Hm]. unfold free_item. cbn [st_items]. rewrite Hm. reflexivity. Qed.

(** A write through the position of a search. *)
Lemma write_link_run m n nb depth al chs1 pre post post' chs2 i : linked m (pre ++ post) -> i = Z.of_nat (length chs1) ->
  write_link (link_after (Bucket i) pre) (head post') (mk_st m (Some (mk_lhash n (head <$> chs1 ++ (pre ++ post) :: chs2) nb depth)) al) =
  (Ok tt, mk_st (relink m pre (head post')) (Some (mk_lhash n (head <$> chs1 ++ (pre ++ post') :: chs2) nb depth)) (al : A)).
Proof.
  intros Hl ->. unfold link_after, LhashSpec.relink. destruct (last pre) as [[p d]|] eqn:E.
  - apply last_Some in E as [l ->]. rewrite <- app_assoc in Hl. apply linked_app in Hl as (Hp & Hm & _). cbn [fst snd write_link].
    unfold bind. rewrite (get_item_run _ _ _ _ _ Hm). cbn [data hash]. rewrite put_item_run by (rewrite Hm; eauto).
    do 4 f_equal. rewrite !fmap_app. cbn. do 2 f_equal. destruct l; reflexivity.
  - apply last_None in E as ->. cbn [write_link app]. unfold get_lh, put_lh, bind, get, known. cbn [st_items st_table st_alloc buckets].
    cbn [ret buckets]. rewrite Nat2Z.id, fmap_app. cbn [fmap list_fmap]. rewrite list_lookup_middle by (rewrite length_fmap; reflexivity). cbn [ret num_items num_buckets callback_depth st_table st_items st_alloc buckets].
    do 4 f_equal. rewrite fmap_app. cbn [fmap list_fmap]. rewrite <- (length_fmap head chs1). apply replace_middle.
Qed.

(** *** Resizing *)

Definition placed (chs : list (list node)) : Prop :=
  forall i c, chs !! i = Some c -> Forall (fun n => bucket (zlen chs) n.2 = i) c.

Lemma linked_size m c : linked m c -> NoDup c.*1 -> (length c <= size m)%nat.
Proof.
  intros Hl Hn. rewrite <- size_dom, <- (length_fmap fst), <- (size_list_to_set (C := gset Z)) by exact Hn.
  apply subseteq_size. intros p Hp. apply elem_of_list_to_set, list_elem_of_fmap in Hp as ([a d] & -> & Hin).
  destruct (linked_elem _ _ _ _ _ Hl Hin) as (_ & q & Hq). apply elem_of_dom. eauto.
Qed.

Lemma placed_cons n1 x n2 a d : placed (n1 ++ x :: n2) -> bucket (zlen (n1 ++ x :: n2)) d = length n1 -> placed (n1 ++ ((a, d) :: x) :: n2).
Proof.
  intros Hp Hb i c Hc. replace (zlen (n1 ++ ((a, d) :: x) :: n2)) with (zlen (n1 ++ x :: n2)) by (rewrite !zlen_app, !zlen_cons; reflexivity).
  destruct (decide (i = length n1)) as [->|Hi].
  - rewrite list_lookup_middle in Hc by reflexivity. injection Hc as <-. constructor; [exact Hb|]. apply Hp, list_lookup_middle. reflexivity.
  - apply Hp. rewrite <- Hc, <- (replace_middle n1 n2 x ((a, d) :: x)), list_lookup_insert_ne by auto. reflexivity.
Qed.

Lemma move_chain_run t (al : A) c : functions_ok -> forall fuel m nchs, linked m c -> Forall (linked m) nchs -> NoDup (c ++ nodes nchs).*1 ->
  0 < zlen nchs -> placed nchs -> (length c < fuel)%nat ->
  exists m' nchs', move_chain fuel (zlen nchs) (head c) (head <$> nchs) (mk_st m t al) = (Ok (head <$> nchs'), mk_st m' t al) /\
    Forall (linked m') nchs' /\ Permutation (nodes nchs') (c ++ nodes nchs) /\ zlen nchs' = zlen nchs /\ placed nchs' /\
    (forall p, p ∉ c.*1 -> m' !! p = m !! p).
Proof.
  intros Hf. induction c as [|[a d] c IH]; intros [|fuel] m nchs Hc Hl Hn Hz Hp Hfuel; cbn [length] in Hfuel; try lia; cbn [move_chain].
  { exists m, nchs. auto 10. }
  destruct Hc as (Ha & Hm & Hc). cbn [head fst]. rewrite (proj2 (Z.eqb_neq a 0) Ha). unfold bind at 1. rewrite (get_item_run _ _ _ _ _ Hm). cbn [hash data next].
  cbn [app fmap list_fmap fst] in Hn. apply NoDup_cons in Hn as [Hna Hn]. rewrite fmap_app, elem_of_app in Hna. apply Decidable.not_or in Hna as [Hna1 Hna2].
  destruct (lookup_lt_is_Some_2 nchs (bucket (zlen nchs) d)) as [x Hx]; [pose proof (bucket_range (zlen nchs) d Hf Hz); unfold zlen in *; lia|].
  apply list_elem_of_split_length in Hx as (n1 & n2 & E & Hb). fold (bucket (zlen nchs) d).
  assert (Hx : (head <$> nchs) !! bucket (zlen nchs) d = Some (head x)).
  { rewrite list_lookup_fmap, Hb, E, list_lookup_middle by reflexivity. reflexivity. }
  rewrite Hx. cbn [known]. rewrite bind_ret. unfold bind at 1. rewrite put_item_run by (rewrite Hm; eauto).
  set (m1 := <[a := _]> m). set (nchs1 := n1 ++ ((a, d) :: x) :: n2).
  replace (<[bucket _ d := a]> _) with (head <$> nchs1).
  2: { rewrite Hb, E. unfold nchs1. rewrite !fmap_app. cbn [fmap list_fmap]. rewrite <- (length_fmap head n1). symmetry. apply replace_middle. }
  assert (Hz1 : zlen nchs1 = zlen nchs) by (rewrite E; unfold nchs1; rewrite !zlen_app, !zlen_cons; reflexivity).
  assert (Hperm : Permutation (nodes nchs1) ((a, d) :: nodes nchs)).
  { rewrite E. unfold nchs1. exact (nodes_perm n1 [] (a, d) x n2). }
  assert (Hl1 : Forall (linked m1) nchs).
  { apply Forall_forall. intros y Hy. rewrite Forall_forall in Hl. apply linked_insert; [auto|]. intros Hay. apply Hna2.
    apply list_elem_of_fmap in Hay as (n & -> & Hin). apply list_elem_of_fmap_2, elem_of_nodes. eauto. }
  destruct (IH fuel m1 nchs1) as (m' & nchs' & Hrun & H1 & H2 & H3 & H4 & H5); clear IH.
  - apply linked_insert; assumption.
  - rewrite E, Forall_app, Forall_cons in Hl1. destruct Hl1 as (? & ? & ?). apply Forall_app. split; [assumption|]. constructor; [|assumption].
    cbn. split; [exact Ha|]. split; [apply lookup_insert_eq | assumption].
  - assert (Hc1 : Permutation (c ++ nodes nchs1) ((a, d) :: c ++ nodes nchs)) 
      by (etransitivity; [apply Permutation_app_head, Hperm | symmetry; apply Permutation_middle]).
    apply (Permutation_map fst) in Hc1. apply (proj2 (NoDup_Permutation_proper _ _ Hc1)). cbn [map fst]. constructor; [|exact Hn].
    change (map fst ?l) with l.*1. rewrite fmap_app, elem_of_app. tauto.
  - lia.
  - unfold nchs1. apply placed_cons; rewrite <- E; assumption.
  - lia.
  - exists m', nchs'. rewrite <- Hz1. split; [exact Hrun|]. split; [exact H1|]. split; [rewrite H2; etransitivity; [apply Permutation_app_head, Hperm | symmetry; apply Permutation_middle]|].
    split; [exact H3|]. split; [exact H4|]. intros p Hpc. cbn in Hpc. rewrite H5 by set_solver. apply lookup_insert_ne. set_solver.
Qed.

Lemma nodes_fst_disjoint c cs nchs p : NoDup ((c ++ nodes cs) ++ nodes nchs).*1 -> p ∈ c.*1 -> p ∉ (nodes cs).*1 /\ p ∉ (nodes nchs).*1.
Proof. rewrite !fmap_app. intros Hn Hp. apply NoDup_app in Hn as (Hn & H1 & _). apply NoDup_app in Hn as (_ & H2 & _). split; [|apply H1]; set_solver. Qed.

Lemma perm_move (cs c ns x : list node) : Permutation x (c ++ ns) -> Permutation (cs ++ x) ((c ++ cs) ++ ns).
Proof.
  intros Hx. etransitivity; [apply Permutation_app_head, Hx|]. rewrite !app_assoc. apply Permutation_app_tail, Permutation_app_comm.
Qed.

Lemma read_bucket_run m num nb depth (al : A) done c cs :
  read_link (Bucket (Z.of_nat (length done))) (mk_st m (Some (mk_lhash num (head <$> done ++ c :: cs) nb depth)) al) =
  (Ok (head c), mk_st m (Some (mk_lhash num (head <$> done ++ c :: cs) nb depth)) al).
Proof.
  cbn. unfold get_lh, bind, get, known. cbn [st_table buckets ret].
  rewrite Nat2Z.id, list_lookup_fmap, list_lookup_middle by reflexivity. reflexivity.
Qed.

Lemma move_buckets_run num nb depth (al : A) cs : functions_ok -> forall done m nchs,
  let t := Some (mk_lhash num (head <$> done ++ cs) nb depth) in
  Forall (linked m) cs -> Forall (linked m) nchs -> NoDup (nodes cs ++ nodes nchs).*1 -> 0 < zlen nchs -> placed nchs ->
  exists m' nchs', move_buckets (length cs) (Z.of_nat (length done)) (zlen nchs) (head <$> nchs) (mk_st m t al) = (Ok (head <$> nchs'), mk_st m' t al) /\
    Forall (linked m') nchs' /\ Permutation (nodes nchs') (nodes cs ++ nodes nchs) /\ zlen nchs' = zlen nchs /\ placed nchs' /\
    (forall p, p ∉ (nodes cs).*1 -> m' !! p = m !! p).
Proof.
  intros Hf. induction cs as [|c cs IH]; intros done m nchs t Hc Hl Hn Hz Hp; cbn [length move_buckets]; [exists m, nchs; auto 10|].
  apply Forall_cons in Hc as [Hc Hcs]. unfold bind at 1. unfold t. rewrite read_bucket_run. unfold chain_fuel. rewrite bind_assoc, bind_get, bind_ret. cbn [st_items].
  cbn [concat] in Hn.
  assert (Hn1 : NoDup (c ++ nodes nchs).*1).
  { rewrite !fmap_app in *. apply NoDup_app in Hn as (Hn & H1 & H2). apply NoDup_app in Hn as (Hn & H3 & H4). apply NoDup_app. repeat split; auto. set_solver. }
  assert (Hnc : NoDup c.*1) by (rewrite fmap_app in Hn1; apply NoDup_app in Hn1; tauto).
  destruct (move_chain_run (Some (mk_lhash num (head <$> done ++ c :: cs) nb depth)) al c Hf (S (size m)) m nchs) as (m1 & nchs1 & Hrun & H1 & H2 & H3 & H4 & H5); auto.
  { pose proof (linked_size m c Hc Hnc). lia. }
  unfold bind at 1. rewrite Hrun. destruct (IH (done ++ [c]) m1 nchs1) as (m' & nchs' & Hrun' & K1 & K2 & K3 & K4 & K5); auto; try lia.
  - apply Forall_forall. intros y Hy. rewrite Forall_forall in Hcs. apply (linked_frame _ m); [auto|]. intros p Hpy. apply H5. intros Hpc.
    destruct (nodes_fst_disjoint _ _ _ _ Hn Hpc) as [Hd _]. apply Hd. apply list_elem_of_fmap in Hpy as (n & -> & Hin). apply list_elem_of_fmap_2, elem_of_nodes. eauto.
  - assert (Hc1 : Permutation (nodes cs ++ nodes nchs1) ((c ++ nodes cs) ++ nodes nchs)) by (apply perm_move, H2).
    apply (Permutation_map fst) in Hc1. apply (proj2 (NoDup_Permutation_proper _ _ Hc1)). exact Hn.
  - exists m', nchs'. rewrite <- app_assoc in Hrun'. cbn [app] in Hrun'. rewrite length_app in Hrun'. cbn [length] in Hrun'. rewrite H3 in Hrun'.
    replace (Z.of_nat (length done + 1)) with (Z.of_nat (length done) + 1) in Hrun' by lia. split; [exact Hrun'|]. split; [exact K1|].
    split; [etransitivity; [exact K2 | apply perm_move, H2]|]. split; [lia|]. split; [exact K4|].
    intros p Hpc. cbn [concat] in Hpc. rewrite fmap_app in Hpc. rewrite K5, H5 by set_solver. reflexivity.
Qed.

Lemma nodes_repeat k : nodes (repeat [] k) = [].
Proof. induction k as [|k IH]; [reflexivity | exact IH]. Qed.

Lemma head_repeat k : head <$> repeat [] k = repeat 0 k.
Proof. induction k as [|k IH]; [reflexivity|]. cbn. rewrite <- IH. reflexivity. Qed.

(** The resizing keeps the elements, in another array unless it fails. *)
Definition resized_to (n : Z) (chs chs' : list (list node)) : Prop :=
  Permutation (nodes chs') (nodes chs) /\
  (zlen chs' = n \/ zlen chs' = zlen chs /\ ~ (reliable A /\ 8 * n < 2 ^ 64)).

Lemma lh_rebucket_run F depth chs st n : functions_ok -> rep F depth chs st -> 16 <= n < 2 ^ 64 ->
  exists chs' st', lh_rebucket n st = (Ok tt, st') /\ rep F depth chs' st' /\ resized_to n chs chs'.
Proof.
  intros Hf Hr Hn. unfold lh_rebucket. cbv zeta.
  assert (Hsame : forall al, owes al (blocks (zlen chs) (length (nodes chs))) -> ~ (reliable A /\ 8 * n < 2 ^ 64) ->
    exists chs' st', (Ok tt, mk_st (st_items st) (st_table st) al) = (Ok tt, st') /\ rep F depth chs' st' /\ resized_to n chs chs').
  { intros al Ho Hno. exists chs, (mk_st (st_items st) (st_table st) al). split; [reflexivity|]. split; [apply rep_alloc; assumption|]. split; auto. }
  destruct (Z.eqb_spec (u64 (8 * n) / 8) n) as [Eov|Eov]; cbn [negb].
  2: { pose proof (rep_owes _ _ _ _ Hr) as Ho. destruct st as [m t al]. apply (Hsame al Ho). intros [_ Hlt]. apply Eov. rewrite wrap_small by (unfold in_word; lia). rewrite Z.mul_comm. apply Z.div_mul. lia. }
  assert (H8 : u64 (8 * n) = 8 * n /\ 8 * n < 2 ^ 64).
  { pose proof (wrap_range 64 (8 * n) ltac:(lia)) as Hw. unfold in_word in Hw. pose proof (Z.mul_div_le (u64 (8 * n)) 8 ltac:(lia)).
    assert (8 * n < 2 ^ 64) by lia. split; [apply wrap_small; split; lia | assumption]. }
  destruct H8 as [-> H8]. unfold bind at 1, malloc_buckets. destruct (OPENSSL_malloc (st_alloc st) (8 * n)) as [[b|] al] eqn:Em; cbv beta iota;
    pose proof (malloc_owes _ _ _ _ _ (rep_owes _ _ _ _ Hr) Em) as Ho; cbv beta iota in Ho.
  2: { apply Hsame; [exact Ho|]. intros [Hrel _]. apply (Hrel (st_alloc st) [] (8 * n)); [lia|]. unfold OPENSSL_malloc in Em. rewrite Em. reflexivity. }
  rewrite Z.mul_comm, Z.div_mul by lia. rewrite (rep_table _ _ _ _ Hr). unfold bind at 1. unfold get_lh at 1. rewrite bind_get. cbn [st_table known ret buckets num_buckets].
  set (n0 := repeat [] (Z.to_nat n) : list (list node)).
  assert (Hz0 : zlen n0 = n) by (unfold n0, zlen; rewrite repeat_length; lia).
  replace (repeat 0 (Z.to_nat n)) with (head <$> n0) by apply head_repeat.
  destruct (move_buckets_run (zlen (nodes chs)) (zlen chs) depth al chs Hf [] (st_items st) n0) as (m' & chs' & Hrun & H1 & H2 & H3 & H4 & H5).
  - exact (rep_linked _ _ _ _ Hr).
  - apply Forall_forall. intros x Hx. apply list_elem_of_In, repeat_spec in Hx as ->. exact I.
  - unfold n0. rewrite nodes_repeat, app_nil_r. exact (rep_addrs _ _ _ _ Hr).
  - lia.
  - intros i c Hc. apply list_elem_of_lookup_2, list_elem_of_In, repeat_spec in Hc as ->. constructor.
  - rewrite Hz0 in *. unfold n0 in H2. rewrite nodes_repeat, app_nil_r in H2. unfold bind at 1. replace (Z.to_nat (zlen chs)) with (length chs) by (unfold zlen; lia).
    cbn [app length] in Hrun. change (Z.of_nat 0) with 0 in Hrun. rewrite Hrun. unfold free_array, put_lh. unfold bind at 1. cbn [st_items st_alloc num_items callback_depth].
    eexists chs', _. split; [reflexivity|]. split; [|split; [exact H2 | left; exact H3]].
    assert (Ha : Permutation (nodes chs').*1 (nodes chs).*1) by (apply (Permutation_map fst), H2).
    constructor; cbn [st_table st_items st_alloc].
    + rewrite H3. do 2 f_equal. unfold zlen. rewrite (Permutation_length H2). reflexivity.
    + exact H1.
    + rewrite Ha. exact (rep_addrs _ _ _ _ Hr).
    + apply (proj2 (NoDup_Permutation_proper _ _ (Permutation_map key (Permutation_map snd H2)))). exact (rep_keys _ _ _ _ Hr).
    + exact H4.
    + lia.
    + intros p Hp. rewrite Ha in Hp. rewrite H5 by exact Hp. apply (rep_frame _ _ _ _ Hr), Hp.
    + intros p Hp. rewrite Ha in Hp. apply (rep_owned _ _ _ _ Hr), Hp.
    + unfold zlen. rewrite (Permutation_length H2). exact (rep_count _ _ _ _ Hr).
    + rewrite H3, (Permutation_length H2). apply free_owes. refine (owes_perm _ _ _ _ Ho). unfold blocks.
      rewrite app_comm_cons, <- (Permutation_middle (8 * n :: _)). constructor. apply Permutation_middle.
Qed.

(** The number of buckets for [items] elements in a table of [n]. *)
Definition wanted (items n : Z) : Z :=
  if 2 <? items / n then 2 * n else if (items / n <? 1) && (16 <? n) then Z.max 16 (n / 2) else n.

Definition kept (depth : Z) (chs chs' : list (list node)) : Prop :=
  Permutation (nodes chs') (nodes chs) /\ (0 < depth -> chs' = chs) /\
  (depth = 0 -> resized_to (wanted (zlen (nodes chs)) (zlen chs)) chs chs').

Lemma lh_maybe_resize_run F depth chs st : functions_ok -> rep F depth chs st -> 0 <= depth ->
  exists chs' st', lh_maybe_resize st = (Ok tt, st') /\ rep F depth chs' st' /\ kept depth chs chs'.
Proof.
  intros Hf Hr Hd. pose proof (rep_size _ _ _ _ Hr) as [Hs1 Hs2]. unfold lh_maybe_resize, bind at 1. rewrite (get_lh_run _ _ _ _ Hr). cbn [callback_depth num_items num_buckets].
  unfold kept, wanted, kMinNumBuckets, kMaxAverageChainLength, kMinAverageChainLength. cbv zeta. destruct (Z.ltb_spec 0 depth).
  { exists chs, st. split; [reflexivity|]. split; [exact Hr|]. split; [reflexivity|]. split; [auto | lia]. }
  assert (Hres : forall n, 16 <= n < 2 ^ 64 -> exists chs' st', lh_rebucket n st = (Ok tt, st') /\ rep F depth chs' st' /\
    (Permutation (nodes chs') (nodes chs) /\ (0 < depth -> chs' = chs) /\ (depth = 0 -> resized_to n chs chs'))).
  { intros n Hn. destruct (lh_rebucket_run F depth chs st n Hf Hr Hn) as (chs' & st' & E & Hr' & Hk). exists chs', st'. split; [exact E|]. split; [exact Hr'|]. split; [apply Hk|]. split; [lia | intros _; exact Hk]. }
  destruct (Z.leb_spec 16 (zlen chs)); [|lia]. cbn [negb]. set (avg := _ / _). destruct (Z.ltb_spec 2 avg).
  - rewrite wrap_small by (unfold in_word; lia). destruct (Z.ltb_spec (zlen chs) (zlen chs * 2)); [|lia]. rewrite Z.mul_comm. apply Hres. lia.
  - destruct (Z.ltb_spec avg 1), (Z.ltb_spec 16 (zlen chs)); cbn [andb];
      try (exists chs, st; split; [reflexivity|]; split; [exact Hr|]; split; [reflexivity|]; split; [lia | split; [reflexivity | auto]]).
    pose proof (Z.div_le_upper_bound (zlen chs) 2 (zlen chs) ltac:(lia) ltac:(lia)).
    destruct (Z.ltb_spec (zlen chs / 2) 16); [rewrite Z.max_l by lia | rewrite Z.max_r by lia]; apply Hres; lia.
Qed.

(** *** Inserting and deleting *)

Lemma rep_table_eq F depth chs st : rep F depth chs st ->
  st = mk_st (st_items st) (Some (mk_lhash (zlen (nodes chs)) (head <$> chs) (zlen chs) depth)) (st_alloc st).
Proof. intros Hr. rewrite <- (rep_table _ _ _ _ Hr). destruct st; reflexivity. Qed.

(** A chain with another element of the same key in place of one. *)
Lemma content_replace chs1 pre a d0 d post chs2 : NoDup (key <$> (nodes (chs1 ++ (pre ++ (a, d0) :: post) :: chs2)).*2) -> key d0 = key d ->
  NoDup (key <$> (nodes (chs1 ++ (pre ++ (a, d) :: post) :: chs2)).*2) /\
  content (chs1 ++ (pre ++ (a, d) :: post) :: chs2) = <[key d := d]> (content (chs1 ++ (pre ++ (a, d0) :: post) :: chs2)).
Proof.
  intros Hn Hk. assert (Hn' : NoDup (key <$> (nodes (chs1 ++ (pre ++ (a, d) :: post) :: chs2)).*2)).
  { replace (key <$> _) with (key <$> (nodes (chs1 ++ (pre ++ (a, d0) :: post) :: chs2)).*2); [exact Hn|].
    rewrite !nodes_middle, !fmap_app, !fmap_cons. cbn [snd]. rewrite Hk. reflexivity. }
  split; [exact Hn'|]. unfold content. rewrite (entries_perm _ _ Hn (nodes_perm _ _ _ _ _)), (entries_perm _ _ Hn' (nodes_perm _ _ _ _ _)), !entries_cons.
  rewrite Hk. symmetry. apply insert_insert_eq.
Qed.

Lemma content_delete k chs1 pre a d0 post chs2 : NoDup (key <$> (nodes (chs1 ++ (pre ++ (a, d0) :: post) :: chs2)).*2) ->
  position k chs1 pre ((a, d0) :: post) chs2 ->
  content (chs1 ++ (pre ++ post) :: chs2) = delete k (content (chs1 ++ (pre ++ (a, d0) :: post) :: chs2)).
Proof.
  intros Hn [Hm Ho]. unfold content. rewrite (entries_perm _ _ Hn (nodes_perm _ _ _ _ _)), entries_cons. cbn in Hm. rewrite Hm. symmetry.
  apply delete_insert_id, entries_None. rewrite nodes_middle, <- app_assoc. exact Ho.
Qed.

Lemma content_insert chs1 c p d chs2 : NoDup (key <$> (nodes (chs1 ++ (c ++ [(p, d)]) :: chs2)).*2) ->
  content (chs1 ++ (c ++ [(p, d)]) :: chs2) = <[key d := d]> (content (chs1 ++ c :: chs2)).
Proof. intros Hn. unfold content. rewrite (entries_perm _ _ Hn (nodes_perm _ _ _ _ _)), app_nil_r. reflexivity. Qed.

Lemma insert_replace_run F depth chs st d d0 : functions_ok -> rep F depth chs st -> content chs !! key d = Some d0 ->
  exists chs' st', OPENSSL_lh_insert call_hash_func call_cmp_func d st = (Ok (true, d0), st') /\ rep F depth chs' st' /\
    content chs' = <[key d := d]> (content chs) /\ zlen chs' = zlen chs /\ zlen (nodes chs') = zlen (nodes chs).
Proof.
  intros Hf Hr Hd. destruct (get_next_ptr_run F depth chs st d Hf Hr) as (chs1 & pre & post & chs2 & l & -> & Hb & Hp & _ & Hrun & Hread).
  rewrite (position_content _ _ _ _ _ (rep_keys _ _ _ _ Hr) Hp) in Hd. destruct post as [|[a e] post]; [discriminate|]. injection Hd as ->.
  destruct (position_item _ _ _ _ _ _ _ _ _ Hr) as [Ha Hm]. pose proof (position_match _ _ _ _ _ Hp) as Hk. cbn in Hk.
  destruct (content_replace chs1 pre a d0 d post chs2 (rep_keys _ _ _ _ Hr) Hk) as [Hn Hc].
  unfold OPENSSL_lh_insert, bind at 1. rewrite Hrun. unfold bind at 1. rewrite Hread. cbn [head fst]. rewrite (proj2 (Z.eqb_neq a 0) Ha). cbn [negb].
  rewrite (rep_table_eq _ _ _ _ Hr). unfold bind at 1. rewrite (get_item_run _ _ _ _ _ Hm). unfold bind at 1. rewrite put_item_run by (rewrite Hm; eauto).
  cbn [data next hash]. set (items' := <[a := _]> (st_items st)).
  assert (Hz : zlen (nodes (chs1 ++ (pre ++ (a, d) :: post) :: chs2)) = zlen (nodes (chs1 ++ (pre ++ (a, d0) :: post) :: chs2))).
  { rewrite !nodes_middle, !zlen_app, !zlen_cons. reflexivity. }
  assert (Hh : head <$> chs1 ++ (pre ++ (a, d) :: post) :: chs2 = head <$> chs1 ++ (pre ++ (a, d0) :: post) :: chs2).
  { rewrite !fmap_app, !fmap_cons. do 2 f_equal. destruct pre; reflexivity. }
  eexists (chs1 ++ (pre ++ (a, d) :: post) :: chs2), _. split; [reflexivity|]. split; [|split; [exact Hc|]; split; [rewrite !zlen_app, !zlen_cons; reflexivity | exact Hz]].
  pose proof (rep_linked _ _ _ _ Hr) as Hl. rewrite Forall_app, Forall_cons in Hl. destruct Hl as (_ & Hl & _).
  pose proof (rep_addrs _ _ _ _ Hr) as Hna. assert (Hpa : NoDup (pre ++ (a, d0) :: post).*1).
  { rewrite nodes_middle, !fmap_app in Hna. apply NoDup_app in Hna as (_ & _ & Hna). apply NoDup_app in Hna as (Hna & _). rewrite fmap_app. exact Hna. }
  rewrite <- Hh, <- Hz. assert (Hfst : (pre ++ (a, d) :: post).*1 = (pre ++ (a, d0) :: post).*1) by (rewrite !fmap_app; reflexivity).
  apply (rep_update _ _ _ (pre ++ (a, d0) :: post) _ _ _ _ _ Hr); try rewrite Hfst; try tauto.
  - apply linked_replace; [exact Hl | exact Hpa | apply (hash_key Hf), Hk].
  - intros p Hp1 _. apply lookup_insert_ne. intros <-. apply Hp1. rewrite fmap_app. cbn. set_solver.
  - rewrite nodes_middle, fmap_app, (fmap_app _ (pre ++ _)), Hfst, <- !fmap_app, <- nodes_middle. exact Hna.
  - pose proof (rep_placed _ _ _ _ Hr (length chs1) (pre ++ (a, d0) :: post)) as Hpl. rewrite list_lookup_middle in Hpl by reflexivity.
    specialize (Hpl eq_refl). rewrite Forall_app, Forall_cons in *. cbn [snd] in *. split; [apply Hpl|]. split; [auto | apply Hpl].
  - rewrite Hz. exact (rep_count _ _ _ _ Hr).
  - unfold zlen in Hz. rewrite (Nat2Z.inj _ _ Hz). exact (rep_owes _ _ _ _ Hr).
Qed.

Lemma rep_chain F depth chs1 c chs2 st : rep F depth (chs1 ++ c :: chs2) st ->
  linked (st_items st) c /\ NoDup c.*1 /\ Forall (fun n => bucket (zlen (chs1 ++ c :: chs2)) n.2 = length chs1) c.
Proof.
  intros Hr. pose proof (rep_linked _ _ _ _ Hr) as Hl. rewrite Forall_app, Forall_cons in Hl. split; [tauto|].
  pose proof (rep_addrs _ _ _ _ Hr) as Hna. rewrite nodes_middle, !fmap_app in Hna. apply NoDup_app in Hna as (_ & _ & Hna).
  split; [apply NoDup_app in Hna; tauto|]. apply (rep_placed _ _ _ _ Hr), list_lookup_middle. reflexivity.
Qed.

(** The state when an element has been added to the end of a chain. *)
Lemma rep_insert F depth chs1 c chs2 st p d al : rep F depth (chs1 ++ c :: chs2) st -> bucket (zlen (chs1 ++ c :: chs2)) d = length chs1 ->
  Forall (fun n : node => key n.2 <> key d) (nodes (chs1 ++ c :: chs2)) -> 0 < p -> p ∉ dom (st_items st) ->
  zlen (nodes (chs1 ++ c :: chs2)) + 1 < 2 ^ 64 ->
  owes al (sizeof_LHASH_ITEM :: blocks (zlen (chs1 ++ c :: chs2)) (length (nodes (chs1 ++ c :: chs2)))) ->
  rep F depth (chs1 ++ (c ++ [(p, d)]) :: chs2)
    (mk_st (relink (<[p := mk_item d 0 (call_hash_func d)]> (st_items st)) c p)
      (Some (mk_lhash (zlen (nodes (chs1 ++ (c ++ [(p, d)]) :: chs2))) (head <$> chs1 ++ (c ++ [(p, d)]) :: chs2) (zlen (chs1 ++ c :: chs2)) depth)) al).
Proof.
  intros Hr Hb Hk Hp Hfresh Hcount Howes. destruct (rep_chain _ _ _ _ _ _ Hr) as (Hl & Hn & Hpl). pose proof (nodes_perm chs1 c (p, d) [] chs2) as Hperm. rewrite app_nil_r in Hperm.
  apply not_elem_of_dom in Hfresh.
  assert (Hpn : p ∉ (nodes (chs1 ++ c :: chs2)).*1).
  { intros Hin. apply list_elem_of_fmap in Hin as ([a e] & -> & Hin). apply elem_of_nodes in Hin as (x & Hx & Hin).
    pose proof (rep_linked _ _ _ _ Hr) as Hlk. rewrite Forall_forall in Hlk. destruct (linked_elem _ _ _ _ _ (Hlk x Hx) Hin) as (_ & q & Hq). cbn in Hfresh. congruence. }
  assert (Hpc : p ∉ c.*1) by (intros Hin; apply Hpn; rewrite nodes_middle, !fmap_app; set_solver).
  assert (Hsame : forall q, q ∉ c.*1 -> q <> p -> relink (<[p := mk_item d 0 (call_hash_func d)]> (st_items st)) c p !! q = st_items st !! q).
  { intros q Hq Hqp. rewrite relink_other by exact Hq. apply lookup_insert_ne. auto. }
  apply (rep_update _ _ _ c _ _ _ _ _ Hr).
  - apply (relink_linked _ _ c [] [(p, d)]); [rewrite app_nil_r; apply linked_insert; assumption | exact Hn|].
    cbn. split; [lia|]. split; [|exact I]. rewrite relink_other by exact Hpc. apply lookup_insert_eq.
  - intros q Hq Hq'. rewrite fmap_app in Hq'. cbn in Hq'. apply Hsame; [exact Hq | set_solver].
  - intros q Hq Hq'. rewrite fmap_app in Hq'. set_solver.
  - intros q Hq Hq'. rewrite fmap_app in Hq. cbn in Hq. assert (q = p) as -> by set_solver. split; [exact Hp|]. split; [|exact Hpn].
    rewrite <- (rep_frame _ _ _ _ Hr); assumption.
  - apply (proj2 (NoDup_Permutation_proper _ _ (Permutation_map fst Hperm))). constructor; [exact Hpn | exact (rep_addrs _ _ _ _ Hr)].
  - apply (proj2 (NoDup_Permutation_proper _ _ (Permutation_map key (Permutation_map snd Hperm)))). constructor; [|exact (rep_keys _ _ _ _ Hr)].
    cbn [fst snd]. intros Hin. apply list_elem_of_In, in_map_iff in Hin as (e & He & Hin). apply in_map_iff in Hin as (n & <- & Hin).
    rewrite Forall_forall in Hk. apply (Hk n); [apply list_elem_of_In, Hin | exact He].
  - apply Forall_app. split; [exact Hpl | repeat constructor; exact Hb].
  - unfold zlen in *. rewrite (Permutation_length Hperm). cbn [length]. lia.
  - rewrite (Permutation_length Hperm). exact Howes.
Qed.

(** ... and when one has been taken out. *)
Lemma rep_delete F depth chs1 pre a d post chs2 st : rep F depth (chs1 ++ (pre ++ (a, d) :: post) :: chs2) st ->
  rep F depth (chs1 ++ (pre ++ post) :: chs2)
    (mk_st (delete a (relink (st_items st) pre (head post)))
      (Some (mk_lhash (zlen (nodes (chs1 ++ (pre ++ post) :: chs2))) (head <$> chs1 ++ (pre ++ post) :: chs2) (zlen (chs1 ++ (pre ++ (a, d) :: post) :: chs2)) depth))
      (OPENSSL_free (st_alloc st) sizeof_LHASH_ITEM)).
Proof.
  intros Hr. destruct (rep_chain _ _ _ _ _ _ Hr) as (Hl & Hn & Hpl). pose proof (nodes_perm chs1 pre (a, d) post chs2) as Hperm.
  pose proof (rep_addrs _ _ _ _ Hr) as Hna. apply (NoDup_Permutation_proper _ _ (Permutation_map fst Hperm)) in Hna. cbn [map fst] in Hna. apply NoDup_cons in Hna as [Ha Hna].
  pose proof (rep_keys _ _ _ _ Hr) as Hnk. apply (NoDup_Permutation_proper _ _ (Permutation_map key (Permutation_map snd Hperm))) in Hnk. cbn [map snd] in Hnk. apply NoDup_cons in Hnk as [_ Hnk].
  rewrite fmap_app in Hn. cbn [fmap list_fmap fst] in Hn. apply NoDup_app in Hn as (Hn1 & Hd & Hn2). apply NoDup_cons in Hn2 as [Hap Hn2].
  assert (Hpre : a ∉ pre.*1) by (intros Hin; apply (Hd a Hin); set_solver).
  apply (rep_update _ _ _ (pre ++ (a, d) :: post) _ _ _ _ _ Hr); try assumption.
  - apply (linked_frame _ (relink (st_items st) pre (head post))).
    + apply (relink_linked _ _ pre ((a, d) :: post)); [exact Hl | exact Hn1|]. apply linked_app in Hl as (_ & _ & Hl). apply (linked_frame _ (st_items st)); [exact Hl|].
      intros p Hp. apply relink_other. intros Hin. apply (Hd p Hin). set_solver.
    + intros p Hp. apply lookup_delete_ne. intros <-. rewrite fmap_app in Hp. set_solver.
  - intros p Hp _. rewrite fmap_app in Hp. cbn in Hp. rewrite lookup_delete_ne by set_solver. apply relink_other. set_solver.
  - intros p Hp Hp'. rewrite fmap_app in Hp, Hp'. cbn in Hp. assert (p = a) as -> by set_solver. apply lookup_delete_eq.
  - intros p Hp Hp'. rewrite fmap_app in Hp, Hp'. set_solver.
  - rewrite Forall_app, Forall_cons in *. tauto.
  - pose proof (rep_count _ _ _ _ Hr) as Hcount. unfold zlen in *. rewrite (Permutation_length Hperm) in Hcount. cbn [length] in Hcount. lia.
  - apply free_owes. pose proof (rep_owes _ _ _ _ Hr) as Howes. rewrite (Permutation_length Hperm) in Howes. exact Howes.
Qed.

Lemma set_num_items_run m (bs : list Z) nb depth (al : A) n n' :
  set_num_items n' (mk_st m (Some (mk_lhash n bs nb depth)) al) = (Ok tt, mk_st m (Some (mk_lhash n' bs nb depth)) al).
Proof. reflexivity. Qed.

(** There is no memory for a new item. *)
Definition no_item (st : lh_state A) : Prop := fst (OPENSSL_malloc (st_alloc st) sizeof_LHASH_ITEM) = None.

Lemma insert_new_run F depth chs st d : functions_ok -> rep F depth chs st -> 0 <= depth -> content chs !! key d = None ->
  zlen (nodes chs) + 1 < 2 ^ 64 ->
  (exists st', OPENSSL_lh_insert call_hash_func call_cmp_func d st = (Ok (false, 0), st') /\ rep F depth chs st' /\ no_item st) \/
  exists chs1 chs' st', OPENSSL_lh_insert call_hash_func call_cmp_func d st = (Ok (true, 0), st') /\ rep F depth chs' st' /\ kept depth chs1 chs' /\
    content chs1 = <[key d := d]> (content chs) /\ content chs' = content chs1 /\ zlen (nodes chs1) = zlen (nodes chs) + 1 /\ zlen chs1 = zlen chs.
Proof.
  intros Hf Hr Hdep Hd Hcount. destruct (get_next_ptr_run F depth chs st d Hf Hr) as (chs1 & pre & post & chs2 & l & -> & Hb & Hp & -> & Hrun & Hread).
  rewrite (position_content _ _ _ _ _ (rep_keys _ _ _ _ Hr) Hp) in Hd. destruct post as [|[a e] post]; [|discriminate].
  pose proof (position_other _ _ _ _ _ Hp) as Hk. cbn [tail app] in Hk. rewrite app_nil_r in Hr, Hb, Hrun, Hread |- *.
  rewrite <- nodes_middle in Hk. destruct (rep_chain _ _ _ _ _ _ Hr) as (Hl & _ & _).
  assert (Hi : call_hash_func d mod zlen (chs1 ++ pre :: chs2) = Z.of_nat (length chs1)).
  { unfold bucket in Hb. rewrite Hb, Z2Nat.id; [reflexivity|]. apply Z.mod_pos_bound. pose proof (rep_size _ _ _ _ Hr). lia. }
  destruct (OPENSSL_malloc (st_alloc st) sizeof_LHASH_ITEM) as [[b|] al] eqn:Em;
    pose proof (malloc_owes _ _ _ _ _ (rep_owes _ _ _ _ Hr) Em) as Ho; cbv beta iota in Ho; [right | left].
  2: { exists (mk_st (st_items st) (st_table st) al). split; [|split; [apply rep_alloc; assumption | unfold no_item; rewrite Em; reflexivity]].
    unfold OPENSSL_lh_insert, bind at 1. rewrite Hrun. unfold bind at 1. rewrite Hread. cbn [head negb Z.eqb]. unfold bind at 1, malloc_item. rewrite Em. reflexivity. }
  destruct (new_address_ok al (dom (st_items st))) as [Hrange Hfresh]. set (p := new_address al (dom (st_items st))) in *.
  assert (Hp0 : p <> 0) by lia. rewrite app_nil_r in Hcount.
  pose proof (rep_insert _ _ _ _ _ _ p d al Hr (eq_sym Hb) Hk Hrange Hfresh Hcount Ho) as Hr1. set (chs1' := chs1 ++ (pre ++ [(p, d)]) :: chs2) in *.
  assert (Hz : zlen (nodes chs1') = zlen (nodes (chs1 ++ pre :: chs2)) + 1).
  { unfold chs1'. rewrite !nodes_middle, !zlen_app, zlen_cons, zlen_nil. lia. }
  assert (E : OPENSSL_lh_insert call_hash_func call_cmp_func d st = (lh_maybe_resize ;; ret (true, 0))
    (mk_st (relink (<[p := mk_item d 0 (call_hash_func d)]> (st_items st)) pre p)
      (Some (mk_lhash (zlen (nodes chs1')) (head <$> chs1') (zlen (chs1 ++ pre :: chs2)) depth)) al)).
  { unfold OPENSSL_lh_insert, bind at 1. rewrite Hrun. unfold bind at 1. rewrite Hread. cbn [head negb Z.eqb]. unfold bind at 1, malloc_item. rewrite Em. fold p.
    rewrite (proj2 (Z.eqb_neq p 0) Hp0), (rep_table _ _ _ _ Hr). unfold bind at 1. rewrite put_item_run by (rewrite lookup_insert_eq; eauto). rewrite insert_insert_eq.
    unfold bind at 1. rewrite Hi. pose proof (write_link_run (<[p := mk_item d 0 (call_hash_func d)]> (st_items st)) (zlen (nodes (chs1 ++ pre :: chs2)))
      (zlen (chs1 ++ pre :: chs2)) depth al chs1 pre [] [(p, d)] chs2 (Z.of_nat (length chs1))) as Hw. rewrite app_nil_r in Hw. cbn [head fst] in Hw. rewrite Hw; [|apply linked_insert; [exact Hl|] | reflexivity].
    - unfold bind at 1, get_lh. rewrite bind_get. cbn [st_table known ret num_items]. unfold bind at 1. rewrite set_num_items_run, <- Hz.
      rewrite wrap_small by (split; [apply zlen_nonneg | exact (rep_count _ _ _ _ Hr1)]). reflexivity.
    - intros Hin. apply Hfresh. apply list_elem_of_fmap in Hin as ([a e] & -> & Hin). destruct (linked_elem _ _ _ _ _ Hl Hin) as (_ & q & Hq). apply elem_of_dom. eauto. }
  destruct (lh_maybe_resize_run _ _ _ _ Hf Hr1 Hdep) as (chs' & st' & Erun & Hr' & Hkept). rewrite (bind_Ok _ _ _ _ _ Erun) in E.
  exists chs1', chs', st'. split; [exact E|]. split; [exact Hr'|]. split; [exact Hkept|].
  split; [exact (content_insert _ _ _ _ _ (rep_keys _ _ _ _ Hr1))|]. split; [apply entries_perm; [exact (rep_keys _ _ _ _ Hr') | exact (proj1 Hkept)]|].
  split; [exact Hz|]. unfold chs1'. rewrite !zlen_app, !zlen_cons. reflexivity.
Qed.

(** One element is taken out of its chain. *)
Definition removed (d0 : Z) (chs chs' : list (list node)) : Prop :=
  exists chs1 pre a post chs2, chs = chs1 ++ (pre ++ (a, d0) :: post) :: chs2 /\ chs' = chs1 ++ (pre ++ post) :: chs2.

Lemma delete_run F depth chs st d : functions_ok -> rep F depth chs st -> 0 <= depth ->
  match content chs !! key d with
  | None => OPENSSL_lh_delete call_hash_func call_cmp_func d st = (Ok 0, st)
  | Some d0 => exists chs1 chs' st', OPENSSL_lh_delete call_hash_func call_cmp_func d st = (Ok d0, st') /\ rep F depth chs' st' /\
      removed d0 chs chs1 /\ kept depth chs1 chs' /\ content chs1 = delete (key d) (content chs) /\ content chs' = content chs1
  end.
Proof.
  intros Hf Hr Hdep. destruct (get_next_ptr_run F depth chs st d Hf Hr) as (chs1 & pre & post & chs2 & l & -> & Hb & Hp & -> & Hrun & Hread).
  rewrite (position_content _ _ _ _ _ (rep_keys _ _ _ _ Hr) Hp).
  assert (Hi : call_hash_func d mod zlen (chs1 ++ (pre ++ post) :: chs2) = Z.of_nat (length chs1)).
  { unfold bucket in Hb. rewrite Hb, Z2Nat.id; [reflexivity|]. apply Z.mod_pos_bound. pose proof (rep_size _ _ _ _ Hr). lia. }
  destruct post as [|[a d0] post]; cbn [list.head fmap option_fmap option_map snd].
  { unfold OPENSSL_lh_delete, bind at 1. rewrite Hrun. unfold bind at 1. rewrite Hread. reflexivity. }
  destruct (position_item _ _ _ _ _ _ _ _ _ Hr) as [Ha Hm]. destruct (rep_chain _ _ _ _ _ _ Hr) as (Hl & Hn & _).
  pose proof (rep_delete _ _ _ _ _ _ _ _ _ Hr) as Hr1.
  assert (Hpre : a ∉ pre.*1).
  { rewrite fmap_app in Hn. apply NoDup_app in Hn as (_ & Hn & _). intros Hin. apply (Hn a Hin). cbn. set_solver. }
  assert (E : OPENSSL_lh_delete call_hash_func call_cmp_func d st =
    (lh_maybe_resize ;; ret d0) (mk_st (delete a (relink (st_items st) pre (head post)))
      (Some (mk_lhash (zlen (nodes (chs1 ++ (pre ++ post) :: chs2))) (head <$> chs1 ++ (pre ++ post) :: chs2) (zlen (chs1 ++ (pre ++ (a, d0) :: post) :: chs2)) depth)) (OPENSSL_free (st_alloc st) sizeof_LHASH_ITEM))).
  { unfold OPENSSL_lh_delete, bind at 1. rewrite Hrun. unfold bind at 1. rewrite Hread. cbn [head fst]. rewrite (proj2 (Z.eqb_neq a 0) Ha).
    rewrite (rep_table_eq _ _ _ _ Hr). unfold bind at 1. rewrite (get_item_run _ _ _ _ _ Hm). cbn [next data]. unfold bind at 1.
    rewrite Hi, (write_link_run _ _ _ _ _ _ pre ((a, d0) :: post) post) by auto. unfold bind at 1.
    rewrite free_item_run by (rewrite relink_other by exact Hpre; rewrite Hm; eauto). unfold bind at 1, get_lh. rewrite bind_get. cbn [st_table known ret num_items].
    unfold bind at 1. rewrite set_num_items_run.
    replace (zlen (nodes (chs1 ++ (pre ++ (a, d0) :: post) :: chs2)) - 1) with (zlen (nodes (chs1 ++ (pre ++ post) :: chs2)))
      by (rewrite !nodes_middle, !zlen_app, !zlen_cons; lia).
    rewrite wrap_small by (split; [apply zlen_nonneg | exact (rep_count _ _ _ _ Hr1)]). reflexivity. }
  destruct (lh_maybe_resize_run _ _ _ _ Hf Hr1 Hdep) as (chs' & st' & Erun & Hr' & Hkept). rewrite (bind_Ok _ _ _ _ _ Erun) in E.
  exists (chs1 ++ (pre ++ post) :: chs2), chs', st'. split; [exact E|]. split; [exact Hr'|]. split; [exists chs1, pre, a, post, chs2; auto|]. split; [exact Hkept|].
  split; [exact (content_delete _ _ _ _ _ _ _ (rep_keys _ _ _ _ Hr) Hp)|]. apply entries_perm; [exact (rep_keys _ _ _ _ Hr') | exact (proj1 Hkept)].
Qed.

(** *** Making and freeing a table *)

Lemma rep_new F m al : m = F -> owes al (8 * kMinNumBuckets :: sizeof_LHASH :: others) -> rep F 0 (repeat [] 16) (mk_st m (Some (mk_lhash 0 (repeat 0 16) 16 0)) al).
Proof.
  intros -> Ho. assert (Hn : nodes (repeat [] 16) = []) by apply nodes_repeat. constructor; cbn [st_table st_items st_alloc]; rewrite ?Hn; try reflexivity; try (constructor; fail).
  - apply Forall_forall. intros x Hx. apply list_elem_of_In, repeat_spec in Hx as ->. exact I.
  - intros i c Hc. apply list_elem_of_lookup_2, list_elem_of_In, repeat_spec in Hc as ->. constructor.
  - cbv. split; [discriminate | reflexivity].
  - intros p Hp. cbn in Hp. apply not_elem_of_nil in Hp as [].
  - exact Ho.
Qed.

(** There is no memory for a table or for its buckets. *)
Definition no_table (st : lh_state A) : Prop :=
  match OPENSSL_malloc (st_alloc st) sizeof_LHASH with
  | (Some _, al) => fst (OPENSSL_malloc al (8 * kMinNumBuckets)) = None
  | (None, _) => True
  end.

Lemma lh_new_run (st : lh_state A) : owes (st_alloc st) others -> exists made st', OPENSSL_lh_new st = (Ok made, st') /\
  if made then rep (st_items st) 0 (repeat [] 16) st'
  else no_table st /\ st_items st' = st_items st /\ st_table st' = st_table st /\ owes (st_alloc st') others.
Proof.
  intros Ho. unfold OPENSSL_lh_new, no_table. destruct (OPENSSL_malloc (st_alloc st) sizeof_LHASH) as [[b|] al] eqn:E1;
    apply (malloc_owes _ _ _ _ _ Ho) in E1; cbv beta iota in E1; [|exists false; eexists; split; [reflexivity | auto]].
  unfold malloc_buckets. cbn [st_alloc]. destruct (OPENSSL_malloc al (8 * kMinNumBuckets)) as [[b'|] al'] eqn:E2;
    apply (malloc_owes _ _ _ _ _ E1) in E2; cbv beta iota in E2.
  - eexists true, _. split; [reflexivity|]. apply rep_new; [reflexivity | exact E2].
  - exists false. eexists. split; [reflexivity|]. do 3 (split; [reflexivity|]). apply free_owes, E2.
Qed.

Lemma free_chain_run t c : forall (al : A) fuel m, linked m c -> NoDup c.*1 -> (length c < fuel)%nat ->
  forall sizes, owes al (repeat sizeof_LHASH_ITEM (length c) ++ sizes) ->
  exists m' al', free_chain fuel (head c) (mk_st m t al) = (Ok tt, mk_st m' t al') /\ owes al' sizes /\
    (forall p, p ∈ c.*1 -> m' !! p = None) /\ (forall p, p ∉ c.*1 -> m' !! p = m !! p).
Proof.
  induction c as [|[a d] c IH]; intros al [|fuel] m Hl Hn Hfuel sizes Ho; cbn [length] in Hfuel; try lia; cbn [free_chain].
  { exists m, al. split; [reflexivity|]. split; [exact Ho|]. split; [intros p Hp; apply not_elem_of_nil in Hp as [] | auto]. }
  destruct Hl as (Ha & Hm & Hl). cbn [fmap list_fmap fst] in Hn. apply NoDup_cons in Hn as [Hac Hn]. cbn [head fst]. rewrite (proj2 (Z.eqb_neq a 0) Ha).
  unfold bind at 1. rewrite (get_item_run _ _ _ _ _ Hm). unfold bind at 1. rewrite free_item_run by (rewrite Hm; eauto). cbn [next].
  destruct (IH (OPENSSL_free al sizeof_LHASH_ITEM) fuel (delete a m)) with (sizes := sizes) as (m' & al' & E & Ho' & H1 & H2); [|exact Hn|lia|apply free_owes, Ho|].
  { apply (linked_frame _ m); [exact Hl|]. intros p Hp. apply lookup_delete_ne. intros ->. contradiction. }
  exists m', al'. split; [exact E|]. split; [exact Ho'|]. cbn [fmap list_fmap fst]. split; intros p Hp.
  - destruct (decide (p ∈ c.*1)) as [Hc|Hc]; [auto|]. rewrite H2 by exact Hc. assert (p = a) as -> by set_solver. apply lookup_delete_eq.
  - rewrite H2 by set_solver. apply lookup_delete_ne. set_solver.
Qed.

Lemma free_buckets_run num nb depth sizes cs : forall (al : A) done m, let t := Some (mk_lhash num (head <$> done ++ cs) nb depth) in
  Forall (linked m) cs -> NoDup (nodes cs).*1 ->
  owes al (repeat sizeof_LHASH_ITEM (length (nodes cs)) ++ sizes) ->
  exists m' al', free_buckets (length cs) (Z.of_nat (length done)) (mk_st m t al) = (Ok tt, mk_st m' t al') /\ owes al' sizes /\
    (forall p, p ∈ (nodes cs).*1 -> m' !! p = None) /\ (forall p, p ∉ (nodes cs).*1 -> m' !! p = m !! p).
Proof.
  induction cs as [|c cs IH]; intros al done m t Hl Hn Ho; cbn [length free_buckets].
  { exists m, al. split; [reflexivity|]. split; [exact Ho|]. split; [intros p Hp; apply not_elem_of_nil in Hp as [] | auto]. }
  apply Forall_cons in Hl as [Hc Hl]. cbn [concat] in *. rewrite fmap_app in *. apply NoDup_app in Hn as (Hnc & Hd & Hn).
  rewrite length_app, repeat_app, <- app_assoc in Ho. unfold bind at 1. unfold t. rewrite read_bucket_run. unfold chain_fuel. rewrite bind_assoc, bind_get, bind_ret. cbn [st_items].
  destruct (free_chain_run (Some (mk_lhash num (head <$> done ++ c :: cs) nb depth)) c al (S (size m)) m Hc Hnc) with (sizes := repeat sizeof_LHASH_ITEM (length (nodes cs)) ++ sizes) as (m1 & al1 & E & Ho1 & H1 & H2).
  { pose proof (linked_size m c Hc Hnc). lia. } { exact Ho. }
  unfold bind at 1. rewrite E. destruct (IH al1 (done ++ [c]) m1) as (m' & al' & E' & Ho' & K1 & K2); [|exact Hn|exact Ho1|].
  { apply Forall_forall. intros y Hy. rewrite Forall_forall in Hl. apply (linked_frame _ m); [auto|]. intros p Hpy. apply H2. intros Hpc. apply (Hd p Hpc).
    apply list_elem_of_fmap in Hpy as (n & -> & Hin). apply list_elem_of_fmap_2, elem_of_nodes. eauto. }
  exists m', al'. rewrite <- app_assoc in E'. cbn [app] in E'. rewrite length_app in E'. cbn [length] in E'.
  replace (Z.of_nat (length done + 1)) with (Z.of_nat (length done) + 1) in E' by lia. split; [exact E'|]. split; [exact Ho'|]. split; intros p Hp.
  - destruct (decide (p ∈ (nodes cs).*1)) as [Hpc|Hpc]; [auto|]. rewrite K2 by exact Hpc. apply H1. set_solver.
  - rewrite K2, H2 by set_solver. reflexivity.
Qed.

(** Freeing a table releases its items and nothing else. *)
Lemma lh_free_run F depth chs st : rep F depth chs st ->
  exists al, OPENSSL_lh_free st = (Ok tt, mk_st F None al) /\ owes al others.
Proof.
  intros Hr. unfold OPENSSL_lh_free. rewrite bind_get. rewrite (rep_table_eq _ _ _ _ Hr). cbn [st_table num_buckets].
  destruct (free_buckets_run (zlen (nodes chs)) (zlen chs) depth (8 * zlen chs :: sizeof_LHASH :: others) chs (st_alloc st) [] (st_items st)
    (rep_linked _ _ _ _ Hr) (rep_addrs _ _ _ _ Hr) (rep_owes _ _ _ _ Hr)) as (m' & al' & E & Ho & H1 & H2).
  replace (Z.to_nat (zlen chs)) with (length chs) by (unfold zlen; lia). cbn [app length] in E. change (Z.of_nat 0) with 0 in E. rewrite (bind_Ok _ _ _ _ _ E).
  eexists. split; [|apply free_owes, free_owes, Ho]. unfold free_array, free_table, bind.
  cbn [st_items st_alloc]. do 2 f_equal. apply map_eq. intros p. destruct (decide (p ∈ (nodes chs).*1)) as [Hp|Hp].
  - rewrite H1 by exact Hp. symmetry. apply (rep_owned _ _ _ _ Hr), Hp.
  - rewrite H2 by exact Hp. apply (rep_frame _ _ _ _ Hr), Hp.
Qed.

(** *** Iterating *)

(** [func] is called on the elements in this order. *)
Inductive calls (func : Z -> M (lh_state A) unit) : list Z -> lh_state A -> lh_state A -> Prop :=
  | calls_nil st : calls func [] st st
  | calls_cons d ds st1 st2 st3 : func d st1 = (Ok tt, st2) -> calls func ds st2 st3 -> calls func (d :: ds) st1 st3.

Lemma calls_app func ds1 ds2 st1 st2 st3 : calls func ds1 st1 st2 -> calls func ds2 st2 st3 -> calls func (ds1 ++ ds2) st1 st3.
Proof. induction 1; [auto|]. intros H'. econstructor; eauto. Qed.

Definition without (k : K) (chs : list (list node)) : list (list node) := filter (fun n : node => key n.2 <> k) <$> chs.

Lemma filter_all (P : node -> Prop) `{!forall n, Decision (P n)} l : Forall P l -> filter P l = l.
Proof. induction 1 as [|n l Hn _ IH]; [reflexivity|]. rewrite filter_cons_True by exact Hn. rewrite IH. reflexivity. Qed.

Lemma without_none k chs : Forall (fun n : node => key n.2 <> k) (nodes chs) -> without k chs = chs.
Proof.
  induction chs as [|c chs IH]; [reflexivity|]. cbn [concat]. rewrite Forall_app. intros [Hc Hcs]. unfold without in *. cbn [fmap list_fmap].
  rewrite filter_all, IH by assumption. reflexivity.
Qed.

Lemma without_middle chs1 pre a d post chs2 : NoDup (key <$> (nodes (chs1 ++ (pre ++ (a, d) :: post) :: chs2)).*2) ->
  without (key d) (chs1 ++ (pre ++ (a, d) :: post) :: chs2) = chs1 ++ (pre ++ post) :: chs2.
Proof.
  intros Hn. pose proof (nodes_perm chs1 pre (a, d) post chs2) as Hp.
  apply (NoDup_Permutation_proper _ _ (Permutation_map key (Permutation_map snd Hp))) in Hn. cbn [map snd] in Hn. apply NoDup_cons in Hn as [Hn _].
  assert (Ho : Forall (fun n : node => key n.2 <> key d) (nodes (chs1 ++ (pre ++ post) :: chs2))).
  { apply Forall_forall. intros n Hin Hk. apply Hn. rewrite <- Hk. apply list_elem_of_In, in_map, in_map, list_elem_of_In, Hin. }
  rewrite nodes_middle, !Forall_app in Ho. destruct Ho as (H1 & (H2 & H3) & H4).
  unfold without. rewrite fmap_app, fmap_cons. fold (without (key d) chs1) (without (key d) chs2). rewrite !without_none by assumption.
  rewrite filter_app, filter_cons_False by (cbn; auto). rewrite !filter_all by assumption. reflexivity.
Qed.

(** A callback may take out the element it is called with. *)
Definition callback_ok (F : gmap Z LHASH_ITEM) (func : Z -> M (lh_state A) unit) : Prop :=
  forall depth chs st a d, rep F depth chs st -> 0 < depth -> (a, d) ∈ nodes chs ->
    exists chs' st', func d st = (Ok tt, st') /\ rep F depth chs' st' /\ (chs' = chs \/ chs' = without (key d) chs).

Lemma doall_chain_run F depth func rest : callback_ok F func -> 0 < depth -> forall fuel chs1 pre chs2 st,
  rep F depth (chs1 ++ (pre ++ rest) :: chs2) st -> (length rest < fuel)%nat ->
  exists pre' st', doall_chain fuel func (head rest) st = (Ok tt, st') /\ rep F depth (chs1 ++ pre' :: chs2) st' /\ calls func rest.*2 st st'.
Proof.
  intros Hcb Hd. induction rest as [|[a d] rest IH]; intros [|fuel] chs1 pre chs2 st Hr Hfuel; cbn [length] in Hfuel; try lia; cbn [doall_chain].
  { rewrite app_nil_r in Hr. exists pre, st. split; [reflexivity|]. split; [exact Hr | constructor]. }
  destruct (position_item _ _ _ _ _ _ _ _ _ Hr) as [Ha Hm]. cbn [head fst]. rewrite (proj2 (Z.eqb_neq a 0) Ha).
  destruct (Hcb depth _ st a d Hr Hd) as (chs' & st1 & Erun & Hr1 & Hchs). { rewrite nodes_middle. set_solver. }
  assert (Hnext : exists pre1, chs' = chs1 ++ (pre1 ++ rest) :: chs2).
  { destruct Hchs as [->| ->]; [exists (pre ++ [(a, d)]); rewrite <- app_assoc; reflexivity|]. exists pre. apply without_middle, (rep_keys _ _ _ _ Hr). }
  destruct Hnext as [pre1 ->]. destruct (IH fuel chs1 pre1 chs2 st1 Hr1 ltac:(lia)) as (pre' & st' & E & Hr' & Hc).
  exists pre', st'. split; [|split; [exact Hr' | cbn; econstructor; eauto]].
  unfold bind at 1. rewrite (rep_table_eq _ _ _ _ Hr) at 1. rewrite (get_item_run _ _ _ _ _ Hm), <- (rep_table_eq _ _ _ _ Hr). cbn [data next].
  rewrite (bind_Ok _ _ _ _ _ Erun). exact E.
Qed.

Lemma doall_buckets_run F depth func fuel todo : callback_ok F func -> 0 < depth -> forall count done st,
  rep F depth (done ++ todo) st -> (length todo < count)%nat -> (length (nodes todo) < fuel)%nat ->
  exists chs' st', doall_buckets count fuel func (zlen done) st = (Ok tt, st') /\ rep F depth chs' st' /\
    zlen chs' = zlen (done ++ todo) /\ calls func (nodes todo).*2 st st'.
Proof.
  intros Hcb Hd. induction todo as [|c todo IH]; intros [|count] done st Hr Hcount Hfuel; cbn [length] in Hcount; try lia; cbn [doall_buckets];
    unfold bind at 1; rewrite (get_lh_run _ _ _ _ Hr); cbn [num_buckets].
  { rewrite app_nil_r in *. rewrite Z.ltb_irrefl. exists done, st. split; [reflexivity|]. split; [exact Hr|]. split; [reflexivity | constructor]. }
  assert (Hlt : zlen done < zlen (done ++ c :: todo)) by (rewrite zlen_app, zlen_cons; pose proof (zlen_nonneg todo); lia).
  rewrite (proj2 (Z.ltb_lt _ _) Hlt). cbn [concat] in *. rewrite length_app in Hfuel.
  assert (Hread : read_link (Bucket (zlen done)) st = (Ok (head c), st)) by (rewrite (rep_table_eq _ _ _ _ Hr); apply read_bucket_run).
  rewrite (bind_Ok _ _ _ _ _ Hread). destruct (doall_chain_run F depth func c Hcb Hd fuel done [] todo st Hr ltac:(lia)) as (pre' & st1 & E1 & Hr1 & Hc1).
  rewrite (bind_Ok _ _ _ _ _ E1). destruct (IH count (done ++ [pre']) st1) as (chs' & st' & E & Hr' & Hz & Hc); [rewrite <- app_assoc; exact Hr1 | lia | lia |].
  rewrite zlen_app in E. exists chs', st'. split; [exact E|]. split; [exact Hr'|]. split; [rewrite Hz, !zlen_app, !zlen_cons, zlen_nil; lia|].
  rewrite fmap_app. exact (calls_app _ _ _ _ _ _ Hc1 Hc).
Qed.

Definition with_depth (n : Z) (st : lh_state A) : lh_state A :=
  mk_st (st_items st) (option_map (fun lh => mk_lhash (num_items lh) (buckets lh) (num_buckets lh) n) (st_table st)) (st_alloc st).

Lemma rep_depth F depth depth' chs st : rep F depth chs st -> rep F depth' chs (with_depth depth' st).
Proof. intros Hr. destruct Hr as [H1]. constructor; try assumption. cbn. rewrite H1. reflexivity. Qed.

(** The table while the callback runs is one deeper. *)
Lemma doall_run F depth chs st func fuel : functions_ok -> rep F depth chs st -> callback_ok F func -> 0 <= depth -> depth + 1 < UINT_MAX ->
  (length chs < fuel)%nat -> (length (nodes chs) < fuel)%nat ->
  exists st1 chs1 chs' st', OPENSSL_lh_doall_arg fuel func st = (Ok tt, st') /\ calls func (nodes chs).*2 (with_depth (depth + 1) st) st1 /\
    rep F (depth + 1) chs1 st1 /\ zlen chs1 = zlen chs /\ rep F depth chs' st' /\ kept depth chs1 chs'.
Proof.
  intros Hf Hr Hcb Hd Hmax Hfuel1 Hfuel2. unfold OPENSSL_lh_doall_arg. rewrite bind_get. rewrite (rep_table _ _ _ _ Hr). cbn [callback_depth num_items buckets num_buckets].
  rewrite (proj2 (Z.ltb_lt depth UINT_MAX)) by lia. pose proof (rep_depth _ _ (depth + 1) _ _ Hr) as Hr0.
  assert (E0 : put_lh (mk_lhash (zlen (nodes chs)) (head <$> chs) (zlen chs) (depth + 1)) st = (Ok tt, with_depth (depth + 1) st)).
  { unfold with_depth. rewrite (rep_table _ _ _ _ Hr). reflexivity. }
  rewrite (bind_Ok _ _ _ _ _ E0). destruct (doall_buckets_run F (depth + 1) func fuel chs Hcb ltac:(lia) fuel [] _ Hr0 Hfuel1 Hfuel2) as (chs1 & st1 & E1 & Hr1 & Hz & Hc).
  change (zlen (@nil (list node))) with 0 in E1. rewrite (bind_Ok _ _ _ _ _ E1). unfold bind at 1. rewrite (get_lh_run _ _ _ _ Hr1). cbn [callback_depth num_items buckets num_buckets].
  rewrite (proj2 (Z.ltb_lt (depth + 1) UINT_MAX)) by lia. replace (depth + 1 - 1) with depth by lia. rewrite wrap_small by (unfold UINT_MAX in *; unfold in_word; lia).
  pose proof (rep_depth _ _ depth _ _ Hr1) as Hr2.
  assert (E2 : put_lh (mk_lhash (zlen (nodes chs1)) (head <$> chs1) (zlen chs1) depth) st1 = (Ok tt, with_depth depth st1)).
  { unfold with_depth. rewrite (rep_table _ _ _ _ Hr1). reflexivity. }
  rewrite (bind_Ok _ _ _ _ _ E2). destruct (lh_maybe_resize_run F depth chs1 _ Hf Hr2 Hd) as (chs' & st' & E3 & Hr' & Hk). eauto 10.
Qed.

(** The callback that deletes what [p] selects. *)
Definition purge (p : Z -> bool) (d : Z) : M (lh_state A) unit :=
  if p d then _ <- OPENSSL_lh_delete call_hash_func call_cmp_func d ;; ret tt else ret tt.

Lemma nodes_content F depth chs st a d : rep F depth chs st -> (a, d) ∈ nodes chs -> content chs !! key d = Some d.
Proof. intros Hr Hin. apply entries_lookup; [exact (rep_keys _ _ _ _ Hr) | eauto]. Qed.

Lemma purge_delete F depth chs st d : functions_ok -> rep F depth chs st -> 0 < depth -> content chs !! key d = Some d ->
  exists chs' st', OPENSSL_lh_delete call_hash_func call_cmp_func d st = (Ok d, st') /\ rep F depth chs' st' /\
    chs' = without (key d) chs /\ content chs' = delete (key d) (content chs).
Proof.
  intros Hf Hr Hd Hin. pose proof (delete_run F depth chs st d Hf Hr ltac:(lia)) as Hdel. rewrite Hin in Hdel.
  destruct Hdel as (chs1 & chs' & st' & E & Hr' & (c1 & pre & a & post & c2 & -> & ->) & (_ & Hk & _) & Hc & Hc').
  rewrite (Hk Hd) in *. exists (c1 ++ (pre ++ post) :: c2), st'. split; [exact E|]. split; [exact Hr'|]. split; [|exact Hc].
  symmetry. apply without_middle, (rep_keys _ _ _ _ Hr).
Qed.

Lemma purge_ok F p : functions_ok -> callback_ok F (purge p).
Proof.
  intros Hf depth chs st a d Hr Hd Hin. unfold purge. destruct (p d); [|exists chs, st; auto].
  destruct (purge_delete F depth chs st d Hf Hr Hd (nodes_content _ _ _ _ _ _ Hr Hin)) as (chs' & st' & E & Hr' & Hw & _).
  exists chs', st'. rewrite (bind_Ok _ _ _ _ _ E). auto.
Qed.

(** What is left when [ds] have been purged. *)
Definition purged (p : Z -> bool) (ds : list Z) (m m' : gmap K Z) : Prop :=
  forall k, m' !! k = match m !! k with Some e => if decide (e ∈ ds) then if p e then None else Some e else Some e | None => None end.

Lemma calls_purge F depth p ds st st' : functions_ok -> 0 < depth -> calls (purge p) ds st st' -> forall chs, rep F depth chs st ->
  NoDup (key <$> ds) -> Forall (fun d => content chs !! key d = Some d) ds -> exists chs', rep F depth chs' st' /\ purged p ds (content chs) (content chs').
Proof.
  intros Hf Hd Hc. induction Hc as [st|d ds st1 st2 st3 Hrun Hc IH]; intros chs Hr Hn Hin.
  { exists chs. split; [exact Hr|]. intros k. destruct (content chs !! k) as [e|]; [|reflexivity]. rewrite decide_False by apply not_elem_of_nil. reflexivity. }
  cbn [fmap list_fmap] in Hn. apply NoDup_cons in Hn as [Hdn Hn]. apply Forall_cons in Hin as [Hdin Hin].
  assert (Hne : forall e, e ∈ ds -> key e <> key d) by (intros e He Hk; apply Hdn; rewrite <- Hk; apply list_elem_of_fmap_2, He).
  assert (Hstep : exists chs1, rep F depth chs1 st2 /\ content chs1 = if p d then delete (key d) (content chs) else content chs).
  { unfold purge in Hrun. destruct (p d).
    - destruct (purge_delete F depth chs st1 d Hf Hr Hd Hdin) as (chs1 & s & E & Hr1 & _ & Hcont). rewrite (bind_Ok _ _ _ _ _ E) in Hrun. injection Hrun as <-. eauto.
    - injection Hrun as <-. eauto. }
  destruct Hstep as (chs1 & Hr1 & Hc1). destruct (IH chs1 Hr1 Hn) as (chs' & Hr' & Hp).
  { apply Forall_forall. intros e He. rewrite Forall_forall in Hin. rewrite Hc1.
    destruct (p d); [rewrite lookup_delete_ne by (intros Hk; exact (Hne e He (eq_sym Hk)))|]; apply Hin, He. }
  exists chs'. split; [exact Hr'|]. intros k. rewrite Hp, Hc1. destruct (decide (key d = k)) as [<-|Hk].
  - rewrite Hdin. rewrite (decide_True (P := d ∈ d :: ds)) by apply list_elem_of_here. destruct (p d) eqn:Ep; [rewrite lookup_delete_eq; reflexivity|].
    rewrite Hdin, Ep. destruct (decide (d ∈ ds)); reflexivity.
  - replace ((if p d then delete (key d) (content chs) else content chs) !! k) with (content chs !! k) by (destruct (p d); [rewrite lookup_delete_ne by exact Hk|]; reflexivity).
    destruct (content chs !! k) as [e|] eqn:Ee; [|reflexivity]. apply (entries_lookup _ _ _ (rep_keys _ _ _ _ Hr)) in Ee as (a & _ & Ek).
    rewrite (decide_ext (e ∈ d :: ds) (e ∈ ds)); [reflexivity|]. rewrite elem_of_cons. split; [intros [->|]; [contradiction | assumption] | auto].
Qed.

(** *** The operations *)

Inductive op :=
  | NumItems | Retrieve (d : Z) | RetrieveKey (k : K) (key_hash : Z) (cmp_key : Z -> Z)
  | Insert (d : Z) | Delete (d : Z) | Purge (p : Z -> bool).
Inductive result := count (n : Z) | element (d : Z) | inserted (ok : bool) (old : Z) | purge_done.

Definition op_ok (o : op) : Prop :=
  match o with RetrieveKey k key_hash cmp_key => by_key_ok k key_hash cmp_key | _ => True end.

(** More than there are buckets or items. *)
Definition enough (st : lh_state A) : nat :=
  S (size (st_items st) + match st_table st with Some lh => length (buckets lh) | None => 0 end).

Definition run_op (o : op) : M (lh_state A) result :=
  match o with
  | NumItems => n <- OPENSSL_lh_num_items ;; ret (count n)
  | Retrieve d => e <- OPENSSL_lh_retrieve call_hash_func call_cmp_func d ;; ret (element e)
  | RetrieveKey _ key_hash cmp_key => e <- OPENSSL_lh_retrieve_key key_hash cmp_key ;; ret (element e)
  | Insert d => '(ok, old) <- OPENSSL_lh_insert call_hash_func call_cmp_func d ;; ret (inserted ok old)
  | Delete d => e <- OPENSSL_lh_delete call_hash_func call_cmp_func d ;; ret (element e)
  | Purge p => st <- get ;; OPENSSL_lh_doall_arg (enough st) (purge p) ;; ret purge_done
  end.

Fixpoint run_ops (os : list op) : M (lh_state A) (list result) :=
  match os with [] => ret [] | o :: os => r <- run_op o ;; rs <- run_ops os ;; ret (r :: rs) end.

(** What an operation is on a map; only the insertion of a new key needs memory
    and may not get it from the allocator, in the state it is in. *)
Definition step (st : lh_state A) (o : op) (m : gmap K Z) (r : result) (m' : gmap K Z) : Prop :=
  match o with
  | NumItems => r = count (Z.of_nat (size m)) /\ m' = m
  | Retrieve d => r = element (or_null (m !! key d)) /\ m' = m
  | RetrieveKey k _ _ => r = element (or_null (m !! k)) /\ m' = m
  | Insert d => (r = inserted true (or_null (m !! key d)) /\ m' = <[key d := d]> m) \/
                (no_item st /\ m !! key d = None /\ r = inserted false 0 /\ m' = m)
  | Delete d => r = element (or_null (m !! key d)) /\ m' = delete (key d) m
  | Purge p => r = purge_done /\ m' = filter (fun kd => p kd.2 = false) m
  end.

(** The operations [os], run one after the other, give the results [rs] and do to
    the map what they should. *)
Inductive runs_as : lh_state A -> gmap K Z -> list op -> list result -> lh_state A -> gmap K Z -> Prop :=
  | runs_done st m : runs_as st m [] [] st m
  | runs_more st m o r st1 m1 os rs st2 m2 :
      run_op o st = (Ok r, st1) -> step st o m r m1 -> runs_as st1 m1 os rs st2 m2 ->
      runs_as st m (o :: os) (r :: rs) st2 m2.

(** *** How full the table gets *)

Definition upper (chs : list (list node)) : Prop := zlen (nodes chs) < 3 * zlen chs.
Definition lower (chs : list (list node)) : Prop := zlen chs = 16 \/ zlen chs <= zlen (nodes chs).
Definition is_purge (o : op) : bool := match o with Purge _ => true | _ => false end.

Definition load_step (o : op) (chs chs' : list (list node)) : Prop :=
  zlen (nodes chs') <= zlen (nodes chs) + 1 /\
  (reliable A -> zlen (nodes chs) < 2 ^ 58 -> (upper chs -> upper chs') /\ (is_purge o = false -> lower chs -> lower chs')).

Lemma wanted_bounds i n : 16 <= n -> 0 <= i ->
  (i <= 3 * n -> i < 3 * wanted i n) /\ (n = 16 \/ n <= i + 1 -> wanted i n = 16 \/ wanted i n <= i) /\ (wanted i n <= n \/ wanted i n <= i).
Proof.
  intros Hn Hi. unfold wanted. pose proof (Z.mul_div_le i n ltac:(lia)). pose proof (Z.mul_succ_div_gt i n ltac:(lia)).
  pose proof (Z.mul_div_le n 2 ltac:(lia)). pose proof (Z.mul_succ_div_gt n 2 ltac:(lia)).
  destruct (Z.ltb_spec 2 (i / n)); [assert (3 * n <= i) by nia; lia|]. destruct (Z.ltb_spec (i / n) 1); cbn [andb].
  - assert (i < n) by nia. destruct (Z.ltb_spec 16 n); lia.
  - assert (n <= i) by nia. assert (i < 3 * n) by nia. lia.
Qed.

Lemma kept_load chs1 chs' : 16 <= zlen chs1 /\ 8 * zlen chs1 < 2 ^ 64 -> kept 0 chs1 chs' -> reliable A -> zlen (nodes chs1) < 2 ^ 59 ->
  (zlen (nodes chs1) <= 3 * zlen chs1 -> upper chs') /\ (zlen chs1 = 16 \/ zlen chs1 <= zlen (nodes chs1) + 1 -> lower chs').
Proof.
  intros Hs (Hp & _ & Hk) Hrel Hlt. destruct (Hk eq_refl) as [_ Hz].
  pose proof (zlen_nonneg (nodes chs1)) as H0. unfold upper, lower.
  assert (Hl : zlen (nodes chs') = zlen (nodes chs1)) by (unfold zlen; rewrite (Permutation_length Hp); reflexivity). rewrite Hl.
  destruct (wanted_bounds (zlen (nodes chs1)) (zlen chs1) (proj1 Hs) H0) as (W1 & W2 & W3).
  destruct Hz as [->|[_ Hno]]; [tauto|]. exfalso. apply Hno. split; [exact Hrel | lia].
Qed.

Lemma content_size F depth chs st : rep F depth chs st -> Z.of_nat (size (content chs)) = zlen (nodes chs).
Proof.
  intros Hr. unfold content, entries. rewrite map_size_list_to_map by (rewrite entries_fst; exact (rep_keys _ _ _ _ Hr)).
  rewrite length_fmap. reflexivity.
Qed.

(** An operation on a table does what it is on maps and keeps the load. *)
Definition op_spec (F : gmap Z LHASH_ITEM) (o : op) (chs : list (list node)) (st : lh_state A) : Prop :=
  exists r chs' st', run_op o st = (Ok r, st') /\ rep F 0 chs' st' /\ step st o (content chs) r (content chs') /\ load_step o chs chs'.

Lemma load_refl o chs : load_step o chs chs.
Proof. split; [lia | tauto]. Qed.

Lemma op_same F o chs st r : rep F 0 chs st -> run_op o st = (Ok r, st) -> step st o (content chs) r (content chs) -> op_spec F o chs st.
Proof. intros Hr E Hs. exists r, chs, st. auto using load_refl. Qed.

Lemma kept_length depth chs chs' : kept depth chs chs' -> zlen (nodes chs') = zlen (nodes chs).
Proof. intros [Hp _]. unfold zlen. rewrite (Permutation_length Hp). reflexivity. Qed.

Lemma load_insert o chs chs1 chs' : 16 <= zlen chs /\ 8 * zlen chs < 2 ^ 64 -> kept 0 chs1 chs' -> zlen (nodes chs1) = zlen (nodes chs) + 1 ->
  zlen chs1 = zlen chs -> load_step o chs chs'.
Proof.
  intros Hs Hk Hn Hz. split; [rewrite (kept_length _ _ _ Hk); lia|]. intros Hrel Hlt. rewrite <- Hz in Hs.
  destruct (kept_load chs1 chs' Hs Hk Hrel) as [H1 H2]; [lia|]. unfold upper at 1, lower at 1. split; [intros; apply H1; lia | intros; apply H2; lia].
Qed.

Lemma load_delete o chs chs1 chs' : 16 <= zlen chs /\ 8 * zlen chs < 2 ^ 64 -> kept 0 chs1 chs' ->
  (is_purge o = false -> zlen (nodes chs1) = zlen (nodes chs) - 1) -> zlen (nodes chs1) <= zlen (nodes chs) -> zlen chs1 = zlen chs -> load_step o chs chs'.
Proof.
  intros Hs Hk Hn Hle Hz. split; [rewrite (kept_length _ _ _ Hk); lia|]. intros Hrel Hlt. rewrite <- Hz in Hs.
  destruct (kept_load chs1 chs' Hs Hk Hrel) as [H1 H2]; [lia|]. unfold upper at 1, lower at 1. split; [intros; apply H1; lia | intros Hno; specialize (Hn Hno); intros; apply H2; lia].
Qed.

Lemma insert_op F d chs st : functions_ok -> rep F 0 chs st -> zlen (nodes chs) + 1 < 2 ^ 64 -> op_spec F (Insert d) chs st.
Proof.
  intros Hf Hr Hcount. unfold op_spec. cbn [run_op step]. destruct (content chs !! key d) as [d0|] eqn:Ed.
  - destruct (insert_replace_run F 0 chs st d d0 Hf Hr Ed) as (chs' & st' & E & Hr' & Hc & Hz & Hn). rewrite (bind_Ok _ _ _ _ _ E).
    exists (inserted true d0), chs', st'. split; [reflexivity|]. split; [exact Hr'|]. split; [left; auto|].
    split; [lia|]. unfold upper, lower. rewrite Hz, Hn. tauto.
  - destruct (insert_new_run F 0 chs st d Hf Hr ltac:(lia) Ed Hcount) as [(st' & E & Hr' & Hno)|(chs1 & chs' & st' & E & Hr' & Hk & Hc & Hc' & Hn & Hz)]; rewrite (bind_Ok _ _ _ _ _ E).
    + exists (inserted false 0), chs, st'. split; [reflexivity|]. split; [exact Hr'|].
      split; [right; auto | apply load_refl].
    + exists (inserted true 0), chs', st'. split; [reflexivity|]. split; [exact Hr'|]. split; [left; rewrite Hc', Hc; auto|].
      exact (load_insert _ _ _ _ (rep_size _ _ _ _ Hr) Hk Hn Hz).
Qed.

Lemma delete_op F d chs st : functions_ok -> rep F 0 chs st -> op_spec F (Delete d) chs st.
Proof.
  intros Hf Hr. pose proof (delete_run F 0 chs st d Hf Hr ltac:(lia)) as Hd. destruct (content chs !! key d) as [d0|] eqn:Ed.
  - destruct Hd as (chs1 & chs' & st' & E & Hr' & Hrem & Hk & Hc & Hc'). unfold op_spec. cbn [run_op step]. rewrite (bind_Ok _ _ _ _ _ E).
    exists (element d0), chs', st'. split; [reflexivity|]. split; [exact Hr'|]. rewrite Ed, Hc', Hc. split; [auto|].
    destruct Hrem as (c1 & pre & a & post & c2 & -> & ->).
    assert (Hn : zlen (nodes (c1 ++ (pre ++ post) :: c2)) = zlen (nodes (c1 ++ (pre ++ (a, d0) :: post) :: c2)) - 1) by (rewrite !nodes_middle, !zlen_app, !zlen_cons; lia).
    apply (load_delete _ _ _ _ (rep_size _ _ _ _ Hr) Hk); [auto | lia | rewrite !zlen_app, !zlen_cons; reflexivity].
  - apply (op_same F _ chs st (element 0) Hr); cbn [run_op step]; [rewrite (bind_Ok _ _ _ _ _ Hd); reflexivity|].
    rewrite Ed, delete_id by exact Ed. auto.
Qed.

Lemma purge_op F p chs st : functions_ok -> rep F 0 chs st -> op_spec F (Purge p) chs st.
Proof.
  intros Hf Hr. pose proof (rep_fuel _ _ _ _ Hr) as Hfuel.
  assert (He : enough st = S (size (st_items st) + length chs)) by (unfold enough; rewrite (rep_table _ _ _ _ Hr); cbn [buckets]; rewrite length_fmap; reflexivity).
  destruct (doall_run F 0 chs st (purge p) (enough st) Hf Hr (purge_ok F p Hf)) as (st1 & chs1 & chs' & st' & E & Hc & Hr1 & Hz & Hr' & Hk); try lia; [reflexivity|].
  destruct (calls_purge F (0 + 1) p _ _ _ Hf ltac:(lia) Hc chs (rep_depth _ _ _ _ _ Hr) (rep_keys _ _ _ _ Hr)) as (chs2 & Hr2 & Hp).
  { apply Forall_forall. intros d Hd. apply list_elem_of_fmap in Hd as ([a d'] & -> & Hin). exact (nodes_content _ _ _ _ _ _ Hr Hin). }
  assert (Hc1 : content chs' = content chs1) by (apply entries_perm; [exact (rep_keys _ _ _ _ Hr') | exact (proj1 Hk)]).
  assert (chs2 = chs1) as ->.
  { pose proof (rep_table _ _ _ _ Hr1) as Ht1. pose proof (rep_table _ _ _ _ Hr2) as Ht2. rewrite Ht1 in Ht2. injection Ht2 as _ Hh _.
    apply (chains_unique call_hash_func (st_items st1)); [exact (rep_linked _ _ _ _ Hr2) | exact (rep_linked _ _ _ _ Hr1) | symmetry; exact Hh]. }
  assert (Hfilter : content chs1 = filter (fun kd => p kd.2 = false) (content chs)).
  { apply map_eq. intros k. rewrite Hp. destruct (content chs !! k) as [e|] eqn:Ee; [|symmetry; apply map_lookup_filter_None_2; left; exact Ee].
    assert (Hin : e ∈ (nodes chs).*2).
    { apply (entries_lookup _ _ _ (rep_keys _ _ _ _ Hr)) in Ee as (a & Hin & _). change e with (a, e).2. apply list_elem_of_fmap_2, Hin. }
    rewrite decide_True by exact Hin. symmetry. destruct (p e) eqn:Ep; [apply map_lookup_filter_None_2; right; intros x Hx; cbn; congruence | apply map_lookup_filter_Some_2; assumption]. }
  exists purge_done, chs', st'. cbn [run_op step]. rewrite bind_get, (bind_Ok _ _ _ _ _ E). split; [reflexivity|]. split; [exact Hr'|].
  split; [split; [reflexivity | congruence]|]. apply (load_delete _ _ chs1 _ (rep_size _ _ _ _ Hr) Hk); [discriminate | | exact Hz].
  rewrite <- (content_size _ _ _ _ Hr1), <- (content_size _ _ _ _ Hr), Hfilter. apply inj_le, map_size_filter.
Qed.

Lemma table_op_run F o chs st : functions_ok -> op_ok o -> rep F 0 chs st -> zlen (nodes chs) + 1 < 2 ^ 64 -> op_spec F o chs st.
Proof.
  intros Hf Ho Hr Hcount. destruct o as [|d|k h cmp|d|d|p].
  - apply (op_same F _ chs st (count (zlen (nodes chs))) Hr).
    + cbn [run_op]. unfold OPENSSL_lh_num_items. rewrite (bind_Ok _ (fun n => ret (count n)) st (zlen (nodes chs)) st); [reflexivity|].
      rewrite (bind_Ok _ _ _ _ _ (get_lh_run _ _ _ _ Hr)). reflexivity.
    + cbn. rewrite (content_size _ _ _ _ Hr). auto.
  - apply (op_same F _ chs st (element (or_null (content chs !! key d))) Hr); [|cbn; auto]. cbn [run_op]. rewrite (bind_Ok _ _ _ _ _ (lh_retrieve_run F 0 chs st d Hf Hr)). reflexivity.
  - apply (op_same F _ chs st (element (or_null (content chs !! k))) Hr); [|cbn; auto]. cbn [run_op]. rewrite (bind_Ok _ _ _ _ _ (lh_retrieve_key_run F 0 chs st k h cmp Hf Hr Ho)). reflexivity.
  - exact (insert_op F d chs st Hf Hr Hcount).
  - exact (delete_op F d chs st Hf Hr).
  - exact (purge_op F p chs st Hf Hr).
Qed.

Lemma run_ops_run F os : functions_ok -> Forall op_ok os -> forall chs st, rep F 0 chs st -> zlen (nodes chs) + zlen os < 2 ^ 64 ->
  exists rs chs' st', run_ops os st = (Ok rs, st') /\ rep F 0 chs' st' /\ runs_as st (content chs) os rs st' (content chs') /\
    (reliable A -> zlen (nodes chs) + zlen os < 2 ^ 58 -> (upper chs -> upper chs') /\ (forallb (fun o => negb (is_purge o)) os = true -> lower chs -> lower chs')).
Proof.
  intros Hf. induction os as [|o os IH]; intros Hos chs st Hr Hcount; cbn [run_ops forallb].
  { exists [], chs, st. split; [reflexivity|]. split; [exact Hr|]. split; [constructor | auto]. }
  apply Forall_cons in Hos as [Ho Hos]. rewrite zlen_cons in Hcount. pose proof (zlen_nonneg os) as Hnn.
  destruct (table_op_run F o chs st Hf Ho Hr ltac:(lia)) as (r & chs1 & st1 & E & Hr1 & Hs & Hle & Hl).
  rewrite (bind_Ok _ _ _ _ _ E). destruct (IH Hos chs1 st1 Hr1 ltac:(lia)) as (rs & chs' & st' & E' & Hr' & Hss & Hl'). rewrite (bind_Ok _ _ _ _ _ E').
  exists (r :: rs), chs', st'. split; [reflexivity|]. split; [exact Hr'|]. split; [econstructor; eassumption|].
  intros Hrel Hlt. rewrite zlen_cons in Hlt. destruct (Hl Hrel) as [Hu Hlow]; [lia|]. destruct (Hl' Hrel) as [Hu' Hlow']; [lia|].
  split; [auto|]. intros Hp. apply andb_true_iff in Hp as [Hp1 Hp2]. apply negb_true_iff in Hp1. auto.
Qed.

(** C11: A hash table behaves as a finite map.  Every sequence of insertions,
    deletions, searches, searches by key, counts and conditional deletions by a
    [OPENSSL_lh_doall_arg] callback returns what these do on the map from keys
    to elements, starting with the empty one, whenever and however often the
    buckets are resized or a resizing finds no memory.  [OPENSSL_lh_new] fails
    only when the allocator refuses one of its two requests, and an insertion
    only when the key is new and the allocator refuses the item; it then changes
    nothing.  No operation touches an item that is not the table's.
    [OPENSSL_lh_free] releases all items of the table and no other, and with them
    every block that was allocated on the way is back at the allocator, as it is
    when [OPENSSL_lh_new] fails. *)
Theorem lh_refines_map st os : functions_ok -> Forall op_ok os -> zlen os < 2 ^ 64 -> owes (st_alloc st) others ->
  exists made st1, OPENSSL_lh_new st = (Ok made, st1) /\
    if made then exists rs m st2 al, run_ops os st1 = (Ok rs, st2) /\ runs_as st1 ∅ os rs st2 m /\
      OPENSSL_lh_free st2 = (Ok tt, mk_st (st_items st) None al) /\ owes al others
    else no_table st /\ st_items st1 = st_items st /\ owes (st_alloc st1) others.
Proof.
  intros Hf Hos Hlen Ho. destruct (lh_new_run st Ho) as (made & st1 & E & Hmade). exists made, st1. split; [exact E|].
  destruct made; [|tauto]. destruct (run_ops_run _ os Hf Hos _ _ Hmade) as (rs & chs & st2 & Erun & Hr & Hs & _); [rewrite nodes_repeat; exact Hlen|].
  destruct (lh_free_run _ _ _ _ Hr) as (al & Efree & Hal). exists rs, (content chs), st2, al.
  split; [exact Erun|]. split; [|auto]. unfold content in Hs at 1. rewrite nodes_repeat in Hs. exact Hs.
Qed.

(** C22: [OPENSSL_lh_doall_arg] calls the callback exactly once with each element
    of the table, if the callback leaves the table alone or takes out the
    element it is called with; a callback that does so is called with every
    element that was there at the start although the chains change under the
    iteration, the buckets are not resized before the end, the table then holds
    what the callbacks left; an iteration may run inside another. *)
Theorem lh_doall_visits_all F depth chs st func fuel : functions_ok -> rep F depth chs st -> callback_ok F func ->
  0 <= depth -> depth + 1 < UINT_MAX -> (length chs < fuel)%nat -> (length (nodes chs) < fuel)%nat ->
  exists ds st1 chs1 chs' st', OPENSSL_lh_doall_arg fuel func st = (Ok tt, st') /\
    Permutation ds (map_to_list (content chs)).*2 /\ calls func ds (with_depth (depth + 1) st) st1 /\
    rep F (depth + 1) chs1 st1 /\ zlen chs1 = zlen chs /\ rep F depth chs' st' /\ content chs' = content chs1.
Proof.
  intros Hf Hr Hcb H0 Hmax Hfuel1 Hfuel2. destruct (doall_run F depth chs st func fuel Hf Hr Hcb H0 Hmax Hfuel1 Hfuel2) as (st1 & chs1 & chs' & st' & E & Hc & Hr1 & Hz & Hr' & Hk).
  exists (nodes chs).*2, st1, chs1, chs', st'. split; [exact E|]. split; [|split; [exact Hc|]; split; [exact Hr1|]; split; [exact Hz|]; split; [exact Hr'|];
    apply entries_perm; [exact (rep_keys _ _ _ _ Hr') | exact (proj1 Hk)]].
  unfold content, entries. symmetry. transitivity ((fun n : node => (key n.2, n.2)) <$> nodes chs).*2.
  - apply (Permutation_map snd), map_to_list_to_map. rewrite entries_fst. exact (rep_keys _ _ _ _ Hr).
  - rewrite <- list_fmap_compose. reflexivity.
Qed.

(** C23: When memory is not refused, a table has fewer than three elements per
    bucket on average after every sequence of operations, and if there was no
    deletion from a callback it has at most as many buckets as elements, or the
    sixteen of an empty table. *)
Theorem lh_load_bounded st st1 os : functions_ok -> reliable A -> Forall op_ok os -> zlen os < 2 ^ 58 -> owes (st_alloc st) others -> OPENSSL_lh_new st = (Ok true, st1) ->
  exists rs st2 lh, run_ops os st1 = (Ok rs, st2) /\ st_table st2 = Some lh /\ num_items lh < 3 * num_buckets lh /\
    (forallb (fun o => negb (is_purge o)) os = true -> num_buckets lh = 16 \/ num_buckets lh <= num_items lh).
Proof.
  intros Hf Hrel Hos Hlen Ho E. destruct (lh_new_run st Ho) as (made & st1' & E' & Hr). rewrite E in E'. injection E' as <- <-.
  destruct (run_ops_run _ os Hf Hos _ _ Hr) as (rs & chs & st2 & Erun & Hr2 & _ & Hload); [rewrite nodes_repeat; change (zlen (@nil node)) with 0; lia|]. destruct (Hload Hrel) as [Hu Hl]; [rewrite nodes_repeat; exact Hlen|].
  exists rs, st2, (mk_lhash (zlen (nodes chs)) (head <$> chs) (zlen chs) 0). split; [exact Erun|]. split; [exact (rep_table _ _ _ _ Hr2)|]. cbn [num_items num_buckets].
  split; [apply Hu; unfold upper; rewrite nodes_repeat; reflexivity | intros Hp; apply (Hl Hp); left; reflexivity].
Qed.
End table.

(** ** Examples *)

#[export] Program Instance lowest_addresses (A : Type) : Addresses A := {
  new_address a live := 1 + set_fold Z.max 0 live;
}.
Next Obligation.
  intros A a live. cbv beta. pose proof (set_fold_max live) as [H0 Hmax]. split; [lia|]. intros Hin. apply Hmax in Hin. lia.
Qed.

(** Numbers with the same last digit are equal. *)
Definition digit (d : Z) : Z := d mod 10.
Definition digit_cmp (d d' : Z) : Z := digit d - digit d'.

Lemma digit_ok : functions_ok digit digit digit_cmp.
Proof.
  split; unfold digit_cmp, digit.
  - intros d d'. lia.
  - intros d. pose proof (Z.mod_pos_bound d 10 ltac:(lia)). lia.
  - auto.
Qed.

Definition empty_state : lh_state unit := mk_st ∅ None tt.
Definition example_ops : list (op (K := Z)) :=
  [Insert 13; Insert 24; Insert 33; Retrieve 103; RetrieveKey 4 4 (fun d => digit d - 4); Purge (Z.eqb 24); NumItems; Delete 53; Delete 53].

Lemma example_ops_fit : Forall (op_ok digit digit) example_ops.
Proof. repeat constructor; unfold digit; try lia. Qed.

(** An allocator that refuses the fourth request, the item of the second insertion. *)
Definition refusing_state : lh_state ledger := mk_st ∅ None (mk_ledger (Some [100]) [false; false; false; true]).

Lemma refusing_owes : owes (st_alloc refusing_state) [100].
Proof. exists [100]. split; reflexivity. Qed.

Lemma lh_refines_map_witness :
  functions_ok digit digit digit_cmp /\ Forall (op_ok digit digit) example_ops /\ owes (st_alloc refusing_state) [100] /\
  exists made st1, OPENSSL_lh_new refusing_state = (Ok made, st1) /\
    if made then exists rs m st2 al, run_ops digit digit_cmp example_ops st1 = (Ok rs, st2) /\
      runs_as digit digit digit_cmp st1 ∅ example_ops rs st2 m /\ OPENSSL_lh_free st2 = (Ok tt, mk_st ∅ None al) /\ owes al [100]
    else no_table refusing_state /\ st_items st1 = ∅ /\ owes (st_alloc st1) [100].
Proof.
  split; [exact digit_ok|]. split; [exact example_ops_fit|]. split; [exact refusing_owes|].
  exact (lh_refines_map digit digit digit_cmp [100] refusing_state example_ops digit_ok example_ops_fit eq_refl refusing_owes).
Defined.

(** The second insertion finds no memory, the third replaces the first element,
    and at the end the allocator has only the block that is not the table's. *)
Example example_ops_results :
  (let '(r, st) := (_ <- OPENSSL_lh_new ;; rs <- run_ops digit digit_cmp example_ops ;; OPENSSL_lh_free ;; ret rs) refusing_state in (r, st_alloc st)) =
  (Ok [inserted true 0; inserted false 0; inserted true 13; element 33; element 0; purge_done; count 1; element 33; element 0],
   mk_ledger (Some [100]) []).
Proof. vm_compute. reflexivity. Qed.

Lemma lh_load_bounded_witness : exists st1, reliable unit /\ Forall (op_ok digit digit) example_ops /\ OPENSSL_lh_new empty_state = (Ok true, st1) /\
  exists rs st2 lh, run_ops digit digit_cmp example_ops st1 = (Ok rs, st2) /\ st_table st2 = Some lh /\ num_items lh < 3 * num_buckets lh /\
    (forallb (fun o => negb (is_purge o)) example_ops = true -> num_buckets lh = 16 \/ num_buckets lh <= num_items lh).
Proof.
  eexists. split; [exact unlimited_reliable|]. split; [exact example_ops_fit|]. split; [reflexivity|].
  apply (lh_load_bounded digit digit digit_cmp [] empty_state); [exact digit_ok | exact unlimited_reliable | exact example_ops_fit | reflexivity | exact I | reflexivity].
Defined.

(** A table with one element, in the item at address 1. *)
Definition one_chain : list (list (Z * Z)) := repeat [] 3 ++ ([] ++ [(1, 13)]) :: repeat [] 12.
Definition one_state : lh_state unit :=
  mk_st (<[1 := mk_item 13 0 3]> ∅) (Some (mk_lhash 1 (head <$> one_chain) 16 0)) tt.

Lemma one_rep : rep digit digit [] ∅ 0 one_chain one_state.
Proof.
  pose proof (rep_new (A := unit) digit digit [] ∅ ∅ tt eq_refl I) as Hr.
  apply (rep_insert digit digit digit_cmp [] ∅ 0 (repeat [] 3) [] (repeat [] 12) _ 1 13 tt Hr);
    [reflexivity | constructor | lia | apply not_elem_of_dom; reflexivity | reflexivity | exact I].
Qed.

Lemma lh_doall_visits_all_witness : rep digit digit [] ∅ 0 one_chain one_state /\ callback_ok digit digit [] ∅ (purge digit digit_cmp (Z.eqb 13)) /\
  exists ds st1 chs1 chs' st', OPENSSL_lh_doall_arg 17 (purge digit digit_cmp (Z.eqb 13)) one_state = (Ok tt, st') /\
    Permutation ds (map_to_list (content digit one_chain)).*2 /\ calls (purge digit digit_cmp (Z.eqb 13)) ds (with_depth (0 + 1) one_state) st1 /\
    rep digit digit [] ∅ (0 + 1) chs1 st1 /\ zlen chs1 = zlen one_chain /\ rep digit digit [] ∅ 0 chs' st' /\ content digit chs' = content digit chs1.
Proof.
  split; [exact one_rep|]. split; [exact (purge_ok digit digit digit_cmp [] ∅ (Z.eqb 13) digit_ok)|].
  apply (lh_doall_visits_all digit digit digit_cmp [] ∅ 0); [exact digit_ok | exact one_rep | exact (purge_ok digit digit digit_cmp [] ∅ (Z.eqb 13) digit_ok) | | | |];
    unfold UINT_MAX; cbn; lia.
Defined.
