(* ===== verification/Stack.v ===== *)
(** Stacks of pointers, in which BoringSSL keeps certificates, ciphers and
    extensions: ios/Pods/BoringSSL-GRPC/src/crypto/stack/stack.c.  A pointer is
    an address, NULL is 0; the array behind a stack may be larger than the stack
    and its spare part holds anything. *)
From Stdlib Require Import ZArith Lia Bool.
From coqutil Require Import Byte Word.LittleEndianList.
From stdpp Require Import base list numbers sorting.
From S2P Require Import Prelude Alloc.
Local Open Scope Z_scope.
Local Open Scope c_scope.

(** [_STACK]; [comp] is a function pointer. *)
Record STACK := mk_stack { num : Z; data : list Z; sorted : Z; num_alloc : Z; comp : Z }.

Definition kMinSize : Z := 4.
Definition sizeof_STACK : Z := 40.

(** ** Arrays of pointers *)

(** The array in a block of [8 * n] bytes. *)
Fixpoint words (n : nat) (bs : list byte) : list Z :=
  match n with O => [] | S n => le_combine (take 8 bs) :: words n (drop 8 bs) end.
Definition unwords (ws : list Z) : list byte := flat_map (le_split 8) ws.

(** [memmove] of [n] pointers from [&d[src]] to [&d[dst]]. *)
Definition memmove_words (d : list Z) (dst src n : Z) : option (list Z) :=
  if (0 <=? n) && (dst + n <=? zlen d) && (src + n <=? zlen d)
  then Some (splice d dst (ztake n (zdrop src d))) else None.

(** [d[i] = v] *)
Definition set_word (d : list Z) (i v : Z) : option (list Z) :=
  if i <? zlen d then Some (splice d i [v]) else None.

Section stack.
Context {A : Type} {AL : Allocator A}.
(** [call_cmp_func(comp, &a, &b)] and the C library's [qsort] with it. *)
Context (call_cmp : Z -> Z -> Z -> Z) (qsort : (Z -> Z -> Z) -> list Z -> list Z).

(** The allocator and the stack; a stack that is NULL is [None]. *)
Notation W := (M (A * option STACK)).

Definition set_stack (s : STACK) : W unit := fun '(a, _) => (Ok tt, (a, Some s)).
(** [if (sk == NULL) return r;] *)
Definition unless_null {B} (r : B) (k : STACK -> W B) : W B :=
  '(_, sk) <- get ;; match sk with None => ret r | Some s => k s end.

Definition sk_new (comp : Z) (a : A) : option STACK * A :=
  match OPENSSL_malloc a sizeof_STACK with
  | (None, a) => (None, a)
  | (Some _, a) =>
      match OPENSSL_malloc a (8 * kMinSize) with
      | (None, a) => (None, OPENSSL_free a sizeof_STACK)
      | (Some _, a) => (Some (mk_stack 0 (repeat 0 (Z.to_nat kMinSize)) 0 kMinSize comp), a)
      end
  end.
Definition sk_new_null (a : A) : option STACK * A := sk_new 0 a.

Definition sk_num : W Z := unless_null 0 (fun sk => ret (num sk)).

Definition sk_zero : W unit :=
  unless_null tt (fun sk =>
    if num sk =? 0 then ret tt else
    set_stack (mk_stack 0 (repeat 0 (Z.to_nat (num sk)) ++ zdrop (num sk) (data sk)) 0 (num_alloc sk) (comp sk))).

Definition sk_value (i : Z) : W Z :=
  unless_null 0 (fun sk => if num sk <=? i then ret 0 else known (data sk !! Z.to_nat i)).

Definition sk_set (i value : Z) : W Z :=
  unless_null 0 (fun sk =>
    if num sk <=? i then ret 0 else
    d <- known (set_word (data sk) i value) ;;
    set_stack (mk_stack (num sk) d (sorted sk) (num_alloc sk) (comp sk)) ;;
    ret value).

(** [OPENSSL_free] of the array and of the stack. *)
Definition free_stack (sk : STACK) (a : A) : A := OPENSSL_free (OPENSSL_free a (8 * zlen (data sk))) sizeof_STACK.

(** The stack is gone afterwards. *)
Definition sk_free : W unit :=
  unless_null tt (fun sk => fun '(a, _) => (Ok tt, (free_stack sk a, None))).

(** [OPENSSL_realloc(sk->data, alloc_size)] *)
Definition realloc_words (sk : STACK) (alloc_size : Z) : W (option (list Z)) := fun '(a, s) =>
  let '(r, a') := OPENSSL_realloc a (unwords (data sk)) alloc_size in
  (Ok (option_map (words (Z.to_nat (alloc_size / 8))) r), (a', s)).

Definition overflows (sk : STACK) (new_alloc alloc_size : Z) : bool :=
  (new_alloc <? num_alloc sk) || negb (alloc_size / 8 =? new_alloc).

(** The array gets [new_alloc] slots, unless that many bytes overflow. *)
Definition resize (sk : STACK) (new_alloc alloc_size : Z) : W (option STACK) :=
  if overflows sk new_alloc alloc_size then ret None else
  r <- realloc_words sk alloc_size ;;
  match r with
  | None => ret None
  | Some d =>
      let sk := mk_stack (num sk) d (sorted sk) new_alloc (comp sk) in
      set_stack sk ;; ret (Some sk)
  end.

(** Makes room for one more pointer. *)
Definition grow (sk : STACK) : W (option STACK) :=
  if num_alloc sk <=? u64 (num sk + 1) then
    let new_alloc := u64 (Z.shiftl (num_alloc sk) 1) in
    let alloc_size := u64 (new_alloc * 8) in
    if overflows sk new_alloc alloc_size then
      let new_alloc := u64 (num_alloc sk + 1) in resize sk new_alloc (u64 (new_alloc * 8))
    else resize sk new_alloc alloc_size
  else ret (Some sk).

(** The array with [p] at index [where_] and what followed it one further. *)
Definition place (sk : STACK) (p where_ : Z) : option (list Z) :=
  if num sk <=? where_ then set_word (data sk) (num sk) p
  else match memmove_words (data sk) (where_ + 1) where_ (num sk - where_) with
       | Some d => set_word d where_ p
       | None => None
       end.

Definition sk_insert (p where_ : Z) : W Z :=
  unless_null 0 (fun sk =>
    grown <- grow sk ;;
    match grown with
    | None => ret 0
    | Some sk =>
        d <- known (place sk p where_) ;;
        let n := u64 (num sk + 1) in
        set_stack (mk_stack n d 0 (num_alloc sk) (comp sk)) ;;
        ret n
    end).

Definition sk_delete (where_ : Z) : W Z :=
  unless_null 0 (fun sk =>
    if num sk <=? where_ then ret 0 else
    r <- known (data sk !! Z.to_nat where_) ;;
    d <-
      (if negb (where_ =? u64 (num sk - 1))
       then known (memmove_words (data sk) where_ (where_ + 1) (u64 (num sk - where_ - 1)))
       else ret (data sk)) ;;
    set_stack (mk_stack (u64 (num sk - 1)) d (sorted sk) (num_alloc sk) (comp sk)) ;;
    ret r).

(** The first index below [num] whose element passes [test]. *)
Fixpoint scan (test : Z -> bool) (d : list Z) (i num : Z) (fuel : nat) : option (option Z) :=
  match fuel with
  | O => None
  | S fuel =>
      if i <? num then
        match d !! Z.to_nat i with
        | None => None
        | Some e => if test e then Some (Some i) else scan test d (i + 1) num fuel
        end
      else Some None
  end.

Definition sk_delete_ptr (p : Z) : W Z :=
  unless_null 0 (fun sk =>
    i <- known (scan (Z.eqb p) (data sk) 0 (num sk) (S (length (data sk)))) ;;
    match i with Some i => sk_delete i | None => ret 0 end).

Definition sk_is_sorted : W Z := unless_null 1 (fun sk => ret (sorted sk)).

(** The binary search of [sk_find]; [p] is NULL or not, the assertions are
    stuck, and the range shrinks with every turn. *)
Fixpoint search (fuel : nat) (sk : STACK) (p lo hi : Z) : option (option Z) :=
  match fuel with
  | O => None
  | S fuel =>
      if lo <? hi then
        let mid := u64 (lo + u64 (hi - lo - 1) / 2) in
        if negb ((lo <=? mid) && (mid <? hi)) then None else
        match data sk !! Z.to_nat mid with
        | None => None
        | Some elem =>
            let r := call_cmp (comp sk) p elem in
            if 0 <? r then search fuel sk p (u64 (mid + 1)) hi
            else if r <? 0 then search fuel sk p lo mid
            else if u64 (hi - lo) =? 1 then Some (Some mid)
            else if negb (u64 (mid + 1) <? hi) then None
            else search fuel sk p lo (u64 (mid + 1))
        end
      else if lo =? hi then Some None else None
  end.

(** [Some i] is the result 1 with [*out_index = i]. *)
Definition sk_find (p : Z) : W (option Z) :=
  unless_null None (fun sk =>
    if comp sk =? 0 then known (scan (Z.eqb p) (data sk) 0 (num sk) (S (length (data sk))))
    else if p =? 0 then ret None
    else if sorted sk =? 0
    then known (scan (fun elem => call_cmp (comp sk) p elem =? 0) (data sk) 0 (num sk) (S (length (data sk))))
    else known (search (S (Z.to_nat (num sk))) sk p 0 (num sk))).

Definition sk_shift : W Z := unless_null 0 (fun sk => if num sk =? 0 then ret 0 else sk_delete 0).
Definition sk_push (p : Z) : W Z :=
  '(_, sk) <- get ;; match sk with None => stuck | Some sk => sk_insert p (num sk) end.
Definition sk_pop : W Z := unless_null 0 (fun sk => if num sk =? 0 then ret 0 else sk_delete (u64 (num sk - 1))).

(** The copy; the stack itself stays as it is. *)
Definition sk_dup : W (option STACK) :=
  unless_null None (fun sk => fun '(a, s) =>
    match OPENSSL_malloc a sizeof_STACK with
    | (None, a) => (Ok None, (a, s))
    | (Some _, a) =>
        match OPENSSL_malloc a (u64 (8 * num_alloc sk)) with
        | (None, a) => (Ok None, (OPENSSL_free a sizeof_STACK, s))
        | (Some block, a) =>
            if (u64 (8 * num sk) <=? zlen block) && (num sk <=? zlen (data sk)) then
              let d := splice (words (Z.to_nat (num_alloc sk)) block) 0 (ztake (num sk) (data sk)) in
              (Ok (Some (mk_stack (num sk) d (sorted sk) (num_alloc sk) (comp sk))), (a, s))
            else (Stuck, (a, s))
        end
    end).

Definition sk_sort : W unit :=
  unless_null tt (fun sk =>
    if (comp sk =? 0) || negb (sorted sk =? 0) then ret tt else
    let d := if 2 <=? num sk
             then splice (data sk) 0 (qsort (call_cmp (comp sk)) (ztake (num sk) (data sk)))
             else data sk in
    set_stack (mk_stack (num sk) d 1 (num_alloc sk) (comp sk))).

Definition sk_set_cmp_func (new : Z) : W Z :=
  '(_, sk) <- get ;;
  match sk with
  | None => stuck
  | Some sk =>
      set_stack (mk_stack (num sk) (data sk) (if comp sk =? new then sorted sk else 0) (num_alloc sk) new) ;;
      ret (comp sk)
  end.

(** *** The elements are freed and copied by the caller's functions, whose
    effects are on a state of their own. *)
Section elements.
Context {U : Type} (call_free : Z -> U -> U) (call_copy : Z -> U -> Z * U).

(** Frees the elements that are not NULL. *)
Fixpoint free_elements (d : list Z) (u : U) : U :=
  match d with [] => u | p :: d => free_elements d (if p =? 0 then u else call_free p u) end.

Definition sk_pop_free_ex (u : U) : W U :=
  unless_null u (fun sk =>
    if num sk <=? zlen (data sk)
    then let u := free_elements (ztake (num sk) (data sk)) u in sk_free ;; ret u
    else stuck).

(** The loop of [sk_deep_copy]: the copies so far are in [done], in order, and
    [todo] is what is left of the array. *)
Fixpoint copy_elements (done todo : list Z) (u : U) : option (list Z) * U :=
  match todo with
  | [] => (Some done, u)
  | p :: todo =>
      if p =? 0 then copy_elements (done ++ [0]) todo u else
      let '(q, u) := call_copy p u in
      if q =? 0 then (None, free_elements done u) else copy_elements (done ++ [q]) todo u
  end.

Definition sk_deep_copy (u : U) : W (option STACK * U) :=
  copy <- sk_dup ;;
  match copy with
  | None => ret (None, u)
  | Some r =>
      match copy_elements [] (ztake (num r) (data r)) u with
      | (None, u) => (fun '(a, s) => (Ok tt, (free_stack r a, s))) ;; ret (None, u)
      | (Some d, u) => ret (Some (mk_stack (num r) (splice (data r) 0 d) (sorted r) (num_alloc r) (comp r)), u)
      end
  end.
End elements.
End stack.
