(* ===== verification/StackSpec.v ===== *)
(** What the stacks promise: every operation acts on the list of the pointers
    in use as its name says, whatever the array behind it does, and [sk_find]
    returns the first match, by binary search when the stack is sorted.  They fail
    only where the allocator refuses, and give all their memory back. *)
From Stdlib Require Import ZArith Lia Bool.
From coqutil Require Import Byte Word.LittleEndianList.
From stdpp Require Import base list numbers sorting gmap.
From S2P Require Import Prelude Alloc Qsort Stack.
Local Open Scope Z_scope.
Local Open Scope c_scope.

(** ** Arrays *)

Lemma length_words n bs : length (words n bs) = n.
Proof. revert bs. induction n as [|n IH]; intros bs; cbn; auto. Qed.

Lemma length_unwords ws : zlen (unwords ws) = 8 * zlen ws.
Proof.
  induction ws as [|w ws IH]; [reflexivity|]. unfold unwords in *. cbn [flat_map].
  rewrite zlen_app, zlen_cons, IH. unfold zlen at 1. rewrite length_le_split. lia.
Qed.

Lemma words_unwords ws rest n : Forall (in_word 64) ws -> (length ws <= n)%nat ->
  take (length ws) (words n (unwords ws ++ rest)) = ws.
Proof.
  revert n. induction ws as [|w ws IH]; intros [|n] Hw Hn; cbn in *; try reflexivity; try lia.
  apply Forall_cons in Hw as [Hw Hws].
  rewrite <- app_assoc. rewrite take_app_length' by (symmetry; apply length_le_split). rewrite drop_app_length' by (symmetry; apply length_le_split).
  rewrite le_combine_split. f_equal; [apply Z.mod_small, Hw | apply IH; [exact Hws | lia]].
Qed.

Definition is_word := in_word 64.

Lemma words_range n bs : Forall is_word (words n bs).
Proof.
  revert bs. induction n as [|n IH]; intros bs; cbn; constructor; [|apply IH].
  unfold is_word, in_word. pose proof (le_combine_bound (take 8 bs)) as H.
  assert (2 ^ (8 * Z.of_nat (length (take 8 bs))) <= 2 ^ 64); [|lia].
  apply Z.pow_le_mono_r; [lia|]. rewrite length_take. lia.
Qed.

(** ** The list in a stack *)

Definition items (s : STACK) : list Z := ztake (num s) (data s).

(** There is always a spare slot, and the array has the size it claims. *)
Definition wf (s : STACK) : Prop :=
  0 <= num s < num_alloc s /\ zlen (data s) = num_alloc s /\ 8 * num_alloc s < 2 ^ 64 /\ Forall is_word (data s).

Lemma items_zlen s : wf s -> zlen (items s) = num s.
Proof. intros (H1 & H2 & _). apply zlen_ztake. lia. Qed.

(** The array is the list and the spare slots. *)
Lemma wf_split s : wf s -> exists spare, data s = items s ++ spare /\ zlen spare = num_alloc s - num s /\ 0 < zlen spare.
Proof.
  intros (H1 & H2 & _). exists (zdrop (num s) (data s)). unfold items. rewrite ztake_zdrop, zlen_zdrop by lia. repeat split; lia.
Qed.

Definition insert_at (i p : Z) (l : list Z) : list Z :=
  if zlen l <=? i then l ++ [p] else ztake i l ++ p :: zdrop i l.
Definition delete_at (i : Z) (l : list Z) : list Z := ztake i l ++ zdrop (i + 1) l.

(** A stack with the list [l] in an array of [k] words. *)
Lemma wf_intro l spare srt c k :
  zlen l + zlen spare = k -> 0 < zlen spare -> 8 * k < 2 ^ 64 -> Forall is_word (l ++ spare) ->
  let s := mk_stack (zlen l) (l ++ spare) srt k c in wf s /\ items s = l.
Proof.
  intros Hk Hs Hb Hf. pose proof (zlen_nonneg l). split; [split; [cbn; lia | split; [|auto]] |].
  - cbn. rewrite zlen_app. exact Hk.
  - apply ztake_app. reflexivity.
Qed.

Lemma zcut {B} (l : list B) i : 0 <= i <= zlen l -> exists l1 l2, l = l1 ++ l2 /\ zlen l1 = i /\ ztake i l = l1 /\ zdrop i l = l2.
Proof. intros H. exists (ztake i l), (zdrop i l). rewrite ztake_zdrop, zlen_ztake by lia. auto. Qed.

Section spec.
Context {A : Type} {AL : Allocator A}.
Context (call_cmp : Z -> Z -> Z -> Z).
Notation W := (M (A * option STACK)).

Lemma word64 z : 0 <= z < 2 ^ 64 -> u64 z = z.
Proof. apply wrap_small. Qed.

(** *** Insertion *)

(** The array is full, and the allocator, as it is now, does not make it larger,
    or there are no addresses for one more pointer. *)
Definition denied (a : A) (s : STACK) : Prop :=
  num_alloc s = num s + 1 /\
  (2 ^ 64 <= 8 * (num_alloc s + 1) \/
   exists n, num_alloc s < n /\ 8 * n < 2 ^ 64 /\ fst (OPENSSL_realloc a (unwords (data s)) (8 * n)) = None).

(** Either there is room for one more, in an array with the same list, or the
    stack is as it was because memory was denied. *)
Definition grown (m : W (option STACK)) (a : A) (s : STACK) : Prop :=
  exists a', m (a, Some s) = (Ok None, (a', Some s)) /\ denied a s \/
    exists s', m (a, Some s) = (Ok (Some s'), (a', Some s')) /\ wf s' /\ items s' = items s /\ num s' = num s /\
      num s + 1 < num_alloc s' /\ sorted s' = sorted s /\ comp s' = comp s.

(** The test for overflow is exact. *)
Lemma overflows_spec s n : 0 <= n < 2 ^ 64 -> num_alloc s <= n ->
  overflows s n (u64 (n * 8)) = (2 ^ 64 <=? 8 * n).
Proof.
  intros Hn Hk. unfold overflows. destruct (Z.ltb_spec n (num_alloc s)); [lia|]. cbn [orb]. destruct (Z.leb_spec (2 ^ 64) (8 * n)) as [H8|H8].
  - apply negb_true_iff, Z.eqb_neq. pose proof (wrap_range 64 (n * 8) ltac:(lia)). intros E.
    pose proof (Z.mul_div_le (u64 (n * 8)) 8 ltac:(lia)). unfold in_word in *. lia.
  - apply negb_false_iff, Z.eqb_eq. rewrite word64 by lia. apply Z.div_mul. lia.
Qed.

Lemma resize_spec (a : A) s n : wf s -> num_alloc s = num s + 1 -> num_alloc s < n < 2 ^ 64 ->
  8 * n < 2 ^ 64 \/ n = num_alloc s + 1 -> grown (resize s n (u64 (n * 8))) a s.
Proof.
  intros (Hn & Hd & Hb & Hf) Hfull Hs Hk. unfold grown, resize. rewrite overflows_spec by lia.
  destruct (Z.leb_spec (2 ^ 64) (8 * n)) as [H8|H8].
  { exists a. left. split; [reflexivity|]. split; [exact Hfull|]. left. lia. }
  unfold bind, realloc_words. rewrite (word64 (n * 8)) by lia.
  destruct (OPENSSL_realloc a (unwords (data s)) (n * 8)) as [[new|] a'] eqn:E; cbn [option_map]; exists a'; [right|left].
  2: { split; [reflexivity|]. split; [exact Hfull|]. right. exists n. replace (8 * n) with (n * 8) by lia. rewrite E. auto with lia. }
  rewrite Z.div_mul by lia. eexists. split; [reflexivity|].
  pose proof (length_unwords (data s)) as Hu. pose proof E as E'. apply realloc_length in E; [|lia]. apply realloc_keeps in E'; [|lia].
  assert (Hnew : new = unwords (data s) ++ zdrop (zlen (unwords (data s))) new) by (rewrite <- E' at 1; symmetry; apply ztake_zdrop).
  pose proof (words_unwords (data s) (zdrop (zlen (unwords (data s))) new) (Z.to_nat n) Hf) as Hw.
  rewrite <- Hnew in Hw. unfold zlen in Hd. specialize (Hw ltac:(lia)).
  unfold wf, items. cbn [num data num_alloc sorted comp]. repeat split; auto; try lia.
  - unfold zlen. rewrite length_words. lia.
  - apply words_range.
  - unfold ztake. rewrite <- Hw at 1. rewrite take_take. f_equal. lia.
Qed.

Lemma grow_spec (a : A) s : wf s -> grown (grow s) a s.
Proof.
  intros Hwf. pose proof Hwf as (Hn & Hd & Hb & Hf). unfold grown, grow. rewrite (word64 (num s + 1)) by lia.
  destruct (Z.leb_spec (num_alloc s) (num s + 1)) as [Hg|Hg].
  2: { exists a. right. exists s. split; [reflexivity|]. auto 10. }
  rewrite Z.shiftl_mul_pow2 by lia. change (2 ^ 1) with 2. rewrite (word64 (num_alloc s * 2)), (word64 (num_alloc s + 1)) by lia.
  rewrite overflows_spec by lia.
  destruct (Z.leb_spec (2 ^ 64) (8 * (num_alloc s * 2))); apply resize_spec; auto; lia.
Qed.

Ltac list_eq := repeat (rewrite <- ?app_assoc; cbn [app]); reflexivity.

Lemma set_word_app l x spare p : set_word (l ++ x :: spare) (zlen l) p = Some (l ++ p :: spare).
Proof.
  unfold set_word. rewrite zlen_app, zlen_cons. pose proof (zlen_nonneg spare).
  destruct (Z.ltb_spec (zlen l) (zlen l + (1 + zlen spare))); [|lia]. f_equal.
  change (x :: spare) with ([x] ++ spare). rewrite splice_app by reflexivity. reflexivity.
Qed.

(** Moving a block of the array up by one. *)
Lemma move_up l1 y l2 x (spare : list Z) :
  memmove_words ((l1 ++ y :: l2) ++ x :: spare) (zlen l1 + 1) (zlen l1) (1 + zlen l2) = Some (l1 ++ y :: (y :: l2) ++ spare).
Proof.
  unfold memmove_words. rewrite !zlen_app, !zlen_cons. pose proof (zlen_nonneg spare). pose proof (zlen_nonneg l2). pose proof (zlen_nonneg l1).
  destruct (Z.leb_spec 0 (1 + zlen l2)); [|lia].
  destruct (Z.leb_spec (zlen l1 + 1 + (1 + zlen l2)) (zlen l1 + (1 + zlen l2) + (1 + zlen spare))); [|lia].
  destruct (Z.leb_spec (zlen l1 + (1 + zlen l2)) (zlen l1 + (1 + zlen l2) + (1 + zlen spare))); [|lia]. cbn [andb]. f_equal.
  rewrite <- app_assoc, zdrop_app by reflexivity. rewrite ztake_app by (rewrite zlen_cons; lia).
  replace (l1 ++ (y :: l2) ++ x :: spare) with ((l1 ++ [y]) ++ (l2 ++ [x]) ++ spare)
    by list_eq.
  rewrite splice_app by zlia. rewrite <- app_assoc. reflexivity.
Qed.

Lemma place_run s x spare p i : data s = items s ++ x :: spare -> zlen (items s) = num s -> 0 <= i ->
  place s p i = Some (insert_at i p (items s) ++ spare).
Proof.
  intros Ed Hz Hi. unfold place, insert_at. rewrite Ed, Hz. destruct (Z.leb_spec (num s) i) as [Hge|Hlt].
  { rewrite <- Hz at 1. rewrite set_word_app, <- app_assoc. reflexivity. }
  destruct (zcut (items s) i) as (l1 & l2 & El & Hl1 & -> & ->); [lia|]. rewrite El, zlen_app in *.
  destruct l2 as [|y l2]; [change (zlen (@nil Z)) with 0 in Hz; lia|]. rewrite zlen_cons in Hz.
  replace (num s - i) with (1 + zlen l2) by lia. rewrite <- Hl1. rewrite move_up, set_word_app, <- app_assoc. reflexivity.
Qed.

Lemma insert_at_zlen i p l : 0 <= i -> zlen (insert_at i p l) = zlen l + 1.
Proof.
  intros Hi. unfold insert_at. destruct (Z.leb_spec (zlen l) i); rewrite zlen_app, zlen_cons; [reflexivity|].
  rewrite zlen_ztake, zlen_zdrop by lia. lia.
Qed.

Lemma Forall_ztake {B} (P : B -> Prop) n l : Forall P l -> Forall P (ztake n l).
Proof. apply Forall_take. Qed.
Lemma Forall_zdrop {B} (P : B -> Prop) n l : Forall P l -> Forall P (zdrop n l).
Proof. apply Forall_drop. Qed.

Lemma insert_at_Forall (P : Z -> Prop) i p l : P p -> Forall P l -> Forall P (insert_at i p l).
Proof.
  intros Hp Hl. unfold insert_at. destruct (_ <=? _); apply Forall_app; split; auto using Forall_ztake.
  constructor; auto using Forall_zdrop.
Qed.

Lemma sk_insert_run (a : A) s p i : wf s -> is_word p -> 0 <= i ->
  exists a', sk_insert p i (a, Some s) = (Ok 0, (a', Some s)) /\ denied a s \/
    exists s', sk_insert p i (a, Some s) = (Ok (num s + 1), (a', Some s')) /\ wf s' /\ items s' = insert_at i p (items s) /\
      sorted s' = 0 /\ comp s' = comp s.
Proof.
  intros Hwf Hp Hi. unfold sk_insert, unless_null. rewrite bind_get. cbv beta iota.
  destruct (grow_spec a s Hwf) as (a' & [[E Hden]|(s1 & E & Hwf1 & Hit & Hnum & Hroom & _ & Hc)]); exists a'; rewrite !(bind_Ok _ _ _ _ _ E).
  { left. split; [reflexivity | exact Hden]. }
  right. destruct (wf_split s1 Hwf1) as (spare & Ed & Hsp & Hpos). pose proof (items_zlen s1 Hwf1) as Hz.
  destruct spare as [|x spare]; [exfalso; exact (Z.lt_irrefl _ Hpos)|]. rewrite zlen_cons in Hsp.
  pose proof Hwf1 as (Hn1 & _ & Hb & Hf). rewrite Ed in Hf. apply Forall_app in Hf as [Hf1 Hf2]. apply Forall_cons in Hf2 as [_ Hf2].
  rewrite (place_run s1 x spare p i Ed Hz Hi). cbv zeta. rewrite word64 by lia. rewrite Hit in *.
  destruct (wf_intro (insert_at i p (items s)) spare 0 (comp s1) (num_alloc s1)) as [H1 H2].
  { rewrite insert_at_zlen; lia. } { lia. } { exact Hb. } { apply Forall_app. split; [apply insert_at_Forall; assumption | exact Hf2]. }
  rewrite insert_at_zlen, Hz, Hnum in H1, H2 by lia. rewrite Hnum. eexists. split; [reflexivity|]. auto.
Qed.

(** *** Deletion *)

Lemma delete_at_zlen i l : 0 <= i < zlen l -> zlen (delete_at i l) = zlen l - 1.
Proof. intros H. unfold delete_at. rewrite zlen_app, zlen_ztake, zlen_zdrop; lia. Qed.

(** Moving a block of the array down by one. *)
Lemma move_down l1 e m z (spare : list Z) :
  memmove_words ((l1 ++ e :: m ++ [z]) ++ spare) (zlen l1) (zlen l1 + 1) (zlen m + 1) = Some ((l1 ++ m ++ [z]) ++ z :: spare).
Proof.
  pose proof (zlen_nonneg spare). pose proof (zlen_nonneg m). pose proof (zlen_nonneg l1).
  unfold memmove_words. rewrite !zlen_app, !zlen_cons, zlen_app. change (zlen [z]) with 1.
  destruct (Z.leb_spec 0 (zlen m + 1)); [|lia].
  destruct (Z.leb_spec (zlen l1 + (zlen m + 1)) (zlen l1 + (1 + (zlen m + 1)) + zlen spare)); [|lia].
  destruct (Z.leb_spec (zlen l1 + 1 + (zlen m + 1)) (zlen l1 + (1 + (zlen m + 1)) + zlen spare)); [|lia]. cbn [andb]. f_equal.
  replace ((l1 ++ e :: m ++ [z]) ++ spare) with ((l1 ++ [e]) ++ (m ++ [z]) ++ spare) at 2 by list_eq.
  rewrite zdrop_app by zlia. rewrite ztake_app by zlia.
  replace ((l1 ++ e :: m ++ [z]) ++ spare) with (l1 ++ (e :: m) ++ z :: spare) by list_eq.
  rewrite splice_app by zlia. list_eq.
Qed.

Lemma sk_delete_run (a : A) s i : wf s -> 0 <= i < num s ->
  exists s' e, sk_delete i (a, Some s) = (Ok e, (a, Some s')) /\ items s !! Z.to_nat i = Some e /\
    wf s' /\ items s' = delete_at i (items s) /\ sorted s' = sorted s /\ comp s' = comp s.
Proof.
  intros Hwf Hi. unfold sk_delete, unless_null. rewrite bind_get. cbv beta iota.
  destruct (Z.leb_spec (num s) i); [lia|]. pose proof Hwf as (Hn & Hd & Hb & Hf).
  destruct (wf_split s Hwf) as (spare & Ed & Hsp & Hpos). pose proof (items_zlen s Hwf) as Hz.
  destruct (zcut (items s) i) as (l1 & l2 & El & Hl1 & Et & Edr); [lia|]. destruct l2 as [|e l2]; [rewrite El, zlen_app in Hz; change (zlen (@nil Z)) with 0 in Hz; lia|].
  assert (He : items s !! Z.to_nat i = Some e).
  { rewrite El, <- Hl1. unfold zlen. rewrite Nat2Z.id. apply list_lookup_middle. reflexivity. }
  assert (Hl2 : zlen l2 = num s - i - 1) by (rewrite El, zlen_app, zlen_cons in Hz; lia).
  assert (Edel : delete_at i (items s) = l1 ++ l2).
  { unfold delete_at. rewrite Et, El. f_equal. replace (l1 ++ e :: l2) with ((l1 ++ [e]) ++ l2) by list_eq.
    apply zdrop_app. zlia. }
  assert (Hlook : data s !! Z.to_nat i = Some e) by (rewrite Ed; apply lookup_app_l_Some, He).
  unfold bind at 1. rewrite Hlook. cbn [known]. unfold ret at 1.
  rewrite (word64 (num s - 1)), (word64 (num s - i - 1)) by lia.
  rewrite Ed, El in Hf. apply Forall_app in Hf as [Hf1 Hf2]. apply Forall_app in Hf1 as [Hf0 Hf1]. apply Forall_cons in Hf1 as [Hfe Hf1].
  assert (Hmem : exists last, is_word last /\ (if negb (i =? num s - 1) then known (S := A * option STACK) (memmove_words (data s) i (i + 1) (num s - i - 1)) else ret (data s)) (a, Some s)
    = (Ok ((l1 ++ l2) ++ last :: spare), (a, Some s))).
  { rewrite Ed, El. destruct (Z.eqb_spec i (num s - 1)) as [Elast|Elast]; cbn [negb].
    - exists e. split; [exact Hfe|]. destruct l2 as [|y l2]; [rewrite app_nil_r, <- app_assoc; reflexivity|].
      rewrite zlen_cons in Hl2. pose proof (zlen_nonneg l2). lia.
    - destruct (exists_last (l := l2)) as (m & z & ->); [intros ->; change (zlen (@nil Z)) with 0 in Hl2; lia|].
      exists z. apply Forall_app in Hf1 as [_ Hfz]. apply Forall_cons in Hfz as [Hfz _]. split; [exact Hfz|].
      rewrite zlen_app in Hl2. replace (num s - i - 1) with (zlen m + 1) by (change (zlen [z]) with 1 in Hl2; lia).
      rewrite <- Hl1, move_down. reflexivity. }
  destruct Hmem as (last & Hlast & Em). unfold bind at 1. rewrite Em.
  destruct (wf_intro (l1 ++ l2) (last :: spare) (sorted s) (comp s) (num_alloc s)) as [H1 H2].
  { rewrite zlen_app, zlen_cons. lia. } { rewrite zlen_cons. lia. } { exact Hb. }
  { repeat (apply Forall_app; split); auto. }
  rewrite zlen_app in H1, H2. replace (zlen l1 + zlen l2) with (num s - 1) in H1, H2 by lia.
  eexists _, e. split; [reflexivity|]. rewrite Edel. auto 10.
Qed.

(** *** Searching *)

(** The index of the first element that passes [test]. *)
Definition first_match (test : Z -> bool) (l : list Z) : option Z :=
  option_map (fun r => Z.of_nat (fst r)) (list_find (fun e => Is_true (test e)) l).

Lemma first_match_cons test e l :
  first_match test (e :: l) = if test e then Some 0 else option_map (Z.add 1) (first_match test l).
Proof.
  unfold first_match. cbn [list_find]. destruct (decide (Is_true (test e))) as [H|H]; destruct (test e); try contradiction; try (exfalso; exact (H I)).
  - reflexivity.
  - destruct (list_find _ l) as [[i x]|]; cbn; [f_equal; lia | reflexivity].
Qed.

Lemma first_match_intro test l i e :
  l !! i = Some e -> test e = true -> (forall j y, l !! j = Some y -> (j < i)%nat -> test y = false) ->
  first_match test l = Some (Z.of_nat i).
Proof.
  intros He Ht Hfirst. unfold first_match. rewrite (proj2 (list_find_Some (fun e => Is_true (test e)) l i e)); [reflexivity|].
  split; [exact He|]. split; [rewrite Ht; exact I|]. intros j y Hy Hj. rewrite (Hfirst j y Hy Hj). exact id.
Qed.

Lemma first_match_none test l : (forall j y, l !! j = Some y -> test y = false) -> first_match test l = None.
Proof.
  intros H. unfold first_match. rewrite (proj2 (list_find_None (fun e => Is_true (test e)) l)); [reflexivity|].
  apply Forall_lookup_2. intros j y Hy. rewrite (H j y Hy). exact id.
Qed.

Lemma scan_run test l spare : forall done fuel, (length l < fuel)%nat ->
  scan test (done ++ l ++ spare) (zlen done) (zlen done + zlen l) fuel =
    Some (option_map (Z.add (zlen done)) (first_match test l)).
Proof.
  induction l as [|e l IH]; intros done [|fuel] Hf; cbn [length scan] in *; try lia.
  - change (zlen (@nil Z)) with 0. destruct (Z.ltb_spec (zlen done) (zlen done + 0)); [lia | reflexivity].
  - rewrite zlen_cons. pose proof (zlen_nonneg l). destruct (Z.ltb_spec (zlen done) (zlen done + (1 + zlen l))); [|lia].
    cbn [app]. rewrite list_lookup_middle by (unfold zlen; lia). rewrite first_match_cons. destruct (test e); [cbn [option_map]; rewrite Z.add_0_r; reflexivity|].
    specialize (IH (done ++ [e]) fuel ltac:(lia)). rewrite zlen_app in IH. change (zlen [e]) with 1 in IH.
    replace (zlen done + (1 + zlen l)) with (zlen done + 1 + zlen l) by lia.
    replace (done ++ e :: l ++ spare) with ((done ++ [e]) ++ l ++ spare) by list_eq. rewrite IH.
    f_equal. destruct (first_match test l); cbn; [f_equal; lia | reflexivity].
Qed.

Lemma scan_items test s : wf s -> scan test (data s) 0 (num s) (S (length (data s))) = Some (first_match test (items s)).
Proof.
  intros Hwf. destruct (wf_split s Hwf) as (spare & Ed & _). rewrite Ed at 1. rewrite <- (items_zlen s Hwf).
  etransitivity; [exact (scan_run test (items s) spare [] (S (length (data s))) ltac:(rewrite Ed, length_app; lia))|].
  f_equal. destruct (first_match test (items s)); reflexivity.
Qed.

Section search.
Context (s : STACK) (p : Z).
Notation f := (call_cmp (comp s)).
Notation l := (items s).
Context (Hwf : wf s) (Hcmp : comparison f) (Hasc : ascending f l).

(** To the left of something below [p] everything is below [p]. *)
Lemma below_left i j x y : (i <= j)%nat -> l !! i = Some x -> l !! j = Some y -> 0 < f p y -> 0 < f p x.
Proof.
  intros Hij Hx Hy H. pose proof (Hasc i j x y Hij Hx Hy) as Hle. destruct (Z_lt_le_dec 0 (f p x)) as [|Hpx]; [assumption|].
  pose proof (compare_trans f Hcmp p x y Hpx Hle). lia.
Qed.

Lemma above_right i j x y : (i <= j)%nat -> l !! i = Some x -> l !! j = Some y -> f p x < 0 -> f p y < 0.
Proof.
  intros Hij Hx Hy H. pose proof (Hasc i j x y Hij Hx Hy) as Hle. apply (compare_opp f Hcmp).
  destruct (Z_lt_le_dec 0 (f y p)) as [|Hyp]; [assumption|].
  pose proof (compare_trans f Hcmp x y p Hle Hyp). apply (compare_opp f Hcmp) in H. lia.
Qed.

(** Below [lo] everything is too low; from [hi] on everything is too high, or
    there is a match between them. *)
Lemma search_run fuel : forall lo hi, 0 <= lo <= hi -> hi <= num s -> (Z.to_nat (hi - lo) < fuel)%nat ->
  (forall i x, l !! i = Some x -> Z.of_nat i < lo -> 0 < f p x) ->
  (forall i x, l !! i = Some x -> hi <= Z.of_nat i ->
     f p x < 0 \/ exists j y, l !! j = Some y /\ lo <= Z.of_nat j < hi /\ f p y = 0) ->
  search call_cmp fuel s p lo hi = Some (first_match (fun e => f p e =? 0) l).
Proof.
  induction fuel as [|fuel IH]; intros lo hi Hlo Hhi Hfuel I1 I2; [lia|]. cbn [search].
  pose proof Hwf as (Hn & Hd & Hb & _). pose proof (items_zlen s Hwf) as Hz.
  destruct (Z.ltb_spec lo hi) as [Hlt|Hge].
  - rewrite (word64 (hi - lo - 1)) by lia. pose proof (Z.div_pos (hi - lo - 1) 2 ltac:(lia) ltac:(lia)).
    pose proof (Z.mul_div_le (hi - lo - 1) 2 ltac:(lia)). rewrite (word64 (lo + (hi - lo - 1) / 2)) by lia.
    set (mid := lo + (hi - lo - 1) / 2) in *.
    destruct (Z.leb_spec lo mid); [|lia]. destruct (Z.ltb_spec mid hi); [|lia]. cbn [andb negb].
    destruct (wf_split s Hwf) as (spare & Ed & _).
    destruct (lookup_lt_is_Some_2 l (Z.to_nat mid)) as [e He]; [unfold zlen in Hz; lia|].
    rewrite Ed, (lookup_app_l_Some _ _ _ _ He). rewrite (word64 (mid + 1)), (word64 (hi - lo)) by lia.
    destruct (Z.ltb_spec 0 (f p e)) as [Hr|Hr]; [|destruct (Z.ltb_spec (f p e) 0) as [Hr2|Hr2]].
    + apply IH; try lia.
      * intros i x Hx Hi. apply (below_left i (Z.to_nat mid) x e); auto; lia.
      * intros i x Hx Hi. destruct (I2 i x Hx Hi) as [|(j & y & Hy & Hj & Hm)]; [auto|]. right. exists j, y. split; [exact Hy|]. split; [|exact Hm].
        destruct (Z_lt_le_dec mid (Z.of_nat j)); [lia|]. pose proof (below_left j (Z.to_nat mid) y e ltac:(lia) Hy He Hr). lia.
    + apply IH; try lia; [exact I1|]. intros i x Hx Hi. left. apply (above_right (Z.to_nat mid) i e x); auto; lia.
    + assert (Hm : f p e = 0) by lia. destruct (Z.eqb_spec (hi - lo) 1) as [E1|E1].
      * f_equal. replace mid with (Z.of_nat (Z.to_nat mid)) by lia. symmetry. apply (first_match_intro _ l _ e He); [rewrite Hm; reflexivity|].
        intros j y Hy Hj. apply Z.eqb_neq. assert (Z.of_nat j < lo) by lia. pose proof (I1 j y Hy). lia.
      * assert (Hdiv : (hi - lo - 1) / 2 < hi - lo - 1) by (apply Z.div_lt; lia).
        destruct (Z.ltb_spec (mid + 1) hi); [|lia]. cbn [negb].
        apply IH; try lia; [exact I1|]. intros i x Hx Hi. right. exists (Z.to_nat mid), e. split; [exact He|]. split; [lia | exact Hm].
  - assert (lo = hi) as -> by lia. rewrite Z.eqb_refl. f_equal. symmetry. apply first_match_none. intros j y Hy. apply Z.eqb_neq.
    destruct (Z_lt_le_dec (Z.of_nat j) hi) as [Hj|Hj]; [pose proof (I1 j y Hy Hj); lia|].
    destruct (I2 j y Hy Hj) as [|(k & z & _ & Hk & _)]; lia.
Qed.
End search.

(** What [sorted] promises. *)
Definition sorted_ok (s : STACK) : Prop :=
  sorted s = 0 \/ comparison (call_cmp (comp s)) /\ ascending (call_cmp (comp s)) (items s).

Definition find_spec (s : STACK) (p : Z) : option Z :=
  if comp s =? 0 then first_match (Z.eqb p) (items s)
  else if p =? 0 then None
  else first_match (fun e => call_cmp (comp s) p e =? 0) (items s).

Lemma sk_find_run (a : A) s p : wf s -> sorted_ok s ->
  sk_find call_cmp p (a, Some s) = (Ok (find_spec s p), (a, Some s)).
Proof.
  intros Hwf Hs. unfold sk_find, unless_null, find_spec. rewrite bind_get. cbv beta iota.
  destruct (Z.eqb_spec (comp s) 0); [rewrite scan_items by exact Hwf; reflexivity|].
  destruct (Z.eqb_spec p 0); [reflexivity|].
  destruct (Z.eqb_spec (sorted s) 0) as [E|E]; [rewrite scan_items by exact Hwf; reflexivity|].
  destruct Hs as [|[Hc Ha]]; [contradiction|]. pose proof Hwf as (Hn & _). pose proof (items_zlen s Hwf) as Hz.
  rewrite (search_run s p Hwf Hc Ha (S (Z.to_nat (num s))) 0 (num s)); try lia; [reflexivity|].
  intros i x Hx Hi. apply lookup_lt_Some in Hx. unfold zlen in Hz. lia.
Qed.

(** *** The other operations *)

Lemma items_lookup s i : wf s -> 0 <= i < num s -> exists e, items s !! Z.to_nat i = Some e /\ data s !! Z.to_nat i = Some e.
Proof.
  intros Hwf Hi. pose proof (items_zlen s Hwf) as Hz. destruct (wf_split s Hwf) as (spare & Ed & _).
  destruct (lookup_lt_is_Some_2 (items s) (Z.to_nat i)) as [e He]; [unfold zlen in Hz; lia|].
  exists e. rewrite Ed. split; [exact He | apply lookup_app_l_Some, He].
Qed.

Definition value_at (i : Z) (l : list Z) : Z := if zlen l <=? i then 0 else nth (Z.to_nat i) l 0.
Definition set_at (i v : Z) (l : list Z) : list Z := if zlen l <=? i then l else <[Z.to_nat i := v]> l.

Lemma sk_value_run (a : A) s i : wf s -> 0 <= i -> sk_value i (a, Some s) = (Ok (value_at i (items s)), (a, Some s)).
Proof.
  intros Hwf Hi. unfold sk_value, unless_null, value_at. rewrite bind_get. cbv beta iota. rewrite (items_zlen s Hwf).
  destruct (Z.leb_spec (num s) i); [reflexivity|]. destruct (items_lookup s i Hwf) as (e & He & ->); [lia|].
  rewrite (nth_lookup_Some _ _ _ _ He). reflexivity.
Qed.

Lemma sk_set_run (a : A) s i v : wf s -> is_word v -> 0 <= i ->
  exists s', sk_set i v (a, Some s) = (Ok (if num s <=? i then 0 else v), (a, Some s')) /\ wf s' /\ items s' = set_at i v (items s) /\
    sorted s' = sorted s /\ comp s' = comp s.
Proof.
  intros Hwf Hv Hi. unfold sk_set, unless_null, set_at. rewrite bind_get. cbv beta iota. rewrite (items_zlen s Hwf).
  destruct (Z.leb_spec (num s) i); [exists s; auto 10|]. pose proof (items_zlen s Hwf) as Hz.
  destruct (wf_split s Hwf) as (spare & Ed & Hsp & Hpos). pose proof Hwf as (Hn & Hd & Hb & Hf).
  destruct (zcut (items s) i) as (l1 & l2 & El & Hl1 & _); [lia|]. destruct l2 as [|e l2]; [rewrite El, zlen_app in Hz; change (zlen (@nil Z)) with 0 in Hz; lia|].
  rewrite Ed, El in Hf. apply Forall_app in Hf as [Hf1 Hf2]. apply Forall_app in Hf1 as [Hf0 Hf1]. apply Forall_cons in Hf1 as [Hfe Hf1].
  assert (Ei : <[Z.to_nat i := v]> (items s) = l1 ++ v :: l2).
  { rewrite El, <- Hl1. unfold zlen. rewrite Nat2Z.id. rewrite insert_app_r_alt, Nat.sub_diag by lia. reflexivity. }
  assert (Es : set_word (data s) i v = Some ((l1 ++ v :: l2) ++ spare)).
  { rewrite Ed, El, <- Hl1. replace ((l1 ++ e :: l2) ++ spare) with (l1 ++ e :: (l2 ++ spare)) by list_eq. rewrite set_word_app. f_equal. list_eq. }
  rewrite Es. unfold bind. cbn [known]. unfold ret.
  destruct (wf_intro (l1 ++ v :: l2) spare (sorted s) (comp s) (num_alloc s)) as [H1 H2].
  { rewrite zlen_app, zlen_cons. rewrite El, zlen_app, zlen_cons in Hz. lia. } { lia. } { exact Hb. }
  { repeat (apply Forall_app; split); auto. }
  rewrite zlen_app, zlen_cons in H1, H2. rewrite El, zlen_app, zlen_cons in Hz. rewrite Hz in H1, H2.
  eexists. split; [reflexivity|]. rewrite Ei. auto.
Qed.

Lemma sk_zero_run (a : A) s : wf s ->
  exists s', sk_zero (a, Some s) = (Ok tt, (a, Some s')) /\ wf s' /\ items s' = [] /\
    (sorted s' = 0 \/ num s = 0 /\ sorted s' = sorted s) /\ comp s' = comp s.
Proof.
  intros Hwf. unfold sk_zero, unless_null. rewrite bind_get. cbv beta iota. pose proof Hwf as (Hn & Hd & Hb & Hf).
  destruct (Z.eqb_spec (num s) 0) as [E|E].
  { exists s. pose proof (items_zlen s Hwf) as Hz. rewrite E in Hz. split; [reflexivity|]. split; [exact Hwf|].
    split; [apply nil_length_inv; unfold zlen in Hz; lia | auto]. }
  set (d := repeat 0 _ ++ _). destruct (wf_intro [] d 0 (comp s) (num_alloc s)) as [H1 H2].
  - unfold d. rewrite zlen_app, zlen_zdrop by lia. unfold zlen at 1 2. cbn [length]. rewrite repeat_length. lia.
  - unfold d. rewrite zlen_app, zlen_zdrop by lia. unfold zlen at 1. rewrite repeat_length. lia.
  - exact Hb.
  - unfold d. cbn [app]. apply Forall_app. split; [|apply Forall_zdrop, Hf].
    apply Forall_forall. intros x Hx. apply list_elem_of_In, repeat_spec in Hx as ->. unfold is_word, in_word. lia.
  - eexists. split; [reflexivity|]. auto.
Qed.

Lemma delete_at_lookup i l j : 0 <= i ->
  delete_at i l !! j = if (j <? Z.to_nat i)%nat then l !! j else l !! S j.
Proof.
  intros Hi. unfold delete_at. destruct (Z_le_gt_dec i (zlen l)) as [Hle|Hgt].
  - assert (Hlen : length (ztake i l) = Z.to_nat i) by (unfold ztake, zlen in *; rewrite length_take; lia).
    destruct (Nat.ltb_spec j (Z.to_nat i)).
    + rewrite lookup_app_l by lia. unfold ztake. apply lookup_take_lt. assumption.
    + rewrite lookup_app_r by lia. rewrite Hlen. unfold zdrop. rewrite lookup_drop. f_equal. lia.
  - unfold ztake, zdrop, zlen in *. rewrite firstn_all2, skipn_all2, app_nil_r by lia.
    destruct (Nat.ltb_spec j (Z.to_nat i)); [reflexivity|]. rewrite !lookup_ge_None_2 by lia. reflexivity.
Qed.

Lemma ascending_delete (f : Z -> Z -> Z) i l : 0 <= i -> ascending f l -> ascending f (delete_at i l).
Proof.
  intros Hi H j k x y Hjk Hx Hy. rewrite delete_at_lookup in Hx, Hy by exact Hi.
  destruct (Nat.ltb_spec j (Z.to_nat i)), (Nat.ltb_spec k (Z.to_nat i));
    match type of Hx with l !! ?j' = _ => match type of Hy with l !! ?k' = _ => apply (H j' k' x y); [lia | assumption..] end end.
Qed.

Lemma ascending_nil f : @ascending Z f [].
Proof. intros i j x y _ Hx. discriminate. Qed.

Lemma sk_delete_ptr_run (a : A) s p : wf s ->
  exists s', sk_delete_ptr p (a, Some s) = (Ok (match first_match (Z.eqb p) (items s) with Some _ => p | None => 0 end), (a, Some s')) /\
    wf s' /\ items s' = (match first_match (Z.eqb p) (items s) with Some i => delete_at i (items s) | None => items s end) /\
    sorted s' = sorted s /\ comp s' = comp s.
Proof.
  intros Hwf. unfold sk_delete_ptr, unless_null. rewrite bind_get. cbv beta iota. rewrite scan_items by exact Hwf.
  unfold bind at 1. cbn [known]. unfold ret at 1. unfold first_match.
  destruct (list_find (fun e => Is_true (p =? e)) (items s)) as [[i x]|] eqn:Ef; cbn [option_map fst]; [|exists s; auto].
  apply list_find_Some in Ef as (Hx & Hp & _). apply Is_true_true in Hp. apply Z.eqb_eq in Hp as <-.
  pose proof (lookup_lt_Some _ _ _ Hx) as Hi. pose proof (items_zlen s Hwf) as Hz. unfold zlen in Hz.
  destruct (sk_delete_run a s (Z.of_nat i) Hwf ltac:(lia)) as (s' & e & E & He & H). rewrite Nat2Z.id in He.
  assert (e = p) as -> by congruence. exists s'. split; [exact E | exact H].
Qed.
End spec.

(** ** The abstract stack *)

Record astack := mk_astack { elems : list Z; ordered : bool; order : Z }.

Inductive op :=
  | Num | Value (i : Z) | Push (p : Z) | Insert (p i : Z) | Pop | Shift | Delete (i : Z) | DeletePtr (p : Z)
  | Zero | Find (p : Z) | Sort | IsSorted | SetCmp (c : Z).
Inductive result := word (z : Z) | index (i : option Z).

Definition op_ok (o : op) : Prop :=
  match o with
  | Push p => is_word p
  | Insert p i => is_word p /\ 0 <= i
  | Value i | Delete i => 0 <= i
  | _ => True
  end.

Section refinement.
Context {A : Type} {AL : Allocator A}.
Context (call_cmp : Z -> Z -> Z -> Z) (qsort : (Z -> Z -> Z) -> list Z -> list Z).
Notation W := (M (A * option STACK)).

Definition run_op (o : op) : W result :=
  match o with
  | Num => r <- sk_num ;; ret (word r)
  | Value i => r <- sk_value i ;; ret (word r)
  | Push p => r <- sk_push p ;; ret (word r)
  | Insert p i => r <- sk_insert p i ;; ret (word r)
  | Pop => r <- sk_pop ;; ret (word r)
  | Shift => r <- sk_shift ;; ret (word r)
  | Delete i => r <- sk_delete i ;; ret (word r)
  | DeletePtr p => r <- sk_delete_ptr p ;; ret (word r)
  | Zero => sk_zero ;; ret (word 0)
  | Find p => r <- sk_find call_cmp p ;; ret (index r)
  | Sort => sk_sort call_cmp qsort ;; ret (word 0)
  | IsSorted => r <- sk_is_sorted ;; ret (word r)
  | SetCmp c => r <- sk_set_cmp_func c ;; ret (word r)
  end.

Definition spec_insert (room : bool) (p i : Z) (s : astack) : astack * result :=
  if room then (mk_astack (insert_at i p (elems s)) false (order s), word (zlen (elems s) + 1)) else (s, word 0).
Definition spec_delete (i : Z) (s : astack) : astack * result :=
  if zlen (elems s) <=? i then (s, word 0)
  else (mk_astack (delete_at i (elems s)) (ordered s) (order s), word (value_at i (elems s))).

(** [room] is whether memory is found when it is needed. *)
Definition spec_op (room : bool) (o : op) (s : astack) : astack * result :=
  let n := zlen (elems s) in
  match o with
  | Num => (s, word n)
  | Value i => (s, word (value_at i (elems s)))
  | Push p => spec_insert room p n s
  | Insert p i => spec_insert room p i s
  | Pop => if n =? 0 then (s, word 0) else spec_delete (n - 1) s
  | Shift => spec_delete 0 s
  | Delete i => spec_delete i s
  | DeletePtr p =>
      match first_match (Z.eqb p) (elems s) with
      | Some i => (mk_astack (delete_at i (elems s)) (ordered s) (order s), word p)
      | None => (s, word 0)
      end
  | Zero => if n =? 0 then (s, word 0) else (mk_astack [] false (order s), word 0)
  | Find p =>
      (s, index (if order s =? 0 then first_match (Z.eqb p) (elems s) else if p =? 0 then None
                 else first_match (fun e => call_cmp (order s) p e =? 0) (elems s)))
  | Sort =>
      if (order s =? 0) || ordered s then (s, word 0)
      else (mk_astack (if 2 <=? n then qsort (call_cmp (order s)) (elems s) else elems s) true (order s), word 0)
  | IsSorted => (s, word (if ordered s then 1 else 0))
  | SetCmp c => (mk_astack (elems s) (ordered s && (order s =? c)) c, word (order s))
  end.

(** The stack holds the list, and its flag is right. *)
Definition rep (s : STACK) (t : astack) : Prop :=
  wf s /\ items s = elems t /\ comp s = order t /\ sorted s = (if ordered t then 1 else 0) /\
  (ordered t = true -> order t <> 0 /\ ascending (call_cmp (order t)) (elems t)).

Context (Hcmp : forall c, c <> 0 -> comparison (call_cmp c)) (Hqsort : sorts qsort).

Ltac reps := unfold rep; cbn [elems ordered order]; split; [assumption|]; split; [congruence|]; split; [congruence|]; split; [congruence|];
  first [discriminate | assumption | idtac].

Lemma rep_sorted s t : rep s t -> sorted_ok call_cmp s.
Proof.
  intros (_ & Hi & Hc & Hs & Ho). unfold sorted_ok. destruct (ordered t); [right | left; exact Hs].
  destruct (Ho eq_refl) as [H1 H2]. rewrite Hi, Hc. auto.
Qed.

Lemma spec_insert_run (a : A) s t p i : rep s t -> is_word p -> 0 <= i ->
  exists room a' s' r t', sk_insert p i (a, Some s) = (Ok r, (a', Some s')) /\ spec_insert room p i t = (t', word r) /\
    (room = false -> denied a s) /\ rep s' t'.
Proof.
  intros Hrep Hp Hi. pose proof Hrep as (Hwf & Hit & Hc & _). pose proof (items_zlen s Hwf) as Hz. rewrite Hit in Hz.
  destruct (sk_insert_run a s p i Hwf Hp Hi) as (a' & [[E Hden]|(s' & E & Hwf' & Hi' & Hs' & Hc')]).
  - exists false, a', s, 0, t. auto.
  - exists true, a', s', (num s + 1). eexists. split; [exact E|]. unfold spec_insert. rewrite Hz. split; [reflexivity|].
    split; [discriminate|]. reps.
Qed.

Lemma spec_delete_run (a : A) s t i : rep s t -> 0 <= i ->
  exists s' r t', sk_delete i (a, Some s) = (Ok r, (a, Some s')) /\ spec_delete i t = (t', word r) /\ rep s' t'.
Proof.
  intros Hrep Hi. pose proof Hrep as (Hwf & Hit & Hc & Hs & Ho). pose proof (items_zlen s Hwf) as Hz. rewrite Hit in Hz.
  unfold spec_delete. rewrite Hz. destruct (Z.leb_spec (num s) i) as [Hge|Hlt].
  - exists s, 0, t. split; [|auto]. unfold sk_delete, unless_null. rewrite bind_get. cbv beta iota. destruct (Z.leb_spec (num s) i); [reflexivity | lia].
  - destruct (sk_delete_run a s i Hwf ltac:(lia)) as (s' & e & E & He & Hwf' & Hi' & Hs' & Hc'). exists s', e, (mk_astack (delete_at i (elems t)) (ordered t) (order t)). split; [exact E|].
    rewrite Hit in *. split; [|reps].
    + unfold value_at. rewrite Hz. destruct (Z.leb_spec (num s) i); [lia|]. rewrite (nth_lookup_Some _ _ _ _ He). reflexivity.
    + intros Hord. destruct (Ho Hord). split; [assumption | apply ascending_delete; assumption].
Qed.

Lemma sort_run (a : A) s t : rep s t ->
  exists s' t', sk_sort call_cmp qsort (a, Some s) = (Ok tt, (a, Some s')) /\ spec_op true Sort t = (t', word 0) /\ rep s' t'.
Proof.
  intros Hrep. pose proof Hrep as (Hwf & Hit & Hc & Hs & Ho). unfold sk_sort, unless_null. rewrite bind_get. cbv beta iota. cbn [spec_op].
  rewrite Hc, Hs. destruct (Z.eqb_spec (order t) 0) as [E|E]; cbn [orb]; [exists s, t; auto|].
  replace (negb ((if ordered t then 1 else 0) =? 0)) with (ordered t) by (destruct (ordered t); reflexivity).
  destruct (ordered t); [exists s, t; auto|]. fold (items s). pose proof (items_zlen s Hwf) as Hz.
  destruct (wf_split s Hwf) as (spare & Ed & Hsp & Hpos). pose proof Hwf as (Hn & Hd & Hb & Hf).
  destruct (Hqsort (call_cmp (order t)) (items s) (Hcmp _ E)) as [Hperm Hasc].
  set (l := if 2 <=? num s then qsort (call_cmp (order t)) (items s) else items s).
  assert (Hl : Permutation l (items s) /\ ascending (call_cmp (order t)) l).
  { unfold l. destruct (Z.leb_spec 2 (num s)); [auto|]. split; [reflexivity|]. intros i j x y Hij Hx Hy.
    pose proof (lookup_lt_Some _ _ _ Hx). pose proof (lookup_lt_Some _ _ _ Hy). unfold zlen in Hz.
    assert (i = j) as -> by lia. assert (x = y) as -> by congruence. rewrite (compare_refl _ (Hcmp _ E)). reflexivity. }
  destruct Hl as [Hlp Hla]. assert (Hll : zlen l = num s) by (unfold zlen in *; rewrite (Permutation_length Hlp); exact Hz).
  assert (Edata : (if 2 <=? num s then splice (data s) 0 (qsort (call_cmp (order t)) (items s)) else data s) = l ++ spare).
  { unfold l in *. destruct (2 <=? num s); [|exact Ed]. rewrite Ed. apply (splice_app [] (items s) spare); [reflexivity | lia]. }
  rewrite Edata. destruct (wf_intro l spare 1 (order t) (num_alloc s)) as [H1 H2]; [lia | lia | exact Hb | |].
  { rewrite Ed in Hf. apply Forall_app in Hf as [Hf1 Hf2]. apply Forall_app. split; [|exact Hf2]. rewrite Hlp. exact Hf1. }
  rewrite Hll in H1, H2. eexists _, _. split; [reflexivity|]. rewrite <- Hit, Hz. split; [reflexivity|].
  unfold rep. cbn [elems ordered order comp sorted]. split; [exact H1|]. split; [exact H2|]. split; [reflexivity|]. split; [reflexivity|].
  intros _. split; [exact E | exact Hla].
Qed.

Lemma op_run (a : A) s t o : rep s t -> op_ok o ->
  exists room a' s' t' r, run_op o (a, Some s) = (Ok r, (a', Some s')) /\ spec_op room o t = (t', r) /\
    (room = false -> denied a s) /\ rep s' t'.
Proof.
  assert (Hroom : true = false -> denied a s) by discriminate.
  intros Hrep Hok. pose proof Hrep as (Hwf & Hit & Hc & Hs & Ho). pose proof (items_zlen s Hwf) as Hz. rewrite Hit in Hz.
  pose proof Hwf as (Hn & _ & Hb & _).
  destruct o as [|i|p|p i| | |i|p| |p| | |c]; cbn [run_op spec_op op_ok] in *.
  - exists true, a, s, t, (word (num s)). rewrite Hz. auto.
  - exists true, a, s, t. eexists. rewrite (bind_Ok _ _ _ _ _ (sk_value_run a s i Hwf Hok)), Hit. auto.
  - destruct (spec_insert_run a s t p (num s) Hrep Hok ltac:(lia)) as (room & a' & s' & r & t' & E & Es & Hd & Hr).
    exists room, a', s', t', (word r). rewrite Hz. split; [|auto]. unfold bind, sk_push, bind, get. rewrite E. reflexivity.
  - destruct (spec_insert_run a s t p i Hrep (proj1 Hok) (proj2 Hok)) as (room & a' & s' & r & t' & E & Es & Hd & Hr).
    exists room, a', s', t', (word r). rewrite (bind_Ok _ _ _ _ _ E). auto.
  - unfold sk_pop, unless_null. rewrite Hz. unfold bind at 1, bind at 1, get. destruct (Z.eqb_spec (num s) 0) as [E0|E0]; [exists true, a, s, t, (word 0); auto|].
    destruct (spec_delete_run a s t (num s - 1) Hrep ltac:(lia)) as (s' & r & t' & E & Es & Hr).
    exists true, a, s', t', (word r). rewrite word64 by lia. rewrite E. auto.
  - unfold sk_shift, unless_null. unfold bind at 1, bind at 1, get.
    destruct (spec_delete_run a s t 0 Hrep ltac:(lia)) as (s' & r & t' & E & Es & Hr). exists true, a.
    destruct (Z.eqb_spec (num s) 0) as [E0|E0].
    + exists s, t, (word 0). unfold spec_delete. rewrite Hz, E0. auto.
    + exists s', t', (word r). rewrite E. auto.
  - destruct (spec_delete_run a s t i Hrep Hok) as (s' & r & t' & E & Es & Hr).
    exists true, a, s', t', (word r). rewrite (bind_Ok _ _ _ _ _ E). auto.
  - destruct (sk_delete_ptr_run a s p Hwf) as (s' & E & Hwf' & Hi' & Hs' & Hc'). rewrite Hit in *.
    exists true, a, s'. rewrite (bind_Ok _ _ _ _ _ E). destruct (first_match (Z.eqb p) (elems t)) as [i|] eqn:Ef;
      (eexists _, _; split; [reflexivity|]; split; [reflexivity|]; split; [exact Hroom|]); reps.
    intros Hord. destruct (Ho Hord). split; [assumption|]. apply ascending_delete; [|assumption].
    unfold first_match in Ef. destruct (list_find _ _) as [[k x]|]; [|discriminate]. cbn in Ef. injection Ef as <-. lia.
  - destruct (sk_zero_run a s Hwf) as (s' & E & Hwf' & Hi' & Hs' & Hc'). exists true, a, s'. rewrite (bind_Ok _ _ _ _ _ E), Hz.
    destruct (Z.eqb_spec (num s) 0) as [E0|E0].
    + exists t, (word 0). split; [reflexivity|]. split; [reflexivity|]. split; [exact Hroom|].
      assert (elems t = []) as El by (apply nil_length_inv; unfold zlen in Hz; lia).
      assert (s' = s) as ->; [|exact Hrep].
      unfold sk_zero, unless_null, bind, get in E. rewrite E0 in E. injection E as <-. reflexivity.
    + eexists _, (word 0). split; [reflexivity|]. split; [reflexivity|]. split; [exact Hroom|]. destruct Hs' as [Hs'|[? _]]; [|contradiction]. reps.
  - exists true, a, s, t. eexists. rewrite (bind_Ok _ _ _ _ _ (sk_find_run call_cmp a s p Hwf (rep_sorted s t Hrep))).
    unfold find_spec. rewrite Hit, Hc. auto.
  - destruct (sort_run a s t Hrep) as (s' & t' & E & Es & Hr). exists true, a, s', t', (word 0). rewrite (bind_Ok _ _ _ _ _ E). auto.
  - exists true, a, s, t. eexists. unfold sk_is_sorted, unless_null, bind, get, ret. rewrite Hs. auto.
  - exists true, a. eexists _, _, _. split; [reflexivity|]. rewrite Hc. split; [reflexivity|]. split; [exact Hroom|].
    unfold rep. cbn [elems ordered order comp sorted]. split; [exact Hwf|]. split; [exact Hit|]. split; [reflexivity|].
    destruct (Z.eqb_spec (order t) c) as [Heq|Hne]; rewrite ?andb_true_r, ?andb_false_r; [rewrite <- Heq; auto|].
    split; [reflexivity | discriminate].
Qed.
End refinement.

(** ** The properties *)

Section properties.
Context {A : Type} {AL : Allocator A}.
Context (call_cmp : Z -> Z -> Z -> Z) (qsort : (Z -> Z -> Z) -> list Z -> list Z).
Notation W := (M (A * option STACK)).

Fixpoint run_ops (os : list op) : W (list result) :=
  match os with
  | [] => ret []
  | o :: os => r <- run_op call_cmp qsort o ;; rs <- run_ops os ;; ret (r :: rs)
  end.

(** The operations [os], run one after the other from the stack [s], give the
    results [rs] and do to the list [t] what they should; one that finds no memory
    was [denied] it by the allocator, in the state it had then. *)
Inductive runs_as : A -> STACK -> astack -> list op -> list result -> A -> STACK -> astack -> Prop :=
  | runs_done a s t : rep call_cmp s t -> runs_as a s t [] [] a s t
  | runs_more room a s t o r a1 s1 t1 os rs a2 s2 t2 :
      rep call_cmp s t -> run_op call_cmp qsort o (a, Some s) = (Ok r, (a1, Some s1)) ->
      spec_op call_cmp qsort room o t = (t1, r) -> (room = false -> denied a s) ->
      runs_as a1 s1 t1 os rs a2 s2 t2 -> runs_as a s t (o :: os) (r :: rs) a2 s2 t2.

(** C12: whatever is done with a stack, in any order, [sk_set] apart, its results
    are those of a list with a flag that says whether it is in order: insertions
    and deletions move the elements behind them by one, the array grows as
    needed, and the flag is set only while the list is in order.  An insertion
    that fails leaves the stack as it was, and fails only when the array is full
    and the allocator refuses a larger one, or no larger one has a size below
    2^64 bytes. *)
Theorem stack_refines os (a : A) s t :
  (forall c, c <> 0 -> comparison (call_cmp c)) -> sorts qsort -> rep call_cmp s t -> Forall op_ok os ->
  exists rs a' s' t', run_ops os (a, Some s) = (Ok rs, (a', Some s')) /\ runs_as a s t os rs a' s' t' /\ rep call_cmp s' t'.
Proof.
  intros Hc Hq. revert a s t. induction os as [|o os IH]; intros a s t Hrep Hok; cbn [run_ops].
  - exists [], a, s, t. split; [reflexivity|]. split; [constructor |]; exact Hrep.
  - apply Forall_cons in Hok as [Hok Hoks]. destruct (op_run call_cmp qsort Hc Hq a s t o Hrep Hok) as (room & a1 & s1 & t1 & r & E & Es & Hd & Hrep1).
    destruct (IH a1 s1 t1 Hrep1 Hoks) as (rs & a2 & s2 & t2 & E2 & Es2 & Hrep2).
    exists (r :: rs), a2, s2, t2. rewrite (bind_Ok _ _ _ _ _ E), (bind_Ok _ _ _ _ _ E2). split; [reflexivity|]. split; [econstructor; eassumption | exact Hrep2].
Qed.

(** [sk_find] returns the index of the first element equal to [p], or says
    that there is none: the binary search of a sorted stack, in which equal
    elements stand next to each other, finds what the scan from the start
    finds, and always ends. *)
Theorem sk_find_first (a : A) s p :
  wf s -> sorted_ok call_cmp s -> comp s <> 0 -> p <> 0 ->
  sk_find call_cmp p (a, Some s) = (Ok (first_match (fun e => call_cmp (comp s) p e =? 0) (items s)), (a, Some s)).
Proof.
  intros Hwf Hs Hc Hp. rewrite (sk_find_run call_cmp a s p Hwf Hs). unfold find_spec.
  destruct (Z.eqb_spec (comp s) 0); [contradiction|]. destruct (Z.eqb_spec p 0); [contradiction | reflexivity].
Qed.

End properties.

(** *** Copies *)
Section copies.
Context {A : Type} {AL : Allocator A}.

(** The objects that are alive; freeing one that is not is a corruption. *)
Definition heap := option (gset Z).
Definition free_object (p : Z) (h : heap) : heap :=
  match h with Some live => if decide (p ∈ live) then Some (live ∖ {[p]}) else None | None => None end.
(** [alloc] gives the address of the copy, or NULL. *)
Definition copy_object (alloc : Z -> gset Z -> Z) (p : Z) (h : heap) : Z * heap :=
  match h with
  | Some live => let q := alloc p live in if q =? 0 then (0, h) else (q, Some ({[q]} ∪ live))
  | None => (0, None)
  end.

(** The elements of [d] that are not NULL are distinct objects. *)
Definition objects (d : list Z) : gset Z := list_to_set (filter (fun p => p <> 0) d).
Definition distinct (d : list Z) : Prop := NoDup (filter (fun p => p <> 0) d).

Lemma free_elements_all d live : distinct d -> objects d ## live ->
  free_elements free_object d (Some (objects d ∪ live)) = Some live.
Proof.
  unfold distinct, objects. revert live. induction d as [|p d IH]; intros live Hd Hdis; cbn [free_elements].
  - f_equal. set_solver.
  - destruct (Z.eqb_spec p 0) as [->|Hp]; rewrite filter_cons in *.
    + destruct (decide (0 <> 0)); [contradiction|]. apply IH; assumption.
    + destruct (decide (p <> 0)); [|contradiction]. apply NoDup_cons in Hd as [Hn Hd]. cbn [free_object list_to_set].
      destruct (decide _) as [_|Hnot]; [|exfalso; apply Hnot; set_solver].
      replace (({[p]} ∪ list_to_set (filter (fun p => p <> 0) d) ∪ live) ∖ {[p]}) with (list_to_set (filter (fun p => p <> 0) d) ∪ live : gset Z).
      * apply IH; [exact Hd | set_solver].
      * assert (p ∉ (list_to_set (filter (fun p => p <> 0) d) : gset Z)) by (rewrite elem_of_list_to_set; exact Hn). set_solver.
Qed.

(** A new object is where none is alive. *)
Definition allocates (alloc : Z -> gset Z -> Z) : Prop :=
  forall p live, is_word (alloc p live) /\ (alloc p live <> 0 -> alloc p live ∉ live).
Context (alloc : Z -> gset Z -> Z) (Halloc : allocates alloc).
Definition copy_of (p q : Z) : Prop := (p = 0 <-> q = 0) /\ is_word q.

Lemma objects_snoc d q : q <> 0 -> objects (d ++ [q]) = {[q]} ∪ objects d.
Proof.
  intros Hq. unfold objects. rewrite filter_app. rewrite (filter_cons_True (fun p => p <> 0) q []) by exact Hq. rewrite filter_nil.
  rewrite list_to_set_app_L. cbn. set_solver.
Qed.
Lemma objects_snoc_null d : objects (d ++ [0]) = objects d.
Proof. unfold objects. rewrite filter_app. rewrite (filter_cons_False (fun p => p <> 0) 0 []) by auto. rewrite filter_nil, app_nil_r. reflexivity. Qed.
Lemma distinct_snoc d q : distinct d -> q ∉ objects d -> distinct (d ++ [q]).
Proof.
  unfold distinct, objects. intros Hd Hq. rewrite filter_app. destruct (decide (q <> 0)) as [Hne|Hz].
  - rewrite (filter_cons_True (fun p => p <> 0) q []) by exact Hne. rewrite filter_nil. apply NoDup_app. split; [exact Hd|].
    split; [|apply NoDup_singleton]. intros x Hx Hx'. apply list_elem_of_singleton in Hx' as ->. apply Hq, elem_of_list_to_set, Hx.
  - rewrite (filter_cons_False (fun p => p <> 0) q []) by exact Hz. rewrite filter_nil, app_nil_r. exact Hd.
Qed.

Lemma copy_elements_run todo : forall done live, distinct done -> objects done ## live ->
  match copy_elements free_object (copy_object alloc) done todo (Some (objects done ∪ live)) with
  | (Some d, h) => exists new, d = done ++ new /\ length new = length todo /\ h = Some (objects d ∪ live) /\ distinct d /\ objects d ## live /\
      Forall2 copy_of todo new
  | (None, h) => h = Some live
  end.
Proof.
  induction todo as [|p todo IH]; intros done live Hd Hdis; cbn [copy_elements].
  { exists []. rewrite app_nil_r. do 3 (split; [reflexivity|]). split; [exact Hd|]. split; [exact Hdis | constructor]. }
  destruct (Z.eqb_spec p 0) as [->|Hp].
  - rewrite <- (objects_snoc_null done). specialize (IH (done ++ [0]) live).
    rewrite objects_snoc_null in *. specialize (IH ltac:(apply distinct_snoc; [exact Hd | unfold objects; rewrite elem_of_list_to_set, list_elem_of_filter; tauto]) Hdis).
    destruct (copy_elements free_object (copy_object alloc) (done ++ [0]) todo _) as [[d|] h]; [|exact IH]. destruct IH as (new & -> & Hl & Hh & H1 & H2 & H3).
    exists (0 :: new). rewrite <- app_assoc in *. cbn [app] in *. split; [reflexivity|]. split; [cbn; lia|]. split; [exact Hh|]. split; [exact H1|]. split; [exact H2|]. constructor; [unfold copy_of, is_word, in_word; intuition lia | exact H3].
  - unfold copy_object at 1. destruct (Z.eqb_spec (alloc p (objects done ∪ live)) 0) as [E|E].
    { cbn [Z.eqb]. apply free_elements_all; assumption. }
    set (q := alloc p (objects done ∪ live)) in *. destruct (Z.eqb_spec q 0); [contradiction|].
    destruct (Halloc p (objects done ∪ live)) as [Hword Hfresh]. specialize (Hfresh E). fold q in Hfresh, Hword.
    replace ({[q]} ∪ (objects done ∪ live)) with (objects (done ++ [q]) ∪ live) by (rewrite objects_snoc by assumption; set_solver).
    specialize (IH (done ++ [q]) live ltac:(apply distinct_snoc; [exact Hd | set_solver]) ltac:(rewrite objects_snoc by assumption; set_solver)).
    destruct (copy_elements free_object (copy_object alloc) (done ++ [q]) todo _) as [[d|] h]; [|exact IH]. destruct IH as (new & -> & Hl & Hh & H1 & H2 & H3).
    exists (q :: new). rewrite <- app_assoc in *. cbn [app] in *. split; [reflexivity|]. split; [cbn; lia|]. split; [exact Hh|]. split; [exact H1|]. split; [exact H2|]. constructor; [unfold copy_of; tauto | exact H3].
Qed.

Lemma sk_dup_run (a : A) s : wf s ->
  exists a', sk_dup (a, Some s) = (Ok None, (a', Some s)) \/
    exists r, sk_dup (a, Some s) = (Ok (Some r), (a', Some s)) /\ wf r /\ items r = items s /\ num r = num s.
Proof.
  intros Hwf. pose proof Hwf as (Hn & Hd & Hb & Hf). unfold sk_dup, unless_null. rewrite bind_get. cbv beta iota.
  destruct (OPENSSL_malloc a sizeof_STACK) as [[b1|] a1]; [|exists a1; left; reflexivity].
  destruct (OPENSSL_malloc a1 (u64 (8 * num_alloc s))) as [[block|] a2] eqn:E; eexists; [right | left; reflexivity].
  rewrite !word64 in * by lia. apply malloc_length in E; [|lia]. rewrite E.
  destruct (Z.leb_spec (8 * num s) (8 * num_alloc s)); [|lia]. destruct (Z.leb_spec (num s) (zlen (data s))); [|lia]. cbn [andb].
  fold (items s). pose proof (items_zlen s Hwf) as Hz. set (ws := words (Z.to_nat (num_alloc s)) block).
  assert (Hws : zlen ws = num_alloc s) by (unfold zlen, ws; rewrite length_words; lia).
  eexists. split; [reflexivity|]. unfold splice. rewrite Hz, Z.add_0_l. cbn [app ztake Z.to_nat take].
  destruct (wf_intro (items s) (zdrop (num s) ws) (sorted s) (comp s) (num_alloc s)) as [H1 H2].
  - rewrite Hz, zlen_zdrop by lia. lia.
  - rewrite zlen_zdrop by lia. lia.
  - exact Hb.
  - apply Forall_app. split; [apply Forall_ztake, Hf | apply Forall_zdrop, words_range].
  - rewrite Hz in H1, H2. auto.
Qed.

(** C29: a deep copy holds an object of its own for every object of the stack, and
    NULL where that has NULL; when it fails, every copy that was made has been
    freed, once, and nothing else has; and [sk_pop_free_ex] frees a copy
    completely. *)
Theorem sk_deep_copy_no_leak (a : A) s live :
  wf s ->
  exists a', sk_deep_copy free_object (copy_object alloc) (Some live) (a, Some s) = (Ok (None, Some live), (a', Some s)) \/
    exists r, sk_deep_copy free_object (copy_object alloc) (Some live) (a, Some s) =
        (Ok (Some r, Some (objects (items r) ∪ live)), (a', Some s)) /\
      wf r /\ Forall2 copy_of (items s) (items r) /\ distinct (items r) /\ objects (items r) ## live /\
      sk_pop_free_ex free_object (Some (objects (items r) ∪ live)) (a', Some r) = (Ok (Some live), (free_stack r a', None)).
Proof.
  intros Hwf. unfold sk_deep_copy. destruct (sk_dup_run a s Hwf) as (a' & [E|(r & E & Hwr & Hir & Hnr)]);
    rewrite !(bind_Ok _ _ _ _ _ E); [eexists; left; reflexivity|].
  fold (items r). pose proof (copy_elements_run (items r) [] live) as Hrun.
  assert (Hob : objects [] = ∅) by reflexivity. rewrite Hob, (left_id_L ∅ (∪)) in Hrun.
  specialize (Hrun (NoDup_nil_2) ltac:(set_solver)).
  destruct (copy_elements free_object (copy_object alloc) [] (items r) (Some live)) as [[d|] h]; [|eexists; left; subst h; reflexivity].
  destruct Hrun as (new & -> & Hlen & -> & Hdist & Hdis & Hcopy). exists a'. right. cbn [app] in *.
  destruct (wf_split r Hwr) as (spare & Ed & Hsp & Hpos). pose proof (items_zlen r Hwr) as Hz. pose proof Hwr as (Hn & Hd & Hb & Hf).
  assert (Hln : zlen new = num r) by (unfold zlen in *; rewrite Hlen; exact Hz).
  rewrite Ed. pose proof (splice_app [] (items r) spare new 0 eq_refl ltac:(lia)) as Hspl. cbn [app] in Hspl. rewrite Hspl.
  destruct (wf_intro new spare (sorted r) (comp r) (num_alloc r)) as [H1 H2]; [lia | lia | exact Hb | |].
  { rewrite Ed in Hf. apply Forall_app in Hf as [_ Hf]. apply Forall_app. split; [|exact Hf].
    eapply Forall2_Forall_r; [exact Hcopy|]. apply Forall_forall. intros x _ y Hy. apply Hy. }
  rewrite Hln in H1, H2. eexists. rewrite H2. split; [reflexivity|]. split; [exact H1|]. rewrite <- Hir. do 3 (split; [assumption|]).
  unfold sk_pop_free_ex, unless_null. rewrite bind_get. cbv beta iota. cbn [num data]. unfold items in H2. cbn [num data] in H2.
  rewrite zlen_app. destruct (Z.leb_spec (num r) (zlen new + zlen spare)); [|lia]. rewrite H2. unfold bind, sk_free, unless_null, bind, get, ret.
  rewrite free_elements_all by assumption. reflexivity.
Qed.
End copies.

(** ** Memory *)

(** The blocks of a stack. *)
Definition blocks_of (s : STACK) : list Z := [8 * num_alloc s; sizeof_STACK].

Section memory.
Context {A : Type} {AL : Allocator A} {AC : Accounting A}.
Context (call_cmp : Z -> Z -> Z -> Z) (qsort : (Z -> Z -> Z) -> list Z -> list Z).

(** Nothing but an insertion calls the allocator. *)
Lemma other_ops_memory o (l : A) s r l1 s1 :
  run_op call_cmp qsort o (l, Some s) = (Ok r, (l1, Some s1)) ->
  match o with Push _ | Insert _ _ => True | _ => l1 = l /\ num_alloc s1 = num_alloc s end.
Proof.
  destruct o; intros E; try exact I; cbn [run_op] in E;
    unfold sk_num, sk_value, sk_pop, sk_shift, sk_delete_ptr, sk_delete, sk_zero, sk_find, sk_sort, sk_is_sorted, sk_set_cmp_func,
      unless_null, set_stack, known, bind, get, ret, stuck in E; simplify_eq; repeat (case_match; simplify_eq); auto.
Qed.

Lemma insert_memory (l : A) s p i rest : wf s -> is_word p -> 0 <= i -> owes l (blocks_of s ++ rest) ->
  forall r l1 s1, sk_insert p i (l, Some s) = (Ok r, (l1, Some s1)) -> owes l1 (blocks_of s1 ++ rest).
Proof.
  intros (Hn & Hd & Hb & Hf) Hp Hi Ho r l1 s1.
  assert (Hresize : forall n, num_alloc s < n < 2 ^ 64 -> forall r l2 s2, resize s n (u64 (n * 8)) (l, Some s) = (Ok r, (l2, s2)) ->
    match r with Some s3 => owes l2 (blocks_of s3 ++ rest) | None => s2 = Some s /\ owes l2 (blocks_of s ++ rest) end).
  { intros n Hlt r1 l2 s2. unfold resize. rewrite overflows_spec by lia. destruct (Z.leb_spec (2 ^ 64) (8 * n)); [intros [= <- <- <-]; auto|].
    unfold bind, realloc_words. rewrite (word64 (n * 8)) by lia. pose proof (length_unwords (data s)) as Hu.
    destruct (OPENSSL_realloc l (unwords (data s)) (n * 8)) as [r0 l0] eqn:E.
    apply (realloc_owes l (unwords (data s)) (n * 8) (sizeof_STACK :: rest)) in E; [|rewrite Hu, Hd; exact Ho].
    destruct r0; intros [= <- <- <-]; cbn [blocks_of num_alloc app].
    - rewrite (Z.mul_comm 8 n). exact E.
    - split; [reflexivity|]. rewrite Hu, Hd in E. exact E. }
  unfold sk_insert, unless_null. rewrite bind_get. cbv beta iota. unfold bind at 1.
  assert (Hgrow : forall r l2 s2, grow s (l, Some s) = (Ok r, (l2, s2)) ->
    match r with Some s3 => owes l2 (blocks_of s3 ++ rest) | None => s2 = Some s /\ owes l2 (blocks_of s ++ rest) end).
  { unfold grow. rewrite (word64 (num s + 1)) by lia. destruct (Z.leb_spec (num_alloc s) (num s + 1)); [|intros r1 l2 s2 [= <- <- <-]; exact Ho].
    rewrite Z.shiftl_mul_pow2 by lia. change (2 ^ 1) with 2. rewrite (word64 (num_alloc s * 2)), (word64 (num_alloc s + 1)) by lia.
    destruct (overflows _ _ _); apply Hresize; lia. }
  destruct (grow s (l, Some s)) as [[g| |] [l2 s2]] eqn:E; try discriminate. specialize (Hgrow _ _ _ eq_refl). destruct g as [g|].
  - unfold bind, known, set_stack, ret, stuck. destruct (place g p i); [intros [= _ <- <-]; exact Hgrow | discriminate].
  - destruct Hgrow as [-> Hgrow]. intros [= _ <- <-]. exact Hgrow.
Qed.

Lemma op_memory o (l : A) s rest r l1 s1 : wf s -> op_ok o -> owes l (blocks_of s ++ rest) ->
  run_op call_cmp qsort o (l, Some s) = (Ok r, (l1, Some s1)) -> owes l1 (blocks_of s1 ++ rest).
Proof.
  intros Hwf Hok Ho E. pose proof (other_ops_memory _ _ _ _ _ _ E) as Hother. pose proof Hwf as (Hn & _).
  unfold blocks_of in *. destruct o; try (destruct Hother as [-> ->]; exact Ho); cbn [run_op op_ok] in *.
  - unfold sk_push, bind, get, ret in E. destruct (sk_insert p (num s) (l, Some s)) as [[n| |] [l2 s2]] eqn:E2; try discriminate.
    injection E as _ <- ->. eapply insert_memory; [exact Hwf | exact Hok | | exact Ho | exact E2]. lia.
  - unfold bind, ret in E. destruct (sk_insert p i (l, Some s)) as [[n| |] [l2 s2]] eqn:E2; try discriminate.
    injection E as _ <- ->. eapply insert_memory; [exact Hwf | apply Hok | apply Hok | exact Ho | exact E2].
Qed.

Lemma free_memory (l : A) s rest : wf s -> owes l (blocks_of s ++ rest) -> owes (free_stack s l) rest.
Proof. intros (_ & Hd & _) Ho. unfold free_stack. rewrite Hd. apply free_owes, free_owes, Ho. Qed.

Lemma new_memory c (l : A) rest : owes l rest ->
  match sk_new c l with
  | (Some s, l1) => owes l1 (blocks_of s ++ rest)
  | (None, l1) => owes l1 rest
  end.
Proof.
  intros Ho. unfold sk_new. destruct (OPENSSL_malloc l sizeof_STACK) as [[b|] l1] eqn:E1; apply (malloc_owes _ _ _ _ _ Ho) in E1; [|exact E1].
  destruct (OPENSSL_malloc l1 (8 * kMinSize)) as [[b2|] l2] eqn:E2; apply (malloc_owes _ _ _ _ _ E1) in E2; [exact E2 | apply free_owes, E2].
Qed.

Lemma sk_new_rep c (l l1 : A) s : sk_new c l = (Some s, l1) -> rep call_cmp s (mk_astack [] false c).
Proof.
  unfold sk_new. repeat case_match; intros [= <- <-]. split; [|repeat split; discriminate].
  split; [cbn; unfold kMinSize; lia|]. split; [reflexivity|]. split; [cbn; unfold kMinSize; lia|]. cbn. repeat constructor; unfold is_word, in_word; lia.
Qed.

(** A deep copy that fails leaves its own blocks nowhere. *)
Lemma deep_copy_memory {U} (call_free : Z -> U -> U) call_copy (u : U) (l : A) s rest r u' l' s' : wf s -> owes l rest ->
  sk_deep_copy call_free call_copy u (l, Some s) = (Ok (r, u'), (l', s')) ->
  match r with Some r => owes l' (blocks_of r ++ rest) | None => owes l' rest end.
Proof.
  intros (Hn & Hd & Hb & Hf) Ho. unfold sk_deep_copy, bind at 1, sk_dup, unless_null. rewrite bind_get. cbv beta iota.
  destruct (OPENSSL_malloc l sizeof_STACK) as [[b|] l1] eqn:E1; apply (malloc_owes _ _ _ _ _ Ho) in E1; [|intros [= <- _ <- _]; exact E1].
  rewrite (word64 (8 * num_alloc s)) by lia.
  destruct (OPENSSL_malloc l1 (8 * num_alloc s)) as [[b2|] l2] eqn:E2; pose proof E2 as E3; apply (malloc_owes _ _ _ _ _ E1) in E2;
    [|intros [= <- _ <- _]; apply free_owes, E2]. apply malloc_length in E3; [|lia].
  destruct (_ && _); [|discriminate]. set (c := mk_stack _ _ _ _ _). destruct (copy_elements _ _ _ _ _) as [[d|] u1].
  - intros [= <- _ <- _]. exact E2.
  - assert (Hz : zlen (data c) = num_alloc s).
    { assert (Hw : zlen (words (Z.to_nat (num_alloc s)) b2) = num_alloc s) by (unfold zlen; rewrite length_words; lia).
      unfold c. cbn [data]. rewrite zlen_splice; rewrite ?zlen_ztake; lia. }
    assert (Hf2 : owes (free_stack c l2) rest) by (unfold free_stack; rewrite Hz; apply free_owes, free_owes, E2).
    unfold bind, ret. generalize dependent (free_stack c l2). intros l3 Hl3 [= <- _ <- _]. exact Hl3.
Qed.

(** C39: a stack returns its memory.  Whichever requests the allocator refuses, a
    stack that is made, used in any way ([sk_set] apart) and freed leaves the
    blocks that were in use before, no block is freed that is not in use, and a
    stack that could not be made leaves nothing behind. *)
Theorem stack_gives_back os c (l : A) rest :
  (forall c, c <> 0 -> comparison (call_cmp c)) -> sorts qsort -> Forall op_ok os -> owes l rest ->
  exists l', owes l' rest /\
    (sk_new c l = (None, l') \/
     exists s l1 rs l2 s2, sk_new c l = (Some s, l1) /\ run_ops call_cmp qsort os (l1, Some s) = (Ok rs, (l2, Some s2)) /\
       sk_free (l2, Some s2) = (Ok tt, (l', None))).
Proof.
  intros Hc Hq Hok Ho. pose proof (new_memory c l rest Ho) as Hnew. destruct (sk_new c l) as [[s|] l1] eqn:En; [|exists l1; auto].
  assert (Hrun : forall os l1 s t, Forall op_ok os -> rep call_cmp s t -> owes l1 (blocks_of s ++ rest) ->
    exists rs l2 s2, run_ops call_cmp qsort os (l1, Some s) = (Ok rs, (l2, Some s2)) /\ wf s2 /\ owes l2 (blocks_of s2 ++ rest)).
  { clear - Hc Hq. intros os. induction os as [|o os IH]; intros l s t Hok Hrep Ho; cbn [run_ops]; [exists [], l, s; split; [reflexivity | split; [apply Hrep | exact Ho]]|].
    apply Forall_cons in Hok as [Hok Hoks]. destruct (op_run call_cmp qsort Hc Hq l s t o Hrep Hok) as (room & l1 & s1 & t1 & r & E & _ & _ & Hrep1).
    destruct (IH l1 s1 t1 Hoks Hrep1 (op_memory o l s rest r l1 s1 (proj1 Hrep) Hok Ho E)) as (rs & l2 & s2 & E2 & H).
    exists (r :: rs), l2, s2. rewrite (bind_Ok _ _ _ _ _ E), (bind_Ok _ _ _ _ _ E2). auto. }
  destruct (Hrun os l1 s _ Hok (sk_new_rep _ _ _ _ En) Hnew) as (rs & l2 & s2 & E & Hwf & Ho2).
  exists (free_stack s2 l2). split; [apply free_memory; assumption|]. right. exists s, l1, rs, l2, s2. auto.
Qed.
End memory.

(** ** Instances *)

Definition subtract (c x y : Z) : Z := x - y.
Lemma subtract_comparison c : comparison (subtract c).
Proof. unfold subtract. split; intros; lia. Qed.

Definition example_stack : STACK := mk_stack 3 [30; 10; 20; 0] 0 4 1.

Lemma example_wf : wf example_stack.
Proof. split; [cbn; lia|]. split; [reflexivity|]. split; [cbn; lia|]. repeat constructor; unfold is_word, in_word; lia. Qed.

Lemma example_rep : rep subtract example_stack (mk_astack [30; 10; 20] false 1).
Proof. split; [exact example_wf|]. do 3 (split; [reflexivity|]). discriminate. Qed.

(** Two insertions, of which the second makes the array grow, a sort, and
    searches before and after it. *)
Definition example_ops : list op := [Find 20; Push 10; Insert 5 1; Sort; Find 10; Delete 0; IsSorted; Find 10; Pop].

Lemma example_ops_ok : Forall op_ok example_ops.
Proof. repeat constructor; cbn; unfold is_word, in_word; lia. Qed.

Lemma stack_refines_witness :
  fst (run_ops (A := unit) subtract reference_qsort example_ops (tt, Some example_stack)) =
    Ok [index (Some 2); word 4; word 5; word 0; index (Some 1); word 5; word 1; index (Some 0); word 30] /\
  exists rs a' s' t', run_ops (A := unit) subtract reference_qsort example_ops (tt, Some example_stack) = (Ok rs, (a', Some s')) /\
    runs_as subtract reference_qsort tt example_stack (mk_astack [30; 10; 20] false 1) example_ops rs a' s' t' /\ rep subtract s' t'.
Proof.
  split; [vm_compute; reflexivity|].
  exact (stack_refines subtract reference_qsort example_ops tt example_stack _
    (fun c _ => subtract_comparison c) reference_qsort_sorts example_rep example_ops_ok).
Defined.

(** The array that [Push 3] needs is refused, the one that [Push 4] needs is not. *)
Lemma stack_gives_back_witness :
  let l := mk_ledger (Some [100]) [false; false; true] in
  let os := [Push 1; Push 2; Push 9; Push 3; Push 4; Push 5; Sort; Delete 1] in
  owes l [100] /\
  exists l', owes l' [100] /\
    (sk_new 1 l = (None, l') \/
     exists s l1 rs l2 s2, sk_new 1 l = (Some s, l1) /\ run_ops subtract reference_qsort os (l1, Some s) = (Ok rs, (l2, Some s2)) /\
       sk_free (l2, Some s2) = (Ok tt, (l', None))).
Proof.
  cbv zeta. assert (Ho : owes (mk_ledger (Some [100]) [false; false; true]) [100]) by (exists [100]; split; reflexivity).
  split; [exact Ho|]. apply (stack_gives_back subtract reference_qsort); [| | | exact Ho].
  - intros c _. apply subtract_comparison.
  - exact reference_qsort_sorts.
  - repeat constructor; cbn; unfold is_word, in_word; lia.
Defined.

Definition sorted_stack : STACK := mk_stack 5 [10; 20; 20; 20; 30; 0; 0; 0] 1 8 1.

Lemma sk_find_first_witness :
  sk_find (A := unit) subtract 20 (tt, Some sorted_stack) = (Ok (Some 1), (tt, Some sorted_stack)).
Proof.
  refine (sk_find_first (A := unit) subtract tt sorted_stack 20 _ _ _ _); [| right | discriminate | discriminate].
  - split; [cbn; lia|]. split; [reflexivity|]. split; [cbn; lia|]. repeat constructor; unfold is_word, in_word; lia.
  - split; [apply subtract_comparison|]. intros i j x y Hij Hx Hy. unfold subtract.
    change (items sorted_stack) with [10; 20; 20; 20; 30] in *.
    destruct i as [|[|[|[|[|i]]]]]; [..| discriminate Hx];
      (destruct j as [|[|[|[|[|j]]]]]; [..| discriminate Hy]); try lia; injection Hx as <-; injection Hy as <-; lia.
Defined.

(** Copies are put after everything that is alive, up to 100. *)
Definition bump (p : Z) (live : gset Z) : Z := let q := 1 + set_fold Z.max 0 live in if q <=? 100 then q else 0.

Lemma bump_allocates : allocates bump.
Proof.
  intros p live. unfold bump. destruct (set_fold_max live) as [H0 H]. cbv zeta.
  destruct (Z.leb_spec (1 + set_fold Z.max 0 live) 100); (split; [unfold is_word, in_word; lia|]); [|contradiction].
  intros _ Hin. specialize (H _ Hin). lia.
Qed.

Lemma sk_deep_copy_no_leak_witness :
  exists a', sk_deep_copy (A := unit) free_object (copy_object bump) (Some ∅) (tt, Some example_stack) = (Ok (None, Some ∅), (a', Some example_stack)) \/
    exists r, sk_deep_copy (A := unit) free_object (copy_object bump) (Some ∅) (tt, Some example_stack) =
      (Ok (Some r, Some (objects (items r) ∪ ∅)), (a', Some example_stack)) /\ wf r /\ Forall2 copy_of (items example_stack) (items r).
Proof.
  destruct (sk_deep_copy_no_leak (A := unit) bump bump_allocates tt example_stack ∅ example_wf) as (a' & [E|(r & E & H1 & H2 & _)]);
    exists a'; [left; exact E | right; exists r; auto].
Defined.

Definition on_sorted_stack {B} (m : M (unit * option STACK) B) : outcome B := fst (m (tt, Some sorted_stack)).

(** [sk_set] does not clear the flag: a sorted stack whose first element is
    replaced by a larger one is still taken for sorted, and [sk_find] says that
    the element is not there. *)
Theorem sk_set_loses_order :
  on_sorted_stack (sk_set (A := unit) 0 40) = Ok 40 /\
  on_sorted_stack (bind (sk_set 0 40) (fun _ => sk_is_sorted)) = Ok 1 /\
  on_sorted_stack (bind (sk_set 0 40) (fun _ => sk_value 0)) = Ok 40 /\
  on_sorted_stack (bind (sk_set 0 40) (fun _ => sk_find subtract 40)) = Ok None.
Proof. vm_compute. auto. Qed.
